(* ===== verification/_CoqProject ===== *)
-Q . S2P
Prelude.v
UpdatePolicy.v
Sha256.v
FatPathPolicy.v
UrlPolicy.v
SignatureEnvelope.v
Json.v
HttpResponse.v
HttpRequest.v
HttpRouter.v
HttpResponseWriter.v
HttpConnection.v
ConnectionContract.v
CommandMailbox.v
LogRing.v
JsonWriter.v
HttpServer.v
TransportLedger.v
DiscoveryCodec.v
UpdateFileSystem.v
VolumeMoments.v
FileTransaction.v
UploadSafety.v
JsonFields.v
BuildInfo.v
GithubRelease.v
ConfigMigration.v
ReleaseManifest.v
SignatureVerifier.v
DraftTicket.v
ReleaseOffer.v
ZipFormat.v
ZipReader.v
ZipOpen.v
ZipStream.v
SimpleUpdateInstaller.v
InstallExtract.v
InstallSafety.v
TextureLayout.v
KeyboardState.v
V3dMmu.v
HttpsStream.v
HttpsSessions.v
GithubClients.v
ClientSafety.v
DeviceFlow.v
FatFsStorage.v
FatFsSafety.v
ConfigSnapshot.v
UpdateService.v
UpdateSafety.v
