(* ===== verification/Prelude.v ===== *)
(** * BMX8bit: a verification library for its update and remote-control core

    BMX8bit runs Commodore and Atari emulators on bare-metal Raspberry Pi boards
    (Circle).  Most of the repository is glue between emulators, Circle and
    display hardware.  Its own logic with a contract of its own sits in two
    places, which are what this library models:

    - the updater (src/src/update): it fetches release metadata and archives
      over HTTPS and decides what may be installed.  Its pure modules take bytes
      from the network or the card and are the ones an attacker reaches first;
    - the remote interface (src/src/remote): an allocation-free HTTP/1.1 server
      and what hangs below it: routers, a mailbox to the emulator, a log ring, a
      JSON writer, a UDP discovery codec.

    ** How the parts interact

    HttpServer accepts transports into connection slots.  A connection feeds
    what it reads to the request parser, asks the router for a route, passes the
    body to the sink of the route and gives the response to the response writer.
    Routers read requests with the helpers of HttpRouter, print with JsonWriter,
    read JSON bodies with Json, and hand work to the emulator through the
    command mailbox; while they work, they may call back into the server.  In the
    updater the response parser and its body decoder receive GitHub's answers,
    the URL policy admits their addresses, Json reads the metadata, the FAT path
    policy its file names, SignatureEnvelope its signatures, Sha256 hashes the
    archives, and UpdatePolicy decides.  From the release metadata, the manifest
    and its signatures an offer is made; the signed archive is then opened by the
    ZIP reader, and the installer extracts it, file by file, onto the volume.  The
    update service keeps the pending offer between the calls of the menu and drives
    all of these: the GitHub clients fetch over HTTPS sessions, the configuration is
    read from the card and assessed, and only an offer that has been authenticated
    again is redeemed by a download to the card and an installation.

    ** Files (in dependency order) and the code they model

    - Prelude: machine integers, buffers, C strings, scanners and number printing
      that several .cpp files share; tactics and hints.
    - UpdatePolicy: update/update_policy.cpp, update_types.cpp, config_schema.cpp.
    - Sha256: update/sha256.cpp, with FIPS 180-4 as the reference.
    - FatPathPolicy: update/fat_path_policy.cpp.
    - UrlPolicy: update/url_policy.cpp, github_repository_policy.h.
    - SignatureEnvelope: update/signature_envelope.cpp (Base64, DER, envelope).
    - Json: update/json_parser.cpp.  The parser is a state monad over its object,
      with undefined behaviour and lack of fuel as outcomes of their own.
    - HttpResponse: update/http_response_parser.cpp, body_sinks.cpp (Module Head,
      Module Body).
    - HttpRequest: remote/http_types.cpp (Module Types), remote/http_parser.cpp
      (Module Parser).
    - HttpRouter: remote/http_router.cpp (Module Helpers, Module Composite).
    - HttpResponseWriter: remote/http_response_writer.cpp, over the classes
      HttpTransport and HttpResponseStream; Module Observe wraps both to record
      what they did.
    - HttpConnection, ConnectionContract: HttpConnection of remote/http_server.cpp
      over the class HttpEnvironment; the contract of http_body_sink.h as an
      automaton over the recorded calls.
    - CommandMailbox: remote/command_mailbox.cpp, with an abstract slot as its
      specification.
    - LogRing: remote/developer_log_ring.cpp.
    - JsonWriter: remote/bounded_json_writer.cpp.
    - HttpServer, TransportLedger: HttpServer of remote/http_server.cpp over the
      class HttpListener; the ledger of transports as an automaton.
    - DiscoveryCodec: remote/developer_discovery_codec.cpp.
    - UpdateFileSystem: the interface update/update_filesystem.h as a class, its
      documented laws, a recorder of every moment, and a volume in memory.
    - VolumeMoments: what one operation of a volume leaves, at every moment; no code
      of its own, shared by the next two and the installer.
    - FileTransaction, UploadSafety: remote/developer_file_transaction.cpp, and
      what it guarantees on every volume that obeys the laws.
    - JsonFields: the accessors and loops over JSON tokens that the readers of
      metadata share, with their lemmas.
    - BuildInfo, GithubRelease, ReleaseManifest: update/build_info.cpp,
      github_release_parser.cpp, release_manifest.cpp.
    - ConfigMigration: update/config_migration.cpp.
    - SignatureVerifier: update/signature_verifier.cpp, trust_store.cpp; the ECDSA
      primitive (Mbed TLS) is a parameter.
    - DraftTicket: update/draft_test_ticket.cpp.
    - ReleaseOffer: update/release_offer.cpp, the composition of the above without
      the ticket.
    - ZipFormat, ZipReader: update/zip_reader.cpp, its pure part and its operations
      over the classes SeekableZipSource, ZipHashSink and ZipExtractSink; inflate
      (miniz) is a parameter.  ZipOpen: what an accepted archive looks like.
      ZipStream: triples over a world, and the loops that stream a member.
    - SimpleUpdateInstaller: update/simple_update_installer.cpp over a volume, an
      archive and a progress object; the sinks are instances of ZipReader's classes.
      InstallExtract: what extracting one file does to the volume.  InstallSafety:
      the plan of an installation, its invariant, and the theorems on [Install].
    - TextureLayout: v3dcrt/rgba8_texture_layout.cpp, where texels lie in memory.
    - V3dMmu: pi4v3d/pi4_v3d_mmu.cpp, the page table of the GPU.
    - KeyboardState: usb_keyboard_state.cpp, several keyboards as one.
    - HttpsStream, HttpsSessions: update/https_stream.cpp over the class
      HttpsEnvironment (TLS streams, cancellation, certificate time); what a request
      does to the network, for every environment.
    - GithubClients: update/github_release_client.cpp, github_draft_client.cpp.
      ClientSafety, DeviceFlow: what their downloads are made of, and that they return.
    - FatFsStorage, FatFsSafety: update/fatfs_update_storage.cpp over the class FatFs,
      the download sink and the archive source; a volume in memory.
    - ConfigSnapshot: update/fatfs_config_snapshot.cpp, over the same class.
    - UpdateService: update/update_service.cpp, a monad over the state of the service
      and the world, with early replies.  UpdateSafety: triples for it, the invariant
      of the state and what an installation has redeemed.

    Operations keep the names of the source.  An operation that changes an object
    takes the object and returns its results with the new object; early returns
    are nested conditionals in the order of the source; virtual functions of
    interfaces are fields of a class, so that a theorem holds for every
    implementation of them; objects that the modelled code only points to
    (transports, sinks, completion hooks) are names, their state is in the
    environment.

    ** What the theorems show

    - decisions: release candidates, paths, URLs, headers, signatures and
      passwords are accepted exactly when an independently stated grammar or
      condition holds (the ..._iff theorems), never by accident of the scanner;
    - formats: parsers accept exactly the printed forms and return what was
      printed (Feed_accepts_requests, ParseSignatureEnvelope_iff,
      HttpBodyDecoder_exact, StringImpl_round_trip, Discovery_exchange,
      Open_strict_sound);
    - trust: an offer has been checked through and through
      (BuildReleaseOfferForMode_sound, on top of ParseReleaseManifest_sound,
      VerifyManifestTrust_exact, ParseGitHubRelease_sound, ParseBuildInfo_sound),
      and a configuration is never lost silently
      (AssessConfigSnapshot_no_silent_loss, on top of Load_complete);
    - transport: HTTPS requests go to authorized hosts only, in at most four
      sessions, and deliver the body that was announced (HttpsRequest_sessions,
      HttpsRequest_Ok_delivers); what a client calls a download was fetched that way
      (CheckLatestRelease_sound, CheckPreparedDraftRelease_sound), and a file gets its
      final name only when it is the promised one (FatFsDownloadSink_publishes);
    - the service: an offer that the user can accept is authenticated in every state
      that calls of the menu can reach (UpdateService_state_ok), everything but an
      installation leaves the volume alone and returns (UpdateService_returns), and an
      installation has redeemed such an offer or has changed nothing
      (InstallCheckedUpdate_redeems);
    - fragmentation: how the network cuts data does not matter (Feed_fragments,
      ParseHttpResponseHead_incremental, Sha256_streaming, HttpBodyDecoder_exact);
    - bounds: no buffer is overrun and no counter wraps (ParseJson_sound,
      BoundedJsonWriter_exact, JsonGetUint64_spec, Start_accepts);
    - histories: over every sequence of calls, body sinks see their contract,
      responses are sent in order, streams are cancelled at most once, transports
      are neither lost nor released twice, the mailbox is a one-slot channel and
      the log ring a window on the whole log;
    - crashes: at every moment of an upload, whatever fails, the target is the
      old or the complete new file, or the old one waits under another name
      (upload_safe, upload_installs); at every moment of an installation the volume
      holds old and signed files only, in the order that makes the new build
      identity a proof of the rest, a refused installation has changed nothing, and
      one that answers Ok is complete (Install_always_safe,
      Install_refusal_untouched, Install_complete);
    - termination: parsers are total functions here; where the source loops on a
      condition, the fuel is shown to suffice.

    ** Bounds and fuel

    Unsigned arithmetic is [Z] with the wrap written at the operation ([u8] to
    [u64]); [size_t] is not given a width, since every size is bounded by the
    length of a buffer.  Fuel appears where the source loops on a condition:
    [parse_fuel] of Json (three units per byte and six more; ParseJson_sound
    shows that it never runs out), the length of the data in [Sha256.update_loop]
    and the header scanners (every turn consumes a byte), four turns in
    [Connection.process_loop] (process_loop_terminates), 20 and 21 digits for a
    64-bit number ([reversed_digits_value]), a turn per 4096 bytes of the archive's
    tail in the signature searches, a turn per input buffer or per byte in the loops
    of [StreamFile] ([measure] decreases), a turn per byte when a file on the volume
    is hashed (Install_always_safe shows that none of these runs out), a turn per
    byte that a response or a file may have in HTTPS and in the service, and one
    more than the directory has entries in [ConfigSnapshot.directory_loop].  Theorems about 64-bit counters
    (SHA-256 lengths, log sequence numbers) assume fewer than 2^61 or 2^64 bytes.

    ** Not modelled

    Null-pointer arguments that are refused at once, locks (they make an
    execution a sequence of operations), and the contents of the [const char *]
    status texts beyond their definitions.  Of update/ and remote/: the REST and
    developer routers, which print the state of the machine and call Circle; the
    adapters to Mbed TLS and to Circle's sockets and tasks, which are calls of code
    outside src/src; the hand-over of an operation from the menu to the network
    task.  Kernel, emulator ports, display
    and GPU drivers act on hardware and on Circle, VICE and atari800, which are
    not part of src/src; they have no contract that a model could be held to. *)
From stdpp Require Export base tactics numbers sets list strings relations.
From Stdlib Require Export ZArith Lia.
From Stdlib Require Import Ascii.

Declare Scope bmx_scope.
Delimit Scope bmx_scope with bmx.
Local Open Scope Z_scope.

(** ** Machine integers: a [w]-bit unsigned value is a [Z] kept in range by an
    explicit wrap. *)
Definition u8 (x : Z) : Z := x mod 2 ^ 8.
Definition u16 (x : Z) : Z := x mod 2 ^ 16.
Definition u32 (x : Z) : Z := x mod 2 ^ 32.
Definition u64 (x : Z) : Z := x mod 2 ^ 64.
Definition UINT32_MAX : Z := 2 ^ 32 - 1.
Definition UINT64_MAX : Z := 2 ^ 64 - 1.
Definition INT32_MAX : Z := 2 ^ 31 - 1.
Definition INT64_MAX : Z := 2 ^ 63 - 1.

(** ** Bytes and byte buffers *)
Notation bytes := (list Z).

Definition is_byte (z : Z) : Prop := 0 <= z < 256.
Definition len {A} (l : list A) : Z := Z.of_nat (length l).

(** Reading a buffer at an index.  Every read of the modelled code is guarded;
    the default is never the value of a guarded read. *)
Definition byte_at (l : bytes) (i : Z) : Z := nth (Z.to_nat i) l 0.

(** [sub l start size] are the bytes [l+start .. l+start+size). *)
Definition sub {A} (l : list A) (start size : Z) : list A :=
  take (Z.to_nat size) (drop (Z.to_nat start) l).

(** [memcpy (dst + off) src (length src)] on a buffer value. *)
Definition memcpy {A} (dst : list A) (off : nat) (src : list A) : list A :=
  take off dst ++ src ++ drop (off + length src) dst.

(** Byte equality of buffers: [memcmp(a, b, n) == 0] on [n] bytes each, and
    [strcmp(a, b) == 0] on C strings. *)
Definition bytes_eqb (a b : bytes) : bool := bool_decide (a = b).

(** Character and string literals of the source. *)
Definition ch (c : ascii) : Z := Z.of_N (N_of_ascii c).
Fixpoint str (s : string) : bytes :=
  match s with
  | EmptyString => []
  | String c s' => ch c :: str s'
  end.

#[global] Arguments str _ : simpl never.
#[global] Arguments ch _ : simpl never.

Definition NUL : Z := 0.
Definition TAB : Z := 9.
Definition LF : Z := 10.
Definition CR : Z := 13.
Definition SP : Z := 32.
Definition QUOTE : Z := 34.
Definition BACKSLASH : Z := 92.

(** Character classes used by several parsers. *)
Definition in_range (lo hi c : Z) : bool := (lo <=? c) && (c <=? hi).
Definition is_digit (c : Z) : bool := in_range 48 57 c.
Definition is_upper (c : Z) : bool := in_range 65 90 c.
Definition is_lower (c : Z) : bool := in_range 97 122 c.
Definition is_alnum (c : Z) : bool := is_digit c || is_upper c || is_lower c.

(** The C string stored at the start of a buffer: the bytes before the first
    NUL ([strlen] of the buffer is the length of this). *)
Fixpoint cstr (l : bytes) : bytes :=
  match l with
  | [] => []
  | c :: l' => if c =? NUL then [] else c :: cstr l'
  end.

(** [memchr]/[strchr]: offset of the first occurrence of a byte. *)
Fixpoint index_of (c : Z) (l : bytes) : option nat :=
  match l with
  | [] => None
  | x :: l' => if x =? c then Some 0%nat else S <$> index_of c l'
  end.

(** The bytes before the first occurrence of [c] (all of them without one). *)
Fixpoint before (c : Z) (l : bytes) : bytes :=
  match l with
  | [] => []
  | x :: l' => if x =? c then [] else x :: before c l'
  end.

(** The components of [l] between occurrences of [c]: always at least one. *)
Fixpoint split_on (c : Z) (l : bytes) : list bytes :=
  match l with
  | [] => [[]]
  | x :: l' =>
      if x =? c then [] :: split_on c l'
      else match split_on c l' with
           | [] => [[x]]
           | h :: t => (x :: h) :: t
           end
  end.

(** Lower-casing of ASCII letters, as the [AsciiLower] helpers of the source. *)
Definition AsciiLower (c : Z) : Z := if is_upper c then c + 32 else c.

(** Prefix test: [strncmp(l, p, strlen(p)) == 0]. *)
Fixpoint starts_with (p l : bytes) : bool :=
  match p, l with
  | [], _ => true
  | c :: p', x :: l' => (c =? x) && starts_with p' l'
  | _ :: _, [] => false
  end.

(** Three-way comparison of two C strings, the sign of [strcmp]. *)
Fixpoint strcmp (a b : bytes) : comparison :=
  match a, b with
  | [], [] => Eq
  | [], _ :: _ => Lt
  | _ :: _, [] => Gt
  | x :: a', y :: b' =>
      match Z.compare x y with
      | Eq => strcmp a' b'
      | c => c
      end
  end.

(** ** Lemmas and automation shared by the components *)
Create HintDb bmx.

(** Splits boolean guards of the code into propositions about [Z]. *)
Ltac zbool :=
  repeat match goal with
  | H : (_ && _) = true |- _ => apply andb_true_iff in H; destruct H
  | H : (_ || _) = false |- _ => apply orb_false_iff in H; destruct H
  | H : negb _ = true |- _ => apply negb_true_iff in H
  | H : negb _ = false |- _ => apply negb_false_iff in H
  | H : (_ =? _) = true |- _ => apply Z.eqb_eq in H
  | H : (_ =? _) = false |- _ => apply Z.eqb_neq in H
  | H : (_ <? _) = true |- _ => apply Z.ltb_lt in H
  | H : (_ <? _) = false |- _ => apply Z.ltb_ge in H
  | H : (_ <=? _) = true |- _ => apply Z.leb_le in H
  | H : (_ <=? _) = false |- _ => apply Z.leb_gt in H
  | H : (_ >? _) = true |- _ => rewrite Z.gtb_ltb in H; apply Z.ltb_lt in H
  | H : (_ >? _) = false |- _ => rewrite Z.gtb_ltb in H; apply Z.ltb_ge in H
  | H : (_ >=? _) = true |- _ => rewrite Z.geb_leb in H; apply Z.leb_le in H
  | H : (_ >=? _) = false |- _ => rewrite Z.geb_leb in H; apply Z.leb_gt in H
  | H : Nat.eqb _ _ = true |- _ => apply Nat.eqb_eq in H
  | H : Nat.eqb _ _ = false |- _ => apply Nat.eqb_neq in H
  | H : Nat.ltb _ _ = true |- _ => apply Nat.ltb_lt in H
  | H : Nat.ltb _ _ = false |- _ => apply Nat.ltb_ge in H
  | H : Nat.leb _ _ = true |- _ => apply Nat.leb_le in H
  | H : Nat.leb _ _ = false |- _ => apply Nat.leb_gt in H
  end.

(** Drives a hypothesis [f args = result] through the early returns of [f]. *)
Ltac guards H :=
  repeat match type of H with
  | (if ?b then _ else _) = _ => destruct b eqn:?; try discriminate H
  | match ?o with Some _ => _ | None => _ end = _ =>
      destruct o eqn:?; try discriminate H
  end.

Section lists.
Context {A : Type}.
Implicit Types l : list A.

Lemma len_nonneg l : 0 <= len l.
Proof. unfold len. lia. Qed.

Lemma len_app l1 l2 : len (l1 ++ l2) = len l1 + len l2.
Proof. unfold len. rewrite length_app. lia. Qed.

Lemma len_cons x l : len (x :: l) = 1 + len l.
Proof. unfold len. simpl. lia. Qed.

Lemma len_nil : len (@nil A) = 0.
Proof. done. Qed.

Lemma length_memcpy (dst src : list A) off :
  (off + length src <= length dst)%nat ->
  length (memcpy dst off src) = length dst.
Proof.
  intros. unfold memcpy. rewrite !length_app, length_take, length_drop. lia.
Qed.

Lemma memcpy_prefix (dst src : list A) off :
  (off + length src <= length dst)%nat ->
  take (off + length src) (memcpy dst off src) = take off dst ++ src.
Proof.
  intros. unfold memcpy. rewrite app_assoc, take_app_le.
  - rewrite take_ge; [done|]. rewrite length_app, length_take. lia.
  - rewrite length_app, length_take. lia.
Qed.

Lemma lookup_memcpy (dst src : list A) off i :
  (off + length src <= length dst)%nat ->
  memcpy dst off src !! i =
  if decide (off <= i < off + length src)%nat then src !! (i - off)%nat else dst !! i.
Proof.
  intros H. unfold memcpy. assert (Ht : length (take off dst) = off) by (rewrite length_take; lia).
  destruct (decide (i < off)%nat).
  - rewrite lookup_app_l, lookup_take_lt by lia. rewrite decide_False by lia. done.
  - rewrite lookup_app_r, Ht by lia. case_decide.
    + by rewrite lookup_app_l by lia.
    + rewrite lookup_app_r, lookup_drop by lia. f_equal. lia.
Qed.

Lemma sub_length l start size :
  0 <= start -> 0 <= size -> start + size <= len l ->
  len (sub l start size) = size.
Proof.
  unfold sub, len. intros. rewrite length_take, length_drop. lia.
Qed.
End lists.

Lemma bytes_eqb_eq a b : bytes_eqb a b = true <-> a = b.
Proof. unfold bytes_eqb. apply bool_decide_eq_true. Qed.

Lemma bytes_eqb_neq a b : bytes_eqb a b = false <-> a <> b.
Proof. unfold bytes_eqb. apply bool_decide_eq_false. Qed.

Lemma bytes_eqb_refl a : bytes_eqb a a = true.
Proof. by apply bytes_eqb_eq. Qed.

Lemma starts_with_spec p l :
  starts_with p l = true <-> exists r, l = p ++ r.
Proof.
  revert l. induction p as [|c p IH]; intros l; simpl.
  { split; [by exists l | done]. }
  destruct l as [|x l]; [split; [done | by intros [r ?]]|].
  rewrite andb_true_iff, Z.eqb_eq, IH. split.
  - intros [-> [r ->]]. by exists r.
  - intros [r [= -> ->]]. eauto.
Qed.

Lemma strcmp_eq a b : strcmp a b = Eq <-> a = b.
Proof.
  revert b. induction a as [|x a IH]; intros [|y b]; simpl; try done.
  destruct (Z.compare_spec x y) as [->|?|?].
  - rewrite IH. split; [by intros -> | by intros [= ->]].
  - split; [done | intros [= -> ->]; lia].
  - split; [done | intros [= -> ->]; lia].
Qed.

Lemma strcmp_lt_trans a b c :
  strcmp a b = Lt -> strcmp b c = Lt -> strcmp a c = Lt.
Proof.
  revert b c. induction a as [|x a IH]; intros [|y b] [|z c]; simpl; try done.
  destruct (Z.compare_spec x y), (Z.compare_spec y z); subst; try done.
  - rewrite Z.compare_refl. apply IH.
  - rewrite (proj2 (Z.compare_lt_iff y z)); [done | lia].
  - rewrite (proj2 (Z.compare_lt_iff x z)); [done | lia].
  - rewrite (proj2 (Z.compare_lt_iff x z)); [done | lia].
Qed.

Lemma index_of_Some c l i :
  index_of c l = Some i ->
  exists r, l = take i l ++ c :: r /\ c ∉ take i l /\ r = drop (S i) l.
Proof.
  revert i. induction l as [|x l IH]; intros i; simpl; [done|].
  destruct (x =? c) eqn:E.
  - intros [= <-]. zbool. subst. exists l. simpl. set_solver.
  - zbool. destruct (index_of c l) as [j|] eqn:Ej; simpl; [|done].
    intros [= <-]. destruct (IH j eq_refl) as (r & Hl & Hn & Hr).
    exists r. simpl. split; [by f_equal|]. split; [set_solver | done].
Qed.

Lemma index_of_None c l : index_of c l = None <-> c ∉ l.
Proof.
  induction l as [|x l IH]; simpl; [set_solver|].
  destruct (x =? c) eqn:E; zbool.
  - subst. set_solver.
  - destruct (index_of c l); simpl; split; try done; intros; set_solver.
Qed.

Lemma index_of_app_new c l1 l2 :
  c ∉ l1 -> index_of c (l1 ++ c :: l2) = Some (length l1).
Proof.
  induction l1 as [|x l1 IH]; intros Hn; simpl.
  - by rewrite Z.eqb_refl.
  - destruct (x =? c) eqn:E; zbool; [set_solver|].
    rewrite IH; [done | set_solver].
Qed.

Lemma cstr_no_nul l : NUL ∉ cstr l.
Proof.
  induction l as [|c l IH]; simpl; [set_solver|].
  destruct (c =? NUL) eqn:E; zbool; set_solver.
Qed.

Lemma cstr_id l : NUL ∉ l -> cstr l = l.
Proof.
  induction l as [|c l IH]; simpl; [done|]. intros Hn.
  destruct (c =? NUL) eqn:E; zbool; [set_solver|].
  rewrite IH; [done | set_solver].
Qed.

Lemma u64_small x : 0 <= x < 2 ^ 64 -> u64 x = x.
Proof. apply Z.mod_small. Qed.

Lemma u8_range x : is_byte (u8 x).
Proof. unfold u8, is_byte. apply Z.mod_pos_bound. lia. Qed.

Lemma u32_range x : 0 <= u32 x < 2 ^ 32.
Proof. apply Z.mod_pos_bound. lia. Qed.

#[export] Hint Resolve len_nonneg u8_range cstr_no_nul : bmx.
#[export] Hint Rewrite @len_app @len_cons @len_nil : bmx.

(** Bit-level bounds: bytes are closed under the bitwise operations. *)
Lemma byte_log2 x : 0 <= x < 256 -> x = 0 \/ (0 < x /\ Z.log2 x < 8).
Proof.
  intros. destruct (Z.eq_dec x 0); [by left|]. right. split; [lia|].
  apply Z.log2_lt_pow2; lia.
Qed.

Lemma lt_pow2_intro x n : 0 <= x -> 0 < n -> (x <> 0 -> Z.log2 x < n) -> x < 2 ^ n.
Proof.
  intros Hx Hn H. destruct (Z.eq_dec x 0) as [->|Hne].
  - apply Z.pow_pos_nonneg; lia.
  - apply Z.log2_lt_pow2; [lia | auto].
Qed.

Lemma log2_lt_of_lt_pow2 x n : 0 <= x < 2 ^ n -> 0 < n -> Z.log2 x < n.
Proof.
  intros [? ?] ?. destruct (Z.eq_dec x 0) as [->|]; [simpl; lia|].
  apply Z.log2_lt_pow2; lia.
Qed.

Lemma lor_bound x y n :
  0 < n -> 0 <= x < 2 ^ n -> 0 <= y < 2 ^ n -> 0 <= Z.lor x y < 2 ^ n.
Proof.
  intros Hn Hx Hy. split; [apply Z.lor_nonneg; lia|].
  apply lt_pow2_intro; [apply Z.lor_nonneg; lia | done |]. intros _.
  rewrite Z.log2_lor by lia.
  pose proof (log2_lt_of_lt_pow2 x n Hx Hn). pose proof (log2_lt_of_lt_pow2 y n Hy Hn). lia.
Qed.

Lemma lxor_bound x y n :
  0 < n -> 0 <= x < 2 ^ n -> 0 <= y < 2 ^ n -> 0 <= Z.lxor x y < 2 ^ n.
Proof.
  intros Hn Hx Hy. split; [apply Z.lxor_nonneg; lia|].
  apply lt_pow2_intro; [apply Z.lxor_nonneg; lia | done |]. intros _.
  pose proof (Z.log2_lxor x y ltac:(lia) ltac:(lia)).
  pose proof (log2_lt_of_lt_pow2 x n Hx Hn). pose proof (log2_lt_of_lt_pow2 y n Hy Hn). lia.
Qed.

Lemma Forall_nth_byte l i : Forall is_byte l -> is_byte (nth i l 0).
Proof.
  intros H. destruct (decide (i < length l)%nat) as [Hi|Hi].
  - eapply List.Forall_forall; [done|]. apply nth_In. done.
  - rewrite nth_overflow by lia. unfold is_byte. lia.
Qed.

(** Splitting: the components contain no separator and rebuild the list. *)
Lemma split_on_nonempty c l : split_on c l <> [].
Proof.
  destruct l as [|x l]; simpl; [done|].
  destruct (x =? c); [done|]. by destruct (split_on c l).
Qed.

Lemma split_on_Forall (P : Z -> Prop) c l :
  Forall (fun b => b <> c -> P b) l <-> Forall (Forall P) (split_on c l).
Proof.
  induction l as [|x l IH]; simpl; [split; intros; auto|].
  rewrite Forall_cons, IH. destruct (x =? c) eqn:E; zbool.
  - subst. rewrite Forall_cons. naive_solver.
  - destruct (split_on c l) as [|h t] eqn:Es; [by apply split_on_nonempty in Es|].
    rewrite !Forall_cons. naive_solver.
Qed.

Lemma split_on_app c l1 l2 h t :
  c ∉ l1 -> split_on c l2 = h :: t -> split_on c (l1 ++ l2) = (l1 ++ h) :: t.
Proof.
  induction l1 as [|x l1 IH]; simpl; [done|]. intros Hn Hs.
  destruct (x =? c) eqn:E; zbool; [set_solver|].
  rewrite IH; [done | set_solver | done].
Qed.

Lemma split_on_head c l : head (split_on c l) = Some (before c l).
Proof.
  induction l as [|x l IH]; simpl; [done|].
  destruct (x =? c); [done|]. destruct (split_on c l); simpl in *; by inversion IH.
Qed.

Lemma split_on_snoc c l : split_on c (l ++ [c]) = split_on c l ++ [[]].
Proof.
  induction l as [|x l IH]; simpl; [by rewrite Z.eqb_refl|].
  rewrite IH. destruct (x =? c); [done|].
  destruct (split_on c l) as [|h t] eqn:Es; [by apply split_on_nonempty in Es | done].
Qed.

Lemma before_prefix c l : before c l = take (length (before c l)) l.
Proof.
  induction l as [|x l IH]; simpl; [done|].
  destruct (x =? c); simpl; [done | by f_equal].
Qed.

Lemma index_of_is_None c l :
  match index_of c l with Some _ => true | None => false end = false <-> c ∉ l.
Proof. rewrite <- index_of_None. by destruct (index_of c l). Qed.

Lemma forallb_Forall_bool {A} (f : A -> bool) l :
  forallb f l = true <-> Forall (fun x => f x = true) l.
Proof. rewrite forallb_forall, List.Forall_forall. done. Qed.

Lemma existsb_Forall_bool {A} (f : A -> bool) l :
  existsb f l = false <-> Forall (fun x => f x = false) l.
Proof.
  induction l as [|x l IH]; simpl; [by split|].
  rewrite orb_false_iff, Forall_cons, IH. done.
Qed.

Lemma in_range_spec lo hi c : in_range lo hi c = true <-> lo <= c <= hi.
Proof. unfold in_range. rewrite andb_true_iff, !Z.leb_le. done. Qed.

(** The usual way to use a successful search: the list is split at the hit. *)
Lemma index_of_split c l i :
  index_of c l = Some i -> exists a r, l = a ++ c :: r /\ length a = i /\ c ∉ a.
Proof.
  intros H. destruct (index_of_Some c l i H) as (r & Hl & Hn & _).
  exists (take i l), r. split; [done|]. split; [|done].
  assert (length l = (length (take i l) + S (length r))%nat) as Hlen
    by (rewrite Hl at 1; by rewrite length_app).
  rewrite length_take in *. lia.
Qed.

Lemma drop_app_cons_length {A} (a : list A) c r : drop (S (length a)) (a ++ c :: r) = r.
Proof. rewrite drop_app_ge by lia. by replace (S (length a) - length a)%nat with 1%nat by lia. Qed.

(** Disjoint bit fields: [lor] of a multiple of [2^n] and a value below [2^n]. *)
Lemma lor_add_disjoint x b n :
  0 <= n -> 0 <= b < 2 ^ n -> Z.lor (x * 2 ^ n) b = x * 2 ^ n + b.
Proof.
  intros Hn Hb.
  assert (H0 : Z.land (x * 2 ^ n) b = 0).
  { rewrite <- Z.shiftl_mul_pow2 by lia. apply Z.bits_inj'. intros i Hi.
    rewrite Z.land_spec, Z.bits_0, Z.shiftl_spec by lia.
    destruct (Z.ltb_spec i n); [by rewrite Z.testbit_neg_r by lia|].
    destruct (Z.eq_dec b 0) as [->|]; [by rewrite Z.bits_0, andb_false_r|].
    rewrite (Z.bits_above_log2 b), andb_false_r; [done | lia |].
    apply Z.lt_le_trans with n; [|done]. apply Z.log2_lt_pow2; lia. }
  by rewrite Z.add_nocarry_lxor, Z.lxor_lor by done.
Qed.

Ltac divmod_lia := Z.to_euclidean_division_equations; lia.

(** A boolean property of a byte is checked on the 256 values. *)
Lemma byte_exhaust (P : Z -> bool) :
  forallb P (Z.of_nat <$> seq 0 256) = true -> forall z, is_byte z -> P z = true.
Proof.
  intros H z [Hz1 Hz2]. rewrite forallb_forall in H. apply H.
  apply list_elem_of_In, list_elem_of_fmap. exists (Z.to_nat z).
  split; [lia|]. apply elem_of_seq. lia.
Qed.

(** Reading and cutting a text at a known split. *)
Lemma len_snoc {A} (l : list A) x : len (l ++ [x]) = len l + 1.
Proof. unfold len. rewrite length_app. cbn [length]. lia. Qed.

Lemma byte_at_app (pre r : bytes) k : 0 <= k -> byte_at (pre ++ r) (len pre + k) = byte_at r k.
Proof.
  intros Hk. unfold byte_at, len.
  rewrite app_nth2 by lia. f_equal. lia.
Qed.

Lemma byte_at_here (pre r : bytes) c : byte_at (pre ++ c :: r) (len pre) = c.
Proof. by rewrite <- (Z.add_0_r (len pre)), byte_at_app. Qed.

Lemma sub_app (pre t r : list Z) n : n = len t -> sub (pre ++ t ++ r) (len pre) n = t.
Proof.
  intros ->. unfold sub, len. rewrite !Nat2Z.id, drop_app_length, take_app_length. done.
Qed.

(** Bytes are checked by evaluation. *)
Lemma forallb_is_byte l : forallb (in_range 0 255) l = true -> Forall is_byte l.
Proof.
  intros H%forallb_Forall_bool. eapply Forall_impl; [exact H|]. intros z Hz%in_range_spec. unfold is_byte. lia.
Qed.

Ltac len_facts :=
  repeat match goal with
  | |- context [len ?l] =>
      lazymatch goal with H : 0 <= len l |- _ => fail | _ => pose proof (len_nonneg l) end
  | H : context [len ?l] |- _ =>
      lazymatch goal with H : 0 <= len l |- _ => fail | _ => pose proof (len_nonneg l) end
  end.

Lemma in_range_false lo hi v : in_range lo hi v = false <-> ~ (lo <= v <= hi).
Proof. rewrite <- in_range_spec. by destruct (in_range lo hi v). Qed.

Lemma byte_at_off (pre r : bytes) k i : i = len pre + k -> 0 <= k -> byte_at (pre ++ r) i = byte_at r k.
Proof. intros ->. apply byte_at_app. Qed.

(** [strchr(set, c) != 0]: the search includes the terminating NUL. *)
Definition strchr_found (set : bytes) (c : Z) : bool :=
  match index_of c (set ++ [NUL]) with Some _ => true | None => false end.

Lemma strchr_found_spec set c : strchr_found set c = true <-> c ∈ set ++ [NUL].
Proof.
  unfold strchr_found. pose proof (index_of_None c (set ++ [NUL])) as Hn.
  destruct (index_of c (set ++ [NUL])); split; try done; intros Hc; [|by apply Hn in Hc].
  destruct (decide (c ∈ set ++ [NUL])) as [|Hx]; [done|]. by apply Hn in Hx.
Qed.

(** Decimal texts and their value. *)
Definition digits (d : bytes) : Prop := Forall (fun c => is_digit c = true) d.

Definition decimal (acc : Z) (d : bytes) : Z := fold_left (fun a c => a * 10 + (c - 48)) d acc.

Lemma decimal_ge d acc : digits d -> 0 <= acc -> acc <= decimal acc d.
Proof.
  intros H. revert acc. induction H as [|c d Hc Hd IH]; intros acc Ha; cbn [decimal fold_left]; [lia|].
  apply in_range_spec in Hc. specialize (IH (acc * 10 + (c - 48)) ltac:(lia)).
  unfold decimal in IH. lia.
Qed.

(** ** Scanners that the HTTP parsers of the source have in common *)
(** [IsTokenCharacter]: [strchr] also finds the terminating NUL. *)
Definition IsTokenCharacter (c : Z) : bool :=
  is_lower c || is_upper c || is_digit c ||
  strchr_found (str "!#$%&'*+-.^_`|~") c.

(** The two loops that skip white space around a header value. *)
Definition is_ows (c : Z) : bool := (c =? SP) || (c =? TAB).
Fixpoint skip_ows (l : bytes) : bytes :=
  match l with
  | c :: l' => if is_ows c then skip_ows l' else l
  | [] => []
  end.
Definition trim (l : bytes) : bytes := rev (skip_ows (rev (skip_ows l))).

(** The header value bytes that are refused: controls other than TAB, and DEL. *)
Definition bad_value_byte (c : Z) : bool := ((c <? 0x20) && negb (c =? TAB)) || (c =? 0x7f).

(** The overflow-checked decimal loop and the non-empty decimal built on it. *)
Fixpoint decimal_loop (v : bytes) (result : Z) : option Z :=
  match v with
  | [] => Some result
  | c :: v' =>
      if (c <? 48) || (57 <? c) then None
      else
        let digit := c - 48 in
        if (UINT64_MAX - digit) / 10 <? result then None
        else decimal_loop v' (u64 (u64 (result * 10) + digit))
  end.
Definition decimal_u64 (v : bytes) : option Z :=
  if len v =? 0 then None else decimal_loop v 0.

Lemma decimal_loop_spec v n acc : 0 <= acc <= UINT64_MAX ->
  decimal_loop v acc = Some n <-> digits v /\ n = decimal acc v /\ n <= UINT64_MAX.
Proof.
  revert acc. induction v as [|c v IH]; intros acc Ha; cbn [decimal_loop].
  { cbn [decimal fold_left]. split; [intros [= <-]; repeat split; [constructor | lia] | by intros (_ & -> & _)]. }
  change (decimal acc (c :: v)) with (decimal (acc * 10 + (c - 48)) v).
  destruct ((c <? 48) || (57 <? c)) eqn:Ec.
  { split; [done|]. intros [Hd _]. inversion Hd as [|? ? Hc]; subst. apply in_range_spec in Hc.
    rewrite (proj2 (Z.ltb_ge c 48)), (proj2 (Z.ltb_ge 57 c)) in Ec by lia. done. }
  zbool. assert (Hc : is_digit c = true) by (apply in_range_spec; lia).
  destruct (Z.ltb_spec ((UINT64_MAX - (c - 48)) / 10) acc) as [Hov|Hov].
  - split; [done|]. intros (Hd & -> & Hm). inversion Hd as [|? ? ? Hv]; subst.
    pose proof (decimal_ge v (acc * 10 + (c - 48)) Hv ltac:(lia)). divmod_lia.
  - assert (acc * 10 + (c - 48) <= UINT64_MAX) by divmod_lia. unfold UINT64_MAX in *.
    rewrite !u64_small by (rewrite ?u64_small; lia). rewrite IH by lia.
    unfold digits. rewrite Forall_cons. tauto.
Qed.

Lemma decimal_u64_spec v n :
  decimal_u64 v = Some n <-> v <> [] /\ digits v /\ n = decimal 0 v /\ n <= UINT64_MAX.
Proof.
  unfold decimal_u64. destruct v as [|c v]; [split; [done | by intros [? _]]|].
  rewrite len_cons. pose proof (len_nonneg v). rewrite (proj2 (Z.eqb_neq _ 0)) by lia.
  rewrite decimal_loop_spec by (unfold UINT64_MAX; lia). split; [|tauto]. intros. by split.
Qed.

(** [trim] removes white space only. *)
Lemma skip_ows_split l : exists w, l = w ++ skip_ows l /\ Forall (fun c => is_ows c = true) w.
Proof.
  induction l as [|c l (w & Hl & Hw)]; cbn [skip_ows]; [by exists []|].
  destruct (is_ows c) eqn:E; [|by exists []]. exists (c :: w). split; [cbn; by f_equal | by constructor].
Qed.

Lemma trim_split l : exists w1 w2, l = w1 ++ trim l ++ w2 /\
  Forall (fun c => is_ows c = true) w1 /\ Forall (fun c => is_ows c = true) w2.
Proof.
  destruct (skip_ows_split l) as (w1 & H1 & Hw1).
  destruct (skip_ows_split (rev (skip_ows l))) as (w2 & H2 & Hw2).
  exists w1, (rev w2). unfold trim. split; [|split; [done|]].
  - rewrite H1 at 1. f_equal. rewrite <- (rev_involutive (skip_ows l)) at 1. rewrite H2 at 1.
    by rewrite rev_app_distr.
  - by apply Forall_rev.
Qed.

Lemma existsb_bad_trim l :
  existsb bad_value_byte (trim l) = false <-> Forall (fun c => bad_value_byte c = false) l.
Proof.
  destruct (trim_split l) as (w1 & w2 & Hl & Hw1 & Hw2). rewrite existsb_Forall_bool.
  assert (Hb : forall w, Forall (fun c => is_ows c = true) w -> Forall (fun c => bad_value_byte c = false) w).
  { intros w Hw. eapply Forall_impl; [exact Hw|]. intros c Hc. unfold is_ows in Hc.
    apply orb_true_iff in Hc as [Hc|Hc]; apply Z.eqb_eq in Hc; by subst. }
  rewrite Hl at 2. rewrite !Forall_app. split; [|tauto]. intros. split; [auto|]. split; auto.
Qed.

(** The digits of a number, last digit first, as the printing loops of the source
    produce them into an array of [fuel] places. *)
Fixpoint reversed_digits (fuel : nat) (value : Z) : bytes :=
  match fuel with
  | O => []
  | S fuel' =>
      (48 + value mod 10) ::
      (if value / 10 =? 0 then [] else reversed_digits fuel' (value / 10))
  end.

(** Decimal digits of a number, most significant first. *)
Definition decimal_text (value : Z) : bytes := rev (reversed_digits 21 value).

Lemma reversed_digits_value fuel v : 0 <= v < 10 ^ Z.of_nat fuel -> (0 < fuel)%nat ->
  digits (rev (reversed_digits fuel v)) /\ decimal 0 (rev (reversed_digits fuel v)) = v /\
  reversed_digits fuel v <> [].
Proof.
  revert v. induction fuel as [|fuel IH]; intros v Hv Hf; [lia|]. cbn [reversed_digits rev].
  assert (Hd : is_digit (48 + v mod 10) = true) by (apply in_range_spec; divmod_lia).
  destruct (Z.eqb_spec (v / 10) 0) as [E|E].
  - cbn [rev app]. split; [by repeat constructor|]. split; [|done]. cbn. divmod_lia.
  - destruct fuel as [|fuel]; [change (10 ^ Z.of_nat 1) with 10 in Hv; divmod_lia|].
    destruct (IH (v / 10)) as (H1 & H2 & H3); [|lia|].
    { rewrite (Nat2Z.inj_succ (S fuel)), Z.pow_succ_r in Hv by lia. divmod_lia. }
    split; [apply Forall_app; split; [done | by repeat constructor]|]. split; [|done].
    unfold decimal in *. rewrite fold_left_app, H2. cbn [fold_left]. divmod_lia.
Qed.

(** The places suffice as soon as the number is below [10 ^ fuel]. *)
Lemma reversed_digits_fuel fuel : forall fuel' v, 0 <= v < 10 ^ Z.of_nat fuel -> (0 < fuel <= fuel')%nat ->
  reversed_digits fuel' v = reversed_digits fuel v.
Proof.
  induction fuel as [|fuel IH]; intros fuel' v Hv Hf; [lia|]. destruct fuel' as [|fuel']; [lia|].
  cbn [reversed_digits]. f_equal. destruct (Z.eqb_spec (v / 10) 0); [done|].
  destruct fuel as [|fuel]; [change (10 ^ Z.of_nat 1) with 10 in Hv; divmod_lia|].
  apply IH; [|lia]. rewrite (Nat2Z.inj_succ (S fuel)), Z.pow_succ_r in Hv by lia. divmod_lia.
Qed.

(** The printed number reads back: 21 places are enough for 64 bits. *)
Lemma decimal_text_u64 v : 0 <= v <= UINT64_MAX -> decimal_u64 (decimal_text v) = Some v.
Proof.
  intros Hv. destruct (reversed_digits_value 21 v) as (H1 & H2 & H3); [|lia|].
  { split; [lia|]. eapply Z.le_lt_trans; [apply Hv|]. by vm_compute. }
  apply decimal_u64_spec. unfold decimal_text. repeat split; [|done|done|lia].
  intros E. apply H3. rewrite <- (rev_involutive (reversed_digits 21 v)), E. done.
Qed.
