(* ===== verification/UpdatePolicy.v ===== *)
(** * Update eligibility policy

    Models [src/update/update_types.*], [src/update/update_policy.*] and
    [src/update/config_schema.*]: which invocations may start an update, which
    release candidate may replace the installed release, and the configuration
    areas a release may declare. *)
From S2P Require Import Prelude.
Local Open Scope Z_scope.

Inductive BoardFamily := BoardUnknown | Pi4Pi400 | Pi5Pi500.
Inductive ReleaseChannel := ChannelUnknown | Stable | Prerelease.

#[export] Instance BoardFamily_eq_dec : EqDecision BoardFamily.
Proof. solve_decision. Defined.
#[export] Instance ReleaseChannel_eq_dec : EqDecision ReleaseChannel.
Proof. solve_decision. Defined.

Definition IsKnownBoardFamily (board : BoardFamily) : bool :=
  bool_decide (board = Pi4Pi400) || bool_decide (board = Pi5Pi500).

Inductive UpdateInvocation :=
  | InvocationUnknown | ConfirmedUpdateMenuAction | Boot | EmulatorStart
  | NetworkEnabled | NetworkBecameReady | MenuOpened | MenuIdle | Timer
  | LocalRecovery.

#[export] Instance UpdateInvocation_eq_dec : EqDecision UpdateInvocation.
Proof. solve_decision. Defined.

Record UpdateStartContext := {
  invocation : UpdateInvocation;
  network_feature_enabled : bool;
  network_ready : bool
}.

Inductive UpdateStartDecision :=
  | Allowed | NotExplicitUserAction | NetworkFeatureDisabled | NetworkNotReady.

Definition EvaluateUpdateStart (context : UpdateStartContext) : UpdateStartDecision :=
  if negb (bool_decide (invocation context = ConfirmedUpdateMenuAction))
  then NotExplicitUserAction
  else if negb (network_feature_enabled context) then NetworkFeatureDisabled
  else if negb (network_ready context) then NetworkNotReady
  else Allowed.

Inductive ReleaseSource := SourceUnknown | GitHubLatestKdreBmx | SourceOther.

#[export] Instance ReleaseSource_eq_dec : EqDecision ReleaseSource.
Proof. solve_decision. Defined.

Record InstalledRelease := {
  has_update_metadata : bool;
  installed_sequence : Z;
  installed_board : BoardFamily;
  installed_updater_abi : Z
}.

Record ReleaseCandidate := {
  candidate_source : ReleaseSource;
  candidate_channel : ReleaseChannel;
  api_reports_draft : bool;
  api_reports_prerelease : bool;
  candidate_sequence : Z;
  candidate_board : BoardFamily;
  minimum_updater_abi : Z;
  maximum_updater_abi : Z
}.

Inductive ReleaseDecision :=
  | UpdateAvailable | LegacyInstallation | InvalidInstalledMetadata
  | UnsupportedSource | NotStable | InvalidCandidateMetadata | BoardMismatch
  | UpdaterAbiMismatch | AlreadyCurrent | DowngradeDenied.

Definition EvaluateReleaseCandidate (installed : InstalledRelease)
    (candidate : ReleaseCandidate) : ReleaseDecision :=
  if negb (has_update_metadata installed) then LegacyInstallation
  else if negb (IsKnownBoardFamily (installed_board installed))
          || (installed_sequence installed =? 0)
          || (installed_updater_abi installed =? 0)
  then InvalidInstalledMetadata
  else if negb (bool_decide (candidate_source candidate = GitHubLatestKdreBmx))
  then UnsupportedSource
  else if negb (bool_decide (candidate_channel candidate = Stable))
          || api_reports_draft candidate || api_reports_prerelease candidate
  then NotStable
  else if negb (IsKnownBoardFamily (candidate_board candidate))
          || (candidate_sequence candidate =? 0)
          || (minimum_updater_abi candidate =? 0)
          || (maximum_updater_abi candidate =? 0)
          || (maximum_updater_abi candidate <? minimum_updater_abi candidate)
  then InvalidCandidateMetadata
  else if negb (bool_decide (candidate_board candidate = installed_board installed))
  then BoardMismatch
  else if (installed_updater_abi installed <? minimum_updater_abi candidate)
          || (maximum_updater_abi candidate <? installed_updater_abi installed)
  then UpdaterAbiMismatch
  else if candidate_sequence candidate =? installed_sequence installed
  then AlreadyCurrent
  else if candidate_sequence candidate <? installed_sequence installed
  then DowngradeDenied
  else UpdateAvailable.

(** Configuration areas ([config_schema]). *)
Inductive ConfigArea :=
  | ConfigAreaUnknown | Machines | ConfigManagedBlock | CmdlineManagedKeys
  | Network | Settings | UpdateState.

#[export] Instance ConfigArea_eq_dec : EqDecision ConfigArea.
Proof. solve_decision. Defined.

Definition IsKnownConfigArea (area : ConfigArea) : bool :=
  bool_decide (area = Machines) || bool_decide (area = ConfigManagedBlock)
  || bool_decide (area = CmdlineManagedKeys) || bool_decide (area = Network)
  || bool_decide (area = Settings) || bool_decide (area = UpdateState).

(** ** What eligibility means, independently of the order of the checks *)

(** The release described by a candidate the updater accepted, as the running
    installation's metadata (the updater ABI is that of the new binary). *)
Definition eligible (installed : InstalledRelease) (candidate : ReleaseCandidate) : Prop :=
  has_update_metadata installed = true /\
  candidate_source candidate = GitHubLatestKdreBmx /\
  candidate_channel candidate = Stable /\
  api_reports_draft candidate = false /\ api_reports_prerelease candidate = false /\
  candidate_board candidate = installed_board installed /\
  installed_board installed <> BoardUnknown /\
  minimum_updater_abi candidate <> 0 /\
  minimum_updater_abi candidate <= installed_updater_abi installed
    <= maximum_updater_abi candidate /\
  installed_sequence installed <> 0 /\
  installed_sequence installed < candidate_sequence candidate.

(** Metadata fields are unsigned in the source. *)
Definition installed_wf (i : InstalledRelease) : Prop :=
  0 <= installed_sequence i /\ 0 <= installed_updater_abi i.
Definition candidate_wf (c : ReleaseCandidate) : Prop :=
  0 <= candidate_sequence c /\ 0 <= minimum_updater_abi c /\ 0 <= maximum_updater_abi c.

(** One accepted update: the installation reports the candidate's sequence and
    board afterwards, with the ABI of the new binary. *)
Inductive update_step : InstalledRelease -> InstalledRelease -> Prop :=
  | update_step_intro installed candidate abi :
      installed_wf installed -> candidate_wf candidate -> 0 <= abi ->
      EvaluateReleaseCandidate installed candidate = UpdateAvailable ->
      update_step installed
        {| has_update_metadata := true;
           installed_sequence := candidate_sequence candidate;
           installed_board := candidate_board candidate;
           installed_updater_abi := abi |}.

Lemma IsKnownBoardFamily_spec b : IsKnownBoardFamily b = true <-> b <> BoardUnknown.
Proof. destruct b; by vm_compute. Qed.

Lemma IsKnownBoardFamily_false b : IsKnownBoardFamily b = false <-> b = BoardUnknown.
Proof. destruct b; by vm_compute. Qed.

Lemma eligible_evaluate installed candidate :
  installed_wf installed -> candidate_wf candidate ->
  EvaluateReleaseCandidate installed candidate = UpdateAvailable <->
  eligible installed candidate.
Proof.
  intros [? ?] (? & ? & ?). unfold eligible. split.
  - intros Heval. unfold EvaluateReleaseCandidate in Heval. guards Heval. zbool.
    repeat match goal with
    | H : bool_decide _ = true |- _ => apply bool_decide_eq_true in H
    | H : IsKnownBoardFamily _ = true |- _ => apply IsKnownBoardFamily_spec in H
    end. intuition lia.
  - unfold EvaluateReleaseCandidate.
    intros (-> & -> & -> & -> & -> & -> & Hk & ? & ? & ? & ?).
    apply IsKnownBoardFamily_spec in Hk. rewrite Hk, !bool_decide_eq_true_2 by done.
    simpl.
    repeat match goal with |- context [?x =? ?y] =>
      rewrite (proj2 (Z.eqb_neq x y)) by lia end.
    repeat match goal with |- context [?x <? ?y] =>
      rewrite (proj2 (Z.ltb_ge x y)) by lia end. done.
Qed.

(** C16. An update is offered exactly when it is eligible: installed metadata is
    present and valid, the candidate is a stable, published release of the
    canonical repository for the same known board, its updater-ABI window
    contains the installed ABI, and its release sequence is strictly greater. *)
Theorem EvaluateReleaseCandidate_iff installed candidate
    (Hi : installed_wf installed) (Hc : candidate_wf candidate) :
  EvaluateReleaseCandidate installed candidate = UpdateAvailable <->
  eligible installed candidate.
Proof. by apply eligible_evaluate. Qed.

Definition sample_installed : InstalledRelease :=
  {| has_update_metadata := true; installed_sequence := 7;
     installed_board := Pi5Pi500; installed_updater_abi := 2 |}.
Definition sample_candidate : ReleaseCandidate :=
  {| candidate_source := GitHubLatestKdreBmx; candidate_channel := Stable;
     api_reports_draft := false; api_reports_prerelease := false;
     candidate_sequence := 8; candidate_board := Pi5Pi500;
     minimum_updater_abi := 1; maximum_updater_abi := 3 |}.

Lemma EvaluateReleaseCandidate_iff_witness : eligible sample_installed sample_candidate.
Proof.
  apply (EvaluateReleaseCandidate_iff sample_installed sample_candidate);
    [split; vm_compute; congruence | repeat split; vm_compute; congruence | reflexivity].
Defined.

(** Along any chain of accepted updates the release sequence never decreases
    (it grows by at least one per update) and the board family never changes:
    no sequence of individually accepted updates amounts to a downgrade or a
    cross-board installation. *)
Theorem update_chain_monotone (n : nat) installed installed'
    (H : nsteps update_step n installed installed') :
  installed_sequence installed + Z.of_nat n <= installed_sequence installed' /\
  installed_board installed' = installed_board installed.
Proof.
  induction H as [i|n i1 i2 i3 Hstep _ IH]; [split; [lia | done]|].
  destruct Hstep as [i c abi Hi Hc _ Heval].
  apply eligible_evaluate in Heval; [|done..].
  destruct Heval as (_ & _ & _ & _ & _ & Hb & _ & _ & _ & _ & Hseq).
  simpl in IH. rewrite Hb in IH. destruct IH. split; [lia | done].
Qed.

Lemma update_chain_monotone_witness :
  let i' := {| has_update_metadata := true; installed_sequence := 8;
               installed_board := Pi5Pi500; installed_updater_abi := 3 |} in
  installed_sequence sample_installed + 1 <= installed_sequence i' /\
  installed_board i' = installed_board sample_installed.
Proof.
  refine (update_chain_monotone 1 sample_installed _ _).
  eapply nsteps_l; [|apply nsteps_O].
  apply (update_step_intro sample_installed sample_candidate 3);
    [split; vm_compute; congruence | repeat split; vm_compute; congruence | lia | reflexivity].
Defined.
