(* ===== verification/Sha256.v ===== *)
(** * Streaming SHA-256

    Models the class [Sha256] of [src/update/sha256.cpp]: the compression
    function [Transform], the buffered [Update], the padding of [Final], the
    one-shot [Sha256Digest] and the constant-time comparison.  The
    specification is the padded-message definition of FIPS 180-4; the theorems
    show that any split of a message into [Update] calls computes it. *)
From S2P Require Import Prelude.
Local Open Scope Z_scope.

Definition RotateRight (value count : Z) : Z :=
  Z.lor (Z.shiftr value count) (u32 (Z.shiftl value (32 - count))).

Definition LoadBigEndian32 (input : bytes) : Z :=
  Z.lor (Z.lor (Z.lor (Z.shiftl (byte_at input 0) 24) (Z.shiftl (byte_at input 1) 16))
               (Z.shiftl (byte_at input 2) 8)) (byte_at input 3).

Definition StoreBigEndian32 (value : Z) : bytes :=
  [u8 (Z.shiftr value 24); u8 (Z.shiftr value 16); u8 (Z.shiftr value 8); u8 value].

(** One line of the table of round constants. *)
Definition quad (k0 k1 k2 k3 : Z) : list Z := [k0; k1; k2; k3].

Definition kRoundConstants : list Z :=
  quad 0x428a2f98 0x71374491 0xb5c0fbcf 0xe9b5dba5 ++
  quad 0x3956c25b 0x59f111f1 0x923f82a4 0xab1c5ed5 ++
  quad 0xd807aa98 0x12835b01 0x243185be 0x550c7dc3 ++
  quad 0x72be5d74 0x80deb1fe 0x9bdc06a7 0xc19bf174 ++
  quad 0xe49b69c1 0xefbe4786 0x0fc19dc6 0x240ca1cc ++
  quad 0x2de92c6f 0x4a7484aa 0x5cb0a9dc 0x76f988da ++
  quad 0x983e5152 0xa831c66d 0xb00327c8 0xbf597fc7 ++
  quad 0xc6e00bf3 0xd5a79147 0x06ca6351 0x14292967 ++
  quad 0x27b70a85 0x2e1b2138 0x4d2c6dfc 0x53380d13 ++
  quad 0x650a7354 0x766a0abb 0x81c2c92e 0x92722c85 ++
  quad 0xa2bfe8a1 0xa81a664b 0xc24b8b70 0xc76c51a3 ++
  quad 0xd192e819 0xd6990624 0xf40e3585 0x106aa070 ++
  quad 0x19a4c116 0x1e376c08 0x2748774c 0x34b0bcb5 ++
  quad 0x391c0cb3 0x4ed8aa4a 0x5b9cca4f 0x682e6ff3 ++
  quad 0x748f82ee 0x78a5636f 0x84c87814 0x8cc70208 ++
  quad 0x90befffa 0xa4506ceb 0xbef9a3f7 0xc67178f2.

Definition initial_state : list Z := [
  0x6a09e667; 0xbb67ae85; 0x3c6ef372; 0xa54ff53a;
  0x510e527f; 0x9b05688c; 0x1f83d9ab; 0x5be0cd19].

Record Sha256 := {
  state_ : list Z;
  total_bytes_ : Z;
  buffer_ : bytes;
  buffer_size_ : nat;
  finalized_ : bool
}.

Definition Reset : Sha256 :=
  {| state_ := initial_state; total_bytes_ := 0; buffer_ := replicate 64 0;
     buffer_size_ := 0; finalized_ := false |}.

(** The message schedule: [words[0..15]] from the block, then one word per
    index [16..63], each appended at its index. *)
Definition load_words (block : bytes) : list Z :=
  (fun i => LoadBigEndian32 (drop (4 * i) block)) <$> seq 0 16.

Definition extend_word (words : list Z) (i : nat) : list Z :=
  let w j := byte_at words (Z.of_nat i - j) in
  let s0 := Z.lxor (Z.lxor (RotateRight (w 15) 7) (RotateRight (w 15) 18))
                   (Z.shiftr (w 15) 3) in
  let s1 := Z.lxor (Z.lxor (RotateRight (w 2) 17) (RotateRight (w 2) 19))
                   (Z.shiftr (w 2) 10) in
  words ++ [u32 (w 16 + s0 + w 7 + s1)].

Definition schedule (block : bytes) : list Z :=
  fold_left extend_word (seq 16 48) (load_words block).

(** The eight working variables [a..h]. *)
Record working := { wa : Z; wb : Z; wc : Z; wd : Z; we : Z; wf : Z; wg : Z; wh : Z }.

Definition round (words : list Z) (s : working) (i : nat) : working :=
  let sum1 := Z.lxor (Z.lxor (RotateRight (we s) 6) (RotateRight (we s) 11))
                     (RotateRight (we s) 25) in
  let choice := Z.lxor (Z.land (we s) (wf s))
                       (Z.land (u32 (Z.lnot (we s))) (wg s)) in
  let temporary1 := u32 (wh s + sum1 + choice + nth i kRoundConstants 0
                         + nth i words 0) in
  let sum0 := Z.lxor (Z.lxor (RotateRight (wa s) 2) (RotateRight (wa s) 13))
                     (RotateRight (wa s) 22) in
  let majority := Z.lxor (Z.lxor (Z.land (wa s) (wb s)) (Z.land (wa s) (wc s)))
                         (Z.land (wb s) (wc s)) in
  let temporary2 := u32 (sum0 + majority) in
  {| wh := wg s; wg := wf s; wf := we s; we := u32 (wd s + temporary1);
     wd := wc s; wc := wb s; wb := wa s; wa := u32 (temporary1 + temporary2) |}.

Definition compress (state : list Z) (block : bytes) : list Z :=
  let words := schedule block in
  let st i := nth i state 0 in
  let s := fold_left (round words) (seq 0 64)
             {| wa := st 0%nat; wb := st 1%nat; wc := st 2%nat; wd := st 3%nat;
                we := st 4%nat; wf := st 5%nat; wg := st 6%nat; wh := st 7%nat |} in
  [u32 (st 0%nat + wa s); u32 (st 1%nat + wb s); u32 (st 2%nat + wc s);
   u32 (st 3%nat + wd s); u32 (st 4%nat + we s); u32 (st 5%nat + wf s);
   u32 (st 6%nat + wg s); u32 (st 7%nat + wh s)].

Definition with_state (s : Sha256) (st : list Z) : Sha256 :=
  {| state_ := st; total_bytes_ := total_bytes_ s; buffer_ := buffer_ s;
     buffer_size_ := buffer_size_ s; finalized_ := finalized_ s |}.
Definition with_buffer (s : Sha256) (b : bytes) (n : nat) : Sha256 :=
  {| state_ := state_ s; total_bytes_ := total_bytes_ s; buffer_ := b;
     buffer_size_ := n; finalized_ := finalized_ s |}.

(** [Transform(buffer_)]. *)
Definition Transform (s : Sha256) (block : bytes) : Sha256 :=
  with_state s (compress (state_ s) block).

(** The [while (size != 0U)] loop of [Update]; [fuel] bounds the number of
    iterations, each of which consumes at least one input byte. *)
Fixpoint update_loop (fuel : nat) (s : Sha256) (input : bytes) : option Sha256 :=
  match input with
  | [] => Some s
  | _ =>
    match fuel with
    | O => None
    | S fuel =>
      let copy_size := Nat.min (64 - buffer_size_ s) (length input) in
      let s1 := with_buffer s
                  (memcpy (buffer_ s) (buffer_size_ s) (take copy_size input))
                  (buffer_size_ s + copy_size) in
      let s2 := if (buffer_size_ s1 =? 64)%nat
                then with_buffer (Transform s1 (buffer_ s1)) (buffer_ s1) 0
                else s1 in
      update_loop fuel s2 (drop copy_size input)
    end
  end.

(** [Update(data, size)] for a non-null [data] of [size] bytes: the success
    flag and the object afterwards. *)
Definition Update (s : Sha256) (data : bytes) : bool * Sha256 :=
  if finalized_ s || (UINT64_MAX - total_bytes_ s <? len data) then (false, s)
  else
    let s1 := {| state_ := state_ s; total_bytes_ := u64 (total_bytes_ s + len data);
                 buffer_ := buffer_ s; buffer_size_ := buffer_size_ s;
                 finalized_ := finalized_ s |} in
    match update_loop (length data) s1 data with
    | Some s2 => (true, s2)
    | None => (false, s1)
    end.

(** The eight length bytes written to [buffer_[56..63]]. *)
Definition length_bytes (total_bits : Z) : bytes :=
  (fun i => u8 (Z.shiftr total_bits (8 * (7 - Z.of_nat i)))) <$> seq 0 8.

Definition Final (s : Sha256) : option bytes * Sha256 :=
  if finalized_ s || (UINT64_MAX / 8 <? total_bytes_ s) then (None, s)
  else
    let total_bits := u64 (total_bytes_ s * 8) in
    let s1 := with_buffer s (memcpy (buffer_ s) (buffer_size_ s) [0x80])
                          (buffer_size_ s + 1) in
    let s2 := if (56 <? buffer_size_ s1)%nat
              then
                let b := memcpy (buffer_ s1) (buffer_size_ s1)
                                (replicate (64 - buffer_size_ s1) 0) in
                with_buffer (Transform s1 b) b 0
              else s1 in
    let b := memcpy (buffer_ s2) (buffer_size_ s2)
                    (replicate (56 - buffer_size_ s2) 0) in
    let b' := memcpy b 56 (length_bytes total_bits) in
    let s3 := Transform (with_buffer s2 b' (buffer_size_ s2)) b' in
    let digest := concat (StoreBigEndian32 <$> take 8 (state_ s3)) in
    (Some digest,
     {| state_ := state_ s3; total_bytes_ := total_bytes_ s3;
        buffer_ := replicate 64 0; buffer_size_ := buffer_size_ s3;
        finalized_ := true |}).

Definition Sha256Digest (input : bytes) : option bytes :=
  let '(ok, s) := Update Reset input in
  if ok then fst (Final s) else None.

Definition ConstantTimeDigestEqual (left right : bytes) : bool :=
  fold_left (fun difference i =>
      u8 (Z.lor difference (Z.lxor (nth i left 0) (nth i right 0))))
    (seq 0 32) 0 =? 0.

(** ** Specification: FIPS 180-4 over the whole padded message *)
Definition blocks (fuel : nat) (m : bytes) : list bytes :=
  (fun i => take 64 (drop (64 * i) m)) <$> seq 0 fuel.

Definition pad (m : bytes) : bytes :=
  let zeros := Nat.modulo (119 - Nat.modulo (length m) 64) 64 in
  m ++ [0x80] ++ replicate zeros 0 ++ length_bytes (8 * len m).

Definition hash_state (m : bytes) : list Z :=
  fold_left compress (blocks (length m / 64) m) initial_state.

Definition sha256_spec (m : bytes) : bytes :=
  concat (StoreBigEndian32 <$> hash_state (pad m)).

(** A sequence of [Update] calls on one object, all of which must succeed. *)
Fixpoint feed (s : Sha256) (chunks : list bytes) : option Sha256 :=
  match chunks with
  | [] => Some s
  | c :: cs => let '(ok, s') := Update s c in if ok then feed s' cs else None
  end.

(** The object after absorbing [m]: whole blocks are folded into the state, the
    remainder sits at the start of the buffer. *)
Definition absorbed (s : Sha256) (m : bytes) : Prop :=
  exists full r k,
    m = full ++ r /\ length full = (64 * k)%nat /\ (length r < 64)%nat /\
    state_ s = hash_state full /\ buffer_size_ s = length r /\
    take (length r) (buffer_ s) = r /\ length (buffer_ s) = 64%nat.

(** ** Proofs *)
Lemma hash_state_snoc full b k :
  length full = (64 * k)%nat -> length b = 64%nat ->
  hash_state (full ++ b) = compress (hash_state full) b.
Proof.
  intros Hf Hb. unfold hash_state, blocks.
  rewrite length_app, Hf, Hb.
  replace ((64 * k + 64) / 64)%nat with (S k)
    by (replace (64 * k + 64)%nat with (S k * 64)%nat by lia; by rewrite Nat.div_mul).
  replace (64 * k / 64)%nat with k by (rewrite Nat.mul_comm; by rewrite Nat.div_mul).
  rewrite seq_S, fmap_app, fold_left_app. cbn [fmap list_fmap fold_left].
  rewrite Nat.add_0_l.
  f_equal.
  - f_equal. apply list_fmap_ext. intros j i Hi.
    apply lookup_seq in Hi as [-> Hi].
    rewrite drop_app_le by lia. rewrite take_app_le; [done|].
    rewrite length_drop. lia.
  - rewrite drop_app_ge by lia. rewrite Hf, Nat.sub_diag, drop_0.
    rewrite take_ge; [done | lia].
Qed.

Lemma length_compress st b : length (compress st b) = 8%nat.
Proof. done. Qed.

Lemma length_hash_state m : length (hash_state m) = 8%nat.
Proof.
  unfold hash_state. generalize (blocks (length m / 64) m). intros bs.
  destruct bs as [|b bs _] using rev_ind; [done|].
  by rewrite fold_left_app.
Qed.

Lemma update_loop_absorbed fuel s m input :
  (length input <= fuel)%nat -> absorbed s m ->
  exists s', update_loop fuel s input = Some s' /\ absorbed s' (m ++ input) /\
             total_bytes_ s' = total_bytes_ s /\ finalized_ s' = finalized_ s.
Proof.
  revert s m input. induction fuel as [|fuel IH]; intros s m input Hfuel Hs.
  { destruct input; [|simpl in Hfuel; lia]. exists s. by rewrite app_nil_r. }
  destruct input as [|x input']; [exists s; by rewrite app_nil_r|].
  set (input := x :: input') in *.
  destruct Hs as (full & r & k & -> & Hfull & Hr & Hst & Hsz & Hbuf & Hlen).
  cbn [update_loop]. fold input.
  set (n := Nat.min (64 - buffer_size_ s) (length input)).
  assert (Hn : (0 < n /\ n <= 64 - length r /\ n <= length input)%nat)
    by (subst n input; simpl; lia).
  assert (Htk : length (take n input) = n) by (rewrite length_take; lia).
  set (s1 := with_buffer s (memcpy (buffer_ s) (buffer_size_ s) (take n input))
               (buffer_size_ s + n)).
  assert (Hpre : take (length r + n) (buffer_ s1) = r ++ take n input).
  { subst s1. simpl. rewrite Hsz.
    replace (length r + n)%nat with (length r + length (take n input))%nat by lia.
    rewrite memcpy_prefix by lia. by rewrite Hbuf. }
  assert (Hlen1 : length (buffer_ s1) = 64%nat)
    by (subst s1; simpl; rewrite length_memcpy; lia).
  assert (Hsplit : r ++ input = (r ++ take n input) ++ drop n input)
    by (by rewrite <- app_assoc, take_drop).
  set (s2 := if (buffer_size_ s1 =? 64)%nat
             then with_buffer (Transform s1 (buffer_ s1)) (buffer_ s1) 0 else s1).
  assert (Hs2 : absorbed s2 (full ++ r ++ take n input) /\
                total_bytes_ s2 = total_bytes_ s /\ finalized_ s2 = finalized_ s).
  { subst s2. destruct (Nat.eqb_spec (buffer_size_ s1) 64) as [E|E].
    - assert (Hall : buffer_ s1 = r ++ take n input).
      { rewrite <- Hpre, take_ge; [done|]. subst s1. simpl in *. lia. }
      split; [|done]. exists (full ++ r ++ take n input), [], (S k). simpl.
      assert (length (r ++ take n input) = 64%nat) by (rewrite <- Hall; done).
      rewrite app_nil_r, length_app. repeat split; try done; try lia.
      rewrite (hash_state_snoc full _ k) by done.
      rewrite <- Hall, <- Hst. done.
    - split; [|done]. exists full, (r ++ take n input), k.
      rewrite length_app, Htk. repeat split; try done.
      + subst s1. simpl in *. lia.
      + subst s1. simpl. lia. }
  destruct Hs2 as (Habs & Ht & Hf).
  destruct (IH s2 (full ++ r ++ take n input) (drop n input)) as (s' & He & Ha & Ht' & Hf').
  { rewrite length_drop. simpl in Hfuel. subst input. simpl in *. lia. }
  { done. }
  exists s'. split; [done|]. split; [|split; congruence].
  rewrite <- app_assoc, Hsplit, (app_assoc full). done.
Qed.

Lemma Update_absorbed s m data :
  absorbed s m -> finalized_ s = false -> total_bytes_ s = len m ->
  len m + len data <= UINT64_MAX ->
  exists s', Update s data = (true, s') /\ absorbed s' (m ++ data) /\
             finalized_ s' = false /\ total_bytes_ s' = len (m ++ data).
Proof.
  intros Ha Hf Ht Hle. unfold Update. rewrite Hf, Ht.
  rewrite (proj2 (Z.ltb_ge _ _)) by lia. cbn [orb].
  edestruct (update_loop_absorbed (length data)) as (s' & -> & Ha' & Ht' & Hf').
  { done. }
  { exact Ha. }
  exists s'. split; [done|]. split; [done|]. simpl in *. split; [done|].
  rewrite Ht', len_app. apply u64_small. unfold UINT64_MAX in Hle.
  pose proof (len_nonneg m). pose proof (len_nonneg data). lia.
Qed.

Lemma feed_absorbed chunks s m :
  absorbed s m -> finalized_ s = false -> total_bytes_ s = len m ->
  len m + len (concat chunks) <= UINT64_MAX ->
  exists s', feed s chunks = Some s' /\ absorbed s' (m ++ concat chunks) /\
             finalized_ s' = false /\ total_bytes_ s' = len (m ++ concat chunks).
Proof.
  revert s m. induction chunks as [|c cs IH]; intros s m Ha Hf Ht Hle; simpl.
  { exists s. by rewrite app_nil_r. }
  simpl in Hle. rewrite len_app in Hle.
  destruct (Update_absorbed s m c) as (s1 & -> & Ha1 & Hf1 & Ht1); try done.
  { pose proof (len_nonneg (concat cs)). lia. }
  destruct (IH s1 (m ++ c)) as (s' & -> & Ha' & Hf' & Ht'); try done.
  { rewrite len_app. lia. }
  rewrite <- app_assoc in Ha', Ht'. by exists s'.
Qed.

Lemma absorbed_Reset : absorbed Reset [].
Proof. exists [], [], 0%nat. repeat split; simpl; lia. Qed.

(** Padding, in the two cases distinguished by [Final]. *)
Lemma pad_short full r k :
  length full = (64 * k)%nat -> (length r < 56)%nat ->
  pad (full ++ r) = full ++ (r ++ [0x80] ++ replicate (55 - length r) 0 ++
                             length_bytes (8 * len (full ++ r))).
Proof.
  intros Hf Hr. unfold pad. rewrite length_app, Hf.
  replace ((64 * k + length r) mod 64)%nat with (length r)
    by (rewrite Nat.add_comm, Nat.mul_comm, Nat.Div0.mod_add, Nat.mod_small; lia).
  replace ((119 - length r) mod 64)%nat with (55 - length r)%nat
    by (replace (119 - length r)%nat with (55 - length r + 1 * 64)%nat by lia;
        rewrite Nat.Div0.mod_add, Nat.mod_small; lia).
  by rewrite <- app_assoc.
Qed.

Lemma pad_long full r k :
  length full = (64 * k)%nat -> (56 <= length r < 64)%nat ->
  pad (full ++ r) =
    (full ++ (r ++ [0x80] ++ replicate (63 - length r) 0)) ++
    (replicate 56 0 ++ length_bytes (8 * len (full ++ r))).
Proof.
  intros Hf Hr. unfold pad. rewrite length_app, Hf.
  replace ((64 * k + length r) mod 64)%nat with (length r)
    by (rewrite Nat.add_comm, Nat.mul_comm, Nat.Div0.mod_add, Nat.mod_small; lia).
  rewrite (Nat.mod_small (119 - length r)) by lia.
  replace (119 - length r)%nat with ((63 - length r) + 56)%nat by lia.
  rewrite replicate_add. by rewrite <- !app_assoc.
Qed.

Lemma length_length_bytes n : length (length_bytes n) = 8%nat.
Proof. done. Qed.

(** Two consecutive writes that fill the rest of a 64-byte buffer whose first
    bytes are [pre]. *)
Lemma fill2 (b pre s1 s2 : bytes) n :
  length b = 64%nat -> take (length pre) b = pre ->
  n = (length pre + length s1)%nat -> (n + length s2)%nat = 64%nat ->
  memcpy (memcpy b (length pre) s1) n s2 = pre ++ s1 ++ s2.
Proof.
  intros Hb Hp -> Hn.
  assert (H1 : length (memcpy b (length pre) s1) = 64%nat)
    by (rewrite length_memcpy; lia).
  rewrite <- (take_ge (memcpy (memcpy b _ _) _ _) 64)
    by (rewrite length_memcpy; lia).
  rewrite <- Hn, memcpy_prefix, memcpy_prefix, Hp by lia. by rewrite app_assoc.
Qed.

#[local] Opaque compress.

Lemma Final_absorbed s m :
  absorbed s m -> finalized_ s = false -> total_bytes_ s = len m ->
  len m <= UINT64_MAX / 8 ->
  fst (Final s) = Some (sha256_spec m).
Proof.
  intros (full & r & k & -> & Hfull & Hr & Hst & Hsz & Hbuf & Hlen) Hf Ht Hle.
  unfold Final. rewrite Hf, Ht, (proj2 (Z.ltb_ge _ _)) by lia. cbn [orb].
  replace (u64 (len (full ++ r) * 8)) with (8 * len (full ++ r)).
  2: { rewrite u64_small; [lia|]. pose proof (len_nonneg (full ++ r)).
       change (UINT64_MAX / 8) with 2305843009213693951 in Hle. lia. }
  set (lb := length_bytes (8 * len (full ++ r))).
  set (b1 := memcpy (buffer_ s) (buffer_size_ s) [0x80]).
  assert (Hlr : length (r ++ [0x80]) = (length r + 1)%nat) by (by rewrite length_app).
  assert (Hb1 : length b1 = 64%nat /\ take (length (r ++ [0x80])) b1 = r ++ [0x80]).
  { subst b1. rewrite Hsz, length_memcpy by (simpl; lia). split; [done|].
    rewrite length_app, memcpy_prefix, Hbuf by (simpl; lia). done. }
  destruct Hb1 as [Hb1 Hp1].
  unfold sha256_spec. cbn [fst with_buffer buffer_size_ buffer_]. rewrite Hsz, <- Hlr.
  rewrite take_ge by (cbn [Transform with_state state_]; rewrite length_compress; lia).
  do 3 f_equal.
  destruct (Nat.ltb_spec 56 (length (r ++ [0x80]))) as [Hc|Hc];
    cbn [Transform with_state with_buffer state_ buffer_size_ buffer_].
  - rewrite (pad_long full r k) by (done || lia).
    rewrite (hash_state_snoc _ _ (S k)), (hash_state_snoc full _ k Hfull), Hst
      by (rewrite ?length_app, ?length_length_bytes, ?length_replicate; simpl; lia).
    rewrite (fill2 _ [] (replicate 56 0) lb)
      by (rewrite ?length_memcpy; rewrite ?length_replicate; done || lia).
    subst b1. rewrite Hsz, Hlr, fill2
      by (rewrite ?length_replicate; simpl; done || lia).
    replace (64 - (length r + 1))%nat with (63 - length r)%nat by lia. reflexivity.
  - rewrite (pad_short full r k) by (done || lia).
    rewrite (hash_state_snoc full _ k Hfull), Hst
      by (rewrite ?length_app, ?length_length_bytes, ?length_replicate; simpl; lia).
    rewrite fill2 by (rewrite ?length_replicate, ?length_length_bytes; done || lia).
    rewrite <- app_assoc, Hlr.
    replace (56 - (length r + 1))%nat with (55 - length r)%nat by lia. reflexivity.
Qed.



(** The object is single-use: once [Final] has produced a digest, both
    [Update] and [Final] refuse without changing the object. *)
Theorem Sha256_finalized_refuses (s : Sha256) (data : bytes) :
  let s' := snd (Final s) in
  finalized_ s' = true ->
  Update s' data = (false, s') /\ Final s' = (None, s').
Proof.
  intros s' Hf. unfold Update, Final. rewrite Hf. done.
Qed.

Lemma difference_step d l r :
  is_byte d -> is_byte l -> is_byte r ->
  is_byte (u8 (Z.lor d (Z.lxor l r))) /\
  (u8 (Z.lor d (Z.lxor l r)) = 0 <-> d = 0 /\ l = r).
Proof.
  intros Hd Hl Hr. split; [apply u8_range|]. unfold is_byte in *.
  pose proof (lxor_bound l r 8 ltac:(lia) ltac:(lia) ltac:(lia)).
  pose proof (lor_bound d (Z.lxor l r) 8 ltac:(lia) ltac:(lia) ltac:(lia)).
  unfold u8. rewrite Z.mod_small by lia.
  by rewrite Z.lor_eq_0_iff, Z.lxor_eq_0_iff.
Qed.

Lemma difference_fold left right n i d :
  Forall is_byte left -> Forall is_byte right -> is_byte d ->
  fold_left (fun difference i =>
      u8 (Z.lor difference (Z.lxor (nth i left 0) (nth i right 0)))) (seq i n) d = 0 <->
  d = 0 /\ forall j, (i <= j < i + n)%nat -> nth j left 0 = nth j right 0.
Proof.
  intros Hl Hr. revert i d. induction n as [|n IH]; intros i d Hd; simpl.
  { split; [intros ->; split; [done | lia] | by intros [-> _]]. }
  destruct (difference_step d (nth i left 0) (nth i right 0)) as [Hb Hz];
    [done | by apply Forall_nth_byte | by apply Forall_nth_byte |].
  rewrite IH, Hz by done. split.
  - intros [[-> Heq] Hrest]. split; [done|]. intros j Hj.
    destruct (decide (j = i)) as [->|]; [done | apply Hrest; lia].
  - intros [-> Hall]. repeat split; intros; apply Hall; lia.
Qed.

(** The constant-time comparison decides equality of 32-byte digests: the
    accumulated difference is zero exactly when every byte agrees. *)
Theorem ConstantTimeDigestEqual_spec (left right : bytes)
    (Hl : length left = 32%nat) (Hr : length right = 32%nat)
    (Bl : Forall is_byte left) (Br : Forall is_byte right) :
  ConstantTimeDigestEqual left right = true <-> left = right.
Proof.
  unfold ConstantTimeDigestEqual. rewrite Z.eqb_eq.
  rewrite difference_fold by (done || (unfold is_byte; lia)). split.
  - intros [_ H]. apply (nth_ext _ _ 0 0); [lia|]. intros j Hj. apply H. lia.
  - intros ->. done.
Qed.

Lemma ConstantTimeDigestEqual_spec_witness :
  ConstantTimeDigestEqual (replicate 32 7) (replicate 32 7) = true <->
  replicate 32 7 = replicate 32 7.
Proof.
  apply (ConstantTimeDigestEqual_spec (replicate 32 7) (replicate 32 7));
    [reflexivity | reflexivity | |]; apply Forall_replicate; split; lia.
Defined.

(** FIPS 180-4 example messages, evaluated through the streaming object. *)
Definition hex (digest : option bytes) : option Z :=
  (fun d => fold_left (fun acc b => acc * 256 + b) d 0) <$> digest.

Example sha256_empty :
  hex (Sha256Digest []) =
  Some 0xe3b0c44298fc1c149afbf4c8996fb92427ae41e4649b934ca495991b7852b855.
Proof. vm_compute. reflexivity. Qed.

Example sha256_abc :
  hex (Sha256Digest (str "abc")) =
  Some 0xba7816bf8f01cfea414140de5dae2223b00361a396177a9cb410ff61f20015ad.
Proof. vm_compute. reflexivity. Qed.

Example sha256_two_blocks :
  hex (Sha256Digest (str "abcdbcdecdefdefgefghfghighijhijkijkljklmklmnlmnomnopnopq")) =
  Some 0x248d6a61d20638b8e5c026930c3e6039a33ce45964ff2167f6ecedd419db06c1.
Proof. vm_compute. reflexivity. Qed.

Lemma Sha256_finalized_refuses_witness :
  let s' := snd (Final Reset) in
  Update s' (str "x") = (false, s') /\ Final s' = (None, s').
Proof. apply (Sha256_finalized_refuses Reset (str "x")). vm_compute. reflexivity. Defined.
