(* ===== verification/FatPathPolicy.v ===== *)
(** * FAT path policy

    Models [src/update/fat_path_policy.cpp]: the release-path, developer-path
    and media-path validators.  The specification is a predicate on the
    components of the path between slashes; the theorems show that the
    index-based validation loops decide it. *)
From S2P Require Import Prelude.
Local Open Scope Z_scope.

Definition SLASH : Z := 47.
Definition DOT : Z := 46.
Definition kFatReleasePathMaximumBytes : Z := 240.

Inductive FatPathValidationStatus := Ok | InvalidArgument | PathTooLong | InvalidPath.

#[export] Instance FatPathValidationStatus_eq_dec : EqDecision FatPathValidationStatus.
Proof. solve_decision. Defined.

(** [value] is the component of [size] bytes; the loop compares lower-cased
    bytes position by position after the size test. *)
Definition EqualsAsciiIgnoreCase (value expected : bytes) : bool :=
  (length expected =? length value)%nat &&
  bytes_eqb (AsciiLower <$> value) (AsciiLower <$> expected).

Definition IsReservedStem (component : bytes) : bool :=
  let stem_size := length (before DOT component) in
  let fixed := [str "CON"; str "PRN"; str "AUX"; str "NUL"] in
  if existsb (EqualsAsciiIgnoreCase (take stem_size component)) fixed then true
  else (stem_size =? 4)%nat &&
       (EqualsAsciiIgnoreCase (take 3 component) (str "COM") ||
        EqualsAsciiIgnoreCase (take 3 component) (str "LPT")) &&
       (49 <=? nth 3 component 0) && (nth 3 component 0 <=? 57).

(** The bytes double-quote, asterisk, colon, less, greater, question mark,
    backslash and bar. *)
Definition IsForbidden (value : Z) : bool :=
  (value =? 34) || (value =? 42) || (value =? 58) || (value =? 60) ||
  (value =? 62) || (value =? 63) || (value =? BACKSLASH) || (value =? 124).

(** The byte test of each validator. *)
Definition release_bad_byte (value : Z) : bool :=
  (value <? 0x20) || (0x7e <? value) || IsForbidden value.
Definition developer_bad_byte (value : Z) : bool :=
  (value <? 0x20) || (value =? 0x7f) || IsForbidden value.

(** The component test of each validator, on the component
    [path[component_begin .. index)]; [path[index - 1]] is its last byte. *)
Definition last_byte (c : bytes) : Z := nth (length c - 1) c 0.

Definition is_dot_component (c : bytes) : bool :=
  ((length c =? 1)%nat && (nth 0 c 0 =? DOT)) ||
  ((length c =? 2)%nat && (nth 0 c 0 =? DOT) && (nth 1 c 0 =? DOT)).

Definition release_bad_component (c : bytes) : bool :=
  (length c =? 0)%nat || (255 <? len c) || (nth 0 c 0 =? SP) ||
  (last_byte c =? SP) || (last_byte c =? DOT) || is_dot_component c ||
  IsReservedStem c.

Definition developer_bad_component (c : bytes) : bool :=
  (length c =? 0)%nat || (255 <? len c) || (last_byte c =? SP) ||
  (last_byte c =? DOT) || is_dot_component c.

(** The loop [for (index = 0; index <= size; ++index)] shared by both
    validators.  [fuel] exceeds the number of iterations left; the theorems show
    that it is never exhausted. *)
Fixpoint path_loop (bad_byte : Z -> bool) (bad_component : bytes -> bool)
    (fuel : nat) (path : bytes) (index component_begin : nat) : FatPathValidationStatus :=
  match fuel with
  | O => InvalidArgument
  | S fuel =>
    if (length path <? index)%nat then Ok else
    let at_end := (index =? length path)%nat in
    let value := if at_end then SLASH else nth index path 0 in
    if negb at_end && negb (value =? SLASH)
    then if bad_byte value then InvalidPath
         else path_loop bad_byte bad_component fuel path (S index) component_begin
    else if bad_component (take (index - component_begin) (drop component_begin path))
         then InvalidPath
         else path_loop bad_byte bad_component fuel path (S index) (S index)
  end.

Definition run_loop bad_byte bad_component (path : bytes) : FatPathValidationStatus :=
  path_loop bad_byte bad_component (S (S (length path))) path 0 0.

(** [path] is [None] for a null pointer. *)
Definition ValidateFatRelativePathBytes (path : option bytes) (maximum_path_bytes : Z)
    : FatPathValidationStatus :=
  match path with
  | None => InvalidArgument
  | Some path =>
    if maximum_path_bytes =? 0 then InvalidArgument
    else if len path =? 0 then InvalidPath
    else if maximum_path_bytes <? len path then PathTooLong
    else if (nth 0 path 0 =? SLASH) || (last_byte path =? SLASH) then InvalidPath
    else run_loop release_bad_byte release_bad_component path
  end.

(** The bounded scan [while (size < maximum && path[size] != 0) ++size]; [path]
    is the C string's contents, its NUL terminator the default of [nth]. *)
Definition bounded_size (path : bytes) (maximum_path_bytes : Z) : nat :=
  Nat.min (length path) (Z.to_nat maximum_path_bytes).

Definition ValidateFatRelativePath (path : option bytes) (maximum_path_bytes : Z)
    : FatPathValidationStatus :=
  match path with
  | None => InvalidArgument
  | Some path =>
    if maximum_path_bytes =? 0 then InvalidArgument
    else
      let size := bounded_size path maximum_path_bytes in
      if (Z.of_nat size =? maximum_path_bytes) && negb (nth size path 0 =? NUL)
      then PathTooLong
      else ValidateFatRelativePathBytes (Some (take size path)) maximum_path_bytes
  end.

Definition ValidateDeveloperFatRelativePath (path : option bytes) (maximum_path_bytes : Z)
    : FatPathValidationStatus :=
  match path with
  | None => InvalidArgument
  | Some path =>
    if maximum_path_bytes =? 0 then InvalidArgument
    else
      let size := bounded_size path maximum_path_bytes in
      if Z.of_nat size =? maximum_path_bytes then PathTooLong
      else if (size =? 0)%nat || (nth 0 path 0 =? SLASH)
              || (nth (size - 1) path 0 =? SLASH) then InvalidPath
      else run_loop developer_bad_byte developer_bad_component (take size path)
  end.

Definition media_roots : list bytes :=
  [str "disks"; str "tapes"; str "carts"; str "snapshots"].

Definition ValidateMediaFatRelativePath (path : option bytes) (maximum_path_bytes : Z)
    : FatPathValidationStatus :=
  match ValidateDeveloperFatRelativePath path maximum_path_bytes with
  | Ok =>
    match path with
    | None => InvalidArgument
    | Some path =>
      if existsb (EqualsAsciiIgnoreCase (before SLASH path)) media_roots then Ok
      else InvalidPath
    end
  | status => status
  end.

(** ** Specification on path components *)
Definition printable_ok (b : Z) : Prop := 0x20 <= b <= 0x7e /\ IsForbidden b = false.
Definition oem_ok (b : Z) : Prop := 0x20 <= b /\ b <> 0x7f /\ IsForbidden b = false.

Definition lower (s : bytes) : bytes := AsciiLower <$> s.

(** Device names DOS reserves, whatever follows their first dot. *)
Definition reserved_names : list bytes :=
  [str "con"; str "prn"; str "aux"; str "nul"] ++
  ((fun d => str "com" ++ [d]) <$> [49; 50; 51; 52; 53; 54; 55; 56; 57]) ++
  ((fun d => str "lpt" ++ [d]) <$> [49; 50; 51; 52; 53; 54; 55; 56; 57]).

Definition release_component (c : bytes) : Prop :=
  c <> [] /\ len c <= 255 /\ Forall printable_ok c /\
  nth 0 c 0 <> SP /\ last_byte c <> SP /\ last_byte c <> DOT /\
  lower (before DOT c) ∉ reserved_names.

Definition developer_component (c : bytes) : Prop :=
  c <> [] /\ len c <= 255 /\ Forall oem_ok c /\
  last_byte c <> SP /\ last_byte c <> DOT.

(** ** Proofs *)
Lemma EqualsAsciiIgnoreCase_spec v e :
  EqualsAsciiIgnoreCase v e = true <-> lower v = lower e.
Proof.
  unfold EqualsAsciiIgnoreCase, lower. rewrite andb_true_iff, bytes_eqb_eq, Nat.eqb_eq.
  split; [by intros [_ ?]|]. intros H. split; [|done].
  apply (f_equal length) in H. rewrite !length_fmap in H. done.
Qed.

(** The loop as a structural scan of the bytes still to be read, [cur] being the
    component read so far. *)
Fixpoint scan (bad_byte : Z -> bool) (bad_component : bytes -> bool)
    (cur rest : bytes) : bool :=
  match rest with
  | [] => negb (bad_component cur)
  | x :: rest' =>
      if x =? SLASH then negb (bad_component cur) && scan bad_byte bad_component [] rest'
      else negb (bad_byte x) && scan bad_byte bad_component (cur ++ [x]) rest'
  end.

Lemma path_loop_scan bb bc pre cur rest fuel :
  (S (length rest) < fuel)%nat ->
  path_loop bb bc fuel (pre ++ cur ++ rest) (length pre + length cur) (length pre) =
  if scan bb bc cur rest then Ok else InvalidPath.
Proof.
  revert pre cur fuel. induction rest as [|x rest IH]; intros pre cur fuel Hf;
    (destruct fuel as [|fuel]; [lia|]); cbn [path_loop scan].
  - rewrite app_nil_r, length_app, Nat.eqb_refl, (proj2 (Nat.ltb_ge _ _)) by lia.
    cbn [negb andb]. rewrite drop_app_length, take_ge by lia.
    destruct (bc cur); cbn [negb]; [done|]. destruct fuel as [|fuel]; [simpl in Hf; lia|].
    cbn [path_loop]. by rewrite length_app, (proj2 (Nat.ltb_lt _ _)) by lia.
  - assert (Hlen : length (pre ++ cur ++ x :: rest) = (length pre + length cur + S (length rest))%nat)
      by (rewrite !length_app; simpl; lia).
    rewrite Hlen, (proj2 (Nat.ltb_ge _ _)), (proj2 (Nat.eqb_neq _ _)) by lia.
    replace (nth (length pre + length cur) (pre ++ cur ++ x :: rest) 0) with x
      by (rewrite app_assoc, app_nth2, length_app, Nat.sub_diag by (rewrite length_app; lia); done).
    cbn [negb andb]. destruct (x =? SLASH) eqn:Ex; cbn [negb].
    + rewrite drop_app_length. replace (length pre + length cur - length pre)%nat
        with (length cur) by lia. rewrite take_app_length.
      destruct (bc cur); cbn [negb andb]; [done|]. zbool. subst.
      specialize (IH (pre ++ cur ++ [SLASH]) [] fuel).
      rewrite !length_app in IH. cbn [length] in IH.
      replace (length pre + (length cur + 1) + 0)%nat with (S (length pre + length cur)) in IH by lia.
      replace (length pre + (length cur + 1))%nat with (S (length pre + length cur)) in IH by lia.
      rewrite <- !app_assoc in IH. apply IH. simpl in Hf. lia.
    + destruct (bb x); cbn [negb andb]; [done|].
      specialize (IH pre (cur ++ [x]) fuel). rewrite length_app, <- app_assoc in IH.
      cbn [length] in IH. replace (length pre + (length cur + 1))%nat
        with (S (length pre + length cur)) in IH by lia.
      apply IH. simpl in Hf. lia.
Qed.

Lemma run_loop_scan bb bc path :
  run_loop bb bc path = if scan bb bc [] path then Ok else InvalidPath.
Proof. apply (path_loop_scan bb bc [] [] path). lia. Qed.

Lemma scan_split bb bc cur rest h t :
  split_on SLASH rest = h :: t ->
  scan bb bc cur rest = true <->
  Forall (fun b => b <> SLASH -> bb b = false) rest /\
  Forall (fun c => bc c = false) ((cur ++ h) :: t).
Proof.
  revert cur h t. induction rest as [|x rest IH]; intros cur h t; simpl.
  { intros [= <- <-]. rewrite app_nil_r, negb_true_iff, Forall_singleton.
    split; [by intros | by intros [_ ?]]. }
  destruct (split_on SLASH rest) as [|h' t'] eqn:Es; [by apply split_on_nonempty in Es|].
  destruct (x =? SLASH) eqn:Ex; zbool; intros [= <- <-];
    rewrite andb_true_iff, negb_true_iff, (IH _ _ _ eq_refl), !Forall_cons.
  - subst. rewrite app_nil_r, app_nil_l. naive_solver.
  - rewrite <- app_assoc. simpl. naive_solver.
Qed.

(** The loop accepts exactly the paths whose components are all acceptable. *)
Lemma run_loop_components bb bc path :
  run_loop bb bc path = Ok <->
  Forall (fun c => Forall (fun b => bb b = false) c /\ bc c = false)
         (split_on SLASH path).
Proof.
  rewrite run_loop_scan.
  destruct (split_on SLASH path) as [|h t] eqn:Es; [by apply split_on_nonempty in Es|].
  pose proof (scan_split bb bc [] path h t Es) as Hs. rewrite app_nil_l, <- Es in Hs.
  rewrite split_on_Forall in Hs. rewrite <- Es, Forall_and, <- Hs.
  by destruct (scan bb bc [] path).
Qed.

Lemma run_loop_status bb bc path :
  run_loop bb bc path = Ok \/ run_loop bb bc path = InvalidPath.
Proof. rewrite run_loop_scan. case_match; auto. Qed.

(** The dot components are already refused by the last-byte test. *)
Lemma dot_component_last c : is_dot_component c = true -> last_byte c = DOT.
Proof.
  unfold is_dot_component, last_byte. rewrite orb_true_iff, !andb_true_iff.
  intros [[Hl Hc]|[[Hl _] Hc]]; zbool; by rewrite Hl.
Qed.

Lemma developer_component_spec c :
  Forall (fun b => developer_bad_byte b = false) c /\ developer_bad_component c = false <->
  developer_component c.
Proof.
  unfold developer_component, developer_bad_component. split.
  - intros [Hb Hc]. zbool. split; [by intros ->|]. split; [lia|].
    split; [|done]. eapply Forall_impl; [done|]. intros b Hb'.
    unfold developer_bad_byte in Hb'. zbool. unfold oem_ok. repeat split; done || lia.
  - intros (Hne & Hlen & Hb & Hs & Hd). split.
    + eapply Forall_impl; [done|]. intros b (? & ? & Hf). unfold developer_bad_byte.
      rewrite Hf, (proj2 (Z.ltb_ge _ _)), (proj2 (Z.eqb_neq _ _)) by lia. done.
    + rewrite (proj2 (Z.ltb_ge _ _)), !(proj2 (Z.eqb_neq _ _)) by done.
      rewrite (proj2 (Nat.eqb_neq _ _)) by (by destruct c).
      destruct (is_dot_component c) eqn:E; [|done].
      by apply dot_component_last in E.
Qed.

Lemma digit_names (p x : bytes) :
  x ∈ ((fun d => p ++ [d]) <$> [49; 50; 51; 52; 53; 54; 55; 56; 57]) <->
  exists d, x = p ++ [d] /\ 49 <= d <= 57.
Proof.
  rewrite list_elem_of_fmap. split; intros (d & -> & Hd); exists d; (split; [done|]).
  - set_unfold in Hd. lia.
  - assert (d = 49 \/ d = 50 \/ d = 51 \/ d = 52 \/ d = 53 \/ d = 54 \/ d = 55 \/ d = 56 \/ d = 57)
      as Hd' by lia. set_unfold. tauto.
Qed.

Lemma AsciiLower_digit d : 49 <= AsciiLower d <= 57 <-> 49 <= d <= 57.
Proof.
  unfold AsciiLower, is_upper, in_range.
  destruct (Z.leb_spec 65 d), (Z.leb_spec d 90); simpl; lia.
Qed.

Lemma AsciiLower_digit_id d : 49 <= d <= 57 -> AsciiLower d = d.
Proof.
  intros. unfold AsciiLower, is_upper, in_range.
  by rewrite (proj2 (Z.leb_gt _ _)) by lia.
Qed.

Lemma com_lpt_stem c stem p :
  stem = before DOT c -> length p = 3%nat ->
  length stem = 4%nat /\ lower (take 3 c) = p /\ 49 <= nth 3 c 0 <= 57 <->
  exists d, lower stem = p ++ [d] /\ 49 <= d <= 57.
Proof.
  intros Hstem Hp. pose proof (before_prefix DOT c) as Hpre. rewrite <- Hstem in Hpre.
  split.
  - intros (Hl & Ht & Hd). rewrite Hl in Hpre. exists (nth 3 c 0).
    split; [|done]. clear Hstem Hp. subst stem p. rewrite length_take in Hl.
    destruct c as [|a [|b [|e [|f c]]]]; simpl in Hl; try lia.
    unfold lower. simpl in *. by rewrite (AsciiLower_digit_id f Hd).
  - intros (d & Hl & Hd).
    assert (Hlen : length stem = 4%nat).
    { apply (f_equal length) in Hl. unfold lower in Hl.
      rewrite length_fmap, length_app, Hp in Hl. done. }
    split; [done|]. rewrite Hlen in Hpre. rewrite Hpre in Hl.
    destruct p as [|p1 [|p2 [|p3 [|]]]]; try discriminate Hp.
    destruct c as [|a [|b [|e [|f c]]]]; simpl in Hl; simplify_eq.
    split; [done|]. by apply AsciiLower_digit.
Qed.

Lemma IsReservedStem_spec c :
  IsReservedStem c = true <-> lower (before DOT c) ∈ reserved_names.
Proof.
  unfold IsReservedStem, reserved_names. rewrite <- before_prefix.
  rewrite !elem_of_app, !digit_names.
  rewrite <- !(com_lpt_stem c _ _ eq_refl) by done.
  set (stem := before DOT c).
  destruct (existsb (EqualsAsciiIgnoreCase stem) _) eqn:Ef.
  - split; [intros _; left | done].
    apply existsb_exists in Ef as (n & Hn & He). apply EqualsAsciiIgnoreCase_spec in He.
    rewrite He. simpl in Hn. repeat destruct Hn as [<-|Hn]; try done; vm_compute; set_solver.
  - rewrite !andb_true_iff, orb_true_iff, !EqualsAsciiIgnoreCase_spec, Nat.eqb_eq, !Z.leb_le.
    change (lower (str "COM")) with (str "com"). change (lower (str "LPT")) with (str "lpt").
    split; [naive_solver|]. intros [Hf|[H|H]]; [|naive_solver..]. exfalso.
    apply not_true_iff_false in Ef. apply Ef. apply existsb_exists.
    assert (exists n, In n [str "CON"; str "PRN"; str "AUX"; str "NUL"] /\ lower stem = lower n)
      as (n & ? & ?).
    { apply list_elem_of_In in Hf. simpl In in Hf.
      destruct Hf as [<-|[<-|[<-|[<-|[]]]]];
        [exists (str "CON") | exists (str "PRN") | exists (str "AUX") | exists (str "NUL")];
        (split; [simpl; tauto | done]). }
    exists n. by rewrite EqualsAsciiIgnoreCase_spec.
Qed.

Lemma release_component_spec c :
  Forall (fun b => release_bad_byte b = false) c /\ release_bad_component c = false <->
  release_component c.
Proof.
  unfold release_component, release_bad_component. rewrite <- IsReservedStem_spec.
  rewrite not_true_iff_false. split.
  - intros [Hb Hc]. zbool. split; [by intros ->|]. split; [lia|].
    split; [|done]. eapply Forall_impl; [done|]. intros b Hb'.
    unfold release_bad_byte in Hb'. zbool. split; [lia | done].
  - intros (Hne & Hlen & Hb & Hf & Hs & Hd & Hr). split.
    + eapply Forall_impl; [done|]. intros b [? Hb']. unfold release_bad_byte.
      by rewrite Hb', !(proj2 (Z.ltb_ge _ _)) by lia.
    + rewrite Hr, (proj2 (Z.ltb_ge _ _)), !(proj2 (Z.eqb_neq _ _)) by done.
      rewrite (proj2 (Nat.eqb_neq _ _)) by (by destruct c).
      destruct (is_dot_component c) eqn:E; [|done].
      by apply dot_component_last in E.
Qed.

(** A path starting or ending with a slash has an empty component, so the early
    tests of the validators only choose the order of the checks. *)
Lemma split_on_leading path :
  nth 0 path 0 = SLASH -> [] ∈ split_on SLASH path.
Proof. destruct path as [|x p]; simpl; [done|]. intros ->. simpl. set_solver. Qed.

Lemma split_on_trailing path :
  path <> [] -> last_byte path = SLASH -> [] ∈ split_on SLASH path.
Proof.
  unfold last_byte. destruct path as [|x p _] using rev_ind; [done|]. intros _.
  rewrite length_app. simpl. replace (length p + 1 - 1)%nat with (length p) by lia.
  rewrite app_nth2, Nat.sub_diag by lia. simpl. intros ->.
  rewrite split_on_snoc. set_solver.
Qed.

Lemma no_empty_component (P : bytes -> Prop) path :
  ~ P [] -> path <> [] -> Forall P (split_on SLASH path) ->
  (nth 0 path 0 =? SLASH) || (last_byte path =? SLASH) = false.
Proof.
  intros HP Hne Hall. rewrite List.Forall_forall in Hall.
  destruct (Z.eqb_spec (nth 0 path 0) SLASH) as [E|E].
  { exfalso. apply HP, Hall, list_elem_of_In. by apply split_on_leading. }
  destruct (Z.eqb_spec (last_byte path) SLASH) as [E'|E']; [|done].
  exfalso. apply HP, Hall, list_elem_of_In. by apply split_on_trailing.
Qed.

Lemma release_component_nil : ~ release_component [].
Proof. by intros [? _]. Qed.

Lemma developer_component_nil : ~ developer_component [].
Proof. by intros [? _]. Qed.

Lemma release_loop path :
  run_loop release_bad_byte release_bad_component path = Ok <->
  Forall release_component (split_on SLASH path).
Proof. rewrite run_loop_components. apply Forall_iff, release_component_spec. Qed.

Lemma developer_loop path :
  run_loop developer_bad_byte developer_bad_component path = Ok <->
  Forall developer_component (split_on SLASH path).
Proof. rewrite run_loop_components. apply Forall_iff, developer_component_spec. Qed.

Lemma release_validate path maximum :
  0 < maximum ->
  ValidateFatRelativePathBytes (Some path) maximum = Ok <->
  path <> [] /\ len path <= maximum /\ Forall release_component (split_on SLASH path).
Proof.
  intros Hmax. unfold ValidateFatRelativePathBytes.
  rewrite (proj2 (Z.eqb_neq _ _)) by lia. rewrite <- release_loop.
  destruct path as [|x path]; [by split; [|intros []]|]. set (p := x :: path).
  rewrite (proj2 (Z.eqb_neq _ _)) by (unfold p, len; simpl; lia).
  destruct (Z.ltb_spec maximum (len p)); [split; [done | lia]|].
  split.
  - intros Hv. case_match; [done|]. done.
  - intros (Hne & _ & Hl). rewrite (no_empty_component release_component p); auto.
    + apply release_component_nil.
    + by apply release_loop.
Qed.

Lemma bounded_size_spec path maximum :
  0 < maximum -> NUL ∉ path ->
  (len path <= maximum /\ bounded_size path maximum = length path /\
     nth (bounded_size path maximum) path 0 = NUL) \/
  (maximum < len path /\ Z.of_nat (bounded_size path maximum) = maximum /\
     nth (bounded_size path maximum) path 0 <> NUL).
Proof.
  intros Hm Hn. unfold bounded_size, len.
  destruct (Z.leb_spec (Z.of_nat (length path)) maximum); [left | right].
  - rewrite Nat.min_l by lia. rewrite nth_overflow by lia. done.
  - rewrite Nat.min_r by lia. split; [lia|]. split; [lia|]. intros He.
    apply Hn. rewrite <- He. apply list_elem_of_In, nth_In. lia.
Qed.

(** The release-path validator accepts exactly the non-empty paths of at most
    [maximum] bytes all of whose slash-separated components are portable names:
    non-empty, at most 255 printable bytes without FAT's forbidden ones, no
    leading or trailing space, no trailing dot, no DOS device name. *)
Theorem ValidateFatRelativePath_iff (path : bytes) (maximum : Z)
    (Hmax : 0 < maximum) (Hnul : NUL ∉ path) :
  ValidateFatRelativePath (Some path) maximum = Ok <->
  path <> [] /\ len path <= maximum /\
  Forall release_component (split_on SLASH path).
Proof.
  unfold ValidateFatRelativePath. rewrite (proj2 (Z.eqb_neq _ _)) by lia.
  destruct (bounded_size_spec path maximum Hmax Hnul) as [(Hl & Hs & Hz)|(Hl & Hs & Hz)].
  - rewrite Hz, Hs, andb_false_r, take_ge by lia. by apply release_validate.
  - rewrite Hs, Z.eqb_refl, (proj2 (Z.eqb_neq _ _) Hz). split; [done | lia].
Qed.

Lemma ValidateFatRelativePath_iff_witness :
  str "boot/kernel8.img" <> [] /\ len (str "boot/kernel8.img") <= 240 /\
  Forall release_component (split_on SLASH (str "boot/kernel8.img")).
Proof.
  apply (ValidateFatRelativePath_iff (str "boot/kernel8.img") 240);
    [lia | apply index_of_None; reflexivity | reflexivity].
Defined.

(** The developer validator needs room for the NUL terminator: its bound is
    strict. *)
Lemma developer_validate path maximum :
  0 < maximum -> NUL ∉ path ->
  ValidateDeveloperFatRelativePath (Some path) maximum = Ok <->
  path <> [] /\ len path < maximum /\ Forall developer_component (split_on SLASH path).
Proof.
  intros Hmax Hnul. unfold ValidateDeveloperFatRelativePath.
  rewrite (proj2 (Z.eqb_neq _ _)) by lia. rewrite <- developer_loop.
  destruct (bounded_size_spec path maximum Hmax Hnul) as [(Hl & -> & _)|(Hl & -> & _)].
  2: { rewrite Z.eqb_refl. split; [done | lia]. }
  rewrite take_ge by lia. fold (len path) (last_byte path).
  destruct (Z.eqb_spec (len path) maximum); [split; [done | lia]|].
  destruct path as [|x path]; [by split; [|intros []]|]. set (p := x :: path) in *.
  rewrite (proj2 (Nat.eqb_neq (length p) 0)) by (subst p; simpl; lia). cbn [orb]. split.
  - intros Hv. case_match; [done|]. repeat split; [done | lia | done].
  - intros (Hne & _ & Hd). rewrite (no_empty_component developer_component p); auto.
    + apply developer_component_nil.
    + by apply developer_loop.
Qed.

(** The developer-path validator accepts exactly the non-empty relative paths
    strictly shorter than [maximum] whose components FatFs can store unchanged;
    no component of an accepted path is empty, "." or "..". *)
Theorem ValidateDeveloperFatRelativePath_iff (path : bytes) (maximum : Z)
    (Hmax : 0 < maximum) (Hnul : NUL ∉ path) :
  (ValidateDeveloperFatRelativePath (Some path) maximum = Ok <->
   path <> [] /\ len path < maximum /\ Forall developer_component (split_on SLASH path)) /\
  (ValidateDeveloperFatRelativePath (Some path) maximum = Ok ->
   forall c, c ∈ split_on SLASH path -> c ∉ [[]; [DOT]; [DOT; DOT]]).
Proof.
  split; [by apply developer_validate|]. intros Hok c Hc Hbad.
  apply developer_validate in Hok as (_ & _ & Hall); [|done..].
  rewrite List.Forall_forall in Hall. apply list_elem_of_In, Hall in Hc.
  destruct Hc as (Hne & _ & _ & _ & Hdot). apply list_elem_of_In in Hbad.
  destruct Hbad as [<-|[<-|[<-|[]]]]; [done | by apply Hdot | by apply Hdot].
Qed.

Lemma ValidateDeveloperFatRelativePath_iff_witness :
  str "roms/C64 kernal" <> [] /\ len (str "roms/C64 kernal") < 64 /\
  Forall developer_component (split_on SLASH (str "roms/C64 kernal")).
Proof.
  destruct (ValidateDeveloperFatRelativePath_iff (str "roms/C64 kernal") 64) as [H _];
    [lia | apply index_of_None; reflexivity |]. apply H. reflexivity.
Defined.

(** The media validator confines uploads to the four user-content roots: it
    accepts a path exactly when the developer policy does and the first component
    is, up to ASCII case, disks, tapes, carts or snapshots. *)
Theorem ValidateMediaFatRelativePath_iff (path : bytes) (maximum : Z)
    (Hmax : 0 < maximum) (Hnul : NUL ∉ path) :
  ValidateMediaFatRelativePath (Some path) maximum = Ok <->
  ValidateDeveloperFatRelativePath (Some path) maximum = Ok /\
  exists root rest, split_on SLASH path = root :: rest /\ lower root ∈ media_roots.
Proof.
  unfold ValidateMediaFatRelativePath.
  assert (Hroot : (exists root rest, split_on SLASH path = root :: rest /\
                     lower root ∈ media_roots) <->
                  existsb (EqualsAsciiIgnoreCase (before SLASH path)) media_roots = true).
  { pose proof (split_on_head SLASH path) as Hh. rewrite existsb_exists.
    destruct (split_on SLASH path) as [|h t] eqn:Es; [by apply split_on_nonempty in Es|].
    simpl in Hh. injection Hh as <-. split.
    - intros (r & t' & [= <- <-] & Hr). apply list_elem_of_In in Hr.
      exists (lower h). rewrite EqualsAsciiIgnoreCase_spec. split; [done|].
      simpl in Hr. repeat destruct Hr as [<-|Hr]; done.
    - intros (r & Hr & He). apply EqualsAsciiIgnoreCase_spec in He.
      exists h, t. split; [done|]. rewrite He. simpl in Hr.
      repeat destruct Hr as [<-|Hr]; try done; vm_compute; set_solver. }
  rewrite Hroot. destruct (ValidateDeveloperFatRelativePath _ _); [|naive_solver..].
  destruct (existsb _ _); naive_solver.
Qed.

Lemma ValidateMediaFatRelativePath_iff_witness :
  ValidateDeveloperFatRelativePath (Some (str "Disks/demo.atr")) 128 = Ok /\
  exists root rest, split_on SLASH (str "Disks/demo.atr") = root :: rest /\
                    lower root ∈ media_roots.
Proof.
  apply (ValidateMediaFatRelativePath_iff (str "Disks/demo.atr") 128);
    [lia | apply index_of_None; reflexivity | reflexivity].
Defined.
