(* ===== verification/UrlPolicy.v ===== *)
(** * Update URL policy

    Models [src/update/url_policy.cpp] with the production constants of
    [src/update/github_repository_policy.h]: the parser and authorizer every
    updater request passes through.  The specification enumerates the accepted
    URLs for each purpose. *)
From S2P Require Import Prelude.
Local Open Scope Z_scope.

Definition kMaximumUpdateUrlBytes : Z := 2048.
Definition kMaximumUpdateHostBytes : Z := 96.
Definition kMaximumUpdatePathBytes : Z := 1856.

(** The production repository; a test channel is a separate debug build. *)
Definition kGitHubLatestReleasePath : bytes := str "/repos/kdre/bmx/releases/latest".
Definition kGitHubReleaseDownloadPathPrefix : bytes := str "/kdre/bmx/releases/download/".
Definition kGitHubReleaseApiPathPrefix : bytes := str "/repos/kdre/bmx/releases/".
Definition kGitHubReleaseAssetApiPathPrefix : bytes :=
  str "/repos/kdre/bmx/releases/assets/".


Inductive UpdateUrlPurpose :=
  | Discovery | ReleaseAsset | Redirect | PreparedDraftDiscovery
  | AuthenticatedReleaseAsset | GitHubDeviceAuthorization.

#[export] Instance UpdateUrlPurpose_eq_dec : EqDecision UpdateUrlPurpose.
Proof. solve_decision. Defined.

Inductive UrlPolicyStatus :=
  | UrlOk | UrlInvalidArgument | TooLong | HttpsRequired | UserInfoForbidden
  | InvalidHost | InvalidPort | UrlInvalidPath | QueryForbidden
  | FragmentForbidden | HostNotAllowed | PathNotAllowed.

Record ParsedUpdateUrl := {
  url_host : bytes;
  path_and_query : bytes;
  port : Z
}.

Definition C_SLASH : Z := 47.
Definition C_QUESTION : Z := 63.
Definition C_HASH : Z := 35.
Definition C_AT : Z := 64.
Definition C_COLON : Z := 58.

Definition IsAsciiHostCharacter (c : Z) : bool :=
  is_lower c || is_digit c || (c =? 46) || (c =? 45).

Definition IsForbiddenRequestCharacter (c : Z) : bool :=
  (c <=? 0x20) || (c =? 0x7f) || (c =? BACKSLASH).

Definition IsGithubReleasePath (path : bytes) : bool :=
  if negb (starts_with kGitHubReleaseDownloadPathPrefix path) then false
  else
    let tag := drop (length kGitHubReleaseDownloadPathPrefix) path in
    match index_of C_SLASH tag with
    | None => false
    | Some slash =>
      if (slash =? 0)%nat || (nth (S slash) tag 0 =? NUL) then false
      else match index_of C_SLASH (drop (S slash) tag) with
           | None => true
           | Some _ => false
           end
    end.

Definition IsRedirectPath (path : bytes) : bool :=
  (nth 0 path 0 =? C_SLASH) && negb (nth 1 path 0 =? NUL).

Definition IsPositiveDecimalSuffix (path prefix : bytes) : bool :=
  if negb (starts_with prefix path) then false
  else
    match drop (length prefix) path with
    | [] => false
    | c :: value => in_range 49 57 c && forallb is_digit value
    end.

Definition IsAuthorizedRedirectHost (host : bytes) : bool :=
  bytes_eqb host (str "github.com") ||
  bytes_eqb host (str "release-assets.githubusercontent.com") ||
  bytes_eqb host (str "objects.githubusercontent.com") ||
  bytes_eqb host (str "github-releases.githubusercontent.com").

Definition kScheme : bytes := str "https://".

(** The syntactic half of [ParseAndAuthorizeUpdateUrl]: the status on failure,
    and the fields of [*parsed] as they are after the call. *)
Definition parse_url (url : bytes) (parsed : ParsedUpdateUrl)
    : UrlPolicyStatus * ParsedUpdateUrl :=
  let length_ := len url in
  if (length_ =? 0) || (kMaximumUpdateUrlBytes <=? length_) then (TooLong, parsed)
  else if negb (starts_with kScheme url) then (HttpsRequired, parsed)
  else
  let authority := drop (length kScheme) url in
  match index_of C_HASH authority with
  | Some _ => (FragmentForbidden, parsed)
  | None =>
  let path := index_of C_SLASH authority in
  let query_without_path := index_of C_QUESTION authority in
  if match query_without_path, path with
     | Some _, None => true
     | Some q, Some p => (q <? p)%nat
     | None, _ => false
     end then (UrlInvalidPath, parsed)
  else match path with
  | None => (UrlInvalidPath, parsed)
  | Some O => (UrlInvalidPath, parsed)
  | Some p =>
  match index_of C_AT (take p authority) with
  | Some _ => (UserInfoForbidden, parsed)
  | None =>
  let port_separator := index_of C_COLON (take p authority) in
  let host_length := match port_separator with Some s => s | None => p end in
  if (host_length =? 0)%nat || (kMaximumUpdateHostBytes <=? Z.of_nat host_length)
  then (InvalidHost, parsed)
  else if negb (forallb IsAsciiHostCharacter (take host_length authority))
  then (InvalidHost, parsed)
  else
  let parsed := {| url_host := take host_length authority;
                   path_and_query := path_and_query parsed; port := 443 |} in
  if match port_separator with
     | Some s => negb (bytes_eqb (take (p - s - 1) (drop (S s) authority)) (str "443"))
     | None => false
     end then (InvalidPort, parsed)
  else
  let path := drop p authority in
  if (len path =? 0) || (kMaximumUpdatePathBytes <=? len path)
  then (UrlInvalidPath, parsed)
  else if existsb IsForbiddenRequestCharacter path then (UrlInvalidPath, parsed)
  else (UrlOk, {| url_host := url_host parsed; path_and_query := path; port := 443 |})
  end end end.

(** The host and path checks for one purpose. *)
Definition authorize (purpose : UpdateUrlPurpose) (parsed : ParsedUpdateUrl)
    : UrlPolicyStatus :=
  let host := url_host parsed in
  let path := path_and_query parsed in
  if negb (bool_decide (purpose = Redirect)) &&
     match index_of C_QUESTION path with Some _ => true | None => false end
  then QueryForbidden
  else match purpose with
  | Discovery =>
      if negb (bytes_eqb host (str "api.github.com")) then HostNotAllowed
      else if negb (bytes_eqb path kGitHubLatestReleasePath) then PathNotAllowed
      else UrlOk
  | ReleaseAsset =>
      if negb (bytes_eqb host (str "github.com")) then HostNotAllowed
      else if negb (IsGithubReleasePath path) then PathNotAllowed
      else UrlOk
  | PreparedDraftDiscovery =>
      if negb (bytes_eqb host (str "api.github.com")) then HostNotAllowed
      else if IsPositiveDecimalSuffix path kGitHubReleaseApiPathPrefix then UrlOk
      else PathNotAllowed
  | AuthenticatedReleaseAsset =>
      if negb (bytes_eqb host (str "api.github.com")) then HostNotAllowed
      else if IsPositiveDecimalSuffix path kGitHubReleaseAssetApiPathPrefix then UrlOk
      else PathNotAllowed
  | GitHubDeviceAuthorization =>
      if negb (bytes_eqb host (str "github.com")) then HostNotAllowed
      else if bytes_eqb path (str "/login/device/code") ||
              bytes_eqb path (str "/login/oauth/access_token") then UrlOk
      else PathNotAllowed
  | Redirect =>
      if negb (IsAuthorizedRedirectHost host) then HostNotAllowed
      else if negb (IsRedirectPath path) then PathNotAllowed
      else UrlOk
  end.

(** [url] is the contents of a C string ([None] for a null pointer). *)
Definition ParseAndAuthorizeUpdateUrl (url : option bytes) (purpose : UpdateUrlPurpose)
    (parsed : ParsedUpdateUrl) : UrlPolicyStatus * ParsedUpdateUrl :=
  match url with
  | None => (UrlInvalidArgument, parsed)
  | Some url =>
    match parse_url url parsed with
    | (UrlOk, parsed) => (authorize purpose parsed, parsed)
    | failure => failure
    end
  end.

(** ** Specification: the URLs of each purpose *)
Definition host_allowed (purpose : UpdateUrlPurpose) : list bytes :=
  match purpose with
  | Discovery | PreparedDraftDiscovery | AuthenticatedReleaseAsset =>
      [str "api.github.com"]
  | ReleaseAsset | GitHubDeviceAuthorization => [str "github.com"]
  | Redirect =>
      [str "github.com"; str "release-assets.githubusercontent.com";
       str "objects.githubusercontent.com"; str "github-releases.githubusercontent.com"]
  end.

Definition positive_decimal (s : bytes) : Prop :=
  exists c r, s = c :: r /\ 49 <= c <= 57 /\ Forall (fun d => 48 <= d <= 57) r.

Definition path_allowed (purpose : UpdateUrlPurpose) (path : bytes) : Prop :=
  match purpose with
  | Discovery => path = kGitHubLatestReleasePath
  | ReleaseAsset =>
      exists tag asset, path = kGitHubReleaseDownloadPathPrefix ++ tag ++ C_SLASH :: asset /\
        tag <> [] /\ asset <> [] /\ C_SLASH ∉ tag /\ C_SLASH ∉ asset /\
        C_QUESTION ∉ tag /\ C_QUESTION ∉ asset
  | Redirect => exists r, r <> [] /\ path = C_SLASH :: r
  | PreparedDraftDiscovery =>
      exists n, path = kGitHubReleaseApiPathPrefix ++ n /\ positive_decimal n
  | AuthenticatedReleaseAsset =>
      exists n, path = kGitHubReleaseAssetApiPathPrefix ++ n /\ positive_decimal n
  | GitHubDeviceAuthorization =>
      path = str "/login/device/code" \/ path = str "/login/oauth/access_token"
  end.

(** Bytes that may be sent in a request line. *)
Definition request_byte (b : Z) : Prop := 0x20 < b /\ b <> 0x7f /\ b <> BACKSLASH.

Definition accepted_url (purpose : UpdateUrlPurpose) (url host path : bytes) : Prop :=
  exists port_text, url = kScheme ++ host ++ port_text ++ path /\
    port_text ∈ [[]; str ":443"] /\
    host ∈ host_allowed purpose /\ path_allowed purpose path /\
    Forall request_byte path /\ C_HASH ∉ path /\ len path < kMaximumUpdatePathBytes.

(** ** Proofs *)
Lemma IsForbiddenRequestCharacter_false b :
  IsForbiddenRequestCharacter b = false <-> request_byte b.
Proof.
  unfold IsForbiddenRequestCharacter, request_byte.
  rewrite !orb_false_iff, Z.leb_gt, !Z.eqb_neq. tauto.
Qed.

Lemma request_bytes path :
  existsb IsForbiddenRequestCharacter path = false <-> Forall request_byte path.
Proof. rewrite existsb_Forall_bool. apply Forall_iff, IsForbiddenRequestCharacter_false. Qed.

Lemma host_bytes_not c host :
  forallb IsAsciiHostCharacter host = true -> IsAsciiHostCharacter c = false -> c ∉ host.
Proof.
  rewrite forallb_forall. intros H Hc Hin. apply list_elem_of_In, H in Hin. congruence.
Qed.

(** A URL of the accepted shape, before the host and path are authorized. *)
Definition url_shape (url host port_text path : bytes) : Prop :=
  url = kScheme ++ host ++ port_text ++ path /\
  port_text ∈ [[]; str ":443"] /\ host <> [] /\
  forallb IsAsciiHostCharacter host = true /\
  (exists r, path = C_SLASH :: r) /\
  Forall request_byte path /\ C_HASH ∉ path /\ len path < kMaximumUpdatePathBytes.

Lemma parse_url_sound url parsed q :
  parse_url url parsed = (UrlOk, q) ->
  exists host port_text path,
    url_shape url host port_text path /\
    q = {| url_host := host; path_and_query := path; port := 443 |}.
Proof.
  unfold parse_url. intros H. guards H. zbool.
  rename select (starts_with _ _ = true) into Hs.
  apply starts_with_spec in Hs as [authority ->].
  rewrite drop_app_length in *.
  rename select (index_of C_HASH _ = None) into Hhash. apply index_of_None in Hhash.
  rename select (index_of C_SLASH _ = Some _) into Hp.
  apply index_of_split in Hp as (a & r & -> & Ha & Hns). rewrite <- Ha in *.
  rewrite take_app_length, drop_app_length in *. injection H as <-.
  rename select (existsb _ _ = false) into Hreq. apply request_bytes in Hreq.
  assert (C_HASH ∉ C_SLASH :: r) as Hh2 by set_solver.
  destruct (index_of C_COLON a) as [s|] eqn:Ec.
  - apply index_of_split in Ec as (h & t & -> & <- & _).
    rewrite <- app_assoc, take_app_length in *. zbool. cbn [app] in *.
    rewrite drop_app_cons_length, length_app in *.
    rename select (bytes_eqb _ _ = true) into He. apply bytes_eqb_eq in He.
    replace (length h + length (C_COLON :: t) - length h - 1)%nat with (length t) in He
      by (simpl; lia).
    rewrite take_app_length in He. subst t.
    exists h, (str ":443"), (C_SLASH :: r). split; [|done].
    unfold url_shape. repeat split; try done; [set_solver | by intros -> | by exists r].
  - rewrite take_app_length in *.
    exists a, [], (C_SLASH :: r). split; [|done].
    unfold url_shape. repeat split; try done; [set_solver | by intros -> | by exists r].
Qed.

Lemma host_index c host rest :
  forallb IsAsciiHostCharacter host = true -> IsAsciiHostCharacter c = false ->
  index_of c (host ++ c :: rest) = Some (length host).
Proof. intros. apply index_of_app_new. by eapply host_bytes_not. Qed.

Lemma parse_url_complete url host port_text path parsed :
  url_shape url host port_text path -> len host < kMaximumUpdateHostBytes ->
  len url < kMaximumUpdateUrlBytes ->
  parse_url url parsed = (UrlOk, {| url_host := host; path_and_query := path; port := 443 |}).
Proof.
  intros (-> & Hpt & Hne & Hhost & [r ->] & Hreq & Hhash & Hlen) Hh Hu.
  unfold parse_url. rewrite (proj2 (Z.eqb_neq _ _)), (proj2 (Z.leb_gt _ _)) by
    (try done; unfold kScheme; rewrite len_app; pose proof (len_nonneg (host ++ port_text ++ C_SLASH :: r));
     change (len (str "https://")) with 8; lia).
  rewrite (proj2 (starts_with_spec kScheme _)) by eauto. cbn [orb negb].
  rewrite drop_app_length.
  assert (Hns : forall c, IsAsciiHostCharacter c = false -> c ∉ str ":443" ->
                c ∉ host ++ port_text).
  { intros c Hc Hn. pose proof (host_bytes_not c host Hhost Hc).
    apply list_elem_of_In in Hpt as [<-|[<-|[]]]; set_solver. }
  set (a := host ++ port_text) in *. rewrite app_assoc. fold a.
  rewrite (proj2 (index_of_None C_HASH _))
    by (assert (C_HASH ∉ a) by (apply Hns; [done | by apply index_of_None]); set_solver).
  rewrite (index_of_app_new C_SLASH) by (apply Hns; [done | by apply index_of_None]).
  assert (Hq : match index_of C_QUESTION (a ++ C_SLASH :: r) with
               | Some q => (q <? length a)%nat | None => false end = false).
  { destruct (index_of C_QUESTION _) as [q|] eqn:Eq; [|done].
    apply index_of_split in Eq as (b & t & Hb & <- & _). apply Nat.ltb_ge.
    destruct (decide (length a <= length b)%nat) as [|Hlt]; [done|]. exfalso.
    apply (Hns C_QUESTION); [done | by apply index_of_None |].
    apply (f_equal (take (length a))) in Hb. rewrite take_app_length in Hb.
    rewrite Hb, take_app_ge by lia.
    replace (length a - length b)%nat with (S (length a - length b - 1)) by lia.
    simpl. set_solver. }
  rewrite Hq. assert (Hla : (0 < length a)%nat).
  { subst a. rewrite length_app. destruct host; [done | simpl; lia]. }
  rewrite take_app_length, drop_app_length.
  rewrite (proj2 (index_of_None C_AT a)) by (apply Hns; [done | by apply index_of_None]).
  destruct (length a) as [|n] eqn:Ea; [lia|]. rewrite <- Ea. clear Hla.
  apply request_bytes in Hreq.
  assert (Hfin : (len (C_SLASH :: r) =? 0) || (kMaximumUpdatePathBytes <=? len (C_SLASH :: r)) = false).
  { rewrite (proj2 (Z.eqb_neq _ _)), (proj2 (Z.leb_gt _ _)); [done | done |].
    rewrite len_cons. pose proof (len_nonneg r). lia. }
  assert (Hhl : (length host =? 0)%nat || (kMaximumUpdateHostBytes <=? Z.of_nat (length host)) = false).
  { rewrite (proj2 (Nat.eqb_neq _ _)), (proj2 (Z.leb_gt _ _)); [done | done |].
    by destruct host. }
  apply list_elem_of_In in Hpt as [<-|[<-|[]]]; subst a.
  - rewrite app_nil_r in *. rewrite (proj2 (index_of_None C_COLON host))
      by (by eapply host_bytes_not).
    rewrite Hhl, take_app_length, Hhost, Hfin, Hreq. done.
  - change (str ":443") with (C_COLON :: str "443"). rewrite host_index by done.
    rewrite Hhl. rewrite <- app_assoc, take_app_length, Hhost. cbn [negb app].
    rewrite drop_app_cons_length, length_app.
    replace (length host + length (C_COLON :: str "443") - length host - 1)%nat with 3%nat
      by (simpl; lia).
    change (bytes_eqb (take 3 (str "443" ++ C_SLASH :: r)) (str "443")) with true.
    rewrite Hfin, Hreq. done.
Qed.

Lemma is_digit_Forall s : forallb is_digit s = true <-> Forall (fun d => 48 <= d <= 57) s.
Proof. rewrite forallb_Forall_bool. apply Forall_iff. intros x. apply in_range_spec. Qed.

Lemma IsPositiveDecimalSuffix_spec path prefix :
  IsPositiveDecimalSuffix path prefix = true <->
  exists n, path = prefix ++ n /\ positive_decimal n.
Proof.
  unfold IsPositiveDecimalSuffix, positive_decimal. split.
  - intros H. destruct (starts_with prefix path) eqn:Es; [|done].
    apply starts_with_spec in Es as [n ->]. simpl in H. rewrite drop_app_length in H.
    destruct n as [|c n]; [done|]. zbool.
    exists (c :: n). split; [done|]. exists c, n.
    by rewrite <- is_digit_Forall, <- in_range_spec.
  - intros (n & -> & c & r & -> & Hc & Hr).
    rewrite (proj2 (starts_with_spec prefix _)) by eauto. simpl.
    rewrite drop_app_length. apply andb_true_iff.
    by rewrite in_range_spec, is_digit_Forall.
Qed.

Lemma IsGithubReleasePath_spec path :
  NUL ∉ path ->
  IsGithubReleasePath path = true <->
  exists tag asset, path = kGitHubReleaseDownloadPathPrefix ++ tag ++ C_SLASH :: asset /\
    tag <> [] /\ asset <> [] /\ C_SLASH ∉ tag /\ C_SLASH ∉ asset.
Proof.
  intros Hnul. unfold IsGithubReleasePath. split.
  - intros H. destruct (starts_with _ path) eqn:Es; [|done]. cbn [negb] in H.
    apply starts_with_spec in Es as [rest ->]. rewrite drop_app_length in H.
    destruct (index_of C_SLASH rest) as [i|] eqn:Ei; [|done].
    apply index_of_split in Ei as (tag & asset & -> & <- & Ht).
    rewrite drop_app_cons_length in H.
    destruct (_ || _) eqn:Eb in H; [done|]. zbool.
    destruct (index_of C_SLASH asset) eqn:Ea; [done|]. apply index_of_None in Ea.
    exists tag, asset. split; [done|]. split; [by intros ->|]. split; [|done].
    intros ->. rename select (nth _ _ _ <> _) into Hn. apply Hn.
    rewrite nth_overflow; [done|]. rewrite length_app. simpl. lia.
  - intros (tag & asset & -> & Hne & Hane & Ht & Ha).
    rewrite (proj2 (starts_with_spec _ _)) by eauto. cbn [negb]. rewrite drop_app_length.
    rewrite index_of_app_new, drop_app_cons_length by done.
    rewrite (proj2 (Nat.eqb_neq (length tag) 0)) by (by destruct tag). cbn [orb].
    rewrite (proj2 (Z.eqb_neq _ _)).
    + by rewrite (proj2 (index_of_None _ _) Ha).
    + destruct asset as [|x asset]; [done|]. rewrite app_nth2 by lia.
      replace (S (length tag) - length tag)%nat with 1%nat by lia. simpl. intros ->.
      apply Hnul. set_solver.
Qed.

Lemma IsRedirectPath_spec r :
  NUL ∉ C_SLASH :: r -> IsRedirectPath (C_SLASH :: r) = true <-> r <> [].
Proof.
  intros Hn. unfold IsRedirectPath. simpl. destruct r as [|x r]; simpl; [done|].
  rewrite negb_true_iff, Z.eqb_neq. split; [done|]. intros _ ->. apply Hn. set_solver.
Qed.

Lemma IsAuthorizedRedirectHost_spec host :
  IsAuthorizedRedirectHost host = true <-> host ∈ host_allowed Redirect.
Proof.
  unfold IsAuthorizedRedirectHost. rewrite !orb_true_iff, !bytes_eqb_eq.
  rewrite list_elem_of_In. simpl. naive_solver.
Qed.

Lemma digits_no c n : Forall (fun d => 48 <= d <= 57) n -> ~ (48 <= c <= 57) -> c ∉ n.
Proof. rewrite List.Forall_forall. intros H Hc Hin. apply list_elem_of_In, H in Hin. lia. Qed.

Lemma positive_decimal_no c n : positive_decimal n -> ~ (48 <= c <= 57) -> c ∉ n.
Proof.
  intros (d & r & -> & ? & Hr) ? [->|Hin]%elem_of_cons; [lia|].
  by apply (digits_no c r Hr).
Qed.

(** No purpose other than a redirect admits a query. *)
Lemma path_allowed_no_query purpose path :
  purpose <> Redirect -> path_allowed purpose path -> C_QUESTION ∉ path.
Proof.
  destruct purpose; intros Hr; simpl; try done.
  - intros ->. by apply index_of_None.
  - intros (tag & asset & -> & _ & _ & _ & _ & Ht & Ha).
    assert (C_QUESTION ∉ kGitHubReleaseDownloadPathPrefix) by (by apply index_of_None).
    set_unfold. naive_solver.
  - intros (n & -> & Hn). apply (positive_decimal_no C_QUESTION) in Hn; [|unfold C_QUESTION; lia].
    assert (C_QUESTION ∉ kGitHubReleaseApiPathPrefix) by (by apply index_of_None). set_solver.
  - intros (n & -> & Hn). apply (positive_decimal_no C_QUESTION) in Hn; [|unfold C_QUESTION; lia].
    assert (C_QUESTION ∉ kGitHubReleaseAssetApiPathPrefix) by (by apply index_of_None). set_solver.
  - intros [->| ->]; by apply index_of_None.
Qed.

(** Decides a propositional goal over the outcomes of the boolean tests. *)
Ltac bool_cases :=
  repeat match goal with
  | |- context [bytes_eqb ?a ?b] => destruct (bytes_eqb a b)
  | |- context [IsPositiveDecimalSuffix ?a ?b] => destruct (IsPositiveDecimalSuffix a b)
  end; cbn [negb orb]; naive_solver.

Lemma singleton_host (h x : bytes) : h ∈ [x] <-> h = x.
Proof. set_solver. Qed.

Lemma authorize_spec purpose host r q :
  NUL ∉ C_SLASH :: r ->
  q = {| url_host := host; path_and_query := C_SLASH :: r; port := 443 |} ->
  authorize purpose q = UrlOk <->
  host ∈ host_allowed purpose /\ path_allowed purpose (C_SLASH :: r).
Proof.
  intros Hn ->. unfold authorize. cbn [url_host path_and_query].
  destruct (decide (purpose = Redirect)) as [->|Hp].
  - rewrite bool_decide_eq_true_2 by done. cbn [negb andb].
    rewrite <- IsAuthorizedRedirectHost_spec. simpl path_allowed.
    assert (Hr : (exists r0, r0 <> [] /\ C_SLASH :: r = C_SLASH :: r0) <-> r <> [])
      by naive_solver.
    rewrite Hr, <- IsRedirectPath_spec by done.
    destruct (IsAuthorizedRedirectHost host), (IsRedirectPath _); naive_solver.
  - rewrite bool_decide_eq_false_2 by done. cbn [negb andb].
    destruct (index_of C_QUESTION (C_SLASH :: r)) eqn:Eq.
    { split; [done|]. intros [_ Ha]. apply path_allowed_no_query in Ha; [|done].
      apply index_of_None in Ha. congruence. }
    apply index_of_None in Eq. set (path := C_SLASH :: r) in *.
    destruct purpose; [| |done| | |]; cbn [host_allowed path_allowed];
      rewrite singleton_host, <- bytes_eqb_eq.
    + rewrite <- bytes_eqb_eq. bool_cases.
    + assert (Hg := IsGithubReleasePath_spec path Hn).
      destruct (bytes_eqb host _); [|naive_solver]. cbn [negb].
      destruct (IsGithubReleasePath path); cbn [negb].
      * split; [intros _; split; [done|] | done]. destruct Hg as [Hg _].
        destruct (Hg eq_refl) as (tag & asset & Hpath & ? & ? & ? & ?).
        exists tag, asset. repeat split; try done; rewrite Hpath in Eq; set_solver.
      * split; [done|]. intros [_ (tag & asset & ? & ? & ? & ? & ? & _)].
        destruct Hg as [_ Hg]. discriminate Hg. by exists tag, asset.
    + rewrite <- IsPositiveDecimalSuffix_spec. bool_cases.
    + rewrite <- IsPositiveDecimalSuffix_spec. bool_cases.
    + rewrite <- !bytes_eqb_eq, <- orb_true_iff. bool_cases.
Qed.

Lemma host_allowed_facts purpose host :
  host ∈ host_allowed purpose ->
  host <> [] /\ forallb IsAsciiHostCharacter host = true /\ len host <= 37.
Proof.
  intros H. apply list_elem_of_In in H.
  destruct purpose; simpl in H; repeat destruct H as [<-|H]; try done;
    (split; [done|]; split; [done|]; vm_compute; congruence).
Qed.

Lemma path_allowed_slash purpose path :
  path_allowed purpose path -> exists r, path = C_SLASH :: r.
Proof.
  destruct purpose; simpl.
  - intros ->. eexists. reflexivity.
  - intros (? & ? & -> & _). eexists. reflexivity.
  - naive_solver.
  - intros (? & -> & _). eexists. reflexivity.
  - intros (? & -> & _). eexists. reflexivity.
  - intros [->| ->]; eexists; reflexivity.
Qed.

Lemma authorized_url_iff (purpose : UpdateUrlPurpose) (url : bytes)
    (parsed q : ParsedUpdateUrl) (Hnul : NUL ∉ url) :
  ParseAndAuthorizeUpdateUrl (Some url) purpose parsed = (UrlOk, q) <->
  exists host path, accepted_url purpose url host path /\
    q = {| url_host := host; path_and_query := path; port := 443 |}.
Proof.
  unfold ParseAndAuthorizeUpdateUrl, accepted_url. split.
  - intros H. destruct (parse_url url parsed) as [st q'] eqn:Ep.
    destruct st; try discriminate H. injection H as Ha <-.
    apply parse_url_sound in Ep as (host & pt & path & Hs & ->).
    destruct Hs as (Hurl & Hpt & _ & _ & [r ->] & Hreq & Hhash & Hlen).
    assert (NUL ∉ C_SLASH :: r) by (rewrite Hurl in Hnul; set_solver).
    eapply (authorize_spec purpose host r) in Ha as [Hh Hp]; [|done..].
    exists host, (C_SLASH :: r). split; [|done]. by exists pt.
  - intros (host & path & (pt & Hurl & Hpt & Hh & Hp & Hreq & Hhash & Hlen) & ->).
    destruct (host_allowed_facts _ _ Hh) as (Hne & Hchars & Hhl).
    destruct (path_allowed_slash _ _ Hp) as [r ->].
    rewrite (parse_url_complete url host pt (C_SLASH :: r)).
    + f_equal. eapply authorize_spec; [|done|done]. rewrite Hurl in Hnul. set_solver.
    + unfold url_shape. repeat split; eauto.
    + unfold kMaximumUpdateHostBytes. lia.
    + assert (len pt <= 4)
        by (apply list_elem_of_In in Hpt as [<-|[<-|[]]]; vm_compute; congruence).
      rewrite Hurl, !len_app. change (len kScheme) with 8.
      unfold kMaximumUpdateUrlBytes, kMaximumUpdatePathBytes in *. lia.
Qed.

(** C40. URL authorization is exact: for every purpose, the parser accepts
    precisely the HTTPS URLs (default or explicit port 443) whose host is one of
    the purpose's GitHub hosts and whose path is one of the purpose's paths,
    without user info, fragment, control characters or (redirects aside) a
    query; and it reports exactly that host and path with port 443. *)
Theorem ParseAndAuthorizeUpdateUrl_iff (purpose : UpdateUrlPurpose) (url : bytes)
    (parsed q : ParsedUpdateUrl) (Hnul : NUL ∉ url) :
  ParseAndAuthorizeUpdateUrl (Some url) purpose parsed = (UrlOk, q) <->
  exists host path, accepted_url purpose url host path /\
    q = {| url_host := host; path_and_query := path; port := 443 |}.
Proof. by apply authorized_url_iff. Qed.

Definition no_url : ParsedUpdateUrl := {| url_host := []; path_and_query := []; port := 0 |}.

Lemma ParseAndAuthorizeUpdateUrl_iff_witness :
  let url := str "https://github.com:443/kdre/bmx/releases/download/v1/bmx-pi5.zip" in
  exists host path, accepted_url ReleaseAsset url host path /\
    snd (ParseAndAuthorizeUpdateUrl (Some url) ReleaseAsset no_url) =
    {| url_host := host; path_and_query := path; port := 443 |}.
Proof.
  intros url. apply (ParseAndAuthorizeUpdateUrl_iff ReleaseAsset url no_url);
    [apply index_of_None; reflexivity | vm_compute; reflexivity].
Defined.
