(* ===== verification/SignatureEnvelope.v ===== *)
(** * Detached release-signature envelopes

    Models [src/update/signature_envelope.cpp]: canonical Base64, strict DER
    P-256 signatures and the line-oriented envelope that carries them.  The
    specification is a printer: an envelope is accepted exactly when it is the
    printed form of a valid list of signatures. *)
From S2P Require Import Prelude.
Local Open Scope Z_scope.

Definition kMaximumSignatureEnvelopeBytes : Z := 4096.
Definition kMaximumReleaseSignatures : nat := 4.
Definition kMaximumSigningKeyIdBytes : Z := 64.
Definition kMaximumEcdsaDerBytes : Z := 80.

Record ReleaseSignature := { key_id : bytes; der : bytes }.

Inductive SignatureEnvelopeStatus :=
  | SigOk | SigInvalidArgument | InvalidSize | NonAscii | InvalidLineEnding
  | UnsupportedVersion | IncompleteRecord | SignatureCount | InvalidKeyId
  | KeyOrder | UnsupportedAlgorithm | InvalidBase64 | InvalidDer.

Definition kEnvelopeHeader : bytes := str "BMX-SIGNATURE-V1".
Definition kKeyPrefix : bytes := str "key-id: ".
Definition kAlgorithmLine : bytes := str "algorithm: ECDSA-P256-SHA256".
Definition kSignaturePrefix : bytes := str "signature: ".

(** A punctuation byte allowed after the first byte of an identifier. *)
Definition is_ident_punct (c : Z) : bool := (c =? 46) || (c =? 95) || (c =? 45).

Definition IsIdentifier (value : bytes) : bool :=
  if (len value =? 0) || (kMaximumSigningKeyIdBytes <? len value) then false
  else match value with
       | [] => false
       | c :: rest => is_alnum c && forallb (fun d => is_alnum d || is_ident_punct d) rest
       end.

Definition EQ : Z := 61.

Definition Base64Value (c : Z) : option Z :=
  if is_upper c then Some (c - 65)
  else if is_lower c then Some (c - 97 + 26)
  else if is_digit c then Some (c - 48 + 52)
  else if c =? 43 then Some 62
  else if c =? 47 then Some 63
  else None.

(** [if (out < decoded_size) output[out++] = byte]. *)
Definition push (decoded_size : nat) (out : bytes) (b : Z) : bytes :=
  if (length out <? decoded_size)%nat then out ++ [b] else out.

(** The loop over groups of four characters; [None] is [return false]. *)
Fixpoint decode_groups (padding decoded_size : nat) (encoded out : bytes) : option bytes :=
  match encoded with
  | [] => Some out
  | c0 :: c1 :: c2 :: c3 :: rest =>
    let final_group := match rest with [] => true | _ => false end in
    match Base64Value c0, Base64Value c1,
          (if c2 =? EQ then Some 0 else Base64Value c2),
          (if c3 =? EQ then Some 0 else Base64Value c3) with
    | Some v0, Some v1, Some v2, Some v3 =>
      if negb final_group && ((c2 =? EQ) || (c3 =? EQ)) then None
      else if (c2 =? EQ) && negb (c3 =? EQ) then None
      else
      let block := Z.lor (Z.lor (Z.lor (Z.shiftl v0 18) (Z.shiftl v1 12)) (Z.shiftl v2 6)) v3 in
      let out := push decoded_size out (u8 (Z.shiftr block 16)) in
      let out := push decoded_size out (u8 (Z.shiftr block 8)) in
      let out := push decoded_size out (u8 block) in
      if final_group && (padding =? 1)%nat && negb (Z.land v2 3 =? 0) then None
      else if final_group && (padding =? 2)%nat && negb (Z.land v1 15 =? 0) then None
      else decode_groups padding decoded_size rest out
    | _, _, _, _ => None
    end
  | _ => None
  end.

Definition DecodeCanonicalBase64 (encoded : bytes) (output_capacity : nat) : option bytes :=
  let n := length encoded in
  if (n =? 0)%nat || negb (Z.land (Z.of_nat n) 3 =? 0) then None
  else
  let padding := ((if (nth (n - 1) encoded 0%Z =? EQ)%Z then 1 else 0) +
                  (if (2 <=? n)%nat && (nth (n - 2) encoded 0%Z =? EQ)%Z then 1 else 0))%nat in
  let decoded_size := (n / 4 * 3 - padding)%nat in
  if (output_capacity <? decoded_size)%nat then None
  else match decode_groups padding decoded_size encoded [] with
       | Some out => if (length out =? decoded_size)%nat then Some out else None
       | None => None
       end.

(** [memcmp(a, b, n) < 0] on equally long buffers. *)
Definition kP256Order : bytes := [
  0xff; 0xff; 0xff; 0xff; 0x00; 0x00; 0x00; 0x00;
  0xff; 0xff; 0xff; 0xff; 0xff; 0xff; 0xff; 0xff;
  0xbc; 0xe6; 0xfa; 0xad; 0xa7; 0x17; 0x9e; 0x84;
  0xf3; 0xb9; 0xca; 0xc2; 0xfc; 0x63; 0x25; 0x51].

Fixpoint strip_zeros (l : bytes) : bytes :=
  match l with
  | [] => []
  | c :: l' => if c =? 0 then strip_zeros l' else l
  end.

Definition ScalarInP256Range (encoded : bytes) : bool :=
  let size := length encoded in
  if (size =? 0)%nat || (33 <? size)%nat || negb (Z.land (nth 0 encoded 0) 0x80 =? 0)
  then false
  else if (1 <? size)%nat && (nth 0 encoded 0 =? 0) && (Z.land (nth 1 encoded 0) 0x80 =? 0)
  then false
  else if (size =? 33)%nat && negb (nth 0 encoded 0 =? 0) then false
  else
  let value := strip_zeros (if (size =? 33)%nat then drop 1 encoded else encoded) in
  if (length value =? 0)%nat then false
  else if (length value <? 32)%nat then true
  else if (32 <? length value)%nat then false
  else match strcmp value kP256Order with Lt => true | _ => false end.

(** The loop body for one scalar: the bytes after it, if it is acceptable. *)
Definition der_scalar_step (rest : bytes) : option bytes :=
  match rest with
  | tag :: size :: body =>
    if negb (tag =? 2) then None
    else if (size =? 0) || (33 <? size) || (len body <? size) ||
            negb (ScalarInP256Range (take (Z.to_nat size) body))
    then None
    else Some (drop (Z.to_nat size) body)
  | _ => None
  end.

(** [None] is a null data pointer. *)
Definition IsValidP256EcdsaDer (signature : option bytes) : bool :=
  match signature with
  | None => false
  | Some sig =>
    if (len sig <? 8) || (kMaximumEcdsaDerBytes <? len sig) || negb (nth 0 sig 0 =? 0x30) ||
       (0x80 <=? nth 1 sig 0) || negb (nth 1 sig 0 =? len sig - 2)
    then false
    else match der_scalar_step (drop 2 sig) with
         | None => false
         | Some rest =>
           match der_scalar_step rest with
           | None => false
           | Some rest => match rest with [] => true | _ => false end
           end
         end
  end.

(** [NextLine]: the line and the bytes after its line feed. *)
Definition NextLine (rest : bytes) : option (bytes * bytes) :=
  match index_of LF rest with
  | None => None
  | Some n => Some (take n rest, drop (S n) rest)
  end.

Definition LineEquals (line expected : bytes) : bool := bytes_eqb line expected.

Definition LineStartsWith (line prefix : bytes) : option bytes :=
  if (length line <=? length prefix)%nat || negb (starts_with prefix line) then None
  else Some (drop (length prefix) line).

(** The initial character scan: the status of the first offending byte. *)
Fixpoint scan_ascii (l : bytes) : SignatureEnvelopeStatus :=
  match l with
  | [] => SigOk
  | c :: l' =>
    if c =? CR then InvalidLineEnding
    else if 0x7f <? c then NonAscii
    else scan_ascii l'
  end.

(** The record loop; [signatures] are the records parsed so far, oldest first. *)
Fixpoint parse_records (fuel : nat) (signature_capacity : nat) (rest : bytes)
    (signatures : list ReleaseSignature) (previous_key : bytes)
    : SignatureEnvelopeStatus * list ReleaseSignature :=
  match rest with
  | [] => (SigOk, signatures)
  | _ =>
  match fuel with
  | O => (SigInvalidArgument, signatures)
  | S fuel =>
    let count := length signatures in
    if (kMaximumReleaseSignatures <=? count)%nat || (signature_capacity <=? count)%nat
    then (SignatureCount, signatures)
    else
    match NextLine rest with None => (IncompleteRecord, signatures) | Some (key_line, rest) =>
    match NextLine rest with None => (IncompleteRecord, signatures) | Some (algorithm_line, rest) =>
    match NextLine rest with None => (IncompleteRecord, signatures) | Some (signature_line, rest) =>
    match LineStartsWith key_line kKeyPrefix with
    | None => (InvalidKeyId, signatures)
    | Some key =>
      if negb (IsIdentifier key) then (InvalidKeyId, signatures)
      else if negb (count =? 0)%nat &&
              match strcmp previous_key key with Lt => false | _ => true end
      then (KeyOrder, signatures)
      else if negb (LineEquals algorithm_line kAlgorithmLine)
      then (UnsupportedAlgorithm, signatures)
      else
      match LineStartsWith signature_line kSignaturePrefix with
      | None => (InvalidBase64, signatures)
      | Some encoded =>
        match DecodeCanonicalBase64 encoded (Z.to_nat kMaximumEcdsaDerBytes) with
        | None => (InvalidBase64, signatures)
        | Some d =>
          if negb (IsValidP256EcdsaDer (Some d)) then (InvalidDer, signatures)
          else parse_records fuel signature_capacity rest
                 (signatures ++ [{| key_id := key; der := d |}]) key
        end
      end
    end
    end end end
  end
  end.

(** The status and, when it is [SigOk], the [*signature_count] first entries of
    the output array. *)
Definition ParseSignatureEnvelope (envelope : option bytes) (signature_capacity : nat)
    : SignatureEnvelopeStatus * list ReleaseSignature :=
  match envelope with
  | None => (SigInvalidArgument, [])
  | Some e =>
    if (len e =? 0) || (kMaximumSignatureEnvelopeBytes <? len e) then (InvalidSize, [])
    else if negb (nth (length e - 1) e 0 =? LF) then (InvalidLineEnding, [])
    else
    match scan_ascii e with
    | SigOk =>
      match NextLine e with
      | None => (UnsupportedVersion, [])
      | Some (line, rest) =>
        if negb (LineEquals line kEnvelopeHeader) then (UnsupportedVersion, [])
        else
        match parse_records (length e) signature_capacity rest [] [] with
        | (SigOk, []) => (SignatureCount, [])
        | (SigOk, signatures) => (SigOk, signatures)
        | (status, _) => (status, [])
        end
      end
    | status => (status, [])
    end
  end.

(** ** Specification *)

(** RFC 4648 Base64 with padding. *)
Definition b64_char (v : Z) : Z :=
  if v <? 26 then v + 65
  else if v <? 52 then v - 26 + 97
  else if v <? 62 then v - 52 + 48
  else if v =? 62 then 43 else 47.

Fixpoint base64_encode (l : bytes) : bytes :=
  match l with
  | a :: b :: c :: rest =>
      [b64_char (a / 4); b64_char (a mod 4 * 16 + b / 16);
       b64_char (b mod 16 * 4 + c / 64); b64_char (c mod 64)] ++ base64_encode rest
  | [a; b] =>
      [b64_char (a / 4); b64_char (a mod 4 * 16 + b / 16); b64_char (b mod 16 * 4); EQ]
  | [a] => [b64_char (a / 4); b64_char (a mod 4 * 16); EQ; EQ]
  | [] => []
  end.

(** Big-endian value of a byte string. *)
Definition be_value (l : bytes) : Z := fold_left (fun acc b => acc * 256 + b) l 0.

Definition p256_order : Z := be_value kP256Order.

(** The contents octets of a DER INTEGER holding a positive value. *)
Definition der_positive (enc : bytes) : Prop :=
  exists c r, enc = c :: r /\ 0 <= c < 128 /\
    match r with [] => True | d :: _ => c = 0 -> 128 <= d end.

Definition der_scalar (enc : bytes) : Prop :=
  Forall is_byte enc /\ der_positive enc /\ 1 <= be_value enc < p256_order.

Definition der_signature (r s : bytes) : bytes :=
  let body := [2; len r] ++ r ++ [2; len s] ++ s in [0x30; len body] ++ body.

Definition print_record (s : ReleaseSignature) : bytes :=
  kKeyPrefix ++ key_id s ++ [LF] ++ kAlgorithmLine ++ [LF] ++
  kSignaturePrefix ++ base64_encode (der s) ++ [LF].

Definition print_envelope (sigs : list ReleaseSignature) : bytes :=
  kEnvelopeHeader ++ [LF] ++ concat (print_record <$> sigs).

Definition valid_der (d : bytes) : Prop :=
  exists r s, d = der_signature r s /\ der_scalar r /\ der_scalar s.

(** Key identifiers strictly increasing from left to right. *)
Fixpoint increasing_from (previous : option bytes) (sigs : list ReleaseSignature) : Prop :=
  match sigs with
  | [] => True
  | s :: sigs' =>
      match previous with Some p => strcmp p (key_id s) = Lt | None => True end /\
      increasing_from (Some (key_id s)) sigs'
  end.

Definition valid_signatures (capacity : nat) (sigs : list ReleaseSignature) : Prop :=
  (1 <= length sigs <= Nat.min kMaximumReleaseSignatures capacity)%nat /\
  Forall (fun s => IsIdentifier (key_id s) = true /\ valid_der (der s)) sigs /\
  increasing_from None sigs.

(** ** Proofs: Base64 *)
Lemma Base64Value_spec c v : Base64Value c = Some v <-> 0 <= v < 64 /\ c = b64_char v.
Proof.
  unfold Base64Value, b64_char, is_upper, is_lower, is_digit, in_range. split.
  - intros H. repeat case_match; simplify_eq; zbool; (split; [lia|]);
      repeat case_match; zbool; lia.
  - intros [Hv ->].
    destruct (Z.ltb_spec v 26), (Z.ltb_spec v 52), (Z.ltb_spec v 62), (Z.eqb_spec v 62);
      try lia; repeat (case_match; zbool; try lia); f_equal; lia.
Qed.

Lemma b64_char_range v : 0 <= v < 64 -> b64_char v <> EQ /\ 43 <= b64_char v <= 122.
Proof. intros. unfold b64_char, EQ. repeat case_match; zbool; lia. Qed.

(** The 24-bit block of one group. *)
Lemma block_sum v0 v1 v2 v3 :
  0 <= v0 < 64 -> 0 <= v1 < 64 -> 0 <= v2 < 64 -> 0 <= v3 < 64 ->
  Z.lor (Z.lor (Z.lor (Z.shiftl v0 18) (Z.shiftl v1 12)) (Z.shiftl v2 6)) v3 =
  ((v0 * 64 + v1) * 64 + v2) * 64 + v3.
Proof.
  intros. rewrite !Z.shiftl_mul_pow2 by lia.
  rewrite (lor_add_disjoint v0 (v1 * 2 ^ 12) 18) by lia.
  replace (v0 * 2 ^ 18 + v1 * 2 ^ 12) with ((v0 * 64 + v1) * 2 ^ 12) by lia.
  rewrite (lor_add_disjoint _ (v2 * 2 ^ 6) 12) by lia.
  replace ((v0 * 64 + v1) * 2 ^ 12 + v2 * 2 ^ 6)
    with (((v0 * 64 + v1) * 64 + v2) * 2 ^ 6) by lia.
  rewrite lor_add_disjoint by lia. lia.
Qed.

Lemma block_bytes v0 v1 v2 v3 :
  0 <= v0 < 64 -> 0 <= v1 < 64 -> 0 <= v2 < 64 -> 0 <= v3 < 64 ->
  let block := Z.lor (Z.lor (Z.lor (Z.shiftl v0 18) (Z.shiftl v1 12)) (Z.shiftl v2 6)) v3 in
  u8 (Z.shiftr block 16) = v0 * 4 + v1 / 16 /\
  u8 (Z.shiftr block 8) = v1 mod 16 * 16 + v2 / 4 /\
  u8 block = v2 mod 4 * 64 + v3.
Proof.
  intros ???? block. subst block. rewrite block_sum by done. unfold u8.
  rewrite !Z.shiftr_div_pow2 by lia. change (2 ^ 16) with 65536. change (2 ^ 8) with 256.
  repeat split; divmod_lia.
Qed.

Lemma land_3 v : Z.land v 3 = v mod 4.
Proof. change 3 with (Z.ones 2). by rewrite Z.land_ones by lia. Qed.
Lemma land_15 v : Z.land v 15 = v mod 16.
Proof. change 15 with (Z.ones 4). by rewrite Z.land_ones by lia. Qed.

(** The padding computed from the last two characters. *)
Definition padding_of (e : bytes) : nat :=
  ((if (nth (length e - 1) e 0%Z =? EQ)%Z then 1 else 0) +
   (if (2 <=? length e)%nat && (nth (length e - 2) e 0%Z =? EQ)%Z then 1 else 0))%nat.

Lemma padding_of_le e : (padding_of e <= 2)%nat.
Proof. unfold padding_of. repeat case_match; lia. Qed.

Lemma padding_of_tail c0 c1 c2 c3 rest :
  (4 <= length rest)%nat -> padding_of (c0 :: c1 :: c2 :: c3 :: rest) = padding_of rest.
Proof.
  intros. unfold padding_of. simpl length.
  replace (S (S (S (S (length rest)))) - 1)%nat with (S (S (S (S (length rest - 1))))) by lia.
  replace (S (S (S (S (length rest)))) - 2)%nat with (S (S (S (S (length rest - 2))))) by lia.
  cbn [nth]. rewrite (proj2 (Nat.leb_le 2 (length rest))) by lia. done.
Qed.

Lemma push_take n out b : push n out b = out ++ take (n - length out) [b].
Proof.
  unfold push. destruct (Nat.ltb_spec (length out) n).
  - rewrite take_ge by (simpl; lia). done.
  - replace (n - length out)%nat with 0%nat by lia. by rewrite app_nil_r.
Qed.

(** The three guarded stores of one group. *)
Lemma push3 n out a b c m :
  (n = length out + m)%nat -> (m <= 3)%nat ->
  push n (push n (push n out a) b) c = out ++ take m [a; b; c].
Proof.
  intros -> Hm. unfold push. destruct m as [|[|[|[|m]]]]; [..|lia];
    repeat (case_match; zbool; rewrite ?length_app in *; simpl in *; try lia);
    by rewrite <- ?app_assoc, ?app_nil_r.
Qed.

(** Four characters that are not padding carry three bytes. *)
Lemma group_full c0 c1 c2 c3 v0 v1 v2 v3 :
  Base64Value c0 = Some v0 -> Base64Value c1 = Some v1 ->
  Base64Value c2 = Some v2 -> Base64Value c3 = Some v3 ->
  let a := v0 * 4 + v1 / 16 in
  let b := v1 mod 16 * 16 + v2 / 4 in
  let c := v2 mod 4 * 64 + v3 in
  Forall is_byte [a; b; c] /\ c0 = b64_char (a / 4) /\
  c1 = b64_char (a mod 4 * 16 + b / 16) /\
  c2 = b64_char (b mod 16 * 4 + c / 64) /\ c3 = b64_char (c mod 64).
Proof.
  intros [? ->]%Base64Value_spec [? ->]%Base64Value_spec [? ->]%Base64Value_spec
    [? ->]%Base64Value_spec a b c. unfold a, b, c, is_byte.
  split; [repeat constructor; divmod_lia|].
  repeat split; f_equal; divmod_lia.
Qed.

Lemma is_byte_pair v0 v1 : 0 <= v0 < 64 -> 0 <= v1 < 64 -> is_byte (v0 * 4 + v1 / 16).
Proof. unfold is_byte. intros. divmod_lia. Qed.

Lemma Base64Value_char v : 0 <= v < 64 -> Base64Value (b64_char v) = Some v.
Proof. intros. by apply Base64Value_spec. Qed.

Lemma b64_char_not_EQ v : 0 <= v < 64 -> (b64_char v =? EQ) = false.
Proof. intros Hv. apply Z.eqb_neq. apply (b64_char_range v Hv). Qed.

Lemma Base64Value_not_EQ c v : Base64Value c = Some v -> (c =? EQ) = false.
Proof. intros [? ->]%Base64Value_spec. by apply b64_char_not_EQ. Qed.

Ltac b64_ranges :=
  repeat match goal with
  | H : Base64Value ?c = Some ?v |- _ =>
      lazymatch goal with
      | _ : 0 <= v < 64 |- _ => fail
      | _ => pose proof (proj1 (proj1 (Base64Value_spec c v) H))
      end
  end.

(** Soundness of one group, the final one or not. *)
Lemma decode_final_sound out c0 c1 c2 c3 res :
  let e := [c0; c1; c2; c3] in
  decode_groups (padding_of e) (length out + 3 - padding_of e) e out = Some res ->
  exists d, e = base64_encode d /\ Forall is_byte d /\ d <> [] /\ res = out ++ d.
Proof.
  intros e. unfold padding_of. simpl. intros H.
  destruct (Base64Value c0) as [v0|] eqn:E0; [|done].
  destruct (Base64Value c1) as [v1|] eqn:E1; [|done].
  destruct (if c2 =? EQ then _ else _) as [v2|] eqn:E2; [|done].
  destruct (if c3 =? EQ then Some 0 else _) as [v3|] eqn:E3; [|done].
  destruct (c3 =? EQ) eqn:Q3, (c2 =? EQ) eqn:Q2; cbn [negb andb] in H; try discriminate H;
    zbool; simplify_eq; b64_ranges;
    rewrite ?(land_3 v2), ?(land_15 v1) in H;
    (destruct (block_bytes v0 v1 0 0) as (P1 & P2 & P3); [lia..|] || idtac).
  - (* one byte *)
    rewrite P1, P2, P3, (push3 _ _ _ _ _ 1) in H by (simpl; lia). simpl in H. destruct (v1 mod 16 =? 0) eqn:Em; [|done]. zbool. injection H as <-.
    exists [v0 * 4 + v1 / 16]. split; [|split; [|done]].
    + apply Base64Value_spec in E0 as [_ ->], E1 as [_ ->]. subst e. simpl.
      repeat f_equal; divmod_lia.
    + repeat constructor; unfold is_byte; divmod_lia.
  - (* two bytes *)
    clear P1 P2 P3. destruct (block_bytes v0 v1 v2 0) as (P1 & P2 & P3); [lia..|].
    rewrite P1, P2, P3, (push3 _ _ _ _ _ 2) in H by (simpl; lia). simpl in H. destruct (v2 mod 4 =? 0) eqn:Em; [|done]. zbool. injection H as <-.
    exists [v0 * 4 + v1 / 16; v1 mod 16 * 16 + v2 / 4]. split; [|split; [|done]].
    + apply Base64Value_spec in E0 as [_ ->], E1 as [_ ->], E2 as [_ ->]. subst e. simpl.
      repeat f_equal; divmod_lia.
    + repeat constructor; unfold is_byte; divmod_lia.
  - (* three bytes *)
    clear P1 P2 P3. destruct (block_bytes v0 v1 v2 v3) as (P1 & P2 & P3); [lia..|].
    rewrite P1, P2, P3, (push3 _ _ _ _ _ 3) in H by (simpl; lia). simpl in H.
    injection H as <-.
    destruct (group_full c0 c1 c2 c3 v0 v1 v2 v3) as (Hb & G0 & G1 & G2 & G3); [done..|].
    eexists [_; _; _]. split; [|split; [exact Hb | done]].
    subst e. simpl. rewrite <- G0, <- G1, <- G2, <- G3. done.
Qed.

Lemma decode_groups_sound k e out res :
  length e = (4 * S k)%nat ->
  decode_groups (padding_of e) (length out + 3 * S k - padding_of e) e out = Some res ->
  exists d, e = base64_encode d /\ Forall is_byte d /\ d <> [] /\ res = out ++ d.
Proof.
  revert e out. induction k as [|k IH]; intros e out Hl H;
    destruct e as [|c0 [|c1 [|c2 [|c3 rest]]]]; simpl in Hl; try lia.
  - destruct rest; [|simpl in Hl; lia]. by apply decode_final_sound.
  - pose proof (padding_of_le rest) as Hpl.
    rewrite padding_of_tail in H by lia. destruct rest as [|c4 rest']; [simpl in Hl; lia|].
    set (rest := c4 :: rest') in *. cbn [decode_groups] in H.
    change (match rest with [] => true | _ :: _ => false end) with false in H.
    cbn [negb andb] in H.
    destruct (Base64Value c0) as [v0|] eqn:E0; [|done].
    destruct (Base64Value c1) as [v1|] eqn:E1; [|done].
    destruct (c2 =? EQ) eqn:Q2; [by destruct (if c3 =? EQ then _ else _)|].
    destruct (Base64Value c2) as [v2|] eqn:E2; [|done].
    destruct (c3 =? EQ) eqn:Q3; [done|].
    destruct (Base64Value c3) as [v3|] eqn:E3; [|done]. cbn [orb] in H. b64_ranges.
    destruct (block_bytes v0 v1 v2 v3) as (P1 & P2 & P3); [lia..|].
    set (n := (length out + 3 * S (S k) - padding_of rest)%nat) in *.
    set (g := [v0 * 4 + v1 / 16; v1 mod 16 * 16 + v2 / 4; v2 mod 4 * 64 + v3]).
    assert (Hpush : push n (push n (push n out (v0 * 4 + v1 / 16)) (v1 mod 16 * 16 + v2 / 4))
                      (v2 mod 4 * 64 + v3) = out ++ g).
    { rewrite !push_take, !length_app, !length_take. simpl length.
      rewrite !take_ge by (simpl; subst n; lia). by rewrite <- !app_assoc. }
    rewrite P1, P2, P3, Hpush in H.
    destruct (group_full c0 c1 c2 c3 v0 v1 v2 v3) as (Hb & G0 & G1 & G2 & G3); [done..|].
    destruct (IH rest (out ++ g))
      as (d & He & Hd & Hne & Hres).
    { lia. }
    { rewrite <- H. f_equal. rewrite length_app. subst n. simpl. lia. }
    eexists (_ :: _ :: _ :: d). split; [|split; [|split; [done|]]].
    + cbn [base64_encode app]. rewrite <- He, <- G0, <- G1, <- G2, <- G3. done.
    + repeat (apply Forall_cons in Hb as [? Hb]; constructor; [done|]). done.
    + by rewrite Hres, <- app_assoc.
Qed.

Lemma list_ind3 {A} (P : list A -> Prop) :
  P [] -> (forall a, P [a]) -> (forall a b, P [a; b]) ->
  (forall a b c l, P l -> P (a :: b :: c :: l)) -> forall l, P l.
Proof.
  intros H0 H1 H2 H3 l. assert (P l /\ (forall a, P (a :: l)) /\ (forall a b, P (a :: b :: l)))
    as [? _]; [|done].
  induction l as [|x l (? & ? & ?)]; naive_solver.
Qed.

Lemma base64_encode_nonempty d : d <> [] -> base64_encode d <> [].
Proof. by destruct d as [|a [|b [|c d]]]. Qed.

Lemma sextets a b c :
  is_byte a -> is_byte b -> is_byte c ->
  (0 <= a / 4 < 64 /\ 0 <= a mod 4 * 16 + b / 16 < 64 /\
   0 <= b mod 16 * 4 + c / 64 < 64 /\ 0 <= c mod 64 < 64).
Proof. unfold is_byte. intros. repeat split; divmod_lia. Qed.

(** The encoder's length and padding agree with the decoder's computation. *)
Lemma base64_encode_size d :
  d <> [] -> Forall is_byte d ->
  exists k, length (base64_encode d) = (4 * S k)%nat /\
            (length d + padding_of (base64_encode d) = 3 * S k)%nat.
Proof.
  intros Hd. induction d as [|a|a b|a b c d IH] using list_ind3; [done| | |];
    intros Hb.
  - exists 0%nat. done.
  - exists 0%nat. split; [done|]. unfold padding_of. simpl.
    rewrite b64_char_not_EQ; [done|]. apply Forall_cons in Hb as [? [? _]%Forall_cons].
    pose proof (sextets a b 0 ltac:(done) ltac:(done) ltac:(unfold is_byte; lia)) as (_ & _ & G & _).
    replace (0 / 64) with 0 in G by done. lia.
  - apply Forall_cons in Hb as [? [? [? Hb]%Forall_cons]%Forall_cons].
    pose proof (sextets a b c ltac:(done) ltac:(done) ltac:(done)) as (R0 & R1 & R2 & R3).
    destruct (decide (d = [])) as [->|Hne].
    + exists 0%nat. split; [done|]. unfold padding_of. simpl.
      rewrite !b64_char_not_EQ by done. done.
    + destruct (IH Hne Hb) as (k & Hk & Hp). exists (S k).
      cbn [base64_encode app length]. rewrite Hk, padding_of_tail by lia. lia.
Qed.

Lemma decode_final_complete out a b c :
  is_byte a -> is_byte b -> is_byte c ->
  (forall d, d = [a] \/ d = [a; b] \/ d = [a; b; c] ->
   let e := base64_encode d in
   decode_groups (padding_of e) (length out + length d) e out = Some (out ++ d)).
Proof.
  intros Ha Hb Hc d Hd e.
  pose proof (sextets a b c Ha Hb Hc) as (R0 & R1 & R2 & R3).
  assert (0 <= a mod 4 * 16 < 64 /\ 0 <= b mod 16 * 4 < 64) as [Ra Rb]
    by (unfold is_byte in *; divmod_lia).
  unfold is_byte in *. subst e. destruct Hd as [->|[->| ->]]; unfold padding_of; simpl;
    rewrite ?b64_char_not_EQ, ?Base64Value_char by lia; simpl.
  - destruct (block_bytes (a / 4) (a mod 4 * 16) 0 0) as (P1 & P2 & P3); [lia..|].
    rewrite P1, P2, P3, (push3 _ _ _ _ _ 1), land_15 by lia.
    rewrite (proj2 (Z.eqb_eq _ _)) by divmod_lia. simpl. do 3 f_equal. divmod_lia.
  - destruct (block_bytes (a / 4) (a mod 4 * 16 + b / 16) (b mod 16 * 4) 0)
      as (P1 & P2 & P3); [lia..|].
    rewrite P1, P2, P3, (push3 _ _ _ _ _ 2), land_3 by lia.
    rewrite (proj2 (Z.eqb_eq _ _)) by divmod_lia. simpl.
    do 3 f_equal; [|f_equal]; divmod_lia.
  - destruct (block_bytes (a / 4) (a mod 4 * 16 + b / 16) (b mod 16 * 4 + c / 64) (c mod 64))
      as (P1 & P2 & P3); [lia..|].
    rewrite P1, P2, P3, (push3 _ _ _ _ _ 3) by lia. simpl.
    do 3 f_equal; [|f_equal; [|f_equal]]; divmod_lia.
Qed.

Lemma decode_groups_complete d out :
  d <> [] -> Forall is_byte d ->
  let e := base64_encode d in
  decode_groups (padding_of e) (length out + length d) e out = Some (out ++ d).
Proof.
  revert out. induction d as [|a|a b|a b c d IH] using list_ind3; intros out Hd Hb;
    [done| | |].
  - apply Forall_cons in Hb as [? _].
    apply (decode_final_complete out a 0 0); unfold is_byte in *; auto; lia.
  - apply Forall_cons in Hb as [? [? _]%Forall_cons].
    apply (decode_final_complete out a b 0); unfold is_byte in *; auto; lia.
  - apply Forall_cons in Hb as [? [? [? Hb]%Forall_cons]%Forall_cons].
    destruct (decide (d = [])) as [->|Hne].
    { apply (decode_final_complete out a b c); auto. }
    destruct (base64_encode_size d Hne Hb) as (k & Hk & Hp).
    pose proof (sextets a b c ltac:(done) ltac:(done) ltac:(done)) as (R0 & R1 & R2 & R3).
    intros e. subst e. cbn [base64_encode app]. rewrite padding_of_tail by lia.
    cbn [decode_groups]. destruct (base64_encode d) as [|x e'] eqn:Ee; [simpl in Hk; lia|].
    rewrite <- Ee in *. rewrite !b64_char_not_EQ, !Base64Value_char by done.
    cbn [negb andb orb].
    destruct (block_bytes _ _ _ _ R0 R1 R2 R3) as (P1 & P2 & P3). rewrite P1, P2, P3.
    rewrite !push_take, !length_app, !length_take, !(take_ge [_]) by (simpl; lia).
    rewrite <- !app_assoc. cbn [app].
    specialize (IH (out ++ [a; b; c]) Hne Hb). cbv zeta in IH.
    rewrite <- app_assoc in IH. cbn [app] in IH. rewrite <- IH.
    unfold is_byte in *. f_equal.
    + rewrite length_app. simpl. lia.
    + do 2 f_equal; [|f_equal; [|f_equal]]; divmod_lia.
Qed.

(** Base64 decoding inverts the standard encoding and nothing else. *)
Lemma DecodeCanonicalBase64_spec e cap d :
  DecodeCanonicalBase64 e cap = Some d <->
  d <> [] /\ Forall is_byte d /\ (length d <= cap)%nat /\ e = base64_encode d.
Proof.
  unfold DecodeCanonicalBase64. fold (padding_of e). rewrite land_3. split.
  - intros H. guards H. zbool. injection H as <-.
    assert (exists k, length e = (4 * S k)%nat) as [k Hk].
    { exists (length e / 4 - 1)%nat. pose proof (Nat.div_mod_eq (length e) 4).
      assert (length e mod 4 = 0)%nat by (apply Nat2Z.inj; rewrite Nat2Z.inj_mod; done).
      lia. }
    replace (length e / 4 * 3)%nat with (length (@nil Z) + 3 * S k)%nat in *
      by (rewrite Hk, (Nat.mul_comm 4), Nat.div_mul by lia; simpl; lia).
    match goal with H : decode_groups _ _ _ _ = Some _ |- _ =>
      destruct (decode_groups_sound k e [] _ Hk H) as (d & He & Hb & Hne & ->) end.
    simpl in *. repeat split; try done. lia.
  - intros (Hne & Hb & Hcap & ->).
    destruct (base64_encode_size d Hne Hb) as (k & Hk & Hp).
    rewrite (proj2 (Nat.eqb_neq _ _)) by lia.
    assert (Z.of_nat (length (base64_encode d)) mod 4 = 0) as ->
      by (rewrite Hk; divmod_lia).
    cbn [orb negb Z.eqb].
    replace (length (base64_encode d) / 4 * 3 - padding_of (base64_encode d))%nat
      with (length (@nil Z) + length d)%nat
      by (rewrite Hk, (Nat.mul_comm 4), Nat.div_mul by lia; simpl; lia).
    rewrite (proj2 (Nat.ltb_ge _ _)) by (simpl; lia).
    rewrite decode_groups_complete by done. simpl. by rewrite Nat.eqb_refl.
Qed.

(** Base64 is canonical: the decoder accepts exactly the RFC 4648 encodings
    of the non-empty byte strings that fit the output, and returns the encoded
    string; in particular no two accepted texts decode to the same bytes. *)
Theorem DecodeCanonicalBase64_canonical (e : bytes) (cap : nat) (d : bytes) :
  DecodeCanonicalBase64 e cap = Some d <->
  d <> [] /\ Forall is_byte d /\ (length d <= cap)%nat /\ e = base64_encode d.
Proof. apply DecodeCanonicalBase64_spec. Qed.

(** ** Proofs: DER *)
Lemma be_fold l acc :
  fold_left (fun acc b => acc * 256 + b) l acc = acc * 256 ^ len l + be_value l.
Proof.
  unfold be_value. revert acc. induction l as [|b l IH]; intros acc; cbn [fold_left].
  - rewrite len_nil. lia.
  - rewrite (IH (acc * 256 + b)), (IH (0 * 256 + b)), len_cons, Z.pow_add_r by apply len_nonneg || lia.
    lia.
Qed.

Lemma be_value_cons b l : be_value (b :: l) = b * 256 ^ len l + be_value l.
Proof. unfold be_value at 1. cbn [fold_left]. by rewrite be_fold. Qed.

Lemma be_value_bound l : Forall is_byte l -> 0 <= be_value l < 256 ^ len l.
Proof.
  induction l as [|b l IH]; intros Hb; [by unfold be_value|].
  apply Forall_cons in Hb as [Hb Hl]. specialize (IH Hl).
  rewrite be_value_cons, len_cons, Z.pow_add_r by apply len_nonneg || lia.
  unfold is_byte in Hb. nia.
Qed.

Lemma strip_zeros_spec l :
  Forall is_byte l ->
  be_value (strip_zeros l) = be_value l /\ Forall is_byte (strip_zeros l) /\
  (length (strip_zeros l) <= length l)%nat /\
  match strip_zeros l with [] => be_value l = 0 | c :: _ => 0 < c end.
Proof.
  induction l as [|b l IH]; intros Hb; [done|]. simpl.
  pose proof Hb as Hbl. apply Forall_cons in Hb as [Hb Hl].
  destruct (b =? 0) eqn:E; zbool.
  - subst b. destruct (IH Hl) as (H1 & H2 & H3 & H4). rewrite be_value_cons.
    repeat split; [lia | done | lia |]. destruct (strip_zeros l); [lia | done].
  - repeat split; try done. unfold is_byte in Hb. lia.
Qed.

Lemma strcmp_be a b :
  Forall is_byte a -> Forall is_byte b -> length a = length b ->
  strcmp a b = Lt <-> be_value a < be_value b.
Proof.
  revert b. induction a as [|x a IH]; intros [|y b] Ha Hb Hl; try discriminate Hl; [done|].
  injection Hl as Hl. pose proof (be_value_bound _ Ha) as Ba. pose proof (be_value_bound _ Hb) as Bb.
  apply Forall_cons in Ha as [Hx Ha]. apply Forall_cons in Hb as [Hy Hb].
  assert (Hll : len a = len b) by (unfold len; lia).
  pose proof (be_value_bound _ Ha). pose proof (be_value_bound _ Hb).
  rewrite !be_value_cons, Hll in *. simpl. unfold is_byte in *.
  destruct (Z.compare_spec x y) as [->|Hlt|Hgt].
  - rewrite (IH b Ha Hb Hl). lia.
  - split; [nia | done].
  - split; [done | nia].
Qed.

Lemma land_0x80 c : is_byte c -> (Z.land c 0x80 =? 0) = (c <? 128).
Proof.
  intros Hc. apply eqb_prop.
  apply (byte_exhaust (fun c => Bool.eqb (Z.land c 0x80 =? 0) (c <? 128))); [|done].
  vm_compute. reflexivity.
Qed.

Lemma p256_order_bounds : 256 ^ 31 * 255 < p256_order < 256 ^ 32.
Proof. vm_compute. done. Qed.

(** The value test on a stripped magnitude of at most 32 bytes. *)
Lemma magnitude_test v :
  Forall is_byte v -> (length v <= 32)%nat ->
  (if (length v <? 32)%nat then true
   else if (32 <? length v)%nat then false
   else match strcmp v kP256Order with Lt => true | _ => false end) = true <->
  be_value v < p256_order.
Proof.
  intros Hv Hl. pose proof p256_order_bounds as [Ho _].
  destruct (Nat.ltb_spec (length v) 32) as [Hlt|Hge].
  - split; [intros _|done]. pose proof (be_value_bound v Hv) as [_ Hb].
    assert (256 ^ len v <= 256 ^ 31) by (apply Z.pow_le_mono_r; unfold len; lia).
    assert (0 < 256 ^ 31) by (apply Z.pow_pos_nonneg; lia). lia.
  - rewrite (proj2 (Nat.ltb_ge _ _)) by lia. unfold p256_order. rewrite <- strcmp_be.
    + destruct (strcmp _ _); split; done.
    + done.
    + repeat constructor; unfold is_byte; lia.
    + simpl. lia.
Qed.

Lemma be_value_lower c r : Forall is_byte (c :: r) -> c * 256 ^ len r <= be_value (c :: r).
Proof.
  intros H. rewrite be_value_cons. apply Forall_cons in H as [_ Hr].
  pose proof (be_value_bound r Hr). lia.
Qed.

(** A minimal positive encoding below the group order has at most 33 bytes, and
    33 only with a leading zero. *)
Lemma der_positive_size enc :
  Forall is_byte enc -> der_positive enc -> be_value enc < p256_order ->
  (length enc <= 33)%nat /\ (length enc = 33%nat -> nth 0 enc 0 = 0).
Proof.
  intros Hb (c & r & -> & Hc & Hr) Hv. pose proof p256_order_bounds as [_ Ho].
  assert (Hbig : forall n, 32 <= n -> p256_order < 256 ^ n).
  { intros n Hn. assert (256 ^ 32 <= 256 ^ n) by (apply Z.pow_le_mono_r; lia). lia. }
  pose proof (be_value_lower c r Hb) as Hlow.
  destruct (Z.eq_dec c 0) as [->|Hne].
  - split; [|done]. destruct r as [|d r]; [simpl; lia|]. specialize (Hr eq_refl).
    rewrite be_value_cons in Hv. apply Forall_cons in Hb as [_ Hb].
    pose proof (be_value_lower d r Hb) as Hlow'.
    destruct (decide (length r <= 31)%nat); [simpl; lia|].
    specialize (Hbig (len r) ltac:(unfold len; lia)).
    assert (0 < 256 ^ len r) by (apply Z.pow_pos_nonneg; [lia | apply len_nonneg]). nia.
  - destruct (decide (length r <= 31)%nat); [simpl; split; lia|].
    specialize (Hbig (len r) ltac:(unfold len; lia)).
    assert (0 < 256 ^ len r) by (apply Z.pow_pos_nonneg; [lia | apply len_nonneg]). nia.
Qed.

Lemma minimal_test enc :
  Forall is_byte enc ->
  (length enc =? 0)%nat || (33 <? length enc)%nat || negb (Z.land (nth 0 enc 0) 0x80 =? 0) = false /\
  (1 <? length enc)%nat && (nth 0 enc 0 =? 0) && (Z.land (nth 1 enc 0) 0x80 =? 0) = false <->
  (length enc <= 33)%nat /\ der_positive enc.
Proof.
  intros Hb. rewrite !land_0x80 by (by apply Forall_nth_byte).
  destruct enc as [|c r]; simpl.
  { split; [by intros [? _] | by intros [_ (? & ? & ? & _)]]. }
  apply Forall_cons in Hb as [Hc Hr]. unfold is_byte in Hc.
  assert (Hp : der_positive (c :: r) <-> c < 128 /\
     match r with [] => True | d :: _ => c = 0 -> 128 <= d end).
  { split; [intros (? & ? & [= <- <-] & ? & ?); split; [lia | done] |].
    intros [? ?]. exists c, r. repeat split; done || lia. }
  rewrite Hp, orb_false_iff, negb_false_iff, Z.ltb_lt.
  destruct r as [|d r]; simpl.
  - rewrite Nat.ltb_ge. split; [naive_solver lia | intuition lia].
  - rewrite Nat.ltb_ge. destruct (Z.eqb_spec c 0) as [->|]; simpl.
    + rewrite Z.ltb_ge. naive_solver lia.
    + naive_solver lia.
Qed.

Lemma stripped_test l :
  Forall is_byte l -> (length l <= 32)%nat ->
  (if (length (strip_zeros l) =? 0)%nat then false
   else if (length (strip_zeros l) <? 32)%nat then true
   else if (32 <? length (strip_zeros l))%nat then false
   else match strcmp (strip_zeros l) kP256Order with Lt => true | _ => false end) = true <->
  1 <= be_value l < p256_order.
Proof.
  intros Hb Hl. destruct (strip_zeros_spec l Hb) as (Hv & Hvb & Hvl & Hz).
  destruct (strip_zeros l) as [|d s] eqn:Es; [simpl; split; [done | lia]|].
  simpl (length _ =? 0)%nat. rewrite <- Es in *.
  rewrite magnitude_test, Hv by (done || lia).
  assert (1 <= be_value l); [|lia]. rewrite <- Hv, Es in *.
  pose proof (be_value_lower d s Hvb).
  assert (0 < 256 ^ len s) by (apply Z.pow_pos_nonneg; [lia | apply len_nonneg]). nia.
Qed.

Lemma ScalarInP256Range_spec enc :
  Forall is_byte enc ->
  ScalarInP256Range enc = true <-> der_positive enc /\ 1 <= be_value enc < p256_order.
Proof.
  intros Hb. pose proof (minimal_test enc Hb) as Hmin. unfold ScalarInP256Range.
  destruct (_ || _ || _) eqn:E1.
  { split; [done|]. intros [Hp [_ Hv]].
    destruct (der_positive_size enc Hb Hp Hv) as [Hl _]. naive_solver. }
  destruct (_ && _ && _) eqn:E2.
  { split; [done|]. intros [Hp [_ Hv]].
    destruct (der_positive_size enc Hb Hp Hv) as [Hl _]. naive_solver. }
  destruct (proj1 Hmin (conj eq_refl eq_refl)) as [Hlen Hpos]. clear Hmin E1 E2.
  destruct (Nat.eqb_spec (length enc) 33) as [E33|E33]; cbn [andb].
  - destruct enc as [|c r]; [done|]. simpl nth. destruct (Z.eqb_spec c 0) as [->|Hc]; cbn [negb].
    2: { split; [done|]. intros [Hp [_ Hv]].
         destruct (der_positive_size _ Hb Hp Hv) as [_ Hz]. by specialize (Hz E33). }
    change (drop 1 (0 :: r)) with r. rewrite be_value_cons, Z.mul_0_l, Z.add_0_l.
    apply Forall_cons in Hb as [_ Hr]. simpl in E33.
    rewrite stripped_test by (done || lia). tauto.
  - rewrite stripped_test by (done || lia). tauto.
Qed.

Lemma der_scalar_step_spec rest rest' :
  Forall is_byte rest ->
  der_scalar_step rest = Some rest' <->
  exists enc, rest = [2; len enc] ++ enc ++ rest' /\ der_scalar enc.
Proof.
  intros Hb. unfold der_scalar_step. split.
  - destruct rest as [|tag [|size body]]; try done. intros H.
    destruct (tag =? 2) eqn:Et; [|done]. cbn [negb] in H. guards H. zbool.
    injection H as <-. subst tag.
    apply Forall_cons in Hb as [_ [Hs Hbody]%Forall_cons]. unfold is_byte in Hs.
    assert (Henc : Forall is_byte (take (Z.to_nat size) body)) by (by apply Forall_take).
    rename select (ScalarInP256Range _ = true) into Hsc.
    apply ScalarInP256Range_spec in Hsc; [|done].
    exists (take (Z.to_nat size) body). split; [|unfold der_scalar; tauto].
    cbn [app]. rewrite take_drop. do 2 f_equal.
    unfold len in *. rewrite length_take. lia.
  - intros (enc & -> & Henc & Hpos & Hv). cbn [app].
    destruct (der_positive_size enc Henc Hpos (proj2 Hv)) as [Hl _].
    assert (enc <> []) by (intros ->; by destruct Hpos as (? & ? & ? & _)).
    assert (0 < len enc <= 33) by (unfold len; destruct enc; [done | simpl in *; lia]).
    replace (Z.to_nat (len enc)) with (length enc) by (unfold len; lia).
    rewrite take_app_length, drop_app_length, len_app, Z.eqb_refl. cbn [negb].
    rewrite (proj2 (Z.eqb_neq _ _)), !(proj2 (Z.ltb_ge _ _))
      by (pose proof (len_nonneg rest'); lia).
    rewrite (proj2 (ScalarInP256Range_spec enc Henc)) by tauto. done.
Qed.

Lemma IsValidP256EcdsaDer_spec sig :
  Forall is_byte sig -> IsValidP256EcdsaDer (Some sig) = true <-> valid_der sig.
Proof.
  intros Hb. unfold IsValidP256EcdsaDer, valid_der, der_signature. split.
  - intros H. destruct sig as [|t [|l body]]; [done..|].
    destruct (_ || _) eqn:E in H; [done|]. simpl in E, H. rewrite drop_0 in H.
    zbool. subst t.
    apply Forall_cons in Hb as [_ [_ Hbody]%Forall_cons].
    destruct (der_scalar_step body) as [rest|] eqn:E1; [|done].
    apply der_scalar_step_spec in E1 as (r & -> & Hr); [|done].
    assert (Hrest : Forall is_byte rest)
      by (apply Forall_app in Hbody as [_ [_ ?]%Forall_app]; done).
    destruct (der_scalar_step rest) as [rest'|] eqn:E2; [|done].
    apply der_scalar_step_spec in E2 as (s & -> & Hs); [|done].
    destruct rest'; [|done]. rewrite app_nil_r in *.
    exists r, s. split; [|done]. cbn [app]. do 2 f_equal.
    rename select (l = _) into Hl. rewrite Hl. cbn [app].
    rewrite !len_cons. lia.
  - intros (r & s & -> & Hr & Hs).
    assert (Hrs : forall enc, der_scalar enc -> 1 <= len enc <= 33).
    { intros enc (He & Hp & ? & Hv). pose proof (der_positive_size enc He Hp Hv) as [Hl _].
      destruct Hp as (c & t & -> & _). unfold len. simpl in *. lia. }
    pose proof (Hrs r Hr). pose proof (Hrs s Hs).
    set (body := [2; len r] ++ r ++ [2; len s] ++ s) in *.
    assert (Hbl : len body = 4 + len r + len s)
      by (subst body; rewrite !len_app, !len_cons, !len_nil; lia).
    cbn [app nth]. change (drop 2 (0x30 :: len body :: body)) with body.
    rewrite !len_cons, Hbl.
    rewrite !(proj2 (Z.ltb_ge _ _)), (proj2 (Z.leb_gt _ _)) by (unfold kMaximumEcdsaDerBytes; lia).
    rewrite (proj2 (Z.eqb_eq (4 + len r + len s) _)) by lia. cbn [orb negb Z.eqb Pos.eqb].
    assert (Hbody : Forall is_byte body).
    { apply Forall_cons in Hb as [_ [_ Hb]%Forall_cons]. done. }
    rewrite (proj2 (der_scalar_step_spec body ([2; len s] ++ s) Hbody)) by eauto.
    subst body. apply Forall_app in Hbody as [_ [_ Hbody]%Forall_app].
    rewrite (proj2 (der_scalar_step_spec _ [] Hbody)); [done|].
    exists s. by rewrite app_nil_r.
Qed.

(** DER strictness: a byte string is accepted as an ECDSA signature exactly
    when it is the DER encoding of two integers in [1, n-1] (n the P-256 order)
    with minimal lengths, minimal positive contents and no trailing bytes, so a
    signature value has no second accepted encoding. *)
Theorem IsValidP256EcdsaDer_iff (sig : bytes) (Hb : Forall is_byte sig) :
  IsValidP256EcdsaDer (Some sig) = true <->
  exists r s, sig = der_signature r s /\ der_scalar r /\ der_scalar s.
Proof. by apply IsValidP256EcdsaDer_spec. Qed.

Lemma IsValidP256EcdsaDer_iff_witness :
  exists r s, der_signature [0x7f; 1] [0; 0x80] = der_signature r s /\
              der_scalar r /\ der_scalar s.
Proof.
  apply (IsValidP256EcdsaDer_iff (der_signature [0x7f; 1] [0; 0x80]));
    [repeat constructor; cbv; congruence | vm_compute; reflexivity].
Defined.

(** ** Proofs: envelope *)
Lemma NextLine_spec rest line rest' :
  NextLine rest = Some (line, rest') <-> rest = line ++ LF :: rest' /\ LF ∉ line.
Proof.
  unfold NextLine. split.
  - destruct (index_of LF rest) as [n|] eqn:E; [|done]. intros [= <- <-].
    apply index_of_split in E as (a & r & -> & <- & Hn).
    by rewrite take_app_length, drop_app_cons_length.
  - intros [-> Hn]. rewrite index_of_app_new by done.
    by rewrite take_app_length, drop_app_cons_length.
Qed.

Lemma LineStartsWith_spec line prefix v :
  LineStartsWith line prefix = Some v <-> line = prefix ++ v /\ v <> [].
Proof.
  unfold LineStartsWith. split.
  - destruct (_ || _) eqn:E; [done|]. zbool. intros [= <-].
    rename select (starts_with _ _ = true) into Hs.
    apply starts_with_spec in Hs as [r ->]. rewrite drop_app_length. split; [done|].
    intros ->. rewrite app_nil_r in *. lia.
  - intros [-> Hv]. rewrite (proj2 (starts_with_spec _ _)) by eauto.
    rewrite (proj2 (Nat.leb_gt _ _)), drop_app_length; [done|].
    rewrite length_app. destruct v; [done | simpl; lia].
Qed.

Lemma NextLine_app line rest : LF ∉ line -> NextLine (line ++ LF :: rest) = Some (line, rest).
Proof. intros. by apply NextLine_spec. Qed.

Lemma LineStartsWith_app prefix v : v <> [] -> LineStartsWith (prefix ++ v) prefix = Some v.
Proof. intros. by apply LineStartsWith_spec. Qed.

(** Text bytes: printable ASCII without the separators of the format. *)
Definition text_byte (c : Z) : Prop := 32 <= c <= 126.

Lemma text_no_LF l : Forall text_byte l -> LF ∉ l.
Proof.
  rewrite List.Forall_forall. intros H Hin. apply list_elem_of_In, H in Hin.
  unfold text_byte, LF in Hin. lia.
Qed.

Lemma IsIdentifier_text k :
  IsIdentifier k = true -> Forall text_byte k /\ k <> [] /\ len k <= kMaximumSigningKeyIdBytes.
Proof.
  unfold IsIdentifier. destruct (_ || _) eqn:E; [done|]. zbool.
  destruct k as [|c k]; [done|]. rewrite andb_true_iff, forallb_Forall_bool.
  intros [Hc Hk]. split; [|split; [done | lia]].
  assert (Halnum : forall d, is_alnum d = true -> text_byte d).
  { intros d. unfold is_alnum, text_byte. rewrite !orb_true_iff.
    intros [[Hd|Hd]|Hd]; apply in_range_spec in Hd; lia. }
  constructor; [auto|]. eapply Forall_impl; [done|]. simpl. intros d.
  rewrite orb_true_iff. intros [Hd|Hd]; [auto|].
  unfold is_ident_punct in Hd. rewrite !orb_true_iff, !Z.eqb_eq in Hd.
  unfold text_byte. lia.
Qed.

Lemma base64_encode_text d : Forall is_byte d -> Forall text_byte (base64_encode d).
Proof.
  assert (Hc : forall v, 0 <= v < 64 -> text_byte (b64_char v)).
  { intros v Hv. pose proof (b64_char_range v Hv). unfold text_byte. lia. }
  assert (He : text_byte EQ) by (unfold text_byte, EQ; lia).
  induction d as [|a|a b|a b c d IH] using list_ind3; intros Hb; [constructor|..].
  - apply Forall_cons in Hb as [? _]. unfold is_byte in *.
    repeat constructor; try apply Hc; try done; divmod_lia.
  - apply Forall_cons in Hb as [? [? _]%Forall_cons]. unfold is_byte in *.
    repeat constructor; try apply Hc; try done; divmod_lia.
  - apply Forall_cons in Hb as [? [? [? Hb]%Forall_cons]%Forall_cons].
    pose proof (sextets a b c ltac:(done) ltac:(done) ltac:(done)) as (R0 & R1 & R2 & R3).
    cbn [base64_encode app]. repeat (constructor; [by apply Hc|]). by apply IH.
Qed.

Lemma valid_der_bytes d :
  valid_der d -> Forall is_byte d /\ (length d <= 80)%nat /\ d <> [].
Proof.
  intros (r & s & -> & (Hr & Hrp & Hrv) & (Hs & Hsp & Hsv)).
  destruct (der_positive_size r Hr Hrp (proj2 Hrv)) as [Hrl _].
  destruct (der_positive_size s Hs Hsp (proj2 Hsv)) as [Hsl _].
  unfold der_signature. split; [|split; [|done]].
  - repeat apply Forall_app_2; try done; repeat constructor; try (unfold is_byte; lia);
      unfold is_byte, len; rewrite ?length_app; simpl; rewrite ?length_app; simpl; lia.
  - rewrite !length_app. simpl. lia.
Qed.

Definition record_ok (s : ReleaseSignature) : Prop :=
  IsIdentifier (key_id s) = true /\ valid_der (der s).

Lemma IsValid_iff_valid_der d : Forall is_byte d ->
  negb (IsValidP256EcdsaDer (Some d)) = false <-> valid_der d.
Proof. intros. rewrite negb_false_iff. by apply IsValidP256EcdsaDer_spec. Qed.

Lemma print_record_app s rest :
  print_record s ++ rest =
  (kKeyPrefix ++ key_id s) ++ LF :: kAlgorithmLine ++ LF ::
  (kSignaturePrefix ++ base64_encode (der s)) ++ LF :: rest.
Proof. unfold print_record. rewrite <- !app_assoc. done. Qed.

Definition previous (sigs : list ReleaseSignature) (prev : bytes) : option bytes :=
  match sigs with [] => None | _ => Some prev end.

Lemma parse_records_sound fuel cap rest sigs prev sigs' :
  parse_records fuel cap rest sigs prev = (SigOk, sigs') ->
  exists new, rest = concat (print_record <$> new) /\ sigs' = sigs ++ new /\
    Forall record_ok new /\ increasing_from (previous sigs prev) new /\
    (new <> [] -> length sigs' <= Nat.min kMaximumReleaseSignatures cap)%nat.
Proof.
  revert rest sigs prev. induction fuel as [|fuel IH]; intros rest sigs prev H.
  { destruct rest; [|done]. injection H as <-. exists []. by rewrite app_nil_r. }
  destruct rest as [|x rest0]; [injection H as <-; exists []; by rewrite app_nil_r|].
  set (rest := x :: rest0) in *. cbn [parse_records] in H. fold rest in H.
  destruct (_ || _) eqn:Ecount in H; [done|]. apply orb_false_iff in Ecount as [Hc1 Hc2].
  apply Nat.leb_gt in Hc1, Hc2.
  destruct (NextLine rest) as [[kl r1]|] eqn:E1; [|done].
  destruct (NextLine r1) as [[al r2]|] eqn:E2; [|done].
  destruct (NextLine r2) as [[sl r3]|] eqn:E3; [|done].
  destruct (LineStartsWith kl _) as [key|] eqn:Ek; [|done].
  destruct (IsIdentifier key) eqn:Eid; cbn [negb] in H; [|done].
  destruct (_ && _) eqn:Eord in H; [done|].
  destruct (LineEquals al _) eqn:Ea; cbn [negb] in H; [|done].
  destruct (LineStartsWith sl _) as [encoded|] eqn:Es; [|done].
  destruct (DecodeCanonicalBase64 _ _) as [d|] eqn:Ed; [|done].
  apply DecodeCanonicalBase64_spec in Ed as (Hdne & Hdb & _ & ->).
  destruct (negb _) eqn:Ev in H; [done|]. apply IsValid_iff_valid_der in Ev; [|done].
  apply NextLine_spec in E1 as [E1 _], E2 as [E2 _], E3 as [E3 _].
  apply LineStartsWith_spec in Ek as [-> _], Es as [-> _]. apply bytes_eqb_eq in Ea. subst al.
  apply IH in H as (new & -> & -> & Hok & Hinc & Hn).
  exists ({| key_id := key; der := d |} :: new).
  split; [|split; [|split; [|split]]].
  - rewrite E1, E2, E3. cbn [fmap list_fmap concat]. by rewrite print_record_app.
  - by rewrite <- app_assoc.
  - constructor; [done | done].
  - cbn [increasing_from key_id]. split.
    + destruct sigs as [|s0 sigs]; [done|]. simpl in Eord |- *. by destruct (strcmp prev key).
    + destruct (sigs ++ _) eqn:E; [by destruct sigs | done].
  - intros _. destruct (decide (new = [])) as [->|Hne]; [|by apply Hn].
    rewrite app_nil_r, length_app. cbn [length]. lia.
Qed.

Lemma parse_records_complete new fuel cap sigs prev :
  (length new <= fuel)%nat ->
  Forall record_ok new -> increasing_from (previous sigs prev) new ->
  (length sigs + length new <= Nat.min kMaximumReleaseSignatures cap)%nat ->
  parse_records fuel cap (concat (print_record <$> new)) sigs prev = (SigOk, sigs ++ new).
Proof.
  revert fuel sigs prev. induction new as [|s new IH]; intros fuel sigs prev Hf Hok Hinc Hn.
  { rewrite app_nil_r. by destruct fuel. }
  destruct fuel as [|fuel]; [simpl in Hf; lia|].
  apply Forall_cons in Hok as [[Hid Hder] Hok]. destruct Hinc as [Hlt Hinc].
  destruct (IsIdentifier_text _ Hid) as (Hkt & Hkne & _).
  destruct (valid_der_bytes _ Hder) as (Hdb & Hdl & Hdne).
  assert (Hpt : Forall text_byte kKeyPrefix /\ Forall text_byte kAlgorithmLine /\
                Forall text_byte kSignaturePrefix)
    by (unfold text_byte; repeat split; repeat constructor; vm_compute; congruence).
  destruct Hpt as (Hp1 & Hp2 & Hp3).
  cbn [fmap list_fmap concat]. rewrite print_record_app.
  remember ((kKeyPrefix ++ key_id s) ++ _) as text eqn:Et. cbn [parse_records].
  destruct text as [|x text']; [by destruct (kKeyPrefix ++ key_id s)|]. rewrite Et. clear Et x text'.
  cbn [length] in Hn. rewrite !(proj2 (Nat.leb_gt _ _)) by lia. cbn [orb].
  rewrite NextLine_app by (by apply text_no_LF, Forall_app_2).
  rewrite NextLine_app by (by apply text_no_LF).
  rewrite NextLine_app by (apply text_no_LF, Forall_app_2; [done | by apply base64_encode_text]).
  rewrite LineStartsWith_app, Hid by done. cbn [negb].
  assert (Eord : negb (length sigs =? 0)%nat &&
            match strcmp prev (key_id s) with Lt => false | _ => true end = false).
  { destruct sigs; [done|]. simpl in Hlt |- *. by rewrite Hlt. }
  rewrite Eord. unfold LineEquals. rewrite bytes_eqb_refl. cbn [negb].
  rewrite LineStartsWith_app by (by apply base64_encode_nonempty).
  rewrite (proj2 (DecodeCanonicalBase64_spec _ _ (der s))) by (repeat split; done).
  rewrite (proj2 (IsValid_iff_valid_der (der s) Hdb) Hder).
  replace {| key_id := key_id s; der := der s |} with s by (by destruct s).
  rewrite (IH fuel (sigs ++ [s]) (key_id s)).
  - by rewrite <- app_assoc.
  - simpl in Hf. lia.
  - done.
  - destruct (sigs ++ [s]) eqn:E; [by destruct sigs | done].
  - rewrite length_app. cbn [length] in *. lia.
Qed.

Definition ascii_line_byte (c : Z) : Prop := c <> CR /\ c <= 0x7f.

Lemma scan_ascii_spec l : scan_ascii l = SigOk <-> Forall ascii_line_byte l.
Proof.
  induction l as [|c l IH]; simpl; [by split|].
  rewrite Forall_cons, <- IH. unfold ascii_line_byte.
  destruct (Z.eqb_spec c CR); [split; [done | naive_solver]|].
  destruct (Z.ltb_spec 0x7f c); [split; [done | lia]|]. naive_solver.
Qed.

Lemma text_ascii l : Forall text_byte l -> Forall ascii_line_byte l.
Proof.
  intros H. eapply Forall_impl; [exact H|]. unfold text_byte, ascii_line_byte, CR.
  simpl. lia.
Qed.

Lemma LF_ascii : ascii_line_byte LF.
Proof. unfold ascii_line_byte, LF, CR. lia. Qed.

Lemma header_text : Forall text_byte kEnvelopeHeader /\ Forall text_byte kKeyPrefix /\
  Forall text_byte kAlgorithmLine /\ Forall text_byte kSignaturePrefix.
Proof. unfold text_byte. repeat split; repeat constructor; vm_compute; congruence. Qed.

Lemma print_record_facts s :
  record_ok s ->
  Forall ascii_line_byte (print_record s) /\ len (print_record s) <= 223 /\
  exists p, print_record s = p ++ [LF].
Proof.
  intros [Hid Hder]. destruct header_text as (_ & Hp1 & Hp2 & Hp3).
  destruct (IsIdentifier_text _ Hid) as (Hkt & _ & Hkl).
  destruct (valid_der_bytes _ Hder) as (Hdb & Hdl & Hdne). split; [|split].
  - unfold print_record.
    repeat apply Forall_app_2;
      first [by apply text_ascii | by (constructor; [apply LF_ascii|])
            | by apply text_ascii, base64_encode_text].
  - destruct (base64_encode_size _ Hdne Hdb) as (k & Hk & Hp).
    pose proof (padding_of_le (base64_encode (der s))).
    unfold print_record. rewrite !len_app. unfold len in *. rewrite Hk.
    unfold kMaximumSigningKeyIdBytes in Hkl.
    change (length kKeyPrefix) with 8%nat. change (length kAlgorithmLine) with 28%nat.
    change (length kSignaturePrefix) with 11%nat. change (length [LF]) with 1%nat. lia.
  - exists (kKeyPrefix ++ key_id s ++ [LF] ++ kAlgorithmLine ++ [LF] ++
            kSignaturePrefix ++ base64_encode (der s)).
    unfold print_record. by rewrite <- !app_assoc.
Qed.

Lemma concat_records_facts sigs :
  Forall record_ok sigs ->
  Forall ascii_line_byte (concat (print_record <$> sigs)) /\
  len (concat (print_record <$> sigs)) <= 223 * len sigs.
Proof.
  induction 1 as [|s sigs Hs _ [IH1 IH2]]; [by split|].
  destruct (print_record_facts s Hs) as (H1 & H2 & _). cbn [fmap list_fmap concat].
  rewrite len_app, len_cons. split; [by apply Forall_app_2 | lia].
Qed.

Lemma print_envelope_last sigs :
  Forall record_ok sigs -> exists p, print_envelope sigs = p ++ [LF].
Proof.
  intros Hok. destruct sigs as [|s sigs _] using rev_ind.
  - by exists kEnvelopeHeader.
  - apply Forall_app in Hok as [_ Hok]. apply Forall_cons in Hok as [Hs _].
    destruct (print_record_facts s Hs) as (_ & _ & p & Hp). unfold print_envelope.
    rewrite fmap_app, concat_app. cbn [fmap list_fmap concat]. rewrite app_nil_r, Hp.
    eexists. by rewrite !app_assoc.
Qed.

Lemma print_envelope_size sigs :
  Forall record_ok sigs -> (length sigs <= 4)%nat ->
  Forall ascii_line_byte (print_envelope sigs) /\
  0 < len (print_envelope sigs) <= kMaximumSignatureEnvelopeBytes.
Proof.
  intros Hok Hl. destruct (concat_records_facts sigs Hok) as [H1 H2].
  destruct header_text as (Hh & _). unfold print_envelope. split.
  - apply Forall_app_2; [by apply text_ascii|].
    apply Forall_app_2; [constructor; [apply LF_ascii | constructor] | done].
  - rewrite !len_app. change (len kEnvelopeHeader) with 16. change (len [LF]) with 1.
    unfold kMaximumSignatureEnvelopeBytes. pose proof (len_nonneg (concat (print_record <$> sigs))).
    unfold len in *. lia.
Qed.

Lemma concat_records_length sigs :
  (length sigs <= length (concat (print_record <$> sigs)))%nat.
Proof.
  induction sigs as [|s sigs IH]; [done|]. cbn [fmap list_fmap concat length].
  rewrite length_app. unfold print_record at 1. rewrite length_app.
  change (length kKeyPrefix) with 8%nat. lia.
Qed.

Lemma ParseSignatureEnvelope_sound e cap sigs :
  ParseSignatureEnvelope (Some e) cap = (SigOk, sigs) ->
  e = print_envelope sigs /\ valid_signatures cap sigs.
Proof.
  unfold ParseSignatureEnvelope. intros H.
  destruct (_ || _) in H; [done|]. destruct (negb _) in H; [done|].
  destruct (scan_ascii e); try done.
  destruct (NextLine e) as [[line rest]|] eqn:En; [|done].
  destruct (LineEquals line _) eqn:El; [|done]. apply bytes_eqb_eq in El. subst line.
  apply NextLine_spec in En as [-> _]. cbn [negb] in H.
  destruct (parse_records _ _ _ _ _) as [st sigs'] eqn:Ep. destruct st; try done.
  assert (Hne : sigs' <> []) by (by intros ->).
  assert (sigs = sigs') as -> by (destruct sigs'; [done | by injection H]). clear H.
  apply parse_records_sound in Ep as (new & -> & -> & Hok & Hinc & Hn).
  rewrite app_nil_l in *. split; [done|]. split; [|done].
  specialize (Hn Hne). destruct new; [done | cbn [length] in *; lia].
Qed.

Lemma ParseSignatureEnvelope_complete cap sigs :
  valid_signatures cap sigs ->
  ParseSignatureEnvelope (Some (print_envelope sigs)) cap = (SigOk, sigs).
Proof.
  intros (Hn & Hok & Hinc). unfold ParseSignatureEnvelope.
  destruct (print_envelope_size sigs Hok) as [Hascii Hsize]; [unfold kMaximumReleaseSignatures in Hn; lia|].
  rewrite (proj2 (Z.eqb_neq _ _)), (proj2 (Z.ltb_ge _ _)) by lia. cbn [orb].
  destruct (print_envelope_last sigs Hok) as [p Hp].
  assert (nth (length (print_envelope sigs) - 1) (print_envelope sigs) 0 = LF) as ->.
  { rewrite Hp, length_app. cbn [length]. replace (length p + 1 - 1)%nat with (length p) by lia.
    by rewrite app_nth2, Nat.sub_diag by lia. }
  rewrite Z.eqb_refl. cbn [negb]. rewrite (proj2 (scan_ascii_spec _) Hascii).
  unfold print_envelope at 1. cbn [app].
  rewrite NextLine_app by (apply text_no_LF, header_text).
  unfold LineEquals. rewrite bytes_eqb_refl. cbn [negb].
  rewrite (parse_records_complete sigs).
  - destruct sigs; [cbn [length] in Hn; lia | done].
  - unfold print_envelope. rewrite !length_app. pose proof (concat_records_length sigs). lia.
  - done.
  - done.
  - cbn [length]. lia.
Qed.

(** The envelope format is canonical: a byte string parses to a list of
    signatures exactly when it is the printed form of that list and the list is
    valid, i.e. one to four records (and no more than the caller's capacity)
    with well-formed, strictly increasing key identifiers and strict DER
    signatures. *)
Theorem ParseSignatureEnvelope_iff (e : bytes) (capacity : nat)
    (sigs : list ReleaseSignature) :
  ParseSignatureEnvelope (Some e) capacity = (SigOk, sigs) <->
  e = print_envelope sigs /\ valid_signatures capacity sigs.
Proof.
  split; [apply ParseSignatureEnvelope_sound|].
  intros [-> Hv]. by apply ParseSignatureEnvelope_complete.
Qed.
