(* ===== verification/Json.v ===== *)
(** * The strict JSON tokenizer (src/src/update/json_parser.cpp)

    The recursive-descent parser is translated operation by operation into a
    state monad whose state is the mutable part of the C++ object (position,
    written tokens, first error).  A read of the text or of the token array
    outside its bounds is the outcome [Ub]; loops and the mutual recursion
    carry fuel and running out of it is the outcome [NoFuel].  The theorems
    show that neither outcome is reachable, and that success is exactly the
    grammar [document]: a text that is one strict JSON value, with the token
    array the pre-order flattening of its tree.  The accessors used by the
    manifest and release parsers follow. *)
From S2P Require Import Prelude.
From Stdlib Require Import Ascii.
Local Open Scope Z_scope.

Inductive JsonTokenType :=
| JSON_TOKEN_INVALID | JSON_TOKEN_OBJECT | JSON_TOKEN_ARRAY | JSON_TOKEN_STRING
| JSON_TOKEN_NUMBER | JSON_TOKEN_TRUE | JSON_TOKEN_FALSE | JSON_TOKEN_NULL.

#[export] Instance JsonTokenType_eq_dec : EqDecision JsonTokenType.
Proof. solve_decision. Defined.

Record JsonToken := mkToken {
  type : JsonTokenType;
  start : Z;
  tok_end : Z;
  parent : Z;
  child_count : Z;
}.

Inductive JsonError :=
| JSON_OK | JSON_ERROR_ARGUMENT | JSON_ERROR_TOO_LARGE | JSON_ERROR_TOO_DEEP
| JSON_ERROR_TOKEN_LIMIT | JSON_ERROR_SYNTAX | JSON_ERROR_STRING
| JSON_ERROR_NUMBER | JSON_ERROR_DUPLICATE_KEY | JSON_ERROR_TRAILING_DATA
| JSON_ERROR_NOT_FOUND | JSON_ERROR_TYPE | JSON_ERROR_RANGE
| JSON_ERROR_OUTPUT_TOO_SMALL.

#[export] Instance JsonError_eq_dec : EqDecision JsonError.
Proof. solve_decision. Defined.

Record JsonParseResult := mkResult {
  result_error : JsonError;
  token_count : Z;
  result_error_offset : Z;
}.

Definition kMaximumJsonBytes : Z := 1024 * 1024.

(** ** The parser object and its monad *)
(** [tokens] holds the entries of the caller's array written so far, so
    [count_] is its length. *)
Record Parser := mkParser {
  position : Z;
  tokens : list JsonToken;
  error : JsonError;
  error_offset : Z;
}.

Inductive outcome (A : Type) :=
| Done (a : A) (s : Parser)
| Ub
| NoFuel.
Arguments Done {A} _ _.
Arguments Ub {A}.
Arguments NoFuel {A}.

Definition M (A : Type) : Type := Parser -> outcome A.

Definition ret {A} (a : A) : M A := fun s => Done a s.
Definition bind {A B} (m : M A) (k : A -> M B) : M B := fun s =>
  match m s with
  | Done a s' => k a s'
  | Ub => Ub
  | NoFuel => NoFuel
  end.
Definition out_of_fuel {A} : M A := fun _ => NoFuel.

Notation "'let!' x ':=' m 'in' k" := (bind m (fun x => k))
  (at level 200, x name, m at level 100, k at level 200) : bmx_scope.
Notation "m ;; k" := (bind m (fun _ => k))
  (at level 100, k at level 200, right associativity) : bmx_scope.
Local Open Scope bmx_scope.

Definition get_position : M Z := fun s => Done (position s) s.
Definition set_position (p : Z) : M unit := fun s =>
  Done tt (mkParser p (tokens s) (error s) (error_offset s)).
Definition get_tokens : M (list JsonToken) := fun s => Done (tokens s) s.

(** [static_cast<int>] of an index and the [int] comparison with [-1]. *)
Definition Fail (e : JsonError) (offset : Z) : M unit := fun s =>
  if bool_decide (error s = JSON_OK)
  then Done tt (mkParser (position s) (tokens s) e offset)
  else Done tt s.

Definition fail_false (e : JsonError) (offset : Z) : M bool :=
  Fail e offset ;; ret false.
Definition fail_minus1 (e : JsonError) (offset : Z) : M Z :=
  Fail e offset ;; ret (-1).

(** [token.end = e] of the token at [index]. *)
Definition set_end (index e : Z) : M unit := fun s =>
  if (0 <=? index) && (index <? len (tokens s)) then
    Done tt (mkParser (position s)
      (alter (fun t => mkToken (type t) (start t) (u32 e) (parent t) (child_count t))
         (Z.to_nat index) (tokens s)) (error s) (error_offset s))
  else Ub.

Definition bump_child (t : JsonToken) : JsonToken :=
  mkToken (type t) (start t) (tok_end t) (parent t) (u32 (child_count t + 1)).

Definition is_ws (c : Z) : bool :=
  (c =? SP) || (c =? TAB) || (c =? CR) || (c =? LF).

Section parser.
Context (json : bytes) (capacity max_depth : Z).

Definition length_ : Z := len json.

(** [json_[i]]. *)
Definition read (i : Z) : M Z := fun s =>
  if (0 <=? i) && (i <? length_) then Done (byte_at json i) s else Ub.

(** The [n] bytes that [memcmp(json_ + i, _, n)] reads. *)
Definition readn (i n : Z) : M bytes := fun s =>
  if (0 <=? i) && (0 <=? n) && (i + n <=? length_)
  then Done (sub json i n) s else Ub.

(** [position_ < length_ && f(json_[position_])]. *)
Definition peek_is (f : Z -> bool) : M bool :=
  let! p := get_position in
  if p <? length_ then (let! c := read p in ret (f c)) else ret false.

(** [while (position_ < length_ && f(json_[position_])) ++position_;] *)
Fixpoint skip_while (fuel : nat) (f : Z -> bool) : M unit :=
  match fuel with
  | O => out_of_fuel
  | S fuel' =>
      let! b := peek_is f in
      if b then (let! p := get_position in set_position (p + 1) ;; skip_while fuel' f)
      else ret tt
  end.

Definition loop_fuel : nat := S (length json).

Definition SkipWhitespace : M unit := skip_while loop_fuel is_ws.

Definition AddToken (ty : JsonTokenType) (st par : Z) : M Z := fun s =>
  let count := len (tokens s) in
  if capacity <=? count then
    (Fail JSON_ERROR_TOKEN_LIMIT (position s) ;; ret (-1)) s
  else
    let token := mkToken ty (u32 st) (u32 st) par 0 in
    if 0 <=? par then
      if par <? count then
        Done count (mkParser (position s)
          (alter bump_child (Z.to_nat par) (tokens s) ++ [token]) (error s) (error_offset s))
      else Ub
    else Done count (mkParser (position s) (tokens s ++ [token]) (error s) (error_offset s)).

(** *** Strings *)
Definition hex_digit (c : Z) : option Z :=
  if in_range 48 57 c then Some (c - 48)
  else if in_range 97 102 c then Some (c - 97 + 10)
  else if in_range 65 70 c then Some (c - 65 + 10)
  else None.

(** The four iterations of the loop, from digit [i] with [n] to go. *)
Fixpoint ParseHex4_loop (n : nat) (offset result : Z) : M (option Z) :=
  match n with
  | O => ret (Some result)
  | S n' =>
      let! c := read offset in
      match hex_digit c with
      | Some digit => ParseHex4_loop n' (offset + 1) (Z.lor (u32 (Z.shiftl result 4)) digit)
      | None => ret None
      end
  end.
Definition ParseHex4 (offset : Z) : M (option Z) := ParseHex4_loop 4 offset 0.

Definition simple_escapes : bytes := QUOTE :: str "\/bfnrt".

Definition ParseEscape : M bool :=
  let! slash := get_position in
  set_position (slash + 1) ;;
  if length_ <=? slash + 1 then fail_false JSON_ERROR_STRING slash
  else
    let! escaped := read (slash + 1) in
    set_position (slash + 2) ;;
    if strchr_found simple_escapes escaped then ret true
    else if negb (escaped =? ch "u"%char) || (length_ <? slash + 2 + 4)
    then fail_false JSON_ERROR_STRING slash
    else
      let! h := ParseHex4 (slash + 2) in
      match h with
      | None => fail_false JSON_ERROR_STRING (slash + 2)
      | Some codepoint =>
          set_position (slash + 6) ;;
          if in_range 0xd800 0xdbff codepoint then
            if length_ <? slash + 6 + 6 then fail_false JSON_ERROR_STRING (slash + 6)
            else
              let! c0 := read (slash + 6) in
              if negb (c0 =? BACKSLASH) then fail_false JSON_ERROR_STRING (slash + 6)
              else
                let! c1 := read (slash + 7) in
                if negb (c1 =? ch "u"%char) then fail_false JSON_ERROR_STRING (slash + 6)
                else
                  let! l := ParseHex4 (slash + 8) in
                  match l with
                  | None => fail_false JSON_ERROR_STRING (slash + 8)
                  | Some low =>
                      if negb (in_range 0xdc00 0xdfff low)
                      then fail_false JSON_ERROR_STRING (slash + 8)
                      else set_position (slash + 12) ;; ret true
                  end
          else if in_range 0xdc00 0xdfff codepoint
          then fail_false JSON_ERROR_STRING (slash + 6 - 4)
          else ret true
      end.

(** The continuation bytes [i .. count) of a UTF-8 sequence at [p]. *)
Fixpoint utf8_continuation (n : nat) (p codepoint : Z) : M (Z + Z) :=
  match n with
  | O => ret (inl codepoint)
  | S n' =>
      let! c := read p in
      if negb (Z.land c 0xc0 =? 0x80) then ret (inr p)
      else utf8_continuation n' (p + 1)
             (Z.lor (u32 (Z.shiftl codepoint 6)) (Z.land c 0x3f))
  end.

Definition utf8_lead (first : Z) : option (Z * Z) :=
  if in_range 0xc2 0xdf first then Some (2, Z.land first 0x1f)
  else if in_range 0xe0 0xef first then Some (3, Z.land first 0x0f)
  else if in_range 0xf0 0xf4 first then Some (4, Z.land first 0x07)
  else None.

Definition utf8_bad (count codepoint : Z) : bool :=
  ((count =? 3) && (codepoint <? 0x800)) ||
  ((count =? 4) && (codepoint <? 0x10000)) ||
  in_range 0xd800 0xdfff codepoint || (0x10ffff <? codepoint).

Definition ConsumeUtf8 : M bool :=
  let! p := get_position in
  let! first := read p in
  match utf8_lead first with
  | None => fail_false JSON_ERROR_STRING p
  | Some (count, codepoint) =>
      if length_ <? p + count then fail_false JSON_ERROR_STRING p
      else
        let! r := utf8_continuation (Z.to_nat (count - 1)) (p + 1) codepoint in
        match r with
        | inr off => fail_false JSON_ERROR_STRING off
        | inl cp =>
            if utf8_bad count cp then fail_false JSON_ERROR_STRING p
            else set_position (p + (count - 1)) ;; ret true
        end
  end.

Fixpoint ParseString_loop (fuel : nat) (par : Z) (object_key : bool) (st : Z)
    (escaped : bool) : M Z :=
  match fuel with
  | O => out_of_fuel
  | S fuel' =>
      let! p := get_position in
      if length_ <=? p then fail_minus1 JSON_ERROR_STRING p
      else
        let! c := read p in
        if c =? QUOTE then
          set_position (p + 1) ;;
          if object_key && escaped then fail_minus1 JSON_ERROR_STRING st
          else
            let! token := AddToken JSON_TOKEN_STRING st par in
            if 0 <=? token then set_end token p ;; ret token else ret token
        else if c <? 0x20 then fail_minus1 JSON_ERROR_STRING p
        else if c =? BACKSLASH then
          let! b := ParseEscape in
          if b then ParseString_loop fuel' par object_key st true else ret (-1)
        else if object_key && ((c <? 0x21) || (0x7e <? c))
        then fail_minus1 JSON_ERROR_STRING p
        else
          let! b := (if 0x80 <=? c then ConsumeUtf8 else ret true) in
          if b then
            let! q := get_position in
            set_position (q + 1) ;;
            ParseString_loop fuel' par object_key st escaped
          else ret (-1)
  end.

Definition ParseString (par : Z) (object_key : bool) : M Z :=
  let! p := get_position in
  set_position (p + 1) ;;
  ParseString_loop loop_fuel par object_key (p + 1) false.

(** *** Literals and numbers *)
Definition ParseLiteral (par : Z) (literal : bytes) (ty : JsonTokenType) : M bool :=
  let! p := get_position in
  if length_ <? p + len literal then fail_false JSON_ERROR_SYNTAX p
  else
    let! text := readn p (len literal) in
    if negb (bytes_eqb text literal) then fail_false JSON_ERROR_SYNTAX p
    else
      set_position (p + len literal) ;;
      let! token := AddToken ty p par in
      if token <? 0 then ret false
      else set_end token (p + len literal) ;; ret true.

(** [position_ >= length_ || json_[position_] < '0' || json_[position_] > '9']
    is an error; otherwise the digits are skipped. *)
Definition require_digits : M bool :=
  let! b := peek_is is_digit in
  if b then skip_while loop_fuel is_digit ;; ret true
  else let! p := get_position in fail_false JSON_ERROR_NUMBER p.

Definition number_sign : M bool :=
  let! st := get_position in
  let! c := read st in
  if c =? ch "-"%char then
    set_position (st + 1) ;;
    if length_ <=? st + 1 then fail_false JSON_ERROR_NUMBER st else ret true
  else ret true.

Definition number_int : M bool :=
  let! p := get_position in
  let! c := read p in
  if c =? ch "0"%char then
    set_position (p + 1) ;;
    let! b := peek_is is_digit in
    if b then fail_false JSON_ERROR_NUMBER (p + 1) else ret true
  else if in_range (ch "1"%char) (ch "9"%char) c then
    set_position (p + 1) ;;
    skip_while loop_fuel is_digit ;; ret true
  else fail_false JSON_ERROR_NUMBER p.

Definition number_frac : M bool :=
  let! b := peek_is (fun c => c =? ch "."%char) in
  if b then
    let! p := get_position in
    set_position (p + 1) ;; require_digits
  else ret true.

Definition number_exp : M bool :=
  let! b := peek_is (fun c => (c =? ch "e"%char) || (c =? ch "E"%char)) in
  if b then
    let! p := get_position in
    set_position (p + 1) ;;
    let! b := peek_is (fun c => (c =? ch "+"%char) || (c =? ch "-"%char)) in
    (if b then let! p := get_position in set_position (p + 1) else ret tt) ;;
    require_digits
  else ret true.

Definition ParseNumber (par : Z) : M bool :=
  let! st := get_position in
  let! b := number_sign in
  if negb b then ret false else
  let! b := number_int in
  if negb b then ret false else
  let! b := number_frac in
  if negb b then ret false else
  let! b := number_exp in
  if negb b then ret false else
  let! token := AddToken JSON_TOKEN_NUMBER st par in
  if token <? 0 then ret false
  else let! p := get_position in set_end token p ;; ret true.

(** *** Objects, arrays and values *)
(** The ordinal of token [i] among the direct children of [object]. *)
Definition ordinal (ts : list JsonToken) (object i : Z) : Z :=
  len (filter (fun t => parent t = object) (sub ts (object + 1) (i - object))).

Definition token_text (t : JsonToken) : bytes := sub json (start t) (tok_end t - start t).

(** One iteration of the duplicate search: the candidate at index [i]. *)
Definition duplicate_at (ts : list JsonToken) (object : Z) (newest candidate : JsonToken)
    (i : Z) : bool :=
  bool_decide (parent candidate = object) &&
  bool_decide (type candidate = JSON_TOKEN_STRING) &&
  Z.odd (ordinal ts object i) &&
  bytes_eqb (token_text candidate) (token_text newest).

Fixpoint duplicate_loop (ts : list JsonToken) (object : Z) (newest : JsonToken)
    (rest : list JsonToken) (i : Z) : bool :=
  match rest with
  | [] => false
  | candidate :: rest' =>
      if duplicate_at ts object newest candidate i then true
      else duplicate_loop ts object newest rest' (i + 1)
  end.

Definition HasDuplicateObjectKey (object newest_key : Z) : M bool :=
  let! ts := get_tokens in
  match ts !! Z.to_nat newest_key with
  | Some newest =>
      ret (duplicate_loop ts object newest
             (sub ts (object + 1) (newest_key - object - 1)) (object + 1))
  | None => fun _ => Ub
  end.

(** The key and the colon of one member, up to the call of [ParseValue]. *)
Definition member_head (object : Z) : M bool :=
  let! p := get_position in
  let! c := read p in
  if negb (c =? QUOTE) then fail_false JSON_ERROR_SYNTAX p
  else
    let! key := ParseString object true in
    if key <? 0 then ret false
    else
      let! dup := HasDuplicateObjectKey object key in
      if dup then
        let! ts := get_tokens in
        match ts !! Z.to_nat key with
        | Some t => fail_false JSON_ERROR_DUPLICATE_KEY (start t)
        | None => fun _ => Ub
        end
      else
        SkipWhitespace ;;
        let! b := peek_is (fun c => c =? ch ":"%char) in
        let! p := get_position in
        if negb b then fail_false JSON_ERROR_SYNTAX p
        else set_position (p + 1) ;; ret true.

(** After an element: [inl b] returns [b], [inr tt] goes round the loop. *)
Definition element_tail (container close : Z) : M (bool + unit) :=
  SkipWhitespace ;;
  let! p := get_position in
  if length_ <=? p then let! b := fail_false JSON_ERROR_SYNTAX p in ret (inl b)
  else
    let! c := read p in
    if c =? close then
      set_position (p + 1) ;; set_end container (p + 1) ;; ret (inl true)
    else if negb (c =? ch ","%char) then
      let! b := fail_false JSON_ERROR_SYNTAX p in ret (inl b)
    else set_position (p + 1) ;; SkipWhitespace ;; ret (inr tt).

(** [ParseValue], [ParseObject]/[ParseArray] (which differ in the bracket, the
    token type and the member head) and the loop
    [while (position_ < length_) { ... } Fail(JSON_ERROR_SYNTAX, position_)]
    of the latter, with the calls they make as arguments. *)
Definition value_body (container : bool -> Z -> Z -> M bool) (par depth : Z) : M bool :=
  let! p := get_position in
  if max_depth <=? depth then fail_false JSON_ERROR_TOO_DEEP p
  else
    SkipWhitespace ;;
    let! p := get_position in
    if length_ <=? p then fail_false JSON_ERROR_SYNTAX p
    else
      let! c := read p in
      if c =? ch "{"%char then container true par (depth + 1)
      else if c =? ch "["%char then container false par (depth + 1)
      else if c =? QUOTE then
        let! token := ParseString par false in ret (0 <=? token)
      else if c =? ch "t"%char then ParseLiteral par (str "true") JSON_TOKEN_TRUE
      else if c =? ch "f"%char then ParseLiteral par (str "false") JSON_TOKEN_FALSE
      else if c =? ch "n"%char then ParseLiteral par (str "null") JSON_TOKEN_NULL
      else if (c =? ch "-"%char) || is_digit c then ParseNumber par
      else fail_false JSON_ERROR_SYNTAX p.

Definition close_char (is_object : bool) : Z := if is_object then ch "}"%char else ch "]"%char.

Definition container_body (loop : bool -> Z -> Z -> M bool) (is_object : bool) (par depth : Z)
    : M bool :=
  let! st := get_position in
  set_position (st + 1) ;;
  let! container := AddToken (if is_object then JSON_TOKEN_OBJECT else JSON_TOKEN_ARRAY) st par in
  if container <? 0 then ret false
  else
    SkipWhitespace ;;
    let! b := peek_is (fun c => c =? close_char is_object) in
    let! p := get_position in
    if b then set_position (p + 1) ;; set_end container (p + 1) ;; ret true
    else loop is_object container depth.

Definition loop_body (value : Z -> Z -> M bool) (loop : bool -> Z -> Z -> M bool)
    (is_object : bool) (container depth : Z) : M bool :=
  let! p := get_position in
  if length_ <=? p then fail_false JSON_ERROR_SYNTAX p
  else
    let! b := (if is_object then member_head container else ret true) in
    if negb b then ret false
    else
      let! b := value container depth in
      if negb b then ret false
      else
        let! r := element_tail container (close_char is_object) in
        match r with
        | inl b => ret b
        | inr _ => loop is_object container depth
        end.

Fixpoint ParseValue (fuel : nat) (par depth : Z) : M bool :=
  match fuel with
  | O => out_of_fuel
  | S fuel' => value_body (ParseContainer fuel') par depth
  end
with ParseContainer (fuel : nat) (is_object : bool) (par depth : Z) : M bool :=
  match fuel with
  | O => out_of_fuel
  | S fuel' => container_body (container_loop fuel') is_object par depth
  end
with container_loop (fuel : nat) (is_object : bool) (container depth : Z) : M bool :=
  match fuel with
  | O => out_of_fuel
  | S fuel' => loop_body (ParseValue fuel') (container_loop fuel') is_object container depth
  end.

Definition parse_fuel : nat := 3 * length json + 6.

Definition Result (e : JsonError) (offset : Z) : M JsonParseResult := fun s =>
  Done (mkResult e (len (tokens s)) offset) s.

(** [Parser::Run] past the argument and size checks. *)
Definition Run_body : M JsonParseResult :=
  SkipWhitespace ;;
  let! b := ParseValue parse_fuel (-1) 0 in
  if negb b then fun s => Result (error s) (error_offset s) s
  else
    SkipWhitespace ;;
    let! p := get_position in
    if negb (p =? length_) then Result JSON_ERROR_TRAILING_DATA p
    else Result JSON_OK p.
End parser.

(** [ParseJson]: a null [json] or [tokens] pointer is [None]/[false]; on return
    the state carries the written tokens. *)
Definition ParseJson (json : option bytes) (tokens_given : bool)
    (token_capacity max_depth : Z) : outcome JsonParseResult :=
  let s0 := mkParser 0 [] JSON_OK 0 in
  match json with
  | None => Result JSON_ERROR_ARGUMENT 0 s0
  | Some text =>
      if negb tokens_given || (token_capacity =? 0) || (max_depth =? 0)
      then Result JSON_ERROR_ARGUMENT 0 s0
      else if (kMaximumJsonBytes <? len text) || (UINT32_MAX <? len text)
      then Result JSON_ERROR_TOO_LARGE 0 s0
      else Run_body text token_capacity max_depth s0
  end.

(** ** The grammar, independent of the parser *)
Definition ws (w : bytes) : Prop := Forall (fun c => is_ws c = true) w.

Fixpoint hex_value (h : bytes) (acc : Z) : option Z :=
  match h with
  | [] => Some acc
  | c :: h' => match hex_digit c with Some d => hex_value h' (acc * 16 + d) | None => None end
  end.
Definition hex4 (h : bytes) (v : Z) : Prop := length h = 4%nat /\ hex_value h 0 = Some v.

Definition high_surrogate (v : Z) : Prop := 0xd800 <= v <= 0xdbff.
Definition low_surrogate (v : Z) : Prop := 0xdc00 <= v <= 0xdfff.

(** What may follow a backslash.  NUL is in the set because the code searches
    with [strchr]; see [ParseEscape_accepts_NUL]. *)
Inductive escape_text : bytes -> Prop :=
| esc_simple c : c ∈ simple_escapes ++ [NUL] -> escape_text [c]
| esc_unit h v : hex4 h v -> ~ high_surrogate v -> ~ low_surrogate v ->
    escape_text (ch "u"%char :: h)
| esc_pair h v l w : hex4 h v -> high_surrogate v -> hex4 l w -> low_surrogate w ->
    escape_text (ch "u"%char :: h ++ BACKSLASH :: ch "u"%char :: l).

(** The UTF-8 encoding of a scalar value. *)
Definition utf8 (cp : Z) : bytes :=
  if cp <=? 0x7f then [cp]
  else if cp <=? 0x7ff then [0xc0 + cp / 64; 0x80 + cp mod 64]
  else if cp <=? 0xffff then [0xe0 + cp / 4096; 0x80 + cp / 64 mod 64; 0x80 + cp mod 64]
  else [0xf0 + cp / 262144; 0x80 + cp / 4096 mod 64; 0x80 + cp / 64 mod 64; 0x80 + cp mod 64].
Definition scalar_value (cp : Z) : Prop :=
  0 <= cp <= 0x10ffff /\ ~ (0xd800 <= cp <= 0xdfff).

Inductive string_body : bytes -> Prop :=
| sb_nil : string_body []
| sb_plain c r : 0x20 <= c < 0x80 -> c <> QUOTE -> c <> BACKSLASH ->
    string_body r -> string_body (c :: r)
| sb_utf8 cp r : scalar_value cp -> 0x80 <= cp -> string_body r -> string_body (utf8 cp ++ r)
| sb_escape e r : escape_text e -> string_body r -> string_body (BACKSLASH :: e ++ r).

Definition key_text (k : bytes) : Prop :=
  Forall (fun c => 0x21 <= c <= 0x7e /\ c <> QUOTE /\ c <> BACKSLASH) k.

Definition digits1 (d : bytes) : Prop := d <> [] /\ digits d.
Definition int_text (i : bytes) : Prop :=
  i = [ch "0"%char] \/
  exists c d, i = c :: d /\ in_range (ch "1"%char) (ch "9"%char) c = true /\ digits d.
Definition frac_text (f : bytes) : Prop :=
  f = [] \/ exists d, f = ch "."%char :: d /\ digits1 d.
Definition exp_text (e : bytes) : Prop :=
  e = [] \/ exists m sg d, e = m :: sg ++ d /\ (m = ch "e"%char \/ m = ch "E"%char) /\
    (sg = [] \/ sg = [ch "+"%char] \/ sg = [ch "-"%char]) /\ digits1 d.
Definition number_text (t : bytes) : Prop :=
  exists sg i f e, t = sg ++ i ++ f ++ e /\ (sg = [] \/ sg = [ch "-"%char]) /\
    int_text i /\ frac_text f /\ exp_text e.

(** The tree of a document: leaves carry their span, a member its key, the
    offset of the key's first byte and its value. *)
Inductive jtree :=
| JLeaf (ty : JsonTokenType) (s e : Z)
| JArr (s e : Z) (elems : list jtree)
| JObj (s e : Z) (members : list (bytes * Z * jtree)).

Inductive leaf_spells : Z -> bytes -> jtree -> Prop :=
| ls_string off b : string_body b ->
    leaf_spells off (QUOTE :: b ++ [QUOTE]) (JLeaf JSON_TOKEN_STRING (off + 1) (off + 1 + len b))
| ls_number off t : number_text t -> leaf_spells off t (JLeaf JSON_TOKEN_NUMBER off (off + len t))
| ls_true off : leaf_spells off (str "true") (JLeaf JSON_TOKEN_TRUE off (off + 4))
| ls_false off : leaf_spells off (str "false") (JLeaf JSON_TOKEN_FALSE off (off + 5))
| ls_null off : leaf_spells off (str "null") (JLeaf JSON_TOKEN_NULL off (off + 4)).

Definition member_key (m : bytes * Z * jtree) : bytes := m.1.1.

(** [spells d off text t]: [text], standing at offset [off], is one value
    nested at most [d] deep, and [t] is its tree. *)
Inductive spells : nat -> Z -> bytes -> jtree -> Prop :=
| sp_leaf d off text t : leaf_spells off text t -> spells (S d) off text t
| sp_arr_empty d off w : ws w ->
    spells (S d) off (ch "["%char :: w ++ [ch "]"%char]) (JArr off (off + 2 + len w) [])
| sp_arr d off w text ts : ws w -> elements d (off + 1 + len w) text ts ->
    spells (S d) off (ch "["%char :: w ++ text ++ [ch "]"%char])
      (JArr off (off + 2 + len w + len text) ts)
| sp_obj_empty d off w : ws w ->
    spells (S d) off (ch "{"%char :: w ++ [ch "}"%char]) (JObj off (off + 2 + len w) [])
| sp_obj d off w text ms : ws w -> members d (off + 1 + len w) text ms ->
    NoDup (map member_key ms) ->
    spells (S d) off (ch "{"%char :: w ++ text ++ [ch "}"%char])
      (JObj off (off + 2 + len w + len text) ms)
with elements : nat -> Z -> bytes -> list jtree -> Prop :=
| el_one d off text t w : spells d off text t -> ws w -> elements d off (text ++ w) [t]
| el_more d off text t w w' rest ts : spells d off text t -> ws w -> ws w' ->
    elements d (off + len text + len w + 1 + len w') rest ts ->
    elements d off (text ++ w ++ ch ","%char :: w' ++ rest) (t :: ts)
with members : nat -> Z -> bytes -> list (bytes * Z * jtree) -> Prop :=
| me_one d off k wk wv text t w : key_text k -> ws wk -> ws wv ->
    spells d (off + 3 + len k + len wk + len wv) text t -> ws w ->
    members d off (QUOTE :: k ++ QUOTE :: wk ++ ch ":"%char :: wv ++ text ++ w) [(k, off + 1, t)]
| me_more d off k wk wv text t w w' rest ms : key_text k -> ws wk -> ws wv ->
    spells d (off + 3 + len k + len wk + len wv) text t -> ws w -> ws w' ->
    members d (off + 4 + len k + len wk + len wv + len text + len w + len w') rest ms ->
    members d off
      (QUOTE :: k ++ QUOTE :: wk ++ ch ":"%char :: wv ++ text ++ w ++ ch ","%char :: w' ++ rest)
      ((k, off + 1, t) :: ms).

(** The pre-order token sequence of a tree whose parent token has index [par]
    and whose own token has index [idx]. *)
Fixpoint flatten (par idx : Z) (t : jtree) : list JsonToken :=
  match t with
  | JLeaf ty s e => [mkToken ty s e par 0]
  | JArr s e ts =>
      mkToken JSON_TOKEN_ARRAY s e par (len ts) ::
      (fix go (i : Z) (ts : list jtree) : list JsonToken :=
         match ts with
         | [] => []
         | t :: ts' => flatten idx i t ++ go (i + len (flatten idx i t)) ts'
         end) (idx + 1) ts
  | JObj s e ms =>
      mkToken JSON_TOKEN_OBJECT s e par (2 * len ms) ::
      (fix go (i : Z) (ms : list (bytes * Z * jtree)) : list JsonToken :=
         match ms with
         | [] => []
         | (k, ks, t) :: ms' =>
             mkToken JSON_TOKEN_STRING ks (ks + len k) idx 0 ::
             flatten idx (i + 1) t ++ go (i + 1 + len (flatten idx (i + 1) t)) ms'
         end) (idx + 1) ms
  end.

(** A document is a value between white space. *)
Definition document (d : nat) (text : bytes) (t : jtree) : Prop :=
  exists w1 v w2, text = w1 ++ v ++ w2 /\ ws w1 /\ ws w2 /\ spells d (len w1) v t.

Fixpoint flatten_elems (idx i : Z) (ts : list jtree) : list JsonToken :=
  match ts with
  | [] => []
  | t :: ts' => flatten idx i t ++ flatten_elems idx (i + len (flatten idx i t)) ts'
  end.

Fixpoint flatten_members (idx i : Z) (ms : list (bytes * Z * jtree)) : list JsonToken :=
  match ms with
  | [] => []
  | (k, ks, t) :: ms' =>
      mkToken JSON_TOKEN_STRING ks (ks + len k) idx 0 ::
      flatten idx (i + 1) t ++ flatten_members idx (i + 1 + len (flatten idx (i + 1) t)) ms'
  end.

Lemma flatten_JArr par idx s e ts :
  flatten par idx (JArr s e ts) =
  mkToken JSON_TOKEN_ARRAY s e par (len ts) :: flatten_elems idx (idx + 1) ts.
Proof.
  cbn [flatten]. f_equal. generalize (idx + 1).
  induction ts as [|t ts IH]; intros i; [done|]. cbn [flatten_elems]. by rewrite IH.
Qed.

Lemma flatten_JObj par idx s e ms :
  flatten par idx (JObj s e ms) =
  mkToken JSON_TOKEN_OBJECT s e par (2 * len ms) :: flatten_members idx (idx + 1) ms.
Proof.
  cbn [flatten]. f_equal. generalize (idx + 1).
  induction ms as [|[[k ks] t] ms IH]; intros i; [done|]. cbn [flatten_members]. by rewrite IH.
Qed.

(** ** Weakest preconditions for the parser monad *)
Definition wp {A} (m : M A) (s : Parser) (Q : A -> Parser -> Prop) : Prop :=
  match m s with
  | Done a s' => Q a s'
  | Ub => False
  | NoFuel => False
  end.

Lemma wp_ret {A} (a : A) s (Q : A -> Parser -> Prop) : Q a s -> wp (ret a) s Q.
Proof. done. Qed.

Lemma wp_bind {A B} (m : M A) (k : A -> M B) s Q :
  wp m s (fun a s' => wp (k a) s' Q) -> wp (bind m k) s Q.
Proof. unfold wp, bind. by destruct (m s). Qed.

Lemma wp_mono {A} (m : M A) s (Q Q' : A -> Parser -> Prop) :
  wp m s Q -> (forall a s', Q a s' -> Q' a s') -> wp m s Q'.
Proof. unfold wp. destruct (m s); auto. Qed.

Lemma wp_get_position s Q : Q (position s) s -> wp get_position s Q.
Proof. done. Qed.

Lemma wp_get_tokens s Q : Q (tokens s) s -> wp get_tokens s Q.
Proof. done. Qed.

Lemma wp_set_position p s Q :
  Q tt (mkParser p (tokens s) (error s) (error_offset s)) -> wp (set_position p) s Q.
Proof. done. Qed.

Lemma wp_fail_false e off s Q :
  error s = JSON_OK -> Q false (mkParser (position s) (tokens s) e off) ->
  wp (fail_false e off) s Q.
Proof. unfold wp, fail_false, bind, Fail, ret. intros ->. by rewrite bool_decide_eq_true_2. Qed.

Lemma wp_fail_minus1 e off s Q :
  error s = JSON_OK -> Q (-1) (mkParser (position s) (tokens s) e off) ->
  wp (fail_minus1 e off) s Q.
Proof. unfold wp, fail_minus1, bind, Fail, ret. intros ->. by rewrite bool_decide_eq_true_2. Qed.

Lemma wp_set_end idx e s Q :
  0 <= idx < len (tokens s) ->
  Q tt (mkParser (position s)
      (alter (fun t => mkToken (type t) (start t) (u32 e) (parent t) (child_count t))
         (Z.to_nat idx) (tokens s)) (error s) (error_offset s)) ->
  wp (set_end idx e) s Q.
Proof.
  intros Hi. unfold wp, set_end.
  rewrite (proj2 (Z.leb_le 0 idx)), (proj2 (Z.ltb_lt idx _)) by lia. done.
Qed.

(** Linear arithmetic over lengths, using every equation between texts. *)
Ltac jlia :=
  repeat match goal with H : @eq (list Z) _ _ |- _ => apply (f_equal (@len Z)) in H end;
  unfold length_ in *; rewrite ?len_snoc, ?len_app, ?len_cons in *;
  change (len (@nil Z)) with 0 in *; change (len (@nil JsonToken)) with 0 in *;
  len_facts; lia.

Lemma leaf_nonempty off text t : leaf_spells off text t -> 0 < len text.
Proof.
  intros H. destruct H as [off b Hb | off t Ht | off | off | off]; try done.
  destruct Ht as (sg & i & f & e & -> & Hsg & Hi & Hf & He). rewrite !len_app.
  destruct Hi as [-> | (c & d & -> & _)]; rewrite ?len_cons; change (len (@nil Z)) with 0; len_facts; lia.
Qed.

Lemma spells_nonempty d off text t : spells d off text t -> 0 < len text.
Proof. destruct 1; [by eapply leaf_nonempty| | | |]; rewrite len_cons; len_facts; lia. Qed.

Lemma jtree_ind' (R : jtree -> Prop) :
  (forall ty s e, R (JLeaf ty s e)) ->
  (forall s e ts, Forall R ts -> R (JArr s e ts)) ->
  (forall s e ms, Forall (fun m => R m.2) ms -> R (JObj s e ms)) -> forall t, R t.
Proof.
  intros HL HA HO. fix F 1. intros [ty s e | s e ts | s e ms].
  - apply HL.
  - apply HA. induction ts; constructor; auto.
  - apply HO. induction ms as [|[[k ks] t] ms]; constructor; auto.
Qed.

Lemma flatten_shape t : forall par idx, exists t0 rest,
  flatten par idx t = t0 :: rest /\ parent t0 = par /\ Forall (fun x => idx <= parent x) rest.
Proof.
  induction t as [ty s e | s e ts IH | s e ms IH] using jtree_ind'; intros par idx.
  - eexists _, []. split; [done|]. split; [done | constructor].
  - rewrite flatten_JArr. eexists _, _. split; [done|]. split; [done|].
    assert (Hi : idx <= idx + 1) by lia. revert Hi. generalize (idx + 1).
    induction IH as [|t ts Ht Hts IHts]; intros i Hi; cbn [flatten_elems]; [constructor|].
    destruct (Ht idx i) as (t0 & rest & E & Hp & Hr). apply Forall_app. rewrite E at 1. split.
    + constructor; [lia|]. eapply Forall_impl; [done|]. cbn. intros. lia.
    + apply IHts. len_facts. lia.
  - rewrite flatten_JObj. eexists _, _. split; [done|]. split; [done|].
    assert (Hi : idx <= idx + 1) by lia. revert Hi. generalize (idx + 1).
    induction IH as [|[[k ks] t] ms Ht Hms IHms]; intros i Hi; cbn [flatten_members]; [constructor|].
    destruct (Ht idx (i + 1)) as (t0 & rest & E & Hp & Hr). cbn [snd] in *.
    constructor; [cbn; lia|]. apply Forall_app. rewrite E at 1. split.
    + constructor; [lia|]. eapply Forall_impl; [done|]. cbn. intros. lia.
    + apply IHms. len_facts. lia.
Qed.

Lemma sub_key json pre key r :
  json = pre ++ QUOTE :: key ++ r -> sub json (len pre + 1) (len key) = key.
Proof.
  intros ->. replace (len pre + 1) with (len (pre ++ [QUOTE])) by (by rewrite len_snoc).
  replace (pre ++ QUOTE :: key ++ r) with ((pre ++ [QUOTE]) ++ key ++ r) by (by rewrite <- app_assoc).
  by apply sub_app.
Qed.

Section run.
Context (json : bytes) (capacity max_depth : Z).
Hypothesis Hbytes : Forall is_byte json.
Hypothesis Hsize : len json <= kMaximumJsonBytes.

(** The state after consuming [pre] and writing [ts] without an error. *)
Definition St (pre : bytes) (ts : list JsonToken) : Parser := mkParser (len pre) ts JSON_OK 0.

Ltac pos := repeat match goal with
  |- context [position (St ?p ?t)] => change (position (St p t)) with (len p) end.

Definition failed (s : Parser) : Prop :=
  error s <> JSON_OK /\ 0 <= error_offset s <= length_ json /\ len (tokens s) <= capacity.

Lemma wp_read i s Q : 0 <= i < length_ json -> Q (byte_at json i) s -> wp (read json i) s Q.
Proof.
  intros Hi. unfold wp, read.
  rewrite (proj2 (Z.leb_le 0 i)), (proj2 (Z.ltb_lt i _)) by lia. done.
Qed.

Lemma wp_peek pre r ts f Q :
  json = pre ++ r ->
  Q (match r with c :: _ => f c | [] => false end) (St pre ts) ->
  wp (peek_is json f) (St pre ts) Q.
Proof.
  intros Hj HQ. unfold peek_is. apply wp_bind, wp_get_position. simpl.
  unfold length_. pose proof (len_nonneg pre).
  destruct r as [|c r].
  - rewrite Hj, app_nil_r, Z.ltb_irrefl. by apply wp_ret.
  - assert (len pre < len json) by (rewrite Hj, len_app, len_cons; pose proof (len_nonneg r); lia).
    rewrite (proj2 (Z.ltb_lt _ _)) by done.
    apply wp_bind, wp_read; [unfold length_; lia|]. apply wp_ret.
    rewrite Hj, byte_at_here. done.
Qed.

Lemma wp_skip_while f fuel pre r ts Q :
  json = pre ++ r -> (length r < fuel)%nat ->
  (forall w r', r = w ++ r' -> Forall (fun c => f c = true) w ->
     match r' with c :: _ => f c = false | [] => True end ->
     Q tt (St (pre ++ w) ts)) ->
  wp (skip_while json fuel f) (St pre ts) Q.
Proof.
  revert pre r. induction fuel as [|fuel IH]; intros pre r Hj Hf HQ; [lia|].
  cbn [skip_while]. apply wp_bind. eapply wp_peek; [done|].
  destruct r as [|c r].
  { apply wp_ret. rewrite <- (app_nil_r pre). by apply (HQ [] []). }
  destruct (f c) eqn:Ec.
  - apply wp_bind, wp_get_position, wp_bind, wp_set_position. simpl.
    replace (len pre + 1) with (len (pre ++ [c])) by (rewrite len_app; done).
    apply (IH (pre ++ [c]) r); [by rewrite <- app_assoc | simpl in Hf; lia |].
    intros w r' -> Hw Hr'. rewrite <- app_assoc. apply (HQ (c :: w) r'); auto.
  - apply wp_ret. rewrite <- (app_nil_r pre). by apply (HQ [] (c :: r)).
Qed.

Lemma wp_SkipWhitespace pre r ts Q :
  json = pre ++ r ->
  (forall w r', r = w ++ r' -> ws w ->
     match r' with c :: _ => is_ws c = false | [] => True end ->
     Q tt (St (pre ++ w) ts)) ->
  wp (SkipWhitespace json) (St pre ts) Q.
Proof.
  intros Hj HQ. eapply wp_skip_while; [done | | done].
  unfold loop_fuel. rewrite Hj, length_app. lia.
Qed.

Lemma wp_skip_digits pre r ts Q :
  json = pre ++ r ->
  (forall w r', r = w ++ r' -> digits w ->
     match r' with c :: _ => is_digit c = false | [] => True end ->
     Q tt (St (pre ++ w) ts)) ->
  wp (skip_while json (loop_fuel json) is_digit) (St pre ts) Q.
Proof.
  intros Hj HQ. eapply wp_skip_while; [done | | done].
  unfold loop_fuel. rewrite Hj, length_app. lia.
Qed.

Lemma size_small (pre r : bytes) : json = pre ++ r -> 0 <= len pre <= len json.
Proof. intros ->. rewrite len_app. pose proof (len_nonneg pre). pose proof (len_nonneg r). lia. Qed.

Lemma u32_offset p : 0 <= p <= len json -> u32 p = p.
Proof.
  intros. unfold u32. apply Z.mod_small. unfold kMaximumJsonBytes in Hsize.
  change (2 ^ 32) with 4294967296. lia.
Qed.

Definition fresh (ty : JsonTokenType) (s e par : Z) : JsonToken := mkToken ty s e par 0.

Definition bump (par : Z) (ts : list JsonToken) : list JsonToken :=
  if 0 <=? par then alter bump_child (Z.to_nat par) ts else ts.

Lemma len_bump par ts : len (bump par ts) = len ts.
Proof. unfold bump, len. destruct (0 <=? par); [by rewrite length_alter | done]. Qed.

Lemma wp_AddToken ty st par p ts (Q : Z -> Parser -> Prop) :
  0 <= st <= len json -> 0 <= p <= len json -> -1 <= par < len ts -> len ts <= capacity ->
  (failed (mkParser p ts JSON_ERROR_TOKEN_LIMIT p) ->
     Q (-1) (mkParser p ts JSON_ERROR_TOKEN_LIMIT p)) ->
  (len ts < capacity ->
     Q (len ts) (mkParser p (bump par ts ++ [mkToken ty st st par 0]) JSON_OK 0)) ->
  wp (AddToken capacity ty st par) (mkParser p ts JSON_OK 0) Q.
Proof.
  intros Hst Hp Hpar Hc HF HQ. unfold wp, AddToken. cbn [tokens position error error_offset].
  destruct (Z.leb_spec capacity (len ts)).
  { unfold bind, Fail, ret. cbn [error tokens position].
    rewrite bool_decide_eq_true_2 by done. apply HF. by split. }
  rewrite u32_offset by done. specialize (HQ ltac:(done)). unfold bump in HQ.
  destruct (0 <=? par); [|done].
  rewrite (proj2 (Z.ltb_lt par _)) by lia. done.
Qed.

Lemma alter_last (f : JsonToken -> JsonToken) l t :
  alter f (Z.to_nat (len l)) (l ++ [t]) = l ++ [f t].
Proof.
  unfold len. rewrite Nat2Z.id, alter_app_r_alt by lia.
  by rewrite Nat.sub_diag.
Qed.

(** A leaf token: [AddToken] followed by [token.end = e]. *)
Lemma wp_leaf ty st e par p ts (Q : bool -> Parser -> Prop) :
  0 <= st <= len json -> 0 <= p <= len json -> 0 <= e <= len json ->
  -1 <= par < len ts -> len ts <= capacity ->
  (forall s, failed s -> Q false s) ->
  (len ts < capacity ->
   Q true (mkParser p (bump par ts ++ [mkToken ty st e par 0]) JSON_OK 0)) ->
  wp (bind (AddToken capacity ty st par)
        (fun token => if token <? 0 then ret false else bind (set_end token e) (fun _ => ret true)))
     (mkParser p ts JSON_OK 0) Q.
Proof.
  intros Hst Hp He Hpar Hc HF HQ. apply wp_bind, wp_AddToken; try done.
  - intros Hf. apply wp_ret. auto.
  - intros Hlt. pose proof (len_nonneg ts). rewrite (proj2 (Z.ltb_ge _ 0)) by lia.
    apply wp_bind, wp_set_end; cbn [tokens position error error_offset].
    { rewrite len_snoc, len_bump. lia. }
    apply wp_ret. rewrite <- (len_bump par ts), alter_last.
    cbn [type start parent child_count]. rewrite u32_offset by done. auto.
Qed.

(** *** Scanners *)
Definition accepts (G : bytes -> Prop) (pre r : bytes) (ts : list JsonToken)
    (b : bool) (s : Parser) : Prop :=
  if b then exists text r', r = text ++ r' /\ G text /\ s = St (pre ++ text) ts
  else failed s.

Lemma wp_ParseHex4 pre h r s Q :
  json = pre ++ h ++ r -> length h = 4%nat ->
  Q (hex_value h 0) s -> wp (ParseHex4 json (len pre)) s Q.
Proof.
  unfold ParseHex4. intros Hj Hh.
  assert (H : forall n (pre h : bytes) acc, json = pre ++ h ++ r -> length h = n -> (n <= 4)%nat ->
    0 <= acc < 2 ^ (32 - 4 * Z.of_nat n) -> Q (hex_value h acc) s ->
    wp (ParseHex4_loop json n (len pre) acc) s Q).
  { clear. intros n. induction n as [|n IH]; intros pre h acc Hj Hh Hn Ha HQ.
    { destruct h; [by apply wp_ret | done]. }
    destruct h as [|c h]; [done|]. injection Hh as Hh. cbn [ParseHex4_loop].
    apply wp_bind, wp_read.
    { unfold length_. rewrite Hj, !len_app. cbn [app]. rewrite !len_cons.
      pose proof (len_nonneg pre). pose proof (len_nonneg h). pose proof (len_nonneg r). lia. }
    rewrite Hj at 1. rewrite <- app_comm_cons, byte_at_here. cbn [hex_value] in HQ.
    destruct (hex_digit c) as [d|] eqn:Ed; [|by apply wp_ret].
    assert (0 <= d < 16).
    { unfold hex_digit in Ed. guards Ed; injection Ed as <-;
        repeat match goal with H : in_range _ _ _ = true |- _ => apply in_range_spec in H end; lia. }
    assert (Hp : 2 ^ (32 - 4 * Z.of_nat n) = 16 * 2 ^ (32 - 4 * Z.of_nat (S n))).
    { replace (32 - 4 * Z.of_nat n) with (4 + (32 - 4 * Z.of_nat (S n))) by lia.
      rewrite Z.pow_add_r by lia. lia. }
    assert (Hle : 2 ^ (32 - 4 * Z.of_nat n) <= 2 ^ 32) by (apply Z.pow_le_mono_r; lia).
    unfold u32. rewrite Z.shiftl_mul_pow2, Z.mod_small, lor_add_disjoint by lia.
    replace (len pre + 1) with (len (pre ++ [c])) by (rewrite len_app; done).
    apply (IH (pre ++ [c]) h); [by rewrite <- app_assoc | done | lia | lia | done]. }
  intros HQ. apply (H 4%nat pre h); try done.
Qed.

Lemma wp_fail_at e off p ts (Q : bool -> Parser -> Prop) :
  e <> JSON_OK -> 0 <= off <= len json -> len ts <= capacity ->
  (forall s, failed s -> Q false s) -> wp (fail_false e off) (mkParser p ts JSON_OK 0) Q.
Proof. intros ??? HF. apply wp_fail_false; [done|]. by apply HF. Qed.

Lemma wp_fail_at' e off p ts (Q : Z -> Parser -> Prop) :
  e <> JSON_OK -> 0 <= off <= len json -> len ts <= capacity ->
  (forall s, failed s -> Q (-1) s) -> wp (fail_minus1 e off) (mkParser p ts JSON_OK 0) Q.
Proof. intros ??? HF. apply wp_fail_minus1; [done|]. by apply HF. Qed.

Lemma split4 (r : bytes) : 4 <= len r -> exists h r', r = h ++ r' /\ length h = 4%nat.
Proof.
  intros H. exists (take 4 r), (drop 4 r). rewrite take_drop. split; [done|].
  rewrite length_take. unfold len in H. lia.
Qed.

Lemma wp_ParseEscape pre r ts Q :
  json = pre ++ BACKSLASH :: r -> len ts <= capacity ->
  (forall s, failed s -> Q false s) ->
  (forall e r', r = e ++ r' -> escape_text e -> Q true (St (pre ++ BACKSLASH :: e) ts)) ->
  wp (ParseEscape json) (St pre ts) Q.
Proof.
  intros Hj Hc HF HQ. unfold ParseEscape, St.
  apply wp_bind, wp_get_position, wp_bind, wp_set_position. cbn [position tokens error error_offset].
  destruct (Z.leb_spec (length_ json) (len pre + 1)) as [Hl|Hl].
  { apply wp_fail_at; [done | jlia | done | done]. }
  destruct r as [|c r]; [jlia|].
  apply wp_bind, wp_read; [jlia|].
  assert (Ec : byte_at json (len pre + 1) = c) by (rewrite Hj, byte_at_app by lia; done).
  rewrite Ec; clear Ec. apply wp_bind, wp_set_position. cbn [position tokens error error_offset].
  destruct (strchr_found simple_escapes c) eqn:Es.
  { apply wp_ret. specialize (HQ [c] r). unfold St in HQ. rewrite len_app, !len_cons in HQ.
    apply HQ; [done|]. constructor. by apply strchr_found_spec. }
  clear Es. destruct (c =? ch "u"%char) eqn:Eu; cbn [negb orb];
    [|apply wp_fail_at; [done | jlia | done | done]]. zbool; subst c.
  destruct (Z.ltb_spec (length_ json) (len pre + 2 + 4)) as [H4|H4].
  { apply wp_fail_at; [done | jlia | done | done]. }
  destruct (split4 r) as (h & r1 & -> & Hh); [jlia|].
  assert (Hlh : len h = 4) by (unfold len; lia).
  set (pre2 := pre ++ [BACKSLASH; ch "u"%char]).
  assert (Hj2 : json = pre2 ++ h ++ r1) by (unfold pre2; rewrite <- app_assoc; done).
  assert (Hp2 : len pre2 = len pre + 2) by (unfold pre2; by rewrite len_app).
  rewrite <- Hp2. apply wp_bind. eapply wp_ParseHex4; [exact Hj2 | done |].
  destruct (hex_value h 0) as [v|] eqn:Ev; [|apply wp_fail_at; [done | jlia | done | done]].
  apply wp_bind, wp_set_position. cbn [position tokens error error_offset].
  destruct (in_range 55296 56319 v) eqn:Ehi.
  2:{ destruct (in_range 56320 57343 v) eqn:Elo.
      { apply wp_fail_at; [done | jlia | done | done]. }
      apply wp_ret. specialize (HQ (ch "u"%char :: h) r1). unfold St in HQ.
      rewrite len_app, !len_cons, Hlh in HQ. apply HQ; [done|].
      apply in_range_false in Ehi, Elo. by apply esc_unit with v. }
  apply in_range_spec in Ehi.
  destruct (Z.ltb_spec (length_ json) (len pre + 6 + 6)) as [H12|H12].
  { apply wp_fail_at; [done | jlia | done | done]. }
  set (pre6 := pre2 ++ h).
  assert (Hj6 : json = pre6 ++ r1) by (unfold pre6; by rewrite <- app_assoc).
  assert (Hp6 : len pre6 = len pre + 6) by (unfold pre6; rewrite len_app; lia).
  destruct r1 as [|c0 [|c1 r1]]; [jlia | jlia |].
  apply wp_bind, wp_read; [jlia|].
  assert (E0 : byte_at json (len pre + 6) = c0) by (rewrite Hj6, <- Hp6; apply byte_at_here).
  rewrite E0; clear E0. destruct (c0 =? BACKSLASH) eqn:Eb; cbn [negb];
    [|apply wp_fail_at; [done | jlia | done | done]]. zbool; subst c0.
  apply wp_bind, wp_read; [jlia|].
  assert (E1 : byte_at json (len pre + 7) = c1).
  { replace (len pre + 7) with (len pre6 + 1) by lia. rewrite Hj6, byte_at_app by lia. done. }
  rewrite E1; clear E1. destruct (c1 =? ch "u"%char) eqn:Eu; cbn [negb];
    [|apply wp_fail_at; [done | jlia | done | done]]. zbool; subst c1.
  destruct (split4 r1) as (l & r2 & -> & Hl4); [jlia|].
  assert (Hll : len l = 4) by (unfold len; lia).
  set (pre8 := pre6 ++ [BACKSLASH; ch "u"%char]).
  assert (Hj8 : json = pre8 ++ l ++ r2) by (unfold pre8; rewrite <- app_assoc; done).
  assert (Hp8 : len pre8 = len pre + 8) by (unfold pre8; rewrite len_app, Hp6; unfold len; cbn [length]; lia).
  rewrite <- Hp8. apply wp_bind. eapply wp_ParseHex4; [exact Hj8 | done |].
  destruct (hex_value l 0) as [w|] eqn:Ew; [|apply wp_fail_at; [done | jlia | done | done]].
  destruct (in_range 56320 57343 w) eqn:Elo; cbn [negb];
    [|apply wp_fail_at; [done | jlia | done | done]].
  apply in_range_spec in Elo. apply wp_bind, wp_set_position, wp_ret.
  specialize (HQ (ch "u"%char :: h ++ BACKSLASH :: ch "u"%char :: l) r2). unfold St in HQ.
  cbn [position tokens error error_offset]. replace (len pre + 12) with
    (len (pre ++ BACKSLASH :: ch "u"%char :: h ++ BACKSLASH :: ch "u"%char :: l))
    by (rewrite !len_app, !len_cons, len_app, !len_cons; lia).
  apply HQ; [by rewrite <- !app_comm_cons, <- app_assoc|]. by apply esc_pair with v w.
Qed.

Lemma cont_byte c : is_byte c -> Z.land c 0xc0 =? 0x80 = true ->
  128 <= c < 192 /\ Z.land c 0x3f = c - 128.
Proof.
  intros Hc H.
  assert (He : (negb (Z.land c 0xc0 =? 0x80) ||
                ((128 <=? c) && (c <? 192) && (Z.land c 0x3f =? c - 128))) = true)
    by (clear H; revert c Hc; by apply byte_exhaust).
  rewrite H in He. cbn [negb orb] in He. zbool. lia.
Qed.

Definition cont_value (cs : bytes) (cp : Z) : Z :=
  fold_left (fun a c => a * 64 + (c - 128)) cs cp.

Lemma wp_utf8_continuation n pre r cp s Q :
  json = pre ++ r -> Z.of_nat n <= len r -> (n <= 3)%nat ->
  0 <= cp < 2 ^ (32 - 6 * Z.of_nat n) ->
  (forall off, len pre <= off < len pre + Z.of_nat n -> Q (inr off) s) ->
  (forall cs r', r = cs ++ r' -> length cs = n -> Forall (fun c => 128 <= c < 192) cs ->
     Q (inl (cont_value cs cp)) s) ->
  wp (utf8_continuation json n (len pre) cp) s Q.
Proof.
  revert pre r cp. induction n as [|n IH]; intros pre r cp Hj Hn H3 Hcp HF HQ.
  { apply wp_ret. by apply (HQ [] r). }
  destruct r as [|c r]; [rewrite len_nil in Hn; lia|]. rewrite len_cons in Hn.
  cbn [utf8_continuation]. apply wp_bind, wp_read; [jlia|].
  assert (Hc : is_byte c).
  { rewrite Hj, Forall_app, Forall_cons in Hbytes. tauto. }
  assert (Ec : byte_at json (len pre) = c) by (rewrite Hj; apply byte_at_here).
  rewrite Ec; clear Ec. destruct (Z.land c 192 =? 128) eqn:E; cbn [negb].
  2:{ apply wp_ret, HF. lia. }
  destruct (cont_byte c Hc E) as [Hr Hv]. rewrite Hv.
  assert (Hp : 2 ^ (32 - 6 * Z.of_nat n) = 64 * 2 ^ (32 - 6 * Z.of_nat (S n))).
  { replace (32 - 6 * Z.of_nat n) with (6 + (32 - 6 * Z.of_nat (S n))) by lia.
    rewrite Z.pow_add_r by lia. lia. }
  assert (Hle : 2 ^ (32 - 6 * Z.of_nat n) <= 2 ^ 32) by (apply Z.pow_le_mono_r; lia).
  unfold u32. rewrite Z.shiftl_mul_pow2, Z.mod_small, lor_add_disjoint by lia.
  replace (len pre + 1) with (len (pre ++ [c])) by (rewrite len_snoc; lia).
  apply (IH (pre ++ [c]) r); try lia; [by rewrite <- app_assoc | | ].
  - intros off Hoff. rewrite len_snoc in Hoff. apply HF. lia.
  - intros cs r' -> Hl Hcs. apply (HQ (c :: cs) r'); [done | by simpl; rewrite Hl | by constructor].
Qed.

Lemma utf8_lead_spec f count cp :
  utf8_lead f = Some (count, cp) ->
  (count = 2 /\ 0xc2 <= f <= 0xdf /\ cp = f - 0xc0) \/
  (count = 3 /\ 0xe0 <= f <= 0xef /\ cp = f - 0xe0) \/
  (count = 4 /\ 0xf0 <= f <= 0xf4 /\ cp = f - 0xf0).
Proof.
  unfold utf8_lead. change 0x1f with (Z.ones 5). change 0x0f with (Z.ones 4).
  change 0x07 with (Z.ones 3). rewrite !Z.land_ones by lia.
  change (2 ^ 5) with 32. change (2 ^ 4) with 16. change (2 ^ 3) with 8. intros H.
  guards H; injection H as <- <-;
    match goal with H : in_range _ _ _ = true |- _ => apply in_range_spec in H end.
  - left. repeat split; try lia. Z.to_euclidean_division_equations; lia.
  - right; left. repeat split; try lia. Z.to_euclidean_division_equations; lia.
  - right; right. repeat split; try lia. Z.to_euclidean_division_equations; lia.
Qed.

(** Exactly the canonical encodings pass the range checks. *)
Lemma utf8_decoded f count cp cs :
  utf8_lead f = Some (count, cp) -> Z.of_nat (length cs) = count - 1 ->
  Forall (fun c => 128 <= c < 192) cs -> utf8_bad count (cont_value cs cp) = false ->
  scalar_value (cont_value cs cp) /\ 0x80 <= cont_value cs cp /\
  utf8 (cont_value cs cp) = f :: cs.
Proof.
  intros Hl Hn Hcs Hb. unfold utf8_bad in Hb. zbool.
  match goal with H : in_range _ _ _ = false |- _ => apply in_range_false in H end.
  destruct (utf8_lead_spec _ _ _ Hl) as [(-> & Hf & ->)|[(-> & Hf & ->)|(-> & Hf & ->)]].
  - destruct cs as [|a [|]]; try (simpl in Hn; lia). apply Forall_cons in Hcs as [Ha _].
    unfold cont_value, scalar_value, utf8 in *. cbn [fold_left] in *.
    set (v := (f - 192) * 64 + (a - 128)) in *.
    rewrite (proj2 (Z.leb_gt v _)), (proj2 (Z.leb_le v _)) by lia.
    split; [lia|]. split; [lia|]. do 2 f_equal; subst v; divmod_lia.
  - destruct cs as [|a [|b [|]]]; try (simpl in Hn; lia).
    apply Forall_cons in Hcs as [Ha Hcs]. apply Forall_cons in Hcs as [Hb' _].
    unfold cont_value, scalar_value, utf8 in *. cbn [fold_left] in *.
    set (v := ((f - 224) * 64 + (a - 128)) * 64 + (b - 128)) in *.
    assert (2048 <= v) by (match goal with H : (3 =? 3) && _ = false |- _ => simpl in H end; zbool; lia).
    rewrite (proj2 (Z.leb_gt v _)), (proj2 (Z.leb_gt v _)), (proj2 (Z.leb_le v _)) by lia.
    split; [lia|]. split; [lia|]. do 3 f_equal; subst v; divmod_lia.
  - destruct cs as [|a [|b [|c [|]]]]; try (simpl in Hn; lia).
    apply Forall_cons in Hcs as [Ha Hcs]. apply Forall_cons in Hcs as [Hb' Hcs].
    apply Forall_cons in Hcs as [Hc' _].
    unfold cont_value, scalar_value, utf8 in *. cbn [fold_left] in *.
    set (v := (((f - 240) * 64 + (a - 128)) * 64 + (b - 128)) * 64 + (c - 128)) in *.
    assert (65536 <= v) by (match goal with H : (4 =? 4) && _ = false |- _ => simpl in H end; zbool; lia).
    rewrite !(proj2 (Z.leb_gt v _)) by lia.
    split; [lia|]. split; [lia|]. do 4 f_equal; subst v; divmod_lia.
Qed.

Lemma wp_ConsumeUtf8 pre c r ts Q :
  json = pre ++ c :: r -> len ts <= capacity ->
  (forall s, failed s -> Q false s) ->
  (forall cp r', c :: r = utf8 cp ++ r' -> scalar_value cp -> 0x80 <= cp ->
     Q true (mkParser (len (pre ++ utf8 cp) - 1) ts JSON_OK 0)) ->
  wp (ConsumeUtf8 json) (St pre ts) Q.
Proof.
  intros Hj Hc HF HQ. unfold ConsumeUtf8, St.
  apply wp_bind, wp_get_position, wp_bind, wp_read; cbn [position]; [jlia|].
  assert (Ec : byte_at json (len pre) = c) by (rewrite Hj; apply byte_at_here).
  rewrite Ec; clear Ec.
  destruct (utf8_lead c) as [[count cp]|] eqn:El; [|apply wp_fail_at; [done | jlia | done | done]].
  assert (Hcount : 2 <= count <= 4 /\ 0 <= cp < 32 /\ (count = 4 -> cp <= 4))
    by (pose proof (utf8_lead_spec _ _ _ El); lia).
  destruct (Z.ltb_spec (length_ json) (len pre + count)) as [Hl|Hl].
  { apply wp_fail_at; [done | jlia | done | done]. }
  replace (len pre + 1) with (len (pre ++ [c])) by (rewrite len_snoc; lia).
  apply wp_bind. eapply (wp_utf8_continuation _ _ r).
  - by rewrite <- app_assoc.
  - jlia.
  - lia.
  - assert (2 ^ 14 <= 2 ^ (32 - 6 * Z.of_nat (Z.to_nat (count - 1)))) by (apply Z.pow_le_mono_r; lia).
    lia.
  - intros off Hoff. rewrite len_snoc in Hoff. apply wp_fail_at; [done | jlia | done | done].
  - intros cs r' -> Hn Hcs. destruct (utf8_bad count (cont_value cs cp)) eqn:Eb.
    { apply wp_fail_at; [done | jlia | done | done]. }
    destruct (utf8_decoded c count cp cs El) as (H1 & H2 & H3); [lia | done | done |].
    apply wp_bind, wp_set_position, wp_ret. unfold St; cbn [tokens error error_offset].
    specialize (HQ (cont_value cs cp) r'). rewrite H3 in HQ.
    replace (len pre + (count - 1)) with (len (pre ++ c :: cs) - 1)
      by (rewrite len_app, len_cons; unfold len at 2; lia).
    by apply HQ.
Qed.

Lemma utf8_nonempty cp : (0 < length (utf8 cp))%nat.
Proof. unfold utf8. repeat destruct (_ <=? _); cbn [length]; lia. Qed.

Lemma wp_ParseString_loop fuel pre r par key st esc ts (Q : Z -> Parser -> Prop) :
  json = pre ++ r -> (length r < fuel)%nat -> 0 <= st <= len pre ->
  -1 <= par < len ts -> len ts <= capacity ->
  (forall s, failed s -> Q (-1) s) ->
  (forall b r', r = b ++ QUOTE :: r' -> string_body b ->
     (key = true -> esc = false /\ key_text b) -> len ts < capacity ->
     Q (len ts) (St (pre ++ b ++ [QUOTE])
       (bump par ts ++ [mkToken JSON_TOKEN_STRING st (len pre + len b) par 0]))) ->
  wp (ParseString_loop json capacity fuel par key st esc) (St pre ts) Q.
Proof.
  revert pre r esc. induction fuel as [|fuel IH]; intros pre r esc Hj Hf Hst Hpar Hc HF HQ; [lia|].
  cbn [ParseString_loop]. apply wp_bind, wp_get_position. unfold St; cbn [position].
  unfold length_. destruct (Z.leb_spec (len json) (len pre)) as [Hl|Hl].
  { apply wp_fail_at'; [done | jlia | done | done]. }
  destruct r as [|c r]; [jlia|]. simpl in Hf.
  apply wp_bind, wp_read; [jlia|].
  assert (Ec : byte_at json (len pre) = c) by (rewrite Hj; apply byte_at_here).
  rewrite Ec; clear Ec. destruct (c =? QUOTE) eqn:Eq.
  { zbool; subst c. apply wp_bind, wp_set_position. unfold St; cbn [tokens error error_offset].
    destruct (key && esc) eqn:Eke.
    { apply wp_fail_at'; [done | jlia | done | done]. }
    apply wp_bind, wp_AddToken; [jlia | jlia | done | done | by intros Hx; apply wp_ret, HF |].
    intros Hlt. pose proof (len_nonneg ts). rewrite (proj2 (Z.leb_le 0 (len ts))) by lia.
    apply wp_bind, wp_set_end; cbn [tokens position error error_offset].
    { rewrite len_snoc, len_bump. lia. }
    apply wp_ret. rewrite <- (len_bump par ts) at 2. rewrite alter_last.
    cbn [type start parent child_count]. rewrite u32_offset by jlia.
    specialize (HQ [] r). rewrite len_nil, Z.add_0_r in HQ. cbn [app] in HQ.
    unfold St in HQ. rewrite len_snoc in HQ. apply HQ; [done | constructor | | done].
    intros ->. destruct esc; [done|]. split; [done | constructor]. }
  zbool. destruct (Z.ltb_spec c 32).
  { apply wp_fail_at'; [done | jlia | done | done]. }
  destruct (c =? BACKSLASH) eqn:Eb.
  { zbool; subst c. apply wp_bind. eapply wp_ParseEscape; [exact Hj | done | |].
    - intros s Hs. apply wp_ret. auto.
    - intros e r' -> He. apply (IH _ r'); try done; [by rewrite <- app_assoc | | jlia |].
      { rewrite length_app in Hf. lia. }
      intros b r'' -> Hb Hkey Hlt. specialize (HQ (BACKSLASH :: e ++ b) r'').
      replace (len pre + len (BACKSLASH :: e ++ b)) with (len (pre ++ BACKSLASH :: e) + len b) in HQ
        by (rewrite !len_cons, !len_app, !len_cons; lia).
      replace ((pre ++ BACKSLASH :: e) ++ b ++ [QUOTE]) with (pre ++ (BACKSLASH :: e ++ b) ++ [QUOTE])
        by (cbn [app]; rewrite <- !app_assoc; done).
      apply HQ; [cbn [app]; by rewrite <- app_assoc | by constructor | | done].
      intros Hk. destruct (Hkey Hk). done. }
  zbool. destruct (key && ((c <? 33) || (126 <? c))) eqn:Ek.
  { apply wp_fail_at'; [done | jlia | done | done]. }
  assert (Hk : key = true -> 33 <= c <= 126).
  { intros ->. cbn [andb] in Ek. zbool. lia. }
  apply wp_bind. destruct (Z.leb_spec 128 c) as [Hu|Hu].
  { eapply wp_ConsumeUtf8; [exact Hj | done | |].
    - intros s Hs. apply wp_ret. auto.
    - intros cp r' Hr Hcp Hcp'. apply wp_bind, wp_get_position, wp_bind, wp_set_position.
      cbn [tokens position error error_offset].
      replace (len (pre ++ utf8 cp) - 1 + 1) with (len (pre ++ utf8 cp)) by lia.
      rewrite Hr in Hj, HQ. apply (f_equal length) in Hr. simpl in Hr. rewrite length_app in Hr.
      pose proof (utf8_nonempty cp).
      apply (IH _ r'); try done; [by rewrite <- app_assoc | lia | jlia |].
      intros b r'' -> Hb Hkey Hlt. specialize (HQ (utf8 cp ++ b) r'').
      replace (len pre + len (utf8 cp ++ b)) with (len (pre ++ utf8 cp) + len b) in HQ
        by (rewrite !len_app; lia).
      replace ((pre ++ utf8 cp) ++ b ++ [QUOTE]) with (pre ++ (utf8 cp ++ b) ++ [QUOTE])
        by (by rewrite <- !app_assoc).
      apply HQ; [by rewrite <- app_assoc | by constructor | | done].
      intros Hk'. specialize (Hk Hk'). lia. }
  apply wp_ret, wp_bind, wp_get_position, wp_bind, wp_set_position.
  unfold St; cbn [tokens position error error_offset].
  replace (len pre + 1) with (len (pre ++ [c])) by (rewrite len_snoc; lia).
  apply (IH _ r); try done; [by rewrite <- app_assoc | lia | jlia |].
  intros b r'' -> Hb Hkey Hlt. specialize (HQ (c :: b) r'').
  replace (len pre + len (c :: b)) with (len (pre ++ [c]) + len b) in HQ
    by (rewrite len_snoc, len_cons; lia).
  rewrite <- app_assoc. apply HQ; [done | constructor; [lia|done|done|done] | | done].
  intros Hk'. destruct (Hkey Hk') as [-> Hb']. split; [done|]. constructor; [|done].
  specialize (Hk Hk'). lia.
Qed.

Lemma wp_ParseString pre r par key ts (Q : Z -> Parser -> Prop) :
  json = pre ++ QUOTE :: r -> -1 <= par < len ts -> len ts <= capacity ->
  (forall s, failed s -> Q (-1) s) ->
  (forall b r', r = b ++ QUOTE :: r' -> string_body b -> (key = true -> key_text b) ->
     len ts < capacity ->
     Q (len ts) (St (pre ++ QUOTE :: b ++ [QUOTE])
       (bump par ts ++
        [mkToken JSON_TOKEN_STRING (len pre + 1) (len pre + 1 + len b) par 0]))) ->
  wp (ParseString json capacity par key) (St pre ts) Q.
Proof.
  intros Hj Hpar Hc HF HQ. unfold ParseString.
  apply wp_bind, wp_get_position, wp_bind, wp_set_position. unfold St; cbn [tokens position error error_offset].
  replace (len pre + 1) with (len (pre ++ [QUOTE])) in * by (rewrite len_snoc; lia).
  apply (wp_ParseString_loop _ _ r); try done; [by rewrite <- app_assoc | | |].
  - unfold loop_fuel. rewrite Hj, length_app. cbn [length]. lia.
  - pose proof (len_nonneg (pre ++ [QUOTE])). lia.
  - intros b r' -> Hb Hkey Hlt. rewrite <- app_assoc. apply (HQ b r'); try done. intros Hk. by apply Hkey.
Qed.

Lemma wp_ParseLiteral pre r par lit ty ts (Q : bool -> Parser -> Prop) :
  json = pre ++ r -> -1 <= par < len ts -> len ts <= capacity ->
  (forall s, failed s -> Q false s) ->
  (forall r', r = lit ++ r' -> len ts < capacity ->
     Q true (St (pre ++ lit) (bump par ts ++ [mkToken ty (len pre) (len pre + len lit) par 0]))) ->
  wp (ParseLiteral json capacity par lit ty) (St pre ts) Q.
Proof.
  intros Hj Hpar Hc HF HQ. unfold ParseLiteral, St.
  apply wp_bind, wp_get_position. cbn [position].
  destruct (Z.ltb_spec (length_ json) (len pre + len lit)) as [Hl|Hl].
  { apply wp_fail_at; [done | jlia | done | done]. }
  apply wp_bind. unfold wp, readn.
  rewrite (proj2 (Z.leb_le 0 _)), (proj2 (Z.leb_le 0 _)), (proj2 (Z.leb_le _ _))
    by (try done; jlia). cbn [andb].
  assert (Ht : sub json (len pre) (len lit) = take (length lit) r).
  { rewrite Hj. unfold sub, len. by rewrite !Nat2Z.id, drop_app_length. }
  rewrite Ht. destruct (bytes_eqb (take (length lit) r) lit) eqn:E; cbn [negb].
  2:{ apply wp_fail_at; [done | jlia | done | done]. }
  apply bytes_eqb_eq in E. assert (Hr : r = lit ++ drop (length lit) r).
  { rewrite <- E at 1. by rewrite take_drop. }
  apply wp_bind, wp_set_position. cbn [tokens error error_offset].
  apply wp_leaf; [jlia | jlia | jlia | done | done | done |].
  intros Hlt. specialize (HQ _ Hr Hlt). unfold St in HQ. by rewrite len_app in HQ.
Qed.

Lemma wp_require_digits pre r ts (Q : bool -> Parser -> Prop) :
  json = pre ++ r -> len ts <= capacity ->
  (forall s, failed s -> Q false s) ->
  (forall d r', r = d ++ r' -> digits1 d -> Q true (St (pre ++ d) ts)) ->
  wp (require_digits json) (St pre ts) Q.
Proof.
  intros Hj Hc HF HQ. unfold require_digits. apply wp_bind. eapply wp_peek; [done|].
  destruct r as [|c r].
  { apply wp_bind, wp_get_position, wp_fail_at; [done | unfold St; cbn [position]; jlia | done | done]. }
  destruct (is_digit c) eqn:Ec.
  2:{ apply wp_bind, wp_get_position, wp_fail_at; [done | unfold St; cbn [position]; jlia | done | done]. }
  apply wp_bind. eapply wp_skip_digits; [done|]. intros w r' Hr Hw Hn. apply wp_ret.
  apply (HQ w r'); [done|]. split; [|done]. intros ->. cbn [app] in Hr. subst r'. congruence.
Qed.

Lemma wp_number_sign pre r ts (Q : bool -> Parser -> Prop) :
  json = pre ++ r -> r <> [] -> len ts <= capacity ->
  (forall s, failed s -> Q false s) ->
  (forall sg r', r = sg ++ r' -> r' <> [] -> sg = [] \/ sg = [ch "-"%char] ->
     Q true (St (pre ++ sg) ts)) ->
  wp (number_sign json) (St pre ts) Q.
Proof.
  intros Hj Hne Hc HF HQ. unfold number_sign, St. destruct r as [|c r]; [done|].
  apply wp_bind, wp_get_position, wp_bind, wp_read; cbn [position]; [jlia|].
  assert (Ec : byte_at json (len pre) = c) by (rewrite Hj; apply byte_at_here).
  rewrite Ec; clear Ec. destruct (c =? ch "-"%char) eqn:E.
  - zbool; subst c. apply wp_bind, wp_set_position. cbn [tokens error error_offset].
    destruct (Z.leb_spec (length_ json) (len pre + 1)).
    { apply wp_fail_at; [done | jlia | done | done]. }
    apply wp_ret. specialize (HQ [ch "-"%char] r). unfold St in HQ. rewrite len_snoc in HQ.
    apply HQ; auto. intros ->. jlia.
  - apply wp_ret. rewrite <- (app_nil_r pre). apply (HQ [] (c :: r)); auto.
Qed.

Lemma wp_number_int pre r ts (Q : bool -> Parser -> Prop) :
  json = pre ++ r -> r <> [] -> len ts <= capacity ->
  (forall s, failed s -> Q false s) ->
  (forall i r', r = i ++ r' -> int_text i -> Q true (St (pre ++ i) ts)) ->
  wp (number_int json) (St pre ts) Q.
Proof.
  intros Hj Hne Hc HF HQ. unfold number_int, St. destruct r as [|c r]; [done|].
  apply wp_bind, wp_get_position, wp_bind, wp_read; cbn [position]; [jlia|].
  assert (Ec : byte_at json (len pre) = c) by (rewrite Hj; apply byte_at_here).
  rewrite Ec; clear Ec.
  assert (Hj1 : json = (pre ++ [c]) ++ r) by (by rewrite <- app_assoc).
  assert (Hp1 : len pre + 1 = len (pre ++ [c])) by (by rewrite len_snoc).
  destruct (c =? ch "0"%char) eqn:E.
  - zbool; subst c. apply wp_bind, wp_set_position. cbn [tokens error error_offset].
    rewrite Hp1. apply wp_bind. eapply wp_peek; [done|].
    destruct r as [|c r]; [|destruct (is_digit c)].
    + apply wp_ret. apply (HQ [ch "0"%char] []); [done | by left].
    + apply wp_fail_at; [done | jlia | done | done].
    + apply wp_ret. apply (HQ [ch "0"%char] (c :: r)); [done | by left].
  - destruct (in_range (ch "1"%char) (ch "9"%char) c) eqn:E9.
    2:{ apply wp_fail_at; [done | jlia | done | done]. }
    apply wp_bind, wp_set_position. cbn [tokens error error_offset]. rewrite Hp1.
    apply wp_bind. eapply wp_skip_digits; [done|]. intros w r' -> Hw Hn. apply wp_ret.
    rewrite <- app_assoc. apply (HQ (c :: w) r'); [done|]. right. by exists c, w.
Qed.

Lemma wp_number_frac pre r ts (Q : bool -> Parser -> Prop) :
  json = pre ++ r -> len ts <= capacity ->
  (forall s, failed s -> Q false s) ->
  (forall f r', r = f ++ r' -> frac_text f -> Q true (St (pre ++ f) ts)) ->
  wp (number_frac json) (St pre ts) Q.
Proof.
  intros Hj Hc HF HQ. unfold number_frac. apply wp_bind. eapply wp_peek; [done|].
  destruct r as [|c r]; [|destruct (c =? ch "."%char) eqn:E].
  - apply wp_ret. rewrite <- (app_nil_r pre). apply (HQ [] []); [done | by left].
  - zbool; subst c. apply wp_bind, wp_get_position, wp_bind, wp_set_position.
    unfold St. cbn [position tokens error error_offset]. rewrite <- (len_snoc pre (ch "."%char)).
    apply (wp_require_digits _ r); [by rewrite <- app_assoc | done | done |].
    intros d r' -> Hd. rewrite <- app_assoc. apply (HQ (ch "."%char :: d) r'); [done|].
    right. by exists d.
  - apply wp_ret. rewrite <- (app_nil_r pre). apply (HQ [] (c :: r)); [done | by left].
Qed.

Lemma wp_number_exp pre r ts (Q : bool -> Parser -> Prop) :
  json = pre ++ r -> len ts <= capacity ->
  (forall s, failed s -> Q false s) ->
  (forall e r', r = e ++ r' -> exp_text e -> Q true (St (pre ++ e) ts)) ->
  wp (number_exp json) (St pre ts) Q.
Proof.
  intros Hj Hc HF HQ. unfold number_exp. apply wp_bind. eapply wp_peek; [done|].
  destruct r as [|c r].
  { apply wp_ret. rewrite <- (app_nil_r pre). apply (HQ [] []); [done | by left]. }
  destruct ((c =? ch "e"%char) || (c =? ch "E"%char)) eqn:E.
  2:{ apply wp_ret. rewrite <- (app_nil_r pre). apply (HQ [] (c :: r)); [done | by left]. }
  apply wp_bind, wp_get_position, wp_bind, wp_set_position.
  unfold St. cbn [position tokens error error_offset]. rewrite <- (len_snoc pre c).
  assert (Hj1 : json = (pre ++ [c]) ++ r) by (by rewrite <- app_assoc).
  assert (Hm : c = ch "e"%char \/ c = ch "E"%char).
  { apply orb_true_iff in E as [E|E]; zbool; auto. }
  assert (HD : forall sg r1, r = sg ++ r1 ->
    (sg = [] \/ sg = [ch "+"%char] \/ sg = [ch "-"%char]) ->
    wp (require_digits json) (St ((pre ++ [c]) ++ sg) ts) Q).
  { intros sg r1 -> Hsg. apply (wp_require_digits _ r1); [by rewrite <- app_assoc | done | done |].
    intros d r' -> Hd. rewrite <- !app_assoc. apply (HQ (c :: sg ++ d) r').
    - cbn [app]. by rewrite <- app_assoc.
    - right. exists c, sg, d. done. }
  apply wp_bind. eapply wp_peek; [done|]. destruct r as [|g r].
  { apply wp_bind, wp_ret. rewrite <- (app_nil_r (pre ++ [c])). apply (HD [] []); auto. }
  destruct ((g =? ch "+"%char) || (g =? ch "-"%char)) eqn:Eg.
  2:{ apply wp_bind, wp_ret. rewrite <- (app_nil_r (pre ++ [c])). apply (HD [] (g :: r)); auto. }
  apply wp_bind, wp_bind, wp_get_position, wp_set_position.
  unfold St. cbn [position tokens error error_offset]. rewrite <- (len_snoc (pre ++ [c]) g).
  apply (HD [g] r); [done|]. apply orb_true_iff in Eg as [Eg|Eg]; zbool; subst; auto.
Qed.

Lemma wp_ParseNumber pre r par ts (Q : bool -> Parser -> Prop) :
  json = pre ++ r -> r <> [] -> -1 <= par < len ts -> len ts <= capacity ->
  (forall s, failed s -> Q false s) ->
  (forall t r', r = t ++ r' -> number_text t -> len ts < capacity ->
     Q true (St (pre ++ t)
       (bump par ts ++ [mkToken JSON_TOKEN_NUMBER (len pre) (len pre + len t) par 0]))) ->
  wp (ParseNumber json capacity par) (St pre ts) Q.
Proof.
  intros Hj Hne Hpar Hc HF HQ. unfold ParseNumber. apply wp_bind, wp_get_position.
  assert (Hfalse : forall s, failed s -> wp (ret false) s Q) by (intros; by apply wp_ret, HF).
  apply wp_bind. eapply wp_number_sign; [done | done | done | exact Hfalse |].
  intros sg r1 -> Hne1 Hsg. rewrite app_assoc in Hj. cbn [negb].
  apply wp_bind. eapply wp_number_int; [done | done | done | exact Hfalse |].
  intros i r2 -> Hi. rewrite app_assoc in Hj. cbn [negb].
  apply wp_bind. eapply wp_number_frac; [done | done | exact Hfalse |].
  intros f r3 -> Hf. rewrite app_assoc in Hj. cbn [negb].
  apply wp_bind. eapply wp_number_exp; [done | done | exact Hfalse |].
  intros e r4 -> He. rewrite app_assoc in Hj. cbn [negb].
  set (t := sg ++ i ++ f ++ e). rewrite <- !app_assoc in Hj |- *. fold t.
  assert (Hnum : number_text t) by (exists sg, i, f, e; done).
  assert (Hj2 : json = pre ++ t ++ r4) by (unfold t; rewrite Hj, <- !app_assoc; done).
  specialize (HQ t r4). unfold t in HQ at 1. rewrite <- !app_assoc in HQ.
  specialize (HQ eq_refl Hnum). clearbody t. clear Hj. unfold St. cbn [position].
  apply wp_bind, wp_AddToken; [jlia | jlia | done | done | by intros Hx; apply wp_ret, HF |].
  intros Hlt. pose proof (len_nonneg ts). rewrite (proj2 (Z.ltb_ge (len ts) 0)) by lia.
  apply wp_bind, wp_get_position, wp_bind, wp_set_end; cbn [tokens position error error_offset].
  { rewrite len_snoc, len_bump. lia. }
  apply wp_ret. rewrite <- (len_bump par ts) at 1. rewrite alter_last.
  cbn [type start parent child_count]. rewrite u32_offset by jlia.
  rewrite <- len_app in HQ. by apply HQ.
Qed.

(** *** Containers: the token array seen as [P ++ container :: S] *)
Definition cont (ty : JsonTokenType) (s e par k : Z) : JsonToken := mkToken ty s e par k.

Lemma lookup_mid {A} (P S : list A) x : (P ++ x :: S) !! Z.to_nat (len P) = Some x.
Proof. unfold len. rewrite Nat2Z.id. by apply list_lookup_middle. Qed.

Lemma alter_mid {A} (f : A -> A) (P S : list A) x :
  alter f (Z.to_nat (len P)) (P ++ x :: S) = P ++ f x :: S.
Proof. unfold len. rewrite Nat2Z.id, alter_app_r_alt by lia. by rewrite Nat.sub_diag. Qed.

Lemma bump_mid P S ty s e par k : 0 <= k < 2 ^ 32 - 1 ->
  bump (len P) (P ++ mkToken ty s e par k :: S) = P ++ mkToken ty s e par (k + 1) :: S.
Proof.
  intros Hk. unfold bump. rewrite (proj2 (Z.leb_le 0 _)) by apply len_nonneg.
  rewrite alter_mid. unfold bump_child. cbn [type start tok_end parent child_count].
  unfold u32. rewrite Z.mod_small by lia. done.
Qed.

Lemma wp_element_tail pre r P S ty s0 e0 par k close (Q : bool + unit -> Parser -> Prop) :
  let ts := P ++ mkToken ty s0 e0 par k :: S in
  json = pre ++ r -> len ts <= capacity -> is_ws close = false ->
  (forall s, failed s -> Q (inl false) s) ->
  (forall w r', r = w ++ close :: r' -> ws w ->
     Q (inl true) (St (pre ++ w ++ [close])
       (P ++ mkToken ty s0 (len pre + len w + 1) par k :: S))) ->
  (forall w w' r', r = w ++ ch ","%char :: w' ++ r' -> ws w -> ws w' ->
     Q (inr tt) (St (pre ++ w ++ ch ","%char :: w') ts)) ->
  wp (element_tail json (len P) close) (St pre ts) Q.
Proof.
  intros ts Hj Hc Hws HF HT HN. unfold element_tail. apply wp_bind.
  eapply wp_SkipWhitespace; [done|]. intros w r1 -> Hw Hn. rewrite app_assoc in Hj.
  apply wp_bind, wp_get_position. unfold St; cbn [position].
  assert (HF' : forall e off p, e <> JSON_OK -> 0 <= off <= len json ->
    wp (bind (fail_false e off) (fun b => ret (inl b))) (mkParser p ts JSON_OK 0) Q).
  { intros. apply wp_bind, wp_fail_at; [done | done | done |]. intros s Hs. by apply wp_ret, HF. }
  destruct (Z.leb_spec (length_ json) (len (pre ++ w))) as [Hl|Hl].
  { apply HF'; [done | jlia]. }
  destruct r1 as [|c r1]; [jlia|]. apply wp_bind, wp_read; [jlia|].
  assert (Ec : byte_at json (len (pre ++ w)) = c) by (rewrite Hj; apply byte_at_here).
  rewrite Ec; clear Ec. destruct (c =? close) eqn:Ecl.
  { zbool; subst c. apply wp_bind, wp_set_position. unfold St; cbn [tokens error error_offset].
    apply wp_bind, wp_set_end; cbn [tokens error error_offset position].
    { unfold ts. rewrite len_app, len_cons. len_facts. lia. }
    unfold ts. rewrite alter_mid. cbn [type start parent child_count].
    rewrite u32_offset by jlia. apply wp_ret. specialize (HT w r1 eq_refl Hw). unfold St in HT.
    rewrite app_assoc, len_snoc in HT. by rewrite len_app in *. }
  destruct (c =? ch ","%char) eqn:Ecm; cbn [negb].
  2:{ apply HF'; [done | jlia]. }
  zbool; subst c. apply wp_bind, wp_set_position. unfold St; cbn [tokens error error_offset].
  rewrite <- (len_snoc _ (ch ","%char)). apply wp_bind.
  eapply wp_SkipWhitespace; [exact (eq_trans Hj (app_assoc _ [ch ","%char] r1))|].
  intros w' r2 -> Hw' Hn'. apply wp_ret. specialize (HN w w' r2 eq_refl Hw Hw').
  rewrite <- !app_assoc. done.
Qed.

(** The pre-order image of a tree: only its root has the parent index [par]. *)


(** *** Duplicate keys *)
Definition direct (a : Z) (l : list JsonToken) : Z := len (filter (fun t => parent t = a) l).

Lemma direct_app a l1 l2 : direct a (l1 ++ l2) = direct a l1 + direct a l2.
Proof. unfold direct. by rewrite filter_app, len_app. Qed.

Lemma direct_one a t : direct a [t] = if decide (parent t = a) then 1 else 0.
Proof. unfold direct. rewrite filter_cons, filter_nil. by destruct (decide _). Qed.

Lemma direct_none a l i : a < i -> Forall (fun x => i <= parent x) l -> direct a l = 0.
Proof.
  intros Hi H. unfold direct. induction H as [|x l Hx Hl IH]; [done|].
  rewrite filter_cons. destruct (decide _); [lia | done].
Qed.

Lemma ordinal_at P obj F1 c F2 :
  ordinal (P ++ obj :: F1 ++ c :: F2) (len P) (len P + 1 + len F1) = direct (len P) (F1 ++ [c]).
Proof.
  unfold ordinal, direct. f_equal. f_equal. unfold sub, len.
  replace (Z.to_nat (Z.of_nat (length P) + 1)) with (S (length P)) by lia.
  rewrite drop_app_cons_length.
  replace (Z.to_nat _) with (length (F1 ++ [c])) by (rewrite length_app; cbn [length]; lia).
  replace (F1 ++ c :: F2) with ((F1 ++ [c]) ++ F2) by (by rewrite <- app_assoc).
  by rewrite take_app_length.
Qed.

Lemma duplicate_skip ts a newest F2 tail i :
  Forall (fun x => a < parent x) F2 ->
  duplicate_loop json ts a newest (F2 ++ tail) i =
  duplicate_loop json ts a newest tail (i + len F2).
Proof.
  intros H. induction H as [|x F2 Hx Hf IH] in i |- *.
  { cbn [app]. f_equal. rewrite len_nil. lia. }
  cbn [app duplicate_loop]. unfold duplicate_at at 1.
  rewrite (bool_decide_eq_false_2 (parent x = a)) by lia. cbn [andb].
  rewrite IH. f_equal. rewrite len_cons. lia.
Qed.

Lemma duplicate_loop_spec P obj newest n ms F1 tail :
  let a := len P in
  Forall (fun m : bytes * Z * jtree => sub json m.1.2 (len m.1.1) = m.1.1) ms ->
  token_text json newest = n -> Z.even (direct a F1) = true ->
  forall ts i, i = a + 1 + len F1 ->
  ts = P ++ obj :: F1 ++ flatten_members a i ms ++ tail ->
  duplicate_loop json ts a newest (flatten_members a i ms) i =
  existsb (fun m => bytes_eqb (member_key m) n) ms.
Proof.
  intros a Hm Hn. induction ms as [|[[k ks] t] ms IH] in F1, Hm |- *; intros He ts i Hi Hts; [done|].
  apply Forall_cons in Hm as [Hk Hm]. cbn [fst snd] in Hk.
  cbn [flatten_members] in Hts |- *.
  set (kt := mkToken JSON_TOKEN_STRING ks (ks + len k) a 0) in *.
  destruct (flatten_shape t a (i + 1)) as (t0 & rest & E & Hp & Hr).
  cbn [duplicate_loop existsb].
  assert (Hord : ordinal ts a i = direct a F1 + 1).
  { rewrite Hts, Hi. cbn [app]. unfold a at 1 2. rewrite ordinal_at, direct_app, direct_one.
    unfold kt. cbn [parent]. by rewrite decide_True. }
  assert (Hdup : duplicate_at json ts a newest kt i = bytes_eqb k n).
  { unfold duplicate_at. rewrite Hord. unfold kt. cbn [parent type].
    rewrite !bool_decide_eq_true_2 by done. cbn [andb].
    rewrite Z.add_1_r, Z.odd_succ, He. cbn [andb]. unfold token_text at 1. cbn [start tok_end].
    replace (ks + len k - ks) with (len k) by lia. by rewrite Hk, Hn. }
  rewrite Hdup. unfold member_key at 1. cbn [fst]. destruct (bytes_eqb k n); [done|].
  cbn [orb]. rewrite E. cbn [app duplicate_loop].
  assert (Hord2 : ordinal ts a (i + 1) = direct a F1 + 2).
  { rewrite Hts, E, Hi. cbn [app].
    replace (F1 ++ kt :: t0 :: (rest ++ flatten_members a (a + 1 + len F1 + 1 + len (t0 :: rest)) ms) ++ tail)
      with ((F1 ++ [kt]) ++ t0 :: (rest ++ flatten_members a (a + 1 + len F1 + 1 + len (t0 :: rest)) ms) ++ tail)
      by (by rewrite <- app_assoc).
    replace (a + 1 + len F1 + 1) with (len P + 1 + len (F1 ++ [kt])) at 2 by (rewrite len_snoc; unfold a; lia).
    unfold a at 1. rewrite ordinal_at, !direct_app, !direct_one.
    fold a. rewrite Hp. unfold kt. cbn [parent]. rewrite !decide_True by done. lia. }
  assert (Hd0 : duplicate_at json ts a newest t0 (i + 1) = false).
  { unfold duplicate_at. rewrite Hord2.
    replace (Z.odd (direct a F1 + 2)) with false.
    - by rewrite andb_false_r.
    - rewrite Z.odd_add, <- Z.negb_even, He. done. }
  rewrite Hd0, duplicate_skip.
  2:{ eapply Forall_impl; [exact Hr|]. cbn. intros x Hx. len_facts. lia. }
  replace (i + 1 + 1 + len rest) with (i + 1 + len (t0 :: rest)) by (rewrite len_cons; lia).
  apply (IH (F1 ++ kt :: t0 :: rest)); [done | | |].
  - replace (F1 ++ kt :: t0 :: rest) with (F1 ++ [kt] ++ [t0] ++ rest) by done.
    rewrite !direct_app, !direct_one, Hp, (direct_none a rest (i + 1)); [|unfold a in *; len_facts; lia | done].
    unfold kt. cbn [parent]. rewrite !decide_True by done.
    rewrite Z.even_add, He. done.
  - rewrite !len_app, !len_cons. lia.
  - rewrite Hts, E. cbn [app]. f_equal. f_equal. rewrite <- !app_assoc. done.
Qed.

Definition keys_in_text (ms : list (bytes * Z * jtree)) : Prop :=
  Forall (fun m : bytes * Z * jtree => sub json m.1.2 (len m.1.1) = m.1.1) ms.

Lemma existsb_key ms k :
  existsb (fun m => bytes_eqb (member_key m) k) ms = false -> k ∉ map member_key ms.
Proof.
  induction ms as [|m ms IH]; cbn [existsb map]; [set_solver|].
  intros H. apply orb_false_iff in H as [H1 H2]. apply bytes_eqb_neq in H1. set_solver.
Qed.

Lemma wp_HasDuplicateObjectKey P obj ms0 k ks pre (Q : bool -> Parser -> Prop) :
  let a := len P in
  let ts := P ++ obj :: flatten_members a (a + 1) ms0 ++
              [mkToken JSON_TOKEN_STRING ks (ks + len k) a 0] in
  keys_in_text ms0 -> sub json ks (len k) = k ->
  Q (existsb (fun m => bytes_eqb (member_key m) k) ms0) (St pre ts) ->
  wp (HasDuplicateObjectKey json a (len P + 1 + len (flatten_members a (a + 1) ms0)))
     (St pre ts) Q.
Proof.
  intros a ts Hms Hk HQ. unfold HasDuplicateObjectKey, get_tokens, wp, bind.
  unfold St in *; cbn [tokens].
  set (F := flatten_members a (a + 1) ms0) in *.
  set (kt := mkToken JSON_TOKEN_STRING ks (ks + len k) a 0) in *.
  assert (Hts : ts = (P ++ obj :: F) ++ [kt]) by (unfold ts; by rewrite <- app_assoc).
  replace (len P + 1 + len F) with (len (P ++ obj :: F)) by (rewrite len_app, len_cons; lia).
  assert (Hlook : ts !! Z.to_nat (len (P ++ obj :: F)) = Some kt)
    by (rewrite Hts; apply lookup_mid).
  rewrite Hlook. unfold ret. cbn beta iota.
  assert (Hsub : sub ts (a + 1) (len (P ++ obj :: F) - a - 1) = F).
  { unfold ts, sub, a, len. replace (Z.to_nat (Z.of_nat (length P) + 1)) with (S (length P)) by lia.
    rewrite drop_app_cons_length.
    replace (Z.to_nat _) with (length F) by (rewrite length_app; cbn [length]; lia).
    by rewrite take_app_length. }
  rewrite Hsub. unfold F.
  erewrite (duplicate_loop_spec P obj kt k ms0 [] [kt]); [exact HQ | done | | done | | done].
  - unfold token_text, kt. cbn [start tok_end]. by replace (ks + len k - ks) with (len k) by lia.
  - fold a. rewrite len_nil. lia.
Qed.

Lemma wp_member_head pre r P ty s0 e0 par k ms0 (Q : bool -> Parser -> Prop) :
  let a := len P in
  let F := flatten_members a (a + 1) ms0 in
  let ts := P ++ mkToken ty s0 e0 par k :: F in
  json = pre ++ r -> r <> [] -> len ts <= capacity -> 0 <= k <= len json -> keys_in_text ms0 ->
  (forall s, failed s -> Q false s) ->
  (forall key w r', r = QUOTE :: key ++ QUOTE :: w ++ ch ":"%char :: r' -> ws w -> key_text key ->
     key ∉ map member_key ms0 -> len ts < capacity ->
     Q true (St (pre ++ QUOTE :: key ++ QUOTE :: w ++ [ch ":"%char])
       (P ++ mkToken ty s0 e0 par (k + 1) :: F ++
        [mkToken JSON_TOKEN_STRING (len pre + 1) (len pre + 1 + len key) a 0]))) ->
  wp (member_head json capacity a) (St pre ts) Q.
Proof.
  intros a F ts Hj Hne Hc Hk Hms HF HQ. unfold member_head. destruct r as [|c r]; [done|].
  apply wp_bind, wp_get_position, wp_bind, wp_read; unfold St; cbn [position]; [jlia|].
  assert (Ec : byte_at json (len pre) = c) by (rewrite Hj; apply byte_at_here).
  rewrite Ec; clear Ec. destruct (c =? QUOTE) eqn:E; cbn [negb].
  2:{ apply wp_fail_at; [done | jlia | done | done]. }
  zbool; subst c. apply wp_bind.
  assert (Ha : -1 <= a < len ts).
  { unfold ts, a. rewrite len_app, len_cons. len_facts. lia. }
  eapply wp_ParseString; [exact Hj | done | done | |].
  { intros s Hs. by apply wp_ret, HF. }
  intros key r1 -> Hb Hkey Hlt. specialize (Hkey eq_refl).
  pose proof (len_nonneg ts). rewrite (proj2 (Z.ltb_ge (len ts) 0)) by lia.
  unfold ts, a. rewrite bump_mid by (unfold kMaximumJsonBytes in Hsize; lia). fold a.
  set (kt := mkToken JSON_TOKEN_STRING (len pre + 1) (len pre + 1 + len key) a 0).
  rewrite <- app_assoc, <- app_comm_cons.
  assert (Hsub : sub json (len pre + 1) (len key) = key).
  { rewrite Hj. replace (len pre + 1) with (len (pre ++ [QUOTE])) by (by rewrite len_snoc).
    replace (pre ++ QUOTE :: key ++ QUOTE :: r1) with ((pre ++ [QUOTE]) ++ key ++ QUOTE :: r1)
      by (by rewrite <- app_assoc). by apply sub_app. }
  apply wp_bind. fold ts.
  replace (len ts) with (len P + 1 + len F) by (unfold ts; rewrite len_app, len_cons; lia).
  eapply wp_HasDuplicateObjectKey; [done | done |].
  destruct (existsb _ ms0) eqn:Ed.
  { apply wp_bind, wp_get_tokens. unfold St; cbn [tokens].
    assert (Hlook : (P ++ mkToken ty s0 e0 par (k + 1) :: F ++ [kt]) !!
      Z.to_nat (len P + 1 + len F) = Some kt).
    { replace (len P + 1 + len F) with (len (P ++ mkToken ty s0 e0 par (k + 1) :: F))
        by (rewrite len_app, len_cons; lia).
      rewrite app_comm_cons, app_assoc. apply lookup_mid. }
    unfold kt, F, a in Hlook |- *. rewrite Hlook. cbn [start].
    apply wp_fail_at; [done | jlia | | done]. fold a F.
    unfold ts in Hlt. rewrite len_app, len_cons, len_snoc in *. lia. }
  apply existsb_key in Ed.
  assert (Hj2 : json = (pre ++ QUOTE :: key ++ [QUOTE]) ++ r1).
  { rewrite Hj, <- app_assoc. cbn [app]. by rewrite <- app_assoc. }
  assert (Hc2 : len (P ++ mkToken ty s0 e0 par (k + 1) :: F ++ [kt]) <= capacity).
  { unfold ts in Hlt. rewrite len_app, len_cons, ?len_snoc in *. lia. }
  apply wp_bind. eapply wp_SkipWhitespace; [exact Hj2|]. intros w r2 -> Hw Hn.
  rewrite app_assoc in Hj2. apply wp_bind. eapply wp_peek; [exact Hj2|].
  apply wp_bind, wp_get_position. unfold St; cbn [position].
  destruct r2 as [|c r2]; [|destruct (c =? ch ":"%char) eqn:Ecol]; cbn [negb].
  - apply wp_fail_at; [done | jlia | done | done].
  - zbool; subst c. apply wp_bind, wp_set_position, wp_ret. cbn [tokens error error_offset].
    specialize (HQ key w r2 eq_refl Hw Hkey Ed Hlt). unfold St in HQ.
    replace (len ((pre ++ QUOTE :: key ++ [QUOTE]) ++ w) + 1) with
      (len (pre ++ QUOTE :: key ++ QUOTE :: w ++ [ch ":"%char])); [done|].
    unfold len. rewrite !length_app. cbn [length]. rewrite !length_app. cbn [length]. rewrite !length_app. cbn [length]. lia.
  - apply wp_fail_at; [done | jlia | done | done].
Qed.


(** *** The recursion: one induction hypothesis per mutually recursive function *)
Definition value_ok (n : nat) : Prop := forall pre r par depth ts (Q : bool -> Parser -> Prop),
  json = pre ++ r -> (3 * length r + 1 <= n)%nat -> -1 <= par < len ts -> len ts <= capacity ->
  0 <= depth ->
  (forall s, failed s -> Q false s) ->
  (forall w text r' t, r = w ++ text ++ r' -> ws w ->
     spells (Z.to_nat (max_depth - depth)) (len pre + len w) text t ->
     len (ts ++ flatten par (len ts) t) <= capacity ->
     Q true (St (pre ++ w ++ text) (bump par ts ++ flatten par (len ts) t))) ->
  wp (ParseValue json capacity max_depth n par depth) (St pre ts) Q.

Definition open_char (is_object : bool) : Z := if is_object then ch "{"%char else ch "["%char.
Definition container_ok (n : nat) : Prop := forall b pre r par depth ts (Q : bool -> Parser -> Prop),
  json = pre ++ open_char b :: r -> (3 * length r + 3 <= n)%nat ->
  -1 <= par < len ts -> len ts <= capacity -> 0 <= depth ->
  (forall s, failed s -> Q false s) ->
  (forall text r' t, open_char b :: r = text ++ r' ->
     spells (S (Z.to_nat (max_depth - depth))) (len pre) text t ->
     len (ts ++ flatten par (len ts) t) <= capacity ->
     Q true (St (pre ++ text) (bump par ts ++ flatten par (len ts) t))) ->
  wp (ParseContainer json capacity max_depth n b par depth) (St pre ts) Q.

Definition array_loop_ok (n : nat) : Prop :=
  forall pre r P S s0 e0 par k depth (Q : bool -> Parser -> Prop),
  let ts := P ++ mkToken JSON_TOKEN_ARRAY s0 e0 par k :: S in
  json = pre ++ r -> (3 * length r + 2 <= n)%nat -> len ts <= capacity -> 0 <= k <= len pre ->
  0 <= depth -> (forall s, failed s -> Q false s) ->
  (forall w text r' el, r = w ++ text ++ ch "]"%char :: r' -> ws w ->
     elements (Z.to_nat (max_depth - depth)) (len pre + len w) text el ->
     let out := P ++ mkToken JSON_TOKEN_ARRAY s0 (len pre + len w + len text + 1) par (k + len el)
                  :: S ++ flatten_elems (len P) (len ts) el in
     len out <= capacity ->
     Q true (St (pre ++ w ++ text ++ [ch "]"%char]) out)) ->
  wp (container_loop json capacity max_depth n false (len P) depth) (St pre ts) Q.

Definition object_loop_ok (n : nat) : Prop :=
  forall pre r P ms0 s0 e0 par k depth (Q : bool -> Parser -> Prop),
  let a := len P in
  let ts := P ++ mkToken JSON_TOKEN_OBJECT s0 e0 par k :: flatten_members a (a + 1) ms0 in
  json = pre ++ r -> (3 * length r + 2 <= n)%nat -> len ts <= capacity -> 0 <= k <= len pre ->
  0 <= depth -> keys_in_text ms0 -> NoDup (map member_key ms0) ->
  (forall s, failed s -> Q false s) ->
  (forall text r' ms, r = text ++ ch "}"%char :: r' ->
     members (Z.to_nat (max_depth - depth)) (len pre) text ms ->
     NoDup (map member_key (ms0 ++ ms)) ->
     let out := P ++ mkToken JSON_TOKEN_OBJECT s0 (len pre + len text + 1) par (k + 2 * len ms)
                  :: flatten_members a (a + 1) (ms0 ++ ms) in
     len out <= capacity ->
     Q true (St (pre ++ text ++ [ch "}"%char]) out)) ->
  wp (container_loop json capacity max_depth n true a depth) (St pre ts) Q.

Lemma flatten_members_app a i ms0 ms :
  flatten_members a i (ms0 ++ ms) =
  flatten_members a i ms0 ++ flatten_members a (i + len (flatten_members a i ms0)) ms.
Proof.
  induction ms0 as [|[[k ks] t] ms0 IH] in i |- *.
  { cbn [app flatten_members]. rewrite len_nil. by rewrite Z.add_0_r. }
  cbn [app flatten_members]. rewrite IH, len_cons, len_app, <- app_assoc. do 4 f_equal. lia.
Qed.

Lemma value_step n : container_ok n -> value_ok (S n).
Proof.
  intros HC pre r par depth ts Q Hj Hn Hpar Hc Hd HF HQ. cbn [ParseValue]. unfold value_body.
  apply wp_bind, wp_get_position. pos.
  destruct (Z.leb_spec max_depth depth) as [Hdep|Hdep].
  { apply wp_fail_at; [done | jlia | done | done]. }
  apply wp_bind. eapply wp_SkipWhitespace; [exact Hj|]. intros w r1 -> Hw Hns.
  rewrite app_assoc in Hj. apply wp_bind, wp_get_position. pos.
  destruct (Z.leb_spec (length_ json) (len (pre ++ w))) as [Hl|Hl].
  { apply wp_fail_at; [done | pos; jlia | done | done]. }
  destruct r1 as [|c r1]; [jlia|].
  apply wp_bind, wp_read; [pos; jlia|].
  assert (Ec : byte_at json (len (pre ++ w)) = c) by (rewrite Hj; apply byte_at_here).
  pos. rewrite Ec; clear Ec.
  assert (Hdn : Z.to_nat (max_depth - depth) = S (Z.to_nat (max_depth - (depth + 1)))) by lia.
  assert (HV : forall text r' t, c :: r1 = text ++ r' ->
     spells (Z.to_nat (max_depth - depth)) (len (pre ++ w)) text t ->
     len (ts ++ flatten par (len ts) t) <= capacity ->
     Q true (St ((pre ++ w) ++ text) (bump par ts ++ flatten par (len ts) t))).
  { intros text r' t Hr Hs Hcap. rewrite <- app_assoc. apply (HQ w text r' t); try done.
    - by rewrite Hr.
    - by rewrite len_app in Hs. }
  assert (HB : forall b, c = open_char b ->
     wp (ParseContainer json capacity max_depth n b par (depth + 1)) (St (pre ++ w) ts) Q).
  { intros b ->. apply (HC b _ r1); try done; try lia.
    - rewrite length_app in Hn. cbn [length] in Hn. lia.
    - intros text r' t Hr Hs Hcap. apply (HV text r' t); [done | by rewrite Hdn | done]. }
  assert (HL : forall text r' ty s e, c :: r1 = text ++ r' ->
     leaf_spells (len (pre ++ w)) text (JLeaf ty s e) -> len ts < capacity ->
     Q true (St ((pre ++ w) ++ text) (bump par ts ++ [mkToken ty s e par 0]))).
  { intros text r' ty s e Hr Hs Hcap. apply (HV text r' (JLeaf ty s e)); [done | |].
    - rewrite Hdn. by constructor.
    - cbn [flatten]. rewrite len_snoc. lia. }
  destruct (c =? ch "{"%char) eqn:E1; [zbool; by apply (HB true)|].
  destruct (c =? ch "["%char) eqn:E2; [zbool; by apply (HB false)|].
  destruct (c =? QUOTE) eqn:E3.
  { zbool; subst c. apply wp_bind. eapply wp_ParseString; [exact Hj | done | done | |].
    - intros s Hs. by apply wp_ret, HF.
    - intros b r' -> Hb _ Hlt. pose proof (len_nonneg ts). apply wp_ret.
      rewrite (proj2 (Z.leb_le 0 (len ts))) by lia. eapply (HL _ r'); [|by constructor|done].
      cbn [app]. by rewrite <- app_assoc. }
  assert (HLit : forall lit ty, leaf_spells (len (pre ++ w)) lit
      (JLeaf ty (len (pre ++ w)) (len (pre ++ w) + len lit)) ->
    wp (ParseLiteral json capacity par lit ty) (St (pre ++ w) ts) Q).
  { intros lit ty Hs. eapply wp_ParseLiteral; [exact Hj | done | done | done |].
    intros r' Hr Hlt. by apply (HL _ r'). }
  destruct (c =? ch "t"%char); [apply HLit, ls_true|].
  destruct (c =? ch "f"%char); [apply HLit, ls_false|].
  destruct (c =? ch "n"%char); [apply HLit, ls_null|].
  destruct ((c =? ch "-"%char) || is_digit c).
  { eapply wp_ParseNumber; [exact Hj | done | done | done | done |].
    intros t r' Hr Ht Hlt. apply (HL _ r'); [done | by constructor | done]. }
  apply wp_fail_at; [done | pos; jlia | done | done].
Qed.

Lemma container_step n : array_loop_ok n -> object_loop_ok n -> container_ok (S n).
Proof.
  intros HA HO b pre r par depth ts Q Hj Hn Hpar Hc Hd HF HQ. cbn [ParseContainer].
  unfold container_body. apply wp_bind, wp_get_position, wp_bind, wp_set_position. pos.
  unfold St; cbn [tokens error error_offset].
  apply wp_bind, wp_AddToken; [jlia | jlia | done | done | by intros Hx; apply wp_ret, HF |].
  intros Hlt. pose proof (len_nonneg ts). rewrite (proj2 (Z.ltb_ge (len ts) 0)) by lia.
  rewrite <- (len_snoc pre (open_char b)).
  change (mkParser (len (pre ++ [open_char b])) ?x JSON_OK 0) with (St (pre ++ [open_char b]) x).
  assert (Hj1 : json = (pre ++ [open_char b]) ++ r) by (by rewrite <- app_assoc).
  apply wp_bind. eapply wp_SkipWhitespace; [exact Hj1|]. intros w r1 -> Hw Hns.
  rewrite app_assoc in Hj1. apply wp_bind. eapply wp_peek; [exact Hj1|].
  apply wp_bind, wp_get_position. pos.
  set (ty := if b then JSON_TOKEN_OBJECT else JSON_TOKEN_ARRAY).
  rewrite length_app in Hn.
  assert (Hlen1 : len (pre ++ [open_char b]) = len pre + 1) by apply len_snoc.
  assert (Hout : forall t0 rest r' text t,
    open_char b :: w ++ r1 = text ++ r' ->
    spells (S (Z.to_nat (max_depth - depth))) (len pre) text t ->
    flatten par (len ts) t = t0 :: rest ->
    len (bump par ts ++ t0 :: rest) <= capacity ->
    Q true (St (pre ++ text) (bump par ts ++ t0 :: rest))).
  { intros t0 rest r' text t Hr Hs Hfl Hcap. rewrite <- Hfl. apply (HQ text r'); try done.
    rewrite Hfl. by rewrite len_app, len_bump in *. }
  assert (Hne : match r1 with c :: _ => c =? close_char b | [] => false end = true ->
    exists r2, r1 = close_char b :: r2).
  { destruct r1 as [|c r1]; [done|]. intros E. zbool. subst. eauto. }
  destruct (match r1 with c :: _ => c =? close_char b | [] => false end) eqn:Eb.
  - destruct (Hne eq_refl) as [r2 ->]. apply wp_bind, wp_set_position.
    unfold St; cbn [tokens error error_offset].
    apply wp_bind, wp_set_end; cbn [tokens error error_offset position].
    { rewrite len_snoc, len_bump. lia. }
    apply wp_ret. rewrite <- (len_bump par ts) at 1. rewrite alter_last.
    cbn [type start parent child_count]. rewrite u32_offset by jlia.
    rewrite <- (len_snoc _ (close_char b)), <- !app_assoc.
    unfold St in Hout. replace (len (pre ++ [open_char b] ++ w ++ [close_char b]))
      with (len pre + 2 + len w) at 2 by (unfold len; rewrite !length_app; cbn [length]; lia).
    refine (Hout _ [] r2 (open_char b :: w ++ [close_char b])
      (if b then JObj (len pre) (len pre + 2 + len w) []
       else JArr (len pre) (len pre + 2 + len w) []) _ _ _ _).
    + cbn [app]. by rewrite <- app_assoc.
    + destruct b; [by apply sp_obj_empty | by apply sp_arr_empty].
    + by destruct b.
    + rewrite len_snoc, len_bump. lia.
  - destruct b.
    + replace (len ts) with (len (bump par ts)) by apply len_bump.
      apply (HO _ r1 _ []); [exact Hj1 | lia | cbn [flatten_members]; rewrite len_snoc, len_bump; lia
        | len_facts; lia | done | constructor | constructor | done |].
      intros text r' ms -> Hms Hnd out Hcap. cbn [app] in *. rewrite <- !app_assoc.
      refine (Hout _ _ r' (open_char true :: w ++ text ++ [ch "}"%char]) (JObj (len pre)
        (len pre + 2 + len w + len text) ms) _ _ _ _).
      * cbn [app]. by rewrite <- !app_assoc.
      * apply sp_obj; [done | | done]. by rewrite len_app, Hlen1 in Hms.
      * rewrite flatten_JObj, len_bump. f_equal. f_equal. rewrite len_app, Hlen1. lia.
      * done.
    + replace (len ts) with (len (bump par ts)) by apply len_bump.
      apply (HA _ r1 _ []); [exact Hj1 | lia | rewrite len_snoc, len_bump; lia
        | len_facts; lia | done | done |].
      intros w2 text r' el -> Hw2 Hel out Hcap. cbn [app] in *. rewrite <- !app_assoc.
      replace (pre ++ [open_char false] ++ w ++ w2 ++ text ++ [ch "]"%char])
        with (pre ++ open_char false :: (w ++ w2) ++ text ++ [ch "]"%char])
        by (cbn [app]; by rewrite <- app_assoc).
      refine (Hout _ _ r' (open_char false :: (w ++ w2) ++ text ++ [ch "]"%char]) (JArr (len pre)
        (len pre + 2 + len (w ++ w2) + len text) el) _ _ _ _).
      * cbn [app]. by rewrite <- !app_assoc.
      * apply sp_arr; [by apply Forall_app|]. rewrite !len_app in *. change (len [open_char false]) with 1 in Hel.
        by replace (len pre + 1 + (len w + len w2)) with (len pre + 1 + len w + len w2) by lia.
      * rewrite flatten_JArr, len_snoc, len_bump. f_equal. f_equal.
        rewrite !len_app. change (len [open_char false]) with 1. lia.
      * done.
Qed.

Lemma array_loop_step n : value_ok n -> array_loop_ok n -> array_loop_ok (S n).
Proof.
  intros HV HL pre r P S s0 e0 par k depth Q ts Hj Hn Hc Hk Hd HF HQ. cbn [container_loop].
  unfold loop_body. apply wp_bind, wp_get_position. pos.
  destruct (Z.leb_spec (length_ json) (len pre)) as [Hl|Hl].
  { apply wp_fail_at; [done | jlia | done | done]. }
  apply wp_bind, wp_ret. cbn [negb].
  assert (HP : -1 <= len P < len ts) by (unfold ts; rewrite len_app, len_cons; len_facts; lia).
  apply wp_bind. apply (HV pre r); [done | lia | done | done | done | |].
  { intros s Hs. by apply wp_ret, HF. }
  intros w text r1 t -> Hw Hs Hcap. cbn [negb]. unfold ts at 1. rewrite bump_mid.
  2:{ unfold kMaximumJsonBytes in Hsize. jlia. }
  rewrite <- app_assoc, <- app_comm_cons. set (F := flatten (len P) (len ts) t) in *.
  set (ts1 := P ++ mkToken JSON_TOKEN_ARRAY s0 e0 par (k + 1) :: S ++ F).
  assert (Hlts : len ts1 = len ts + len F).
  { unfold ts1, ts. rewrite !len_app, !len_cons, !len_app. lia. }
  pose proof (spells_nonempty _ _ _ _ Hs) as Hne.
  assert (Hj1 : json = (pre ++ w ++ text) ++ r1) by (rewrite Hj; by rewrite <- !app_assoc).
  apply wp_bind. eapply wp_element_tail; [exact Hj1 | | done | | |].
  - fold ts1. rewrite Hlts. by rewrite len_app in Hcap.
  - intros s Hs'. by apply wp_ret, HF.
  - intros w1 r2 -> Hw1. apply wp_ret. rewrite <- !app_assoc.
    specialize (HQ w (text ++ w1) r2 [t]). cbn [flatten_elems] in HQ.
    rewrite app_nil_r, <- !app_assoc in HQ. rewrite !len_app.
    replace (len pre + (len w + len text) + len w1 + 1)
      with (len pre + len w + len (text ++ w1) + 1) by (rewrite len_app; lia).
    apply HQ; [done | done | by apply el_one |]. fold F.
    rewrite len_app in Hcap. unfold ts in Hcap. rewrite !len_app, !len_cons, !len_app in *. lia.
  - intros w1 w2 r2 -> Hw1 Hw2. unfold close_char.
    replace (pre ++ w ++ text) with ((pre ++ w) ++ text) in * by (by rewrite <- app_assoc).
    rewrite <- app_assoc.
    apply (HL _ r2 P (S ++ F)).
    + rewrite Hj, <- !app_assoc. done.
    + rewrite !length_app in Hn. cbn [length] in Hn. rewrite length_app in Hn. lia.
    + fold ts1. rewrite Hlts. by rewrite len_app in Hcap.
    + rewrite !len_app. len_facts. lia.
    + done.
    + done.
    + intros w3 text3 r3 el -> Hw3 Hel out Hcap3.
      replace ((pre ++ w) ++ text ++ w1 ++ ch ","%char :: w2) with
        (pre ++ w ++ text ++ w1 ++ ch ","%char :: w2) in * by (by rewrite <- app_assoc).
      specialize (HQ w (text ++ w1 ++ ch ","%char :: (w2 ++ w3) ++ text3) r3 (t :: el)).
      cbn [flatten_elems] in HQ. fold F in HQ.
      replace ((pre ++ w ++ text ++ w1 ++ ch ","%char :: w2) ++ w3 ++ text3 ++ [ch "]"%char])
        with (pre ++ w ++ (text ++ w1 ++ ch ","%char :: (w2 ++ w3) ++ text3) ++ [ch "]"%char]).
      2:{ rewrite <- !app_assoc. cbn [app]. rewrite <- !app_assoc. done. }
      assert (Eout : out = P ++ mkToken JSON_TOKEN_ARRAY s0
        (len pre + len w + len (text ++ w1 ++ ch ","%char :: (w2 ++ w3) ++ text3) + 1) par
        (k + len (t :: el)) :: S ++ F ++ flatten_elems (len P) (len ts + len F) el).
      { unfold out. fold ts1. rewrite Hlts. f_equal. f_equal; [|by rewrite <- app_assoc]. f_equal; [|rewrite len_cons; lia].
        rewrite !len_app, !len_cons, !len_app. lia. }
      rewrite Eout. apply HQ.
      * rewrite <- !app_assoc. cbn [app]. by rewrite <- !app_assoc.
      * done.
      * apply el_more; [done | done | by apply Forall_app |].
        replace (len pre + len w + len text + len w1 + 1 + len (w2 ++ w3))
          with (len (pre ++ w ++ text ++ w1 ++ ch ","%char :: w2) + len w3); [done|].
        rewrite !len_app, !len_cons. lia.
      * by rewrite <- Eout.
Qed.


(** The member list read so far grows by one at the end. *)
Lemma flatten_members_snoc a i ms0 key ks t :
  flatten_members a i (ms0 ++ [(key, ks, t)]) =
  flatten_members a i ms0 ++ mkToken JSON_TOKEN_STRING ks (ks + len key) a 0 ::
    flatten a (i + len (flatten_members a i ms0) + 1) t.
Proof. rewrite flatten_members_app. cbn [flatten_members]. by rewrite app_nil_r. Qed.

Lemma object_loop_step n : value_ok n -> object_loop_ok n -> object_loop_ok (S n).
Proof.
  intros HV HL pre r P ms0 s0 e0 par k depth Q a ts Hj Hn Hc Hk Hd Hms Hnd HF HQ.
  cbn [container_loop]. unfold loop_body. apply wp_bind, wp_get_position. pos.
  destruct (Z.leb_spec (length_ json) (len pre)) as [Hl|Hl].
  { apply wp_fail_at; [done | jlia | done | done]. }
  set (F := flatten_members a (a + 1) ms0) in *.
  assert (Ha : 0 <= a) by apply len_nonneg.
  assert (HFF : forall s, failed s -> wp (ret false) s Q) by (intros; by apply wp_ret, HF).
  apply wp_bind. eapply wp_member_head; [exact Hj | | done | | done | exact HFF |].
  { intros ->. jlia. }
  { jlia. }
  intros key w1 r1 -> Hw1 Hkey Hnew Hlt. cbn [negb]. fold a F.
  set (kt := mkToken JSON_TOKEN_STRING (len pre + 1) (len pre + 1 + len key) a 0).
  set (pre1 := pre ++ QUOTE :: key ++ QUOTE :: w1 ++ [ch ":"%char]).
  assert (Hj1 : json = pre1 ++ r1).
  { rewrite Hj. unfold pre1. rewrite <- !app_assoc. cbn [app]. rewrite <- !app_assoc. cbn [app].
    by rewrite <- !app_assoc. }
  assert (Hp1 : len pre1 = len pre + 3 + len key + len w1).
  { unfold pre1. rewrite len_app, len_cons, len_app, len_cons, len_snoc. lia. }
  set (obj := fun j => mkToken JSON_TOKEN_OBJECT s0 e0 par j).
  set (ts1 := P ++ obj (k + 1) :: F ++ [kt]).
  assert (Hl1 : len ts1 = a + 1 + len F + 1).
  { unfold ts1. rewrite len_app, len_cons, len_snoc. fold a. lia. }
  assert (Hlt0 : len ts = a + 1 + len F) by (unfold ts; rewrite len_app, len_cons; fold a; lia).
  apply wp_bind. 
  change (len ts < capacity) in Hlt.
  apply (HV pre1 r1 a depth ts1); [done | | len_facts; lia | lia | done | exact HFF |].
  { revert Hn. repeat (cbn [length]; rewrite ?length_app). lia. }
  intros wv text r2 t -> Hwv Hs Hcap. cbn [negb]. unfold ts1 at 1, obj. unfold a at 3.
  rewrite bump_mid by (unfold kMaximumJsonBytes in Hsize; jlia). fold a.
  rewrite <- app_assoc, <- app_comm_cons, <- app_assoc.
  set (V := flatten a (len ts1) t) in *.
  replace (k + 1 + 1) with (k + 2) by lia.
  assert (HS : F ++ [kt] ++ V = flatten_members a (a + 1) (ms0 ++ [(key, len pre + 1, t)])).
  { rewrite flatten_members_snoc. fold F kt. unfold V. rewrite Hl1. done. }
  rewrite HS. set (ms1 := ms0 ++ [(key, len pre + 1, t)]) in *.
  assert (Hl2 : len (P ++ obj (k + 2) :: flatten_members a (a + 1) ms1) = len ts1 + len V).
  { rewrite <- HS. rewrite len_app, len_cons, !len_app, len_cons, Hl1. fold a.
    change (len []) with 0. lia. }
  rewrite len_app in Hcap.
  pose proof (spells_nonempty _ _ _ _ Hs) as Hne. rewrite Hp1 in Hs.
  assert (Hj2 : json = (pre1 ++ wv ++ text) ++ r2) by (rewrite Hj1; by rewrite <- !app_assoc).
  assert (Hkt : keys_in_text ms1).
  { apply Forall_app. split; [done|]. constructor; [|constructor]. cbn [fst snd].
    eapply sub_key. by rewrite Hj. }
  assert (Hnd1 : NoDup (map member_key ms1)).
  { unfold ms1. rewrite map_app. cbn [map]. apply NoDup_app. split; [done|].
    split; [set_solver | apply NoDup_singleton]. }
  apply wp_bind. eapply wp_element_tail; [exact Hj2 | exact (eq_ind_r (fun z => z <= capacity) Hcap Hl2) | done | | |].
  - intros s Hs'. by apply wp_ret, HF.
  - intros w2 r3 -> Hw2. apply wp_ret.
    specialize (HQ (QUOTE :: key ++ QUOTE :: w1 ++ ch ":"%char :: wv ++ text ++ w2) r3
                  [(key, len pre + 1, t)]).
    fold ms1 in HQ. unfold close_char.
    replace ((pre1 ++ wv ++ text) ++ w2 ++ [ch "}"%char]) with
      (pre ++ (QUOTE :: key ++ QUOTE :: w1 ++ ch ":"%char :: wv ++ text ++ w2) ++ [ch "}"%char]).
    2:{ unfold pre1. repeat (rewrite <- !app_assoc; cbn [app]). done. }
    assert (He : len (pre1 ++ wv ++ text) + len w2 + 1 =
      len pre + len (QUOTE :: key ++ QUOTE :: w1 ++ ch ":"%char :: wv ++ text ++ w2) + 1).
    { rewrite !len_app, Hp1, !len_cons, !len_app, !len_cons, !len_app, !len_cons, !len_app. lia. }
    rewrite He. apply HQ; [| | done |].
    + repeat (cbn [app]; rewrite <- !app_assoc). done.
    + by apply me_one.
    + rewrite len_app, len_cons in Hl2 |- *. lia.
  - intros w2 w3 r3 -> Hw2 Hw3.
    apply (HL _ r3 P ms1); [| | exact (eq_ind_r (fun z => z <= capacity) Hcap Hl2) | | done | done | done | done |].
    + rewrite Hj2. by rewrite <- !app_assoc.
    + revert Hn. repeat (cbn [length]; rewrite ?length_app). lia.
    + rewrite !len_app, Hp1. len_facts. lia.
    + intros text2 r4 ms -> Hmem Hnd2 out Hcap2.
      specialize (HQ (QUOTE :: key ++ QUOTE :: w1 ++ ch ":"%char :: wv ++ text ++ w2 ++
                      ch ","%char :: w3 ++ text2) r4 ((key, len pre + 1, t) :: ms)).
      assert (Hms2 : ms1 ++ ms = ms0 ++ (key, len pre + 1, t) :: ms)
        by (unfold ms1; by rewrite <- app_assoc).
      rewrite Hms2 in Hnd2.
      replace (((pre1 ++ wv ++ text) ++ w2 ++ ch ","%char :: w3) ++ text2 ++ [ch "}"%char]) with
        (pre ++ (QUOTE :: key ++ QUOTE :: w1 ++ ch ":"%char :: wv ++ text ++ w2 ++
                 ch ","%char :: w3 ++ text2) ++ [ch "}"%char]).
      2:{ unfold pre1. repeat (rewrite <- !app_assoc; cbn [app]). done. }
      assert (Hle : len ((pre1 ++ wv ++ text) ++ w2 ++ ch ","%char :: w3) =
        len pre + 4 + len key + len w1 + len wv + len text + len w2 + len w3).
      { rewrite !len_app, Hp1, !len_cons. lia. }
      assert (Eout : out = P ++ mkToken JSON_TOKEN_OBJECT s0 (len pre + len (QUOTE :: key ++ QUOTE ::
          w1 ++ ch ":"%char :: wv ++ text ++ w2 ++ ch ","%char :: w3 ++ text2) + 1) par
          (k + 2 * len ((key, len pre + 1, t) :: ms)) ::
          flatten_members a (a + 1) (ms0 ++ (key, len pre + 1, t) :: ms)).
      { unfold out. rewrite Hms2, Hle. f_equal. f_equal. f_equal; [|rewrite len_cons; lia].
        rewrite len_cons, len_app, len_cons, len_app, len_cons, !len_app, len_cons, len_app. lia. }
      rewrite Eout. apply HQ; [| | done | by rewrite <- Eout].
      * repeat (cbn [app]; rewrite <- !app_assoc). done.
      * apply me_more; try done. by rewrite Hle in Hmem.
Qed.

Lemma parser_ok n : value_ok n /\ container_ok n /\ array_loop_ok n /\ object_loop_ok n.
Proof.
  induction n as [|n (HV & HC & HA & HO)].
  - repeat split; repeat intro; lia.
  - split; [by apply value_step|]. split; [by apply container_step|].
    split; [by apply array_loop_step | by apply object_loop_step].
Qed.

(** The whole run on a text within the size limit. *)
Definition run_ok (res : JsonParseResult) (s : Parser) : Prop :=
  token_count res = len (tokens s) /\ len (tokens s) <= capacity /\
  0 <= result_error_offset res <= len json /\
  (result_error res = JSON_OK ->
   exists t, document (Z.to_nat max_depth) json t /\ tokens s = flatten (-1) 0 t).

Lemma wp_Run_body :
  0 <= capacity ->
  wp (Run_body json capacity max_depth) (mkParser 0 [] JSON_OK 0) run_ok.
Proof.
  intros Hc. unfold Run_body. apply wp_bind. change (mkParser 0 [] JSON_OK 0) with (St [] []).
  eapply (wp_SkipWhitespace [] json); [done|]. intros w1 r1 Hj Hw1 Hn1. cbn [app].
  destruct (parser_ok (parse_fuel json)) as (HV & _). apply wp_bind.
  apply (HV w1 r1); [done | | done | done | done | |].
  { unfold parse_fuel. rewrite Hj at 1. rewrite length_app. lia. }
  { intros s (He & Ho & Ht). cbn [negb]. split; [done|]. split; [exact Ht|]. split; [exact Ho|].
    intros Hx. by destruct He. }
  intros w2 text r2 t -> Hw2 Hs Hcap. cbn [negb]. change (bump (-1) []) with (@nil JsonToken).
  cbn [app] in *. change (len []) with 0 in *. rewrite Z.sub_0_r in Hs. set (F := flatten (-1) 0 t) in *.
  assert (Hj1 : json = (w1 ++ w2 ++ text) ++ r2) by (rewrite Hj; by rewrite <- !app_assoc).
  apply wp_bind. eapply wp_SkipWhitespace; [exact Hj1|]. intros w3 r3 -> Hw3 Hn3.
  apply wp_bind, wp_get_position. pos. unfold length_.
  set (p := (w1 ++ w2 ++ text) ++ w3) in *.
  assert (Hp : json = p ++ r3) by (unfold p; by rewrite <- app_assoc).
  destruct (len p =? len json) eqn:E; cbn [negb]; zbool.
  - split; [done|]. split; [done|]. cbn [result_error_offset].
    split; [len_facts; lia|]. intros _. exists t. split; [|done].
    exists (w1 ++ w2), text, w3. rewrite len_app. split; [|split; [by apply Forall_app | done]].
    destruct r3 as [|c r3]; [|jlia]. rewrite Hp, app_nil_r. unfold p. by repeat rewrite <- !app_assoc.
  - split; [done|]. split; [done|]. split; [|done]. cbn [result_error_offset]. jlia.
Qed.
End run.

(** ** The accessors *)
Definition JsonStringEquals (json : option bytes) (token : JsonToken) (expected : option bytes)
    : bool :=
  match json, expected with
  | Some json, Some expected =>
      bool_decide (type token = JSON_TOKEN_STRING) &&
      (tok_end token - start token =? len expected) &&
      bytes_eqb (token_text json token) expected
  | _, _ => false
  end.

(** The loop from index [i], with [rest] the tokens from there on. *)
Fixpoint FindObjectMember_loop (json : bytes) (object_index object_end : Z) (name : bytes)
    (rest : list JsonToken) (i : Z) (expect_key key_matches : bool) : Z :=
  match rest with
  | [] => -1
  | t :: rest' =>
      if object_end <=? start t then -1
      else if negb (parent t =? object_index) then
        FindObjectMember_loop json object_index object_end name rest' (i + 1) expect_key key_matches
      else if expect_key then
        if negb (bool_decide (type t = JSON_TOKEN_STRING)) then -1
        else FindObjectMember_loop json object_index object_end name rest' (i + 1) false
               (JsonStringEquals (Some json) t (Some name))
      else if key_matches then i
      else FindObjectMember_loop json object_index object_end name rest' (i + 1) true key_matches
  end.

Definition JsonFindObjectMember (json : option bytes) (tokens : option (list JsonToken))
    (object_index : Z) (name : option bytes) : Z :=
  match json, tokens, name with
  | Some json, Some tokens, Some name =>
      if (object_index <? 0) || (len tokens <=? object_index) then -1
      else match tokens !! Z.to_nat object_index with
      | Some object =>
          if negb (bool_decide (type object = JSON_TOKEN_OBJECT)) then -1
          else FindObjectMember_loop json object_index (tok_end object) name
                 (drop (S (Z.to_nat object_index)) tokens) (object_index + 1) true false
      | None => -1
      end
  | _, _, _ => -1
  end.

(** The bytes of a code point, as [AppendUtf8] writes them. *)
Definition AppendUtf8_bytes (codepoint : Z) : bytes :=
  if codepoint <=? 0x7f then [u8 codepoint]
  else if codepoint <=? 0x7ff then
    [u8 (Z.lor 0xc0 (Z.shiftr codepoint 6)); u8 (Z.lor 0x80 (Z.land codepoint 0x3f))]
  else if codepoint <=? 0xffff then
    [u8 (Z.lor 0xe0 (Z.shiftr codepoint 12));
     u8 (Z.lor 0x80 (Z.land (Z.shiftr codepoint 6) 0x3f));
     u8 (Z.lor 0x80 (Z.land codepoint 0x3f))]
  else
    [u8 (Z.lor 0xf0 (Z.shiftr codepoint 18));
     u8 (Z.lor 0x80 (Z.land (Z.shiftr codepoint 12) 0x3f));
     u8 (Z.lor 0x80 (Z.land (Z.shiftr codepoint 6) 0x3f));
     u8 (Z.lor 0x80 (Z.land codepoint 0x3f))].

(** The output buffer is the list of bytes written so far. *)
Definition AppendUtf8 (codepoint : Z) (output : bytes) (output_size : Z) : option bytes :=
  let b := AppendUtf8_bytes codepoint in
  if output_size <=? len output + len b then None else Some (output ++ b).

Definition HexDigit (c : Z) : Z :=
  if in_range 48 57 c then c - 48
  else if in_range 97 102 c then c - 97 + 10
  else if in_range 65 70 c then c - 65 + 10
  else -1.

Fixpoint DecodeHex4_loop (n : nat) (json : bytes) (i result : Z) : option Z :=
  match n with
  | O => Some result
  | S n' =>
      let digit := HexDigit (byte_at json i) in
      if digit <? 0 then None
      else DecodeHex4_loop n' json (i + 1) (Z.lor (u32 (Z.shiftl result 4)) digit)
  end.
Definition DecodeHex4 (json : bytes) (i : Z) : option Z := DecodeHex4_loop 4 json i 0.

Definition simple_decoded (c : Z) : option Z :=
  if c =? QUOTE then Some QUOTE
  else if c =? BACKSLASH then Some BACKSLASH
  else if c =? ch "/"%char then Some (ch "/"%char)
  else if c =? ch "b"%char then Some 8
  else if c =? ch "f"%char then Some 12
  else if c =? ch "n"%char then Some LF
  else if c =? ch "r"%char then Some CR
  else if c =? ch "t"%char then Some TAB
  else None.

(** The code point of [\u....] at [i] (just after the [u]), with the index
    after it; [None] is the return of [JSON_ERROR_STRING]. *)
Definition copy_unicode (json : bytes) (i tend : Z) : option (Z * Z) :=
  if tend <? i + 4 then None
  else match DecodeHex4 json i with
  | None => None
  | Some codepoint =>
      let i := i + 4 in
      if in_range 0xd800 0xdbff codepoint then
        if (tend <? i + 6) || negb (byte_at json i =? BACKSLASH) ||
           negb (byte_at json (i + 1) =? ch "u"%char) then None
        else match DecodeHex4 json (i + 2) with
        | None => None
        | Some low =>
            if negb (in_range 0xdc00 0xdfff low) then None
            else Some (u32 (0x10000 + Z.shiftl (codepoint - 0xd800) 10 + (low - 0xdc00)), i + 6)
        end
      else Some (codepoint, i)
  end.

Fixpoint JsonCopyString_loop (fuel : nat) (json : bytes) (i tend output_size : Z) (output : bytes)
    : option (JsonError * bytes) :=
  match fuel with
  | O => None
  | S fuel' =>
      if tend <=? i then Some (JSON_OK, output ++ [NUL])
      else
        let c := byte_at json i in
        if negb (c =? BACKSLASH) then
          if output_size <=? len output + 1 then Some (JSON_ERROR_OUTPUT_TOO_SMALL, output)
          else JsonCopyString_loop fuel' json (i + 1) tend output_size (output ++ [c])
        else if tend <=? i + 1 then Some (JSON_ERROR_STRING, output)
        else
          let e := byte_at json (i + 1) in
          match simple_decoded e with
          | Some decoded =>
              if output_size <=? len output + 1 then Some (JSON_ERROR_OUTPUT_TOO_SMALL, output)
              else JsonCopyString_loop fuel' json (i + 2) tend output_size (output ++ [decoded])
          | None =>
              if e =? ch "u"%char then
                match copy_unicode json (i + 2) tend with
                | None => Some (JSON_ERROR_STRING, output)
                | Some (codepoint, i') =>
                    match AppendUtf8 codepoint output output_size with
                    | None => Some (JSON_ERROR_OUTPUT_TOO_SMALL, output)
                    | Some output' => JsonCopyString_loop fuel' json i' tend output_size output'
                    end
                end
              else Some (JSON_ERROR_STRING, output)
          end
  end.

Definition JsonCopyString (json : option bytes) (token : JsonToken) (output_given : bool)
    (output_size : Z) : option (JsonError * bytes) :=
  match json with
  | None => Some (JSON_ERROR_ARGUMENT, [])
  | Some json =>
      if negb output_given || (output_size =? 0) then Some (JSON_ERROR_ARGUMENT, [])
      else if negb (bool_decide (type token = JSON_TOKEN_STRING)) then Some (JSON_ERROR_TYPE, [])
      else JsonCopyString_loop (S (Z.to_nat (tok_end token - start token))) json (start token)
             (tok_end token) output_size []
  end.

Fixpoint JsonGetUint64_loop (digits : bytes) (result : Z) : JsonError * option Z :=
  match digits with
  | [] => (JSON_OK, Some result)
  | c :: digits' =>
      if (c <? 48) || (57 <? c) then (JSON_ERROR_TYPE, None)
      else
        let digit := c - 48 in
        if (UINT64_MAX - digit) / 10 <? result then (JSON_ERROR_RANGE, None)
        else JsonGetUint64_loop digits' (u64 (u64 (result * 10) + digit))
  end.

Definition JsonGetUint64 (json : option bytes) (token : JsonToken) (value_given : bool)
    : JsonError * option Z :=
  match json with
  | None => (JSON_ERROR_ARGUMENT, None)
  | Some json =>
      if negb value_given then (JSON_ERROR_ARGUMENT, None)
      else if negb (bool_decide (type token = JSON_TOKEN_NUMBER)) || (tok_end token <=? start token)
      then (JSON_ERROR_TYPE, None)
      else JsonGetUint64_loop (token_text json token) 0
  end.

Definition JsonGetBool (token : JsonToken) (value_given : bool) : JsonError * option bool :=
  if negb value_given then (JSON_ERROR_ARGUMENT, None)
  else if bool_decide (type token = JSON_TOKEN_TRUE) then (JSON_OK, Some true)
  else if bool_decide (type token = JSON_TOKEN_FALSE) then (JSON_OK, Some false)
  else (JSON_ERROR_TYPE, None).

Definition JsonErrorString (e : JsonError) : bytes :=
  match e with
  | JSON_OK => str "ok"
  | JSON_ERROR_ARGUMENT => str "invalid argument"
  | JSON_ERROR_TOO_LARGE => str "JSON too large"
  | JSON_ERROR_TOO_DEEP => str "JSON nesting too deep"
  | JSON_ERROR_TOKEN_LIMIT => str "JSON token limit exceeded"
  | JSON_ERROR_SYNTAX => str "invalid JSON syntax"
  | JSON_ERROR_STRING => str "invalid JSON string"
  | JSON_ERROR_NUMBER => str "invalid JSON number"
  | JSON_ERROR_DUPLICATE_KEY => str "duplicate JSON object key"
  | JSON_ERROR_TRAILING_DATA => str "trailing JSON data"
  | JSON_ERROR_NOT_FOUND => str "JSON member not found"
  | JSON_ERROR_TYPE => str "unexpected JSON type"
  | JSON_ERROR_RANGE => str "JSON number out of range"
  | JSON_ERROR_OUTPUT_TOO_SMALL => str "output buffer too small"
  end.

(** ** Lemmas on the accessors *)
Scheme spells_min := Minimality for spells Sort Prop
  with elements_min := Minimality for elements Sort Prop
  with members_min := Minimality for members Sort Prop.
Combined Scheme grammar_ind from spells_min, elements_min, members_min.

(** Every token of a value starts inside the text of the value. *)
Definition starts_in (lo hi : Z) (ts : list JsonToken) : Prop :=
  Forall (fun x => lo <= start x < hi) ts.

Lemma starts_in_weaken lo hi lo' hi' ts :
  lo' <= lo -> hi <= hi' -> starts_in lo hi ts -> starts_in lo' hi' ts.
Proof. intros ? ? H. eapply Forall_impl; [exact H|]. cbn. intros. lia. Qed.

Ltac glen := rewrite ?len_app, ?len_cons, ?len_app, ?len_cons, ?len_app, ?len_cons, ?len_app,
  ?len_cons, ?len_app; change (len (@nil Z)) with 0; len_facts; lia.

Lemma leaf_starts off text t par idx :
  leaf_spells off text t -> starts_in off (off + len text) (flatten par idx t).
Proof.
  intros H. pose proof (leaf_nonempty _ _ _ H).
  destruct H; repeat constructor; cbn [start]; try lia. glen.
Qed.

Lemma tokens_start_inside :
  (forall d off text t, spells d off text t ->
     forall par idx, starts_in off (off + len text) (flatten par idx t)) /\
  (forall d off text ts, elements d off text ts ->
     forall a i, starts_in off (off + len text) (flatten_elems a i ts)) /\
  (forall d off text ms, members d off text ms ->
     forall a i, starts_in off (off + len text) (flatten_members a i ms)).
Proof.
  apply grammar_ind.
  - intros. by apply leaf_starts.
  - intros d off w Hw par idx. rewrite flatten_JArr. repeat constructor; cbn [start]; try lia. glen.
  - intros d off w text ts Hw _ IH par idx. rewrite flatten_JArr. constructor; [cbn [start]; glen|].
    eapply starts_in_weaken; [| |apply IH]; glen.
  - intros d off w Hw par idx. rewrite flatten_JObj. repeat constructor; cbn [start]; try lia. glen.
  - intros d off w text ms Hw _ IH Hnd par idx. rewrite flatten_JObj.
    constructor; [cbn [start]; glen|]. eapply starts_in_weaken; [| |apply IH]; glen.
  - intros d off text t w _ IH Hw a i. cbn [flatten_elems]. rewrite app_nil_r.
    eapply starts_in_weaken; [| |apply IH]; glen.
  - intros d off text t w w' rest ts _ IH1 Hw Hw' _ IH2 a i. cbn [flatten_elems].
    apply Forall_app. split; (eapply starts_in_weaken; [| |apply IH1 || apply IH2]); glen.
  - intros d off k wk wv text t w Hk Hwk Hwv _ IH Hw a i. cbn [flatten_members].
    rewrite app_nil_r. constructor; [cbn [start]; glen|].
    eapply starts_in_weaken; [| |apply IH]; glen.
  - intros d off k wk wv text t w w' rest ms Hk Hwk Hwv _ IH1 Hw Hw' _ IH2 a i.
    cbn [flatten_members]. constructor; [cbn [start]; glen|].
    apply Forall_app. split; (eapply starts_in_weaken; [| |apply IH1 || apply IH2]); glen.
Qed.

(** The key offsets of the members point at the keys. *)
Lemma members_keys d off text ms :
  members d off text ms -> forall pre rest json, json = pre ++ text ++ rest -> len pre = off ->
  keys_in_text json ms.
Proof.
  induction 1 as [d off k wk wv text t w Hk Hwk Hwv Hs Hw
    | d off k wk wv text t w w' rest ms Hk Hwk Hwv Hs Hw Hw' Hm IH]; intros pre post json Hj Hp.
  - constructor; [|constructor]. cbn [fst snd]. rewrite <- Hp. eapply sub_key. rewrite Hj.
    cbn [app]. repeat (cbn [app]; rewrite <- !app_assoc). done.
  - constructor.
    + cbn [fst snd]. rewrite <- Hp. eapply sub_key. rewrite Hj. repeat (cbn [app]; rewrite <- !app_assoc). done.
    + apply (IH (pre ++ QUOTE :: k ++ QUOTE :: wk ++ ch ":"%char :: wv ++ text ++ w ++
                 ch ","%char :: w') post).
      * rewrite Hj. repeat (cbn [app]; rewrite <- !app_assoc). done.
      * rewrite len_app, len_cons, len_app, len_cons, len_app, len_cons, !len_app, len_cons. lia.
Qed.

Lemma FindObjectMember_skip json a e name F B i ek km :
  Forall (fun x => a < parent x) F -> Forall (fun x => start x < e) F ->
  FindObjectMember_loop json a e name (F ++ B) i ek km =
  FindObjectMember_loop json a e name B (i + len F) ek km.
Proof.
  intros H1 H2. induction H1 as [|x F Hx Hf IH] in i, H2 |- *.
  { cbn [app]. f_equal. rewrite len_nil. lia. }
  apply Forall_cons in H2 as [Hs H2]. cbn [app FindObjectMember_loop].
  rewrite (proj2 (Z.leb_gt e _)) by lia. rewrite (proj2 (Z.eqb_neq (parent x) a)) by lia.
  cbn [negb]. rewrite IH by done. f_equal. rewrite len_cons. lia.
Qed.

(** Where the loop ends up on the members of an object: the value of the
    first member of that name, or the end of the members. *)
Lemma FindObjectMember_members json a e name B ms i : a < i ->
  keys_in_text json ms -> Forall (fun x => start x < e) (flatten_members a i ms) ->
  let j := FindObjectMember_loop json a e name (flatten_members a i ms ++ B) i true false in
  (name ∉ map member_key ms /\
   j = FindObjectMember_loop json a e name B (i + len (flatten_members a i ms)) true false) \/
  (exists ks t A C, (name, ks, t) ∈ ms /\ flatten_members a i ms = A ++ flatten a j t ++ C /\
     j = i + len A).
Proof.
  induction ms as [|[[k ks] t] ms IH] in i |- *; intros Hi Hk Hs.
  { left. split; [set_solver|]. cbn [flatten_members app]. f_equal. rewrite len_nil. lia. }
  apply Forall_cons in Hk as [Hk1 Hk]. cbn [fst snd] in Hk1. cbn [flatten_members] in *.
  apply Forall_cons in Hs as [Hs1 Hs]. cbn [start] in Hs1. apply Forall_app in Hs as [Hst Hs].
  cbn [app FindObjectMember_loop start parent type].
  rewrite (proj2 (Z.leb_gt e _)), Z.eqb_refl by lia.
  rewrite (bool_decide_eq_true_2 (JSON_TOKEN_STRING = JSON_TOKEN_STRING)) by done. cbn [negb].
  assert (Heq : JsonStringEquals (Some json) (mkToken JSON_TOKEN_STRING ks (ks + len k) a 0)
                  (Some name) = bytes_eqb k name).
  { unfold JsonStringEquals, token_text. cbn [type start tok_end].
    rewrite bool_decide_eq_true_2 by done. replace (ks + len k - ks) with (len k) by lia.
    rewrite Hk1. cbn [andb]. destruct (bytes_eqb k name) eqn:E; [|by rewrite andb_false_r].
    apply bytes_eqb_eq in E. subst. by rewrite Z.eqb_refl. }
  rewrite Heq. destruct (flatten_shape t a (i + 1)) as (t0 & rest & E & Hp & Hr).
  set (V := flatten a (i + 1) t) in *. rewrite E in Hst. apply Forall_cons in Hst as [Hs0 Hst].
  assert (Hloop : forall km, FindObjectMember_loop json a e name
      ((V ++ flatten_members a (i + 1 + len V) ms) ++ B) (i + 1) false km =
      if km then i + 1 else FindObjectMember_loop json a e name
        (flatten_members a (i + 1 + len V) ms ++ B) (i + 1 + len V) true false).
  { intros km. rewrite E. cbn [app FindObjectMember_loop].
    rewrite (proj2 (Z.leb_gt e _)), Hp, Z.eqb_refl by lia. cbn [negb]. destruct km; [done|].
    rewrite <- app_assoc, FindObjectMember_skip; [| |done].
    - f_equal. rewrite len_cons. lia.
    - eapply Forall_impl; [exact Hr|]. cbn. lia. }
  rewrite Hloop. destruct (bytes_eqb k name) eqn:Ek.
  - apply bytes_eqb_eq in Ek. subst k. right.
    exists ks, t, [mkToken JSON_TOKEN_STRING ks (ks + len name) a 0],
      (flatten_members a (i + 1 + len V) ms).
    split; [set_solver|]. split; done.
  - apply bytes_eqb_neq in Ek. destruct (IH (i + 1 + len V)) as [[Hn Hj]|(ks' & t' & A & C & Hin & Hfl & Hj)].
    + len_facts. lia.
    + done.
    + done.
    + left. split; [cbn [map member_key fst]; set_solver|]. rewrite Hj. f_equal.
      rewrite len_cons, len_app. lia.
    + right. exists ks', t', (mkToken JSON_TOKEN_STRING ks (ks + len k) a 0 :: V ++ A), C.
      split; [set_solver|]. split; [|rewrite Hj, len_cons, len_app; lia].
      cbn [app]. f_equal. rewrite <- app_assoc. f_equal. rewrite Hfl at 1. done.
Qed.

(** *** Numbers *)
Lemma JsonGetUint64_loop_digits d acc : digits d -> 0 <= acc <= UINT64_MAX ->
  JsonGetUint64_loop d acc =
  if decimal acc d <=? UINT64_MAX then (JSON_OK, Some (decimal acc d)) else (JSON_ERROR_RANGE, None).
Proof.
  intros H. revert acc. induction H as [|c d Hc Hd IH]; intros acc Ha; cbn [JsonGetUint64_loop].
  { cbn [decimal fold_left]. by rewrite (proj2 (Z.leb_le _ _)) by lia. }
  apply in_range_spec in Hc.
  rewrite (proj2 (Z.ltb_ge c 48)), (proj2 (Z.ltb_ge 57 c)) by lia. cbn [orb].
  change (decimal acc (c :: d)) with (decimal (acc * 10 + (c - 48)) d).
  destruct (Z.ltb_spec ((UINT64_MAX - (c - 48)) / 10) acc) as [Hov|Hov].
  - pose proof (decimal_ge d (acc * 10 + (c - 48)) Hd ltac:(lia)).
    rewrite (proj2 (Z.leb_gt _ _)); [done|]. divmod_lia.
  - assert (acc * 10 + (c - 48) <= UINT64_MAX) by divmod_lia.
    unfold UINT64_MAX in *. rewrite !u64_small by (rewrite ?u64_small; lia). by apply IH; lia.
Qed.

Lemma JsonGetUint64_loop_ok d acc v : 0 <= acc <= UINT64_MAX ->
  JsonGetUint64_loop d acc = (JSON_OK, v) -> digits d.
Proof.
  revert acc. induction d as [|c d IH]; intros acc Ha; cbn [JsonGetUint64_loop]; [constructor|].
  destruct ((c <? 48) || (57 <? c)) eqn:Ec; [done|]. zbool.
  destruct (Z.ltb_spec ((UINT64_MAX - (c - 48)) / 10) acc) as [Hov|Hov]; [done|].
  assert (acc * 10 + (c - 48) <= UINT64_MAX) by divmod_lia.
  unfold UINT64_MAX in *. rewrite !u64_small by (rewrite ?u64_small; lia). intros Hl.
  constructor; [apply in_range_spec; lia|]. eapply IH; [|exact Hl]. lia.
Qed.

(** *** Strings: the bytes a body denotes *)
Inductive decodes : bytes -> bytes -> Prop :=
| dc_nil : decodes [] []
| dc_plain c b v : c <> BACKSLASH -> decodes b v -> decodes (c :: b) (c :: v)
| dc_simple c x b v : simple_decoded c = Some x -> decodes b v ->
    decodes (BACKSLASH :: c :: b) (x :: v)
| dc_unit h cp b v : hex4 h cp -> ~ high_surrogate cp -> ~ low_surrogate cp -> decodes b v ->
    decodes (BACKSLASH :: ch "u"%char :: h ++ b) (utf8 cp ++ v)
| dc_pair h hi l lo b v : hex4 h hi -> high_surrogate hi -> hex4 l lo -> low_surrogate lo ->
    decodes b v ->
    decodes (BACKSLASH :: ch "u"%char :: h ++ BACKSLASH :: ch "u"%char :: l ++ b)
      (utf8 (0x10000 + (hi - 0xd800) * 1024 + (lo - 0xdc00)) ++ v).

Lemma lor_byte_base base n x : 0 <= n -> base mod 2 ^ n = 0 -> 0 <= x < 2 ^ n ->
  Z.lor base x = base + x.
Proof.
  intros Hn Hb Hx. rewrite (Z.div_mod base (2 ^ n)) by lia. rewrite Hb, Z.add_0_r, Z.mul_comm.
  by apply lor_add_disjoint.
Qed.

Lemma AppendUtf8_bytes_utf8 cp : 0 <= cp <= 0x10ffff -> AppendUtf8_bytes cp = utf8 cp.
Proof.
  intros H. unfold AppendUtf8_bytes, utf8, u8. change 0x3f with (Z.ones 6).
  rewrite !Z.land_ones, !Z.shiftr_div_pow2 by lia.
  change (2 ^ 6) with 64. change (2 ^ 12) with 4096. change (2 ^ 18) with 262144.
  change (2 ^ 8) with 256.
  assert (H80 : forall x, Z.lor 0x80 (x mod 64) = 0x80 + x mod 64).
  { intros x. apply (lor_byte_base _ 6); [lia | done | apply Z.mod_pos_bound; lia]. }
  rewrite !H80. destruct (Z.leb_spec cp 127); [rewrite Z.mod_small; [done|lia]|].
  assert (Hm : forall x, (0x80 + x mod 64) mod 256 = 0x80 + x mod 64).
  { intros x. apply Z.mod_small. pose proof (Z.mod_pos_bound x 64). lia. }
  rewrite !Hm. destruct (Z.leb_spec cp 2047).
  { rewrite (lor_byte_base _ 5); [|lia|done|change (2 ^ 5) with 32; divmod_lia].
    rewrite Z.mod_small; [done|divmod_lia]. }
  destruct (Z.leb_spec cp 65535).
  { rewrite (lor_byte_base _ 4); [|lia|done|change (2 ^ 4) with 16; divmod_lia].
    rewrite Z.mod_small; [done|divmod_lia]. }
  rewrite (lor_byte_base _ 3); [|lia|done|change (2 ^ 3) with 8; divmod_lia].
  rewrite Z.mod_small; [done|divmod_lia].
Qed.

Lemma HexDigit_hex c : HexDigit c = match hex_digit c with Some d => d | None => -1 end.
Proof.
  unfold HexDigit, hex_digit. destruct (in_range 48 57 c); [done|].
  destruct (in_range 97 102 c); [done|]. by destruct (in_range 65 70 c).
Qed.

Lemma hex_digit_range c d : hex_digit c = Some d -> 0 <= d < 16.
Proof.
  unfold hex_digit. intros H. guards H; injection H as <-;
    repeat match goal with H : in_range _ _ _ = true |- _ => apply in_range_spec in H end; lia.
Qed.

Lemma hex_value_bound h acc v : 0 <= acc -> hex_value h acc = Some v ->
  0 <= v < (acc + 1) * 16 ^ Z.of_nat (length h).
Proof.
  revert acc. induction h as [|c h IH]; intros acc Ha; cbn [hex_value].
  { intros [= <-]. cbn [length]. change (16 ^ Z.of_nat 0) with 1. lia. }
  destruct (hex_digit c) as [d|] eqn:Ed; [|done]. apply hex_digit_range in Ed. intros H.
  apply IH in H; [|lia]. cbn [length]. rewrite Nat2Z.inj_succ, Z.pow_succ_r by lia.
  assert (0 < 16 ^ Z.of_nat (length h)) by (apply Z.pow_pos_nonneg; lia). nia.
Qed.

Lemma hex4_bound h v : hex4 h v -> 0 <= v < 65536.
Proof.
  intros [Hl Hv]. apply hex_value_bound in Hv; [|lia]. rewrite Hl in Hv.
  change (16 ^ Z.of_nat 4) with 65536 in Hv. lia.
Qed.

Lemma DecodeHex4_spec json pre h r v :
  json = pre ++ h ++ r -> hex4 h v -> DecodeHex4 json (len pre) = Some v.
Proof.
  intros Hj [Hl Hv]. unfold DecodeHex4. revert Hv.
  assert (H : forall n pre h acc, json = pre ++ h ++ r -> length h = n -> (n <= 4)%nat ->
    0 <= acc < 2 ^ (32 - 4 * Z.of_nat n) -> hex_value h acc = Some v ->
    DecodeHex4_loop n json (len pre) acc = Some v).
  { clear. induction n as [|n IH]; intros pre h acc Hj Hl Hn Ha.
    { by destruct h. }
    destruct h as [|c h]; [done|]. injection Hl as Hl. cbn [hex_value DecodeHex4_loop].
    assert (Ec : byte_at json (len pre) = c) by (rewrite Hj; apply byte_at_here).
    rewrite Ec, HexDigit_hex.
    destruct (hex_digit c) as [d|] eqn:Ed; [|done]. apply hex_digit_range in Ed.
    rewrite (proj2 (Z.ltb_ge d 0)) by lia.
    assert (Hp : 2 ^ (32 - 4 * Z.of_nat n) = 16 * 2 ^ (32 - 4 * Z.of_nat (S n))).
    { replace (32 - 4 * Z.of_nat n) with (4 + (32 - 4 * Z.of_nat (S n))) by lia.
      rewrite Z.pow_add_r by lia. lia. }
    assert (Hle : 2 ^ (32 - 4 * Z.of_nat n) <= 2 ^ 32) by (apply Z.pow_le_mono_r; lia).
    unfold u32. rewrite Z.shiftl_mul_pow2, Z.mod_small, lor_add_disjoint by lia.
    replace (len pre + 1) with (len (pre ++ [c])) by (by rewrite len_snoc).
    apply (IH (pre ++ [c]) h); [by rewrite <- app_assoc | done | lia | lia]. }
  intros Hv. apply (H 4%nat pre h); try done.
Qed.

Lemma copy_unicode_unit json pre h cp b post :
  json = pre ++ h ++ b ++ post -> hex4 h cp -> ~ high_surrogate cp ->
  copy_unicode json (len pre) (len pre + len (h ++ b)) = Some (cp, len (pre ++ h)).
Proof.
  intros Hj Hh Hhi. unfold copy_unicode.
  assert (Hlen : len h = 4) by (destruct Hh; unfold len; lia).
  rewrite !len_app, Hlen.
  rewrite (proj2 (Z.ltb_ge _ _)) by (len_facts; lia).
  rewrite (DecodeHex4_spec _ _ _ _ _ Hj Hh).
  rewrite (proj2 (in_range_false _ _ _) Hhi). done.
Qed.

Lemma copy_unicode_pair json pre h hi l lo b post :
  json = pre ++ (h ++ BACKSLASH :: ch "u"%char :: l ++ b) ++ post ->
  hex4 h hi -> high_surrogate hi -> hex4 l lo -> low_surrogate lo ->
  copy_unicode json (len pre) (len pre + len (h ++ BACKSLASH :: ch "u"%char :: l ++ b)) =
  Some (0x10000 + (hi - 0xd800) * 1024 + (lo - 0xdc00),
        len (pre ++ h ++ BACKSLASH :: ch "u"%char :: l)).
Proof.
  intros Hj Hh Hhi Hl Hlo. unfold copy_unicode.
  assert (Hlen : len h = 4) by (destruct Hh; unfold len; lia).
  assert (Hlen2 : len l = 4) by (destruct Hl; unfold len; lia).
  rewrite !len_app, !len_cons, !len_app, Hlen, Hlen2.
  rewrite (proj2 (Z.ltb_ge _ _)) by (len_facts; lia).
  assert (Hj1 : json = pre ++ h ++ BACKSLASH :: ch "u"%char :: l ++ b ++ post).
  { rewrite Hj. repeat (cbn [app]; rewrite <- !app_assoc). done. }
  rewrite (DecodeHex4_spec _ _ _ _ _ Hj1 Hh).
  rewrite (proj2 (in_range_spec _ _ _) Hhi).
  rewrite (proj2 (Z.ltb_ge _ _)) by (len_facts; lia).
  assert (Hj2 : json = (pre ++ h) ++ BACKSLASH :: ch "u"%char :: l ++ b ++ post)
    by (by rewrite <- app_assoc).
  assert (H0 : byte_at json (len pre + 4) = BACKSLASH).
  { rewrite Hj2. rewrite (byte_at_off _ _ 0); [done | rewrite len_app; lia | lia]. }
  assert (H1 : byte_at json (len pre + 4 + 1) = ch "u"%char).
  { rewrite Hj2. rewrite (byte_at_off _ _ 1); [done | rewrite len_app; lia | lia]. }
  rewrite H0, H1, !Z.eqb_refl. cbn [negb orb].
  assert (Hj3 : json = (pre ++ h ++ [BACKSLASH; ch "u"%char]) ++ l ++ b ++ post).
  { rewrite Hj2. repeat (rewrite <- !app_assoc; cbn [app]). done. }
  replace (len pre + 4 + 2) with (len (pre ++ h ++ [BACKSLASH; ch "u"%char])).
  2:{ rewrite !len_app, Hlen. change (len [BACKSLASH; ch "u"%char]) with 2. lia. }
  rewrite (DecodeHex4_spec _ _ _ _ _ Hj3 Hl), (proj2 (in_range_spec _ _ _) Hlo). cbn [negb].
  unfold high_surrogate, low_surrogate in *. f_equal. f_equal; [|lia].
  unfold u32. rewrite Z.shiftl_mul_pow2 by lia. change (2 ^ 10) with 1024.
  rewrite Z.mod_small; lia.
Qed.

Definition copy_result (out v : bytes) (size : Z) (r : option (JsonError * bytes)) : Prop :=
  if len out + len v <? size then r = Some (JSON_OK, (out ++ v) ++ [NUL])
  else exists o, r = Some (JSON_ERROR_OUTPUT_TOO_SMALL, o) /\ len o < size.

Lemma copy_result_app out v1 v2 size r :
  copy_result (out ++ v1) v2 size r -> copy_result out (v1 ++ v2) size r.
Proof.
  unfold copy_result. rewrite !len_app.
  replace (len out + (len v1 + len v2)) with (len out + len v1 + len v2) by lia.
  by rewrite <- !app_assoc.
Qed.

Lemma copy_result_small out v size : len out < size -> size <= len out + len v ->
  copy_result out v size (Some (JSON_ERROR_OUTPUT_TOO_SMALL, out)).
Proof. intros. unfold copy_result. rewrite (proj2 (Z.ltb_ge _ _)) by lia. eauto. Qed.

Lemma simple_decoded_not_u c x : simple_decoded c = Some x -> c <> ch "u"%char.
Proof. intros H ->. vm_compute in H. done. Qed.

Lemma JsonCopyString_loop_decodes b v : decodes b v -> forall fuel json pre post out size,
  json = pre ++ b ++ post -> (length b < fuel)%nat -> len out < size ->
  copy_result out v size
    (JsonCopyString_loop fuel json (len pre) (len pre + len b) size out).
Proof.
  assert (Hu : forall cp, 0 <= cp <= 0x10ffff -> forall out size,
    AppendUtf8 cp out size = if size <=? len out + len (utf8 cp) then None else Some (out ++ utf8 cp)).
  { intros cp Hcp out size. unfold AppendUtf8. by rewrite AppendUtf8_bytes_utf8. }
  induction 1 as [ | c b v Hc _ IH | c x b v Hx _ IH | h cp b v Hh Hn1 Hn2 _ IH
    | h hi l lo b v Hh Hhi Hl Hlo _ IH];
    intros fuel json pre post out size Hj Hf Hs; (destruct fuel as [|fuel]; [lia|]);
    cbn [JsonCopyString_loop].
  - change (len (@nil Z)) with 0. rewrite (proj2 (Z.leb_le _ _)) by lia. unfold copy_result.
    change (len (@nil Z)) with 0. rewrite (proj2 (Z.ltb_lt _ _)) by lia. by rewrite app_nil_r.
  - rewrite len_cons. rewrite (proj2 (Z.leb_gt _ _)) by (len_facts; lia).
    assert (Ec : byte_at json (len pre) = c) by (rewrite Hj; apply byte_at_here).
    rewrite Ec, (proj2 (Z.eqb_neq c BACKSLASH)) by done. cbn [negb].
    destruct (Z.leb_spec size (len out + 1)).
    { apply copy_result_small; [done|]. rewrite len_cons. len_facts. lia. }
    apply (copy_result_app out [c]).
    replace (len pre + (1 + len b)) with (len (pre ++ [c]) + len b) by (rewrite len_snoc; lia).
    rewrite <- (len_snoc pre c). apply (IH _ _ _ post); [by rewrite Hj, <- app_assoc | simpl in Hf; lia |].
    rewrite len_snoc. lia.
  - rewrite !len_cons. rewrite (proj2 (Z.leb_gt _ _)) by (len_facts; lia).
    assert (Ec : byte_at json (len pre) = BACKSLASH) by (rewrite Hj; apply byte_at_here).
    rewrite Ec. cbn [Z.eqb negb BACKSLASH Pos.eqb].
    rewrite (proj2 (Z.leb_gt _ _)) by (len_facts; lia).
    assert (E1 : byte_at json (len pre + 1) = c) by (rewrite Hj, byte_at_app by lia; done).
    rewrite E1, Hx. destruct (Z.leb_spec size (len out + 1)).
    { apply copy_result_small; [done|]. rewrite len_cons. len_facts. lia. }
    apply (copy_result_app out [x]).
    assert (Hp : len (pre ++ [BACKSLASH; c]) = len pre + 2) by (rewrite len_app; done).
    replace (len pre + (1 + (1 + len b))) with (len (pre ++ [BACKSLASH; c]) + len b) by lia.
    rewrite <- Hp. apply (IH _ _ _ post); [by rewrite Hj, <- app_assoc | simpl in Hf; lia |].
    rewrite len_snoc. lia.
  - rewrite !len_cons. rewrite (proj2 (Z.leb_gt _ _)) by (len_facts; lia).
    assert (Ec : byte_at json (len pre) = BACKSLASH) by (rewrite Hj; apply byte_at_here).
    rewrite Ec. cbn [Z.eqb negb BACKSLASH Pos.eqb].
    rewrite (proj2 (Z.leb_gt _ _)) by (len_facts; lia).
    assert (E1 : byte_at json (len pre + 1) = ch "u"%char) by (rewrite Hj, byte_at_app by lia; done).
    rewrite E1. change (simple_decoded (ch "u"%char)) with (@None Z). rewrite Z.eqb_refl.
    set (pre2 := pre ++ [BACKSLASH; ch "u"%char]).
    assert (Hp : len pre2 = len pre + 2) by (unfold pre2; rewrite len_app; done).
    assert (Hj2 : json = pre2 ++ h ++ b ++ post).
    { unfold pre2. rewrite Hj, <- app_assoc. cbn [app]. by rewrite <- app_assoc. }
    replace (len pre + (1 + (1 + len (h ++ b)))) with (len pre2 + len (h ++ b)) by lia.
    rewrite <- Hp, (copy_unicode_unit _ _ _ _ _ _ Hj2 Hh Hn1).
    pose proof (hex4_bound _ _ Hh). rewrite Hu by lia.
    destruct (Z.leb_spec size (len out + len (utf8 cp))).
    { apply copy_result_small; [done|]. rewrite len_app. len_facts. lia. }
    apply copy_result_app.
    replace (len pre2 + len (h ++ b)) with (len (pre2 ++ h) + len b) by (rewrite !len_app; lia).
    apply (IH _ _ _ post); [by rewrite <- app_assoc | | rewrite len_app; lia].
    cbn [length] in Hf. rewrite length_app in Hf. lia.
  - rewrite !len_cons. rewrite (proj2 (Z.leb_gt _ _)) by (len_facts; lia).
    assert (Ec : byte_at json (len pre) = BACKSLASH) by (rewrite Hj; apply byte_at_here).
    rewrite Ec. cbn [Z.eqb negb BACKSLASH Pos.eqb].
    rewrite (proj2 (Z.leb_gt _ _)) by (len_facts; lia).
    assert (E1 : byte_at json (len pre + 1) = ch "u"%char) by (rewrite Hj, byte_at_app by lia; done).
    rewrite E1. change (simple_decoded (ch "u"%char)) with (@None Z). rewrite Z.eqb_refl.
    set (pre2 := pre ++ [BACKSLASH; ch "u"%char]).
    assert (Hp : len pre2 = len pre + 2) by (unfold pre2; rewrite len_app; done).
    set (B := h ++ BACKSLASH :: ch "u"%char :: l ++ b) in *.
    assert (Hj2 : json = pre2 ++ B ++ post) by (unfold pre2; by rewrite Hj, <- app_assoc).
    replace (len pre + (1 + (1 + len B))) with (len pre2 + len B) by lia.
    rewrite <- Hp. unfold B at 1. rewrite (copy_unicode_pair _ _ _ _ _ _ _ _ Hj2 Hh Hhi Hl Hlo).
    unfold high_surrogate, low_surrogate in *. set (cp := 65536 + _ + _).
    assert (Hcp : 0 <= cp <= 0x10ffff) by lia. rewrite Hu by lia.
    destruct (Z.leb_spec size (len out + len (utf8 cp))).
    { apply copy_result_small; [done|]. rewrite len_app. len_facts. lia. }
    apply copy_result_app. set (pre12 := pre2 ++ h ++ BACKSLASH :: ch "u"%char :: l).
    replace (len pre2 + len B) with (len pre12 + len b).
    2:{ unfold pre12, B. rewrite !len_app, !len_cons, len_app. lia. }
    apply (IH _ _ _ post); [ | | rewrite len_app; lia].
    + rewrite Hj2. unfold pre12, B. repeat (rewrite <- !app_assoc; cbn [app]). done.
    + unfold B in Hf. cbn [length] in Hf. rewrite length_app in Hf. cbn [length] in Hf.
      rewrite length_app in Hf. lia.
Qed.

(** ** The properties *)

Lemma ParseJson_facts (json : bytes) (token_capacity max_depth : Z) :
  Forall is_byte json -> 0 <= token_capacity ->
  exists res s, ParseJson (Some json) true token_capacity max_depth = Done res s /\
    token_count res = len (tokens s) /\ len (tokens s) <= token_capacity /\
    0 <= result_error_offset res <= len json /\
    (result_error res = JSON_OK ->
     exists t, document (Z.to_nat max_depth) json t /\ tokens s = flatten (-1) 0 t).
Proof.
  intros Hb Hc. unfold ParseJson. cbn [negb orb].
  assert (HR : forall e, e <> JSON_OK -> exists res s,
    Result e 0 (mkParser 0 [] JSON_OK 0) = Done res s /\ token_count res = len (tokens s) /\
    len (tokens s) <= token_capacity /\ 0 <= result_error_offset res <= len json /\
    (result_error res = JSON_OK ->
     exists t, document (Z.to_nat max_depth) json t /\ tokens s = flatten (-1) 0 t)).
  { intros e He. eexists _, _. split; [done|]. split; [done|]. split; [done|].
    split; [cbn; len_facts; lia | done]. }
  destruct ((token_capacity =? 0) || (max_depth =? 0)); [by apply HR|].
  destruct ((kMaximumJsonBytes <? len json) || (UINT32_MAX <? len json)) eqn:Ez; [by apply HR|].
  zbool. pose proof (wp_Run_body json token_capacity max_depth Hb ltac:(lia) Hc) as Hw.
  unfold wp in Hw. destruct (Run_body _ _ _ _) as [res s | |]; try done. exists res, s.
  split; [done | exact Hw].
Qed.


Definition sample_text : bytes :=
  [123; 34; 97; 34; 58; 91; 49; 44; 34; 92; 110; 34; 93; 44; 34; 98; 34; 58; 45; 50; 125].

Example ParseJson_sample_ok :
  match ParseJson (Some sample_text) true 8 4 with
  | Done r s => result_error r = JSON_OK /\ len (tokens s) = 7
  | _ => False
  end.
Proof. vm_compute. split; reflexivity. Qed.

Lemma find_member_root d json s e ms name :
  document d json (JObj s e ms) ->
  let ts := flatten (-1) 0 (JObj s e ms) in
  let j := JsonFindObjectMember (Some json) (Some ts) 0 (Some name) in
  (j = -1 /\ name ∉ map member_key ms) \/
  (exists ks t A C, (name, ks, t) ∈ ms /\ ts = A ++ flatten 0 j t ++ C /\ j = len A).
Proof.
  intros (w1 & v & w2 & Hj & Hw1 & Hw2 & Hs). cbv zeta.
  rewrite flatten_JObj. unfold JsonFindObjectMember.
  rewrite (proj2 (Z.ltb_ge 0 0)), (proj2 (Z.leb_gt _ _)) by (rewrite ?len_cons; len_facts; lia).
  cbn [orb]. change (Z.to_nat 0) with 0%nat. change ((mkToken JSON_TOKEN_OBJECT s e (-1) (2 * len ms) ::
    flatten_members 0 (0 + 1) ms) !! 0%nat) with
    (Some (mkToken JSON_TOKEN_OBJECT s e (-1) (2 * len ms))).
  cbn [type tok_end]. rewrite bool_decide_eq_true_2 by done. cbn [negb].
  change (drop 1 (?x :: ?l)) with l. rewrite Z.add_0_l.
  assert (Hk : keys_in_text json ms /\ starts_in 0 e (flatten_members 0 1 ms)).
  { inversion Hs as [? ? ? ? Hl | | | d' off w H1 | d' off w text ms' Hw Hm Hnd]; subst.
    - inversion Hl.
    - split; constructor.
    - split.
      + eapply members_keys; [exact Hm | | ].
        * instantiate (1 := [ch "}"%char] ++ w2).
          instantiate (1 := w1 ++ ch "{"%char :: w). repeat (cbn [app]; rewrite <- !app_assoc). done.
        * rewrite len_app, len_cons. lia.
      + destruct tokens_start_inside as (_ & _ & HM). eapply starts_in_weaken; [| |by eapply HM];
          len_facts; lia. }
  destruct Hk as [Hk Hst].
  pose proof (FindObjectMember_members json 0 e name [] ms 1 ltac:(lia) Hk) as HF.
  rewrite app_nil_r in HF. destruct HF as [[Hn ->]|(ks & t & A & C & Hin & Hfl & Hjj)].
  - eapply Forall_impl; [exact Hst|]. cbn. lia.
  - left. by split.
  - right. exists ks, t, (mkToken JSON_TOKEN_OBJECT s e (-1) (2 * len ms) :: A), C.
    rewrite Hjj in Hfl |- *. rewrite len_cons. split; [done|]. split; [|done].
    cbn [app]. f_equal. exact Hfl.
Qed.

(** On the tokens of a document whose root is an object,
    [JsonFindObjectMember] returns [-1] exactly when no member has the name,
    and otherwise the index of the token at which the member's value starts;
    names inside nested values are never found. *)
Theorem JsonFindObjectMember_root d json s e ms name :
  document d json (JObj s e ms) ->
  let ts := flatten (-1) 0 (JObj s e ms) in
  let j := JsonFindObjectMember (Some json) (Some ts) 0 (Some name) in
  (j = -1 /\ name ∉ map member_key ms) \/
  (exists ks t A C, (name, ks, t) ∈ ms /\ ts = A ++ flatten 0 j t ++ C /\ j = len A).
Proof. apply find_member_root. Qed.

Lemma JsonFindObjectMember_root_witness :
  let text := [123; 34; 97; 34; 58; 49; 125] in
  let ms := [([97], 2, JLeaf JSON_TOKEN_NUMBER 5 6)] in
  let j := JsonFindObjectMember (Some text) (Some (flatten (-1) 0 (JObj 0 7 ms))) 0 (Some [97]) in
  j = 2 /\
  ((j = -1 /\ [97] ∉ map member_key ms) \/
   (exists ks t A C, ([97], ks, t) ∈ ms /\
      flatten (-1) 0 (JObj 0 7 ms) = A ++ flatten 0 j t ++ C /\ j = len A)).
Proof.
  split; [reflexivity|].
  apply (JsonFindObjectMember_root 4 [123; 34; 97; 34; 58; 49; 125] 0 7
           [([97], 2, JLeaf JSON_TOKEN_NUMBER 5 6)] [97]).
  exists [], [123; 34; 97; 34; 58; 49; 125], []. split; [reflexivity|].
  split; [constructor|]. split; [constructor|].
  apply (sp_obj 3 0 [] [34; 97; 34; 58; 49] [([97], 2, JLeaf JSON_TOKEN_NUMBER 5 6)]); [constructor | |].
  - apply (me_one 3 1 [97] [] [] [49] (JLeaf JSON_TOKEN_NUMBER 5 6) []).
    + repeat constructor; discriminate.
    + constructor.
    + constructor.
    + apply sp_leaf. apply (ls_number 5 [49]). exists [], [49], [], []. split; [reflexivity|].
      split; [left; reflexivity|]. split; [right; exists 49, []; repeat split; constructor|].
      split; left; reflexivity.
    + constructor.
  - apply NoDup_singleton.
Defined.

Lemma copy_string_decodes pre b post v par cc size :
  decodes b v -> 0 < size ->
  let r := JsonCopyString (Some (pre ++ b ++ post))
             (mkToken JSON_TOKEN_STRING (len pre) (len pre + len b) par cc) true size in
  if len v <? size then r = Some (JSON_OK, v ++ [NUL])
  else exists o, r = Some (JSON_ERROR_OUTPUT_TOO_SMALL, o) /\ len o < size.
Proof.
  intros Hd Hs r. unfold r, JsonCopyString. rewrite (proj2 (Z.eqb_neq size 0)) by lia.
  cbn [type start tok_end negb orb]. rewrite bool_decide_eq_true_2 by done. cbn [negb].
  apply (JsonCopyString_loop_decodes b v Hd _ _ pre post []); [done | | done].
  unfold len. lia.
Qed.

(** [JsonCopyString] on a string token: the whole denoted text followed
    by a NUL if it fits the buffer, and otherwise [JSON_ERROR_OUTPUT_TOO_SMALL]
    with the buffer never written past its end.  Simple escapes, [\u] escapes
    and surrogate pairs are decoded to UTF-8. *)
Theorem JsonCopyString_decodes pre b post v par cc size :
  decodes b v -> 0 < size ->
  let r := JsonCopyString (Some (pre ++ b ++ post))
             (mkToken JSON_TOKEN_STRING (len pre) (len pre + len b) par cc) true size in
  if len v <? size then r = Some (JSON_OK, v ++ [NUL])
  else exists o, r = Some (JSON_ERROR_OUTPUT_TOO_SMALL, o) /\ len o < size.
Proof. apply copy_string_decodes. Qed.

Lemma JsonCopyString_decodes_witness :
  let b := [97; 92; 110; 92; 117; 48; 48; 101; 57] in
  decodes b [97; 10; 195; 169] /\ 0 < 5 /\
  (let r := JsonCopyString (Some ([34] ++ b ++ [34]))
             (mkToken JSON_TOKEN_STRING (len [34]) (len [34] + len b) 0 0) true 5 in
  if len [97; 10; 195; 169] <? 5 then r = Some (JSON_OK, [97; 10; 195; 169] ++ [NUL])
  else exists o, r = Some (JSON_ERROR_OUTPUT_TOO_SMALL, o) /\ len o < 5).
Proof.
  assert (H : decodes [97; 92; 110; 92; 117; 48; 48; 101; 57] [97; 10; 195; 169]).
  { apply dc_plain; [discriminate|]. apply (dc_simple 110 10); [reflexivity|].
    apply (dc_unit [48; 48; 101; 57] 233 [] []); [split; reflexivity | | | constructor];
      unfold high_surrogate, low_surrogate; lia. }
  split; [exact H|]. split; [lia|].
  apply (JsonCopyString_decodes [34] _ [34] [97; 10; 195; 169] 0 0 5); [exact H | lia].
Defined.

(** [JsonGetUint64] accepts exactly the tokens made of digits whose value
    fits in 64 bits, returns that value, and reports [JSON_ERROR_RANGE] for
    every larger number (no wrap-around). *)
Theorem JsonGetUint64_spec json token :
  type token = JSON_TOKEN_NUMBER -> start token < tok_end token ->
  let d := token_text json token in
  (forall v, JsonGetUint64 (Some json) token true = (JSON_OK, Some v) <->
     digits d /\ v = decimal 0 d /\ v <= UINT64_MAX) /\
  (digits d -> UINT64_MAX < decimal 0 d ->
   JsonGetUint64 (Some json) token true = (JSON_ERROR_RANGE, None)).
Proof.
  intros Ht Hl d. unfold JsonGetUint64. cbn [negb]. rewrite bool_decide_eq_true_2 by done.
  rewrite (proj2 (Z.leb_gt _ _)) by lia. cbn [negb orb]. fold d.
  assert (Hm : 0 <= 0 <= UINT64_MAX) by (unfold UINT64_MAX; lia). split.
  - intros v. split.
    + intros H. pose proof (JsonGetUint64_loop_ok _ _ _ Hm H) as Hd. split; [done|].
      rewrite JsonGetUint64_loop_digits in H by done.
      destruct (Z.leb_spec (decimal 0 d) UINT64_MAX); [|done]. injection H as <-. done.
    + intros (Hd & -> & Hv). rewrite JsonGetUint64_loop_digits by done.
      by rewrite (proj2 (Z.leb_le _ _)) by done.
  - intros Hd Hv. rewrite JsonGetUint64_loop_digits by done.
    by rewrite (proj2 (Z.leb_gt _ _)) by done.
Qed.

Lemma JsonGetUint64_spec_witness :
  let token := mkToken JSON_TOKEN_NUMBER 0 3 0 0 in
  let d := token_text [52; 48; 57] token in
  type token = JSON_TOKEN_NUMBER /\ start token < tok_end token /\
  (forall v, JsonGetUint64 (Some [52; 48; 57]) token true = (JSON_OK, Some v) <->
     digits d /\ v = decimal 0 d /\ v <= UINT64_MAX) /\
  (digits d -> UINT64_MAX < decimal 0 d ->
   JsonGetUint64 (Some [52; 48; 57]) token true = (JSON_ERROR_RANGE, None)).
Proof.
  split; [reflexivity|]. split; [cbn; lia|].
  apply (JsonGetUint64_spec [52; 48; 57] (mkToken JSON_TOKEN_NUMBER 0 3 0 0));
    [reflexivity | cbn; lia].
Defined.

(** A backslash followed by a NUL byte passes [ParseEscape] (the
    [strchr] search finds the terminator of the set), so [ParseJson] accepts a
    document that RFC 8259 excludes, and [JsonCopyString] then refuses the
    string token that the parser handed out. *)
Theorem ParseEscape_accepts_NUL :
  let text := [QUOTE; BACKSLASH; NUL; QUOTE] in
  match ParseJson (Some text) true 4 8 with
  | Done res s =>
      result_error res = JSON_OK /\
      match tokens s with
      | [t] => type t = JSON_TOKEN_STRING /\
               JsonCopyString (Some text) t true 16 = Some (JSON_ERROR_STRING, [])
      | _ => False
      end
  | _ => False
  end.
Proof. vm_compute. repeat split. Qed.
