(* ===== verification/HttpResponse.v ===== *)
(** * HTTP responses of the update client
    (src/src/update/http_response_parser.cpp, src/src/update/body_sinks.cpp)

    [Module Body] models [HttpBodyDecoder], the streaming decoder of an exactly
    framed body, against an interface of body sinks ([BodySink], implemented by
    [BoundedMemoryBodySink]).  Its specification is a byte-level automaton; the
    theorems show that [Feed] implements it for every way the network splits
    the data, and that the automaton accepts exactly the Content-Length and
    chunked wire formats.  [Module Head] models [ParseHttpResponseHead]. *)
From S2P Require Import Prelude.
From Stdlib Require Import Ascii.
Local Open Scope Z_scope.

Definition kMaximumHttpHeaderBytes : Z := 32768.
Definition kMaximumHttpLocationBytes : Z := 2048.
Definition kMaximumHttpContentTypeBytes : Z := 96.

Inductive HttpParseStatus :=
| PS_Ok | PS_NeedMoreData | PS_InvalidArgument | PS_HeaderTooLarge | PS_InvalidStatusLine
| PS_InvalidHeader | PS_DuplicateHeader | PS_UnsupportedTransferEncoding
| PS_UnsupportedContentEncoding | PS_AmbiguousBodyLength | PS_MissingBodyLength
| PS_InvalidContentLength | PS_MissingLocation | PS_OutputTooSmall.

#[export] Instance HttpParseStatus_eq_dec : EqDecision HttpParseStatus.
Proof. solve_decision. Defined.

(** The C strings [location] and [content_type] are the bytes before their
    terminator. *)
Record HttpResponseHead := mkHead {
  status_code : Z;
  has_content_length : bool;
  content_length : Z;
  chunked : bool;
  connection_close : bool;
  location : bytes;
  content_type : bytes;
}.

Inductive HttpBodyStatus :=
| BS_Ok | BS_Complete | BS_InvalidArgument | BS_TooLarge | BS_SinkRejected
| BS_InvalidChunk | BS_UnexpectedData | BS_Truncated.

#[export] Instance HttpBodyStatus_eq_dec : EqDecision HttpBodyStatus.
Proof. solve_decision. Defined.

Definition HttpParseStatusString (status : HttpParseStatus) : bytes :=
  match status with
  | PS_Ok => str "ok"
  | PS_NeedMoreData => str "need more HTTP header data"
  | PS_InvalidArgument => str "invalid argument"
  | PS_HeaderTooLarge => str "HTTP header too large"
  | PS_InvalidStatusLine => str "invalid HTTP status line"
  | PS_InvalidHeader => str "invalid HTTP header"
  | PS_DuplicateHeader => str "duplicate HTTP header"
  | PS_UnsupportedTransferEncoding => str "unsupported transfer encoding"
  | PS_UnsupportedContentEncoding => str "unsupported content encoding"
  | PS_AmbiguousBodyLength => str "ambiguous HTTP body length"
  | PS_MissingBodyLength => str "missing HTTP body length"
  | PS_InvalidContentLength => str "invalid content length"
  | PS_MissingLocation => str "redirect location missing"
  | PS_OutputTooSmall => str "HTTP field too large"
  end.

Definition HttpBodyStatusString (status : HttpBodyStatus) : bytes :=
  match status with
  | BS_Ok => str "ok"
  | BS_Complete => str "complete"
  | BS_InvalidArgument => str "invalid argument"
  | BS_TooLarge => str "HTTP body too large"
  | BS_SinkRejected => str "HTTP body sink rejected data"
  | BS_InvalidChunk => str "invalid chunked HTTP body"
  | BS_UnexpectedData => str "data after HTTP body"
  | BS_Truncated => str "truncated HTTP body"
  end.

(** ** The sink interface: [HttpBodySink::Write] and what it promises *)
Class BodySink (K : Type) := {
  sink_write : K -> bytes -> bool * K;
  sink_bytes : K -> bytes;
  sink_write_appends : forall k d k',
    sink_write k d = (true, k') -> sink_bytes k' = sink_bytes k ++ d;
  sink_write_refuses : forall k d k',
    sink_write k d = (false, k') -> sink_bytes k' = sink_bytes k;
}.

(** [BoundedMemoryBodySink]: the buffer holds [size_] bytes of [capacity_]. *)
Record BoundedMemoryBodySink := mkMemSink {
  mem_buffer : bytes;
  mem_capacity : Z;
  mem_overflowed : bool;
}.

(** [Write] with its new state on both returns. *)
Definition MemSink_Write (s : BoundedMemoryBodySink) (data : bytes)
    : bool * BoundedMemoryBodySink :=
  if mem_capacity s - len (mem_buffer s) <? len data
  then (false, mkMemSink (mem_buffer s) (mem_capacity s) true)
  else (true, mkMemSink (mem_buffer s ++ data) (mem_capacity s) (mem_overflowed s)).

Definition MemSink_Reset (s : BoundedMemoryBodySink) : BoundedMemoryBodySink :=
  mkMemSink [] (mem_capacity s) false.

#[export, refine] Instance MemSink : BodySink BoundedMemoryBodySink := {
  sink_write := MemSink_Write;
  sink_bytes := mem_buffer;
}.
Proof.
  - intros k d k'. unfold MemSink_Write. destruct (_ <? _); [done|]. by intros [= <-].
  - intros k d k'. unfold MemSink_Write. destruct (_ <? _); [|done]. by intros [= <-].
Defined.

(** ** The body decoder *)
Module Body.
Inductive State :=
| kContentLength | kChunkSize | kChunkSizeLf | kChunkData | kChunkDataCr
| kChunkDataLf | kFinalCr | kFinalLf | kComplete | kFailed.

#[export] Instance State_eq_dec : EqDecision State.
Proof. solve_decision. Defined.

(** [sizeof(chunk_line_)]. *)
Definition chunk_line_capacity : Z := 18.

Definition chunk_digit (c : Z) : option Z :=
  if in_range 48 57 c then Some (c - 48)
  else if in_range 97 102 c then Some (c - 97 + 10)
  else if in_range 65 70 c then Some (c - 65 + 10)
  else None.

(** The hexadecimal loop over [chunk_line_]; [None] is [InvalidChunk]. *)
Fixpoint chunk_size_loop (line : bytes) (chunk_size : Z) : option Z :=
  match line with
  | [] => Some chunk_size
  | c :: line' =>
      match chunk_digit c with
      | None => None
      | Some digit =>
          if (UINT64_MAX - digit) / 16 <? chunk_size then None
          else chunk_size_loop line' (u64 (u64 (chunk_size * 16) + digit))
      end
  end.

Section decoder.
Context {K : Type} `{BodySink K}.

Record HttpBodyDecoder := mkDecoder {
  state_ : State;
  remaining_ : Z;
  decoded_bytes_ : Z;
  maximum_body_bytes_ : Z;
  sink_ : K;
  chunk_line_ : bytes;
}.

(** The constructor; the sink pointer is not null. *)
Definition new_decoder (head : HttpResponseHead) (maximum_body_bytes : Z) (sink : K)
    : HttpBodyDecoder :=
  let remaining := if has_content_length head then content_length head else 0 in
  let st :=
    if Bool.eqb (has_content_length head) (chunked head) then kFailed
    else if negb (chunked head) && (maximum_body_bytes <? remaining) then kFailed
    else if negb (chunked head) && (remaining =? 0) then kComplete
    else if chunked head then kChunkSize else kContentLength in
  mkDecoder st remaining 0 maximum_body_bytes sink [].

Definition with_state (d : HttpBodyDecoder) (st : State) : HttpBodyDecoder :=
  mkDecoder st (remaining_ d) (decoded_bytes_ d) (maximum_body_bytes_ d) (sink_ d) (chunk_line_ d).

Definition with_remaining (d : HttpBodyDecoder) (r : Z) : HttpBodyDecoder :=
  mkDecoder (state_ d) r (decoded_bytes_ d) (maximum_body_bytes_ d) (sink_ d) (chunk_line_ d).

Definition with_line (d : HttpBodyDecoder) (l : bytes) : HttpBodyDecoder :=
  mkDecoder (state_ d) (remaining_ d) (decoded_bytes_ d) (maximum_body_bytes_ d) (sink_ d) l.

Definition with_sink (d : HttpBodyDecoder) (k : K) : HttpBodyDecoder :=
  mkDecoder (state_ d) (remaining_ d) (decoded_bytes_ d) (maximum_body_bytes_ d) k (chunk_line_ d).

(** [Fail(status)]: the state is lost, the status returned. *)
Definition Fail (d : HttpBodyDecoder) (status : HttpBodyStatus) : HttpBodyStatus * HttpBodyDecoder :=
  (status, with_state d kFailed).

Definition Write (d : HttpBodyDecoder) (data : bytes) : HttpBodyStatus * HttpBodyDecoder :=
  if len data =? 0 then (BS_Ok, d)
  else if (maximum_body_bytes_ d <? decoded_bytes_ d) ||
          (maximum_body_bytes_ d - decoded_bytes_ d <? len data)
  then Fail d BS_TooLarge
  else
    let '(stored, k) := sink_write (sink_ d) data in
    let d := with_sink d k in
    if negb stored then Fail d BS_SinkRejected
    else (BS_Ok, mkDecoder (state_ d) (remaining_ d) (u64 (decoded_bytes_ d + len data))
                   (maximum_body_bytes_ d) (sink_ d) (chunk_line_ d)).

(** What one iteration of the loop does with the unread data: return a status
    with the data left unread, or continue with the rest. *)
Inductive turn :=
| Return (status : HttpBodyStatus) (unread : bytes) (d : HttpBodyDecoder)
| Continue (rest : bytes) (d : HttpBodyDecoder).

Definition fail_at (d : HttpBodyDecoder) (status : HttpBodyStatus) (unread : bytes) : turn :=
  Return status unread (with_state d kFailed).

Definition complete_status (unread : bytes) : HttpBodyStatus :=
  if len unread =? 0 then BS_Complete else BS_UnexpectedData.

(** Copies [min(available, remaining_)] bytes to the sink. *)
Definition write_available (d : HttpBodyDecoder) (rest : bytes)
    : HttpBodyStatus * HttpBodyDecoder * bytes :=
  let available := Z.min (len rest) (remaining_ d) in
  let '(status, d') := Write d (take (Z.to_nat available) rest) in
  match status with
  | BS_Ok => (BS_Ok, with_remaining d' (remaining_ d' - available), drop (Z.to_nat available) rest)
  | _ => (status, d', rest)
  end.

Definition content_length_turn (d : HttpBodyDecoder) (rest : bytes) : turn :=
  let '(status, d', rest') := write_available d rest in
  match status with
  | BS_Ok =>
      if remaining_ d' =? 0 then Return (complete_status rest') rest' (with_state d' kComplete)
      else Continue rest' d'
  | _ => Return status rest' d'
  end.

Definition chunk_size_turn (d : HttpBodyDecoder) (c : Z) (rest : bytes) : turn :=
  if c =? CR then
    if len (chunk_line_ d) =? 0 then fail_at d BS_InvalidChunk rest
    else match chunk_size_loop (chunk_line_ d) 0 with
    | None => fail_at d BS_InvalidChunk rest
    | Some chunk_size =>
        Continue rest (with_state (with_line (with_remaining d chunk_size) []) kChunkSizeLf)
    end
  else if (c =? LF) || (c =? ch ";"%char) || (chunk_line_capacity <=? len (chunk_line_ d))
  then fail_at d BS_InvalidChunk rest
  else Continue rest (with_line d (chunk_line_ d ++ [c])).

Definition chunk_data_turn (d : HttpBodyDecoder) (c : Z) (rest : bytes) : turn :=
  let '(status, d) := Write d [c] in
  match status with
  | BS_Ok =>
      let d := with_remaining d (remaining_ d - 1) in
      let finish rest d :=
        Continue rest (if remaining_ d =? 0 then with_state d kChunkDataCr else d) in
      if negb (remaining_ d =? 0) && negb (len rest =? 0) then
        let '(status, d, rest') := write_available d rest in
        match status with
        | BS_Ok => finish rest' d
        | _ => Return status rest' d
        end
      else finish rest d
  | _ => Return status rest d
  end.

(** The states that expect one fixed byte. *)
Definition expect_turn (d : HttpBodyDecoder) (c wanted : Z) (next : State) (rest : bytes) : turn :=
  if negb (c =? wanted) then fail_at d BS_InvalidChunk rest
  else Continue rest (with_state d next).

Definition feed_turn (d : HttpBodyDecoder) (data : bytes) : turn :=
  match data with
  | [] => Continue [] d
  | c :: rest =>
      match state_ d with
      | kContentLength => content_length_turn d data
      | kChunkSize => chunk_size_turn d c rest
      | kChunkSizeLf =>
          expect_turn d c LF (if remaining_ d =? 0 then kFinalCr else kChunkData) rest
      | kChunkData => chunk_data_turn d c rest
      | kChunkDataCr => expect_turn d c CR kChunkDataLf rest
      | kChunkDataLf => expect_turn d c LF kChunkSize rest
      | kFinalCr => expect_turn d c CR kFinalLf rest
      | kFinalLf =>
          if negb (c =? LF) then fail_at d BS_InvalidChunk rest
          else Return (complete_status rest) rest (with_state d kComplete)
      | kComplete | kFailed => Continue rest d
      end
  end.

(** [while (consumed < size)], then the return after the loop. *)
Fixpoint feed_loop (fuel : nat) (d : HttpBodyDecoder) (data : bytes)
    : option (HttpBodyStatus * bytes * HttpBodyDecoder) :=
  match data with
  | [] => Some (if decide (state_ d = kComplete) then BS_Complete else BS_Ok, [], d)
  | _ =>
      match fuel with
      | O => None
      | S fuel' =>
          match feed_turn d data with
          | Return status unread d' => Some (status, unread, d')
          | Continue rest d' => feed_loop fuel' d' rest
          end
      end
  end.

(** [Feed]: the status, [*consumed] and the decoder; [None] is out of fuel. *)
Definition Feed (d : HttpBodyDecoder) (data : bytes)
    : option (HttpBodyStatus * Z * HttpBodyDecoder) :=
  match state_ d with
  | kFailed => Some (BS_InvalidArgument, 0, d)
  | kComplete => Some (if len data =? 0 then BS_Complete else BS_UnexpectedData, 0, d)
  | _ =>
      match feed_loop (length data) d data with
      | None => None
      | Some (status, unread, d') => Some (status, len data - len unread, d')
      end
  end.

Definition Finish (d : HttpBodyDecoder) : HttpBodyStatus * HttpBodyDecoder :=
  match state_ d with
  | kComplete => (BS_Complete, d)
  | kFailed => (BS_InvalidArgument, d)
  | _ => Fail d BS_Truncated
  end.

Definition complete (d : HttpBodyDecoder) : bool := bool_decide (state_ d = kComplete).

(** *** The specification: one byte at a time *)
(** Control state: state, bytes remaining, chunk-size line so far. *)
Definition ctl : Type := State * Z * bytes.
Definition ctl_of (d : HttpBodyDecoder) : ctl := (state_ d, remaining_ d, chunk_line_ d).

(** The next control state and the payload bytes emitted. *)
Definition advance (c : ctl) (b : Z) : option (ctl * bytes) :=
  let '(st, r, l) := c in
  match st with
  | kContentLength => Some (if r - 1 =? 0 then kComplete else kContentLength, r - 1, l, [b])
  | kChunkSize =>
      if b =? CR then
        if len l =? 0 then None
        else match chunk_size_loop l 0 with
        | None => None
        | Some n => Some (kChunkSizeLf, n, [], [])
        end
      else if (b =? LF) || (b =? ch ";"%char) || (chunk_line_capacity <=? len l) then None
      else Some (kChunkSize, r, l ++ [b], [])
  | kChunkSizeLf =>
      if b =? LF then Some (if r =? 0 then kFinalCr else kChunkData, r, l, []) else None
  | kChunkData => Some (if r - 1 =? 0 then kChunkDataCr else kChunkData, r - 1, l, [b])
  | kChunkDataCr => if b =? CR then Some (kChunkDataLf, r, l, []) else None
  | kChunkDataLf => if b =? LF then Some (kChunkSize, r, l, []) else None
  | kFinalCr => if b =? CR then Some (kFinalLf, r, l, []) else None
  | kFinalLf => if b =? LF then Some (kComplete, r, l, []) else None
  | kComplete | kFailed => None
  end.

Fixpoint runs (c : ctl) (w : bytes) : option (ctl * bytes) :=
  match w with
  | [] => Some (c, [])
  | b :: w' =>
      match advance c b with
      | None => None
      | Some (c', out) =>
          match runs c' w' with
          | None => None
          | Some (c'', out') => Some (c'', out ++ out')
          end
      end
  end.

Lemma runs_app c w1 w2 :
  runs c (w1 ++ w2) =
  match runs c w1 with
  | None => None
  | Some (c1, out1) =>
      match runs c1 w2 with None => None | Some (c2, out2) => Some (c2, out1 ++ out2) end
  end.
Proof.
  induction w1 as [|b w1 IH] in c |- *; cbn [app runs].
  { by destruct (runs c w2) as [[? ?]|]. }
  destruct (advance c b) as [[c' out]|]; [|done]. rewrite IH.
  destruct (runs c' w1) as [[c1 out1]|]; [|done].
  destruct (runs c1 w2) as [[c2 out2]|]; [|done]. by rewrite app_assoc.
Qed.

Lemma runs_content r l w : 0 < len w <= r ->
  runs (kContentLength, r, l) w =
  Some (if r - len w =? 0 then kComplete else kContentLength, r - len w, l, w).
Proof.
  induction w as [|b w IH] in r |- *; [change (len (@nil Z)) with 0; lia|]. rewrite len_cons. intros Hr.
  cbn [runs advance]. destruct w as [|b' w].
  - change (len (@nil Z)) with 0. cbn [runs app]. by replace (1 + 0) with 1 by lia.
  - rewrite len_cons in *. pose proof (len_nonneg w). rewrite (proj2 (Z.eqb_neq _ _)) by lia.
    rewrite IH by lia. cbn [app].
    by replace (r - 1 - (1 + len w)) with (r - (1 + (1 + len w))) by lia.
Qed.

Lemma runs_chunk_data r l w : 0 < len w <= r ->
  runs (kChunkData, r, l) w =
  Some (if r - len w =? 0 then kChunkDataCr else kChunkData, r - len w, l, w).
Proof.
  induction w as [|b w IH] in r |- *; [change (len (@nil Z)) with 0; lia|]. rewrite len_cons. intros Hr.
  cbn [runs advance]. destruct w as [|b' w].
  - change (len (@nil Z)) with 0. cbn [runs app]. by replace (1 + 0) with 1 by lia.
  - rewrite len_cons in *. pose proof (len_nonneg w). rewrite (proj2 (Z.eqb_neq _ _)) by lia.
    rewrite IH by lia. cbn [app].
    by replace (r - 1 - (1 + len w)) with (r - (1 + (1 + len w))) by lia.
Qed.

(** *** Invariant and simulation *)
Definition needs_data (st : State) : bool :=
  match st with kContentLength | kChunkData => true | _ => false end.

Definition wf (d : HttpBodyDecoder) : Prop :=
  0 <= decoded_bytes_ d <= maximum_body_bytes_ d /\ maximum_body_bytes_ d <= UINT64_MAX /\
  0 <= remaining_ d /\ (needs_data (state_ d) = true -> 0 < remaining_ d).

(** The sinks that writes lead to; only writes that succeed if [ok]. *)
Inductive reached (ok : bool) (k0 : K) : K -> Prop :=
| reached_refl : reached ok k0 k0
| reached_step k d stored k' : reached ok k0 k -> sink_write k d = (stored, k') -> (ok = true -> stored = true) ->
    reached ok k0 k'.

Lemma reached_trans ok k0 k1 k2 : reached ok k0 k1 -> reached ok k1 k2 -> reached ok k0 k2.
Proof. intros H1 H2. induction H2; [done | by eapply reached_step]. Qed.

Lemma reached_any ok k0 k : reached ok k0 k -> reached false k0 k.
Proof. intros Hr. induction Hr; [constructor | by eapply reached_step]. Qed.

(** [d'] has received the further payload [out] within the limit; without a refusal
    of the sink if [ok]. *)
Definition grows (ok : bool) (d d' : HttpBodyDecoder) (out : bytes) : Prop :=
  sink_bytes (sink_ d') = sink_bytes (sink_ d) ++ out /\
  decoded_bytes_ d' = decoded_bytes_ d + len out /\
  maximum_body_bytes_ d' = maximum_body_bytes_ d /\
  decoded_bytes_ d' <= maximum_body_bytes_ d /\
  reached ok (sink_ d) (sink_ d').

Definition steps (d d' : HttpBodyDecoder) (w : bytes) : Prop :=
  exists out, runs (ctl_of d) w = Some (ctl_of d', out) /\ grows true d d' out /\ wf d'.

(** The three reasons for which data may be refused. *)
Definition refused (d : HttpBodyDecoder) (data : bytes) : Prop :=
  runs (ctl_of d) data = None \/
  (exists w rest c out, data = w ++ rest /\ runs (ctl_of d) w = Some (c, out) /\
     maximum_body_bytes_ d - decoded_bytes_ d < len out) \/
  (exists (k : K) dd, reached false (sink_ d) k /\ (sink_write k dd).1 = false /\
     len (sink_bytes k) + len dd <=
     len (sink_bytes (sink_ d)) + (maximum_body_bytes_ d - decoded_bytes_ d)).

Definition failure (st : HttpBodyStatus) : Prop :=
  st = BS_TooLarge \/ st = BS_SinkRejected \/ st = BS_InvalidChunk.

Definition turn_ok (d : HttpBodyDecoder) (data : bytes) (t : turn) : Prop :=
  match t with
  | Continue rest d' => exists w, data = w ++ rest /\ w <> [] /\ steps d d' w /\ state_ d' <> kComplete /\ state_ d' <> kFailed
  | Return st unread d' =>
      (exists w, data = w ++ unread /\ w <> [] /\ steps d d' w /\ state_ d' = kComplete /\
         st = complete_status unread) \/
      (state_ d' = kFailed /\ failure st /\ refused d data /\
       exists out, grows false d d' out)
  end.

Lemma grows_refl ok d : wf d -> grows ok d d [].
Proof. intros (H1 & _). unfold grows. rewrite app_nil_r.
  change (len (@nil Z)) with 0. repeat split; try lia. constructor. Qed.

Lemma grows_trans ok d d1 d2 o1 o2 : grows ok d d1 o1 -> grows ok d1 d2 o2 -> grows ok d d2 (o1 ++ o2).
Proof.
  intros (A1 & A2 & A3 & A4 & A5) (B1 & B2 & B3 & B4 & B5). unfold grows.
  rewrite B1, A1, app_assoc, len_app. split; [done|]. split; [lia|]. split; [lia|].
  split; [lia|]. by eapply reached_trans.
Qed.

Lemma grows_any ok d d' out : grows ok d d' out -> grows false d d' out.
Proof. intros (G1 & G2 & G3 & G4 & G5). repeat (split; [done|]). by eapply reached_any. Qed.

Lemma steps_trans d d1 d2 w1 w2 : steps d d1 w1 -> steps d1 d2 w2 -> steps d d2 (w1 ++ w2).
Proof.
  intros (o1 & R1 & G1 & W1) (o2 & R2 & G2 & W2). exists (o1 ++ o2).
  rewrite runs_app, R1, R2. split; [done|]. split; [by eapply grows_trans | done].
Qed.

(** [Write] either stores the data or fails for one of the two reasons. *)
Lemma Write_spec d data : wf d ->
  let '(st, d') := Write d data in
  (st = BS_Ok /\ grows true d d' data /\ ctl_of d' = ctl_of d) \/
  (failure st /\ state_ d' = kFailed /\ grows false d d' [] /\
   (maximum_body_bytes_ d - decoded_bytes_ d < len data \/
    exists (k : K) dd, reached false (sink_ d) k /\ (sink_write k dd).1 = false /\ len (sink_bytes k) + len dd <=
      len (sink_bytes (sink_ d)) + (maximum_body_bytes_ d - decoded_bytes_ d))).
Proof.
  intros Hw. pose proof Hw as (H1 & H2 & _). unfold Write. destruct (Z.eqb_spec (len data) 0) as [E|E].
  { destruct data; [|rewrite len_cons in E; len_facts; lia].
    left. split; [done|]. split; [by apply grows_refl | done]. }
  pose proof (fun ok => grows_refl ok d Hw) as Hg. len_facts.
  rewrite (proj2 (Z.ltb_ge (maximum_body_bytes_ d) _)) by lia. cbn [orb].
  destruct (Z.ltb_spec (maximum_body_bytes_ d - decoded_bytes_ d) (len data)) as [Hl|Hl].
  { right. split; [by left|]. split; [done|]. split; [exact (Hg false) | by left]. }
  destruct (sink_write (sink_ d) data) as [[|] k] eqn:Ek; cbn [negb].
  - left. split; [done|]. split; [|done]. unfold grows. cbn.
    unfold UINT64_MAX in H2. rewrite u64_small by lia.
    split; [by apply sink_write_appends|]. split; [lia|]. split; [lia|]. split; [lia|].
    by eapply reached_step; [constructor|exact Ek|].
  - right. split; [right; by left|]. split; [done|]. split.
    { unfold grows. cbn. rewrite app_nil_r. change (len (@nil Z)) with 0. split; [by eapply sink_write_refuses|].
      split; [lia|]. split; [done|]. split; [lia|]. by eapply reached_step; [constructor|exact Ek|]. }
    right. exists (sink_ d), data. split; [constructor|]. rewrite Ek. split; [done | lia].
Qed.

(** A silent step that only changes the control state. *)
Lemma steps_silent d d' b : wf d ->
  advance (ctl_of d) b = Some (ctl_of d', []) ->
  sink_ d' = sink_ d -> decoded_bytes_ d' = decoded_bytes_ d ->
  maximum_body_bytes_ d' = maximum_body_bytes_ d ->
  0 <= remaining_ d' -> (needs_data (state_ d') = true -> 0 < remaining_ d') ->
  steps d d' [b].
Proof.
  intros (H1 & H2 & H3 & H4) Ha Hs Hd Hm Hr Hn. exists []. cbn [runs]. rewrite Ha. split; [done|].
  split; [|unfold wf; rewrite Hm, Hd; done].
  unfold grows. rewrite Hs, Hd, Hm, app_nil_r. change (len (@nil Z)) with 0.
  repeat split; try lia. constructor.
Qed.

Lemma fail_refused d data unread :
  wf d -> runs (ctl_of d) data = None -> turn_ok d data (fail_at d BS_InvalidChunk unread).
Proof.
  intros Hw Hr. right. split; [done|]. split; [by right; right|]. split; [by left|].
  exists []. exact (grows_refl false d Hw).
Qed.

Lemma advance_None_runs c b w : advance c b = None -> runs c (b :: w) = None.
Proof. intros Ha. cbn [runs]. by rewrite Ha. Qed.

Lemma chunk_size_loop_nonneg line n m : 0 <= n <= UINT64_MAX ->
  chunk_size_loop line n = Some m -> 0 <= m <= UINT64_MAX.
Proof.
  revert n. induction line as [|c line IH]; intros n Hn; cbn [chunk_size_loop]; [by intros [= <-]|].
  destruct (chunk_digit c); [|done]. destruct (_ <? _); [done|]. apply IH.
  unfold UINT64_MAX, u64. pose proof (Z.mod_pos_bound (u64 (n * 16) + z) (2 ^ 64)).
  unfold u64 in *. lia.
Qed.

Lemma expect_turn_ok d c wanted next rest : wf d ->
  (forall b, advance (ctl_of d) b =
     if b =? wanted then Some (next, remaining_ d, chunk_line_ d, []) else None) ->
  next <> kComplete -> next <> kFailed -> (needs_data next = true -> 0 < remaining_ d) ->
  turn_ok d (c :: rest) (expect_turn d c wanted next rest).
Proof.
  intros Hw Ha Hn1 Hn2 Hr. unfold expect_turn. specialize (Ha c). destruct (c =? wanted); cbn [negb].
  - exists [c]. split; [done|]. split; [done|]. split; [|done].
    apply steps_silent; try done. by destruct Hw as (_ & _ & ? & _).
  - apply fail_refused; [done|]. by apply advance_None_runs.
Qed.

Lemma chunk_size_turn_ok d c rest : wf d -> state_ d = kChunkSize ->
  turn_ok d (c :: rest) (chunk_size_turn d c rest).
Proof.
  intros Hw Hst. unfold chunk_size_turn.
  assert (Hctl : ctl_of d = (kChunkSize, remaining_ d, chunk_line_ d)) by (unfold ctl_of; by rewrite Hst).
  assert (HN : advance (ctl_of d) c = None -> turn_ok d (c :: rest) (fail_at d BS_InvalidChunk rest)).
  { intros Ha. apply fail_refused; [done|]. by apply advance_None_runs. }
  rewrite Hctl in HN. cbn [advance] in HN.
  destruct (c =? CR) eqn:E1.
  - destruct (len (chunk_line_ d) =? 0) eqn:E2; [by apply HN|].
    destruct (chunk_size_loop (chunk_line_ d) 0) as [n|] eqn:E3; [|by apply HN].
    assert (0 <= n) by (apply (chunk_size_loop_nonneg _ 0) in E3; unfold UINT64_MAX in *; lia).
    exists [c]. split; [done|]. split; [done|]. split; [|done].
    apply steps_silent; try done. rewrite Hctl. cbn [advance]. by rewrite E1, E2, E3.
  - destruct ((c =? LF) || (c =? ch ";"%char) || (chunk_line_capacity <=? len (chunk_line_ d))) eqn:E2.
    { by apply HN. }
    exists [c]. split; [done|]. split; [done|]. cbn [state_ with_line]. rewrite Hst. split; [|done].
    destruct Hw as (H1 & H2 & H3 & H4).
    apply steps_silent; try done. rewrite Hctl. cbn [advance]. rewrite E1, E2. unfold ctl_of.
    cbn [state_ remaining_ chunk_line_ with_line]. by rewrite Hst.
Qed.

(** Copying the available data, from either of the two data states. *)
Lemma write_available_ok d rest (fin : State) : wf d -> rest <> [] ->
  needs_data (state_ d) = true -> state_ d <> fin ->
  (forall w, 0 < len w <= remaining_ d -> runs (ctl_of d) w =
     Some (if remaining_ d - len w =? 0 then fin else state_ d, remaining_ d - len w, chunk_line_ d, w)) ->
  let '(st, d', rest') := write_available d rest in
  (st = BS_Ok /\ exists w, rest = w ++ rest' /\ w <> [] /\
     runs (ctl_of d) w = Some (if remaining_ d' =? 0 then fin else state_ d, remaining_ d', chunk_line_ d', w) /\
     grows true d d' w /\ 0 <= remaining_ d' /\ state_ d' = state_ d) \/
  (failure st /\ state_ d' = kFailed /\ refused d rest /\ grows false d d' []).
Proof.
  intros Hw Hne Hnd Hfin Hruns. pose proof Hw as (H1 & H2 & H3 & H4). specialize (H4 Hnd).
  unfold write_available. set (n := Z.min (len rest) (remaining_ d)).
  assert (Hpos : 0 < len rest) by (destruct rest; [done|]; rewrite len_cons; len_facts; lia).
  assert (Hn : 0 < n <= remaining_ d /\ n <= len rest) by lia.
  set (w := take (Z.to_nat n) rest).
  assert (Hlw : len w = n) by (unfold w, len in *; rewrite length_take; lia).
  assert (Hsplit : rest = w ++ drop (Z.to_nat n) rest) by (unfold w; by rewrite take_drop).
  pose proof (Write_spec d w Hw) as HW. destruct (Write d w) as [st d'].
  destruct HW as [(-> & Hg & Hc)|(Hf & Hs & Hg & Hwhy)].
  - left. split; [done|]. exists w. unfold ctl_of in Hc. injection Hc as C1 C2 C3.
    cbn [remaining_ with_remaining chunk_line_ state_]. rewrite C1, C2, C3.
    split; [exact Hsplit|]. split; [intros E; rewrite E in Hlw; change (len (@nil Z)) with 0 in Hlw; lia|].
    split; [rewrite Hruns by lia; by rewrite Hlw|]. split; [exact Hg|]. split; [lia | done].
  - assert (Hr : refused d rest).
    { destruct Hwhy as [Hl|Hk]; [|by right; right]. right; left.
      eexists w, _, _, w. split; [exact Hsplit|]. split; [by apply Hruns; lia | done]. }
    destruct st; try (by destruct Hf as [|[|]]); right; done.
Qed.

Lemma content_length_turn_ok d data : wf d -> state_ d = kContentLength -> data <> [] ->
  turn_ok d data (content_length_turn d data).
Proof.
  intros Hw Hst Hne. unfold content_length_turn.
  pose proof (write_available_ok d data kComplete Hw Hne) as HA. rewrite Hst in HA.
  destruct (write_available d data) as [[st d'] rest'].
  destruct HA as [(-> & w & Hd & Hwn & Hr & Hg & Hrem & Hs)|(Hf & Hs & Hr & Hg)]; try done.
  { intros w Hlw. unfold ctl_of. rewrite Hst. by apply runs_content. }
  - assert (Hwf : forall s', (needs_data s' = true -> 0 < remaining_ d') -> wf (with_state d' s')).
    { intros s' Hs'. destruct Hw as (H1 & H2 & _). destruct Hg as (_ & G2 & G3 & G4 & G5).
      unfold wf. cbn. len_facts. rewrite G3. repeat split; try lia. exact Hs'. }
    destruct (remaining_ d' =? 0) eqn:E.
    + left. exists w. repeat split; try done. exists w. split; [exact Hr|]. split; [exact Hg|].
      by apply Hwf.
    + zbool. exists w. rewrite Hs. repeat split; try done. exists w. split.
      * rewrite Hr. unfold ctl_of. by rewrite Hs.
      * split; [exact Hg|]. specialize (Hwf (state_ d')). destruct d'; cbn in *. apply Hwf. lia.
  - destruct st; try (by destruct Hf as [|[|]]); right; repeat split; try done; by exists [].
Qed.

Lemma refused_cons d d1 w rest : steps d d1 w -> refused d1 rest -> refused d (w ++ rest).
Proof.
  intros (o & R & (G1 & G2 & G3 & G4 & G5) & W) [H1|[(w2 & r2 & c2 & o2 & -> & R2 & Hl)|(k & dd & Hre & Hk & Hl)]].
  - left. by rewrite runs_app, R, H1.
  - right; left. exists (w ++ w2), r2, c2, (o ++ o2). rewrite app_assoc. split; [done|].
    rewrite runs_app, R, R2, len_app. split; [done | lia].
  - right; right. exists k, dd. split; [by eapply reached_trans; [eapply reached_any|]|]. split; [done|]. rewrite G1, len_app in Hl. lia.
Qed.

Lemma chunk_data_turn_ok d c rest : wf d -> state_ d = kChunkData ->
  turn_ok d (c :: rest) (chunk_data_turn d c rest).
Proof.
  intros Hw Hst. pose proof Hw as (H1 & H2 & H3 & H4). rewrite Hst in H4. specialize (H4 eq_refl).
  unfold chunk_data_turn. pose proof (Write_spec d [c] Hw) as HW.
  destruct (Write d [c]) as [st d1]. destruct HW as [(-> & Hg & Hc)|(Hf & Hs & Hg & Hwhy)].
  2:{ assert (Hr : refused d (c :: rest)).
      { destruct Hwhy as [Hl|Hk]; [|by right; right]. right; left. eexists [c], rest, _, [c].
        split; [done|]. split; [|done]. unfold ctl_of. rewrite Hst. cbn [runs advance]. done. }
      destruct st; try (by destruct Hf as [|[|]]); right; repeat split; try done; by exists []. }
  unfold ctl_of in Hc. injection Hc as C1 C2 C3. rewrite Hst in C1.
  set (d2 := with_remaining d1 (remaining_ d1 - 1)).
  assert (Hr2 : remaining_ d2 = remaining_ d - 1) by (cbn; lia).
  assert (Hg2 : grows true d d2 [c]) by exact Hg.
  assert (Hlast : remaining_ d - 1 = 0 -> steps d (with_state d2 kChunkDataCr) [c]).
  { intros E. exists [c]. split; [|split; [exact Hg|]].
    - unfold ctl_of. cbn [state_ remaining_ chunk_line_ with_state]. rewrite Hr2, Hst. cbn [runs advance].
      rewrite E. cbn. by rewrite C3.
    - destruct Hg as (_ & G2 & G3 & G4 & G5). len_facts. unfold wf. cbn. repeat split; try lia; done. }
  assert (Hmore : remaining_ d - 1 <> 0 -> steps d d2 [c]).
  { intros E. exists [c]. split; [|split; [exact Hg|]].
    - unfold ctl_of. rewrite Hr2, Hst. cbn [runs advance]. rewrite (proj2 (Z.eqb_neq _ 0)) by done.
      cbn [state_ with_remaining chunk_line_ d2]. by rewrite C1, C3.
    - destruct Hg as (_ & G2 & G3 & G4 & G5). len_facts. unfold wf. cbn. repeat split; try lia. }
  rewrite Hr2. destruct (Z.eqb_spec (remaining_ d - 1) 0) as [E|E]; cbn [negb andb].
  { exists [c]. split; [done|]. split; [done|]. by split; [apply Hlast|]. }
  specialize (Hmore E). destruct (Z.eqb_spec (len rest) 0) as [E0|E0]; cbn [negb].
  { exists [c]. split; [done|]. split; [done|].
    split; [done|]. cbn [state_ d2 with_remaining]. by rewrite C1. }
  assert (Hw2 : wf d2) by (by destruct Hmore as (? & _ & _ & ?)).
  assert (Hs2 : state_ d2 = kChunkData) by exact C1.
  assert (Hne : rest <> []) by (by intros ->).
  pose proof (write_available_ok d2 rest kChunkDataCr Hw2 Hne) as HA. rewrite Hs2 in HA.
  destruct (write_available d2 rest) as [[st d3] rest'].
  destruct HA as [(-> & w & Hd & Hwn & Hr & Hg3 & Hrem & Hs3)|(Hf & Hs & Hr & Hg3)]; try done.
  { intros w Hlw. unfold ctl_of. rewrite Hs2. by apply runs_chunk_data. }
  - exists (c :: w). split; [by rewrite Hd|]. split; [done|].
    set (d4 := if remaining_ d3 =? 0 then with_state d3 kChunkDataCr else d3).
    assert (Hd4 : steps d2 d4 w /\ state_ d4 <> kComplete /\ state_ d4 <> kFailed).
    { destruct Hw2 as (A1 & A2 & _). pose proof Hg3 as (_ & G2 & G3 & G4 & G5). len_facts.
      unfold d4. destruct (Z.eqb_spec (remaining_ d3) 0) as [E3|E3].
      - split; [|done]. exists w. split; [exact Hr|]. split; [exact Hg3|].
        unfold wf. cbn. repeat split; try lia; done.
      - rewrite Hs3. split; [|done]. exists w. split; [rewrite Hr; unfold ctl_of; by rewrite Hs3|].
        split; [exact Hg3|]. unfold wf. repeat split; lia. }
    split; [|by destruct Hd4]. change (c :: w) with ([c] ++ w). eapply steps_trans; [exact Hmore|].
    by destruct Hd4.
  - pose proof (refused_cons _ _ [c] rest Hmore Hr) as Hrr.
    assert (Hgg : grows false d d3 ([c] ++ [])) by (by eapply grows_trans; [eapply grows_any|]).
    destruct st; try (by destruct Hf as [|[|]]); right; repeat split; try done; by eexists.
Qed.

Lemma feed_turn_ok d data : wf d -> data <> [] -> state_ d <> kComplete -> state_ d <> kFailed ->
  turn_ok d data (feed_turn d data).
Proof.
  intros Hw Hne Hc Hf. destruct data as [|c rest]; [done|]. unfold feed_turn.
  pose proof Hw as (H1 & H2 & H3 & H4).
  destruct (state_ d) eqn:Hst; try done.
  - by apply content_length_turn_ok.
  - by apply chunk_size_turn_ok.
  - apply expect_turn_ok; [done | | by destruct (_ =? _) | by destruct (_ =? _) |].
    + intros b. unfold ctl_of. by rewrite Hst.
    + destruct (Z.eqb_spec (remaining_ d) 0); [done|]. intros _. lia.
  - by apply chunk_data_turn_ok.
  - apply expect_turn_ok; try done. intros b. unfold ctl_of. by rewrite Hst.
  - apply expect_turn_ok; try done. intros b. unfold ctl_of. by rewrite Hst.
  - apply expect_turn_ok; try done. intros b. unfold ctl_of. by rewrite Hst.
  - destruct (c =? LF) eqn:E; cbn [negb].
    + left. exists [c]. split; [done|]. split; [done|]. split; [|done].
      apply steps_silent; try done. unfold ctl_of. rewrite Hst. cbn [advance]. by rewrite E.
    + apply fail_refused; [done|]. apply advance_None_runs. unfold ctl_of. rewrite Hst.
      cbn [advance]. by rewrite E.
Qed.

(** What a [Feed] reports, in terms of the automaton. *)
Definition feed_ok (d : HttpBodyDecoder) (data : bytes) (st : HttpBodyStatus) (unread : bytes)
    (d' : HttpBodyDecoder) : Prop :=
  (st = BS_Ok /\ unread = [] /\ steps d d' data /\ state_ d' <> kComplete /\ state_ d' <> kFailed) \/
  (exists w, data = w ++ unread /\ steps d d' w /\ state_ d' = kComplete /\
     st = complete_status unread) \/
  (state_ d' = kFailed /\ failure st /\ refused d data /\ exists out, grows false d d' out).

Lemma steps_refl d : wf d -> steps d d [].
Proof. intros Hw. exists []. split; [done|]. split; [by apply grows_refl | done]. Qed.

Lemma feed_loop_ok fuel d data : wf d -> state_ d <> kComplete -> state_ d <> kFailed ->
  (length data <= fuel)%nat ->
  exists st unread d', feed_loop fuel d data = Some (st, unread, d') /\ feed_ok d data st unread d'.
Proof.
  revert d data. induction fuel as [|fuel IH]; intros d data Hw Hc Hf Hn.
  { destruct data; [|simpl in Hn; lia]. exists BS_Ok, [], d. cbn [feed_loop].
    rewrite decide_False by done. split; [done|]. left. repeat split; try done. by apply steps_refl. }
  destruct data as [|c rest].
  { exists BS_Ok, [], d. cbn [feed_loop].
    rewrite decide_False by done. split; [done|]. left. repeat split; try done. by apply steps_refl. }
  cbn [feed_loop]. pose proof (feed_turn_ok d (c :: rest) Hw ltac:(done) Hc Hf) as HT.
  destruct (feed_turn d (c :: rest)) as [st unread d' | rest' d'].
  - exists st, unread, d'. split; [done|]. destruct HT as [(w & E & _ & S & Hs & Est)|Hfail].
    + right; left. by exists w.
    + right; right. exact Hfail.
  - destruct HT as (w & E & Hwn & S & Hc' & Hf'). rewrite E.
    destruct (IH d' rest') as (st & unread & d2 & Hl & Hok); try done.
    { by destruct S as (? & _ & _ & ?). }
    { apply (f_equal length) in E. rewrite length_app in E. destruct w; [done|]. simpl in *. lia. }
    exists st, unread, d2. split; [done|].
    destruct Hok as [(-> & -> & S2 & Hx)|[(w2 & -> & S2 & Hx)|(Hx & Hy & Hr & out & G)]].
    + left. repeat split; try tauto. by eapply steps_trans.
    + right; left. exists (w ++ w2). rewrite <- app_assoc. split; [done|]. split; [|done].
      by eapply steps_trans.
    + right; right. split; [done|]. split; [done|]. split; [by eapply refused_cons|].
      destruct S as (o & _ & G1 & _). exists (o ++ out). by eapply grows_trans; [eapply grows_any|].
Qed.

Lemma Feed_ok d data : wf d -> state_ d <> kComplete -> state_ d <> kFailed ->
  exists st unread d', Feed d data = Some (st, len data - len unread, d') /\
    feed_ok d data st unread d'.
Proof.
  intros Hw Hc Hf. destruct (feed_loop_ok (length data) d data Hw Hc Hf) as (st & u & d' & E & Hok); [done|].
  exists st, u, d'. split; [|done]. unfold Feed. rewrite E. by destruct (state_ d).
Qed.

(** *** A body fed in network segments *)
(** The caller stops at the first status other than [Ok] and [Complete]. *)
Fixpoint feed_all (d : HttpBodyDecoder) (segments : list bytes) : option HttpBodyDecoder :=
  match segments with
  | [] => Some d
  | data :: segments' =>
      match Feed d data with
      | Some (BS_Ok, _, d') | Some (BS_Complete, _, d') => feed_all d' segments'
      | _ => None
      end
  end.

Lemma complete_status_Complete u : complete_status u = BS_Complete <-> u = [].
Proof.
  unfold complete_status. destruct u as [|x u]; [done|]. rewrite len_cons.
  pose proof (len_nonneg u). rewrite (proj2 (Z.eqb_neq _ 0)) by lia. by split.
Qed.

Lemma feed_all_complete d segs d' : state_ d = kComplete -> feed_all d segs = Some d' ->
  d' = d /\ concat segs = [].
Proof.
  revert d. induction segs as [|s segs IH]; intros d Hc; cbn [feed_all]; [by intros [= ->]|].
  unfold Feed. rewrite Hc. destruct (Z.eqb_spec (len s) 0) as [E|E]; [|done]. intros Hf.
  destruct (IH _ Hc Hf) as [-> Hs]. split; [done|]. cbn [concat]. rewrite Hs.
  destruct s; [done|]. rewrite len_cons in E. len_facts. lia.
Qed.

Lemma feed_all_sound d segs d' : wf d -> state_ d <> kFailed ->
  feed_all d segs = Some d' -> steps d d' (concat segs).
Proof.
  revert d. induction segs as [|s segs IH]; intros d Hw Hf; cbn [feed_all concat].
  { intros [= <-]. by apply steps_refl. }
  destruct (decide (state_ d = kComplete)) as [Hc|Hc].
  { intros H1. destruct (feed_all_complete d (s :: segs) d' Hc H1) as [-> E].
    change (s ++ concat segs) with (concat (s :: segs)). rewrite E. by apply steps_refl. }
  destruct (Feed_ok d s Hw Hc Hf) as (st & u & d1 & E & Hok). rewrite E.
  destruct Hok as [(-> & -> & S & _ & Hf1)|[(w & -> & S & Hs & ->)|(_ & [->|[->| ->]] & _)]]; try done.
  - intros H1. eapply steps_trans; [exact S|]. apply IH; try done. by destruct S as (? & _ & _ & ?).
  - destruct (complete_status u) eqn:Eu; try done.
    + by unfold complete_status in Eu; destruct (_ =? _).
    + apply complete_status_Complete in Eu. subst u. rewrite app_nil_r. intros H1.
      eapply steps_trans; [exact S|]. apply IH; [by destruct S as (? & _ & _ & ?) | by rewrite Hs | done].
Qed.

(** The sink [k0] takes everything up to [limit] bytes in all. *)
Definition accepting (k0 : K) (limit : Z) : Prop :=
  forall (k : K) dd, reached false k0 k -> len (sink_bytes k) + len dd <= limit ->
  (sink_write k dd).1 = true.

Lemma runs_complete c w : c.1.1 = kComplete -> w <> [] -> runs c w = None.
Proof. destruct c as [[st r] l]. cbn [fst]. intros -> Hw. by destruct w. Qed.

Lemma feed_all_complete_spec d segs c out : wf d -> state_ d <> kFailed ->
  accepting (sink_ d) (len (sink_bytes (sink_ d)) + (maximum_body_bytes_ d - decoded_bytes_ d)) ->
  runs (ctl_of d) (concat segs) = Some (c, out) -> c.1.1 = kComplete ->
  len out <= maximum_body_bytes_ d - decoded_bytes_ d ->
  exists d', feed_all d segs = Some d'.
Proof.
  revert d c out. induction segs as [|s segs IH]; intros d c out Hw Hf Hacc Hr Hc Hl; cbn [feed_all].
  { by exists d. }
  cbn [concat] in Hr. rewrite runs_app in Hr.
  destruct (runs (ctl_of d) s) as [[c1 o1]|] eqn:Rs; [|done].
  destruct (runs c1 (concat segs)) as [[c2 o2]|] eqn:R2; [|done]. injection Hr as <- <-.
  rewrite len_app in Hl.
  destruct (decide (state_ d = kComplete)) as [Hd|Hd].
  { destruct s as [|x s].
    - unfold Feed. rewrite Hd. cbn [len length Z.of_nat Z.eqb]. apply (IH d c2 o2); try done.
      + cbn [runs] in Rs. by injection Rs as -> <-.
      + len_facts. lia.
    - rewrite runs_complete in Rs; [done | exact Hd | done]. }
  destruct (Feed_ok d s Hw Hd Hf) as (st & u & d1 & E & Hok). rewrite E.
  assert (Hnext : forall S : steps d d1 s, state_ d1 <> kFailed -> exists d', feed_all d1 segs = Some d').
  { intros (o & R & (G1 & G2 & G3 & G4 & G5) & W) Hf1. rewrite R in Rs. injection Rs as <- <-.
    apply (IH d1 c2 o2); try done.
    - rewrite G1, G2, G3, len_app.
      replace (len (sink_bytes (sink_ d)) + len o + (maximum_body_bytes_ d - (decoded_bytes_ d + len o)))
        with (len (sink_bytes (sink_ d)) + (maximum_body_bytes_ d - decoded_bytes_ d)) by lia.
      intros k dd Hk. apply Hacc. by eapply reached_trans; [eapply reached_any|].
    - lia. }
  destruct Hok as [(-> & -> & S & _ & Hf1)|[(w & Es & S & Hs & ->)|(_ & _ & Hr & _)]].
  - by apply Hnext.
  - destruct (decide (u = [])) as [->|Hu].
    + rewrite app_nil_r in Es. subst w. apply Hnext; [done | by rewrite Hs].
    + exfalso. destruct S as (o & R & _ & _). rewrite Es, runs_app, R in Rs.
      rewrite runs_complete in Rs; [done | exact Hs | done].
  - exfalso. destruct Hr as [Hr|[(w & rest & c' & o' & -> & R' & Hlo)|(k & dd & Hre & Hk & Hkl)]].
    + congruence.
    + rewrite runs_app, R' in Rs. destruct (runs c' rest) as [[? o'']|]; [|done].
      injection Rs as <- <-. rewrite len_app in Hl. len_facts. lia.
    + rewrite (Hacc k dd) in Hk; done.
Qed.
End decoder.

(** *** The wire formats *)
Fixpoint hex_line_value (line : bytes) (acc : Z) : option Z :=
  match line with
  | [] => Some acc
  | c :: line' =>
      match chunk_digit c with Some d => hex_line_value line' (acc * 16 + d) | None => None end
  end.

(** A chunk-size line: 1 to 18 hexadecimal digits of value [n] in 64 bits. *)
Definition size_line (l : bytes) (n : Z) : Prop :=
  l <> [] /\ len l <= chunk_line_capacity /\ hex_line_value l 0 = Some n /\ n <= UINT64_MAX.

(** A chunked body without extensions and trailers, and its payload. *)
Inductive chunk_wire : bytes -> bytes -> Prop :=
| cw_last l : size_line l 0 -> chunk_wire (l ++ [CR; LF; CR; LF]) []
| cw_chunk l data w p : size_line l (len data) -> data <> [] -> chunk_wire w p ->
    chunk_wire (l ++ CR :: LF :: data ++ CR :: LF :: w) (data ++ p).

(** The wire form a response head announces. *)
Definition framed (head : HttpResponseHead) (w p : bytes) : Prop :=
  if chunked head then chunk_wire w p else w = p /\ len p = content_length head.

Lemma chunk_digit_range c d : chunk_digit c = Some d ->
  0 <= d < 16 /\ c <> CR /\ c <> LF /\ c <> ch ";"%char.
Proof.
  unfold chunk_digit. intros H. guards H; injection H as <-;
    repeat match goal with H : in_range _ _ _ = true |- _ => apply in_range_spec in H end;
    unfold CR, LF; change (ch ";"%char) with 59; lia.
Qed.

Lemma hex_line_value_ge line acc n : 0 <= acc -> hex_line_value line acc = Some n -> acc <= n.
Proof.
  revert acc. induction line as [|c line IH]; intros acc Ha; cbn [hex_line_value].
  { by intros [= <-]. }
  destruct (chunk_digit c) as [d|] eqn:Ed; [|done]. apply chunk_digit_range in Ed. intros Hv.
  apply IH in Hv; lia.
Qed.

(** The loop of the code computes the value and refuses overflow exactly. *)
Lemma chunk_size_loop_value line acc n : 0 <= acc <= UINT64_MAX ->
  chunk_size_loop line acc = Some n <-> hex_line_value line acc = Some n /\ n <= UINT64_MAX.
Proof.
  revert acc. induction line as [|c line IH]; intros acc Ha; cbn [chunk_size_loop hex_line_value].
  { split; [intros [= <-]; split; [done | lia] | by intros [[= ->] _]]. }
  destruct (chunk_digit c) as [d|] eqn:Ed; [|split; [done | by intros [? _]]].
  apply chunk_digit_range in Ed.
  destruct (Z.ltb_spec ((UINT64_MAX - d) / 16) acc) as [Hov|Hov].
  - split; [done|]. intros [Hv Hm]. apply hex_line_value_ge in Hv; [|lia]. divmod_lia.
  - assert (acc * 16 + d <= UINT64_MAX) by divmod_lia. unfold UINT64_MAX in *.
    rewrite !u64_small by (rewrite ?u64_small; lia). apply IH. lia.
Qed.

(** Reading the size line. *)
Lemma runs_size_line l1 l r n w : hex_line_value l1 0 <> None ->
  len (l ++ l1) <= chunk_line_capacity -> l ++ l1 <> [] -> chunk_size_loop (l ++ l1) 0 = Some n ->
  runs (kChunkSize, r, l) (l1 ++ CR :: LF :: w) =
  runs (if n =? 0 then kFinalCr else kChunkData, n, []) w.
Proof.
  revert l. assert (HD : forall l acc, hex_line_value l acc <> None -> Forall (fun c => chunk_digit c <> None) l).
  { induction l as [|c l IH]; intros acc; cbn [hex_line_value]; [constructor|].
    destruct (chunk_digit c) eqn:E; [|done]. intros Hv. constructor; [by rewrite E | by eapply IH]. }
  intros l Hv. apply HD in Hv. clear HD. revert l.
  induction Hv as [|c l1 Hc Hl1 IH]; intros l Hlen Hne Hn.
  - rewrite app_nil_r in *. cbn [app runs advance]. rewrite Z.eqb_refl.
    destruct (Z.eqb_spec (len l) 0) as [E|E].
    { destruct l; [done|]. rewrite len_cons in E. len_facts. lia. }
    rewrite Hn. cbn [advance]. rewrite Z.eqb_refl. destruct (runs _ w) as [[? ?]|]; done.
  - destruct (chunk_digit c) as [dg|] eqn:Ed; [|done].
    destruct (chunk_digit_range c dg Ed) as (_ & H1 & H2 & H3).
    cbn [app runs advance].
    rewrite (proj2 (Z.eqb_neq c CR)), (proj2 (Z.eqb_neq c LF)), (proj2 (Z.eqb_neq c _)) by done.
    cbn [orb]. rewrite len_app, len_cons in Hlen.
    rewrite (proj2 (Z.leb_gt chunk_line_capacity _)) by (len_facts; lia).
    replace (l ++ c :: l1) with ((l ++ [c]) ++ l1) in * by (by rewrite <- app_assoc).
    rewrite IH; [by destruct (runs _ w) as [[? ?]|] | | done | done].
    rewrite !len_app. change (len [c]) with 1. lia.
Qed.

Lemma chunk_wire_runs w p r : chunk_wire w p ->
  exists r', runs (kChunkSize, r, []) w = Some (kComplete, r', [], p).
Proof.
  intros Hw. revert r. induction Hw as [l (Hne & Hlen & Hv & Hm) | l data w p (Hne & Hlen & Hv & Hm) Hd Hw IH];
    intros r.
  - exists 0. rewrite (runs_size_line l [] r 0); [done | by rewrite Hv | done | done |].
    apply chunk_size_loop_value; [unfold UINT64_MAX; lia | by split].
  - rewrite (runs_size_line l [] r (len data)); [ | by rewrite Hv | done | done |].
    2:{ apply chunk_size_loop_value; [unfold UINT64_MAX; lia | by split]. }
    assert (0 < len data) by (destruct data; [done|]; rewrite len_cons; len_facts; lia).
    rewrite (proj2 (Z.eqb_neq _ 0)) by lia. rewrite runs_app, runs_chunk_data by lia.
    rewrite Z.sub_diag. cbn [Z.eqb].
    destruct (IH 0) as [r' Hr]. exists r'. do 2 (cbn [runs]; cbn [advance]; rewrite Z.eqb_refl). by rewrite Hr.
Qed.

(** Splitting an accepting run at the end of the size line. *)
Lemma runs_size_line_inv w : forall r l c p, Forall (fun x => x <> CR) l ->
  runs (kChunkSize, r, l) w = Some (c, p) -> c.1.1 = kComplete ->
  exists l1 n w', w = l1 ++ CR :: LF :: w' /\ l ++ l1 <> [] /\
    len (l ++ l1) <= Z.max (len l) chunk_line_capacity /\
    chunk_size_loop (l ++ l1) 0 = Some n /\
    runs (if n =? 0 then kFinalCr else kChunkData, n, []) w' = Some (c, p).
Proof.
  induction w as [|b w IH]; intros r l c p Hl; cbn [runs].
  { intros [= <- <-]. done. }
  cbn [advance]. destruct (b =? CR) eqn:E1.
  - destruct (len l =? 0) eqn:E2; [done|]. destruct (chunk_size_loop l 0) as [n|] eqn:E3; [|done].
    zbool. subst b. destruct w as [|b w]; cbn [runs]; [by intros [= <- <-]|]. cbn [advance].
    destruct (b =? LF) eqn:E4; [|done]. zbool. subst b. intros Hr Hc.
    exists [], n, w. rewrite app_nil_r. split; [done|]. split; [by intros ->|].
    split; [lia|]. split; [done|].
    by destruct (runs (if n =? 0 then kFinalCr else kChunkData, n, []) w) as [[? ?]|].
  - destruct ((b =? LF) || (b =? ch ";"%char) || (chunk_line_capacity <=? len l)) eqn:E2; [done|].
    zbool. intros Hr Hc.
    destruct (runs (kChunkSize, r, l ++ [b]) w) as [[c' p']|] eqn:R; [|done]. injection Hr as -> <-.
    destruct (IH r (l ++ [b]) c p') as (l1 & n & w' & -> & Hne & Hlen & Hs & Hr); try done.
    { apply Forall_app. split; [done|]. by constructor. }
    exists (b :: l1), n, w'. rewrite <- app_assoc in *. cbn [app] in *. repeat split; try done.
    rewrite len_snoc in Hlen. lia.
Qed.

Lemma runs_data_inv w : forall r c p, 0 < r ->
  runs (kChunkData, r, []) w = Some (c, p) -> c.1.1 = kComplete ->
  exists data w' p', w = data ++ CR :: LF :: w' /\ len data = r /\ p = data ++ p' /\
    runs (kChunkSize, 0, []) w' = Some (c, p').
Proof.
  intros r c p Hr0 R Hc. destruct (Z.le_gt_cases (len w) r) as [Hle|Hgt].
  { exfalso. destruct (decide (w = [])) as [->|Hne]; [by injection R as <- <-|].
    assert (0 < len w) by (destruct w; [done|]; rewrite len_cons; len_facts; lia).
    rewrite runs_chunk_data in R by lia. injection R as <- <-. by destruct (_ =? _). }
  set (data := take (Z.to_nat r) w). set (rest := drop (Z.to_nat r) w).
  assert (Hw : w = data ++ rest) by (unfold data, rest; by rewrite take_drop).
  assert (Hld : len data = r) by (unfold data, len in *; rewrite length_take; lia).
  rewrite Hw, runs_app, runs_chunk_data, Hld, Z.sub_diag in R by lia. cbn [Z.eqb] in R.
  destruct rest as [|b0 rest]; [by injection R as <- <-|]. cbn [runs advance] in R.
  destruct (b0 =? CR) eqn:E0; [|done].
  destruct rest as [|b1 rest]; [by injection R as <- <-|]. cbn [runs advance] in R.
  destruct (b1 =? LF) eqn:E1; [|done]. zbool. subst b0 b1.
  destruct (runs (kChunkSize, 0, []) rest) as [[c' p']|] eqn:R2; [|done]. injection R as <- <-.
  exists data, rest, p'. done.
Qed.

Lemma runs_chunk_wire : forall n w r c p, (length w <= n)%nat ->
  runs (kChunkSize, r, []) w = Some (c, p) -> c.1.1 = kComplete -> chunk_wire w p.
Proof.
  induction n as [|n IH]; intros w r c p Hn R Hc.
  { destruct w; [|simpl in Hn; lia]. by injection R as <- <-. }
  destruct (runs_size_line_inv w r [] c p ltac:(constructor) R Hc) as (l & m & w' & -> & Hne & Hlen & Hs & R').
  cbn [app] in *. change (len (@nil Z)) with 0 in Hlen.
  apply chunk_size_loop_value in Hs as [Hv Hm]; [|unfold UINT64_MAX; lia].
  assert (Hsl : size_line l m) by (repeat split; try done; unfold chunk_line_capacity in *; lia).
  destruct (Z.eqb_spec m 0) as [->|Hm0].
  - destruct w' as [|b0 w']; [by injection R' as <- <-|]. cbn [runs advance] in R'.
    destruct (b0 =? CR) eqn:E0; [|done].
    destruct w' as [|b1 w']; [by injection R' as <- <-|]. cbn [runs advance] in R'.
    destruct (b1 =? LF) eqn:E1; [|done]. zbool. subst b0 b1.
    destruct w' as [|b2 w']; [|done]. cbn [runs app] in R'. injection R' as <- <-.
    by apply cw_last.
  - assert (0 <= m) by (apply hex_line_value_ge in Hv; lia).
    destruct (runs_data_inv w' m c p ltac:(lia) R' Hc) as (data & w2 & p' & -> & Hld & -> & R2).
    apply cw_chunk; [by rewrite Hld | intros ->; change (len (@nil Z)) with 0 in Hld; lia |].
    apply (IH w2 0 c p'); [|done|done]. rewrite !length_app in Hn. cbn [length] in Hn.
    rewrite length_app in Hn. cbn [length] in Hn. lia.
Qed.

(** *** The properties of the decoder *)
Section theorems.
Context {K : Type} `{BodySink K}.

Lemma new_decoder_wf head max (k : K) : (has_content_length head = true -> 0 <= content_length head) ->
  0 <= max <= UINT64_MAX -> state_ (new_decoder head max k) <> kFailed -> wf (new_decoder head max k).
Proof.
  intros Hl Hm. unfold new_decoder, wf. cbn [state_ decoded_bytes_ maximum_body_bytes_ remaining_].
  destruct (has_content_length head), (chunked head); cbn [Bool.eqb negb andb]; try done.
  - specialize (Hl eq_refl). destruct (max <? content_length head); [done|].
    destruct (Z.eqb_spec (content_length head) 0); intros _; repeat split; try lia; try done.
  - intros _. repeat split; try lia; try done.
Qed.

(** What a fresh decoder has read when it is complete. *)
Lemma new_decoder_framed head max (k : K) : state_ (new_decoder head max k) <> kFailed ->
  forall c w q, runs (ctl_of (new_decoder head max k)) w = Some (c, q) -> c.1.1 = kComplete -> framed head w q.
Proof.
  unfold ctl_of, new_decoder, framed. cbn [state_ remaining_ chunk_line_].
  destruct (has_content_length head), (chunked head); cbn [Bool.eqb negb andb]; try done.
  - destruct (max <? content_length head); [done|]. intros _ c w q.
    destruct (Z.eqb_spec (content_length head) 0) as [E|E].
    + destruct w; [|done]. intros [= <- <-] _. split; [done|]. by rewrite E.
    + intros R Hc. destruct (decide (w = [])) as [->|Hw]; [by injection R as <- <-|].
      assert (0 < len w) by (destruct w; [done|]; rewrite len_cons; len_facts; lia).
      destruct (Z.le_gt_cases (len w) (content_length head)) as [Hle|Hgt].
      * rewrite runs_content in R by lia. injection R as <- <-. split; [done|].
        destruct (Z.eqb_spec (content_length head - len w) 0); [lia | done].
      * destruct (Z.lt_ge_cases (content_length head) 0) as [Hneg|Hpos].
        { exfalso. assert (Hr : forall w r, r < 0 -> forall c p l, runs (kContentLength, r, l) w = Some (c, p) ->
            c.1.1 = kContentLength).
          { clear. induction w as [|b w IH]; intros r Hr c p l; cbn [runs advance]; [by intros [= <- <-]|].
            rewrite (proj2 (Z.eqb_neq (r - 1) 0)) by lia.
            destruct (runs _ w) as [[c' p']|] eqn:R; [|done]. intros [= -> <-]. eapply IH; [|exact R]. lia. }
          apply Hr in R; [|done]. congruence. }
        set (n := Z.to_nat (content_length head)).
        rewrite <- (take_drop n w) in R. rewrite runs_app in R.
        assert (Hl : len (take n w) = content_length head)
          by (unfold n, len in *; rewrite length_take; lia).
        rewrite runs_content, Hl, Z.sub_diag in R by lia. cbn [Z.eqb] in R.
        rewrite runs_complete in R; [done | done |].
        intros E'. apply (f_equal len) in E'. rewrite <- (take_drop n w), len_app, E', Hl in Hgt.
        change (len (@nil Z)) with 0 in Hgt. lia.
  - intros _ c w q R Hc. eapply runs_chunk_wire; [reflexivity | exact R | done].
Qed.

(** C32. For every split of the data into network segments and every sink that
    has room: the decoder reports completion with payload [p] stored exactly if
    the concatenated data is the announced wire form (Content-Length or
    chunked) of [p] and [p] is within the limit.  Hence no payload is lost,
    duplicated or reordered, a truncated or over-long body never completes, and
    the outcome does not depend on how the network cuts the data. *)
Theorem HttpBodyDecoder_exact head max (k0 : K) segs p :
  has_content_length head <> chunked head -> 0 <= content_length head ->
  0 <= max <= UINT64_MAX -> accepting k0 (len (sink_bytes k0) + max) ->
  (exists d', feed_all (new_decoder head max k0) segs = Some d' /\ complete d' = true /\
     sink_bytes (sink_ d') = sink_bytes k0 ++ p)
  <-> framed head (concat segs) p /\ len p <= max.
Proof.
  intros Hx Hcl Hm Hacc. set (d := new_decoder head max k0).
  assert (Hsink : sink_ d = k0) by done. assert (Hmax : maximum_body_bytes_ d = max) by done.
  assert (Hdec : decoded_bytes_ d = 0) by done.
  pose proof (new_decoder_framed head max k0) as Hrun. fold d in Hrun.
  split.
  - intros (d' & Hf & Hc & Hs). unfold complete in Hc. apply bool_decide_eq_true in Hc.
    assert (Hnf : state_ d <> kFailed).
    { intros E. destruct segs as [|s segs]; cbn [feed_all] in Hf; [injection Hf as <-; congruence|].
      unfold Feed in Hf. by rewrite E in Hf. }
    assert (Hw : wf d) by (by apply new_decoder_wf).
    destruct (feed_all_sound d segs d' Hw Hnf Hf) as (out & R & (G1 & G2 & G3 & G4 & G5) & W).
    rewrite Hsink, Hs in G1. apply app_inv_head in G1. subst out.
    assert (len p <= max) by lia. split; [|done]. by apply (Hrun Hnf (ctl_of d')).
  - intros [Hfr Hp].
    assert (Hex : state_ d <> kFailed /\ exists c, runs (ctl_of d) (concat segs) = Some (c, p) /\ c.1.1 = kComplete).
    { revert Hfr. unfold d, ctl_of, new_decoder, framed. cbn [state_ remaining_ chunk_line_].
      destruct (has_content_length head), (chunked head); cbn [Bool.eqb negb andb]; try done.
      - intros [Hw Hl]. rewrite (proj2 (Z.ltb_ge max _)) by lia. rewrite Hw.
        destruct (Z.eqb_spec (content_length head) 0) as [E|E]; (split; [done|]).
        + destruct p; [by eexists|]. rewrite len_cons in Hl. len_facts. lia.
        + rewrite runs_content by (len_facts; lia). rewrite Hl, Z.sub_diag. by eexists.
      - intros Hw. split; [done|]. destruct (chunk_wire_runs _ _ 0 Hw) as [r' R]. by eexists. }
    destruct Hex as (Hnf & c & R & Hc). assert (Hw : wf d) by (by apply new_decoder_wf).
    destruct (feed_all_complete_spec d segs c p Hw Hnf) as [d' Hf]; try done.
    { by rewrite !Hsink, Hmax, Hdec, Z.sub_0_r. }
    { lia. }
    exists d'. split; [done|].
    destruct (feed_all_sound d segs d' Hw Hnf Hf) as (out & R' & (G1 & _) & _).
    rewrite R in R'. injection R' as E1 <-. split; [|by rewrite G1, Hsink].
    unfold complete. apply bool_decide_eq_true. by rewrite <- Hc, E1.
Qed.

(** Every call of [Feed], successful or not, only appends to the sink,
    never beyond the body limit; it reports [Ok] or [Complete] only when it
    consumed all of its input; and after any other failure the decoder stays
    failed and consumes nothing more. *)
Theorem HttpBodyDecoder_Feed_safe (d : HttpBodyDecoder (K:=K)) data :
  wf d -> state_ d <> kComplete -> state_ d <> kFailed ->
  exists st consumed d' out, Feed d data = Some (st, consumed, d') /\
    sink_bytes (sink_ d') = sink_bytes (sink_ d) ++ out /\
    decoded_bytes_ d' = decoded_bytes_ d + len out /\
    decoded_bytes_ d' <= maximum_body_bytes_ d' /\
    ((st = BS_Ok \/ st = BS_Complete) -> consumed = len data /\ wf d') /\
    (st = BS_TooLarge \/ st = BS_SinkRejected \/ st = BS_InvalidChunk ->
       forall more, Feed d' more = Some (BS_InvalidArgument, 0, d')).
Proof.
  intros Hw Hc Hf. destruct (Feed_ok d data Hw Hc Hf) as (st & u & d' & E & Hok).
  exists st, (len data - len u), d'.
  assert (Hfail : state_ d' = kFailed -> forall more, Feed d' more = Some (BS_InvalidArgument, 0, d'))
    by (intros Hs more; unfold Feed; by rewrite Hs).
  destruct Hok as [(-> & -> & (o & R & (G1 & G2 & G3 & G4 & G5) & W) & _)|[(w & -> & (o & R & (G1 & G2 & G3 & G4 & G5) & W) & Hs & ->)
    |(Hs & Hfl & _ & o & (G1 & G2 & G3 & G4 & G5))]]; exists o.
  - split; [done|]. split; [done|]. split; [done|]. split; [lia|].
    split; [intros _; change (len (@nil Z)) with 0; split; [lia | done] | by intros [|[|]]].
  - split; [done|]. split; [done|]. split; [done|]. split; [lia|]. split.
    + intros Hst. assert (u = []) as ->.
      { destruct Hst as [Hst|Hst]; [|by apply complete_status_Complete].
        unfold complete_status in Hst. by destruct (_ =? _). }
      rewrite app_nil_r. change (len (@nil Z)) with 0. split; [lia | done].
    + unfold complete_status. destruct (_ =? _); by intros [|[|]].
  - split; [done|]. split; [done|]. split; [done|]. split; [lia|]. split; [|intros _; by apply Hfail].
    intros [->| ->]; by destruct Hfl as [|[|]].
Qed.
End theorems.

(** The bounded memory sink accepts up to its capacity. *)
Lemma MemSink_accepting k0 limit : limit <= mem_capacity k0 -> accepting k0 limit.
Proof.
  intros Hl k dd Hr. assert (Hc : mem_capacity k = mem_capacity k0).
  { induction Hr as [|k d stored k' Hr IH Hw]; [done|]. rewrite <- IH. cbn in Hw. unfold MemSink_Write in Hw.
    by destruct (_ <? _) in Hw; injection Hw as <- <-. }
  cbn. unfold MemSink_Write. intros Hlen. rewrite (proj2 (Z.ltb_ge _ _)) by lia. done.
Qed.

Definition sample_head (c : bool) (n : Z) : HttpResponseHead :=
  mkHead 200 (negb c) n c false [] [].

Definition sample_segments : list bytes :=
  [[51; 13]; [10; 97; 98]; [99; 13; 10; 48; 13; 10; 13]; [10]].
Definition sample_sink : BoundedMemoryBodySink := mkMemSink [] 100 false.

Lemma HttpBodyDecoder_exact_witness :
  accepting sample_sink (len (sink_bytes sample_sink) + 100) /\
  ((exists d', feed_all (new_decoder (sample_head true 0) 100 sample_sink) sample_segments = Some d' /\
      complete d' = true /\ sink_bytes (sink_ d') = sink_bytes sample_sink ++ [97; 98; 99])
   <-> framed (sample_head true 0) (concat sample_segments) [97; 98; 99] /\ len [97; 98; 99] <= 100).
Proof.
  assert (Ha : accepting sample_sink (len (sink_bytes sample_sink) + 100))
    by (apply MemSink_accepting; discriminate).
  split; [exact Ha|].
  apply (HttpBodyDecoder_exact (sample_head true 0) 100 sample_sink); try exact Ha; try discriminate.
  split; discriminate.
Defined.

Example chunked_sample_complete :
  match feed_all (new_decoder (sample_head true 0) 100 sample_sink) sample_segments with
  | Some d' => complete d' = true /\ sink_bytes (sink_ d') = [97; 98; 99]
  | None => False
  end.
Proof. vm_compute. by split. Qed.

Lemma HttpBodyDecoder_Feed_safe_witness :
  let d := new_decoder (sample_head false 4) 100 (mkMemSink [] 3 false) in
  wf d /\ state_ d <> kComplete /\ state_ d <> kFailed /\
  exists st consumed d' out, Feed d [1; 2; 3; 4] = Some (st, consumed, d') /\
    sink_bytes (sink_ d') = sink_bytes (sink_ d) ++ out /\
    decoded_bytes_ d' = decoded_bytes_ d + len out /\
    decoded_bytes_ d' <= maximum_body_bytes_ d' /\
    ((st = BS_Ok \/ st = BS_Complete) -> consumed = len [1; 2; 3; 4] /\ wf d') /\
    (st = BS_TooLarge \/ st = BS_SinkRejected \/ st = BS_InvalidChunk ->
       forall more, Feed d' more = Some (BS_InvalidArgument, 0, d')).
Proof.
  intros d. assert (Hw : wf d) by (unfold wf; cbn; unfold UINT64_MAX; lia).
  split; [exact Hw|]. split; [discriminate|]. split; [discriminate|].
  apply (HttpBodyDecoder_Feed_safe d [1; 2; 3; 4]); [exact Hw | discriminate | discriminate].
Defined.
End Body.

(** ** The response head *)
Module Head.
(** [NameEquals] and [ValueEqualsInsensitive]; [expected] is lower case. *)
Definition NameEquals (name expected : bytes) : bool :=
  bytes_eqb (map AsciiLower name) expected.
Definition ValueEqualsInsensitive := NameEquals.

(** [CopyValue]: the stored C string, or [None] if it does not fit. *)
Definition CopyValue (value : bytes) (output_size : Z) : option bytes :=
  if output_size <=? len value then None else Some value.

Definition ParseDecimal (value : bytes) : option Z := decimal_u64 value.

(** [FindCrlf]: the length of the line; a bare LF ends the search. *)
Fixpoint FindCrlf (l : bytes) : option nat :=
  match l with
  | p0 :: ((p1 :: _) as l') =>
      if (p0 =? CR) && (p1 =? LF) then Some 0%nat
      else if p0 =? LF then None
      else S <$> FindCrlf l'
  | _ => None
  end.

Definition StatusMayHaveUnframedBody (status : Z) : bool :=
  ((100 <=? status) && (status <? 200)) || (status =? 204) || (status =? 304) ||
  ((300 <=? status) && (status <? 400)).

(** The status line: [Some] is the status code. *)
Definition parse_status_line (line : bytes) : option Z :=
  if (len line <? 12) ||
     (negb (starts_with (str "HTTP/1.1 ") line) && negb (starts_with (str "HTTP/1.0 ") line)) ||
     negb (in_range (ch "1"%char) (ch "5"%char) (byte_at line 9)) ||
     negb (is_digit (byte_at line 10)) || negb (is_digit (byte_at line 11)) ||
     ((12 <? len line) && negb (byte_at line 12 =? SP))
  then None
  else if negb (forallb (fun c => in_range 0x20 0x7e c) (drop 12 line)) then None
  else Some ((byte_at line 9 - 48) * 100 + (byte_at line 10 - 48) * 10 + (byte_at line 11 - 48)).

(** The head under construction and the flags of the headers seen. *)
Record progress := mkProgress {
  head : HttpResponseHead;
  saw_transfer_encoding : bool;
  saw_content_encoding : bool;
  saw_location : bool;
  saw_content_type : bool;
  saw_connection : bool;
}.

Definition empty_head (status : Z) : HttpResponseHead := mkHead status false 0 false false [] [].
Definition start_progress (status : Z) : progress :=
  mkProgress (empty_head status) false false false false false.

(** One header field with its trimmed value. *)
Definition apply_field (p : progress) (name value : bytes) : HttpParseStatus + progress :=
  let h := head p in
  if NameEquals name (str "content-length") then
    if has_content_length h then inl PS_DuplicateHeader
    else match ParseDecimal value with
    | None => inl PS_InvalidContentLength
    | Some n => inr (mkProgress
        (mkHead (status_code h) true n (chunked h) (connection_close h) (location h) (content_type h))
        (saw_transfer_encoding p) (saw_content_encoding p) (saw_location p)
        (saw_content_type p) (saw_connection p))
    end
  else if NameEquals name (str "transfer-encoding") then
    if saw_transfer_encoding p then inl PS_DuplicateHeader
    else if negb (ValueEqualsInsensitive value (str "chunked"))
    then inl PS_UnsupportedTransferEncoding
    else inr (mkProgress
        (mkHead (status_code h) (has_content_length h) (content_length h) true
           (connection_close h) (location h) (content_type h))
        true (saw_content_encoding p) (saw_location p) (saw_content_type p) (saw_connection p))
  else if NameEquals name (str "content-encoding") then
    if saw_content_encoding p then inl PS_DuplicateHeader
    else if negb (ValueEqualsInsensitive value (str "identity"))
    then inl PS_UnsupportedContentEncoding
    else inr (mkProgress h (saw_transfer_encoding p) true (saw_location p)
                (saw_content_type p) (saw_connection p))
  else if NameEquals name (str "location") then
    if saw_location p then inl PS_DuplicateHeader
    else match CopyValue value kMaximumHttpLocationBytes with
    | None => inl PS_OutputTooSmall
    | Some v => inr (mkProgress
        (mkHead (status_code h) (has_content_length h) (content_length h) (chunked h)
           (connection_close h) v (content_type h))
        (saw_transfer_encoding p) (saw_content_encoding p) true (saw_content_type p)
        (saw_connection p))
    end
  else if NameEquals name (str "content-type") then
    if saw_content_type p then inl PS_DuplicateHeader
    else match CopyValue value kMaximumHttpContentTypeBytes with
    | None => inl PS_OutputTooSmall
    | Some v => inr (mkProgress
        (mkHead (status_code h) (has_content_length h) (content_length h) (chunked h)
           (connection_close h) (location h) v)
        (saw_transfer_encoding p) (saw_content_encoding p) (saw_location p) true
        (saw_connection p))
    end
  else if NameEquals name (str "connection") then
    if saw_connection p then inl PS_DuplicateHeader
    else inr (mkProgress
        (mkHead (status_code h) (has_content_length h) (content_length h) (chunked h)
           (ValueEqualsInsensitive value (str "close")) (location h) (content_type h))
        (saw_transfer_encoding p) (saw_content_encoding p) (saw_location p)
        (saw_content_type p) true)
  else if NameEquals name (str "content-range") then inl PS_InvalidHeader
  else inr p.

(** One header line without its CRLF. *)
Definition apply_line (p : progress) (line : bytes) : HttpParseStatus + progress :=
  match index_of (ch ":"%char) line with
  | None => inl PS_InvalidHeader
  | Some O => inl PS_InvalidHeader
  | Some colon =>
      let name := take colon line in
      let value := trim (drop (S colon) line) in
      if negb (forallb IsTokenCharacter name) then inl PS_InvalidHeader
      else if existsb bad_value_byte value
      then inl PS_InvalidHeader
      else apply_field p name value
  end.

(** The loop over the header lines; [inr (p, rest)] leaves [rest] unread. *)
Fixpoint header_loop (fuel : nat) (incomplete : HttpParseStatus) (p : progress) (line : bytes)
    : HttpParseStatus + (progress * bytes) :=
  match fuel with
  | O => inl incomplete
  | S fuel' =>
      match line with
      | c0 :: c1 :: rest =>
          if (c0 =? CR) && (c1 =? LF) then inr (p, rest)
          else if is_ows c0 then inl PS_InvalidHeader
          else match FindCrlf line with
          | None => inl incomplete
          | Some n =>
              match apply_line p (take n line) with
              | inl e => inl e
              | inr p' => header_loop fuel' incomplete p' (drop (n + 2) line)
              end
          end
      | _ => inl incomplete
      end
  end.

Definition final_checks (h : HttpResponseHead) : HttpParseStatus :=
  if has_content_length h && chunked h then PS_AmbiguousBodyLength
  else if negb (has_content_length h) && negb (chunked h) &&
          negb (StatusMayHaveUnframedBody (status_code h)) then PS_MissingBodyLength
  else if (300 <=? status_code h) && (status_code h <? 400) && (len (location h) =? 0)
  then PS_MissingLocation
  else PS_Ok.

(** [ParseHttpResponseHead] on a non-null input: the head and [*header_bytes]
    with [Ok], and the status alone otherwise (the caller discards a head that
    was not completed). *)
Definition ParseHttpResponseHead (input0 : bytes)
    : HttpParseStatus + (HttpResponseHead * Z) :=
  let input := take (Z.to_nat kMaximumHttpHeaderBytes) input0 in
  let incomplete :=
    if len input =? kMaximumHttpHeaderBytes then PS_HeaderTooLarge else PS_NeedMoreData in
  match FindCrlf input with
  | None => inl incomplete
  | Some n =>
      match parse_status_line (take n input) with
      | None => inl PS_InvalidStatusLine
      | Some status =>
          match header_loop (length input) incomplete (start_progress status)
                  (drop (n + 2) input) with
          | inl e => inl e
          | inr (p, rest) =>
              match final_checks (head p) with
              | PS_Ok => inr (head p, len input - len rest)
              | e => inl e
              end
          end
      end
  end.

(** *** Lines *)
Lemma FindCrlf_Some l n : FindCrlf l = Some n ->
  exists a r, l = a ++ CR :: LF :: r /\ length a = n /\
    (forall r', FindCrlf (a ++ CR :: LF :: r') = Some n) /\
    (forall k, (k < n + 2)%nat -> FindCrlf (take k l) = None).
Proof.
  revert n. induction l as [|p0 l IH]; intros n; [done|]. cbn [FindCrlf].
  destruct l as [|p1 l]; [done|]. destruct ((p0 =? CR) && (p1 =? LF)) eqn:E.
  - intros [= <-]. zbool. subst. exists [], l. repeat split.
    intros k Hk. destruct k as [|[|k]]; [done | done | lia].
  - destruct (p0 =? LF) eqn:E2; [done|].
    destruct (FindCrlf (p1 :: l)) as [m|] eqn:Em; [|done]. intros [= <-].
    destruct (IH m eq_refl) as (a & r & Hl & Ha & Hr & Hk). exists (p0 :: a), r.
    split; [by rewrite Hl|]. split; [by simpl; rewrite Ha|].
    assert (Hhd : forall t, exists x t', a ++ CR :: LF :: t = x :: t' /\ (p0 =? CR) && (x =? LF) = false).
    { intros t. destruct a as [|x a].
      - exists CR, (LF :: t). split; [done|]. by rewrite andb_false_r.
      - exists x, (a ++ CR :: LF :: t). split; [done|]. injection Hl as -> _. done. }
    split.
    + intros r'. cbn [app FindCrlf]. destruct (Hhd r') as (x & t' & Hx & Hc).
      rewrite Hx, Hc, E2, <- Hx, Hr. done.
    + intros k Hlt. destruct k as [|k]; [done|]. cbn [take FindCrlf].
      specialize (Hk k ltac:(lia)). destruct k as [|k]; [done|]. cbn [take] in Hk |- *.
      rewrite E, E2, Hk. done.
Qed.

Lemma header_loop_stable fuel inc p l p' rest :
  header_loop fuel inc p l = inr (p', rest) ->
  exists c, l = c ++ rest /\ (2 <= length c)%nat /\
    (forall fuel' inc' rest', (length (c ++ rest') < fuel')%nat ->
       header_loop fuel' inc' p (c ++ rest') = inr (p', rest')) /\
    (forall fuel' inc' k, (k < length c)%nat -> (k < fuel')%nat ->
       header_loop fuel' inc' p (take k l) = inl inc').
Proof.
  revert p l. induction fuel as [|fuel IH]; intros p l; [done|]. cbn [header_loop].
  destruct l as [|c0 [|c1 l]]; [done | done |].
  assert (Hshort : forall fuel' inc' k, (k < 2)%nat -> (k < fuel')%nat ->
     header_loop fuel' inc' p (take k (c0 :: c1 :: l)) = inl inc').
  { intros fuel' inc' k Hk Hf. destruct fuel' as [|fuel']; [lia|].
    destruct k as [|[|k]]; [done | done | lia]. }
  destruct ((c0 =? CR) && (c1 =? LF)) eqn:E1.
  { intros [= <- <-]. zbool. subst. exists [CR; LF]. split; [done|]. split; [done|]. split; [|by intros; apply Hshort].
    intros fuel' inc' rest' Hf. destruct fuel' as [|fuel']; [lia|]. done. }
  destruct (is_ows c0) eqn:E2; [done|].
  destruct (FindCrlf (c0 :: c1 :: l)) as [n|] eqn:E3; [|done].
  destruct (FindCrlf_Some _ _ E3) as (a & r & Hl & Ha & Hfr & Hfk).
  assert (Htake : take n (c0 :: c1 :: l) = a) by (rewrite Hl, <- Ha; apply take_app_length).
  assert (Hdrop : drop (n + 2) (c0 :: c1 :: l) = r).
  { rewrite Hl, <- Ha, drop_app_ge by lia. by replace (length a + 2 - length a)%nat with 2%nat by lia. }
  rewrite Htake, Hdrop. destruct (apply_line p a) as [e|p1] eqn:E4; [done|]. intros Hloop.
  destruct (IH p1 r Hloop) as (c' & -> & Hc2 & Hst & Hpre).
  exists (a ++ CR :: LF :: c'). split; [rewrite Hl, <- app_assoc; done|].
  split; [rewrite length_app; simpl; lia|].
  (* one iteration on any text that starts with this line *)
  assert (Hstep : forall fuel' inc' t, header_loop (S fuel') inc' p (a ++ CR :: LF :: t) =
     header_loop fuel' inc' p1 t).
  { intros fuel' inc' t.
    assert (Hh : exists t', a ++ CR :: LF :: t = c0 :: c1 :: t').
    { destruct a as [|x [|y a]].
      - injection Hl as -> -> _. done.
      - injection Hl as -> -> _. by eexists.
      - injection Hl as -> -> _. by eexists. }
    destruct Hh as [t' Ht]. cbn [header_loop]. rewrite Ht at 1. rewrite E1, E2, Hfr.
    rewrite <- Ha, take_app_length, E4, drop_app_ge by lia.
    by replace (length a + 2 - length a)%nat with 2%nat by lia. }
  split.
  - intros fuel' inc' rest' Hf. destruct fuel' as [|fuel']; [lia|].
    rewrite <- app_assoc, <- !app_comm_cons, Hstep. apply Hst.
    rewrite <- app_assoc, length_app in Hf. cbn [app length] in Hf. lia.
  - intros fuel' inc' k Hk Hf. destruct (decide (k < 2)%nat); [by apply Hshort|].
    destruct fuel' as [|fuel']; [lia|]. destruct (decide (k < n + 2)%nat) as [Hkn|Hkn].
    + cbn [header_loop]. specialize (Hfk k Hkn). destruct k as [|[|k]]; [lia|lia|]. cbn [take] in Hfk |- *.
      rewrite E1, E2, Hfk. done.
    + assert (Htk : take k (c0 :: c1 :: l) = a ++ CR :: LF :: take (k - n - 2) (c' ++ rest)).
      { rewrite Hl, take_app_ge by lia. f_equal. rewrite Ha.
        replace (k - n)%nat with (S (S (k - n - 2))) by lia. cbn [take]. do 3 f_equal. lia. }
      rewrite Htk, Hstep. apply Hpre; [|lia]. rewrite length_app in Hk. cbn [length] in Hk. lia.
Qed.

(** *** The fields of a head and their meaning *)
Definition field_line (f : bytes * bytes) : bytes := f.1 ++ ch ":"%char :: f.2 ++ [CR; LF].
Definition field_ok (f : bytes * bytes) : Prop :=
  f.1 <> [] /\ Forall (fun c => IsTokenCharacter c = true) f.1 /\ ch ":"%char ∉ f.1.

Fixpoint apply_fields (p : progress) (fields : list (bytes * bytes)) : HttpParseStatus + progress :=
  match fields with
  | [] => inr p
  | f :: fields' =>
      match apply_field p f.1 (trim f.2) with
      | inl e => inl e
      | inr p' => apply_fields p' fields'
      end
  end.

Definition named (n : bytes) (fields : list (bytes * bytes)) : list (bytes * bytes) :=
  List.filter (fun f => NameEquals f.1 n) fields.

Lemma apply_line_inr p line p' : apply_line p line = inr p' ->
  exists f, line = f.1 ++ ch ":"%char :: f.2 /\ field_ok f /\ apply_field p f.1 (trim f.2) = inr p'.
Proof.
  unfold apply_line. destruct (index_of (ch ":"%char) line) as [[|colon]|] eqn:E; try done.
  destruct (index_of_split _ _ _ E) as (a & r & -> & Ha & Hn).
  rewrite <- Ha, take_app_length, drop_app_cons_length.
  destruct (forallb IsTokenCharacter a) eqn:Et; [|done]. cbn [negb].
  destruct (existsb _ (trim r)); [done|]. intros Hf. exists (a, r). cbn [fst snd].
  split; [done|]. split; [|done]. split; [by destruct a|]. split; [|done].
  by apply forallb_Forall_bool.
Qed.

Lemma header_loop_fields fuel inc p l p' rest :
  header_loop fuel inc p l = inr (p', rest) ->
  exists fields, l = concat (map field_line fields) ++ CR :: LF :: rest /\
    Forall field_ok fields /\ apply_fields p fields = inr p'.
Proof.
  revert p l. induction fuel as [|fuel IH]; intros p l; [done|]. cbn [header_loop].
  destruct l as [|c0 [|c1 l]]; [done | done |].
  destruct ((c0 =? CR) && (c1 =? LF)) eqn:E1.
  { intros [= <- <-]. zbool. subst. by exists []. }
  destruct (is_ows c0); [done|].
  destruct (FindCrlf (c0 :: c1 :: l)) as [n|] eqn:E3; [|done].
  destruct (FindCrlf_Some _ _ E3) as (a & r & -> & <- & _ & _).
  rewrite take_app_length, drop_app_ge by lia.
  replace (length a + 2 - length a)%nat with 2%nat by lia. change (drop 2 (CR :: LF :: r)) with r.
  destruct (apply_line p a) as [e|p1] eqn:E4; [done|]. intros Hloop.
  destruct (apply_line_inr _ _ _ E4) as (f & -> & Hf & Hap).
  destruct (IH p1 r Hloop) as (fields & -> & Hfs & Hap2). exists (f :: fields).
  cbn [map concat apply_fields]. rewrite Hap. split; [|split; [by constructor | done]].
  unfold field_line at 2. repeat (rewrite <- !app_assoc; cbn [app]). done.
Qed.

(** Which parts of the head a field list determines. *)
Definition content_length_ok (p p' : progress) (cl : list (bytes * bytes)) : Prop :=
  match cl with
  | [] => has_content_length (head p') = has_content_length (head p) /\
          content_length (head p') = content_length (head p)
  | [f] => has_content_length (head p) = false /\ has_content_length (head p') = true /\
           ParseDecimal (trim f.2) = Some (content_length (head p'))
  | _ => False
  end.

Definition chunked_ok (p p' : progress) (te : list (bytes * bytes)) : Prop :=
  match te with
  | [] => chunked (head p') = chunked (head p) /\
          saw_transfer_encoding p' = saw_transfer_encoding p
  | [f] => saw_transfer_encoding p = false /\ saw_transfer_encoding p' = true /\
           chunked (head p') = true /\ ValueEqualsInsensitive (trim f.2) (str "chunked") = true
  | _ => False
  end.

Definition bounded (h : HttpResponseHead) : Prop :=
  len (location h) < kMaximumHttpLocationBytes /\ len (content_type h) < kMaximumHttpContentTypeBytes.

Lemma NameEquals_distinct name a b : NameEquals name a = true -> a <> b -> NameEquals name b = false.
Proof.
  unfold NameEquals. intros H Hab. apply bytes_eqb_eq in H. apply bytes_eqb_neq. congruence.
Qed.

(** The parts a single field may change. *)
Record field_effect (p : progress) (name value : bytes) (p' : progress) : Prop := {
  fe_status : status_code (head p') = status_code (head p);
  fe_bounded : bounded (head p) -> bounded (head p');
  fe_length : if NameEquals name (str "content-length")
    then has_content_length (head p) = false /\ has_content_length (head p') = true /\
         ParseDecimal value = Some (content_length (head p'))
    else has_content_length (head p') = has_content_length (head p) /\
         content_length (head p') = content_length (head p);
  fe_chunked : if NameEquals name (str "transfer-encoding")
    then saw_transfer_encoding p = false /\ saw_transfer_encoding p' = true /\
         chunked (head p') = true /\ ValueEqualsInsensitive value (str "chunked") = true
    else chunked (head p') = chunked (head p) /\
         saw_transfer_encoding p' = saw_transfer_encoding p;
}.

Lemma apply_field_effect p name value p' :
  apply_field p name value = inr p' -> field_effect p name value p'.
Proof.
  unfold apply_field. intros H.
  destruct (NameEquals name (str "content-length")) eqn:E1.
  { pose proof (NameEquals_distinct name _ (str "transfer-encoding") E1 ltac:(discriminate)) as E2.
    destruct (has_content_length (head p)) eqn:Eh; [done|].
    destruct (ParseDecimal value) as [n|] eqn:Ev; [|done]. injection H as <-.
    split; cbn; rewrite ?E1, ?E2; try done. }
  destruct (NameEquals name (str "transfer-encoding")) eqn:E2.
  { destruct (saw_transfer_encoding p) eqn:Es; [done|].
    destruct (ValueEqualsInsensitive value (str "chunked")) eqn:Ev; [|done]. injection H as <-.
    split; cbn; rewrite ?E1, ?E2; try done. }
  destruct (NameEquals name (str "content-encoding")).
  { destruct (saw_content_encoding p); [done|].
    destruct (ValueEqualsInsensitive value _); [|done]. injection H as <-.
    split; cbn; rewrite ?E1, ?E2; try done. }
  destruct (NameEquals name (str "location")).
  { destruct (saw_location p); [done|]. unfold CopyValue in H.
    destruct (Z.leb_spec kMaximumHttpLocationBytes (len value)); [done|]. injection H as <-.
    split; cbn; rewrite ?E1, ?E2; try done. by intros [_ ?]. }
  destruct (NameEquals name (str "content-type")).
  { destruct (saw_content_type p); [done|]. unfold CopyValue in H.
    destruct (Z.leb_spec kMaximumHttpContentTypeBytes (len value)); [done|]. injection H as <-.
    split; cbn; rewrite ?E1, ?E2; try done. by intros [? _]. }
  destruct (NameEquals name (str "connection")).
  { destruct (saw_connection p); [done|]. injection H as <-.
    split; cbn; rewrite ?E1, ?E2; try done. }
  destruct (NameEquals name (str "content-range")); [done|]. injection H as <-.
  split; rewrite ?E1, ?E2; try done.
Qed.

(** Case analysis on the fields of one name. *)
Ltac filter_cases fields :=
  match goal with |- context [List.filter ?g fields] =>
    destruct (List.filter g fields) as [|? [|? ?]]; [| |done] end.

Lemma apply_fields_effect fields p p' : apply_fields p fields = inr p' ->
  status_code (head p') = status_code (head p) /\
  (bounded (head p) -> bounded (head p')) /\
  content_length_ok p p' (named (str "content-length") fields) /\
  chunked_ok p p' (named (str "transfer-encoding") fields).
Proof.
  revert p. induction fields as [|f fields IH]; intros p; cbn [apply_fields].
  { intros [= <-]. split; [done|]. split; [tauto|]. split; done. }
  destruct (apply_field p f.1 (trim f.2)) as [e|p1] eqn:E; [done|]. intros Hrest.
  destruct (apply_field_effect _ _ _ _ E) as [S B L C].
  destruct (IH p1 Hrest) as (S' & B' & L' & C').
  split; [congruence|]. split; [auto|]. unfold named, content_length_ok, chunked_ok in *.
  cbn [List.filter]. split.
  - clear C C'. destruct (NameEquals f.1 (str "content-length")).
    + destruct L as (L1 & L2 & L3). filter_cases fields.
      * destruct L' as [-> ->]. done.
      * destruct L' as [? _]. congruence.
    + destruct L as (L1 & L2). filter_cases fields.
      * by rewrite <- L1, <- L2.
      * by rewrite <- L1.
  - clear L L'. destruct (NameEquals f.1 (str "transfer-encoding")).
    + destruct C as (C1 & C2 & C3 & C4). filter_cases fields.
      * destruct C' as [-> ->]. done.
      * destruct C' as [? _]. congruence.
    + destruct C as (C1 & C2). filter_cases fields.
      * by rewrite <- C1, <- C2.
      * by rewrite <- C2.
Qed.

Lemma parse_status_line_range line code : parse_status_line line = Some code -> 100 <= code <= 599.
Proof.
  unfold parse_status_line. intros H. guards H. zbool.
  repeat match goal with
  | H : in_range _ _ _ = true |- _ => apply in_range_spec in H
  | H : is_digit _ = true |- _ => apply in_range_spec in H
  end.
  change (ch "1"%char) with 49 in *. change (ch "5"%char) with 53 in *.
  injection H as <-. lia.
Qed.

(** *** The properties of the head parser *)

(** A head [h] of [n] bytes read from [input] is framed unambiguously. *)
Definition framing_ok (input : bytes) (h : HttpResponseHead) (n : Z) : Prop :=
  exists status fields,
    take (Z.to_nat n) input =
      status ++ CR :: LF :: concat (map field_line fields) ++ [CR; LF] /\
    n = len (status ++ CR :: LF :: concat (map field_line fields) ++ [CR; LF]) /\
    n <= kMaximumHttpHeaderBytes /\
    parse_status_line status = Some (status_code h) /\ 100 <= status_code h <= 599 /\
    Forall field_ok fields /\
    match named (str "content-length") fields, named (str "transfer-encoding") fields with
    | [f], [] => has_content_length h = true /\ chunked h = false /\
        digits (trim f.2) /\ trim f.2 <> [] /\
        content_length h = decimal 0 (trim f.2) /\ content_length h <= UINT64_MAX
    | [], [f] => has_content_length h = false /\ chunked h = true /\
        map AsciiLower (trim f.2) = str "chunked"
    | [], [] => has_content_length h = false /\ chunked h = false /\
        StatusMayHaveUnframedBody (status_code h) = true
    | _, _ => False
    end /\
    (300 <= status_code h < 400 -> location h <> []) /\ bounded h.

(** Response framing is unambiguous: an accepted head is exactly a status
    line, header fields and the blank line; the body length it reports comes
    from a single Content-Length field holding that decimal number, or from a
    single "chunked" Transfer-Encoding field, never from both; without either
    the status allows an empty body; a redirect carries a location; and every
    stored text fits its buffer. *)
Theorem ParseHttpResponseHead_framing input h n :
  ParseHttpResponseHead input = inr (h, n) -> framing_ok input h n.
Proof.
  unfold ParseHttpResponseHead. set (inp := take _ input). set (inc := if _ =? _ then _ else _).
  destruct (FindCrlf inp) as [m|] eqn:E1; [|done].
  destruct (FindCrlf_Some _ _ E1) as (a & r & Hinp & Ha & _ & _).
  assert (Htake : take m inp = a) by (rewrite Hinp, <- Ha; apply take_app_length).
  assert (Hdrop : drop (m + 2) inp = r).
  { rewrite Hinp, <- Ha, drop_app_ge by lia. by replace (length a + 2 - length a)%nat with 2%nat by lia. }
  rewrite Htake, Hdrop. destruct (parse_status_line a) as [code|] eqn:E2; [|done].
  destruct (header_loop _ _ _ _) as [e|[p rest]] eqn:E3; [done|].
  destruct (final_checks (head p)) eqn:E4; try done. intros [= <- <-].
  destruct (header_loop_fields _ _ _ _ _ _ E3) as (fields & Hr & Hfs & Hap).
  destruct (apply_fields_effect _ _ _ Hap) as (Hst & Hb & Hcl & Hte).
  cbn [head start_progress empty_head status_code] in Hst.
  set (text := a ++ CR :: LF :: concat (map field_line fields) ++ [CR; LF]).
  assert (Hit : inp = text ++ rest).
  { unfold text. rewrite Hinp, Hr. repeat (rewrite <- !app_assoc; cbn [app]). done. }
  assert (Hn : len inp - len rest = len text) by (rewrite Hit, len_app; lia).
  assert (Hmax : len inp <= kMaximumHttpHeaderBytes).
  { unfold inp, len. rewrite length_take. unfold kMaximumHttpHeaderBytes. lia. }
  exists a, fields. fold text. rewrite Hn. split.
  { assert (Hti : take (length text) input = take (length text) inp).
    { unfold inp. rewrite take_take. f_equal.
      assert (length text <= length inp)%nat by (rewrite Hit, length_app; lia).
      unfold inp in *. rewrite length_take in *. lia. }
    unfold len. rewrite Nat2Z.id, Hti, Hit. apply take_app_length. }
  split; [done|]. split; [len_facts; lia|]. rewrite Hst. split; [done|].
  pose proof (parse_status_line_range _ _ E2) as Hcode. split; [done|]. split; [done|].
  unfold final_checks in E4. rewrite Hst in E4.
  destruct (has_content_length (head p) && chunked (head p)) eqn:F1; [done|].
  destruct (negb (has_content_length (head p)) && negb (chunked (head p)) &&
            negb (StatusMayHaveUnframedBody code)) eqn:F2; [done|].
  destruct ((300 <=? code) && (code <? 400) && (len (location (head p)) =? 0)) eqn:F3; [done|].
  split; [|split].
  - unfold content_length_ok, chunked_ok in *.
    destruct (named (str "content-length") fields) as [|f [|]];
      destruct (named (str "transfer-encoding") fields) as [|g [|]]; try done;
      cbn [head start_progress empty_head has_content_length content_length chunked
           saw_transfer_encoding] in *.
    + destruct Hcl as [Hc1 _], Hte as [Hc2 _]. rewrite Hc1, Hc2 in *. cbn in F2.
      split; [done|]. split; [done|]. by destruct (StatusMayHaveUnframedBody code).
    + destruct Hcl as [Hc1 _], Hte as (_ & _ & Hc2 & Hv). rewrite Hc1, Hc2.
      split; [done|]. split; [done|]. by apply bytes_eqb_eq in Hv.
    + destruct Hcl as (_ & Hc1 & Hd), Hte as [Hc2 _]. rewrite Hc1, Hc2.
      apply decimal_u64_spec in Hd. tauto.
    + destruct Hcl as (_ & Hc1 & _), Hte as (_ & _ & Hc2 & _). by rewrite Hc1, Hc2 in F1.
  - intros Hred Hloc. rewrite Hloc in F3. rewrite (proj2 (Z.leb_le 300 code)) in F3 by lia.
    rewrite (proj2 (Z.ltb_lt code 400)) in F3 by lia. done.
  - apply Hb. done.
Qed.

Definition sample_response : bytes :=
  str "HTTP/1.1 200 OK" ++ [CR; LF] ++ str "Content-Length: 42" ++ [CR; LF; CR; LF; 1; 2].

Lemma sample_response_ok :
  ParseHttpResponseHead sample_response = inr (mkHead 200 true 42 false false [] [], 39).
Proof. vm_compute. reflexivity. Defined.

Lemma ParseHttpResponseHead_framing_witness :
  framing_ok sample_response (mkHead 200 true 42 false false [] []) 39.
Proof. apply (ParseHttpResponseHead_framing sample_response _ _ sample_response_ok). Defined.

(** The head parser is incremental: the verdict on a complete head depends
    only on its own bytes, whatever follows, and every proper prefix of it is
    answered with [NeedMoreData].  So parsing after each received segment gives
    the same head as parsing the whole response at once. *)
Theorem ParseHttpResponseHead_incremental input h n :
  ParseHttpResponseHead input = inr (h, n) ->
  (forall more, ParseHttpResponseHead (take (Z.to_nat n) input ++ more) = inr (h, n)) /\
  (forall k, 0 <= k < n -> ParseHttpResponseHead (take (Z.to_nat k) input) = inl PS_NeedMoreData).
Proof.
  intros H0. pose proof (ParseHttpResponseHead_framing _ _ _ H0) as
    (st0 & fs0 & _ & Hn1 & Hnmax & _). clear Hn1 st0 fs0. revert H0.
  unfold ParseHttpResponseHead. set (M := Z.to_nat kMaximumHttpHeaderBytes).
  set (inp := take M input).
  destruct (FindCrlf inp) as [m|] eqn:E1; [|done].
  destruct (FindCrlf_Some _ _ E1) as (a & r & Hinp & Ha & Hfr & Hfk).
  assert (Hcut : forall t, take m (a ++ CR :: LF :: t) = a /\ drop (m + 2) (a ++ CR :: LF :: t) = t).
  { intros t. rewrite <- Ha, take_app_length, drop_app_ge by lia.
    by replace (length a + 2 - length a)%nat with 2%nat by lia. }
  rewrite Hinp, (proj1 (Hcut r)), (proj2 (Hcut r)), <- Hinp.
  destruct (parse_status_line a) as [code|] eqn:E2; [|done].
  destruct (header_loop _ _ _ _) as [e|[p rest]] eqn:E3; [done|].
  destruct (final_checks (head p)) eqn:E4; try done. intros [= <- <-].
  destruct (header_loop_stable _ _ _ _ _ _ E3) as (c & -> & Hc2 & Hst & Hpre).
  set (text := a ++ CR :: LF :: c).
  assert (Hit : inp = text ++ rest) by (unfold text; by rewrite Hinp, <- app_assoc).
  assert (Hn : len inp - len rest = len text) by (rewrite Hit, len_app; lia). rewrite Hn in *.
  assert (HtM : (length text <= M)%nat).
  { unfold M, len, kMaximumHttpHeaderBytes in *. lia. }
  assert (Htext : take (length text) input = text).
  { transitivity (take (length text) inp).
    - unfold inp. rewrite take_take. f_equal. lia.
    - rewrite Hit. apply take_app_length. }
  split.
  - intros more. set (rest' := take (M - length text) more).
    assert (Heq : take M (take (Z.to_nat (len text)) input ++ more) = a ++ CR :: LF :: (c ++ rest')).
    { unfold len. rewrite Nat2Z.id, Htext, take_app_ge by lia. fold rest'. unfold text.
      by rewrite <- app_assoc. }
    rewrite Heq, Hfr, (proj1 (Hcut _)), (proj2 (Hcut _)), E2, Hst, E4.
    + do 2 f_equal. unfold text. rewrite !len_app, !len_cons, len_app. lia.
    + rewrite (length_app a). cbn [length]. lia.
  - intros k Hk. assert (Hkt : (Z.to_nat k < length text)%nat) by (unfold len in Hk; lia).
    assert (Htk : take M (take (Z.to_nat k) input) = take (Z.to_nat k) text).
    { rewrite take_take, <- Htext, take_take. f_equal. lia. }
    rewrite Htk. set (j := Z.to_nat k) in *.
    assert (Hlen : length (take j text) = j) by (rewrite length_take; lia).
    assert (Hinc : (len (take j text) =? kMaximumHttpHeaderBytes) = false).
    { apply Z.eqb_neq. unfold len. rewrite Hlen. unfold M in HtM. lia. }
    rewrite Hinc. destruct (decide (j < m + 2)%nat) as [Hj|Hj].
    + assert (Hx : take j text = take j inp) by (rewrite Hit, take_app_le; [done | lia]).
      rewrite Hx, (Hfk j Hj). done.
    + assert (Hx : take j text = a ++ CR :: LF :: take (j - m - 2) c).
      { unfold text. rewrite take_app_ge by lia. f_equal. rewrite Ha.
        replace (j - m)%nat with (S (S (j - m - 2))) by lia. cbn [take]. do 3 f_equal. lia. }
      rewrite Hx, Hfr, (proj1 (Hcut _)), (proj2 (Hcut _)), E2.
      assert (Hjc : (j - m - 2 < length c)%nat).
      { unfold text in Hkt. rewrite length_app in Hkt. cbn [length] in Hkt. lia. }
      rewrite <- (take_app_le c rest) by lia.
      rewrite Hpre; [done | done |].
      rewrite take_app_le, <- Hx, Hlen by lia. lia.
Qed.

Lemma ParseHttpResponseHead_incremental_witness :
  (forall more, ParseHttpResponseHead (take (Z.to_nat 39) sample_response ++ more) =
     inr (mkHead 200 true 42 false false [] [], 39)) /\
  (forall k, 0 <= k < 39 ->
     ParseHttpResponseHead (take (Z.to_nat k) sample_response) = inl PS_NeedMoreData).
Proof. apply (ParseHttpResponseHead_incremental sample_response _ _ sample_response_ok). Defined.

(** A NUL byte passes [IsTokenCharacter], because the [strchr] search
    finds the terminator of the punctuation set: a head whose field name
    contains a NUL is accepted. *)
Theorem IsTokenCharacter_accepts_NUL :
  IsTokenCharacter NUL = true /\
  ParseHttpResponseHead (str "HTTP/1.1 204 X" ++ [CR; LF; 88; NUL; 89] ++ str ":" ++ [CR; LF; CR; LF])
  = inr (mkHead 204 false 0 false false [] [], 24).
Proof. vm_compute. split; reflexivity. Qed.
End Head.
