(* ===== verification/HttpRequest.v ===== *)
(** * HTTP requests of the remote-control server
    (src/src/remote/http_types.cpp, src/src/remote/http_parser.cpp)

    The shared HTTP vocabulary ([Module Types]) and the incremental request
    parser ([Module Parser]).  A string view is the list of its bytes: a null
    view has size 0 and every function of the source treats it as the empty
    view.  The views of a parsed request are given by their contents.  The
    theorems: the parser is insensitive to how the connection splits the
    head, an accepted head is the printed form of the request it reports, and
    body framing is unambiguous. *)
From S2P Require Import Prelude.
From Stdlib Require Import Ascii.
Local Open Scope Z_scope.

(** ** Types (http_types.cpp) *)
Module Types.
Definition kHttpMaximumHeaderBytes : Z := 8192.
Definition kHttpMaximumRequestTargetBytes : Z := 2048.
Definition kHttpMaximumRequestHeaders : Z := 64.
Definition kHttpMaximumResponseHeaders : Z := 16.
Definition kHttpMaximumResponseHeaderBytes : Z := 2048.
Definition kHttpResponseStreamBufferBytes : Z := 1024.

Definition HttpStringEquals (value expected : bytes) : bool := bytes_eqb value expected.
Definition HttpStringEqualsInsensitive (value expected : bytes) : bool :=
  bytes_eqb (map AsciiLower value) (map AsciiLower expected).
Definition HttpStringStartsWith (value prefix : bytes) : bool := starts_with prefix value.

Inductive HttpMethod := Get | Head | Put | Post | Delete.

#[export] Instance HttpMethod_eq_dec : EqDecision HttpMethod.
Proof. solve_decision. Defined.

Definition HttpMethodName (method : HttpMethod) : bytes :=
  match method with
  | Get => str "GET"
  | Head => str "HEAD"
  | Put => str "PUT"
  | Post => str "POST"
  | Delete => str "DELETE"
  end.

Record HttpHeaderView := mkHeader { name : bytes; value : bytes }.

Record HttpRequestHead := mkRequest {
  method : HttpMethod;
  raw_target : bytes;
  raw_path : bytes;
  raw_query : bytes;
  has_query : bool;
  headers : list HttpHeaderView;
  has_content_length : bool;
  content_length : Z;
  content_length_count : Z;
}.

Definition new_request : HttpRequestHead := mkRequest Get [] [] [] false [] false 0 0.

(** [Header]: the first header of that name. *)
Definition Header (r : HttpRequestHead) (n : bytes) : option bytes :=
  value <$> find (fun h => HttpStringEqualsInsensitive (name h) n) (headers r).

Definition HeaderCount (r : HttpRequestHead) (n : bytes) : Z :=
  len (List.filter (fun h => HttpStringEqualsInsensitive (name h) n) (headers r)).

Inductive HttpResponseBodyKind := BodyEmpty | BodyFixed | BodyHeadOnly | BodyStream.

#[export] Instance HttpResponseBodyKind_eq_dec : EqDecision HttpResponseBodyKind.
Proof. solve_decision. Defined.

(** A response; [S] is the type of its stream objects. *)
Record HttpResponse (S : Type) := mkResponse {
  status_code : Z;
  reason_phrase : bytes;
  response_headers : list HttpHeaderView;
  body_kind : HttpResponseBodyKind;
  fixed_body : bytes;
  declared_content_length : Z;
  stream : option S;
  completion : option nat;
}.
Arguments mkResponse {S} _ _ _ _ _ _ _ _.
Arguments status_code {S} _.
Arguments reason_phrase {S} _.
Arguments response_headers {S} _.
Arguments body_kind {S} _.
Arguments fixed_body {S} _.
Arguments declared_content_length {S} _.
Arguments stream {S} _.
Arguments completion {S} _.

Definition HttpReasonPhrase (status : Z) : bytes :=
  if status =? 200 then str "OK"
  else if status =? 201 then str "Created"
  else if status =? 202 then str "Accepted"
  else if status =? 204 then str "No Content"
  else if status =? 400 then str "Bad Request"
  else if status =? 401 then str "Unauthorized"
  else if status =? 403 then str "Forbidden"
  else if status =? 404 then str "Not Found"
  else if status =? 405 then str "Method Not Allowed"
  else if status =? 408 then str "Request Timeout"
  else if status =? 409 then str "Conflict"
  else if status =? 411 then str "Length Required"
  else if status =? 413 then str "Content Too Large"
  else if status =? 415 then str "Unsupported Media Type"
  else if status =? 417 then str "Expectation Failed"
  else if status =? 422 then str "Unprocessable Content"
  else if status =? 429 then str "Too Many Requests"
  else if status =? 431 then str "Request Header Fields Too Large"
  else if status =? 500 then str "Internal Server Error"
  else if status =? 503 then str "Service Unavailable"
  else if status =? 505 then str "HTTP Version Not Supported"
  else if status =? 507 then str "Insufficient Storage"
  else str "Unknown".

Section response.
Context {S : Type}.
Notation HttpResponse := (HttpResponse S).

Definition new_response : HttpResponse := mkResponse 500 [] [] BodyEmpty [] 0 None None.

Definition Reset (status : Z) (reason : option bytes) : HttpResponse :=
  mkResponse status (default (HttpReasonPhrase status) reason) [] BodyEmpty [] 0 None None.

(** [AddHeader]: false (and no change) when all slots are taken. *)
Definition AddHeader (r : HttpResponse) (n v : bytes) : bool * HttpResponse :=
  if kHttpMaximumResponseHeaders <=? len (response_headers r) then (false, r)
  else (true, mkResponse (status_code r) (reason_phrase r)
                (response_headers r ++ [mkHeader n v]) (body_kind r) (fixed_body r)
                (declared_content_length r) (stream r) (completion r)).

Definition with_body (r : HttpResponse) (kind : HttpResponseBodyKind) (body : bytes)
    (declared : Z) (s : option S) : HttpResponse :=
  mkResponse (status_code r) (reason_phrase r) (response_headers r) kind body declared s
    (completion r).

Definition SetEmptyBody (r : HttpResponse) : HttpResponse := with_body r BodyEmpty [] 0 None.
Definition SetFixedBody (r : HttpResponse) (body : bytes) : HttpResponse :=
  with_body r BodyFixed body (len body) None.
Definition SetFixedText (r : HttpResponse) (body : option bytes) : HttpResponse :=
  match body with
  | None => SetEmptyBody r
  | Some text => SetFixedBody r text
  end.
Definition SetHeadOnly (r : HttpResponse) (length : Z) : HttpResponse :=
  with_body r BodyHeadOnly [] length None.
Definition SetStream (r : HttpResponse) (s : S) : HttpResponse :=
  with_body r BodyStream [] 0 (Some s).
End response.

End Types.
Import Types.

(** ** The request parser (http_parser.cpp) *)
Module Parser.
Inductive HttpRequestParseStatus :=
| NeedMoreData | Complete | InvalidArgument | HeaderTooLarge | InvalidLineEnding
| InvalidRequestLine | UnsupportedMethod | UnsupportedVersion | InvalidRequestTarget
| RequestTargetTooLong | InvalidHeader | TooManyHeaders | InvalidContentLength
| ConflictingContentLength | UnsupportedTransferEncoding | AmbiguousBodyLength.

#[export] Instance HttpRequestParseStatus_eq_dec : EqDecision HttpRequestParseStatus.
Proof. solve_decision. Defined.

Fixpoint FindCrlf (l : bytes) : option nat :=
  match l with
  | p0 :: ((p1 :: _) as l') =>
      if (p0 =? CR) && (p1 =? LF) then Some 0%nat else S <$> FindCrlf l'
  | _ => None
  end.

Definition ParseDecimal (v : bytes) : option Z := decimal_u64 v.

Definition ParseMethod (v : bytes) : option HttpMethod :=
  if bytes_eqb v (str "GET") then Some Get
  else if bytes_eqb v (str "HEAD") then Some Head
  else if bytes_eqb v (str "PUT") then Some Put
  else if bytes_eqb v (str "POST") then Some Post
  else if bytes_eqb v (str "DELETE") then Some Delete
  else None.

Record HttpRequestParser := mkRequestParser {
  buffer_ : bytes;
  maximum_header_bytes_ : Z;
  previous_was_cr_ : bool;
  status_ : HttpRequestParseStatus;
  request_ : HttpRequestHead;
}.

Definition new_parser (maximum : Z) : HttpRequestParser :=
  mkRequestParser []
    (if (maximum =? 0) || (kHttpMaximumHeaderBytes <? maximum)
     then kHttpMaximumHeaderBytes else maximum)
    false NeedMoreData new_request.

Definition Reset (p : HttpRequestParser) : HttpRequestParser :=
  mkRequestParser [] (maximum_header_bytes_ p) false NeedMoreData new_request.

Definition Fail (p : HttpRequestParser) (st : HttpRequestParseStatus) : HttpRequestParser :=
  mkRequestParser (buffer_ p) (maximum_header_bytes_ p) (previous_was_cr_ p) st (request_ p).

(** The request fields written before a failure stay written, so every step
    of [ParseCompleteHead] returns its request with its status. *)
Definition with_method (r : HttpRequestHead) (m : HttpMethod) : HttpRequestHead :=
  mkRequest m (raw_target r) (raw_path r) (raw_query r) (has_query r) (headers r)
    (has_content_length r) (content_length r) (content_length_count r).

Definition with_target (r : HttpRequestHead) (target : bytes) : HttpRequestHead :=
  let '(path, query, has) :=
    match index_of (ch "?"%char) target with
    | None => (target, [], false)
    | Some q => (take q target, drop (S q) target, true)
    end in
  mkRequest (method r) target path query has (headers r)
    (has_content_length r) (content_length r) (content_length_count r).

(** The request line without its CRLF. *)
Definition parse_request_line (r : HttpRequestHead) (line : bytes)
    : HttpRequestParseStatus * HttpRequestHead :=
  match index_of SP line with
  | None | Some O => (InvalidRequestLine, r)
  | Some i =>
      let method_text := take i line in
      let rest := drop (S i) line in
      match index_of SP rest with
      | None | Some O => (InvalidRequestLine, r)
      | Some j =>
          let target := take j rest in
          let version := drop (S j) rest in
          if (len version =? 0) ||
             match index_of SP version with Some _ => true | None => false end
          then (InvalidRequestLine, r)
          else match ParseMethod method_text with
          | None => (UnsupportedMethod, r)
          | Some m =>
              let r := with_method r m in
              if kHttpMaximumRequestTargetBytes <? len target then (RequestTargetTooLong, r)
              else if negb (byte_at target 0 =? ch "/"%char) then (InvalidRequestTarget, r)
              else if existsb (fun c => (c <=? 0x20) || (0x7e <? c) || (c =? ch "#"%char)) target
              then (InvalidRequestTarget, r)
              else if negb (bytes_eqb version (str "HTTP/1.1")) then (UnsupportedVersion, r)
              else (Complete, with_target r target)
          end
      end
  end.

(** One header line; the boolean is [saw_transfer_encoding]. *)
Definition parse_header_line (r : HttpRequestHead) (saw_te : bool) (line : bytes)
    : HttpRequestParseStatus * HttpRequestHead * bool :=
  match index_of (ch ":"%char) line with
  | None | Some O => (InvalidHeader, r, saw_te)
  | Some colon =>
      let n := take colon line in
      let v := trim (drop (S colon) line) in
      if negb (forallb IsTokenCharacter n) then (InvalidHeader, r, saw_te)
      else if existsb bad_value_byte v then (InvalidHeader, r, saw_te)
      else if kHttpMaximumRequestHeaders <=? len (headers r) then (TooManyHeaders, r, saw_te)
      else
        let r := mkRequest (method r) (raw_target r) (raw_path r) (raw_query r) (has_query r)
                   (headers r ++ [mkHeader n v]) (has_content_length r) (content_length r)
                   (content_length_count r) in
        if HttpStringEqualsInsensitive n (str "Content-Length") then
          match ParseDecimal v with
          | None => (InvalidContentLength, r, saw_te)
          | Some parsed =>
              if has_content_length r && negb (content_length r =? parsed)
              then (ConflictingContentLength, r, saw_te)
              else (Complete, mkRequest (method r) (raw_target r) (raw_path r) (raw_query r)
                      (has_query r) (headers r) true parsed (content_length_count r + 1), saw_te)
          end
        else if HttpStringEqualsInsensitive n (str "Transfer-Encoding")
        then (Complete, r, true)
        else (Complete, r, saw_te)
  end.

(** The loop over the lines up to the blank one; the rest is what follows. *)
Fixpoint header_lines (fuel : nat) (r : HttpRequestHead) (saw_te : bool) (line : bytes)
    : HttpRequestParseStatus * HttpRequestHead * bool * bytes :=
  match fuel with
  | O => (InvalidHeader, r, saw_te, line)
  | S fuel' =>
      match line with
      | [] => (Complete, r, saw_te, [])
      | c0 :: _ =>
          match FindCrlf line with
          | None => (InvalidHeader, r, saw_te, line)
          | Some O => (Complete, r, saw_te, drop 2 line)
          | Some n =>
              if is_ows c0 then (InvalidHeader, r, saw_te, line)
              else
                let '(st, r', te') := parse_header_line r saw_te (take n line) in
                match st with
                | Complete => header_lines fuel' r' te' (drop (n + 2) line)
                | _ => (st, r', te', line)
                end
          end
      end
  end.

Definition ParseCompleteHead (r : HttpRequestHead) (head : bytes)
    : HttpRequestParseStatus * HttpRequestHead :=
  match FindCrlf head with
  | None | Some O => (InvalidRequestLine, r)
  | Some n =>
      let '(st, r) := parse_request_line r (take n head) in
      match st with
      | Complete =>
          let '(st, r, saw_te, rest) := header_lines (length head) r false (drop (n + 2) head) in
          match st with
          | Complete =>
              if negb (len rest =? 0) then (InvalidHeader, r)
              else if saw_te && has_content_length r then (AmbiguousBodyLength, r)
              else if saw_te then (UnsupportedTransferEncoding, r)
              else (Complete, r)
          | _ => (st, r)
          end
      | _ => (st, r)
      end
  end.

Definition ends_head (b : bytes) : bool :=
  (4 <=? len b) && (byte_at b (len b - 4) =? CR) && (byte_at b (len b - 3) =? LF) &&
  (byte_at b (len b - 2) =? CR) && (byte_at b (len b - 1) =? LF).

(** The loop of [Feed] over the unread data; the number is the bytes consumed. *)
Fixpoint feed_loop (p : HttpRequestParser) (data : bytes)
    : HttpRequestParseStatus * Z * HttpRequestParser :=
  match data with
  | [] =>
      if len (buffer_ p) =? maximum_header_bytes_ p
      then (HeaderTooLarge, 0, Fail p HeaderTooLarge)
      else (status_ p, 0, p)
  | v :: data' =>
      if maximum_header_bytes_ p <=? len (buffer_ p)
      then (HeaderTooLarge, 0, Fail p HeaderTooLarge)
      else if v =? 0 then (InvalidHeader, 0, Fail p InvalidHeader)
      else if (previous_was_cr_ p && negb (v =? LF)) || (negb (previous_was_cr_ p) && (v =? LF))
      then (InvalidLineEnding, 0, Fail p InvalidLineEnding)
      else
        let p := mkRequestParser (buffer_ p ++ [v]) (maximum_header_bytes_ p) (v =? CR)
                   (status_ p) (request_ p) in
        if ends_head (buffer_ p) then
          let '(st, r) := ParseCompleteHead (request_ p) (buffer_ p) in
          (st, 1, mkRequestParser (buffer_ p) (maximum_header_bytes_ p) (previous_was_cr_ p) st r)
        else
          let '(st, n, p') := feed_loop p data' in (st, n + 1, p')
  end.

Definition Feed (p : HttpRequestParser) (data : bytes)
    : HttpRequestParseStatus * Z * HttpRequestParser :=
  match status_ p with
  | NeedMoreData => feed_loop p data
  | st => (st, 0, p)
  end.

Definition HttpRequestParseStatusString (st : HttpRequestParseStatus) : bytes :=
  match st with
  | NeedMoreData => str "need more data"
  | Complete => str "complete"
  | InvalidArgument => str "invalid argument"
  | HeaderTooLarge => str "header too large"
  | InvalidLineEnding => str "invalid line ending"
  | InvalidRequestLine => str "invalid request line"
  | UnsupportedMethod => str "unsupported method"
  | UnsupportedVersion => str "unsupported HTTP version"
  | InvalidRequestTarget => str "invalid request target"
  | RequestTargetTooLong => str "request target too long"
  | InvalidHeader => str "invalid header"
  | TooManyHeaders => str "too many headers"
  | InvalidContentLength => str "invalid Content-Length"
  | ConflictingContentLength => str "conflicting Content-Length"
  | UnsupportedTransferEncoding => str "unsupported Transfer-Encoding"
  | AmbiguousBodyLength => str "ambiguous body length"
  end.

(** *** The printed form of a request *)
(** A field as it stands in the text: the name and the raw value, with its
    optional white space. *)
Definition field : Type := bytes * bytes.
Definition field_text (f : field) : bytes := f.1 ++ ch ":"%char :: f.2 ++ [CR; LF].

Definition request_line (m : HttpMethod) (target : bytes) : bytes :=
  HttpMethodName m ++ SP :: target ++ SP :: str "HTTP/1.1".

Definition request_text (m : HttpMethod) (target : bytes) (fields : list field) : bytes :=
  request_line m target ++ CR :: LF :: concat (map field_text fields) ++ [CR; LF].

Definition wf_target (t : bytes) : Prop :=
  len t <= kHttpMaximumRequestTargetBytes /\ byte_at t 0 = ch "/"%char /\
  Forall (fun c => 0x21 <= c <= 0x7e /\ c <> ch "#"%char) t.

Definition wf_field (f : field) : Prop :=
  f.1 <> [] /\ Forall (fun c => IsTokenCharacter c = true) f.1 /\
  Forall (fun c => bad_value_byte c = false) f.2.

Definition named (n : bytes) (fields : list field) : list field :=
  List.filter (fun f => HttpStringEqualsInsensitive f.1 n) fields.

(** The values of the Content-Length fields, [None] for one that is not a
    64-bit decimal, and the length they agree on. *)
Definition lengths (fields : list field) : list (option Z) :=
  map (fun f => decimal_u64 (trim f.2)) (named (str "Content-Length") fields).

Definition agreed (ls : list (option Z)) (has : bool) (n : Z) : Prop :=
  match ls with
  | [] => has = false /\ n = 0
  | _ => has = true /\ Forall (fun l => l = Some n) ls
  end.

Definition path_of (t : bytes) : bytes := before (ch "?"%char) t.
Definition query_of (t : bytes) : bytes :=
  match index_of (ch "?"%char) t with None => [] | Some q => drop (S q) t end.

(** The request that a well-formed text denotes. *)
Definition denotes (m : HttpMethod) (t : bytes) (fields : list field) (r : HttpRequestHead) : Prop :=
  method r = m /\ raw_target r = t /\ raw_path r = path_of t /\ raw_query r = query_of t /\
  has_query r = bool_decide (ch "?"%char ∈ t) /\
  headers r = map (fun f => mkHeader f.1 (trim f.2)) fields /\
  agreed (lengths fields) (has_content_length r) (content_length r) /\
  content_length_count r = len (lengths fields).

Definition wf_request (t : bytes) (fields : list field) : Prop :=
  wf_target t /\ Forall wf_field fields /\ len fields <= kHttpMaximumRequestHeaders /\
  named (str "Transfer-Encoding") fields = [].

(** *** Lines *)
Lemma find_crlf_split l n : FindCrlf l = Some n ->
  exists a r, l = a ++ CR :: LF :: r /\ length a = n.
Proof.
  revert n. induction l as [|p0 l IH]; intros n; [done|]. cbn [FindCrlf].
  destruct l as [|p1 l]; [done|]. destruct ((p0 =? CR) && (p1 =? LF)) eqn:E.
  - intros [= <-]. zbool. subst. by exists [], l.
  - destruct (FindCrlf (p1 :: l)) as [m|]; [|done]. intros [= <-].
    destruct (IH m eq_refl) as (a & r & Hl & Ha). exists (p0 :: a), r.
    split; [by rewrite Hl | by simpl; rewrite Ha].
Qed.

Lemma FindCrlf_line a r : CR ∉ a -> FindCrlf (a ++ CR :: LF :: r) = Some (length a).
Proof.
  induction a as [|x a IH]; [done|]. intros Hn.
  assert (Hx : x <> CR) by set_solver. assert (Ha : CR ∉ a) by set_solver.
  cbn [app FindCrlf length]. destruct (a ++ CR :: LF :: r) as [|y t] eqn:E.
  { by destruct a. }
  rewrite (proj2 (Z.eqb_neq x CR)) by done. cbn [andb]. rewrite IH by done. done.
Qed.

Lemma cut_line (a r : bytes) :
  take (length a) (a ++ CR :: LF :: r) = a /\ drop (length a + 2) (a ++ CR :: LF :: r) = r.
Proof.
  split; [apply take_app_length|]. rewrite drop_app_ge by lia.
  by replace (length a + 2 - length a)%nat with 2%nat by lia.
Qed.

Lemma token_not_special c : IsTokenCharacter c = true ->
  c <> CR /\ c <> LF /\ c <> ch ":"%char /\ is_ows c = false.
Proof.
  intros H. split; [intros ->|split; [intros ->|split; [intros ->|]]]; try by vm_compute in H.
  destruct (is_ows c) eqn:E; [|done]. unfold is_ows in E.
  apply orb_true_iff in E as [E|E]; apply Z.eqb_eq in E; subst; by vm_compute in H.
Qed.

Lemma not_bad_not_crlf c : bad_value_byte c = false -> c <> CR /\ c <> LF.
Proof. intros H. split; intros ->; by vm_compute in H. Qed.

(** A field line, without its CRLF, contains neither CR nor LF. *)
Lemma field_line_clean f : wf_field f ->
  Forall (fun c => c <> CR /\ c <> LF) (f.1 ++ ch ":"%char :: f.2).
Proof.
  intros (_ & H1 & H2). apply Forall_app. split.
  - eapply Forall_impl; [exact H1|]. cbn. intros c Hc. apply token_not_special in Hc. tauto.
  - constructor; [done|]. eapply Forall_impl; [exact H2|]. cbn. apply not_bad_not_crlf.
Qed.

Lemma Forall_notin {A} (P : A -> Prop) (x : A) l : Forall P l -> ~ P x -> x ∉ l.
Proof.
  intros HF Hx Hin. apply Hx. rewrite List.Forall_forall in HF. apply HF.
  by apply list_elem_of_In.
Qed.

(** *** The request line *)
Lemma ParseMethod_spec v m : ParseMethod v = Some m <-> v = HttpMethodName m.
Proof.
  unfold ParseMethod. split.
  - intros H. guards H;
    repeat match goal with H : bytes_eqb _ _ = true |- _ => apply bytes_eqb_eq in H end;
    injection H as <-; done.
  - intros ->. by destruct m.
Qed.

Lemma method_no_space m : SP ∉ HttpMethodName m.
Proof. apply index_of_None. by destruct m. Qed.

Lemma with_target_fields r t :
  method (with_target r t) = method r /\ raw_target (with_target r t) = t /\
  raw_path (with_target r t) = path_of t /\ raw_query (with_target r t) = query_of t /\
  has_query (with_target r t) = bool_decide (ch "?"%char ∈ t) /\
  headers (with_target r t) = headers r /\
  has_content_length (with_target r t) = has_content_length r /\
  content_length (with_target r t) = content_length r /\
  content_length_count (with_target r t) = content_length_count r.
Proof.
  unfold with_target, path_of, query_of.
  destruct (index_of (ch "?"%char) t) as [q|] eqn:E; cbn.
  - destruct (index_of_split _ _ _ E) as (a & rest & -> & Ha & Hn).
    rewrite bool_decide_eq_true_2 by set_solver.
    assert (Hb : before (ch "?"%char) (a ++ ch "?"%char :: rest) = a).
    { clear E Ha. induction a as [|x a IH]; cbn [app before]; [by rewrite Z.eqb_refl|].
      rewrite (proj2 (Z.eqb_neq x _)) by set_solver. f_equal. apply IH. set_solver. }
    rewrite Hb. rewrite <- Ha, take_app_length. done.
  - apply index_of_None in E. rewrite bool_decide_eq_false_2 by done.
    assert (Hb : before (ch "?"%char) t = t).
    { clear r. induction t as [|x t IH]; cbn [before]; [done|].
      rewrite (proj2 (Z.eqb_neq x _)) by set_solver. f_equal. apply IH. set_solver. }
    by rewrite Hb.
Qed.

Lemma parse_request_line_Complete r line r' :
  parse_request_line r line = (Complete, r') <->
  exists m t, line = request_line m t /\ wf_target t /\ r' = with_target (with_method r m) t.
Proof.
  unfold parse_request_line, request_line. split.
  - intros H. destruct (index_of SP line) as [[|i]|] eqn:E1; try done.
    destruct (index_of_split _ _ _ E1) as (a & rest & -> & Ha & Hna).
    rewrite <- Ha, take_app_length, drop_app_cons_length in H.
    destruct (index_of SP rest) as [[|j]|] eqn:E2; try done.
    destruct (index_of_split _ _ _ E2) as (t & v & -> & Ht & Hnt).
    rewrite <- Ht, take_app_length, drop_app_cons_length in H.
    guards H. injection H as <-.
    match goal with E : ParseMethod a = Some ?m |- _ =>
      apply ParseMethod_spec in E; subst a; exists m, t end. zbool.
    match goal with H : bytes_eqb _ _ = true |- _ => apply bytes_eqb_eq in H; subst v end.
    split; [done|]. split; [|done]. split; [done|]. split; [done|].
    match goal with H : existsb _ _ = false |- _ => apply existsb_Forall_bool in H;
      eapply Forall_impl; [exact H|] end.
    cbn. intros c Hc. zbool. lia.
  - intros (m & t & -> & (Hlt & Hslash & Hch) & ->).
    rewrite index_of_app_new by apply method_no_space.
    destruct (length (HttpMethodName m)) as [|i] eqn:Ei; [by destruct m|]. rewrite <- Ei.
    rewrite take_app_length, drop_app_cons_length.
    assert (Hnt : SP ∉ t) by (eapply Forall_notin; [exact Hch|]; unfold SP; lia).
    rewrite index_of_app_new by done.
    destruct (length t) as [|j] eqn:Ej; [by destruct t|]. rewrite <- Ej.
    rewrite take_app_length, drop_app_cons_length.
    change ((len (str "HTTP/1.1") =? 0) || match index_of SP (str "HTTP/1.1") with
      Some _ => true | None => false end) with false. cbn [orb].
    rewrite (proj2 (ParseMethod_spec _ m) eq_refl).
    rewrite (proj2 (Z.ltb_ge kHttpMaximumRequestTargetBytes _)) by lia.
    rewrite Hslash, Z.eqb_refl. cbn [negb].
    rewrite (proj2 (existsb_Forall_bool _ _)).
    + by rewrite bytes_eqb_refl.
    + eapply Forall_impl; [exact Hch|]. cbn. intros c Hc.
      rewrite (proj2 (Z.leb_gt c _)), (proj2 (Z.ltb_ge 126 c)), (proj2 (Z.eqb_neq c _)) by lia. done.
Qed.

(** *** The header lines *)
Definition is_length (f : field) : bool := HttpStringEqualsInsensitive f.1 (str "Content-Length").
Definition is_te (f : field) : bool := HttpStringEqualsInsensitive f.1 (str "Transfer-Encoding").

(** What a well-formed field does to the request under construction. *)
Definition field_step (r : HttpRequestHead) (te : bool) (f : field) : option (HttpRequestHead * bool) :=
  if kHttpMaximumRequestHeaders <=? len (headers r) then None
  else
    let add has n count := mkRequest (method r) (raw_target r) (raw_path r) (raw_query r)
      (has_query r) (headers r ++ [mkHeader f.1 (trim f.2)]) has n count in
    if is_length f then
      match decimal_u64 (trim f.2) with
      | None => None
      | Some n =>
          if has_content_length r && negb (content_length r =? n) then None
          else Some (add true n (content_length_count r + 1), te)
      end
    else Some (add (has_content_length r) (content_length r) (content_length_count r),
               if is_te f then true else te).

Lemma parse_header_line_Complete r te line r' te' :
  parse_header_line r te line = (Complete, r', te') <->
  exists f, line = f.1 ++ ch ":"%char :: f.2 /\ wf_field f /\ field_step r te f = Some (r', te').
Proof.
  unfold parse_header_line, field_step, is_length, is_te. split.
  - intros H. destruct (index_of (ch ":"%char) line) as [[|colon]|] eqn:E1; try done.
    destruct (index_of_split _ _ _ E1) as (a & v & -> & Ha & Hn).
    rewrite <- Ha, take_app_length, drop_app_cons_length in H.
    exists (a, v). cbn [fst snd]. split; [done|].
    destruct (forallb IsTokenCharacter a) eqn:Et; [|done]. cbn [negb] in H.
    destruct (existsb bad_value_byte (trim v)) eqn:Eb; [done|].
    split.
    { split; [by destruct a|]. split; [by apply forallb_Forall_bool | by apply existsb_bad_trim]. }
    destruct (kHttpMaximumRequestHeaders <=? len (headers r)); [done|].
    cbn [has_content_length content_length content_length_count headers method raw_target raw_path
         raw_query has_query] in H. unfold ParseDecimal in H.
    destruct (HttpStringEqualsInsensitive a (str "Content-Length")).
    + destruct (decimal_u64 (trim v)) as [n|]; [|done].
      destruct (has_content_length r && negb (content_length r =? n)); [done|].
      by injection H as <- <-.
    + destruct (HttpStringEqualsInsensitive a (str "Transfer-Encoding")); by injection H as <- <-.
  - intros ([a v] & -> & (Hne & Ht & Hb) & Hs). cbn [fst snd] in *.
    assert (Hn : ch ":"%char ∉ a).
    { eapply Forall_notin; [exact Ht|]. intros Hc. by apply token_not_special in Hc as (_ & _ & Hc & _). }
    rewrite index_of_app_new by done.
    destruct (length a) as [|i] eqn:Ei; [by destruct a|]. rewrite <- Ei.
    rewrite take_app_length, drop_app_cons_length.
    rewrite (proj2 (forallb_Forall_bool _ _) Ht), (proj2 (existsb_bad_trim _) Hb). cbn [negb].
    destruct (kHttpMaximumRequestHeaders <=? len (headers r)); [done|].
    cbn [has_content_length content_length content_length_count headers method raw_target raw_path
         raw_query has_query]. unfold ParseDecimal.
    destruct (HttpStringEqualsInsensitive a (str "Content-Length")).
    + destruct (decimal_u64 (trim v)) as [n|]; [|done].
      destruct (has_content_length r && negb (content_length r =? n)); [done|].
      by injection Hs as <- <-.
    + destruct (HttpStringEqualsInsensitive a (str "Transfer-Encoding")); by injection Hs as <- <-.
Qed.

Fixpoint field_steps (r : HttpRequestHead) (te : bool) (fields : list field)
    : option (HttpRequestHead * bool) :=
  match fields with
  | [] => Some (r, te)
  | f :: fields' =>
      match field_step r te f with
      | None => None
      | Some (r', te') => field_steps r' te' fields'
      end
  end.

(** The running agreement of the Content-Length values. *)
Fixpoint final_length (has : bool) (n : Z) (ls : list (option Z)) : option (bool * Z) :=
  match ls with
  | [] => Some (has, n)
  | None :: _ => None
  | Some m :: ls' => if has && negb (n =? m) then None else final_length true m ls'
  end.

Lemma existsb_named fields :
  existsb is_te fields = false <-> named (str "Transfer-Encoding") fields = [].
Proof.
  unfold named, is_te. induction fields as [|f fields IH]; cbn [existsb List.filter]; [done|].
  by destruct (HttpStringEqualsInsensitive f.1 (str "Transfer-Encoding")).
Qed.

Lemma final_length_agreed ls h n :
  final_length false 0 ls = Some (h, n) <-> agreed ls h n.
Proof.
  assert (HL : forall ls m, final_length true m ls = Some (h, n) <->
    h = true /\ n = m /\ Forall (fun l => l = Some m) ls).
  { clear ls. induction ls as [|[k|] ls IH]; intros m; cbn [final_length andb].
    - split; [intros [= <- <-]; repeat split; constructor | by intros (-> & -> & _)].
    - destruct (Z.eqb_spec m k) as [->|Hne]; cbn [negb].
      + rewrite IH, Forall_cons. naive_solver.
      + split; [done|]. intros (_ & _ & HF). inversion HF. congruence.
    - split; [done|]. intros (_ & _ & HF). inversion HF. congruence. }
  unfold agreed. destruct ls as [|[k|] ls]; cbn [final_length andb].
  - split; [by intros [= <- <-] | by intros [-> ->]].
  - rewrite HL, Forall_cons. naive_solver.
  - split; [done|]. intros (_ & HF). by inversion HF.
Qed.

Lemma field_steps_spec fields r te r' te' : len (headers r) <= kHttpMaximumRequestHeaders ->
  field_steps r te fields = Some (r', te') <->
  exists h n, final_length (has_content_length r) (content_length r) (lengths fields) = Some (h, n) /\
    len (headers r) + len fields <= kHttpMaximumRequestHeaders /\
    r' = mkRequest (method r) (raw_target r) (raw_path r) (raw_query r) (has_query r)
      (headers r ++ map (fun f => mkHeader f.1 (trim f.2)) fields) h n
      (content_length_count r + len (lengths fields)) /\
    te' = te || existsb is_te fields.
Proof.
  revert r te. induction fields as [|f fields IH]; intros r te Hr; cbn [field_steps].
  { cbn [map lengths named List.filter final_length existsb]. change (len (@nil field)) with 0.
    change (len (lengths [])) with 0. rewrite app_nil_r, !Z.add_0_r, orb_false_r. split.
    - intros [= <- <-]. exists (has_content_length r), (content_length r).
      split; [done|]. split; [done|]. split; [by destruct r | done].
    - intros (h & n & [= <- <-] & _ & -> & ->). by destruct r. }
  rewrite len_cons. unfold field_step.
  destruct (Z.leb_spec kHttpMaximumRequestHeaders (len (headers r))) as [Hmax|Hmax].
  { split; [done|]. intros (_ & _ & _ & Hl & _). pose proof (len_nonneg fields). lia. }
  assert (Hte : is_length f = true -> is_te f = false).
  { unfold is_length, is_te, HttpStringEqualsInsensitive. intros H. apply bytes_eqb_eq in H.
    rewrite H. done. }
  assert (Hle : forall has n count, len (headers (mkRequest (method r) (raw_target r) (raw_path r)
     (raw_query r) (has_query r) (headers r ++ [mkHeader f.1 (trim f.2)]) has n count))
     = len (headers r) + 1) by (intros; cbn [headers]; by rewrite len_snoc).
  unfold lengths, named in *. cbn [List.filter map existsb]. fold (is_length f).
  destruct (is_length f) eqn:El.
  - rewrite (Hte eq_refl). cbn [map final_length orb].
    destruct (decimal_u64 (trim f.2)) as [k|]; [|split; [done | by intros (? & ? & ? & _)]].
    destruct (has_content_length r && negb (content_length r =? k)).
    { split; [done | by intros (? & ? & ? & _)]. }
    rewrite IH by (rewrite Hle; lia).
    cbn [method raw_target raw_path raw_query has_query headers has_content_length content_length
         content_length_count]. rewrite len_snoc, len_cons.
    split; intros (h & n & H1 & H2 & H3 & H4); exists h, n; (split; [exact H1|]); (split; [lia|]);
      (split; [|done]); rewrite H3, <- app_assoc; cbn [app]; f_equal; lia.
  - rewrite IH by (rewrite Hle; lia).
    cbn [method raw_target raw_path raw_query has_query headers has_content_length content_length
         content_length_count]. rewrite len_snoc.
    split; intros (h & n & H1 & H2 & H3 & H4); exists h, n; (split; [exact H1|]); (split; [lia|]);
      (split; [by rewrite H3, <- app_assoc|]); rewrite H4; destruct (is_te f), te; done.
Qed.

Lemma field_text_line f t : field_text f ++ t = (f.1 ++ ch ":"%char :: f.2) ++ CR :: LF :: t.
Proof. unfold field_text. repeat (rewrite <- !app_assoc; cbn [app]). done. Qed.

Lemma header_lines_sound fuel r te l r' te' rest :
  header_lines fuel r te l = (Complete, r', te', rest) ->
  exists fields tail, l = concat (map field_text fields) ++ tail /\
    ((tail = [] /\ rest = []) \/ tail = CR :: LF :: rest) /\
    Forall wf_field fields /\ field_steps r te fields = Some (r', te').
Proof.
  revert r te l. induction fuel as [|fuel IH]; intros r te l; cbn [header_lines]; [done|].
  destruct l as [|c0 l]; [intros [= <- <- <-]; exists [], []; repeat split; auto|].
  destruct (FindCrlf (c0 :: l)) as [[|n]|] eqn:E; [| |done].
  - destruct (find_crlf_split _ _ E) as (a & t & Hl & Ha). destruct a; [|done].
    cbn [app] in Hl. rewrite Hl. intros [= <- <- <-]. exists [], (CR :: LF :: t).
    split; [done|]. split; [by right|]. split; [constructor | done].
  - destruct (find_crlf_split _ _ E) as (a & t & Hl & Ha). rewrite Hl, <- Ha.
    destruct (cut_line a t) as [-> ->]. destruct (is_ows c0); [done|].
    destruct (parse_header_line r te a) as [[st r1] te1] eqn:Ep. destruct st; try done.
    apply parse_header_line_Complete in Ep as (f & -> & Hf & Hs). intros Hh.
    destruct (IH _ _ _ Hh) as (fields & tail & -> & Ht & Hwf & Hst).
    exists (f :: fields), tail. cbn [map concat field_steps]. rewrite Hs.
    split; [by rewrite <- (app_assoc (field_text f)), field_text_line|]. split; [done|]. by split; [constructor|].
Qed.

Lemma header_lines_forward fields r te r' te' rest fuel :
  Forall wf_field fields -> field_steps r te fields = Some (r', te') ->
  (length fields < fuel)%nat ->
  header_lines fuel r te (concat (map field_text fields) ++ CR :: LF :: rest) = (Complete, r', te', rest).
Proof.
  intros Hwf. revert r te fuel. induction Hwf as [|f fields Hf Hfs IH]; intros r te fuel; cbn [field_steps].
  { intros [= -> ->] Hfu. destruct fuel; [lia|]. done. }
  destruct (field_step r te f) as [[r1 te1]|] eqn:Es; [|done]. intros Hst Hfu. cbn [length] in Hfu.
  destruct fuel as [|fuel]; [lia|]. cbn [map concat]. rewrite <- app_assoc, field_text_line.
  set (a := f.1 ++ ch ":"%char :: f.2). set (t := concat (map field_text fields) ++ CR :: LF :: rest).
  pose proof (field_line_clean f Hf) as Hclean. fold a in Hclean.
  assert (Hcr : CR ∉ a) by (eapply Forall_notin; [exact Hclean|]; tauto).
  assert (Ha : exists c0 a', a = c0 :: a' /\ IsTokenCharacter c0 = true).
  { destruct Hf as (Hne & Ht & _). unfold a. destruct f as [[|c0 n] v]; [done|].
    exists c0, (n ++ ch ":"%char :: v). split; [done|]. by inversion Ht. }
  destruct Ha as (c0 & a' & Ea & Hc0). pose proof (cut_line a t) as [Hc1 Hc2].
  pose proof (FindCrlf_line a t Hcr) as HF.
  cbn [header_lines]. rewrite Ea in *. cbn [app] in *. rewrite HF. cbn [length] in *. rewrite Hc1, Hc2.
  destruct (token_not_special c0 Hc0) as (_ & _ & _ & ->).
  assert (Hp : parse_header_line r te (c0 :: a') = (Complete, r1, te1)).
  { apply parse_header_line_Complete. exists f. by rewrite <- Ea. }
  rewrite Hp. apply IH; [done | lia].
Qed.

Lemma ends_head_suffix b : ends_head b = true <-> exists x, b = x ++ [CR; LF; CR; LF].
Proof.
  unfold ends_head. split.
  - intros H. zbool. set (n := (length b - 4)%nat). exists (take n b).
    rewrite <- (take_drop n b) at 1. f_equal. unfold len, byte_at in *.
    assert (Hd : length (drop n b) = 4%nat) by (rewrite length_drop; lia).
    assert (Hx : forall k, (k < 4)%nat -> nth k (drop n b) 0 = nth (n + k) b 0).
    { intros k Hk. rewrite <- (take_drop n b) at 2.
      rewrite app_nth2 by (rewrite length_take; lia). f_equal. rewrite length_take. lia. }
    destruct (drop n b) as [|a0 [|a1 [|a2 [|a3 [|]]]]]; try done.
    pose proof (Hx 0%nat ltac:(lia)) as X0. pose proof (Hx 1%nat ltac:(lia)) as X1.
    pose proof (Hx 2%nat ltac:(lia)) as X2. pose proof (Hx 3%nat ltac:(lia)) as X3.
    cbn [nth] in *. subst a0 a1 a2 a3.
    replace (n + 0)%nat with (Z.to_nat (Z.of_nat (length b) - 4)) by lia.
    replace (n + 1)%nat with (Z.to_nat (Z.of_nat (length b) - 3)) by lia.
    replace (n + 2)%nat with (Z.to_nat (Z.of_nat (length b) - 2)) by lia.
    replace (n + 3)%nat with (Z.to_nat (Z.of_nat (length b) - 1)) by lia. congruence.
  - intros [x ->]. rewrite len_app. change (len [CR; LF; CR; LF]) with 4. pose proof (len_nonneg x).
    rewrite (proj2 (Z.leb_le 4 _)) by lia.
    rewrite (byte_at_off x _ 0), (byte_at_off x _ 1), (byte_at_off x _ 2), (byte_at_off x _ 3) by lia.
    done.
Qed.

Lemma ends_head_last b c : c <> LF -> ends_head (b ++ [c]) = false.
Proof.
  intros Hc. destruct (ends_head (b ++ [c])) eqn:E; [|done].
  apply ends_head_suffix in E as [x E].
  replace (x ++ [CR; LF; CR; LF]) with ((x ++ [CR; LF; CR]) ++ [LF]) in E by (by rewrite <- app_assoc).
  apply app_inj_tail in E as [_ E]. done.
Qed.

Lemma ends_head_line b a c : c <> LF -> ends_head (b ++ (a ++ [c]) ++ [CR; LF]) = false.
Proof.
  intros Hc. destruct (ends_head _) eqn:E; [|done]. apply ends_head_suffix in E as [x E].
  replace (x ++ [CR; LF; CR; LF]) with ((x ++ [CR; LF]) ++ [CR; LF]) in E by (by rewrite <- app_assoc).
  rewrite app_assoc in E. apply app_inv_tail in E. rewrite app_assoc in E.
  replace (x ++ [CR; LF]) with ((x ++ [CR]) ++ [LF]) in E by (by rewrite <- app_assoc).
  apply app_inj_tail in E as [_ E]. done.
Qed.

Lemma request_line_clean m t : wf_target t ->
  Forall (fun c => c <> CR /\ c <> LF) (request_line m t) /\
  exists a c, request_line m t = a ++ [c].
Proof.
  intros (_ & _ & Ht). split.
  - unfold request_line. apply Forall_app. split.
    + destruct m; repeat constructor; done.
    + constructor; [done|]. apply Forall_app. split; [|repeat constructor; done].
      eapply Forall_impl; [exact Ht|]. cbn. unfold CR, LF. lia.
  - unfold request_line. exists (HttpMethodName m ++ SP :: t ++ SP :: str "HTTP/1."), (ch "1"%char).
    repeat (rewrite <- !app_assoc; cbn [app]). done.
Qed.

(** [ParseCompleteHead] inverts the printer. *)
Lemma ParseCompleteHead_iff head r : ends_head head = true ->
  ParseCompleteHead new_request head = (Complete, r) <->
  exists m t fields, head = request_text m t fields /\ wf_request t fields /\ denotes m t fields r.
Proof.
  intros Hends. unfold ParseCompleteHead. split.
  - intros H. destruct (FindCrlf head) as [[|n]|] eqn:E; try done.
    destruct (find_crlf_split _ _ E) as (a & l & -> & Ha). rewrite <- Ha in H.
    destruct (cut_line a l) as [E1 E2]. rewrite E1, E2 in H.
    destruct (parse_request_line new_request a) as [st r1] eqn:Ep. destruct st; try done.
    apply parse_request_line_Complete in Ep as (m & t & -> & Ht & ->).
    destruct (header_lines _ _ _ _) as [[[st r2] te] rest] eqn:Eh. destruct st; try done.
    destruct (header_lines_sound _ _ _ _ _ _ _ Eh) as (fields & tail & -> & Htail & Hwf & Hst).
    destruct (Z.eqb_spec (len rest) 0) as [Hr|Hr]; [|done]. cbn [negb] in H.
    assert (Hte : te = false).
    { destruct te; [|done]. cbn [andb] in H. by destruct (has_content_length r2). }
    rewrite Hte in *. cbn [andb] in H. injection H as <-.
    destruct (with_target_fields (with_method new_request m) t) as (F1 & F2 & F3 & F4 & F5 & F6 & F7 & F8 & F9).
    apply field_steps_spec in Hst as (h & k & Hfl & Hlen & -> & Hte2).
    2:{ rewrite F6. cbn. unfold kHttpMaximumRequestHeaders, len. cbn. lia. }
    rewrite F6, F7, F8, F9 in *. cbn [headers new_request with_method has_content_length
      content_length content_length_count] in *. change (len (@nil HttpHeaderView)) with 0 in Hlen.
    apply final_length_agreed in Hfl. cbn [orb] in Hte2. symmetry in Hte2.
    assert (Htl : tail = [CR; LF]).
    { assert (rest = []) as -> by (destruct rest; [done|]; rewrite len_cons in Hr; len_facts; lia).
      destruct Htail as [[-> _]| ->]; [|done]. exfalso. rewrite app_nil_r in Hends.
      destruct (request_line_clean m t Ht) as [Hcl (b & c & Hbc)].
      destruct fields as [|f fields _] using rev_ind.
      - cbn [map concat] in Hends. rewrite Hbc in Hends, Hcl. apply Forall_app in Hcl as [_ Hc].
        inversion Hc as [|? ? [_ Hc'] _]; subst.
        pose proof (ends_head_line [] b c Hc') as Hf. cbn [app] in Hf. congruence.
      - apply Forall_app in Hwf as [_ Hf]. inversion Hf as [|? ? Hf' _]; subst.
        pose proof (field_line_clean f Hf') as Hcl2.
        destruct (exists_last (l := f.1 ++ ch ":"%char :: f.2)) as (b' & c' & Hb'); [by destruct f.1|].
        rewrite Hb' in Hcl2. apply Forall_app in Hcl2 as [_ Hc]. inversion Hc as [|? ? [_ Hc'] _]; subst.
        pose proof (ends_head_line (request_line m t ++ CR :: LF :: concat (map field_text fields)) b' c' Hc') as Hf2.
        rewrite <- Hb' in Hf2. rewrite map_app, concat_app in Hends. cbn [map concat] in Hends.
        rewrite app_nil_r in Hends. unfold field_text at 2 in Hends.
        repeat (rewrite <- !app_assoc in Hf2; cbn [app] in Hf2). congruence. }
    exists m, t, fields. subst tail. split; [done|]. split.
    + split; [done|]. split; [done|]. split; [lia|]. by apply existsb_named.
    + unfold denotes. cbn [method raw_target raw_path raw_query has_query headers has_content_length
        content_length content_length_count]. rewrite F1, F2, F3, F4, F5. repeat split; done.
  - intros (m & t & fields & -> & (Ht & Hwf & Hlen & Hte) & Hd). unfold request_text.
    destruct (request_line_clean m t Ht) as [Hcl (b & c & Hbc)].
    assert (Hcr : CR ∉ request_line m t) by (eapply Forall_notin; [exact Hcl|]; tauto).
    rewrite FindCrlf_line by done. destruct (length (request_line m t)) as [|n] eqn:El.
    { rewrite Hbc, length_app in El. simpl in El. lia. }
    rewrite <- El. destruct (cut_line (request_line m t) (concat (map field_text fields) ++ [CR; LF])) as [-> ->].
    rewrite (proj2 (parse_request_line_Complete _ _ _)) by (exists m, t; done).
    destruct (with_target_fields (with_method new_request m) t) as (F1 & F2 & F3 & F4 & F5 & F6 & F7 & F8 & F9).
    destruct Hd as (D1 & D2 & D3 & D4 & D5 & D6 & D7 & D8).
    assert (Hst : field_steps (with_target (with_method new_request m) t) false fields = Some (r, false)).
    { apply field_steps_spec; [rewrite F6; cbn; unfold kHttpMaximumRequestHeaders, len; cbn; lia|].
      exists (has_content_length r), (content_length r). rewrite F1, F2, F3, F4, F5, F6, F7, F8, F9.
      cbn [headers new_request with_method has_content_length content_length content_length_count].
      split; [by apply final_length_agreed|]. split; [change (len []) with 0; lia|].
      split; [|cbn [orb]; symmetry; by apply existsb_named].
      destruct r; cbn in *; subst. done. }
    rewrite (header_lines_forward fields _ _ _ _ [] _ Hwf Hst).
    + done.
    + rewrite !length_app. cbn [length]. rewrite length_app.
      assert (Hcc : (length fields <= length (concat (map field_text fields)))%nat).
      { clear. induction fields as [|f fields IH]; cbn [map concat length]; [lia|].
        rewrite length_app. assert (length (field_text f) <> 0%nat); [|lia].
        unfold field_text. rewrite length_app. cbn [length]. lia. }
      lia.
Qed.

(** *** Feeding *)
Definition ready (p : HttpRequestParser) : Prop :=
  status_ p = NeedMoreData /\ request_ p = new_request.

Definition pushed (p : HttpRequestParser) (w : bytes) (cr : bool) : HttpRequestParser :=
  mkRequestParser (buffer_ p ++ w) (maximum_header_bytes_ p) cr (status_ p) (request_ p).

Lemma parse_line_final r l st r' : parse_request_line r l = (st, r') -> st <> NeedMoreData.
Proof. unfold parse_request_line. intros H ->. guards H; repeat (guards H; destruct n; try done). Qed.

Lemma parse_header_final r te l : (parse_header_line r te l).1.1 <> NeedMoreData.
Proof.
  unfold parse_header_line. destruct (index_of _ l) as [[|i]|]; try done.
  repeat match goal with
  | |- (if ?b then _ else _).1.1 <> _ => destruct b; try done
  | |- match ?o with Some _ => _ | None => _ end.1.1 <> _ => destruct o; try done
  end.
Qed.

Lemma header_lines_final fuel r te l : (header_lines fuel r te l).1.1.1 <> NeedMoreData.
Proof.
  revert r te l. induction fuel as [|fuel IH]; intros r te l; cbn [header_lines]; [done|].
  destruct l as [|c0 l]; [done|]. destruct (FindCrlf _) as [[|n]|]; try done.
  destruct (is_ows c0); [done|]. pose proof (parse_header_final r te (take (S n) (c0 :: l))) as Hp.
  destruct (parse_header_line _ _ _) as [[st r1] te1]. cbn in Hp. destruct st; try done.
Qed.

(** A complete head gets a verdict: the parser never asks for more after it. *)
Lemma ParseCompleteHead_final r h : (ParseCompleteHead r h).1 <> NeedMoreData.
Proof.
  unfold ParseCompleteHead. destruct (FindCrlf h) as [[|n]|]; try done.
  destruct (parse_request_line _ _) as [st r1] eqn:E. pose proof (parse_line_final _ _ _ _ E).
  destruct st; try done.
  pose proof (header_lines_final (length h) r1 false (drop (S n + 2) h)) as Hh.
  destruct (header_lines _ _ _ _) as [[[st r2] te] rest]. cbn in Hh.
  destruct st; try done. destruct te, (len rest =? 0), (has_content_length r2); done.
Qed.

Lemma feed_loop_split p a b : status_ p = NeedMoreData ->
  feed_loop p (a ++ b) =
    let '(st, n, p') := feed_loop p a in
    match st with
    | NeedMoreData => let '(st', n', p'') := feed_loop p' b in (st', n + n', p'')
    | _ => (st, n, p')
    end.
Proof.
  revert p. induction a as [|v a IH]; intros p Hp; cbn [app].
  { cbn [feed_loop]. destruct (Z.eqb_spec (len (buffer_ p)) (maximum_header_bytes_ p)) as [E|E].
    - destruct b; cbn [feed_loop]; rewrite E; [by rewrite Z.eqb_refl | by rewrite Z.leb_refl].
    - rewrite Hp. destruct (feed_loop p b) as [[st n] p']. done. }
  cbn [feed_loop]. destruct (_ <=? _); [done|]. destruct (v =? 0); [done|]. destruct (_ || _); [done|].
  cbn [buffer_ request_ maximum_header_bytes_ previous_was_cr_]. destruct (ends_head _).
  - pose proof (ParseCompleteHead_final (request_ p) (buffer_ p ++ [v])) as Hf.
    destruct (ParseCompleteHead _ _) as [st r]. by destruct st.
  - rewrite IH by done. destruct (feed_loop _ a) as [[st n] p'].
    destruct st; try done. destruct (feed_loop p' b) as [[st n'] p'']. do 2 f_equal. lia.
Qed.

Lemma feed_loop_status p a st n p' : status_ p = NeedMoreData ->
  feed_loop p a = (st, n, p') -> status_ p' = st.
Proof.
  revert p n. induction a as [|v a IH]; intros p n Hp; cbn [feed_loop].
  { destruct (_ =? _); by intros [= <- <- <-]. }
  destruct (_ <=? _); [by intros [= <- <- <-]|]. destruct (v =? 0); [by intros [= <- <- <-]|].
  destruct (_ || _); [by intros [= <- <- <-]|].
  cbn [buffer_ request_ maximum_header_bytes_ previous_was_cr_]. destruct (ends_head _).
  - destruct (ParseCompleteHead _ _) as [st' r]. by intros [= <- <- <-].
  - destruct (feed_loop _ a) as [[st' n'] p''] eqn:E. intros [= <- <- <-]. by apply IH in E.
Qed.

(** The connection's use of the parser: [Feed] each received chunk until the
    status is no longer [NeedMoreData]. *)
Fixpoint feed_chunks (p : HttpRequestParser) (chunks : list bytes)
    : HttpRequestParseStatus * Z * HttpRequestParser :=
  match chunks with
  | [] => (status_ p, 0, p)
  | c :: chunks' =>
      let '(st, n, p') := Feed p c in
      match st with
      | NeedMoreData => let '(st', n', p'') := feed_chunks p' chunks' in (st', n + n', p'')
      | _ => (st, n, p')
      end
  end.

Lemma feed_loop_room p a n p' : status_ p = NeedMoreData ->
  feed_loop p a = (NeedMoreData, n, p') -> len (buffer_ p') <> maximum_header_bytes_ p'.
Proof.
  revert p n. induction a as [|v a IH]; intros p n Hp; cbn [feed_loop].
  { destruct (Z.eqb_spec (len (buffer_ p)) (maximum_header_bytes_ p)); [done|]. by intros [= _ _ <-]. }
  destruct (_ <=? _); [done|]. destruct (v =? 0); [done|]. destruct (_ || _); [done|].
  cbn [buffer_ request_ maximum_header_bytes_ previous_was_cr_]. destruct (ends_head _).
  - pose proof (ParseCompleteHead_final (request_ p) (buffer_ p ++ [v])) as Hf.
    destruct (ParseCompleteHead _ _) as [st' r]. intros [= -> _ _]. done.
  - destruct (feed_loop _ a) as [[st' n'] p''] eqn:E. intros [= -> _ <-]. by apply IH in E.
Qed.

Lemma feed_chunks_concat chunks p : status_ p = NeedMoreData ->
  len (buffer_ p) <> maximum_header_bytes_ p -> feed_chunks p chunks = feed_loop p (concat chunks).
Proof.
  revert p. induction chunks as [|c chunks IH]; intros p Hp Hroom; cbn [feed_chunks concat].
  { cbn [feed_loop]. by rewrite (proj2 (Z.eqb_neq _ _)). }
  rewrite feed_loop_split by done. unfold Feed. rewrite Hp.
  destruct (feed_loop p c) as [[st n] p'] eqn:E. pose proof (feed_loop_status _ _ _ _ _ Hp E) as Hst.
  destruct st; try done. rewrite IH; [done | done |]. by apply feed_loop_room in E.
Qed.

Lemma new_parser_max maximum : 0 <= maximum ->
  0 < maximum_header_bytes_ (new_parser maximum) <= kHttpMaximumHeaderBytes.
Proof.
  intros H. unfold new_parser. cbn [maximum_header_bytes_]. unfold kHttpMaximumHeaderBytes.
  destruct (Z.eqb_spec maximum 0); [cbn [orb]; lia|]. destruct (Z.ltb_spec 8192 maximum); cbn [orb]; lia.
Qed.

(** C27. However the network fragments the head, feeding the fragments one
    after the other gives the status, the number of consumed bytes and the
    parser state that feeding the whole text at once gives. *)
Theorem Feed_fragments maximum chunks :
  feed_chunks (new_parser maximum) chunks = Feed (new_parser maximum) (concat chunks).
Proof.
  unfold Feed. cbn [new_parser status_]. apply feed_chunks_concat; [done|]. cbn.
  destruct (Z.eqb_spec maximum 0); cbn [orb]; [done|].
  destruct (_ <? _); [done|]. change (len []) with 0. lia.
Qed.

(** *** Accepted heads *)
Lemma feed_loop_Complete p data n p' : ready p -> feed_loop p data = (Complete, n, p') ->
  exists w rest, data = w ++ rest /\ n = len w /\ ends_head (buffer_ p ++ w) = true /\
    ParseCompleteHead new_request (buffer_ p ++ w) = (Complete, request_ p') /\
    NUL ∉ w /\ len (buffer_ p ++ w) <= maximum_header_bytes_ p.
Proof.
  revert p n. induction data as [|v data IH]; intros p n [Hp Hr]; cbn [feed_loop].
  { destruct (_ =? _); [done|]. rewrite Hp. done. }
  destruct (Z.leb_spec (maximum_header_bytes_ p) (len (buffer_ p))); [done|].
  destruct (Z.eqb_spec v 0); [done|]. destruct (_ || _); [done|].
  cbn [buffer_ request_ maximum_header_bytes_ previous_was_cr_]. destruct (ends_head _) eqn:Ee.
  - rewrite Hr. destruct (ParseCompleteHead _ _) as [st' r] eqn:Eh. intros [= -> <- <-].
    exists [v], data. rewrite len_snoc. cbn [request_]. repeat split; try done; [set_solver | lia].
  - destruct (feed_loop _ data) as [[st' n'] p''] eqn:E. intros [= -> <- <-].
    apply IH in E as (w & rest & -> & -> & He & Hh & Hnul & Hl); [|done].
    cbn [buffer_ maximum_header_bytes_] in *. rewrite <- app_assoc in He, Hh, Hl. cbn [app] in *.
    exists (v :: w), rest. rewrite len_cons. repeat split; try done; [lia | set_solver].
Qed.

(** Feeding bytes that complete nothing only extends the buffer. *)
Lemma feed_clean a : forall p rest, Forall (fun c => c <> CR /\ c <> LF) a -> NUL ∉ a ->
  previous_was_cr_ p = false -> len (buffer_ p) + len a <= maximum_header_bytes_ p ->
  feed_loop p (a ++ rest) =
    let '(st, n, p') := feed_loop (pushed p a false) rest in (st, n + len a, p').
Proof.
  induction a as [|v a IH]; intros p rest Ha Hnul Hcr Hlen.
  { unfold pushed. rewrite app_nil_r. destruct p as [b m cr st r]. cbn in Hcr |- *. subst cr.
    destruct (feed_loop _ rest) as [[st' n] p']. change (len []) with 0. by rewrite Z.add_0_r. }
  apply Forall_cons in Ha as [[Hv1 Hv2] Ha]. rewrite len_cons in *. pose proof (len_nonneg a).
  cbn [app feed_loop]. rewrite (proj2 (Z.leb_gt _ _)) by lia.
  rewrite (proj2 (Z.eqb_neq v 0)) by (intros ->; apply Hnul; set_solver).
  rewrite Hcr, (proj2 (Z.eqb_neq v LF)), (proj2 (Z.eqb_neq v CR)) by done. cbn [andb orb negb].
  cbn [buffer_ request_ maximum_header_bytes_ previous_was_cr_]. rewrite ends_head_last by done.
  rewrite IH; [| done | set_solver | done | cbn [buffer_ maximum_header_bytes_]; rewrite len_snoc; lia].
  unfold pushed. cbn [buffer_ request_ maximum_header_bytes_ previous_was_cr_ status_].
  rewrite <- app_assoc. cbn [app]. destruct (feed_loop _ rest) as [[st' n] p']. do 2 f_equal. lia.
Qed.

Lemma feed_crlf p rest : previous_was_cr_ p = false ->
  len (buffer_ p) + 2 <= maximum_header_bytes_ p ->
  feed_loop p (CR :: LF :: rest) =
    if ends_head (buffer_ p ++ [CR; LF])
    then let '(st, r) := ParseCompleteHead (request_ p) (buffer_ p ++ [CR; LF]) in
         (st, 2, mkRequestParser (buffer_ p ++ [CR; LF]) (maximum_header_bytes_ p) false st r)
    else let '(st, n, p') := feed_loop (pushed p [CR; LF] false) rest in (st, n + 2, p').
Proof.
  intros Hcr Hlen. cbn [feed_loop]. rewrite (proj2 (Z.leb_gt _ _)) by lia.
  rewrite Hcr. change (CR =? 0) with false. change (CR =? LF) with false. cbn [andb orb negb].
  cbn [buffer_ request_ maximum_header_bytes_ previous_was_cr_]. rewrite ends_head_last by done.
  rewrite (proj2 (Z.leb_gt _ _)) by (rewrite len_snoc; lia).
  change (LF =? 0) with false. change (LF =? LF) with true. change (CR =? CR) with true.
  change (LF =? CR) with false. cbn [andb orb negb].
  rewrite <- app_assoc. cbn [app]. destruct (ends_head _).
  - destruct (ParseCompleteHead _ _). done.
  - unfold pushed. destruct (feed_loop _ rest) as [[st n] p']. do 2 f_equal. lia.
Qed.

(** A non-empty line and its CRLF. *)
Lemma feed_line p a rest : a <> [] -> Forall (fun c => c <> CR /\ c <> LF) a -> NUL ∉ a ->
  previous_was_cr_ p = false -> len (buffer_ p) + len a + 2 <= maximum_header_bytes_ p ->
  feed_loop p (a ++ CR :: LF :: rest) =
    let '(st, n, p') := feed_loop (pushed p (a ++ [CR; LF]) false) rest in (st, n + (len a + 2), p').
Proof.
  intros Hne Ha Hnul Hcr Hlen. rewrite feed_clean by (done || lia).
  rewrite feed_crlf; [| done | unfold pushed; cbn [buffer_ maximum_header_bytes_]; rewrite len_app; lia].
  destruct (exists_last Hne) as (b & c & Hb).
  assert (He : ends_head (buffer_ (pushed p a false) ++ [CR; LF]) = false).
  { unfold pushed. cbn [buffer_]. rewrite Hb, <- app_assoc. apply ends_head_line.
    rewrite Hb in Ha. apply Forall_app in Ha as [_ Hc]. inversion Hc as [|? ? [_ Hc'] _]; subst. done. }
  rewrite He. unfold pushed. cbn [buffer_ request_ maximum_header_bytes_ previous_was_cr_ status_].
  rewrite <- app_assoc. destruct (feed_loop _ rest) as [[st n] p']. do 2 f_equal. lia.
Qed.

Definition nul_free (fields : list field) : Prop := Forall (fun f => NUL ∉ f.1) fields.

Lemma field_line_no_nul f : wf_field f -> NUL ∉ f.1 -> NUL ∉ f.1 ++ ch ":"%char :: f.2.
Proof.
  intros (_ & _ & H2) Hn Hin. apply elem_of_app in Hin as [Hin|Hin]; [done|].
  apply elem_of_cons in Hin as [Hin|Hin]; [done|]. revert Hin.
  eapply Forall_notin; [exact H2|]. by vm_compute.
Qed.

Lemma feed_fields fields : forall p rest, Forall wf_field fields -> nul_free fields ->
  previous_was_cr_ p = false ->
  len (buffer_ p) + len (concat (map field_text fields)) <= maximum_header_bytes_ p ->
  feed_loop p (concat (map field_text fields) ++ rest) =
    let '(st, n, p') := feed_loop (pushed p (concat (map field_text fields)) false) rest in
    (st, n + len (concat (map field_text fields)), p').
Proof.
  induction fields as [|f fields IH]; intros p rest Hwf Hnul Hcr Hlen; cbn [map concat] in *.
  { apply (feed_clean [] p rest); [constructor | set_solver | done | done]. }
  apply Forall_cons in Hwf as [Hf Hwf]. apply Forall_cons in Hnul as [Hnf Hnul].
  set (l := concat (map field_text fields)) in *.
  pose proof (field_text_line f []) as Hft. rewrite app_nil_r in Hft. rewrite Hft in *.
  set (a := f.1 ++ ch ":"%char :: f.2) in *. rewrite <- !app_assoc. cbn [app].
  rewrite !len_app in Hlen. change (len [CR; LF]) with 2 in Hlen. pose proof (len_nonneg l).
  rewrite feed_line; [| |by apply field_line_clean | by apply field_line_no_nul | done | lia].
  2:{ unfold a. by destruct f.1. }
  rewrite IH; [| done | done | done |].
  2:{ unfold pushed. cbn [buffer_ maximum_header_bytes_]. rewrite !len_app. change (len [CR; LF]) with 2. lia. }
  unfold pushed. cbn [buffer_ request_ maximum_header_bytes_ previous_was_cr_ status_].
  rewrite <- !app_assoc. cbn [app]. destruct (feed_loop _ rest) as [[st n] p'].
  do 2 f_equal. rewrite len_app, !len_cons. lia.
Qed.

Lemma ends_head_request m t fields : ends_head (request_text m t fields) = true.
Proof.
  apply ends_head_suffix. unfold request_text.
  assert (Hl : exists y, CR :: LF :: concat (map field_text fields) = y ++ [CR; LF]).
  { destruct fields as [|f fields _] using rev_ind; [by exists []|].
    rewrite map_app, concat_app. cbn [map concat]. rewrite app_nil_r. unfold field_text at 2.
    exists (CR :: LF :: concat (map field_text fields) ++ f.1 ++ ch ":"%char :: f.2).
    cbn [app]. repeat (rewrite <- !app_assoc; cbn [app]). done. }
  destruct Hl as [y Hl]. exists (request_line m t ++ y).
  change (CR :: LF :: concat (map field_text fields) ++ [CR; LF])
    with ((CR :: LF :: concat (map field_text fields)) ++ [CR; LF]).
  rewrite Hl. by rewrite <- !app_assoc.
Qed.

Lemma feed_accepts maximum data n r :
  (exists p, Feed (new_parser maximum) data = (Complete, n, p) /\ request_ p = r) <->
  exists m t fields rest, data = request_text m t fields ++ rest /\
    n = len (request_text m t fields) /\
    n <= maximum_header_bytes_ (new_parser maximum) /\
    wf_request t fields /\ nul_free fields /\ denotes m t fields r.
Proof.
  unfold Feed. cbn [new_parser status_]. fold (new_parser maximum). split.
  - intros (p & Hf & <-). apply feed_loop_Complete in Hf as (w & rest & -> & -> & He & Hh & Hnul & Hl); [|done].
    cbn [new_parser buffer_ app] in He, Hh, Hl. apply ParseCompleteHead_iff in Hh as (m & t & fields & -> & Hwf & Hd); [|done].
    exists m, t, fields, rest. do 4 (split; [done|]). split; [|done].
    apply List.Forall_forall. intros f Hin Hc. apply Hnul. unfold request_text.
    apply elem_of_app. right. do 2 (apply elem_of_cons; right). apply elem_of_app. left.
    apply list_elem_of_In, in_concat. exists (field_text f). split; [by apply in_map|].
    apply list_elem_of_In. unfold field_text. apply elem_of_app. by left.
  - intros (m & t & fields & rest & -> & Hn & Hmax & Hwf & Hnul & Hd).
    pose proof Hwf as (Ht & Hwff & _ & _). destruct (request_line_clean m t Ht) as [Hcl (b & c & Hbc)].
    assert (Hrn : NUL ∉ request_line m t).
    { destruct Ht as (_ & _ & Ht). unfold request_line. intros Hin.
      apply elem_of_app in Hin as [Hin|Hin]; [by destruct m; apply index_of_None in Hin|].
      apply elem_of_cons in Hin as [Hin|Hin]; [done|]. apply elem_of_app in Hin as [Hin|Hin].
      - revert Hin. eapply Forall_notin; [exact Ht|]. unfold NUL. lia.
      - by apply index_of_None in Hin. }
    set (l := concat (map field_text fields)).
    assert (Hlen : n = len (request_line m t) + 2 + len l + 2).
    { rewrite Hn. unfold request_text. fold l. rewrite len_app, !len_cons, len_app. change (len [CR; LF]) with 2. lia. }
    pose proof (len_nonneg l).
    assert (Hdata : request_text m t fields ++ rest = request_line m t ++ CR :: LF :: l ++ CR :: LF :: rest).
    { unfold request_text. fold l. repeat (rewrite <- !app_assoc; cbn [app]). done. }
    rewrite Hdata, feed_line; [| by rewrite Hbc; destruct b | done | done | done |].
    2:{ cbn [new_parser buffer_] in *. change (len []) with 0. lia. }
    unfold l. rewrite feed_fields; [| done | done | done |].
    2:{ fold l. unfold pushed. cbn [new_parser buffer_ app maximum_header_bytes_] in *. rewrite len_app. change (len [CR; LF]) with 2. lia. }
    fold l. rewrite feed_crlf; [| done |].
    2:{ unfold pushed. cbn [new_parser buffer_ app maximum_header_bytes_] in *. rewrite !len_app. change (len [CR; LF]) with 2. lia. }
    unfold pushed. cbn [new_parser buffer_ app maximum_header_bytes_ request_].
    assert (Hb : ((request_line m t ++ [CR; LF]) ++ l) ++ [CR; LF] = request_text m t fields).
    { unfold request_text. fold l. repeat (rewrite <- !app_assoc; cbn [app]). done. }
    rewrite Hb. pose proof (ends_head_request m t fields) as He. rewrite He, (proj2 (ParseCompleteHead_iff _ r He)) by (exists m, t, fields; done).
    exists (mkRequestParser (request_text m t fields) (maximum_header_bytes_ (new_parser maximum)) false Complete r).
    split; [|done]. replace n with (2 + len l + (len (request_line m t) + 2)) by lia. done.
Qed.

(** The announced length is a 64-bit number. *)
Lemma denotes_length m t fields r : denotes m t fields r -> 0 <= content_length r <= UINT64_MAX.
Proof.
  intros (_ & _ & _ & _ & _ & _ & Hag & _). unfold agreed in Hag.
  assert (Hl : Forall (fun l => forall n, l = Some n -> 0 <= n <= UINT64_MAX) (lengths fields)).
  { unfold lengths. apply List.Forall_forall. intros l Hin n ->. apply in_map_iff in Hin as (f & Hf & _).
    apply decimal_u64_spec in Hf as (_ & Hd & -> & Hm). split; [by apply decimal_ge | done]. }
  destruct (lengths fields) as [|l ls]; [destruct Hag as [_ ->]; unfold UINT64_MAX; lia|].
  destruct Hag as [_ Hag]. apply Forall_cons in Hag as [-> _]. apply Forall_cons in Hl as [Hl _]. by apply Hl.
Qed.

(** How much a call consumes. *)
Lemma feed_loop_consumed p a st n p' : status_ p = NeedMoreData -> feed_loop p a = (st, n, p') ->
  0 <= n <= len a /\ (st = NeedMoreData -> n = len a) /\
  maximum_header_bytes_ p' = maximum_header_bytes_ p.
Proof.
  revert p n. induction a as [|v a IH]; intros p n Hp; cbn [feed_loop].
  { rewrite Hp. destruct (_ =? _); intros [= <- <- <-]; done. }
  rewrite len_cons. pose proof (len_nonneg a).
  destruct (_ <=? _); [intros [= <- <- <-]; repeat split; (lia || done)|].
  destruct (v =? 0); [intros [= <- <- <-]; repeat split; (lia || done)|].
  destruct (_ || _); [intros [= <- <- <-]; repeat split; (lia || done)|].
  cbn [buffer_ request_ maximum_header_bytes_ previous_was_cr_]. destruct (ends_head _).
  - pose proof (ParseCompleteHead_final (request_ p) (buffer_ p ++ [v])) as Hf.
    destruct (ParseCompleteHead _ _) as [st' r]. intros [= <- <- <-]. repeat split; try lia; done.
  - destruct (feed_loop _ a) as [[st' n'] p''] eqn:E. intros [= <- <- <-].
    apply IH in E as (Hn & Hm & Hmax); [|done]. repeat split; [lia | lia | intros Hx; specialize (Hm Hx); lia | done].
Qed.

(** C26. The parser accepts exactly the printed requests: [Feed] reports
    [Complete] after [n] bytes with the request [r] if and only if the data
    begin with the text of a well-formed request of [n] bytes within the limit,
    with no NUL in it, and [r] is the request which that text denotes. *)
Theorem Feed_accepts_requests maximum data n r :
  (exists p, Feed (new_parser maximum) data = (Complete, n, p) /\ request_ p = r) <->
  exists m t fields rest, data = request_text m t fields ++ rest /\
    n = len (request_text m t fields) /\
    n <= maximum_header_bytes_ (new_parser maximum) /\
    wf_request t fields /\ nul_free fields /\ denotes m t fields r.
Proof. apply feed_accepts. Qed.
End Parser.
