(* ===== verification/HttpRouter.v ===== *)
(** * Routing of remote-control requests (src/src/remote/http_router.cpp)

    The helpers that protocol routers use on a request (password check, percent
    decoding, decimals, query strings) in [Module Helpers] and the namespace
    dispatcher in [Module Composite].  A router is the interface [HttpRouter], a
    record of its two virtual functions over the state [W] they may change; the
    composite router implements it from the routers mounted in it. *)
From S2P Require Import Prelude HttpRequest.
From Stdlib Require Import Ascii.
Import Types.
Local Open Scope Z_scope.

Definition SLASH : Z := ch "/"%char.
Definition AMP : Z := ch "&"%char.
Definition EQUALS : Z := ch "="%char.
Definition PERCENT : Z := ch "%"%char.

(** ** Helpers *)
Module Helpers.
(** [ConstantTimePasswordMatches]: the loop has no early exit. *)
Fixpoint difference_loop (supplied password : bytes) (fuel : nat) (difference : Z) : Z :=
  match fuel with
  | O => difference
  | S fuel' =>
      let left := hd 0 supplied in
      let right := hd 0 password in
      difference_loop (tl supplied) (tl password) fuel' (Z.lor difference (Z.lxor left right))
  end.

Definition ConstantTimePasswordMatches (request : HttpRequestHead) (password : option bytes) : bool :=
  match password with
  | None | Some [] => true
  | Some password =>
      if negb (HeaderCount request (str "X-Password") =? 1) then false
      else match Header request (str "X-Password") with
      | None => false
      | Some supplied =>
          let expected := len password in
          let maximum := if len supplied >? expected then len supplied else expected in
          difference_loop supplied password (Z.to_nat maximum) (Z.lxor (len supplied) expected) =? 0
      end
  end.

Definition HexValue (value : Z) : Z :=
  if in_range 48 57 value then value - 48
  else if in_range 97 102 value then value - 97 + 10
  else if in_range 65 70 value then value - 65 + 10
  else -1.

(** [DecodePercent] on the destination buffer ([capacity] is its length); what
    was written before a failure stays in it. *)
Fixpoint decode_loop (source destination : bytes) (output : nat) : bool * bytes :=
  match source with
  | [] => (true, memcpy destination output [0])
  | c :: source' =>
      let store value rest :=
        if (value =? 0) || (len destination <=? Z.of_nat output + 1) then (false, destination)
        else decode_loop rest (memcpy destination output [value]) (S output) in
      if c =? PERCENT then
        match source' with
        | high :: low :: rest =>
            if (HexValue high <? 0) || (HexValue low <? 0) then (false, destination)
            else store (u8 (Z.lor (Z.shiftl (HexValue high) 4) (HexValue low))) rest
        | _ => (false, destination)
        end
      else store c source'
  end.

Definition DecodePercent (source destination : bytes) : bool * bytes :=
  if len destination =? 0 then (false, destination) else decode_loop source destination 0.

(** [ParseUnsignedDecimal], both overloads. *)
Definition ParseUnsignedDecimal (value : bytes) : option Z := decimal_u64 value.

Definition ParseUnsignedDecimal32 (value : bytes) (minimum maximum : Z) : option Z :=
  match ParseUnsignedDecimal value with
  | None => None
  | Some parsed => if (parsed <? minimum) || (maximum <? parsed) then None else Some (u32 parsed)
  end.

(** The scan of one [name=value] item that starts the text: the item (up to
    the next ampersand) and the length of its name. *)
Definition item_of (text : bytes) : bytes := before AMP text.
Definition item_equal (item : bytes) : nat := length (before EQUALS item).

Fixpoint query_loop (fuel : nat) (text name value : bytes) (count : Z) : bytes * Z :=
  match fuel with
  | O => (value, count)
  | S fuel' =>
      let item := item_of text in
      let equal := item_equal item in
      let '(value, count) :=
        if Nat.eqb equal (length name) && (Nat.ltb equal (length item)) &&
           bytes_eqb (take equal item) name
        then (drop (S equal) item, u32 (count + 1)) else (value, count) in
      if Nat.eqb (length item) (length text) then (value, count)
      else query_loop fuel' (drop (S (length item)) text) name value count
  end.

(** The last value of that name and the number of its occurrences. *)
Definition QueryValue (query name : bytes) : bytes * Z :=
  query_loop (S (length query)) query name [] 0.

Fixpoint only_loop (fuel : nat) (text : bytes) (names : list bytes) : bool :=
  match text, fuel with
  | [], _ => true
  | _, O => false
  | _, S fuel' =>
      let item := item_of text in
      let equal := item_equal item in
      if (Nat.eqb equal 0) || (Nat.eqb equal (length item)) then false
      else if negb (existsb (fun n => HttpStringEquals (take equal item) n) names) then false
      else only_loop fuel' (drop (S (length item)) text) names
  end.

(** [names] are the non-null ones of [first] to [fourth]. *)
Definition OnlyQueryNames (query : bytes) (names : list bytes) : bool :=
  if (len query =? 0) || (byte_at query (len query - 1) =? AMP) then false
  else only_loop (length query) query names.
(** *** The password check *)
Lemma difference_loop_zero supplied password fuel d :
  difference_loop supplied password fuel d = 0 -> d = 0.
Proof.
  revert supplied password d. induction fuel as [|fuel IH]; intros supplied password d; [done|].
  cbn [difference_loop]. intros H. apply IH, Z.lor_eq_0_iff in H. tauto.
Qed.

Lemma difference_loop_equal a b : length a = length b ->
  difference_loop a b (length b) 0 = 0 <-> a = b.
Proof.
  revert b. induction a as [|x a IH]; intros [|y b] Hl; try done.
  cbn [length difference_loop hd tl]. injection Hl as Hl. rewrite Z.lor_0_l. split.
  - intros H. pose proof (difference_loop_zero _ _ _ _ H) as Hx. rewrite Hx in H.
    apply Z.lxor_eq in Hx. subst y. f_equal. by apply IH.
  - intros [= -> ->]. rewrite Z.lxor_nilpotent. by apply IH.
Qed.

Lemma Header_filter request n :
  Header request n = value <$> head (List.filter
    (fun h => HttpStringEqualsInsensitive (name h) n) (headers request)).
Proof.
  unfold Header. induction (headers request) as [|h hs IH]; cbn [find List.filter]; [done|].
  by destruct (HttpStringEqualsInsensitive (name h) n).
Qed.

(** The password check passes exactly when no password is configured or
    the request has one single [X-Password] header whose value is the password
    byte for byte: a missing, repeated, shorter or longer value is refused. *)
Theorem ConstantTimePasswordMatches_iff request password :
  ConstantTimePasswordMatches request password = true <->
  match password with
  | None | Some [] => True
  | Some p => exists h, value h = p /\
      List.filter (fun h => HttpStringEqualsInsensitive (name h) (str "X-Password"))
        (headers request) = [h]
  end.
Proof.
  destruct password as [[|c p]|]; [done| |done]. unfold ConstantTimePasswordMatches.
  rewrite Header_filter. unfold HeaderCount. set (p' := c :: p).
  destruct (List.filter _ (headers request)) as [|h [|h2 hs]] eqn:E; cbn [head fmap option_fmap option_map].
  - split; [done|]. by intros (? & _ & ?).
  - change (len [h] =? 1) with true. cbn [negb]. split.
    + intros H. apply Z.eqb_eq in H. exists h. split; [|done].
      pose proof (difference_loop_zero _ _ _ _ H) as Hx. rewrite Hx in H. apply Z.lxor_eq in Hx.
      rewrite Hx in H. replace (if len p' >? len p' then len p' else len p') with (len p') in H by (by destruct (_ >? _)).
      unfold len in H, Hx. rewrite Nat2Z.id in H. apply difference_loop_equal in H; [done | lia].
    + intros (h' & Hv & [= <-]). rewrite Hv, Z.lxor_nilpotent. apply Z.eqb_eq.
      replace (if len p' >? len p' then len p' else len p') with (len p') by (by destruct (_ >? _)).
      unfold len. rewrite Nat2Z.id. by apply difference_loop_equal.
  - rewrite !len_cons. pose proof (len_nonneg hs). rewrite (proj2 (Z.eqb_neq _ 1)) by lia.
    split; [done|]. by intros (? & _ & ?).
Qed.

(** *** Percent decoding *)
(** RFC 3986: a text and the NUL-free bytes it stands for. *)
Definition hex_value (c : Z) : option nat := index_of (AsciiLower c) (str "0123456789abcdef").

Inductive decoded : bytes -> bytes -> Prop :=
| decoded_nil : decoded [] []
| decoded_plain c s o : c <> PERCENT -> c <> NUL -> decoded s o -> decoded (c :: s) (c :: o)
| decoded_hex h l i j s o :
    hex_value h = Some i -> hex_value l = Some j -> Z.of_nat (16 * i + j) <> NUL ->
    decoded s o -> decoded (PERCENT :: h :: l :: s) (Z.of_nat (16 * i + j) :: o).

Lemma HexValue_spec c :
  match hex_value c with
  | Some i => HexValue c = Z.of_nat i /\ (i < 16)%nat
  | None => HexValue c = -1
  end.
Proof.
  unfold hex_value. destruct (decide (is_byte c)) as [Hb|Hb].
  - pose proof (byte_exhaust (fun c => match index_of (AsciiLower c) (str "0123456789abcdef") with
      | Some i => (HexValue c =? Z.of_nat i) && (i <? 16)%nat | None => HexValue c =? -1 end)) as H.
    specialize (H eq_refl c Hb). cbn beta in H.
    destruct (index_of _ _); zbool; [|done]. split; [done | lia].
  - assert (Hl : AsciiLower c = c).
    { unfold AsciiLower, is_upper. destruct (in_range 65 90 c) eqn:E; [|done].
      apply in_range_spec in E. unfold is_byte in Hb. lia. }
    rewrite Hl. destruct (index_of c _) as [i|] eqn:E.
    + exfalso. apply index_of_Some in E as (r & Hr & _). apply Hb.
      assert (Hin : c ∈ str "0123456789abcdef") by (rewrite Hr; set_solver).
      assert (Hall : Forall is_byte (str "0123456789abcdef")) by (repeat constructor; by vm_compute).
      rewrite List.Forall_forall in Hall. by apply Hall, list_elem_of_In.
    + unfold HexValue, is_byte in *. destruct (in_range 48 57 c) eqn:E1; [apply in_range_spec in E1; lia|].
      destruct (in_range 97 102 c) eqn:E2; [apply in_range_spec in E2; lia|].
      destruct (in_range 65 70 c) eqn:E3; [apply in_range_spec in E3; lia|]. done.
Qed.

Lemma HexValue_some c i : hex_value c = Some i -> HexValue c = Z.of_nat i /\ (i < 16)%nat.
Proof. intros H. pose proof (HexValue_spec c) as Hs. by rewrite H in Hs. Qed.

Lemma HexValue_nonneg c : 0 <= HexValue c -> exists i, hex_value c = Some i.
Proof. intros H. pose proof (HexValue_spec c) as Hs. destruct (hex_value c); [eauto | lia]. Qed.

Lemma hex_pair i j : (i < 16)%nat -> (j < 16)%nat ->
  u8 (Z.lor (Z.shiftl (Z.of_nat i) 4) (Z.of_nat j)) = Z.of_nat (16 * i + j).
Proof.
  intros Hi Hj. rewrite Z.shiftl_mul_pow2 by lia. rewrite lor_add_disjoint by lia.
  unfold u8. rewrite Z.mod_small by lia. lia.
Qed.

Lemma memcpy_snoc (dst : bytes) k src x : (k + length src < length dst)%nat ->
  memcpy (memcpy dst k src) (k + length src) [x] = memcpy dst k (src ++ [x]).
Proof.
  intros H. unfold memcpy at 1. rewrite memcpy_prefix by lia. unfold memcpy.
  rewrite drop_app_ge by (rewrite length_take; lia). rewrite length_take.
  rewrite drop_app_ge by lia. rewrite drop_drop, length_app. cbn [length].
  rewrite <- !app_assoc. do 3 f_equal. f_equal. lia.
Qed.

Lemma decode_loop_true source : forall destination written d',
  (length written < length destination)%nat ->
  decode_loop source (memcpy destination 0 written) (length written) = (true, d') <->
  exists out, decoded source out /\ (length written + length out < length destination)%nat /\
    d' = memcpy destination 0 (written ++ out ++ [0]).
Proof.
  induction source as [source IH] using (induction_ltof1 _ (@length Z)). unfold ltof in IH.
  intros dst w d' Hw.
  assert (Hlen : len (memcpy dst 0 w) = len dst) by (unfold len; rewrite length_memcpy by lia; done).
  assert (Hstep : forall v rest s, (length rest < length source)%nat -> source = s ->
    (if (v =? 0) || (len (memcpy dst 0 w) <=? Z.of_nat (length w) + 1) then (false, memcpy dst 0 w)
     else decode_loop rest (memcpy (memcpy dst 0 w) (length w) [v]) (S (length w))) = (true, d') <->
    v <> 0 /\ exists out, decoded rest out /\ (length w + length (v :: out) < length dst)%nat /\
      d' = memcpy dst 0 (w ++ (v :: out) ++ [0])).
  { intros v rest s Hr _. rewrite Hlen. destruct (Z.eqb_spec v 0) as [->|Hv]; cbn [orb].
    { split; [done | by intros [? _]]. }
    unfold len. destruct (Z.leb_spec (Z.of_nat (length dst)) (Z.of_nat (length w) + 1)) as [Hc|Hc].
    { split; [done|]. intros (_ & out & _ & Hl & _). cbn [length] in Hl. lia. }
    pose proof (memcpy_snoc dst 0 w v) as Hm. cbn [Nat.add] in Hm. rewrite Hm by lia.
    replace (S (length w)) with (length (w ++ [v])) by (rewrite length_app; simpl; lia).
    rewrite IH by (rewrite ?length_app; cbn [length]; lia). rewrite length_app. cbn [length].
    split.
    - intros (out & Hd & Hl & ->). split; [done|]. exists out. split; [done|]. split; [lia|].
      by rewrite <- app_assoc.
    - intros (_ & out & Hd & Hl & ->). exists out. split; [done|]. split; [lia|].
      by rewrite <- app_assoc. }
  destruct source as [|c s]; cbn [decode_loop].
  { pose proof (memcpy_snoc dst 0 w 0) as Hm. cbn [Nat.add] in Hm. rewrite Hm by lia. split.
    - intros [= <-]. exists []. split; [constructor|]. split; [cbn [length]; lia | done].
    - intros (out & Hd & _ & ->). by inversion Hd. }
  destruct (Z.eqb_spec c PERCENT) as [->|Hc].
  - destruct s as [|h [|l s]]; [split; [done|]; intros (out & Hd & _); by inversion Hd .. |].
    destruct (Z.ltb_spec (HexValue h) 0) as [Hh|Hh]; cbn [orb].
    { split; [done|]. intros (out & Hd & _). inversion Hd as [|? ? ? Hn|? ? i j ? ? Hi]; subst; [done|].
      apply HexValue_some in Hi. lia. }
    destruct (Z.ltb_spec (HexValue l) 0) as [Hl|Hl].
    { split; [done|]. intros (out & Hd & _). inversion Hd as [|? ? ? Hn|? ? i j ? ? Hi Hj]; subst; [done|].
      apply HexValue_some in Hj. lia. }
    apply HexValue_nonneg in Hh as [i Hi]. apply HexValue_nonneg in Hl as [j Hj].
    destruct (HexValue_some _ _ Hi) as [-> Hi16]. destruct (HexValue_some _ _ Hj) as [-> Hj16].
    rewrite hex_pair by done. rewrite (Hstep _ s _) by (done || cbn [length]; lia). split.
    + intros (Hv & out & Hd & Hlo & ->). eexists. split; [by eapply decoded_hex|]. done.
    + intros (out & Hd & Hlo & ->). inversion Hd as [|? ? ? Hn|? ? i' j' ? o Hi' Hj' Hne Hd']; subst; [done|].
      rewrite Hi in Hi'. rewrite Hj in Hj'. injection Hi' as <-. injection Hj' as <-. eauto.
  - rewrite (Hstep c s _) by (done || cbn [length]; lia). split.
    + intros (Hv & out & Hd & Hlo & ->). eexists. split; [by apply decoded_plain|]. done.
    + intros (out & Hd & Hlo & ->). inversion Hd as [|? ? o Hn Hne Hd'|]; subst; [|done]. eauto.
Qed.

(** Percent decoding succeeds exactly on the texts that RFC 3986 reads as
    NUL-free bytes which fit the destination with their terminator, and stores
    these bytes and a NUL; the destination keeps its size, so no store is
    outside it. *)
Theorem DecodePercent_iff source destination d' :
  (DecodePercent source destination = (true, d') <->
   exists out, decoded source out /\ len out < len destination /\
     d' = memcpy destination 0 (out ++ [NUL])) /\
  len (DecodePercent source destination).2 = len destination.
Proof.
  unfold DecodePercent. split.
  - destruct (Z.eqb_spec (len destination) 0) as [E|E].
    { split; [done|]. intros (out & _ & Hl & _). pose proof (len_nonneg out). lia. }
    unfold len in *. pose proof (decode_loop_true source destination [] d' ltac:(cbn [length]; lia)) as H.
    replace (memcpy destination 0 []) with destination in H by (unfold memcpy; by rewrite drop_0).
    cbn [length Nat.add app] in H. rewrite H.
    split; intros (out & Hd & Hl & ->); exists out; repeat split; try done; lia.
  - destruct (Z.eqb_spec (len destination) 0) as [E|E]; [done|].
    assert (Hg : forall source dst k, (k < length dst)%nat ->
      length (decode_loop source dst k).2 = length dst).
    { clear. induction source as [source IH] using (induction_ltof1 _ (@length Z)). unfold ltof in IH.
      intros dst k Hk.
      assert (Hst : forall v rest, (length rest < length source)%nat ->
        length ((if (v =? 0) || (len dst <=? Z.of_nat k + 1) then (false, dst)
         else decode_loop rest (memcpy dst k [v]) (S k)).2) = length dst).
      { intros v rest Hr. destruct (_ || _) eqn:Ec; [done|]. zbool. unfold len in *.
        rewrite IH; rewrite ?length_memcpy; cbn [length]; lia. }
      destruct source as [|c s]; cbn [decode_loop].
      - cbn [snd]. apply length_memcpy. cbn [length]. lia.
      - destruct (c =? PERCENT); [|apply Hst; cbn [length]; lia].
        destruct s as [|h [|l s]]; [done | done|]. destruct (_ || _); [done|]. apply Hst. cbn [length]; lia. }
    unfold len. f_equal. apply Hg. unfold len in E. lia.
Qed.
(** *** Query strings *)
(** The query as items between ampersands; an item binds a name if it has an
    equals sign. *)
Definition binding (item : bytes) : option (bytes * bytes) :=
  match index_of EQUALS item with
  | None => None
  | Some i => Some (take i item, drop (S i) item)
  end.

Definition value_for (n item : bytes) : option bytes :=
  match binding item with
  | Some (k, v) => if bytes_eqb k n then Some v else None
  | None => None
  end.

Definition values (n query : bytes) : list bytes := omap (value_for n) (split_on AMP query).

Lemma item_split text :
  (text = item_of text /\ split_on AMP text = [item_of text]) \/
  exists rest, text = item_of text ++ AMP :: rest /\ split_on AMP text = item_of text :: split_on AMP rest.
Proof.
  unfold item_of. induction text as [|c text IH]; cbn [before split_on]; [by left|].
  destruct (Z.eqb_spec c AMP) as [->|Hc]; [right; by exists text|].
  destruct IH as [[H1 H2]|(rest & H1 & H2)]; [left | right; exists rest]; rewrite H2; (split; [|done]);
    cbn [app]; by f_equal.
Qed.

Lemma length_before c l : length (before c l) =
  match index_of c l with Some i => i | None => length l end.
Proof.
  induction l as [|x l IH]; cbn [before index_of]; [done|]. destruct (x =? c); [done|].
  cbn [length]. rewrite IH. by destruct (index_of c l).
Qed.

Lemma item_test item n :
  (if Nat.eqb (item_equal item) (length n) && Nat.ltb (item_equal item) (length item) &&
      bytes_eqb (take (item_equal item) item) n
   then Some (drop (S (item_equal item)) item) else None) = value_for n item.
Proof.
  unfold value_for, binding, item_equal. rewrite length_before.
  destruct (index_of EQUALS item) as [i|] eqn:E.
  - destruct (index_of_split _ _ _ E) as (a & r & -> & <- & _). rewrite take_app_length.
    rewrite length_app. cbn [length]. rewrite (proj2 (Nat.ltb_lt _ _)) by lia.
    destruct (bytes_eqb a n) eqn:Ea; [|by rewrite !andb_false_r].
    apply bytes_eqb_eq in Ea. subst n. by rewrite Nat.eqb_refl.
  - by rewrite Nat.ltb_irrefl, andb_false_r.
Qed.

Lemma query_loop_spec fuel text n v count : (length text < fuel)%nat -> 0 <= count ->
  query_loop fuel text n v (u32 count) =
    (default v (last (values n text)), u32 (count + len (values n text))).
Proof.
  revert text v count. induction fuel as [|fuel IH]; intros text v count Hf Hc; [lia|].
  cbn [query_loop]. pose proof (item_test (item_of text) n) as Ht. unfold values.
  destruct (if _ && _ && _ then Some _ else None) as [w|] eqn:E in Ht.
  - destruct (_ && _ && _); [|done]. injection E as <-. symmetry in Ht.
    assert (Hu : u32 (u32 count + 1) = u32 (count + 1)) by (unfold u32; by rewrite Zplus_mod_idemp_l).
    rewrite Hu. destruct (item_split text) as [[H1 H2]|(rest & H1 & H2)]; rewrite H2; cbn [omap list_omap]; rewrite Ht.
    + rewrite <- H1, Nat.eqb_refl. done.
    + rewrite (proj2 (Nat.eqb_neq _ _)) by (rewrite H1 at 2; rewrite length_app; cbn [length]; lia).
      rewrite H1 at 2. rewrite drop_app_cons_length. rewrite IH; [|rewrite H1, length_app in Hf; cbn [length] in Hf; lia|lia].
      fold (values n rest). rewrite len_cons. f_equal; [|f_equal; lia].
      destruct (values n rest) as [|x l] eqn:Ev; [done|]. rewrite last_cons_cons.
      assert (Hs : is_Some (last (x :: l))) by (by apply last_is_Some). by destruct Hs as [y ->].
  - destruct (_ && _ && _); [done|]. symmetry in Ht.
    destruct (item_split text) as [[H1 H2]|(rest & H1 & H2)]; rewrite H2; cbn [omap list_omap]; rewrite Ht.
    + rewrite <- H1, Nat.eqb_refl. cbn. by rewrite Z.add_0_r.
    + rewrite (proj2 (Nat.eqb_neq _ _)) by (rewrite H1 at 2; rewrite length_app; cbn [length]; lia).
      rewrite H1 at 2. rewrite drop_app_cons_length. rewrite IH; [|rewrite H1, length_app in Hf; cbn [length] in Hf; lia|lia].
      done.
Qed.

Definition allowed_item (names : list bytes) (item : bytes) : Prop :=
  exists k v, binding item = Some (k, v) /\ k <> [] /\ k ∈ names.

Lemma only_item names item :
  (if (Nat.eqb (item_equal item) 0) || (Nat.eqb (item_equal item) (length item)) then false
   else existsb (fun n => HttpStringEquals (take (item_equal item) item) n) names) = true <->
  allowed_item names item.
Proof.
  unfold allowed_item, binding, item_equal. rewrite length_before.
  destruct (index_of EQUALS item) as [i|] eqn:E.
  - destruct (index_of_split _ _ _ E) as (a & r & -> & <- & _).
    rewrite take_app_length, drop_app_cons_length, length_app. cbn [length].
    rewrite (proj2 (Nat.eqb_neq (length a) (length a + _))) by lia. rewrite orb_false_r.
    destruct a as [|x a]; cbn [length Nat.eqb].
    { split; [done|]. by intros (k & v & [= <- _] & ? & _). }
    rewrite existsb_exists. split.
    + intros (n & Hin & Hn). apply bytes_eqb_eq in Hn. subst n. exists (x :: a), r.
      split; [done|]. split; [done|]. by apply list_elem_of_In.
    + intros (k & v & [= <- <-] & _ & Hin). exists (x :: a). split; [by apply list_elem_of_In|].
      apply bytes_eqb_refl.
  - rewrite Nat.eqb_refl, orb_true_r. split; [done|]. by intros (k & v & ? & _).
Qed.

Lemma only_loop_spec fuel text names : (length text <= fuel)%nat -> text <> [] ->
  byte_at text (len text - 1) <> AMP ->
  only_loop fuel text names = true <-> Forall (allowed_item names) (split_on AMP text).
Proof.
  revert text. induction fuel as [|fuel IH]; intros text Hf Hne Hlast.
  { destruct text; [done|]. cbn [length] in Hf. lia. }
  destruct text as [|c0 text]; [done|]. cbn [only_loop]. set (t := c0 :: text) in *.
  pose proof (only_item names (item_of t)) as Ho.
  destruct (_ || _).
  { destruct (item_split t) as [[H1 H2]|(rest & H1 & H2)]; rewrite H2, Forall_cons;
      (split; [done | tauto]). }
  destruct (existsb _ names); cbn [negb].
  2:{ destruct (item_split t) as [[H1 H2]|(rest & H1 & H2)]; rewrite H2, Forall_cons;
      (split; [done | tauto]). }
  destruct (item_split t) as [[H1 H2]|(rest & H1 & H2)]; rewrite H2, Forall_cons.
  - rewrite H1 at 2. rewrite drop_ge by (rewrite <- H1; lia). destruct fuel; cbn [only_loop]; rewrite Forall_nil; tauto.
  - rewrite H1 at 2. rewrite drop_app_cons_length. rewrite H1, length_app in Hf. cbn [length] in Hf.
    assert (Hr : rest <> []).
    { intros ->. apply Hlast. rewrite H1, len_app. change (len [AMP]) with 1.
      replace (len (item_of t) + 1 - 1) with (len (item_of t)) by lia. apply byte_at_here. }
    rewrite IH; [tauto | lia | done |]. intros Hx. apply Hlast. rewrite <- Hx.
    assert (1 <= len rest) by (destruct rest; [done|]; rewrite len_cons; len_facts; lia).
    rewrite H1 at 1. change (item_of t ++ AMP :: rest) with (item_of t ++ [AMP] ++ rest).
    rewrite app_assoc. apply byte_at_off; [|lia]. rewrite H1 at 1. rewrite !len_app, len_cons.
    change (len [AMP]) with 1. lia.
Qed.

(** On every query string, the lookup returns the last value bound to the
    name and the number of its bindings (as a 32-bit counter), and the name
    check passes exactly when every item between ampersands binds a non-empty
    allowed name. *)
Theorem Query_strings_spec query n names :
  QueryValue query n = (default [] (last (values n query)), u32 (len (values n query))) /\
  (OnlyQueryNames query names = true <-> Forall (allowed_item names) (split_on AMP query)).
Proof.
  split.
  - unfold QueryValue. change 0 with (u32 0) at 1. by rewrite query_loop_spec by lia.
  - unfold OnlyQueryNames. destruct query as [|c q].
    { cbn. split; [done|]. intros H. inversion H as [|? ? (k & v & Hb & _)]; subst. done. }
    rewrite (proj2 (Z.eqb_neq _ 0)) by (rewrite len_cons; len_facts; lia). cbn [orb].
    destruct (Z.eqb_spec (byte_at (c :: q) (len (c :: q) - 1)) AMP) as [E|E]; [|by apply only_loop_spec].
    split; [done|]. intros H. exfalso. destruct (exists_last (l := c :: q)) as (b & x & Hb); [done|].
    rewrite Hb, len_snoc in E. replace (len b + 1 - 1) with (len b) in E by lia. rewrite byte_at_here in E.
    subst x. rewrite Hb, split_on_snoc in H. apply Forall_app in H as [_ H].
    inversion H as [|? ? (k & v & Hk & _)]; subst. done.
Qed.
End Helpers.

(** ** The router interface and the composite router *)
Inductive HttpServerError :=
| BadRequest | HeaderTooLarge | MethodNotAllowed | VersionNotSupported | RequestTimeout
| LengthRequired | PayloadTooLarge | UnexpectedBodyData | BodyRejected | InternalError.

Inductive HttpRouteAction := Invalid | RespondAction | ReceiveBodyAction.

Module Composite.
Section routers.
(** [S] are the response streams, [K] the body sinks and [W] the state that
    routers read and change. *)
Context {S K W : Type}.
Notation HttpResponse := (HttpResponse S).

Record HttpRouteResult := mkResult {
  action : HttpRouteAction;
  response : HttpResponse;
  body_sink : option K;
  maximum_body_bytes : Z;
}.

Definition new_result : HttpRouteResult := mkResult Invalid new_response None 0.
Definition Respond (route_response : HttpResponse) : HttpRouteResult :=
  mkResult RespondAction route_response None 0.
Definition ReceiveBody (sink : K) (maximum_bytes : Z) : HttpRouteResult :=
  mkResult ReceiveBodyAction new_response (Some sink) maximum_bytes.

Definition SetTextResponse (status : Z) (body : bytes) : HttpResponse :=
  SetFixedText (AddHeader (Reset status None) (str "Content-Type")
                  (str "text/plain; charset=utf-8")).2 (Some body).

Definition SetJsonErrorResponse (status : Z) (message : option bytes) : HttpResponse :=
  SetFixedText (AddHeader (Reset status None) (str "Content-Type") (str "application/json")).2
    message.

Definition RespondJsonError (status : Z) (message : option bytes) : HttpRouteResult :=
  Respond (SetJsonErrorResponse status message).

(** [HttpRouter::ErrorResponse], the default of the interface. *)
Definition DefaultErrorResponse (error : HttpServerError) : HttpResponse :=
  match error with
  | BadRequest => SetTextResponse 400 (str "bad request" ++ [LF])
  | HeaderTooLarge => SetTextResponse 431 (str "request header too large" ++ [LF])
  | MethodNotAllowed =>
      (AddHeader (SetTextResponse 405 (str "method not allowed" ++ [LF]))
         (str "Allow") (str "GET, HEAD, PUT, POST")).2
  | VersionNotSupported => SetTextResponse 505 (str "HTTP version not supported" ++ [LF])
  | RequestTimeout => SetTextResponse 408 (str "request timeout" ++ [LF])
  | LengthRequired => SetTextResponse 411 (str "Content-Length required" ++ [LF])
  | PayloadTooLarge => SetTextResponse 413 (str "request body too large" ++ [LF])
  | UnexpectedBodyData => SetTextResponse 400 (str "data after request body" ++ [LF])
  | BodyRejected => SetTextResponse 400 (str "request body rejected" ++ [LF])
  | InternalError => SetTextResponse 500 (str "internal server error" ++ [LF])
  end.

(** The virtual functions: each gets the out-parameter's old value and the
    state, and returns their new values. *)
Record HttpRouter := mkRouter {
  Route : HttpRequestHead -> HttpRouteResult -> W -> HttpRouteResult * W;
  ErrorResponse : HttpServerError -> option HttpRequestHead -> HttpResponse -> W -> HttpResponse * W;
}.

Definition kHttpMaximumRouterMounts : Z := 8.

Record MountEntry := mkMount { prefix : bytes; router : HttpRouter }.
Definition CompositeHttpRouter := list MountEntry.

Definition ValidMountPrefix (p : bytes) : bool :=
  if (len p =? 0) || negb (byte_at p 0 =? SLASH) || (kHttpMaximumRequestTargetBytes <? len p)
  then false
  else forallb (fun v => negb ((v <=? 0x20) || (0x7e <? v) || (v =? ch "?"%char) ||
                               (v =? ch "#"%char))) p.

Definition PrefixMatches (path p : bytes) : bool :=
  if negb (HttpStringStartsWith path p) then false
  else if (len path =? len p) || (byte_at p (len p - 1) =? SLASH) then true
  else byte_at path (len p) =? SLASH.

(** [Mount]: a null router is [None]. *)
Definition Mount (mounts : CompositeHttpRouter) (p : bytes) (r : option HttpRouter)
    : bool * CompositeHttpRouter :=
  match r with
  | None => (false, mounts)
  | Some r =>
      if negb (ValidMountPrefix p) || (kHttpMaximumRouterMounts <=? len mounts)
      then (false, mounts)
      else if existsb (fun m => (len (prefix m) =? len p) && HttpStringStartsWith (prefix m) p) mounts
      then (false, mounts)
      else (true, mounts ++ [mkMount p r])
  end.

Fixpoint match_loop (mounts : CompositeHttpRouter) (path : bytes)
    (matched : option HttpRouter) (matched_size : Z) : option HttpRouter :=
  match mounts with
  | [] => matched
  | m :: mounts' =>
      if (matched_size <=? len (prefix m)) && PrefixMatches path (prefix m)
      then match_loop mounts' path (Some (router m)) (len (prefix m))
      else match_loop mounts' path matched matched_size
  end.

Definition Match (mounts : CompositeHttpRouter) (path : bytes) : option HttpRouter :=
  match_loop mounts path None 0.

(** The composite router implements the interface. *)
Definition CompositeRoute (mounts : CompositeHttpRouter) (request : HttpRequestHead)
    (result : HttpRouteResult) (w : W) : HttpRouteResult * W :=
  match Match mounts (raw_path request) with
  | Some r => Route r request result w
  | None => (Respond (SetTextResponse 404 (str "not found" ++ [LF])), w)
  end.

Definition CompositeErrorResponse (mounts : CompositeHttpRouter) (error : HttpServerError)
    (request : option HttpRequestHead) (resp : HttpResponse) (w : W) : HttpResponse * W :=
  match (match request with None => None | Some q => Match mounts (raw_path q) end) with
  | Some r => ErrorResponse r error request resp w
  | None => (DefaultErrorResponse error, w)
  end.

Definition as_router (mounts : CompositeHttpRouter) : HttpRouter :=
  mkRouter (CompositeRoute mounts) (CompositeErrorResponse mounts).
(** *** Longest-prefix dispatch *)
(** A prefix covers a path at a segment boundary. *)
Definition covers (p path : bytes) : Prop :=
  exists rest, path = p ++ rest /\
    (rest = [] \/ (exists q, p = q ++ [SLASH]) \/ exists t, rest = SLASH :: t).

Lemma PrefixMatches_covers path p : p <> [] -> PrefixMatches path p = true <-> covers p path.
Proof.
  intros Hp. destruct (exists_last Hp) as (q & c & Hq). unfold PrefixMatches, covers, HttpStringStartsWith.
  destruct (starts_with p path) eqn:E; cbn [negb].
  - apply starts_with_spec in E as [rest ->]. rewrite len_app.
    assert (Hc : byte_at p (len p - 1) = c).
    { rewrite Hq, len_snoc. replace (len q + 1 - 1) with (len q) by lia. apply byte_at_here. }
    rewrite Hc. destruct rest as [|x t].
    { rewrite Z.add_0_r, Z.eqb_refl. cbn [orb]. split; [|done]. intros _. exists []. eauto. }
    rewrite len_cons. len_facts. rewrite (proj2 (Z.eqb_neq _ (len p))) by lia. cbn [orb].
    rewrite byte_at_here. destruct (Z.eqb_spec c SLASH) as [->|Hcs].
    { split; [|done]. intros _. exists (x :: t). eauto. }
    rewrite Z.eqb_eq. split.
    + intros ->. exists (SLASH :: t). eauto.
    + intros (rest & Hr & Hd). apply app_inv_head in Hr. subst rest.
      destruct Hd as [Hd|[[q' Hd]|[t' Hd]]]; [done| |by injection Hd].
      rewrite Hq in Hd. apply app_inj_tail in Hd. by destruct Hd.
  - split; [done|]. intros (rest & -> & _).
    assert (starts_with p (p ++ rest) = true) by (apply starts_with_spec; by exists rest). congruence.
Qed.

Definition mounts_ok (ms : CompositeHttpRouter) : Prop :=
  NoDup (map prefix ms) /\ Forall (fun m => ValidMountPrefix (prefix m) = true) ms /\
  len ms <= kHttpMaximumRouterMounts.

Lemma Mount_ok ms p r : mounts_ok ms -> mounts_ok (Mount ms p r).2.
Proof.
  intros (Hnd & Hv & Hl). unfold Mount. destruct r as [r|]; [|done].
  destruct (ValidMountPrefix p) eqn:Ep; cbn [negb orb]; [|done].
  destruct (Z.leb_spec kHttpMaximumRouterMounts (len ms)) as [Hm|Hm]; [done|].
  destruct (existsb _ ms) eqn:Ex; [done|]. cbn [snd]. split; [|split].
  - rewrite map_app. apply NoDup_app. split; [done|]. split; [|apply NoDup_singleton].
    intros x Hx Hin. apply list_elem_of_singleton in Hin. cbn [prefix] in Hin. subst x.
    apply list_elem_of_In, in_map_iff in Hx as (m & Hm1 & Hm2).
    apply existsb_Forall_bool in Ex. rewrite List.Forall_forall in Ex. specialize (Ex m Hm2).
    rewrite Hm1, Z.eqb_refl in Ex. unfold HttpStringStartsWith in Ex. cbn [andb] in Ex.
    assert (starts_with p p = true) by (apply starts_with_spec; exists []; by rewrite app_nil_r). congruence.
  - apply Forall_app. split; [done|]. by constructor.
  - rewrite len_snoc. lia.
Qed.

(** The mounts after a sequence of [Mount] calls on a new router. *)
Definition mount_all (calls : list (bytes * option HttpRouter)) : CompositeHttpRouter :=
  fold_left (fun ms c => (Mount ms c.1 c.2).2) calls [].

Lemma mount_all_ok calls : mounts_ok (mount_all calls).
Proof.
  unfold mount_all. assert (H0 : mounts_ok []).
  { split; [constructor|]. split; [constructor|]. by vm_compute. }
  revert H0. generalize (@nil MountEntry). induction calls as [|c calls IH]; intros ms Hms; [done|].
  cbn [fold_left]. by apply IH, Mount_ok.
Qed.

Lemma covers_same_size p p' path : covers p path -> covers p' path -> len p = len p' -> p = p'.
Proof.
  intros (r & H1 & _) (r' & H2 & _) Hl. unfold len in Hl. rewrite H1 in H2.
  apply app_inj_1 in H2; [tauto | lia].
Qed.

(** The invariant of the search: [seen] are the mounts before the cursor. *)
Definition best (path : bytes) (seen : CompositeHttpRouter) (o : option HttpRouter) (size : Z) : Prop :=
  match o with
  | None => size = 0 /\ Forall (fun m => ~ covers (prefix m) path) seen
  | Some r => exists m, m ∈ seen /\ r = router m /\ size = len (prefix m) /\
      covers (prefix m) path /\
      Forall (fun m' => covers (prefix m') path -> m' = m \/ len (prefix m') < len (prefix m)) seen
  end.

Lemma match_loop_best path ms seen o size : NoDup (map prefix (seen ++ ms)) ->
  Forall (fun m => ValidMountPrefix (prefix m) = true) ms -> best path seen o size ->
  exists size', best path (seen ++ ms) (match_loop ms path o size) size'.
Proof.
  revert seen o size. induction ms as [|m ms IH]; intros seen o size Hnd Hv Hb.
  { exists size. by rewrite app_nil_r. }
  apply Forall_cons in Hv as [Hm Hv]. assert (Hne : prefix m <> []).
  { intros E. by rewrite E in Hm. }
  pose proof (PrefixMatches_covers path (prefix m) Hne) as Hpm.
  assert (Hfresh : forall m', m' ∈ seen -> prefix m' <> prefix m).
  { intros m' Hin E. rewrite map_app in Hnd. apply NoDup_app in Hnd as (_ & Hd & _).
    apply (Hd (prefix m')); [by apply list_elem_of_In, in_map, list_elem_of_In|].
    rewrite E. cbn [map]. apply elem_of_cons. by left. }
  replace (seen ++ m :: ms) with ((seen ++ [m]) ++ ms) in * by (by rewrite <- app_assoc).
  cbn [match_loop]. destruct (Z.leb_spec size (len (prefix m))) as [Hs|Hs]; cbn [andb].
  - destruct (PrefixMatches path (prefix m)).
    + apply (IH (seen ++ [m])); [done | done |]. exists m. assert (Hc : covers (prefix m) path) by tauto.
      split; [set_solver|]. split; [done|]. split; [done|]. split; [done|].
      apply Forall_app. split; [|repeat constructor; by left].
      destruct o as [r|]; cbn [best] in Hb.
      * destruct Hb as (m0 & Hin0 & _ & Hs0 & Hc0 & HF). rewrite List.Forall_forall in HF |- *.
        intros m' Hin Hc'. right. assert (len (prefix m0) < len (prefix m)).
        { assert (len (prefix m0) <> len (prefix m)); [|lia]. intros E.
          apply (Hfresh m0 Hin0). by eapply covers_same_size. }
        destruct (HF m' Hin Hc') as [->|]; lia.
      * destruct Hb as [_ HF]. eapply Forall_impl; [exact HF|]. cbn. tauto.
    + apply (IH (seen ++ [m])) with (size := size); [done | done |]. assert (Hc : ~ covers (prefix m) path) by (intros ?; intuition discriminate).
      destruct o as [r|]; cbn [best] in *.
      * destruct Hb as (m0 & Hin0 & H1 & H2 & H3 & HF). exists m0. repeat split; try done; [set_solver|].
        apply Forall_app. split; [done|]. by repeat constructor.
      * destruct Hb as [-> HF]. split; [done|]. apply Forall_app. split; [done|]. by repeat constructor.
  - apply (IH (seen ++ [m])) with (size := size); [done | done |]. destruct o as [r|]; cbn [best] in *.
    + destruct Hb as (m0 & Hin0 & H1 & H2 & H3 & HF). exists m0. repeat split; try done; [set_solver|].
      apply Forall_app. split; [done|]. constructor; [|constructor]. intros _. right. lia.
    + destruct Hb as [-> HF]. pose proof (len_nonneg (prefix m)). lia.
Qed.

(** A composite router, however it was populated, hands a request to the
    router mounted under the longest prefix that covers the raw path at a
    segment boundary, and to no other; a path that no prefix covers is
    answered with 404, without touching any router. *)
Theorem CompositeRoute_longest_prefix calls request result w :
  let ms := mount_all calls in
  (exists m, m ∈ ms /\ covers (prefix m) (raw_path request) /\
     Forall (fun m' => covers (prefix m') (raw_path request) ->
               m' = m \/ len (prefix m') < len (prefix m)) ms /\
     Route (as_router ms) request result w = Route (router m) request result w) \/
  (Forall (fun m => ~ covers (prefix m) (raw_path request)) ms /\
   exists r, Route (as_router ms) request result w = (Respond r, w) /\ status_code r = 404).
Proof.
  cbv zeta. destruct (mount_all_ok calls) as (Hnd & Hv & _).
  destruct (match_loop_best (raw_path request) (mount_all calls) [] None 0 Hnd Hv) as [size Hb];
    [by split; [|constructor]|].
  cbn [app] in Hb. cbn [as_router Route]. unfold CompositeRoute, Match.
  destruct (match_loop _ _ _ _) as [r|]; cbn [best] in Hb.
  - left. destruct Hb as (m & Hin & -> & _ & Hc & HF). eauto.
  - right. destruct Hb as [_ HF]. split; [done|]. eexists. by split.
Qed.
End routers.
End Composite.
