(* ===== verification/HttpResponseWriter.v ===== *)
(** * Writing a response (src/src/remote/http_response_writer.cpp)

    [HttpResponseWriter] serializes the head of a response into a bounded
    buffer and then pushes head and body through a transport that may accept
    any part of what it is offered.  The transport and the response stream are
    the interfaces [HttpTransport] and [HttpResponseStream]; the theorems hold
    for every implementation of them.  What the transport accepted, what the
    stream produced and how often it was cancelled are observed by the
    wrappers of [Module Observe], which implement the same interfaces. *)
From S2P Require Import Prelude HttpRequest.
From Stdlib Require Import Ascii.
Import Types.
Local Open Scope Z_scope.

Inductive HttpIoStatus := Progress | WouldBlock | Closed | IoError.
Inductive HttpStreamReadResult := Data | StreamWouldBlock | End | ReadError.
Inductive HttpResponseStartStatus :=
| Ok | InvalidResponse | TooManyHeaders | HeaderTooLarge | InvalidHeader | InvalidFraming.
Inductive HttpResponseWriteStatus :=
| Pending | WaitingForStream | Complete | ClientDisconnected | TransportError | StreamError
| InvalidState.
Inductive State := kIdle | kHeaders | kFixedBody | kStreamBody | kComplete | kFailed.

#[export] Instance HttpResponseStartStatus_eq_dec : EqDecision HttpResponseStartStatus.
Proof. solve_decision. Defined.
#[export] Instance HttpResponseWriteStatus_eq_dec : EqDecision HttpResponseWriteStatus.
Proof. solve_decision. Defined.
#[export] Instance State_eq_dec : EqDecision State.
Proof. solve_decision. Defined.

(** The write half of [HttpTransport]: what became of the offered bytes. *)
Class HttpTransport (T : Type) := {
  transport_write : T -> bytes -> HttpIoStatus * N * T;
}.

(** [Read] fills the buffer it is given (of its capacity) and reports how many
    bytes it produced. *)
Class HttpResponseStream (S : Type) := {
  stream_Read : S -> bytes -> HttpStreamReadResult * N * bytes * S;
  stream_Cancel : S -> S;
  stream_Read_size s buffer : len (stream_Read s buffer).1.2 = len buffer;
}.

(** ** Head validation *)
Definition ValidHeaderName (n : bytes) : bool := negb (len n =? 0) && forallb IsTokenCharacter n.
Definition ValidHeaderValue (v : bytes) : bool := negb (existsb bad_value_byte v).
Definition ValidReasonPhrase (v : bytes) : bool :=
  negb (len v =? 0) && negb (existsb (fun c => (c <? 0x20) || (0x7e <? c)) v).
Definition IsFramingHeader (n : bytes) : bool :=
  HttpStringEqualsInsensitive n (str "Content-Length") ||
  HttpStringEqualsInsensitive n (str "Transfer-Encoding") ||
  HttpStringEqualsInsensitive n (str "Connection").

(** ** The head buffer: the bytes appended so far, and whether all fitted *)
Definition Append (h v : bytes) : bool * bytes :=
  if kHttpMaximumResponseHeaderBytes - len h <? len v then (false, h) else (true, h ++ v).

Definition AppendUnsigned (h : bytes) (value : Z) : bool * bytes :=
  let reversed := reversed_digits 21 value in
  if kHttpMaximumResponseHeaderBytes - len h <? len reversed then (false, h)
  else (true, h ++ rev reversed).

(** [a && b] on appends: the second only happens if the first succeeded. *)
Definition and_then (a : bool * bytes) (b : bytes -> bool * bytes) : bool * bytes :=
  let '(ok, h) := a in if ok then b h else (false, h).
Notation "a '&&&' b" := (and_then a b) (at level 40, left associativity) : bmx_scope.
Local Open Scope bmx_scope.

Fixpoint append_headers (hs : list HttpHeaderView) (h : bytes) : HttpResponseStartStatus * bytes :=
  match hs with
  | [] => (Ok, h)
  | f :: hs' =>
      if negb (ValidHeaderName (name f)) || negb (ValidHeaderValue (value f)) ||
         IsFramingHeader (name f)
      then (InvalidHeader, h)
      else
        let '(ok, h) := Append h (name f) &&& (fun h => Append h (str ": "))
                        &&& (fun h => Append h (value f)) &&& (fun h => Append h [CR; LF]) in
        if ok then append_headers hs' h else (HeaderTooLarge, h)
  end.

Section writer.
Context {S T : Type} `{HttpResponseStream S} `{HttpTransport T}.
Notation HttpResponse := (HttpResponse S).

Record HttpResponseWriter := mkWriter {
  response_ : HttpResponse;
  state_ : State;
  suppress_body_ : bool;
  stream_activated_ : bool;
  stream_finished_ : bool;
  stream_cancelled_ : bool;
  header_ : bytes;
  header_offset_ : Z;
  fixed_offset_ : Z;
  stream_buffer_ : bytes;
  stream_size_ : Z;
  stream_offset_ : Z;
}.

Definition new_writer : HttpResponseWriter :=
  mkWriter new_response kIdle false false false false [] 0 0
    (repeat 0 (Z.to_nat kHttpResponseStreamBufferBytes)) 0 0.

Definition with_state (w : HttpResponseWriter) (st : State) : HttpResponseWriter :=
  mkWriter (response_ w) st (suppress_body_ w) (stream_activated_ w) (stream_finished_ w)
    (stream_cancelled_ w) (header_ w) (header_offset_ w) (fixed_offset_ w) (stream_buffer_ w)
    (stream_size_ w) (stream_offset_ w).

Definition with_offsets (w : HttpResponseWriter) (header fixed stream_off : Z) : HttpResponseWriter :=
  mkWriter (response_ w) (state_ w) (suppress_body_ w) (stream_activated_ w) (stream_finished_ w)
    (stream_cancelled_ w) (header_ w) header fixed (stream_buffer_ w) (stream_size_ w) stream_off.

Definition with_fragment (w : HttpResponseWriter) (buffer : bytes) (size : Z) : HttpResponseWriter :=
  mkWriter (response_ w) (state_ w) (suppress_body_ w) (stream_activated_ w) (stream_finished_ w)
    (stream_cancelled_ w) (header_ w) (header_offset_ w) (fixed_offset_ w) buffer size 0.

Definition with_stream (w : HttpResponseWriter) (s : S) (finished cancelled : bool) : HttpResponseWriter :=
  let r := response_ w in
  mkWriter (mkResponse (status_code r) (reason_phrase r) (response_headers r) (body_kind r)
              (fixed_body r) (declared_content_length r) (Some s) (completion r))
    (state_ w) (suppress_body_ w) (stream_activated_ w) finished cancelled (header_ w)
    (header_offset_ w) (fixed_offset_ w) (stream_buffer_ w) (stream_size_ w) (stream_offset_ w).

Definition active (w : HttpResponseWriter) : bool :=
  bool_decide (state_ w = kHeaders) || bool_decide (state_ w = kFixedBody) ||
  bool_decide (state_ w = kStreamBody).
Definition complete (w : HttpResponseWriter) : bool := bool_decide (state_ w = kComplete).
Definition has_pending_output (w : HttpResponseWriter) : bool :=
  match state_ w with
  | kHeaders => header_offset_ w <? len (header_ w)
  | kFixedBody => fixed_offset_ w <? len (fixed_body (response_ w))
  | kStreamBody => stream_offset_ w <? stream_size_ w
  | _ => false
  end.
Definition streaming (w : HttpResponseWriter) : bool :=
  bool_decide (body_kind (response_ w) = BodyStream).

(** [Abort] cancels a stream that was accepted and has not ended, once. *)
Definition Abort (w : HttpResponseWriter) : HttpResponseWriter :=
  let w :=
    match stream (response_ w) with
    | Some s =>
        if stream_activated_ w && negb (stream_finished_ w) && negb (stream_cancelled_ w)
        then with_stream w (stream_Cancel s) (stream_finished_ w) true else w
    | None => w
    end in
  if bool_decide (state_ w = kComplete) then w else with_state w kFailed.

(** The guards of [Start], the status line, the headers and the framing; the
    result is the status and the head as far as it was written. *)
Definition build_head (r : HttpResponse) (suppress_body : bool) : HttpResponseStartStatus * bytes :=
  if (status_code r <? 100) || (599 <? status_code r) || negb (ValidReasonPhrase (reason_phrase r)) ||
     (kHttpMaximumResponseHeaders <? len (response_headers r))
  then (InvalidResponse, [])
  else if bool_decide (body_kind r = BodyHeadOnly) && negb suppress_body then (InvalidFraming, [])
  else if bool_decide (body_kind r = BodyStream) && bool_decide (stream r = None)
  then (InvalidResponse, [])
  else
    let '(ok, h) := Append [] (str "HTTP/1.1 ") &&& (fun h => AppendUnsigned h (status_code r))
      &&& (fun h => Append h [SP]) &&& (fun h => Append h (reason_phrase r))
      &&& (fun h => Append h [CR; LF]) in
    if negb ok then (HeaderTooLarge, h)
    else
      let '(st, h) := append_headers (response_headers r) h in
      match st with
      | Ok =>
          let '(ok, h) :=
            if bool_decide (body_kind r = BodyStream) then (true, h)
            else
              let length :=
                match body_kind r with
                | BodyFixed => len (fixed_body r)
                | BodyHeadOnly => declared_content_length r
                | _ => 0
                end in
              Append h (str "Content-Length: ") &&& (fun h => AppendUnsigned h length)
                &&& (fun h => Append h [CR; LF]) in
          if negb ok then (HeaderTooLarge, h)
          else
            let '(ok, h) := Append h (str "Connection: close" ++ [CR; LF; CR; LF]) in
            if negb ok then (HeaderTooLarge, h) else (Ok, h)
      | _ => (st, h)
      end.

(** [Start]: the stream of a response that it aborts is handed back. *)
Definition Start (w : HttpResponseWriter) (r : HttpResponse) (suppress_body : bool)
    : HttpResponseStartStatus * HttpResponseWriter * option S :=
  let w := if active w then Abort w else w in
  let '(st, h) := build_head r suppress_body in
  let ok := bool_decide (st = Ok) in
  (st,
   mkWriter r (if ok then kHeaders else kFailed) suppress_body
     (ok && bool_decide (body_kind r = BodyStream) && negb suppress_body) false false h 0 0
     (stream_buffer_ w) 0 0,
   stream (response_ w)).

Definition EnterBodyState (w : HttpResponseWriter) : HttpResponseWriter :=
  let r := response_ w in
  if suppress_body_ w || bool_decide (body_kind r = BodyEmpty) ||
     bool_decide (body_kind r = BodyHeadOnly) ||
     (bool_decide (body_kind r = BodyFixed) && (len (fixed_body r) =? 0))
  then with_state w kComplete
  else match body_kind r with
       | BodyFixed => with_state w kFixedBody
       | BodyStream => with_state w kStreamBody
       | _ => with_state w kFailed
       end.

(** [WritePending]: the status, the new offset, the progress flag and the
    transport. *)
Definition WritePending (t : T) (data : bytes) (offset : Z)
    : HttpResponseWriteStatus * Z * bool * T :=
  if len data <=? offset then (InvalidState, offset, false, t)
  else
    let requested := len data - offset in
    let '(status, n, t) := transport_write t (drop (Z.to_nat offset) data) in
    let size := Z.of_N n in
    match status with
    | Progress =>
        if (size =? 0) || (requested <? size) then (TransportError, offset, false, t)
        else (Pending, offset + size, true, t)
    | WouldBlock => (if negb (size =? 0) then TransportError else Pending, offset, false, t)
    | Closed => (ClientDisconnected, offset, false, t)
    | IoError => (TransportError, offset, false, t)
    end.

Definition poll_headers (w : HttpResponseWriter) (t : T)
    : HttpResponseWriteStatus * bool * HttpResponseWriter * T :=
  let '(status, offset, progress, t) := WritePending t (header_ w) (header_offset_ w) in
  let w := with_offsets w offset (fixed_offset_ w) (stream_offset_ w) in
  match status with
  | Pending =>
      if offset =? len (header_ w) then
        let w := EnterBodyState w in
        (if bool_decide (state_ w = kComplete) then Complete else Pending, progress, w, t)
      else (Pending, progress, w, t)
  | _ => (status, progress, w, t)
  end.

Definition poll_fixed (w : HttpResponseWriter) (t : T)
    : HttpResponseWriteStatus * bool * HttpResponseWriter * T :=
  let body := fixed_body (response_ w) in
  let '(status, offset, progress, t) := WritePending t body (fixed_offset_ w) in
  let w := with_offsets w (header_offset_ w) offset (stream_offset_ w) in
  match status with
  | Pending =>
      if offset =? len body then (Complete, progress, with_state w kComplete, t)
      else (Pending, progress, w, t)
  | _ => (status, progress, w, t)
  end.

(** The refill of the fragment buffer: [inl] is a return. *)
Definition refill (w : HttpResponseWriter) (s : S)
    : (HttpResponseWriteStatus * HttpResponseWriter) + HttpResponseWriter :=
  let '(read, n, buffer, s) := stream_Read s (stream_buffer_ w) in
  let produced := Z.of_N n in
  let w := with_fragment (with_stream w s (stream_finished_ w) (stream_cancelled_ w)) buffer 0 in
  match read with
  | StreamWouldBlock => inl (if produced =? 0 then WaitingForStream else StreamError, w)
  | End =>
      if negb (produced =? 0) then inl (StreamError, w)
      else inl (Complete, with_state (with_stream w s true (stream_cancelled_ w)) kComplete)
  | ReadError => inl (StreamError, w)
  | Data =>
      if (produced =? 0) || (kHttpResponseStreamBufferBytes <? produced) then inl (StreamError, w)
      else inr (with_fragment w buffer produced)
  end.

(** The stream of a body stream is never null here ([Start] refused that). *)
Definition poll_stream (w : HttpResponseWriter) (t : T)
    : HttpResponseWriteStatus * bool * HttpResponseWriter * T :=
  match stream (response_ w) with
  | None => (InvalidState, false, w, t)
  | Some s =>
      match (if stream_offset_ w =? stream_size_ w then refill w s else inr w) with
      | inl (status, w) => (status, false, w, t)
      | inr w =>
          let '(status, offset, progress, t) :=
            WritePending t (take (Z.to_nat (stream_size_ w)) (stream_buffer_ w)) (stream_offset_ w) in
          (status, progress, with_offsets w (header_offset_ w) (fixed_offset_ w) offset, t)
      end
  end.

(** [Poll]: the status, the progress flag and the new states. *)
Definition Poll (w : HttpResponseWriter) (t : T)
    : HttpResponseWriteStatus * bool * HttpResponseWriter * T :=
  match state_ w with
  | kComplete => (Complete, false, w, t)
  | kIdle | kFailed => (InvalidState, false, w, t)
  | kHeaders => poll_headers w t
  | kFixedBody => poll_fixed w t
  | kStreamBody => poll_stream w t
  end.
End writer.

(** The writer touches its transport by at most one write per poll. *)
Lemma Poll_transport {S T} `{HttpResponseStream S} `{HttpTransport T} (w : HttpResponseWriter (S := S)) (t : T) :
  let '(_, _, _, t') := Poll w t in t' = t \/ exists data, t' = (transport_write t data).2.
Proof.
  assert (Hw : forall data offset, let '(_, _, _, t') := WritePending t data offset in
    t' = t \/ exists data, t' = (transport_write t data).2).
  { intros data offset. unfold WritePending. destruct (_ <=? _); [by left|].
    destruct (transport_write t _) as [[io n] t'] eqn:E.
    destruct io; try destruct (_ || _); right; exists (drop (Z.to_nat offset) data); by rewrite E. }
  unfold Poll. destruct (state_ w); try (by left).
  - unfold poll_headers. specialize (Hw (header_ w) (header_offset_ w)).
    destruct (WritePending _ _ _) as [[[st off] pr] t']. destruct st; try destruct (_ =? _); done.
  - unfold poll_fixed. specialize (Hw (fixed_body (response_ w)) (fixed_offset_ w)).
    destruct (WritePending _ _ _) as [[[st off] pr] t']. destruct st; try destruct (_ =? _); done.
  - unfold poll_stream. destruct (stream (response_ w)) as [s|]; [|by left].
    destruct (if _ =? _ then _ else _) as [[st w']|w']; [by left|].
    specialize (Hw (take (Z.to_nat (stream_size_ w')) (stream_buffer_ w')) (stream_offset_ w')).
    by destruct (WritePending _ _ _) as [[[st off] pr] t'].
Qed.

Definition HttpResponseStartStatusString (st : HttpResponseStartStatus) : bytes :=
  match st with
  | Ok => str "ok"
  | InvalidResponse => str "invalid response"
  | TooManyHeaders => str "too many headers"
  | HeaderTooLarge => str "response header too large"
  | InvalidHeader => str "invalid response header"
  | InvalidFraming => str "invalid response framing"
  end.

(** ** What the writer emits *)
Definition header_line (f : HttpHeaderView) : bytes := name f ++ str ": " ++ value f ++ [CR; LF].

Definition length_line {S} (r : HttpResponse S) : bytes :=
  match body_kind r with
  | BodyStream => []
  | BodyFixed => str "Content-Length: " ++ decimal_text (len (fixed_body r)) ++ [CR; LF]
  | BodyHeadOnly => str "Content-Length: " ++ decimal_text (declared_content_length r) ++ [CR; LF]
  | BodyEmpty => str "Content-Length: " ++ decimal_text 0 ++ [CR; LF]
  end.

Definition head_text {S} (r : HttpResponse S) : bytes :=
  str "HTTP/1.1 " ++ decimal_text (status_code r) ++ SP :: reason_phrase r ++ [CR; LF] ++
  concat (map header_line (response_headers r)) ++ length_line r ++
  str "Connection: close" ++ [CR; LF; CR; LF].

Definition header_ok (f : HttpHeaderView) : bool :=
  ValidHeaderName (name f) && ValidHeaderValue (value f) && negb (IsFramingHeader (name f)).

Definition response_ok {S} (r : HttpResponse S) (suppress : bool) : Prop :=
  100 <= status_code r <= 599 /\ ValidReasonPhrase (reason_phrase r) = true /\
  len (response_headers r) <= kHttpMaximumResponseHeaders /\
  (body_kind r = BodyHeadOnly -> suppress = true) /\
  (body_kind r = BodyStream -> stream r <> None) /\
  Forall (fun f => header_ok f = true) (response_headers r).

(** *** The head buffer holds exactly the concatenation, or the append fails *)
Definition appends (a : bool * bytes) (h v : bytes) : Prop :=
  (len (h ++ v) <= kHttpMaximumResponseHeaderBytes -> a = (true, h ++ v)) /\
  (kHttpMaximumResponseHeaderBytes < len (h ++ v) -> a.1 = false).

Lemma Append_appends h v : appends (Append h v) h v.
Proof.
  unfold appends, Append. rewrite len_app. destruct (Z.ltb_spec (kHttpMaximumResponseHeaderBytes - len h) (len v)).
  - split; [lia | done].
  - split; [done | lia].
Qed.

Lemma AppendUnsigned_appends h v : appends (AppendUnsigned h v) h (decimal_text v).
Proof.
  unfold AppendUnsigned, decimal_text, appends. rewrite len_app.
  assert (E : len (rev (reversed_digits 21 v)) = len (reversed_digits 21 v)) by (unfold len; by rewrite length_rev).
  rewrite E. destruct (Z.ltb_spec (kHttpMaximumResponseHeaderBytes - len h) (len (reversed_digits 21 v))).
  - split; [lia | done].
  - split; [done | lia].
Qed.

Lemma and_then_appends a b h v1 v2 : appends a h v1 -> (forall h', appends (b h') h' v2) ->
  appends (a &&& b) h (v1 ++ v2).
Proof.
  intros [Ha1 Ha2] Hb. unfold appends, and_then. rewrite app_assoc.
  destruct (Hb (h ++ v1)) as [Hb1 Hb2]. pose proof (len_nonneg v2). split; intros Hl.
  - rewrite Ha1 by (rewrite len_app in Hl; lia). by apply Hb1.
  - destruct a as [[] h'] eqn:E; [|done].
    destruct (Z.le_gt_cases (len (h ++ v1)) kHttpMaximumResponseHeaderBytes) as [Hle|Hgt].
    + specialize (Ha1 Hle). injection Ha1 as ->. by apply Hb2.
    + by specialize (Ha2 Hgt).
Qed.

#[export] Hint Resolve Append_appends AppendUnsigned_appends : bmx.
Ltac appends_tac := repeat (apply and_then_appends; [|intros ?]); auto with bmx.

(** What an append that stands in for a text does to the tests of [Start]. *)
Lemma appends_cases a h v : appends a h v ->
  (a = (true, h ++ v) /\ len (h ++ v) <= kHttpMaximumResponseHeaderBytes) \/
  (exists h', a = (false, h') /\ kHttpMaximumResponseHeaderBytes < len (h ++ v)).
Proof.
  intros [H1 H2]. destruct (Z.le_gt_cases (len (h ++ v)) kHttpMaximumResponseHeaderBytes) as [Hl|Hl].
  - left. split; [by apply H1 | done].
  - right. destruct a as [b h'] eqn:E. exists h'. specialize (H2 ltac:(lia)). cbn in H2. subst b.
    by split; [|lia].
Qed.

Lemma append_headers_ok hs h h' : len h <= kHttpMaximumResponseHeaderBytes ->
  append_headers hs h = (Ok, h') <->
  h' = h ++ concat (map header_line hs) /\ Forall (fun f => header_ok f = true) hs /\
  len h' <= kHttpMaximumResponseHeaderBytes.
Proof.
  revert h. induction hs as [|f hs IH]; intros h Hh; cbn [append_headers map concat].
  { rewrite app_nil_r. split; [intros [= <-]; repeat split; [constructor | done] | by intros (-> & _)]. }
  assert (Hok : header_ok f = negb (negb (ValidHeaderName (name f)) || negb (ValidHeaderValue (value f)) ||
    IsFramingHeader (name f))).
  { unfold header_ok. by destruct (ValidHeaderName _), (ValidHeaderValue _), (IsFramingHeader _). }
  rewrite Forall_cons, Hok. destruct (_ || _ || _); cbn [negb].
  { split; [done|]. by intros (_ & [? _] & _). }
  assert (Ha : appends (Append h (name f) &&& (fun h => Append h (str ": "))
    &&& (fun h => Append h (value f)) &&& (fun h => Append h [CR; LF])) h (header_line f)).
  { replace (header_line f) with (((name f ++ str ": ") ++ value f) ++ [CR; LF])
      by (unfold header_line; by rewrite <- !app_assoc). appends_tac. }
  destruct (appends_cases _ _ _ Ha) as [[-> Hl]|(h1 & -> & Hl)].
  - rewrite IH by done. rewrite app_assoc. naive_solver.
  - split; [done|]. intros (-> & _ & Hl'). rewrite app_assoc, len_app in Hl'. len_facts. lia.
Qed.

(** The exact condition under which a response is accepted, and the head that
    is then in the buffer. *)
Lemma build_head_Ok {S} (r : HttpResponse S) suppress h :
  build_head r suppress = (Ok, h) <->
  response_ok r suppress /\ h = head_text r /\ len h <= kHttpMaximumResponseHeaderBytes.
Proof.
  unfold build_head, response_ok.
  destruct (Z.ltb_spec (status_code r) 100) as [H1|H1]; [split; [done|]; intros ((? & _) & _); lia|].
  destruct (Z.ltb_spec 599 (status_code r)) as [H2|H2]; [split; [done|]; intros ((? & _) & _); lia|].
  cbn [orb]. destruct (ValidReasonPhrase (reason_phrase r)); cbn [negb orb];
    [|split; [done|]; by intros ((_ & ? & _) & _)].
  destruct (Z.ltb_spec kHttpMaximumResponseHeaders (len (response_headers r))) as [H3|H3];
    [split; [done|]; intros ((_ & _ & ? & _) & _); lia|].
  destruct (bool_decide (body_kind r = BodyHeadOnly) && negb suppress) eqn:E4.
  { split; [done|]. intros ((_ & _ & _ & Hh & _) & _). zbool. apply bool_decide_eq_true in H.
    by rewrite (Hh H) in H0. }
  destruct (bool_decide (body_kind r = BodyStream) && bool_decide (stream r = None)) eqn:E5.
  { split; [done|]. intros ((_ & _ & _ & _ & Hh & _) & _). zbool. apply bool_decide_eq_true in H, H0.
    by destruct (Hh H). }
  assert (Hkinds : (body_kind r = BodyHeadOnly -> suppress = true) /\ (body_kind r = BodyStream -> stream r <> None)).
  { split; intros Hk; rewrite Hk in *.
    - by destruct suppress.
    - intros Hn. by rewrite Hn in E5. }
  clear E4 E5. set (line := str "HTTP/1.1 " ++ decimal_text (status_code r) ++ SP :: reason_phrase r ++ [CR; LF]).
  assert (Ha : appends (Append [] (str "HTTP/1.1 ") &&& (fun h => AppendUnsigned h (status_code r))
      &&& (fun h => Append h [SP]) &&& (fun h => Append h (reason_phrase r))
      &&& (fun h => Append h [CR; LF])) [] line).
  { replace line with ((((str "HTTP/1.1 " ++ decimal_text (status_code r)) ++ [SP]) ++ reason_phrase r) ++ [CR; LF])
      by (unfold line; by rewrite <- !app_assoc). appends_tac. }
  cbn [app] in Ha. set (fields := concat (map header_line (response_headers r))).
  assert (Hlen : len (head_text r) = len line + len fields + len (length_line r) + 21).
  { unfold head_text. fold fields. unfold line. rewrite !len_app, !len_cons, !len_app.
    change (len [CR; LF]) with 2. change (len (str "Connection: close")) with 17.
    change (len [CR; LF; CR; LF]) with 4. lia. }
  assert (Htext : head_text r = ((line ++ fields) ++ length_line r) ++ str "Connection: close" ++ [CR; LF; CR; LF]).
  { unfold head_text, line. fold fields. repeat (rewrite <- !app_assoc; cbn [app]). done. }
  destruct (appends_cases _ _ _ Ha) as [[-> Hl1]|(h1 & -> & Hl1)]; cbn [negb app] in *.
  2:{ split; [done|]. intros (_ & -> & Hl). rewrite Hlen in Hl. len_facts. lia. }
  destruct (append_headers (response_headers r) line) as [st h1] eqn:Eh.
  assert (Hst : st = Ok <-> Forall (fun f => header_ok f = true) (response_headers r) /\
            len (line ++ fields) <= kHttpMaximumResponseHeaderBytes).
  { pose proof (append_headers_ok (response_headers r) line (line ++ fields) Hl1) as Hx. fold fields in Hx.
    pose proof (append_headers_ok (response_headers r) line h1 Hl1) as Hy. fold fields in Hy. rewrite Eh in Hx, Hy.
    split.
    - intros ->. destruct (proj1 Hy eq_refl) as (-> & ? & ?). done.
    - intros [? ?]. assert ((st, h1) = (Ok, line ++ fields)) as [=] by tauto. done. }
  assert (Hh1 : st = Ok -> h1 = line ++ fields).
  { intros ->. by apply append_headers_ok in Eh as [-> _]. }
  destruct st; try (split; [done|]; intros ((_ & _ & _ & _ & _ & Hf) & -> & Hl);
    assert (len (line ++ fields) <= kHttpMaximumResponseHeaderBytes) by
      (rewrite Hlen in Hl; rewrite len_app; len_facts; lia); by destruct Hst as [_ Hst]; specialize (Hst (conj Hf ltac:(done)))).
  destruct (proj1 Hst eq_refl) as [Hf Hl2]. rewrite (Hh1 eq_refl). clear Hst Hh1 Eh h1.
  set (a2 := if bool_decide (body_kind r = BodyStream) then _ else _).
  assert (Ha2 : appends a2 (line ++ fields) (length_line r)).
  { unfold a2, length_line. destruct (body_kind r); cbn; try (rewrite (app_assoc (str "Content-Length: ")); by appends_tac).
    unfold appends. rewrite app_nil_r. split; [done | lia]. }
  destruct (appends_cases _ _ _ Ha2) as [[-> Hl3]|(h3 & -> & Hl3)]; cbn [negb].
  2:{ split; [done|]. intros (_ & -> & Hl). rewrite Hlen in Hl. rewrite !len_app in Hl3. len_facts. lia. }
  destruct (appends_cases _ _ _ (Append_appends ((line ++ fields) ++ length_line r)
    (str "Connection: close" ++ [CR; LF; CR; LF]))) as [[-> Hl4]|(h4 & -> & Hl4)]; cbn [negb]; rewrite <- Htext in Hl4.
  - rewrite <- Htext. split.
    + intros [= <-]. repeat split; try done; tauto.
    + by intros (_ & -> & _).
  - split; [done|]. intros (_ & -> & Hl). lia.
Qed.

(** ** Observing transport and stream *)
Module Observe.
(** A transport with the bytes it reported as accepted. *)
Record LoggedTransport (T : Type) := mkLogged { inner_transport : T; accepted : bytes }.
Arguments mkLogged {T} _ _.
Arguments inner_transport {T} _.
Arguments accepted {T} _.

#[export] Instance logged_transport {T} `{HttpTransport T} : HttpTransport (LoggedTransport T) := {
  transport_write l data :=
    let '(status, n, t) := transport_write (inner_transport l) data in
    (status, n, mkLogged t
       match status with
       | Progress => if (n =? 0)%N || (len data <? Z.of_N n) then accepted l
                     else accepted l ++ take (N.to_nat n) data
       | _ => accepted l
       end)
}.

(** A stream with the bytes it produced, whether it ended, and the number of
    its cancellations. *)
Record LoggedStream (S : Type) := mkLoggedStream {
  inner_stream : S; produced : bytes; ended : bool; cancels : nat }.
Arguments mkLoggedStream {S} _ _ _ _.
Arguments inner_stream {S} _.
Arguments produced {S} _.
Arguments ended {S} _.
Arguments cancels {S} _.

Definition logged_read {S} `{HttpResponseStream S} (l : LoggedStream S) (buffer : bytes)
    : HttpStreamReadResult * N * bytes * LoggedStream S :=
  let '(read, n, buffer', s) := stream_Read (inner_stream l) buffer in
  (read, n, buffer',
   mkLoggedStream s
     (match read with
      | Data => if (n =? 0)%N || (len buffer' <? Z.of_N n) then produced l
                else produced l ++ take (N.to_nat n) buffer'
      | _ => produced l
      end)
     (ended l || match read with End => (n =? 0)%N | _ => false end) (cancels l)).

Lemma logged_read_size {S} `{HttpResponseStream S} (l : LoggedStream S) buffer :
  len (logged_read l buffer).1.2 = len buffer.
Proof.
  unfold logged_read. pose proof (stream_Read_size (inner_stream l) buffer) as Hs.
  by destruct (stream_Read (inner_stream l) buffer) as [[[read n] b] s].
Qed.

#[export] Instance logged_stream {S} `{HttpResponseStream S} : HttpResponseStream (LoggedStream S) := {
  stream_Read := logged_read;
  stream_Cancel l :=
    mkLoggedStream (stream_Cancel (inner_stream l)) (produced l) (ended l) (Datatypes.S (cancels l));
  stream_Read_size := logged_read_size;
}.
End Observe.
Import Observe.

(** *** One write *)
Lemma take_extend (l : bytes) (a b : nat) : (a <= b)%nat ->
  take a l ++ take (b - a) (drop a l) = take b l.
Proof. intros Hab. rewrite take_drop_commute. replace (a + (b - a))%nat with b by lia.
  rewrite <- (take_drop a (take b l)) at 2. f_equal. by rewrite take_take, Nat.min_l by lia. Qed.

Lemma lt_weak a b c : a <= b < c -> a <= b <= c.
Proof. lia. Qed.

Section emission.
Context {S T : Type} `{HttpResponseStream S} `{HttpTransport T}.
Notation W := (HttpResponseWriter (S := LoggedStream S)).
Implicit Types (w : W) (t : LoggedTransport T).

Lemma WritePending_logged t data offset st offset' progress t' :
  0 <= offset <= len data -> WritePending t data offset = (st, offset', progress, t') ->
  offset <= offset' <= len data /\ st <> Complete /\ (offset' <> offset -> st = Pending) /\
  accepted t' = accepted t ++ take (Z.to_nat offset' - Z.to_nat offset) (drop (Z.to_nat offset) data).
Proof.
  intros Ho. unfold WritePending. destruct (Z.leb_spec (len data) offset).
  { intros [= <- <- _ <-]. rewrite Nat.sub_diag, app_nil_r. repeat split; try done; lia. }
  cbn [transport_write logged_transport].
  destruct (transport_write (inner_transport t) _) as [[io n] t1] eqn:Et.
  assert (Hsame : accepted t = accepted t ++ take (Z.to_nat offset - Z.to_nat offset) (drop (Z.to_nat offset) data))
    by (by rewrite Nat.sub_diag, app_nil_r).
  destruct io; try (intros [= <- <- _ <-]; repeat split; try done; try lia; by destruct (_ =? 0)).
  assert (Hd : len (drop (Z.to_nat offset) data) = len data - offset) by (unfold len in *; rewrite length_drop; lia).
  rewrite Hd. destruct (N.eqb_spec n 0) as [->|Hn]; cbn [orb].
  { intros [= <- <- _ <-]. repeat split; try done; lia. }
  rewrite (proj2 (Z.eqb_neq _ 0)) by lia. cbn [orb].
  destruct (Z.ltb_spec (len data - offset) (Z.of_N n)); intros [= <- <- _ <-].
  - repeat split; try done; lia.
  - cbn [accepted]. repeat split; try done; try lia. do 2 f_equal. lia.
Qed.

(** The body of the response as far as it is known. *)
Definition known_body w : bytes :=
  if suppress_body_ w then []
  else match body_kind (response_ w) with
       | BodyFixed => fixed_body (response_ w)
       | BodyStream => match stream (response_ w) with Some s => produced s | None => [] end
       | _ => []
       end.
Definition wire w : bytes := header_ w ++ known_body w.

(** The bytes accepted so far, state by state. *)
Definition emitted w (log : bytes) : Prop :=
  match state_ w with
  | kHeaders =>
      0 <= header_offset_ w < len (header_ w) /\ log = take (Z.to_nat (header_offset_ w)) (header_ w) /\
      fixed_offset_ w = 0 /\ stream_size_ w = 0 /\ stream_offset_ w = 0 /\
      (body_kind (response_ w) = BodyStream -> exists s, stream (response_ w) = Some s /\ produced s = [])
  | kFixedBody =>
      suppress_body_ w = false /\ body_kind (response_ w) = BodyFixed /\
      0 <= fixed_offset_ w < len (fixed_body (response_ w)) /\
      log = header_ w ++ take (Z.to_nat (fixed_offset_ w)) (fixed_body (response_ w))
  | kStreamBody =>
      suppress_body_ w = false /\ body_kind (response_ w) = BodyStream /\
      0 <= stream_offset_ w <= stream_size_ w /\ stream_size_ w <= len (stream_buffer_ w) /\
      exists s, stream (response_ w) = Some s /\
        log ++ drop (Z.to_nat (stream_offset_ w)) (take (Z.to_nat (stream_size_ w)) (stream_buffer_ w)) =
        header_ w ++ produced s
  | kComplete => log = wire w
  | kIdle | kFailed => exists rest, wire w = log ++ rest
  end.

Lemma emitted_prefix w log : emitted w log -> exists rest, wire w = log ++ rest.
Proof.
  unfold emitted, wire, known_body. destruct (state_ w); try done.
  - intros (_ & -> & _). exists (drop (Z.to_nat (header_offset_ w)) (header_ w) ++ known_body w).
    unfold known_body. by rewrite app_assoc, take_drop.
  - intros (-> & -> & _ & ->). exists (drop (Z.to_nat (fixed_offset_ w)) (fixed_body (response_ w))).
    by rewrite <- app_assoc, take_drop.
  - intros (-> & -> & _ & _ & s & -> & <-). by eexists.
  - intros ->. exists []. by rewrite app_nil_r.
Qed.

Lemma EnterBodyState_cases w :
  (EnterBodyState w = with_state w kComplete /\ (body_kind (response_ w) <> BodyStream -> known_body w = []) /\
    (body_kind (response_ w) = BodyStream -> suppress_body_ w = true)) \/
  (EnterBodyState w = with_state w kFixedBody /\ suppress_body_ w = false /\
    body_kind (response_ w) = BodyFixed /\ 0 < len (fixed_body (response_ w))) \/
  (EnterBodyState w = with_state w kStreamBody /\ suppress_body_ w = false /\
    body_kind (response_ w) = BodyStream).
Proof.
  unfold EnterBodyState, known_body. destruct (suppress_body_ w); [by left|]. cbn [orb].
  destruct (body_kind (response_ w)); cbn.
  - by left.
  - destruct (Z.eqb_spec (len (fixed_body (response_ w))) 0) as [E|E]; [left|].
    2:{ right; left. len_facts. repeat split; try done; lia. }
    split; [done|]. split; [|done]. intros _. destruct (fixed_body _); [done|]. rewrite len_cons in E. len_facts. lia.
  - by left.
  - by right; right.
Qed.

Lemma poll_headers_emitted w t : state_ w = kHeaders -> emitted w (accepted t) ->
  let '(_, _, w', t') := poll_headers w t in emitted w' (accepted t').
Proof.
  intros Hs. unfold emitted at 1. rewrite Hs. intros (Ho & Hlog & Hf & Hss & Hso & Hstr).
  unfold poll_headers.
  destruct (WritePending t (header_ w) (header_offset_ w)) as [[[st off] progress] t'] eqn:Ew.
  destruct (WritePending_logged _ _ _ _ _ _ _ (lt_weak _ _ _ Ho) Ew) as (Hoff & Hnc & Hpend & Hacc).
  rewrite Hlog, take_extend in Hacc by lia.
  assert (Hstay : off <> len (header_ w) \/ st <> Pending ->
    emitted (with_offsets w off (fixed_offset_ w) (stream_offset_ w)) (accepted t')).
  { intros Hx. assert (off < len (header_ w)).
    { destruct (Z.eq_dec off (header_offset_ w)); [lia|]. destruct Hx as [|Hx]; [lia|]. by apply Hpend in n. }
    unfold emitted, with_offsets. cbn. rewrite Hs. repeat split; try done; lia. }
  change (header_ (with_offsets w off (fixed_offset_ w) (stream_offset_ w))) with (header_ w).
  destruct st; try (apply Hstay; by right). destruct (Z.eqb_spec off (len (header_ w))) as [E|E]; [|apply Hstay; by left].
  assert (Hfull : accepted t' = header_ w).
  { rewrite Hacc, take_ge; [done|]. unfold len in E. lia. }
  set (w1 := with_offsets w off (fixed_offset_ w) (stream_offset_ w)).
  destruct (EnterBodyState_cases w1) as [(-> & Hb & Hsup)|[(-> & Hsup & Hk & Hpos)|(-> & Hsup & Hk)]];
    unfold emitted, with_state; cbn [state_].
  - unfold wire, known_body in *. cbn [header_ suppress_body_ response_ w1 with_offsets] in *. rewrite Hfull.
    destruct (decide (body_kind (response_ w) = BodyStream)) as [Hk|Hk].
    + rewrite (Hsup Hk), app_nil_r. done.
    + rewrite (Hb Hk), app_nil_r. done.
  - cbn [suppress_body_ response_ fixed_offset_ header_ w1 with_offsets] in *. rewrite Hf. cbn [Z.to_nat take].
    rewrite app_nil_r. pose proof (len_nonneg (fixed_body (response_ w))). repeat split; try done; lia.
  - cbn [suppress_body_ response_ stream_offset_ stream_size_ stream_buffer_ header_ w1 with_offsets] in *.
    rewrite Hss, Hso. destruct (Hstr Hk) as (s & -> & Hp).
    repeat split; try done; try apply len_nonneg. exists s. rewrite Hp, !app_nil_r. done.
Qed.

Lemma poll_fixed_emitted w t : state_ w = kFixedBody -> emitted w (accepted t) ->
  let '(_, _, w', t') := poll_fixed w t in emitted w' (accepted t').
Proof.
  intros Hs. unfold emitted at 1. rewrite Hs. intros (Hsup & Hk & Ho & Hlog).
  unfold poll_fixed.
  destruct (WritePending t (fixed_body (response_ w)) (fixed_offset_ w)) as [[[st off] progress] t'] eqn:Ew.
  destruct (WritePending_logged _ _ _ _ _ _ _ (lt_weak _ _ _ Ho) Ew) as (Hoff & Hnc & Hpend & Hacc).
  rewrite Hlog, <- app_assoc, take_extend in Hacc by lia.
  assert (Hstay : off <> len (fixed_body (response_ w)) \/ st <> Pending ->
    emitted (with_offsets w (header_offset_ w) off (stream_offset_ w)) (accepted t')).
  { intros Hx. assert (off < len (fixed_body (response_ w))).
    { destruct (Z.eq_dec off (fixed_offset_ w)); [lia|]. destruct Hx as [|Hx]; [lia|]. by apply Hpend in n. }
    unfold emitted, with_offsets. cbn. rewrite Hs. repeat split; try done; lia. }
  destruct st; try (apply Hstay; by right). destruct (Z.eqb_spec off (len (fixed_body (response_ w)))) as [E|E]; [|apply Hstay; by left].
  unfold emitted, wire, known_body, with_state, with_offsets. cbn. rewrite Hsup, Hk, Hacc. f_equal.
  apply take_ge. unfold len in E. lia.
Qed.

Lemma emitted_complete w log : log = wire w -> emitted (with_state w kComplete) log.
Proof. intros ->. done. Qed.

Lemma wire_with_stream w s finished cancelled : suppress_body_ w = false ->
  body_kind (response_ w) = BodyStream ->
  wire (with_stream w s finished cancelled) = header_ w ++ produced s.
Proof.
  intros Hsup Hk. unfold wire, known_body, with_stream.
  cbn [header_ suppress_body_ response_ body_kind stream]. by rewrite Hsup, Hk.
Qed.

Lemma refill_emitted w s log : state_ w = kStreamBody -> emitted w log ->
  stream (response_ w) = Some s -> stream_offset_ w = stream_size_ w ->
  len (stream_buffer_ w) = kHttpResponseStreamBufferBytes ->
  match refill w s with
  | inl (_, w') => emitted w' log
  | inr w' => state_ w' = kStreamBody /\ emitted w' log
  end.
Proof.
  intros Hs Hem Hstr Hoff Hbuf. unfold emitted in Hem. rewrite Hs in Hem.
  destruct Hem as (Hsup & Hk & Ho & Hsz & s' & Hs' & Hlog).
  rewrite Hstr in Hs'. injection Hs' as <-. rewrite Hoff in Hlog.
  rewrite drop_ge, app_nil_r in Hlog by (rewrite length_take; lia).
  unfold refill. cbn [stream_Read logged_stream]. pose proof (logged_read_size s (stream_buffer_ w)) as Hr.
  unfold logged_read in *. destruct (stream_Read (inner_stream s) _) as [[[read n] buffer] s1]. cbn in Hr.
  assert (Hkeep : emitted (with_fragment (with_stream w (mkLoggedStream s1 (produced s)
     (ended s || match read with End => (n =? 0)%N | _ => false end) (cancels s))
     (stream_finished_ w) (stream_cancelled_ w)) buffer 0) log).
  { unfold emitted, with_fragment, with_stream. cbn. rewrite Hs. repeat split; try done; try apply len_nonneg.
    eexists. split; [done|]. cbn. by rewrite app_nil_r. }
  destruct read; try exact Hkeep.
  - rewrite Hr, Hbuf. destruct (N.eqb_spec n 0) as [->|Hn]; [exact Hkeep|]. cbn [orb].
    rewrite (proj2 (Z.eqb_neq _ 0)) by lia. cbn [orb].
    destruct (Z.ltb_spec kHttpResponseStreamBufferBytes (Z.of_N n)); [exact Hkeep|].
    split; [done|]. unfold emitted, with_fragment, with_stream. cbn. rewrite Hs. repeat split; try done; try lia.
    eexists. split; [done|]. cbn. rewrite drop_0, Hlog, <- app_assoc. repeat f_equal. lia.
  - destruct (Z.eqb_spec (Z.of_N n) 0); cbn [negb]; [|exact Hkeep].
    apply emitted_complete. rewrite wire_with_stream; [exact Hlog | exact Hsup | exact Hk].
Qed.

(** The fragment buffer is the 1024-byte member throughout. *)
Definition buffer_ok w : Prop := len (stream_buffer_ w) = kHttpResponseStreamBufferBytes.

Lemma refill_buffer w s : buffer_ok w ->
  match refill w s with inl (_, w') => buffer_ok w' | inr w' => buffer_ok w' end.
Proof.
  unfold buffer_ok, refill. cbn [stream_Read logged_stream]. intros Hb.
  pose proof (logged_read_size s (stream_buffer_ w)) as Hr.
  destruct (logged_read s _) as [[[read n] buffer] s1]. cbn in Hr.
  destruct read; try (cbn; congruence); destruct (_ =? 0); cbn; try congruence.
  destruct (_ <? _); cbn; congruence.
Qed.

Lemma poll_stream_emitted w t : state_ w = kStreamBody -> buffer_ok w -> emitted w (accepted t) ->
  let '(_, _, w', t') := poll_stream w t in emitted w' (accepted t').
Proof.
  intros Hs Hb Hem. unfold poll_stream. pose proof Hem as He. unfold emitted in He. rewrite Hs in He.
  destruct He as (_ & _ & Ho & _ & s & Hstr & _). rewrite Hstr.
  assert (Hw : forall w, state_ w = kStreamBody -> emitted w (accepted t) ->
    let '(_, _, w', t') :=
      (let '(status, offset, progress, t) :=
         WritePending t (take (Z.to_nat (stream_size_ w)) (stream_buffer_ w)) (stream_offset_ w) in
       (status, progress, with_offsets w (header_offset_ w) (fixed_offset_ w) offset, t)) in
    emitted w' (accepted t')).
  { clear. intros w Hs He. unfold emitted in He. rewrite Hs in He.
    destruct He as (Hsup & Hk & Ho & Hsz & s & Hstr & Hlog).
    set (data := take (Z.to_nat (stream_size_ w)) (stream_buffer_ w)) in *.
    assert (Hd : len data = stream_size_ w) by (unfold data, len in *; rewrite length_take; lia).
    destruct (WritePending t data (stream_offset_ w)) as [[[st off] progress] t'] eqn:Ew.
    assert (Hx : 0 <= stream_offset_ w <= len data) by lia.
    destruct (WritePending_logged _ _ _ _ _ _ _ Hx Ew) as (Hoff & _ & _ & Hacc).
    unfold emitted, with_offsets. cbn [state_ suppress_body_ response_ stream_offset_ stream_size_ stream_buffer_ header_].
    rewrite Hs. fold data. split; [done|]. split; [done|]. split; [lia|]. split; [done|].
    exists s. split; [done|]. rewrite Hacc, <- Hlog, <- app_assoc. f_equal.
    rewrite <- (take_drop (Z.to_nat off - Z.to_nat (stream_offset_ w)) (drop (Z.to_nat (stream_offset_ w)) data)) at 2.
    f_equal. rewrite drop_drop. f_equal. lia. }
  destruct (Z.eqb_spec (stream_offset_ w) (stream_size_ w)) as [E|E].
  - pose proof (refill_emitted w s (accepted t) Hs Hem Hstr E Hb) as Hr.
    destruct (refill w s) as [[st w']|w']; [exact Hr|]. destruct Hr. by apply Hw.
  - by apply Hw.
Qed.

Lemma Poll_emitted w t : buffer_ok w -> emitted w (accepted t) ->
  let '(_, _, w', t') := Poll w t in emitted w' (accepted t').
Proof.
  intros Hb He. unfold Poll. destruct (state_ w) eqn:Es; try exact He.
  - by apply poll_headers_emitted.
  - by apply poll_fixed_emitted.
  - by apply poll_stream_emitted.
Qed.

Lemma Abort_wire w : wire (Abort w) = wire w /\
  (state_ (Abort w) = if bool_decide (state_ w = kComplete) then kComplete else kFailed).
Proof.
  unfold Abort, wire, known_body. destruct (stream (response_ w)) as [s|] eqn:Es.
  - destruct (_ && _ && _); cbn; destruct (bool_decide _) eqn:Eb; cbn; rewrite ?Es; split; try done;
      try (by apply bool_decide_eq_true in Eb).
  - destruct (bool_decide _) eqn:Eb; cbn; rewrite ?Es; (split; [done|]); [by apply bool_decide_eq_true in Eb | done].
Qed.

Lemma Abort_emitted w log : emitted w log -> emitted (Abort w) log.
Proof.
  intros He. destruct (Abort_wire w) as [Hw Hst]. destruct (bool_decide (state_ w = kComplete)) eqn:E.
  - apply bool_decide_eq_true in E. unfold emitted in *. rewrite Hst, Hw. by rewrite E in He.
  - pose proof (emitted_prefix _ _ He) as [rest Hp]. unfold emitted. rewrite Hst. exists rest. by rewrite Hw.
Qed.

(** The stream is cancelled at most once, and never once it has ended. *)
Definition cancel_ok w : Prop :=
  (match stream (response_ w) with
   | Some s => cancels s = (if stream_cancelled_ w then 1 else 0)%nat /\ ended s = stream_finished_ w
   | None => True
   end) /\
  (stream_cancelled_ w = true -> stream_activated_ w = true /\ stream_finished_ w = false /\ state_ w = kFailed) /\
  (stream_finished_ w = true -> state_ w = kComplete) /\
  (stream_activated_ w = true -> suppress_body_ w = false /\ body_kind (response_ w) = BodyStream) /\
  (state_ w = kComplete -> stream_activated_ w = true -> stream_finished_ w = true) /\
  (state_ w = kFailed -> stream_activated_ w = true -> stream (response_ w) <> None -> stream_cancelled_ w = true).

(** Everything but the state and the cursors. *)
Definition same_frame w w' : Prop :=
  response_ w' = response_ w /\ suppress_body_ w' = suppress_body_ w /\
  stream_activated_ w' = stream_activated_ w /\ stream_finished_ w' = stream_finished_ w /\
  stream_cancelled_ w' = stream_cancelled_ w /\ header_ w' = header_ w /\ stream_buffer_ w' = stream_buffer_ w.

Lemma poll_headers_frame w t : let '(st, _, w', _) := poll_headers w t in
  same_frame w w' /\
  (state_ w' = state_ w \/ state_ w' = kFixedBody \/ state_ w' = kStreamBody \/
   state_ w' = kComplete /\ (body_kind (response_ w) = BodyStream -> suppress_body_ w = true)).
Proof.
  unfold poll_headers. destruct (WritePending _ _ _) as [[[st off] progress] t'].
  change (header_ (with_offsets w off (fixed_offset_ w) (stream_offset_ w))) with (header_ w).
  destruct st; try (by repeat split; left). destruct (off =? len (header_ w)); [|by repeat split; left].
  destruct (EnterBodyState_cases (with_offsets w off (fixed_offset_ w) (stream_offset_ w)))
    as [(-> & _ & Hsup)|[(-> & _ & _)|(-> & _ & _)]]; repeat split; auto.
Qed.

Lemma poll_fixed_frame w t : let '(st, _, w', _) := poll_fixed w t in
  same_frame w w' /\ (state_ w' = state_ w \/ state_ w' = kComplete).
Proof.
  unfold poll_fixed. destruct (WritePending _ _ _) as [[[st off] progress] t'].
  destruct st; try (by repeat split; left). destruct (_ =? _); repeat split; auto.
Qed.

Lemma same_frame_cancel w w' : same_frame w w' -> cancel_ok w ->
  state_ w <> kComplete -> state_ w <> kFailed -> state_ w' <> kFailed ->
  (state_ w' = kComplete -> stream_activated_ w = true -> stream_finished_ w = true) -> cancel_ok w'.
Proof.
  unfold cancel_ok. intros (-> & -> & -> & -> & -> & _ & _) (H1 & H2 & H3 & H4 & H5 & H6) Hc Hf Hf' Hact.
  split; [done|]. split; [intros Hx; destruct (H2 Hx) as (_ & _ & ?); done|].
  split; [intros Hx; by apply H3 in Hx|]. split; [done|]. split; [done|]. done.
Qed.

Lemma refill_cancel w s : state_ w = kStreamBody -> stream (response_ w) = Some s ->
  cancel_ok w -> match refill w s with inl (_, w') => cancel_ok w' | inr w' => cancel_ok w' /\ state_ w' = kStreamBody end.
Proof.
  intros Hs Hstr (H1 & H2 & H3 & H4 & H5 & H6). rewrite Hstr in H1. destruct H1 as [Hc He].
  assert (Hnf : stream_finished_ w = false).
  { destruct (stream_finished_ w); [|done]. rewrite (H3 eq_refl) in Hs. done. }
  assert (Hnc : stream_cancelled_ w = false).
  { destruct (stream_cancelled_ w); [|done]. destruct (H2 eq_refl) as (_ & _ & Hx). congruence. }
  unfold refill. cbn [stream_Read logged_stream]. unfold logged_read.
  destruct (stream_Read (inner_stream s) _) as [[[read n] buffer] s1].
  rewrite Hnf, Hnc in *. rewrite He.
  assert (Hn : (Z.of_N n =? 0) = (n =? 0)%N) by (by destruct n).
  rewrite Hn. destruct read; destruct (n =? 0)%N; cbn [negb orb];
    repeat match goal with |- context [if ?b then _ else _] => destruct b end;
    unfold cancel_ok; cbn; rewrite ?Hs, ?Hc; repeat split; auto; try done; intros; try congruence;
    by destruct (H4 ltac:(assumption)).
Qed.

Lemma Poll_cancel w t : emitted w (accepted t) -> cancel_ok w -> let '(_, _, w', _) := Poll w t in cancel_ok w'.
Proof.
  intros Hem Hc. unfold Poll. destruct (state_ w) eqn:Es; try exact Hc.
  - pose proof (poll_headers_frame w t) as Hf. destruct (poll_headers w t) as [[[st pr] w'] t'].
    destruct Hf as [Hf Hst]. apply (same_frame_cancel w); try done; try congruence.
    + intuition congruence.
    + intros Hcomp Hact. destruct Hc as (_ & _ & _ & H4 & _). destruct (H4 Hact) as [Hsup Hk].
      destruct Hst as [Hst|[Hst|[Hst|[_ Hst]]]]; [congruence..|]. rewrite (Hst Hk) in Hsup. done.
  - pose proof (poll_fixed_frame w t) as Hf. destruct (poll_fixed w t) as [[[st pr] w'] t'].
    destruct Hf as [Hf Hst]. apply (same_frame_cancel w); try done; try congruence.
    + intuition congruence.
    + intros Hcomp Hact. destruct Hc as (_ & _ & _ & H4 & _). destruct (H4 Hact) as [Hsup Hk].
      unfold emitted in Hem. rewrite Es in Hem. destruct Hem as (_ & Hk' & _). congruence.
  - unfold poll_stream. destruct (stream (response_ w)) as [s|] eqn:Hstr; [|exact Hc].
    assert (Hw : forall w, state_ w = kStreamBody -> cancel_ok w -> let '(_, _, w', _) :=
      (let '(status, offset, progress, t) :=
         WritePending t (take (Z.to_nat (stream_size_ w)) (stream_buffer_ w)) (stream_offset_ w) in
       (status, progress, with_offsets w (header_offset_ w) (fixed_offset_ w) offset, t)) in cancel_ok w').
    { clear. intros w Hs Hc. destruct (WritePending _ _ _) as [[[st off] progress] t'].
      apply (same_frame_cancel w); cbn; rewrite ?Hs; done. }
    destruct (_ =? _); [|by apply Hw]. pose proof (refill_cancel w s Es Hstr Hc) as Hr.
    destruct (refill w s) as [[st w']|w']; [exact Hr|]. destruct Hr. by apply Hw.
Qed.

(** Failing a writer whose stream needs no cancellation (any more). *)
Lemma fail_cancel w : cancel_ok w -> state_ w <> kComplete ->
  (stream_activated_ w = true -> stream (response_ w) <> None -> stream_cancelled_ w = true) ->
  cancel_ok (with_state w kFailed).
Proof.
  intros (H1 & H2 & H3 & H4 & H5 & H6) Hst Hc. unfold cancel_ok, with_state.
  cbn [response_ state_ suppress_body_ stream_activated_ stream_finished_ stream_cancelled_].
  split; [done|]. split; [intros Hx; by destruct (H2 Hx) as (? & ? & _)|].
  split; [intros Hx; by apply H3 in Hx|]. split; [done|]. split; [done|]. intros _. exact Hc.
Qed.

Lemma Abort_cancel w : cancel_ok w -> cancel_ok (Abort w).
Proof.
  intros Hw. pose proof Hw as (H1 & H2 & H3 & H4 & H5 & H6). unfold Abort.
  destruct (stream (response_ w)) as [s|] eqn:Hstr.
  2:{ case_bool_decide as Eb; [done|]. apply fail_cancel; [done | done | by rewrite Hstr]. }
  destruct (stream_activated_ w && negb (stream_finished_ w) && negb (stream_cancelled_ w)) eqn:Eg.
  - zbool. assert (Hst : state_ w <> kComplete) by (intros Hst; specialize (H5 Hst ltac:(done)); congruence).
    cbn [with_stream state_]. rewrite bool_decide_eq_false_2 by done. destruct H1 as [Hc He].
    unfold cancel_ok, with_state, with_stream.
    cbn [response_ state_ suppress_body_ stream_activated_ stream_finished_ stream_cancelled_ stream body_kind].
    cbn [stream_Cancel logged_stream cancels ended].
    split; [split; [rewrite Hc; by destruct (stream_cancelled_ w) | done]|].
    split; [done|]. split; [congruence|]. split; [done|]. split; done.
  - case_bool_decide as Eb; [done|]. apply fail_cancel; [done | done |]. intros Ha _.
    rewrite Ha in Eg. destruct (stream_finished_ w) eqn:Ef; [by rewrite (H3 eq_refl) in Eb|].
    by destruct (stream_cancelled_ w).
Qed.

Lemma same_frame_buffer w w' : same_frame w w' -> buffer_ok w -> buffer_ok w'.
Proof. unfold buffer_ok. by intros (_ & _ & _ & _ & _ & _ & ->). Qed.

Lemma Poll_buffer w t : buffer_ok w -> let '(_, _, w', _) := Poll w t in buffer_ok w'.
Proof.
  intros Hb. unfold Poll. destruct (state_ w); try exact Hb.
  - pose proof (poll_headers_frame w t) as Hf. destruct (poll_headers w t) as [[[st pr] w'] t'].
    by eapply same_frame_buffer; [apply Hf|].
  - pose proof (poll_fixed_frame w t) as Hf. destruct (poll_fixed w t) as [[[st pr] w'] t'].
    by eapply same_frame_buffer; [apply Hf|].
  - unfold poll_stream. destruct (stream _) as [s|]; [|exact Hb].
    pose proof (refill_buffer w s Hb) as Hr. destruct (_ =? _).
    + destruct (refill w s) as [[st w']|w']; [exact Hr|]. by destruct (WritePending _ _ _) as [[[? ?] ?] ?].
    + by destruct (WritePending _ _ _) as [[[? ?] ?] ?].
Qed.

Lemma Abort_buffer w : buffer_ok w -> buffer_ok (Abort w).
Proof.
  unfold buffer_ok, Abort. intros Hb. destruct (stream _); [destruct (_ && _ && _)|]; by destruct (bool_decide _).
Qed.

(** The connection's use of the writer. *)
Inductive op := OpPoll | OpAbort.

Definition run_op (c : W * LoggedTransport T) (o : op) : W * LoggedTransport T :=
  match o with
  | OpPoll => let '(_, _, w, t) := Poll c.1 c.2 in (w, t)
  | OpAbort => (Abort c.1, c.2)
  end.
Definition run (w : W) (t : LoggedTransport T) (ops : list op) : W * LoggedTransport T :=
  fold_left run_op ops (w, t).

Definition writer_ok (c : W * LoggedTransport T) : Prop :=
  buffer_ok c.1 /\ emitted c.1 (accepted c.2) /\ cancel_ok c.1.

Lemma run_ok ops c : writer_ok c -> writer_ok (fold_left run_op ops c).
Proof.
  revert c. induction ops as [|o ops IH]; intros c Hc; [done|]. cbn [fold_left]. apply IH.
  destruct c as [w t], Hc as (Hb & He & Hc). cbn [fst snd] in *. destruct o; cbn [run_op fst snd].
  - pose proof (Poll_buffer w t Hb) as H1. pose proof (Poll_emitted w t Hb He) as H2.
    pose proof (Poll_cancel w t He Hc) as H3. by destruct (Poll w t) as [[[st pr] w'] t'].
  - split; [by apply Abort_buffer|]. split; [by apply Abort_emitted | by apply Abort_cancel].
Qed.

(** A response as the caller hands it over: its stream, if any, is untouched. *)
Definition fresh_stream (r : HttpResponse (LoggedStream S)) : Prop :=
  match stream r with
  | Some s => produced s = [] /\ ended s = false /\ cancels s = 0%nat
  | None => True
  end.

Lemma head_text_pos (r : HttpResponse (LoggedStream S)) : 0 < len (head_text r).
Proof. unfold head_text. rewrite len_app. change (len (str "HTTP/1.1 ")) with 9. len_facts. lia. Qed.

Lemma Start_writer_ok w0 r suppress w released t : buffer_ok w0 -> fresh_stream r ->
  accepted t = [] -> Start w0 r suppress = (Ok, w, released) ->
  writer_ok (w, t) /\ response_ok r suppress /\ response_ w = r /\ suppress_body_ w = suppress /\
  header_ w = head_text r /\ state_ w = kHeaders.
Proof.
  intros Hb Hfresh Ht. unfold Start. destruct (build_head r suppress) as [st h] eqn:Eh. intros [= -> <- _].
  apply build_head_Ok in Eh as (Hok & -> & Hlen). cbn [bool_decide]. rewrite bool_decide_eq_true_2 by done.
  split; [|done]. unfold writer_ok, fresh_stream in *. cbn [fst snd].
  assert (Hstart : forall b, buffer_ok w0 -> buffer_ok (if b : bool then Abort w0 else w0)).
  { intros [] ?; [by apply Abort_buffer | done]. }
  split; [by apply (Hstart (active w0))|]. split.
  - unfold emitted. cbn. rewrite Ht. destruct Hok as (_ & _ & _ & _ & Hs & _).
    split; [pose proof (head_text_pos r); lia|]. do 4 (split; [done|]). intros Hk.
    specialize (Hs Hk). destruct (stream r) as [s|]; [|done]. exists s. by destruct Hfresh.
  - unfold cancel_ok. cbn. split; [by destruct (stream r) as [s|]; [destruct Hfresh as (_ & -> & ->)|]|].
    do 2 (split; [done|]). split; [|done]. intros Hx. apply andb_true_iff in Hx as [Hk Hsup].
    apply bool_decide_eq_true in Hk. apply negb_true_iff in Hsup. by split.
Qed.

Lemma run_frame ops w t : let '(w', _) := run w t ops in
  suppress_body_ w' = suppress_body_ w /\ header_ w' = header_ w /\
  body_kind (response_ w') = body_kind (response_ w) /\ fixed_body (response_ w') = fixed_body (response_ w).
Proof.
  unfold run. set (c := (w, t)). change w with c.1. clearbody c. clear w t. revert c.
  induction ops as [|o ops IH]; intros c; cbn [fold_left]; [by destruct c|].
  specialize (IH (run_op c o)). destruct (fold_left _ _ _) as [w' t'].
  enough (suppress_body_ (run_op c o).1 = suppress_body_ c.1 /\ header_ (run_op c o).1 = header_ c.1 /\
    body_kind (response_ (run_op c o).1) = body_kind (response_ c.1) /\
    fixed_body (response_ (run_op c o).1) = fixed_body (response_ c.1)) as (<- & <- & <- & <-) by done.
  destruct c as [w1 t1], o; cbn [run_op fst snd].
  - unfold Poll. destruct (state_ w1); try done.
    + pose proof (poll_headers_frame w1 t1) as Hf. destruct (poll_headers w1 t1) as [[[st pr] w2] t2].
      cbn [fst]. destruct Hf as [(-> & -> & _ & _ & _ & -> & _) _]. done.
    + pose proof (poll_fixed_frame w1 t1) as Hf. destruct (poll_fixed w1 t1) as [[[st pr] w2] t2].
      cbn [fst]. destruct Hf as [(-> & -> & _ & _ & _ & -> & _) _]. done.
    + unfold poll_stream. destruct (stream (response_ w1)) as [s|]; [|done].
      assert (Hr : forall w2, (refill w1 s = inr w2 \/ exists st, refill w1 s = inl (st, w2)) ->
        suppress_body_ w2 = suppress_body_ w1 /\ header_ w2 = header_ w1 /\
        body_kind (response_ w2) = body_kind (response_ w1) /\ fixed_body (response_ w2) = fixed_body (response_ w1)).
      { unfold refill. destruct (stream_Read s (stream_buffer_ w1)) as [[[read n] b] s'].
        intros w2. destruct read; [destruct (_ || _)| |destruct (negb _)|]; intros [[= <-]|[st [= _ <-]]]; done. }
      destruct (_ =? _).
      * destruct (refill w1 s) as [[st w2]|w2].
        -- apply Hr. eauto.
        -- specialize (Hr w2 (or_introl eq_refl)). by destruct (WritePending _ _ _) as [[[? ?] ?] ?].
      * by destruct (WritePending _ _ _) as [[[? ?] ?] ?].
  - unfold Abort. destruct (stream _); [destruct (_ && _ && _)|]; by destruct (bool_decide _).
Qed.

(** C33. Whatever the transport accepts of each offer and however the stream
    delivers, the bytes accepted from an accepted response are at every moment
    a prefix of its serialized head followed by its body (the bytes produced by
    the stream so far, nothing for a suppressed body), also after [Abort]; they
    are all of them once the writer is complete. *)
Theorem HttpResponseWriter_exact w0 r suppress w released t ops :
  len (stream_buffer_ w0) = kHttpResponseStreamBufferBytes -> fresh_stream r ->
  accepted t = [] -> Start w0 r suppress = (Ok, w, released) ->
  let '(w', t') := run w t ops in
  let body := if suppress then []
              else match body_kind r with
                   | BodyFixed => fixed_body r
                   | BodyStream => match stream (response_ w') with Some s => produced s | None => [] end
                   | _ => []
                   end in
  (exists rest, head_text r ++ body = accepted t' ++ rest) /\
  (complete w' = true -> accepted t' = head_text r ++ body).
Proof.
  intros Hb Hfresh Ht Hstart.
  destruct (Start_writer_ok _ _ _ _ _ t Hb Hfresh Ht Hstart) as (Hok & _ & Hr & Hsup & Hh & _).
  pose proof (run_ok ops (w, t) Hok) as Hrun. pose proof (run_frame ops w t) as Hf. unfold run in *.
  destruct (fold_left run_op ops (w, t)) as [w' t']. destruct Hrun as (_ & He & _). cbn [fst snd] in He.
  destruct Hf as (F1 & F2 & F3 & F4). rewrite Hsup in F1. rewrite Hh in F2. rewrite Hr in F3, F4.
  assert (Hw : wire w' = head_text r ++ (if suppress then [] else match body_kind r with
      | BodyFixed => fixed_body r
      | BodyStream => match stream (response_ w') with Some s => produced s | None => [] end
      | _ => [] end)) by (unfold wire, known_body; by rewrite F1, F2, F3, F4).
  cbv zeta. rewrite <- Hw. split; [by apply emitted_prefix|].
  unfold complete. intros Hc. apply bool_decide_eq_true in Hc. unfold emitted in He. by rewrite Hc in He.
Qed.

(** Over any sequence of polls and aborts an accepted stream is cancelled
    at most once, and never after it reported its end; a writer that failed
    after accepting a stream has cancelled it. *)
Theorem HttpResponseWriter_cancels_once w0 r suppress w released t ops :
  len (stream_buffer_ w0) = kHttpResponseStreamBufferBytes -> fresh_stream r ->
  accepted t = [] -> Start w0 r suppress = (Ok, w, released) ->
  let '(w', _) := run w t ops in
  match stream (response_ w') with
  | None => True
  | Some s =>
      (cancels s <= 1)%nat /\ (ended s = true -> cancels s = 0%nat) /\
      (state_ w' = kFailed -> stream_activated_ w' = true -> cancels s = 1%nat)
  end.
Proof.
  intros Hb Hfresh Ht Hstart.
  destruct (Start_writer_ok _ _ _ _ _ t Hb Hfresh Ht Hstart) as (Hok & _).
  pose proof (run_ok ops (w, t) Hok) as Hrun. unfold run.
  destruct (fold_left run_op ops (w, t)) as [w' t']. destruct Hrun as (_ & _ & H1 & H2 & _ & _ & _ & H6).
  cbn [fst] in *. destruct (stream (response_ w')) as [s|]; [|done]. destruct H1 as [Hc He].
  destruct (stream_cancelled_ w'); rewrite Hc.
  - destruct (H2 eq_refl) as (_ & Hf & _). split; [lia|]. split; [congruence | done].
  - split; [lia|]. split; [done|]. intros Hst Ha. specialize (H6 Hst Ha ltac:(done)). done.
Qed.

(** *** Progress *)
(** A transport that accepts something of every offer. *)
Definition eager : Prop := forall (u : T) data, data <> [] ->
  exists n (u' : T), transport_write u data = (Progress, n, u') /\ 1 <= Z.of_N n <= len data.

Lemma WritePending_eager t data offset : eager -> 0 <= offset < len data ->
  exists offset' t', WritePending t data offset = (Pending, offset', true, t') /\ offset < offset' <= len data.
Proof.
  intros He Ho. unfold WritePending. rewrite (proj2 (Z.leb_gt _ _)) by lia.
  assert (Hd : len (drop (Z.to_nat offset) data) = len data - offset) by (unfold len in *; rewrite length_drop; lia).
  cbn [transport_write logged_transport].
  destruct (He (inner_transport t) (drop (Z.to_nat offset) data)) as (n & t' & -> & Hn).
  { intros Hx. rewrite Hx in Hd. change (len []) with 0 in Hd. lia. }
  rewrite (proj2 (Z.eqb_neq (Z.of_N n) 0)) by lia. rewrite (proj2 (Z.ltb_ge (len data - offset) _)) by lia.
  cbn [orb]. do 2 eexists. split; [reflexivity | lia].
Qed.

Definition buffered w : Prop :=
  (body_kind (response_ w) = BodyStream -> suppress_body_ w = true) /\
  (state_ w = kHeaders \/ state_ w = kFixedBody \/ state_ w = kComplete).

Lemma Poll_eager w t : eager -> buffered w -> emitted w (accepted t) -> state_ w <> kComplete ->
  let '(_, _, w', t') := Poll w t in len (accepted t) < len (accepted t') /\ buffered w'.
Proof.
  intros Heag [Hk Hst] Hem Hnc. unfold Poll, emitted in *. destruct (state_ w) eqn:Es; try (intuition congruence).
  - destruct Hem as (Ho & Hacc & _). pose proof (poll_headers_frame w t) as Hf. unfold poll_headers in *.
    destruct (WritePending_eager t _ _ Heag Ho) as (off & t' & Ew & Hoff). rewrite Ew in *.
    destruct (WritePending_logged _ _ _ _ _ _ _ (lt_weak _ _ _ Ho) Ew) as (_ & _ & _ & Hacc').
    rewrite Hacc, take_extend in Hacc' by lia.
    assert (Hl : len (accepted t) < len (accepted t')).
    { rewrite Hacc, Hacc'. unfold len in *. rewrite !length_take. lia. }
    destruct (off =? len _); destruct Hf as [(F1 & F2 & _) Hs']; (split; [exact Hl|]); unfold buffered; rewrite F1, F2;
      (split; [done|]); [|left; cbn; exact Es].
    destruct (EnterBodyState_cases (with_offsets w off (fixed_offset_ w) (stream_offset_ w)))
      as [(Hx & _)|[(Hx & _)|(Hx & Hsup & Hb)]]; rewrite Hx; cbn; auto.
    cbn in Hsup, Hb. specialize (Hk Hb). congruence.
  - destruct Hem as (_ & _ & Ho & Hacc). pose proof (poll_fixed_frame w t) as Hf. unfold poll_fixed in *.
    destruct (WritePending_eager t _ _ Heag Ho) as (off & t' & Ew & Hoff). rewrite Ew in *.
    destruct (WritePending_logged _ _ _ _ _ _ _ (lt_weak _ _ _ Ho) Ew) as (_ & _ & _ & Hacc').
    rewrite Hacc, <- app_assoc, take_extend in Hacc' by lia.
    assert (Hl : len (accepted t) < len (accepted t')).
    { rewrite Hacc, Hacc', !len_app. unfold len in *. rewrite !length_take. lia. }
    destruct (off =? len _); destruct Hf as [(F1 & F2 & _) Hs']; (split; [exact Hl|]); unfold buffered; rewrite F1, F2;
      (split; [done|]); cbn; auto.
Qed.

Lemma run_eager n w t : eager -> buffered w -> writer_ok (w, t) ->
  len (wire w) - len (accepted t) <= Z.of_nat n ->
  state_ (run w t (repeat OpPoll n)).1 = kComplete.
Proof.
  intros Heag. revert w t. induction n as [|n IH]; intros w t Hb Hok Hn; unfold run in *; cbn [repeat fold_left].
  - destruct Hok as (_ & He & _). cbn [fst snd] in *. destruct Hb as [_ [Hs|[Hs|Hs]]]; [| |done]; exfalso;
      unfold emitted in He; rewrite Hs in He; unfold wire in Hn; rewrite len_app in Hn.
    + destruct He as (Ho & Ha & _). rewrite Ha in Hn. pose proof (len_nonneg (known_body w)). unfold len in *. rewrite length_take in Hn. lia.
    + destruct He as (Hsup & Hk & Ho & Ha). unfold known_body in Hn. rewrite Hsup, Hk, Ha in Hn.
      rewrite len_app in Hn. unfold len in *. rewrite length_take in Hn. lia.
  - destruct (decide (state_ w = kComplete)) as [Hc|Hc].
    + assert (Hp : run_op (w, t) OpPoll = (w, t)) by (cbn [run_op fst snd]; unfold Poll; by rewrite Hc).
      rewrite Hp. clear IH Hn. induction n as [|n IHn]; [done|]. cbn [repeat fold_left]. by rewrite Hp.
    + pose proof (run_ok [OpPoll] (w, t) Hok) as Hok'. pose proof (run_frame [OpPoll] w t) as Hf.
      pose proof (Poll_eager w t Heag Hb (proj1 (proj2 Hok)) Hc) as Hp.
      unfold run in Hf. cbn [fold_left] in Hf, Hok'. destruct (run_op (w, t) OpPoll) as [w' t'] eqn:Er.
      cbn [run_op fst snd] in Er. destruct (Poll w t) as [[[st pr] w1] t1]. injection Er as <- <-.
      destruct Hp as [Hl Hb']. apply IH; [done | done |].
      destruct Hf as (F1 & F2 & F3 & F4).
      assert (Hw : wire w1 = wire w).
      { unfold wire, known_body. rewrite F1, F2, F3, F4. destruct Hb as [Hb _].
        destruct (suppress_body_ w); [done|]. destruct (body_kind (response_ w)); try done. by specialize (Hb eq_refl). }
      rewrite Hw. lia.
Qed.

(** C34. A response that is not streamed terminates: over a transport that
    accepts at least one byte of each offer, as many polls as the serialized
    response has bytes complete the writer with exactly these bytes sent. *)
Theorem HttpResponseWriter_completes w0 r suppress w released t n :
  len (stream_buffer_ w0) = kHttpResponseStreamBufferBytes -> fresh_stream r ->
  (body_kind r = BodyStream -> suppress = true) -> accepted t = [] ->
  Start w0 r suppress = (Ok, w, released) -> eager ->
  let text := head_text r ++ (if suppress then [] else match body_kind r with
                              | BodyFixed => fixed_body r | _ => [] end) in
  len text <= Z.of_nat n ->
  complete (run w t (repeat OpPoll n)).1 = true /\ accepted (run w t (repeat OpPoll n)).2 = text.
Proof.
  intros Hb Hfresh Hk Ht Hstart Heag text Hn.
  destruct (Start_writer_ok _ _ _ _ _ t Hb Hfresh Ht Hstart) as (Hok & _ & Hr & Hsup & Hh & Hs).
  assert (Hbuf : buffered w) by (unfold buffered; rewrite Hr, Hsup; split; [done | by left]).
  assert (Hwire : forall w', suppress_body_ w' = suppress -> body_kind (response_ w') = body_kind r ->
    fixed_body (response_ w') = fixed_body r -> header_ w' = head_text r -> wire w' = text).
  { intros w' E1 E2 E3 E4. unfold wire, known_body, text. rewrite E1, E2, E3, E4. destruct suppress; [done|].
    destruct (body_kind r); try done. by specialize (Hk eq_refl). }
  assert (Hc : state_ (run w t (repeat OpPoll n)).1 = kComplete).
  { apply run_eager; [done | done | done |]. rewrite (Hwire w) by (rewrite ?Hr; done). rewrite Ht.
    change (len []) with 0. lia. }
  pose proof (run_ok (repeat OpPoll n) (w, t) Hok) as (_ & He & _). fold (run w t (repeat OpPoll n)) in He.
  pose proof (run_frame (repeat OpPoll n) w t) as Hf. destruct (run w t (repeat OpPoll n)) as [w' t'].
  cbn [fst snd] in *. split; [by apply bool_decide_eq_true|]. unfold emitted in He. rewrite Hc in He. rewrite He.
  destruct Hf as (F1 & F2 & F3 & F4). apply Hwire; [by rewrite F1 | by rewrite F3, Hr | by rewrite F4, Hr | by rewrite F2].
Qed.

(** [Start] accepts exactly the well-formed responses whose head fits the
    buffer, and then holds the serialized head (whose numbers read back to the
    status and the body length); any other response leaves a failed writer
    that never writes a byte. *)
Theorem Start_accepts w0 r suppress t : 
  let '(st, w, _) := Start w0 r suppress in
  (st = Ok /\ response_ok r suppress /\ header_ w = head_text r /\
     len (head_text r) <= kHttpMaximumResponseHeaderBytes /\ state_ w = kHeaders /\
     decimal_u64 (decimal_text (status_code r)) = Some (status_code r) /\
     (len (fixed_body r) <= UINT64_MAX ->
      decimal_u64 (decimal_text (len (fixed_body r))) = Some (len (fixed_body r)))) \/
  (st <> Ok /\ ~ (response_ok r suppress /\ len (head_text r) <= kHttpMaximumResponseHeaderBytes) /\
     state_ w = kFailed /\ Poll w t = (InvalidState, false, w, t)).
Proof.
  unfold Start. destruct (build_head r suppress) as [st h] eqn:Eh.
  destruct (decide (st = Ok)) as [->|Hst].
  - left. apply build_head_Ok in Eh as (Hok & -> & Hl). do 5 (split; [done|]). split.
    + apply decimal_text_u64. destruct Hok as [? _]. unfold UINT64_MAX. lia.
    + intros Hb. apply decimal_text_u64. pose proof (len_nonneg (fixed_body r)). lia.
  - right. split; [done|]. rewrite bool_decide_eq_false_2 by done. split; [|done].
    intros [Hok Hl]. pose proof (proj2 (build_head_Ok r suppress (head_text r)) (conj Hok (conj eq_refl Hl))). congruence.
Qed.
End emission.

(** ** A transport and a stream to run the writer with *)
Module Sample.
(** Accepts at most seven bytes of an offer. *)
#[export] Instance slow_transport : HttpTransport unit := {
  transport_write _ data := (Progress, N.min 7 (N.of_nat (length data)), tt);
}.

(** Delivers its fragments one by one. *)
Definition fragments_read (s : list bytes) (buffer : bytes) : HttpStreamReadResult * N * bytes * list bytes :=
  match s with
  | [] => (End, 0%N, buffer, [])
  | f :: s' =>
      let f := take (length buffer) f in
      (Data, N.of_nat (length f), f ++ drop (length f) buffer, s')
  end.

Lemma fragments_read_size s buffer : len (fragments_read s buffer).1.2 = len buffer.
Proof.
  destruct s as [|f s]; [done|]. cbn [fragments_read fst snd]. set (g := take (length buffer) f).
  assert (length g <= length buffer)%nat by (unfold g; rewrite length_take; lia).
  unfold len. rewrite length_app, length_drop. lia.
Qed.

#[export] Instance fragments : HttpResponseStream (list bytes) := {
  stream_Read := fragments_read;
  stream_Cancel _ := [];
  stream_Read_size := fragments_read_size;
}.

Definition writer0 : HttpResponseWriter (S := LoggedStream (list bytes)) := new_writer.
Definition transport0 : LoggedTransport unit := mkLogged tt [].

Definition fixed_response : Types.HttpResponse (LoggedStream (list bytes)) :=
  SetFixedText (AddHeader (Reset 200 None) (str "Content-Type") (str "text/plain")).2
    (Some (str "hello")).
Definition stream_response : Types.HttpResponse (LoggedStream (list bytes)) :=
  SetStream (Reset 200 None) (mkLoggedStream [str "ab"; str "cde"] [] false 0).

Definition started (r : Types.HttpResponse (LoggedStream (list bytes))) :=
  (Start writer0 r false).1.2.

Lemma HttpResponseWriter_exact_witness :
  accepted (run (started stream_response) transport0 (repeat OpPoll 20)).2 =
  head_text stream_response ++ str "abcde".
Proof.
  generalize (HttpResponseWriter_exact writer0 stream_response false (started stream_response) None
    transport0 (repeat OpPoll 20) eq_refl (conj eq_refl (conj eq_refl eq_refl)) eq_refl eq_refl).
  vm_compute. intros [_ Hx]. exact (Hx eq_refl).
Defined.

Lemma HttpResponseWriter_cancels_once_witness :
  cancels <$> stream (response_ (run (started stream_response) transport0
    [OpPoll; OpAbort; OpPoll; OpAbort]).1) = Some 1%nat.
Proof.
  generalize (HttpResponseWriter_cancels_once writer0 stream_response false (started stream_response) None
    transport0 [OpPoll; OpAbort; OpPoll; OpAbort] eq_refl (conj eq_refl (conj eq_refl eq_refl)) eq_refl eq_refl).
  vm_compute. intros (_ & _ & Hx). exact (f_equal Some (Hx eq_refl eq_refl)).
Defined.

Lemma slow_eager : eager (T := unit).
Proof.
  intros u data Hd. do 2 eexists. split; [reflexivity|]. destruct data; [done|]. unfold len. cbn [length]. lia.
Qed.

Lemma HttpResponseWriter_completes_witness :
  complete (run (started fixed_response) transport0 (repeat OpPoll 100)).1 = true /\
  accepted (run (started fixed_response) transport0 (repeat OpPoll 100)).2 =
    head_text fixed_response ++ str "hello".
Proof.
  apply (HttpResponseWriter_completes writer0 fixed_response false (started fixed_response) None transport0 100);
    [reflexivity | exact I | discriminate | reflexivity | reflexivity | exact slow_eager | vm_compute; discriminate].
Defined.
End Sample.
