(* ===== verification/HttpConnection.v ===== *)
(** * One HTTP connection (src/src/remote/http_server.cpp, HttpConnection)

    The state machine that reads a request head, lets the router decide, feeds
    the body to the sink of the route and writes the response, all against an
    environment that it does not control: the transport, the body sinks and the
    completion hooks are the interface [HttpEnvironment], the router is the
    interface of HttpRouter.v.  A transport, a sink and a hook are named by what
    the connection holds of them (its pointer); their state is in the
    environment.  [Module Fuel] proves that the input loop ends; the contract the
    connection keeps is in ConnectionContract.v. *)
From S2P Require Import Prelude HttpRequest HttpRouter HttpResponseWriter.
Import Types Parser Composite.
Local Open Scope Z_scope.

Inductive HttpBodyAbortReason :=
| MissingLength | TooLarge | UnexpectedData | SinkRejected | AbortDisconnected | AbortTimeout
| AbortTransportError | AbortServerStopped.

Inductive HttpCompletionReason :=
| ResponseSent | CompletionDisconnected | CompletionTimeout | CompletionTransportError
| CompletionStreamError | CompletionServerStopped | CompletionInvalidResponse.

Definition kHttpMaximumConnections : Z := 6.
Definition kHttpConnectionReadBufferBytes : Z := 2048.

(** The virtual functions a connection calls: of its transport (named by a
    number), of body sinks (of type [K]) and of completion hooks. *)
Class HttpEnvironment (S K E : Type) := {
  env_Read : nat -> bytes -> E -> HttpIoStatus * N * bytes * E;
  env_Write : nat -> E -> bytes -> HttpIoStatus * N * E;
  env_Close : nat -> E -> E;
  sink_Write : K -> bytes -> E -> bool * E;
  sink_Reject : K -> HttpResponse S -> E -> bool * HttpResponse S * E;
  sink_Finish : K -> HttpResponse S -> E -> bool * HttpResponse S * E;
  sink_Abort : K -> HttpBodyAbortReason -> E -> E;
  hook_Complete : nat -> HttpCompletionReason -> E -> E;
  env_Read_size t buffer e : len (env_Read t buffer e).1.2 = len buffer;
}.

Record HttpServerConfig := mkConfig {
  maximum_connections : Z;
  header_timeout_ms : Z;
  body_timeout_ms : Z;
  idle_timeout_ms : Z;
  write_timeout_ms : Z;
  stream_idle_timeout_ms : Z;
}.

Definition default_config : HttpServerConfig :=
  mkConfig kHttpMaximumConnections 10000 300000 10000 10000 0.

Definition Valid (config : HttpServerConfig) : bool :=
  negb (maximum_connections config =? 0) && (maximum_connections config <=? kHttpMaximumConnections).

Module Connection.
Inductive State := kIdle | kReadingHead | kReadingBody | kWritingResponse.

#[export] Instance State_eq_dec : EqDecision State.
Proof. solve_decision. Defined.

Section connection.
Context {S K E : Type} `{HttpEnvironment S K E} `{HttpResponseStream S}.
Notation HttpResponse := (HttpResponse S).
(** The router of the server; it may change the environment. *)
Variable router : HttpRouter (S := S) (K := K) (W := E).

Record HttpConnection := mkConnection {
  active_ : bool;
  state_ : State;
  transport_ : option nat;
  config_ : HttpServerConfig;
  parser_ : HttpRequestParser;
  body_sink_ : option K;
  body_sink_ended_ : bool;
  body_remaining_ : Z;
  read_buffer_ : bytes;
  read_size_ : Z;
  read_offset_ : Z;
  writer_ : HttpResponseWriter (S := S);
  response_completion_ : option nat;
  completion_notified_ : bool;
  phase_timing_pending_ : bool;
  phase_started_ms_ : Z;
  last_progress_ms_ : Z;
}.

Definition set_state (c : HttpConnection) (v0 : State) : HttpConnection :=
  mkConnection (active_ c) v0 (transport_ c) (config_ c) (parser_ c) (body_sink_ c)
    (body_sink_ended_ c) (body_remaining_ c) (read_buffer_ c) (read_size_ c) (read_offset_ c)
    (writer_ c) (response_completion_ c) (completion_notified_ c) (phase_timing_pending_ c)
    (phase_started_ms_ c) (last_progress_ms_ c).
Definition set_ended_connection (c : HttpConnection) (v0 : bool) (v1 : State) : HttpConnection :=
  mkConnection v0 v1 (transport_ c) (config_ c) (parser_ c) (body_sink_ c) (body_sink_ended_ c)
    (body_remaining_ c) (read_buffer_ c) (read_size_ c) (read_offset_ c) (writer_ c)
    (response_completion_ c) (completion_notified_ c) (phase_timing_pending_ c)
    (phase_started_ms_ c) (last_progress_ms_ c).
Definition set_parser (c : HttpConnection) (v0 : HttpRequestParser) : HttpConnection :=
  mkConnection (active_ c) (state_ c) (transport_ c) (config_ c) v0 (body_sink_ c)
    (body_sink_ended_ c) (body_remaining_ c) (read_buffer_ c) (read_size_ c) (read_offset_ c)
    (writer_ c) (response_completion_ c) (completion_notified_ c) (phase_timing_pending_ c)
    (phase_started_ms_ c) (last_progress_ms_ c).
Definition set_sink (c : HttpConnection) (v0 : option K) (v1 : bool) : HttpConnection :=
  mkConnection (active_ c) (state_ c) (transport_ c) (config_ c) (parser_ c) v0 v1
    (body_remaining_ c) (read_buffer_ c) (read_size_ c) (read_offset_ c) (writer_ c)
    (response_completion_ c) (completion_notified_ c) (phase_timing_pending_ c)
    (phase_started_ms_ c) (last_progress_ms_ c).
Definition set_remaining (c : HttpConnection) (v0 : Z) : HttpConnection :=
  mkConnection (active_ c) (state_ c) (transport_ c) (config_ c) (parser_ c) (body_sink_ c)
    (body_sink_ended_ c) v0 (read_buffer_ c) (read_size_ c) (read_offset_ c) (writer_ c)
    (response_completion_ c) (completion_notified_ c) (phase_timing_pending_ c)
    (phase_started_ms_ c) (last_progress_ms_ c).
Definition set_read (c : HttpConnection) (v0 : bytes) (v1 : Z) (v2 : Z) : HttpConnection :=
  mkConnection (active_ c) (state_ c) (transport_ c) (config_ c) (parser_ c) (body_sink_ c)
    (body_sink_ended_ c) (body_remaining_ c) v0 v1 v2 (writer_ c) (response_completion_ c)
    (completion_notified_ c) (phase_timing_pending_ c) (phase_started_ms_ c) (last_progress_ms_ c).
Definition set_writer (c : HttpConnection) (v0 : HttpResponseWriter (S := S)) : HttpConnection :=
  mkConnection (active_ c) (state_ c) (transport_ c) (config_ c) (parser_ c) (body_sink_ c)
    (body_sink_ended_ c) (body_remaining_ c) (read_buffer_ c) (read_size_ c) (read_offset_ c) v0
    (response_completion_ c) (completion_notified_ c) (phase_timing_pending_ c)
    (phase_started_ms_ c) (last_progress_ms_ c).
Definition set_completion (c : HttpConnection) (v0 : option nat) (v1 : bool) : HttpConnection :=
  mkConnection (active_ c) (state_ c) (transport_ c) (config_ c) (parser_ c) (body_sink_ c)
    (body_sink_ended_ c) (body_remaining_ c) (read_buffer_ c) (read_size_ c) (read_offset_ c)
    (writer_ c) v0 v1 (phase_timing_pending_ c) (phase_started_ms_ c) (last_progress_ms_ c).
Definition set_pending (c : HttpConnection) (v0 : bool) : HttpConnection :=
  mkConnection (active_ c) (state_ c) (transport_ c) (config_ c) (parser_ c) (body_sink_ c)
    (body_sink_ended_ c) (body_remaining_ c) (read_buffer_ c) (read_size_ c) (read_offset_ c)
    (writer_ c) (response_completion_ c) (completion_notified_ c) v0 (phase_started_ms_ c)
    (last_progress_ms_ c).
Definition set_times (c : HttpConnection) (v0 : Z) (v1 : Z) : HttpConnection :=
  mkConnection (active_ c) (state_ c) (transport_ c) (config_ c) (parser_ c) (body_sink_ c)
    (body_sink_ended_ c) (body_remaining_ c) (read_buffer_ c) (read_size_ c) (read_offset_ c)
    (writer_ c) (response_completion_ c) (completion_notified_ c) (phase_timing_pending_ c) v0 v1.
Definition set_transport (c : HttpConnection) (v0 : option nat) : HttpConnection :=
  mkConnection (active_ c) (state_ c) v0 (config_ c) (parser_ c) (body_sink_ c)
    (body_sink_ended_ c) (body_remaining_ c) (read_buffer_ c) (read_size_ c) (read_offset_ c)
    (writer_ c) (response_completion_ c) (completion_notified_ c) (phase_timing_pending_ c)
    (phase_started_ms_ c) (last_progress_ms_ c).

Definition new_connection : HttpConnection :=
  mkConnection false kIdle None default_config (new_parser kHttpMaximumHeaderBytes) None true 0
    (repeat 0 (Z.to_nat kHttpConnectionReadBufferBytes)) 0 0 new_writer None false false 0 0.

Definition Begin (c : HttpConnection) (transport : option nat) (config : HttpServerConfig)
    (now_ms : Z) : bool * HttpConnection :=
  if active_ c || bool_decide (transport_ c <> None) || bool_decide (transport = None) ||
     negb (Valid config)
  then (false, c)
  else
    (true, mkConnection true kReadingHead transport config (Parser.Reset (parser_ c)) None true 0
             (read_buffer_ c) 0 0 (writer_ c) None false false now_ms now_ms).

Definition Expired (now_ms start_ms duration_ms : Z) : bool :=
  negb (duration_ms =? 0) && (start_ms <=? now_ms) && (duration_ms <=? now_ms - start_ms).

(** [raw_path.data == 0]: set by the parser with the (non-empty) target. *)
Definition ErrorRequest (c : HttpConnection) : option HttpRequestHead :=
  match raw_target (request_ (parser_ c)) with
  | [] => None
  | _ => Some (request_ (parser_ c))
  end.

Definition ParseError (status : HttpRequestParseStatus) : HttpServerError :=
  match status with
  | Parser.HeaderTooLarge | RequestTargetTooLong | TooManyHeaders => HttpRouter.HeaderTooLarge
  | UnsupportedMethod => MethodNotAllowed
  | UnsupportedVersion => VersionNotSupported
  | _ => BadRequest
  end.

Definition AbortBody (reason : HttpBodyAbortReason) (x : HttpConnection * E) : HttpConnection * E :=
  let '(c, e) := x in
  match body_sink_ c with
  | Some sink =>
      if negb (body_sink_ended_ c) then (set_sink c None true, sink_Abort sink reason e)
      else (set_sink c None (body_sink_ended_ c), e)
  | None => (c, e)
  end.

Definition NotifyCompletion (reason : HttpCompletionReason) (x : HttpConnection * E)
    : HttpConnection * E :=
  let '(c, e) := x in
  if completion_notified_ c then (c, e)
  else
    (set_completion c None true,
     match response_completion_ c with
     | Some hook => hook_Complete hook reason e
     | None => e
     end).

Definition Terminate (reason : HttpCompletionReason) (body_reason : HttpBodyAbortReason)
    (x : HttpConnection * E) : HttpConnection * E :=
  if negb (active_ x.1) then x
  else
    let '(c, e) := AbortBody body_reason x in
    let c := if active (writer_ c) then set_writer c (Abort (writer_ c)) else c in
    let '(c, e) := NotifyCompletion reason (c, e) in
    let e := match transport_ c with Some t => env_Close t e | None => e end in
    (set_ended_connection c false kIdle, e).

(** The response without its completion hook. *)
Definition without_completion (r : HttpResponse) : HttpResponse :=
  mkResponse (status_code r) (reason_phrase r) (response_headers r) (body_kind r) (fixed_body r)
    (declared_content_length r) (stream r) None.

(** The common end of [BeginResponse], with the writer that was started. *)
Definition response_begun (c : HttpConnection) (w : HttpResponseWriter (S := S)) : HttpConnection :=
  set_completion (set_pending (set_state (set_writer c w) kWritingResponse) true)
    (completion (response_ w)) false.

Definition BeginResponse (response : HttpResponse) (x : HttpConnection * E) : HttpConnection * E :=
  let '(c, e) := x in
  let suppress_body :=
    bool_decide (status_ (parser_ c) = Parser.Complete) &&
    bool_decide (method (request_ (parser_ c)) = Head) in
  let '(start, w, _) := Start (writer_ c) response suppress_body in
  match start with
  | Ok => (response_begun c w, e)
  | _ =>
      let c := set_writer c w in
      let e := match completion response with
               | Some hook => hook_Complete hook CompletionInvalidResponse e
               | None => e
               end in
      let '(fallback, e) := ErrorResponse router InternalError (ErrorRequest c) new_response e in
      let '(start, w, _) := Start (writer_ c) (without_completion fallback) suppress_body in
      match start with
      | Ok => (response_begun c w, e)
      | _ => Terminate CompletionInvalidResponse AbortTransportError (set_writer c w, e)
      end
  end.

Definition BeginError (error : HttpServerError) (x : HttpConnection * E) : HttpConnection * E :=
  let '(c, e) := x in
  let '(response, e) := ErrorResponse router error (ErrorRequest c) new_response e in
  BeginResponse response (c, e).

Definition FinishBody (x : HttpConnection * E) : HttpConnection * E :=
  let '(c, e) := x in
  match body_sink_ c with
  | Some sink =>
      if body_sink_ended_ c then BeginError InternalError (c, e)
      else
        let c := set_sink c None true in
        let '(ok, response, e) := sink_Finish sink new_response e in
        if negb ok then BeginError BodyRejected (c, sink_Abort sink SinkRejected e)
        else BeginResponse response (c, e)
  | None => BeginError InternalError (c, e)
  end.

Definition RejectBody (x : HttpConnection * E) : HttpConnection * E :=
  let '(c, e) := x in
  match body_sink_ c with
  | Some sink =>
      if body_sink_ended_ c then BeginError InternalError (c, e)
      else
        let c := set_sink c None true in
        let '(ok, response, e) := sink_Reject sink new_response e in
        if ok then BeginResponse response (c, e)
        else BeginError BodyRejected (c, sink_Abort sink SinkRejected e)
  | None => BeginError InternalError (c, e)
  end.

Definition RouteRequest (x : HttpConnection * E) : HttpConnection * E :=
  let '(c, e) := x in
  let '(route, e) := Route router (request_ (parser_ c)) new_result e in
  match action route, body_sink route with
  | RespondAction, _ => BeginResponse (response route) (c, e)
  | ReceiveBodyAction, Some sink =>
      let c := set_sink c (Some sink) false in
      let request := request_ (parser_ c) in
      if negb (has_content_length request)
      then BeginError LengthRequired (AbortBody MissingLength (c, e))
      else if maximum_body_bytes route <? content_length request
      then BeginError PayloadTooLarge (AbortBody TooLarge (c, e))
      else
        let c := set_pending (set_state (set_remaining c (content_length request)) kReadingBody) true in
        if body_remaining_ c =? 0 then
          if read_offset_ c <? read_size_ c
          then BeginError UnexpectedBodyData (AbortBody UnexpectedData (c, e))
          else FinishBody (c, e)
        else (c, e)
  | _, _ => BeginError InternalError (c, e)
  end.

(** The bytes between the read offset and the read size. *)
Definition unread (c : HttpConnection) : bytes :=
  sub (read_buffer_ c) (read_offset_ c) (read_size_ c - read_offset_ c).

Definition advance_read (c : HttpConnection) (n : Z) : HttpConnection :=
  set_read c (read_buffer_ c) (read_size_ c) (read_offset_ c + n).

(** A turn of the loop of [ProcessBufferedInput]; [next] are the turns after
    it. *)
Definition process_turn (next : HttpConnection * E -> HttpConnection * E) (x : HttpConnection * E)
    : HttpConnection * E :=
  let '(c, e) := x in
  if negb (active_ c && (read_offset_ c <? read_size_ c)) then x
  else match state_ c with
  | kReadingHead =>
      let '(status, consumed, p) := Feed (parser_ c) (unread c) in
      let c := advance_read (set_parser c p) consumed in
      match status with
      | NeedMoreData => (c, e)
      | Parser.Complete => next (RouteRequest (c, e))
      | _ => BeginError (ParseError status) (c, e)
      end
  | kReadingBody =>
      let available := read_size_ c - read_offset_ c in
      if body_remaining_ c <? available
      then BeginError UnexpectedBodyData (AbortBody UnexpectedData (c, e))
      else match body_sink_ c with
      | None => x
      | Some sink =>
          let '(ok, e) := sink_Write sink (unread c) e in
          let c := advance_read c available in
          if negb ok then RejectBody (c, e)
          else
            let c := set_remaining c (body_remaining_ c - available) in
            next (if body_remaining_ c =? 0 then FinishBody (c, e) else (c, e))
      end
  | _ => x
  end.

(** Every turn ends the loop or leaves the phase it was in, so the fuel counts
    phases. *)
Fixpoint process_loop (fuel : nat) (x : HttpConnection * E) : HttpConnection * E :=
  match fuel with
  | O => x
  | Datatypes.S fuel' => process_turn (process_loop fuel') x
  end.

Definition ProcessBufferedInput (x : HttpConnection * E) : HttpConnection * E :=
  let '(c, e) := process_loop 4 x in
  (if read_offset_ c =? read_size_ c then set_read c (read_buffer_ c) 0 0 else c, e).

(** The writer's view of the transport of this connection. *)
Definition as_transport (t : nat) : HttpTransport E := {| transport_write e data := env_Write t e data |}.

Definition writer_poll (c : HttpConnection) (e : E)
    : HttpResponseWriteStatus * bool * HttpConnection * E :=
  match transport_ c with
  | None => (InvalidState, false, c, e)
  | Some t =>
      let '(status, progress, w, e) := @HttpResponseWriter.Poll S E _ (as_transport t) (writer_ c) e in
      (status, progress, set_writer c w, e)
  end.

(** [transport_->Read(read_buffer_, ...)]. *)
Definition transport_read (c : HttpConnection) (e : E) : HttpIoStatus * Z * HttpConnection * E :=
  match transport_ c with
  | None => (IoError, 0, c, e)
  | Some t =>
      let '(status, n, buffer, e) := env_Read t (read_buffer_ c) e in
      (status, Z.of_N n, set_read c buffer (read_size_ c) (read_offset_ c), e)
  end.

Definition PollResponse (now_ms : Z) (x : HttpConnection * E) : bool * (HttpConnection * E) :=
  let '(c, e) := x in
  if streaming (writer_ c) && (read_offset_ c <? read_size_ c)
  then (false, Terminate CompletionTransportError UnexpectedData (c, e))
  else if has_pending_output (writer_ c) &&
          Expired now_ms (last_progress_ms_ c) (write_timeout_ms (config_ c))
  then (false, Terminate CompletionTimeout AbortTimeout (c, e))
  else if streaming (writer_ c) && negb (has_pending_output (writer_ c)) &&
          Expired now_ms (last_progress_ms_ c) (stream_idle_timeout_ms (config_ c))
  then (false, Terminate CompletionTimeout AbortTimeout (c, e))
  else
    let '(status, progress, c, e) := writer_poll c e in
    let c := if progress : bool then set_times c (phase_started_ms_ c) now_ms else c in
    (progress,
     match status with
     | Pending => (c, e)
     | WaitingForStream =>
         let '(status, size, c, e) := transport_read c e in
         match status with
         | WouldBlock =>
             if size =? 0 then (c, e)
             else Terminate CompletionTransportError AbortTransportError (c, e)
         | Closed =>
             if size =? 0 then Terminate CompletionDisconnected AbortDisconnected (c, e)
             else Terminate CompletionTransportError AbortTransportError (c, e)
         | _ => Terminate CompletionTransportError AbortTransportError (c, e)
         end
     | HttpResponseWriter.Complete => Terminate ResponseSent AbortServerStopped (c, e)
     | ClientDisconnected => Terminate CompletionDisconnected AbortDisconnected (c, e)
     | TransportError | InvalidState =>
         Terminate CompletionTransportError AbortTransportError (c, e)
     | StreamError => Terminate CompletionStreamError AbortTransportError (c, e)
     end).

Definition poll_read (now_ms : Z) (x : HttpConnection * E) : bool * (HttpConnection * E) :=
  let '(c, e) := x in
  let '(status, size, c, e) := transport_read c e in
  match status with
  | Progress =>
      if (size =? 0) || (kHttpConnectionReadBufferBytes <? size)
      then (false, Terminate CompletionTransportError AbortTransportError (c, e))
      else
        let c := set_times (set_read c (read_buffer_ c) size 0) (phase_started_ms_ c) now_ms in
        (true, ProcessBufferedInput (c, e))
  | WouldBlock =>
      (false, if negb (size =? 0) then Terminate CompletionTransportError AbortTransportError (c, e)
              else (c, e))
  | Closed => (false, Terminate CompletionDisconnected AbortDisconnected (c, e))
  | IoError => (false, Terminate CompletionTransportError AbortTransportError (c, e))
  end.

(** [Poll]: the progress flag and the new state; it returns [active_]. *)
Definition Poll (now_ms : Z) (x : HttpConnection * E) : bool * (HttpConnection * E) :=
  let '(c, e) := x in
  if negb (active_ c) then (false, x)
  else
    let c := if phase_timing_pending_ c then set_times (set_pending c false) now_ms now_ms else c in
    match state_ c with
    | kWritingResponse => PollResponse now_ms (c, e)
    | _ =>
        if bool_decide (state_ c = kReadingHead) &&
           (Expired now_ms (phase_started_ms_ c) (header_timeout_ms (config_ c)) ||
            Expired now_ms (last_progress_ms_ c) (idle_timeout_ms (config_ c)))
        then (false, BeginError RequestTimeout (c, e))
        else if bool_decide (state_ c = kReadingBody) &&
           (Expired now_ms (phase_started_ms_ c) (body_timeout_ms (config_ c)) ||
            Expired now_ms (last_progress_ms_ c) (idle_timeout_ms (config_ c)))
        then (false, BeginError RequestTimeout (AbortBody AbortTimeout (c, e)))
        else if read_offset_ c <? read_size_ c then (true, ProcessBufferedInput (c, e))
        else poll_read now_ms (c, e)
    end.

Definition Stop (x : HttpConnection * E) : HttpConnection * E :=
  Terminate CompletionServerStopped AbortServerStopped x.

Definition TakeFinishedTransport (c : HttpConnection) : option nat * HttpConnection :=
  if active_ c then (None, c) else (transport_ c, set_transport c None).
Definition writing_response (c : HttpConnection) : bool :=
  active_ c && bool_decide (state_ c = kWritingResponse).
End connection.
End Connection.

(** ** The fuel of the input loop is enough *)
Module Fuel.
Import Connection.
Section fuel.
Context {S K E : Type} `{HttpEnvironment S K E} `{HttpResponseStream S}.
Variable router : HttpRouter (S := S) (K := K) (W := E).
Implicit Types (c : HttpConnection (S := S) (K := K)) (e : E).

(** The loop has nothing more to do. *)
Definition stopped (x : HttpConnection (S := S) (K := K) * E) : Prop :=
  active_ x.1 = false \/ state_ x.1 = kWritingResponse \/ read_offset_ x.1 = read_size_ x.1.

Lemma stopped_loop n x : stopped x -> process_loop router n x = x.
Proof.
  intros Hs. destruct n, x as [c e]; cbn [process_loop]; [done|]. unfold process_turn. unfold stopped in Hs. cbn [fst] in Hs.
  destruct (active_ c); cbn [andb negb]; [|done]. destruct (Z.ltb_spec (read_offset_ c) (read_size_ c)); [|done].
  cbn [negb]. destruct Hs as [Hs|[Hs|Hs]]; [done | by rewrite Hs | lia].
Qed.

Lemma Terminate_stopped reason body_reason x : stopped (Terminate reason body_reason x).
Proof.
  left. unfold Terminate. destruct (active_ x.1) eqn:Ha; cbn [negb]; [|done].
  destruct (AbortBody body_reason x) as [c e]. by destruct (NotifyCompletion _ _) as [c2 e2].
Qed.

Lemma BeginResponse_stopped r x : stopped (BeginResponse router r x).
Proof.
  destruct x as [c e]. unfold BeginResponse. destruct (Start _ _ _) as [[st w] rel].
  destruct st; try (by right; left);
    (destruct (ErrorResponse router _ _ _ _) as [fallback e1];
     destruct (Start _ _ _) as [[st2 w2] rel2]; destruct st2; try (by right; left); apply Terminate_stopped).
Qed.

Lemma BeginError_stopped error x : stopped (BeginError router error x).
Proof.
  destruct x as [c e]. unfold BeginError. destruct (ErrorResponse router _ _ _ _). apply BeginResponse_stopped.
Qed.

Lemma FinishBody_stopped x : stopped (FinishBody router x).
Proof.
  destruct x as [c e]. unfold FinishBody. destruct (body_sink_ c) as [k|]; [|apply BeginError_stopped].
  destruct (body_sink_ended_ c); [apply BeginError_stopped|].
  destruct (sink_Finish _ _ _) as [[[] r] e1]; [apply BeginResponse_stopped | apply BeginError_stopped].
Qed.

Lemma RouteRequest_stopped x : stopped (RouteRequest router x) \/
  state_ (RouteRequest router x).1 = kReadingBody.
Proof.
  destruct x as [c e]. unfold RouteRequest. destruct (Route router _ _ _) as [route e1].
  destruct (action route); [left; apply BeginError_stopped | left; apply BeginResponse_stopped|].
  destruct (body_sink route) as [k|]; [|left; apply BeginError_stopped]. cbn zeta.
  destruct (negb _); [left; apply BeginError_stopped|].
  destruct (_ <? _); [left; apply BeginError_stopped|].
  destruct (_ =? 0); [|by right]. left.
  destruct (_ <? _); [apply BeginError_stopped | apply FinishBody_stopped].
Qed.

Lemma body_fuel n c e : state_ c = kReadingBody ->
  process_loop router (2 + n) (c, e) = process_loop router 2 (c, e).
Proof.
  intros Hst. change (process_loop router (2 + n) (c, e)) with
    (process_turn router (process_loop router (1 + n)) (c, e)).
  change (process_loop router 2 (c, e)) with (process_turn router (process_loop router 1) (c, e)).
  unfold process_turn.
  destruct (negb _); [done|]. rewrite Hst. destruct (_ <? _); [done|].
  destruct (body_sink_ c) as [k|]; [|done]. destruct (sink_Write k (unread c) e) as [[] e1]; cbn [negb]; [|done].
  assert (Hs : stopped (if body_remaining_ (set_remaining (advance_read c (read_size_ c - read_offset_ c))
      (body_remaining_ (advance_read c (read_size_ c - read_offset_ c)) - (read_size_ c - read_offset_ c))) =? 0
    then FinishBody router (set_remaining (advance_read c (read_size_ c - read_offset_ c))
      (body_remaining_ (advance_read c (read_size_ c - read_offset_ c)) - (read_size_ c - read_offset_ c)), e1)
    else (set_remaining (advance_read c (read_size_ c - read_offset_ c))
      (body_remaining_ (advance_read c (read_size_ c - read_offset_ c)) - (read_size_ c - read_offset_ c)), e1))).
  { destruct (_ =? 0); [apply FinishBody_stopped|]. right. right. cbn. lia. }
  rewrite (stopped_loop (1 + n) _ Hs). symmetry. by apply stopped_loop.
Qed.

End fuel.
End Fuel.
