(* ===== verification/ConnectionContract.v ===== *)
(** * What a connection promises to body sinks (src/src/remote/http_body_sink.h)

    The comment of [HttpBodySink] states the contract of the server: ordered
    fragments, [Finish] after exactly Content-Length bytes, [Reject] or [Abort]
    on the other paths.  [Module Observe] records the calls of a connection and
    states the contract as an automaton over the record; [Module Invariant]
    proves that every history of a connection keeps it, for every environment
    and router, and that a finished sink got exactly the body that was sent. *)
From S2P Require Import Prelude HttpRequest HttpRouter HttpResponseWriter HttpConnection.
Import Types Parser Composite.
Local Open Scope Z_scope.

(** ** Observing the calls of a connection *)
Module Observe.
Section observe.
Context {S K E : Type} `{HttpEnvironment S K E}.

Inductive event :=
| EvRead (data : bytes)
| EvRoute (request : HttpRequestHead) (offer : option (K * Z))
| EvWrite (sink : K) (data : bytes) (ok : bool)
| EvReject (sink : K) (ok : bool)
| EvFinish (sink : K) (ok : bool)
| EvAbort (sink : K) (reason : HttpBodyAbortReason)
| EvComplete (hook : nat) (reason : HttpCompletionReason)
| EvClose (transport : nat).

Record Logged := mkLogged { inner : E; trace : list event }.

Definition log (l : Logged) (e : E) (evs : list event) : Logged := mkLogged e (trace l ++ evs).

Definition logged_Read (t : nat) (buffer : bytes) (l : Logged) : HttpIoStatus * N * bytes * Logged :=
  let '(status, n, buffer', e) := env_Read t buffer (inner l) in
  (status, n, buffer',
   log l e match status with
           | Progress => if (n =? 0)%N || (len buffer <? Z.of_N n) then []
                         else [EvRead (take (N.to_nat n) buffer')]
           | _ => []
           end).

Lemma logged_Read_size t buffer l : len (logged_Read t buffer l).1.2 = len buffer.
Proof.
  unfold logged_Read. pose proof (env_Read_size t buffer (inner l)) as Hs.
  by destruct (env_Read t buffer (inner l)) as [[[st n] b] e].
Qed.

#[export] Instance logged_environment : HttpEnvironment S K Logged := {
  env_Read := logged_Read;
  env_Write t l data :=
    let '(status, n, e) := env_Write t (inner l) data in (status, n, log l e []);
  env_Close t l := log l (env_Close t (inner l)) [EvClose t];
  sink_Write k data l :=
    let '(ok, e) := sink_Write k data (inner l) in (ok, log l e [EvWrite k data ok]);
  sink_Reject k r l :=
    let '(ok, r, e) := sink_Reject k r (inner l) in (ok, r, log l e [EvReject k ok]);
  sink_Finish k r l :=
    let '(ok, r, e) := sink_Finish k r (inner l) in (ok, r, log l e [EvFinish k ok]);
  sink_Abort k reason l := log l (sink_Abort k reason (inner l)) [EvAbort k reason];
  hook_Complete hook reason l := log l (hook_Complete hook reason (inner l)) [EvComplete hook reason];
  env_Read_size := logged_Read_size;
}.

(** The router, recording the sink it offers. *)
Definition offer_of (r : HttpRouteResult (S := S) (K := K)) : option (K * Z) :=
  match action r, body_sink r with
  | ReceiveBodyAction, Some k => Some (k, maximum_body_bytes r)
  | _, _ => None
  end.

Definition logged_router (router : HttpRouter (S := S) (K := K) (W := E)) :
    HttpRouter (S := S) (K := K) (W := Logged) :=
  mkRouter
    (fun request result l =>
       let '(result, e) := Route router request result (inner l) in
       (result, log l e [EvRoute request (offer_of result)]))
    (fun error request response l =>
       let '(response, e) := ErrorResponse router error request response (inner l) in
       (response, log l e [])).

(** *** The contract of a body sink as an automaton over the recorded calls *)
Inductive sink_phase :=
| SNone
| SOpen (sink : K) (request : HttpRequestHead) (maximum : Z) (written : bytes)
| SRejecting (sink : K)
| SAborting (sink : K) (finished : option (HttpRequestHead * bytes))
| SDone (finished : option (HttpRequestHead * bytes)).

Context `{EqDecision K}.

(** The body may be written while it is announced, allowed and not exceeded. *)
Definition body_allowed (request : HttpRequestHead) (maximum : Z) (written : bytes) : bool :=
  has_content_length request && (content_length request <=? maximum) &&
  (len written <=? content_length request).

Definition sink_step (ph : sink_phase) (ev : event) : option sink_phase :=
  match ev, ph with
  | EvRead _, _ | EvComplete _ _, _ | EvClose _, _ => Some ph
  | EvRoute request None, SNone => Some (SDone None)
  | EvRoute request (Some (k, maximum)), SNone => Some (SOpen k request maximum [])
  | EvWrite k data ok, SOpen k' request maximum written =>
      if bool_decide (k = k') && body_allowed request maximum (written ++ data)
      then Some (if ok then SOpen k' request maximum (written ++ data) else SRejecting k')
      else None
  | EvReject k ok, SRejecting k' =>
      if bool_decide (k = k') then Some (if ok then SDone None else SAborting k' None) else None
  | EvFinish k ok, SOpen k' request maximum written =>
      if bool_decide (k = k') && body_allowed request maximum written &&
         (len written =? content_length request)
      then Some (if ok then SDone (Some (request, written)) else SAborting k' (Some (request, written)))
      else None
  | EvAbort k _, SOpen k' _ _ _ => if bool_decide (k = k') then Some (SDone None) else None
  | EvAbort k SinkRejected, SAborting k' finished =>
      if bool_decide (k = k') then Some (SDone finished) else None
  | _, _ => None
  end.

Definition sink_run (evs : list event) : option sink_phase :=
  foldl (fun o ev => o ≫= fun ph => sink_step ph ev) (Some SNone) evs.

(** All bytes read from the transport. *)
Definition received (evs : list event) : bytes :=
  concat (map (fun ev => match ev with EvRead data => data | _ => [] end) evs).

Lemma sink_run_app evs evs' :
  sink_run (evs ++ evs') = sink_run evs ≫= fun ph =>
    foldl (fun o ev => o ≫= fun ph => sink_step ph ev) (Some ph) evs'.
Proof.
  unfold sink_run. rewrite foldl_app. destruct (foldl _ (Some SNone) evs); [done|].
  cbn. induction evs' as [|ev evs' IH]; [done|]. exact IH.
Qed.

Lemma sink_run_snoc evs ev : sink_run (evs ++ [ev]) = sink_run evs ≫= fun ph => sink_step ph ev.
Proof. by rewrite sink_run_app. Qed.

Lemma received_app evs evs' : received (evs ++ evs') = received evs ++ received evs'.
Proof. unfold received. by rewrite map_app, concat_app. Qed.

(** Calls that say nothing about the body. *)
Definition neutral (ev : event) : Prop :=
  match ev with EvComplete _ _ | EvClose _ => True | _ => False end.

Lemma neutral_run evs evs' : Forall neutral evs' ->
  sink_run (evs ++ evs') = sink_run evs /\ received (evs ++ evs') = received evs.
Proof.
  intros Hn. rewrite received_app, sink_run_app. split.
  - destruct (sink_run evs) as [ph|]; [|done]. cbn [mbind option_bind]. revert ph.
    induction Hn as [|ev evs' Hev Hn IH]; intros ph; [done|]. cbn [foldl].
    destruct ev; try done; cbn [mbind option_bind sink_step]; apply IH.
  - assert (received evs' = []) as ->; [|by rewrite app_nil_r].
    induction Hn as [|ev evs' Hev Hn IH]; [done|]. unfold received in *. cbn [map concat]. rewrite IH. by destruct ev.
Qed.
End observe.
Arguments Logged K E : clear implicits.
Arguments event K : clear implicits.
Arguments sink_phase K : clear implicits.
End Observe.

(** ** The invariant of a connection *)
Module Invariant.
Import Connection Observe.
Section invariant.
Context {S K E : Type} `{HttpEnvironment S K E} `{HttpResponseStream S} `{EqDecision K}.
Variable router : HttpRouter (S := S) (K := K) (W := E).
Notation R := (logged_router router).
Notation C := (HttpConnection (S := S) (K := K)).
Implicit Types (c : C) (l : Logged K E) (x : C * Logged K E).

Definition quiet l l' : Prop := exists evs, trace l' = trace l ++ evs /\ Forall neutral evs.

Lemma quiet_refl l : quiet l l.
Proof. exists []. by rewrite app_nil_r. Qed.

Lemma quiet_trans l1 l2 l3 : quiet l1 l2 -> quiet l2 l3 -> quiet l1 l3.
Proof.
  intros (e1 & H1 & F1) (e2 & H2 & F2). exists (e1 ++ e2). split; [by rewrite H2, H1, app_assoc|].
  by apply Forall_app.
Qed.

Lemma quiet_log l e evs : Forall neutral evs -> quiet l (log l e evs).
Proof. intros Hn. by exists evs. Qed.

Lemma quiet_run l l' : quiet l l' ->
  sink_run (trace l') = sink_run (trace l) /\ received (trace l') = received (trace l).
Proof. intros (evs & -> & Hn). by apply neutral_run. Qed.

(** What the phases of reading leave alone. *)
Definition frame c c' : Prop :=
  read_buffer_ c' = read_buffer_ c /\ read_size_ c' = read_size_ c /\
  read_offset_ c' = read_offset_ c /\ parser_ c' = parser_ c.

(** The request has been answered or the connection closed, without a sink. *)
Definition settled c : Prop :=
  body_sink_ c = None /\ (active_ c = true -> state_ c = kWritingResponse).

Definition settles x x' : Prop := settled x'.1 /\ quiet x.2 x'.2 /\ frame x.1 x'.1.

Lemma settles_from c l c1 l1 x' : frame c c1 -> quiet l l1 -> settles (c1, l1) x' -> settles (c, l) x'.
Proof.
  intros (F1 & F2 & F3 & F4) Hq (Hs & Hq' & G1 & G2 & G3 & G4). cbn [fst snd] in *.
  split; [done|]. split; [by eapply quiet_trans|]. unfold frame. cbn [fst]. rewrite G1, G2, G3, G4. done.
Qed.

Lemma quiet_hook hook reason l : quiet l (hook_Complete hook reason l).
Proof. apply quiet_log. by repeat constructor. Qed.

Lemma quiet_close t l : quiet l (env_Close t l).
Proof. apply quiet_log. by repeat constructor. Qed.

Lemma NotifyCompletion_settled reason c l :
  let '(c', l') := NotifyCompletion reason (c, l) in
  quiet l l' /\ frame c c' /\ body_sink_ c' = body_sink_ c /\ state_ c' = state_ c /\ active_ c' = active_ c.
Proof.
  unfold NotifyCompletion. destruct (completion_notified_ c); [split; [apply quiet_refl | done]|].
  split; [|done]. destruct (response_completion_ c); [apply quiet_hook | apply quiet_refl].
Qed.

Lemma Terminate_settles reason body_reason c l : body_sink_ c = None ->
  settles (c, l) (Terminate reason body_reason (c, l)).
Proof.
  intros Hsink. unfold Terminate. cbn [fst]. destruct (active_ c) eqn:Ea; cbn [negb].
  2:{ split; [split; cbn [fst]; [done | congruence]|]. split; [apply quiet_refl | done]. }
  unfold AbortBody. rewrite Hsink. set (c1 := if active (writer_ c) then _ else c).
  assert (Hc1 : frame c c1 /\ body_sink_ c1 = None) by (unfold c1; by destruct (active (writer_ c))).
  destruct Hc1 as [F1 Hs1]. clearbody c1. pose proof (NotifyCompletion_settled reason c1 l) as Hn.
  destruct (NotifyCompletion reason (c1, l)) as [c2 l2]. destruct Hn as (Hq & F2 & Hs2 & _).
  apply (settles_from c l c1 l); [done | apply quiet_refl|].
  apply (settles_from c1 l c2 l2); [done | done|].
  split; [split; cbn [fst set_ended_connection body_sink_ active_]; [congruence | done]|].
  split; [|done]. cbn [snd]. destruct (transport_ c2); [apply quiet_close | apply quiet_refl].
Qed.

Lemma response_begun_settles c w l : body_sink_ c = None -> settles (c, l) (response_begun c w, l).
Proof. intros Hs. split; [by split|]. split; [apply quiet_refl | done]. Qed.

Lemma quiet_error error request resp l :
  quiet l (ErrorResponse R error request resp l).2.
Proof.
  cbn [logged_router ErrorResponse]. destruct (ErrorResponse router _ _ _ _) as [r e]. by apply quiet_log.
Qed.

Lemma BeginResponse_settles resp c l : body_sink_ c = None ->
  settles (c, l) (BeginResponse R resp (c, l)).
Proof.
  intros Hs. unfold BeginResponse. set (sup := _ && _). clearbody sup.
  destruct (Start (writer_ c) resp sup) as [[st w] rel].
  destruct st; try (by apply response_begun_settles);
  (set (l1 := match completion resp with Some hook => _ | None => l end);
   assert (Hq : quiet l l1) by (unfold l1; destruct (completion resp); [apply quiet_hook | apply quiet_refl]);
   clearbody l1;
   pose proof (quiet_error InternalError (ErrorRequest (set_writer c w)) new_response l1) as Hq2;
   destruct (ErrorResponse R _ _ _ l1) as [fallback l2]; cbn [snd] in Hq2;
   destruct (Start (writer_ (set_writer c w)) (without_completion fallback) sup) as [[st2 w2] rel2];
   (apply (settles_from c l (set_writer c w) l2); [done | by eapply quiet_trans|]);
   destruct st2; try (by apply response_begun_settles);
   (apply (settles_from (set_writer c w) l2 (set_writer (set_writer c w) w2) l2);
     [done | apply quiet_refl | by apply Terminate_settles])).
Qed.

Lemma BeginError_settles error c l : body_sink_ c = None ->
  settles (c, l) (BeginError R error (c, l)).
Proof.
  intros Hs. unfold BeginError. pose proof (quiet_error error (ErrorRequest c) new_response l) as Hq.
  destruct (ErrorResponse R _ _ _ l) as [resp l1]. cbn [snd] in Hq.
  apply (settles_from c l c l1); [done | done | by apply BeginResponse_settles].
Qed.

(** The text of the head and the request it denotes. *)
Definition accepted_head m t fields req : Prop :=
  wf_request t fields /\ nul_free fields /\ denotes m t fields req.

Definition finish_ok l : Prop :=
  forall req w, sink_run (trace l) = Some (SDone (Some (req, w))) ->
  exists m t fields rest, received (trace l) = request_text m t fields ++ w ++ rest /\
    accepted_head m t fields req /\ has_content_length req = true /\ content_length req = len w.

(** No sink is waiting for its end. *)
Definition closed l : Prop :=
  sink_run (trace l) = Some SNone \/ exists fin, sink_run (trace l) = Some (SDone fin).

Definition done_with c l : Prop := settled c /\ closed l /\ finish_ok l.

Lemma quiet_closed l l' : quiet l l' -> closed l /\ finish_ok l -> closed l' /\ finish_ok l'.
Proof.
  intros Hq [Hc Hf]. destruct (quiet_run _ _ Hq) as [Hr Hrec]. unfold closed, finish_ok in *.
  rewrite Hr, Hrec. done.
Qed.

Lemma settles_done c l x' : closed l /\ finish_ok l -> settles (c, l) x' ->
  done_with x'.1 x'.2 /\ frame c x'.1.
Proof.
  intros Hc (Hs & Hq & Hf). cbn [fst snd] in *. destruct (quiet_closed _ _ Hq Hc).
  split; [split; [exact Hs | by split] | exact Hf].
Qed.

Lemma step_run l e ev ph : sink_run (trace l) = Some ph ->
  sink_run (trace (log l e [ev])) = sink_step ph ev.
Proof. intros Hr. cbn [log trace]. by rewrite sink_run_snoc, Hr. Qed.

Lemma no_read_received l e evs : (forall d, EvRead d ∉ evs) ->
  received (trace (log l e evs)) = received (trace l).
Proof.
  intros Hn. cbn [log trace]. rewrite received_app. assert (received evs = []) as ->; [|by rewrite app_nil_r].
  induction evs as [|ev evs IH]; [done|]. unfold received in *. cbn [map concat].
  rewrite IH by (intros d; specialize (Hn d); set_solver). destruct ev as [d| | | | | | |]; try done.
  specialize (Hn d). set_solver.
Qed.

Definition sink_open c l k req maximum w : Prop :=
  body_sink_ c = Some k /\ body_sink_ended_ c = false /\
  sink_run (trace l) = Some (SOpen k req maximum w).

Lemma finish_ok_none l : sink_run (trace l) = Some (SDone None) -> closed l /\ finish_ok l.
Proof. intros Hr. split; [right; eauto|]. intros req w Hx. congruence. Qed.

Lemma AbortBody_open reason c l k req maximum w : sink_open c l k req maximum w ->
  let '(c', l') := AbortBody reason (c, l) in
  body_sink_ c' = None /\ frame c c' /\ active_ c' = active_ c /\ closed l' /\ finish_ok l'.
Proof.
  intros (Hs & He & Hr). unfold AbortBody. rewrite Hs, He. cbn [negb].
  do 3 (split; [done|]). apply finish_ok_none. cbn [logged_environment sink_Abort].
  rewrite (step_run _ _ _ _ Hr). destruct reason; cbn [sink_step]; by rewrite bool_decide_eq_true_2.
Qed.

(** Answering with an error after the sink was aborted. *)
Lemma abort_error reason error c l k req maximum w : sink_open c l k req maximum w ->
  let x' := BeginError R error (AbortBody reason (c, l)) in
  done_with x'.1 x'.2 /\ frame c x'.1.
Proof.
  intros Ho. pose proof (AbortBody_open reason _ _ _ _ _ _ Ho) as Ha. destruct (AbortBody reason (c, l)) as [c1 l1].
  destruct Ha as (Hs & Hf & _ & Hc). cbv zeta.
  destruct (settles_done c1 l1 _ Hc (BeginError_settles error c1 l1 Hs)) as [Hd Hf1].
  split; [done|]. unfold frame in *. destruct Hf1 as (-> & -> & -> & ->). done.
Qed.

Lemma frame_trans c1 c2 c3 : frame c1 c2 -> frame c2 c3 -> frame c1 c3.
Proof. unfold frame. intros (F1 & F2 & F3 & F4) (-> & -> & -> & ->). done. Qed.

Lemma SAborting_abort l e k fin : sink_run (trace l) = Some (SAborting k fin) ->
  sink_run (trace (log l e [EvAbort k SinkRejected])) = Some (SDone fin).
Proof. intros Hr. rewrite (step_run _ _ _ _ Hr). cbn [sink_step]. by rewrite bool_decide_eq_true_2. Qed.

Lemma FinishBody_ok c l k req maximum w m t fields :
  sink_open c l k req maximum w -> body_allowed req maximum w = true -> len w = content_length req ->
  accepted_head m t fields req -> received (trace l) = request_text m t fields ++ w ->
  let x' := FinishBody R (c, l) in done_with x'.1 x'.2 /\ frame c x'.1.
Proof.
  intros (Hs & He & Hr) Hb Hlen Hh Hrec. unfold FinishBody. rewrite Hs, He.
  cbn [logged_environment sink_Finish]. destruct (sink_Finish k _ (inner l)) as [[ok resp] e].
  set (l1 := log l e [EvFinish k ok]).
  assert (Hrec1 : received (trace l1) = request_text m t fields ++ w).
  { unfold l1. rewrite no_read_received by set_solver. done. }
  assert (Hr1 : sink_run (trace l1) = Some (if ok then SDone (Some (req, w)) else SAborting k (Some (req, w)))).
  { unfold l1. rewrite (step_run _ _ _ _ Hr). cbn [sink_step]. rewrite bool_decide_eq_true_2, Hb by done.
    by rewrite (proj2 (Z.eqb_eq _ _)). }
  clearbody l1.
  assert (Hfin : forall l2, received (trace l2) = received (trace l1) ->
    sink_run (trace l2) = Some (SDone (Some (req, w))) -> closed l2 /\ finish_ok l2).
  { intros l2 Hrec2 Hr2. split; [right; eauto|]. intros req' w' Hx. rewrite Hr2 in Hx. injection Hx as <- <-.
    exists m, t, fields, []. rewrite app_nil_r, Hrec2. split; [done|]. split; [done|].
    unfold body_allowed in Hb. zbool. done. }
  destruct ok; cbn [negb].
  - destruct (settles_done (set_sink c None true) l1 _ (Hfin l1 eq_refl Hr1)
      (BeginResponse_settles resp (set_sink c None true) l1 eq_refl)) as [Hd Hf]. done.
  - set (l2 := sink_Abort k SinkRejected l1).
    assert (Hc2 : closed l2 /\ finish_ok l2).
    { apply Hfin; [apply no_read_received; set_solver | by apply SAborting_abort]. }
    destruct (settles_done (set_sink c None true) l2 _ Hc2 (BeginError_settles BodyRejected (set_sink c None true) l2 eq_refl)) as [Hd Hf].
    done.
Qed.

Lemma RejectBody_ok c l k : body_sink_ c = Some k -> body_sink_ended_ c = false ->
  sink_run (trace l) = Some (SRejecting k) ->
  let x' := RejectBody R (c, l) in done_with x'.1 x'.2 /\ frame c x'.1.
Proof.
  intros Hs He Hr. unfold RejectBody. rewrite Hs, He.
  cbn [logged_environment sink_Reject]. destruct (sink_Reject k _ (inner l)) as [[ok resp] e].
  set (l1 := log l e [EvReject k ok]).
  assert (Hr1 : sink_run (trace l1) = Some (if ok then SDone None else SAborting k None)).
  { unfold l1. rewrite (step_run _ _ _ _ Hr). cbn [sink_step]. by rewrite bool_decide_eq_true_2. }
  clearbody l1. destruct ok.
  - by destruct (settles_done (set_sink c None true) l1 _ (finish_ok_none l1 Hr1)
      (BeginResponse_settles resp (set_sink c None true) l1 eq_refl)) as [Hd Hf].
  - set (l2 := sink_Abort k SinkRejected l1). assert (Hc2 : closed l2 /\ finish_ok l2) by (by apply finish_ok_none, SAborting_abort).
    by destruct (settles_done (set_sink c None true) l2 _ Hc2 (BeginError_settles BodyRejected (set_sink c None true) l2 eq_refl)) as [Hd Hf].
Qed.

Definition buffers_ok c : Prop :=
  len (read_buffer_ c) = kHttpConnectionReadBufferBytes /\
  0 <= read_offset_ c <= read_size_ c /\ read_size_ c <= kHttpConnectionReadBufferBytes.

Definition parser0 : HttpRequestParser := new_parser kHttpMaximumHeaderBytes.

Definition head_ok c l : Prop :=
  body_sink_ c = None /\ sink_run (trace l) = Some SNone /\
  exists fed, received (trace l) = fed ++ unread c /\
    feed_loop parser0 fed = (NeedMoreData, len fed, parser_ c).

Definition body_ok c l : Prop :=
  exists k req maximum w m t fields, sink_open c l k req maximum w /\
    accepted_head m t fields req /\ received (trace l) = request_text m t fields ++ w ++ unread c /\
    has_content_length req = true /\ content_length req <= maximum /\
    content_length req = len w + body_remaining_ c /\ 0 < body_remaining_ c.

Definition phase_ok c l : Prop :=
  if active_ c then
    match state_ c with
    | kReadingHead => head_ok c l
    | kReadingBody => body_ok c l
    | kWritingResponse => body_sink_ c = None /\ closed l /\ finish_ok l
    | kIdle => False
    end
  else closed l /\ finish_ok l.

Definition conn_ok c l : Prop := buffers_ok c /\ phase_ok c l.

Lemma done_phase c l : done_with c l -> phase_ok c l.
Proof.
  intros ((Hs & Hst) & Hc & Hf). unfold phase_ok. destruct (active_ c); [|done]. by rewrite (Hst eq_refl).
Qed.

Lemma frame_buffers c c' : frame c c' -> buffers_ok c -> buffers_ok c'.
Proof. unfold buffers_ok. by intros (-> & -> & -> & _). Qed.

Lemma frame_unread c c' : frame c c' -> unread c' = unread c.
Proof. unfold unread. by intros (-> & -> & -> & _). Qed.

Lemma done_frame_ok c c' l' : buffers_ok c -> done_with c' l' /\ frame c c' -> conn_ok c' l'.
Proof. intros Hb [Hd Hf]. split; [by eapply frame_buffers | by apply done_phase]. Qed.

Lemma unread_nil c : buffers_ok c -> read_offset_ c = read_size_ c -> unread c = [].
Proof. intros _ Ho. unfold unread, sub. rewrite Ho, Z.sub_diag. done. Qed.

Lemma len_unread c : buffers_ok c -> len (unread c) = read_size_ c - read_offset_ c.
Proof. intros (Hb & Ho & Hs). unfold unread. apply sub_length; lia. Qed.

Lemma unread_advance c n : buffers_ok c -> 0 <= n <= read_size_ c - read_offset_ c ->
  unread (advance_read c n) = drop (Z.to_nat n) (unread c).
Proof.
  intros (Hb & Ho & Hs) Hn. unfold unread, advance_read, sub. cbn [set_read read_buffer_ read_size_ read_offset_].
  rewrite skipn_firstn_comm, drop_drop. f_equal; [lia|]. f_equal. lia.
Qed.

Lemma advance_buffers c n : buffers_ok c -> 0 <= n <= read_size_ c - read_offset_ c ->
  buffers_ok (advance_read c n).
Proof. unfold buffers_ok, advance_read. cbn [set_read read_buffer_ read_size_ read_offset_]. lia. Qed.

(** Routing a request: afterwards the sink is open or the request answered. *)
Lemma RouteRequest_ok c l m t fields :
  buffers_ok c -> active_ c = true -> body_sink_ c = None -> sink_run (trace l) = Some SNone ->
  accepted_head m t fields (request_ (parser_ c)) ->
  received (trace l) = request_text m t fields ++ unread c ->
  let x' := RouteRequest R (c, l) in conn_ok x'.1 x'.2 /\ frame c x'.1.
Proof.
  intros Hb Ha Hs Hr Hh Hrec. unfold RouteRequest. cbn [logged_router Route].
  destruct (Route router _ new_result (inner l)) as [route e]. set (req := request_ (parser_ c)) in *.
  set (l1 := log l e [EvRoute req (offer_of route)]).
  assert (Hrec1 : received (trace l1) = request_text m t fields ++ unread c).
  { unfold l1. rewrite no_read_received by set_solver. done. }
  assert (Hr1 : sink_run (trace l1) = Some (match offer_of route with
    | Some (k, maximum) => SOpen k req maximum [] | None => SDone None end)).
  { unfold l1. rewrite (step_run _ _ _ _ Hr). cbn [sink_step]. by destruct (offer_of route) as [[k maximum]|]. }
  clearbody l1. unfold offer_of in Hr1.
  assert (Herr : sink_run (trace l1) = Some (SDone None) ->
    let x' := BeginError R InternalError (c, l1) in conn_ok x'.1 x'.2 /\ frame c x'.1).
  { intros Hx. cbv zeta. pose proof (settles_done c l1 _ (finish_ok_none _ Hx) (BeginError_settles InternalError c l1 Hs)) as Hd.
    split; [by apply (done_frame_ok c) | apply Hd]. }
  destruct (action route); [by apply Herr| |].
  { cbv zeta. pose proof (settles_done c l1 _ (finish_ok_none _ Hr1) (BeginResponse_settles (response route) c l1 Hs)) as Hd.
    split; [by apply (done_frame_ok c) | apply Hd]. }
  destruct (body_sink route) as [k|]; [|by apply Herr]. clear Herr. cbn zeta.
  set (c1 := set_sink c (Some k) false). assert (Hf1 : frame c c1) by done.
  assert (Ho1 : sink_open c1 l1 k req (maximum_body_bytes route) []) by done.
  assert (Hbad : forall reason error,
    let x' := BeginError R error (AbortBody reason (c1, l1)) in conn_ok x'.1 x'.2 /\ frame c x'.1).
  { intros reason error. cbv zeta. pose proof (abort_error reason error _ _ _ _ _ _ Ho1) as [Hd Hf].
    split; [by apply (done_frame_ok c1) | by eapply frame_trans]. }
  change (request_ (parser_ c1)) with req.
  destruct (has_content_length req) eqn:Ecl; cbn [negb]; [|apply Hbad].
  destruct (Z.ltb_spec (maximum_body_bytes route) (content_length req)) as [Hmax|Hmax]; [apply Hbad|].
  set (c2 := set_pending (set_state (set_remaining c1 (content_length req)) kReadingBody) true).
  assert (Hf2 : frame c c2) by done. change (body_remaining_ c2) with (content_length req).
  assert (Ho2 : sink_open c2 l1 k req (maximum_body_bytes route) []) by done.
  assert (Hcl : 0 <= content_length req).
  { destruct Hh as (_ & _ & Hden). apply denotes_length in Hden. lia. }
  destruct (Z.eqb_spec (content_length req) 0) as [E0|E0].
  - destruct (Z.ltb_spec (read_offset_ c2) (read_size_ c2)) as [Hlt|Hge].
    + pose proof (abort_error UnexpectedData UnexpectedBodyData _ _ _ _ _ _ Ho2) as [Hd Hf].
      split; [by apply (done_frame_ok c2) | by eapply frame_trans].
    + assert (Hu : unread c = []) by (apply unread_nil; [done|]; destruct Hb as (_ & ? & _); cbn in Hge; lia).
      rewrite Hu in Hrec1.
      pose proof (FinishBody_ok c2 l1 k req _ [] m t fields Ho2) as Hfin. cbv zeta in Hfin.
      destruct Hfin as [Hd Hf]; [| done | exact Hh | exact Hrec1 |].
      { unfold body_allowed. rewrite Ecl. cbn [andb]. change (len []) with 0. apply andb_true_iff. split; apply Z.leb_le; lia. }
      split; [by apply (done_frame_ok c2) | by eapply frame_trans].
  - split; [|done]. split; [done|]. unfold phase_ok. cbn [fst snd]. change (active_ c2) with (active_ c).
    change (state_ c2) with kReadingBody. rewrite Ha.
    exists k, req, (maximum_body_bytes route), [], m, t, fields. split; [done|]. split; [done|].
    split; [exact Hrec1|]. split; [done|]. split; [done|]. change (len []) with 0.
    change (body_remaining_ c2) with (content_length req). lia.
Qed.

(** *** The input loop *)
Lemma loop_idle n x : active_ x.1 && (read_offset_ x.1 <? read_size_ x.1) = false ->
  process_loop R n x = x.
Proof. intros Hx. destruct n, x as [c l]; cbn [process_loop]; [done|]. unfold process_turn. cbn [fst] in Hx. by rewrite Hx. Qed.

Lemma head_turn c l : buffers_ok c -> active_ c = true -> head_ok c l ->
  let '(status, consumed, p) := Feed (parser_ c) (unread c) in
  let c' := advance_read (set_parser c p) consumed in
  buffers_ok c' /\
  match status with
  | NeedMoreData => head_ok c' l
  | Parser.Complete => exists m t fields, accepted_head m t fields (request_ p) /\
      received (trace l) = request_text m t fields ++ unread c'
  | _ => True
  end.
Proof.
  intros Hb Ha (Hs & Hr & fed & Hrec & Hfed). pose proof (feed_loop_status parser0 _ _ _ _ eq_refl Hfed) as Hst.
  unfold Feed. rewrite Hst. pose proof (feed_loop_split parser0 fed (unread c) eq_refl) as Hsplit. rewrite Hfed in Hsplit.
  destruct (feed_loop (parser_ c) (unread c)) as [[st n] p] eqn:Ef.
  destruct (feed_loop_consumed _ _ _ _ _ Hst Ef) as (Hn & Hall & _). rewrite len_unread in Hn, Hall by done.
  assert (Hu : unread (advance_read (set_parser c p) n) = drop (Z.to_nat n) (unread c)).
  { change (unread c) with (unread (set_parser c p)). by apply unread_advance. }
  split; [by apply (advance_buffers (set_parser c p))|]. destruct st; try done.
  - split; [done|]. split; [done|]. exists (fed ++ unread c). rewrite Hu, drop_ge, app_nil_r.
    2:{ pose proof (len_unread c Hb) as Hl. unfold len in Hl. rewrite (Hall eq_refl). lia. }
    split; [done|]. rewrite Hsplit, len_app, len_unread by done. by rewrite (Hall eq_refl).
  - destruct (proj1 (feed_accepts kHttpMaximumHeaderBytes (fed ++ unread c) (len fed + n) (request_ p)))
      as (m & t & fields & rest & Hdata & Hlen & _ & Hwf & Hnul & Hden).
    { exists p. split; [exact Hsplit | done]. }
    exists m, t, fields. split; [done|]. rewrite Hrec, Hu.
    assert (Hd : drop (Z.to_nat n) (unread c) = rest).
    { assert (Hx : drop (length fed + Z.to_nat n) (fed ++ unread c) = drop (Z.to_nat n) (unread c)).
      { rewrite drop_app_ge by lia. f_equal. lia. }
      rewrite <- Hx, Hdata. assert (length fed + Z.to_nat n = length (request_text m t fields))%nat as ->
        by (unfold len in *; lia). by rewrite drop_app_length. }
    by rewrite Hd.
Qed.

Lemma body_turn c l : buffers_ok c -> body_ok c l ->
  read_size_ c - read_offset_ c <= body_remaining_ c -> read_offset_ c < read_size_ c ->
  exists k, body_sink_ c = Some k /\
  let '(ok, l') := sink_Write k (unread c) l in
  let c' := advance_read c (read_size_ c - read_offset_ c) in
  buffers_ok c' /\
  if ok : bool then
    exists req maximum w m t fields, sink_open c' l' k req maximum w /\ accepted_head m t fields req /\
      received (trace l') = request_text m t fields ++ w /\ body_allowed req maximum w = true /\
      content_length req <= maximum /\ has_content_length req = true /\
      content_length req = len w + (body_remaining_ c - (read_size_ c - read_offset_ c))
  else body_sink_ c' = Some k /\ body_sink_ended_ c' = false /\ sink_run (trace l') = Some (SRejecting k).
Proof.
  intros Hb (k & req & maximum & w & m & t & fields & (Hs & He & Hr) & Hh & Hrec & Hcl & Hmax & Hlen & Hpos) Hav Hlt.
  exists k. split; [done|]. cbn [logged_environment sink_Write].
  destruct (sink_Write k (unread c) (inner l)) as [ok e].
  set (l1 := log l e [EvWrite k (unread c) ok]).
  assert (Hrec1 : received (trace l1) = request_text m t fields ++ w ++ unread c).
  { unfold l1. rewrite no_read_received by set_solver. done. }
  assert (Hall : body_allowed req maximum (w ++ unread c) = true).
  { unfold body_allowed. rewrite Hcl, len_app, len_unread by done. cbn [andb].
    apply andb_true_iff. split; apply Z.leb_le; lia. }
  assert (Hr1 : sink_run (trace l1) = Some (if ok then SOpen k req maximum (w ++ unread c) else SRejecting k)).
  { unfold l1. rewrite (step_run _ _ _ _ Hr). cbn [sink_step]. by rewrite bool_decide_eq_true_2, Hall by done. }
  split; [apply advance_buffers; [done | lia]|]. destruct ok; [|done].
  exists req, maximum, (w ++ unread c), m, t, fields. split; [done|]. split; [done|]. split; [done|].
  split; [done|]. split; [done|]. split; [done|]. rewrite len_app, len_unread by done. lia.
Qed.

Lemma process_loop_ok fuel c l : conn_ok c l ->
  let x' := process_loop R fuel (c, l) in conn_ok x'.1 x'.2.
Proof.
  revert c l. induction fuel as [|fuel IH]; intros c l Hok; [done|]. cbn [process_loop]. unfold process_turn. cbv zeta.
  destruct Hok as [Hb Hp]. destruct (active_ c) eqn:Ha; cbn [andb negb]; [|done].
  destruct (Z.ltb_spec (read_offset_ c) (read_size_ c)) as [Hlt|Hge]; cbn [negb]; [|done].
  pose proof Hp as Hp'. unfold phase_ok in Hp'. rewrite Ha in Hp'. destruct (state_ c) eqn:Est; [done| | |done].
  - pose proof (head_turn c l Hb Ha Hp') as Ht.
    destruct (Feed (parser_ c) (unread c)) as [[st n] p]. set (c1 := advance_read (set_parser c p) n) in *.
    cbv zeta in Ht. destruct Ht as [Hb1 Ht]. destruct Hp' as (Hs & Hr & _).
    assert (Herr : forall error, let x' := BeginError R error (c1, l) in conn_ok x'.1 x'.2).
    { intros error. apply (done_frame_ok c1); [done|]. apply (settles_done c1 l); [|by apply BeginError_settles].
      split; [by left|]. intros req w Hx. congruence. }
    destruct st; try apply Herr.
    + split; [done|]. unfold phase_ok. cbn [fst snd]. change (active_ c1) with (active_ c). change (state_ c1) with (state_ c).
      by rewrite Ha, Est.
    + destruct Ht as (m & t & fields & Hh & Hrec).
      pose proof (RouteRequest_ok c1 l m t fields Hb1 Ha Hs Hr Hh Hrec) as [Hok _].
      destruct (RouteRequest R (c1, l)) as [c2 l2]. by apply IH.
  - destruct (Z.ltb_spec (body_remaining_ c) (read_size_ c - read_offset_ c)) as [Hover|Hfit].
    { destruct Hp' as (k & req & maximum & w & m & t & fields & Ho & _).
      pose proof (abort_error UnexpectedData UnexpectedBodyData _ _ _ _ _ _ Ho) as Hd.
      by apply (done_frame_ok c). }
    destruct (body_turn c l Hb Hp' Hfit Hlt) as (k & Hs & Ht). rewrite Hs.
    destruct (sink_Write k (unread c) l) as [ok l1]. set (c1 := advance_read c (read_size_ c - read_offset_ c)) in *.
    cbv zeta in Ht. destruct Ht as [Hb1 Ht]. destruct ok; cbn [negb].
    + destruct Ht as (req & maximum & w & m & t & fields & Ho & Hh & Hrec & Hall & Hmax & Hcl & Hlen).
      set (c2 := set_remaining c1 _). change (body_remaining_ c1) with (body_remaining_ c) in *.
      assert (Hu : unread c1 = []).
      { apply unread_nil; [done|]. unfold c1, advance_read. cbn [set_read read_offset_ read_size_]. lia. }
      destruct (Z.eqb_spec (body_remaining_ c2) 0) as [E0|E0].
      * cbn [c2 set_remaining body_remaining_] in E0.
        pose proof (FinishBody_ok c2 l1 k req maximum w m t fields Ho Hall ltac:(lia) Hh Hrec) as Hd.
        cbv zeta in Hd. destruct (FinishBody R (c2, l1)) as [c3 l3]. apply IH. by apply (done_frame_ok c2).
      * apply IH. split; [done|]. unfold phase_ok. cbn [fst snd]. change (active_ c2) with (active_ c).
        change (state_ c2) with (state_ c). rewrite Ha, Est. cbn [c2 set_remaining body_remaining_] in E0.
        exists k, req, maximum, w, m, t, fields. split; [done|]. split; [done|].
        change (unread c2) with (unread c1). rewrite Hu, app_nil_r. split; [done|]. split; [done|]. split; [done|].
        change (body_remaining_ c2) with (body_remaining_ c - (read_size_ c - read_offset_ c)). lia.
    + destruct Ht as (Hs1 & He1 & Hr1). pose proof (RejectBody_ok c1 l1 k Hs1 He1 Hr1) as Hd.
      by apply (done_frame_ok c1).
Qed.

Lemma reset_read_ok c l : read_offset_ c = read_size_ c -> conn_ok c l ->
  conn_ok (set_read c (read_buffer_ c) 0 0) l.
Proof.
  intros Ho [Hb Hp]. set (c' := set_read c (read_buffer_ c) 0 0).
  assert (Hb' : buffers_ok c').
  { destruct Hb as (Hb & _). split; [done|]. unfold kHttpConnectionReadBufferBytes. cbn. lia. }
  assert (Hu : unread c' = unread c) by (rewrite (unread_nil c Hb Ho); by apply unread_nil).
  split; [done|].
  unfold phase_ok, head_ok, body_ok in *. change (active_ c') with (active_ c). change (state_ c') with (state_ c).
  rewrite Hu. exact Hp.
Qed.

Lemma ProcessBufferedInput_ok c l : conn_ok c l ->
  let x' := ProcessBufferedInput R (c, l) in conn_ok x'.1 x'.2.
Proof.
  intros Hok. unfold ProcessBufferedInput. pose proof (process_loop_ok 4 c l Hok) as H1.
  destruct (process_loop R 4 (c, l)) as [c1 l1]. cbv zeta in *. cbn [fst snd] in *.
  destruct (Z.eqb_spec (read_offset_ c1) (read_size_ c1)); [by apply reset_read_ok | done].
Qed.

Lemma phase_sink c l reason : active_ c = true -> phase_ok c l ->
  let '(c', l') := AbortBody reason (c, l) in
  body_sink_ c' = None /\ frame c c' /\ active_ c' = true /\ closed l' /\ finish_ok l'.
Proof.
  intros Ha Hp. unfold phase_ok in Hp. rewrite Ha in Hp. rewrite <- Ha. destruct (state_ c); [done| | |].
  - destruct Hp as (Hs & Hr & _). unfold AbortBody. rewrite Hs. do 3 (split; [done|]).
    split; [by left|]. intros req w Hx. congruence.
  - destruct Hp as (k & req & maximum & w & m & t & fields & Ho & _). by eapply AbortBody_open.
  - destruct Hp as (Hs & Hc & Hf). unfold AbortBody. by rewrite Hs.
Qed.

Lemma AbortBody_once reason x :
  AbortBody reason (AbortBody reason x) = AbortBody reason x /\
  active_ (AbortBody reason x).1 = active_ x.1.
Proof.
  destruct x as [c l]. unfold AbortBody. destruct (body_sink_ c) as [k|] eqn:Hs; [|by rewrite Hs].
  by destruct (body_sink_ended_ c).
Qed.

Lemma Terminate_AbortBody reason body_reason x :
  Terminate reason body_reason x = Terminate reason body_reason (if active_ x.1 then AbortBody body_reason x else x).
Proof.
  destruct (active_ x.1) eqn:Ha; [|done]. destruct (AbortBody_once body_reason x) as [Hi Hact].
  unfold Terminate. rewrite Hact, Ha, Hi. done.
Qed.

Lemma Terminate_ok reason body_reason c l : conn_ok c l ->
  let x' := Terminate reason body_reason (c, l) in conn_ok x'.1 x'.2.
Proof.
  intros [Hb Hp]. cbv zeta. rewrite Terminate_AbortBody. cbn [fst]. destruct (active_ c) eqn:Ha.
  - pose proof (phase_sink c l body_reason Ha Hp) as Hs. destruct (AbortBody body_reason (c, l)) as [c1 l1].
    destruct Hs as (Hs & Hf & _ & Hc). apply (done_frame_ok c1); [by eapply frame_buffers|].
    by apply (settles_done c1 l1), Terminate_settles.
  - unfold Terminate. cbn [fst]. rewrite Ha. done.
Qed.

(** Reading while no unread bytes remain. *)
Lemma closed_read l e data : closed l -> finish_ok l ->
  closed (log l e [EvRead data]) /\ finish_ok (log l e [EvRead data]).
Proof.
  intros Hc Hf. assert (Hr : sink_run (trace (log l e [EvRead data])) = sink_run (trace l)).
  { cbn [log trace]. rewrite sink_run_snoc. by destruct (sink_run (trace l)). }
  unfold closed, finish_ok in *. rewrite Hr. split; [done|]. intros req w Hx.
  destruct (Hf req w Hx) as (m & t & fields & rest & Hrec & ?). exists m, t, fields, (rest ++ data).
  split; [|done]. cbn [log trace]. rewrite received_app, Hrec. unfold received. cbn [map concat].
  rewrite app_nil_r. by rewrite <- !app_assoc.
Qed.

Lemma log_nil_phase c l e : phase_ok c l -> phase_ok c (log l e []).
Proof.
  unfold phase_ok, head_ok, body_ok, sink_open, closed, finish_ok. cbn [log trace]. by rewrite app_nil_r.
Qed.

Lemma transport_read_ok c l : conn_ok c l ->
  (active_ c = true -> state_ c <> kWritingResponse -> unread c = []) ->
  let '(status, size, c', l') := transport_read c l in
  active_ c' = active_ c /\ state_ c' = state_ c /\
  (status <> Progress \/ state_ c = kWritingResponse -> conn_ok c' l') /\
  (0 <= size /\ (size = 0 \/ kHttpConnectionReadBufferBytes < size -> conn_ok c' l')) /\
  (status = Progress -> 0 < size <= kHttpConnectionReadBufferBytes ->
   conn_ok (set_read c' (read_buffer_ c') size 0) l').
Proof.
  intros [Hb Hp] Hu. unfold transport_read. destruct (transport_ c) as [t|].
  2:{ do 2 (split; [done|]). split; [done|]. split; [done|]. done. }
  cbn [logged_environment env_Read]. unfold logged_Read.
  pose proof (env_Read_size t (read_buffer_ c) (inner l)) as Hsz.
  destruct (env_Read t (read_buffer_ c) (inner l)) as [[[status n] buffer] e]. cbn [fst snd] in Hsz.
  destruct Hb as (Hbl & Ho & Hs). rewrite Hbl in *.
  set (c' := set_read c buffer (read_size_ c) (read_offset_ c)).
  assert (Hb' : buffers_ok c') by (split; [exact Hsz | done]).
  assert (Hph : phase_ok c' l).
  { unfold phase_ok, head_ok, body_ok in *. change (active_ c') with (active_ c). change (state_ c') with (state_ c).
    destruct (active_ c) eqn:Ha; [|exact Hp]. destruct (state_ c) eqn:Est; try exact Hp.
    all: assert (Hun : unread c' = unread c) by
      (rewrite Hu by done; pose proof (len_unread c (conj Hbl (conj Ho Hs))) as Hl; rewrite Hu in Hl by done;
       change (len []) with 0 in Hl; apply unread_nil; [done|]; cbn; lia).
    all: rewrite Hun; exact Hp. }
  do 2 (split; [done|]). split; [|split; [split; [lia|]|]].
  - intros Hst. split; [done|]. destruct status; try (by apply log_nil_phase).
    destruct Hst as [Hst|Hst]; [done|]. destruct (_ || _); [by apply log_nil_phase|].
    unfold phase_ok in *. change (active_ c') with (active_ c) in *. change (state_ c') with (state_ c) in *.
    rewrite Hst in *. destruct (active_ c); [destruct Hph as (? & ? & ?); split; [done|]|destruct Hph]; by apply closed_read.
  - intros Hn. split; [done|]. destruct status; try (by apply log_nil_phase).
    destruct (N.eqb_spec n 0); cbn [orb]; [by apply log_nil_phase|].
    rewrite (proj2 (Z.ltb_lt _ _)) by lia. by apply log_nil_phase.
  - intros -> Hn. destruct (N.eqb_spec n 0); [lia|]. rewrite (proj2 (Z.ltb_ge _ _)) by lia. cbn [orb].
    set (c2 := set_read c' (read_buffer_ c') (Z.of_N n) 0). set (data := take (N.to_nat n) buffer).
    assert (Hu2 : unread c2 = data).
    { unfold unread, c2, data, sub. cbn. f_equal; lia. }
    split; [unfold buffers_ok, c2; cbn; split; [done | lia]|].
    unfold phase_ok in *. change (active_ c2) with (active_ c). change (state_ c2) with (state_ c).
    change (active_ c') with (active_ c) in Hph. change (state_ c') with (state_ c) in Hph.
    destruct (active_ c) eqn:Ha; [|destruct Hp; by apply closed_read].
    assert (Hun : state_ c <> kWritingResponse -> unread c' = []).
    { intros Hst. pose proof (len_unread c (conj Hbl (conj Ho Hs))) as Hl. rewrite Hu in Hl by done.
      change (len []) with 0 in Hl. apply unread_nil; [done|]; cbn; lia. }
    assert (Hrec : received (trace (log l e [EvRead data])) = received (trace l) ++ data).
    { cbn [log trace]. rewrite received_app. unfold received at 2. cbn [map concat]. by rewrite app_nil_r. }
    assert (Hrun : sink_run (trace (log l e [EvRead data])) = sink_run (trace l)).
    { cbn [log trace]. rewrite sink_run_snoc. by destruct (sink_run (trace l)). }
    destruct (state_ c) eqn:Est; [done| | |].
    + destruct Hph as (Hs0 & Hr & fed & Hf1 & Hf2). split; [done|]. rewrite Hrun. split; [done|].
      exists fed. rewrite Hrec, Hf1, Hun, Hu2 by done. by rewrite app_nil_r.
    + destruct Hph as (k & req & maximum & w & m & t' & fields & (Ho1 & Ho2 & Ho3) & Hh & Hf1 & Hrest).
      exists k, req, maximum, w, m, t', fields. split; [split; [done|]; split; [done|]; by rewrite Hrun|].
      split; [done|]. split; [|done]. rewrite Hrec, Hf1, Hun, Hu2 by done. rewrite app_nil_r. by rewrite <- app_assoc.
    + destruct Hph as (Hs0 & Hc & Hf). split; [done|]. by apply closed_read.
Qed.

Lemma writing_ok c c' l l' : conn_ok c l -> frame c c' -> quiet l l' ->
  active_ c' = active_ c -> state_ c' = state_ c -> body_sink_ c' = body_sink_ c ->
  (active_ c = true -> state_ c = kWritingResponse) -> conn_ok c' l'.
Proof.
  intros [Hb Hp] Hf Hq Ha Hst Hs Hw. split; [by eapply frame_buffers|]. unfold phase_ok in *. rewrite Ha, Hst, Hs.
  destruct (active_ c); [|by eapply quiet_closed]. rewrite (Hw eq_refl) in *.
  destruct Hp as (? & Hc). split; [done|]. by eapply quiet_closed.
Qed.

Lemma writer_poll_ok c l : conn_ok c l -> state_ c = kWritingResponse ->
  let '(_, _, c', l') := writer_poll c l in
  conn_ok c' l' /\ active_ c' = active_ c /\ state_ c' = kWritingResponse.
Proof.
  intros Hok Hst. unfold writer_poll. destruct (transport_ c) as [t|]; [|done].
  pose proof (Poll_transport (H0 := as_transport t) (writer_ c) l) as Hp.
  destruct (HttpResponseWriter.Poll (writer_ c) l) as [[[status progress] w] l'].
  split; [|done]. apply (writing_ok c _ l); try done.
  destruct Hp as [->|[data ->]]; [apply quiet_refl|]. cbn [as_transport transport_write logged_environment env_Write].
  destruct (env_Write t (inner l) data) as [[io n] e]. by apply quiet_log.
Qed.

Lemma set_times_ok c l a b : conn_ok c l -> conn_ok (set_times c a b) l.
Proof. done. Qed.

Lemma set_pending_ok c l b : conn_ok c l -> conn_ok (set_pending c b) l.
Proof. done. Qed.

Lemma PollResponse_ok now c l : conn_ok c l -> state_ c = kWritingResponse ->
  let x' := (PollResponse now (c, l)).2 in conn_ok x'.1 x'.2.
Proof.
  intros Hok Hst. unfold PollResponse.
  destruct (_ && (read_offset_ c <? read_size_ c)); [by apply Terminate_ok|].
  destruct (has_pending_output (writer_ c) && _); [by apply Terminate_ok|].
  destruct (_ && _ && _); [by apply Terminate_ok|].
  pose proof (writer_poll_ok c l Hok Hst) as Hp. destruct (writer_poll c l) as [[[status progress] c1] l1].
  destruct Hp as (Hok1 & Ha1 & Hst1). cbn [snd].
  set (c2 := if progress then set_times c1 (phase_started_ms_ c1) now else c1).
  assert (Hok2 : conn_ok c2 l1 /\ state_ c2 = kWritingResponse) by (unfold c2; by destruct progress).
  clearbody c2. destruct Hok2 as [Hok2 Hst2]. destruct status; try (by apply Terminate_ok); [done|].
  pose proof (transport_read_ok c2 l1 Hok2 ltac:(congruence)) as Hr.
  destruct (transport_read c2 l1) as [[[io size] c3] l3]. destruct Hr as (Ha3 & Hst3 & Hr1 & Hr2 & Hr3).
  specialize (Hr1 (or_intror Hst2)).
  destruct io; try (by apply Terminate_ok); destruct (size =? 0); try done; by apply Terminate_ok.
Qed.

Lemma poll_read_ok now c l : conn_ok c l -> read_offset_ c = read_size_ c ->
  let x' := (poll_read R now (c, l)).2 in conn_ok x'.1 x'.2.
Proof.
  intros Hok Ho. unfold poll_read.
  pose proof (transport_read_ok c l Hok (fun _ _ => unread_nil c (proj1 Hok) Ho)) as Hr.
  destruct (transport_read c l) as [[[io size] c1] l1]. destruct Hr as (_ & _ & Hr1 & (Hpos & Hr2) & Hr3).
  destruct io; cbn [snd]; try (apply Terminate_ok, Hr1; by left).
  - destruct (Z.eqb_spec size 0) as [E0|E0]; [by apply Terminate_ok, Hr2; left|]. cbn [orb].
    destruct (Z.ltb_spec kHttpConnectionReadBufferBytes size) as [Hgt|Hle]; [by apply Terminate_ok, Hr2; right|].
    cbn [snd]. apply ProcessBufferedInput_ok, set_times_ok, Hr3; [done | lia].
  - destruct (size =? 0); cbn [negb]; [apply Hr1; by left|]. apply Terminate_ok, Hr1. by left.
Qed.

Lemma phase_error now_reason error c l : active_ c = true -> conn_ok c l ->
  let x' := BeginError R error (AbortBody now_reason (c, l)) in conn_ok x'.1 x'.2.
Proof.
  intros Ha [Hb Hp]. pose proof (phase_sink c l now_reason Ha Hp) as Hs.
  destruct (AbortBody now_reason (c, l)) as [c1 l1]. destruct Hs as (Hs & Hf & _ & Hc).
  apply (done_frame_ok c1); [by eapply frame_buffers|]. by apply (settles_done c1 l1), BeginError_settles.
Qed.

Lemma Poll_ok now c l : conn_ok c l -> let x' := (Poll R now (c, l)).2 in conn_ok x'.1 x'.2.
Proof.
  intros Hok. unfold Poll. destruct (active_ c) eqn:Ha; cbn [negb]; [|done].
  set (c1 := if phase_timing_pending_ c then _ else c).
  assert (Hok1 : conn_ok c1 l /\ active_ c1 = true) by (unfold c1; by destruct (phase_timing_pending_ c)).
  clearbody c1. destruct Hok1 as [Hok1 Ha1]. pose proof Hok1 as [Hb1 Hp1].
  assert (Hread : let x' := (if read_offset_ c1 <? read_size_ c1
      then (true, ProcessBufferedInput R (c1, l)) else poll_read R now (c1, l)).2 in conn_ok x'.1 x'.2).
  { destruct (Z.ltb_spec (read_offset_ c1) (read_size_ c1)); [by apply ProcessBufferedInput_ok|].
    apply poll_read_ok; [done|]. destruct Hb1 as (_ & ? & _). lia. }
  destruct (state_ c1) eqn:Est.
  - unfold phase_ok in Hp1. by rewrite Ha1, Est in Hp1.
  - rewrite bool_decide_eq_true_2 by done. cbn [andb].
    destruct (_ || _); [|rewrite bool_decide_eq_false_2 by done; exact Hread].
    pose proof (phase_error AbortTimeout RequestTimeout c1 l Ha1 Hok1) as He.
    unfold phase_ok in Hp1. rewrite Ha1, Est in Hp1. destruct Hp1 as (Hs & _).
    unfold AbortBody in He. by rewrite Hs in He.
  - rewrite bool_decide_eq_false_2 by done. rewrite bool_decide_eq_true_2 by done. cbn [andb].
    destruct (_ || _); [by apply phase_error | exact Hread].
  - by apply PollResponse_ok.
Qed.

(** *** Histories *)
Inductive step := StepPoll (now_ms : Z) | StepStop.

Definition run_step x (s : step) : C * Logged K E :=
  match s with
  | StepPoll now => (Poll R now x).2
  | StepStop => Stop x
  end.

(** The connection after [Begin] and a sequence of calls. *)
Definition history c0 (e : E) (transport : nat) config now (steps : list step) : C * Logged K E :=
  fold_left run_step steps ((Begin c0 (Some transport) config now).2, mkLogged e []).

Lemma Begin_ok c0 transport config now e : len (read_buffer_ c0) = kHttpConnectionReadBufferBytes ->
  maximum_header_bytes_ (parser_ c0) = kHttpMaximumHeaderBytes ->
  (Begin c0 (Some transport) config now).1 = true ->
  conn_ok (Begin c0 (Some transport) config now).2 (mkLogged e []).
Proof.
  intros Hb Hmax. unfold Begin. destruct (_ || _ || _ || _); [done|]. intros _. cbn [snd]. split.
  - split; [done|]. cbn. unfold kHttpConnectionReadBufferBytes. lia.
  - unfold phase_ok. cbn. split; [done|]. split; [done|]. exists []. split; [done|].
    unfold Parser.Reset. rewrite Hmax. done.
Qed.

Lemma history_ok c0 e transport config now steps :
  len (read_buffer_ c0) = kHttpConnectionReadBufferBytes ->
  maximum_header_bytes_ (parser_ c0) = kHttpMaximumHeaderBytes ->
  (Begin c0 (Some transport) config now).1 = true ->
  conn_ok (history c0 e transport config now steps).1 (history c0 e transport config now steps).2.
Proof.
  intros Hb Hmax Hbegin. unfold history. pose proof (Begin_ok c0 transport config now e Hb Hmax Hbegin) as Hok.
  generalize dependent (mkLogged (K := K) e []). generalize (Begin c0 (Some transport) config now).2.
  induction steps as [|s steps IH]; intros c l Hok; [done|]. cbn [fold_left].
  assert (Hs : conn_ok (run_step (c, l) s).1 (run_step (c, l) s).2)
    by (destruct s; [by apply Poll_ok | by apply Terminate_ok]).
  destruct (run_step (c, l) s) as [c1 l1]. by apply IH.
Qed.


(** A sink is finished on exactly the body that the client sent: when a
    body sink has been finished, the bytes received from the transport begin
    with the printed form of a well-formed request, followed by precisely the
    bytes written to the sink, whose number is the request's agreed
    Content-Length, and the request given to the router is the one this text
    denotes. *)
Theorem HttpConnection_finished_body c0 e transport config now steps req w :
  len (read_buffer_ c0) = kHttpConnectionReadBufferBytes ->
  maximum_header_bytes_ (parser_ c0) = kHttpMaximumHeaderBytes ->
  (Begin c0 (Some transport) config now).1 = true ->
  let '(c, l) := history c0 e transport config now steps in
  sink_run (trace l) = Some (SDone (Some (req, w))) ->
  exists m t fields rest, received (trace l) = request_text m t fields ++ w ++ rest /\
    wf_request t fields /\ nul_free fields /\ denotes m t fields req /\
    has_content_length req = true /\ content_length req = len w.
Proof.
  intros Hb Hmax Hbegin. pose proof (history_ok c0 e transport config now steps Hb Hmax Hbegin) as [_ Hp].
  destruct (history c0 e transport config now steps) as [c l]. cbn [fst snd] in Hp. intros Hr.
  assert (Hf : finish_ok l).
  { unfold phase_ok in Hp. destruct (active_ c); [|by apply Hp]. destruct (state_ c); [done| | |by apply Hp].
    - destruct Hp as (_ & Hx & _). congruence.
    - destruct Hp as (k & req' & maximum & w' & _ & _ & _ & (_ & _ & Hx) & _). congruence. }
  destruct (Hf req w Hr) as (m & t & fields & rest & Hrec & (H1' & H2' & H3') & Hcl & Hlen).
  exists m, t, fields, rest. done.
Qed.
End invariant.
End Invariant.

(** ** An environment to run a connection with *)
Module Sample.
Import Connection Observe Invariant HttpResponseWriter.Sample.

(** The transport delivers the listed chunks and accepts everything; the only
    sink accepts everything and answers 201. *)
Definition chunk_read (t : nat) (buffer : bytes) (e : list bytes)
    : HttpIoStatus * N * bytes * list bytes :=
  match e with
  | [] => (WouldBlock, 0%N, buffer, [])
  | chunk :: e' =>
      let chunk := take (length buffer) chunk in
      (Progress, N.of_nat (length chunk), chunk ++ drop (length chunk) buffer, e')
  end.

Lemma chunk_read_size t buffer e : len (chunk_read t buffer e).1.2 = len buffer.
Proof.
  destruct e as [|chunk e]; [done|]. cbn [chunk_read fst snd]. set (g := take (length buffer) chunk).
  assert (length g <= length buffer)%nat by (unfold g; rewrite length_take; lia).
  unfold len. rewrite length_app, length_drop. lia.
Qed.

#[export] Instance chunks : HttpEnvironment (list bytes) unit (list bytes) := {
  env_Read := chunk_read;
  env_Write _ e data := (Progress, N.of_nat (length data), e);
  env_Close _ e := e;
  sink_Write _ _ e := (true, e);
  sink_Reject _ r e := (false, r, e);
  sink_Finish _ _ e := (true, SetFixedText (Types.Reset 201 None) (Some (str "stored")), e);
  sink_Abort _ _ e := e;
  hook_Complete _ _ e := e;
  env_Read_size := chunk_read_size;
}.

Definition upload_router : HttpRouter (S := list bytes) (K := unit) (W := list bytes) :=
  mkRouter (fun _ _ e => (ReceiveBody tt 100, e)) (fun error _ _ e => (DefaultErrorResponse error, e)).

Definition connection0 : HttpConnection (S := list bytes) (K := unit) := new_connection.

(** A head and a body of five bytes, split in the middle of both. *)
Definition upload_chunks : list bytes :=
  [str "PUT /f HTTP/1.1" ++ [CR; LF] ++ str "Content-Le";
   str "ngth: 5" ++ [CR; LF; CR; LF] ++ str "he"; str "llo"].

Notation uploaded := (history upload_router connection0 upload_chunks 1%nat default_config 0
  (map StepPoll [1; 2; 3; 4; 5; 6])).

Definition upload_request : HttpRequestHead :=
  mkRequest Put (str "/f") (str "/f") [] false
    [mkHeader (str "Content-Length") (str "5")] true 5 1.

Lemma let_pair {A B} (p : A * B) (P : A -> B -> Prop) : (let '(a, b) := p in P a b) -> P p.1 p.2.
Proof. by destruct p. Qed.


Lemma uploaded_run : sink_run (trace uploaded.2) = Some (SDone (Some (upload_request, str "hello"))).
Proof. vm_compute. reflexivity. Qed.

Lemma HttpConnection_finished_body_witness :
  exists m t fields rest, received (trace uploaded.2) = request_text m t fields ++ str "hello" ++ rest /\
    wf_request t fields /\ nul_free fields /\ denotes m t fields upload_request /\
    has_content_length upload_request = true /\ content_length upload_request = len (str "hello").
Proof.
  exact (let_pair uploaded _ (HttpConnection_finished_body upload_router connection0 upload_chunks 1%nat
    default_config 0 (map StepPoll [1; 2; 3; 4; 5; 6]) upload_request (str "hello") eq_refl eq_refl eq_refl)
    uploaded_run).
Defined.
End Sample.
