(* ===== verification/CommandMailbox.v ===== *)
(** * The command mailbox (src/src/remote/command_mailbox.cpp)

    A single slot through which the network task hands a command or a control
    request to the emulator's safe point and gets the response back.  Every
    operation runs under the mailbox's lock, so a concurrent execution is a
    sequence of operations.  [Module Mailbox] is the code: a request's text is a
    pointer, and the mailbox redirects it into its own buffer.  [Module Spec] is
    the contract, a slot that holds values and knows no pointers or buffers; the
    theorems say that no sequence of operations can tell them apart, and that
    the text of a request stays in place while its consumer works on it. *)
From S2P Require Import Prelude.
Local Open Scope Z_scope.

Inductive RemoteCommand := NoCommand | SystemReboot.

#[export] Instance RemoteCommand_eq_dec : EqDecision RemoteCommand.
Proof. solve_decision. Defined.

Inductive ControlPollStatus := PollPending | PollComplete | PollMissing.

Inductive BmxApiOperation :=
| NoOperation | StateOperation | Menu | ListControls | ListActions | DescribeControl | SetControl
| InvokeAction | Input | TextInput | Screenshot | Audio | AudioWav | Storage | Files | Media
| DeveloperMemoryRead.

#[export] Instance BmxApiOperation_eq_dec : EqDecision BmxApiOperation.
Proof. solve_decision. Defined.

Definition kBmxApiMaximumTextBytes : Z := 16 * 1024.

(** A [char *] of a request: into memory of the caller, with the bytes there,
    or to the mailbox's own [control_text_]. *)
Inductive text_pointer := CallerText (content : bytes) | ControlText.

Section mailbox.
(** [A] are the remaining fields of a request, [R] is the type of responses;
    both are plain values, with the values their constructors give. *)
Context {A R : Type} (A0 : A) (R0 : R).

Record BmxApiRequest := mkApiRequest {
  operation : BmxApiOperation;
  text : option text_pointer;
  text_size : Z;
  fields : A;
}.

Definition new_api_request : BmxApiRequest := mkApiRequest NoOperation None 0 A0.

Inductive ControlState :=
| ControlEmpty | ControlPosted | ControlRunning | ControlAbandoned | ControlComplete.

#[local] Instance ControlState_eq_dec : EqDecision ControlState.
Proof. solve_decision. Defined.

Record CommandMailbox := mkMailbox {
  command_ : RemoteCommand;
  control_state_ : ControlState;
  next_control_token_ : Z;
  control_token_ : Z;
  control_request_ : BmxApiRequest;
  control_response_ : R;
  control_text_ : bytes;
}.

Definition new_mailbox : CommandMailbox :=
  mkMailbox NoCommand ControlEmpty 0 0 new_api_request R0
    (repeat 0 (Z.to_nat (kBmxApiMaximumTextBytes + 1))).

Definition ResetControlLocked (m : CommandMailbox) : CommandMailbox :=
  mkMailbox (command_ m) ControlEmpty (next_control_token_ m) 0 new_api_request R0
    (memcpy (control_text_ m) 0 [0]).

Definition with_command (m : CommandMailbox) (c : RemoteCommand) : CommandMailbox :=
  mkMailbox c (control_state_ m) (next_control_token_ m) (control_token_ m) (control_request_ m)
    (control_response_ m) (control_text_ m).

Definition with_control_state (m : CommandMailbox) (st : ControlState) : CommandMailbox :=
  mkMailbox (command_ m) st (next_control_token_ m) (control_token_ m) (control_request_ m)
    (control_response_ m) (control_text_ m).

Definition idle (m : CommandMailbox) : bool :=
  bool_decide (command_ m = NoCommand) && bool_decide (control_state_ m = ControlEmpty).

Definition Post (m : CommandMailbox) (command : RemoteCommand) : bool * CommandMailbox :=
  if bool_decide (command = NoCommand) then (false, m)
  else if idle m then (true, with_command m command) else (false, m).

(** [Take]: the flag and the command it stores through its pointer. *)
Definition Take (m : CommandMailbox) : bool * RemoteCommand * CommandMailbox :=
  (negb (bool_decide (command_ m = NoCommand)), command_ m, with_command m NoCommand).

(** The bytes a text pointer points to. *)
Definition content (m : CommandMailbox) (p : text_pointer) : bytes :=
  match p with CallerText b => b | ControlText => control_text_ m end.

(** [++next_control_token_], skipping 0. *)
Definition next_token (n : Z) : Z :=
  if u32 (n + 1) =? 0 then u32 (u32 (n + 1) + 1) else u32 (n + 1).

(** [PostControl]: [Some] is acceptance, with the token. *)
Definition PostControl (m : CommandMailbox) (request : BmxApiRequest)
    : option Z * CommandMailbox :=
  let is_text := bool_decide (operation request = TextInput) in
  if bool_decide (operation request = NoOperation) ||
     (is_text && (bool_decide (text request = None) || (text_size request =? 0) ||
                  (kBmxApiMaximumTextBytes <? text_size request)))
  then (None, m)
  else if negb (idle m) then (None, m)
  else
    let token := next_token (next_control_token_ m) in
    let '(stored, buffer) :=
      match text request with
      | Some p =>
          if is_text then
            (mkApiRequest (operation request) (Some ControlText) (text_size request) (fields request),
             memcpy (memcpy (control_text_ m) 0 (take (Z.to_nat (text_size request)) (content m p)))
               (Z.to_nat (text_size request)) [0])
          else (request, control_text_ m)
      | None => (request, control_text_ m)
      end in
    (Some token, mkMailbox (command_ m) ControlPosted token token stored R0 buffer).

Definition TakeControl (m : CommandMailbox) : option (BmxApiRequest * Z) * CommandMailbox :=
  match control_state_ m with
  | ControlPosted => (Some (control_request_ m, control_token_ m), with_control_state m ControlRunning)
  | _ => (None, m)
  end.

Definition CompleteControl (m : CommandMailbox) (token : Z) (response : R) : bool * CommandMailbox :=
  if bool_decide (control_state_ m = ControlRunning) && (control_token_ m =? token) then
    (true, mkMailbox (command_ m) ControlComplete (next_control_token_ m) (control_token_ m)
             (control_request_ m) response (control_text_ m))
  else if bool_decide (control_state_ m = ControlAbandoned) && (control_token_ m =? token)
  then (false, ResetControlLocked m)
  else (false, m).

(** [PollControl]: the response is stored only with [Complete]. *)
Definition PollControl (m : CommandMailbox) (token : Z)
    : ControlPollStatus * option R * CommandMailbox :=
  if negb (bool_decide (control_state_ m = ControlEmpty)) && (control_token_ m =? token) then
    match control_state_ m with
    | ControlComplete => (PollComplete, Some (control_response_ m), ResetControlLocked m)
    | _ => (PollPending, None, m)
    end
  else (PollMissing, None, m).

(** [CancelControl]: the flag and the response that is given up, if any. *)
Definition CancelControl (m : CommandMailbox) (token : Z) : bool * option R * CommandMailbox :=
  if negb (bool_decide (control_state_ m = ControlEmpty)) &&
     negb (bool_decide (control_state_ m = ControlAbandoned)) && (control_token_ m =? token)
  then
    let abandoned :=
      match control_state_ m with ControlComplete => Some (control_response_ m) | _ => None end in
    match control_state_ m with
    | ControlRunning => (true, abandoned, with_control_state m ControlAbandoned)
    | _ => (true, abandoned, ResetControlLocked m)
    end
  else (false, None, m).

Definition Pending (m : CommandMailbox) : bool := negb (idle m).

(** ** The operations as one step, with everything they tell their callers *)
Inductive op :=
| OpPost (c : RemoteCommand) | OpTake | OpPostControl (q : BmxApiRequest) | OpTakeControl
| OpCompleteControl (t : Z) (r : R) | OpPollControl (t : Z) | OpCancelControl (t : Z) | OpPending.

(** A request as its reader sees it: the text it points to, by value. *)
Record request_value := mkValue {
  v_operation : BmxApiOperation; v_text : option bytes; v_size : Z; v_fields : A }.

Definition value_of (m : CommandMailbox) (q : BmxApiRequest) : request_value :=
  mkValue (operation q)
    ((fun p => if bool_decide (operation q = TextInput)
               then take (Z.to_nat (text_size q)) (content m p) else content m p) <$> text q)
    (text_size q) (fields q).

Inductive out :=
| OutBool (b : bool) | OutCommand (b : bool) (c : RemoteCommand) | OutToken (t : option Z)
| OutRequest (q : option (request_value * Z)) | OutPoll (s : ControlPollStatus) (r : option R)
| OutCancel (b : bool) (r : option R).

Definition step (m : CommandMailbox) (o : op) : out * CommandMailbox :=
  match o with
  | OpPost c => let '(b, m') := Post m c in (OutBool b, m')
  | OpTake => let '(b, c, m') := Take m in (OutCommand b c, m')
  | OpPostControl q => let '(t, m') := PostControl m q in (OutToken t, m')
  | OpTakeControl =>
      let '(q, m') := TakeControl m in
      (OutRequest ((fun p => (value_of m' p.1, p.2)) <$> q), m')
  | OpCompleteControl t r => let '(b, m') := CompleteControl m t r in (OutBool b, m')
  | OpPollControl t => let '(s, r, m') := PollControl m t in (OutPoll s r, m')
  | OpCancelControl t => let '(b, r, m') := CancelControl m t in (OutCancel b r, m')
  | OpPending => (OutBool (Pending m), m)
  end.

Fixpoint run (m : CommandMailbox) (ops : list op) : list out * CommandMailbox :=
  match ops with
  | [] => ([], m)
  | o :: ops' =>
      let '(x, m') := step m o in
      let '(xs, m'') := run m' ops' in (x :: xs, m'')
  end.

(** ** The contract: a slot of values *)
Inductive slot :=
| Free
| Posted (t : Z) (q : request_value)
| Running (t : Z) (q : request_value)
| Abandoned (t : Z) (q : request_value)
| Done (t : Z) (r : R).

Record spec := mkSpec { s_command : RemoteCommand; s_slot : slot; s_next : Z }.

(** A posted request by value; a caller's pointer is read when it is posted
    (only texts that are input are copied, others are passed through). *)
Definition posted_value (q : BmxApiRequest) : option request_value :=
  match operation q, text q with
  | NoOperation, _ => None
  | TextInput, Some (CallerText b) =>
      if (text_size q =? 0) || (kBmxApiMaximumTextBytes <? text_size q) then None
      else Some (mkValue TextInput (Some (take (Z.to_nat (text_size q)) b)) (text_size q) (fields q))
  | TextInput, _ => None
  | o, Some (CallerText b) => Some (mkValue o (Some b) (text_size q) (fields q))
  | o, _ => Some (mkValue o None (text_size q) (fields q))
  end.

Definition spec_step (s : spec) (o : op) : out * spec :=
  let with_slot x := mkSpec (s_command s) x (s_next s) in
  match o with
  | OpPost c =>
      match c, s_command s, s_slot s with
      | SystemReboot, NoCommand, Free => (OutBool true, mkSpec c Free (s_next s))
      | _, _, _ => (OutBool false, s)
      end
  | OpTake =>
      (OutCommand (match s_command s with NoCommand => false | _ => true end) (s_command s),
       mkSpec NoCommand (s_slot s) (s_next s))
  | OpPostControl q =>
      match posted_value q, s_command s, s_slot s with
      | Some v, NoCommand, Free =>
          let t := next_token (s_next s) in (OutToken (Some t), mkSpec NoCommand (Posted t v) t)
      | _, _, _ => (OutToken None, s)
      end
  | OpTakeControl =>
      match s_slot s with
      | Posted t v => (OutRequest (Some (v, t)), with_slot (Running t v))
      | _ => (OutRequest None, s)
      end
  | OpCompleteControl t r =>
      match s_slot s with
      | Running t' v => if t' =? t then (OutBool true, with_slot (Done t' r)) else (OutBool false, s)
      | Abandoned t' v => if t' =? t then (OutBool false, with_slot Free) else (OutBool false, s)
      | _ => (OutBool false, s)
      end
  | OpPollControl t =>
      match s_slot s with
      | Free => (OutPoll PollMissing None, s)
      | Done t' r => if t' =? t then (OutPoll PollComplete (Some r), with_slot Free)
                     else (OutPoll PollMissing None, s)
      | Posted t' _ | Running t' _ | Abandoned t' _ =>
          (OutPoll (if t' =? t then PollPending else PollMissing) None, s)
      end
  | OpCancelControl t =>
      match s_slot s with
      | Posted t' _ => if t' =? t then (OutCancel true None, with_slot Free) else (OutCancel false None, s)
      | Running t' v =>
          if t' =? t then (OutCancel true None, with_slot (Abandoned t' v)) else (OutCancel false None, s)
      | Done t' r =>
          if t' =? t then (OutCancel true (Some r), with_slot Free) else (OutCancel false None, s)
      | _ => (OutCancel false None, s)
      end
  | OpPending =>
      (OutBool (match s_command s, s_slot s with NoCommand, Free => false | _, _ => true end), s)
  end.

Fixpoint spec_run (s : spec) (ops : list op) : list out * spec :=
  match ops with
  | [] => ([], s)
  | o :: ops' =>
      let '(x, s') := spec_step s o in
      let '(xs, s'') := spec_run s' ops' in (x :: xs, s'')
  end.

Definition new_spec : spec := mkSpec NoCommand Free 0.
(** *** The simulation *)
(** Callers pass their own memory, at least as large as they say. *)
Definition op_ok (o : op) : Prop :=
  match o with
  | OpPostControl q =>
      match text q with
      | None => True
      | Some (CallerText b) => operation q = TextInput -> 0 <= text_size q <= len b
      | Some ControlText => False
      end
  | _ => True
  end.

Definition slot_ok (m : CommandMailbox) (x : slot) : Prop :=
  match x with
  | Free => control_state_ m = ControlEmpty
  | Posted t v => control_state_ m = ControlPosted /\ control_token_ m = t /\ value_of m (control_request_ m) = v
  | Running t v => control_state_ m = ControlRunning /\ control_token_ m = t /\ value_of m (control_request_ m) = v
  | Abandoned t v => control_state_ m = ControlAbandoned /\ control_token_ m = t /\ value_of m (control_request_ m) = v
  | Done t r => control_state_ m = ControlComplete /\ control_token_ m = t /\ control_response_ m = r
  end.

Definition simulates (m : CommandMailbox) (s : spec) : Prop :=
  command_ m = s_command s /\ next_control_token_ m = s_next s /\
  len (control_text_ m) = kBmxApiMaximumTextBytes + 1 /\ slot_ok m (s_slot s).

Lemma reset_simulates m s : command_ m = s_command s -> next_control_token_ m = s_next s ->
  len (control_text_ m) = kBmxApiMaximumTextBytes + 1 ->
  simulates (ResetControlLocked m) (mkSpec (s_command s) Free (s_next s)).
Proof.
  intros Hc Hn Hl. split; [done|]. split; [done|]. split; [|done]. cbn [ResetControlLocked control_text_].
  unfold len in *. rewrite length_memcpy; [done|]. unfold kBmxApiMaximumTextBytes in Hl. cbn [length]. lia.
Qed.

Lemma idle_spec m s : simulates m s ->
  idle m = match s_command s, s_slot s with NoCommand, Free => true | _, _ => false end.
Proof.
  intros (Hc & _ & _ & Hs). unfold idle. rewrite Hc. destruct (s_command s); [|done].
  destruct (s_slot s); cbn [slot_ok] in Hs; [by rewrite Hs | by destruct Hs as (-> & _)..].
Qed.

(** The text a request is posted with is what its buffer then holds. *)
Lemma stored_text (buffer b : bytes) n : 0 <= n <= len b -> n <= kBmxApiMaximumTextBytes ->
  len buffer = kBmxApiMaximumTextBytes + 1 ->
  let buffer' := memcpy (memcpy buffer 0 (take (Z.to_nat n) b)) (Z.to_nat n) [0] in
  len buffer' = len buffer /\ take (Z.to_nat n) buffer' = take (Z.to_nat n) b.
Proof.
  intros Hn Hm Hl. unfold len in *. assert (Ht : length (take (Z.to_nat n) b) = Z.to_nat n) by (rewrite length_take; lia).
  cbv zeta. rewrite !length_memcpy; cbn [length]; rewrite ?length_memcpy; try lia.
  split; [done|]. unfold memcpy at 1. rewrite take_app_le by (rewrite length_take, length_memcpy; lia).
  rewrite take_take, Nat.min_id. pose proof (memcpy_prefix buffer (take (Z.to_nat n) b) 0) as Hp.
  rewrite Ht in Hp. cbn [Nat.add] in Hp. rewrite Hp by lia. done.
Qed.

Lemma PostControl_spec m s q : op_ok (OpPostControl q) -> simulates m s ->
  let '(t, m') := PostControl m q in
  match posted_value q with
  | Some v =>
      if idle m then t = Some (next_token (next_control_token_ m)) /\
        simulates m' (mkSpec (s_command s) (Posted (next_token (next_control_token_ m)) v)
                        (next_token (next_control_token_ m)))
      else t = None /\ m' = m
  | None => t = None /\ m' = m
  end.
Proof.
  intros Hq (Hc & Hn & Hl & Hs). unfold PostControl, posted_value. cbn [op_ok] in Hq.
  destruct q as [o p n f]. cbn [operation text text_size fields] in *.
  destruct (decide (o = TextInput)) as [->|Ho].
  - cbn. destruct p as [[b|]|]; cbn; [| done | done]. specialize (Hq eq_refl).
    destruct (n =? 0) eqn:E0; cbn [orb]; [done|]. destruct (Z.ltb_spec kBmxApiMaximumTextBytes n); [done|].
    destruct (idle m); cbn [negb]; [|done]. split; [done|].
    destruct (stored_text (control_text_ m) b n Hq ltac:(lia) Hl) as [H1 H2]. cbv zeta in H1, H2.
    split; [done|]. split; [done|]. split; [cbn [control_text_]; congruence|].
    split; [done|]. split; [done|]. unfold value_of, content. cbn [control_request_ control_text_ operation text text_size fields fmap option_fmap option_map].
    rewrite bool_decide_eq_true_2 by done. by rewrite H2.
  - assert (Hb : bool_decide (o = TextInput) = false) by (by apply bool_decide_eq_false_2).
    rewrite Hb. cbn [andb orb]. destruct (decide (o = NoOperation)) as [->|Hno]; [done|].
    rewrite bool_decide_eq_false_2 by done. cbn [orb]. destruct (idle m); cbn [negb];
    (destruct p as [[b|]|]; [| done |]); destruct o; try done;
      (split; [done|]); (split; [done|]); (split; [done|]); (split; [done|]); done.
Qed.

Lemma step_simulates m s o : op_ok o -> simulates m s ->
  let '(x, m') := step m o in let '(y, s') := spec_step s o in x = y /\ simulates m' s'.
Proof.
  intros Hq Hsim. pose proof (idle_spec m s Hsim) as Hidle. pose proof Hsim as (Hc & Hn & Hl & Hs).
  pose proof (reset_simulates m s Hc Hn Hl) as Hreset.
  destruct o as [c| |q| |t r|t|t|]; cbn [step spec_step].
  - unfold Post. rewrite Hidle. destruct c; [done|]. cbn. destruct (s_command s) eqn:E1; [|done].
    destruct (s_slot s) eqn:E2; done.
  - unfold Take. rewrite Hc. split; [by destruct (s_command s)|]. split; [done|]. split; [done|]. by split.
  - pose proof (PostControl_spec m s q Hq Hsim) as Hp. destruct (PostControl m q) as [t m'].
    destruct (posted_value q) as [v|]; [|by destruct Hp as [-> ->]]. rewrite Hidle in Hp.
    destruct (s_command s); [destruct (s_slot s)|]; try (by destruct Hp as [-> ->]).
    rewrite <- Hn. destruct Hp as [-> Hp]. by split.
  - unfold TakeControl. destruct (s_slot s) eqn:E; cbn [slot_ok] in Hs;
      [rewrite Hs | destruct Hs as (Hst & Ht & Hv); rewrite Hst..]; try done.
    cbn. split; [by rewrite Ht, <- Hv|]. done.
  - unfold CompleteControl. destruct (s_slot s) eqn:E; cbn [slot_ok] in Hs;
      [rewrite Hs | destruct Hs as (Hst & Ht & Hv); rewrite Hst, Ht..]; cbn; try done;
      destruct (_ =? t); done.
  - unfold PollControl. destruct (s_slot s) eqn:E; cbn [slot_ok] in Hs;
      [rewrite Hs | destruct Hs as (Hst & Ht & Hv); rewrite Hst, Ht..]; cbn; try done;
      destruct (_ =? t); cbn; try done; rewrite Hv; done.
  - unfold CancelControl. destruct (s_slot s) eqn:E; cbn [slot_ok] in Hs;
      [rewrite Hs | destruct Hs as (Hst & Ht & Hv); rewrite Hst, Ht..]; cbn; try done;
      destruct (_ =? t); cbn; try done; rewrite Hv; done.
  - unfold Pending. rewrite Hidle. split; [|done]. destruct (s_command s), (s_slot s); done.
Qed.

Lemma run_simulates ops m s : Forall op_ok ops -> simulates m s ->
  (run m ops).1 = (spec_run s ops).1 /\ simulates (run m ops).2 (spec_run s ops).2.
Proof.
  intros Hops. revert m s. induction Hops as [|o ops Ho Hops IH]; intros m s Hsim; [done|].
  cbn [run spec_run]. pose proof (step_simulates m s o Ho Hsim) as Hs.
  destruct (step m o) as [x m1], (spec_step s o) as [y s1]. destruct Hs as [-> Hs].
  specialize (IH m1 s1 Hs). destruct (run m1 ops) as [xs m2], (spec_run s1 ops) as [ys s2].
  cbn [fst snd] in *. destruct IH as [-> IH]. done.
Qed.

Lemma new_simulates : simulates new_mailbox new_spec.
Proof.
  split; [done|]. split; [done|]. split; [|done]. unfold new_mailbox. cbn [control_text_]. unfold len.
  rewrite repeat_length. unfold kBmxApiMaximumTextBytes. lia.
Qed.


(** *** The consumer's request stays in place *)
Definition consuming (t : Z) (q : BmxApiRequest) (buffer : bytes) (m : CommandMailbox) : Prop :=
  (control_state_ m = ControlRunning \/ control_state_ m = ControlAbandoned) /\
  control_token_ m = t /\ control_request_ m = q /\ control_text_ m = buffer.

Lemma step_consuming t q buffer m o : consuming t q buffer m ->
  (forall r, o <> OpCompleteControl t r) -> consuming t q buffer (step m o).2.
Proof.
  intros Hc Ho. pose proof Hc as (Hst & Ht & Hq & Hb).
  destruct o as [c| |q'| |t' r|t'|t'|]; cbn [step].
  - unfold Post, idle. destruct (bool_decide (c = NoCommand)); [done|].
    destruct Hst as [Hst|Hst]; rewrite Hst; rewrite andb_false_r; done.
  - done.
  - unfold PostControl, idle. destruct (_ || _); [done|]. destruct Hst as [Hst|Hst]; rewrite Hst;
      rewrite andb_false_r; done.
  - unfold TakeControl. destruct Hst as [Hst|Hst]; rewrite Hst; done.
  - assert (Hne : t' <> t) by (intros ->; by apply (Ho r)). unfold CompleteControl.
    rewrite Ht, (proj2 (Z.eqb_neq t t')), !andb_false_r by done. done.
  - unfold PollControl. destruct (_ && _); [|done]. destruct Hst as [Hst|Hst]; rewrite Hst; done.
  - unfold CancelControl. destruct Hst as [Hst|Hst]; rewrite Hst; cbn; [|done].
    destruct (_ =? _); [|done]. cbn. split; [by right | done].
  - done.
Qed.

Lemma run_consuming ops : forall t q buffer m, consuming t q buffer m ->
  Forall (fun o => forall r, o <> OpCompleteControl t r) ops -> consuming t q buffer (run m ops).2.
Proof.
  induction ops as [|o ops IH]; intros t q buffer m Hc Hops; [done|].
  apply Forall_cons in Hops as [Ho Hops]. cbn [run]. pose proof (step_consuming t q buffer m o Hc Ho) as H1.
  destruct (step m o) as [x m1]. specialize (IH t q buffer m1 H1 Hops). by destruct (run m1 ops).
Qed.

(** The request a consumer has taken stays intact while it works on it:
    until it completes that token, whatever the other tasks post, poll or
    cancel, the slot is not reused and the text the request points to holds the
    same bytes. *)
Theorem TakeControl_keeps_request m q t m' (Ht : TakeControl m = (Some (q, t), m')) ops
  (Hops : Forall (fun o => forall r, o <> OpCompleteControl t r) ops) :
  let m'' := (run m' ops).2 in
  value_of m'' q = value_of m q /\ idle m'' = false /\ (forall x, (TakeControl m'').1 <> Some x).
Proof.
  assert (Hm : q = control_request_ m /\ consuming t q (control_text_ m) m').
  { unfold TakeControl in Ht. destruct (control_state_ m); try done. injection Ht as <- <- <-.
    split; [done|]. split; [by left | done]. }
  destruct Hm as [-> Hm]. cbv zeta. destruct (run_consuming ops _ _ _ _ Hm Hops) as (Hst & _ & _ & Hb).
  split; [unfold value_of, content; by rewrite Hb|]. unfold idle, TakeControl.
  destruct Hst as [Hst|Hst]; rewrite Hst; split; [apply andb_false_r | done | apply andb_false_r | done].
Qed.
End mailbox.

(** ** A concrete exchange *)
Module Sample.
Notation request s :=
  (mkApiRequest TextInput (Some (CallerText (str s))) (len (str s)) tt).
Notation exchange :=
  [OpPostControl (request "LOAD"); OpPostControl (request "RUN"); OpTakeControl (A := unit) (R := Z);
   OpCancelControl 1; OpPostControl (request "RUN"); OpPollControl 1; OpCompleteControl 1 7;
   OpPostControl (request "RUN"); OpTakeControl; OpCompleteControl 2 9; OpPollControl 1;
   OpPollControl 2; OpPollControl 2; OpPending].

Example exchange_answers : (run tt 0 (new_mailbox tt 0) exchange).1 =
  [OutToken (Some 1); OutToken None; OutRequest (Some (mkValue TextInput (Some (str "LOAD")) 4 tt, 1));
   OutCancel true None; OutToken None; OutPoll PollPending None; OutBool false;
   OutToken (Some 2); OutRequest (Some (mkValue TextInput (Some (str "RUN")) 3 tt, 2)); OutBool true;
   OutPoll PollMissing None; OutPoll PollComplete (Some 9); OutPoll PollMissing None; OutBool false].
Proof. vm_compute. reflexivity. Qed.


Notation posted := (PostControl 0 (new_mailbox tt 0) (request "LOAD")).2.
Notation meanwhile := [OpPostControl (request "RUN"); OpCancelControl 1; OpPollControl (A := unit) (R := Z) 1].

Notation taken := (TakeControl posted).2.
Notation taken_request := (mkApiRequest TextInput (Some ControlText) 4 tt).

Lemma TakeControl_keeps_request_witness :
  TakeControl posted = (Some (taken_request, 1), taken) /\
  value_of (run tt 0 taken meanwhile).2 taken_request = value_of posted taken_request.
Proof.
  assert (H : TakeControl posted = (Some (taken_request, 1), taken)) by (vm_compute; reflexivity).
  split; [exact H|]. apply (TakeControl_keeps_request tt 0 posted taken_request 1 taken H meanwhile).
  repeat (apply Forall_cons; split; [intros r Hr; discriminate Hr|]). apply Forall_nil. exact I.
Defined.
End Sample.
