(* ===== verification/LogRing.v ===== *)
(** * The developer log ring (src/src/remote/developer_log_ring.cpp)

    A ring of the last [capacity] bytes of the log, read by absolute sequence
    numbers.  The model keeps the heap block as a buffer value and copies it with
    the code's two [memcpy]s; the theorem states what a reader gets in terms of
    the whole log ever written.  Append, Window and Read hold the ring's lock, so
    a concurrent execution is a sequence of them. *)
From S2P Require Import Prelude.
Local Open Scope Z_scope.

Definition kDeveloperLogDefaultCapacity : Z := 64 * 1024.

Record DeveloperLogWindow := mkWindow { w_oldest : Z; w_next : Z }.

Record DeveloperLogRead := mkRead {
  requested : Z; start : Z; next : Z; oldest : Z; size : Z; gap : bool }.

Record DeveloperLogRing := mkRing { bytes_ : option bytes; capacity_ : Z; next_sequence_ : Z }.

(** The constructor; [block] is what [malloc(capacity)] returned. *)
Definition new_ring (block : option bytes) (capacity : Z) : DeveloperLogRing :=
  if capacity =? 0 then mkRing None 0 0
  else match block with
       | Some b => mkRing (Some b) capacity 0
       | None => mkRing None 0 0
       end.

Definition valid (r : DeveloperLogRing) : bool :=
  match bytes_ r with Some _ => negb (capacity_ r =? 0) | None => false end.

Definition Append (r : DeveloperLogRing) (data : bytes) : DeveloperLogRing :=
  let n := len data in
  match bytes_ r with
  | Some block =>
      if negb (valid r) || (n =? 0) then r
      else
        let retained := if capacity_ r <? n then capacity_ r else n in
        let skipped := n - retained in
        let first_sequence := u64 (next_sequence_ r + skipped) in
        let position := first_sequence mod capacity_ r in
        let first := if retained <? capacity_ r - position then retained else capacity_ r - position in
        let block1 := memcpy block (Z.to_nat position) (sub data skipped first) in
        let block2 := if first =? retained then block1
                      else memcpy block1 0 (sub data (skipped + first) (retained - first)) in
        mkRing (Some block2) (capacity_ r) (u64 (next_sequence_ r + n))
  | None => r
  end.

Definition Window (r : DeveloperLogRing) : DeveloperLogWindow :=
  mkWindow (if capacity_ r <? next_sequence_ r then next_sequence_ r - capacity_ r else 0)
    (next_sequence_ r).

(** [Read]: the result and the destination afterwards ([capacity] is its length). *)
Definition Read (r : DeveloperLogRing) (sequence : Z) (destination : bytes)
    : DeveloperLogRead * bytes :=
  match bytes_ r with
  | Some block =>
      if negb (valid r) then (mkRead sequence sequence sequence 0 0 false, destination)
      else
        let newest := next_sequence_ r in
        let old := if capacity_ r <? newest then newest - capacity_ r else 0 in
        let '(from, g) :=
          if sequence <? old then (old, true)
          else if newest <? sequence then (newest, false) else (sequence, false) in
        let available := newest - from in
        let n := if len destination <? available then len destination else available in
        let position := from mod capacity_ r in
        let first := if n <? capacity_ r - position then n else capacity_ r - position in
        let dest1 := if first =? 0 then destination
                     else memcpy destination 0 (sub block position first) in
        let dest2 := if first =? n then dest1
                     else memcpy dest1 (Z.to_nat first) (sub block 0 (n - first)) in
        (mkRead sequence from (from + n) old n g, dest2)
  | None => (mkRead sequence sequence sequence 0 0 false, destination)
  end.

(** [g_developer_log_ring]: the installed ring, if any. *)
Definition SetDeveloperLogRing (ring : option DeveloperLogRing) : option DeveloperLogRing := ring.
Definition GetDeveloperLogRing (g : option DeveloperLogRing) : option DeveloperLogRing := g.
Definition CaptureDeveloperLog (g : option DeveloperLogRing) (data : bytes) : option DeveloperLogRing :=
  (fun ring => Append ring data) <$> g.

(** The ring after a sequence of writes to the log. *)
Definition capture_all (g : option DeveloperLogRing) (writes : list bytes) : option DeveloperLogRing :=
  fold_left CaptureDeveloperLog writes g.

(** ** The window of the log that the block holds *)
Section window.
Context (c : nat).

Definition holds (block log : bytes) : Prop :=
  length block = c /\
  forall i, (i < length log)%nat -> (length log < i + c + 1)%nat ->
    block !! (i mod c)%nat = log !! i.

(** A copy of [src] to position [p mod c] and, past the end, to the front. *)
Definition ring_copy (block src : bytes) (p : nat) : bytes :=
  let first := Nat.min (length src) (c - p mod c) in
  memcpy (memcpy block (p mod c) (take first src)) 0 (drop first src).

Lemma mod_eq_add (i k : nat) : (0 < c)%nat -> (i mod c + k < c)%nat -> ((i + k) mod c = i mod c + k)%nat.
Proof.
  intros Hc Hk. rewrite Nat.Div0.add_mod. rewrite (Nat.mod_small k c) by lia. by apply Nat.mod_small.
Qed.

Lemma mod_eq_wrap (i k : nat) : (k < c)%nat -> (c <= i mod c + k)%nat ->
  ((i + k) mod c = i mod c + k - c)%nat.
Proof.
  intros Hk Hi. rewrite Nat.Div0.add_mod. rewrite (Nat.mod_small k c) by lia.
  pose proof (Nat.mod_upper_bound i c ltac:(lia)).
  replace (i mod c + k)%nat with ((i mod c + k - c) + 1 * c)%nat at 1 by lia.
  rewrite Nat.Div0.mod_add. apply Nat.mod_small. lia.
Qed.

Lemma lookup_ring_copy block src p k : length block = c -> (length src <= c)%nat -> (k < c)%nat ->
  ring_copy block src p !! ((p + k) mod c)%nat =
  if (k <? length src)%nat then src !! k else block !! ((p + k) mod c)%nat.
Proof.
  intros Hb Hs Hk. unfold ring_copy. set (first := Nat.min (length src) (c - p mod c)).
  pose proof (Nat.mod_upper_bound p c ltac:(lia)) as Hp.
  assert (Hf : length (take first src) = first) by (rewrite length_take; lia).
  rewrite lookup_memcpy by (rewrite ?length_memcpy, ?length_drop; lia).
  rewrite lookup_memcpy by lia. rewrite Hf, length_drop.
  destruct (decide (p mod c + k < c)%nat) as [Hin|Hin].
  - rewrite (mod_eq_add p k) by lia.
    destruct (Nat.ltb_spec k (length src)).
    + rewrite (decide_False (P := (_ <= _ < _)%nat)) by lia. rewrite decide_True by lia.
      rewrite lookup_take_lt by lia. f_equal. lia.
    + rewrite !decide_False by lia. done.
  - rewrite (mod_eq_wrap p k) by lia.
    destruct (Nat.ltb_spec k (length src)).
    + rewrite decide_True by lia. rewrite lookup_drop. f_equal. lia.
    + rewrite !decide_False by lia. done.
Qed.

Lemma length_ring_copy block src p : length block = c -> (length src <= c)%nat -> (0 < c)%nat ->
  length (ring_copy block src p) = c.
Proof.
  intros Hb Hs Hc. unfold ring_copy. pose proof (Nat.mod_upper_bound p c ltac:(lia)).
  rewrite !length_memcpy; rewrite ?length_memcpy, ?length_drop; rewrite ?length_take; lia.
Qed.

(** The step of the invariant: appending [data] to the log and copying its last
    [c] bytes to the place of their sequence number. *)
Lemma ring_copy_holds block log data kept : (0 < c)%nat -> holds block log ->
  kept = Nat.min c (length data) ->
  holds (ring_copy block (drop (length data - kept) data) (length log + (length data - kept)))
    (log ++ data).
Proof.
  intros Hc [Hb Hw] ->. set (kept := Nat.min c (length data)).
  assert (Hs : length (drop (length data - kept) data) = kept) by (rewrite length_drop; lia).
  split; [apply length_ring_copy; lia|]. rewrite length_app. intros i Hi1 Hi2.
  destruct (decide (length log + (length data - kept) <= i)%nat) as [Hnew|Hold].
  - replace i with (length log + (length data - kept) + (i - (length log + (length data - kept))))%nat at 1 by lia.
    rewrite lookup_ring_copy by lia. rewrite Hs. rewrite (proj2 (Nat.ltb_lt _ _)) by lia.
    rewrite lookup_drop, lookup_app_r by lia. f_equal. lia.
  - assert (Hk : kept = length data) by lia. rewrite Hk, Nat.sub_diag, Nat.add_0_r in *. rewrite drop_0 in *.
    rewrite lookup_app_l by lia. rewrite <- (Hw i) by lia.
    replace (i mod c)%nat with ((length log + (c - (length log - i))) mod c)%nat.
    2: { replace (length log + (c - (length log - i)))%nat with (i + 1 * c)%nat by lia. apply Nat.Div0.mod_add. }
    rewrite lookup_ring_copy by lia. rewrite (proj2 (Nat.ltb_ge _ _)) by lia. done.
Qed.

(** Reading a stretch of the window. *)
Lemma holds_read block log from n : (0 < c)%nat -> holds block log ->
  (length log < from + c + 1)%nat -> (from + n <= length log)%nat ->
  let first := Nat.min n (c - from mod c) in
  take first (drop (from mod c) block) ++ take (n - first) block = take n (drop from log).
Proof.
  intros Hc [Hb Hw] Hf Hn first. pose proof (Nat.mod_upper_bound from c ltac:(lia)).
  apply list_eq. intros k. destruct (decide (k < n)%nat) as [Hk|Hk].
  2: { rewrite !lookup_ge_None_2; [done | rewrite length_take, length_drop; lia|].
       rewrite length_app, !length_take, length_drop. lia. }
  rewrite (lookup_take_lt (drop from log)), lookup_drop by lia. rewrite <- (Hw (from + k)%nat) by lia.
  assert (Hl : length (take first (drop (from mod c) block)) = first) by (rewrite length_take, length_drop; lia).
  destruct (decide (k < first)%nat).
  - rewrite lookup_app_l by lia. rewrite lookup_take_lt, lookup_drop by lia.
    rewrite (mod_eq_add from k) by lia. done.
  - rewrite lookup_app_r by lia. rewrite Hl, lookup_take_lt by lia.
    rewrite (mod_eq_wrap from k) by lia. f_equal. lia.
Qed.
End window.

(** ** The ring and the log it has seen *)
Definition logged (r : DeveloperLogRing) (log : bytes) : Prop :=
  exists block, bytes_ r = Some block /\ 0 < capacity_ r /\ next_sequence_ r = len log /\
    holds (Z.to_nat (capacity_ r)) block log.

Lemma new_ring_logged block : block <> [] -> logged (new_ring (Some block) (len block)) [].
Proof.
  intros Hb. assert (0 < len block) by (destruct block; [done | rewrite len_cons; pose proof (len_nonneg block); lia]).
  unfold new_ring. rewrite (proj2 (Z.eqb_neq _ 0)) by lia. exists block. split; [done|]. split; [done|].
  split; [done|]. split; [unfold len; cbn [capacity_]; lia|]. cbn [length]. lia.
Qed.

(** The two copies of the code are [ring_copy]. *)
Lemma copies_ring_copy block src (p c : Z) : 0 <= p -> 0 < c -> length block = Z.to_nat c ->
  len src <= c ->
  let first := if len src <? c - p mod c then len src else c - p mod c in
  let block1 := memcpy block (Z.to_nat (p mod c)) (take (Z.to_nat first) src) in
  (if first =? len src then block1
   else memcpy block1 0 (drop (Z.to_nat first) src)) = ring_copy (Z.to_nat c) block src (Z.to_nat p).
Proof.
  intros Hp Hc Hb Hs. cbv zeta. pose proof (Z.mod_pos_bound p c Hc) as Hm. unfold len in *.
  set (first := if Z.of_nat (length src) <? c - p mod c then _ else _).
  unfold ring_copy. rewrite <- Z2Nat.inj_mod by lia.
  replace (Nat.min (length src) (Z.to_nat c - Z.to_nat (p mod c))) with (Z.to_nat first)
    by (unfold first; destruct (Z.ltb_spec (Z.of_nat (length src)) (c - p mod c)); lia).
  destruct (Z.eqb_spec first (Z.of_nat (length src))) as [->|Hne]; [|done].
  rewrite Nat2Z.id, drop_ge by lia. unfold memcpy at 2. cbn [length take app Nat.add]. by rewrite drop_0.
Qed.

Lemma Append_logged r log data : logged r log -> len log + len data < 2 ^ 64 ->
  logged (Append r data) (log ++ data) /\ capacity_ (Append r data) = capacity_ r.
Proof.
  intros (block & Hb & Hc & Hn & Hh) Hlen. unfold Append, valid. rewrite Hb.
  rewrite (proj2 (Z.eqb_neq (capacity_ r) 0)) by lia. cbn [negb orb].
  pose proof (len_nonneg data). pose proof (len_nonneg log).
  destruct (Z.eqb_spec (len data) 0) as [He|He].
  { destruct data; [|rewrite len_cons in He; pose proof (len_nonneg data); lia].
    rewrite app_nil_r. split; [|done]. by exists block. }
  set (retained := if capacity_ r <? len data then capacity_ r else len data).
  assert (Hr : retained = Z.min (capacity_ r) (len data))
    by (unfold retained; destruct (Z.ltb_spec (capacity_ r) (len data)); lia).
  rewrite Hn, !u64_small by lia. split; [|done]. eexists. split; [reflexivity|]. cbn [capacity_ next_sequence_].
  split; [done|]. split; [by rewrite len_app|].
  set (src := drop (Z.to_nat (len data - retained)) data).
  assert (Hsrc : len src = retained) by (unfold src, len in *; rewrite length_drop; lia).
  pose proof (copies_ring_copy block src (len log + (len data - retained)) (capacity_ r) ltac:(lia) Hc (proj1 Hh) ltac:(lia)) as Hcopy.
  rewrite Hsrc in Hcopy. cbv zeta in Hcopy. set (position := (len log + (len data - retained)) mod capacity_ r) in *.
  set (first := if retained <? capacity_ r - position then retained else capacity_ r - position) in *.
  pose proof (Z.mod_pos_bound (len log + (len data - retained)) (capacity_ r) Hc) as Hm. fold position in Hm.
  assert (Hf : 0 <= first <= retained) by (unfold first; destruct (Z.ltb_spec retained (capacity_ r - position)); lia).
  assert (H1 : sub data (len data - retained) first = take (Z.to_nat first) src) by done.
  assert (H2 : sub data (len data - retained + first) (retained - first) = drop (Z.to_nat first) src).
  { unfold sub, src. rewrite drop_drop. rewrite take_ge by (rewrite length_drop; unfold len in *; lia).
    f_equal. lia. }
  rewrite H1, H2, Hcopy.
  replace (Z.to_nat (len log + (len data - retained)))
    with (length log + (length data - Z.to_nat retained))%nat by (unfold len in *; lia).
  unfold src. replace (Z.to_nat (len data - retained)) with (length data - Z.to_nat retained)%nat by (unfold len in *; lia).
  apply ring_copy_holds; [lia | done |]. unfold len in *. lia.
Qed.

Lemma capture_all_logged writes : forall r log, logged r log -> len log + len (concat writes) < 2 ^ 64 ->
  exists r', capture_all (Some r) writes = Some r' /\ logged r' (log ++ concat writes) /\
    capacity_ r' = capacity_ r.
Proof.
  induction writes as [|w writes IH]; intros r log Hl Hlen.
  { exists r. cbn [concat]. by rewrite app_nil_r. }
  cbn [concat] in *. rewrite len_app in Hlen. pose proof (len_nonneg (concat writes)). pose proof (len_nonneg w).
  destruct (Append_logged r log w Hl ltac:(lia)) as [Ha Hc].
  destruct (IH (Append r w) (log ++ w) Ha ltac:(rewrite len_app; lia)) as (r' & Hr & Hl' & Hc').
  exists r'. split; [done|]. split; [by rewrite app_assoc | congruence].
Qed.

(** The two copies of [Read], each skipped when there is nothing to copy. *)
Lemma memcpy_two (dest a b : bytes) first n : len a = first -> len b = n - first ->
  n <= len dest ->
  let dest1 := if first =? 0 then dest else memcpy dest 0 a in
  (if first =? n then dest1 else memcpy dest1 (Z.to_nat first) b) = memcpy dest 0 (a ++ b).
Proof.
  intros Ha Hb Hn. cbv zeta. unfold len in *.
  assert (H1 : (if first =? 0 then dest else memcpy dest 0 a) = memcpy dest 0 a).
  { destruct (Z.eqb_spec first 0); [|done]. by destruct a; [|cbn [length] in Ha; lia]. }
  rewrite H1. destruct (Z.eqb_spec first n).
  { destruct b; [by rewrite app_nil_r | cbn [length] in Hb; lia]. }
  apply list_eq. intros i. rewrite !lookup_memcpy; rewrite ?length_memcpy, ?length_app; try lia.
  rewrite Nat.sub_0_r. repeat case_decide; try lia; [|by rewrite lookup_app_l by lia | done].
  rewrite lookup_app_r by lia. f_equal. lia.
Qed.

(** What a reader is promised: the bounds of the retained window, and the
    interval of the log that is copied. *)
Definition window_start (log : bytes) (capacity : Z) : Z := Z.max 0 (len log - capacity).
Definition read_start (log : bytes) (capacity sequence : Z) : Z :=
  Z.max (window_start log capacity) (Z.min sequence (len log)).
Definition read_size (log : bytes) (capacity sequence room : Z) : Z :=
  Z.min room (len log - read_start log capacity sequence).

Lemma Read_logged r log sequence destination : logged r log -> 0 <= sequence ->
  let from := read_start log (capacity_ r) sequence in
  let n := read_size log (capacity_ r) sequence (len destination) in
  Read r sequence destination =
    (mkRead sequence from (from + n) (window_start log (capacity_ r)) n
       (sequence <? window_start log (capacity_ r)),
     memcpy destination 0 (sub log from n)).
Proof.
  intros (block & Hb & Hc & Hn & Hh) Hs. cbv zeta. unfold Read, valid. rewrite Hb, Hn.
  rewrite (proj2 (Z.eqb_neq (capacity_ r) 0)) by lia. cbn [negb].
  pose proof (len_nonneg log). pose proof (len_nonneg destination).
  assert (Hw : (if capacity_ r <? len log then len log - capacity_ r else 0) = window_start log (capacity_ r)).
  { unfold window_start. destruct (Z.ltb_spec (capacity_ r) (len log)); lia. }
  rewrite Hw. set (old := window_start log (capacity_ r)) in *.
  assert (Hold : 0 <= old <= len log) by (unfold old, window_start; lia).
  assert (Hfrom : (if sequence <? old then (old, true)
      else if len log <? sequence then (len log, false) else (sequence, false)) =
      (read_start log (capacity_ r) sequence, sequence <? old)).
  { unfold read_start. fold old. destruct (Z.ltb_spec sequence old), (Z.ltb_spec (len log) sequence); f_equal; lia. }
  rewrite Hfrom. set (from := read_start log (capacity_ r) sequence).
  assert (Hf : old <= from <= len log) by (unfold from, read_start; fold old; lia).
  set (n := if len destination <? len log - from then _ else _).
  assert (Hn' : n = read_size log (capacity_ r) sequence (len destination)).
  { unfold n, read_size. fold from. destruct (Z.ltb_spec (len destination) (len log - from)); lia. }
  rewrite <- Hn'. f_equal. assert (Hn0 : 0 <= n <= len destination /\ from + n <= len log).
  { rewrite Hn'. unfold read_size. fold from. lia. }
  pose proof (Z.mod_pos_bound from (capacity_ r) Hc) as Hm.
  set (first := if n <? capacity_ r - from mod capacity_ r then n else capacity_ r - from mod capacity_ r).
  assert (Hfirst : first = Z.min n (capacity_ r - from mod capacity_ r)).
  { unfold first. destruct (Z.ltb_spec n (capacity_ r - from mod capacity_ r)); lia. }
  pose proof (holds_read (Z.to_nat (capacity_ r)) block log (Z.to_nat from) (Z.to_nat n) ltac:(lia) Hh) as Hread.
  rewrite <- Z2Nat.inj_mod in Hread by lia.
  replace (Nat.min (Z.to_nat n) (Z.to_nat (capacity_ r) - Z.to_nat (from mod capacity_ r)))
    with (Z.to_nat first) in Hread by lia.
  assert (Hlog : (length log < Z.to_nat from + Z.to_nat (capacity_ r) + 1)%nat)
    by (unfold old, window_start, len in *; lia).
  specialize (Hread Hlog ltac:(unfold len in *; lia)). cbv zeta in Hread. fold (sub log from n) in Hread.
  rewrite <- Hread. replace (Z.to_nat n - Z.to_nat first)%nat with (Z.to_nat (n - first)) by lia.
  destruct Hh as [Hh _]. apply (memcpy_two destination _ (sub block 0 (n - first))).
  - apply sub_length; unfold len; lia.
  - assert (n <= capacity_ r) by (unfold old, window_start in *; lia). apply sub_length; unfold len; lia.
  - lia.
Qed.

(** C30. A reader of the developer log gets exactly the log: after any writes of
    fewer than 2^64 bytes in all, [Read] copies the bytes of the concatenated
    writes from the requested sequence number on, as many as are there and fit;
    a request before the last [capacity] bytes is moved to their start and marked
    as a gap, one beyond the end yields nothing; the rest of the destination is
    untouched. *)
Theorem DeveloperLogRing_reads_log block writes sequence destination
  (Hb : block <> []) (Hw : len (concat writes) < 2 ^ 64) (Hs : 0 <= sequence) :
  let log := concat writes in
  let capacity := len block in
  let from := read_start log capacity sequence in
  let n := read_size log capacity sequence (len destination) in
  exists r, capture_all (Some (new_ring (Some block) capacity)) writes = Some r /\
    Window r = mkWindow (window_start log capacity) (len log) /\
    Read r sequence destination =
      (mkRead sequence from (from + n) (window_start log capacity) n
         (sequence <? window_start log capacity),
       memcpy destination 0 (sub log from n)).
Proof.
  cbv zeta. pose proof (new_ring_logged block Hb) as Hr.
  destruct (capture_all_logged writes _ [] Hr) as (r & Hrun & Hl & Hc); [exact Hw|].
  cbn [app] in Hl. assert (Hcap : capacity_ r = len block).
  { rewrite Hc. unfold new_ring. destruct (Z.eqb_spec (len block) 0) as [He|]; [|done].
    destruct block; [done|]. rewrite len_cons in He. pose proof (len_nonneg block). lia. }
  exists r. split; [done|]. rewrite (Read_logged r (concat writes)), Hcap by done. split; [|done].
  destruct Hl as (b & _ & _ & Hn & _). unfold Window. rewrite Hn, Hcap. f_equal.
  unfold window_start. destruct (Z.ltb_spec (len block) (len (concat writes))); lia.
Qed.

(** An unusable ring (no memory, or capacity 0) ignores every call. *)
Lemma invalid_ring_inert capacity writes sequence destination :
  let r := new_ring None capacity in
  valid r = false /\ capture_all (Some r) writes = Some r /\ (Read r sequence destination).2 = destination.
Proof.
  cbv zeta. unfold new_ring. assert (Hr : (if capacity =? 0 then mkRing None 0 0 else mkRing None 0 0) = mkRing None 0 0)
    by (by destruct (capacity =? 0)). rewrite Hr. split; [done|]. split; [|done].
  induction writes as [|w writes IH]; [done | exact IH].
Qed.

Module Sample.
Example read_after_wrap :
  (let r := capture_all (Some (new_ring (Some [9; 9; 9; 9; 9]) 5)) [[1; 2; 3]; [4; 5; 6; 7]; [8]] in
   (fun x => Read x 1 [0; 0; 0; 0]) <$> r) =
  Some (mkRead 1 3 7 3 4 true, [4; 5; 6; 7]).
Proof. vm_compute. reflexivity. Qed.

Lemma DeveloperLogRing_reads_log_witness :
  exists r, capture_all (Some (new_ring (Some [9; 9; 9; 9; 9]) 5)) [[1; 2; 3]; [4; 5; 6; 7]; [8]] = Some r /\
    Window r = mkWindow 3 8 /\
    Read r 1 [0; 0; 0; 0] = (mkRead 1 3 7 3 4 true, [4; 5; 6; 7]).
Proof.
  apply (DeveloperLogRing_reads_log [9; 9; 9; 9; 9] [[1; 2; 3]; [4; 5; 6; 7]; [8]] 1 [0; 0; 0; 0]);
    [discriminate | reflexivity | lia].
Defined.
End Sample.
