(* ===== verification/JsonWriter.v ===== *)
(** * The bounded JSON writer (src/src/remote/bounded_json_writer.cpp)

    Both remote interfaces print their responses with it into fixed buffers.
    The buffer is a value, written with the code's [memcpy]s; a C string is the
    bytes before its NUL.  The theorems say that the buffer holds exactly the
    concatenation of what was written, or the writer is invalid because that
    does not fit, and that the strings it prints are JSON strings which the
    parser of [Json] reads back. *)
From S2P Require Import Prelude Json.
From Stdlib Require Import Ascii.
Local Open Scope Z_scope.

Definition kHex : bytes := str "0123456789abcdef".

Definition kCp850Unicode : list Z := [
  0x00c7; 0x00fc; 0x00e9; 0x00e2; 0x00e4; 0x00e0; 0x00e5; 0x00e7;
  0x00ea; 0x00eb; 0x00e8; 0x00ef; 0x00ee; 0x00ec; 0x00c4; 0x00c5;
  0x00c9; 0x00e6; 0x00c6; 0x00f4; 0x00f6; 0x00f2; 0x00fb; 0x00f9;
  0x00ff; 0x00d6; 0x00dc; 0x00f8; 0x00a3; 0x00d8; 0x00d7; 0x0192;
  0x00e1; 0x00ed; 0x00f3; 0x00fa; 0x00f1; 0x00d1; 0x00aa; 0x00ba;
  0x00bf; 0x00ae; 0x00ac; 0x00bd; 0x00bc; 0x00a1; 0x00ab; 0x00bb;
  0x2591; 0x2592; 0x2593; 0x2502; 0x2524; 0x00c1; 0x00c2; 0x00c0;
  0x00a9; 0x2563; 0x2551; 0x2557; 0x255d; 0x00a2; 0x00a5; 0x2510;
  0x2514; 0x2534; 0x252c; 0x251c; 0x2500; 0x253c; 0x00e3; 0x00c3;
  0x255a; 0x2554; 0x2569; 0x2566; 0x2560; 0x2550; 0x256c; 0x00a4;
  0x00f0; 0x00d0; 0x00ca; 0x00cb; 0x00c8; 0x0131; 0x00cd; 0x00ce;
  0x00cf; 0x2518; 0x250c; 0x2588; 0x2584; 0x00a6; 0x00cc; 0x2580;
  0x00d3; 0x00df; 0x00d4; 0x00d2; 0x00f5; 0x00d5; 0x00b5; 0x00fe;
  0x00de; 0x00da; 0x00db; 0x00d9; 0x00fd; 0x00dd; 0x00af; 0x00b4;
  0x00ad; 0x00b1; 0x2017; 0x00be; 0x00b6; 0x00a7; 0x00f7; 0x00b8;
  0x00b0; 0x00a8; 0x00b7; 0x00b9; 0x00b3; 0x00b2; 0x25a0; 0x00a0 ].

Record BoundedJsonWriter := mkWriter { output_ : bytes; capacity_ : Z; size_ : Z; valid_ : bool }.

(** The constructor on a buffer ([None] is a null pointer). *)
Definition new_writer (output : option bytes) : BoundedJsonWriter :=
  match output with
  | None => mkWriter [] 0 0 false
  | Some b => if len b =? 0 then mkWriter b 0 0 false
              else mkWriter (memcpy b 0 [NUL]) (len b) 0 true
  end.

Definition invalidate (w : BoundedJsonWriter) : BoundedJsonWriter :=
  mkWriter (output_ w) (capacity_ w) (size_ w) false.

Definition Text (w : BoundedJsonWriter) (text : option bytes) : BoundedJsonWriter :=
  match text with
  | None => w
  | Some t =>
      if negb (valid_ w) then w
      else if capacity_ w - size_ w <=? len t then invalidate w
      else mkWriter (memcpy (output_ w) (Z.to_nat (size_ w)) (t ++ [NUL])) (capacity_ w)
             (size_ w + len t) true
  end.

(** [Unsigned]: the digits are collected in an array of 20 places. *)
Definition Unsigned (w : BoundedJsonWriter) (value : Z) : BoundedJsonWriter :=
  if negb (valid_ w) then w
  else
    let reversed := reversed_digits 20 value in
    if capacity_ w - size_ w <=? len reversed then invalidate w
    else mkWriter (memcpy (memcpy (output_ w) (Z.to_nat (size_ w)) (rev reversed))
                     (Z.to_nat (size_ w + len reversed)) [NUL])
           (capacity_ w) (size_ w + len reversed) true.

Definition Signed (w : BoundedJsonWriter) (value : Z) : BoundedJsonWriter :=
  let w := if value <? 0 then Text w (Some (str "-")) else w in
  Unsigned w (if value <? 0 then u64 (- value) else u64 value).

Definition Boolean (w : BoundedJsonWriter) (value : bool) : BoundedJsonWriter :=
  Text w (Some (if value then str "true" else str "false")).

(** The text written for one character of a string. *)
Definition escaped (cp850 : bool) (c : Z) : bytes :=
  if (c =? QUOTE) || (c =? BACKSLASH) then [BACKSLASH; c]
  else if (c <? 0x20) || (cp850 && (0x80 <=? c)) then
    let unicode := if c <? 0x20 then c else nth (Z.to_nat (c - 0x80)) kCp850Unicode 0 in
    [BACKSLASH; ch "u"%char;
     byte_at kHex (Z.land (Z.shiftr unicode 12) 0xf); byte_at kHex (Z.land (Z.shiftr unicode 8) 0xf);
     byte_at kHex (Z.land (Z.shiftr unicode 4) 0xf); byte_at kHex (Z.land unicode 0xf)]
  else [c].

(** The loop stops when the writer has become invalid. *)
Fixpoint string_loop (cp850 : bool) (value : bytes) (w : BoundedJsonWriter) : BoundedJsonWriter :=
  match value with
  | [] => w
  | c :: value' => if valid_ w then string_loop cp850 value' (Text w (Some (escaped cp850 c))) else w
  end.

Definition StringImpl (w : BoundedJsonWriter) (value : option bytes) (cp850 : bool)
    : BoundedJsonWriter :=
  let w := Text w (Some [QUOTE]) in
  let v := match value with None => [] | Some v => v end in
  Text (string_loop cp850 v w) (Some [QUOTE]).

Definition WriteString (w : BoundedJsonWriter) (value : option bytes) : BoundedJsonWriter :=
  StringImpl w value false.
Definition FatString (w : BoundedJsonWriter) (value : option bytes) : BoundedJsonWriter :=
  StringImpl w value true.

(** ** What the calls are to print *)
Inductive wop :=
| WText (t : option bytes) | WUnsigned (v : Z) | WSigned (v : Z) | WBoolean (b : bool)
| WString (v : option bytes) | WFatString (v : option bytes).

Definition write (w : BoundedJsonWriter) (o : wop) : BoundedJsonWriter :=
  match o with
  | WText t => Text w t
  | WUnsigned v => Unsigned w v
  | WSigned v => Signed w v
  | WBoolean b => Boolean w b
  | WString v => WriteString w v
  | WFatString v => FatString w v
  end.

Definition json_string (cp850 : bool) (v : bytes) : bytes :=
  QUOTE :: concat (escaped cp850 <$> v) ++ [QUOTE].

Definition rendered (o : wop) : bytes :=
  match o with
  | WText t => default [] t
  | WUnsigned v => decimal_text v
  | WSigned v => (if v <? 0 then [45] else []) ++ decimal_text (Z.abs v)
  | WBoolean b => if b then str "true" else str "false"
  | WString v => json_string false (default [] v)
  | WFatString v => json_string true (default [] v)
  end.

Definition wop_ok (o : wop) : Prop :=
  match o with
  | WUnsigned v => 0 <= v <= UINT64_MAX
  | WSigned v => - 2 ^ 31 <= v < 2 ^ 31
  | _ => True
  end.

(** A writer into [buffer] that has been given [s]: the whole text and its NUL
    are in the buffer, or it did not fit and the buffer holds a part of it. *)
Definition holds_text (buffer s : bytes) (w : BoundedJsonWriter) : Prop :=
  capacity_ w = len buffer /\
  if valid_ w then len s < len buffer /\ size_ w = len s /\ output_ w = memcpy buffer 0 (s ++ [NUL])
  else len buffer <= len s /\ exists p q, s = p ++ q /\ output_ w = memcpy buffer 0 (p ++ [NUL]) /\
    len p < len buffer.

Lemma memcpy_append (buffer s t : bytes) : (length s + length t < length buffer)%nat ->
  memcpy (memcpy buffer 0 (s ++ [NUL])) (length s) (t ++ [NUL]) = memcpy buffer 0 (s ++ t ++ [NUL]).
Proof.
  intros H. apply list_eq. intros i.
  rewrite !lookup_memcpy; rewrite ?length_memcpy; rewrite ?length_app; cbn [length]; try lia.
  rewrite Nat.sub_0_r. repeat case_decide; try lia; try done.
  - by rewrite (lookup_app_r s (t ++ [NUL])) by lia.
  - by rewrite !lookup_app_l by lia.
Qed.

Lemma Text_holds buffer s w t : holds_text buffer s w -> holds_text buffer (s ++ t) (Text w (Some t)).
Proof.
  intros [Hc Hw]. unfold Text. destruct (valid_ w) eqn:Ev; cbn [negb].
  - destruct Hw as (Hl & Hs & Ho). rewrite Hc, Hs. destruct (Z.leb_spec (len buffer - len s) (len t)).
    + split; [done|]. cbn [invalidate valid_]. rewrite len_app. split; [lia|]. exists s, t. done.
    + split; [done|]. cbn [valid_ size_ output_]. rewrite len_app. split; [lia|]. split; [done|].
      rewrite Ho. unfold len in *. rewrite Nat2Z.id, memcpy_append by lia. by rewrite <- app_assoc.
  - split; [done|]. rewrite Ev. destruct Hw as (Hl & p & q & -> & Ho & Hp). rewrite len_app.
    pose proof (len_nonneg t). split; [lia|]. exists p, (q ++ t). by rewrite app_assoc.
Qed.

Lemma string_loop_holds cp850 v : forall buffer s w, holds_text buffer s w ->
  holds_text buffer (s ++ concat (escaped cp850 <$> v)) (string_loop cp850 v w).
Proof.
  induction v as [|c v IH]; intros buffer s w Hw; cbn [string_loop fmap list_fmap concat];
    [by rewrite app_nil_r|].
  destruct (valid_ w) eqn:Ev.
  - rewrite app_assoc. apply IH. by apply Text_holds.
  - destruct Hw as [Hc Hw]. rewrite Ev in Hw. destruct Hw as (Hl & p & q & -> & Ho & Hp).
    split; [done|]. rewrite Ev, len_app. len_facts. split; [lia|].
    eexists p, _. split; [by rewrite <- app_assoc|]. done.
Qed.

Lemma StringImpl_holds cp850 v buffer s w : holds_text buffer s w ->
  holds_text buffer (s ++ json_string cp850 (default [] v)) (StringImpl w v cp850).
Proof.
  intros Hw. unfold StringImpl, json_string.
  replace (s ++ QUOTE :: concat (escaped cp850 <$> default [] v) ++ [QUOTE])
    with (((s ++ [QUOTE]) ++ concat (escaped cp850 <$> default [] v)) ++ [QUOTE]) by (by rewrite <- !app_assoc).
  apply Text_holds. replace (match v with Some v => v | None => [] end) with (default [] v) by (by destruct v).
  by apply string_loop_holds, Text_holds.
Qed.

Lemma decimal_text_20 v : 0 <= v <= UINT64_MAX -> rev (reversed_digits 20 v) = decimal_text v.
Proof.
  intros Hv. unfold decimal_text. rewrite (reversed_digits_fuel 20 21); [done| |lia].
  split; [lia|]. eapply Z.le_lt_trans; [apply Hv|]. by vm_compute.
Qed.

Lemma Unsigned_holds buffer s w v : 0 <= v <= UINT64_MAX -> holds_text buffer s w ->
  holds_text buffer (s ++ decimal_text v) (Unsigned w v).
Proof.
  intros Hv Hw. pose proof (Text_holds buffer s w (decimal_text v) Hw) as Ht.
  replace (Unsigned w v) with (Text w (Some (decimal_text v))); [done|].
  unfold Text, Unsigned. rewrite <- decimal_text_20 by done.
  assert (E : len (rev (reversed_digits 20 v)) = len (reversed_digits 20 v)) by (unfold len; by rewrite length_rev).
  rewrite E. destruct (valid_ w) eqn:Ev; cbn [negb]; [|done].
  destruct (Z.leb_spec (capacity_ w - size_ w) (len (reversed_digits 20 v))); [done|]. f_equal.
  destruct Hw as [Hc Hw]. rewrite Ev in Hw. destruct Hw as (Hl & Hs & Ho).
  set (d := rev (reversed_digits 20 v)) in *. rewrite Hs, <- E in *. rewrite Hc in *.
  assert (Hlen : length (output_ w) = length buffer).
  { rewrite Ho. apply length_memcpy. rewrite length_app. cbn [length]. unfold len in *. lia. }
  unfold len in *. apply list_eq. intros i.
  rewrite !lookup_memcpy; rewrite ?length_memcpy; rewrite ?length_app; cbn [length]; try lia.
  repeat case_decide; try lia; try done.
  - rewrite lookup_app_r by lia. f_equal. lia.
  - by rewrite lookup_app_l by lia.
Qed.

Lemma write_holds buffer s w o : wop_ok o -> holds_text buffer s w ->
  holds_text buffer (s ++ rendered o) (write w o).
Proof.
  intros Ho Hw. destruct o as [[t|]|v|v|b|v|v]; cbn [write rendered wop_ok default] in *.
  - by apply Text_holds.
  - by rewrite app_nil_r.
  - by apply Unsigned_holds.
  - unfold Signed. destruct (Z.ltb_spec v 0).
    + rewrite app_assoc, u64_small, Z.abs_neq by lia. apply Unsigned_holds; [unfold UINT64_MAX; lia|].
      by apply Text_holds.
    + rewrite u64_small, Z.abs_eq by lia. apply Unsigned_holds; [unfold UINT64_MAX; lia | done].
  - by apply Text_holds.
  - by apply StringImpl_holds.
  - by apply StringImpl_holds.
Qed.

Lemma writes_hold ops : forall buffer s w, Forall wop_ok ops -> holds_text buffer s w ->
  holds_text buffer (s ++ concat (rendered <$> ops)) (fold_left write ops w).
Proof.
  induction ops as [|o ops IH]; intros buffer s w Hops Hw; cbn [fold_left fmap list_fmap concat];
    [by rewrite app_nil_r|].
  apply Forall_cons in Hops as [Ho Hops]. rewrite app_assoc. apply IH; [done|]. by apply write_holds.
Qed.

Lemma new_writer_holds buffer : buffer <> [] -> holds_text buffer [] (new_writer (Some buffer)).
Proof.
  intros Hb. assert (0 < len buffer) by (destruct buffer; [done | rewrite len_cons; len_facts; lia]).
  unfold new_writer. rewrite (proj2 (Z.eqb_neq _ 0)) by lia. by split.
Qed.

(** C31. Any sequence of writes leaves in the buffer exactly the concatenation of
    the texts they stand for with its NUL, everything behind it untouched, and
    the writer valid - or, when and only when that text does not fit with its
    NUL, an invalid writer whose buffer holds a NUL-terminated part of it: the
    buffer is never overrun. *)
Theorem BoundedJsonWriter_exact buffer ops (Hb : buffer <> []) (Hops : Forall wop_ok ops) :
  let w := fold_left write ops (new_writer (Some buffer)) in
  let text := concat (rendered <$> ops) in
  valid_ w = (len text <? len buffer) /\ length (output_ w) = length buffer /\
  (if valid_ w then output_ w = memcpy buffer 0 (text ++ [NUL])
   else exists p q, text = p ++ q /\ output_ w = memcpy buffer 0 (p ++ [NUL])).
Proof.
  cbv zeta. destruct (writes_hold ops buffer [] _ Hops (new_writer_holds buffer Hb)) as [_ H].
  cbn [app] in H. set (w := fold_left write ops (new_writer (Some buffer))) in *.
  assert (Hlen : forall p, len p < len buffer -> length (memcpy buffer 0 (p ++ [NUL])) = length buffer).
  { intros p Hp. apply length_memcpy. rewrite length_app. cbn [length]. unfold len in *. lia. }
  destruct (valid_ w).
  - destruct H as (Hl & _ & ->). rewrite (proj2 (Z.ltb_lt _ _)) by done. auto.
  - destruct H as (Hl & p & q & Ht & -> & Hp). rewrite (proj2 (Z.ltb_ge _ _)) by done.
    split; [done|]. split; [by apply Hlen|]. by exists p, q.
Qed.

Lemma BoundedJsonWriter_exact_witness :
  let ops := [WText (Some (str "{")); WString (Some (str "drive")); WText (Some (str ":"));
              WSigned (-8); WText (Some (str "}"))] in
  let w := fold_left write ops (new_writer (Some (repeat 7 16))) in
  (valid_ w = true /\ output_ w = [123; 34; 100; 114; 105; 118; 101; 34; 58; 45; 56; 125; 0; 7; 7; 7]) /\
  let text := concat (rendered <$> ops) in
  valid_ w = (len text <? len (repeat 7 16)) /\ length (output_ w) = length (repeat 7 16) /\
  (if valid_ w then output_ w = memcpy (repeat 7 16) 0 (text ++ [NUL])
   else exists p q, text = p ++ q /\ output_ w = memcpy (repeat 7 16) 0 (p ++ [NUL])).
Proof.
  intros ops w. split; [vm_compute; split; reflexivity|].
  apply (BoundedJsonWriter_exact (repeat 7 16) ops); [discriminate|].
  repeat (apply Forall_cons; split; [first [exact I | split; [lia | reflexivity]]|]). apply Forall_nil. exact I.
Defined.

(** ** The strings it prints are read back *)
(** The scalar values a C string stands for: CP850 characters, or UTF-8. *)
Definition fat_codepoint (c : Z) : Z :=
  if c <? 0x80 then c else nth (Z.to_nat (c - 0x80)) kCp850Unicode 0.

Definition stands_for (cp850 : bool) (v : bytes) (cps : list Z) : Prop :=
  if cp850 then Forall (fun c => 0 < c < 256) v /\ cps = fat_codepoint <$> v
  else Forall (fun cp => scalar_value cp /\ 0 < cp) cps /\ v = concat (utf8 <$> cps).

Lemma kHex_digit d : 0 <= d < 16 -> hex_digit (byte_at kHex d) = Some d.
Proof.
  intros Hd. assert (Hx : forallb (fun d => bool_decide (hex_digit (byte_at kHex d) = Some d))
    (Z.of_nat <$> seq 0 16) = true) by (vm_compute; reflexivity).
  rewrite forallb_forall in Hx. apply (bool_decide_eq_true_1 (hex_digit (byte_at kHex d) = Some d)), Hx.
  apply list_elem_of_In, list_elem_of_fmap. exists (Z.to_nat d). split; [lia|]. apply elem_of_seq. lia.
Qed.

Lemma hex4_kHex u : 0 <= u < 2 ^ 16 ->
  hex4 [byte_at kHex (Z.land (Z.shiftr u 12) 0xf); byte_at kHex (Z.land (Z.shiftr u 8) 0xf);
        byte_at kHex (Z.land (Z.shiftr u 4) 0xf); byte_at kHex (Z.land u 0xf)] u.
Proof.
  intros Hu. split; [done|]. rewrite !Z.shiftr_div_pow2 by lia. change 0xf with (Z.ones 4).
  rewrite !Z.land_ones by lia. cbn [hex_value]. rewrite !kHex_digit by (apply Z.mod_pos_bound; lia).
  f_equal. change (2 ^ 12) with 4096. change (2 ^ 8) with 256. change (2 ^ 4) with 16. divmod_lia.
Qed.

Lemma kCp850Unicode_range c : 0x80 <= c < 256 -> 0x80 <= nth (Z.to_nat (c - 0x80)) kCp850Unicode 0 < 0xd800.
Proof.
  intros Hc. assert (Hx : forallb (fun u => in_range 0x80 0xd7ff u) kCp850Unicode = true) by (vm_compute; reflexivity).
  rewrite forallb_forall in Hx. specialize (Hx (nth (Z.to_nat (c - 0x80)) kCp850Unicode 0)).
  apply in_range_spec in Hx; [lia|]. apply nth_In. change (length kCp850Unicode) with 128%nat. lia.
Qed.

(** What one printed escape contributes to a string body and to its text. *)
Definition reads_as (b v : bytes) : Prop :=
  (forall r, string_body r -> string_body (b ++ r)) /\ (forall r t, decodes r t -> decodes (b ++ r) (v ++ t)).

Lemma reads_as_app b1 v1 b2 v2 : reads_as b1 v1 -> reads_as b2 v2 -> reads_as (b1 ++ b2) (v1 ++ v2).
Proof. intros [H1 H2] [H3 H4]. split; intros; rewrite <- !app_assoc; auto. Qed.

Lemma reads_as_unit u : 0 <= u < 0xd800 ->
  reads_as [BACKSLASH; ch "u"%char;
     byte_at kHex (Z.land (Z.shiftr u 12) 0xf); byte_at kHex (Z.land (Z.shiftr u 8) 0xf);
     byte_at kHex (Z.land (Z.shiftr u 4) 0xf); byte_at kHex (Z.land u 0xf)] (utf8 u).
Proof.
  intros Hu. pose proof (hex4_kHex u ltac:(lia)) as Hh.
  assert (Hs : ~ high_surrogate u /\ ~ low_surrogate u) by (unfold high_surrogate, low_surrogate; lia).
  split; intros r.
  - intros Hr. apply (sb_escape (ch "u"%char :: [_; _; _; _]) r); [|done].
    destruct Hs. by apply (esc_unit _ u).
  - intros t Ht. destruct Hs. by apply (dc_unit [_; _; _; _] u r t).
Qed.

Lemma escaped_ascii cp850 c : 0 < c < 0x80 -> reads_as (escaped cp850 c) [c].
Proof.
  intros Hc. unfold escaped. destruct ((c =? QUOTE) || (c =? BACKSLASH)) eqn:Eq.
  - assert (Hs : c ∈ simple_escapes ++ [NUL] /\ simple_decoded c = Some c).
    { apply orb_true_iff in Eq as [Eq|Eq]; apply Z.eqb_eq in Eq; subst; (split; [|done]);
      apply list_elem_of_In; vm_compute; auto 6. }
    destruct Hs as [He Hd]. split; intros r.
    + intros Hr. apply (sb_escape [c] r); [by constructor | done].
    + intros t Ht. by apply (dc_simple c c r t).
  - zbool. rewrite (proj2 (Z.leb_gt 0x80 c)), andb_false_r, orb_false_r by lia.
    destruct (Z.ltb_spec c 0x20).
    + replace [c] with (utf8 c); [apply reads_as_unit; lia|]. unfold utf8. by rewrite (proj2 (Z.leb_le c 0x7f)) by lia.
    + split; intros r; [intros Hr | intros t Ht]; cbn [app]; constructor; done || lia.
Qed.

Lemma utf8_ascii cp : 0 <= cp < 0x80 -> utf8 cp = [cp].
Proof. intros H. unfold utf8. by rewrite (proj2 (Z.leb_le cp 0x7f)) by lia. Qed.

Lemma utf8_high cp : scalar_value cp -> 0x80 <= cp -> Forall (fun c => 0x80 <= c < 256) (utf8 cp).
Proof.
  intros [Hs _] Hc. unfold utf8. rewrite (proj2 (Z.leb_gt cp 0x7f)) by lia.
  destruct (Z.leb_spec cp 0x7ff); [|destruct (Z.leb_spec cp 0xffff)]; repeat constructor; divmod_lia.
Qed.

Lemma escaped_high c : 0x80 <= c -> escaped false c = [c].
Proof.
  intros Hc. unfold escaped. unfold QUOTE, BACKSLASH.
  rewrite !(proj2 (Z.eqb_neq c _)), (proj2 (Z.ltb_ge c _)) by lia. done.
Qed.

Lemma escaped_utf8 cp : scalar_value cp -> 0 < cp ->
  reads_as (concat (escaped false <$> utf8 cp)) (utf8 cp).
Proof.
  intros Hs Hp. destruct (Z.lt_ge_cases cp 0x80) as [Hlow|Hhigh].
  - rewrite utf8_ascii by lia. cbn [fmap list_fmap concat]. rewrite app_nil_r. apply escaped_ascii. lia.
  - pose proof (utf8_high cp Hs Hhigh) as Hb.
    assert (Hid : concat (escaped false <$> utf8 cp) = utf8 cp).
    { induction Hb as [|c l [Hc _] _ IH]; [done|]. cbn [fmap list_fmap concat].
      rewrite escaped_high by done. cbn [app]. by f_equal. }
    rewrite Hid. split; intros r.
    + intros Hr. by apply sb_utf8.
    + clear Hid. induction Hb as [|c l [Hc _] _ IH]; intros t Ht; [done|]. cbn [app].
      apply dc_plain; [unfold BACKSLASH; lia|]. by apply IH.
Qed.

Lemma escaped_fat c : 0 < c < 256 -> reads_as (escaped true c) (utf8 (fat_codepoint c)).
Proof.
  intros Hc. unfold fat_codepoint. destruct (Z.ltb_spec c 0x80) as [Hlow|Hhigh].
  - rewrite utf8_ascii by lia. apply escaped_ascii. lia.
  - pose proof (kCp850Unicode_range c ltac:(lia)). unfold escaped, QUOTE, BACKSLASH.
    rewrite !(proj2 (Z.eqb_neq c _)), (proj2 (Z.ltb_ge c 0x20)), (proj2 (Z.leb_le 0x80 c)) by lia.
    cbn [orb andb]. apply reads_as_unit. lia.
Qed.

Lemma reads_as_nil : reads_as [] [].
Proof. split; done. Qed.

Lemma string_reads_back cp850 v cps : stands_for cp850 v cps ->
  reads_as (concat (escaped cp850 <$> v)) (concat (utf8 <$> cps)).
Proof.
  destruct cp850; intros [H ->].
  - induction H as [|c v Hc _ IH]; [apply reads_as_nil|]. cbn [fmap list_fmap concat].
    apply reads_as_app; [by apply escaped_fat | exact IH].
  - induction H as [|cp cps [Hs Hp] _ IH]; [apply reads_as_nil|]. cbn [fmap list_fmap concat].
    rewrite fmap_app, concat_app. apply reads_as_app; [by apply escaped_utf8 | exact IH].
Qed.

(** Strings survive the trip: a string written into a buffer it fits is a
    JSON string literal, and copying its token out again with [JsonCopyString]
    gives the UTF-8 text the C string stands for - itself for [String], the
    Unicode text of its CP850 characters for [FatString]. *)
Theorem StringImpl_round_trip cp850 v cps buffer size par cc (Hv : stands_for cp850 v cps)
  (Hfit : len (json_string cp850 v) < len buffer) (Hsize : len (concat (utf8 <$> cps)) < size) :
  let json := output_ (StringImpl (new_writer (Some buffer)) (Some v) cp850) in
  exists body rest, json = [QUOTE] ++ body ++ QUOTE :: NUL :: rest /\ string_body body /\
    JsonCopyString (Some json) (mkToken JSON_TOKEN_STRING 1 (1 + len body) par cc) true size =
      Some (JSON_OK, concat (utf8 <$> cps) ++ [NUL]).
Proof.
  cbv zeta. assert (Hb : buffer <> []) by (intros ->; unfold json_string in Hfit; rewrite len_cons in Hfit;
    change (len (@nil Z)) with 0 in Hfit; len_facts; lia).
  destruct (StringImpl_holds cp850 (Some v) buffer [] _ (new_writer_holds buffer Hb)) as [_ H].
  cbn [app] in H. change (default [] (Some v)) with v in H. destruct (valid_ _); [|destruct H; lia]. destruct H as (_ & _ & ->).
  destruct (string_reads_back cp850 v cps Hv) as [Hbody Hdec].
  specialize (Hbody [] sb_nil). specialize (Hdec [] [] dc_nil). rewrite !app_nil_r in Hbody, Hdec.
  set (body := concat (escaped cp850 <$> v)) in *.
  set (rest := drop (length (json_string cp850 v ++ [NUL])) buffer).
  assert (Hj : memcpy buffer 0 (json_string cp850 v ++ [NUL]) = [QUOTE] ++ body ++ QUOTE :: NUL :: rest).
  { unfold memcpy. rewrite take_0. cbn [app Nat.add]. fold rest. unfold json_string. fold body.
    cbn [app]. by rewrite <- !app_assoc. }
  rewrite Hj. exists body, rest. split; [done|]. split; [done|].
  assert (Hpos : 0 < size) by (pose proof (len_nonneg (concat (utf8 <$> cps))); lia).
  pose proof (copy_string_decodes [QUOTE] body (QUOTE :: NUL :: rest) _ par cc size Hdec Hpos) as Hc.
  cbv zeta in Hc. rewrite !app_nil_r, (proj2 (Z.ltb_lt _ _)) in Hc by done. exact Hc.
Qed.

Lemma StringImpl_round_trip_witness :
  stands_for true [0x81; 34; 10] [0xfc; 34; 10] /\
  exists body rest, output_ (StringImpl (new_writer (Some (repeat 7 24))) (Some [0x81; 34; 10]) true) =
      [QUOTE] ++ body ++ QUOTE :: NUL :: rest /\ string_body body /\
    JsonCopyString (Some (output_ (StringImpl (new_writer (Some (repeat 7 24))) (Some [0x81; 34; 10]) true)))
      (mkToken JSON_TOKEN_STRING 1 (1 + len body) 0 0) true 8 =
      Some (JSON_OK, concat (utf8 <$> [0xfc; 34; 10]) ++ [NUL]).
Proof.
  assert (H : stands_for true [0x81; 34; 10] [0xfc; 34; 10]) by (split; [repeat constructor; lia | reflexivity]).
  split; [exact H|].
  apply (StringImpl_round_trip true [0x81; 34; 10] [0xfc; 34; 10] (repeat 7 24) 8 0 0 H); vm_compute; reflexivity.
Defined.
