(* ===== verification/HttpServer.v ===== *)
(** * The HTTP server (src/src/remote/http_server.cpp, HttpServer)

    The server owns six connection slots, accepts transports from a listener into
    them, polls them in turn and releases the transports of those that have
    finished.  While a connection is polled, its router and body sinks may call
    back into the server ([PollResponsesCooperatively]) to keep other responses
    moving; so a connection is polled here in an environment that is the server
    itself, and [cooperative] says which calls a callback makes.  The theorem is
    about the transports: none is lost, used by two connections, released before
    it is closed, or released twice. *)
From stdpp Require Import gmap.
From S2P Require Import Prelude HttpRequest HttpRouter HttpResponseWriter HttpConnection.
Import Types Parser Composite.
Local Open Scope Z_scope.

Inductive HttpAcceptStatus := Accepted | AcceptWouldBlock | AcceptError.
Inductive HttpServerPollStatus := PollOk | ListenerError | InvalidConfiguration.

Class HttpListener (E : Type) := {
  Accept : E -> HttpAcceptStatus * option nat * E;
  Release : nat -> E -> E;
}.

Section server.
Context {S K E : Type} `{HttpEnvironment S K E} `{HttpResponseStream S} `{HttpListener E}.
(** The router as it acts on the environment, and the times of the cooperative
    polls that a callback of a router or a sink makes. *)
Variable base_router : HttpRouter (S := S) (K := K) (W := E).
Variable cooperative : E -> list Z.
Variable config_ : HttpServerConfig.
Notation HttpConnection := (Connection.HttpConnection (S := S) (K := K)).

Record HttpServer := mkServer {
  polling_ : list bool;
  connections_ : list HttpConnection;
  world : E;
}.

Definition valid_ : bool := Valid config_.

Definition new_server (e : E) : HttpServer :=
  mkServer (repeat false 6) (repeat Connection.new_connection 6) e.

Definition connection (s : HttpServer) (i : nat) : HttpConnection :=
  nth i (connections_ s) Connection.new_connection.
Definition polling (s : HttpServer) (i : nat) : bool := nth i (polling_ s) false.
Definition with_connection (s : HttpServer) (i : nat) (c : HttpConnection) : HttpServer :=
  mkServer (polling_ s) (<[i := c]> (connections_ s)) (world s).
Definition with_polling (s : HttpServer) (i : nat) (b : bool) : HttpServer :=
  mkServer (<[i := b]> (polling_ s)) (connections_ s) (world s).
Definition with_world (s : HttpServer) (e : E) : HttpServer :=
  mkServer (polling_ s) (connections_ s) e.

(** The indices of the loops: below [maximum_connections] and the array size. *)
Definition slots : list nat :=
  seq 0 (Z.to_nat (Z.min (maximum_connections config_) kHttpMaximumConnections)).

Definition active_connections (s : HttpServer) : Z :=
  len (filter (fun i => Connection.active_ (connection s i) = true) slots).

Definition release_slot (s : HttpServer) (i : nat) : HttpServer :=
  let '(transport, c) := Connection.TakeFinishedTransport (connection s i) in
  let s := with_connection s i c in
  match transport with
  | Some t => with_world s (Release t (world s))
  | None => s
  end.
Definition ReleaseFinished (s : HttpServer) : HttpServer := foldl release_slot s slots.

(** A cooperative poll of one slot; the connection writes a response, so neither
    the router nor a sink is called. *)
Definition cooperative_slot (now_ms : Z) (s : HttpServer) (i : nat) : HttpServer :=
  if negb (polling s i) && Connection.writing_response (connection s i) then
    let s := with_polling s i true in
    let '(_, (c, e)) := Connection.Poll base_router now_ms (connection s i, world s) in
    with_polling (with_connection (with_world s e) i c) i false
  else s.

Definition PollResponsesCooperatively (now_ms : Z) (s : HttpServer) : HttpServer :=
  if negb valid_ then s
  else ReleaseFinished (foldl (cooperative_slot now_ms) s slots).

(** A callback of the router or a sink: what it does to the environment, then
    its cooperative polls. *)
Definition call_back (s : HttpServer) (e : E) : HttpServer :=
  foldl (fun s now_ms => PollResponsesCooperatively now_ms s) (with_world s e) (cooperative e).

Definition server_Read (t : nat) (buffer : bytes) (s : HttpServer)
    : HttpIoStatus * N * bytes * HttpServer :=
  let '(status, n, buffer, e) := env_Read t buffer (world s) in
  (status, n, buffer, with_world s e).

Lemma server_Read_size t buffer s : len (server_Read t buffer s).1.2 = len buffer.
Proof.
  unfold server_Read. pose proof (env_Read_size t buffer (world s)) as Hs.
  by destruct (env_Read t buffer (world s)) as [[[st n] b] e].
Qed.

(** The environment of a connection that the server polls: the server. *)
Definition server_environment : HttpEnvironment S K HttpServer := {|
  env_Read := server_Read;
  env_Write t s data :=
    let '(status, n, e) := env_Write t (world s) data in (status, n, with_world s e);
  env_Close t s := with_world s (env_Close t (world s));
  sink_Write k data s := let '(ok, e) := sink_Write k data (world s) in (ok, call_back s e);
  sink_Reject k r s := let '(ok, r, e) := sink_Reject k r (world s) in (ok, r, call_back s e);
  sink_Finish k r s := let '(ok, r, e) := sink_Finish k r (world s) in (ok, r, call_back s e);
  sink_Abort k reason s := call_back s (sink_Abort k reason (world s));
  hook_Complete hook reason s := with_world s (hook_Complete hook reason (world s));
  env_Read_size := server_Read_size;
|}.

Definition server_router : HttpRouter (S := S) (K := K) (W := HttpServer) :=
  mkRouter
    (fun request result s =>
       let '(result, e) := Route base_router request result (world s) in (result, call_back s e))
    (fun error request response s =>
       let '(response, e) := ErrorResponse base_router error request response (world s) in
       (response, call_back s e)).

Definition poll_connection (now_ms : Z) (c : HttpConnection) (s : HttpServer)
    : bool * (HttpConnection * HttpServer) :=
  @Connection.Poll S K HttpServer server_environment _ server_router now_ms (c, s).

(** One iteration of the polling loop of [Poll], with its progress flag. *)
Definition poll_slot (now_ms : Z) (x : bool * HttpServer) (i : nat) : bool * HttpServer :=
  let '(made_progress, s) := x in
  if Connection.active_ (connection s i) && negb (polling s i) then
    let s := with_polling s i true in
    let '(progress, (c, s)) := poll_connection now_ms (connection s i) s in
    (made_progress || progress, with_polling (with_connection s i c) i false)
  else x.

(** The loop that installs an accepted transport in a free slot. *)
Fixpoint install (now_ms : Z) (t : nat) (todo : list nat) (s : HttpServer) : bool * HttpServer :=
  match todo with
  | [] => (false, s)
  | i :: todo' =>
      if negb (Connection.active_ (connection s i)) then
        let '(installed, c) := Connection.Begin (connection s i) (Some t) config_ now_ms in
        let s := with_connection s i c in
        if installed then (true, s) else install now_ms t todo' s
      else install now_ms t todo' s
  end.

(** The accepting part of [Poll]: the early return, or the progress flag. *)
Definition accept (now_ms : Z) (s : HttpServer) : (HttpServerPollStatus + bool) * HttpServer :=
  if active_connections s <? maximum_connections config_ then
    let '(status, accepted, e) := Accept (world s) in
    let s := with_world s e in
    match status, accepted with
    | AcceptError, _ => (inl ListenerError, s)
    | Accepted, None => (inl ListenerError, s)
    | Accepted, Some t =>
        let '(installed, s) := install now_ms t slots s in
        if installed then (inr true, s)
        else
          let s := with_world s (env_Close t (world s)) in
          (inl ListenerError, with_world s (Release t (world s)))
    | AcceptWouldBlock, Some _ => (inl ListenerError, s)
    | AcceptWouldBlock, None => (inr false, s)
    end
  else (inr false, s).

Definition Poll (now_ms : Z) (s : HttpServer) : HttpServerPollStatus * bool * HttpServer :=
  if negb valid_ then (InvalidConfiguration, false, s)
  else
    let s := ReleaseFinished s in
    match accept now_ms s with
    | (inl status, s) => (status, false, s)
    | (inr made_progress, s) =>
        let '(made_progress, s) := foldl (poll_slot now_ms) (made_progress, s) slots in
        (PollOk, made_progress, ReleaseFinished s)
    end.

Definition stop_slot (s : HttpServer) (i : nat) : HttpServer :=
  let '(c, s) := @Connection.Stop S K HttpServer server_environment _ (connection s i, s) in
  with_connection s i c.
Definition Stop (s : HttpServer) : HttpServer := ReleaseFinished (foldl stop_slot s slots).
End server.
