(* ===== verification/TransportLedger.v ===== *)
(** * The transports of the server (src/src/remote/http_server.cpp)

    [Module Own]: a connection closes its own transport exactly when it becomes
    inactive and otherwise leaves the environment as its operations do - for
    every property [P] of the environment that those operations keep.
    [Module Ledger] records what the server does with transports, states the
    ledger automaton, and proves that every history of the server balances. *)
From stdpp Require Import gmap.
From S2P Require Import Prelude HttpRequest HttpRouter HttpResponseWriter HttpConnection HttpServer.
Import Types Parser Composite.
Local Open Scope Z_scope.

Module Own.
Import Connection.
Section own.
Context {S K E : Type} `{HttpEnvironment S K E} `{HttpResponseStream S}.
Variable router : HttpRouter (S := S) (K := K) (W := E).
Variables (t : nat) (P Q : E -> Prop).
Notation C := (HttpConnection (S := S) (K := K)).
Implicit Types (c : C) (e : E) (x : C * E).

(** What the environment and the router keep until the transport is closed. *)
Record keeps : Prop := mkKeeps {
  keeps_Read : forall t' b e, P e -> P (env_Read t' b e).2;
  keeps_Write : forall t' e d, P e -> P (env_Write t' e d).2;
  keeps_Close : forall e, P e -> Q (env_Close t e);
  keeps_sink_Write : forall k d e, P e -> P (sink_Write k d e).2;
  keeps_Reject : forall k r e, P e -> P (sink_Reject k r e).2;
  keeps_Finish : forall k r e, P e -> P (sink_Finish k r e).2;
  keeps_Abort : forall k r e, P e -> P (sink_Abort k r e);
  keeps_hook : forall h r e, P e -> P (hook_Complete h r e);
  keeps_Route : forall q r e, P e -> P (Route router q r e).2;
  keeps_Error : forall er q r e, P e -> P (ErrorResponse router er q r e).2;
}.
Hypothesis Hk : keeps.

(** A sink is held only while its body is read and it has not ended. *)
Definition tidy c : Prop :=
  body_sink_ c = None \/ (state_ c = kReadingBody /\ body_sink_ended_ c = false).

Definition running x : Prop :=
  active_ x.1 = true /\ transport_ x.1 = Some t /\ P x.2 /\ tidy x.1.
Definition responding x : Prop :=
  active_ x.1 = true /\ transport_ x.1 = Some t /\ P x.2 /\ body_sink_ x.1 = None.
Definition owns x : Prop :=
  transport_ x.1 = Some t /\ tidy x.1 /\ if active_ x.1 then P x.2 else Q x.2.

Lemma running_owns x : running x -> owns x.
Proof. intros (Ha & Ht & Hp & Hb). split; [done|]. split; [done|]. by rewrite Ha. Qed.

Lemma owns_running x : owns x -> active_ x.1 = true -> running x.
Proof. intros (Ht & Hb & Hp) Ha. rewrite Ha in Hp. by repeat split. Qed.

Lemma responding_running x : responding x -> running x.
Proof. intros (Ha & Ht & Hp & Hb). repeat split; try done. by left. Qed.

Lemma running_responding x : running x -> state_ x.1 <> kReadingBody -> responding x.
Proof. intros (Ha & Ht & Hp & [Hb|[Hb _]]) Hs; [by repeat split | done]. Qed.

(** Setters keep the transport and whether the connection is active. *)
Lemma running_set c c' e e' : running (c, e) -> active_ c' = active_ c -> transport_ c' = transport_ c ->
  (tidy c -> tidy c') -> (P e -> P e') -> running (c', e').
Proof.
  intros (Ha & Ht & Hp & Hb) H1 H2 H3 He. unfold running. cbn [fst snd] in *. rewrite H1, H2. auto.
Qed.

Lemma responding_set c c' e e' : running (c, e) -> active_ c' = active_ c -> transport_ c' = transport_ c ->
  body_sink_ c' = None -> (P e -> P e') -> responding (c', e').
Proof. intros (Ha & Ht & Hp & Hb) H1 H2 H3 He. unfold responding. cbn [fst snd] in *. rewrite H1, H2. auto. Qed.

Lemma AbortBody_responding r x : running x -> responding (AbortBody r x).
Proof.
  destruct x as [c e]. intros Hr. unfold AbortBody. destruct (body_sink_ c) as [k|] eqn:Ek.
  - destruct (negb _); (eapply responding_set; [exact Hr | done | done | done |]); [apply keeps_Abort, Hk | done].
  - by eapply responding_set.
Qed.

(** Without an open sink, ending a connection only runs its hook and closes its
    transport. *)
Lemma Terminate_responding r b x : (forall h r e, P e -> P (hook_Complete h r e)) ->
  (forall e, P e -> Q (env_Close t e)) -> responding x -> owns (Terminate r b x).
Proof.
  intros Hhook Hclose. destruct x as [c e]. intros (Ha & Ht & Hp & Hb). cbn [fst snd] in *.
  unfold Terminate. cbn [fst]. rewrite Ha. cbn [negb]. unfold AbortBody. rewrite Hb.
  set (c1 := if active (writer_ c) then _ else c).
  assert (Hc1 : transport_ c1 = Some t /\ body_sink_ c1 = None) by (unfold c1; by destruct (active (writer_ c))).
  destruct Hc1 as [Ht1 Hb1]. unfold NotifyCompletion. destruct (completion_notified_ c1); cbn [fst snd].
  - rewrite Ht1. split; [done|]. split; [by left | by apply Hclose].
  - change (transport_ (set_completion c1 None true)) with (transport_ c1). rewrite Ht1.
    split; [done|]. split; [by left|]. apply Hclose. destruct (response_completion_ c1); auto.
Qed.

Lemma Terminate_owns r b x : running x -> owns (Terminate r b x).
Proof.
  intros Hr. pose proof (AbortBody_responding b x Hr) as Hy.
  replace (Terminate r b x) with (Terminate r b (AbortBody b x)).
  { apply Terminate_responding; [apply keeps_hook, Hk | apply keeps_Close, Hk | done]. }
  unfold Terminate. rewrite (proj1 Hr), (proj1 Hy). cbn [negb].
  assert (Hi : AbortBody b (AbortBody b x) = AbortBody b x); [|by rewrite Hi].
  destruct Hy as (_ & _ & _ & Hb). destruct (AbortBody b x) as [c e]. unfold AbortBody. cbn [fst] in Hb. by rewrite Hb.
Qed.

Lemma BeginResponse_owns r x : responding x -> owns (BeginResponse router r x).
Proof.
  destruct x as [c e]. intros Hr. unfold BeginResponse. destruct (Start _ _ _) as [[st w] rel].
  assert (Hset : forall c' e', active_ c' = active_ c -> transport_ c' = transport_ c ->
    body_sink_ c' = body_sink_ c -> (P e -> P e') -> running (c', e')).
  { intros c' e' Ha Ht Hb He. apply responding_running.
    eapply responding_set; [by apply responding_running | done | done | by rewrite Hb; apply Hr | done]. }
  assert (He : P e -> P (match completion r with
                    Some hook => hook_Complete hook CompletionInvalidResponse e | None => e end))
    by (destruct (completion r); [apply keeps_hook, Hk | done]).
  destruct st; [by apply running_owns, Hset | ..];
    (match goal with |- context [ErrorResponse router ?er ?q ?r0 ?e0] =>
       pose proof (keeps_Error Hk er q r0 e0) as Her; destruct (ErrorResponse router er q r0 e0) as [fb e1]
     end; destruct (Start _ _ _) as [[st2 w2] rel2]; cbn [snd] in Her;
     destruct st2; [apply running_owns, Hset; auto | ..]; apply Terminate_owns, Hset; auto).
Qed.

Lemma BeginError_owns er x : responding x -> owns (BeginError router er x).
Proof.
  destruct x as [c e]. intros Hr. unfold BeginError.
  pose proof (keeps_Error Hk er (ErrorRequest c) new_response e) as Her.
  destruct (ErrorResponse router _ _ _ _) as [r e1]. apply BeginResponse_owns.
  eapply responding_set; [by apply responding_running | done | done | apply Hr | exact Her].
Qed.

Lemma running_ended c e k : running (c, e) -> body_sink_ c = Some k -> body_sink_ended_ c = false.
Proof. intros (_ & _ & _ & [Hb|[_ Hb]]) Hk'; cbn [fst] in *; congruence. Qed.

Lemma FinishBody_owns x : running x -> owns (FinishBody router x).
Proof.
  destruct x as [c e]. intros Hr. unfold FinishBody. destruct (body_sink_ c) as [k|] eqn:Ek.
  2: { apply BeginError_owns. by eapply responding_set. }
  rewrite (running_ended c e k Hr Ek).
  pose proof (keeps_Finish Hk k new_response e) as Hf. destruct (sink_Finish k new_response e) as [[[] r] e1]; cbn [negb snd] in *.
  - apply BeginResponse_owns. by eapply responding_set.
  - apply BeginError_owns. eapply responding_set; [exact Hr | done | done | done |]. intros Hp. by apply keeps_Abort, Hf.
Qed.

Lemma RejectBody_owns x : running x -> owns (RejectBody router x).
Proof.
  destruct x as [c e]. intros Hr. unfold RejectBody. destruct (body_sink_ c) as [k|] eqn:Ek.
  2: { apply BeginError_owns. by eapply responding_set. }
  rewrite (running_ended c e k Hr Ek).
  pose proof (keeps_Reject Hk k new_response e) as Hf. destruct (sink_Reject k new_response e) as [[[] r] e1]; cbn [snd] in *.
  - apply BeginResponse_owns. by eapply responding_set.
  - apply BeginError_owns. eapply responding_set; [exact Hr | done | done | done |]. intros Hp. by apply keeps_Abort, Hf.
Qed.

Lemma RouteRequest_owns x : responding x -> owns (RouteRequest router x).
Proof.
  destruct x as [c e]. intros Hr. unfold RouteRequest.
  pose proof (keeps_Route Hk (request_ (parser_ c)) new_result e) as Hf.
  destruct (Route router _ _ _) as [route e1]. cbn [snd] in Hf.
  assert (Hresp : responding (c, e1))
    by (eapply responding_set; [by apply responding_running | done | done | apply Hr | exact Hf]).
  destruct (action route); [by apply BeginError_owns | by apply BeginResponse_owns |].
  destruct (body_sink route) as [k|]; [|by apply BeginError_owns]. cbv zeta.
  assert (H1 : forall c' b, active_ c' = active_ c -> transport_ c' = transport_ c ->
    body_sink_ c' = Some k -> body_sink_ended_ c' = false -> responding (AbortBody b (c', e1))).
  { intros c' b Ha Ht Hb He. unfold AbortBody. rewrite Hb, He. cbn [negb].
    eapply responding_set; [by apply responding_running | done | done | done |]. apply keeps_Abort, Hk. }
  assert (H2 : forall c', active_ c' = active_ c -> transport_ c' = transport_ c -> tidy c' -> running (c', e1))
    by (intros c' Ha Ht Hb; eapply running_set; [by apply responding_running | done | done | done | done]).
  destruct (negb _); [by apply BeginError_owns, H1|].
  destruct (_ <? _); [by apply BeginError_owns, H1|].
  destruct (_ =? 0); [|apply running_owns, H2; [done | done | by right]].
  destruct (_ <? _); [by apply BeginError_owns, H1 | apply FinishBody_owns, H2; [done | done | by right]].
Qed.

Lemma process_turn_owns next x : (forall y, owns y -> owns (next y)) -> owns x ->
  owns (process_turn router next x).
Proof.
  intros Hn Hx. destruct x as [c e]. unfold process_turn.
  destruct (active_ c && _) eqn:Ea; cbn [negb]; [|done]. apply andb_true_iff in Ea as [Ea _].
  pose proof (owns_running _ Hx Ea) as Hr.
  destruct (state_ c) eqn:Est; [done | | |done].
  - assert (Hsink : body_sink_ c = None) by (apply (running_responding (c, e) Hr); cbn [fst]; by rewrite Est).
    assert (H1 : forall c', active_ c' = active_ c -> transport_ c' = transport_ c ->
      body_sink_ c' = body_sink_ c -> responding (c', e))
      by (intros c' Ha Ht Hb; eapply responding_set; [exact Hr | done | done | by rewrite Hb | done]).
    destruct (Feed _ _) as [[st consumed] p]. destruct st;
      first [by apply running_owns, responding_running, H1 | by apply Hn, RouteRequest_owns, H1
            | by apply BeginError_owns, H1].
  - assert (H1 : forall c' e', active_ c' = active_ c -> transport_ c' = transport_ c -> (tidy c -> tidy c') ->
      (P e -> P e') -> running (c', e')) by (intros c' e' Ha Ht Hb He; by eapply running_set).
    destruct (_ <? _); [by apply BeginError_owns, AbortBody_responding|].
    destruct (body_sink_ c) as [k|]; [|done].
    pose proof (keeps_sink_Write Hk k (unread c) e) as Hw. destruct (sink_Write k (unread c) e) as [[] e1]; cbn [negb snd] in *.
    + apply Hn. destruct (_ =? 0); [by apply FinishBody_owns, H1 | by apply running_owns, H1].
    + by apply RejectBody_owns, H1.
Qed.

Lemma process_loop_owns fuel : forall x, owns x -> owns (process_loop router fuel x).
Proof. induction fuel as [|fuel IH]; intros x Hx; [done|]. cbn [process_loop]. by apply process_turn_owns. Qed.

Lemma ProcessBufferedInput_owns x : owns x -> owns (ProcessBufferedInput router x).
Proof.
  intros Hx. unfold ProcessBufferedInput. pose proof (process_loop_owns 4 x Hx) as Ho.
  destruct (process_loop router 4 x) as [c e]. by destruct (_ =? _).
Qed.

Lemma transport_read_running c e : running (c, e) ->
  let '(_, _, c', e') := transport_read c e in running (c', e').
Proof.
  intros Hr. unfold transport_read. destruct (transport_ c) as [t'|] eqn:Et; [|done].
  pose proof (keeps_Read Hk t' (read_buffer_ c) e) as Hf. destruct (env_Read t' _ e) as [[[st n] b] e1].
  by eapply running_set.
Qed.

Lemma PollResponse_owns now x : running x -> owns (PollResponse now x).2.
Proof.
  destruct x as [c e]. intros Hr. unfold PollResponse. destruct (_ && _); [by apply Terminate_owns|].
  destruct (_ && _); [by apply Terminate_owns|]. destruct (_ && _); [by apply Terminate_owns|].
  assert (Hw : let '(_, _, c', e') := writer_poll c e in running (c', e')).
  { unfold writer_poll. destruct (transport_ c) as [t'|] eqn:Et; [|done].
    pose proof (@Poll_transport S E _ (as_transport t') (writer_ c) e) as Hp.
    destruct (HttpResponseWriter.Poll _ _) as [[[st pr] w] e1]. eapply running_set; [exact Hr | done | done | done |].
    intros HP. destruct Hp as [->|[d ->]]; [done | by apply (keeps_Write Hk)]. }
  destruct (writer_poll c e) as [[[st pr] c1] e1].
  set (c2 := if pr : bool then _ else c1).
  assert (H2 : running (c2, e1)) by (unfold c2; destruct pr; [by eapply running_set | done]).
  cbn [snd]. destruct st; try (by apply running_owns); try (by apply Terminate_owns).
  pose proof (transport_read_running c2 e1 H2) as H3. destruct (transport_read c2 e1) as [[[st2 n] c3] e3].
  destruct st2; try (by apply Terminate_owns); (destruct (n =? 0); first [by apply running_owns | by apply Terminate_owns]).
Qed.

Lemma poll_read_owns now x : running x -> owns (poll_read router now x).2.
Proof.
  destruct x as [c e]. intros Hr. unfold poll_read.
  pose proof (transport_read_running c e Hr) as H3. destruct (transport_read c e) as [[[st n] c1] e1].
  destruct st; cbn [snd].
  - destruct (_ || _); [by apply Terminate_owns|]. cbn [snd]. apply ProcessBufferedInput_owns, running_owns.
    by eapply running_set.
  - destruct (negb _); [by apply Terminate_owns | by apply running_owns].
  - by apply Terminate_owns.
  - by apply Terminate_owns.
Qed.

Lemma Poll_owns now x : running x -> owns (Connection.Poll router now x).2.
Proof.
  destruct x as [c e]. intros Hr. unfold Connection.Poll. rewrite (proj1 Hr : active_ c = true). cbn [negb].
  set (c1 := if phase_timing_pending_ c then _ else c).
  assert (H1 : running (c1, e)) by (unfold c1; destruct (phase_timing_pending_ c); [by eapply running_set | done]).
  clearbody c1. destruct (state_ c1) eqn:Est; [| | | by apply PollResponse_owns];
    repeat rewrite bool_decide_eq_false_2 by discriminate; cbn [andb];
    repeat match goal with |- context [if ?b then _ else _] => destruct b end;
    first [by apply BeginError_owns, AbortBody_responding
          | apply BeginError_owns, running_responding; [done | cbn [fst]; by rewrite Est]
          | by apply ProcessBufferedInput_owns, running_owns | by apply poll_read_owns].
Qed.

Lemma Terminate_inactive r b x : active_ (Terminate r b x).1 = false.
Proof.
  unfold Terminate. destruct (active_ x.1) eqn:Ha; cbn [negb]; [|done].
  destruct (AbortBody b x) as [c e]. by destruct (NotifyCompletion _ _) as [c2 e2].
Qed.
End own.
End Own.

Module Ledger.
(** *** The ledger: what happened to transports, and its verdict *)
Inductive event := EvAccept (t : nat) | EvClose (t : nat) | EvRelease (t : nat).

(** [Balanced o c]: the transports in [o] are accepted and open, those in [c]
    closed and not yet released.  Handing out a transport that is still in use is
    the listener's fault, every other misstep the server's. *)
Inductive verdict := Balanced (o c : gset nat) | ListenerFault | ServerFault.

Definition account (v : verdict) (ev : event) : verdict :=
  match v, ev with
  | Balanced o c, EvAccept t => if decide (t ∈ o ∪ c) then ListenerFault else Balanced ({[t]} ∪ o) c
  | Balanced o c, EvClose t => if decide (t ∈ o) then Balanced (o ∖ {[t]}) ({[t]} ∪ c) else ServerFault
  | Balanced o c, EvRelease t => if decide (t ∈ c) then Balanced o (c ∖ {[t]}) else ServerFault
  | _, _ => v
  end.

Definition balance (evs : list event) : verdict := foldl account (Balanced ∅ ∅) evs.

Section ledger.
Context {S K E : Type} `{HttpEnvironment S K E} `{HttpResponseStream S} `{HttpListener E}.
Variable router : HttpRouter (S := S) (K := K) (W := E).
Variable cooperative : E -> list Z.
Variable config : HttpServerConfig.

(** The environment, the listener and the router, recording the events. *)
Record Ledger := mkLedger { inner : E; events : list event }.
Definition keep (l : Ledger) (e : E) : Ledger := mkLedger e (events l).
Definition enter (l : Ledger) (e : E) (ev : event) : Ledger := mkLedger e (events l ++ [ev]).

Definition ledger_Read (t : nat) (buffer : bytes) (l : Ledger) : HttpIoStatus * N * bytes * Ledger :=
  let '(status, n, buffer, e) := env_Read t buffer (inner l) in (status, n, buffer, keep l e).

Lemma ledger_Read_size t buffer l : len (ledger_Read t buffer l).1.2 = len buffer.
Proof.
  unfold ledger_Read. pose proof (env_Read_size t buffer (inner l)) as Hs.
  by destruct (env_Read t buffer (inner l)) as [[[st n] b] e].
Qed.

#[export] Instance ledger_environment : HttpEnvironment S K Ledger := {
  env_Read := ledger_Read;
  env_Write t l data :=
    let '(status, n, e) := env_Write t (inner l) data in (status, n, keep l e);
  env_Close t l := enter l (env_Close t (inner l)) (EvClose t);
  sink_Write k data l := let '(ok, e) := sink_Write k data (inner l) in (ok, keep l e);
  sink_Reject k r l := let '(ok, r, e) := sink_Reject k r (inner l) in (ok, r, keep l e);
  sink_Finish k r l := let '(ok, r, e) := sink_Finish k r (inner l) in (ok, r, keep l e);
  sink_Abort k reason l := keep l (sink_Abort k reason (inner l));
  hook_Complete hook reason l := keep l (hook_Complete hook reason (inner l));
  env_Read_size := ledger_Read_size;
}.

#[export] Instance ledger_listener : HttpListener Ledger := {
  Accept l :=
    let '(status, accepted, e) := Accept (inner l) in
    (status, accepted,
     match status, accepted with Accepted, Some t => enter l e (EvAccept t) | _, _ => keep l e end);
  Release t l := enter l (Release t (inner l)) (EvRelease t);
}.

Definition ledger_router : HttpRouter (S := S) (K := K) (W := Ledger) :=
  mkRouter
    (fun request result l =>
       let '(result, e) := Route router request result (inner l) in (result, keep l e))
    (fun error request response l =>
       let '(response, e) := ErrorResponse router error request response (inner l) in
       (response, keep l e)).

Notation Server := (HttpServer (S := S) (K := K) (E := Ledger)).
Notation C := (Connection.HttpConnection (S := S) (K := K)).
Notation R := ledger_router.
Notation coop := (fun l : Ledger => cooperative (inner l)).
Implicit Types (s : Server) (c : C).

(** The public operations and their histories. *)
Inductive call := CallPoll (now_ms : Z) | CallCooperative (now_ms : Z) | CallStop.

Definition serve s (o : call) : Server :=
  match o with
  | CallPoll now => (Poll R coop config now s).2
  | CallCooperative now => PollResponsesCooperatively R config now s
  | CallStop => Stop R coop config s
  end.

Definition served (e : E) (calls : list call) : Server :=
  foldl serve (new_server (mkLedger e [])) calls.

(** *** The invariant *)
Definition holds s (i : nat) (t : nat) : Prop :=
  (i < 6)%nat /\ Connection.transport_ (connection s i) = Some t.

(** Every slot holds what the ledger says, and no two hold the same. *)
Definition slot_wf c : Prop :=
  Own.tidy c /\ (Connection.active_ c = true -> Connection.transport_ c <> None).
Definition slot_ok (o cl : gset nat) c : Prop :=
  forall t, Connection.transport_ c = Some t -> if Connection.active_ c then t ∈ o else t ∈ cl.

Definition books s (o cl : gset nat) : Prop :=
  o ## cl /\ (forall i, (i < 6)%nat -> slot_ok o cl (connection s i)) /\
  (forall i j t, holds s i t -> holds s j t -> i = j) /\
  (forall t, t ∈ o ∪ cl -> exists i, i ∈ slots config /\ holds s i t).

Definition Inv s : Prop :=
  length (connections_ s) = 6%nat /\ length (polling_ s) = 6%nat /\
  (forall i, (i < 6)%nat -> slot_wf (connection s i)) /\
  match balance (events (world s)) with
  | Balanced o cl => books s o cl
  | ListenerFault => True
  | ServerFault => False
  end.

Lemma balance_snoc evs ev : balance (evs ++ [ev]) = account (balance evs) ev.
Proof. unfold balance. by rewrite foldl_app. Qed.

Lemma slots_lt i : i ∈ slots config -> (i < 6)%nat.
Proof. unfold slots, kHttpMaximumConnections. rewrite elem_of_seq. lia. Qed.

Lemma connection_set s i j c : length (connections_ s) = 6%nat -> (i < 6)%nat ->
  connection (with_connection s i c) j = if decide (i = j) then c else connection s j.
Proof.
  intros Hl Hi. unfold connection, with_connection. cbn [connections_]. rewrite !nth_lookup.
  destruct (decide (i = j)) as [->|Hne]; [by rewrite list_lookup_insert_eq by lia|].
  by rewrite list_lookup_insert_ne.
Qed.

Lemma polling_set s i j b : length (polling_ s) = 6%nat -> (i < 6)%nat ->
  polling (with_polling s i b) j = if decide (i = j) then b else polling s j.
Proof.
  intros Hl Hi. unfold polling, with_polling. cbn [polling_]. rewrite !nth_lookup.
  destruct (decide (i = j)) as [->|Hne]; [by rewrite list_lookup_insert_eq by lia|].
  by rewrite list_lookup_insert_ne.
Qed.

(** Only slots, their number and the events matter. *)
Lemma Inv_same s s' : Inv s -> connections_ s' = connections_ s ->
  length (polling_ s') = 6%nat -> events (world s') = events (world s) -> Inv s'.
Proof.
  intros (Hc & Hp & Hw & Hb) Hcs Hps He. unfold Inv, books, holds, connection in *. by rewrite Hcs, He.
Qed.

Lemma Inv_wf s i c : Inv s -> (i < 6)%nat -> slot_wf c -> forall j, (j < 6)%nat ->
  slot_wf (connection (with_connection s i c) j).
Proof.
  intros (Hc & _ & Hw & _) Hi Hwf j Hj. rewrite connection_set by done.
  destruct (decide (i = j)); [done | by apply Hw].
Qed.

(** Replacing a connection by one with the same transport and the matching
    account. *)
Lemma Inv_active s i c : Inv s -> (i < 6)%nat -> slot_wf c ->
  Connection.active_ c = Connection.active_ (connection s i) ->
  Connection.transport_ c = Connection.transport_ (connection s i) -> Inv (with_connection s i c).
Proof.
  intros HI Hi Hwf Ha Htr. pose proof (Inv_wf s i c HI Hi Hwf) as Hw. destruct HI as (Hc & Hp & _ & Hb).
  split; [cbn; by rewrite length_insert|]. split; [done|]. split; [done|].
  cbn [with_connection world]. destruct (balance _) as [o cl| |]; [|done..].
  destruct Hb as (Hd & Hs & Hj & Hcov).
  assert (Hh : forall j t, holds (with_connection s i c) j t <-> holds s j t).
  { intros j t. unfold holds. rewrite connection_set by done. destruct (decide (i = j)) as [<-|]; [by rewrite Htr | done]. }
  split; [done|]. split; [|split].
  - intros j Hj6. rewrite connection_set by done. destruct (decide (i = j)) as [<-|]; [|by apply Hs].
    unfold slot_ok. rewrite Htr, Ha. by apply Hs.
  - intros j k t. rewrite !Hh. apply Hj.
  - intros t Hin. destruct (Hcov t Hin) as (j & Hj1 & Hj2). exists j. by rewrite Hh.
Qed.

(** The same after the transport of an active slot has been closed. *)
Lemma Inv_closed s i c l t : Inv s -> (i < 6)%nat -> slot_wf c ->
  Connection.active_ c = false -> Connection.active_ (connection s i) = true ->
  Connection.transport_ (connection s i) = Some t -> Connection.transport_ c = Some t ->
  events l = events (world s) ++ [EvClose t] -> Inv (with_connection (with_world s l) i c).
Proof.
  intros HI Hi Hwf Ha Ha0 Htr0 Htr Hev. pose proof (Inv_wf s i c HI Hi Hwf) as Hw.
  destruct HI as (Hc & Hp & _ & Hb).
  split; [cbn; by rewrite length_insert|]. split; [done|]. split; [exact Hw|].
  cbn [with_connection with_world world]. rewrite Hev, balance_snoc.
  destruct (balance _) as [o cl| |]; [|done..]. destruct Hb as (Hd & Hs & Hj & Hcov). cbn [account].
  set (s' := with_connection _ i c).
  assert (Hconn : forall j, connection s' j = if decide (i = j) then c else connection s j)
    by (intros j; unfold s'; by rewrite connection_set).
  assert (Hh : forall j u, holds s' j u <-> holds s j u).
  { intros j u. unfold holds. rewrite Hconn. destruct (decide (i = j)) as [<-|]; [by rewrite Htr, Htr0 | done]. }
  assert (Hto : t ∈ o) by (pose proof (Hs i Hi t Htr0) as Hm; by rewrite Ha0 in Hm).
  rewrite decide_True by done. split; [set_solver|]. split; [|split].
  - intros j Hj6 u Hu. rewrite Hconn in *. destruct (decide (i = j)) as [<-|Hne].
    + rewrite Ha. set_solver.
    + assert (u <> t) by (intros ->; apply Hne; apply (Hj i j t); by split).
      pose proof (Hs j Hj6 u Hu) as Hm. destruct (Connection.active_ (connection s j)); set_solver.
  - intros j k u. rewrite !Hh. apply Hj.
  - intros u Hin. destruct (Hcov u) as (j & Hj1 & Hj2); [set_solver|]. exists j. by rewrite Hh.
Qed.

(** *** Releasing *)
Lemma release_slot_Inv s i : Inv s -> (i < 6)%nat -> Inv (release_slot s i) /\
  (forall j, connection (release_slot s i) j =
     if decide (i = j) then (Connection.TakeFinishedTransport (connection s i)).2 else connection s j).
Proof.
  intros HI Hi. pose proof HI as (Hc & Hp & Hw & Hb).
  assert (Hconn : forall j, connection (release_slot s i) j =
     if decide (i = j) then (Connection.TakeFinishedTransport (connection s i)).2 else connection s j).
  { intros j. unfold release_slot. destruct (Connection.TakeFinishedTransport (connection s i)) as [[t|] c];
      cbn [snd]; rewrite <- (connection_set s i j c Hc Hi); done. }
  split; [|exact Hconn]. unfold release_slot, Connection.TakeFinishedTransport in *.
  destruct (Connection.active_ (connection s i)) eqn:Ha; [by apply Inv_active; [| |apply Hw| |]|].
  set (c := Connection.set_transport (connection s i) None) in *. cbn [snd] in Hconn.
  assert (Hwf : slot_wf c) by (split; [apply (Hw i Hi) | intros Hx; change (Connection.active_ (connection s i) = true) in Hx; congruence]).
  destruct (Connection.transport_ (connection s i)) as [t|] eqn:Et.
  2: { apply Inv_active; done. }
  split; [cbn; by rewrite length_insert|]. split; [done|].
  split; [intros j Hj; apply (Inv_wf s i c HI Hi Hwf j Hj)|].
  cbn [with_connection with_world world Release ledger_listener enter events] in Hconn |- *. rewrite balance_snoc.
  destruct (balance _) as [o cl| |]; [|done..]. destruct Hb as (Hd & Hs & Hj & Hcov). cbn [account].
  assert (Htc : t ∈ cl) by (pose proof (Hs i Hi t Et) as Hm; by rewrite Ha in Hm).
  rewrite decide_True by done. set (s' := with_world _ _) in *.
  assert (Hh : forall j u, holds s' j u <-> holds s j u /\ i <> j).
  { intros j u. unfold holds. rewrite Hconn. destruct (decide (i = j)) as [<-|]; [|tauto].
    split; [intros [_ Hx]; discriminate Hx | tauto]. }
  split; [set_solver|]. split; [|split].
  - intros j Hj6 u Hu. rewrite Hconn in *. destruct (decide (i = j)) as [<-|Hne]; [discriminate Hu|].
    assert (u <> t) by (intros ->; apply Hne; apply (Hj i j t); by split).
    pose proof (Hs j Hj6 u Hu) as Hm. destruct (Connection.active_ (connection s j)); set_solver.
  - intros j k u Hj1 Hk1. apply Hh in Hj1 as [Hj1 _], Hk1 as [Hk1 _]. by apply (Hj j k u).
  - intros u Hin. destruct (Hcov u) as (j & Hj1 & Hj2); [set_solver|]. exists j. split; [done|].
    apply Hh. split; [done|]. intros <-. assert (u = t) by (destruct Hj2 as [_ Hj2]; congruence).
    subst u. set_solver.
Qed.

(** A slot whose transport is still to be released. *)
Definition finished c : Prop := Connection.active_ c = false /\ Connection.transport_ c <> None.

Lemma Take_not_finished c : ~ finished (Connection.TakeFinishedTransport c).2.
Proof.
  unfold Connection.TakeFinishedTransport, finished. destruct (Connection.active_ c) eqn:Hx; cbn [snd]; [intros [? _]; congruence|].
  by intros [_ Hn].
Qed.

Lemma Take_active c : Connection.active_ c = true -> (Connection.TakeFinishedTransport c).2 = c.
Proof. intros Ha. unfold Connection.TakeFinishedTransport. by rewrite Ha. Qed.

Lemma Take_twice c : (Connection.TakeFinishedTransport (Connection.TakeFinishedTransport c).2).2 =
  (Connection.TakeFinishedTransport c).2.
Proof.
  unfold Connection.TakeFinishedTransport at 2 3. destruct (Connection.active_ c) eqn:Hx; cbn [snd];
    [by apply Take_active|]. unfold Connection.TakeFinishedTransport.
  change (Connection.active_ (Connection.set_transport c None)) with (Connection.active_ c). by rewrite Hx.
Qed.

Lemma release_slots_Inv l : forall s, Inv s -> Forall (fun i => (i < 6)%nat) l ->
  let s' := foldl release_slot s l in
  Inv s' /\ polling_ s' = polling_ s /\
  (forall j, connection s' j = connection s j \/ connection s' j = (Connection.TakeFinishedTransport (connection s j)).2) /\
  (forall j, j ∈ l -> ~ finished (connection s' j)).
Proof.
  induction l as [|i l IH]; intros s HI Hl; cbn [foldl].
  { split; [done|]. split; [done|]. split; [by left|]. intros j Hj. by apply not_elem_of_nil in Hj. }
  apply Forall_cons in Hl as [Hi Hl]. destruct (release_slot_Inv s i HI Hi) as [G1 G2].
  destruct (IH _ G1 Hl) as (G3 & G4 & G5 & G6). split; [done|].
  split. { rewrite G4. unfold release_slot. by destruct (Connection.TakeFinishedTransport _) as [[]]. }
  split.
  - intros j. destruct (G5 j) as [->| ->]; rewrite G2; (destruct (decide (i = j)) as [<-|]; [right | by auto]); [done|].
    apply Take_twice.
  - intros j Hj. destruct (G5 j) as [Heq|Heq]; rewrite Heq.
    + apply elem_of_cons in Hj as [->|Hj]; [rewrite G2, decide_True by done; apply Take_not_finished|].
      rewrite <- Heq. by apply G6.
    + apply Take_not_finished.
Qed.

Lemma slots_all_lt : Forall (fun i => (i < 6)%nat) (slots config).
Proof. apply Forall_forall. apply slots_lt. Qed.

(** After a release round only open transports are left. *)
Definition settled s : Prop :=
  Inv s /\ (forall i, i ∈ slots config -> ~ finished (connection s i)) /\
  (forall o cl, balance (events (world s)) = Balanced o cl -> cl = ∅).

Lemma ReleaseFinished_settled s : Inv s -> settled (ReleaseFinished config s) /\
  polling_ (ReleaseFinished config s) = polling_ s /\
  (forall j, Connection.active_ (connection s j) = true -> connection (ReleaseFinished config s) j = connection s j) /\
  (forall j, Connection.active_ (connection (ReleaseFinished config s) j) = true ->
     Connection.active_ (connection s j) = true).
Proof.
  intros HI. destruct (release_slots_Inv (slots config) s HI slots_all_lt) as (G1 & G2 & G3 & G4).
  unfold ReleaseFinished. split; [|split; [done|]].
  - split; [done|]. split; [exact G4|]. intros o cl Hbal. destruct G1 as (_ & _ & _ & Hb). rewrite Hbal in Hb.
    destruct Hb as (Hd & Hs & _ & Hcov). apply set_eq. intros t. split; [|set_solver]. intros Ht.
    destruct (Hcov t) as (i & Hi & Hh1 & Hh2); [set_solver|]. pose proof (Hs i Hh1 t Hh2) as Hm.
    destruct (Connection.active_ (connection _ i)) eqn:Ea in Hm; [set_solver|].
    exfalso. apply (G4 i Hi). split; [done | by rewrite Hh2].
  - split.
    + intros j Ha. destruct (G3 j) as [->| ->]; [done | by apply Take_active].
    + intros j Ha. destruct (G3 j) as [Hx|Hx]; rewrite Hx in Ha; [done|].
      unfold Connection.TakeFinishedTransport in Ha. destruct (Connection.active_ (connection s j)) eqn:Hy; [done|].
      change (Connection.active_ (connection s j) = true) in Ha. congruence.
Qed.

(** *** Polling a connection on the recorded environment *)
Lemma ledger_keeps evs t : Own.keeps (E := Ledger) R t (fun l => events l = evs)
  (fun l => events l = evs ++ [EvClose t]).
Proof.
  constructor; intros; cbn; try done.
  - unfold ledger_Read. by destruct (env_Read _ _ _) as [[[? ?] ?] ?].
  - by destruct (env_Write _ _ _) as [[? ?] ?].
  - congruence.
  - by destruct (sink_Write _ _ _) as [? ?].
  - by destruct (sink_Reject _ _ _) as [[? ?] ?].
  - by destruct (sink_Finish _ _ _) as [[? ?] ?].
  - by destruct (Route _ _ _ _) as [? ?].
  - by destruct (ErrorResponse _ _ _ _ _) as [? ?].
Qed.

Lemma wf_running s i : Inv s -> (i < 6)%nat -> Connection.active_ (connection s i) = true ->
  exists t, Connection.transport_ (connection s i) = Some t /\ Own.tidy (connection s i).
Proof.
  intros (_ & _ & Hw & _) Hi Ha. destruct (Hw i Hi) as [Ht Htr]. specialize (Htr Ha).
  destruct (Connection.transport_ (connection s i)) as [t|]; [by exists t | done].
Qed.

Lemma owns_wf {W} t (P Q : W -> Prop) x : Own.owns (S := S) (K := K) t P Q x -> slot_wf x.1.
Proof. intros (Ht & Htd & _). split; [done|]. by rewrite Ht. Qed.

(** No slot becomes active. *)
Definition no_new s s' : Prop := forall i, Connection.active_ (connection s' i) = true ->
  Connection.active_ (connection s i) = true.

(** What polling slot [j] cooperatively changes: that slot. *)
Definition only_slot s s' (j : nat) : Prop :=
  length (polling_ s') = 6%nat /\ no_new s s' /\ (forall i, polling s' i = polling s i) /\
  (forall i, i <> j -> connection s' i = connection s i).

Lemma set_polling_twice s s1 j b : length (polling_ s) = 6%nat -> (j < 6)%nat -> polling s j = false ->
  polling_ s1 = <[j := b]> (polling_ s) -> polling_ (with_polling s1 j false) = polling_ s.
Proof.
  intros Hl Hj Hp He. unfold with_polling. cbn [polling_]. rewrite He, list_insert_insert_eq.
  apply list_insert_id. unfold polling in Hp. rewrite nth_lookup in Hp.
  destruct (polling_ s !! j) eqn:Ej; cbn in Hp; [by subst|]. apply lookup_ge_None in Ej. lia.
Qed.

Lemma cooperative_slot_Inv now s j : Inv s -> (j < 6)%nat ->
  Inv (cooperative_slot R now s j) /\ only_slot s (cooperative_slot R now s j) j.
Proof.
  intros HI Hj. unfold cooperative_slot. pose proof HI as (Hc & Hp & _).
  destruct (negb (polling s j) && _) eqn:Hg; [|split; [exact HI | split; [done|]; split; [by intros i|]; by split]]. apply andb_true_iff in Hg as [Hpj Hwr].
  apply negb_true_iff in Hpj. apply andb_true_iff in Hwr as [Ha _].
  destruct (wf_running s j HI Hj Ha) as (t & Htr & Htd).
  change (connection (with_polling s j true) j) with (connection s j). change (world (with_polling s j true)) with (world s).
  pose proof (Own.Poll_owns R t _ _ (ledger_keeps (events (world s)) t) now (connection s j, world s)) as Hown.
  specialize (Hown (conj Ha (conj Htr (conj eq_refl Htd)))).
  destruct (Connection.Poll R now (connection s j, world s)) as [pr [c l]]. cbn [snd] in Hown.
  pose proof (owns_wf _ _ _ _ Hown) as Hwf. destruct Hown as (Htr' & _ & Hev). cbn [fst snd] in Htr', Hev, Hwf.
  set (s2 := with_polling (with_connection (with_world (with_polling s j true) l) j c) j false).
  assert (Hpol : polling_ s2 = polling_ s) by (by apply (set_polling_twice s _ j true)).
  assert (Hconn : forall i, connection s2 i = connection (with_connection s j c) i) by done.
  assert (Honly : only_slot s s2 j).
  { split; [by rewrite Hpol|]. split.
    { intros i. rewrite Hconn, connection_set by done. by destruct (decide (j = i)) as [<-|]. }
    split; [intros i; unfold polling; by rewrite Hpol|]. intros i Hi.
    rewrite Hconn, connection_set by done. by rewrite decide_False. }
  split; [|exact Honly]. destruct (Connection.active_ c) eqn:Hac.
  - eapply (Inv_same (with_connection s j c)); [|done | by rewrite Hpol | exact Hev].
    apply Inv_active; [done | done | done | by rewrite Hac, Ha | by rewrite Htr'].
  - eapply (Inv_same (with_connection (with_world s l) j c)); [|done | by rewrite Hpol | done].
    eapply Inv_closed; [done | done | done | done | done | exact Htr | exact Htr' | exact Hev].
Qed.

(** *** What holds while slot [i] is being polled or stopped *)
Definition guarded (z : Server) (i : nat) c0 s : Prop :=
  Inv s /\ no_new z s /\ connection s i = c0 /\ (polling s i = true \/ Connection.writing_response c0 = false).

Lemma cooperative_slot_guarded z i c0 now s j : guarded z i c0 s -> (j < 6)%nat ->
  guarded z i c0 (cooperative_slot R now s j).
Proof.
  intros (HI & Hn & Hc & Hg) Hj. destruct (cooperative_slot_Inv now s j HI Hj) as (G1 & _ & G0 & G2 & G3).
  split; [done|]. split; [by intros k Hk; apply Hn, G0|]. split; [|destruct Hg as [Hg|Hg]; [left; by rewrite G2 | by right]].
  destruct (decide (i = j)) as [<-|Hne]; [|by rewrite G3]. unfold cooperative_slot.
  destruct Hg as [Hg|Hg]; [by rewrite Hg|]. rewrite Hc, Hg, andb_false_r. done.
Qed.

Lemma cooperative_guarded z i c0 now s : guarded z i c0 s -> Connection.active_ c0 = true ->
  guarded z i c0 (PollResponsesCooperatively R config now s).
Proof.
  intros Hg Ha. unfold PollResponsesCooperatively. destruct (negb _); [done|].
  assert (Hf : guarded z i c0 (foldl (cooperative_slot R now) s (slots config))).
  { pose proof slots_all_lt as Hl. revert s Hg. induction Hl as [|j l Hj _ IH]; intros s Hg; [done|].
    cbn [foldl]. by apply IH, cooperative_slot_guarded. }
  destruct Hf as (HI & Hn & Hc & Hp). destruct (ReleaseFinished_settled _ HI) as ([G1 _] & G2 & G3 & G4).
  split; [done|]. split; [by intros k Hk; apply Hn, G4|]. split; [by rewrite G3; rewrite Hc|]. unfold polling in *. by rewrite G2.
Qed.

Lemma with_world_guarded z i c0 s l : guarded z i c0 s -> events l = events (world s) ->
  guarded z i c0 (with_world s l).
Proof.
  intros (HI & Hn & Hc & Hg) He. split; [|by split]. eapply Inv_same; [exact HI | done | apply HI | exact He].
Qed.

Lemma call_back_guarded z i c0 s l : guarded z i c0 s -> Connection.active_ c0 = true ->
  events l = events (world s) -> guarded z i c0 (call_back R coop config s l).
Proof.
  intros Hg Ha He. unfold call_back. generalize (cooperative (inner l)) as times. intros times.
  pose proof (with_world_guarded z i c0 s l Hg He) as Hw. revert Hw. generalize (with_world s l). clear s Hg He.
  induction times as [|now times IH]; intros s Hg; [done|]. cbn [foldl]. by apply IH, cooperative_guarded.
Qed.

(** While slot [i] is polled, the server is its environment. *)
Lemma server_keeps z i c0 t : Connection.active_ c0 = true ->
  @Own.keeps S K Server (server_environment R coop config) (server_router R coop config) t
    (guarded z i c0)
    (fun s => exists s0 l, guarded z i c0 s0 /\ s = with_world s0 l /\ events l = events (world s0) ++ [EvClose t]).
Proof.
  intros Ha. constructor; intros; cbn.
  - unfold server_Read. cbn. unfold ledger_Read. destruct (env_Read _ _ _) as [[[? ?] ?] ?]. cbn. by apply with_world_guarded.
  - destruct (env_Write _ _ _) as [[? ?] ?]. cbn. by apply with_world_guarded.
  - eexists e, _. split; [done|]. by split.
  - destruct (sink_Write _ _ _) as [? ?]. cbn. by apply call_back_guarded.
  - destruct (sink_Reject _ _ _) as [[? ?] ?]. cbn. by apply call_back_guarded.
  - destruct (sink_Finish _ _ _) as [[? ?] ?]. cbn. by apply call_back_guarded.
  - by apply call_back_guarded.
  - by apply with_world_guarded.
  - destruct (Route _ _ _ _) as [? ?]. cbn. by apply call_back_guarded.
  - destruct (ErrorResponse _ _ _ _ _) as [? ?]. cbn. by apply call_back_guarded.
Qed.

Definition was_closed z i c0 (t : nat) s : Prop :=
  exists s0 l, guarded z i c0 s0 /\ s = with_world s0 l /\ events l = events (world s0) ++ [EvClose t].

(** Putting the connection back into its slot. *)
Lemma put_back z i c0 t c s : (i < 6)%nat -> Connection.active_ c0 = true ->
  Connection.transport_ c0 = Some t ->
  Own.owns t (guarded z i c0) (was_closed z i c0 t) (c, s) -> Inv (with_connection s i c).
Proof.
  intros Hi Ha Ht Ho. pose proof (owns_wf _ _ _ _ Ho) as Hwf. destruct Ho as (Htr & _ & Hs). cbn [fst snd] in *.
  destruct (Connection.active_ c) eqn:Hac.
  - destruct Hs as (HI & _ & Hc & _). apply Inv_active; rewrite ?Hc; congruence.
  - destruct Hs as (s0 & l & (HI & _ & Hc & _) & -> & He).
    eapply Inv_closed; [done | done | done | done | by rewrite Hc | by rewrite Hc | exact Htr | exact He].
Qed.

Lemma with_polling_Inv s i b : Inv s -> Inv (with_polling s i b).
Proof.
  intros HI. eapply Inv_same; [exact HI | done | | done]. cbn [with_polling polling_]. rewrite length_insert. apply HI.
Qed.

Lemma poll_slot_Inv now x i : Inv x.2 -> (i < 6)%nat -> Inv (poll_slot R coop config now x i).2.
Proof.
  destruct x as [pr s]. cbn [snd]. intros HI Hi. unfold poll_slot.
  destruct (Connection.active_ (connection s i) && _) eqn:Hg; [|done]. apply andb_true_iff in Hg as [Ha _].
  destruct (wf_running s i HI Hi Ha) as (t & Htr & Htd). unfold poll_connection.
  change (connection (with_polling s i true) i) with (connection s i).
  assert (Hgd : guarded s i (connection s i) (with_polling s i true)).
  { split; [by apply with_polling_Inv|]. split; [by intros j|]. split; [done|]. left.
    rewrite polling_set by (done || apply HI). by rewrite decide_True. }
  pose proof (@Own.Poll_owns S K Server _ _ _ t _ _ (server_keeps s i (connection s i) t Ha) now
    (connection s i, with_polling s i true) (conj Ha (conj Htr (conj Hgd Htd)))) as Hown.
  destruct (Connection.Poll _ _ _) as [pr' [c s2]]. cbn [snd] in *.
  apply with_polling_Inv. exact (put_back s i (connection s i) t c s2 Hi Ha Htr Hown).
Qed.

Lemma poll_slots_Inv now l : Forall (fun i => (i < 6)%nat) l -> forall x, Inv x.2 ->
  Inv (foldl (poll_slot R coop config now) x l).2.
Proof.
  induction 1 as [|i l Hi _ IH]; intros x HI; [done|]. cbn [foldl]. by apply IH, poll_slot_Inv.
Qed.

(** *** Stopping *)
Lemma with_connection_no_new s s' i c : no_new s s' -> length (connections_ s') = 6%nat -> (i < 6)%nat ->
  Connection.active_ c = false -> no_new s (with_connection s' i c).
Proof.
  intros Hn Hl Hi Ha j Hj. rewrite connection_set in Hj by done. destruct (decide (i = j)); [congruence | by apply Hn].
Qed.

Lemma stop_slot_Inv s i : Inv s -> (i < 6)%nat -> Inv (stop_slot R coop config s i) /\
  no_new s (stop_slot R coop config s i) /\
  Connection.active_ (connection (stop_slot R coop config s i) i) = false.
Proof.
  intros HI Hi. unfold stop_slot, Connection.Stop.
  destruct (Connection.active_ (connection s i)) eqn:Ha.
  2: { unfold Connection.Terminate. cbn [fst]. rewrite Ha. cbn [negb]. pose proof HI as (Hl & _ & Hw & _).
       split; [apply Inv_active; auto|]. split; [apply with_connection_no_new; [by intros j | done..]|].
       rewrite connection_set by done. by rewrite decide_True. }
  destruct (wf_running s i HI Hi Ha) as (t & Htr & Htd).
  pose proof (@Own.Terminate_inactive S K Server (server_environment R coop config) _
    CompletionServerStopped AbortServerStopped (connection s i, s)) as Hin.
  assert (Hown : Own.owns t (guarded s i (connection s i)) (was_closed s i (connection s i) t)
    (@Connection.Terminate S K Server (server_environment R coop config) _ CompletionServerStopped
       AbortServerStopped (connection s i, s))
    \/ Own.owns t (fun s' => Inv s' /\ no_new s s' /\ connection s' i = connection s i)
         (fun s' => exists s0 l, (Inv s0 /\ no_new s s0 /\ connection s0 i = connection s i) /\
            s' = with_world s0 l /\ events l = events (world s0) ++ [EvClose t])
    (@Connection.Terminate S K Server (server_environment R coop config) _ CompletionServerStopped
       AbortServerStopped (connection s i, s))).
  { destruct (Connection.writing_response (connection s i)) eqn:Hwr; [right | left].
    - apply Own.Terminate_responding.
      + intros h r e (G1 & G2 & G3). split; [|by split]. eapply Inv_same; [exact G1 | done | apply G1 | done].
      + intros e He. eexists e, _. split; [exact He|]. by split.
      + split; [done|]. split; [done|]. split; [split; [exact HI|]; split; [by intros j | done]|].
        destruct Htd as [Hb|[Hb _]]; [done|]. unfold Connection.writing_response in Hwr. by rewrite Hb, andb_false_r in Hwr.
    - eapply (Own.Terminate_owns); [by apply server_keeps|]. split; [done|]. split; [done|].
      split; [|done]. split; [done|]. split; [by intros j|]. split; [done | by right]. }
  destruct (Connection.Terminate _ _ _) as [c s2]. cbn [fst] in Hin.
  assert (Hs2 : Inv (with_connection s2 i c) /\ no_new s s2 /\ length (connections_ s2) = 6%nat).
  { destruct Hown as [Hown|Hown].
    - split; [exact (put_back s i (connection s i) t c s2 Hi Ha Htr Hown)|]. destruct Hown as (_ & _ & Hx).
      cbn [fst snd] in Hx. rewrite Hin in Hx. destruct Hx as (s0 & l & (G1 & G2 & _) & -> & _). split; [exact G2 | apply G1].
    - pose proof (owns_wf _ _ _ _ Hown) as Hwf. destruct Hown as (Htr' & _ & Hx). cbn [fst snd] in *. rewrite Hin in Hx.
      destruct Hx as (s0 & l & (G1 & G2 & G3) & -> & He). split; [|split; [exact G2 | apply G1]].
      eapply Inv_closed; [done | done | done | done | by rewrite G3 | by rewrite G3 | exact Htr' | exact He]. }
  destruct Hs2 as (G1 & G2 & G3). split; [done|]. split; [by apply with_connection_no_new|].
  rewrite connection_set by done. by rewrite decide_True.
Qed.

Lemma stop_slots_Inv l : Forall (fun i => (i < 6)%nat) l -> forall s, Inv s ->
  Inv (foldl (stop_slot R coop config) s l) /\ no_new s (foldl (stop_slot R coop config) s l) /\
  (forall i, i ∈ l -> Connection.active_ (connection (foldl (stop_slot R coop config) s l) i) = false).
Proof.
  induction 1 as [|i l Hi _ IH]; intros s HI; cbn [foldl].
  { split; [done|]. split; [by intros j|]. intros i Hin. by apply not_elem_of_nil in Hin. }
  destruct (stop_slot_Inv s i HI Hi) as (G1 & G2 & G3). destruct (IH _ G1) as (G4 & G5 & G6).
  split; [done|]. split; [by intros j Hj; apply G2, G5|]. intros j Hj.
  apply elem_of_cons in Hj as [->|Hj]; [|by apply G6].
  apply not_true_is_false. intros Hx%G5. congruence.
Qed.

(** *** Accepting *)
(** A transport that was just accepted goes into a free slot. *)
Lemma Inv_installed s i c l t : Inv s -> i ∈ slots config ->
  Connection.transport_ (connection s i) = None ->
  Connection.active_ c = true -> Connection.transport_ c = Some t -> Own.tidy c ->
  events l = events (world s) ++ [EvAccept t] -> Inv (with_connection (with_world s l) i c).
Proof.
  intros HI Hsl Hfree Ha Htr Htd Hev. pose proof (slots_lt i Hsl) as Hi.
  assert (Hwf : slot_wf c) by (split; [done | by rewrite Htr]).
  pose proof (Inv_wf s i c HI Hi Hwf) as Hw. destruct HI as (Hc & Hp & _ & Hb).
  split; [cbn; by rewrite length_insert|]. split; [done|]. split; [exact Hw|].
  cbn [with_connection with_world world]. rewrite Hev, balance_snoc.
  destruct (balance _) as [o cl| |]; [|done..]. destruct Hb as (Hd & Hs & Hj & Hcov). cbn [account].
  destruct (decide (t ∈ o ∪ cl)) as [|Hfresh]; [done|]. set (s' := with_connection _ i c).
  assert (Hconn : forall j, connection s' j = if decide (i = j) then c else connection s j)
    by (intros j; unfold s'; by rewrite connection_set).
  assert (Hout : forall j u, holds s j u -> u ∈ o ∪ cl).
  { intros j u [Hj6 Hu]. pose proof (Hs j Hj6 u Hu) as Hm. destruct (Connection.active_ (connection s j)); set_solver. }
  assert (Hh : forall j u, holds s' j u <-> (j = i /\ u = t) \/ holds s j u).
  { intros j u. unfold holds. rewrite Hconn. destruct (decide (i = j)) as [<-|Hne]; rewrite ?Htr, ?Hfree; naive_solver. }
  split; [set_solver|]. split; [|split].
  - intros j Hj6 u Hu. rewrite Hconn in *. destruct (decide (i = j)) as [<-|Hne].
    + rewrite Ha. set_solver.
    + pose proof (Hs j Hj6 u Hu) as Hm. destruct (Connection.active_ (connection s j)); set_solver.
  - intros j k u Hj1 Hk1. apply Hh in Hj1 as [[-> ->]|Hj1], Hk1 as [[-> Hu]|Hk1]; subst; try done;
      [exfalso; apply Hfresh; by eapply Hout.. | by apply (Hj j k u)].
  - intros u Hin. destruct (decide (u = t)) as [->|Hne].
    + exists i. split; [done|]. apply Hh. by left.
    + destruct (Hcov u) as (j & Hj1 & Hj2); [set_solver|]. exists j. split; [done|]. apply Hh. by right.
Qed.

(** [install] finds the first free slot; [Begin] does not refuse it. *)
Lemma install_cases now t todo s : Valid config = true ->
  (forall i, i ∈ todo -> ~ finished (connection s i)) ->
  (install config now t todo s = (false, s)) \/
  exists i c, i ∈ todo /\ install config now t todo s = (true, with_connection s i c) /\
    Connection.active_ (connection s i) = false /\ Connection.transport_ (connection s i) = None /\
    Connection.active_ c = true /\ Connection.transport_ c = Some t /\ Own.tidy c.
Proof.
  intros Hv. induction todo as [|i todo IH]; intros Hf; cbn [install]; [by left|].
  destruct (Connection.active_ (connection s i)) eqn:Ha; cbn [negb].
  { destruct IH as [->|(j & c & Hj & -> & Hrest)]; [intros j Hj; apply Hf; by right | by left|].
    right. exists j, c. split; [by right | done]. }
  right. assert (Htr : Connection.transport_ (connection s i) = None).
  { destruct (Connection.transport_ (connection s i)) eqn:Et; [|done]. exfalso. apply (Hf i); [by left|].
    split; [done | by rewrite Et]. }
  unfold Connection.Begin. rewrite Ha, Htr, Hv.
  rewrite bool_decide_eq_false_2 by (by intros Hx; apply Hx). rewrite bool_decide_eq_false_2 by done. cbn [orb negb].
  eexists i, _. split; [by left|]. split; [reflexivity|]. repeat split; try done. by left.
Qed.

Lemma Inv_events s l evs : Inv s -> events l = events (world s) ++ evs ->
  balance (events (world s) ++ evs) = balance (events (world s)) \/
  balance (events (world s) ++ evs) = ListenerFault -> Inv (with_world s l).
Proof.
  intros (Hc & Hp & Hw & Hb) He Hv. split; [done|]. split; [done|]. split; [done|].
  cbn [with_world world]. rewrite He. by destruct Hv as [->| ->].
Qed.

(** A transport that is accepted, closed and released again leaves no trace. *)
Lemma balance_refused evs t : balance (evs ++ [EvAccept t; EvClose t; EvRelease t]) = balance evs \/
  balance (evs ++ [EvAccept t; EvClose t; EvRelease t]) = ListenerFault \/ balance evs = ServerFault.
Proof.
  unfold balance. rewrite foldl_app. destruct (foldl account _ evs) as [o cl| |]; [|by auto..]. cbn.
  destruct (decide (t ∈ o ∪ cl)) as [|Hf]; [by auto|]. left. cbn. rewrite decide_True by set_solver.
  cbn. rewrite decide_True by set_solver. f_equal; apply set_eq; set_solver.
Qed.

Lemma settled_events s l : settled s -> Inv (with_world s l) ->
  (forall o cl, balance (events l) = Balanced o cl -> balance (events (world s)) = Balanced o cl) ->
  settled (with_world s l).
Proof. intros (_ & Hf & Hcl) HI Hb. split; [done|]. split; [done|]. intros o cl Hx. by eapply Hcl, Hb. Qed.

Lemma settled_keep s l : settled s -> events l = events (world s) -> settled (with_world s l).
Proof.
  intros Hs He. apply settled_events; [done | | by rewrite He].
  eapply Inv_same; [apply Hs | done | apply Hs | done].
Qed.

Lemma accept_ok now s : Valid config = true -> settled s ->
  match accept config now s with
  | (inl _, s') => settled s'
  | (inr _, s') => Inv s'
  end.
Proof.
  intros Hv Hs. unfold accept. destruct (_ <? _); [|apply Hs]. cbn [Accept ledger_listener].
  destruct (Accept (inner (world s))) as [[st [t|]] e].
  2: { destruct st; [by apply settled_keep | by apply settled_keep | by apply settled_keep]. }
  destruct st; [|by apply settled_keep..].
  set (l := enter (world s) e (EvAccept t)).
  destruct (install_cases now t (slots config) (with_world s l) Hv (proj1 (proj2 Hs)))
    as [->|(i & c & Hi & -> & Ha0 & Ht0 & Ha & Ht & Htd)].
  2: { apply (Inv_installed s i c l t); [apply Hs | done..]. }
  change (with_world (with_world (with_world s l) ?l1) ?l2) with (with_world s l2).
  cbn [world with_world]. cbn [env_Close ledger_environment Release ledger_listener].
  set (l3 := enter _ _ (EvRelease t)).
  assert (He : events l3 = events (world s) ++ [EvAccept t; EvClose t; EvRelease t])
    by (unfold l3, l; cbn [enter events]; by rewrite <- !app_assoc).
  pose proof (balance_refused (events (world s)) t) as Hb.
  destruct Hs as (HI & Hrest). destruct Hb as [Hb|[Hb|Hb]].
  - apply settled_events; [done | by eapply Inv_events; [|exact He|left] | by rewrite He, Hb].
  - apply settled_events; [done | by eapply Inv_events; [|exact He|right] | by rewrite He, Hb].
  - destruct HI as (_ & _ & _ & HI). by rewrite Hb in HI.
Qed.

(** *** Every operation keeps the books *)
Lemma serve_settled s o : settled s -> settled (serve s o).
Proof.
  intros Hs. destruct o as [now|now|]; cbn [serve].
  - unfold Poll, valid_. destruct (Valid config) eqn:Hv; cbn [negb]; [|done].
    destruct (ReleaseFinished_settled s (proj1 Hs)) as [Hs1 _].
    pose proof (accept_ok now _ Hv Hs1) as Ha. destruct (accept config now _) as [[st|pr] s1]; [done|].
    pose proof (poll_slots_Inv now (slots config) slots_all_lt (pr, s1) Ha) as Hp.
    destruct (foldl _ _ _) as [pr2 s2]. cbn [snd] in *. by apply ReleaseFinished_settled.
  - unfold PollResponsesCooperatively, valid_. destruct (Valid config); cbn [negb]; [|done].
    apply ReleaseFinished_settled. pose proof slots_all_lt as Hl. destruct Hs as [HI _]. revert s HI.
    induction Hl as [|j l Hj _ IH]; intros s HI; [done|]. cbn [foldl]. by apply IH, cooperative_slot_Inv.
  - unfold Stop. apply ReleaseFinished_settled, stop_slots_Inv; [apply slots_all_lt | apply Hs].
Qed.

Lemma new_settled e : settled (new_server (mkLedger e [])).
Proof.
  assert (Hnew : forall i, connection (new_server (S := S) (K := K) (mkLedger e [])) i = Connection.new_connection).
  { intros i. unfold connection, new_server. cbn [connections_]. do 6 (destruct i as [|i]; [done|]). by destruct i. }
  split; [|split].
  - split; [done|]. split; [done|]. split; [intros i _; rewrite Hnew; split; [by left | done]|].
    cbn. split; [done|]. unfold holds, slot_ok. split; [intros i _ t; by rewrite Hnew|].
    split; [intros i j t [_ Hi]; by rewrite Hnew in Hi | set_solver].
  - intros i _. rewrite Hnew. by intros [_ Hx].
  - intros o cl. cbn. by intros [= <- <-].
Qed.

Lemma served_settled e calls : settled (served e calls).
Proof.
  unfold served. generalize (new_settled e). generalize (new_server (S := S) (K := K) (mkLedger e [])).
  induction calls as [|o calls IH]; intros s Hs; [done|]. cbn [foldl]. by apply IH, serve_settled.
Qed.

Lemma size_held s o : books s o ∅ -> (size o <= length (slots config))%nat.
Proof.
  intros (_ & _ & _ & Hcov).
  set (held := (fun i => default 0%nat (Connection.transport_ (connection s i))) <$> slots config).
  assert (Hsub : o ⊆ list_to_set held).
  { intros t Ht. destruct (Hcov t) as (i & Hi & _ & Htr); [set_solver|].
    apply elem_of_list_to_set, list_elem_of_fmap. exists i. by rewrite Htr. }
  etransitivity; [by apply subseteq_size|].
  transitivity (length held); [|unfold held; by rewrite length_fmap]. clearbody held. clear.
  induction held as [|x l IH]; cbn [list_to_set length]; [by rewrite size_empty|].
  rewrite size_union_alt, size_singleton.
  assert (size ((list_to_set l : gset nat) ∖ {[x]}) <= size (list_to_set l : gset nat))%nat by (apply subseteq_size; set_solver).
  lia.
Qed.

(** C28. The server's transports balance.  Over every history of calls of [Poll],
    [PollResponsesCooperatively] and [Stop], with every router, sink and
    environment and whatever cooperative polls their callbacks make, no
    transport is closed or released without having been accepted, closed twice,
    or released before it was closed or twice (unless the listener hands out a
    transport that is still in use); between calls the accepted and not released
    transports are exactly those of the active connections, each owned by one
    connection and still open, and at most [maximum_connections]. *)
Theorem HttpServer_transports e calls :
  let s := served e calls in
  match balance (events (world s)) with
  | ServerFault => False
  | ListenerFault => True
  | Balanced o c =>
      c = ∅ /\ Z.of_nat (size o) <= Z.max 0 (maximum_connections config) /\
      (forall t, t ∈ o <-> exists i, i ∈ slots config /\ Connection.active_ (connection s i) = true /\
         Connection.transport_ (connection s i) = Some t) /\
      (forall i j t, holds s i t -> holds s j t -> i = j)
  end.
Proof.
  cbv zeta. destruct (served_settled e calls) as ((_ & _ & _ & Hb) & Hf & Hcl).
  destruct (balance _) as [o cl| |]; [|done..]. specialize (Hcl o cl eq_refl). subst cl.
  split; [done|]. split; [|split; [|apply Hb]].
  - pose proof (size_held _ _ Hb) as Hs. unfold slots, kHttpMaximumConnections in Hs. rewrite length_seq in Hs. lia.
  - destruct Hb as (_ & Hs & _ & Hcov). intros t. split.
    + intros Ht. destruct (Hcov t) as (i & Hi & Hlt & Htr); [set_solver|]. exists i. split; [done|]. split; [|done].
      pose proof (Hs i Hlt t Htr) as Hm. destruct (Connection.active_ _); [done | set_solver].
    + intros (i & Hi & Ha & Htr). pose proof (Hs i (slots_lt i Hi) t Htr) as Hm. by rewrite Ha in Hm.
Qed.

(** After [Stop] every transport that was accepted has been closed and
    released. *)
Theorem HttpServer_stop_releases e calls :
  match balance (events (world (served e (calls ++ [CallStop])))) with
  | Balanced o c => o = ∅ /\ c = ∅
  | ListenerFault => True
  | ServerFault => False
  end.
Proof.
  unfold served. rewrite foldl_app. cbn [foldl serve]. fold (served e calls).
  pose proof (served_settled e calls) as Hs. destruct (stop_slots_Inv (slots config) slots_all_lt _ (proj1 Hs)) as (G1 & _ & G3).
  unfold Stop. destruct (ReleaseFinished_settled _ G1) as ((HI & _ & Hcl) & _ & _ & G4).
  destruct HI as (_ & _ & _ & Hb). destruct (balance _) as [o cl| |]; [|done..].
  specialize (Hcl o cl eq_refl). subst cl. split; [|done]. destruct Hb as (_ & Hsl & _ & Hcov).
  apply set_eq. intros t. split; [|set_solver]. intros Ht.
  destruct (Hcov t) as (i & Hi & Hlt & Htr); [set_solver|]. pose proof (Hsl i Hlt t Htr) as Hm.
  destruct (Connection.active_ _) eqn:Ha in Hm; [|set_solver]. apply G4 in Ha. rewrite G3 in Ha by done. discriminate Ha.
Qed.
End ledger.
End Ledger.

(** ** A concrete history: two clients that never send anything *)
Module Sample.
Import Ledger HttpResponseWriter.Sample.
Lemma quiet_read_size (t : nat) (buffer : bytes) (e : nat) :
  len (WouldBlock, 0%N, buffer, e).1.2 = len buffer.
Proof. done. Qed.

(** The environment is the number of the next transport. *)
#[local] Instance quiet_environment : HttpEnvironment (list bytes) unit nat := {
  env_Read t buffer e := (WouldBlock, 0%N, buffer, e);
  env_Write t e data := (WouldBlock, 0%N, e);
  env_Close t e := e;
  sink_Write k data e := (true, e);
  sink_Reject k r e := (true, r, e);
  sink_Finish k r e := (true, r, e);
  sink_Abort k reason e := e;
  hook_Complete hook reason e := e;
  env_Read_size := quiet_read_size;
}.
#[local] Instance counting_listener : HttpListener nat := {
  Accept e := (Accepted, Some e, e + 1)%nat;
  Release t e := e;
}.


Definition quiet_router : HttpRouter (S := list bytes) (K := unit) (W := nat) :=
  mkRouter (fun request result e => (result, e)) (fun error request response e => (response, e)).

Notation history calls :=
  (served quiet_router (fun _ => []) (mkConfig 2 1000 1000 1000 1000 0) 7%nat calls).

Example two_clients :
  balance (events (world (history [CallPoll 0; CallPoll 1; CallPoll 2]))) = Balanced {[8; 7]}%nat ∅ /\
  balance (events (world (history [CallPoll 0; CallPoll 1; CallPoll 2; CallStop]))) = Balanced ∅ ∅ /\
  events (world (history [CallPoll 0; CallPoll 1; CallStop])) =
    [EvAccept 7; EvAccept 8; EvClose 7; EvClose 8; EvRelease 7; EvRelease 8].
Proof. vm_compute. repeat split. Qed.
End Sample.
