(* ===== verification/DiscoveryCodec.v ===== *)
(** * The discovery codec (src/src/remote/developer_discovery_codec.cpp)

    The probe and the reply of the UDP discovery of a developer machine.  Both
    are written into caller memory, so the buffers are values that are updated
    where the code assigns, also on the paths that fail. *)
From S2P Require Import Prelude.
From Stdlib Require Import Ascii.
Local Open Scope Z_scope.

Definition kDeveloperDiscoveryUdpPort : Z := 6464.
Definition kDeveloperDiscoveryHttpPort : Z := 80.
Definition kDeveloperDiscoveryNonceCharacters : Z := 32.
Definition kProbePrefix : bytes := str "BMXDEV-DISCOVER/1 ".
Definition kReplyPrefix : bytes := str "BMXDEV-HERE/1 ".
Definition kReplySuffix : bytes := str " 80" ++ [LF].

(** [DeveloperDiscoveryProbe]: the 33 bytes of its nonce array. *)
Notation DeveloperDiscoveryProbe := bytes (only parsing).

Definition IsLowerHex (c : Z) : bool := in_range 48 57 c || in_range 97 102 c.

Definition ValidNonce (nonce : bytes) : bool :=
  forallb IsLowerHex (take 32 nonce) && (byte_at nonce kDeveloperDiscoveryNonceCharacters =? NUL).

(** The loop that checks and stores the nonce, from [index] on. *)
Fixpoint nonce_loop (nonce : bytes) (index : nat) (probe : DeveloperDiscoveryProbe)
    : bool * DeveloperDiscoveryProbe :=
  match nonce with
  | [] => (true, <[32%nat := NUL]> probe)
  | c :: nonce' =>
      if negb (IsLowerHex c) then (false, probe) else nonce_loop nonce' (S index) (<[index := c]> probe)
  end.

Definition DecodeDeveloperDiscoveryProbe (datagram : bytes) (probe : DeveloperDiscoveryProbe)
    : bool * DeveloperDiscoveryProbe :=
  let prefix_size := len kProbePrefix in
  let expected_size := prefix_size + kDeveloperDiscoveryNonceCharacters + 1 in
  if negb (len datagram =? expected_size) ||
     negb (bytes_eqb (sub datagram 0 prefix_size) kProbePrefix) ||
     negb (byte_at datagram (len datagram - 1) =? LF)
  then (false, probe)
  else nonce_loop (sub datagram prefix_size kDeveloperDiscoveryNonceCharacters) 0 probe.

(** [EncodeDeveloperDiscoveryReply]: the size and the output afterwards. *)
Definition EncodeDeveloperDiscoveryReply (probe : DeveloperDiscoveryProbe) (output : bytes)
    : Z * bytes :=
  let prefix_size := len kReplyPrefix in
  let required := prefix_size + kDeveloperDiscoveryNonceCharacters + len kReplySuffix in
  if (len output <? required) || negb (ValidNonce probe) then (0, output)
  else
    (required,
     memcpy
       (memcpy (memcpy output 0 kReplyPrefix) (Z.to_nat prefix_size)
          (sub probe 0 kDeveloperDiscoveryNonceCharacters))
       (Z.to_nat (prefix_size + kDeveloperDiscoveryNonceCharacters)) kReplySuffix).

(** ** The wire format *)
Definition nonce_text (n : bytes) : Prop := len n = 32 /\ Forall (fun c => IsLowerHex c = true) n.
Definition probe_text (n : bytes) : bytes := kProbePrefix ++ n ++ [LF].
Definition reply_text (n : bytes) : bytes := kReplyPrefix ++ n ++ kReplySuffix.

Lemma nonce_loop_spec n index probe : length probe = 33%nat -> (index + length n = 32)%nat ->
  if forallb IsLowerHex n then nonce_loop n index probe = (true, take index probe ++ n ++ [NUL])
  else exists p, nonce_loop n index probe = (false, p).
Proof.
  revert index probe. induction n as [|c n IH]; intros index probe Hp Hi; cbn [nonce_loop forallb].
  - cbn [length app] in *. f_equal. replace index with 32%nat by lia. apply list_eq. intros i.
    destruct (decide (i < 32)%nat).
    + rewrite list_lookup_insert_ne, lookup_app_l, lookup_take_lt by (rewrite ?length_take; lia). done.
    + rewrite lookup_app_r by (rewrite length_take; lia). rewrite length_take, Hp, Nat.min_l by lia.
      destruct (decide (i = 32%nat)) as [->|].
      * rewrite list_lookup_insert_eq by lia. done.
      * rewrite list_lookup_insert_ne, !lookup_ge_None_2 by (cbn [length]; lia). done.
  - destruct (IsLowerHex c); cbn [negb andb]; [|by eexists]. cbn [length] in Hi.
    specialize (IH (S index) (<[index := c]> probe)). rewrite length_insert in IH.
    specialize (IH Hp ltac:(lia)). destruct (forallb IsLowerHex n); [|done]. rewrite IH. f_equal.
    assert (Ht : take (S index) (<[index:=c]> probe) = take index probe ++ [c]).
    { erewrite take_S_r by (apply list_lookup_insert_eq; lia). by rewrite take_insert_ge by lia. }
    rewrite Ht. by rewrite <- app_assoc.
Qed.

Lemma ValidNonce_text n : nonce_text n -> ValidNonce (n ++ [NUL]) = true.
Proof.
  intros [Hl Hn]. unfold ValidNonce. rewrite take_app_le by (unfold len in *; lia).
  rewrite take_ge by (unfold len in *; lia). rewrite (proj2 (forallb_Forall_bool IsLowerHex n)) by done.
  unfold kDeveloperDiscoveryNonceCharacters. rewrite <- Hl. by rewrite byte_at_here.
Qed.

(** Three consecutive copies fill the front of the output. *)
Lemma memcpy_three (out a b c : bytes) : (length a + length b + length c <= length out)%nat ->
  memcpy (memcpy (memcpy out 0 a) (length a) b) (length a + length b) c = memcpy out 0 (a ++ b ++ c).
Proof.
  intros H. apply list_eq. intros i.
  rewrite !lookup_memcpy; rewrite ?length_memcpy; rewrite ?length_app; rewrite ?length_memcpy; try lia.
  rewrite Nat.sub_0_r. repeat case_decide; try lia; try done.
  - rewrite (lookup_app_r a), (lookup_app_r b) by lia. f_equal. lia.
  - rewrite (lookup_app_r a), lookup_app_l by lia. done.
  - by rewrite lookup_app_l by lia.
Qed.

Lemma probe_split datagram :
  len datagram = len kProbePrefix + kDeveloperDiscoveryNonceCharacters + 1 ->
  sub datagram 0 (len kProbePrefix) = kProbePrefix -> byte_at datagram (len datagram - 1) = LF ->
  let n := sub datagram (len kProbePrefix) kDeveloperDiscoveryNonceCharacters in
  datagram = probe_text n /\ len n = 32.
Proof.
  intros Hl Hp Hc. unfold kDeveloperDiscoveryNonceCharacters in *. cbv zeta.
  assert (Hn : len (sub datagram (len kProbePrefix) 32) = 32) by (apply sub_length; len_facts; lia).
  split; [|done]. unfold probe_text. rewrite <- Hp at 1. unfold sub in *.
  change (Z.to_nat 0) with 0%nat. rewrite drop_0. change (Z.to_nat (len kProbePrefix)) with 18%nat in *.
  change (len kProbePrefix) with 18 in *. change (Z.to_nat 32) with 32%nat in *.
  rewrite <- (take_drop 18 datagram) at 1. f_equal. rewrite <- (take_drop 32 (drop 18 datagram)) at 1. f_equal.
  rewrite drop_drop. cbn [Nat.add]. rewrite Hl in Hc. unfold byte_at in Hc. cbn in Hc.
  assert (Hd : length (drop 50 datagram) = 1%nat) by (rewrite length_drop; unfold len in *; lia).
  rewrite <- (take_drop 50 datagram), app_nth2 in Hc by (rewrite length_take; unfold len in *; lia).
  rewrite length_take, Nat.min_l in Hc by (unfold len in *; lia).
  change (Z.to_nat (18 + 32 + 1 - 1) - 50)%nat with 0%nat in Hc.
  destruct (drop 50 datagram) as [|c [|]]; try discriminate Hd. cbn [nth] in Hc. by rewrite Hc.
Qed.

Lemma Encode_spec n output : nonce_text n ->
  EncodeDeveloperDiscoveryReply (n ++ [NUL]) output =
    (if len output <? len (reply_text n) then (0, output)
     else (len (reply_text n), memcpy output 0 (reply_text n))).
Proof.
  intros Hn. unfold EncodeDeveloperDiscoveryReply, reply_text. rewrite ValidNonce_text by done.
  destruct Hn as [Hl _]. rewrite !len_app, Hl. unfold kDeveloperDiscoveryNonceCharacters.
  rewrite Z.add_assoc. cbn [negb]. rewrite orb_false_r.
  destruct (Z.ltb_spec (len output) (len kReplyPrefix + 32 + len kReplySuffix)); [done|]. f_equal.
  rewrite (sub_app [] n [NUL]) by (by rewrite Hl). rewrite <- memcpy_three by (unfold len in *; lia).
  unfold len in *. by replace (Z.to_nat (Z.of_nat (length kReplyPrefix) + 32))
    with (length kReplyPrefix + length n)%nat by lia.
Qed.

(** Discovery is exact on both wires: a probe is accepted precisely when the
    datagram is the probe text of a nonce of 32 lower-case hex digits, the
    stored nonce is that one, and the reply then encoded is the reply text of the
    same nonce, of the returned size, at the front of an output that it fits - or
    nothing is written. *)
Theorem Discovery_exchange datagram probe probe' output (Hp : length probe = 33%nat) :
  DecodeDeveloperDiscoveryProbe datagram probe = (true, probe') <->
  exists n, nonce_text n /\ datagram = probe_text n /\ probe' = n ++ [NUL] /\
    EncodeDeveloperDiscoveryReply probe' output =
      (if len output <? len (reply_text n) then (0, output)
       else (len (reply_text n), memcpy output 0 (reply_text n))).
Proof.
  split.
  - intros H. unfold DecodeDeveloperDiscoveryProbe in H. destruct (_ || _) eqn:Eg in H; [done|]. zbool.
    apply bytes_eqb_eq in H2. set (n := sub datagram (len kProbePrefix) kDeveloperDiscoveryNonceCharacters) in *.
    assert (Hd : datagram = probe_text n /\ len n = 32) by (by apply probe_split).
    destruct Hd as [Hd Hl]. pose proof (nonce_loop_spec n 0 probe Hp ltac:(unfold len in *; lia)) as Hs.
    destruct (forallb IsLowerHex n) eqn:En; [|by destruct Hs as [p Hs]; rewrite Hs in H].
    rewrite Hs in H. injection H as <-. apply forallb_Forall_bool in En. exists n.
    split; [done|]. split; [done|]. split; [done|]. by apply Encode_spec.
  - intros (n & Hn & -> & -> & _). unfold DecodeDeveloperDiscoveryProbe.
    destruct Hn as [Hl Hn]. unfold probe_text. rewrite !len_app, Hl. change (len [LF]) with 1.
    unfold kDeveloperDiscoveryNonceCharacters. rewrite Z.add_assoc, Z.eqb_refl.
    rewrite (sub_app [] kProbePrefix (n ++ [LF])) by done. rewrite bytes_eqb_refl.
    replace (len kProbePrefix + 32 + 1 - 1) with (len (kProbePrefix ++ n)) by (rewrite len_app; lia).
    rewrite app_assoc, byte_at_here. cbn [negb orb Z.eqb]. rewrite <- app_assoc.
    rewrite sub_app by (by rewrite Hl). pose proof (nonce_loop_spec n 0 probe Hp ltac:(unfold len in *; lia)) as Hs.
    rewrite (proj2 (forallb_Forall_bool IsLowerHex n)) in Hs by done. rewrite Hs. done.
Qed.

Lemma Discovery_exchange_witness :
  let n := str "0123456789abcdef0123456789abcdef" in
  DecodeDeveloperDiscoveryProbe (probe_text n) (repeat 7 33) = (true, n ++ [NUL]) <->
  exists n', nonce_text n' /\ probe_text n = probe_text n' /\ n ++ [NUL] = n' ++ [NUL] /\
    EncodeDeveloperDiscoveryReply (n ++ [NUL]) (repeat 7 60) =
      (if len (repeat 7 60) <? len (reply_text n') then (0, repeat 7 60)
       else (len (reply_text n'), memcpy (repeat 7 60) 0 (reply_text n'))).
Proof.
  intros n. apply (Discovery_exchange (probe_text n) (repeat 7 33) (n ++ [NUL]) (repeat 7 60)). reflexivity.
Defined.

Example probe_accepted :
  let n := str "0123456789abcdef0123456789abcdef" in
  DecodeDeveloperDiscoveryProbe (probe_text n) (repeat 7 33) = (true, n ++ [NUL]).
Proof. vm_compute. reflexivity. Qed.
