(* ===== verification/UpdateFileSystem.v ===== *)
(** * The file system interface (src/src/update/update_filesystem.h)

    [UpdateFileSystem] is the interface of the source, the way its clients call
    it: every operation may fail.  [FileSystemLaws] states what the header
    documents, over a view of the volume as a map from case-folded FAT paths to
    nodes; an operation that reports failure may nevertheless have happened.
    [Module Traced] records the volume after every operation, so that a theorem
    can speak about every moment a power cut could hit.  [Module Memory] is a
    concrete volume with a script of failures, which obeys the laws. *)
From stdpp Require Import gmap.
From S2P Require Import Prelude FatPathPolicy.
Local Open Scope Z_scope.

Inductive UpdateNodeType := Missing | RegularFile | Directory | Other.

#[export] Instance UpdateNodeType_eq_dec : EqDecision UpdateNodeType.
Proof. solve_decision. Defined.

Record UpdateFileStat := mkStat { node_type : UpdateNodeType; node_size : Z }.

(** Paths are C strings; read and write files are handles.  The outputs of a
    successful call are its results. *)
Class UpdateFileSystem (F : Type) := {
  Stat : bytes -> F -> option UpdateFileStat * F;
  OpenRead : bytes -> F -> bool * option nat * F;
  GetSize : nat -> F -> option Z * F;
  ReadAt : nat -> Z -> Z -> F -> option bytes * F;
  CloseRead : nat -> F -> bool * F;
  CreateFileFresh : bytes -> F -> bool * option nat * F;
  WriteFile : nat -> bytes -> F -> bool * F;
  SyncFile : nat -> F -> bool * F;
  CloseWrite : nat -> F -> bool * F;
  CreateDirectory : bytes -> F -> bool * F;
  RemoveFile : bytes -> F -> bool * F;
  RemoveDirectory : bytes -> bool -> F -> bool * F;
  Rename : bytes -> bytes -> bool -> F -> bool * F;
  SyncContainingDirectory : bytes -> F -> bool * F;
  GetFreeSpace : F -> option Z * F;
  GetVolumeSize : F -> option Z * F;
  (** Other tasks run (the callback of long operations). *)
  Yield : F -> F;
}.

(** ** The view of a volume *)
Inductive node := FileNode (content : bytes) | DirectoryNode | OtherNode.
Notation tree := (gmap (list Z) node).

(** FAT looks names up without regard to ASCII case. *)
Definition key (path : bytes) : list Z := AsciiLower <$> path.

Definition type_of (n : option node) : UpdateNodeType :=
  match n with
  | None => Missing
  | Some (FileNode _) => RegularFile
  | Some DirectoryNode => Directory
  | Some OtherNode => Other
  end.

(** What an operation that may or may not have happened leaves behind. *)
Definition maybe (t t' : tree) (effect : tree -> Prop) : Prop := t' = t \/ effect t'.

(** The laws.  A rename that may replace its target is not atomic: a failed one may
    have lost the target.  Names are distinct nodes unless they differ in case only; of a
    renamed directory, whose contents move along, nothing is said. *)
Class FileSystemLaws (F : Type) `{UpdateFileSystem F} := {
  nodes : F -> tree;
  (** The path a handle stands for, while it is open. *)
  writing : F -> nat -> option (list Z);
  reading : F -> nat -> option (list Z);
  same (s s' : F) : Prop := nodes s' = nodes s /\ writing s' = writing s /\ reading s' = reading s;
  Stat_law p s : let '(r, s') := Stat p s in same s s' /\
    forall st, r = Some st -> node_type st = type_of (nodes s !! key p) /\
      forall c, nodes s !! key p = Some (FileNode c) -> node_size st = len c;
  OpenRead_law p s : let '(b, h, s') := OpenRead p s in
    nodes s' = nodes s /\ writing s' = writing s /\
    forall i, b = true -> h = Some i -> reading s' i = Some (key p);
  GetSize_law h s : let '(r, s') := GetSize h s in same s s' /\
    forall k c n, r = Some n -> reading s h = Some k -> nodes s !! k = Some (FileNode c) -> n = len c;
  ReadAt_law h off n s : let '(r, s') := ReadAt h off n s in same s s' /\
    forall k c d, r = Some d -> reading s h = Some k -> nodes s !! k = Some (FileNode c) ->
      0 <= off -> 0 <= n -> off + n <= len c -> d = sub c off n;
  CloseRead_law h s : let '(_, s') := CloseRead h s in nodes s' = nodes s /\ writing s' = writing s;
  CreateFileFresh_law p s : let '(b, h, s') := CreateFileFresh p s in
    maybe (nodes s) (nodes s') (fun t => nodes s !! key p = None /\ t = <[key p := FileNode []]> (nodes s)) /\
    forall i, b = true -> h = Some i -> writing s' i = Some (key p) /\
      nodes s !! key p = None /\ nodes s' = <[key p := FileNode []]> (nodes s);
  WriteFile_law h d s : let '(b, s') := WriteFile h d s in writing s' = writing s /\
    forall k c, writing s h = Some k -> nodes s !! k = Some (FileNode c) ->
      exists c', nodes s' = <[k := FileNode c']> (nodes s) /\ (b = true -> c' = c ++ d);
  SyncFile_law h s : let '(_, s') := SyncFile h s in same s s';
  CloseWrite_law h s : let '(_, s') := CloseWrite h s in nodes s' = nodes s;
  CreateDirectory_law p s : let '(b, s') := CreateDirectory p s in writing s' = writing s /\
    maybe (nodes s) (nodes s')
      (fun t => nodes s !! key p = None /\ t = <[key p := DirectoryNode]> (nodes s)) /\
    (b = true -> nodes s' !! key p = Some DirectoryNode);
  RemoveFile_law p s : let '(b, s') := RemoveFile p s in
    maybe (nodes s) (nodes s') (fun t => t = delete (key p) (nodes s)) /\
    (b = true -> nodes s' !! key p = None);
  RemoveDirectory_law p recursive s : let '(_, s') := RemoveDirectory p recursive s in
    forall k, key p `prefix_of` k \/ nodes s' !! k = nodes s !! k;
  Rename_law p q replace s : let '(b, s') := Rename p q replace s in
    let moved t := exists n, nodes s !! key p = Some n /\
      (replace = false -> nodes s !! key q = None) /\ t = <[key q := n]> (delete (key p) (nodes s)) in
    nodes s !! key p <> Some DirectoryNode ->
    (maybe (nodes s) (nodes s') moved \/ replace = true /\ nodes s' = delete (key q) (nodes s)) /\
    (b = true -> moved (nodes s'));
  SyncContainingDirectory_law p s : let '(_, s') := SyncContainingDirectory p s in same s s';
  GetFreeSpace_law s : let '(_, s') := GetFreeSpace s in same s s';
  GetVolumeSize_law s : let '(_, s') := GetVolumeSize s in same s s';
  Yield_law s : same s (Yield s);
}.

(** ** Recording the volume after every operation
    A rename that may replace its target removes the target first, so the volume
    without it is recorded as well. *)
Module Traced.
Section traced.
Context {F : Type} `{FileSystemLaws F}.

Record Recorded := mkRecorded { volume : F; history : list tree }.

Definition record {A} (r : Recorded) (x : A * F) : A * Recorded :=
  (x.1, mkRecorded x.2 (history r ++ [nodes x.2])).

#[export] Instance recorded_file_system : UpdateFileSystem Recorded := {
  Stat p r := record r (Stat p (volume r));
  OpenRead p r := record r (OpenRead p (volume r));
  GetSize h r := record r (GetSize h (volume r));
  ReadAt h off n r := record r (ReadAt h off n (volume r));
  CloseRead h r := record r (CloseRead h (volume r));
  CreateFileFresh p r := record r (CreateFileFresh p (volume r));
  WriteFile h d r := record r (WriteFile h d (volume r));
  SyncFile h r := record r (SyncFile h (volume r));
  CloseWrite h r := record r (CloseWrite h (volume r));
  CreateDirectory p r := record r (CreateDirectory p (volume r));
  RemoveFile p r := record r (RemoveFile p (volume r));
  RemoveDirectory p b r := record r (RemoveDirectory p b (volume r));
  Rename p q b r :=
    let x := Rename p q b (volume r) in
    (x.1, mkRecorded x.2 (history r ++ (if b then [delete (key q) (nodes (volume r))] else []) ++ [nodes x.2]));
  SyncContainingDirectory p r := record r (SyncContainingDirectory p (volume r));
  GetFreeSpace r := record r (GetFreeSpace (volume r));
  GetVolumeSize r := record r (GetVolumeSize (volume r));
  Yield r := mkRecorded (Yield (volume r)) (history r ++ [nodes (Yield (volume r))]);
}.
End traced.
End Traced.

(** ** A volume in memory *)
Module Memory.

(** How the next operation goes: as it should, or it reports failure and has
    happened or not. *)
Inductive outcome := Done | Lost (happened : bool).

Record Volume := mkVolume {
  files : tree;
  open_write : gmap nat (list Z);
  open_read : gmap nat (list Z);
  next_handle : nat;
  free_bytes : Z;
  volume_bytes : Z;
  script : list outcome;
}.

Definition new_volume (t : tree) (free : Z) (script : list outcome) : Volume := mkVolume t ∅ ∅ 0 free free script.

Definition set_files (t : tree) (s : Volume) : Volume :=
  mkVolume t (open_write s) (open_read s) (next_handle s) (free_bytes s) (volume_bytes s) (script s).

(** One operation: [possible] says whether it can succeed, [effect] what it does. *)
Definition attempt (possible : bool) (effect : Volume -> Volume) (s : Volume) : bool * Volume :=
  let s' := mkVolume (files s) (open_write s) (open_read s) (next_handle s) (free_bytes s) (volume_bytes s) (tail (script s)) in
  match script s with
  | Lost happened :: _ => (false, if possible && happened then effect s' else s')
  | _ => (possible, if possible then effect s' else s')
  end.

Definition query {A} (answer : option A) (s : Volume) : option A * Volume :=
  let '(ok, s) := attempt (bool_decide (is_Some answer)) id s in (if ok then answer else None, s).

(** The next operation fails before it has happened: a rename that may replace its
    target has then removed it. *)
Definition loses (s : Volume) : bool := match script s with Lost false :: _ => true | _ => false end.

Definition content_of (n : option node) : option bytes :=
  match n with Some (FileNode c) => Some c | _ => None end.

Definition stat_of (n : option node) : UpdateFileStat :=
  mkStat (type_of n) (match content_of n with Some c => len c | None => 0 end).

Definition opened (h : option (list Z)) (t : tree) : option bytes :=
  match h with Some k => content_of (t !! k) | None => None end.

(** What is in a directory. *)
Definition below (k : list Z) (t : tree) : tree := filter (fun x => (k ++ [SLASH]) `prefix_of` x.1) t.

#[export] Instance memory_file_system : UpdateFileSystem Volume := {
  Stat p s := query (Some (stat_of (files s !! key p))) s;
  OpenRead p s :=
    let h := next_handle s in
    let '(ok, s) := attempt (bool_decide (is_Some (content_of (files s !! key p))))
      (fun s => mkVolume (files s) (open_write s) (<[h := key p]> (open_read s)) (S h) (free_bytes s) (volume_bytes s) (script s)) s in
    (ok, if ok then Some h else None, s);
  GetSize h s := query (len <$> opened (open_read s !! h) (files s)) s;
  ReadAt h off n s :=
    query (match opened (open_read s !! h) (files s) with
           | Some c => if off + n <=? len c then Some (sub c off n) else None
           | None => None
           end) s;
  CloseRead h s :=
    attempt true (fun s => mkVolume (files s) (open_write s) (delete h (open_read s)) (next_handle s)
                             (free_bytes s) (volume_bytes s) (script s)) s;
  CreateFileFresh p s :=
    let h := next_handle s in
    let '(ok, s) := attempt (bool_decide (files s !! key p = None))
      (fun s => mkVolume (<[key p := FileNode []]> (files s)) (<[h := key p]> (open_write s)) (open_read s) (S h)
                  (free_bytes s) (volume_bytes s) (script s)) s in
    (ok, if ok then Some h else None, s);
  WriteFile h d s :=
    match open_write s !! h with
    | Some k =>
        match content_of (files s !! k) with
        | Some c => attempt true (fun s => set_files (<[k := FileNode (c ++ d)]> (files s)) s) s
        | None => attempt false id s
        end
    | None => attempt false id s
    end;
  SyncFile h s := attempt true id s;
  CloseWrite h s :=
    attempt true (fun s => mkVolume (files s) (delete h (open_write s)) (open_read s) (next_handle s)
                             (free_bytes s) (volume_bytes s) (script s)) s;
  CreateDirectory p s :=
    match files s !! key p with
    | None => attempt true (fun s => set_files (<[key p := DirectoryNode]> (files s)) s) s
    | Some DirectoryNode => attempt true id s
    | Some _ => attempt false id s
    end;
  RemoveFile p s :=
    match files s !! key p with
    | None | Some (FileNode _) => attempt true (fun s => set_files (delete (key p) (files s)) s) s
    | Some _ => attempt false id s
    end;
  RemoveDirectory p recursive s :=
    match files s !! key p with
    | None => attempt true id s
    | Some DirectoryNode =>
        attempt (recursive || bool_decide (below (key p) (files s) = ∅))
          (fun s => set_files (delete (key p) (files s ∖ below (key p) (files s))) s) s
    | Some _ => attempt false id s
    end;
  Rename p q replace s :=
    match files s !! key p with
    | Some n =>
        attempt (replace || bool_decide (files s !! key q = None))
          (fun s => set_files (<[key q := n]> (delete (key p) (files s))) s)
          (if replace && loses s then set_files (delete (key q) (files s)) s else s)
    | None => attempt false id s
    end;
  SyncContainingDirectory p s := attempt true id s;
  GetFreeSpace s := query (Some (free_bytes s)) s;
  GetVolumeSize s := query (Some (volume_bytes s)) s;
  Yield s := s;
}.

Lemma attempt_cases possible effect s :
  let s' := mkVolume (files s) (open_write s) (open_read s) (next_handle s) (free_bytes s) (volume_bytes s) (tail (script s)) in
  (possible = true /\ attempt possible effect s = (true, effect s')) \/
  (possible = true /\ attempt possible effect s = (false, effect s')) \/
  attempt possible effect s = (false, s').
Proof.
  unfold attempt. destruct (script s) as [|[|[]] l]; destruct possible; cbn; auto.
Qed.

Ltac by_cases :=
  repeat match goal with
  | |- context [attempt ?b ?f ?s] =>
      destruct (attempt_cases b f s) as [[? ->]|[[? ->]| ->]]
  end; cbn.

Lemma query_law {A} (answer : option A) s :
  let '(r, s') := query answer s in
  (files s' = files s /\ open_write s' = open_write s /\ open_read s' = open_read s) /\
  (r = answer \/ r = None).
Proof.
  unfold query. by_cases; auto.
Qed.

Lemma memory_CreateFileFresh p s :
  let '(b, h, s') := CreateFileFresh p s in
  maybe (files s) (files s') (fun t => files s !! key p = None /\ t = <[key p := FileNode []]> (files s)) /\
  forall i, b = true -> h = Some i -> open_write s' !! i = Some (key p) /\
    files s !! key p = None /\ files s' = <[key p := FileNode []]> (files s).
Proof.
  cbn. unfold maybe. by_cases; repeat match goal with H : bool_decide _ = true |- _ => apply bool_decide_eq_true in H end.
  - split; [by right|]. intros i _ [= <-]. by rewrite lookup_insert_eq.
  - by split; [right|].
  - by split; [left|].
Qed.

Lemma memory_WriteFile h d s :
  let '(b, s') := WriteFile h d s in open_write s' = open_write s /\
  forall k c, open_write s !! h = Some k -> files s !! k = Some (FileNode c) ->
    exists c', files s' = <[k := FileNode c']> (files s) /\ (b = true -> c' = c ++ d).
Proof.
  cbn. destruct (open_write s !! h) as [k|] eqn:Ek; [|by by_cases].
  destruct (files s !! k) as [[c| |]|] eqn:Ec; cbn; by_cases; split; try done; intros k' c' [= <-] Hc; simplify_eq.
  - by exists (c ++ d).
  - by exists (c ++ d).
  - exists c. by rewrite insert_id.
Qed.

Lemma memory_RemoveDirectory p recursive s :
  let '(_, s') := RemoveDirectory p recursive s in
  forall k, key p `prefix_of` k \/ files s' !! k = files s !! k.
Proof.
  assert (Hgone : forall k, key p `prefix_of` k \/
    delete (key p) (files s ∖ below (key p) (files s)) !! k = files s !! k).
  { intros k. destruct (decide (key p `prefix_of` k)) as [?|Hn]; [by left|]. right.
    rewrite lookup_delete_ne by (intros E; by rewrite E in Hn).
    rewrite lookup_difference. unfold below. rewrite map_lookup_filter.
    destruct (files s !! k); [|done]. cbn. case_guard as Hp; [|done]. exfalso. apply Hn.
    cbn in Hp. etrans; [|exact Hp]. by apply prefix_app_r. }
  cbn. destruct (files s !! key p) as [[]|]; by_cases; auto.
Qed.

Lemma memory_Rename p q replace s :
  let '(b, s') := Rename p q replace s in
  let moved t := exists n, files s !! key p = Some n /\
    (replace = false -> files s !! key q = None) /\ t = <[key q := n]> (delete (key p) (files s)) in
  (maybe (files s) (files s') moved \/ replace = true /\ files s' = delete (key q) (files s)) /\
  (b = true -> moved (files s')).
Proof.
  cbn. unfold maybe. destruct (files s !! key p) as [n|]; [|by_cases; first [discriminate | split; [by left; left | done]]].
  destruct replace; cbn [andb orb].
  - unfold loses, attempt. destruct (script s) as [|[|[]] l] eqn:E; cbn; rewrite ?E; cbn.
    1-2: by split; [left; right|intros _]; exists n; split_and!.
    + split; [left; right|done]. by exists n; split_and!.
    + split; [by right | done].
  - by_cases; [split; [left; right|intros _] | split; [left; right | done] | by split; [left; left|]]; exists n;
      (split; [done|]; split; [|done]); intros _; by eapply bool_decide_eq_true_1.
Qed.

#[export] Instance memory_laws : FileSystemLaws Volume.
Proof.
  refine {| nodes := files; writing s h := open_write s !! h; reading s h := open_read s !! h |}; intros.
  6: { pose proof (memory_CreateFileFresh p s) as Hl. by destruct (CreateFileFresh p s) as [[b h] s']. }
  6: { pose proof (memory_WriteFile h d s) as Hl. destruct (WriteFile h d s) as [b s']. destruct Hl as [-> Hl]. by split. }
  10: { pose proof (memory_RemoveDirectory p recursive s) as Hl. by destruct (RemoveDirectory p recursive s) as [b s']. }
  10: { pose proof (memory_Rename p q replace s) as Hl. by destruct (Rename p q replace s) as [b s']. }
  all: cbn; unfold query, maybe, opened in *.
  all: by_cases; repeat (case_match; try discriminate); simplify_eq/=.
  all: rewrite ?lookup_insert_eq; repeat split; intros; simplify_eq/=; rewrite ?lookup_insert_eq, ?lookup_delete_eq; auto.
  all: match goal with E : files _ !! _ = Some (FileNode _) |- _ => rewrite E in *; cbn in *; simplify_eq; done end.
Defined.
End Memory.
