(* ===== verification/VolumeMoments.v ===== *)
(** * Every moment of a volume

    What holds at every moment a power cut could hit: [always M r] says that [M]
    held of the volume after every recorded operation and holds now.  One lemma per
    operation of the file system says what keeps it; the clients (the developer
    upload, the update installer) share them, and the lemmas on hashing a file piece
    by piece. *)
From stdpp Require Import gmap.
From S2P Require Import Prelude Sha256 FatPathPolicy UpdateFileSystem.
Import Traced.
Local Open Scope Z_scope.

(** ** Hashing piece by piece *)
Definition sha_of (s : Sha256) (m : bytes) : Prop :=
  absorbed s m /\ finalized_ s = false /\ total_bytes_ s = len m /\ len m <= UINT64_MAX.

Lemma sha_of_Reset : sha_of Reset [].
Proof. split; [apply absorbed_Reset|]. by repeat split. Qed.

Lemma Update_sha s m d s' : sha_of s m -> Update s d = (true, s') -> sha_of s' (m ++ d).
Proof.
  intros (Ha & Hf & Ht & Hl) Hu.
  destruct (Z.le_gt_cases (len m + len d) UINT64_MAX) as [Hle|Hgt].
  - destruct (Update_absorbed s m d Ha Hf Ht Hle) as (s1 & Hu1 & H1 & H2 & H3). rewrite Hu1 in Hu. injection Hu as <-.
    split; [done|]. split; [done|]. split; [done|]. by rewrite len_app.
  - unfold Update in Hu. rewrite Hf, Ht, (proj2 (Z.ltb_lt _ _)) in Hu by lia. discriminate Hu.
Qed.

Lemma Final_sha s m d : sha_of s m -> (Final s).1 = Some d -> d = sha256_spec m.
Proof.
  intros (Ha & Hf & Ht & Hl) Hd. destruct (Z.le_gt_cases (len m) (UINT64_MAX / 8)) as [Hle|Hgt].
  - rewrite (Final_absorbed s m Ha Hf Ht Hle) in Hd. by injection Hd as <-.
  - unfold Final in Hd. rewrite Hf, Ht, (proj2 (Z.ltb_lt _ _)) in Hd by lia. discriminate Hd.
Qed.

Lemma sha256_spec_digest m : length (sha256_spec m) = 32%nat /\ Forall is_byte (sha256_spec m).
Proof.
  unfold sha256_spec. pose proof (length_hash_state (pad m)) as Hl. generalize dependent (hash_state (pad m)).
  intros l Hl. do 8 (destruct l as [|? l]; [discriminate Hl|]). destruct l; [|discriminate Hl].
  split; [done|]. cbn. repeat (apply Forall_cons; split; [apply u8_range|]). constructor.
Qed.

Lemma digests_equal m expected : length expected = 32%nat -> Forall is_byte expected ->
  ConstantTimeDigestEqual (sha256_spec m) expected = true -> sha256_spec m = expected.
Proof.
  intros Hl Hb Hc. destruct (sha256_spec_digest m) as [H1 H2]. by apply ConstantTimeDigestEqual_spec in Hc.
Qed.

(** ** Moments *)
Section moments_of.
Context {F : Type} `{FileSystemLaws F}.
Notation V := (Recorded (F := F)).
Implicit Types (r : V) (t : tree).
Notation now r := (nodes (volume r)).

(** A predicate of the volume that held at every recorded moment and holds. *)
Definition always (M : tree -> Prop) r : Prop := Forall M (history r) /\ M (now r).

Section moments.
Variable M : tree -> Prop.

Lemma always_record {A} r (x : A * F) : always M r -> M (nodes x.2) -> always M (record r x).2.
Proof. intros [Hh Hn] Hx. split; [|done]. apply Forall_app. split; [done|]. by constructor. Qed.

(** Each operation keeps [always M] if [M] holds of all that it may leave. *)
Lemma Stat_always p r : always M r -> let '(x, r') := Stat p r in
  always M r' /\ same (volume r) (volume r') /\
  forall st, x = Some st -> node_type st = type_of (now r !! key p) /\
    forall c, now r !! key p = Some (FileNode c) -> node_size st = len c.
Proof.
  intros Ha. cbn. pose proof (Stat_law p (volume r)) as Hl. destruct (Stat p (volume r)) as [x s'] eqn:E. cbn.
  destruct Hl as [Hs Hst]. split; [|by split].
  apply (always_record r (x, s')); [done|]. cbn. rewrite (proj1 Hs). apply Ha.
Qed.

(** A rename onto an existing file may lose the target first. *)
Lemma Rename_always p q b r : always M r -> now r !! key p <> Some DirectoryNode ->
  (forall n, now r !! key p = Some n -> (b = false -> now r !! key q = None) ->
     M (<[key q := n]> (delete (key p) (now r)))) ->
  (b = true -> M (delete (key q) (now r))) ->
  let '(x, r') := Rename p q b r in
  let moved t := exists n, now r !! key p = Some n /\
    (b = false -> now r !! key q = None) /\ t = <[key q := n]> (delete (key p) (now r)) in
  always M r' /\ (maybe (now r) (now r') moved \/ b = true /\ now r' = delete (key q) (now r)) /\
  (x = true -> moved (now r')).
Proof.
  intros Ha Hdir HM HM'. cbn. pose proof (Rename_law p q b (volume r)) as Hl. destruct (Rename p q b (volume r)) as [x s'] eqn:E. cbn.
  cbv zeta in Hl. destruct (Hl Hdir) as [Hm Hx]. split; [|by split]. destruct Ha as [Hh Hn]. unfold always. cbn.
  assert (HMs : M (nodes s')).
  { destruct Hm as [[->|(n & Hn' & Hf & ->)]|[Hb ->]]; [done | by apply HM | by apply HM']. }
  split; [|done]. apply Forall_app. split; [done|]. apply Forall_app. split; [|by constructor].
  destruct b; [|constructor]. constructor; [by apply HM' | constructor].
Qed.

Lemma Rename_fresh_always p q r : always M r -> now r !! key p <> Some DirectoryNode ->
  (forall n, now r !! key p = Some n -> (false = false -> now r !! key q = None) ->
     M (<[key q := n]> (delete (key p) (now r)))) ->
  let '(x, r') := Rename p q false r in
  let moved t := exists n, now r !! key p = Some n /\
    (false = false -> now r !! key q = None) /\ t = <[key q := n]> (delete (key p) (now r)) in
  always M r' /\ maybe (now r) (now r') moved /\ (x = true -> moved (now r')).
Proof.
  intros Ha Hdir HM. pose proof (Rename_always p q false r Ha Hdir HM ltac:(done)) as Hr.
  destruct (Rename p q false r) as [x r']. destruct Hr as (H1 & [H2|[? _]] & H3); [by split | done].
Qed.

Lemma RemoveFile_always p r : always M r -> M (delete (key p) (now r)) ->
  let '(x, r') := RemoveFile p r in
  always M r' /\ maybe (now r) (now r') (fun t => t = delete (key p) (now r)) /\
  (x = true -> now r' !! key p = None).
Proof.
  intros Ha HM. cbn. pose proof (RemoveFile_law p (volume r)) as Hl. destruct (RemoveFile p (volume r)) as [x s'] eqn:E. cbn.
  destruct Hl as [Hm Hx]. split; [|by split]. apply (always_record r (x, s')); [done|]. cbn.
  destruct Hm as [->| ->]; [apply Ha | done].
Qed.

Lemma SyncContainingDirectory_always p r : always M r ->
  let '(_, r') := SyncContainingDirectory p r in always M r' /\ same (volume r) (volume r').
Proof.
  intros Ha. cbn. pose proof (SyncContainingDirectory_law p (volume r)) as Hl. destruct (SyncContainingDirectory p (volume r)) as [x s'] eqn:E. cbn.
  split; [|done]. apply (always_record r (x, s')); [done|]. cbn. rewrite (proj1 Hl). apply Ha.
Qed.

Lemma GetFreeSpace_always r : always M r ->
  let '(_, r') := GetFreeSpace r in always M r' /\ same (volume r) (volume r').
Proof.
  intros Ha. cbn. pose proof (GetFreeSpace_law (volume r)) as Hl. destruct (GetFreeSpace (volume r)) as [x s'] eqn:E. cbn.
  split; [|done]. apply (always_record r (x, s')); [done|]. cbn. rewrite (proj1 Hl). apply Ha.
Qed.

Lemma SyncFile_always h r : always M r ->
  let '(_, r') := SyncFile h r in always M r' /\ same (volume r) (volume r').
Proof.
  intros Ha. cbn. pose proof (SyncFile_law h (volume r)) as Hl. destruct (SyncFile h (volume r)) as [x s'] eqn:E. cbn.
  split; [|done]. apply (always_record r (x, s')); [done|]. cbn. rewrite (proj1 Hl). apply Ha.
Qed.

Lemma CloseWrite_always h r : always M r ->
  let '(_, r') := CloseWrite h r in always M r' /\ now r' = now r.
Proof.
  intros Ha. cbn. pose proof (CloseWrite_law h (volume r)) as Hl. destruct (CloseWrite h (volume r)) as [x s'] eqn:E. cbn.
  split; [|done]. apply (always_record r (x, s')); [done|]. cbn. rewrite Hl. apply Ha.
Qed.

Lemma CreateDirectory_always p r : always M r ->
  (now r !! key p = None -> M (<[key p := DirectoryNode]> (now r))) ->
  let '(b, r') := CreateDirectory p r in
  always M r' /\ maybe (now r) (now r') (fun t => now r !! key p = None /\ t = <[key p := DirectoryNode]> (now r)) /\
  (b = true -> now r' !! key p = Some DirectoryNode).
Proof.
  intros Ha HM. cbn. pose proof (CreateDirectory_law p (volume r)) as Hl. destruct (CreateDirectory p (volume r)) as [x s'] eqn:E. cbn.
  destruct Hl as (_ & Hm & Hb). split; [|done]. apply (always_record r (x, s')); [done|]. cbn.
  destruct Hm as [->|[Hn ->]]; [apply Ha | by apply HM].
Qed.

Lemma CreateFileFresh_always p r : always M r ->
  (now r !! key p = None -> M (<[key p := FileNode []]> (now r))) ->
  let '(b, h, r') := CreateFileFresh p r in
  always M r' /\ maybe (now r) (now r') (fun t => now r !! key p = None /\ t = <[key p := FileNode []]> (now r)) /\
  forall i, b = true -> h = Some i -> writing (volume r') i = Some (key p) /\
    now r !! key p = None /\ now r' = <[key p := FileNode []]> (now r).
Proof.
  intros Ha HM. cbn. pose proof (CreateFileFresh_law p (volume r)) as Hl.
  destruct (CreateFileFresh p (volume r)) as [[b h] s'] eqn:E. cbn. destruct Hl as [Hm Hi]. split; [|by split].
  apply (always_record r (b, h, s')); [done|]. cbn. destruct Hm as [->|[Hn ->]]; [apply Ha | by apply HM].
Qed.

Lemma WriteFile_always h d k c r : always M r -> writing (volume r) h = Some k ->
  now r !! k = Some (FileNode c) -> (forall c', M (<[k := FileNode c']> (now r))) ->
  let '(b, r') := WriteFile h d r in
  always M r' /\ writing (volume r') = writing (volume r) /\
  exists c', now r' = <[k := FileNode c']> (now r) /\ (b = true -> c' = c ++ d).
Proof.
  intros Ha Hw Hn HM. cbn. pose proof (WriteFile_law h d (volume r)) as Hl.
  destruct (WriteFile h d (volume r)) as [b s'] eqn:E. cbn. destruct Hl as [Hw' Hc].
  destruct (Hc k c Hw Hn) as (c' & Hn' & Hb). split; [|split; [done | by exists c']].
  apply (always_record r (b, s')); [done|]. cbn. rewrite Hn'. apply HM.
Qed.

(** Nothing on the volume has changed. *)
Definition still r r' : Prop := always M r' /\ now r' = now r /\ writing (volume r') = writing (volume r).

Lemma still_refl r : always M r -> still r r.
Proof. by split. Qed.

Lemma still_trans r1 r2 r3 : still r1 r2 -> still r2 r3 -> still r1 r3.
Proof. intros (H1 & H2 & H3) (H4 & H5 & H6). split; [done|]. split; congruence. Qed.

Lemma same_still r r' : always M r' -> same (volume r) (volume r') -> still r r'.
Proof. intros Ha (H1 & H2 & _). by split. Qed.

Lemma OpenRead_always p r : always M r ->
  let '(b, h, r') := OpenRead p r in still r r' /\
  forall i, b = true -> h = Some i -> reading (volume r') i = Some (key p).
Proof.
  intros Ha. cbn. pose proof (OpenRead_law p (volume r)) as Hl.
  destruct (OpenRead p (volume r)) as [[b h] s'] eqn:E. cbn. destruct Hl as (H1 & H2 & H3).
  split; [|done]. split; [|by split]. apply (always_record r (b, h, s')); [done|]. cbn. rewrite H1. apply Ha.
Qed.

Lemma GetSize_always h r : always M r ->
  let '(x, r') := GetSize h r in still r r' /\ reading (volume r') = reading (volume r) /\
  forall k c n, x = Some n -> reading (volume r) h = Some k -> now r !! k = Some (FileNode c) -> n = len c.
Proof.
  intros Ha. cbn. pose proof (GetSize_law h (volume r)) as Hl. destruct (GetSize h (volume r)) as [x s'] eqn:E. cbn.
  destruct Hl as [Hs Hx]. split; [|split; [apply Hs | done]]. apply same_still; [|done].
  apply (always_record r (x, s')); [done|]. cbn. rewrite (proj1 Hs). apply Ha.
Qed.

Lemma ReadAt_always h off n r : always M r ->
  let '(x, r') := ReadAt h off n r in still r r' /\ reading (volume r') = reading (volume r) /\
  forall k c d, x = Some d -> reading (volume r) h = Some k -> now r !! k = Some (FileNode c) ->
    0 <= off -> 0 <= n -> off + n <= len c -> d = sub c off n.
Proof.
  intros Ha. cbn. pose proof (ReadAt_law h off n (volume r)) as Hl. destruct (ReadAt h off n (volume r)) as [x s'] eqn:E. cbn.
  destruct Hl as [Hs Hx]. split; [|split; [apply Hs | done]]. apply same_still; [|done].
  apply (always_record r (x, s')); [done|]. cbn. rewrite (proj1 Hs). apply Ha.
Qed.

Lemma CloseRead_always h r : always M r -> let '(_, r') := CloseRead h r in still r r'.
Proof.
  intros Ha. cbn. pose proof (CloseRead_law h (volume r)) as Hl. destruct (CloseRead h (volume r)) as [x s'] eqn:E. cbn.
  destruct Hl as [H1 H2]. split; [|by split]. apply (always_record r (x, s')); [done|]. cbn. rewrite H1. apply Ha.
Qed.

Lemma GetVolumeSize_always r : always M r -> let '(_, r') := GetVolumeSize r in still r r'.
Proof.
  intros Ha. cbn. pose proof (GetVolumeSize_law (volume r)) as Hl. destruct (GetVolumeSize (volume r)) as [x s'] eqn:E. cbn.
  apply same_still; [|done]. apply (always_record r (x, s')); [done|]. cbn. rewrite (proj1 Hl). apply Ha.
Qed.
End moments.
End moments_of.
