(* ===== verification/FileTransaction.v ===== *)
(** * The developer file transaction (src/src/remote/developer_file_transaction.cpp)

    An upload replaces a file: its bytes go to a temporary sibling, which takes
    the place of the target only when length and SHA-256 are the promised ones,
    while the old target waits under a backup name.  The operations are written
    against the class [UpdateFileSystem]; C strings are their contents, and the
    file system pointer of the object is the flag [attached_].  What an upload
    guarantees is proved in UploadSafety.v. *)
From stdpp Require Import gmap.
From S2P Require Import Prelude Sha256 FatPathPolicy UpdateFileSystem.
From Stdlib Require Import Ascii.
Local Open Scope Z_scope.

Definition kDeveloperFilePathBytes : Z := 512.
Definition kHashBufferBytes : Z := 4096.

Inductive DeveloperFileStatus :=
| Ok | InvalidArgument | InvalidPath | FileMissing | NotRegularFile | InsufficientSpace | Busy
| IoError | LengthMismatch | HashMismatch | InstallFailed.

Inductive UpdateRenameStatus :=
| RenameOk | RenameMissing | WrongType | AlreadyExists | SourceError | TargetError | RenameError.

Record DeveloperFileInfo := mkInfo { info_size : Z; info_sha256 : bytes }.

Definition HexDigit (c : Z) : Z :=
  if in_range 48 57 c then c - 48
  else if in_range 97 102 c then c - 97 + 10
  else if in_range 65 70 c then c - 65 + 10
  else -1.

Definition CopyPath (source : bytes) (capacity : Z) : option bytes :=
  if (len source =? 0) || (capacity <=? len source) then None else Some source.

Fixpoint FatAsciiPathEquals (left right : bytes) : bool :=
  match left, right with
  | l :: left', r :: right' =>
      if AsciiLower l =? AsciiLower r then FatAsciiPathEquals left' right' else false
  | [], [] => true
  | _, _ => false
  end.

Fixpoint decode_digest (text : bytes) (n : nat) : option bytes :=
  match n, text with
  | O, _ => Some []
  | S n', h :: l :: text' =>
      let high := HexDigit h in
      let low := HexDigit l in
      if (high <? 0) || (low <? 0) then None
      else (fun d => u8 (Z.lor (Z.shiftl high 4) low) :: d) <$> decode_digest text' n'
  | _, _ => None
  end.

Definition DecodeSha256Hex (text : bytes) : option bytes :=
  if negb (len text =? 64) then None else decode_digest text 32.

Definition EncodeSha256Hex (digest : bytes) : bytes :=
  let hex := str "0123456789abcdef" in
  concat ((fun b => [byte_at hex (Z.shiftr b 4); byte_at hex (Z.land b 15)]) <$> digest).

Section transaction.
Context {F : Type} `{UpdateFileSystem F}.

Definition yield_if (yield : bool) (s : F) : F := if yield then Yield s else s.

(** The hashing loop; a turn reads at least one byte. *)
Fixpoint hash_loop (fuel : nat) (h : nat) (yield : bool) (size offset : Z) (sha : Sha256) (s : F)
    : option Sha256 * F :=
  if offset <? size then
    match fuel with
    | O => (None, s)
    | S fuel' =>
        let count := if size - offset <? kHashBufferBytes then size - offset else kHashBufferBytes in
        match ReadAt h offset count s with
        | (Some d, s) =>
            let '(ok, sha) := Update sha d in
            if ok then hash_loop fuel' h yield size (offset + count) sha (yield_if yield s) else (None, s)
        | (None, s) => (None, s)
        end
    end
  else (Some sha, s).

Definition ProbeDeveloperFile (path : bytes) (yield : bool) (s : F)
    : DeveloperFileStatus * option DeveloperFileInfo * F :=
  match Stat path s with
  | (None, s) => (IoError, None, s)
  | (Some st, s) =>
      if bool_decide (node_type st = Missing) then (FileMissing, None, s)
      else if negb (bool_decide (node_type st = RegularFile)) then (NotRegularFile, None, s)
      else
        let '(opened, file, s) := OpenRead path s in
        match opened, file with
        | true, Some h =>
            let '(size, s) := GetSize h s in
            let '(hash, n, s) :=
              match size with
              | Some n =>
                  if n =? node_size st then
                    let '(hash, s) := hash_loop (Z.to_nat (n / kHashBufferBytes + 1)) h yield n 0 Reset s in
                    (hash, n, s)
                  else (None, n, s)
              | None => (None, 0, s)
              end in
            let '(closed, s) := CloseRead h s in
            match hash, closed with
            | Some sha, true =>
                match (Final sha).1 with
                | Some digest => (Ok, Some (mkInfo n digest), s)
                | None => (IoError, None, s)
                end
            | _, _ => (IoError, None, s)
            end
        | _, _ => (IoError, None, s)
        end
  end.

(** Creating the directories that the [/] of a path end, and for [CreateDirectoryTree]
    the path itself: [seen] is the part before [rest]. *)
Fixpoint create_prefixes (seen rest : bytes) (s : F) : bool * F :=
  match rest with
  | [] => (true, s)
  | c :: rest' =>
      if c =? SLASH then
        let '(ok, s) := CreateDirectory seen s in
        if ok then create_prefixes (seen ++ [c]) rest' s else (false, s)
      else create_prefixes (seen ++ [c]) rest' s
  end.

Definition CreateDirectoryTree (path : bytes) (s : F) : bool * F :=
  match CopyPath path kDeveloperFilePathBytes with
  | None => (false, s)
  | Some working =>
      let '(ok, s) := create_prefixes [] working s in
      if ok then CreateDirectory working s else (false, s)
  end.

Definition RenameUpdateNode (source target : bytes) (expected_type : UpdateNodeType) (s : F)
    : UpdateRenameStatus * F :=
  match Stat source s with
  | (None, s) => (SourceError, s)
  | (Some source_stat, s) =>
      match Stat target s with
      | (None, s) => (TargetError, s)
      | (Some target_stat, s) =>
          if bool_decide (node_type source_stat = Missing) then (RenameMissing, s)
          else if negb (bool_decide (node_type source_stat = expected_type)) then (WrongType, s)
          else if negb (bool_decide (node_type target_stat = Missing)) then (AlreadyExists, s)
          else
            let '(renamed, s) := Rename source target false s in
            if negb renamed then (RenameError, s)
            else
              let '(synced, s) := SyncContainingDirectory target s in
              (if synced then RenameOk else RenameError, s)
      end
  end.

Record DeveloperFileTransaction := mkTransaction {
  attached_ : bool;
  write_file_ : option nat;
  sha256_ : Sha256;
  expected_sha256_ : bytes;
  actual_sha256_ : bytes;
  target_path_ : bytes;
  temporary_path_ : bytes;
  backup_path_ : bytes;
  expected_size_ : Z;
  received_ : Z;
  request_token_ : Z;
  yield_ : bool;
  target_existed_ : bool;
  discard_ : bool;
  active_ : bool;
  finished_ : bool;
  changed_ : bool;
}.

Definition new_transaction : DeveloperFileTransaction :=
  mkTransaction false None Reset (replicate 32 0) (replicate 32 0) [] [] [] 0 0 0 false
    false false false false false.

Definition CreateParents (t : DeveloperFileTransaction) (s : F) : bool * F :=
  match CopyPath (target_path_ t) kDeveloperFilePathBytes with
  | None => (false, s)
  | Some parent => create_prefixes [] parent s
  end.

(** The bytes up to and including the last [/]. *)
Fixpoint directory_part (path : bytes) : bytes :=
  match path with
  | [] => []
  | c :: path' =>
      match directory_part path' with
      | [] => if c =? SLASH then [c] else []
      | d => c :: d
      end
  end.

(** [%08lx] *)
Definition hex8 (v : Z) : bytes :=
  (fun i => byte_at (str "0123456789abcdef") (Z.land (Z.shiftr v (4 * (7 - Z.of_nat i))) 15)) <$> seq 0 8.

Definition preferred_name (directory : bytes) (kind candidate : Z) : bytes :=
  directory ++ str ".bmx-" ++ [kind] ++ hex8 candidate ++ str ".tmp".

(** A candidate is taken if nothing is there: [Some] ends the search. *)
Definition try_candidate (target candidate : bytes) (s : F) : option (bool * bytes) * F :=
  if FatAsciiPathEquals candidate target then (None, s)
  else match Stat candidate s with
       | (None, s) => (Some (false, candidate), s)
       | (Some st, s) =>
           if bool_decide (node_type st = Missing) then (Some (true, candidate), s) else (None, s)
       end.

Fixpoint preferred_loop (target directory : bytes) (kind token : Z) (capacity : Z) (attempts : list Z)
    (s : F) : option (bool * bytes) * F :=
  match attempts with
  | [] => (None, s)
  | attempt :: attempts' =>
      let candidate := preferred_name directory kind (u32 (token + attempt)) in
      if capacity <=? len candidate then (Some (false, candidate), s)
      else
        match try_candidate target candidate s with
        | (None, s) => preferred_loop target directory kind token capacity attempts' s
        | r => r
        end
  end.

Definition alphabet : bytes := str "0123456789abcdefghijklmnopqrstuvwxyz".

Fixpoint fallback_letters (n : nat) (state : Z) : bytes :=
  match n with
  | O => []
  | S n' =>
      let state := u32 (u32 (state * 1664525) + 1013904223) in
      byte_at alphabet (state mod 36) :: fallback_letters n' state
  end.

Definition fallback_name (directory : bytes) (kind token attempt : Z) (name_size : nat) : bytes :=
  let state := Z.lxor token (if kind =? ch "u"%char then 0x9e3779b9 else 0x85ebca6b) in
  directory ++ take (name_size - 1) (fallback_letters name_size state) ++
  [byte_at alphabet ((token mod 36 + attempt) mod 36)].

Fixpoint fallback_loop (target directory : bytes) (kind token : Z) (name_size : nat)
    (attempts : list Z) (s : F) : bool * bytes * F :=
  match attempts with
  | [] => (false, [], s)
  | attempt :: attempts' =>
      match try_candidate target (fallback_name directory kind token attempt name_size) s with
      | (Some (ok, destination), s) => (ok, destination, s)
      | (None, s) => fallback_loop target directory kind token name_size attempts' s
      end
  end.

(** [SelectSiblingPath]: success and what was written to [destination]. *)
Definition SelectSiblingPath (target : bytes) (kind token : Z) (capacity : Z) (destination : bytes) (s : F)
    : bool * bytes * F :=
  let directory := directory_part target in
  let directory_size := len directory in
  let '(preferred, s) :=
    if directory_size + 18 <? capacity
    then preferred_loop target directory kind token capacity (Z.of_nat <$> seq 0 32) s
    else (None, s) in
  match preferred with
  | Some (ok, destination) => (ok, destination, s)
  | None =>
      if capacity <=? directory_size + 1 then (false, destination, s)
      else
        let available := capacity - directory_size - 1 in
        let name_size := if available <? 8 then available else 8 in
        fallback_loop target directory kind token (Z.to_nat name_size) (Z.of_nat <$> seq 0 36) s
  end.

(** ** The operations of the transaction *)
Definition with_temporary (t : DeveloperFileTransaction) (p : bytes) (h : option nat) : DeveloperFileTransaction :=
  mkTransaction (attached_ t) h (sha256_ t) (expected_sha256_ t) (actual_sha256_ t) (target_path_ t) p
    (backup_path_ t) (expected_size_ t) (received_ t) (request_token_ t) (yield_ t) (target_existed_ t)
    (discard_ t) (active_ t) (finished_ t) (changed_ t).
Definition with_backup (t : DeveloperFileTransaction) (p : bytes) : DeveloperFileTransaction :=
  mkTransaction (attached_ t) (write_file_ t) (sha256_ t) (expected_sha256_ t) (actual_sha256_ t)
    (target_path_ t) (temporary_path_ t) p (expected_size_ t) (received_ t) (request_token_ t) (yield_ t)
    (target_existed_ t) (discard_ t) (active_ t) (finished_ t) (changed_ t).
Definition with_sha256 (t : DeveloperFileTransaction) (sha : Sha256) (actual : bytes) (received : Z)
    : DeveloperFileTransaction :=
  mkTransaction (attached_ t) (write_file_ t) sha (expected_sha256_ t) actual (target_path_ t)
    (temporary_path_ t) (backup_path_ t) (expected_size_ t) received (request_token_ t) (yield_ t)
    (target_existed_ t) (discard_ t) (active_ t) (finished_ t) (changed_ t).
Definition with_begun (t : DeveloperFileTransaction) (existed discard active : bool) : DeveloperFileTransaction :=
  mkTransaction (attached_ t) (write_file_ t) (sha256_ t) (expected_sha256_ t) (actual_sha256_ t)
    (target_path_ t) (temporary_path_ t) (backup_path_ t) (expected_size_ t) (received_ t)
    (request_token_ t) (yield_ t) existed discard active (finished_ t) (changed_ t).
(** The end of an attempt: detached, with the given outcome. *)
Definition detached (t : DeveloperFileTransaction) (finished changed : bool) : DeveloperFileTransaction :=
  mkTransaction false None (sha256_ t) (expected_sha256_ t) (actual_sha256_ t)
    (target_path_ t) [] [] (expected_size_ t) (received_ t) (request_token_ t) false
    (target_existed_ t) (discard_ t) false finished changed.

Definition Abort (t : DeveloperFileTransaction) (s : F) : DeveloperFileTransaction * F :=
  let s := match write_file_ t with Some h => (CloseWrite h s).2 | None => s end in
  let s := if attached_ t && negb (bool_decide (temporary_path_ t = []))
           then (RemoveFile (temporary_path_ t) s).2 else s in
  let s :=
    if attached_ t && negb (bool_decide (backup_path_ t = [])) then
      match Stat (target_path_ t) s with
      | (Some st, s) =>
          if bool_decide (node_type st = Missing)
          then (Rename (backup_path_ t) (target_path_ t) false s).2 else s
      | (None, s) => s
      end
    else s in
  (detached t false false, s).

Definition Fail (status : DeveloperFileStatus) (t : DeveloperFileTransaction) (s : F)
    : DeveloperFileStatus * DeveloperFileTransaction * F :=
  let '(t, s) := Abort t s in (status, t, s).

(** The object after the assignments of [Begin] that precede its first call. *)
Definition begin_state (t : DeveloperFileTransaction) (path : bytes) (content_length : Z)
    (expected_sha256 : bytes) (request_token : Z) (yield : bool) : DeveloperFileTransaction :=
  mkTransaction true (write_file_ t) Reset expected_sha256 (actual_sha256_ t) path [] [] content_length 0
    request_token yield (target_existed_ t) (discard_ t) (active_ t) false false.

(** The part of [Begin] that prepares the temporary file. *)
Definition begin_temporary (t : DeveloperFileTransaction) (s : F)
    : DeveloperFileStatus * DeveloperFileTransaction * F :=
  let t := with_begun t (target_existed_ t) false (active_ t) in
  match GetFreeSpace s with
  | (None, s) => Fail IoError t s
  | (Some free_space, s) =>
      if free_space <? expected_size_ t then Fail InsufficientSpace t s
      else
        let '(ok, s) := CreateParents t s in
        if negb ok then Fail IoError t s
        else
          let '(ok, temporary, s) :=
            SelectSiblingPath (target_path_ t) (ch "u"%char) (request_token_ t) kDeveloperFilePathBytes
              (temporary_path_ t) s in
          let t := with_temporary t temporary (write_file_ t) in
          if negb ok then Fail IoError t s
          else
            let '(ok, h, s) := CreateFileFresh (temporary_path_ t) s in
            match ok, h with
            | true, Some h =>
                let t := with_temporary t temporary (Some h) in
                (Ok, with_begun t (target_existed_ t) false true, s)
            | _, _ => Fail IoError t s
            end
  end.

Definition Begin (t : DeveloperFileTransaction) (path : bytes) (content_length : Z)
    (expected_sha256 : bytes) (request_token : Z) (yield : bool) (s : F)
    : DeveloperFileStatus * DeveloperFileTransaction * F :=
  if active_ t then (Busy, t, s)
  else if negb (bool_decide (ValidateDeveloperFatRelativePath (Some path) kDeveloperFilePathBytes
                             = FatPathPolicy.Ok)) ||
          bool_decide (CopyPath path kDeveloperFilePathBytes = None)
  then (InvalidPath, t, s)
  else
    let t := begin_state t path content_length expected_sha256 request_token yield in
    match Stat (target_path_ t) s with
    | (None, s) => Fail IoError t s
    | (Some st, s) =>
        if bool_decide (node_type st = Directory) || bool_decide (node_type st = Other)
        then Fail NotRegularFile t s
        else
          let existed := bool_decide (node_type st = RegularFile) in
          let t := with_begun t existed (discard_ t) (active_ t) in
          if existed then
            match ProbeDeveloperFile (target_path_ t) yield s with
            | (Ok, Some existing, s) =>
                if (info_size existing =? expected_size_ t) &&
                   ConstantTimeDigestEqual (info_sha256 existing) (expected_sha256_ t)
                then (Ok, with_begun t existed true true, s)
                else begin_temporary t s
            | (Ok, None, s) => Fail IoError t s
            | (probe, _, s) => Fail probe t s
            end
          else begin_temporary t s
    end.

(** [Write]; there is a file whenever the body is not discarded. *)
Definition Write (t : DeveloperFileTransaction) (data : bytes) (s : F)
    : DeveloperFileStatus * DeveloperFileTransaction * F :=
  if negb (active_ t) || finished_ t then (InvalidArgument, t, s)
  else if u64 (expected_size_ t - received_ t) <? len data then Fail LengthMismatch t s
  else
    let '(ok, sha) := Update (sha256_ t) data in
    let t := with_sha256 t sha (actual_sha256_ t) (received_ t) in
    if negb ok then Fail IoError t s
    else
      let '(ok, s) :=
        if discard_ t then (true, s)
        else match write_file_ t with
             | Some h => WriteFile h data s
             | None => (false, s)
             end in
      if negb ok then Fail IoError t s
      else (Ok, with_sha256 t sha (actual_sha256_ t) (u64 (received_ t + len data)), s).

(** The renames of [Finish]: whether the new file is installed and the old one
    under the backup name. *)
Definition install (t : DeveloperFileTransaction) (s : F)
    : bool * bool * DeveloperFileTransaction * F :=
  if negb (target_existed_ t) then
    let '(installed, s) := Rename (temporary_path_ t) (target_path_ t) false s in
    (installed, false, t, s)
  else
    let '(ok, backup, s) :=
      SelectSiblingPath (target_path_ t) (ch "b"%char) (request_token_ t) kDeveloperFilePathBytes
        (backup_path_ t) s in
    let t := with_backup t backup in
    if negb ok then (false, false, t, s)
    else
      let '(moved, s) := Rename (target_path_ t) (backup_path_ t) false s in
      if negb moved then (false, false, t, s)
      else
        let '(installed, s) := Rename (temporary_path_ t) (target_path_ t) false s in
        if installed then (true, true, t, s)
        else
          let '(restored, s) := Rename (backup_path_ t) (target_path_ t) false s in
          if restored then (false, false, with_backup t [], s) else (false, true, t, s).

(** The rest of [Finish] once the new file is installed. *)
Definition commit (t : DeveloperFileTransaction) (backup_installed : bool) (s : F)
    : DeveloperFileStatus * DeveloperFileTransaction * F :=
  let '(synced, s) := SyncContainingDirectory (target_path_ t) s in
  if negb synced then
    if backup_installed then
      let '(removed, s) := RemoveFile (target_path_ t) s in
      if removed then
        let '(restored, s) := Rename (backup_path_ t) (target_path_ t) false s in
        Fail IoError (if restored then with_backup t [] else t) s
      else Fail IoError t s
    else
      let '(_, s) := RemoveFile (target_path_ t) s in
      Fail IoError t s
  else
    let s := if backup_installed then (RemoveFile (backup_path_ t) s).2 else s in
    (Ok, detached t true true, s).

Definition Finish (t : DeveloperFileTransaction) (s : F)
    : DeveloperFileStatus * DeveloperFileTransaction * F :=
  if negb (active_ t) || finished_ t then (InvalidArgument, t, s)
  else if negb (received_ t =? expected_size_ t) then Fail LengthMismatch t s
  else
    let '(digest, sha) := Final (sha256_ t) in
    match digest with
    | None => Fail IoError (with_sha256 t sha (actual_sha256_ t) (received_ t)) s
    | Some digest =>
        let t := with_sha256 t sha digest (received_ t) in
        if negb (ConstantTimeDigestEqual (actual_sha256_ t) (expected_sha256_ t))
        then Fail HashMismatch t s
        else if discard_ t then (Ok, detached t true false, s)
        else
          match write_file_ t with
          | None => Fail IoError t s
          | Some h =>
              let '(synced, s) := SyncFile h s in
              if negb synced then Fail IoError t s
              else
                let '(closed, s) := CloseWrite h s in
                let t := with_temporary t (temporary_path_ t) None in
                if negb closed then Fail IoError t s
                else
                  let '(installed, backup_installed, t, s) := install t s in
                  if negb installed then Fail InstallFailed t s
                  else commit (with_temporary t [] None) backup_installed s
          end
    end.
End transaction.

Definition DeveloperFileStatusText (status : DeveloperFileStatus) : bytes :=
  match status with
  | Ok => str "ok"
  | InvalidArgument => str "invalid argument"
  | InvalidPath => str "invalid path"
  | FileMissing => str "file not found"
  | NotRegularFile => str "not a regular file"
  | InsufficientSpace => str "insufficient space"
  | Busy => str "file service busy"
  | IoError => str "filesystem I/O error"
  | LengthMismatch => str "content length mismatch"
  | HashMismatch => str "SHA-256 mismatch"
  | InstallFailed => str "install failed"
  end.
