(* ===== verification/UploadSafety.v ===== *)
(** * What an upload guarantees (developer_file_transaction.cpp)

    The theorems hold for every volume that obeys [FileSystemLaws], where every
    operation may fail and a failed one may still have happened: at every moment
    between two operations of the file system the target is the old file, the
    complete new one, or absent while the backup holds the old one, and nothing
    else that was on the volume has changed. *)
From stdpp Require Import gmap.
From S2P Require Import Prelude Sha256 FatPathPolicy UpdateFileSystem VolumeMoments FileTransaction.
From Stdlib Require Import Ascii.
Import Traced.
Local Open Scope Z_scope.

(** ** Paths *)
Lemma FatAsciiPathEquals_key l : forall r, FatAsciiPathEquals l r = true <-> key l = key r.
Proof.
  unfold key. induction l as [|c l IH]; intros [|d r]; cbn [FatAsciiPathEquals fmap list_fmap]; try done.
  destruct (Z.eqb_spec (AsciiLower c) (AsciiLower d)) as [E|E].
  - rewrite IH, E. split; [by intros -> | by intros [= ->]].
  - split; [done | by intros [= ? _]].
Qed.

Lemma key_length p : length (key p) = length p.
Proof. unfold key. by rewrite length_fmap. Qed.

(** ** What a client does with a transaction that has begun *)
Inductive upload_op := OpWrite (data : bytes) | OpFinish | OpAbort.

Section client.
Context {F : Type} `{UpdateFileSystem F}.

Definition upload_step (op : upload_op) (tx : DeveloperFileTransaction) (s : F)
    : DeveloperFileStatus * DeveloperFileTransaction * F :=
  match op with
  | OpWrite data => Write tx data s
  | OpFinish => Finish tx s
  | OpAbort => let '(tx, s) := Abort tx s in (Ok, tx, s)
  end.

(** The status of every operation, and the final object and volume. *)
Fixpoint run_upload (ops : list upload_op) (tx : DeveloperFileTransaction) (s : F)
    : list DeveloperFileStatus * DeveloperFileTransaction * F :=
  match ops with
  | [] => ([], tx, s)
  | op :: ops' =>
      let '(st, tx, s) := upload_step op tx s in
      let '(sts, tx, s) := run_upload ops' tx s in
      (st :: sts, tx, s)
  end.
End client.

Section upload.
Context {F : Type} `{FileSystemLaws F}.
Notation V := (Recorded (F := F)).
Implicit Types (r : V) (t : tree) (tx : DeveloperFileTransaction).
Notation now r := (nodes (volume r)).

Section moments.
Variable M : tree -> Prop.
Local Notation still := (VolumeMoments.still M).

Lemma yield_if_always b r : always M r -> always M (yield_if b r) /\ same (volume r) (volume (yield_if b r)).
Proof.
  intros Ha. destruct b; cbn; [|done]. pose proof (Yield_law (volume r)) as Hs.
  split; [|done]. destruct Ha as [Hh Hn]. unfold always. cbn. rewrite (proj1 Hs). split; [|done].
  apply Forall_app. split; [done|]. by constructor.
Qed.

Lemma hash_loop_quiet fuel h yield size : forall offset sha r, always M r ->
  let '(x, r') := hash_loop fuel h yield size offset sha r in
  still r r' /\
  forall k c, reading (volume r) h = Some k -> now r !! k = Some (FileNode c) -> size = len c ->
    0 <= offset <= size -> sha_of sha (take (Z.to_nat offset) c) ->
    forall sha', x = Some sha' -> sha_of sha' c.
Proof.
  induction fuel as [|fuel IH]; intros offset sha r Ha; cbn [hash_loop];
    (destruct (Z.ltb_spec offset size) as [Hlt|Hge];
     [|split; [by apply still_refl|]; intros k c _ _ -> Ho Hs sha' [= <-];
       rewrite take_ge in Hs by (unfold len in *; lia); exact Hs]); [by split; [apply still_refl|]|].
  set (count := if size - offset <? kHashBufferBytes then _ else _).
  assert (Hcount : 0 <= count /\ (offset < size -> 0 < count <= size - offset)).
  { unfold count, kHashBufferBytes. destruct (Z.ltb_spec (size - offset) 4096); lia. }
  pose proof (ReadAt_law h offset count (volume r)) as Hl. cbn [ReadAt recorded_file_system].
  destruct (ReadAt h offset count (volume r)) as [[d|] s'] eqn:E; cbn [record fst snd];
    destruct Hl as [Hsame Hd]; set (r1 := mkRecorded s' _);
    (assert (H1 : always M r1) by (apply (always_record M r (@None bytes, s')); [done | cbn; rewrite (proj1 Hsame); apply Ha]));
    [|split; [by apply same_still | done]].
  destruct (Update sha d) as [[] sha1] eqn:Eu; [|split; [by apply same_still | done]].
  destruct (yield_if_always yield r1 H1) as [H2 Hsame2].
  specialize (IH (offset + count) sha1 (yield_if yield r1) H2).
  destruct (hash_loop fuel h yield size (offset + count) sha1 (yield_if yield r1)) as [x r'].
  destruct IH as [Hq Hx]. split.
  - eapply still_trans; [by apply (same_still M r r1)|]. eapply still_trans; [|exact Hq]. by apply same_still.
  - intros k c Hr Hn Hsz Ho Hs. destruct Hsame as (G1 & G2 & G3). destruct Hsame2 as (G4 & G5 & G6).
    apply (Hx k c); [by rewrite G6; cbn; rewrite G3 | by rewrite G4; cbn; rewrite G1 | done | lia |].
    specialize (Hd k c d eq_refl Hr Hn ltac:(lia) ltac:(lia) ltac:(lia)). subst d.
    apply (Update_sha _ _ _ _ Hs) in Eu. unfold sub in Eu. rewrite take_take_drop in Eu.
    replace (Z.to_nat offset + Z.to_nat count)%nat with (Z.to_nat (offset + count)) in Eu by lia. exact Eu.
Qed.

Lemma Probe_quiet p yield r : always M r ->
  let '(st, info, r') := ProbeDeveloperFile p yield r in
  still r r' /\ forall i, st = Ok -> info = Some i ->
    exists c, now r !! key p = Some (FileNode c) /\ info_size i = len c /\ info_sha256 i = sha256_spec c.
Proof.
  intros Ha. unfold ProbeDeveloperFile. pose proof (Stat_always M p r Ha) as Hst. destruct (Stat p r) as [[st|] r1].
  2: { destruct Hst as (H1 & H2 & _). split; [by apply same_still | done]. }
  destruct Hst as (H1 & H2 & H3). destruct (H3 st eq_refl) as [Ht Hsz]. pose proof (same_still M r r1 H1 H2) as Hq1.
  case_bool_decide; [by split|]. case_bool_decide as Hreg; cbn [negb]; [|by split].
  rewrite Hreg in Ht. assert (Hfile : exists c, now r !! key p = Some (FileNode c)).
  { destruct (now r !! key p) as [[c| |]|]; try discriminate Ht. by exists c. }
  destruct Hfile as [c Hc]. pose proof (OpenRead_law p (volume r1)) as Ho. cbn [OpenRead recorded_file_system].
  destruct (OpenRead p (volume r1)) as [[opened file] s2] eqn:Eo. cbn [record fst snd]. destruct Ho as (Ho1 & Ho2 & Ho3).
  set (r2 := mkRecorded s2 _). assert (Hq2 : still r r2).
  { eapply still_trans; [exact Hq1|]. split; [|by split].
    apply (always_record M r1 (opened, s2)); [done|]. cbn. rewrite Ho1. apply H1. }
  destruct opened; [|by split]. destruct file as [h|]; [|by split]. specialize (Ho3 h eq_refl eq_refl).
  pose proof (GetSize_law h (volume r2)) as Hg. cbn [GetSize recorded_file_system].
  destruct (GetSize h (volume r2)) as [size s3] eqn:Eg. cbn [record fst snd]. destruct Hg as [Hg1 Hg2].
  set (r3 := mkRecorded s3 _). assert (Hq3 : still r r3).
  { eapply still_trans; [exact Hq2|]. apply same_still; [|done].
    apply (always_record M r2 (size, s3)); [apply Hq2|]. cbn. rewrite (proj1 Hg1). apply Hq2. }
  assert (Hhash : let '(hash, n, r4) :=
      match size with
      | Some n =>
          if n =? node_size st then
            let '(hash, s) := hash_loop (Z.to_nat (n / kHashBufferBytes + 1)) h yield n 0 Reset r3 in (hash, n, s)
          else (None, n, r3)
      | None => (None, 0, r3)
      end in
    still r r4 /\ forall sha, hash = Some sha -> n = len c /\ sha_of sha c).
  { destruct size as [n|]; [|by split]. destruct (Z.eqb_spec n (node_size st)) as [En|]; [|by split].
    pose proof (hash_loop_quiet (Z.to_nat (n / kHashBufferBytes + 1)) h yield n 0 Reset r3 (proj1 Hq3)) as Hl.
    destruct (hash_loop _ h yield n 0 Reset r3) as [hash r4]. destruct Hl as [Hq4 Hl].
    split; [by eapply still_trans|]. intros sha Hsha. rewrite (Hsz c Hc) in En. split; [done|].
    apply (Hl (key p) c); [by destruct Hg1 as (_ & _ & Hg3); cbn; rewrite Hg3 | | done | len_facts; lia | by apply sha_of_Reset | done].
    by rewrite (proj1 (proj2 Hq3)). }
  destruct (match size with Some _ => _ | None => _ end) as [[hash n] r4]. destruct Hhash as [Hq4 Hsha].
  pose proof (CloseRead_law h (volume r4)) as Hcl. cbn [CloseRead recorded_file_system].
  destruct (CloseRead h (volume r4)) as [closed s5] eqn:Ec. cbn [record fst snd]. destruct Hcl as [Hcl1 Hcl2].
  set (r5 := mkRecorded s5 _). assert (Hq5 : still r r5).
  { eapply still_trans; [exact Hq4|]. split; [|by split].
    apply (always_record M r4 (closed, s5)); [apply Hq4|]. cbn. rewrite Hcl1. apply Hq4. }
  destruct hash as [sha|]; [|by split]. destruct closed; [|by split].
  destruct (Final sha).1 as [d|] eqn:Ed; [|by split]. split; [done|]. intros i _ [= <-].
  destruct (Hsha sha eq_refl) as [-> Hs]. exists c. split; [done|]. split; [done|]. by apply (Final_sha sha c).
Qed.

(** *** The sibling paths *)
Definition fresh_sibling (target : bytes) r (path : bytes) : Prop :=
  path <> [] /\ key path <> key target /\ now r !! key path = None.

Lemma try_candidate_quiet target candidate r : always M r -> candidate <> [] ->
  let '(x, r') := try_candidate target candidate r in
  still r r' /\ forall d, x = Some (true, d) -> fresh_sibling target r d.
Proof.
  intros Ha Hne. unfold try_candidate. destruct (FatAsciiPathEquals candidate target) eqn:Ee.
  { split; [by apply still_refl | done]. }
  pose proof (Stat_always M candidate r Ha) as Hst. destruct (Stat candidate r) as [[st|] r1];
    destruct Hst as (H1 & H2 & H3); [|by split; [apply same_still | done]].
  case_bool_decide as Hm; (split; [by apply same_still|]); [|done]. intros d [= <-]. split; [done|]. split.
  - intros Hk. apply FatAsciiPathEquals_key in Hk. congruence.
  - destruct (H3 st eq_refl) as [Ht _]. rewrite Hm in Ht. by destruct (now r !! key candidate) as [[]|].
Qed.

Lemma preferred_loop_quiet target directory kind token capacity attempts : forall r, always M r ->
  let '(x, r') := preferred_loop target directory kind token capacity attempts r in
  still r r' /\ forall d, x = Some (true, d) -> fresh_sibling target r d.
Proof.
  induction attempts as [|i attempts IH]; intros r Ha; cbn [preferred_loop]; [by split; [apply still_refl|]|].
  destruct (_ <=? _); [by split; [apply still_refl|]|].
  set (candidate := preferred_name directory kind (u32 (token + i))).
  assert (Hne : candidate <> []) by (unfold candidate, preferred_name; by destruct directory).
  pose proof (try_candidate_quiet target candidate r Ha Hne) as Ht.
  destruct (try_candidate target candidate r) as [[x|] r1]; [done|]. destruct Ht as [Hq _].
  specialize (IH r1 (proj1 Hq)). destruct (preferred_loop target directory kind token capacity attempts r1) as [x r2].
  destruct IH as [Hq2 Hx]. split; [by eapply still_trans|]. intros d Hd. specialize (Hx d Hd).
  unfold fresh_sibling in *. by rewrite (proj1 (proj2 Hq)) in Hx.
Qed.

Lemma fallback_loop_quiet target directory kind token n attempts : forall r, always M r ->
  let '(ok, d, r') := fallback_loop target directory kind token n attempts r in
  still r r' /\ (ok = true -> fresh_sibling target r d).
Proof.
  induction attempts as [|i attempts IH]; intros r Ha; cbn [fallback_loop]; [by split; [apply still_refl|]|].
  set (candidate := fallback_name directory kind token i n).
  assert (Hne : candidate <> []).
  { unfold candidate, fallback_name. intros E. apply app_eq_nil in E as [_ E]. by apply app_eq_nil in E as [_ E]. }
  pose proof (try_candidate_quiet target candidate r Ha Hne) as Ht.
  destruct (try_candidate target candidate r) as [[[ok d]|] r1]; destruct Ht as [Hq Hx].
  - split; [done|]. intros ->. by apply Hx.
  - specialize (IH r1 (proj1 Hq)). destruct (fallback_loop target directory kind token n attempts r1) as [[ok d] r2].
    destruct IH as [Hq2 Hd]. split; [by eapply still_trans|]. intros Hok. specialize (Hd Hok).
    unfold fresh_sibling in *. by rewrite (proj1 (proj2 Hq)) in Hd.
Qed.

Lemma SelectSiblingPath_quiet target kind token capacity destination r : always M r ->
  let '(ok, d, r') := SelectSiblingPath target kind token capacity destination r in
  still r r' /\ (ok = true -> fresh_sibling target r d).
Proof.
  intros Ha. unfold SelectSiblingPath.
  set (preferred := if _ <? capacity then _ else _).
  assert (Hp : let '(x, r1) := preferred in still r r1 /\ forall d, x = Some (true, d) -> fresh_sibling target r d).
  { unfold preferred. destruct (_ <? _); [by apply preferred_loop_quiet | by split; [apply still_refl|]]. }
  destruct preferred as [[[ok d]|] r1]; destruct Hp as [Hq Hx].
  - split; [done|]. intros ->. by apply Hx.
  - destruct (_ <=? _); [by split|].
    match goal with |- context [fallback_loop ?a ?b ?c ?d ?e ?f r1] =>
      pose proof (fallback_loop_quiet a b c d e f r1 (proj1 Hq)) as Hf; destruct (fallback_loop a b c d e f r1) as [[ok d'] r2]
    end.
    destruct Hf as [Hq2 Hd]. split; [by eapply still_trans|]. intros Hok. specialize (Hd Hok).
    unfold fresh_sibling in *. by rewrite (proj1 (proj2 Hq)) in Hd.
Qed.
End moments.

(** ** The moments of an upload *)
Section session.
(** The volume when the upload begins, the target and what is promised. *)
Variables (base : tree) (target expected : bytes) (size : Z).
Notation kT := (key target).
Notation old := (base !! kT).

Definition promised (new : bytes) : Prop := len new = size /\ sha256_spec new = expected.

(** Nothing that was there is lost or changed, the target aside. *)
Definition others_kept (t : tree) : Prop :=
  forall k n, k <> kT -> base !! k = Some n -> t !! k = Some n.

(** The target is the old file, a file as promised, or absent while the old one
    is kept under another name. *)
Definition target_safe (t : tree) : Prop :=
  t !! kT = old \/ (exists new, t !! kT = Some (FileNode new) /\ promised new) \/
  (t !! kT = None /\ exists backup, t !! key backup = old).

Definition safe (t : tree) : Prop := others_kept t /\ target_safe t.
Definition untouched (t : tree) : Prop := others_kept t /\ t !! kT = old.

Lemma untouched_safe t : untouched t -> safe t.
Proof. intros [Ho Ht]. split; [done | by left]. Qed.

(** Keys that were not there may be added, changed and removed. *)
Lemma others_kept_new t k n : others_kept t -> base !! k = None -> others_kept (<[k := n]> t).
Proof.
  intros Ho Hk k' n' Hne Hb. rewrite lookup_insert_ne; [by apply Ho|]. intros <-. congruence.
Qed.

Lemma others_kept_gone t k : others_kept t -> base !! k = None -> others_kept (delete k t).
Proof.
  intros Ho Hk k' n' Hne Hb. rewrite lookup_delete_ne; [by apply Ho|]. intros <-. congruence.
Qed.

Lemma others_kept_target t n : others_kept t -> others_kept (<[kT := n]> t).
Proof. intros Ho k' n' Hne Hb. rewrite lookup_insert_ne by done. by apply Ho. Qed.

Lemma others_kept_no_target t : others_kept t -> others_kept (delete kT t).
Proof. intros Ho k' n' Hne Hb. rewrite lookup_delete_ne by done. by apply Ho. Qed.

(** A name that is free now was free at the beginning. *)
Lemma others_kept_free t k : others_kept t -> k <> kT -> t !! k = None -> base !! k = None.
Proof.
  intros Ho Hne Hk. destruct (base !! k) as [n|] eqn:E; [|done]. rewrite (Ho k n Hne E) in Hk. done.
Qed.

Lemma create_prefixes_untouched rest : forall seen r, always safe r -> untouched (now r) ->
  (length seen + length rest <= length target)%nat ->
  let '(ok, r') := create_prefixes seen rest r in always safe r' /\ untouched (now r').
Proof.
  induction rest as [|c rest IH]; intros seen r Ha Hu Hl; cbn [create_prefixes]; [done|]. cbn [length] in Hl.
  destruct (c =? SLASH); [|apply IH; rewrite ?length_app; cbn [length]; done || lia].
  assert (Hne : key seen <> kT) by (intros E; apply (f_equal length) in E; rewrite !key_length in E; lia).
  assert (Hnew : now r !! key seen = None -> untouched (<[key seen := DirectoryNode]> (now r))).
  { intros Hk. destruct Hu as [Ho Ht]. split; [|by rewrite lookup_insert_ne].
    apply others_kept_new; [done|]. by apply (others_kept_free (now r)). }
  pose proof (CreateDirectory_always safe seen r Ha (fun Hk => untouched_safe _ (Hnew Hk))) as Hc.
  destruct (CreateDirectory seen r) as [ok r1]. destruct Hc as (H1 & Hm & _).
  assert (Hu1 : untouched (now r1)) by (destruct Hm as [->|[Hk ->]]; auto).
  destruct ok; [|done]. apply IH; rewrite ?length_app; cbn [length]; done || lia.
Qed.

(** *** Giving up *)
(** What [Abort] needs to bring the old file back, or that there is nothing to
    bring back. *)
Definition recoverable (t : tree) (backup temporary : bytes) : Prop :=
  t !! kT = None ->
  (backup = [] /\ old = None) \/
  (backup <> [] /\ t !! key backup = old /\ key backup <> kT /\ base !! key backup = None /\
   key backup <> key temporary /\ old <> Some DirectoryNode).

(** The temporary file is the upload's own. *)
Definition own_temporary (temporary : bytes) : Prop :=
  temporary = [] \/ (base !! key temporary = None /\ key temporary <> kT).

Lemma delete_temporary t backup temporary : safe t -> recoverable t backup temporary ->
  base !! key temporary = None -> key temporary <> kT ->
  safe (delete (key temporary) t) /\ recoverable (delete (key temporary) t) backup temporary.
Proof.
  intros [Ho Ht] Hr Hb Hne. split; [split|].
  - by apply others_kept_gone.
  - unfold target_safe. rewrite lookup_delete_ne by done. destruct Ht as [Ht|[Ht|[Ht _]]]; [by left | by right; left|].
    destruct (Hr Ht) as [[_ Hold]|(_ & Hk & _ & _ & Hkt & _)]; [left; congruence|].
    right. right. split; [done|]. exists backup. by rewrite lookup_delete_ne.
  - intros Hk. rewrite lookup_delete_ne in Hk by done. destruct (Hr Hk) as [?|(H1 & H2 & H3 & H4 & H5 & H6)]; [by left|].
    right. split; [done|]. rewrite lookup_delete_ne by done. done.
Qed.

Lemma restore_safe t backup temporary n : others_kept t -> recoverable t backup temporary ->
  t !! kT = None -> backup <> [] -> t !! key backup = Some n ->
  safe (<[kT := n]> (delete (key backup) t)) /\ old = Some n.
Proof.
  intros Ho Hr Hk Hb Hn. destruct (Hr Hk) as [[? _]|(_ & Hk2 & Hne & Hbase & _)]; [done|].
  assert (Hold : old = Some n) by congruence. split; [|done]. split.
  - by apply others_kept_target, others_kept_gone.
  - left. by rewrite lookup_insert_eq.
Qed.

Lemma Abort_safe tx r : always safe r -> target_path_ tx = target -> own_temporary (temporary_path_ tx) ->
  recoverable (now r) (backup_path_ tx) (temporary_path_ tx) ->
  let '(tx', r') := Abort tx r in
  always safe r' /\ tx' = detached tx false false /\
  (now r' !! kT = now r !! kT \/ (now r !! kT = None /\ now r' !! kT = old)).
Proof.
  intros Ha Htp Htmp Hrec. unfold Abort.
  set (r1 := match write_file_ tx with Some h => (CloseWrite h r).2 | None => r end).
  assert (H1 : always safe r1 /\ now r1 = now r).
  { unfold r1. destruct (write_file_ tx) as [h|]; [|done].
    pose proof (CloseWrite_always safe h r Ha) as Hc. by destruct (CloseWrite h r) as [b r']. }
  destruct H1 as [Ha1 Hn1]. clearbody r1.
  set (r2 := if attached_ tx && negb (bool_decide (temporary_path_ tx = [])) then (RemoveFile (temporary_path_ tx) r1).2 else r1).
  assert (H2 : always safe r2 /\ recoverable (now r2) (backup_path_ tx) (temporary_path_ tx) /\ now r2 !! kT = now r !! kT).
  { unfold r2. destruct (attached_ tx); cbn [andb]; [|by rewrite Hn1]. case_bool_decide as Htd; cbn [negb]; [by rewrite Hn1|].
    destruct Htmp as [?|[Hb Hne]]; [done|].
    destruct (delete_temporary (now r1) (backup_path_ tx) (temporary_path_ tx) (proj2 Ha1) ltac:(by rewrite Hn1) Hb Hne) as [Hs Hr2].
    pose proof (RemoveFile_always safe (temporary_path_ tx) r1 Ha1 Hs) as Hd.
    destruct (RemoveFile (temporary_path_ tx) r1) as [b r']. destruct Hd as (Hd1 & Hd2 & _). split; [done|].
    cbn [snd]. destruct Hd2 as [->| ->]; [by rewrite Hn1|]. split; [done|]. by rewrite lookup_delete_ne, Hn1. }
  destruct H2 as (Ha2 & Hr2 & Hk2). clearbody r2.
  destruct (attached_ tx && negb (bool_decide (backup_path_ tx = []))) eqn:Eb;
    [|split; [done|]; split; [done|]; by left].
  apply andb_true_iff in Eb as [_ Eb]. apply negb_true_iff, bool_decide_eq_false in Eb.
  pose proof (Stat_always safe (target_path_ tx) r2 Ha2) as Hst. destruct (Stat (target_path_ tx) r2) as [[st|] r3];
    destruct Hst as (Ha3 & (Hn3 & _) & Hst); [|split; [done|]; split; [done|]; left; congruence].
  case_bool_decide as Hm; [|split; [done|]; split; [done|]; left; congruence].
  assert (Hmiss : now r3 !! kT = None).
  { destruct (Hst st eq_refl) as [Ht _]. rewrite Hm, Htp in Ht. rewrite Hn3. by destruct (now r2 !! kT) as [[]|]. }
  pose proof (Rename_fresh_always safe (backup_path_ tx) (target_path_ tx) r3 Ha3) as Hren. rewrite Htp in Hren |- *.
  rewrite <- Hn3 in Hr2.
  assert (Hres : forall n, now r3 !! key (backup_path_ tx) = Some n -> (false = false -> now r3 !! kT = None) ->
    safe (<[kT := n]> (delete (key (backup_path_ tx)) (now r3)))).
  { intros n Hn _. by apply (restore_safe (now r3) _ (temporary_path_ tx) n (proj1 (proj2 Ha3))). }
  assert (Hdir : now r3 !! key (backup_path_ tx) <> Some DirectoryNode).
  { destruct (Hr2 Hmiss) as [[? _]|(_ & -> & _ & _ & _ & Hd)]; done. }
  specialize (Hren Hdir Hres). destruct (Rename (backup_path_ tx) target false r3) as [b r4]. cbn [snd].
  destruct Hren as (Ha4 & Hmv & _). split; [done|]. split; [done|].
  destruct Hmv as [->|(n & Hn & _ & ->)]; [left; congruence|]. right. split; [congruence|]. rewrite lookup_insert_eq.
  symmetry. by apply (restore_safe (now r3) (backup_path_ tx) (temporary_path_ tx) n (proj1 (proj2 Ha3))).
Qed.

(** An attempt that fails while the target is untouched leaves it untouched. *)
Definition over tx : Prop := active_ tx = false /\ attached_ tx = false /\ write_file_ tx = None.
Definition given_up tx r : Prop := over tx /\ always safe r.

Lemma Fail_safe status tx r : always safe r -> target_path_ tx = target -> own_temporary (temporary_path_ tx) ->
  recoverable (now r) (backup_path_ tx) (temporary_path_ tx) ->
  let '(st, tx', r') := Fail status tx r in
  st = status /\ given_up tx' r' /\ (now r !! kT = old -> now r' !! kT = old).
Proof.
  intros Ha Htp Htmp Hrec. unfold Fail. pose proof (Abort_safe tx r Ha Htp Htmp Hrec) as Hab.
  destruct (Abort tx r) as [tx' r']. destruct Hab as (H1 & -> & H2). split; [done|]. split; [by split|].
  destruct H2 as [->|[_ ->]]; done.
Qed.

(** *** A live upload that has received [w] *)
Definition receiving tx r (w : bytes) : Prop :=
  if discard_ tx then
    temporary_path_ tx = [] /\ exists c, old = Some (FileNode c) /\ promised c
  else
    base !! key (temporary_path_ tx) = None /\ key (temporary_path_ tx) <> kT /\ temporary_path_ tx <> [] /\
    exists h, write_file_ tx = Some h /\ writing (volume r) h = Some (key (temporary_path_ tx)) /\
      now r !! key (temporary_path_ tx) = Some (FileNode w).

Record live tx r (w : bytes) : Prop := mkLive {
  live_always : always safe r;
  live_untouched : untouched (now r);
  live_target : target_path_ tx = target;
  live_active : active_ tx = true /\ finished_ tx = false /\ attached_ tx = true;
  live_backup : backup_path_ tx = [];
  live_promise : expected_size_ tx = size /\ expected_sha256_ tx = expected;
  live_received : received_ tx = len w /\ len w <= size;
  live_sha : sha_of (sha256_ tx) w;
  live_existed : if target_existed_ tx then exists c, old = Some (FileNode c) else old = None;
  live_receiving : receiving tx r w;
}.

Lemma Fail_status status tx r : (Fail status tx r).1.1 = status.
Proof. unfold Fail. by destruct (Abort tx r). Qed.

Lemma Fail_not_Ok status tx r x : status <> Ok -> Fail status tx r = (Ok, x.1, x.2) -> False.
Proof. intros Hs Hf. pose proof (Fail_status status tx r) as Hst. rewrite Hf in Hst. by apply Hs. Qed.

Ltac no_fail H := exfalso; eapply (Fail_not_Ok _ _ _ (_, _)); [|exact H]; discriminate.

Lemma untouched_now r r' : always safe r' -> now r' = now r -> untouched (now r) -> untouched (now r').
Proof. by intros _ ->. Qed.

Lemma begin_temporary_live tx r tx' r' : always safe r -> untouched (now r) ->
  target_path_ tx = target -> finished_ tx = false -> attached_ tx = true -> backup_path_ tx = [] ->
  expected_size_ tx = size -> expected_sha256_ tx = expected -> received_ tx = 0 -> 0 <= size ->
  sha_of (sha256_ tx) [] ->
  (if target_existed_ tx then exists c, old = Some (FileNode c) else old = None) ->
  begin_temporary tx r = (Ok, tx', r') -> live tx' r' [].
Proof.
  intros Ha Hu Htp Hfin Hat Hbk Hsz Hexp Hrec Hpos Hsha Hex Hb. unfold begin_temporary in Hb.
  pose proof (GetFreeSpace_always safe r Ha) as Hg. destruct (GetFreeSpace r) as [[free|] r1]; [|no_fail Hb].
  destruct Hg as [Ha1 (Hn1 & _)]. rewrite <- Hn1 in Hu. destruct (_ <? _); [no_fail Hb|].
  set (tx1 := with_begun tx (target_existed_ tx) false (active_ tx)) in *.
  assert (Hcp : let '(ok, r2) := CreateParents tx1 r1 in always safe r2 /\ untouched (now r2)).
  { unfold CreateParents. change (target_path_ tx1) with (target_path_ tx). rewrite Htp. unfold CopyPath.
    destruct (_ || _); [done|]. by apply create_prefixes_untouched. }
  destruct (CreateParents tx1 r1) as [ok r2]. destruct Hcp as [Ha2 Hu2]. destruct ok; cbn [negb] in Hb; [|no_fail Hb].
  change (target_path_ tx1) with (target_path_ tx) in Hb. rewrite Htp in Hb.
  match type of Hb with context [SelectSiblingPath ?a ?b ?c ?d ?e r2] =>
    pose proof (SelectSiblingPath_quiet safe a b c d e r2 Ha2) as Hs; destruct (SelectSiblingPath a b c d e r2) as [[ok tmp] r3]
  end.
  destruct Hs as [(Ha3 & Hn3 & _) Hfresh]. destruct ok; cbn [negb] in Hb; [|no_fail Hb].
  destruct (Hfresh eq_refl) as (Hne & HnT & Hnone).
  assert (Hbase : base !! key tmp = None) by (by apply (others_kept_free (now r2)); [apply Hu2|..]).
  change (temporary_path_ (with_temporary tx1 tmp (write_file_ tx1))) with tmp in Hb.
  assert (Hu4 : untouched (<[key tmp := FileNode []]> (now r3))).
  { rewrite Hn3. split; [by apply others_kept_new; [apply Hu2|]|]. rewrite lookup_insert_ne by done. apply Hu2. }
  pose proof (CreateFileFresh_always safe tmp r3 Ha3 (fun _ => untouched_safe _ Hu4)) as Hc.
  destruct (CreateFileFresh tmp r3) as [[ok h] r4]. destruct Hc as (Ha4 & _ & Hc).
  destruct ok; [|no_fail Hb]. destruct h as [h|]; [|no_fail Hb]. destruct (Hc h eq_refl eq_refl) as (Hw & _ & Hn4).
  injection Hb as <- <-. rewrite <- Hn4 in Hu4. constructor; try done.
  split; [done|]. split; [done|]. split; [done|]. exists h. split; [done|]. split; [done|].
  rewrite Hn4. by rewrite lookup_insert_eq.
Qed.

Lemma Begin_live tx r tx' r' token yield : always safe r -> now r = base ->
  write_file_ tx = None -> 0 <= size -> length expected = 32%nat -> Forall is_byte expected ->
  Begin tx target size expected token yield r = (Ok, tx', r') -> live tx' r' [].
Proof.
  intros Ha Hbase Hwf Hpos Hl32 Hbytes Hb. unfold Begin in Hb. destruct (active_ tx); [discriminate Hb|].
  destruct (_ || _) in Hb; [discriminate Hb|].
  set (tx0 := begin_state tx target size expected token yield) in *. change (target_path_ tx0) with target in Hb.
  assert (Hu : untouched (now r)) by (rewrite Hbase; split; [by intros k n|done]).
  pose proof (Stat_always safe target r Ha) as Hst. destruct (Stat target r) as [[st|] r1]; [|no_fail Hb].
  destruct Hst as (Ha1 & (Hn1 & _) & Hst). destruct (Hst st eq_refl) as [Hty _]. rewrite Hbase in Hty.
  rewrite <- Hn1 in Hu. destruct (_ || _) eqn:Ebad in Hb; [no_fail Hb|].
  apply orb_false_iff in Ebad as [Hd1 Hd2]. apply bool_decide_eq_false in Hd1, Hd2.
  set (existed := bool_decide (node_type st = RegularFile)) in *.
  assert (Hex : if existed then exists c, old = Some (FileNode c) else old = None).
  { unfold existed. case_bool_decide as Hr; rewrite Hty in *; destruct old as [[c| |]|]; try done. by exists c. }
  set (tx1 := with_begun tx0 existed (discard_ tx0) (active_ tx0)) in *.
  clearbody existed. destruct existed.
  2: { by refine (begin_temporary_live tx1 r1 tx' r' Ha1 Hu _ _ _ _ _ _ _ Hpos sha_of_Reset Hex Hb). }
  change (target_path_ tx1) with target in Hb.
  pose proof (Probe_quiet safe target yield r1 Ha1) as Hp.
  destruct (ProbeDeveloperFile target yield r1) as [[pst info] r2]. destruct Hp as [(Ha2 & Hn2 & _) Hp].
  destruct pst; try (no_fail Hb). destruct info as [info|]; [|no_fail Hb].
  destruct (Hp info eq_refl eq_refl) as (c & Hc & Hisz & Hish). rewrite Hn1, Hbase in Hc.
  destruct (_ && _) eqn:Eq in Hb.
  - injection Hb as <- <-. apply andb_true_iff in Eq as [E1 E2]. apply Z.eqb_eq in E1.
    change (expected_size_ tx1) with size in E1. change (expected_sha256_ tx1) with expected in E2.
    rewrite Hish in E2. apply digests_equal in E2; [|done..].
    constructor; try done; [by rewrite Hn2 | apply sha_of_Reset |].
    split; [done|]. exists c. split; [done|]. split; [congruence | done].
  - rewrite <- Hn2 in Hu.
    by refine (begin_temporary_live tx1 r2 tx' r' Ha2 Hu _ _ _ _ _ _ _ Hpos sha_of_Reset Hex Hb).
Qed.

(** *** [Write] and [Abort] *)
Lemma live_own_temporary tx r w : live tx r w -> own_temporary (temporary_path_ tx).
Proof.
  intros Hl. pose proof (live_receiving _ _ _ Hl) as Hr. unfold receiving in Hr.
  destruct (discard_ tx); [left | right]; by destruct_and? Hr.
Qed.

(** What an attempt leaves that fails with the old target in place. *)
Definition failed_cleanly (st : DeveloperFileStatus) tx r : Prop :=
  st <> Ok /\ given_up tx r /\ now r !! kT = old.


Lemma Fail_old status tx r : status <> Ok -> always safe r -> target_path_ tx = target ->
  own_temporary (temporary_path_ tx) -> backup_path_ tx = [] -> now r !! kT = old ->
  let '(st, tx', r') := Fail status tx r in st = status /\ failed_cleanly st tx' r'.
Proof.
  intros Hst Ha Htp Ho Hb Hk. assert (Hr : recoverable (now r) (backup_path_ tx) (temporary_path_ tx)).
  { intros Hn. left. split; [done|]. congruence. }
  pose proof (Fail_safe status tx r Ha Htp Ho Hr) as Hf.
  destruct (Fail status tx r) as [[st tx'] r']. destruct Hf as (-> & Hg & Hk'). split; [done|].
  split; [done|]. split; [done|]. by apply Hk'.
Qed.

Lemma Fail_live status tx tx0 r w : status <> Ok -> live tx0 r w ->
  target_path_ tx = target_path_ tx0 -> temporary_path_ tx = temporary_path_ tx0 ->
  backup_path_ tx = backup_path_ tx0 ->
  let '(st, tx', r') := Fail status tx r in st = status /\ failed_cleanly st tx' r'.
Proof.
  intros Hst Hl E1 E2 E3. apply Fail_old; [done | apply Hl | | | |]; [by rewrite E1; apply Hl | | by rewrite E3; apply Hl |].
  - rewrite E2. by apply (live_own_temporary tx0 r w).
  - apply Hl.
Qed.

Lemma Abort_live tx r w : live tx r w ->
  let '(tx', r') := Abort tx r in given_up tx' r' /\ now r' !! kT = old.
Proof.
  intros Hl. pose proof (Fail_live IoError tx tx r w ltac:(done) Hl eq_refl eq_refl eq_refl) as Hf. unfold Fail in Hf.
  destruct (Abort tx r) as [tx' r']. destruct Hf as (_ & _ & Hf). done.
Qed.

Hypothesis size_range : 0 <= size <= UINT64_MAX.

(** The bytes that reach the temporary file. *)
Lemma Write_temporary tx r w d : live tx r w -> discard_ tx = false ->
  exists h, write_file_ tx = Some h /\
  let '(b, r') := WriteFile h d r in always safe r' /\ untouched (now r') /\ (b = true -> receiving tx r' (w ++ d)).
Proof.
  intros Hl Hd. pose proof (live_receiving _ _ _ Hl) as Hr. unfold receiving in *. rewrite Hd in *.
  destruct Hr as (Hb & HnT & Hne & h & Hw & Hwr & Hn). exists h. split; [done|].
  assert (Hu : forall n, untouched (<[key (temporary_path_ tx) := n]> (now r))).
  { intros n. split; [apply others_kept_new; [apply Hl|done]|]. rewrite lookup_insert_ne by done. apply Hl. }
  pose proof (WriteFile_always safe h d _ w r (live_always _ _ _ Hl) Hwr Hn (fun c' => untouched_safe _ (Hu _))) as Hwf.
  destruct (WriteFile h d r) as [b r']. destruct Hwf as (Ha' & Hwr' & c' & Hn' & Hc'). split; [done|]. rewrite Hn'.
  split; [done|]. intros Hbt. split; [done|]. split; [done|]. split; [done|]. exists h. split; [done|].
  rewrite Hwr'. split; [done|]. rewrite lookup_insert_eq, (Hc' Hbt). done.
Qed.

Lemma Write_live tx r w d : live tx r w ->
  let '(st, tx', r') := Write tx d r in
  (st = Ok /\ live tx' r' (w ++ d) /\ changed_ tx' = changed_ tx) \/ failed_cleanly st tx' r'.
Proof.
  intros Hl. assert (Hfl : forall st tx1, st <> Ok -> target_path_ tx1 = target_path_ tx ->
      temporary_path_ tx1 = temporary_path_ tx -> backup_path_ tx1 = backup_path_ tx ->
      let '(st', tx', r') := Fail st tx1 r in
      (st' = Ok /\ live tx' r' (w ++ d) /\ changed_ tx' = changed_ tx) \/ failed_cleanly st' tx' r').
  { intros st tx1 Hst E1 E2 E3. pose proof (Fail_live st tx1 tx r w Hst Hl E1 E2 E3) as Hf.
    destruct (Fail st tx1 r) as [[st' tx'] r']. right. apply Hf. }
  unfold Write. destruct (live_active _ _ _ Hl) as (Hact & Hfin & Hatt). rewrite Hact, Hfin. cbn [negb orb].
  destruct (live_promise _ _ _ Hl) as [Hsz Hex]. destruct (live_received _ _ _ Hl) as [Hrec Hle].
  pose proof (len_nonneg w) as Hw0. pose proof (len_nonneg d) as Hd0.
  assert (Hu64 : u64 (expected_size_ tx - received_ tx) = size - len w).
  { rewrite Hsz, Hrec. apply u64_small. unfold UINT64_MAX in *. lia. }
  rewrite Hu64. destruct (Z.ltb_spec (size - len w) (len d)) as [Hgt|Hok]; [by apply Hfl|].
  destruct (Update (sha256_ tx) d) as [ok sha] eqn:Eu. destruct ok; cbn [negb]; [|by apply Hfl].
  assert (Hsha : sha_of sha (w ++ d)) by (apply (Update_sha (sha256_ tx)); [apply Hl | done]).
  assert (Hrec' : u64 (received_ tx + len d) = len (w ++ d)).
  { rewrite Hrec, len_app. apply u64_small. unfold UINT64_MAX in *. lia. }
  change (discard_ (with_sha256 tx sha (actual_sha256_ tx) (received_ tx))) with (discard_ tx).
  change (write_file_ (with_sha256 tx sha (actual_sha256_ tx) (received_ tx))) with (write_file_ tx).
  assert (Hnext : forall r', always safe r' -> untouched (now r') -> receiving tx r' (w ++ d) ->
    live (with_sha256 tx sha (actual_sha256_ tx) (u64 (received_ tx + len d))) r' (w ++ d)).
  { intros r' Ha' Hu' Hr'. rewrite Hrec'. constructor; try done; try apply Hl. split; [done|]. rewrite len_app. lia. }
  destruct (discard_ tx) eqn:Ed; cbn [negb].
  - left. split; [done|]. split; [|done]. apply Hnext; [apply Hl | apply Hl |].
    pose proof (live_receiving _ _ _ Hl) as Hr. unfold receiving in *. by rewrite Ed in *.
  - destruct (Write_temporary tx r w d Hl Ed) as (h & -> & Hwf). destruct (WriteFile h d r) as [b r'].
    destruct Hwf as (Ha' & Hu' & Hr'). destruct b; cbn [negb].
    + left. split; [done|]. split; [|done]. apply Hnext; auto.
    + match goal with |- context [Fail IoError ?t r'] =>
        pose proof (Fail_old IoError t r' ltac:(done) Ha' (live_target _ _ _ Hl) (live_own_temporary _ _ _ Hl)
          (live_backup _ _ _ Hl) (proj2 Hu')) as Hf; destruct (Fail IoError t r') as [[st tx'] r'']
      end. right. apply Hf.
Qed.

(** *** [Finish] *)
(** The old file waits under the name [b]; a name that the upload may use. *)
Definition backup_name (b : bytes) : Prop := b <> [] /\ key b <> kT /\ base !! key b = None.
Definition aside t (b : bytes) : Prop :=
  others_kept t /\ backup_name b /\ t !! key b = old /\ old <> Some DirectoryNode.
(** The new file is in place. *)
Definition in_place t (w : bytes) : Prop := others_kept t /\ t !! kT = Some (FileNode w).

Lemma aside_safe t b : aside t b -> t !! kT = None -> safe t.
Proof. intros (Ho & _ & Hb & _) Hk. split; [done|]. right. right. split; [done|]. by exists b. Qed.

Lemma in_place_safe t w : promised w -> in_place t w -> safe t.
Proof. intros Hp [Ho Hk]. split; [done|]. right. left. by exists w. Qed.

Lemma aside_recoverable t b tmp : aside t b -> key b <> key tmp -> recoverable t b tmp.
Proof. intros (_ & (H1 & H2 & H3) & H4 & H5) Hne _. by right. Qed.

Lemma present_recoverable t n b tmp : t !! kT = Some n -> recoverable t b tmp.
Proof. intros Hk Hn. congruence. Qed.

Lemma aside_file t b : aside t b -> t !! key b <> Some DirectoryNode.
Proof. intros (_ & _ & Hb & Hd). by rewrite Hb. Qed.

(** [Rename] out of the backup brings the old file back. *)
Lemma restore_aside t b n : aside t b -> t !! key b = Some n ->
  untouched (<[kT := n]> (delete (key b) t)).
Proof.
  intros (Ho & (_ & _ & Hb) & Hk & _) Hn. split; [by apply others_kept_target, others_kept_gone|].
  rewrite lookup_insert_eq. congruence.
Qed.

Definition install_post tx (w : bytes) (x : bool * bool * DeveloperFileTransaction * V) : Prop :=
  let '(installed, bi, tx', r') := x in
  always safe r' /\ (exists b, tx' = with_backup tx b) /\
  if installed then in_place (now r') w /\
    if bi : bool then aside (now r') (backup_path_ tx') else backup_path_ tx' = [] /\ old = None
  else recoverable (now r') (backup_path_ tx') (temporary_path_ tx).

(** Moving the temporary file to the target. *)
Lemma Rename_temporary r tmp w : always safe r -> promised w -> others_kept (now r) -> base !! key tmp = None ->
  key tmp <> kT -> now r !! key tmp = Some (FileNode w) ->
  let '(b, r') := Rename tmp target false r in
  always safe r' /\
  (now r' = now r \/ (now r !! kT = None /\ now r' = <[kT := FileNode w]> (delete (key tmp) (now r)))) /\
  (b = true -> in_place (now r') w).
Proof.
  intros Ha Hp Ho Hb Hne Hn.
  assert (Hin : in_place (<[kT := FileNode w]> (delete (key tmp) (now r))) w).
  { split; [by apply others_kept_target, others_kept_gone | by rewrite lookup_insert_eq]. }
  assert (Hs : forall n, now r !! key tmp = Some n -> (false = false -> now r !! kT = None) ->
      safe (<[kT := n]> (delete (key tmp) (now r)))).
  { intros n Hn' _. rewrite Hn in Hn'. injection Hn' as <-. by apply (in_place_safe _ w). }
  pose proof (Rename_fresh_always safe tmp target r Ha ltac:(congruence) Hs) as Hr. destruct (Rename tmp target false r) as [b r'].
  destruct Hr as (Ha' & Hm & Hb'). split; [done|]. split.
  - destruct Hm as [->|(n & Hn' & Hf & ->)]; [by left|]. right. split; [by apply Hf | congruence].
  - intros Hbt. destruct (Hb' Hbt) as (n & Hn' & _ & ->). rewrite Hn in Hn'. by injection Hn' as <-.
Qed.

(** Moving the target aside. *)
Lemma Rename_aside r b c : always safe r -> untouched (now r) -> old = Some (FileNode c) -> backup_name b ->
  now r !! key b = None ->
  let '(moved, r') := Rename target b false r in
  always safe r' /\ (now r' = now r \/ now r' = <[key b := FileNode c]> (delete kT (now r))) /\
  (moved = true -> now r' = <[key b := FileNode c]> (delete kT (now r))).
Proof.
  intros Ha [Ho Hk] Hold (Hb & Hne & Hbase) Hfree. rewrite Hold in Hk.
  assert (Hs : forall n, now r !! kT = Some n -> (false = false -> now r !! key b = None) ->
      safe (<[key b := n]> (delete kT (now r)))).
  { intros n Hn _. apply (aside_safe _ b); [|by rewrite lookup_insert_ne, lookup_delete_eq].
    split; [by apply others_kept_new; [apply others_kept_no_target|]|]. split; [done|]. rewrite lookup_insert_eq. split; congruence. }
  pose proof (Rename_fresh_always safe target b r Ha ltac:(congruence) Hs) as Hr. destruct (Rename target b false r) as [moved r'].
  destruct Hr as (Ha' & Hm & Hb'). split; [done|]. split.
  - destruct Hm as [->|(n & Hn & _ & ->)]; [by left|]. right. congruence.
  - intros Hbt. destruct (Hb' Hbt) as (n & Hn & _ & ->). congruence.
Qed.

(** Bringing it back. *)
Lemma Rename_back r b : always safe r -> aside (now r) b ->
  let '(restored, r') := Rename b target false r in
  always safe r' /\ (now r' = now r \/ exists n, now r' !! kT = Some n) /\
  (restored = true -> exists n, now r' !! kT = Some n).
Proof.
  intros Ha Has.
  assert (Hs : forall n, now r !! key b = Some n -> (false = false -> now r !! kT = None) ->
      safe (<[kT := n]> (delete (key b) (now r)))).
  { intros n Hn _. by apply untouched_safe, restore_aside. }
  pose proof (Rename_fresh_always safe b target r Ha (aside_file _ b Has) Hs) as Hr. destruct (Rename b target false r) as [restored r'].
  destruct Hr as (Ha' & Hm & Hb'). split; [done|]. split.
  - destruct Hm as [->|(n & Hn & _ & ->)]; [by left|]. right. exists n. by rewrite lookup_insert_eq.
  - intros Hbt. destruct (Hb' Hbt) as (n & Hn & Hf & ->). exists n. by rewrite lookup_insert_eq.
Qed.

(** The two renames when the target existed and the backup name [b] is free. *)
Lemma install_renames r tmp w b c : always safe r -> promised w -> untouched (now r) -> old = Some (FileNode c) ->
  base !! key tmp = None -> key tmp <> kT -> now r !! key tmp = Some (FileNode w) ->
  backup_name b -> now r !! key b = None ->
  let '(moved, r1) := Rename target b false r in
  always safe r1 /\ recoverable (now r1) b tmp /\
  (moved = true ->
   let '(installed, r2) := Rename tmp target false r1 in
   always safe r2 /\ aside (now r2) b /\ key b <> key tmp /\ (installed = true -> in_place (now r2) w)).
Proof.
  intros Ha Hp Hu Hold Hb Hne Hn Hbn Hfree. destruct (Hbn) as (Hb1 & Hb2 & Hb3).
  assert (Hbt : key b <> key tmp) by (intros E; rewrite E in Hfree; congruence).
  pose proof (Rename_aside r b c Ha Hu Hold Hbn Hfree) as H1. destruct (Rename target b false r) as [moved r1].
  destruct H1 as (Ha1 & Hm1 & Hmv).
  assert (Has : aside (<[key b := FileNode c]> (delete kT (now r))) b).
  { split; [apply others_kept_new; [apply others_kept_no_target, Hu | done]|]. split; [done|].
    rewrite lookup_insert_eq. split; congruence. }
  split; [done|]. split.
  - destruct Hm1 as [->| ->]; [|by apply aside_recoverable]. apply (present_recoverable _ (FileNode c)).
    rewrite <- Hold. apply Hu.
  - intros ->. specialize (Hmv eq_refl). rewrite <- Hmv in Has.
    assert (Hn1 : now r1 !! key tmp = Some (FileNode w)) by (rewrite Hmv, lookup_insert_ne, lookup_delete_ne by done; done).
    pose proof (Rename_temporary r1 tmp w Ha1 Hp (proj1 Has) Hb Hne Hn1) as H2.
    destruct (Rename tmp target false r1) as [installed r2]. destruct H2 as (Ha2 & Hm2 & Hin). split; [done|].
    split; [|by split]. destruct Hm2 as [->|[_ ->]]; [done|]. destruct Has as (Ho & _ & Hk & Hd).
    split; [by apply others_kept_target, others_kept_gone|]. split; [done|]. split; [|done].
    rewrite lookup_insert_ne, lookup_delete_ne by done. done.
Qed.

Lemma install_live tx r w : always safe r -> promised w -> untouched (now r) -> target_path_ tx = target ->
  backup_path_ tx = [] -> (if target_existed_ tx then exists c, old = Some (FileNode c) else old = None) ->
  base !! key (temporary_path_ tx) = None -> key (temporary_path_ tx) <> kT ->
  now r !! key (temporary_path_ tx) = Some (FileNode w) ->
  install_post tx w (install tx r).
Proof.
  intros Ha Hp Hu Htp Hbk Hex Hb Hne Hn. unfold install, install_post. rewrite Htp, Hbk.
  assert (Htx : exists b, tx = with_backup tx b) by (exists []; destruct tx; cbn in *; by subst).
  destruct (target_existed_ tx); cbn [negb].
  2: { pose proof (Rename_temporary r (temporary_path_ tx) w Ha Hp (proj1 Hu) Hb Hne Hn) as Hr.
       destruct (Rename (temporary_path_ tx) target false r) as [installed r']. destruct Hr as (Ha' & Hm & Hin).
       split; [done|]. split; [done|]. destruct installed; [by split; [apply Hin|]|]. rewrite Hbk.
       intros Hnone. by left. }
  destruct Hex as [c Hold]. assert (Hpres : now r !! kT = Some (FileNode c)) by (rewrite <- Hold; apply Hu).
  match goal with |- context [SelectSiblingPath ?a ?k ?t ?n ?d r] =>
    pose proof (SelectSiblingPath_quiet safe a k t n d r Ha) as Hs; destruct (SelectSiblingPath a k t n d r) as [[ok b] r1]
  end.
  destruct Hs as [(Ha1 & Hn1 & _) Hfresh]. destruct ok; cbn [negb].
  2: { split; [done|]. split; [by exists b|]. rewrite Hn1. by apply (present_recoverable _ (FileNode c)). }
  destruct (Hfresh eq_refl) as (Hb1 & Hb2 & Hfree).
  assert (Hbn : backup_name b) by (split; [done|]; split; [done|]; apply (others_kept_free (now r)); [apply Hu|done..]).
  rewrite <- Hn1 in Hu, Hn, Hfree. change (backup_path_ (with_backup tx b)) with b. change (target_path_ (with_backup tx b)) with (target_path_ tx).
  change (temporary_path_ (with_backup tx b)) with (temporary_path_ tx). rewrite Htp.
  pose proof (install_renames r1 (temporary_path_ tx) w b c Ha1 Hp Hu Hold Hb Hne Hn Hbn Hfree) as Hr.
  destruct (Rename target b false r1) as [moved r2]. destruct Hr as (Ha2 & Hr2 & Hmv).
  destruct moved; cbn [negb]; [|by split; [done|]; split; [by exists b|]]. specialize (Hmv eq_refl).
  destruct (Rename (temporary_path_ tx) target false r2) as [installed r3]. destruct Hmv as (Ha3 & Has & Hbt & Hin).
  destruct installed; [split; [done|]; split; [by exists b|]; split; [by apply Hin | done]|].
  pose proof (Rename_back r3 b Ha3 Has) as Hk. destruct (Rename b target false r3) as [restored r4].
  destruct Hk as (Ha4 & Hm4 & Hres). destruct restored.
  - split; [done|]. split; [by exists []|]. destruct (Hres eq_refl) as [n Hk]. by apply (present_recoverable _ n).
  - split; [done|]. split; [by exists b|]. cbn. destruct Hm4 as [->|[n Hk]]; [by apply aside_recoverable|].
    by apply (present_recoverable _ n).
Qed.

(** How [Finish] ends once there is a new file. *)
Definition finish_post (w : bytes) (x : DeveloperFileStatus * DeveloperFileTransaction * V) : Prop :=
  let '(st, tx', r') := x in
  given_up tx' r' /\ (st = Ok -> changed_ tx' = true /\ in_place (now r') w).

Lemma Fail_finish tx r w : always safe r -> target_path_ tx = target -> own_temporary (temporary_path_ tx) ->
  recoverable (now r) (backup_path_ tx) (temporary_path_ tx) -> forall st, st <> Ok -> finish_post w (Fail st tx r).
Proof.
  intros Ha Htp Ho Hr st Hst. pose proof (Fail_safe st tx r Ha Htp Ho Hr) as Hf. unfold finish_post.
  destruct (Fail st tx r) as [[st' tx'] r']. by destruct Hf as (-> & Hg & _).
Qed.

Lemma RemoveFile_target r w b : always safe r -> in_place (now r) w -> aside (now r) b ->
  let '(removed, r') := RemoveFile target r in always safe r' /\ aside (now r') b.
Proof.
  intros Ha [Ho Hk] Has.
  assert (Has' : aside (delete kT (now r)) b).
  { destruct Has as (_ & Hbn & Hb & Hd). split; [by apply others_kept_no_target|]. split; [done|]. split; [|done].
    rewrite lookup_delete_ne; [done|]. intros E. by apply (proj1 (proj2 Hbn)). }
  pose proof (RemoveFile_always safe target r Ha (aside_safe _ b Has' (lookup_delete_eq _ _))) as Hr.
  destruct (RemoveFile target r) as [removed r']. destruct Hr as (Ha' & Hm & _). split; [done|].
  destruct Hm as [->| ->]; done.
Qed.

Lemma commit_live tx r w bi : always safe r -> promised w -> target_path_ tx = target -> temporary_path_ tx = [] ->
  write_file_ tx = None -> in_place (now r) w ->
  (if bi : bool then aside (now r) (backup_path_ tx) else backup_path_ tx = [] /\ old = None) ->
  finish_post w (commit tx bi r).
Proof.
  intros Ha Hp Htp Htmp Hwf Hin Hbi. unfold commit. rewrite Htp.
  assert (Hown : own_temporary (temporary_path_ tx)) by by left.
  pose proof (SyncContainingDirectory_always safe target r Ha) as Hs. destruct (SyncContainingDirectory target r) as [synced r1].
  destruct Hs as [Ha1 (Hn1 & _)]. rewrite <- Hn1 in Hin, Hbi.
  assert (Hkey : backup_path_ tx <> [] -> key (backup_path_ tx) <> key (temporary_path_ tx)).
  { rewrite Htmp. intros Hne Hk. by destruct (backup_path_ tx). }
  destruct synced; cbn [negb].
  - destruct bi; [|by split].
    assert (Hin' : in_place (delete (key (backup_path_ tx)) (now r1)) w).
    { destruct Hin as [Ho Hk]. destruct Hbi as (_ & (_ & Hne & Hb) & _).
      split; [by apply others_kept_gone | by rewrite lookup_delete_ne]. }
    pose proof (RemoveFile_always safe (backup_path_ tx) r1 Ha1 (in_place_safe _ w Hp Hin')) as Hr.
    destruct (RemoveFile (backup_path_ tx) r1) as [b r2]. destruct Hr as (Ha2 & Hm & _). cbn [snd].
    split; [by split|]. intros _. split; [done|]. by destruct Hm as [->| ->].
  - destruct bi.
    + pose proof (RemoveFile_target r1 w (backup_path_ tx) Ha1 Hin Hbi) as Hr. destruct (RemoveFile target r1) as [removed r2].
      destruct Hr as (Ha2 & Has2). pose proof (aside_recoverable _ _ (temporary_path_ tx) Has2 (Hkey (proj1 (proj1 (proj2 Has2))))) as Hr2.
      destruct removed; [|by apply Fail_finish]. pose proof (Rename_back r2 (backup_path_ tx) Ha2 Has2) as Hk.
      destruct (Rename (backup_path_ tx) target false r2) as [restored r3]. destruct Hk as (Ha3 & Hm3 & Hres).
      destruct restored; apply Fail_finish; try done.
      * destruct (Hres eq_refl) as [n Hk]. by apply (present_recoverable _ n).
      * destruct Hm3 as [->|[n Hk]]; [done|]. by apply (present_recoverable _ n).
    + destruct Hbi as [Hbk Hold].
      assert (Hsafe : safe (delete kT (now r1))).
      { split; [apply others_kept_no_target, Hin|]. left. by rewrite lookup_delete_eq. }
      pose proof (RemoveFile_always safe target r1 Ha1 Hsafe) as Hr. destruct (RemoveFile target r1) as [removed r2].
      destruct Hr as (Ha2 & _). apply Fail_finish; try done. intros Hnone. by left.
Qed.

Lemma digest_checks tx w digest : sha_of (sha256_ tx) w -> expected_sha256_ tx = expected ->
  length expected = 32%nat -> Forall is_byte expected -> (Final (sha256_ tx)).1 = Some digest ->
  ConstantTimeDigestEqual digest expected = true -> sha256_spec w = expected.
Proof.
  intros Hs _ Hl Hb Hd Hc. apply (Final_sha _ w) in Hd; [|done]. rewrite Hd in Hc. by apply digests_equal.
Qed.

(** What [Finish] leaves: on success the content [w] is as promised, and the target
    holds it, or held a file as promised before. *)
Definition finish_result (w : bytes) (x : DeveloperFileStatus * DeveloperFileTransaction * V) : Prop :=
  let '(st, tx', r') := x in
  given_up tx' r' /\
  (st = Ok -> promised w /\
     if changed_ tx' then in_place (now r') w else exists c, now r' !! kT = Some (FileNode c) /\ promised c).

Lemma Finish_live tx r w : length expected = 32%nat -> Forall is_byte expected -> live tx r w ->
  finish_result w (Finish tx r).
Proof.
  intros Hl32 Hby Hl. unfold Finish. destruct (live_active _ _ _ Hl) as (Hact & Hfin & Hatt). rewrite Hact, Hfin. cbn [negb orb].
  destruct (live_promise _ _ _ Hl) as [Hsz Hex]. destruct (live_received _ _ _ Hl) as [Hrec Hle].
  assert (Hfl : forall st tx1 r1, st <> Ok -> always safe r1 -> now r1 !! kT = old -> target_path_ tx1 = target_path_ tx ->
      temporary_path_ tx1 = temporary_path_ tx -> backup_path_ tx1 = [] ->
      finish_result w (Fail st tx1 r1)).
  { unfold finish_result. intros st tx1 r1 Hst Ha1 Hk1 E1 E2 E3.
    pose proof (Fail_old st tx1 r1 Hst Ha1 (eq_trans E1 (live_target _ _ _ Hl))
      ltac:(rewrite E2; exact (live_own_temporary _ _ _ Hl)) E3 Hk1) as Hf.
    destruct (Fail st tx1 r1) as [[st' tx'] r']. by destruct Hf as (-> & _ & Hg & _). }
  pose proof (live_backup _ _ _ Hl) as Hbk. pose proof (live_always _ _ _ Hl) as Ha.
  pose proof (live_untouched _ _ _ Hl) as Hu.
  destruct (Z.eqb_spec (received_ tx) (expected_size_ tx)) as [Hall|Hall]; cbn [negb]; [|apply Hfl; first [done | apply Hu]].
  destruct (Final (sha256_ tx)) as [[digest|] sha] eqn:Ef; [|apply Hfl; first [done | apply Hu]].
  cbn [actual_sha256_ with_sha256 expected_sha256_ discard_ write_file_]. rewrite Hex.
  destruct (ConstantTimeDigestEqual digest expected) eqn:Ec; cbn [negb]; [|apply Hfl; first [done | apply Hu]].
  assert (Hp : promised w).
  { split; [lia|]. apply (digest_checks tx w digest); try done; [apply Hl|]. by rewrite Ef. }
  pose proof (live_receiving _ _ _ Hl) as Hr. unfold receiving in Hr. destruct (discard_ tx).
  { split; [by split|]. intros _. split; [done|]. cbn. destruct Hr as [_ (c & Hc & Hpc)].
    exists c. split; [|done]. rewrite <- Hc. apply Hu. }
  destruct Hr as (Hb & HnT & Hne & h & -> & Hwr & Hn).
  pose proof (SyncFile_always safe h r Ha) as Hs. destruct (SyncFile h r) as [synced r1]. destruct Hs as [Ha1 (Hn1 & _)].
  destruct synced; cbn [negb]; [|apply Hfl; try done; rewrite Hn1; apply Hu].
  pose proof (CloseWrite_always safe h r1 Ha1) as Hc. destruct (CloseWrite h r1) as [closed r2]. destruct Hc as [Ha2 Hn2].
  assert (Hn20 : now r2 = now r) by congruence.
  destruct closed; cbn [negb]; [|apply Hfl; try done; rewrite Hn20; apply Hu].
  set (tx2 := with_temporary _ _ None). rewrite <- Hn20 in Hu, Hn.
  pose proof (install_live tx2 r2 w Ha2 Hp Hu (live_target _ _ _ Hl) Hbk (live_existed _ _ _ Hl) Hb HnT Hn) as Hi.
  destruct (install tx2 r2) as [[[installed bi] tx3] r3]. destruct Hi as (Ha3 & (b & ->) & Hi).
  assert (Hpost : forall x, finish_post w x -> finish_result w x).
  { intros [[st tx'] r'] [Hg Hst]. split; [done|]. intros Est. split; [done|]. destruct (Hst Est) as [-> Hin]. done. }
  apply Hpost. destruct installed; cbn [negb].
  - destruct Hi as [Hin Hbi]. by apply commit_live; [.. | apply (live_target _ _ _ Hl) | | | |].
  - apply Fail_finish; try done; [apply (live_target _ _ _ Hl) | right; by split].
Qed.

(** *** Every sequence of operations *)
Lemma over_step op tx r : over tx -> (op = OpAbort \/ (upload_step op tx r).1.1 = InvalidArgument) /\
  over (upload_step op tx r).1.2 /\ (upload_step op tx r).2 = r.
Proof.
  intros (H1 & H2 & H3). destruct op; cbn [upload_step].
  - unfold Write. rewrite H1. cbn. by split; [right|].
  - unfold Finish. rewrite H1. cbn. by split; [right|].
  - unfold Abort. rewrite H3, H2. cbn. by split; [left|].
Qed.

(** A live upload, or one that is over. *)
Definition underway tx r : Prop := (exists w, live tx r w) \/ given_up tx r.

Lemma underway_always tx r : underway tx r -> always safe r.
Proof. intros [[w Hl]|[_ Ha]]; [apply Hl | done]. Qed.

Lemma underway_step op tx r : length expected = 32%nat -> Forall is_byte expected -> underway tx r ->
  underway (upload_step op tx r).1.2 (upload_step op tx r).2.
Proof.
  intros Hl32 Hby [[w Hl]|[Hov Ha]].
  - destruct op as [d| |]; cbn [upload_step].
    + pose proof (Write_live tx r w d Hl) as Hw. destruct (Write tx d r) as [[st tx'] r'].
      destruct Hw as [(_ & Hl' & _)|(_ & Hg & _)]; [left; by eexists | by right].
    + pose proof (Finish_live tx r w Hl32 Hby Hl) as Hf. destruct (Finish tx r) as [[st tx'] r']. right. apply Hf.
    + pose proof (Abort_live tx r w Hl) as Hab. destruct (Abort tx r) as [tx' r']. right. apply Hab.
  - destruct (over_step op tx r Hov) as (_ & Ho & Hr). right. split; [done|]. by rewrite Hr.
Qed.

Lemma underway_run ops : forall tx r, length expected = 32%nat -> Forall is_byte expected -> underway tx r ->
  underway (run_upload ops tx r).1.2 (run_upload ops tx r).2.
Proof.
  induction ops as [|op ops IH]; intros tx r Hl Hb Hu; [done|]. cbn [run_upload].
  pose proof (underway_step op tx r Hl Hb Hu) as Hs. destruct (upload_step op tx r) as [[st tx1] r1].
  specialize (IH tx1 r1 Hl Hb Hs). by destruct (run_upload ops tx1 r1) as [[sts tx'] r'].
Qed.


Lemma over_run ops : forall tx r, over tx -> over (run_upload ops tx r).1.2.
Proof.
  induction ops as [|op ops IH]; intros tx r Ho; [done|]. cbn [run_upload].
  destruct (over_step op tx r Ho) as (_ & Ho' & _). destruct (upload_step op tx r) as [[st tx1] r1].
  specialize (IH tx1 r1 Ho'). by destruct (run_upload ops tx1 r1) as [[sts tx'] r'].
Qed.

(** After any writes the upload is live with all their bytes, or over. *)
Lemma writes_live ds : forall tx r w, live tx r w ->
  let '(sts, tx', r') := run_upload (OpWrite <$> ds) tx r in live tx' r' (w ++ concat ds) \/ over tx'.
Proof.
  induction ds as [|d ds IH]; intros tx r w Hl; cbn [fmap list_fmap run_upload concat]; [left; by rewrite app_nil_r|].
  cbn [upload_step]. pose proof (Write_live tx r w d Hl) as Hw. destruct (Write tx d r) as [[st tx1] r1].
  destruct Hw as [(_ & Hl1 & _)|(_ & [Ho _] & _)].
  - specialize (IH tx1 r1 _ Hl1). destruct (run_upload (OpWrite <$> ds) tx1 r1) as [[sts tx'] r'].
    by rewrite app_assoc.
  - pose proof (over_run (OpWrite <$> ds) tx1 r1 Ho) as Ho'.
    destruct (run_upload (OpWrite <$> ds) tx1 r1) as [[sts tx'] r']. by right.
Qed.

Lemma over_not_finished tx r : over tx -> (Finish tx r).1.1 = InvalidArgument.
Proof. intros Ho. by destruct (over_step OpFinish tx r Ho) as [[?|?] _]. Qed.
End session.

(** *** The properties *)
Implicit Types (path expected : bytes) (s : F).


(** C19. What a successful upload has done.  If [Begin] and, after any [Write]s,
    [Finish] report [Ok], then all bytes that were written together have the
    promised length and SHA-256, and the target now holds exactly them; or,
    when nothing had to change, it still holds a file that had this length and
    digest already.  No other file has been lost. *)
Theorem upload_installs path expected size token yield ds tx0 s tx r sts tx1 r1 tx' r'
    (Hhandle : write_file_ tx0 = None) (Hsize : 0 <= size <= UINT64_MAX)
    (Hlen : length expected = 32%nat) (Hbytes : Forall is_byte expected)
    (Hbegin : Begin tx0 path size expected token yield (mkRecorded s []) = (Ok, tx, r))
    (Hwrites : run_upload (OpWrite <$> ds) tx r = (sts, tx1, r1))
    (Hfinish : Finish tx1 r1 = (Ok, tx', r')) :
  let t := nodes (volume r') in
  len (concat ds) = size /\ sha256_spec (concat ds) = expected /\
  others_kept (nodes s) path t /\
  if changed_ tx' then t !! key path = Some (FileNode (concat ds))
  else exists c, t !! key path = Some (FileNode c) /\ len c = size /\ sha256_spec c = expected.
Proof.
  assert (Ha : always (safe (nodes s) path expected size) (mkRecorded s [])).
  { split; [done|]. apply untouched_safe. by split; [intros k n|]. }
  pose proof (Begin_live (nodes s) path expected size tx0 _ tx r token yield Ha eq_refl Hhandle
    (proj1 Hsize) Hlen Hbytes Hbegin) as Hl.
  pose proof (writes_live (nodes s) path expected size Hsize ds tx r [] Hl) as Hw. rewrite Hwrites in Hw. cbn [app] in Hw.
  destruct Hw as [Hl1|Ho]; [|pose proof (over_not_finished tx1 r1 Ho) as Hst; rewrite Hfinish in Hst; discriminate Hst].
  pose proof (Finish_live (nodes s) path expected size tx1 r1 (concat ds) Hlen Hbytes Hl1) as Hf. rewrite Hfinish in Hf.
  destruct Hf as [[_ [_ [Hk _]]] Hf]. destruct (Hf eq_refl) as [[H1 H2] Hc]. cbv zeta.
  split; [done|]. split; [done|]. split; [done|]. destruct (changed_ tx'); [apply Hc | done].
Qed.
End upload.

(** ** Runs on a volume in memory *)
Import Memory.
Notation demo_path := (str "dir/a.txt").
Notation demo_sha := (sha256_spec (str "new")).
Notation demo_volume script := (new_volume
  {[ key (str "dir") := DirectoryNode; key (str "dir/b") := FileNode (str "b") ]}
  100 script).
Notation demo_begin script :=
  (Begin new_transaction demo_path 3 demo_sha 7 true (mkRecorded (demo_volume script) [])).
(** The operations that precede the rename succeed; the rename of the temporary
    file happens but reports failure. *)
Notation power_fails := (replicate 9 Done ++ [Lost true]).


Notation demo_writes := (run_upload (OpWrite <$> [str "ne"; str "w"]) (demo_begin []).1.2 (demo_begin []).2).

Lemma upload_installs_witness :
  let x := Finish demo_writes.1.2 demo_writes.2 in
  let t := nodes (volume x.2) in
  len (concat [str "ne"; str "w"]) = 3 /\ sha256_spec (concat [str "ne"; str "w"]) = demo_sha /\
  others_kept (nodes (demo_volume [])) demo_path t /\
  if changed_ x.1.2 then t !! key demo_path = Some (FileNode (concat [str "ne"; str "w"]))
  else exists c, t !! key demo_path = Some (FileNode c) /\ len c = 3 /\ sha256_spec c = demo_sha.
Proof.
  cbv zeta. apply (upload_installs demo_path demo_sha 3 7 true [str "ne"; str "w"] new_transaction
    (demo_volume []) (demo_begin []).1.2 (demo_begin []).2 demo_writes.1.1 demo_writes.1.2 demo_writes.2).
  - reflexivity.
  - vm_compute. split; discriminate.
  - reflexivity.
  - apply sha256_spec_digest.
  - vm_compute. reflexivity.
  - vm_compute. reflexivity.
  - vm_compute. reflexivity.
Defined.

(** A [Begin] that fails may remove a file it did not create: when [Stat] fails on
    a candidate for the temporary name, [Abort] removes the file of that name. *)
Example Begin_removes_foreign :
  let foreign := key (str ".bmx-u00000007.tmp") in
  let s := new_volume {[ foreign := FileNode (str "keep") ]} 100 [Done; Done; Lost false] in
  let '(st, _, s') := Begin new_transaction (str "x") 3 demo_sha 7 false s in
  st = IoError /\ nodes s !! foreign = Some (FileNode (str "keep")) /\ nodes s' !! foreign = None.
Proof. vm_compute. done. Qed.
