(* ===== verification/JsonFields.v ===== *)
(** * Reading fields of a JSON document

    What the readers of JSON metadata (build_info.cpp, github_release_parser.cpp,
    release_manifest.cpp) share: a monad for code that stops with a status and
    that must not leave the token array, and the facts about the accessors of
    Json.v that these readers rely on. *)
From S2P Require Import Prelude Json.
Local Open Scope Z_scope.

(** ** Results: a value, an early return with a status, or an access outside an
    array *)
Inductive parsed (S A : Type) :=
| Val (a : A)
| Stop (s : S)
| Ub.
Arguments Val {S A} _.
Arguments Stop {S A} _.
Arguments Ub {S A}.

Definition pbind {S A B} (m : parsed S A) (k : A -> parsed S B) : parsed S B :=
  match m with Val a => k a | Stop s => Stop s | Ub => Ub end.

Declare Scope parsed_scope.
Delimit Scope parsed_scope with parsed.
Notation "'get!' x ':=' m 'in' k" := (pbind m (fun x => k))
  (at level 200, x pattern, m at level 100, k at level 200, right associativity) : parsed_scope.
Notation "m ;! k" := (pbind m (fun _ => k)) (at level 100, k at level 200, right associativity) : parsed_scope.
Open Scope parsed_scope.

(** [if (!b) return s;] *)
Definition need {S} (b : bool) (s : S) : parsed S unit := if b then Val tt else Stop s.
(** The value of a successful call, or [return s]. *)
Definition some {S A} (o : option A) (s : S) : parsed S A :=
  match o with Some a => Val a | None => Stop s end.

(** [tokens[i]] *)
Definition token_at {S} (ts : list JsonToken) (i : Z) : parsed S JsonToken :=
  if i <? 0 then Ub else match ts !! Z.to_nat i with Some t => Val t | None => Ub end.

(** The tokens of a text, with the error of [ParseJson]. *)
Definition parse_text {S} (json : bytes) (token_capacity max_depth : Z)
    : parsed S (JsonError * list JsonToken) :=
  match ParseJson (Some json) true token_capacity max_depth with
  | Done r s => Val (result_error r, tokens s)
  | _ => Ub
  end.

(** [JsonCopyString] into a field of [size] bytes: the C string, if it succeeds. *)
Definition copy_string (json : bytes) (token : JsonToken) (size : Z) : option bytes :=
  match JsonCopyString (Some json) token true size with
  | Some (JSON_OK, out) => Some (cstr out)
  | _ => None
  end.

Definition get_uint64 (json : bytes) (token : JsonToken) : option Z :=
  match JsonGetUint64 (Some json) token true with
  | (JSON_OK, v) => v
  | _ => None
  end.

Definition get_bool (token : JsonToken) : option bool :=
  match JsonGetBool token true with
  | (JSON_OK, v) => v
  | _ => None
  end.

(** [for (i = 0; i < count; ++i)] with a state, whose body may return early. *)
Fixpoint for_loop {S A} (step : Z -> A -> parsed S A) (count : nat) (i : Z) (state : A) : parsed S A :=
  match count with
  | O => Val state
  | Datatypes.S count' => get! state := step i state in for_loop step count' (i + 1) state
  end.
Definition for_each {S A} (count : Z) (state : A) (step : Z -> A -> parsed S A) : parsed S A :=
  for_loop step (Z.to_nat count) 0 state.

Definition member (json : bytes) (ts : list JsonToken) (object : Z) (name : bytes) : Z :=
  JsonFindObjectMember (Some json) (Some ts) object (Some name).

(** ** The check that the root has exactly the given members ([ExactRoot]) *)
(** The loop over the direct children of the root: every other one is a key. *)
Fixpoint known_keys (fields : list bytes) (json : bytes) (object_end : Z) (rest : list JsonToken) (is_key : bool) : bool :=
  match rest with
  | [] => true
  | t :: rest' =>
      if object_end <=? start t then true
      else if negb (parent t =? 0) then known_keys fields json object_end rest' is_key
      else if negb is_key then known_keys fields json object_end rest' true
      else if existsb (fun field => JsonStringEquals (Some json) t (Some field)) fields
      then known_keys fields json object_end rest' false
      else false
  end.

Definition exact_root (fields : list bytes) (json : bytes) (tokens : list JsonToken) : bool :=
  match tokens with
  | [] => false
  | root :: rest =>
      if negb (bool_decide (type root = JSON_TOKEN_OBJECT)) || negb (child_count root =? len fields * 2)
      then false
      else if negb (forallb (fun field => 0 <=? member json tokens 0 field) fields) then false
      else known_keys fields json (tok_end root) rest true
  end.

(** ** What holds of a value that is returned; [Ub] never happens *)
Definition returns {S A} (m : parsed S A) (Q : A -> Prop) : Prop :=
  match m with Val a => Q a | Stop _ => True | Ub => False end.

Lemma returns_bind {S A B} (m : parsed S A) (k : A -> parsed S B) Q :
  returns m (fun a => returns (k a) Q) -> returns (pbind m k) Q.
Proof. by destruct m. Qed.

Lemma returns_mono {S A} (m : parsed S A) (Q R : A -> Prop) :
  returns m Q -> (forall a, Q a -> R a) -> returns m R.
Proof. destruct m; cbn; auto. Qed.

Lemma returns_then {S A B} (m : parsed S A) (k : A -> parsed S B) Q R :
  returns m Q -> (forall a, Q a -> returns (k a) R) -> returns (pbind m k) R.
Proof. destruct m; cbn; auto. Qed.

Lemma returns_need {S B} (b : bool) (s : S) (k : unit -> parsed S B) Q :
  (b = true -> returns (k tt) Q) -> returns (pbind (need b s) k) Q.
Proof. destruct b; cbn; auto. Qed.

Lemma returns_some {S A B} (o : option A) (s : S) (k : A -> parsed S B) Q :
  (forall a, o = Some a -> returns (k a) Q) -> returns (pbind (some o s) k) Q.
Proof. destruct o; cbn; auto. Qed.

Lemma returns_for_loop {S A} (step : Z -> A -> parsed S A) (Inv : Z -> A -> Prop) count : forall i state,
  0 <= i -> Inv i state ->
  (forall j state, i <= j < i + Z.of_nat count -> Inv j state -> returns (step j state) (Inv (j + 1))) ->
  returns (for_loop step count i state) (Inv (i + Z.of_nat count)).
Proof.
  induction count as [|count IH]; intros i state Hi0 Hi Hs; cbn [for_loop].
  { by rewrite Z.add_0_r. }
  eapply returns_then; [apply Hs; [lia | done]|]. intros a Ha.
  replace (i + Z.of_nat (Datatypes.S count)) with (i + 1 + Z.of_nat count) by lia.
  apply IH; [lia | done|]. intros j st Hj. apply Hs. lia.
Qed.

(** A loop whose turns all succeed follows a known sequence of states. *)
Lemma for_each_val {S A} (step : Z -> A -> parsed S A) (g : Z -> A) count : 0 <= count ->
  (forall j, 0 <= j < count -> step j (g j) = Val (g (j + 1))) -> for_each count (g 0) step = Val (g count).
Proof.
  intros Hc Hs. unfold for_each.
  assert (Hloop : forall n i, 0 <= i -> i + Z.of_nat n = count -> for_loop step n i (g i) = Val (g count)).
  { induction n as [|n IH]; intros i Hi E; cbn [for_loop].
    - do 2 f_equal. lia.
    - rewrite Hs by lia. cbn [pbind]. apply IH; lia. }
  apply Hloop; lia.
Qed.

Lemma for_each_ext {S A} count (state : A) (f g : Z -> A -> parsed S A) : (forall j st, f j st = g j st) ->
  for_each count state f = for_each count state g.
Proof.
  intros H. unfold for_each. generalize 0 as i. revert state.
  induction (Z.to_nat count) as [|n IH]; intros state i; [done|]. cbn [for_loop]. rewrite H.
  destruct (g i state); cbn [pbind]; [apply IH | done..].
Qed.

(** A loop establishes what every turn does for its index. *)
Lemma returns_for {S A B} (step : Z -> A -> parsed S A) (Inv : Z -> A -> Prop) count state (k : A -> parsed S B) Q :
  Inv 0 state -> (forall j state, 0 <= j < count -> Inv j state -> returns (step j state) (Inv (j + 1))) ->
  (forall state, Inv (Z.max 0 count) state -> returns (k state) Q) ->
  returns (pbind (for_each count state step) k) Q.
Proof.
  intros Hi Hs Hk. eapply returns_then; [apply (returns_for_loop _ Inv); [lia | done|]|].
  - intros j st Hj. apply Hs. lia.
  - intros a. replace (0 + Z.of_nat (Z.to_nat count)) with (Z.max 0 count) by lia. apply Hk.
Qed.

Lemma returns_token {S B} ts i (k : JsonToken -> parsed S B) Q :
  0 <= i < len ts -> (forall t, ts !! Z.to_nat i = Some t -> returns (k t) Q) ->
  returns (pbind (token_at ts i) k) Q.
Proof.
  intros Hi Hk. unfold token_at. rewrite (proj2 (Z.ltb_ge i 0)) by lia.
  destruct (ts !! Z.to_nat i) as [t|] eqn:E; [by apply Hk|].
  apply lookup_ge_None in E. unfold len in Hi. lia.
Qed.

Lemma returns_parse_text {S B} json capacity depth (k : JsonError * list JsonToken -> parsed S B) Q :
  Forall is_byte json -> 0 <= capacity ->
  (forall e ts, (e = JSON_OK -> exists t, document (Z.to_nat depth) json t /\ ts = flatten (-1) 0 t) ->
     returns (k (e, ts)) Q) ->
  returns (pbind (parse_text json capacity depth) k) Q.
Proof.
  intros Hb Hc Hk. unfold parse_text. destruct (ParseJson_facts json capacity depth Hb Hc) as (res & s & -> & _ & _ & _ & Hok).
  cbn [pbind]. by apply Hk.
Qed.

(** ** The accessors *)
Lemma FindObjectMember_range json object e name rest : forall i ek km, 0 <= i ->
  let j := FindObjectMember_loop json object e name rest i ek km in j = -1 \/ i <= j < i + len rest.
Proof.
  induction rest as [|t rest IH]; intros i ek km Hi; cbn [FindObjectMember_loop]; [by left|].
  rewrite len_cons. assert (Hnext : forall ek km,
    let j := FindObjectMember_loop json object e name rest (i + 1) ek km in j = -1 \/ i <= j < i + (1 + len rest)).
  { intros ek' km'. cbv zeta. destruct (IH (i + 1) ek' km' ltac:(lia)) as [->|?]; lia. }
  len_facts. destruct (e <=? start t); [by left|]. destruct (negb _); [apply Hnext|]. destruct ek.
  - destruct (negb _); [by left | apply Hnext].
  - destruct km; [lia | apply Hnext].
Qed.

(** A member that is found is a later token of the array. *)
Lemma member_range json ts object name :
  let j := member json ts object name in j = -1 \/ object < j < len ts.
Proof.
  unfold member, JsonFindObjectMember. destruct (Z.ltb_spec object 0); [by left|].
  destruct (Z.leb_spec (len ts) object); [by left|]. cbn [orb].
  destruct (ts !! Z.to_nat object) as [t|]; [|by left]. destruct (negb _); [by left|].
  pose proof (FindObjectMember_range json object (tok_end t) name (drop (Datatypes.S (Z.to_nat object)) ts)
    (object + 1) true false ltac:(lia)) as Hj. cbv zeta in *. destruct Hj as [->|Hj]; [by left|]. right.
  unfold len in *. rewrite length_drop in Hj. lia.
Qed.

Lemma member_token json ts object name : 0 <= object -> 0 <= member json ts object name ->
  0 <= member json ts object name < len ts.
Proof. intros Ho Hm. destruct (member_range json ts object name); lia. Qed.

Lemma copy_unicode_advances json i tend cp i' : copy_unicode json i tend = Some (cp, i') -> i + 4 <= i' <= tend.
Proof.
  unfold copy_unicode. destruct (Z.ltb_spec tend (i + 4)); [done|]. destruct (DecodeHex4 json i) as [c|]; [|done].
  destruct (in_range _ _ _).
  - destruct (Z.ltb_spec tend (i + 4 + 6)); [done|]. cbn [orb]. destruct (_ || _); [done|].
    destruct (DecodeHex4 _ _); [|done]. destruct (negb _); [done|]. intros [= <- <-]. lia.
  - intros [= <- <-]. lia.
Qed.

(** [JsonCopyString] always ends, and writes within the buffer. *)
Lemma JsonCopyString_loop_ends fuel : forall json i tend size out,
  (Z.to_nat (tend - i) < fuel)%nat -> len out < size ->
  match JsonCopyString_loop fuel json i tend size out with
  | Some (JSON_OK, o) => len o <= size
  | Some _ => True
  | None => False
  end.
Proof.
  induction fuel as [|fuel IH]; intros json i tend size out Hf Ho; [lia|]. cbn [JsonCopyString_loop].
  destruct (Z.leb_spec tend i); [rewrite len_snoc; lia|].
  destruct (negb _).
  { destruct (Z.leb_spec size (len out + 1)); [done|]. apply IH; [lia|]. rewrite len_snoc. lia. }
  destruct (Z.leb_spec tend (i + 1)); [done|].
  destruct (simple_decoded _) as [c|].
  { destruct (Z.leb_spec size (len out + 1)); [done|]. apply IH; [lia|]. rewrite len_snoc. lia. }
  destruct (_ =? _); [|done]. destruct (copy_unicode json (i + 2) tend) as [[cp i']|] eqn:Ec; [|done].
  apply copy_unicode_advances in Ec. unfold AppendUtf8.
  destruct (Z.leb_spec size (len out + len (AppendUtf8_bytes cp))); [done|]. apply IH; [lia|]. rewrite len_app. lia.
Qed.

Lemma JsonCopyString_ends json token size : 0 < size ->
  match JsonCopyString (Some json) token true size with
  | Some (JSON_OK, o) => len o <= size
  | Some _ => True
  | None => False
  end.
Proof.
  intros Hs. unfold JsonCopyString. rewrite (proj2 (Z.eqb_neq size 0)) by lia. cbn [negb orb].
  destruct (negb _); [done|]. apply JsonCopyString_loop_ends; [lia | done].
Qed.

Lemma len_cstr l : len (cstr l) <= len l.
Proof.
  induction l as [|c l IH]; cbn [cstr]; [lia|]. destruct (c =? NUL); rewrite ?len_cons; len_facts; [|lia].
  change (len (@nil Z)) with 0. lia.
Qed.

Lemma JsonCopyString_loop_last fuel : forall json i tend size out o,
  JsonCopyString_loop fuel json i tend size out = Some (JSON_OK, o) -> exists v, o = v ++ [NUL].
Proof.
  induction fuel as [|fuel IH]; intros json i tend size out o; [done|]. cbn [JsonCopyString_loop].
  repeat case_match; try done; try (by apply IH). intros [= <-]. by exists out.
Qed.

Lemma cstr_terminated v : len (cstr (v ++ [NUL])) < len (v ++ [NUL]).
Proof.
  rewrite len_snoc. induction v as [|c v IH]; cbn [app cstr].
  - change (NUL =? NUL) with true. cbn. lia.
  - destruct (c =? NUL); rewrite ?len_cons; len_facts; [change (len (@nil Z)) with 0|]; lia.
Qed.

(** The copied field is a C string that fits. *)
Lemma copy_string_fits json token size v : 0 < size -> copy_string json token size = Some v ->
  NUL ∉ v /\ len v < size.
Proof.
  intros Hs. unfold copy_string. pose proof (JsonCopyString_ends json token size Hs) as He.
  destruct (JsonCopyString (Some json) token true size) as [[[] o]|] eqn:Ec; try done. intros [= <-].
  split; [apply cstr_no_nul|]. unfold JsonCopyString in Ec. destruct (_ || _); [done|]. destruct (negb _); [done|].
  apply JsonCopyString_loop_last in Ec as [v ->]. pose proof (cstr_terminated v). lia.
Qed.

Lemma get_uint64_range json token v : get_uint64 json token = Some v -> 0 <= v <= UINT64_MAX.
Proof.
  unfold get_uint64. destruct (JsonGetUint64 (Some json) token true) as [e w] eqn:Eg. destruct e; try done. intros ->.
  unfold JsonGetUint64 in Eg. cbn [negb] in Eg. destruct (_ || _); [done|].
  assert (Hz : 0 <= 0 <= UINT64_MAX) by (unfold UINT64_MAX; lia).
  pose proof (JsonGetUint64_loop_ok _ _ _ Hz Eg) as Hd. rewrite JsonGetUint64_loop_digits in Eg by done.
  destruct (Z.leb_spec (decimal 0 (token_text json token)) UINT64_MAX); [|done]. injection Eg as <-.
  pose proof (decimal_ge _ 0 Hd ltac:(lia)). lia.
Qed.

(** The tokens of a document count their children. *)
Lemma flatten_counts t : forall par idx, Forall (fun x => 0 <= child_count x) (flatten par idx t).
Proof.
  induction t as [ty s e | s e ts IH | s e ms IH] using jtree_ind'; intros par idx.
  - by repeat constructor.
  - rewrite flatten_JArr. constructor; [apply len_nonneg|]. generalize (idx + 1).
    induction IH as [|t ts Ht Hts IHts]; intros i; cbn [flatten_elems]; [constructor|].
    apply Forall_app. split; [apply Ht | apply IHts].
  - rewrite flatten_JObj. constructor; [cbn; len_facts; lia|]. generalize (idx + 1).
    induction IH as [|[[k ks] t] ms Ht Hms IHms]; intros i; cbn [flatten_members]; [constructor|].
    constructor; [done|]. apply Forall_app. split; [apply Ht | apply IHms].
Qed.

Lemma exact_root_object fields json t : 0 < len fields -> exact_root fields json (flatten (-1) 0 t) = true -> exists s e ms,
  t = JObj s e ms /\ len ms = len fields /\
  Forall (fun name => 0 <= member json (flatten (-1) 0 t) 0 name) fields.
Proof.
  unfold exact_root. intros Hf Hr. destruct (flatten (-1) 0 t) as [|root rest] eqn:Ef; [done|].
  destruct (_ || _) eqn:Eo in Hr; [done|]. apply orb_false_iff in Eo as [Ety Ecc].
  apply negb_false_iff in Ety, Ecc. apply bool_decide_eq_true in Ety. apply Z.eqb_eq in Ecc.
  destruct (negb (forallb _ fields)) eqn:Ek; [done|]. apply negb_false_iff, forallb_Forall_bool in Ek.
  destruct t as [ty s e|s e l|s e ms]; cbn [flatten] in Ef; injection Ef as <- _; cbn in Ety, Ecc; try done; [lia|].
  exists s, e, ms. split; [done|]. split; [lia|]. eapply Forall_impl; [exact Ek|]. cbn. intros name Hn. lia.
Qed.

(** ** The members of the root object *)
Section root.
Variables (d : nat) (json : bytes) (s e : Z) (ms : list (bytes * Z * jtree)).
Hypothesis is_document : document d json (JObj s e ms).
Notation ts := (flatten (-1) 0 (JObj s e ms)).

(** A member that is found is one of the object, and its token is the first of
    its value. *)
Lemma root_member name : 0 <= member json ts 0 name -> exists ks t,
  (name, ks, t) ∈ ms /\ ts !! Z.to_nat (member json ts 0 name) = head (flatten 0 (member json ts 0 name) t).
Proof.
  intros Hj. unfold member in *. destruct (find_member_root d json s e ms name is_document) as [[Hm _]|(ks & t & A & C & Hin & Hts & Hlen)]; [lia|].
  set (j := JsonFindObjectMember _ _ _ _) in *. exists ks, t. split; [done|].
  destruct (flatten_shape t 0 j) as (t0 & rest & Hf & _). rewrite Hts, Hf. cbn [head].
  rewrite lookup_app_r by (unfold len in Hlen; lia). replace (Z.to_nat j - length A)%nat with 0%nat by (unfold len in Hlen; lia). done.
Qed.

(** The text of a number or string member. *)
Definition number_member (name : bytes) (v : Z) : Prop := exists ks s0 e0,
  (name, ks, JLeaf JSON_TOKEN_NUMBER s0 e0) ∈ ms /\ digits (sub json s0 (e0 - s0)) /\
  v = decimal 0 (sub json s0 (e0 - s0)).

Definition string_member (name : bytes) (size : Z) (v : bytes) : Prop := exists ks s0 e0 par k,
  (name, ks, JLeaf JSON_TOKEN_STRING s0 e0) ∈ ms /\
  copy_string json (mkToken JSON_TOKEN_STRING s0 e0 par k) size = Some v.

Lemma root_number name t v : 0 <= member json ts 0 name -> ts !! Z.to_nat (member json ts 0 name) = Some t ->
  get_uint64 json t = Some v -> number_member name v.
Proof.
  intros Hj Ht Hv. destruct (root_member name Hj) as (ks & tr & Hin & Hhd). rewrite Ht in Hhd.
  unfold get_uint64 in Hv. destruct (JsonGetUint64 (Some json) t true) as [err w] eqn:Eg. destruct err; try done. subst w.
  unfold JsonGetUint64 in Eg. cbn [negb] in Eg. destruct (bool_decide _) eqn:Ety; [|done]. apply bool_decide_eq_true in Ety.
  destruct (tok_end t <=? start t); [done|]. cbn [negb orb] in Eg.
  assert (Hz : 0 <= 0 <= UINT64_MAX) by (unfold UINT64_MAX; lia).
  pose proof (JsonGetUint64_loop_ok _ _ _ Hz Eg) as Hd. rewrite JsonGetUint64_loop_digits in Eg by done.
  destruct (_ <=? _); [|done]. injection Eg as <-.
  destruct tr as [ty s0 e0|s0 e0 l|s0 e0 l]; cbn [flatten head] in Hhd; injection Hhd as ->; cbn in Ety; try done.
  subst ty. by exists ks, s0, e0.
Qed.

Lemma root_string name t size v : 0 <= member json ts 0 name -> ts !! Z.to_nat (member json ts 0 name) = Some t ->
  copy_string json t size = Some v -> string_member name size v.
Proof.
  intros Hj Ht Hv. destruct (root_member name Hj) as (ks & tr & Hin & Hhd). rewrite Ht in Hhd.
  assert (Hty : type t = JSON_TOKEN_STRING).
  { unfold copy_string, JsonCopyString in Hv. destruct (_ || _); [done|]. destruct (bool_decide _) eqn:Ety; [|done].
    by apply bool_decide_eq_true in Ety. }
  destruct tr as [ty s0 e0|s0 e0 l|s0 e0 l]; cbn [flatten head] in Hhd; injection Hhd as ->; cbn in Hty; try done.
  subst ty. by exists ks, s0, e0, 0, 0.
Qed.

(** An object with as many members as there are names, each of which is found,
    has exactly these names. *)
Lemma root_names (names : list bytes) : NoDup names -> len ms = len names ->
  Forall (fun name => 0 <= member json ts 0 name) names -> map member_key ms ≡ₚ names.
Proof.
  intros Hnd Hlen Hall. symmetry. apply submseteq_length_Permutation.
  - apply NoDup_submseteq; [done|]. intros name Hin. rewrite Forall_forall in Hall.
    destruct (root_member name (Hall name Hin)) as (ks & t & Hms & _).
    apply list_elem_of_In, in_map_iff. exists (name, ks, t). split; [done | by apply list_elem_of_In].
  - rewrite length_map. unfold len in Hlen. lia.
Qed.
End root.
