(* ===== verification/BuildInfo.v ===== *)
(** * The installed build record (src/src/update/build_info.cpp)

    BMX-BUILD.json says what is installed.  Its reader is translated in the monad
    of JsonFields.v; [Val] is the status [Ok] of the source, with what has been
    written to [build_info]. *)
From S2P Require Import Prelude Json JsonFields UpdatePolicy.
From Stdlib Require Import Ascii.
Local Open Scope Z_scope.

Definition kMaximumBuildInfoBytes : Z := 64 * 1024.
Definition kMaximumConfigAreas : Z := 16.
Definition BMX_UPDATE_UPDATER_ABI : Z := 2.
Definition CompiledUpdaterAbi : Z := u32 BMX_UPDATE_UPDATER_ABI.

Record InstalledSchemaVersion := mkSchema { schema_area : ConfigArea; schema_version : Z }.

Record InstalledBuildInfo := mkBuildInfo {
  version : bytes;
  release_sequence : Z;
  release_epoch : Z;
  board : BoardFamily;
  source_commit : bytes;
  updater_abi : Z;
  schemas : list InstalledSchemaVersion;
}.

Inductive BuildInfoStatus :=
| Ok | InvalidArgument | InvalidSize | JsonInvalid | UnsupportedVersion | FieldsInvalid
| UnsupportedSchema | StorageTooSmall.

Definition AreaFromToken (json : bytes) (token : JsonToken) : ConfigArea :=
  let named name := JsonStringEquals (Some json) token (Some name) in
  if named (str "machines") then Machines
  else if named (str "config_managed_block") then ConfigManagedBlock
  else if named (str "cmdline_managed") then CmdlineManagedKeys
  else if named (str "network") then Network
  else if named (str "settings") then Settings
  else if named (str "update_state") then UpdateState
  else ConfigAreaUnknown.

Definition kFields : list bytes :=
  [str "build_info_version"; str "version"; str "release_sequence"; str "release_epoch";
   str "board_family"; str "source_commit"; str "updater_abi"; str "configuration_schemas"].

Definition ExactRoot (json : bytes) (tokens : list JsonToken) : bool := exact_root kFields json tokens.

Definition GetUint (json : bytes) (tokens : list JsonToken) (token minimum maximum : Z)
    : parsed BuildInfoStatus (option Z) :=
  if token <? 0 then Val None
  else
    get! t := token_at tokens token in
    Val (match get_uint64 json t with
         | Some result => if (result <? minimum) || (maximum <? result) then None else Some result
         | None => None
         end).

Definition version_punct (c : Z) : bool :=
  (c =? ch "."%char) || (c =? ch "_"%char) || (c =? ch "+"%char) || (c =? ch "-"%char).

Definition IsVersion (value : bytes) : bool :=
  match value with
  | [] => false
  | c :: rest =>
      (len value <=? 64) && is_alnum c && forallb (fun c => is_alnum c || version_punct c) rest
  end.

Definition IsCommit (value : bytes) : bool :=
  ((len value =? 40) || (len value =? 64)) && forallb (fun c => is_digit c || in_range 97 102 c) value.

(** The loop over the direct children of the schema object: area names and
    versions in turn.  [area_index >= 7] cannot happen for a known area. *)
Fixpoint schema_loop (json : bytes) (object object_end : Z) (rest : list JsonToken) (expect_key : bool)
    (current_area : ConfigArea) (seen : list ConfigArea) (out : list InstalledSchemaVersion)
    : option (bool * list InstalledSchemaVersion) :=
  match rest with
  | [] => Some (expect_key, out)
  | t :: rest' =>
      if object_end <=? start t then Some (expect_key, out)
      else if negb (parent t =? object)
      then schema_loop json object object_end rest' expect_key current_area seen out
      else if expect_key then
        let area := AreaFromToken json t in
        if negb (IsKnownConfigArea area) || bool_decide (area ∈ seen) then None
        else schema_loop json object object_end rest' false area (area :: seen) out
      else
        match get_uint64 json t with
        | Some v =>
            if (kMaximumConfigAreas <=? len out) || (INT32_MAX <? v) then None
            else schema_loop json object object_end rest' true current_area seen
                   (out ++ [mkSchema current_area (u32 v)])
        | None => None
        end
  end.

Definition parse_board (board : bytes) : option BoardFamily :=
  if bytes_eqb board (str "pi4") then Some Pi4Pi400
  else if bytes_eqb board (str "pi5") then Some Pi5Pi500
  else None.

Definition parse_schemas (json : bytes) (tokens : list JsonToken)
    : parsed BuildInfoStatus (list InstalledSchemaVersion) :=
  let schemas := member json tokens 0 (str "configuration_schemas") in
  need (0 <=? schemas) UnsupportedSchema ;!
  get! t := token_at tokens schemas in
  need (bool_decide (type t = JSON_TOKEN_OBJECT) && (child_count t =? 12)) UnsupportedSchema ;!
  get! r := some (schema_loop json schemas (tok_end t) (drop (S (Z.to_nat schemas)) tokens) true
                    ConfigAreaUnknown [] []) UnsupportedSchema in
  need (r.1 && (len r.2 =? 6)) UnsupportedSchema ;!
  Val r.2.

(** The fields of the root object. *)
Definition parse_fields (json : bytes) (tokens : list JsonToken) : parsed BuildInfoStatus InstalledBuildInfo :=
  let field name := member json tokens 0 (str name) in
  get! format := GetUint json tokens (field "build_info_version"%string) 1 1 in
  get! _ := some format UnsupportedVersion in
  get! version_token := token_at tokens (field "version"%string) in
  get! version := some (copy_string json version_token 65) FieldsInvalid in
  need (IsVersion version) FieldsInvalid ;!
  get! sequence := GetUint json tokens (field "release_sequence"%string) 1 INT32_MAX in
  get! release_sequence := some sequence FieldsInvalid in
  get! epoch := GetUint json tokens (field "release_epoch"%string) 1 INT64_MAX in
  get! release_epoch := some epoch FieldsInvalid in
  get! board_token := token_at tokens (field "board_family"%string) in
  get! board := some (copy_string json board_token 8) FieldsInvalid in
  get! commit_token := token_at tokens (field "source_commit"%string) in
  get! source_commit := some (copy_string json commit_token 65) FieldsInvalid in
  need (IsCommit source_commit) FieldsInvalid ;!
  get! abi := GetUint json tokens (field "updater_abi"%string) 1 INT32_MAX in
  get! abi := some abi FieldsInvalid in
  get! board := some (parse_board board) FieldsInvalid in
  get! schemas := parse_schemas json tokens in
  Val (mkBuildInfo version release_sequence release_epoch board source_commit (u32 abi) schemas).

(** A file of one object and a final newline. *)
Definition object_file (encoded : bytes) (maximum : Z) : bool :=
  negb ((len encoded <? 3) || (maximum <? len encoded) || negb (byte_at encoded 0 =? ch "{"%char) ||
        negb (byte_at encoded (len encoded - 1) =? LF) ||
        negb (byte_at encoded (len encoded - 2) =? ch "}"%char)).

Definition ParseBuildInfo (encoded : bytes) (token_capacity : Z) : parsed BuildInfoStatus InstalledBuildInfo :=
  need (negb (token_capacity =? 0)) InvalidArgument ;!
  need (object_file encoded kMaximumBuildInfoBytes) InvalidSize ;!
  get! r := parse_text encoded token_capacity 16 in
  match r with
  | (JSON_OK, tokens) => need (ExactRoot encoded tokens) FieldsInvalid ;! parse_fields encoded tokens
  | (JSON_ERROR_TOKEN_LIMIT, _) => Stop StorageTooSmall
  | _ => Stop JsonInvalid
  end.

Definition BuildInfoStatusString (status : BuildInfoStatus) : bytes :=
  match status with
  | Ok => str "ok"
  | InvalidArgument => str "invalid argument"
  | InvalidSize => str "BMX-BUILD size/format invalid"
  | JsonInvalid => str "BMX-BUILD JSON invalid"
  | UnsupportedVersion => str "unsupported BMX-BUILD version"
  | FieldsInvalid => str "BMX-BUILD fields invalid"
  | UnsupportedSchema => str "BMX-BUILD schemas unsupported"
  | StorageTooSmall => str "BMX-BUILD parse storage too small"
  end.

(** ** The properties *)
Definition all_areas : list ConfigArea :=
  [Machines; ConfigManagedBlock; CmdlineManagedKeys; Network; Settings; UpdateState].

(** A record that may be believed. *)
Record build_info_wf (b : InstalledBuildInfo) : Prop := {
  wf_version : IsVersion (version b) = true;
  wf_sequence : 1 <= release_sequence b <= INT32_MAX;
  wf_epoch : 1 <= release_epoch b <= INT64_MAX;
  wf_board : IsKnownBoardFamily (board b) = true;
  wf_commit : IsCommit (source_commit b) = true;
  wf_abi : 1 <= updater_abi b <= INT32_MAX;
  wf_areas : schema_area <$> schemas b ≡ₚ all_areas;
  wf_versions : Forall (fun s => 0 <= schema_version s <= INT32_MAX) (schemas b);
}.

Lemma known_area a : IsKnownConfigArea a = true -> a ∈ all_areas.
Proof. unfold all_areas. destruct a; try discriminate; set_solver. Qed.

(** Six distinct known areas are all of them. *)
Lemma areas_complete l : NoDup l -> Forall (fun a => IsKnownConfigArea a = true) l -> length l = 6%nat ->
  l ≡ₚ all_areas.
Proof.
  intros Hnd Hk Hl. apply submseteq_length_Permutation; [|rewrite Hl; done].
  apply NoDup_submseteq; [done|]. intros a Ha. rewrite Forall_forall in Hk. by apply known_area, Hk.
Qed.

(** What the schema loop keeps: the areas of the pairs read so far, and the one
    of the key that waits for its value. *)
Definition loop_state (expect_key : bool) (area : ConfigArea) (seen : list ConfigArea)
    (out : list InstalledSchemaVersion) : Prop :=
  NoDup seen /\ Forall (fun a => IsKnownConfigArea a = true) seen /\
  seen ≡ₚ (if expect_key then [] else [area]) ++ (schema_area <$> out) /\
  Forall (fun s => 0 <= schema_version s <= INT32_MAX) out.

Lemma schema_loop_state json object e rest : forall expect_key area seen out k out',
  loop_state expect_key area seen out ->
  schema_loop json object e rest expect_key area seen out = Some (k, out') ->
  exists area' seen', loop_state k area' seen' out'.
Proof.
  induction rest as [|t rest IH]; intros expect_key area seen out k out' Hs; cbn [schema_loop].
  { intros [= <- <-]. by exists area, seen. }
  destruct (e <=? start t); [intros [= <- <-]; by exists area, seen|].
  destruct (negb (parent t =? object)); [by apply IH|]. destruct Hs as (Hnd & Hk & Hp & Hv). destruct expect_key.
  - destruct (IsKnownConfigArea (AreaFromToken json t)) eqn:Ek; [|done]. case_bool_decide as Hin; [done|]. cbn [negb orb].
    apply IH. split; [by constructor|]. split; [by constructor|]. split; [|done]. cbn [app] in *. by rewrite Hp.
  - destruct (get_uint64 json t) as [v|] eqn:Ev; [|done]. apply get_uint64_range in Ev.
    destruct (_ <=? _); [done|]. cbn [orb]. destruct (Z.ltb_spec INT32_MAX v); [done|]. apply IH.
    split; [done|]. split; [done|]. split.
    + rewrite Hp, fmap_app. cbn. rewrite Permutation_app_comm. done.
    + apply Forall_app. split; [done|]. constructor; [|done]. cbn. unfold u32, INT32_MAX in *. rewrite Z.mod_small; lia.
Qed.

Lemma schema_loop_complete json object e rest out :
  schema_loop json object e rest true ConfigAreaUnknown [] [] = Some (true, out) -> len out = 6 ->
  schema_area <$> out ≡ₚ all_areas /\ Forall (fun s => 0 <= schema_version s <= INT32_MAX) out.
Proof.
  intros Hl H6. apply schema_loop_state in Hl as (a & seen & Hnd & Hk & Hp & Hv).
  - split; [|done]. rewrite <- Hp. apply areas_complete; [done..|]. rewrite Hp. cbn. rewrite length_fmap.
    unfold len in H6. lia.
  - split; [constructor|]. split; [constructor|]. split; [done | constructor].
Qed.

(** The record says what the members of the document say. *)
Record describes (json : bytes) (ms : list (bytes * Z * jtree)) (b : InstalledBuildInfo) : Prop := {
  d_format : number_member json ms (str "build_info_version") 1;
  d_version : string_member json ms (str "version") 65 (version b);
  d_sequence : number_member json ms (str "release_sequence") (release_sequence b);
  d_epoch : number_member json ms (str "release_epoch") (release_epoch b);
  d_board : exists text, string_member json ms (str "board_family") 8 text /\ parse_board text = Some (board b);
  d_commit : string_member json ms (str "source_commit") 65 (source_commit b);
  d_abi : number_member json ms (str "updater_abi") (updater_abi b);
}.

Section fields.
Variables (d : nat) (json : bytes) (s e : Z) (ms : list (bytes * Z * jtree)).
Hypothesis is_document : document d json (JObj s e ms).
Notation ts := (flatten (-1) 0 (JObj s e ms)).
Hypothesis all_fields : Forall (fun name => 0 <= member json ts 0 name) kFields.

Lemma field_found name : name ∈ kFields -> 0 <= member json ts 0 name < len ts.
Proof. intros Hin. rewrite Forall_forall in all_fields. apply member_token; [lia | by apply all_fields]. Qed.

Lemma returns_GetUint {B} name lo hi st (k : Z -> parsed BuildInfoStatus B) Q : name ∈ kFields ->
  (forall v, lo <= v <= hi -> number_member json ms name v -> returns (k v) Q) ->
  returns (get! o := GetUint json ts (member json ts 0 name) lo hi in get! v := some o st in k v) Q.
Proof.
  intros Hin Hk. pose proof (field_found name Hin) as Hj. unfold GetUint. rewrite (proj2 (Z.ltb_ge _ _)) by lia.
  unfold token_at. rewrite (proj2 (Z.ltb_ge _ 0)) by lia.
  destruct (ts !! Z.to_nat (member json ts 0 name)) as [t|] eqn:Et;
    [|apply lookup_ge_None in Et; unfold len in Hj; lia].
  cbn [pbind]. destruct (get_uint64 json t) as [v|] eqn:Ev; [|done].
  destruct (Z.ltb_spec v lo); [done|]. destruct (Z.ltb_spec hi v); [done|]. cbn.
  apply Hk; [lia|]. by apply (root_number d json s e ms is_document name t v); [lia|..].
Qed.

Lemma returns_string {B} name size st (k : bytes -> parsed BuildInfoStatus B) Q : name ∈ kFields -> 0 < size ->
  (forall v, string_member json ms name size v -> returns (k v) Q) ->
  returns (get! t := token_at ts (member json ts 0 name) in get! v := some (copy_string json t size) st in k v) Q.
Proof.
  intros Hin Hs Hk. apply returns_token; [by apply field_found|]. intros t Ht. apply returns_some. intros v Hv.
  apply Hk. apply (root_string d json s e ms is_document name t size v); [|done..]. by apply field_found.
Qed.

Lemma parse_schemas_returns : returns (parse_schemas json ts)
  (fun l => schema_area <$> l ≡ₚ all_areas /\ Forall (fun s => 0 <= schema_version s <= INT32_MAX) l).
Proof.
  unfold parse_schemas. apply returns_need. intros Hj%Z.leb_le.
  apply returns_token; [by apply member_token|]. intros t Ht. apply returns_need. intros _.
  apply returns_some. intros [k out] Hl. apply returns_need. cbn [fst snd]. intros [-> H6%Z.eqb_eq]%andb_true_iff.
  cbn. by apply schema_loop_complete in Hl.
Qed.

Ltac field := unfold kFields; set_solver.

Lemma parse_fields_returns : returns (parse_fields json ts) (fun b => build_info_wf b /\ describes json ms b).
Proof.
  unfold parse_fields.
  apply returns_GetUint; [field|]. intros format Hf0 Hf. apply returns_string; [field|lia|]. intros version Hv.
  apply returns_need. intros Hv0. apply returns_GetUint; [field|]. intros sequence Hs0 Hs.
  apply returns_GetUint; [field|]. intros epoch He0 He. apply returns_string; [field|lia|]. intros board Hb.
  apply returns_string; [field|lia|]. intros commit Hc. apply returns_need. intros Hc0.
  apply returns_GetUint; [field|]. intros abi Ha0 Ha. apply returns_some. intros family Hfam.
  eapply returns_then; [apply parse_schemas_returns|]. intros schemas [Hsch1 Hsch2]. cbn.
  assert (Habi : u32 abi = abi) by (unfold u32, INT32_MAX in *; rewrite Z.mod_small; lia).
  assert (Hfam0 : IsKnownBoardFamily family = true).
  { unfold parse_board in Hfam. destruct (bytes_eqb _ _); [by injection Hfam as <-|].
    destruct (bytes_eqb _ _); [by injection Hfam as <- | done]. }
  replace format with 1 in Hf by lia. rewrite Habi.
  split; [by constructor|]. constructor; try done. by exists board.
Qed.
End fields.

Lemma ParseBuildInfo_ok (encoded : bytes) (token_capacity : Z) : Forall is_byte encoded -> 0 <= token_capacity ->
  returns (ParseBuildInfo encoded token_capacity) (fun b =>
    build_info_wf b /\ exists s e ms, document 16 encoded (JObj s e ms) /\
      map member_key ms ≡ₚ kFields /\ describes encoded ms b).
Proof.
  intros Hbytes Hcap. unfold ParseBuildInfo. apply returns_need. intros _. apply returns_need. intros _.
  apply returns_parse_text; [done..|]. intros err ts Hts. destruct err; try done.
  destruct (Hts eq_refl) as (t & Hdoc & ->). apply returns_need. intros Hroot.
  apply exact_root_object in Hroot as (s & e & ms & -> & Hlen & Hall); [|done].
  eapply returns_mono; [by apply (parse_fields_returns 16 encoded s e ms)|].
  intros b [Hwf Hd]. split; [done|]. exists s, e, ms. split; [done|]. split; [|done].
  apply (root_names 16 encoded s e ms); try done. vm_compute. repeat constructor; set_solver.
Qed.

(** [ParseBuildInfo] never reads outside its arrays, and what it accepts can
    be believed: the file is one strict JSON object of exactly the eight known
    members, the record holds the values of these members within their ranges,
    the board is one of the two families, and each of the six configuration
    areas has exactly one schema version. *)
Theorem ParseBuildInfo_sound (encoded : bytes) (token_capacity : Z)
    (Hbytes : Forall is_byte encoded) (Hcap : 0 <= token_capacity) :
  returns (ParseBuildInfo encoded token_capacity) (fun b =>
    build_info_wf b /\ exists s e ms, document 16 encoded (JObj s e ms) /\
      map member_key ms ≡ₚ kFields /\ describes encoded ms b).
Proof. by apply ParseBuildInfo_ok. Qed.

Definition sample_build_info : bytes :=
  str "{'build_info_version':1,'version':'2.1','release_sequence':7,'release_epoch':9,'board_family':'pi5','source_commit':'0123456789012345678901234567890123456789','updater_abi':2,'configuration_schemas':{'machines':1,'config_managed_block':1,'cmdline_managed':1,'network':1,'settings':1,'update_state':1}}".
(** With the quotes that the strings of this file cannot contain, and a newline. *)
Definition sample_file : bytes :=
  ((fun c => if c =? 39 then QUOTE else c) <$> sample_build_info) ++ [LF].

Example sample_accepted :
  match ParseBuildInfo sample_file 64 with
  | Val b => release_sequence b = 7 /\ board b = Pi5Pi500
  | _ => False
  end.
Proof. vm_compute. split; reflexivity. Qed.

Lemma ParseBuildInfo_sound_witness :
  returns (ParseBuildInfo sample_file 64) (fun b =>
    build_info_wf b /\ exists s e ms, document 16 sample_file (JObj s e ms) /\
      map member_key ms ≡ₚ kFields /\ describes sample_file ms b).
Proof.
  apply (ParseBuildInfo_sound sample_file 64); [|discriminate].
  vm_compute. repeat constructor; discriminate.
Defined.
