(* ===== verification/GithubRelease.v ===== *)
(** * GitHub release metadata (src/src/update/github_release_parser.cpp)

    The reader of GitHub's answer about a release and the selection of the assets
    of an update.  C strings are their contents; a pointer to an asset is its
    index; the caller's asset array is the list of the release. *)
From S2P Require Import Prelude Json JsonFields UrlPolicy.
From Stdlib Require Import Ascii.
Local Open Scope Z_scope.

Definition kMaximumGitHubReleaseResponseBytes : Z := 128 * 1024.
Definition kMaximumGitHubReleaseAssets : Z := 64.
Definition kMaximumGitHubReleaseTagBytes : Z := 128.
Definition kMaximumGitHubAssetNameBytes : Z := 160.

Record GitHubReleaseAsset := mkAsset {
  id : Z;
  name : bytes;
  size : Z;
  browser_download_url : bytes;
  api_download_url : bytes;
}.

Record GitHubLatestRelease := mkRelease {
  release_id : Z;
  tag_name : bytes;
  draft : bool;
  prerelease : bool;
  assets : list GitHubReleaseAsset;
}.

Inductive GitHubReleaseKind := PublishedStable | PreparedDraft.

#[export] Instance GitHubReleaseKind_eq_dec : EqDecision GitHubReleaseKind.
Proof. solve_decision. Defined.

Inductive GitHubReleaseParseStatus :=
| Ok | InvalidArgument | ResponseTooLarge | StorageTooSmall | JsonInvalid | WrongRootType
| MissingField | WrongType | InvalidValue | TooManyAssets | DuplicateAssetName | UrlRejected
| UrlBindingMismatch | DraftForbidden | PrereleaseForbidden.

Inductive RequiredGitHubAssetsStatus :=
| AssetsOk | AssetsInvalidArgument | IneligibleRelease | InvalidSignedTag | InvalidBoardZipName
| SignedTagMismatch | AssetsTooMany | AssetsDuplicateName | AssetsUrlRejected
| AssetsUrlBindingMismatch | MissingManifest | MissingSignature | MissingBoardZip.

Definition kManifestAssetName : bytes := str "BMX-RELEASE.json".
Definition kSignatureAssetName : bytes := str "BMX-RELEASE.sig".

Inductive CopyStringStatus := CopyWrongType | Empty | CopyTooLong | UnsafeCharacter.

Definition unsafe_character (c : Z) : bool := (c <? 0x21) || (0x7e <? c) || (c =? BACKSLASH).

Definition CopyUnescapedAsciiString (json : bytes) (token : JsonToken) (output_size : Z)
    : CopyStringStatus + bytes :=
  if negb (bool_decide (type token = JSON_TOKEN_STRING)) then inl CopyWrongType
  else
    let length := tok_end token - start token in
    if length =? 0 then inl Empty
    else if output_size <=? length then inl CopyTooLong
    else if existsb unsafe_character (sub json (start token) length) then inl UnsafeCharacter
    else inr (sub json (start token) length).

Definition IsSafeIdentifierCharacter (c : Z) : bool :=
  is_lower c || is_upper c || is_digit c || (c =? ch "."%char) || (c =? ch "_"%char) || (c =? ch "-"%char).

(** The length, or [maximum + 1] for a longer string. *)
Definition BoundedLength (value : bytes) (maximum : Z) : Z := Z.min (len value) (maximum + 1).

Definition IsSafeIdentifier (value : bytes) (maximum : Z) : bool :=
  let length := BoundedLength value maximum in
  if (length =? 0) || (maximum <? length) then false
  else forallb IsSafeIdentifierCharacter value.

Definition IsSafeTag (tag : bytes) : bool := IsSafeIdentifier tag kMaximumGitHubReleaseTagBytes.

Definition IsSafeAssetName (name : bytes) : bool :=
  IsSafeIdentifier name kMaximumGitHubAssetNameBytes &&
  negb (bytes_eqb name (str ".")) && negb (bytes_eqb name (str "..")).

Definition IsNullTerminatedUrl (url : bytes) : bool :=
  let length := BoundedLength url (kMaximumUpdateUrlBytes - 1) in
  (0 <? length) && (length <? kMaximumUpdateUrlBytes).

Inductive AssetUrlStatus := AssetUrlOk | Rejected | BindingMismatch.

Definition no_parsed_url : ParsedUpdateUrl := {| url_host := []; path_and_query := []; port := 0 |}.

Definition ValidateAssetUrl (asset : GitHubReleaseAsset) (tag : bytes) : AssetUrlStatus :=
  if negb (IsSafeTag tag) || negb (IsSafeAssetName (name asset)) ||
     negb (IsNullTerminatedUrl (browser_download_url asset))
  then BindingMismatch
  else
    match ParseAndAuthorizeUpdateUrl (Some (browser_download_url asset)) ReleaseAsset no_parsed_url with
    | (UrlOk, parsed) =>
        if negb (starts_with kGitHubReleaseDownloadPathPrefix (path_and_query parsed)) then BindingMismatch
        else
          let url_tag := drop (length kGitHubReleaseDownloadPathPrefix) (path_and_query parsed) in
          match index_of C_SLASH url_tag with
          | None => BindingMismatch
          | Some separator =>
              if negb (len tag =? Z.of_nat separator) || negb (bytes_eqb (take separator url_tag) tag) ||
                 negb (bytes_eqb (drop (S separator) url_tag) (name asset))
              then BindingMismatch else AssetUrlOk
          end
    | _ => Rejected
    end.

Definition MapCopyStatus (status : CopyStringStatus) : GitHubReleaseParseStatus :=
  match status with CopyWrongType => WrongType | _ => InvalidValue end.

Definition SameName (left right : GitHubReleaseAsset) : bool := bytes_eqb (name left) (name right).

Definition EligibleKind (release : GitHubLatestRelease) (kind : GitHubReleaseKind) : bool :=
  match kind with
  | PreparedDraft => draft release && negb (prerelease release)
  | PublishedStable => negb (draft release) && negb (prerelease release)
  end.

Definition ValidateApiAssetUrl (asset : GitHubReleaseAsset) : bool :=
  negb (id asset =? 0) && negb (bool_decide (api_download_url asset = [])) &&
  match ParseAndAuthorizeUpdateUrl (Some (api_download_url asset)) AuthenticatedReleaseAsset no_parsed_url with
  | (UrlOk, _) => true
  | _ => false
  end.

Definition ValidateAssetUrlForKind (asset : GitHubReleaseAsset) (tag : bytes) (kind : GitHubReleaseKind)
    : AssetUrlStatus :=
  match kind with
  | PreparedDraft => if ValidateApiAssetUrl asset then AssetUrlOk else BindingMismatch
  | PublishedStable => ValidateAssetUrl asset tag
  end.

Definition is_draft_kind (kind : GitHubReleaseKind) : bool := bool_decide (kind = PreparedDraft).

(** ** Selecting assets *)
(** The checks of one asset, with those before it. *)
Definition check_asset (kind : GitHubReleaseKind) (tag : bytes) (earlier : list GitHubReleaseAsset)
    (asset : GitHubReleaseAsset) : RequiredGitHubAssetsStatus :=
  if negb (IsSafeAssetName (name asset)) || negb (IsNullTerminatedUrl (browser_download_url asset)) ||
     (is_draft_kind kind && negb (ValidateApiAssetUrl asset))
  then AssetsUrlBindingMismatch
  else if existsb (fun e => SameName e asset) earlier then AssetsDuplicateName
  else match ValidateAssetUrlForKind asset tag kind with
       | Rejected => AssetsUrlRejected
       | BindingMismatch => AssetsUrlBindingMismatch
       | AssetUrlOk => AssetsOk
       end.

(** The loop over the assets: the last index of each wanted name. *)
Fixpoint find_loop (kind : GitHubReleaseKind) (tag : bytes) (wanted : list bytes)
    (earlier rest : list GitHubReleaseAsset) (found : list (option nat))
    : RequiredGitHubAssetsStatus + list (option nat) :=
  match rest with
  | [] => inr found
  | asset :: rest' =>
      match check_asset kind tag earlier asset with
      | AssetsOk =>
          let found :=
            match list_find (fun w => w = name asset) wanted with
            | Some (slot, _) => <[slot := Some (length earlier)]> found
            | None => found
            end in
          find_loop kind tag wanted (earlier ++ [asset]) rest' found
      | status => inl status
      end
  end.

Record GitHubReleaseMetadataAssets := mkMetadata { metadata_manifest : nat; metadata_signature : nat }.

Definition FindReleaseMetadataAssetsForKind (release : GitHubLatestRelease) (kind : GitHubReleaseKind)
    : RequiredGitHubAssetsStatus + GitHubReleaseMetadataAssets :=
  if negb (EligibleKind release kind) then inl IneligibleRelease
  else if negb (IsSafeTag (tag_name release)) then inl InvalidSignedTag
  else if kMaximumGitHubReleaseAssets <? len (assets release) then inl AssetsTooMany
  else
    match find_loop kind (tag_name release) [kManifestAssetName; kSignatureAssetName] [] (assets release)
            [None; None] with
    | inl status => inl status
    | inr [Some m; Some s] => inr (mkMetadata m s)
    | inr (None :: _) => inl MissingManifest
    | inr _ => inl MissingSignature
    end.

Definition FindReleaseMetadataAssets (release : GitHubLatestRelease)
    : RequiredGitHubAssetsStatus + GitHubReleaseMetadataAssets :=
  FindReleaseMetadataAssetsForKind release PublishedStable.

Record RequiredGitHubReleaseAssets := mkRequired {
  required_manifest : nat;
  required_signature : nat;
  required_board_zip : nat;
}.

Definition FindRequiredAssetsForKind (release : GitHubLatestRelease) (kind : GitHubReleaseKind)
    (signed_manifest_tag signed_board_zip_name : bytes)
    : RequiredGitHubAssetsStatus + RequiredGitHubReleaseAssets :=
  if negb (EligibleKind release kind) then inl IneligibleRelease
  else if negb (IsSafeTag signed_manifest_tag) then inl InvalidSignedTag
  else if negb (IsSafeAssetName signed_board_zip_name) ||
          bytes_eqb signed_board_zip_name kManifestAssetName ||
          bytes_eqb signed_board_zip_name kSignatureAssetName
  then inl InvalidBoardZipName
  else if negb (IsSafeTag (tag_name release)) || negb (bytes_eqb (tag_name release) signed_manifest_tag)
  then inl SignedTagMismatch
  else if kMaximumGitHubReleaseAssets <? len (assets release) then inl AssetsTooMany
  else
    match find_loop kind signed_manifest_tag
            [kManifestAssetName; kSignatureAssetName; signed_board_zip_name] [] (assets release)
            [None; None; None] with
    | inl status => inl status
    | inr [Some m; Some s; Some z] => inr (mkRequired m s z)
    | inr (None :: _) => inl MissingManifest
    | inr (Some _ :: None :: _) => inl MissingSignature
    | inr _ => inl MissingBoardZip
    end.

Definition FindRequiredAssets (release : GitHubLatestRelease) (signed_manifest_tag signed_board_zip_name : bytes)
    : RequiredGitHubAssetsStatus + RequiredGitHubReleaseAssets :=
  FindRequiredAssetsForKind release PublishedStable signed_manifest_tag signed_board_zip_name.

Definition GitHubAssetDownloadUrl (asset : GitHubReleaseAsset) (kind : GitHubReleaseKind) : bytes :=
  match kind with PreparedDraft => api_download_url asset | PublishedStable => browser_download_url asset end.

(** ** Reading the answer *)
Definition wrong_number (token : JsonToken) : GitHubReleaseParseStatus :=
  if bool_decide (type token = JSON_TOKEN_NUMBER) then InvalidValue else WrongType.

(** An identifier member, 0 if it is absent. *)
Definition get_id (json : bytes) (tokens : list JsonToken) (i : Z) : parsed GitHubReleaseParseStatus Z :=
  if i <? 0 then Val 0
  else
    get! t := token_at tokens i in
    get! v := some (get_uint64 json t) (wrong_number t) in
    need (negb (v =? 0)) (wrong_number t) ;! Val v.

Definition copy_ascii (json : bytes) (tokens : list JsonToken) (i output_size : Z)
    : parsed GitHubReleaseParseStatus bytes :=
  get! t := token_at tokens i in
  match CopyUnescapedAsciiString json t output_size with
  | inr v => Val v
  | inl status => Stop (MapCopyStatus status)
  end.

Definition api_url (id : Z) : bytes :=
  str "https://api.github.com" ++ kGitHubReleaseAssetApiPathPrefix ++ decimal_text id.

(** One element of the asset array, at the token [object]. *)
Definition parse_asset (json : bytes) (tokens : list JsonToken) (kind : GitHubReleaseKind) (tag : bytes)
    (earlier : list GitHubReleaseAsset) (object : Z) : parsed GitHubReleaseParseStatus GitHubReleaseAsset :=
  let name_token := member json tokens object (str "name") in
  let id_token := member json tokens object (str "id") in
  let size_token := member json tokens object (str "size") in
  let url_token := member json tokens object (str "browser_download_url") in
  need (negb ((name_token <? 0) || (size_token <? 0) || (url_token <? 0) ||
              (is_draft_kind kind && (id_token <? 0)))) MissingField ;!
  get! id := get_id json tokens id_token in
  get! name := copy_ascii json tokens name_token (kMaximumGitHubAssetNameBytes + 1) in
  need (IsSafeAssetName name) InvalidValue ;!
  get! t := token_at tokens size_token in
  get! size := some (get_uint64 json t) (wrong_number t) in
  get! url := copy_ascii json tokens url_token kMaximumUpdateUrlBytes in
  let api := if id =? 0 then [] else api_url id in
  let output := mkAsset id name size url api in
  need ((id =? 0) || ((len api <? kMaximumUpdateUrlBytes) && ValidateApiAssetUrl output)) UrlBindingMismatch ;!
  need (negb (existsb (fun e => SameName e output) earlier)) DuplicateAssetName ;!
  match ValidateAssetUrlForKind output tag kind with
  | Rejected => Stop UrlRejected
  | BindingMismatch => Stop UrlBindingMismatch
  | AssetUrlOk => Val output
  end.

(** The loop over the tokens after the array's, from index [token_index]. *)
Fixpoint asset_loop (json : bytes) (tokens : list JsonToken) (kind : GitHubReleaseKind) (tag : bytes)
    (array asset_count : Z) (rest : list JsonToken) (token_index : Z) (out : list GitHubReleaseAsset)
    : parsed GitHubReleaseParseStatus (list GitHubReleaseAsset) :=
  match rest with
  | [] => Val out
  | t :: rest' =>
      if asset_count <=? len out then Val out
      else if negb (parent t =? array)
      then asset_loop json tokens kind tag array asset_count rest' (token_index + 1) out
      else if negb (bool_decide (type t = JSON_TOKEN_OBJECT)) then Stop WrongType
      else
        get! asset := parse_asset json tokens kind tag out token_index in
        asset_loop json tokens kind tag array asset_count rest' (token_index + 1) (out ++ [asset])
  end.

Definition get_flag (tokens : list JsonToken) (i : Z) : parsed GitHubReleaseParseStatus bool :=
  get! t := token_at tokens i in some (get_bool t) WrongType.

Definition parse_release (json : bytes) (tokens : list JsonToken) (asset_capacity : Z) (kind : GitHubReleaseKind)
    : parsed GitHubReleaseParseStatus GitHubLatestRelease :=
  let field name := member json tokens 0 (str name) in
  let tag_token := field "tag_name"%string in
  let draft_token := field "draft"%string in
  let prerelease_token := field "prerelease"%string in
  let assets_token := field "assets"%string in
  need (negb ((tag_token <? 0) || (draft_token <? 0) || (prerelease_token <? 0) || (assets_token <? 0) ||
              (is_draft_kind kind && (field "id"%string <? 0)))) MissingField ;!
  get! id := get_id json tokens (field "id"%string) in
  get! tag := copy_ascii json tokens tag_token (kMaximumGitHubReleaseTagBytes + 1) in
  need (IsSafeTag tag) InvalidValue ;!
  get! draft := get_flag tokens draft_token in
  get! prerelease := get_flag tokens prerelease_token in
  get! array := token_at tokens assets_token in
  need (bool_decide (type array = JSON_TOKEN_ARRAY)) WrongType ;!
  need (negb (draft && negb (is_draft_kind kind))) DraftForbidden ;!
  need (negb prerelease) PrereleaseForbidden ;!
  need (negb (is_draft_kind kind && negb draft)) DraftForbidden ;!
  let asset_count := child_count array in
  need (negb (kMaximumGitHubReleaseAssets <? asset_count)) TooManyAssets ;!
  need (negb (asset_capacity <? asset_count)) StorageTooSmall ;!
  get! assets := asset_loop json tokens kind tag assets_token asset_count
                   (drop (S (Z.to_nat assets_token)) tokens) (assets_token + 1) [] in
  need (len assets =? asset_count) JsonInvalid ;!
  Val (mkRelease id tag draft prerelease assets).

Definition ParseGitHubRelease (encoded : bytes) (token_capacity asset_capacity : Z) (kind : GitHubReleaseKind)
    : parsed GitHubReleaseParseStatus GitHubLatestRelease :=
  need (negb (len encoded =? 0)) InvalidArgument ;!
  need (negb (kMaximumGitHubReleaseResponseBytes <? len encoded)) ResponseTooLarge ;!
  need (negb ((token_capacity =? 0) || (asset_capacity =? 0))) StorageTooSmall ;!
  get! r := parse_text encoded token_capacity 32 in
  match r with
  | (JSON_ERROR_TOKEN_LIMIT, _) => Stop StorageTooSmall
  | (JSON_OK, tokens) =>
      match tokens with
      | [] => Stop WrongRootType
      | root :: _ =>
          need (bool_decide (type root = JSON_TOKEN_OBJECT)) WrongRootType ;!
          parse_release encoded tokens asset_capacity kind
      end
  | _ => Stop JsonInvalid
  end.

Definition ParseGitHubLatestRelease (encoded : bytes) (token_capacity asset_capacity : Z)
    : parsed GitHubReleaseParseStatus GitHubLatestRelease :=
  ParseGitHubRelease encoded token_capacity asset_capacity PublishedStable.

Definition GitHubReleaseParseStatusString (status : GitHubReleaseParseStatus) : bytes :=
  match status with
  | Ok => str "ok"
  | InvalidArgument => str "invalid argument"
  | ResponseTooLarge => str "GitHub response too large"
  | StorageTooSmall => str "GitHub parser storage too small"
  | JsonInvalid => str "invalid GitHub JSON"
  | WrongRootType => str "GitHub response root is not an object"
  | MissingField => str "required GitHub field missing"
  | WrongType => str "wrong GitHub field type"
  | InvalidValue => str "invalid GitHub field value"
  | TooManyAssets => str "too many GitHub release assets"
  | DuplicateAssetName => str "duplicate GitHub release asset name"
  | UrlRejected => str "GitHub release asset URL rejected"
  | UrlBindingMismatch => str "GitHub asset URL does not match tag and asset name"
  | DraftForbidden => str "GitHub draft release forbidden"
  | PrereleaseForbidden => str "GitHub prerelease forbidden"
  end.

Definition RequiredGitHubAssetsStatusString (status : RequiredGitHubAssetsStatus) : bytes :=
  match status with
  | AssetsOk => str "ok"
  | AssetsInvalidArgument => str "invalid argument"
  | IneligibleRelease => str "GitHub release is a draft or prerelease"
  | InvalidSignedTag => str "invalid signed release tag"
  | InvalidBoardZipName => str "invalid signed board ZIP name"
  | SignedTagMismatch => str "GitHub and signed manifest tags differ"
  | AssetsTooMany => str "too many GitHub release assets"
  | AssetsDuplicateName => str "duplicate GitHub release asset name"
  | AssetsUrlRejected => str "GitHub release asset URL rejected"
  | AssetsUrlBindingMismatch => str "GitHub asset URL does not match signed tag and name"
  | MissingManifest => str "BMX-RELEASE.json missing"
  | MissingSignature => str "BMX-RELEASE.sig missing"
  | MissingBoardZip => str "signed board ZIP missing"
  end.

(** ** What is accepted *)
(** The address an asset is fetched from names the repository, the tag and the
    asset, and nothing else. *)
Definition bound_url (tag name url : bytes) : Prop := exists port_text, port_text ∈ [[]; str ":443"] /\
  url = kScheme ++ str "github.com" ++ port_text ++ kGitHubReleaseDownloadPathPrefix ++ tag ++ C_SLASH :: name.

Definition asset_ok (kind : GitHubReleaseKind) (tag : bytes) (a : GitHubReleaseAsset) : Prop :=
  IsSafeAssetName (name a) = true /\ 0 <= size a <= UINT64_MAX /\ NUL ∉ browser_download_url a /\
  match kind with
  | PublishedStable => bound_url tag (name a) (browser_download_url a)
  | PreparedDraft => id a <> 0 /\ api_download_url a = api_url (id a)
  end.

Record release_ok (kind : GitHubReleaseKind) (r : GitHubLatestRelease) : Prop := {
  ok_tag : IsSafeTag (tag_name r) = true;
  ok_draft : draft r = is_draft_kind kind;
  ok_prerelease : prerelease r = false;
  ok_count : len (assets r) <= kMaximumGitHubReleaseAssets;
  ok_names : NoDup (name <$> assets r);
  ok_assets : Forall (asset_ok kind (tag_name r)) (assets r);
}.

Lemma split_path (u tag name : bytes) i : index_of C_SLASH u = Some i -> take i u = tag -> drop (S i) u = name ->
  u = tag ++ C_SLASH :: name.
Proof.
  intros Hi <- <-. destruct (index_of_split _ _ _ Hi) as (a & b & -> & <- & _).
  rewrite take_app_length, drop_app_cons_length. done.
Qed.

Lemma ValidateAssetUrl_bound a tag : NUL ∉ browser_download_url a ->
  ValidateAssetUrl a tag = AssetUrlOk -> bound_url tag (name a) (browser_download_url a).
Proof.
  intros Hnul Hv. unfold ValidateAssetUrl in Hv. destruct (_ || _); [done|].
  destruct (ParseAndAuthorizeUpdateUrl _ _ _) as [st q] eqn:Ep. destruct st; try done.
  apply authorized_url_iff in Ep as (host & path & Hacc & ->); [|done]. cbn [path_and_query] in Hv.
  destruct Hacc as (port_text & Hurl & Hport & Hhost & _).
  apply list_elem_of_singleton in Hhost. subst host.
  destruct (starts_with _ path) eqn:Epre; [|done]. apply starts_with_spec in Epre as [u ->]. cbn [negb] in Hv.
  rewrite drop_app_length in Hv. destruct (index_of C_SLASH u) as [i|] eqn:Ei; [|done].
  destruct (_ || _) eqn:Eb in Hv; [done|]. apply orb_false_iff in Eb as [Eb Ename]. apply orb_false_iff in Eb as [_ Etag].
  apply negb_false_iff, bytes_eqb_eq in Ename, Etag. exists port_text. split; [done|].
  rewrite Hurl. by rewrite (split_path u tag (name a) i Ei Etag Ename).
Qed.

Lemma existsb_same_name earlier a : existsb (fun e => SameName e a) earlier = false -> name a ∉ name <$> earlier.
Proof.
  intros He Hin. apply list_elem_of_fmap in Hin as (e & Hn & Hin). apply existsb_Forall_bool in He.
  rewrite Forall_forall in He. specialize (He e Hin). unfold SameName in He. rewrite Hn, bytes_eqb_refl in He. done.
Qed.

Lemma unsafe_no_nul t : existsb unsafe_character t = false -> NUL ∉ t.
Proof.
  intros He Hin. apply existsb_Forall_bool in He. rewrite Forall_forall in He. specialize (He _ Hin). done.
Qed.

Lemma returns_copy_ascii {B} json ts i size (k : bytes -> parsed GitHubReleaseParseStatus B) Q :
  0 <= i < len ts -> (forall v, NUL ∉ v -> returns (k v) Q) -> returns (pbind (copy_ascii json ts i size) k) Q.
Proof.
  intros Hi Hk. unfold copy_ascii. destruct (ts !! Z.to_nat i) as [t|] eqn:Et;
    [|apply lookup_ge_None in Et; unfold len in Hi; lia].
  unfold token_at. rewrite (proj2 (Z.ltb_ge i 0)), Et by lia. cbn [pbind]. unfold CopyUnescapedAsciiString.
  destruct (negb _); [done|]. destruct (_ =? 0); [done|]. destruct (size <=? _); [done|].
  destruct (existsb _ _) eqn:Ee; [done|]. cbn. by apply Hk, unsafe_no_nul.
Qed.

Lemma returns_get_id {B} json ts i (k : Z -> parsed GitHubReleaseParseStatus B) Q : i < len ts ->
  (forall v, (0 <= i -> v <> 0) -> returns (k v) Q) -> returns (pbind (get_id json ts i) k) Q.
Proof.
  intros Hi Hk. unfold get_id. destruct (Z.ltb_spec i 0); [cbn; apply Hk; lia|].
  unfold token_at. rewrite (proj2 (Z.ltb_ge i 0)) by lia. destruct (ts !! Z.to_nat i) as [t|] eqn:Et;
    [|apply lookup_ge_None in Et; unfold len in Hi; lia].
  cbn [pbind]. destruct (get_uint64 json t) as [v|]; [|done]. cbn [some pbind].
  destruct (Z.eqb_spec v 0); [done|]. cbn. by apply Hk.
Qed.

Lemma member_below json ts object n : member json ts object n < Z.max 0 (len ts).
Proof. destruct (member_range json ts object n) as [->|?]; len_facts; lia. Qed.

Ltac found_token := apply member_token; [lia|]; lia.

Lemma parse_asset_ok json ts kind tag earlier object : 0 <= object < len ts ->
  returns (parse_asset json ts kind tag earlier object) (fun a => asset_ok kind tag a /\ name a ∉ name <$> earlier).
Proof.
  intros Ho. unfold parse_asset. apply returns_need. intros Hm. apply negb_true_iff in Hm.
  apply orb_false_iff in Hm as [Hm Hid]. apply orb_false_iff in Hm as [Hm Hurl]. apply orb_false_iff in Hm as [Hname Hsize].
  apply Z.ltb_ge in Hname, Hsize, Hurl.
  apply returns_get_id; [pose proof (member_below json ts object (str "id")); lia|]. intros i Hi.
  apply returns_copy_ascii; [found_token|]. intros n _. apply returns_need. intros Hn.
  apply returns_token; [found_token|]. intros t _. apply returns_some. intros sz Hsz%get_uint64_range.
  apply returns_copy_ascii; [found_token|]. intros url Hnul. apply returns_need. intros Hapi.
  set (out := mkAsset i n sz url _) in *. apply returns_need. intros Hdup%negb_true_iff.
  assert (Hok : ValidateAssetUrlForKind out tag kind = AssetUrlOk -> asset_ok kind tag out /\ name out ∉ name <$> earlier).
  { intros Hv. split; [|by apply existsb_same_name]. split; [done|]. split; [done|]. split; [done|].
    destruct kind; cbn in Hv.
    - by apply (ValidateAssetUrl_bound out tag).
    - destruct (ValidateApiAssetUrl out) eqn:Ea; [|done]. unfold ValidateApiAssetUrl in Ea. cbn in Ea.
      destruct (Z.eqb_spec i 0) as [->|Hne]; [done|]. split; [done|]. unfold out. cbn [api_download_url id]. done. }
  destruct (ValidateAssetUrlForKind out tag kind); try done. by apply Hok.
Qed.

Lemma asset_loop_ok json ts kind tag array count rest : forall i out,
  0 <= i -> i + len rest <= len ts -> 0 <= count ->
  Forall (asset_ok kind tag) out -> NoDup (name <$> out) ->
  returns (asset_loop json ts kind tag array count rest i out)
    (fun l => Forall (asset_ok kind tag) l /\ NoDup (name <$> l)).
Proof.
  induction rest as [|t rest IH]; intros i out Hi Hl Hc Hf Hnd; cbn [asset_loop]; [by split|].
  rewrite len_cons in Hl. pose proof (len_nonneg rest) as Hr.
  destruct (count <=? len out); [by split|]. destruct (negb _); [apply IH; lia || done|].
  destruct (negb _); [done|]. eapply returns_then; [apply parse_asset_ok; lia|]. intros a [Ha Hn].
  apply IH; try lia.
  - apply Forall_app. by split; [|constructor].
  - rewrite fmap_app. apply NoDup_app. split; [done|]. split; [|apply NoDup_singleton].
    cbn. set_solver.
Qed.

Lemma returns_get_flag {B} ts i (k : bool -> parsed GitHubReleaseParseStatus B) Q : 0 <= i < len ts ->
  (forall b, returns (k b) Q) -> returns (pbind (get_flag ts i) k) Q.
Proof.
  intros Hi Hk. unfold get_flag. destruct (ts !! Z.to_nat i) as [t|] eqn:Et;
    [|apply lookup_ge_None in Et; unfold len in Hi; lia].
  unfold token_at. rewrite (proj2 (Z.ltb_ge i 0)), Et by lia. cbn [pbind]. destruct (get_bool t); [apply Hk | done].
Qed.

Lemma parse_release_ok json ts capacity kind : 
  returns (parse_release json ts capacity kind) (release_ok kind).
Proof.
  unfold parse_release. apply returns_need. intros Hm. apply negb_true_iff in Hm.
  apply orb_false_iff in Hm as [Hm _]. apply orb_false_iff in Hm as [Hm Has]. apply orb_false_iff in Hm as [Hm Hpre].
  apply orb_false_iff in Hm as [Htag Hdraft]. apply Z.ltb_ge in Htag, Hdraft, Hpre, Has.
  pose proof (member_token json ts 0 (str "assets") ltac:(lia) Has) as Harr.
  apply returns_get_id; [pose proof (member_below json ts 0 (str "id")); lia|]. intros i _.
  apply returns_copy_ascii; [found_token|]. intros tag _. apply returns_need. intros Ht.
  apply returns_get_flag; [found_token|]. intros dr. apply returns_get_flag; [found_token|]. intros pr.
  apply returns_token; [done|]. intros array _. apply returns_need. intros _.
  apply returns_need. intros Hd1%negb_true_iff. apply returns_need. intros Hp%negb_true_iff.
  apply returns_need. intros Hd2%negb_true_iff. apply returns_need. intros Hc%negb_true_iff%Z.ltb_ge.
  apply returns_need. intros _.
  destruct (Z.le_gt_cases 0 (child_count array)) as [Hpos|Hneg].
  2: { destruct (drop _ ts) as [|t rest] eqn:Ed; cbn [asset_loop];
       [|rewrite (proj2 (Z.leb_le (child_count array) _)) by (change (len (@nil GitHubReleaseAsset)) with 0; lia)];
       cbn [pbind]; apply returns_need; intros Hz%Z.eqb_eq; change (len (@nil GitHubReleaseAsset)) with 0 in Hz; lia. }
  eapply returns_then; [apply asset_loop_ok; [lia| |lia|constructor|constructor]|].
  { unfold len in *. rewrite length_drop. lia. }
  intros l [Hl Hnd]. apply returns_need. intros Hcount%Z.eqb_eq. cbn. constructor; cbn; try done.
  - unfold is_draft_kind in *. destruct kind, dr; cbn in *; done.
  - lia.
Qed.

Lemma ParseGitHubRelease_ok (encoded : bytes) (token_capacity asset_capacity : Z) (kind : GitHubReleaseKind)
    (Hbytes : Forall is_byte encoded) (Hcap : 0 <= token_capacity) :
  returns (ParseGitHubRelease encoded token_capacity asset_capacity kind) (release_ok kind).
Proof.
  unfold ParseGitHubRelease. apply returns_need. intros _. apply returns_need. intros _. apply returns_need. intros _.
  apply returns_parse_text; [done..|]. intros err ts _. destruct err; try done. destruct ts as [|root ts]; [done|].
  apply returns_need. intros _. apply parse_release_ok.
Qed.


(** The loop reports where the wanted names are. *)
Lemma find_loop_found kind tag wanted rest : forall earlier found found' slot i,
  find_loop kind tag wanted earlier rest found = inr found' -> found' !! slot = Some (Some i) ->
  found !! slot = Some (Some i) \/
  exists a, (earlier ++ rest) !! i = Some a /\ wanted !! slot = Some (name a).
Proof.
  induction rest as [|a rest IH]; intros earlier found found' slot i Hf Hs; cbn [find_loop] in Hf.
  { injection Hf as <-. by left. }
  destruct (check_asset _ _ _ _); try discriminate Hf. apply (IH _ _ _ slot i) in Hf; [|done].
  rewrite <- app_assoc in Hf. destruct Hf as [Hf|?]; [|by right].
  destruct (list_find _ wanted) as [[k w]|] eqn:El; [|by left].
  apply list_find_Some in El as (Hk & -> & _).
  destruct (decide (k = slot)) as [->|Hne]; [|rewrite list_lookup_insert_ne in Hf by done; by left].
  right. destruct (decide (slot < length found)%nat) as [Hlt|Hge].
  - rewrite list_lookup_insert_eq in Hf by done. injection Hf as <-. exists a. split; [|done].
    by apply list_lookup_middle.
  - rewrite list_insert_ge in Hf by lia. apply lookup_lt_Some in Hf. lia.
Qed.

(** An asset of that name in the release. *)
Definition is_asset (r : GitHubLatestRelease) (n : bytes) (i : nat) : Prop :=
  exists a, assets r !! i = Some a /\ name a = n.

Lemma find_loop_asset r kind tag wanted found' slot i :
  find_loop kind tag wanted [] (assets r) (replicate (length wanted) None) = inr found' ->
  found' !! slot = Some (Some i) -> exists n, wanted !! slot = Some n /\ is_asset r n i.
Proof.
  intros Hf Hs. apply (find_loop_found _ _ _ _ _ _ _ slot i) in Hf as [Hf|(a & Ha & Hw)]; [|by exists (name a); split; [|exists a]|done].
  by apply lookup_replicate in Hf as [? _].
Qed.

(** What the selection of the required assets means. *)
Record required_ok (r : GitHubLatestRelease) (kind : GitHubReleaseKind) (tag zip : bytes)
    (q : RequiredGitHubReleaseAssets) : Prop := {
  r_eligible : EligibleKind r kind = true;
  r_tag : tag_name r = tag;
  r_zip_name : IsSafeAssetName zip = true /\ zip <> kManifestAssetName /\ zip <> kSignatureAssetName;
  r_manifest : is_asset r kManifestAssetName (required_manifest q);
  r_signature : is_asset r kSignatureAssetName (required_signature q);
  r_board_zip : is_asset r zip (required_board_zip q);
}.

Lemma FindRequiredAssets_ok r kind tag zip q :
  FindRequiredAssetsForKind r kind tag zip = inr q -> required_ok r kind tag zip q.
Proof.
  unfold FindRequiredAssetsForKind. destruct (EligibleKind r kind) eqn:Ee; [|done]. cbn [negb].
  destruct (IsSafeTag tag) eqn:Et; [|done]. cbn [negb].
  destruct (_ || _) eqn:Ez; [done|]. apply orb_false_iff in Ez as [Ez Ez3]. apply orb_false_iff in Ez as [Ez1 Ez2].
  apply negb_false_iff in Ez1. apply bytes_eqb_neq in Ez2, Ez3.
  destruct (negb (IsSafeTag (tag_name r)) || _) eqn:Etag; [done|]. apply orb_false_iff in Etag as [_ Etag].
  apply negb_false_iff, bytes_eqb_eq in Etag. destruct (_ <? _); [done|].
  destruct (find_loop _ _ _ _ _ _) as [st|found] eqn:Ef; [done|].
  destruct found as [|[m|] [|[s|] [|[z|] [|? ?]]]]; try done. intros [= <-].
  pose proof (find_loop_asset r kind tag [kManifestAssetName; kSignatureAssetName; zip]) as Hf.
  specialize (Hf [Some m; Some s; Some z]) as Hf0.
  destruct (Hf0 0%nat m Ef eq_refl) as (n0 & [= <-] & H0). destruct (Hf0 1%nat s Ef eq_refl) as (n1 & [= <-] & H1).
  destruct (Hf0 2%nat z Ef eq_refl) as (n2 & [= <-] & H2). by constructor.
Qed.

Lemma FindReleaseMetadataAssets_ok r kind m :
  FindReleaseMetadataAssetsForKind r kind = inr m ->
  is_asset r kManifestAssetName (metadata_manifest m) /\ is_asset r kSignatureAssetName (metadata_signature m).
Proof.
  unfold FindReleaseMetadataAssetsForKind. destruct (negb _); [done|]. destruct (negb _); [done|]. destruct (_ <? _); [done|].
  destruct (find_loop _ _ _ _ _ _) as [st|found] eqn:Ef; [done|].
  destruct found as [|[a|] [|[b|] [|? ?]]]; try done. intros [= <-].
  pose proof (find_loop_asset r kind (tag_name r) [kManifestAssetName; kSignatureAssetName] [Some a; Some b]) as Hf.
  destruct (Hf 0%nat a Ef eq_refl) as (n0 & [= <-] & H0). by destruct (Hf 1%nat b Ef eq_refl) as (n1 & [= <-] & H1).
Qed.

(** The assets of an update are those that the signed manifest names: on
    success the release carries the signed tag, and the three indices are those
    of assets named BMX-RELEASE.json, BMX-RELEASE.sig and as the signed board
    archive, each bound to the repository as [ParseGitHubRelease] demands. *)
Theorem FindRequiredAssetsForKind_sound r kind tag zip q
    (Hr : release_ok kind r) (Hq : FindRequiredAssetsForKind r kind tag zip = inr q) :
  required_ok r kind tag zip q /\
  forall i, i ∈ [required_manifest q; required_signature q; required_board_zip q] ->
    exists a, assets r !! i = Some a /\ asset_ok kind tag a.
Proof.
  apply FindRequiredAssets_ok in Hq as Hok. split; [done|]. destruct Hok as [_ Htag _ (a1 & H1 & _) (a2 & H2 & _) (a3 & H3 & _)].
  pose proof (ok_assets _ _ Hr) as Ha. rewrite Htag in Ha. intros i Hi.
  assert (exists a, assets r !! i = Some a) as [a Hia].
  { apply elem_of_cons in Hi as [->|Hi]; [by exists a1|]. apply elem_of_cons in Hi as [->|Hi]; [by exists a2|].
    apply list_elem_of_singleton in Hi as ->. by exists a3. }
  exists a. split; [done|]. rewrite Forall_forall in Ha. apply Ha. by eapply list_elem_of_lookup_2.
Qed.

Definition sample_answer : bytes :=
  (fun c => if c =? 39 then QUOTE else c) <$>
  str "{'id':5,'tag_name':'v2','draft':false,'prerelease':false,'assets':[
{'name':'BMX-RELEASE.json','size':10,'browser_download_url':'https://github.com/kdre/bmx/releases/download/v2/BMX-RELEASE.json'},
{'name':'BMX-RELEASE.sig','size':20,'browser_download_url':'https://github.com/kdre/bmx/releases/download/v2/BMX-RELEASE.sig'},
{'id':7,'name':'boot.zip','size':30,'browser_download_url':'https://github.com/kdre/bmx/releases/download/v2/boot.zip'}]}".

Definition sample_release : GitHubLatestRelease :=
  match ParseGitHubRelease sample_answer 64 8 PublishedStable with
  | Val r => r
  | _ => mkRelease 0 [] true true []
  end.


Lemma sample_release_ok : release_ok PublishedStable sample_release.
Proof.
  assert (Hb : Forall is_byte sample_answer) by (vm_compute; repeat constructor; discriminate).
  pose proof (ParseGitHubRelease_ok sample_answer 64 8 PublishedStable Hb ltac:(lia)) as Hr.
  assert (E : ParseGitHubRelease sample_answer 64 8 PublishedStable = Val sample_release) by (vm_compute; reflexivity).
  by rewrite E in Hr.
Qed.

Lemma FindRequiredAssetsForKind_sound_witness :
  let q := mkRequired 0 1 2 in
  required_ok sample_release PublishedStable (str "v2") (str "boot.zip") q /\
  forall i, i ∈ [required_manifest q; required_signature q; required_board_zip q] ->
    exists a, assets sample_release !! i = Some a /\ asset_ok PublishedStable (str "v2") a.
Proof.
  apply (FindRequiredAssetsForKind_sound sample_release PublishedStable (str "v2") (str "boot.zip") (mkRequired 0 1 2)).
  - exact sample_release_ok.
  - vm_compute. reflexivity.
Defined.
