(* ===== verification/ConfigMigration.v ===== *)
(** * Assessing the configuration before an update (src/src/update/config_migration.cpp)

    A snapshot of the configuration files is classified per area against the
    schemas that a signed release declares.  Slices and C strings are their
    contents; a line cursor is what is left to read; detection results are pairs. *)
From S2P Require Import Prelude Sha256 Json JsonFields UpdatePolicy BuildInfo.
From stdpp Require Import sorting.
From Stdlib Require Import Ascii.
Local Open Scope Z_scope.

Definition kConfigMigrationAreaCount : Z := 6.
Definition kMaximumConfigFilesPerArea : Z := 16.
Definition kMaximumConfigPathBytes : Z := 127.
Definition kMaximumConfigFileBytes : Z := 512 * 1024.
Definition kMaximumConfigAreaBytes : Z := 2 * 1024 * 1024.
Definition kMaximumDeclaredConfigMigrations : Z := 64.
Definition kMaximumConfigMigrationIdBytes : Z := 64.
Definition kMaximumConfigLineBytes : Z := 4096.
Definition kMaximumCmdlineBytes : Z := 8192.
Definition kMaximumSettingsEntries : Z := 512.
Definition kBuildInfoTokenCapacity : Z := 512.

Record ConfigFileView := mkFile { path : bytes; content : bytes }.
Record ConfigAreaSnapshot := mkArea { area : ConfigArea; files : list ConfigFileView }.

Record ConfigSchemaRequirement := mkRequirement {
  requirement_area : ConfigArea;
  target_version : Z;
  accepted_versions : list Z;
}.

Record DeclaredConfigMigration := mkMigration {
  migration_id : bytes;
  migration_area : ConfigArea;
  from_version : Z;
  to_version : Z;
  lossy : bool;
}.

Inductive ConfigMigrationRegistryStatus :=
| RegistryValid | RegistryInvalidInput | DuplicateDeclaration | UnknownMigration
| DeclarationMismatch | SchemaMismatch.

Inductive ConfigDetectionDetail := Valid | Missing | UnknownFormat | Corrupt | LimitExceeded.

Inductive ConfigClassification :=
| Compatible | LosslessMigration | ResetRequired | UnknownOrCorrupt | NewerThanTarget.

Inductive ConfigPlanDecision :=
| PlanCompatible | PlanLosslessMigration | PlanResetConfirmationRequired
| BlockedUnknownOrCorrupt | BlockedNewerThanTarget.

#[export] Instance ConfigDetectionDetail_eq_dec : EqDecision ConfigDetectionDetail.
Proof. solve_decision. Defined.
#[export] Instance ConfigClassification_eq_dec : EqDecision ConfigClassification.
Proof. solve_decision. Defined.
#[export] Instance ConfigPlanDecision_eq_dec : EqDecision ConfigPlanDecision.
Proof. solve_decision. Defined.

Record ConfigAreaAssessment := mkAssessment {
  assessed_area : ConfigArea;
  detection : ConfigDetectionDetail;
  source_version : Z;
  assessed_target : Z;
  classification : ConfigClassification;
  source_content_sha256 : bytes;
}.

Record ConfigMigrationPlan := mkPlan {
  areas : list ConfigAreaAssessment;
  decision : ConfigPlanDecision;
  compatible_count : Z;
  migration_count : Z;
  reset_count : Z;
  blocked_count : Z;
}.

Inductive ConfigAssessmentStatus := AssessInvalidInput | RegistryRejected | HashFailed.

Definition kConfigBeginMarker : bytes := str "# BEGIN BMX MANAGED".
Definition kConfigEndMarker : bytes := str "# END BMX MANAGED".
Definition kActiveKernelSelectorInclude : bytes := str "include bmx-active-kernel.txt".
Definition kTextSchemaPrefix : bytes := str "# BMX-SCHEMA ".

(** The compiled migrations: area, versions and whether they lose data. *)
Definition kCompiledMigrations : list DeclaredConfigMigration :=
  [mkMigration (str "machines-v1-to-v2-header") Machines 1 2 false;
   mkMigration (str "config-managed-v1-to-v2-header") ConfigManagedBlock 1 2 false;
   mkMigration (str "cmdline-managed-v1-to-v2-marker") CmdlineManagedKeys 1 2 false;
   mkMigration (str "network-v1-to-v2-marker") Network 1 2 false;
   mkMigration (str "settings-v1-to-v2-header") Settings 1 2 false;
   mkMigration (str "machines-v1-to-v2-reset") Machines 1 2 true;
   mkMigration (str "config-managed-v1-to-v2-reset") ConfigManagedBlock 1 2 true;
   mkMigration (str "cmdline-managed-v1-to-v2-reset") CmdlineManagedKeys 1 2 true;
   mkMigration (str "network-v1-to-v2-reset") Network 1 2 true;
   mkMigration (str "settings-v1-to-v2-reset") Settings 1 2 true;
   mkMigration (str "update-state-v1-to-v2-reset") UpdateState 1 2 true].

Definition AreaIdentifier (a : ConfigArea) : bytes :=
  match a with
  | Machines => str "machines"
  | ConfigManagedBlock => str "config_managed_block"
  | CmdlineManagedKeys => str "cmdline_managed"
  | Network => str "network"
  | Settings => str "settings"
  | UpdateState => str "update_state"
  | ConfigAreaUnknown => str "unknown"
  end.

(** The length, or [maximum + 1] for a longer string. *)
Definition BoundedStringLength (text : bytes) (maximum : Z) : Z := Z.min (len text) (maximum + 1).

Definition is_blank (c : Z) : bool := (c =? SP) || (c =? TAB).
Fixpoint skip_blanks (l : bytes) : bytes :=
  match l with
  | c :: l' => if is_blank c then skip_blanks l' else l
  | [] => []
  end.
Definition TrimAscii (input : bytes) : bytes := rev (skip_blanks (rev (skip_blanks input))).

Definition IsIdentifierByte (c : Z) : bool :=
  is_lower c || is_upper c || is_digit c || (c =? ch "_"%char) || (c =? ch "-"%char) ||
  (c =? ch "."%char) || (c =? ch ":"%char).

Definition IsIdentifier (value : bytes) : bool :=
  negb ((len value =? 0) || (64 <? len value)) && forallb IsIdentifierByte value.

Fixpoint positive_loop (value : bytes) (result : Z) : option Z :=
  match value with
  | [] => Some result
  | c :: value' =>
      if (c <? 48) || (57 <? c) then None
      else
        let digit := c - 48 in
        if (UINT32_MAX - digit) / 10 <? result then None
        else positive_loop value' (result * 10 + digit)
  end.

Definition ParsePositiveDecimal (value : bytes) : option Z :=
  if (len value =? 0) || (10 <? len value) then None
  else match positive_loop value 0 with
       | Some result => if result =? 0 then None else Some result
       | None => None
       end.

Definition safe_text_byte (c : Z) : bool :=
  (c =? LF) || (c =? CR) || (c =? TAB) || negb ((c <? 0x20) || (0x7e <? c)).

Definition IsSafeText (content : bytes) : bool :=
  negb (kMaximumConfigFileBytes <? len content) && forallb safe_text_byte content.

(** ** Lines *)
Inductive NextLineStatus := Line (line rest : bytes) | End | CorruptLine.

Fixpoint until_eol (l : bytes) : bytes * bytes :=
  match l with
  | c :: l' => if (c =? LF) || (c =? CR) then ([], l) else let '(a, b) := until_eol l' in (c :: a, b)
  | [] => ([], [])
  end.

Definition NextLine (rest : bytes) : NextLineStatus :=
  match rest with
  | [] => End
  | _ =>
      let '(line, after) := until_eol rest in
      if kMaximumConfigLineBytes <? len line then CorruptLine
      else match after with
           | [] => Line line []
           | c :: after' =>
               if c =? CR then
                 match after' with
                 | c2 :: after'' => if c2 =? LF then Line line after'' else CorruptLine
                 | [] => CorruptLine
                 end
               else Line line after'
           end
  end.

(** The lines that the calls of [NextLine] give, with what is left at the start
    of each and after it; [None] is a corrupt one, which ends the reading. *)
Fixpoint lines (fuel : nat) (rest : bytes) : list (option (bytes * bytes * bytes)) :=
  match fuel with
  | O => []
  | S fuel' =>
      match NextLine rest with
      | End => []
      | CorruptLine => [None]
      | Line line rest' => Some (rest, line, rest') :: lines fuel' rest'
      end
  end.
Definition all_lines (content : bytes) : list (option (bytes * bytes * bytes)) :=
  lines (S (length content)) content.

Inductive HeaderStatus := NotHeader | HeaderValid (version : Z) | Malformed.

Definition ParseTextSchemaHeader (trimmed : bytes) (expected_area : ConfigArea) : HeaderStatus :=
  if negb (starts_with (str "# BMX-SCHEMA") trimmed) then NotHeader
  else if negb (starts_with kTextSchemaPrefix trimmed) then Malformed
  else
    let rest := drop (length kTextSchemaPrefix) trimmed in
    match index_of (ch "="%char) rest with
    | None | Some O => Malformed
    | Some equals =>
        if negb (bytes_eqb (take equals rest) (AreaIdentifier expected_area)) then Malformed
        else match ParsePositiveDecimal (drop (S equals) rest) with
             | Some version => HeaderValid version
             | None => Malformed
             end
    end.

(** The text before and after the first [=], trimmed. *)
Definition split_equals (line : bytes) : option (bytes * bytes) :=
  match index_of (ch "="%char) line with
  | None | Some O => None
  | Some equals => Some (TrimAscii (take equals line), TrimAscii (drop (S equals) line))
  end.

Definition SplitKeyValue (line : bytes) : option (bytes * bytes) :=
  match split_equals line with
  | Some (key, value) => if IsIdentifier key && negb (len value =? 0) then Some (key, value) else None
  | None => None
  end.

Definition SplitSettingsKeyValue (line : bytes) : option (bytes * bytes) :=
  match split_equals line with
  | Some (key, value) => if IsIdentifier key then Some (key, value) else None
  | None => None
  end.

(** ** Paths and the shape of a snapshot *)
(** The components of [path], from the byte after [current]: every byte
    printable, no component empty or made of dots. *)
Fixpoint component_loop (current rest : bytes) : bool :=
  let bad := (len current =? 0) || bytes_eqb current (str ".") || bytes_eqb current (str "..") in
  match rest with
  | [] => negb bad
  | c :: rest' =>
      if c =? ch "/"%char then if bad then false else component_loop [] rest'
      else if (c <? 0x20) || (0x7e <? c) || (c =? BACKSLASH) then false
      else component_loop (current ++ [c]) rest'
  end.

Definition IsSafeRelativePath (path : bytes) : bool :=
  let size := BoundedStringLength path kMaximumConfigPathBytes in
  if (size =? 0) || (kMaximumConfigPathBytes <? size) || (byte_at path 0 =? ch "/"%char) ||
     (byte_at path (size - 1) =? ch "/"%char)
  then false else component_loop [] path.

Definition IsSettingsPath (path : bytes) : bool :=
  let size := len path in
  let prefix := str "settings" in
  let suffix := str ".txt" in
  if (size <? len prefix + len suffix) || negb (starts_with prefix path) ||
     negb (bytes_eqb (sub path (size - len suffix) (len suffix)) suffix)
  then false
  else forallb (fun c => is_lower c || is_upper c || is_digit c || (c =? ch "-"%char) || (c =? ch "_"%char))
         (sub path (len prefix) (size - len suffix - len prefix)).

Definition PathBelongsToArea (a : ConfigArea) (path : bytes) : bool :=
  if negb (IsSafeRelativePath path) then false
  else
    let eq name := bytes_eqb path (str name) in
    match a with
    | Machines => eq "machines.ini"%string || eq "machines.defaults.ini"%string || eq "machines.local.ini"%string
    | ConfigManagedBlock => eq "config.txt"%string
    | CmdlineManagedKeys | Network => eq "cmdline.txt"%string
    | Settings => IsSettingsPath path
    | UpdateState => eq "BMX-BUILD.json"%string
    | ConfigAreaUnknown => false
    end.

Fixpoint shape_loop (a : ConfigArea) (total : Z) (earlier rest : list ConfigFileView) : bool :=
  match rest with
  | [] => true
  | file :: rest' =>
      if negb (PathBelongsToArea a (path file)) || (kMaximumConfigFileBytes <? len (content file)) ||
         (kMaximumConfigAreaBytes - len (content file) <? total)
      then false
      else if existsb (fun e => bytes_eqb (path e) (path file)) earlier then false
      else shape_loop a (total + len (content file)) (earlier ++ [file]) rest'
  end.

Definition ValidateAreaSnapshotShape (s : ConfigAreaSnapshot) : bool :=
  if negb (IsKnownConfigArea (area s)) || (kMaximumConfigFilesPerArea <? len (files s)) then false
  else shape_loop (area s) 0 [] (files s).

Definition FindArea (snapshot : list ConfigAreaSnapshot) (a : ConfigArea) : option ConfigAreaSnapshot :=
  find (fun s => bool_decide (area s = a)) snapshot.

Fixpoint full_loop (seen : list ConfigArea) (rest : list ConfigAreaSnapshot) : bool :=
  match rest with
  | [] => true
  | s :: rest' =>
      if bool_decide (area s = ConfigAreaUnknown) || bool_decide (area s ∈ seen) ||
         negb (ValidateAreaSnapshotShape s)
      then false else full_loop (area s :: seen) rest'
  end.

(** [ValidateFullSnapshot]; that no area is missing follows. *)
Definition ValidateFullSnapshot (snapshot : list ConfigAreaSnapshot) : bool :=
  (len snapshot =? kConfigMigrationAreaCount) && full_loop [] snapshot &&
  forallb (fun a => existsb (fun s => bool_decide (area s = a)) snapshot) all_areas.

(** ** The digest of an area *)
Definition WriteBigEndian16 (value : Z) : bytes := [u8 (Z.shiftr value 8); u8 value].
Definition WriteBigEndian64 (value : Z) : bytes :=
  (fun i => u8 (Z.shiftr value (8 * (7 - Z.of_nat i)))) <$> seq 0 8.

(** The numbers of the areas. *)
Definition area_id (a : ConfigArea) : Z :=
  match a with
  | ConfigAreaUnknown => 0 | Machines => 1 | ConfigManagedBlock => 2 | CmdlineManagedKeys => 3
  | Network => 4 | Settings => 5 | UpdateState => 6
  end.

Definition kAreaMagic : bytes := str "BMX-CFG-AREA-V1" ++ [NUL].

(** A step of the insertion sort: [value] moves down from the end of the sorted
    part, which is given last file first. *)
Fixpoint insert_back (value : ConfigFileView) (sorted_back : list ConfigFileView) : list ConfigFileView :=
  match sorted_back with
  | [] => [value]
  | f :: sorted' =>
      match strcmp (path f) (path value) with
      | Gt => f :: insert_back value sorted'
      | _ => value :: sorted_back
      end
  end.
Definition sort_files (l : list ConfigFileView) : list ConfigFileView :=
  rev (fold_left (fun sorted_back value => insert_back value sorted_back) l []).

Fixpoint update_all (hash : Sha256) (pieces : list bytes) : option Sha256 :=
  match pieces with
  | [] => Some hash
  | piece :: pieces' =>
      let '(ok, hash) := Update hash piece in if ok then update_all hash pieces' else None
  end.

Definition file_pieces (file : ConfigFileView) : list bytes :=
  [WriteBigEndian16 (u16 (len (path file))); path file; WriteBigEndian64 (u64 (len (content file))); content file].

Definition HashAreaSnapshot (s : ConfigAreaSnapshot) : option bytes :=
  match update_all Reset ([kAreaMagic; [u8 (area_id (area s))]; [u8 (len (files s))]] ++
                          concat (file_pieces <$> sort_files (files s))) with
  | Some hash => (Final hash).1
  | None => None
  end.

(** ** The registry of migrations *)
Definition FindCompiledMigration (id : bytes) : option DeclaredConfigMigration :=
  let size := BoundedStringLength id kMaximumConfigMigrationIdBytes in
  if (size =? 0) || (kMaximumConfigMigrationIdBytes <? size) then None
  else find (fun m => bytes_eqb (migration_id m) id) kCompiledMigrations.

Fixpoint versions_distinct (earlier rest : list Z) : bool :=
  match rest with
  | [] => true
  | v :: rest' => if bool_decide (v ∈ earlier) then false else versions_distinct (v :: earlier) rest'
  end.

Definition RequirementIsValid (r : ConfigSchemaRequirement) : bool :=
  if negb (IsKnownConfigArea (requirement_area r)) || (target_version r =? 0) ||
     (len (accepted_versions r) =? 0) || (32 <? len (accepted_versions r))
  then false
  else if negb (versions_distinct [] (accepted_versions r)) then false
  else bool_decide (target_version r ∈ accepted_versions r).

Definition FindRequirement (requirements : list ConfigSchemaRequirement) (a : ConfigArea)
    : option ConfigSchemaRequirement :=
  find (fun r => bool_decide (requirement_area r = a)) requirements.

Definition VersionIsAccepted (r : ConfigSchemaRequirement) (version : Z) : bool :=
  existsb (fun v => v =? version) (accepted_versions r).

Fixpoint requirements_loop (seen : list ConfigArea) (rest : list ConfigSchemaRequirement) : bool :=
  match rest with
  | [] => true
  | r :: rest' =>
      if negb (RequirementIsValid r) || bool_decide (requirement_area r = ConfigAreaUnknown) ||
         bool_decide (requirement_area r ∈ seen)
      then false else requirements_loop (requirement_area r :: seen) rest'
  end.

Definition same_declaration (a b : DeclaredConfigMigration) : bool :=
  bytes_eqb (migration_id a) (migration_id b) ||
  (bool_decide (migration_area a = migration_area b) && (from_version a =? from_version b) &&
   (to_version a =? to_version b)).

(** One declaration, with those before it. *)
Definition check_declaration (requirements : list ConfigSchemaRequirement)
    (earlier : list DeclaredConfigMigration) (d : DeclaredConfigMigration) : ConfigMigrationRegistryStatus :=
  let size := BoundedStringLength (migration_id d) kMaximumConfigMigrationIdBytes in
  if (size =? 0) || (kMaximumConfigMigrationIdBytes <? size) || negb (IsKnownConfigArea (migration_area d)) ||
     (from_version d =? 0) || (to_version d =? 0) || (from_version d =? to_version d)
  then RegistryInvalidInput
  else if existsb (fun e => same_declaration e d) earlier then DuplicateDeclaration
  else match FindCompiledMigration (migration_id d) with
  | None => UnknownMigration
  | Some compiled =>
      if negb (bool_decide (migration_area compiled = migration_area d)) ||
         negb (from_version compiled =? from_version d) || negb (to_version compiled =? to_version d) ||
         negb (Bool.eqb (lossy compiled) (lossy d))
      then DeclarationMismatch
      else match FindRequirement requirements (migration_area d) with
      | None => SchemaMismatch
      | Some requirement =>
          if negb (target_version requirement =? to_version d) || VersionIsAccepted requirement (from_version d)
          then SchemaMismatch else RegistryValid
      end
  end.

Fixpoint declarations_loop (requirements : list ConfigSchemaRequirement)
    (earlier rest : list DeclaredConfigMigration) : ConfigMigrationRegistryStatus :=
  match rest with
  | [] => RegistryValid
  | d :: rest' =>
      match check_declaration requirements earlier d with
      | RegistryValid => declarations_loop requirements (earlier ++ [d]) rest'
      | status => status
      end
  end.

Definition ValidateConfigMigrationDeclarations (requirements : list ConfigSchemaRequirement)
    (migrations : list DeclaredConfigMigration) : ConfigMigrationRegistryStatus :=
  if negb (len requirements =? kConfigMigrationAreaCount) ||
     (kMaximumDeclaredConfigMigrations <? len migrations)
  then RegistryInvalidInput
  else if negb (requirements_loop [] requirements) then RegistryInvalidInput
  else declarations_loop requirements [] migrations.

(** ** Recognising the version of each area *)
Notation DetectionResult := (ConfigDetectionDetail * Z)%type.
Definition Detected (detail : ConfigDetectionDetail) (version : Z) : DetectionResult := (detail, version).

(** *** machines.ini *)
Record MachinesState := mkMachines {
  format_version : option Z;
  machines_header : option Z;
  section_seen : bool;
  video_seen : bool;
  machine_seen : bool;
}.

Definition is_section_kind (kind : bytes) : bool :=
  bytes_eqb kind (str "video") || bytes_eqb kind (str "scaling") || bytes_eqb kind (str "machine").

(** A line in brackets: the kind and name of a section. *)
Definition machines_section (line : bytes) (s : MachinesState) : ConfigDetectionDetail + MachinesState :=
  if (len line <? 4) || negb (byte_at line (len line - 1) =? ch "]"%char) then inl Corrupt
  else
    let inside := sub line 1 (len line - 2) in
    match list_find (fun c => is_blank c = true) inside with
    | None | Some (O, _) => inl Corrupt
    | Some (separator, _) =>
        let kind := take separator inside in
        let identifier := TrimAscii (drop (S separator) inside) in
        if negb (is_section_kind kind) || negb (IsIdentifier identifier) ||
           negb (bool_decide (is_Some (format_version s)))
        then inl UnknownFormat
        else inr (mkMachines (format_version s) (machines_header s) true
                    (video_seen s || bytes_eqb kind (str "video"))
                    (machine_seen s || bytes_eqb kind (str "machine")))
    end.

Definition machines_line (raw : bytes) (s : MachinesState) : ConfigDetectionDetail + MachinesState :=
  match TrimAscii raw with
  | [] => inr s
  | (c :: _) as line =>
      match ParseTextSchemaHeader line Machines with
      | Malformed => inl Corrupt
      | HeaderValid version =>
          match machines_header s with
          | Some _ => inl Corrupt
          | None => inr (mkMachines (format_version s) (Some version) (section_seen s) (video_seen s) (machine_seen s))
          end
      | NotHeader =>
          if c =? ch "#"%char then inr s
          else if c =? ch "["%char then machines_section line s
          else match SplitKeyValue line with
          | None => inl Corrupt
          | Some (key, value) =>
              if section_seen s then inr s
              else if negb (bytes_eqb key (str "format")) || bool_decide (is_Some (format_version s))
              then inl UnknownFormat
              else match ParsePositiveDecimal value with
                   | Some v => inr (mkMachines (Some v) (machines_header s) (section_seen s) (video_seen s) (machine_seen s))
                   | None => inl UnknownFormat
                   end
          end
      end
  end.

Fixpoint machines_lines (l : list (option (bytes * bytes * bytes))) (s : MachinesState)
    : ConfigDetectionDetail + MachinesState :=
  match l with
  | [] => inr s
  | None :: _ => inl Corrupt
  | Some (_, raw, _) :: l' =>
      match machines_line raw s with inl detail => inl detail | inr s => machines_lines l' s end
  end.

(** The version of one file. *)
Definition machines_file (file : ConfigFileView) : ConfigDetectionDetail + Z :=
  if negb (IsSafeText (content file)) then inl Corrupt
  else match machines_lines (all_lines (content file)) (mkMachines None None false false false) with
  | inl detail => inl detail
  | inr s =>
      match format_version s with
      | Some format =>
          if negb (video_seen s) || negb (machine_seen s) then inl UnknownFormat
          else match machines_header s with
               | Some header => if negb (format =? 1) && negb (format =? header) then inl Corrupt else inr header
               | None => inr format
               end
      | None => inl UnknownFormat
      end
  end.

(** The files must agree on one version. *)
Fixpoint aggregate (version_of : ConfigFileView -> ConfigDetectionDetail + Z) (l : list ConfigFileView) (aggregate_version : Z)
    : ConfigDetectionDetail + Z :=
  match l with
  | [] => inr aggregate_version
  | file :: l' =>
      match version_of file with
      | inl detail => inl detail
      | inr version =>
          let aggregate_version := if aggregate_version =? 0 then version else aggregate_version in
          if negb (aggregate_version =? version) then inl Corrupt
          else aggregate version_of l' aggregate_version
      end
  end.

Definition DetectMachines (s : ConfigAreaSnapshot) : DetectionResult :=
  match files s with
  | [] => Detected Missing 0
  | _ =>
      match aggregate machines_file (files s) 0 with
      | inl detail => Detected detail 0
      | inr version =>
          if existsb (fun f => bytes_eqb (path f) (str "machines.ini")) (files s)
          then Detected Valid version else Detected UnknownFormat 0
      end
  end.

(** *** The managed block of config.txt *)
Definition known_config_keys : list bytes :=
  str <$> ["kernel"; "disable_overscan"; "sdtv_mode"; "hdmi_group"; "hdmi_group:0"; "hdmi_mode";
    "hdmi_mode:0"; "hdmi_timings"; "hdmi_cvt"; "enable_dpi_lcd"; "display_default_lcd"; "dpi_group";
    "dpi_mode"; "dpi_timings"; "dpi_output_format"; "arm_freq"; "core_freq"; "v3d_freq";
    "over_voltage_delta"; "temp_limit"]%string.
Definition IsKnownConfigManagedKey (key : bytes) : bool := existsb (bytes_eqb key) known_config_keys.

Record BlockState := mkBlock {
  begin_seen : option Z;
  end_seen : option Z;
  block_header : bool;
  selector_include_seen : bool;
  block_version : Z;
  block_keys : list bytes;
}.

Definition block_line (line_start next_offset : Z) (raw : bytes) (s : BlockState)
    : ConfigDetectionDetail + BlockState :=
  let line := TrimAscii raw in
  let inside := bool_decide (is_Some (begin_seen s)) && negb (bool_decide (is_Some (end_seen s))) in
  if bytes_eqb line kConfigBeginMarker then
    if bool_decide (is_Some (begin_seen s)) || bool_decide (is_Some (end_seen s)) then inl Corrupt
    else inr (mkBlock (Some next_offset) (end_seen s) (block_header s) (selector_include_seen s)
                (block_version s) (block_keys s))
  else if bytes_eqb line kConfigEndMarker then
    if negb inside then inl Corrupt
    else inr (mkBlock (begin_seen s) (Some line_start) (block_header s) (selector_include_seen s)
                (block_version s) (block_keys s))
  else match ParseTextSchemaHeader line ConfigManagedBlock with
  | Malformed => inl Corrupt
  | HeaderValid version =>
      if negb inside || block_header s then inl Corrupt
      else inr (mkBlock (begin_seen s) (end_seen s) true (selector_include_seen s) version (block_keys s))
  | NotHeader =>
      if negb inside || (len line =? 0) || (byte_at line 0 =? ch "#"%char) then inr s
      else if bytes_eqb line kActiveKernelSelectorInclude then
        if selector_include_seen s then inl Corrupt
        else inr (mkBlock (begin_seen s) (end_seen s) (block_header s) true (block_version s) (block_keys s))
      else match SplitKeyValue line with
      | Some (key, _) =>
          if negb (IsKnownConfigManagedKey key) || (64 <=? len (block_keys s)) then inl UnknownFormat
          else if bool_decide (key ∈ block_keys s) then inl Corrupt
          else inr (mkBlock (begin_seen s) (end_seen s) (block_header s) (selector_include_seen s)
                      (block_version s) (block_keys s ++ [key]))
      | None => inl UnknownFormat
      end
  end.

Fixpoint block_lines (size : Z) (l : list (option (bytes * bytes * bytes))) (s : BlockState)
    : ConfigDetectionDetail + BlockState :=
  match l with
  | [] => inr s
  | None :: _ => inl Corrupt
  | Some (rest, raw, rest') :: l' =>
      match block_line (size - len rest) (size - len rest') raw s with
      | inl detail => inl detail
      | inr s => block_lines size l' s
      end
  end.

(** The result and, when it is valid, the bounds of the block. *)
Definition DetectConfigBlock (a : ConfigAreaSnapshot) : DetectionResult * option (Z * Z) :=
  match files a with
  | [] => (Detected Missing 0, None)
  | [file] =>
      if negb (bytes_eqb (path file) (str "config.txt")) || negb (IsSafeText (content file))
      then (Detected Corrupt 0, None)
      else match block_lines (len (content file)) (all_lines (content file)) (mkBlock None None false false 1 []) with
      | inl detail => (Detected detail 0, None)
      | inr s =>
          match begin_seen s, end_seen s with
          | Some inner_start, Some inner_end =>
              if len (block_keys s) =? 0 then (Detected UnknownFormat 0, None)
              else (Detected Valid (block_version s), Some (inner_start, inner_end))
          | _, _ => (Detected UnknownFormat 0, None)
          end
      end
  | _ => (Detected Corrupt 0, None)
  end.

(** *** cmdline.txt *)
Definition machine_cmdline_keys : list bytes :=
  str <$> ["fast"; "pi4kms"; "pi5kms"; "framebuffer_depth"; "bmx_video_mode"; "cycles_per_refresh";
    "cycles_per_second"; "machine_timing"; "audio_out"; "enable_dpi"; "hdmi_group"; "hdmi_mode";
    "pi5kms_timings"; "scaling_params"; "scaling_params2"; "raster_skip"; "raster_skip2";
    "bmx_schema_cmdline_managed"]%string.
Definition network_cmdline_keys : list bytes :=
  str <$> ["network"; "network_dhcp"; "network_ip"; "network_netmask"; "network_gateway"; "network_dns";
    "network_ssid"; "network_psk"; "network_country"; "network_wait_ms"; "network_test_host";
    "network_test_port"; "rs232net"; "rs232net_mode"; "rs232net_interface"; "rs232net_target";
    "rs232net_phonebook"; "rs232net_baud"; "rs232net_ip232"; "rs232net_hayes_audio";
    "rs232net_ascii_case"; "bmx_schema_network"]%string.
Definition IsKnownMachineCmdlineKey (key : bytes) : bool := existsb (bytes_eqb key) machine_cmdline_keys.
Definition IsKnownNetworkCmdlineKey (key : bytes) : bool := existsb (bytes_eqb key) network_cmdline_keys.

Definition KeyBelongsToCmdlineArea (a : ConfigArea) (key : bytes) : bool :=
  if bool_decide (a = CmdlineManagedKeys) then IsKnownMachineCmdlineKey key else IsKnownNetworkCmdlineKey key.

Definition CmdlineSchemaKey (a : ConfigArea) : bytes :=
  if bool_decide (a = CmdlineManagedKeys) then str "bmx_schema_cmdline_managed" else str "bmx_schema_network".

Record CmdlineToken := mkCmdlineToken { token : bytes; key : bytes; value : option bytes }.
Record CmdlineParseResult := mkCmdline {
  tokens : list CmdlineToken;
  first_line_end : Z;
  schema_version : Z;
}.

(** The words of a line, between blanks. *)
Fixpoint words (current line : bytes) : list bytes :=
  let flush l := match current with [] => l | _ => current :: l end in
  match line with
  | [] => flush []
  | c :: line' => if is_blank c then flush (words [] line') else words (current ++ [c]) line'
  end.

Definition cmdline_token (word : bytes) : option CmdlineToken :=
  let t :=
    match index_of (ch "="%char) word with
    | None => Some (mkCmdlineToken word word None)
    | Some O => None
    | Some equals =>
        if len word <=? Z.of_nat equals + 1 then None
        else Some (mkCmdlineToken word (take equals word) (Some (drop (S equals) word)))
    end in
  match t with
  | Some t => if IsIdentifier (key t) then Some t else None
  | None => None
  end.

(** The loop over the words; the marker that has been seen is [schema]. *)
Fixpoint cmdline_words (a : ConfigArea) (l : list bytes) (schema : option Z) (out : list CmdlineToken)
    : ConfigDetectionDetail + (option Z * list CmdlineToken) :=
  match l with
  | [] => inr (schema, out)
  | word :: l' =>
      if 128 <=? len out then inl LimitExceeded
      else match cmdline_token word with
      | None => inl Corrupt
      | Some t =>
          let marker :=
            match value t with
            | Some v =>
                if bytes_eqb (key t) (CmdlineSchemaKey a) then
                  match schema, ParsePositiveDecimal v with
                  | None, Some marker => Some (Some marker)
                  | _, _ => None
                  end
                else Some schema
            | None => Some schema
            end in
          match marker with
          | None => inl Corrupt
          | Some schema =>
              if KeyBelongsToCmdlineArea a (key t) &&
                 (negb (bool_decide (is_Some (value t))) ||
                  existsb (fun e => KeyBelongsToCmdlineArea a (key e) && bytes_eqb (key e) (key t)) out)
              then inl Corrupt
              else cmdline_words a l' schema (out ++ [t])
          end
      end
  end.

(** Lines after the first must be blank or comments. *)
Fixpoint comment_lines (l : list (option (bytes * bytes * bytes))) : option ConfigDetectionDetail :=
  match l with
  | [] => None
  | None :: _ => Some Corrupt
  | Some (_, raw, _) :: l' =>
      match TrimAscii raw with
      | [] => comment_lines l'
      | c :: _ => if negb (c =? ch "#"%char) then Some UnknownFormat else comment_lines l'
      end
  end.

(** What follows the first line. *)
Definition after_first (after : bytes) : option bytes :=
  match after with
  | [] => Some []
  | c :: after' =>
      if c =? CR then
        match after' with
        | c2 :: after'' => if c2 =? LF then Some after'' else None
        | [] => None
        end
      else Some after'
  end.

Definition ParseCmdline (s : ConfigAreaSnapshot) (assessed : ConfigArea)
    : DetectionResult * option CmdlineParseResult :=
  match files s with
  | [] => (Detected Missing 0, None)
  | [file] =>
      if negb (bytes_eqb (path file) (str "cmdline.txt")) || (kMaximumCmdlineBytes <? len (content file)) ||
         negb (IsSafeText (content file))
      then (Detected Corrupt 0, None)
      else
        let '(first, after) := until_eol (content file) in
        if kMaximumConfigLineBytes <? len first then (Detected LimitExceeded 0, None)
        else match after_first after with
        | None => (Detected Corrupt 0, None)
        | Some suffix =>
            match comment_lines (all_lines suffix) with
            | Some detail => (Detected detail 0, None)
            | None =>
                match cmdline_words assessed (words [] first) None [] with
                | inl detail => (Detected detail 0, None)
                | inr (schema, out) =>
                    let version := match schema with Some v => v | None => 1 end in
                    (Detected Valid version, Some (mkCmdline out (len first) version))
                end
            end
        end
  | _ => (Detected Corrupt 0, None)
  end.

(** *** The settings files *)
Definition settings_line (raw : bytes) (header : option Z) (keys : list bytes)
    : ConfigDetectionDetail + (option Z * list bytes) :=
  match TrimAscii raw with
  | [] => inr (header, keys)
  | (c :: _) as line =>
      match ParseTextSchemaHeader line Settings with
      | Malformed => inl Corrupt
      | HeaderValid version =>
          match header with Some _ => inl Corrupt | None => inr (Some version, keys) end
      | NotHeader =>
          if (c =? ch "#"%char) || (c =? ch ";"%char) then inr (header, keys)
          else match SplitSettingsKeyValue line with
          | None => inl UnknownFormat
          | Some (key, _) =>
              if kMaximumSettingsEntries <=? len keys then inl LimitExceeded
              else if bool_decide (key ∈ keys) then inl Corrupt
              else inr (header, keys ++ [key])
          end
      end
  end.

Fixpoint settings_lines (l : list (option (bytes * bytes * bytes))) (header : option Z) (keys : list bytes)
    : ConfigDetectionDetail + option Z :=
  match l with
  | [] => inr header
  | None :: _ => inl Corrupt
  | Some (_, raw, _) :: l' =>
      match settings_line raw header keys with
      | inl detail => inl detail
      | inr (header, keys) => settings_lines l' header keys
      end
  end.

Definition settings_file (file : ConfigFileView) : ConfigDetectionDetail + Z :=
  if negb (IsSafeText (content file)) then inl Corrupt
  else match settings_lines (all_lines (content file)) None [] with
       | inl detail => inl detail
       | inr (Some version) => inr version
       | inr None => inr 1
       end.

Definition DetectSettings (s : ConfigAreaSnapshot) : DetectionResult :=
  match files s with
  | [] => Detected Missing 0
  | _ =>
      match aggregate settings_file (files s) 0 with
      | inl detail => Detected detail 0
      | inr version => Detected Valid version
      end
  end.

(** *** BMX-BUILD.json *)
Definition DetectUpdateState (s : ConfigAreaSnapshot) : DetectionResult :=
  match files s with
  | [] => Detected Missing 0
  | _ =>
      match filter (fun f => path f = str "BMX-BUILD.json") (files s) with
      | [] => Detected UnknownFormat 0
      | [build] =>
          match ParseBuildInfo (content build) kBuildInfoTokenCapacity with
          | Val info =>
              match find (fun v => bool_decide (schema_area v = UpdateState)) (schemas info) with
              | Some v => if BuildInfo.schema_version v =? 0 then Detected Corrupt 0
                          else Detected Valid (BuildInfo.schema_version v)
              | None => Detected Corrupt 0
              end
          | Stop StorageTooSmall => Detected LimitExceeded 0
          | _ => Detected Corrupt 0
          end
      | _ => Detected Corrupt 0
      end
  end.

Definition DetectArea (s : ConfigAreaSnapshot) : DetectionResult :=
  match area s with
  | Machines => DetectMachines s
  | ConfigManagedBlock => (DetectConfigBlock s).1
  | CmdlineManagedKeys | Network => (ParseCmdline s (area s)).1
  | Settings => DetectSettings s
  | UpdateState => DetectUpdateState s
  | ConfigAreaUnknown => Detected Corrupt 0
  end.

(** ** The assessment *)
Definition FindDeclaredMigration (migrations : list DeclaredConfigMigration) (a : ConfigArea) (from to : Z)
    : option DeclaredConfigMigration :=
  find (fun m => bool_decide (migration_area m = a) && (from_version m =? from) && (to_version m =? to)) migrations.

Definition classify (requirement : ConfigSchemaRequirement) (migrations : list DeclaredConfigMigration)
    (a : ConfigArea) (detected : DetectionResult) : ConfigClassification :=
  let '(detail, version) := detected in
  if bool_decide (detail = Valid) || bool_decide (detail = Missing) then
    if target_version requirement <? version then NewerThanTarget
    else if VersionIsAccepted requirement version then Compatible
    else match FindDeclaredMigration migrations a version (target_version requirement) with
         | None => UnknownOrCorrupt
         | Some migration => if lossy migration then ResetRequired else LosslessMigration
         end
  else UnknownOrCorrupt.

(** The area's assessment, or the status with which the whole ends. *)
Definition assess_area (snapshot : list ConfigAreaSnapshot) (requirements : list ConfigSchemaRequirement)
    (migrations : list DeclaredConfigMigration) (a : ConfigArea) : ConfigAssessmentStatus + ConfigAreaAssessment :=
  match FindArea snapshot a, FindRequirement requirements a with
  | Some source, Some requirement =>
      let detected := DetectArea source in
      match HashAreaSnapshot source with
      | None => inl HashFailed
      | Some digest =>
          inr (mkAssessment a detected.1 detected.2 (target_version requirement)
                 (classify requirement migrations a detected) digest)
      end
  | _, _ => inl AssessInvalidInput
  end.

Fixpoint assess_areas (snapshot : list ConfigAreaSnapshot) (requirements : list ConfigSchemaRequirement)
    (migrations : list DeclaredConfigMigration) (l : list ConfigArea)
    : ConfigAssessmentStatus + list ConfigAreaAssessment :=
  match l with
  | [] => inr []
  | a :: l' =>
      match assess_area snapshot requirements migrations a with
      | inl status => inl status
      | inr assessment =>
          match assess_areas snapshot requirements migrations l' with
          | inl status => inl status
          | inr assessments => inr (assessment :: assessments)
          end
      end
  end.

(** One step of [RecomputePlanDecision] on the decision and the four counts. *)
Definition recompute_step (p : ConfigMigrationPlan) (c : ConfigClassification) : ConfigMigrationPlan :=
  match c with
  | Compatible => mkPlan (areas p) (decision p) (compatible_count p + 1) (migration_count p) (reset_count p) (blocked_count p)
  | LosslessMigration =>
      mkPlan (areas p) (if bool_decide (decision p = PlanCompatible) then PlanLosslessMigration else decision p)
        (compatible_count p) (migration_count p + 1) (reset_count p) (blocked_count p)
  | ResetRequired =>
      mkPlan (areas p)
        (if negb (bool_decide (decision p = BlockedUnknownOrCorrupt)) && negb (bool_decide (decision p = BlockedNewerThanTarget))
         then PlanResetConfirmationRequired else decision p)
        (compatible_count p) (migration_count p) (reset_count p + 1) (blocked_count p)
  | UnknownOrCorrupt =>
      mkPlan (areas p) (if negb (bool_decide (decision p = BlockedNewerThanTarget)) then BlockedUnknownOrCorrupt else decision p)
        (compatible_count p) (migration_count p) (reset_count p) (blocked_count p + 1)
  | NewerThanTarget =>
      mkPlan (areas p) BlockedNewerThanTarget (compatible_count p) (migration_count p) (reset_count p) (blocked_count p + 1)
  end.

Definition RecomputePlanDecision (l : list ConfigAreaAssessment) : ConfigMigrationPlan :=
  fold_left recompute_step (classification <$> l) (mkPlan l PlanCompatible 0 0 0 0).

(** [Val] is the status [Ok]. *)
Definition AssessConfigSnapshot (snapshot : list ConfigAreaSnapshot) (requirements : list ConfigSchemaRequirement)
    (migrations : list DeclaredConfigMigration) : parsed ConfigAssessmentStatus ConfigMigrationPlan :=
  if negb (ValidateFullSnapshot snapshot) then Stop AssessInvalidInput
  else match ValidateConfigMigrationDeclarations requirements migrations with
  | RegistryValid =>
      match assess_areas snapshot requirements migrations all_areas with
      | inl status => Stop status
      | inr assessments => Val (RecomputePlanDecision assessments)
      end
  | _ => Stop RegistryRejected
  end.

Definition ConfigAssessmentStatusString (status : option ConfigAssessmentStatus) : bytes :=
  match status with
  | None => str "ok"
  | Some AssessInvalidInput => str "invalid input"
  | Some RegistryRejected => str "signed migration declarations rejected"
  | Some HashFailed => str "configuration snapshot hash failed"
  end.

(** ** Lemmas on the digest *)
Definition area_text (s : ConfigAreaSnapshot) : bytes :=
  concat ([kAreaMagic; [u8 (area_id (area s))]; [u8 (len (files s))]] ++
          concat (file_pieces <$> sort_files (files s))).

(** What [ValidateAreaSnapshotShape] checks, without its loop. *)
Record well_shaped (s : ConfigAreaSnapshot) : Prop := {
  shape_area : IsKnownConfigArea (area s) = true;
  shape_count : len (files s) <= 16;
  shape_paths : Forall (fun f => PathBelongsToArea (area s) (path f) = true) (files s);
  shape_sizes : Forall (fun f => len (content f) <= kMaximumConfigFileBytes) (files s);
  shape_total : len (concat (content <$> files s)) <= kMaximumConfigAreaBytes;
  shape_distinct : NoDup (path <$> files s);
}.

Lemma shape_loop_spec a rest : forall total earlier, 0 <= total <= kMaximumConfigAreaBytes ->
  shape_loop a total earlier rest = true <->
  Forall (fun f => PathBelongsToArea a (path f) = true) rest /\
  Forall (fun f => len (content f) <= kMaximumConfigFileBytes) rest /\
  total + len (concat (content <$> rest)) <= kMaximumConfigAreaBytes /\
  NoDup (path <$> rest) /\ (forall f, f ∈ rest -> path f ∉ path <$> earlier).
Proof.
  induction rest as [|f rest IH]; intros total earlier Ht; cbn [shape_loop].
  { split; [|done]. intros _. cbn. change (len (@nil Z)) with 0.
    repeat split; try constructor; [lia|]. intros f Hf. by apply not_elem_of_nil in Hf. }
  rewrite !Forall_cons. cbn [fmap list_fmap concat]. rewrite NoDup_cons, len_app.
  assert (Hex : existsb (fun e => bytes_eqb (path e) (path f)) earlier = true <-> path f ∈ path <$> earlier).
  { rewrite existsb_exists, list_elem_of_fmap. setoid_rewrite bytes_eqb_eq. setoid_rewrite <- list_elem_of_In. naive_solver. }
  destruct (PathBelongsToArea a (path f)); cbn [negb orb]; [|naive_solver].
  destruct (Z.ltb_spec kMaximumConfigFileBytes (len (content f))); cbn [orb]; [split; [done | intros (_ & (? & _) & _); lia]|].
  pose proof (len_nonneg (content f)). pose proof (len_nonneg (concat (content <$> rest))).
  destruct (Z.ltb_spec (kMaximumConfigAreaBytes - len (content f)) total); [split; [done | intros (_ & _ & ? & _); lia]|].
  destruct (existsb _ earlier) eqn:E.
  - split; [done|]. intros (_ & _ & _ & _ & Hn). destruct (Hn f); [set_solver | by apply Hex].
  - rewrite IH by lia. rewrite fmap_app. split.
    + intros (Hp & Hs & Htot & Hnd & Hn). split; [done|]. split; [done|]. split; [lia|].
      split; [split; [|done]|]. { intros (g & Hg & Hin)%list_elem_of_fmap. apply (Hn g Hin). set_solver. }
      intros g [->|Hg]%elem_of_cons; [intros Hin; apply Hex in Hin; congruence | set_solver].
    + intros ([_ Hp] & [_ Hs] & Htot & [Hnf Hnd] & Hn). split; [done|]. split; [done|]. split; [lia|].
      split; [done|]. intros g Hg. rewrite not_elem_of_app. split; [set_solver|].
      intros Heq%list_elem_of_singleton. apply Hnf. rewrite <- Heq. by apply list_elem_of_fmap_2.
Qed.

Lemma ValidateAreaSnapshotShape_spec s : ValidateAreaSnapshotShape s = true <-> well_shaped s.
Proof.
  unfold ValidateAreaSnapshotShape, kMaximumConfigFilesPerArea.
  destruct (IsKnownConfigArea (area s)) eqn:Ea; cbn [negb orb]; [|split; [done | intros []; congruence]].
  destruct (Z.ltb_spec 16 (len (files s))); [split; [done | intros []; lia]|].
  rewrite shape_loop_spec by (unfold kMaximumConfigAreaBytes; lia). split.
  - intros (? & ? & ? & ? & ?). by constructor.
  - intros []. repeat split; try done. intros f _. apply not_elem_of_nil.
Qed.

(** *** Sorting *)
Lemma strcmp_opp a : forall b, strcmp a b = CompOpp (strcmp b a).
Proof.
  induction a as [|x a IH]; intros [|y b]; cbn [strcmp]; try done.
  rewrite Z.compare_antisym. destruct (Z.compare y x); cbn; [apply IH | done..].
Qed.

Definition after (f g : ConfigFileView) : Prop := strcmp (path g) (path f) = Lt.

#[export] Instance after_trans : Transitive after.
Proof. unfold after. intros f g h Hfg Hgh. by eapply strcmp_lt_trans. Qed.

#[export] Instance after_antisymm : AntiSymm (=) after.
Proof. unfold after. intros f g Hfg Hgh. rewrite strcmp_opp, Hgh in Hfg. done. Qed.

Lemma insert_back_perm f l : insert_back f l ≡ₚ f :: l.
Proof.
  induction l as [|g l IH]; cbn [insert_back]; [done|].
  destruct (strcmp _ _); [done..|]. rewrite IH. apply Permutation_swap.
Qed.

Lemma insert_back_sorted f l : path f ∉ path <$> l -> StronglySorted after l -> StronglySorted after (insert_back f l).
Proof.
  induction l as [|g l IH]; intros Hn Hs; cbn [insert_back]; [by repeat constructor|].
  apply not_elem_of_cons in Hn as [Hne Hn]. apply StronglySorted_cons in Hs as [Hg Hs].
  destruct (strcmp (path g) (path f)) eqn:Ec.
  - apply strcmp_eq in Ec. congruence.
  - apply StronglySorted_cons. split; [|by apply StronglySorted_cons]. constructor; [done|].
    eapply Forall_impl; [exact Hg|]. intros h Hh. by eapply after_trans.
  - apply StronglySorted_cons. split; [|by apply IH]. rewrite insert_back_perm. constructor; [|done].
    unfold after. by rewrite strcmp_opp, Ec.
Qed.

Lemma sort_fold rest : forall done_, NoDup (path <$> done_ ++ rest) -> StronglySorted after done_ ->
  let sorted := fold_left (fun sorted_back value => insert_back value sorted_back) rest done_ in
  sorted ≡ₚ done_ ++ rest /\ StronglySorted after sorted.
Proof.
  induction rest as [|f rest IH]; intros sorted Hnd Hs; cbn [fold_left].
  { by rewrite app_nil_r. }
  assert (Hp : insert_back f sorted ++ rest ≡ₚ sorted ++ f :: rest).
  { rewrite insert_back_perm. apply Permutation_middle. }
  destruct (IH (insert_back f sorted)) as [H1 H2].
  - by rewrite Hp.
  - apply insert_back_sorted; [|done]. rewrite fmap_app in Hnd. apply NoDup_app in Hnd as (_ & Hd & _).
    intros Hin. apply (Hd _ Hin). cbn. set_solver.
  - split; [|done]. by rewrite H1, Hp.
Qed.

Lemma sort_files_perm l : NoDup (path <$> l) -> sort_files l ≡ₚ l.
Proof.
  intros Hnd. unfold sort_files. rewrite <- Permutation_rev. by apply (sort_fold l [] Hnd (SSorted_nil _)).
Qed.

(** The order of the files does not matter. *)
Lemma sort_files_unique l1 l2 : NoDup (path <$> l1) -> l1 ≡ₚ l2 -> sort_files l1 = sort_files l2.
Proof.
  intros Hnd Hp. unfold sort_files. f_equal.
  destruct (sort_fold l1 [] Hnd (SSorted_nil _)) as [P1 S1].
  destruct (sort_fold l2 []) as [P2 S2]; [by cbn; rewrite <- Hp | constructor|].
  apply (StronglySorted_unique after); [done..|]. by rewrite P1, P2.
Qed.

(** *** The text that is hashed *)
Lemma update_all_feed pieces : forall hash, update_all hash pieces = feed hash pieces.
Proof.
  induction pieces as [|p pieces IH]; intros hash; cbn [update_all feed]; [done|].
  by destruct (Update hash p) as [[] h].
Qed.

Lemma len_concat_bound {A} (l : list (list A)) b : Forall (fun x => len x <= b) l -> len (concat l) <= b * len l.
Proof.
  induction 1 as [|x l Hx Hl IH]; cbn [concat]; [unfold len; cbn [length]; lia|]. rewrite len_app, len_cons. lia.
Qed.

Lemma belongs_short a p : PathBelongsToArea a p = true -> 0 < len p <= kMaximumConfigPathBytes.
Proof.
  unfold PathBelongsToArea, IsSafeRelativePath, BoundedStringLength.
  destruct (Z.eqb_spec (Z.min (len p) (kMaximumConfigPathBytes + 1)) 0); cbn [orb negb]; [done|].
  destruct (Z.ltb_spec kMaximumConfigPathBytes (Z.min (len p) (kMaximumConfigPathBytes + 1))); cbn [orb negb]; [done|].
  intros _. pose proof (len_nonneg p). unfold kMaximumConfigPathBytes in *. lia.
Qed.

Record small_file (f : ConfigFileView) : Prop := {
  small_path : len (path f) <= 127;
  small_content : len (content f) <= 512 * 1024;
}.

Lemma well_shaped_small s : well_shaped s -> Forall small_file (files s).
Proof.
  intros [_ _ Hp Hs _ _]. rewrite Forall_forall in *. intros f Hf. split; [|by apply Hs].
  pose proof (belongs_short _ _ (Hp f Hf)). unfold kMaximumConfigPathBytes in *. lia.
Qed.

Definition file_text (f : ConfigFileView) : bytes := concat (file_pieces f).

Lemma concat_concat {A} (l : list (list (list A))) : concat (concat l) = concat (@concat A <$> l).
Proof. induction l as [|x l IH]; cbn; [done|]. by rewrite concat_app, IH. Qed.

Lemma area_text_eq s : area_text s =
  kAreaMagic ++ [u8 (area_id (area s)); u8 (len (files s))] ++ concat (file_text <$> sort_files (files s)).
Proof. unfold area_text. rewrite concat_app, concat_concat, <- list_fmap_compose. done. Qed.

Lemma len_file_text f : len (file_text f) = 10 + len (path f) + len (content f).
Proof. unfold file_text, file_pieces. cbn [concat]. rewrite !len_app. change (len (@nil Z)) with 0. change (len (WriteBigEndian16 _)) with 2. change (len (WriteBigEndian64 _)) with 8. lia. Qed.

Lemma HashAreaSnapshot_digest s : well_shaped s -> HashAreaSnapshot s = Some (sha256_spec (area_text s)).
Proof.
  intros Hs. assert (Hlen : len (area_text s) <= UINT64_MAX / 8).
  { rewrite area_text_eq, !len_app. assert (H1 : len (concat (file_text <$> sort_files (files s))) <= 524425 * len (file_text <$> sort_files (files s))).
    { apply len_concat_bound, Forall_fmap. rewrite sort_files_perm by apply Hs.
      eapply Forall_impl; [by apply well_shaped_small|]. intros f [? ?]. change (len (file_text f) <= 524425). rewrite len_file_text. lia. }
    assert (H2 : len (file_text <$> sort_files (files s)) <= 16).
    { unfold len. rewrite length_fmap. rewrite sort_files_perm by apply Hs. by apply Hs. }
    change (len kAreaMagic) with 16. change (UINT64_MAX / 8) with 2305843009213693951. unfold len at 1. cbn [length]. lia. }
  unfold HashAreaSnapshot. rewrite update_all_feed. fold (area_text s) in Hlen.
  destruct (feed_absorbed ([kAreaMagic; [u8 (area_id (area s))]; [u8 (len (files s))]] ++
      concat (file_pieces <$> sort_files (files s))) Reset []) as (h & -> & Ha & Hf & Ht); try done.
  - apply absorbed_Reset.
  - fold (area_text s). change (UINT64_MAX / 8) with 2305843009213693951 in Hlen.
    change UINT64_MAX with 18446744073709551615. change (len (@nil Z)) with 0. lia.
  - by apply (Final_absorbed _ (area_text s)).
Qed.

Lemma shift_eq v w k : 0 <= k -> v / 2 ^ (k + 8) = w / 2 ^ (k + 8) ->
  u8 (Z.shiftr v k) = u8 (Z.shiftr w k) -> v / 2 ^ k = w / 2 ^ k.
Proof.
  intros Hk Hhi Hlo. rewrite !Z.shiftr_div_pow2 in Hlo by done. unfold u8 in Hlo.
  rewrite Z.pow_add_r, <- !Z.div_div in Hhi by lia. 
  rewrite (Z.div_mod (v / 2 ^ k) (2 ^ 8)), (Z.div_mod (w / 2 ^ k) (2 ^ 8)) by lia. congruence.
Qed.

Lemma WriteBigEndian16_inj v w : 0 <= v < 2 ^ 16 -> 0 <= w < 2 ^ 16 -> WriteBigEndian16 v = WriteBigEndian16 w -> v = w.
Proof.
  intros Hv Hw [= H1 H2]. rewrite <- (Z.div_1_r v), <- (Z.div_1_r w). change 1 with (2 ^ 0).
  apply shift_eq; [lia| |by rewrite !Z.shiftr_0_r]. apply shift_eq; [lia| |done].
  by rewrite !Z.div_small by (cbn; lia).
Qed.

Lemma WriteBigEndian64_inj v w : 0 <= v < 2 ^ 64 -> 0 <= w < 2 ^ 64 -> WriteBigEndian64 v = WriteBigEndian64 w -> v = w.
Proof.
  intros Hv Hw Heq. cbn [WriteBigEndian64 fmap list_fmap seq] in Heq. cbn in Heq. injection Heq as H7 H6 H5 H4 H3 H2 H1 H0.
  rewrite <- (Z.div_1_r v), <- (Z.div_1_r w). change 1 with (2 ^ 0).
  do 8 (apply shift_eq; [lia| |done]).
  by rewrite !Z.div_small by (cbn; lia).
Qed.

Lemma file_text_inj f g r1 r2 : small_file f -> small_file g ->
  file_text f ++ r1 = file_text g ++ r2 -> f = g /\ r1 = r2.
Proof.
  destruct f as [p c], g as [q d]. intros [Hp Hc] [Hq Hd]. cbn [path content] in *. pose proof (len_nonneg p).
  pose proof (len_nonneg q). pose proof (len_nonneg c). pose proof (len_nonneg d).
  unfold file_text, file_pieces. cbn [concat path content]. rewrite !app_nil_r, <- !app_assoc. intros Heq.
  apply app_inj_1 in Heq as [Hlen Heq]; [|done]. apply WriteBigEndian16_inj in Hlen; [|apply Z.mod_pos_bound; lia..].
  unfold u16 in Hlen. rewrite !Z.mod_small in Hlen by lia.
  apply app_inj_1 in Heq as [-> Heq]; [|unfold len in Hlen; lia].
  apply app_inj_1 in Heq as [Hlen2 Heq]; [|done]. apply WriteBigEndian64_inj in Hlen2; [|apply Z.mod_pos_bound; lia..].
  unfold u64 in Hlen2. rewrite !Z.mod_small in Hlen2 by lia.
  by apply app_inj_1 in Heq as [-> ->]; [|unfold len in Hlen2; lia].
Qed.

Lemma files_text_inj l1 : forall l2, Forall small_file l1 -> Forall small_file l2 ->
  concat (file_text <$> l1) = concat (file_text <$> l2) -> l1 = l2.
Proof.
  induction l1 as [|f l1 IH]; intros [|g l2] H1 H2 Heq; [done|..].
  - cbn [fmap list_fmap concat] in Heq. apply (f_equal len) in Heq. rewrite len_app, len_file_text in Heq. change (len (@nil Z)) with 0 in Heq. len_facts. lia.
  - cbn [fmap list_fmap concat] in Heq. apply (f_equal len) in Heq. rewrite len_app, len_file_text in Heq. change (len (@nil Z)) with 0 in Heq. len_facts. lia.
  - apply Forall_cons in H1 as [Hf H1], H2 as [Hg H2]. cbn [fmap list_fmap concat] in Heq. apply file_text_inj in Heq as [-> Heq]; [|done..].
    f_equal. by apply IH.
Qed.

Lemma area_id_inj a b : u8 (area_id a) = u8 (area_id b) -> a = b.
Proof. by destruct a, b. Qed.

(** The digest that the plan records binds what was assessed: it is the
    SHA-256 of a text that two snapshots of areas share exactly when they are of
    the same area and hold the same files with the same contents; the order in
    which the files were read does not matter. *)
Theorem HashAreaSnapshot_binds (s1 s2 : ConfigAreaSnapshot)
    (H1 : ValidateAreaSnapshotShape s1 = true) (H2 : ValidateAreaSnapshotShape s2 = true) :
  HashAreaSnapshot s1 = Some (sha256_spec (area_text s1)) /\
  HashAreaSnapshot s2 = Some (sha256_spec (area_text s2)) /\
  (area_text s1 = area_text s2 <-> area s1 = area s2 /\ files s1 ≡ₚ files s2).
Proof.
  rewrite ValidateAreaSnapshotShape_spec in H1, H2. split; [by apply HashAreaSnapshot_digest|].
  split; [by apply HashAreaSnapshot_digest|]. rewrite !area_text_eq. split.
  - intros Heq. apply app_inj_1 in Heq as [_ Heq]; [|done]. injection Heq as Ha _ Heq.
    split; [by apply area_id_inj|].
    rewrite <- (sort_files_perm (files s1)), <- (sort_files_perm (files s2)) by (apply H1 || apply H2).
    apply files_text_inj in Heq; [by rewrite Heq|..]; rewrite sort_files_perm by (apply H1 || apply H2);
      by apply well_shaped_small.
  - intros [-> Hp]. rewrite (sort_files_unique (files s1) (files s2)) by (apply H1 || done).
    unfold len. by rewrite Hp.
Qed.

Definition sample_files : list ConfigFileView :=
  [mkFile (str "machines.ini") (str "format=1"); mkFile (str "machines.local.ini") (str "x=1")].

Lemma HashAreaSnapshot_binds_witness :
  HashAreaSnapshot (mkArea Machines sample_files) = Some (sha256_spec (area_text (mkArea Machines sample_files))) /\
  HashAreaSnapshot (mkArea Machines (rev sample_files)) = Some (sha256_spec (area_text (mkArea Machines (rev sample_files)))) /\
  (area_text (mkArea Machines sample_files) = area_text (mkArea Machines (rev sample_files)) <->
   area (mkArea Machines sample_files) = area (mkArea Machines (rev sample_files)) /\
   files (mkArea Machines sample_files) ≡ₚ files (mkArea Machines (rev sample_files))).
Proof. apply (HashAreaSnapshot_binds (mkArea Machines sample_files) (mkArea Machines (rev sample_files))); reflexivity. Defined.

(** ** Lemmas on the registry *)
Notation migration_tuple d := (migration_area d, from_version d, to_version d).

Record requirement_ok (r : ConfigSchemaRequirement) : Prop := {
  target_positive : target_version r <> 0;
  accepts_target : target_version r ∈ accepted_versions r;
  accepted_once : NoDup (accepted_versions r);
  accepted_few : len (accepted_versions r) <= 32;
}.

(** What a release may declare: every area once, and migrations that this
    updater has compiled in, each at most once, that lead to the target. *)
Record registry_ok (requirements : list ConfigSchemaRequirement) (migrations : list DeclaredConfigMigration) : Prop := {
  each_area_once : requirement_area <$> requirements ≡ₚ all_areas;
  requirements_ok : Forall requirement_ok requirements;
  migrations_few : len migrations <= 64;
  migrations_compiled : Forall (fun d => d ∈ kCompiledMigrations) migrations;
  migrations_useful : Forall (fun d => exists r, r ∈ requirements /\ requirement_area r = migration_area d /\
    target_version r = to_version d /\ from_version d ∉ accepted_versions r) migrations;
  ids_distinct : NoDup (migration_id <$> migrations);
  tuples_distinct : NoDup ((fun d => migration_tuple d) <$> migrations);
}.

Lemma versions_distinct_spec rest : forall earlier,
  versions_distinct earlier rest = true <-> NoDup rest /\ (forall v, v ∈ rest -> v ∉ earlier).
Proof.
  induction rest as [|v rest IH]; intros earlier; cbn [versions_distinct].
  { split; [|done]. intros _. split; [constructor | intros v Hv; by apply not_elem_of_nil in Hv]. }
  rewrite NoDup_cons. case_bool_decide as Hv.
  - split; [done|]. intros [_ Hn]. destruct (Hn v); set_solver.
  - rewrite IH. set_solver.
Qed.

Lemma known_area_iff a : IsKnownConfigArea a = true <-> a ∈ all_areas.
Proof. split; [apply known_area|]. revert a. apply Forall_forall. by repeat constructor. Qed.

Lemma RequirementIsValid_spec r :
  RequirementIsValid r = true <-> requirement_area r ∈ all_areas /\ requirement_ok r.
Proof.
  unfold RequirementIsValid. rewrite <- known_area_iff.
  destruct (IsKnownConfigArea _); cbn [negb orb]; [|naive_solver].
  destruct (Z.eqb_spec (target_version r) 0); cbn [orb]; [split; [done | by intros [_ []]]|].
  destruct (Z.eqb_spec (len (accepted_versions r)) 0) as [E|E]; cbn [orb].
  { split; [done|]. intros [_ [_ Hin _ _]]. destruct (accepted_versions r); [set_solver|]. rewrite len_cons in E. len_facts. lia. }
  destruct (Z.ltb_spec 32 (len (accepted_versions r))); [split; [done | intros [_ []]; lia]|].
  pose proof (versions_distinct_spec (accepted_versions r) []) as Hd.
  destruct (versions_distinct _ _); cbn [negb].
  - rewrite bool_decide_eq_true. split; [|by intros [_ []]]. intros. split; [done|]. constructor; try done. by apply Hd.
  - split; [done|]. intros [_ [_ _ Hnd _]]. apply Hd. split; [done|]. intros v _. apply not_elem_of_nil.
Qed.

Lemma requirements_loop_spec rest : forall seen, requirements_loop seen rest = true <->
  Forall (fun r => requirement_area r ∈ all_areas /\ requirement_ok r) rest /\
  NoDup (requirement_area <$> rest) /\ (forall r, r ∈ rest -> requirement_area r ∉ seen).
Proof.
  induction rest as [|r rest IH]; intros seen; cbn [requirements_loop].
  { split; [|done]. intros _. repeat split; [constructor..|]. intros r Hr. by apply not_elem_of_nil in Hr. }
  rewrite Forall_cons, <- RequirementIsValid_spec. cbn [fmap list_fmap]. rewrite NoDup_cons.
  destruct (RequirementIsValid r) eqn:Er; cbn [negb orb]; [|naive_solver].
  rewrite (bool_decide_eq_false_2 (requirement_area r = ConfigAreaUnknown)); cbn [orb].
  2: { apply RequirementIsValid_spec in Er as [Hin _]. intros Heq. by rewrite Heq in Hin; apply known_area_iff in Hin. }
  case_bool_decide as Hs.
  - split; [done|]. intros (_ & _ & Hn). destruct (Hn r); set_solver.
  - rewrite IH. rewrite list_elem_of_fmap. set_solver.
Qed.

Lemma FindRequirement_spec requirements a r : NoDup (requirement_area <$> requirements) ->
  FindRequirement requirements a = Some r <-> r ∈ requirements /\ requirement_area r = a.
Proof.
  unfold FindRequirement. induction requirements as [|q l IH]; cbn [fmap list_fmap find].
  { intros _. split; [done | intros [Hr _]; by apply not_elem_of_nil in Hr]. }
  rewrite NoDup_cons, list_elem_of_fmap. intros [Hn Hnd]. rewrite elem_of_cons. case_bool_decide as Ha.
  - split; [intros [= <-]; by split; [left|]|]. intros [[->|Hin] Heq]; [done|]. destruct Hn. exists r. split; congruence.
  - rewrite IH by done. naive_solver.
Qed.

Lemma compiled_ids : NoDup (migration_id <$> kCompiledMigrations).
Proof. apply (bool_decide_unpack _). by vm_compute. Qed.

Lemma FindCompiledMigration_spec id m :
  FindCompiledMigration id = Some m <-> m ∈ kCompiledMigrations /\ migration_id m = id.
Proof.
  unfold FindCompiledMigration, BoundedStringLength. split.
  - destruct (_ || _); [done|]. intros [Hin Heq%bytes_eqb_eq]%find_some. by apply list_elem_of_In in Hin.
  - intros [Hin <-]. revert m Hin. apply Forall_forall. by repeat constructor.
Qed.

Lemma compiled_facts m : m ∈ kCompiledMigrations ->
  0 < len (migration_id m) <= kMaximumConfigMigrationIdBytes /\ IsKnownConfigArea (migration_area m) = true /\
  from_version m = 1 /\ to_version m = 2.
Proof. revert m. apply Forall_forall. repeat constructor; cbn; done || lia. Qed.

(** A declaration is one of the compiled migrations. *)
Lemma compiled_exactly c d : c ∈ kCompiledMigrations -> migration_id c = migration_id d ->
  negb (bool_decide (migration_area c = migration_area d)) || negb (from_version c =? from_version d) ||
  negb (to_version c =? to_version d) || negb (Bool.eqb (lossy c) (lossy d)) = false <-> c = d.
Proof.
  intros Hc Hid. rewrite !orb_false_iff, !negb_false_iff, bool_decide_eq_true, !Z.eqb_eq, Bool.eqb_true_iff.
  destruct c, d; cbn in *. split; [by intros [[[-> ->] ->] ->]; subst | by intros [= -> -> -> -> ->]].
Qed.

Lemma VersionIsAccepted_spec r v : VersionIsAccepted r v = true <-> v ∈ accepted_versions r.
Proof.
  unfold VersionIsAccepted. rewrite existsb_exists. setoid_rewrite Z.eqb_eq. setoid_rewrite <- list_elem_of_In. naive_solver.
Qed.

Definition useful (requirements : list ConfigSchemaRequirement) (d : DeclaredConfigMigration) : Prop :=
  exists r, r ∈ requirements /\ requirement_area r = migration_area d /\
    target_version r = to_version d /\ from_version d ∉ accepted_versions r.

Lemma same_declaration_spec earlier d : existsb (fun e => same_declaration e d) earlier = false <->
  migration_id d ∉ migration_id <$> earlier /\ migration_tuple d ∉ (fun d => migration_tuple d) <$> earlier.
Proof.
  rewrite existsb_Forall_bool, !list_elem_of_fmap, Forall_forall. unfold same_declaration. split.
  - intros H. split; intros (e & He & Hin); specialize (H e Hin); apply orb_false_iff in H as [H1 H2].
    + apply bytes_eqb_neq in H1. congruence.
    + injection He as E1 E2 E3. rewrite E1, E2, E3, bool_decide_eq_true_2, !Z.eqb_refl in H2 by done. done.
  - intros [H1 H2] e Hin. apply orb_false_iff. split; [apply bytes_eqb_neq; naive_solver|].
    apply not_true_iff_false. intros Ht. zbool. destruct (bool_decide_reflect (migration_area e = migration_area d)); [|done].
    apply H2. exists e. split; [congruence | done].
Qed.

Lemma check_declaration_spec requirements earlier d : NoDup (requirement_area <$> requirements) ->
  check_declaration requirements earlier d = RegistryValid <->
  d ∈ kCompiledMigrations /\ useful requirements d /\
  migration_id d ∉ migration_id <$> earlier /\ migration_tuple d ∉ (fun d => migration_tuple d) <$> earlier.
Proof.
  intros Hnd. unfold check_declaration. rewrite <- same_declaration_spec. split.
  - destruct (_ || (from_version d =? to_version d)); [done|]. destruct (existsb _ _); [done|].
    destruct (FindCompiledMigration _) as [c|] eqn:Ec; [|done]. apply FindCompiledMigration_spec in Ec as [Hc Hid].
    destruct (_ || negb (Bool.eqb _ _)) eqn:Em; [done|]. apply compiled_exactly in Em as ->; [|done..].
    destruct (FindRequirement _ _) as [r|] eqn:Er; [|done]. apply FindRequirement_spec in Er as [Hr Ha]; [|done].
    destruct (_ || VersionIsAccepted _ _) eqn:Ev; [done|]. intros _. apply orb_false_iff in Ev as [Et Ev].
    apply negb_false_iff, Z.eqb_eq in Et. split; [done|]. split; [|done]. exists r. repeat split; try done.
    rewrite <- VersionIsAccepted_spec, Ev. done.
  - intros (Hc & (r & Hr & Ha & Ht & Hv) & ->). destruct (compiled_facts d Hc) as (Hlen & -> & Hf & Hto).
    unfold BoundedStringLength. rewrite Z.min_l by lia. rewrite (proj2 (Z.eqb_neq (len _) 0)), (proj2 (Z.ltb_ge _ _)) by lia.
    rewrite (proj2 (Z.eqb_neq (from_version d) 0)), (proj2 (Z.eqb_neq (to_version d) 0)) by lia. cbn [orb negb].
    rewrite (proj2 (FindCompiledMigration_spec _ d)) by done. rewrite (proj2 (compiled_exactly d d Hc eq_refl)) by done.
    rewrite (proj2 (FindRequirement_spec requirements (migration_area d) r Hnd)) by done.
    rewrite Ht, Z.eqb_refl. cbn [negb orb]. rewrite <- VersionIsAccepted_spec in Hv. apply not_true_iff_false in Hv. by rewrite Hv, Hf, Hto.
Qed.

Lemma declarations_loop_spec requirements rest : NoDup (requirement_area <$> requirements) -> forall earlier,
  NoDup (migration_id <$> earlier) -> NoDup ((fun d => migration_tuple d) <$> earlier) ->
  declarations_loop requirements earlier rest = RegistryValid <->
  Forall (fun d => d ∈ kCompiledMigrations) rest /\ Forall (useful requirements) rest /\
  NoDup (migration_id <$> earlier ++ rest) /\ NoDup ((fun d => migration_tuple d) <$> earlier ++ rest).
Proof.
  intros Hnd. induction rest as [|d rest IH]; intros earlier Hi Ht; cbn [declarations_loop].
  { rewrite app_nil_r. by repeat split; try constructor. }
  rewrite !Forall_cons. pose proof (check_declaration_spec requirements earlier d Hnd) as Hd.
  assert (Hsn : forall {A} (l : list A) x, NoDup (l ++ [x]) <-> NoDup l /\ x ∉ l).
  { intros A l x. rewrite NoDup_app. setoid_rewrite list_elem_of_singleton. split; [|intros [? ?]; repeat split; try done].
    - intros (? & Hx & _). split; [done|]. intros Hin. by apply (Hx x).
    - intros y Hy ->. done.
    - apply NoDup_singleton. }
  destruct (check_declaration requirements earlier d) eqn:Ec.
  1: { destruct (proj1 Hd eq_refl) as (Hc & Hu & H1 & H2). rewrite IH, <- app_assoc; cbn [app]; [naive_solver|..];
       rewrite fmap_app; by apply Hsn. }
  all: split; [done|]; intros ([Hc _] & [Hu _] & H1 & H2); apply Hd; split; [done|]; split; [done|];
    rewrite fmap_app in H1; rewrite fmap_app in H2; apply NoDup_app in H1 as (_ & H1 & _), H2 as (_ & H2 & _); split;
    [intros Hin; apply (H1 _ Hin) | intros Hin; apply (H2 _ Hin)]; left.
Qed.

Lemma areas_permuted (l : list ConfigArea) : len l = 6 -> Forall (fun a => a ∈ all_areas) l -> NoDup l -> l ≡ₚ all_areas.
Proof.
  intros Hl Hin Hnd. apply areas_complete; [done| |unfold len in Hl; lia].
  eapply Forall_impl; [exact Hin|]. intros a. apply known_area_iff.
Qed.

Lemma all_areas_NoDup : NoDup all_areas.
Proof. apply (bool_decide_unpack _). by vm_compute. Qed.

Lemma registry_ok_spec requirements migrations :
  ValidateConfigMigrationDeclarations requirements migrations = RegistryValid <->
  registry_ok requirements migrations.
Proof.
  unfold ValidateConfigMigrationDeclarations, kConfigMigrationAreaCount, kMaximumDeclaredConfigMigrations.
  assert (Hlen : requirement_area <$> requirements ≡ₚ all_areas -> len requirements = 6).
  { intros Hp. apply Permutation_length in Hp. rewrite length_fmap in Hp. unfold len. rewrite Hp. done. }
  destruct (Z.eqb_spec (len requirements) 6) as [H6|H6]; cbn [negb orb]; [|split; [done | intros []; by destruct H6; apply Hlen]].
  destruct (Z.ltb_spec 64 (len migrations)); [split; [done | intros []; lia]|].
  pose proof (requirements_loop_spec requirements []) as Hr.
  destruct (requirements_loop [] requirements); cbn [negb].
  - destruct (proj1 Hr eq_refl) as (Hreq & Hnd & _). apply Forall_and in Hreq as [Hin Hok].
    rewrite declarations_loop_spec by (done || constructor). cbn [app]. split.
    + intros (? & ? & ? & ?). constructor; try done. apply areas_permuted; [|by apply Forall_fmap|done].
      unfold len in *. by rewrite length_fmap.
    + intros []. done.
  - split; [done|]. intros [Hp Hok _ _ _ _ _]. enough (false = true) by done. apply Hr. split; [|split; [|intros r _; apply not_elem_of_nil]].
    + apply Forall_and. split; [|done]. apply (Forall_fmap requirement_area (fun a => a ∈ all_areas)).
      rewrite Hp. by apply Forall_forall.
    + rewrite Hp. apply all_areas_NoDup.
Qed.

(** The declarations of a release are admitted exactly when they name each
    of the six areas once, with a target among at most 32 distinct accepted
    versions, and migrations that are literally compiled into this updater, each
    at most once and no two for the same step, which lead to the target of their
    area from a version it does not accept. *)
Theorem ValidateConfigMigrationDeclarations_iff (requirements : list ConfigSchemaRequirement)
    (migrations : list DeclaredConfigMigration) :
  ValidateConfigMigrationDeclarations requirements migrations = RegistryValid <->
  registry_ok requirements migrations.
Proof. apply registry_ok_spec. Qed.

(** ** Lemmas on the assessment *)
Record full_snapshot (snapshot : list ConfigAreaSnapshot) : Prop := {
  areas_once : area <$> snapshot ≡ₚ all_areas;
  areas_shaped : Forall well_shaped snapshot;
}.

Lemma full_loop_spec rest : forall seen, full_loop seen rest = true -> NoDup seen ->
  Forall well_shaped rest /\ NoDup ((area <$> rest) ++ seen).
Proof.
  induction rest as [|s rest IH]; intros seen; cbn [full_loop]; [by split; [constructor|]|].
  case_bool_decide; [done|]. cbn [orb]. case_bool_decide as Hs; [done|]. cbn [orb].
  destruct (ValidateAreaSnapshotShape s) eqn:Ev; [|done]. cbn [negb]. intros Hl Hnd.
  apply IH in Hl as [Hw Hn]; [|by constructor]. split.
  - constructor; [by apply ValidateAreaSnapshotShape_spec | done].
  - cbn [fmap list_fmap app]. by rewrite Permutation_middle.
Qed.

Lemma ValidateFullSnapshot_spec snapshot : ValidateFullSnapshot snapshot = true -> full_snapshot snapshot.
Proof.
  unfold ValidateFullSnapshot. intros [[H6%Z.eqb_eq Hl]%andb_true_iff _]%andb_true_iff.
  apply full_loop_spec in Hl as [Hw Hn]; [|constructor]. rewrite app_nil_r in Hn. split; [|done].
  apply areas_permuted; [|apply Forall_fmap|done].
  - unfold len in *. by rewrite length_fmap.
  - eapply Forall_impl; [exact Hw|]. intros s []. by apply known_area_iff.
Qed.

Lemma FindArea_complete snapshot a : a ∈ area <$> snapshot -> exists s, FindArea snapshot a = Some s /\ s ∈ snapshot /\ area s = a.
Proof.
  intros (s & -> & Hin)%list_elem_of_fmap. unfold FindArea.
  destruct (find _ snapshot) as [t|] eqn:Ef.
  - apply find_some in Ef as [Ht He]. apply bool_decide_eq_true in He. exists t. split; [done|]. by rewrite list_elem_of_In.
  - apply list_elem_of_In in Hin. pose proof (find_none _ _ Ef s Hin) as Hn. by apply bool_decide_eq_false in Hn.
Qed.

Definition readable (detail : ConfigDetectionDetail) : Prop := detail = Valid \/ detail = Missing.

(** What a classification means. *)
Inductive classified (r : ConfigSchemaRequirement) (migrations : list DeclaredConfigMigration) (a : ConfigArea)
    (detail : ConfigDetectionDetail) (version : Z) : ConfigClassification -> Prop :=
| classified_newer : readable detail -> target_version r < version ->
    classified r migrations a detail version NewerThanTarget
| classified_compatible : readable detail -> version <= target_version r -> version ∈ accepted_versions r ->
    classified r migrations a detail version Compatible
| classified_migration m : readable detail -> version <= target_version r -> version ∉ accepted_versions r ->
    m ∈ migrations -> migration_tuple m = (a, version, target_version r) ->
    classified r migrations a detail version (if lossy m then ResetRequired else LosslessMigration)
| classified_unknown : readable detail -> version <= target_version r -> version ∉ accepted_versions r ->
    (a, version, target_version r) ∉ (fun m => migration_tuple m) <$> migrations ->
    classified r migrations a detail version UnknownOrCorrupt
| classified_corrupt : ~ readable detail -> classified r migrations a detail version UnknownOrCorrupt.

Lemma classify_classified r migrations a detail version :
  classified r migrations a detail version (classify r migrations a (detail, version)).
Proof.
  unfold classify, FindDeclaredMigration.
  destruct (bool_decide (detail = Valid) || bool_decide (detail = Missing)) eqn:Ed.
  2: { apply orb_false_iff in Ed as [E1 E2]. apply classified_corrupt. apply bool_decide_eq_false in E1, E2. by intros [?|?]. }
  assert (Hr : readable detail) by (apply orb_true_iff in Ed as [E|E]; apply bool_decide_eq_true in E; [by left | by right]).
  destruct (Z.ltb_spec (target_version r) version); [by apply classified_newer|].
  pose proof (VersionIsAccepted_spec r version) as Ha. destruct (VersionIsAccepted r version); [apply classified_compatible; naive_solver|].
  destruct (find _ migrations) as [m|] eqn:Ef.
  - apply find_some in Ef as [Hm Hf]. zbool. match goal with H : bool_decide _ = true |- _ => apply bool_decide_eq_true in H end.
    apply classified_migration; [done..|naive_solver|by apply list_elem_of_In|congruence].
  - apply classified_unknown; [done..|naive_solver|]. intros (m & Heq & Hm)%list_elem_of_fmap.
    apply list_elem_of_In in Hm. pose proof (find_none _ _ Ef m Hm) as Hn. injection Heq as E1 E2 E3. cbn beta in Hn.
    rewrite <- E1, <- E2, <- E3, bool_decide_eq_true_2, !Z.eqb_refl in Hn by done. done.
Qed.

(** What an assessment says of the snapshot. *)
Definition assessed (snapshot : list ConfigAreaSnapshot) (requirements : list ConfigSchemaRequirement)
    (migrations : list DeclaredConfigMigration) (x : ConfigAreaAssessment) : Prop :=
  exists s r, s ∈ snapshot /\ area s = assessed_area x /\ r ∈ requirements /\ requirement_area r = assessed_area x /\
    DetectArea s = (detection x, source_version x) /\ assessed_target x = target_version r /\
    source_content_sha256 x = sha256_spec (area_text s) /\
    classified r migrations (assessed_area x) (detection x) (source_version x) (classification x).

Lemma assess_area_assessed snapshot requirements migrations a : full_snapshot snapshot -> registry_ok requirements migrations ->
  a ∈ all_areas ->
  exists x, assess_area snapshot requirements migrations a = inr x /\ assessed_area x = a /\
    assessed snapshot requirements migrations x.
Proof.
  intros [Hs Hw] Hreg Ha. unfold assess_area.
  destruct (FindArea_complete snapshot a) as (s & -> & Hin & Has); [by rewrite Hs|].
  assert (Hr : exists r, r ∈ requirements /\ requirement_area r = a).
  { rewrite <- (each_area_once _ _ Hreg) in Ha. apply list_elem_of_fmap in Ha as (r & -> & ?). by exists r. }
  assert (Hnd : NoDup (requirement_area <$> requirements)) by (rewrite (each_area_once _ _ Hreg); apply all_areas_NoDup).
  destruct Hr as (r & Hr & Hra). rewrite (proj2 (FindRequirement_spec requirements a r Hnd)) by done.
  rewrite Forall_forall in Hw. rewrite HashAreaSnapshot_digest by by apply Hw.
  eexists. split; [done|]. split; [done|]. exists s, r. cbn. repeat (split; [done|]).
  split; [apply surjective_pairing|]. repeat (split; [done|]). rewrite (surjective_pairing (DetectArea s)). apply classify_classified.
Qed.

Lemma assess_areas_assessed snapshot requirements migrations l : full_snapshot snapshot -> registry_ok requirements migrations ->
  l ⊆ all_areas -> exists xs, assess_areas snapshot requirements migrations l = inr xs /\ assessed_area <$> xs = l /\
    Forall (assessed snapshot requirements migrations) xs.
Proof.
  intros Hs Hr. induction l as [|a l IH]; intros Hl; cbn [assess_areas]; [by exists []|].
  destruct (assess_area_assessed snapshot requirements migrations a) as (x & -> & Hx & Hax); [done..|set_solver|].
  destruct IH as (xs & -> & Hxs & Haxs); [set_solver|]. exists (x :: xs). split; [done|]. split; [cbn; congruence | by constructor].
Qed.

(** *** The decision *)
Definition severity (c : ConfigClassification) : Z :=
  match c with
  | Compatible => 0 | LosslessMigration => 1 | ResetRequired => 2 | UnknownOrCorrupt => 3 | NewerThanTarget => 4
  end.
Definition decision_severity (d : ConfigPlanDecision) : Z :=
  match d with
  | PlanCompatible => 0 | PlanLosslessMigration => 1 | PlanResetConfirmationRequired => 2
  | BlockedUnknownOrCorrupt => 3 | BlockedNewerThanTarget => 4
  end.

Definition counted (c : ConfigClassification -> bool) (l : list ConfigAreaAssessment) : Z :=
  len (filter (fun x => c (classification x) = true) l).
Definition blocking (c : ConfigClassification) : bool := 3 <=? severity c.

(** The decision is the most severe classification, and the counts are right. *)
Record decided (p : ConfigMigrationPlan) : Prop := {
  no_area_more_severe : Forall (fun x => severity (classification x) <= decision_severity (decision p)) (areas p);
  some_area_as_severe : decision p = PlanCompatible \/
    Exists (fun x => severity (classification x) = decision_severity (decision p)) (areas p);
  compatible_counted : compatible_count p = counted (fun c => bool_decide (c = Compatible)) (areas p);
  migrations_counted : migration_count p = counted (fun c => bool_decide (c = LosslessMigration)) (areas p);
  resets_counted : reset_count p = counted (fun c => bool_decide (c = ResetRequired)) (areas p);
  blocked_counted : blocked_count p = counted blocking (areas p);
}.

Lemma recompute_fold l : forall p done_, areas p = done_ ++ l ->
  decided (mkPlan done_ (decision p) (compatible_count p) (migration_count p) (reset_count p) (blocked_count p)) ->
  decided (fold_left recompute_step (classification <$> l) p).
Proof.
  induction l as [|x l IH]; intros p prefix Hp Hd; cbn [fmap list_fmap fold_left].
  { rewrite app_nil_r in Hp. subst prefix. by destruct p. }
  apply (IH _ (prefix ++ [x])). { rewrite <- app_assoc. by destruct p, (classification x). }
  assert (Hmax : decision_severity (decision (recompute_step p (classification x))) =
    Z.max (decision_severity (decision p)) (severity (classification x))).
  { destruct p as [? [] ? ? ? ?], (classification x); done. }
  assert (Hcount : forall c, counted c (prefix ++ [x]) = counted c prefix + (if c (classification x) then 1 else 0)).
  { intros c. unfold counted. rewrite filter_app, len_app, filter_cons, filter_nil. by destruct (c (classification x)). }
  destruct Hd as [H1 H2 H3 H4 H5 H6].
  cbn [areas decision compatible_count migration_count reset_count blocked_count] in *. constructor; cbn [areas decision compatible_count migration_count reset_count blocked_count].
  - rewrite Hmax. apply Forall_app. split; [|constructor; [lia|constructor]].
    eapply Forall_impl; [exact H1|]. cbn. lia.
  - rewrite Hmax. rewrite Exists_app, Exists_cons, Exists_nil.
    destruct (Z.le_gt_cases (decision_severity (decision p)) (severity (classification x))) as [Hle|Hgt].
    + right. right. left. lia.
    + rewrite Z.max_l by lia. destruct H2 as [H2|H2]; [|by right; left].
      exfalso. rewrite H2 in Hgt. clear -Hgt. destruct (classification x); cbn in Hgt; lia.
  - rewrite Hcount, <- H3. destruct p, (classification x); cbn; rewrite ?Z.add_0_r; done.
  - rewrite Hcount, <- H4. destruct p, (classification x); cbn; rewrite ?Z.add_0_r; done.
  - rewrite Hcount, <- H5. destruct p, (classification x); cbn; rewrite ?Z.add_0_r; done.
  - rewrite Hcount, <- H6. destruct p, (classification x); cbn; rewrite ?Z.add_0_r; done.
Qed.

Lemma recompute_areas l : forall p, areas (fold_left recompute_step l p) = areas p.
Proof. induction l as [|c l IH]; intros p; cbn [fold_left]; [done|]. rewrite IH. by destruct c. Qed.

Lemma AssessConfigSnapshot_facts snapshot requirements migrations :
  ValidateFullSnapshot snapshot = true ->
  ValidateConfigMigrationDeclarations requirements migrations = RegistryValid ->
  exists p, AssessConfigSnapshot snapshot requirements migrations = Val p /\
    assessed_area <$> areas p = all_areas /\ Forall (assessed snapshot requirements migrations) (areas p) /\ decided p.
Proof.
  intros Hs Hr. unfold AssessConfigSnapshot. rewrite Hs, Hr. cbn [negb].
  destruct (assess_areas_assessed snapshot requirements migrations all_areas) as (xs & -> & Hxs & Haxs);
    [by apply ValidateFullSnapshot_spec | by apply registry_ok_spec | done|].
  exists (RecomputePlanDecision xs). split; [done|]. unfold RecomputePlanDecision. rewrite recompute_areas. cbn [areas].
  split; [done|]. split; [done|]. apply (recompute_fold xs _ []); [done|]. constructor; cbn; by repeat constructor.
Qed.

(** A complete snapshot and admitted declarations are always assessed: the
    plan has the six areas in order, each with the digest of its files, the
    version found in them and the classification that version deserves; the
    decision is that of the worst area and the counts are those of the
    classifications.  The hash cannot fail. *)
Theorem AssessConfigSnapshot_spec (snapshot : list ConfigAreaSnapshot)
    (requirements : list ConfigSchemaRequirement) (migrations : list DeclaredConfigMigration)
    (Hs : ValidateFullSnapshot snapshot = true)
    (Hr : ValidateConfigMigrationDeclarations requirements migrations = RegistryValid) :
  exists p, AssessConfigSnapshot snapshot requirements migrations = Val p /\
    assessed_area <$> areas p = all_areas /\ Forall (assessed snapshot requirements migrations) (areas p) /\ decided p.
Proof. by apply AssessConfigSnapshot_facts. Qed.

(** C23. Nothing is lost without a confirmation: a plan that needs neither a
    reset nor is blocked found every area readable, not newer than the release,
    and either in a version that the release accepts or in one from which a
    compiled migration that loses nothing leads to the target. *)
Theorem AssessConfigSnapshot_no_silent_loss (snapshot : list ConfigAreaSnapshot)
    (requirements : list ConfigSchemaRequirement) (migrations : list DeclaredConfigMigration) (p : ConfigMigrationPlan)
    (Hp : AssessConfigSnapshot snapshot requirements migrations = Val p)
    (Hd : decision p = PlanCompatible \/ decision p = PlanLosslessMigration) :
  assessed_area <$> areas p = all_areas /\
  Forall (fun x => exists s r, s ∈ snapshot /\ area s = assessed_area x /\ r ∈ requirements /\ requirement_area r = area s /\
    DetectArea s = (detection x, source_version x) /\ readable (detection x) /\
    source_version x <= target_version r /\
    (source_version x ∈ accepted_versions r \/
     exists m, m ∈ kCompiledMigrations /\ lossy m = false /\
       migration_tuple m = (area s, source_version x, target_version r))) (areas p).
Proof.
  unfold AssessConfigSnapshot in Hp. destruct (ValidateFullSnapshot snapshot) eqn:Hs; [cbn [negb] in Hp|done].
  destruct (ValidateConfigMigrationDeclarations requirements migrations) eqn:Hr; try done.
  destruct (AssessConfigSnapshot_facts _ _ _ Hs Hr) as (p' & Hp' & Ha & Hx & [Hsev _ _ _ _ _]).
  unfold AssessConfigSnapshot in Hp'. rewrite Hs, Hr in Hp'. cbn [negb] in Hp'. rewrite Hp in Hp'. injection Hp' as <-.
  split; [done|]. apply registry_ok_spec in Hr. pose proof (migrations_compiled _ _ Hr) as Hc. rewrite Forall_forall in *.
  intros x Hin. specialize (Hsev x Hin). destruct (Hx x Hin) as (s & r & Hs1 & Hs2 & Hr1 & Hr2 & Hdet & _ & _ & Hcl).
  assert (Hle : severity (classification x) <= 1) by (by destruct Hd as [Hd|Hd]; rewrite Hd in Hsev; cbn in Hsev; lia).
  exists s, r. rewrite Hs2. repeat (split; [done|]).
  destruct Hcl as [| |m| |]; cbn [severity] in Hle; try lia.
  - split; [done|]. split; [done|]. by left.
  - destruct (lossy m) eqn:El; cbn [severity] in Hle; [lia|].
    split; [done|]. split; [done|]. right. exists m. split; [by apply (proj1 (Forall_forall _ _) Hc)|done].
Qed.

Definition empty_card : list ConfigAreaSnapshot := (fun a => mkArea a []) <$> all_areas.
Definition sample_requirements : list ConfigSchemaRequirement := (fun a => mkRequirement a 2 [0; 2]) <$> all_areas.
Definition sample_migrations : list DeclaredConfigMigration := take 2 kCompiledMigrations.

Lemma AssessConfigSnapshot_spec_witness :
  exists p, AssessConfigSnapshot empty_card sample_requirements sample_migrations = Val p /\
    assessed_area <$> areas p = all_areas /\
    Forall (assessed empty_card sample_requirements sample_migrations) (areas p) /\ decided p.
Proof. apply (AssessConfigSnapshot_spec empty_card sample_requirements sample_migrations); reflexivity. Defined.

(** A card whose machines.ini is still in version 1. *)
Definition old_machines : bytes :=
  str "format=1" ++ [LF] ++ str "[video v]" ++ [LF] ++ str "[machine m]" ++ [LF].
Definition old_card : list ConfigAreaSnapshot :=
  mkArea Machines [mkFile (str "machines.ini") old_machines] :: drop 1 empty_card.

Lemma AssessConfigSnapshot_no_silent_loss_witness : exists p,
  AssessConfigSnapshot old_card sample_requirements sample_migrations = Val p /\
  decision p = PlanLosslessMigration /\ assessed_area <$> areas p = all_areas.
Proof.
  destruct (AssessConfigSnapshot_facts old_card sample_requirements sample_migrations eq_refl eq_refl) as (p & Hp & _).
  assert (Hd : decision p = PlanLosslessMigration).
  { pose proof (f_equal (fun m => match m with Val q => decision q | _ => PlanCompatible end) Hp) as Hd.
    rewrite <- Hd. reflexivity. }
  exists p. split; [exact Hp|]. split; [exact Hd|].
  apply (AssessConfigSnapshot_no_silent_loss old_card sample_requirements sample_migrations p Hp (or_intror Hd)).
Defined.

(** ** Lines *)
Definition no_eol (line : bytes) : Prop := Forall (fun c => c <> LF /\ c <> CR) line.

(** A text as the sequence of its lines, up to the first one that is too long or
    ends in a lone carriage return. *)
Inductive reading : bytes -> list (option (bytes * bytes * bytes)) -> Prop :=
| reading_end : reading [] []
| reading_too_long line rest : no_eol line -> kMaximumConfigLineBytes < len line -> reading (line ++ rest) [None]
| reading_lone_cr line rest : no_eol line -> head rest <> Some LF -> reading (line ++ CR :: rest) [None]
| reading_line line eol rest l : no_eol line -> len line <= kMaximumConfigLineBytes ->
    eol = [LF] \/ eol = [CR; LF] \/ (eol = [] /\ rest = [] /\ line <> []) -> reading rest l ->
    reading (line ++ eol ++ rest) (Some (line ++ eol ++ rest, line, rest) :: l).

Lemma until_eol_spec l : let '(a, b) := until_eol l in
  l = a ++ b /\ no_eol a /\ (b = [] \/ exists c b', b = c :: b' /\ (c = LF \/ c = CR)).
Proof.
  induction l as [|c l IH]; cbn [until_eol]; [by repeat split; [constructor | left]|].
  destruct ((c =? LF) || (c =? CR)) eqn:E.
  - split; [done|]. split; [constructor|]. right. exists c, l. split; [done|]. apply orb_true_iff in E as [E|E]; zbool; auto.
  - destruct (until_eol l) as [a b]. destruct IH as (-> & Ha & Hb). zbool. split; [done|]. split; [by constructor | done].
Qed.

Lemma NextLine_reading content : match NextLine content with
  | End => content = []
  | CorruptLine => reading content [None]
  | Line line rest => exists eol, content = line ++ eol ++ rest /\ no_eol line /\ len line <= kMaximumConfigLineBytes /\
      (eol = [LF] \/ eol = [CR; LF] \/ (eol = [] /\ rest = [] /\ line <> [])) /\ (length rest < length content)%nat
  end.
Proof.
  unfold NextLine. destruct content as [|x content]; [done|]. set (l := x :: content).
  pose proof (until_eol_spec l) as Hl. destruct (until_eol l) as [line b]. destruct Hl as (Hl & Hn & Hb).
  destruct (Z.ltb_spec kMaximumConfigLineBytes (len line)); [rewrite Hl; by constructor|].
  destruct Hb as [->|(c & b' & -> & Hc)].
  - exists []. split; [by rewrite Hl|]. split; [done|]. split; [done|]. rewrite app_nil_r in Hl.
    split; [|unfold l; cbn; lia]. right. right. split; [done|]. split; [done|]. by rewrite <- Hl.
  - assert (Hlen : (length b' < length l)%nat) by (rewrite Hl, length_app; cbn; lia).
    destruct (Z.eqb_spec c CR) as [->|Hcr].
    + destruct b' as [|c2 b2]; [rewrite Hl; by apply reading_lone_cr|]. destruct (Z.eqb_spec c2 LF) as [->|Hlf].
      * exists [CR; LF]. do 3 (split; [done|]). split; [by right; left|]. cbn [length] in Hlen. lia.
      * rewrite Hl. apply reading_lone_cr; [done|]. by intros [= ->].
    + exists [LF]. destruct Hc as [->|]; [|done]. do 3 (split; [done|]). split; [by left | done].
Qed.

Lemma lines_reading fuel : forall content, (length content < fuel)%nat -> reading content (lines fuel content).
Proof.
  induction fuel as [|fuel IH]; intros content Hf; [lia|]. cbn [lines].
  pose proof (NextLine_reading content) as Hn. destruct (NextLine content) as [line rest| |].
  - destruct Hn as (eol & -> & Hn & Hl & He & Hlt). constructor; [done..|]. apply IH. lia.
  - subst. constructor.
  - done.
Qed.

(** Reading a configuration file line by line ends, for every content: the
    lines with their ends are the content, up to the first line that is longer
    than 4096 bytes or ends in a lone carriage return. *)
Theorem all_lines_reads (content : bytes) : reading content (all_lines content).
Proof. apply lines_reading. lia. Qed.
