(* ===== verification/ReleaseManifest.v ===== *)
(** * The signed release manifest (src/src/update/release_manifest.cpp)

    BMX-RELEASE.json says what a release installs.  Its reader is translated in
    the monad of JsonFields.v: [Val] is the status [Ok] with what has been stored,
    arrays are lists, and the [store] flag decides whether an asset keeps its
    inventory. *)
From S2P Require Import Prelude Json JsonFields FatPathPolicy UpdatePolicy BuildInfo ConfigMigration.
From stdpp Require Import sorting.
From Stdlib Require Import Ascii.
Local Open Scope Z_scope.

Definition kMaximumReleaseManifestBytes : Z := 128 * 1024.
Definition kMaximumManifestFiles : Z := 2048.
Definition kMaximumManifestDirectories : Z := 2048.
Definition kMaximumManifestDeletions : Z := 256.
Definition kMaximumManifestReplacements : Z := 256.
Definition kMaximumManifestPathBytes : Z := 240.
Definition kMaximumManifestSchemas : Z := 32.
Definition kMaximumManifestMigrations : Z := 64.
Definition kMaximumManifestLossyChanges : Z := 64.
Definition kMaximumAssetBytes : Z := 512 * 1024 * 1024.
Definition kMaximumFileBytes : Z := 128 * 1024 * 1024.
Definition kSafetyReserveBytes : Z := 16 * 1024 * 1024.

Inductive ManifestFilePolicy := Kernel | ManagedReplace | ConfigTemplate | Preserve | Metadata.
Inductive ManifestCompression := Store | Deflate.

#[export] Instance ManifestFilePolicy_eq_dec : EqDecision ManifestFilePolicy.
Proof. solve_decision. Defined.
#[export] Instance ManifestCompression_eq_dec : EqDecision ManifestCompression.
Proof. solve_decision. Defined.

Record ManifestFile := mkManifestFile {
  file_path : bytes;
  file_size : Z;
  file_sha256 : bytes;
  file_policy : ManifestFilePolicy;
  file_compression : ManifestCompression;
}.

Record ManifestReplacement := mkReplacement { replaced_path : bytes; replaced_by : bytes }.

Record ManifestConfigSchema := mkConfigSchema {
  cs_area : ConfigArea;
  cs_target_version : Z;
  cs_accepted_versions : list Z;
}.

Record ManifestMigration := mkManifestMigration {
  mm_id : bytes;
  mm_area : ConfigArea;
  mm_from_version : Z;
  mm_to_version : Z;
  mm_lossy : bool;
}.

Record ManifestLossyChange := mkLossyChange { change_area : ConfigArea; description : bytes }.

Record ManifestAsset := mkManifestAsset {
  asset_board : BoardFamily;
  filename : bytes;
  download_size : Z;
  asset_sha256 : bytes;
  installed_size : Z;
  required_peak_bytes : Z;
  asset_files : list ManifestFile;
  directories : list bytes;
  deletions : list bytes;
  replacements : list ManifestReplacement;
  configuration_reset_required : bool;
}.

(** The fields of the [release] object. *)
Record ReleaseHead := mkReleaseHead {
  version : bytes;
  tag : bytes;
  source_commit : bytes;
  release_sequence : Z;
  release_epoch : Z;
  minimum_updater_abi : Z;
  maximum_updater_abi : Z;
  signing_key_ids : list bytes;
}.

(** The fields of the [configuration] object. *)
Record ReleaseConfiguration := mkReleaseConfiguration {
  manifest_schemas : list ManifestConfigSchema;
  manifest_migrations : list ManifestMigration;
  lossy_changes : list ManifestLossyChange;
}.

Record ReleaseManifest := mkReleaseManifest {
  manifest_version : Z;
  release : ReleaseHead;
  configuration : ReleaseConfiguration;
  asset : ManifestAsset;
}.

(** The capacities of the arrays that the caller provides. *)
Record ManifestParseStorage := mkStorage {
  token_capacity : Z;
  file_capacity : Z;
  directory_capacity : Z;
  deletion_capacity : Z;
  replacement_capacity : Z;
}.

Inductive ManifestParseStatus :=
| Ok | InvalidArgument | InvalidSize | JsonInvalid | UnsupportedVersion | WrongType
| MissingField | UnknownField | InvalidValue | LimitExceeded | UnsupportedConfiguration
| TargetAssetMissing | DuplicateAsset | InventoryMismatch | StorageTooSmall.

(** ** Texts *)
Definition ident_punct (c : Z) : bool := (c =? ch "."%char) || (c =? ch "_"%char) || (c =? ch "-"%char).
Definition version_punct (c : Z) : bool := ident_punct c || (c =? ch "+"%char).

(** What [IsIdentifier], [IsVersion] and [IsTag] have in common. *)
Definition token_text (punct : Z -> bool) (maximum : Z) (value : bytes) : bool :=
  match value with
  | [] => false
  | c :: rest => is_alnum c && (len value <=? maximum) && forallb (fun c => is_alnum c || punct c) rest
  end.
Definition IsIdentifier (value : bytes) : bool := token_text ident_punct 64 value.
Definition IsVersion (value : bytes) : bool := token_text version_punct 64 value.
Definition IsTag (value : bytes) : bool := token_text version_punct 128 value.

Definition IsLowerHex (c : Z) : bool := in_range 48 57 c || in_range 97 102 c.
Definition hex_digit (c : Z) : Z := if c <=? 57 then c - 48 else c - 97 + 10.

Fixpoint sha_loop (value : bytes) : option bytes :=
  match value with
  | [] => Some []
  | high :: low :: value' =>
      if negb (IsLowerHex high) || negb (IsLowerHex low) then None
      else cons (u8 (Z.lor (Z.shiftl (hex_digit high) 4) (hex_digit low))) <$> sha_loop value'
  | [_] => None
  end.
Definition ParseSha256 (value : bytes) : option bytes :=
  if negb (len value =? 64) then None else sha_loop value.

Definition IsSourceCommit (value : bytes) : bool :=
  ((len value =? 40) || (len value =? 64)) && forallb IsLowerHex value.

Definition IsDisplaySafeDescription (value : bytes) : bool :=
  negb (len value =? 0) && forallb (in_range 0x20 0x7e) value.

Definition ParseConfigArea (value : bytes) : ConfigArea :=
  if bytes_eqb value (str "machines") then Machines
  else if bytes_eqb value (str "config_managed_block") then ConfigManagedBlock
  else if bytes_eqb value (str "cmdline_managed") then CmdlineManagedKeys
  else if bytes_eqb value (str "network") then Network
  else if bytes_eqb value (str "settings") then Settings
  else if bytes_eqb value (str "update_state") then UpdateState
  else ConfigAreaUnknown.

Definition RegistryStatusToManifestStatus (status : ConfigMigrationRegistryStatus) : ManifestParseStatus :=
  match status with
  | RegistryValid => Ok
  | UnknownMigration | DeclarationMismatch | RegistryInvalidInput => UnsupportedConfiguration
  | DuplicateDeclaration | SchemaMismatch => InvalidValue
  end.

Definition IsSafeManifestPath (path : bytes) : bool :=
  bool_decide (ValidateFatRelativePath (Some path) kMaximumManifestPathBytes = FatPathPolicy.Ok).

(** The comparison with the previous element of a sorted array: [i != 0] and
    [strcmp(previous, text) >= 0] is refused. *)
Definition ascends (earlier : list bytes) (text : bytes) : bool :=
  match last earlier with
  | None => true
  | Some previous => bool_decide (strcmp previous text = Lt)
  end.

(** *** Machine kernels *)
Definition kMachineKernelMachines : list bytes :=
  str <$> ["c64"; "c64sc"; "scpu64"; "c128"; "vic20"; "plus4"; "pet"; "atari800"; "updater"; "intro"]%string.
Definition kRequiredKernelMachineCount : Z := 8.
Definition kRequiredKernelMachineMask : Z := u16 (Z.shiftl 1 kRequiredKernelMachineCount - 1).

(** The bit of the machine, 0 for one that is not required. *)
Definition ParseMachineKernelSuffix (suffix : bytes) : option Z :=
  if (len suffix =? 0) || bool_decide (ch "."%char ∈ suffix) then None
  else match list_find (fun machine => machine = suffix) kMachineKernelMachines with
       | None => None
       | Some (machine_index, _) =>
           Some (if Z.of_nat machine_index <? kRequiredKernelMachineCount
                 then u16 (Z.shiftl 1 (Z.of_nat machine_index)) else 0)
       end.

(** [strrchr]: the offset of the last occurrence. *)
Definition last_index_of (c : Z) (l : bytes) : option nat :=
  (fun i => length l - 1 - i)%nat <$> index_of c (rev l).

Definition kImageSuffix : bytes := str ".img".

(** The common base (empty while it is unknown) and the bit of the machine. *)
Definition ParseMachineKernelPath (path common_base : bytes) (common_base_size : Z) : option (bytes * Z) :=
  if bool_decide (ch "/"%char ∈ path) then None
  else match last_index_of (ch "."%char) path with
  | None | Some O => None
  | Some base_size =>
      match ParseMachineKernelSuffix (drop (S base_size) path) with
      | None => None
      | Some machine_bit =>
          let base := take base_size path in
          if (Z.of_nat base_size <? len kImageSuffix) || negb (starts_with (str "kernel") path) ||
             negb (bytes_eqb (sub base (Z.of_nat base_size - len kImageSuffix) (len kImageSuffix)) kImageSuffix) ||
             (common_base_size <? Z.of_nat base_size + 1)
          then None
          else match common_base with
               | [] => Some (base, machine_bit)
               | _ => if bytes_eqb common_base base then Some (common_base, machine_bit) else None
               end
      end
  end.

(** The loop of [AsciiCaseEqual]. *)
Fixpoint AsciiCaseEqual (left right : bytes) : bool :=
  match left, right with
  | a :: left', b :: right' => if AsciiLower a =? AsciiLower b then AsciiCaseEqual left' right' else false
  | [], [] => true
  | _, _ => false
  end.

(** ** The parser: the text, its tokens and the caller's arrays are its members *)
Section Parser.
Variables (json : bytes) (tokens : list JsonToken) (target_board : BoardFamily) (storage : ManifestParseStorage).
Notation result := (parsed ManifestParseStatus).

Definition Member (object : Z) (name : bytes) : Z := member json tokens object name.

(** The loop over the direct children of an object: every other one is a key. *)
Fixpoint exact_keys (index object_end : Z) (fields : list bytes) (rest : list JsonToken) (expect_key : bool)
    : option bool :=
  match rest with
  | [] => Some expect_key
  | t :: rest' =>
      if object_end <=? start t then Some expect_key
      else if negb (parent t =? index) then exact_keys index object_end fields rest' expect_key
      else if expect_key && negb (existsb (fun field => JsonStringEquals (Some json) t (Some field)) fields) then None
      else exact_keys index object_end fields rest' (negb expect_key)
  end.

Definition ExactObject (index : Z) (fields : list bytes) : bool :=
  if (index <? 0) || (len tokens <=? index) then false
  else match tokens !! Z.to_nat index with
  | None => false
  | Some object =>
      if negb (bool_decide (type object = JSON_TOKEN_OBJECT)) || negb (child_count object =? len fields * 2) then false
      else match exact_keys index (tok_end object) fields (drop (Z.to_nat (index + 1)) tokens) true with
           | Some true => forallb (fun field => 0 <=? Member index field) fields
           | _ => false
           end
  end.

Definition token_in (token : Z) : option JsonToken :=
  if (token <? 0) || (len tokens <=? token) then None else tokens !! Z.to_nat token.

Definition CopyString (token output_size : Z) : option bytes :=
  match token_in token with Some t => copy_string json t output_size | None => None end.

Definition Uint64 (token minimum maximum : Z) : option Z :=
  match token_in token with
  | Some t =>
      match get_uint64 json t with
      | Some parsed => if (parsed <? minimum) || (maximum <? parsed) then None else Some parsed
      | None => None
      end
  | None => None
  end.

Definition Uint32 (token minimum maximum : Z) : option Z := u32 <$> Uint64 token minimum maximum.

Definition Bool (token : Z) : option bool :=
  match token_in token with Some t => get_bool t | None => None end.

Definition DirectChildren (array : Z) : Z :=
  match token_in array with
  | Some t => if bool_decide (type t = JSON_TOKEN_ARRAY) then child_count t else 0
  | None => 0
  end.

Fixpoint child_loop (array array_end ordinal found i : Z) (rest : list JsonToken) : Z :=
  match rest with
  | [] => -1
  | t :: rest' =>
      if array_end <=? start t then -1
      else if negb (parent t =? array) then child_loop array array_end ordinal found (i + 1) rest'
      else if found =? ordinal then i
      else child_loop array array_end ordinal (found + 1) (i + 1) rest'
  end.

Definition DirectChild (array ordinal : Z) : result Z :=
  match drop (Z.to_nat (array + 1)) tokens with
  | [] => Val (-1)
  | rest => get! t := token_at tokens array in Val (child_loop array (tok_end t) ordinal 0 (array + 1) rest)
  end.

(** [if (index < 0 || tokens_[index].type != JSON_TOKEN_ARRAY) return WrongType;] *)
Definition need_array (index : Z) : result unit :=
  need (0 <=? index) WrongType ;!
  get! t := token_at tokens index in
  need (bool_decide (type t = JSON_TOKEN_ARRAY)) WrongType.

(** ** The release object *)
Definition kReleaseFields : list bytes :=
  str <$> ["version"; "release_sequence"; "release_epoch"; "tag"; "channel"; "source_commit";
    "minimum_updater_abi"; "maximum_updater_abi"; "signing_key_ids"]%string.

Definition signing_key (keys i : Z) (out : list bytes) : result (list bytes) :=
  get! child := DirectChild keys i in
  get! id := some (CopyString child 65) InvalidValue in
  need (IsIdentifier id) InvalidValue ;!
  need (ascends out id) InvalidValue ;!
  Val (out ++ [id]).

Definition ParseRelease (index : Z) : result ReleaseHead :=
  let field name := Member index (str name) in
  need (ExactObject index kReleaseFields) UnknownField ;!
  get! version := some (CopyString (field "version"%string) 65) InvalidValue in
  need (IsVersion version) InvalidValue ;!
  get! tag := some (CopyString (field "tag"%string) 129) InvalidValue in
  need (IsTag tag) InvalidValue ;!
  get! channel := some (CopyString (field "channel"%string) 16) InvalidValue in
  need (bytes_eqb channel (str "stable")) InvalidValue ;!
  get! source_commit := some (CopyString (field "source_commit"%string) 65) InvalidValue in
  need (IsSourceCommit source_commit) InvalidValue ;!
  get! release_sequence := some (Uint64 (field "release_sequence"%string) 1 INT32_MAX) InvalidValue in
  get! release_epoch := some (Uint64 (field "release_epoch"%string) 1 INT64_MAX) InvalidValue in
  get! minimum := some (Uint32 (field "minimum_updater_abi"%string) 1 INT32_MAX) InvalidValue in
  get! maximum := some (Uint32 (field "maximum_updater_abi"%string) 1 INT32_MAX) InvalidValue in
  need (negb (maximum <? minimum)) InvalidValue ;!
  let keys := field "signing_key_ids"%string in
  let key_count := DirectChildren keys in
  need (negb ((key_count =? 0) || (4 <? key_count))) LimitExceeded ;!
  get! ids := for_each key_count [] (signing_key keys) in
  Val (mkReleaseHead version tag source_commit release_sequence release_epoch minimum maximum ids).

(** ** The configuration object *)
Definition accepted_version (accepted i : Z) (out : list Z) : result (list Z) :=
  get! child := DirectChild accepted i in
  get! version := some (Uint32 child 0 INT32_MAX) InvalidValue in
  need (match last out with Some previous => previous <? version | None => true end) InvalidValue ;!
  Val (out ++ [version]).

(** One schema, with those before it and their identifiers. *)
Definition parse_schema (schemas i : Z) (state : list ManifestConfigSchema * list bytes)
    : result (list ManifestConfigSchema * list bytes) :=
  let '(out, ids) := state in
  get! schema := DirectChild schemas i in
  need (ExactObject schema [str "id"; str "target_version"; str "accepted_versions"]) UnknownField ;!
  get! id := some (CopyString (Member schema (str "id")) 65) InvalidValue in
  need (IsIdentifier id) InvalidValue ;!
  need (ascends ids id) InvalidValue ;!
  let area := ParseConfigArea id in
  need (IsKnownConfigArea area && negb (bool_decide (area ∈ cs_area <$> out))) UnsupportedConfiguration ;!
  get! target := some (Uint32 (Member schema (str "target_version")) 0 INT32_MAX) UnsupportedConfiguration in
  let accepted := Member schema (str "accepted_versions") in
  need_array accepted ;!
  let accepted_count := DirectChildren accepted in
  need (negb ((accepted_count =? 0) || (32 <? accepted_count))) LimitExceeded ;!
  get! versions := for_each accepted_count [] (accepted_version accepted) in
  need (bool_decide (target ∈ versions)) InvalidValue ;!
  Val (out ++ [mkConfigSchema area target versions], ids ++ [id]).

Definition kMigrationFields : list bytes :=
  str <$> ["area"; "from_version"; "id"; "lossy"; "to_version"]%string.

Definition parse_migration (migrations i : Z) (out : list ManifestMigration) : result (list ManifestMigration) :=
  get! migration := DirectChild migrations i in
  need (ExactObject migration kMigrationFields) UnknownField ;!
  let field name := Member migration (str name) in
  get! id := some (CopyString (field "id"%string) 65) InvalidValue in
  need (IsIdentifier id) InvalidValue ;!
  need (ascends (mm_id <$> out) id) InvalidValue ;!
  get! area := some (CopyString (field "area"%string) 65) InvalidValue in
  need (IsIdentifier area) InvalidValue ;!
  get! from_version := some (Uint32 (field "from_version"%string) 0 INT32_MAX) InvalidValue in
  get! to_version := some (Uint32 (field "to_version"%string) 0 INT32_MAX) InvalidValue in
  get! lossy := some (Bool (field "lossy"%string)) InvalidValue in
  need (IsKnownConfigArea (ParseConfigArea area)) UnsupportedConfiguration ;!
  Val (out ++ [mkManifestMigration id (ParseConfigArea area) from_version to_version lossy]).

Definition schema_view (s : ManifestConfigSchema) : ConfigSchemaRequirement :=
  mkRequirement (cs_area s) (cs_target_version s) (cs_accepted_versions s).
Definition migration_view (m : ManifestMigration) : DeclaredConfigMigration :=
  mkMigration (mm_id m) (mm_area m) (mm_from_version m) (mm_to_version m) (mm_lossy m).

(** One warning, with those before it and the names of their areas. *)
Definition parse_lossy_change (lossy i : Z) (state : list ManifestLossyChange * list bytes)
    : result (list ManifestLossyChange * list bytes) :=
  let '(out, areas) := state in
  get! change := DirectChild lossy i in
  need (ExactObject change [str "area"; str "description"]) UnknownField ;!
  get! area := some (CopyString (Member change (str "area")) 65) InvalidValue in
  need (IsIdentifier area) InvalidValue ;!
  get! text := some (CopyString (Member change (str "description")) 257) InvalidValue in
  need (IsDisplaySafeDescription text) InvalidValue ;!
  need (IsKnownConfigArea (ParseConfigArea area)) UnsupportedConfiguration ;!
  need (ascends areas area) InvalidValue ;!
  Val (out ++ [mkLossyChange (ParseConfigArea area) text], areas ++ [area]).

Definition ParseConfiguration (index : Z) : result ReleaseConfiguration :=
  need (ExactObject index [str "schemas"; str "migrations"; str "lossy_changes"]) UnknownField ;!
  let schemas := Member index (str "schemas") in
  need_array schemas ;!
  need ((DirectChildren schemas =? 6) && negb (kMaximumManifestSchemas <? DirectChildren schemas))
    UnsupportedConfiguration ;!
  get! s := for_each (DirectChildren schemas) ([], []) (parse_schema schemas) in
  let schema_list := s.1 in
  let migrations := Member index (str "migrations") in
  need_array migrations ;!
  need (negb (kMaximumManifestMigrations <? DirectChildren migrations)) LimitExceeded ;!
  get! migration_list := for_each (DirectChildren migrations) [] (parse_migration migrations) in
  need (DirectChildren schemas =? kConfigMigrationAreaCount) UnsupportedConfiguration ;!
  match RegistryStatusToManifestStatus
          (ValidateConfigMigrationDeclarations (schema_view <$> schema_list) (migration_view <$> migration_list)) with
  | Ok =>
      let lossy := Member index (str "lossy_changes") in
      need_array lossy ;!
      need (negb ((kConfigMigrationAreaCount <? DirectChildren lossy) ||
                  (kMaximumManifestLossyChanges <? DirectChildren lossy))) LimitExceeded ;!
      get! l := for_each (DirectChildren lossy) ([], []) (parse_lossy_change lossy) in
      let changes := l.1 in
      need (forallb (fun change => existsb (fun m => mm_lossy m && bool_decide (mm_area m = change_area change))
                                     migration_list) changes) UnsupportedConfiguration ;!
      need (forallb (fun m => negb (mm_lossy m) ||
                              existsb (fun change => bool_decide (change_area change = mm_area m)) changes)
              migration_list) UnsupportedConfiguration ;!
      Val (mkReleaseConfiguration schema_list migration_list changes)
  | status => Stop status
  end.

(** ** The lists of an asset *)
Definition safe_path (index i : Z) (out : list bytes) : result (list bytes) :=
  get! child := DirectChild index i in
  get! path := some (CopyString child (kMaximumManifestPathBytes + 1)) InvalidValue in
  need (IsSafeManifestPath path) InvalidValue ;!
  need (ascends out path) InvalidValue ;!
  Val (out ++ [path]).

(** What [ParseDirectories] and [ParseDeletions] share. *)
Definition parse_paths (index : Z) (store : bool) (maximum capacity : Z) : result (list bytes) :=
  need_array index ;!
  let count := DirectChildren index in
  need (negb (maximum <? count)) LimitExceeded ;!
  need (negb (store && (capacity <? count))) StorageTooSmall ;!
  get! out := for_each count [] (safe_path index) in
  Val (if store then out else []).

Definition ParseDirectories (index : Z) (store : bool) : result (list bytes) :=
  parse_paths index store kMaximumManifestDirectories (directory_capacity storage).

Definition ParseDeletions (manifest_version index : Z) (store : bool) : result (list bytes) :=
  if manifest_version <? 3 then Val []
  else parse_paths index store kMaximumManifestDeletions (deletion_capacity storage).

Definition kFileFields : list bytes := str <$> ["path"; "size"; "sha256"; "policy"; "compression"]%string.

Definition parse_policy (policy : bytes) : option ManifestFilePolicy :=
  if bytes_eqb policy (str "kernel") then Some Kernel
  else if bytes_eqb policy (str "managed-replace") then Some ManagedReplace
  else if bytes_eqb policy (str "config-template") then Some ConfigTemplate
  else if bytes_eqb policy (str "preserve") then Some Preserve
  else if bytes_eqb policy (str "metadata") then Some Metadata
  else None.
Definition parse_compression (compression : bytes) : option ManifestCompression :=
  if bytes_eqb compression (str "store") then Some Store
  else if bytes_eqb compression (str "deflate") then Some Deflate
  else None.

(** The variables of the loop of [ParseFiles]; the files are those parsed so far. *)
Record FilesState := mkFilesState {
  fs_files : list ManifestFile;
  fs_installed_size : Z;
  required_machine_kernels : Z;
  machine_kernel_base : bytes;
  required_config : bool;
  has_tryboot : bool;
  required_active_selector : bool;
  has_candidate_selector : bool;
}.

(** The kernels seen so far and their base, with one more file. *)
Definition note_kernel (file : ManifestFile) (s : FilesState) : result (Z * bytes) :=
  if bool_decide (file_policy file = Kernel) then
    get! k := some (ParseMachineKernelPath (file_path file) (machine_kernel_base s) (kMaximumManifestPathBytes + 1))
                InventoryMismatch in
    let '(base, machine_bit) := k in
    if negb (machine_bit =? 0) then
      need (Z.land (required_machine_kernels s) machine_bit =? 0) InventoryMismatch ;!
      Val (u16 (Z.lor (required_machine_kernels s) machine_bit), base)
    else Val (required_machine_kernels s, base)
  else Val (required_machine_kernels s, machine_kernel_base s).

Definition parse_file (index i : Z) (s : FilesState) : result FilesState :=
  get! entry := DirectChild index i in
  need (ExactObject entry kFileFields) UnknownField ;!
  let field name := Member entry (str name) in
  get! path := some (CopyString (field "path"%string) (kMaximumManifestPathBytes + 1)) InvalidValue in
  need (IsSafeManifestPath path) InvalidValue ;!
  need (ascends (file_path <$> fs_files s) path) InvalidValue ;!
  get! size := some (Uint64 (field "size"%string) 0 kMaximumFileBytes) InvalidValue in
  get! sha := some (CopyString (field "sha256"%string) 65) InvalidValue in
  get! digest := some (ParseSha256 sha) InvalidValue in
  get! policy_text := some (CopyString (field "policy"%string) 32) InvalidValue in
  get! compression_text := some (CopyString (field "compression"%string) 16) InvalidValue in
  get! policy := some (parse_policy policy_text) InvalidValue in
  get! compression := some (parse_compression compression_text) InvalidValue in
  need (negb (kMaximumAssetBytes - size <? fs_installed_size s)) LimitExceeded ;!
  let file := mkManifestFile path size digest policy compression in
  get! k := note_kernel file s in
  Val (mkFilesState (fs_files s ++ [file]) (fs_installed_size s + size) k.1 k.2
         (required_config s || bytes_eqb path (str "config.txt"))
         (has_tryboot s || bytes_eqb path (str "tryboot.txt"))
         (required_active_selector s || bytes_eqb path (str "bmx-active-kernel.txt"))
         (has_candidate_selector s || bytes_eqb path (str "bmx-tryboot-kernel.txt"))).

Definition ParseFiles (index : Z) (store : bool) (expected_installed_size : Z) : result (list ManifestFile) :=
  need_array index ;!
  let count := DirectChildren index in
  need (negb ((count =? 0) || (kMaximumManifestFiles <? count))) LimitExceeded ;!
  need (negb (store && (file_capacity storage <? count))) StorageTooSmall ;!
  get! s := for_each count (mkFilesState [] 0 0 [] false false false false) (parse_file index) in
  need (negb (negb (required_machine_kernels s =? kRequiredKernelMachineMask) || negb (required_config s) ||
              negb (required_active_selector s) || negb (Bool.eqb (has_tryboot s) (has_candidate_selector s)) ||
              negb (fs_installed_size s =? expected_installed_size))) InventoryMismatch ;!
  Val (if store then fs_files s else []).

Definition parse_replacement (index : Z) (store : bool) (files : list ManifestFile) (i : Z)
    (out : list ManifestReplacement) : result (list ManifestReplacement) :=
  get! entry := DirectChild index i in
  need (ExactObject entry [str "path"; str "replaced_by"]) InvalidValue ;!
  get! path := some (CopyString (Member entry (str "path")) (kMaximumManifestPathBytes + 1)) InvalidValue in
  get! by_path := some (CopyString (Member entry (str "replaced_by")) (kMaximumManifestPathBytes + 1)) InvalidValue in
  need (IsSafeManifestPath path && IsSafeManifestPath by_path && negb (bytes_eqb path by_path) &&
        ascends (replaced_path <$> out) path) InvalidValue ;!
  need (negb store ||
        existsb (fun file => bytes_eqb (file_path file) by_path &&
                   (bool_decide (file_policy file = Kernel) || bool_decide (file_policy file = ManagedReplace)))
          files) InventoryMismatch ;!
  Val (out ++ [mkReplacement path by_path]).

Definition ParseReplacements (manifest_version index : Z) (store : bool) (files : list ManifestFile)
    : result (list ManifestReplacement) :=
  if manifest_version <? 3 then Val []
  else
    need_array index ;!
    let count := DirectChildren index in
    need (negb (kMaximumManifestReplacements <? count)) LimitExceeded ;!
    need (negb (store && (replacement_capacity storage <? count))) StorageTooSmall ;!
    get! out := for_each count [] (parse_replacement index store files) in
    Val (if store then out else []).

(** ** An asset *)
Definition kV2Fields : list bytes :=
  str <$> ["board_family"; "supported_models"; "filename"; "download_size"; "sha256"; "installed_size";
    "required_peak_bytes"; "zip_profile"; "directories"; "files"]%string.
Definition kV3Fields : list bytes :=
  kV2Fields ++ (str <$> ["configuration_reset_required"; "deletions"; "replacements"]%string).

Definition models_match (board : BoardFamily) (first second : bytes) : bool :=
  match board with
  | Pi4Pi400 => bytes_eqb first (str "Raspberry Pi 4") && bytes_eqb second (str "Raspberry Pi 400")
  | Pi5Pi500 => bytes_eqb first (str "Raspberry Pi 5") && bytes_eqb second (str "Raspberry Pi 500")
  | BoardUnknown => true
  end.

Definition expected_filename (version : bytes) (board : BoardFamily) : bytes :=
  str "bmx-" ++ version ++ str "-" ++
  (if bool_decide (board = Pi4Pi400) then str "pi4-pi400" else str "pi5-pi500") ++ str "-boot.zip".

(** [download_size + installed_size + kSafetyReserveBytes <= required_peak_bytes]
    without overflow. *)
Definition peak_suffices (download installed peak : Z) : bool :=
  negb ((UINT64_MAX - installed <? download) || (UINT64_MAX - kSafetyReserveBytes <? u64 (download + installed)) ||
        (peak <? u64 (download + installed + kSafetyReserveBytes))).

Definition ParseAsset (manifest_version : Z) (release_version : bytes) (index : Z) (store : bool)
    : result ManifestAsset :=
  let field name := Member index (str name) in
  need (ExactObject index (if 3 <=? manifest_version then kV3Fields else kV2Fields)) UnknownField ;!
  get! board_text := some (CopyString (field "board_family"%string) 8) InvalidValue in
  get! board := some (parse_board board_text) InvalidValue in
  let models := field "supported_models"%string in
  need (0 <=? models) InvalidValue ;!
  get! models_token := token_at tokens models in
  need (bool_decide (type models_token = JSON_TOKEN_ARRAY) && (DirectChildren models =? 2)) InvalidValue ;!
  get! first := DirectChild models 0 in
  get! first_model := some (CopyString first 32) InvalidValue in
  get! second := DirectChild models 1 in
  get! second_model := some (CopyString second 32) InvalidValue in
  need (models_match board first_model second_model) InvalidValue ;!
  get! filename := some (CopyString (field "filename"%string) 161) InvalidValue in
  get! download_size := some (Uint64 (field "download_size"%string) 1 kMaximumAssetBytes) InvalidValue in
  get! sha := some (CopyString (field "sha256"%string) 65) InvalidValue in
  get! digest := some (ParseSha256 sha) InvalidValue in
  get! installed_size := some (Uint64 (field "installed_size"%string) 1 kMaximumAssetBytes) InvalidValue in
  get! required_peak := some (Uint64 (field "required_peak_bytes"%string) 1 INT64_MAX) InvalidValue in
  get! zip_profile := some (CopyString (field "zip_profile"%string) 32) InvalidValue in
  need (bytes_eqb zip_profile (str "bmx-zip32-v1")) InvalidValue ;!
  need (len (expected_filename release_version board) <? 161) InvalidValue ;!
  need (bytes_eqb filename (expected_filename release_version board)) InvalidValue ;!
  need (peak_suffices download_size installed_size required_peak) InvalidValue ;!
  get! directories := ParseDirectories (field "directories"%string) store in
  get! files := ParseFiles (field "files"%string) store installed_size in
  get! reset := (if 3 <=? manifest_version
                 then some (Bool (field "configuration_reset_required"%string)) WrongType else Val false) in
  get! deletions := ParseDeletions manifest_version (field "deletions"%string) store in
  get! replacements := ParseReplacements manifest_version (field "replacements"%string) store files in
  Val (mkManifestAsset board filename download_size digest installed_size required_peak files directories
         deletions replacements reset).

(** The numbers of the boards. *)
Definition board_id (b : BoardFamily) : Z := match b with BoardUnknown => 0 | Pi4Pi400 => 1 | Pi5Pi500 => 2 end.

(** The variables of the loop of [ParseAssets]; the asset is that of the target. *)
Record AssetsState := mkAssetsState {
  previous_board : BoardFamily;
  found_target : option ManifestAsset;
  board_mask : Z;
}.

Definition assets_turn (manifest_version : Z) (release_version : bytes) (index i : Z) (s : AssetsState)
    : result AssetsState :=
  get! asset_index := DirectChild index i in
  get! parsed := ParseAsset manifest_version release_version asset_index false in
  need (negb (negb (bool_decide (previous_board s = BoardUnknown)) &&
              (board_id (asset_board parsed) <=? board_id (previous_board s)))) DuplicateAsset ;!
  let mask := Z.lor (board_mask s) (if bool_decide (asset_board parsed = Pi4Pi400) then 1 else 2) in
  if bool_decide (asset_board parsed = target_board) then
    need (negb (bool_decide (is_Some (found_target s)))) DuplicateAsset ;!
    get! stored := ParseAsset manifest_version release_version asset_index true in
    Val (mkAssetsState (asset_board parsed) (Some stored) mask)
  else Val (mkAssetsState (asset_board parsed) (found_target s) mask).

(** Two elements of a list at different places, or of two lists, that name the
    same file on FAT. *)
Fixpoint clash_within (l : list bytes) : bool :=
  match l with
  | [] => false
  | p :: l' => existsb (AsciiCaseEqual p) l' || clash_within l'
  end.
Definition clash_between (l m : list bytes) : bool := existsb (fun p => existsb (AsciiCaseEqual p) m) l.

Definition inventory_clashes (a : ManifestAsset) : bool :=
  let files := file_path <$> asset_files a in
  let replaced := replaced_path <$> replacements a in
  clash_within files || clash_between files (directories a) || clash_within (directories a) ||
  clash_between (deletions a) files || clash_within (deletions a) ||
  clash_between replaced files || clash_between replaced (deletions a) || clash_within replaced.

Definition ParseAssets (manifest_version : Z) (release_version : bytes) (index : Z) : result ManifestAsset :=
  need_array index ;!
  need (DirectChildren index =? 2) LimitExceeded ;!
  get! s := for_each (DirectChildren index) (mkAssetsState BoardUnknown None 0)
              (assets_turn manifest_version release_version index) in
  need (board_mask s =? 3) DuplicateAsset ;!
  get! asset := some (found_target s) TargetAssetMissing in
  need (negb (inventory_clashes asset)) InventoryMismatch ;!
  Val asset.

(** ** The manifest *)
Definition kRootFields : list bytes := str <$> ["manifest_version"; "release"; "configuration"; "assets"]%string.

Definition Parse : result ReleaseManifest :=
  match tokens with
  | [] => Stop WrongType
  | root :: _ =>
      need (bool_decide (type root = JSON_TOKEN_OBJECT)) WrongType ;!
      need (ExactObject 0 kRootFields) UnknownField ;!
      get! manifest_version := some (Uint32 (Member 0 (str "manifest_version")) 2 3) UnsupportedVersion in
      get! release := ParseRelease (Member 0 (str "release")) in
      get! configuration := ParseConfiguration (Member 0 (str "configuration")) in
      get! asset := ParseAssets manifest_version (version release) (Member 0 (str "assets")) in
      Val (mkReleaseManifest manifest_version release configuration asset)
  end.
End Parser.

Definition ParseReleaseManifest (encoded : bytes) (target_board : BoardFamily) (storage : ManifestParseStorage)
    : parsed ManifestParseStatus ReleaseManifest :=
  need (negb ((token_capacity storage =? 0) || (file_capacity storage =? 0) || (directory_capacity storage =? 0) ||
              (deletion_capacity storage =? 0) || (replacement_capacity storage =? 0) ||
              negb (IsKnownBoardFamily target_board))) InvalidArgument ;!
  need (object_file encoded kMaximumReleaseManifestBytes) InvalidSize ;!
  need (negb (bool_decide (CR ∈ encoded))) JsonInvalid ;!
  get! r := parse_text encoded (token_capacity storage) 32 in
  match r with
  | (JSON_OK, tokens) => Parse encoded tokens target_board storage
  | (JSON_ERROR_TOKEN_LIMIT, _) => Stop StorageTooSmall
  | _ => Stop JsonInvalid
  end.

Definition ManifestListsSigningKey (manifest : ReleaseManifest) (key_id : bytes) : bool :=
  existsb (fun id => bytes_eqb id key_id) (signing_key_ids (release manifest)).

Definition ManifestParseStatusString (status : ManifestParseStatus) : bytes :=
  match status with
  | Ok => str "ok"
  | InvalidArgument => str "invalid argument"
  | InvalidSize => str "manifest size/format invalid"
  | JsonInvalid => str "manifest JSON invalid"
  | UnsupportedVersion => str "unsupported manifest version"
  | WrongType => str "manifest field has wrong type"
  | MissingField => str "manifest field missing"
  | UnknownField => str "manifest object fields differ"
  | InvalidValue => str "manifest value invalid"
  | LimitExceeded => str "manifest limit exceeded"
  | UnsupportedConfiguration => str "configuration migration unsupported"
  | TargetAssetMissing => str "target board asset missing"
  | DuplicateAsset => str "manifest assets duplicate or unsorted"
  | InventoryMismatch => str "manifest inventory/policy mismatch"
  | StorageTooSmall => str "manifest parse storage too small"
  end.

(** ** What an accepted manifest guarantees *)
Definition before_in_order (a b : bytes) : Prop := strcmp a b = Lt.
Definition ascending (l : list bytes) : Prop := StronglySorted before_in_order l.

#[export] Instance before_in_order_trans : Transitive before_in_order.
Proof. intros a b c. apply strcmp_lt_trans. Qed.

Record release_wf (h : ReleaseHead) : Prop := {
  wf_version : IsVersion (version h) = true;
  wf_tag : IsTag (tag h) = true;
  wf_commit : IsSourceCommit (source_commit h) = true;
  wf_sequence : 1 <= release_sequence h <= INT32_MAX;
  wf_epoch : 1 <= release_epoch h <= INT64_MAX;
  wf_abi : 1 <= minimum_updater_abi h <= maximum_updater_abi h /\ maximum_updater_abi h <= INT32_MAX;
  wf_keys : Forall (fun id => IsIdentifier id = true) (signing_key_ids h);
  wf_keys_ascending : ascending (signing_key_ids h);
  wf_keys_count : 1 <= len (signing_key_ids h) <= 4;
}.

Record configuration_wf (c : ReleaseConfiguration) : Prop := {
  wf_registry : registry_ok (schema_view <$> manifest_schemas c) (migration_view <$> manifest_migrations c);
  wf_changes : Forall (fun x => IsDisplaySafeDescription (description x) = true) (lossy_changes c);
  wf_changes_distinct : NoDup (change_area <$> lossy_changes c);
  wf_changes_complete : forall a, a ∈ change_area <$> lossy_changes c <->
    exists m, m ∈ manifest_migrations c /\ mm_lossy m = true /\ mm_area m = a;
}.

Definition digest_ok (d : bytes) : Prop := length d = 32%nat /\ Forall is_byte d.

Record file_ok (f : ManifestFile) : Prop := {
  ok_path : IsSafeManifestPath (file_path f) = true;
  ok_size : 0 <= file_size f <= kMaximumFileBytes;
  ok_digest : digest_ok (file_sha256 f);
}.

Definition total_size (l : list ManifestFile) : Z := foldr Z.add 0 (file_size <$> l).

(** The kernel images have one base name and there is one for every required
    machine. *)
Definition kernel_for (files : list ManifestFile) (base machine : bytes) : Prop :=
  exists f, f ∈ files /\ file_policy f = Kernel /\ file_path f = base ++ str "." ++ machine.

Record files_wf (files : list ManifestFile) (size : Z) : Prop := {
  wf_files : Forall file_ok files;
  wf_files_ascending : ascending (file_path <$> files);
  wf_total : total_size files = size;
  wf_kernels : exists base, Forall (kernel_for files base) (take 8 kMachineKernelMachines) /\
    Forall (fun f => file_policy f = Kernel ->
      exists machine, machine ∈ kMachineKernelMachines /\ file_path f = base ++ str "." ++ machine) files;
  wf_config : str "config.txt" ∈ file_path <$> files;
  wf_selector : str "bmx-active-kernel.txt" ∈ file_path <$> files;
  wf_tryboot : str "tryboot.txt" ∈ file_path <$> files <-> str "bmx-tryboot-kernel.txt" ∈ file_path <$> files;
}.

(** On FAT the two names denote one file. *)
Definition same_name (p q : bytes) : Prop := lower p = lower q.
Definition no_clash (l m : list bytes) : Prop := forall p q, p ∈ l -> q ∈ m -> ~ same_name p q.
Definition no_clash_within (l : list bytes) : Prop := NoDup (lower <$> l).

Record asset_wf (mversion : Z) (rversion : bytes) (board : BoardFamily) (storage : ManifestParseStorage)
    (a : ManifestAsset) : Prop := {
  wf_board : asset_board a = board;
  wf_filename : filename a = expected_filename rversion board;
  wf_download : 1 <= download_size a <= kMaximumAssetBytes;
  wf_digest : digest_ok (asset_sha256 a);
  wf_installed : 1 <= installed_size a <= kMaximumAssetBytes;
  wf_peak : download_size a + installed_size a + kSafetyReserveBytes <= required_peak_bytes a;
  wf_inventory : files_wf (asset_files a) (installed_size a);
  wf_directories : Forall (fun p => IsSafeManifestPath p = true) (directories a);
  wf_deletions : Forall (fun p => IsSafeManifestPath p = true) (deletions a);
  wf_replacements : Forall (fun r => IsSafeManifestPath (replaced_path r) = true /\
    exists f, f ∈ asset_files a /\ file_path f = replaced_by r /\
      (file_policy f = Kernel \/ file_policy f = ManagedReplace)) (replacements a);
  wf_names_files : no_clash_within (file_path <$> asset_files a);
  wf_names_directories : no_clash_within (directories a) /\ no_clash (file_path <$> asset_files a) (directories a);
  wf_names_deletions : no_clash_within (deletions a) /\ no_clash (deletions a) (file_path <$> asset_files a);
  wf_names_replaced : no_clash_within (replaced_path <$> replacements a) /\
    no_clash (replaced_path <$> replacements a) (file_path <$> asset_files a) /\
    no_clash (replaced_path <$> replacements a) (deletions a);
  wf_version_2 : mversion = 2 -> deletions a = [] /\ replacements a = [] /\ configuration_reset_required a = false;
  wf_fits : len (asset_files a) <= Z.min kMaximumManifestFiles (file_capacity storage) /\
    len (directories a) <= Z.min kMaximumManifestDirectories (directory_capacity storage) /\
    len (deletions a) <= Z.min kMaximumManifestDeletions (deletion_capacity storage) /\
    len (replacements a) <= Z.min kMaximumManifestReplacements (replacement_capacity storage);
}.

Record manifest_wf (board : BoardFamily) (storage : ManifestParseStorage) (m : ReleaseManifest) : Prop := {
  wf_manifest_version : manifest_version m = 2 \/ manifest_version m = 3;
  wf_release : release_wf (release m);
  wf_configuration : configuration_wf (configuration m);
  wf_asset : asset_wf (manifest_version m) (version (release m)) board storage (asset m);
}.

(** ** Lemmas on texts *)
Lemma ascends_snoc l p : ascending l -> ascends l p = true -> ascending (l ++ [p]).
Proof.
  unfold ascends. intros Hl Ha. destruct (last l) as [q|] eqn:Eq; [|apply last_None in Eq as ->; by repeat constructor].
  apply bool_decide_eq_true in Ha. apply last_Some in Eq as [l' ->]. apply StronglySorted_app.
  split; [|split; [done | by repeat constructor]]. intros x y Hx ->%list_elem_of_singleton.
  apply elem_of_app in Hx as [Hx| ->%list_elem_of_singleton]; [|done].
  transitivity q; [|done]. apply StronglySorted_app in Hl as (Hl & _). apply Hl; [done | by apply list_elem_of_singleton].
Qed.

Lemma ascending_NoDup l : ascending l -> NoDup l.
Proof.
  induction 1 as [|x l Hl IH Hx]; constructor; [|done]. intros Hin. rewrite Forall_forall in Hx.
  specialize (Hx x Hin). unfold before_in_order in Hx. by rewrite (proj2 (strcmp_eq x x) eq_refl) in Hx.
Qed.

Lemma AsciiCaseEqual_spec p : forall q, AsciiCaseEqual p q = true <-> same_name p q.
Proof.
  unfold same_name, lower. induction p as [|a p IH]; intros [|b q]; cbn; try done.
  destruct (Z.eqb_spec (AsciiLower a) (AsciiLower b)) as [E|E].
  - rewrite IH, E. split; [by intros -> | by intros [= ->]].
  - split; [done | by intros [= ? ?]].
Qed.

Lemma clash_between_spec l m : clash_between l m = false -> no_clash l m.
Proof.
  intros Hc p q Hp Hq Hs. apply AsciiCaseEqual_spec in Hs. unfold clash_between in Hc.
  apply existsb_Forall_bool in Hc. rewrite Forall_forall in Hc. specialize (Hc p Hp).
  apply existsb_Forall_bool in Hc. rewrite Forall_forall in Hc. specialize (Hc q Hq). congruence.
Qed.

Lemma clash_within_spec l : clash_within l = false -> no_clash_within l.
Proof.
  unfold no_clash_within. induction l as [|p l IH]; cbn; [constructor|]. intros [Hp Hl]%orb_false_iff.
  constructor; [|by apply IH]. intros (q & Hq & Hin)%list_elem_of_fmap. apply existsb_Forall_bool in Hp.
  rewrite Forall_forall in Hp. specialize (Hp q Hin). apply not_true_iff_false in Hp. by apply Hp, AsciiCaseEqual_spec.
Qed.

Lemma sha_loop_spec value : forall d, sha_loop value = Some d -> length value = (2 * length d)%nat /\ Forall is_byte d.
Proof.
  assert (Hpair : forall n value d, (length value < n)%nat -> sha_loop value = Some d ->
    length value = (2 * length d)%nat /\ Forall is_byte d).
  { induction n as [|n IH]; [lia|]. intros [|a [|b v]] d Hn; cbn [sha_loop]; [by intros [= <-] | done|].
    destruct (_ || _); [done|]. destruct (sha_loop v) as [d'|] eqn:Ed; [|done]. intros [= <-].
    cbn [length] in Hn. destruct (IH v d') as [Hl Hb]; [lia|done|]. cbn [length]. split; [lia|].
    constructor; [apply u8_range | done]. }
  intros d Hd. apply (Hpair (S (length value)) value d); [lia | done].
Qed.

Lemma ParseSha256_ok value d : ParseSha256 value = Some d -> digest_ok d.
Proof.
  unfold ParseSha256. destruct (Z.eqb_spec (len value) 64) as [E|]; [|done]. intros [Hl Hb]%sha_loop_spec.
  split; [unfold len in E; lia | done].
Qed.

Lemma ParseConfigArea_inj a b : IsKnownConfigArea (ParseConfigArea a) = true -> ParseConfigArea a = ParseConfigArea b -> a = b.
Proof.
  unfold ParseConfigArea, bytes_eqb. repeat case_bool_decide; subst; done.
Qed.

(** ** Machine kernels *)
Lemma last_index_of_split c l i : last_index_of c l = Some i -> l = take i l ++ c :: drop (S i) l.
Proof.
  unfold last_index_of. destruct (index_of c (rev l)) as [k|] eqn:Ek; [|done]. cbn. intros [= <-].
  apply index_of_split in Ek as (a & r & Hl & <- & _). apply (f_equal (@rev Z)) in Hl.
  rewrite rev_involutive, rev_app_distr in Hl. cbn in Hl. rewrite <- app_assoc in Hl. subst l.
  rewrite !length_app, length_rev. cbn [length app]. rewrite length_rev.
  replace (length r + (1 + length a) - 1 - length a)%nat with (length (rev r)) by (rewrite length_rev; lia).
  by rewrite take_app_length, drop_app_cons_length.
Qed.

Definition machine_bit_of (i : nat) : Z := if Z.of_nat i <? kRequiredKernelMachineCount then 2 ^ Z.of_nat i else 0.

Lemma ParseMachineKernelSuffix_spec suffix bit : ParseMachineKernelSuffix suffix = Some bit ->
  exists i, kMachineKernelMachines !! i = Some suffix /\ bit = machine_bit_of i.
Proof.
  unfold ParseMachineKernelSuffix. destruct (_ || _); [done|].
  destruct (list_find _ _) as [[i m]|] eqn:Ef; [|done]. apply list_find_Some in Ef as (Hi & -> & _).
  intros [= <-]. exists i. split; [done|]. unfold machine_bit_of. destruct (Z.ltb_spec (Z.of_nat i) kRequiredKernelMachineCount); [|done].
  rewrite Z.shiftl_1_l. apply Z.mod_small. split; [lia|]. apply Z.pow_lt_mono_r; unfold kRequiredKernelMachineCount in *; lia.
Qed.

Lemma ParseMachineKernelPath_spec path base size base' bit :
  ParseMachineKernelPath path base size = Some (base', bit) -> exists i machine,
    kMachineKernelMachines !! i = Some machine /\ path = base' ++ str "." ++ machine /\
    (base = [] \/ base = base') /\ base' <> [] /\ bit = machine_bit_of i.
Proof.
  unfold ParseMachineKernelPath. case_bool_decide; [done|].
  destruct (last_index_of _ path) as [n|] eqn:En; [|done]. destruct n as [|n]; [done|].
  apply last_index_of_split in En. destruct (ParseMachineKernelSuffix _) as [b|] eqn:Eb; [|done].
  apply ParseMachineKernelSuffix_spec in Eb as (i & Hi & ->). destruct (_ || _); [done|]. intros Hr.
  exists i, (drop (S (S n)) path). split; [done|].
  assert (Hne : take (S n) path <> []) by (destruct path; [by apply (f_equal length) in En|done]).
  destruct base as [|x base].
  - injection Hr as <- <-. split; [done|]. split; [by left|]. split; [done|done].
  - destruct (bytes_eqb (x :: base) (take (S n) path)) eqn:Ee; [|done]. apply bytes_eqb_eq in Ee.
    injection Hr as <- <-. rewrite Ee. split; [done|]. split; [by right|]. split; [done|done].
Qed.

(** What the loop over the files knows of the kernels. *)
Record kernels_seen (files : list ManifestFile) (mask : Z) (base : bytes) : Prop := {
  seen_none : base = [] -> Forall (fun f => file_policy f <> Kernel) files;
  seen_names : Forall (fun f => file_policy f = Kernel ->
    exists machine, machine ∈ kMachineKernelMachines /\ file_path f = base ++ str "." ++ machine) files;
  seen_bits : forall i, Z.testbit mask (Z.of_nat i) = true ->
    exists machine, kMachineKernelMachines !! i = Some machine /\ kernel_for files base machine;
  seen_range : 0 <= mask < 2 ^ 16;
}.

Lemma kernel_for_more files f base machine : kernel_for files base machine -> kernel_for (files ++ [f]) base machine.
Proof. intros (g & Hg & Hk & Hp). exists g. split; [set_solver | done]. Qed.

Lemma kernels_seen_skip files mask base f : kernels_seen files mask base -> file_policy f <> Kernel ->
  kernels_seen (files ++ [f]) mask base.
Proof.
  intros [H1 H2 H3 H4] Hf. constructor; [| | |done].
  - intros Hb. apply Forall_app. split; [by apply H1 | by constructor].
  - apply Forall_app. split; [done|]. by constructor.
  - intros i Hi. destruct (H3 i Hi) as (m & Hm & Hk). exists m. split; [done | by apply kernel_for_more].
Qed.

Lemma machine_bit_range i : 0 <= machine_bit_of i < 2 ^ 16.
Proof.
  unfold machine_bit_of. destruct (Z.ltb_spec (Z.of_nat i) kRequiredKernelMachineCount); [|lia].
  split; [lia|]. apply Z.pow_lt_mono_r; unfold kRequiredKernelMachineCount in *; lia.
Qed.

Lemma kernels_seen_add files mask base base' f i machine : kernels_seen files mask base ->
  file_policy f = Kernel -> kMachineKernelMachines !! i = Some machine -> file_path f = base' ++ str "." ++ machine ->
  base = [] \/ base = base' -> base' <> [] ->
  kernels_seen (files ++ [f]) (u16 (Z.lor mask (machine_bit_of i))) base'.
Proof.
  intros [H1 H2 H3 H4] Hf Hi Hp Hb Hne.
  pose proof (lor_bound mask (machine_bit_of i) 16 ltac:(lia) H4 (machine_bit_range i)) as Hr.
  assert (Hu : u16 (Z.lor mask (machine_bit_of i)) = Z.lor mask (machine_bit_of i)) by (by apply Z.mod_small).
  assert (Hin : machine ∈ kMachineKernelMachines) by (by eapply list_elem_of_lookup_2).
  rewrite Hu. constructor; [done| | |done].
  - apply Forall_app. split.
    + destruct Hb as [->| ->]; [|done]. eapply Forall_impl; [by apply H1|]. done.
    + constructor; [|constructor]. intros _. by exists machine.
  - intros k. rewrite Z.lor_spec, orb_true_iff. intros [Hk|Hk].
    + destruct (H3 k Hk) as (m & Hm & Hkf). exists m. split; [done|]. apply kernel_for_more.
      destruct Hb as [->| ->]; [|done]. destruct Hkf as (g & Hg & Hgk & _). specialize (H1 eq_refl).
      rewrite Forall_forall in H1. by apply H1 in Hg.
    + unfold machine_bit_of in Hk. destruct (Z.of_nat i <? kRequiredKernelMachineCount); [|by rewrite Z.bits_0 in Hk].
      rewrite Z.pow2_bits_eqb in Hk by lia. apply Z.eqb_eq in Hk. assert (k = i) as -> by lia.
      exists machine. split; [done|]. exists f. split; [set_solver|]. done.
Qed.

Lemma note_kernel_ok f s : kernels_seen (fs_files s) (required_machine_kernels s) (machine_kernel_base s) ->
  returns (note_kernel f s) (fun k => kernels_seen (fs_files s ++ [f]) k.1 k.2).
Proof.
  intros Hs. unfold note_kernel. case_bool_decide as Hk; [|by apply kernels_seen_skip].
  apply returns_some. intros [base bit] Hp.
  apply ParseMachineKernelPath_spec in Hp as (i & m & Hi & Hpath & Hb & Hne & ->).
  pose proof (kernels_seen_add _ _ _ _ f i m Hs Hk Hi Hpath Hb Hne) as Hadd.
  destruct (Z.eqb_spec (machine_bit_of i) 0) as [E|E]; cbn [negb].
  - cbn. rewrite E, Z.lor_0_r in Hadd. unfold u16 in Hadd. by rewrite Z.mod_small in Hadd by apply Hs.
  - apply returns_need. intros _. done.
Qed.

Lemma kernels_seen_complete files base : kernels_seen files kRequiredKernelMachineMask base ->
  Forall (kernel_for files base) (take 8 kMachineKernelMachines).
Proof.
  intros [_ _ Hb _]. apply Forall_lookup. intros i m Hm. apply lookup_take_Some in Hm as [Hm Hi].
  destruct (Hb i) as (m' & Hm' & Hk); [|by simplify_eq].
  do 8 (destruct i as [|i]; [done|]). lia.
Qed.

(** ** The accessors of the parser *)
Section Accessors.
Variables (json : bytes) (ts : list JsonToken).
Hypothesis counts : Forall (fun t => 0 <= child_count t) ts.

Lemma Member_below object name : Member json ts object name < Z.max 0 (len ts).
Proof. unfold Member. destruct (member_range json ts object name); len_facts; lia. Qed.

Lemma returns_need_array {B} object name (k : unit -> parsed ManifestParseStatus B) Q :
  (0 <= Member json ts object name < len ts -> returns (k tt) Q) ->
  returns (pbind (need_array ts (Member json ts object name)) k) Q.
Proof.
  intros Hk. unfold need_array. pose proof (Member_below object name) as Hm.
  destruct (Z.leb_spec 0 (Member json ts object name)); [cbn [need pbind]|done].
  assert (Hr : 0 <= Member json ts object name < len ts) by (len_facts; lia).
  destruct (ts !! Z.to_nat (Member json ts object name)) as [t|] eqn:Et; [|apply lookup_ge_None in Et; unfold len in Hr; lia].
  unfold token_at. rewrite (proj2 (Z.ltb_ge _ 0)), Et by lia. cbn [pbind].
  destruct (bool_decide _); [by apply Hk | done].
Qed.

Lemma returns_child {B} array ordinal (k : Z -> parsed ManifestParseStatus B) Q : 0 <= array < len ts ->
  (forall i, returns (k i) Q) -> returns (pbind (DirectChild ts array ordinal) k) Q.
Proof.
  intros Ha Hk. unfold DirectChild. destruct (drop _ ts) as [|t0 rest]; [apply Hk|].
  unfold token_at. rewrite (proj2 (Z.ltb_ge array 0)) by lia.
  destruct (ts !! Z.to_nat array) as [t|] eqn:Et; [apply Hk|]. apply lookup_ge_None in Et. unfold len in Ha. lia.
Qed.

Lemma DirectChildren_range array : DirectChildren ts array <> 0 -> 0 <= array < len ts.
Proof.
  unfold DirectChildren, token_in. destruct (Z.ltb_spec array 0); [done|]. destruct (Z.leb_spec (len ts) array); [done|].
  lia.
Qed.

Lemma DirectChildren_nonneg array : 0 <= DirectChildren ts array.
Proof.
  unfold DirectChildren, token_in. destruct (_ || _); [lia|]. destruct (ts !! Z.to_nat array) as [t|] eqn:Et; [|lia].
  case_bool_decide; [|lia]. rewrite Forall_lookup in counts. by apply (counts _ t) in Et.
Qed.

Lemma Uint64_range token lo hi v : Uint64 json ts token lo hi = Some v -> lo <= v <= hi.
Proof.
  unfold Uint64. destruct (token_in ts token) as [t|]; [|done]. destruct (get_uint64 json t) as [p|]; [|done].
  destruct (Z.ltb_spec p lo); [done|]. destruct (Z.ltb_spec hi p); [done|]. intros [= <-]. lia.
Qed.

Lemma Uint32_range token lo hi v : 0 <= lo -> hi <= INT32_MAX -> Uint32 json ts token lo hi = Some v -> lo <= v <= hi.
Proof.
  intros Hlo Hhi. unfold Uint32. destruct (Uint64 json ts token lo hi) as [p|] eqn:Ep; [|done]. cbn. intros [= <-].
  apply Uint64_range in Ep. unfold u32, INT32_MAX in *. rewrite Z.mod_small; lia.
Qed.

(** A loop over the children of an array, each of which appends one element. *)
Lemma returns_children {A B} array count (step : Z -> list A -> parsed ManifestParseStatus (list A))
    (Inv : list A -> Prop) (k : list A -> parsed ManifestParseStatus B) Q :
  Inv [] ->
  (forall j out, Inv out -> returns (step j out) (fun out' => Inv out' /\ len out' = len out + 1)) ->
  (forall out, Inv out -> len out = count -> returns (k out) Q) ->
  count = DirectChildren ts array -> returns (pbind (for_each count [] step) k) Q.
Proof.
  intros H0 Hs Hk ->. apply (returns_for step (fun j out => Inv out /\ len out = j)).
  - by split.
  - intros j out _ [Hi Hl]. eapply returns_mono; [by apply Hs|]. cbn. intros out' [Hi' Hl']. split; [done | lia].
  - intros out [Hi Hl]. apply Hk; [done|]. pose proof (DirectChildren_nonneg array). lia.
Qed.

(** ** The release object *)
Lemma returns_signing_key keys j out : 0 <= keys < len ts ->
  Forall (fun id => IsIdentifier id = true) out /\ ascending out ->
  returns (signing_key json ts keys j out) (fun out' =>
    (Forall (fun id => IsIdentifier id = true) out' /\ ascending out') /\ len out' = len out + 1).
Proof.
  intros Hk [Hf Ha]. unfold signing_key. apply returns_child; [done|]. intros child. apply returns_some. intros id _.
  apply returns_need. intros Hid. apply returns_need. intros Hasc. cbn. rewrite len_snoc. split; [|done].
  split; [by apply Forall_app; split; [|constructor] | by apply ascends_snoc].
Qed.

Lemma ParseRelease_ok index : returns (ParseRelease json ts index) release_wf.
Proof.
  unfold ParseRelease. apply returns_need. intros _. apply returns_some. intros v _. apply returns_need. intros Hv.
  apply returns_some. intros t _. apply returns_need. intros Ht. apply returns_some. intros c _. apply returns_need. intros _.
  apply returns_some. intros commit _. apply returns_need. intros Hc.
  apply returns_some. intros sq Hsq%Uint64_range. apply returns_some. intros ep Hep%Uint64_range.
  apply returns_some. intros lo Hlo. apply Uint32_range in Hlo; [|lia..].
  apply returns_some. intros hi Hhi. apply Uint32_range in Hhi; [|lia..].
  apply returns_need. intros Hord%negb_true_iff%Z.ltb_ge.
  set (keys := Member json ts index (str "signing_key_ids")). apply returns_need. intros Hcount%negb_true_iff.
  apply orb_false_iff in Hcount as [Hc0%Z.eqb_neq Hc4%Z.ltb_ge]. pose proof (DirectChildren_range keys Hc0) as Hkeys.
  apply (returns_children keys _ _ (fun out => Forall (fun id => IsIdentifier id = true) out /\ ascending out)); try done.
  - by repeat constructor.
  - intros j out Ho. by apply returns_signing_key.
  - intros out [Hf Ha] Hl. cbn. pose proof (DirectChildren_nonneg keys). constructor; cbn; try done; lia.
Qed.

(** ** The configuration object *)
Definition changes_state (s : list ManifestLossyChange * list bytes) : Prop :=
  Forall (fun x => IsDisplaySafeDescription (description x) = true) s.1 /\
  change_area <$> s.1 = ParseConfigArea <$> s.2 /\
  Forall (fun a => IsKnownConfigArea (ParseConfigArea a) = true) s.2 /\ ascending s.2.

Lemma changes_state_distinct s : changes_state s -> NoDup (change_area <$> s.1).
Proof.
  intros (_ & -> & Hk & Ha). apply ascending_NoDup in Ha. induction Ha as [|a l Hn Hnd IH]; cbn; [constructor|].
  apply Forall_cons in Hk as [Hka Hk]. constructor; [|by apply IH].
  intros (b & Hab & Hb)%list_elem_of_fmap. apply ParseConfigArea_inj in Hab; [by subst | done].
Qed.

Lemma returns_lossy_change lossy j s : 0 <= lossy < len ts -> changes_state s ->
  returns (parse_lossy_change json ts lossy j s) changes_state.
Proof.
  intros Hl. destruct s as [out areas]. intros (Hd & Heq & Hk & Ha). cbn [fst snd] in *. unfold parse_lossy_change.
  apply returns_child; [done|]. intros change. apply returns_need. intros _. apply returns_some. intros area _.
  apply returns_need. intros _. apply returns_some. intros text _. apply returns_need. intros Ht.
  apply returns_need. intros Hka. apply returns_need. intros Hasc. cbn. split; [|split; [|split]]; cbn.
  - apply Forall_app. by split; [|constructor].
  - by rewrite !fmap_app, Heq.
  - apply Forall_app. by split; [|constructor].
  - by apply ascends_snoc.
Qed.

(** Two checks between the migrations and the warnings. *)
Lemma changes_complete migrations changes :
  forallb (fun change => existsb (fun m => mm_lossy m && bool_decide (mm_area m = change_area change)) migrations)
    changes = true ->
  forallb (fun m => negb (mm_lossy m) || existsb (fun change => bool_decide (change_area change = mm_area m)) changes)
    migrations = true ->
  forall a, a ∈ change_area <$> changes <-> exists m, m ∈ migrations /\ mm_lossy m = true /\ mm_area m = a.
Proof.
  rewrite !forallb_Forall_bool, !Forall_forall. intros H1 H2 a. rewrite list_elem_of_fmap. split.
  - intros (x & -> & Hx). specialize (H1 x Hx). apply existsb_exists in H1 as (m & Hm & Hb).
    apply andb_true_iff in Hb as [Hl Ha]. apply bool_decide_eq_true in Ha. exists m. by rewrite list_elem_of_In.
  - intros (m & Hm & Hl & <-). specialize (H2 m Hm). rewrite Hl in H2. cbn in H2.
    apply existsb_exists in H2 as (x & Hx & Ha). apply bool_decide_eq_true in Ha. exists x. by rewrite list_elem_of_In.
Qed.

Lemma returns_schema schemas j s : 0 <= schemas < len ts -> returns (parse_schema json ts schemas j s) (fun _ => True).
Proof.
  intros Hs. destruct s as [out ids]. unfold parse_schema. apply returns_child; [done|]. intros schema.
  apply returns_need. intros _. apply returns_some. intros id _. apply returns_need. intros _. apply returns_need. intros _.
  apply returns_need. intros _. apply returns_some. intros target _. apply returns_need_array. intros Ha.
  apply returns_need. intros _. apply (returns_for _ (fun _ _ => True)); [done| |].
  - intros i vs _ _. unfold accepted_version. apply returns_child; [done|]. intros child. apply returns_some. intros v _.
    apply returns_need. intros _. done.
  - intros vs _. apply returns_need. intros _. done.
Qed.

Lemma returns_migration migrations j out : 0 <= migrations < len ts ->
  returns (parse_migration json ts migrations j out) (fun _ => True).
Proof.
  intros Hm. unfold parse_migration. apply returns_child; [done|]. intros m.
  repeat (first [apply returns_need; intros _ | apply returns_some; intros ? _]). done.
Qed.

Lemma registry_status_ok status : RegistryStatusToManifestStatus status = Ok -> status = RegistryValid.
Proof. by destruct status. Qed.

Lemma ParseConfiguration_ok index : returns (ParseConfiguration json ts index) configuration_wf.
Proof.
  unfold ParseConfiguration. apply returns_need. intros _. apply returns_need_array. intros Hs. apply returns_need. intros _.
  apply (returns_for _ (fun _ _ => True)); [done|intros; by apply returns_schema|]. intros [schemas ids] _. cbn [fst].
  apply returns_need_array. intros Hm. apply returns_need. intros _.
  apply (returns_for _ (fun _ _ => True)); [done|intros; by apply returns_migration|]. intros migrations _.
  apply returns_need. intros _.
  destruct (RegistryStatusToManifestStatus _) eqn:Er; try done. apply registry_status_ok, registry_ok_spec in Er.
  apply returns_need_array. intros Hl. apply returns_need. intros _.
  apply (returns_for _ (fun _ => changes_state)).
  - repeat split; repeat constructor.
  - intros j st _. by apply returns_lossy_change.
  - intros [changes areas] Hst. pose proof (changes_state_distinct _ Hst) as Hnd. destruct Hst as [Hd _]. cbn [fst snd] in *.
    apply returns_need. intros H1. apply returns_need. intros H2. cbn. constructor; try done. by apply changes_complete.
Qed.

(** ** The lists of an asset *)
Definition paths_ok (out : list bytes) : Prop := Forall (fun p => IsSafeManifestPath p = true) out /\ ascending out.

Lemma parse_paths_ok index name (store : bool) maximum capacity : 0 <= maximum -> 0 <= capacity ->
  returns (parse_paths json ts (Member json ts index name) store maximum capacity)
    (fun out => Forall (fun p => IsSafeManifestPath p = true) out /\ (store = false -> out = []) /\
                len out <= Z.min maximum capacity).
Proof.
  intros Hmax Hcap. unfold parse_paths. apply returns_need_array. intros Ha. apply returns_need. intros Hm%negb_true_iff%Z.ltb_ge.
  apply returns_need. intros Hc%negb_true_iff. apply (returns_children (Member json ts index name) _ _ paths_ok); try done.
  - split; constructor.
  - intros j out [Hf Hasc]. unfold safe_path. apply returns_child; [done|]. intros child. apply returns_some. intros p _.
    apply returns_need. intros Hp. apply returns_need. intros Hpa. cbn. rewrite len_snoc. split; [|done].
    split; [by apply Forall_app; split; [|constructor] | by apply ascends_snoc].
  - intros out [Hf _] Hl. destruct store; cbn; [|by repeat split; [constructor| change (len (@nil bytes)) with 0; lia]].
    apply Z.ltb_ge in Hc. split; [done|]. split; [done|]. lia.
Qed.

(** What the loop of [ParseFiles] knows. *)
Record files_state (s : FilesState) : Prop := {
  st_files : Forall file_ok (fs_files s);
  st_ascending : ascending (file_path <$> fs_files s);
  st_total : fs_installed_size s = total_size (fs_files s);
  st_kernels : kernels_seen (fs_files s) (required_machine_kernels s) (machine_kernel_base s);
  st_config : required_config s = true <-> str "config.txt" ∈ file_path <$> fs_files s;
  st_tryboot : has_tryboot s = true <-> str "tryboot.txt" ∈ file_path <$> fs_files s;
  st_active : required_active_selector s = true <-> str "bmx-active-kernel.txt" ∈ file_path <$> fs_files s;
  st_candidate : has_candidate_selector s = true <-> str "bmx-tryboot-kernel.txt" ∈ file_path <$> fs_files s;
}.

Lemma total_size_snoc l f : total_size (l ++ [f]) = total_size l + file_size f.
Proof.
  unfold total_size. rewrite fmap_app. cbn. induction (file_size <$> l) as [|x xs IH]; cbn; [lia|]. rewrite IH. lia.
Qed.

Lemma seen_snoc (b : bool) name (l : list ManifestFile) f : (b = true <-> name ∈ file_path <$> l) ->
  b || bytes_eqb (file_path f) name = true <-> name ∈ file_path <$> l ++ [f].
Proof.
  intros Hb. rewrite orb_true_iff, bytes_eqb_eq, Hb, fmap_app. cbn.
  rewrite elem_of_app, list_elem_of_singleton. naive_solver.
Qed.

Lemma returns_file index j s : 0 <= index < len ts -> files_state s ->
  returns (parse_file json ts index j s) (fun s' => files_state s' /\ len (fs_files s') = len (fs_files s) + 1).
Proof.
  intros Hi Hs. unfold parse_file. apply returns_child; [done|]. intros entry. apply returns_need. intros _.
  apply returns_some. intros path _. apply returns_need. intros Hp. apply returns_need. intros Hasc.
  apply returns_some. intros size Hsize%Uint64_range. apply returns_some. intros sha _.
  apply returns_some. intros digest Hd%ParseSha256_ok.
  apply returns_some. intros pt _. apply returns_some. intros ct _. apply returns_some. intros policy _.
  apply returns_some. intros compression _. apply returns_need. intros _.
  set (f := mkManifestFile path size digest policy compression). destruct Hs as [H1 H2 H3 H4 H5 H6 H7 H8].
  eapply returns_then; [by apply note_kernel_ok|]. intros [mask base] Hk. cbn. rewrite len_snoc. split; [|done].
  constructor; cbn [fs_files fs_installed_size required_machine_kernels machine_kernel_base required_config has_tryboot
                    required_active_selector has_candidate_selector].
  - apply Forall_app. split; [done|]. constructor; [by split | constructor].
  - rewrite fmap_app. by apply ascends_snoc.
  - rewrite total_size_snoc. cbn. lia.
  - done.
  - by apply (seen_snoc _ _ _ f).
  - by apply (seen_snoc _ _ _ f).
  - by apply (seen_snoc _ _ _ f).
  - by apply (seen_snoc _ _ _ f).
Qed.

Lemma files_state_complete s size : files_state s ->
  negb (negb (required_machine_kernels s =? kRequiredKernelMachineMask) || negb (required_config s) ||
        negb (required_active_selector s) || negb (Bool.eqb (has_tryboot s) (has_candidate_selector s)) ||
        negb (fs_installed_size s =? size)) = true -> files_wf (fs_files s) size.
Proof.
  intros [H1 H2 H3 H4 H5 H6 H7 H8]. rewrite negb_true_iff, !orb_false_iff, !negb_false_iff, !Z.eqb_eq, Bool.eqb_true_iff.
  intros ((((Hmask & Hc) & Ha) & Ht) & Hsz). constructor; try done.
  - congruence.
  - exists (machine_kernel_base s). split; [|by apply H4]. apply kernels_seen_complete. by rewrite <- Hmask.
  - by apply H5.
  - by apply H7.
  - rewrite <- H6, <- H8. by rewrite Ht.
Qed.

Lemma ParseFiles_ok storage index name store size : 0 <= file_capacity storage ->
  returns (ParseFiles json ts storage (Member json ts index name) store size)
    (fun files => (store = true -> files_wf files size) /\ len files <= Z.min kMaximumManifestFiles (file_capacity storage)).
Proof.
  intros Hcap. unfold ParseFiles. apply returns_need_array. intros Ha. apply returns_need. intros Hm%negb_true_iff.
  apply orb_false_iff in Hm as [_ Hm%Z.ltb_ge]. apply returns_need. intros Hc%negb_true_iff.
  pose proof (DirectChildren_nonneg (Member json ts index name)) as Hn.
  apply (returns_for _ (fun j s => files_state s /\ len (fs_files s) = j)).
  - split; [|done]. constructor; cbn; try (by repeat constructor); try (split; [done|]; set_solver).
    constructor; try (by repeat constructor). intros i. by rewrite Z.bits_0.
  - intros j s _ [Hs Hl]. eapply returns_mono; [by apply returns_file|]. cbn. intros s' [? ?]. split; [done | lia].
  - intros s [Hs Hl]. apply returns_need. intros Hfin. cbn. destruct store.
    + apply Z.ltb_ge in Hc. split; [|lia]. intros _. by apply files_state_complete.
    + split; [done|]. change (len (@nil ManifestFile)) with 0. unfold kMaximumManifestFiles. lia.
Qed.

Definition replacement_ok (files : list ManifestFile) (r : ManifestReplacement) : Prop :=
  IsSafeManifestPath (replaced_path r) = true /\
  exists f, f ∈ files /\ file_path f = replaced_by r /\ (file_policy f = Kernel \/ file_policy f = ManagedReplace).

Lemma ParseReplacements_ok storage mversion index name store files : 0 <= replacement_capacity storage ->
  returns (ParseReplacements json ts storage mversion (Member json ts index name) store files) (fun out =>
    (store = true -> Forall (replacement_ok files) out) /\ (mversion = 2 -> out = []) /\
    len out <= Z.min kMaximumManifestReplacements (replacement_capacity storage)).
Proof.
  intros Hcap. assert (Hnil : len (@nil ManifestReplacement) <= Z.min kMaximumManifestReplacements (replacement_capacity storage))
    by (change (len (@nil ManifestReplacement)) with 0; unfold kMaximumManifestReplacements; lia).
  unfold ParseReplacements. destruct (Z.ltb_spec mversion 3); [by repeat split; [constructor|]|].
  apply returns_need_array. intros Ha. apply returns_need. intros Hm%negb_true_iff%Z.ltb_ge.
  apply returns_need. intros Hc%negb_true_iff.
  apply (returns_children (Member json ts index name) _ _ (fun out => store = true -> Forall (replacement_ok files) out)); try done.
  - intros j out Ho. unfold parse_replacement. apply returns_child; [done|]. intros entry. apply returns_need. intros _.
    apply returns_some. intros path _. apply returns_some. intros by_path _. apply returns_need. intros Hs.
    apply returns_need. intros Hex. cbn. rewrite len_snoc. split; [|done]. intros ->. cbn in Hex.
    apply Forall_app. split; [by apply Ho|]. constructor; [|constructor]. split; cbn.
    + by destruct (IsSafeManifestPath path).
    + apply existsb_exists in Hex as (f & Hf & Hb). apply andb_true_iff in Hb as [Hp Hk]. exists f.
      split; [by apply list_elem_of_In|]. split; [by apply bytes_eqb_eq|].
      apply orb_true_iff in Hk as [Hk|Hk]; apply bool_decide_eq_true in Hk; [by left | by right].
  - intros out Ho Hl. destruct store; cbn; [apply Z.ltb_ge in Hc|split; [done|]; by split].
    split; [by intros _; apply Ho|]. split; [lia|]. lia.
Qed.

(** ** An asset *)
Definition capacities_nonneg (storage : ManifestParseStorage) : Prop :=
  0 <= file_capacity storage /\ 0 <= directory_capacity storage /\ 0 <= deletion_capacity storage /\
  0 <= replacement_capacity storage.

(** An asset with its inventory, before the names are compared. *)
Record asset_parsed (mversion : Z) (rversion : bytes) (storage : ManifestParseStorage) (a : ManifestAsset) : Prop := {
  ap_board : asset_board a <> BoardUnknown;
  ap_filename : filename a = expected_filename rversion (asset_board a);
  ap_download : 1 <= download_size a <= kMaximumAssetBytes;
  ap_digest : digest_ok (asset_sha256 a);
  ap_installed : 1 <= installed_size a <= kMaximumAssetBytes;
  ap_peak : download_size a + installed_size a + kSafetyReserveBytes <= required_peak_bytes a;
  ap_files : files_wf (asset_files a) (installed_size a);
  ap_directories : Forall (fun p => IsSafeManifestPath p = true) (directories a);
  ap_deletions : Forall (fun p => IsSafeManifestPath p = true) (deletions a);
  ap_replacements : Forall (replacement_ok (asset_files a)) (replacements a);
  ap_version_2 : mversion = 2 -> deletions a = [] /\ replacements a = [] /\ configuration_reset_required a = false;
  ap_fits : len (asset_files a) <= Z.min kMaximumManifestFiles (file_capacity storage) /\
    len (directories a) <= Z.min kMaximumManifestDirectories (directory_capacity storage) /\
    len (deletions a) <= Z.min kMaximumManifestDeletions (deletion_capacity storage) /\
    len (replacements a) <= Z.min kMaximumManifestReplacements (replacement_capacity storage);
}.

Lemma parse_board_known text b : parse_board text = Some b -> b <> BoardUnknown.
Proof. unfold parse_board. destruct (bytes_eqb _ _); [by intros [= <-]|]. destruct (bytes_eqb _ _); [by intros [= <-] | done]. Qed.

Lemma peak_suffices_spec d i p : 0 <= d <= kMaximumAssetBytes -> 0 <= i <= kMaximumAssetBytes ->
  peak_suffices d i p = true -> d + i + kSafetyReserveBytes <= p.
Proof.
  intros Hd Hi. unfold peak_suffices. rewrite negb_true_iff, !orb_false_iff, !Z.ltb_ge. intros [_ Hp].
  unfold u64, kMaximumAssetBytes, kSafetyReserveBytes in *. rewrite Z.mod_small in Hp; lia.
Qed.

Lemma ParseDeletions_ok storage mversion index name store : 0 <= deletion_capacity storage ->
  returns (ParseDeletions json ts storage mversion (Member json ts index name) store) (fun out =>
    Forall (fun p => IsSafeManifestPath p = true) out /\ (mversion = 2 -> out = []) /\
    len out <= Z.min kMaximumManifestDeletions (deletion_capacity storage)).
Proof.
  intros Hcap. unfold ParseDeletions. destruct (Z.ltb_spec mversion 3).
  - cbn. split; [constructor|]. split; [done|]. change (len (@nil bytes)) with 0. unfold kMaximumManifestDeletions. lia.
  - eapply returns_mono; [apply parse_paths_ok; [done | exact Hcap]|]. cbn. intros out (H1 & _ & H2). split; [done|]. split; [lia | done].
Qed.

(** The board is the one that the text of the asset names, on both passes. *)
Definition board_named (index : Z) (b : BoardFamily) : Prop :=
  (t ← CopyString json ts (Member json ts index (str "board_family")) 8; parse_board t) = Some b.

Lemma ParseAsset_ok storage mversion rversion index store : capacities_nonneg storage ->
  returns (ParseAsset json ts storage mversion rversion index store)
    (fun a => board_named index (asset_board a) /\ (store = true -> asset_parsed mversion rversion storage a)).
Proof.
  intros (Hcf & Hcd & Hcx & Hcr). unfold ParseAsset. apply returns_need. intros _. apply returns_some. intros bt Hbt.
  apply returns_some. intros board Hbn. pose proof (parse_board_known _ _ Hbn) as Hb. apply returns_need. intros Hm%Z.leb_le.
  pose proof (Member_below index (str "supported_models")) as Hmb.
  assert (Hr : 0 <= Member json ts index (str "supported_models") < len ts) by (len_facts; lia).
  apply returns_token; [done|]. intros mt _. apply returns_need. intros _. apply returns_child; [done|]. intros c1.
  apply returns_some. intros m1 _. apply returns_child; [done|]. intros c2. apply returns_some. intros m2 _.
  apply returns_need. intros _. apply returns_some. intros fname _. apply returns_some. intros down Hd%Uint64_range.
  apply returns_some. intros sha _. apply returns_some. intros digest Hdig%ParseSha256_ok.
  apply returns_some. intros inst Hinst%Uint64_range. apply returns_some. intros peak _. apply returns_some. intros zp _.
  apply returns_need. intros _. apply returns_need. intros _. apply returns_need. intros Hf%bytes_eqb_eq.
  apply returns_need. intros Hp. apply peak_suffices_spec in Hp; [|lia..].
  eapply returns_then; [apply parse_paths_ok; [done | exact Hcd]|]. cbn beta. intros dirs (Hdirs & _ & Hdl).
  eapply returns_then; [apply (ParseFiles_ok storage); done|]. cbn beta. intros files [Hfiles Hfl].
  apply (returns_then _ _ (fun reset => mversion = 2 -> reset = false)).
  { destruct (Z.leb_spec 3 mversion); [|done]. destruct (Bool _ _); cbn; [lia | done]. }
  intros reset Hreset.
  eapply returns_then; [by apply (ParseDeletions_ok storage)|]. cbn beta. intros dels (Hdels & Hdel2 & Hdll).
  eapply returns_then; [by apply (ParseReplacements_ok storage)|]. cbn beta. intros reps (Hreps & Hrep2 & Hrl).
  cbn. split; [by unfold board_named; rewrite Hbt|]. intros Hst. constructor; cbn; try done; [by apply Hfiles|by apply Hreps|].
  intros E. split; [by apply Hdel2|]. split; [by apply Hrep2 | by apply Hreset].
Qed.

Lemma asset_parsed_wf mversion rversion storage a : asset_parsed mversion rversion storage a -> inventory_clashes a = false ->
  asset_wf mversion rversion (asset_board a) storage a.
Proof.
  intros [] Hc. unfold inventory_clashes in Hc. rewrite !orb_false_iff in Hc.
  destruct Hc as (((((((H1 & H2) & H3) & H4) & H5) & H6) & H7) & H8).
  constructor; try done; repeat split;
    first [by apply clash_within_spec | by apply clash_between_spec | apply ap_fits0 | by apply ap_version_3].
Qed.

Lemma ParseAssets_ok board storage mversion rversion index name : capacities_nonneg storage ->
  returns (ParseAssets json ts board storage mversion rversion (Member json ts index name))
    (asset_wf mversion rversion board storage).
Proof.
  intros Hcap. unfold ParseAssets. apply returns_need_array. intros Ha. apply returns_need. intros _.
  apply (returns_for _ (fun _ s => forall a, found_target s = Some a -> asset_parsed mversion rversion storage a /\ asset_board a = board)).
  - done.
  - intros j s _ Hs. unfold assets_turn. apply returns_child; [done|]. intros ai.
    eapply returns_then; [by apply ParseAsset_ok|]. intros parsed [Hn1 _]. apply returns_need. intros _.
    case_bool_decide as Hb; [|done]. apply returns_need. intros _.
    eapply returns_then; [by apply ParseAsset_ok|]. intros stored [Hn2 Hst]. cbn. intros a [= <-].
    split; [by apply Hst|]. unfold board_named in *. congruence.
  - intros s Hs. apply returns_need. intros _. apply returns_some. intros a Hfa. apply returns_need. intros Hcl%negb_true_iff.
    cbn. destruct (Hs a Hfa) as [Hp <-]. by apply asset_parsed_wf.
Qed.
End Accessors.

Lemma ParseReleaseManifest_ok encoded board storage : Forall is_byte encoded -> 0 <= token_capacity storage ->
  capacities_nonneg storage -> returns (ParseReleaseManifest encoded board storage) (manifest_wf board storage).
Proof.
  intros Hb Ht Hcap. unfold ParseReleaseManifest. apply returns_need. intros _. apply returns_need. intros _.
  apply returns_need. intros _. apply returns_parse_text; [done..|]. intros err ts Hts. destruct err; try done.
  destruct (Hts eq_refl) as (t & _ & ->). pose proof (flatten_counts t (-1) 0) as Hcounts.
  unfold Parse. destruct (flatten (-1) 0 t) as [|root rest] eqn:Ef; [done|]. rewrite <- Ef in *. clear Ef.
  apply returns_need. intros _. apply returns_need. intros _. apply returns_some. intros v Hv.
  apply Uint32_range in Hv; [|lia|unfold INT32_MAX; lia].
  eapply returns_then; [by apply ParseRelease_ok|]. intros rel Hrel.
  eapply returns_then; [by apply ParseConfiguration_ok|]. intros conf Hconf.
  eapply returns_then; [by apply ParseAssets_ok|]. intros a Ha. cbn. constructor; cbn; try done. lia.
Qed.


(** A small manifest; the apostrophes become quotes. *)
Definition sample_file (path policy : string) : bytes :=
  str "{'path':'" ++ str path ++ str "','size':1,'sha256':'" ++ replicate 64 48 ++ str "','policy':'" ++ str policy ++
  str "','compression':'store'}".
Fixpoint joined (l : list bytes) : bytes :=
  match l with [] => [] | [x] => x | x :: l' => x ++ str "," ++ joined l' end.
Definition sample_files : bytes :=
  joined ([sample_file "bmx-active-kernel.txt" "config-template"; sample_file "config.txt" "config-template"] ++
          ((fun m => sample_file m "kernel") <$>
           ["kernel8.img.atari800"; "kernel8.img.c128"; "kernel8.img.c64"; "kernel8.img.c64sc"; "kernel8.img.pet";
            "kernel8.img.plus4"; "kernel8.img.scpu64"; "kernel8.img.vic20"]%string)).
Definition sample_asset (board models name : string) : bytes :=
  str "{'board_family':'" ++ str board ++ str "','supported_models':[" ++ str models ++ str "],'filename':'bmx-2-" ++
  str name ++ str "-boot.zip','download_size':9,'sha256':'" ++ replicate 64 49 ++
  str "','installed_size':10,'required_peak_bytes':16777235,'zip_profile':'bmx-zip32-v1','directories':[],'files':[" ++
  sample_files ++ str "]}".
Definition sample_schema (area : string) : bytes :=
  str "{'id':'" ++ str area ++ str "','target_version':1,'accepted_versions':[0,1]}".
Definition sample_manifest : bytes :=
  ((fun c => if c =? 39 then QUOTE else c) <$>
   str "{'manifest_version':2,'release':{'version':'2','release_sequence':8,'release_epoch':9,'tag':'v2','channel':'stable','source_commit':'" ++
   replicate 40 48 ++ str "','minimum_updater_abi':1,'maximum_updater_abi':3,'signing_key_ids':['k1']},'configuration':{'schemas':[" ++
   joined (sample_schema <$> ["cmdline_managed"; "config_managed_block"; "machines"; "network"; "settings"; "update_state"]%string) ++
   str "],'migrations':[],'lossy_changes':[]},'assets':[" ++
   sample_asset "pi4" "'Raspberry Pi 4','Raspberry Pi 400'" "pi4-pi400" ++ str "," ++
   sample_asset "pi5" "'Raspberry Pi 5','Raspberry Pi 500'" "pi5-pi500" ++ str "]}") ++ [LF].
Definition sample_storage : ManifestParseStorage := mkStorage 1024 16 1 1 1.

Example sample_manifest_accepted :
  match ParseReleaseManifest sample_manifest Pi5Pi500 sample_storage with
  | Val m => len (asset_files (asset m)) = 10 /\ filename (asset m) = str "bmx-2-pi5-pi500-boot.zip"
  | _ => False
  end.
Proof. vm_compute. split; reflexivity. Qed.

