(* ===== verification/SignatureVerifier.v ===== *)
(** * Trusting a manifest (src/src/update/signature_verifier.cpp, trust_store.cpp)

    A manifest is trusted when one of the signatures in its envelope verifies, over
    its exact bytes, with a key that the manifest declares and that is compiled
    into the updater.  The ECDSA primitive is Mbed TLS, outside src/: it is the
    parameter [verify_function]. *)
From S2P Require Import Prelude SignatureEnvelope UpdatePolicy ReleaseManifest.
From Stdlib Require Import Ascii.
Local Open Scope Z_scope.

(** A null pointer is [None]. *)
Record TrustedReleaseKey := mkTrustedKey {
  trusted_key_id : option bytes;
  public_key_pem : bytes;
  revoked : bool;
}.

Inductive ManifestTrustStatus :=
| Trusted | TrustInvalidArgument | EnvelopeInvalid | UndeclaredSignature | NoTrustedKey | SignatureMismatch.

#[export] Instance ManifestTrustStatus_eq_dec : EqDecision ManifestTrustStatus.
Proof. solve_decision. Defined.

Record ManifestTrustResult := mkTrustResult {
  trust_status : ManifestTrustStatus;
  envelope_status : SignatureEnvelopeStatus;
  verified_key_id : bytes;
}.

Section verifier.
Variable verify_function : bytes -> bytes -> bytes -> bool.

(** The loop over the trusted keys: whether a usable one has been seen, and
    whether one of them verifies the signature. *)
Fixpoint key_loop (manifest_bytes : bytes) (signature : ReleaseSignature) (keys : list TrustedReleaseKey)
    (saw_trusted_key : bool) : bool * bool :=
  match keys with
  | [] => (saw_trusted_key, false)
  | key :: keys' =>
      if negb (bool_decide (trusted_key_id key = Some (key_id signature))) || revoked key
      then key_loop manifest_bytes signature keys' saw_trusted_key
      else if len (public_key_pem key) =? 0 then key_loop manifest_bytes signature keys' true
      else if verify_function (public_key_pem key) manifest_bytes (der signature) then (true, true)
      else key_loop manifest_bytes signature keys' true
  end.

Fixpoint signature_loop (manifest_bytes : bytes) (manifest : ReleaseManifest) (keys : list TrustedReleaseKey)
    (signatures : list ReleaseSignature) (saw_trusted_key saw_undeclared : bool) : ManifestTrustStatus * bytes :=
  match signatures with
  | [] =>
      (if saw_undeclared && negb saw_trusted_key then UndeclaredSignature
       else if negb saw_trusted_key then NoTrustedKey else SignatureMismatch, [])
  | signature :: signatures' =>
      if negb (ManifestListsSigningKey manifest (key_id signature))
      then signature_loop manifest_bytes manifest keys signatures' saw_trusted_key true
      else match key_loop manifest_bytes signature keys saw_trusted_key with
           | (_, true) => (Trusted, key_id signature)
           | (saw, false) => signature_loop manifest_bytes manifest keys signatures' saw saw_undeclared
           end
  end.

Definition VerifyManifestTrust (manifest_bytes : bytes) (manifest : ReleaseManifest) (signature_envelope : bytes)
    (trusted_keys : list TrustedReleaseKey) : ManifestTrustResult :=
  if (len manifest_bytes =? 0) || (len trusted_keys =? 0)
  then mkTrustResult TrustInvalidArgument SigInvalidArgument []
  else match ParseSignatureEnvelope (Some signature_envelope) kMaximumReleaseSignatures with
  | (SigOk, signatures) =>
      let '(status, id) := signature_loop manifest_bytes manifest trusted_keys signatures false false in
      mkTrustResult status SigOk id
  | (status, _) => mkTrustResult EnvelopeInvalid status []
  end.
End verifier.

Definition ManifestTrustStatusString (status : ManifestTrustStatus) : bytes :=
  match status with
  | Trusted => str "trusted"
  | TrustInvalidArgument => str "invalid argument"
  | EnvelopeInvalid => str "signature envelope invalid"
  | UndeclaredSignature => str "signature key not declared by manifest"
  | NoTrustedKey => str "no trusted release key"
  | SignatureMismatch => str "manifest signature mismatch"
  end.

(** ** The compiled trust anchors (production channel) *)
Definition kProductionReleasePublicKey : bytes :=
  str "-----BEGIN PUBLIC KEY-----" ++ [LF] ++
  str "MFkwEwYHKoZIzj0CAQYIKoZIzj0DAQcDQgAE4Ctuk+qBVmzhU9YRDqpgkSK08OoF" ++ [LF] ++
  str "sUbk+UzQE6iVkhLwXAAERjo6RhIzxjbZ+dU0OQ11dgk6jx/bNvGxwy6LCw==" ++ [LF] ++
  str "-----END PUBLIC KEY-----" ++ [LF; NUL].

Definition kReleaseKeys : list TrustedReleaseKey :=
  [mkTrustedKey (Some (str "p256-9d2fe3155e45a903")) kProductionReleasePublicKey false].

Definition ReleaseTrustStore : list TrustedReleaseKey := kReleaseKeys.

(** ** What trust means *)
Definition declared (manifest : ReleaseManifest) (s : ReleaseSignature) : Prop :=
  key_id s ∈ signing_key_ids (release manifest).

(** A trusted key that is named by the signature and not revoked. *)
Definition usable (key : TrustedReleaseKey) (s : ReleaseSignature) : Prop :=
  trusted_key_id key = Some (key_id s) /\ revoked key = false.

Section trust.
Variable verify_function : bytes -> bytes -> bytes -> bool.

Definition verifies (keys : list TrustedReleaseKey) (manifest_bytes : bytes) (s : ReleaseSignature) : Prop :=
  exists key, key ∈ keys /\ usable key s /\ public_key_pem key <> [] /\
    verify_function (public_key_pem key) manifest_bytes (der s) = true.

Lemma ManifestListsSigningKey_spec m s : ManifestListsSigningKey m (key_id s) = true <-> declared m s.
Proof.
  unfold ManifestListsSigningKey, declared. rewrite existsb_exists. setoid_rewrite bytes_eqb_eq.
  setoid_rewrite <- list_elem_of_In. naive_solver.
Qed.

Lemma verifies_cons key keys bytes0 s : verifies (key :: keys) bytes0 s <->
  (usable key s /\ public_key_pem key <> [] /\ verify_function (public_key_pem key) bytes0 (der s) = true) \/
  verifies keys bytes0 s.
Proof.
  unfold verifies. split.
  - intros (k & [->|Hk]%elem_of_cons & H); [by left | right; by exists k].
  - intros [H|(k & Hk & H)]; [exists key | exists k]; (split; [|done]); [left | by right].
Qed.

Lemma usable_cons key keys s :
  (exists k, k ∈ key :: keys /\ usable k s) <-> usable key s \/ exists k, k ∈ keys /\ usable k s.
Proof.
  split.
  - intros (k & [->|Hk]%elem_of_cons & H); [by left | right; by exists k].
  - intros [H|(k & Hk & H)]; [exists key | exists k]; (split; [|done]); [left | by right].
Qed.

Lemma key_loop_spec bytes0 s keys : forall saw, let '(saw', ok) := key_loop verify_function bytes0 s keys saw in
  (ok = true <-> verifies keys bytes0 s) /\
  (ok = false -> saw' = true <-> saw = true \/ exists key, key ∈ keys /\ usable key s).
Proof.
  induction keys as [|key keys IH]; intros saw; cbn [key_loop].
  { split; [split; [done | by intros (k & Hk%not_elem_of_nil & _)]|]. intros _. split; [by left|].
    intros [?|(k & Hk%not_elem_of_nil & _)]; done. }
  assert (Huse : negb (bool_decide (trusted_key_id key = Some (key_id s))) || revoked key = false <-> usable key s).
  { unfold usable. rewrite orb_false_iff, negb_false_iff, bool_decide_eq_true. done. }
  destruct (_ || revoked key) eqn:Eu.
  { specialize (IH saw). assert (Hn : ~ usable key s) by (rewrite <- Huse; congruence).
    destruct (key_loop _ _ _ keys saw) as [saw' ok]. rewrite verifies_cons, usable_cons. tauto. }
  assert (Hu : usable key s) by (by apply Huse). clear Huse Eu. specialize (IH true).
  destruct (Z.eqb_spec (len (public_key_pem key)) 0) as [E|E].
  { assert (Hnil : public_key_pem key = []) by (destruct (public_key_pem key); [done | rewrite len_cons in E; len_facts; lia]).
    destruct (key_loop _ _ _ keys true) as [saw' ok]. rewrite verifies_cons, usable_cons. tauto. }
  assert (Hne : public_key_pem key <> []) by (intros E0; by rewrite E0 in E).
  destruct (verify_function _ _ _) eqn:Ev; [rewrite verifies_cons, usable_cons; split; [tauto | done]|].
  destruct (key_loop _ _ _ keys true) as [saw' ok]. rewrite verifies_cons, usable_cons, Ev.
  assert (Hf : false <> true) by done. tauto.
Qed.
(** The outcome of the loop over the signatures. *)
Definition outcome (keys : list TrustedReleaseKey) (manifest_bytes : bytes) (m : ReleaseManifest)
    (sigs : list ReleaseSignature) (saw undeclared : bool) (r : ManifestTrustStatus * bytes) : Prop :=
  let candidate := saw = true \/ exists s key, s ∈ sigs /\ declared m s /\ key ∈ keys /\ usable key s in
  let rejected := forall s, s ∈ sigs -> declared m s -> ~ verifies keys manifest_bytes s in
  match r with
  | (Trusted, id) => exists s, s ∈ sigs /\ key_id s = id /\ declared m s /\ verifies keys manifest_bytes s
  | (UndeclaredSignature, _) => rejected /\ ~ candidate /\ (undeclared = true \/ exists s, s ∈ sigs /\ ~ declared m s)
  | (NoTrustedKey, _) => rejected /\ ~ candidate /\ undeclared = false /\ forall s, s ∈ sigs -> declared m s
  | (SignatureMismatch, _) => rejected /\ candidate
  | _ => False
  end.

Lemma signature_loop_outcome keys bytes0 m sigs : forall saw undeclared,
  outcome keys bytes0 m sigs saw undeclared (signature_loop verify_function bytes0 m keys sigs saw undeclared).
Proof.
  induction sigs as [|s sigs IH]; intros saw undeclared; cbn [signature_loop].
  { assert (Hnil : forall s : ReleaseSignature, s ∉ []) by (intros s; apply not_elem_of_nil).
    destruct saw, undeclared; cbn; repeat split; naive_solver. }
  pose proof (ManifestListsSigningKey_spec m s) as Hd. destruct (ManifestListsSigningKey _ _); cbn [negb].
  - assert (Hdecl : declared m s) by (by apply Hd). pose proof (key_loop_spec bytes0 s keys saw) as Hk.
    destruct (key_loop _ _ _ _ saw) as [saw' [|]]; destruct Hk as [Hok Hsaw].
    + exists s. split; [left|]. split; [done|]. split; [done|]. by apply Hok.
    + assert (Hno : ~ verifies keys bytes0 s) by (intros Hv; by apply Hok in Hv). specialize (Hsaw eq_refl).
      specialize (IH saw' undeclared). unfold outcome in *.
      destruct (signature_loop _ _ _ _ sigs saw' undeclared) as [[] id]; try done;
        setoid_rewrite elem_of_cons; naive_solver.
  - assert (Hdecl : ~ declared m s) by (intros Hx; by apply Hd in Hx). specialize (IH saw true). unfold outcome in *.
    destruct (signature_loop _ _ _ _ sigs saw true) as [[] id]; try done; setoid_rewrite elem_of_cons; naive_solver.
Qed.

(** What each answer says of the inputs. *)
Definition trust_means (manifest_bytes : bytes) (m : ReleaseManifest) (envelope : bytes) (keys : list TrustedReleaseKey)
    (r : ManifestTrustResult) : Prop :=
  match trust_status r with
  | TrustInvalidArgument => manifest_bytes = [] \/ keys = []
  | EnvelopeInvalid => forall sigs, ~ (envelope = print_envelope sigs /\ valid_signatures 4 sigs)
  | status => exists sigs, envelope = print_envelope sigs /\ valid_signatures 4 sigs /\
      outcome keys manifest_bytes m sigs false false (status, verified_key_id r)
  end.

Lemma VerifyManifestTrust_means manifest_bytes m envelope keys :
  trust_means manifest_bytes m envelope keys (VerifyManifestTrust verify_function manifest_bytes m envelope keys).
Proof.
  unfold VerifyManifestTrust, trust_means. destruct (_ || _) eqn:Ez.
  { cbn. apply orb_true_iff in Ez as [E|E]; apply Z.eqb_eq in E; [left | right];
      [destruct manifest_bytes | destruct keys]; try done; rewrite len_cons in E; len_facts; lia. }
  destruct (ParseSignatureEnvelope _ _) as [st sigs] eqn:Ep. destruct st.
  1: { apply ParseSignatureEnvelope_sound in Ep. change kMaximumReleaseSignatures with 4%nat in Ep.
       pose proof (signature_loop_outcome keys manifest_bytes m sigs false false) as Ho.
       destruct (signature_loop _ _ _ _ _ _ _) as [st id]. cbn [trust_status verified_key_id].
       destruct st; cbn in Ho; try done; exists sigs; by split; [apply Ep|]; split; [apply Ep|]. }
  all: cbn; intros sigs' [-> Hv]; change kMaximumReleaseSignatures with 4%nat in Ep;
    rewrite (ParseSignatureEnvelope_complete 4 sigs' Hv) in Ep; done.
Qed.

(** C8. The answer of the verifier is exact.  Trusted: some signature of the
    envelope, which is canonical, is declared by the manifest, and a compiled key
    of its name that is not revoked verifies it over the manifest's exact bytes.
    The other answers say that no declared signature verifies, and distinguish a
    malformed envelope, signatures by undeclared keys only, no usable key, and a
    usable key under which verification failed. *)
Theorem VerifyManifestTrust_exact (manifest_bytes : bytes) (m : ReleaseManifest) (envelope : bytes)
    (keys : list TrustedReleaseKey) :
  trust_means manifest_bytes m envelope keys (VerifyManifestTrust verify_function manifest_bytes m envelope keys).
Proof. apply VerifyManifestTrust_means. Qed.
End trust.
