(* ===== verification/DraftTicket.v ===== *)
(** * Draft test tickets (src/src/update/draft_test_ticket.cpp)

    A ticket lets the owner see one draft release before it is published.  It is a
    JSON object of eleven members, signed by a compiled key.  The verifier is
    translated in the monad of JsonFields.v; [Val] is the status [Ok] with the
    ticket, and what a failed call leaves in [*ticket] is not modelled.  The
    primitive is, as in SignatureVerifier.v, a parameter. *)
From S2P Require Import Prelude Json JsonFields SignatureEnvelope GithubRelease ReleaseManifest SignatureVerifier.
From Stdlib Require Import Ascii.
Local Open Scope Z_scope.

Definition kMaximumDraftTestTicketBytes : Z := 4096.
Definition kMaximumGitHubAppClientIdBytes : Z := 64.
Definition kMaximumPrepareIdBytes : Z := 96.
Definition kMaximumDraftTestTicketLifetimeSeconds : Z := 7 * 24 * 60 * 60.
Definition kSha256DigestBytes : Z := 32.
Definition kRepository : bytes := str "kdre/bmx".

Record DraftTestTicket := mkTicket {
  repository : bytes;
  prepare_id : bytes;
  ticket_tag : bytes;
  github_app_client_id : bytes;
  signing_key_id : bytes;
  draft_id : Z;
  ticket_sequence : Z;
  issued_epoch : Z;
  expires_epoch : Z;
  manifest_sha256 : bytes;
}.

Inductive DraftTestTicketStatus :=
| Ok | InvalidArgument | InvalidSize | JsonInvalid | StorageTooSmall | FieldsInvalid
| RepositoryForbidden | LifetimeInvalid | EnvelopeInvalid | SigningKeyMismatch | NoTrustedKey
| SignatureMismatch | Expired.

#[export] Instance DraftTestTicketStatus_eq_dec : EqDecision DraftTestTicketStatus.
Proof. solve_decision. Defined.

Definition kFields : list bytes :=
  [str "ticket_version"; str "repository"; str "prepare_id"; str "tag"; str "draft_id";
   str "release_sequence"; str "manifest_sha256"; str "github_app_client_id";
   str "signing_key_id"; str "issued_epoch"; str "expires_epoch"].

Definition ExactRoot (json : bytes) (tokens : list JsonToken) : bool := exact_root kFields json tokens.

(** The loop from [index]; [first] is [index == 0U]. *)
Fixpoint safe_from (first allow_plus : bool) (value : bytes) : bool :=
  match value with
  | [] => true
  | c :: value' =>
      let alpha_numeric := in_range 48 57 c || in_range 65 90 c || in_range 97 122 c in
      if negb alpha_numeric &&
         (first || (negb (c =? ch "."%char) && negb (c =? ch "_"%char) && negb (c =? ch "-"%char) &&
                    (negb allow_plus || negb (c =? ch "+"%char))))
      then false
      else safe_from false allow_plus value'
  end.

Definition SafeIdentifier (value : bytes) (maximum : Z) (allow_plus : bool) : bool :=
  if (len value =? 0) || (maximum <? len value) then false else safe_from true allow_plus value.

Definition nibble (c : Z) : option Z :=
  if in_range 48 57 c then Some (u8 (c - 48))
  else if in_range 97 102 c then Some (u8 (c - 97 + 10))
  else None.

(** [byte = (byte << 4U) | nibble] *)
Definition shift_in (byte n : Z) : Z := u8 (Z.lor (Z.shiftl byte 4) n).

Fixpoint hex_loop (value : bytes) : option bytes :=
  match value with
  | high :: low :: value' =>
      match nibble high with
      | None => None
      | Some h =>
          match nibble low with
          | None => None
          | Some l => cons (shift_in (shift_in 0 h) l) <$> hex_loop value'
          end
      end
  | _ => Some []
  end.
Definition DecodeHexDigest (value : bytes) : option bytes :=
  if negb (len value =? kSha256DigestBytes * 2) then None else hex_loop value.

Definition ReadUint (json : bytes) (tokens : list JsonToken) (name : bytes) (minimum maximum : Z)
    : parsed DraftTestTicketStatus Z :=
  let index := member json tokens 0 name in
  need (0 <=? index) FieldsInvalid ;!
  get! token := token_at tokens index in
  get! value := some (get_uint64 json token) FieldsInvalid in
  need (negb ((value <? minimum) || (maximum <? value))) FieldsInvalid ;!
  Val value.

Definition ReadString (json : bytes) (tokens : list JsonToken) (name : bytes) (output_size : Z)
    : parsed DraftTestTicketStatus bytes :=
  let index := member json tokens 0 name in
  need (0 <=? index) FieldsInvalid ;!
  get! token := token_at tokens index in
  some (copy_string json token output_size) FieldsInvalid.

(** The fields, in the order of the condition that reads them. *)
Definition read_fields (json : bytes) (tokens : list JsonToken) : parsed DraftTestTicketStatus DraftTestTicket :=
  get! version := ReadUint json tokens (str "ticket_version") 1 1 in
  get! repository := ReadString json tokens (str "repository") (len kRepository + 1) in
  get! prepare_id := ReadString json tokens (str "prepare_id") (kMaximumPrepareIdBytes + 1) in
  get! tag := ReadString json tokens (str "tag") (kMaximumGitHubReleaseTagBytes + 1) in
  get! client_id := ReadString json tokens (str "github_app_client_id") (kMaximumGitHubAppClientIdBytes + 1) in
  get! signing_key_id := ReadString json tokens (str "signing_key_id") (kMaximumSigningKeyIdBytes + 1) in
  get! digest := ReadString json tokens (str "manifest_sha256") (kSha256DigestBytes * 2 + 1) in
  get! draft_id := ReadUint json tokens (str "draft_id") 1 INT64_MAX in
  get! release_sequence := ReadUint json tokens (str "release_sequence") 1 INT64_MAX in
  get! issued_epoch := ReadUint json tokens (str "issued_epoch") 1 INT64_MAX in
  get! expires_epoch := ReadUint json tokens (str "expires_epoch") 1 INT64_MAX in
  need (SafeIdentifier prepare_id kMaximumPrepareIdBytes false) FieldsInvalid ;!
  need (SafeIdentifier tag kMaximumGitHubReleaseTagBytes true) FieldsInvalid ;!
  need (SafeIdentifier client_id kMaximumGitHubAppClientIdBytes false) FieldsInvalid ;!
  need (SafeIdentifier signing_key_id kMaximumSigningKeyIdBytes false) FieldsInvalid ;!
  get! sha256 := some (DecodeHexDigest digest) FieldsInvalid in
  Val (mkTicket repository prepare_id tag client_id signing_key_id draft_id release_sequence
         issued_epoch expires_epoch sha256).

(** The first unrevoked key of that name. *)
Fixpoint trusted_for (keys : list TrustedReleaseKey) (id : bytes) : option TrustedReleaseKey :=
  match keys with
  | [] => None
  | key :: keys' =>
      if negb (revoked key) && bool_decide (trusted_key_id key = Some id) then Some key else trusted_for keys' id
  end.

Section ticket.
Variable verify_function : bytes -> bytes -> bytes -> bool.

(** From the envelope on. *)
Definition authenticate (ticket_bytes signature_envelope : bytes) (trusted_keys : list TrustedReleaseKey)
    (current_epoch : Z) (ticket : DraftTestTicket) : parsed DraftTestTicketStatus DraftTestTicket :=
  match ParseSignatureEnvelope (Some signature_envelope) kMaximumReleaseSignatures with
  | (SigOk, signatures) =>
      match signatures with
      | [signature] =>
          need (bytes_eqb (key_id signature) (signing_key_id ticket)) SigningKeyMismatch ;!
          get! trusted := some (trusted_for trusted_keys (signing_key_id ticket)) NoTrustedKey in
          need (negb (len (public_key_pem trusted) =? 0)) NoTrustedKey ;!
          need (verify_function (public_key_pem trusted) ticket_bytes (der signature)) SignatureMismatch ;!
          need (negb (negb (current_epoch =? 0) && (expires_epoch ticket <? current_epoch))) Expired ;!
          Val ticket
      | _ => Stop SigningKeyMismatch
      end
  | _ => Stop EnvelopeInvalid
  end.

(** A null view is [None]; the other pointers are not null. *)
Definition VerifyDraftTestTicket (ticket_bytes signature_envelope : option bytes) (token_capacity : Z)
    (trusted_keys : list TrustedReleaseKey) (current_epoch : Z) : parsed DraftTestTicketStatus DraftTestTicket :=
  get! ticket_bytes := some ticket_bytes InvalidArgument in
  get! signature_envelope := some signature_envelope InvalidArgument in
  need (negb ((token_capacity =? 0) || (len trusted_keys =? 0))) InvalidArgument ;!
  let size := len ticket_bytes in
  need (negb ((size <? 3) || (kMaximumDraftTestTicketBytes <? size) ||
              negb (byte_at ticket_bytes 0 =? ch "{"%char) ||
              negb (byte_at ticket_bytes (size - 2) =? ch "}"%char) ||
              negb (byte_at ticket_bytes (size - 1) =? LF))) InvalidSize ;!
  get! r := parse_text ticket_bytes token_capacity 8 in
  match r with
  | (JSON_OK, tokens) =>
      need (ExactRoot ticket_bytes tokens) FieldsInvalid ;!
      get! ticket := read_fields ticket_bytes tokens in
      need (bytes_eqb (repository ticket) kRepository) RepositoryForbidden ;!
      need (negb ((expires_epoch ticket <=? issued_epoch ticket) ||
                  (kMaximumDraftTestTicketLifetimeSeconds <? expires_epoch ticket - issued_epoch ticket)))
        LifetimeInvalid ;!
      authenticate ticket_bytes signature_envelope trusted_keys current_epoch ticket
  | (JSON_ERROR_TOKEN_LIMIT, _) => Stop StorageTooSmall
  | _ => Stop JsonInvalid
  end.
End ticket.

Definition DraftTestTicketStatusString (status : DraftTestTicketStatus) : bytes :=
  match status with
  | Ok => str "ok"
  | InvalidArgument => str "invalid argument"
  | InvalidSize => str "ticket size/format invalid"
  | JsonInvalid => str "ticket JSON invalid"
  | StorageTooSmall => str "ticket parser storage too small"
  | FieldsInvalid => str "ticket fields invalid"
  | RepositoryForbidden => str "ticket repository forbidden"
  | LifetimeInvalid => str "ticket lifetime invalid"
  | EnvelopeInvalid => str "ticket signature envelope invalid"
  | SigningKeyMismatch => str "ticket signing key mismatch"
  | NoTrustedKey => str "ticket signing key untrusted"
  | SignatureMismatch => str "ticket signature mismatch"
  | Expired => str "ticket expired"
  end.

(** ** What an accepted ticket says *)
(** The identifiers and digests are those of the manifest. *)
Lemma safe_from_rest plus value :
  safe_from false plus value = forallb (fun c => is_alnum c || (if plus then ReleaseManifest.version_punct else ident_punct) c) value.
Proof.
  induction value as [|c value IH]; [done|]. cbn [safe_from forallb]. rewrite IH.
  unfold ReleaseManifest.version_punct, ident_punct, is_alnum, is_digit, is_upper, is_lower.
  destruct plus; repeat destruct (in_range _ _ c); repeat destruct (c =? _); done.
Qed.

Lemma SafeIdentifier_token_text value maximum plus :
  SafeIdentifier value maximum plus = token_text (if plus then ReleaseManifest.version_punct else ident_punct) maximum value.
Proof.
  unfold SafeIdentifier, token_text. destruct value as [|c rest]; [done|].
  rewrite (proj2 (Z.eqb_neq (len (c :: rest)) 0)) by (rewrite len_cons; len_facts; lia). cbn [orb safe_from].
  rewrite safe_from_rest, Z.leb_antisym. unfold is_alnum, is_digit, is_upper, is_lower.
  destruct (maximum <? _), (in_range 48 57 c), (in_range 65 90 c), (in_range 97 122 c); done.
Qed.

(** A digest of lower-case hexadecimal digits is read as the manifest's are. *)
Lemma nibble_spec c : nibble c = if IsLowerHex c then Some (hex_digit c) else None.
Proof.
  unfold nibble, IsLowerHex, hex_digit. destruct (in_range 48 57 c) eqn:Ed; cbn [orb].
  - apply in_range_spec in Ed. rewrite (proj2 (Z.leb_le c 57)) by lia. unfold u8. by rewrite Z.mod_small by lia.
  - destruct (in_range 97 102 c) eqn:Ea; [|done]. apply in_range_spec in Ea. rewrite (proj2 (Z.leb_gt c 57)) by lia.
    unfold u8. by rewrite Z.mod_small by lia.
Qed.

Lemma hex_loop_sha_loop value : forall n, length value = (2 * n)%nat -> hex_loop value = sha_loop value.
Proof.
  intros n. revert value. induction n as [|n IH]; intros [|high [|low value]] Hl; try done; try (cbn in Hl; lia).
  cbn [hex_loop sha_loop]. rewrite !nibble_spec. destruct (IsLowerHex high) eqn:Eh; [|done].
  destruct (IsLowerHex low) eqn:El; [|done]. cbn [negb orb]. rewrite (IH value) by (cbn in Hl; lia). unfold shift_in.
  assert (Hh : 0 <= hex_digit high < 16).
  { unfold IsLowerHex, hex_digit in *. apply orb_true_iff in Eh. rewrite !in_range_spec in Eh.
    destruct (Z.leb_spec high 57); lia. }
  rewrite Z.shiftl_0_l, Z.lor_0_l. unfold u8 at 2. by rewrite (Z.mod_small (hex_digit high)) by lia.
Qed.

Lemma DecodeHexDigest_ParseSha256 value : DecodeHexDigest value = ParseSha256 value.
Proof.
  unfold DecodeHexDigest, ParseSha256. change (kSha256DigestBytes * 2) with 64.
  destruct (Z.eqb_spec (len value) 64) as [E|]; [|done]. cbn [negb]. apply (hex_loop_sha_loop value 32).
  unfold len in E. lia.
Qed.

Record ticket_wf (t : DraftTestTicket) : Prop := {
  tw_repository : repository t = kRepository;
  tw_prepare_id : token_text ident_punct kMaximumPrepareIdBytes (prepare_id t) = true;
  tw_tag : IsTag (ticket_tag t) = true;
  tw_client_id : token_text ident_punct kMaximumGitHubAppClientIdBytes (github_app_client_id t) = true;
  tw_key_id : ReleaseManifest.IsIdentifier (signing_key_id t) = true;
  tw_draft : 1 <= draft_id t <= INT64_MAX;
  tw_sequence : 1 <= ticket_sequence t <= INT64_MAX;
  tw_life : 1 <= issued_epoch t < expires_epoch t /\ expires_epoch t <= INT64_MAX /\
    expires_epoch t <= issued_epoch t + kMaximumDraftTestTicketLifetimeSeconds;
  tw_digest : digest_ok (manifest_sha256 t);
}.

(** The ticket holds what the members of the document say. *)
Record describes (json : bytes) (ms : list (bytes * Z * jtree)) (t : DraftTestTicket) : Prop := {
  d_version : number_member json ms (str "ticket_version") 1;
  d_repository : string_member json ms (str "repository") 9 (repository t);
  d_prepare_id : string_member json ms (str "prepare_id") 97 (prepare_id t);
  d_tag : string_member json ms (str "tag") 129 (ticket_tag t);
  d_client_id : string_member json ms (str "github_app_client_id") 65 (github_app_client_id t);
  d_key_id : string_member json ms (str "signing_key_id") 65 (signing_key_id t);
  d_digest : exists text, string_member json ms (str "manifest_sha256") 65 text /\
    ParseSha256 text = Some (manifest_sha256 t);
  d_draft : number_member json ms (str "draft_id") (draft_id t);
  d_sequence : number_member json ms (str "release_sequence") (ticket_sequence t);
  d_issued : number_member json ms (str "issued_epoch") (issued_epoch t);
  d_expires : number_member json ms (str "expires_epoch") (expires_epoch t);
}.

Section fields.
Variables (d : nat) (json : bytes) (s e : Z) (ms : list (bytes * Z * jtree)).
Hypothesis is_document : document d json (JObj s e ms).
Notation ts := (flatten (-1) 0 (JObj s e ms)).

Lemma returns_ReadUint {B} name lo hi (k : Z -> parsed DraftTestTicketStatus B) Q :
  (forall v, lo <= v <= hi -> number_member json ms name v -> returns (k v) Q) ->
  returns (get! v := ReadUint json ts name lo hi in k v) Q.
Proof.
  intros Hk. apply (returns_then _ _ (fun v => lo <= v <= hi /\ number_member json ms name v)); [|naive_solver].
  unfold ReadUint. apply returns_need. intros Hj%Z.leb_le. apply returns_token; [by apply member_token|].
  intros t Ht. apply returns_some. intros v Hv. apply returns_need. intros Hr. cbn.
  apply negb_true_iff, orb_false_iff in Hr as [?%Z.ltb_ge ?%Z.ltb_ge].
  split; [lia|]. by apply (root_number d json s e ms is_document name t v).
Qed.

Lemma returns_ReadString {B} name size (k : bytes -> parsed DraftTestTicketStatus B) Q :
  (forall v, string_member json ms name size v -> returns (k v) Q) ->
  returns (get! v := ReadString json ts name size in k v) Q.
Proof.
  intros Hk. eapply returns_then; [|intros v Hv; apply Hk, Hv].
  unfold ReadString. apply returns_need. intros Hj%Z.leb_le. apply returns_token; [by apply member_token|].
  intros t Ht. destruct (copy_string json t size) as [v|] eqn:Ec; [|done]. cbn.
  by apply (root_string d json s e ms is_document name t size v).
Qed.

Lemma read_fields_returns : returns (read_fields json ts) (fun t => describes json ms t /\
  (repository t = kRepository -> issued_epoch t < expires_epoch t ->
   expires_epoch t <= issued_epoch t + kMaximumDraftTestTicketLifetimeSeconds -> ticket_wf t)).
Proof.
  unfold read_fields.
  apply returns_ReadUint. intros version Hv0 Hv. replace version with 1 in Hv by lia.
  apply returns_ReadString. intros repo Hrepo. apply returns_ReadString. intros prepare Hprep.
  apply returns_ReadString. intros tag Htag. apply returns_ReadString. intros client Hcli.
  apply returns_ReadString. intros key Hkey. apply returns_ReadString. intros digest Hdig.
  apply returns_ReadUint. intros draft Hd0 Hd. apply returns_ReadUint. intros sequence Hs0 Hs.
  apply returns_ReadUint. intros issued Hi0 Hi. apply returns_ReadUint. intros expires He0 He.
  do 4 (apply returns_need; rewrite SafeIdentifier_token_text; intros ?).
  apply returns_some. intros sha Hsha. rewrite DecodeHexDigest_ParseSha256 in Hsha. cbn.
  split; [constructor; try done; by exists digest|]. intros. apply ParseSha256_ok in Hsha.
  constructor; try done; cbn in *; lia.
Qed.
End fields.

(** ** Authentication *)
Lemma trusted_for_spec keys id key : trusted_for keys id = Some key <-> exists before after,
  keys = before ++ key :: after /\ revoked key = false /\ trusted_key_id key = Some id /\
  Forall (fun k => ~ (revoked k = false /\ trusted_key_id k = Some id)) before.
Proof.
  induction keys as [|k keys IH]; cbn [trusted_for].
  { split; [done|]. by intros ([|? ?] & after & ? & _). }
  destruct (negb (revoked k) && bool_decide (trusted_key_id k = Some id)) eqn:Ek.
  - apply andb_true_iff in Ek as [Er%negb_true_iff Ei%bool_decide_eq_true]. split.
    + intros [= <-]. by exists [], keys.
    + intros ([|k0 before] & after & [= <- ->] & Hr & Hi & Hb); [done|].
      apply Forall_inv in Hb. tauto.
  - assert (Hn : ~ (revoked k = false /\ trusted_key_id k = Some id)).
    { intros [Hr Hi]. rewrite Hr, bool_decide_eq_true_2 in Ek; done. }
    rewrite IH. split.
    + intros (before & after & -> & Hr & Hi & Hb). exists (k :: before), after. repeat split; try done. by constructor.
    + intros ([|k0 before] & after & [= <- Hk] & Hr & Hi & Hb); [tauto|]. exists before, after.
      apply Forall_cons in Hb as [_ Hb]. done.
Qed.

(** The ticket is signed, alone, by the first unrevoked compiled key of the name it gives. *)
Definition authentic (verify_function : bytes -> bytes -> bytes -> bool) (ticket_bytes envelope : bytes)
    (keys : list TrustedReleaseKey) (t : DraftTestTicket) : Prop :=
  exists s key before after, envelope = print_envelope [s] /\ valid_signatures 4 [s] /\
    key_id s = signing_key_id t /\ keys = before ++ key :: after /\ usable key s /\
    Forall (fun k => ~ usable k s) before /\ public_key_pem key <> [] /\
    verify_function (public_key_pem key) ticket_bytes (der s) = true.

(** A clock that has not been set, 0, does not expire a ticket. *)
Definition in_time (current_epoch : Z) (t : DraftTestTicket) : Prop :=
  current_epoch = 0 \/ current_epoch <= expires_epoch t.

Section authentication.
Variable verify_function : bytes -> bytes -> bytes -> bool.

Lemma need_Val {S A} b (st : S) (k : unit -> parsed S A) a : pbind (need b st) k = Val a <-> b = true /\ k tt = Val a.
Proof. destruct b; cbn; naive_solver. Qed.

Lemma in_time_spec now t : negb (negb (now =? 0) && (expires_epoch t <? now)) = true <-> in_time now t.
Proof. unfold in_time. rewrite negb_true_iff, andb_false_iff, negb_false_iff, Z.eqb_eq, Z.ltb_ge. done. Qed.

Lemma len_nonzero (l : bytes) : negb (len l =? 0) = true <-> l <> [].
Proof. destruct l; [done|]. rewrite len_cons, negb_true_iff, Z.eqb_neq. len_facts. split; [done | lia]. Qed.

Lemma authenticate_iff ticket_bytes envelope keys now t t' :
  authenticate verify_function ticket_bytes envelope keys now t = Val t' <->
  t' = t /\ authentic verify_function ticket_bytes envelope keys t /\ in_time now t.
Proof.
  unfold authenticate. split.
  - destruct (ParseSignatureEnvelope _ _) as [[] sigs] eqn:Ep; try done. apply ParseSignatureEnvelope_sound in Ep as [-> Hv].
    destruct sigs as [|s [|]]; try done. rewrite need_Val, bytes_eqb_eq. intros [Hid Hk].
    destruct (trusted_for keys _) as [key|] eqn:Et; [|done]. cbn [some pbind] in Hk.
    rewrite !need_Val, in_time_spec, len_nonzero in Hk. destruct Hk as (Hp & Hver & Ht & [= <-]).
    split; [done|]. split; [|done]. apply trusted_for_spec in Et as (before & after & -> & Hr & Hi & Hb).
    exists s, key, before, after. unfold usable. rewrite Hid. repeat split; try done; try apply Hv.
    eapply Forall_impl; [exact Hb|]. cbn. tauto.
  - intros (-> & (s & key & before & after & -> & Hv & Hid & -> & [Hu Hr] & Hb & Hp & Hver) & Ht).
    rewrite (ParseSignatureEnvelope_complete kMaximumReleaseSignatures [s] Hv).
    rewrite need_Val, bytes_eqb_eq. split; [done|].
    rewrite (proj2 (trusted_for_spec (before ++ key :: after) (signing_key_id t) key)).
    + cbn [some pbind]. by rewrite !need_Val, in_time_spec, len_nonzero.
    + exists before, after. rewrite <- Hid. repeat split; try done.
      eapply Forall_impl; [exact Hb|]. unfold usable. cbn. tauto.
Qed.

Lemma authenticate_returns ticket_bytes envelope keys now t (Q : DraftTestTicket -> Prop) :
  (authentic verify_function ticket_bytes envelope keys t -> in_time now t -> Q t) ->
  returns (authenticate verify_function ticket_bytes envelope keys now t) Q.
Proof.
  intros HQ. destruct (authenticate _ _ _ _ _ _) as [t'|st|] eqn:Ea; cbn; [|done|].
  - apply authenticate_iff in Ea as (-> & Ha & Ht). auto.
  - exfalso. revert Ea. unfold authenticate, need, some. repeat case_match; try done; cbn [pbind]; repeat case_match; done.
Qed.

Lemma VerifyDraftTestTicket_ok (ticket_bytes envelope : option bytes) (token_capacity : Z)
    (keys : list TrustedReleaseKey) (now : Z)
    (Hbytes : Forall is_byte (default [] ticket_bytes)) (Hcap : 0 <= token_capacity) :
  returns (VerifyDraftTestTicket verify_function ticket_bytes envelope token_capacity keys now) (fun t =>
    exists text sig s e ms, ticket_bytes = Some text /\ envelope = Some sig /\ len text <= 4096 /\
      document 8 text (JObj s e ms) /\ map member_key ms ≡ₚ kFields /\ describes text ms t /\
      ticket_wf t /\ authentic verify_function text sig keys t /\ in_time now t).
Proof.
  unfold VerifyDraftTestTicket. apply returns_some. intros text ->. apply returns_some. intros sig ->.
  apply returns_need. intros _. apply returns_need. rewrite negb_true_iff, !orb_false_iff. intros ((((_ & Hsz) & _) & _) & _).
  apply Z.ltb_ge in Hsz. apply returns_parse_text; [done..|]. intros err ts Hts. destruct err; try done.
  destruct (Hts eq_refl) as (tree & Hdoc & ->). apply returns_need. intros Hroot.
  apply exact_root_object in Hroot as (s & e & ms & -> & Hlen & Hall); [|done].
  eapply returns_then; [by apply (read_fields_returns 8 text s e ms)|]. intros t [Hd Hwf].
  apply returns_need. intros Hrepo%bytes_eqb_eq. apply returns_need.
  rewrite negb_true_iff, orb_false_iff, Z.leb_gt, Z.ltb_ge. intros [Hlife1 Hlife2].
  apply authenticate_returns. intros Ha Ht. exists text, sig, s, e, ms. do 4 (split; [done|]).
  split; [|split; [done|]; split; [apply Hwf; try done; lia | by split]].
  apply (root_names 8 text s e ms); try done. vm_compute. repeat constructor; set_solver.
Qed.

(** C11. A draft ticket is accepted only when it may be believed, and the verifier
    never reads outside its arrays: the file is one strict JSON object of exactly
    the eleven members, the ticket holds their values within their ranges, names
    this repository and lives for at most seven days; the envelope holds one
    signature, by the key the ticket names, and the first unrevoked compiled key
    of that name verifies it over the exact bytes of the ticket; and the clock,
    when it is set, has not passed the end of the ticket. *)
Theorem VerifyDraftTestTicket_sound (ticket_bytes envelope : option bytes) (token_capacity : Z)
    (keys : list TrustedReleaseKey) (now : Z)
    (Hbytes : Forall is_byte (default [] ticket_bytes)) (Hcap : 0 <= token_capacity) :
  returns (VerifyDraftTestTicket verify_function ticket_bytes envelope token_capacity keys now) (fun t =>
    exists text sig s e ms, ticket_bytes = Some text /\ envelope = Some sig /\ len text <= 4096 /\
      document 8 text (JObj s e ms) /\ map member_key ms ≡ₚ kFields /\ describes text ms t /\
      ticket_wf t /\ authentic verify_function text sig keys t /\ in_time now t).
Proof. by apply VerifyDraftTestTicket_ok. Qed.
End authentication.

(** ** A ticket that is accepted *)
Definition sample_ticket : bytes :=
  ((fun c => if c =? 39 then QUOTE else c) <$>
   str "{'ticket_version':1,'repository':'kdre/bmx','prepare_id':'p1','tag':'v2.1+rc','draft_id':5,'release_sequence':7,'manifest_sha256':'00112233445566778899aabbccddeeff00112233445566778899aabbccddeeff','github_app_client_id':'Iv1.a','signing_key_id':'k1','issued_epoch':1000,'expires_epoch':2000}") ++ [LF].
Definition sample_signature : bytes := print_envelope [Build_ReleaseSignature (str "k1") (der_signature [1] [1])].
Definition sample_trusted : list TrustedReleaseKey :=
  [mkTrustedKey (Some (str "k1")) [9] true; mkTrustedKey (Some (str "k1")) [1; 2; 3] false].
Definition accepts_key (pem data signature : bytes) : bool := bytes_eqb pem [1; 2; 3].

Example sample_ticket_answers :
  let answer now := VerifyDraftTestTicket accepts_key (Some sample_ticket) (Some sample_signature) 32 sample_trusted now in
  match answer 0, answer 2000, answer 2001 with
  | Val t, Val _, Stop Expired => ticket_sequence t = 7 /\ hd 0 (drop 1 (manifest_sha256 t)) = 0x11
  | _, _, _ => False
  end.
Proof. vm_compute. split; reflexivity. Qed.

Lemma VerifyDraftTestTicket_sound_witness :
  returns (VerifyDraftTestTicket accepts_key (Some sample_ticket) (Some sample_signature) 32 sample_trusted 2000) (fun t =>
    exists text sig s e ms, Some sample_ticket = Some text /\ Some sample_signature = Some sig /\ len text <= 4096 /\
      document 8 text (JObj s e ms) /\ map member_key ms ≡ₚ kFields /\ describes text ms t /\
      ticket_wf t /\ authentic accepts_key text sig sample_trusted t /\ in_time 2000 t).
Proof.
  apply (VerifyDraftTestTicket_sound accepts_key (Some sample_ticket) (Some sample_signature) 32 sample_trusted 2000);
    [|discriminate].
  apply forallb_is_byte. vm_compute. reflexivity.
Defined.
