(* ===== verification/ReleaseOffer.v ===== *)
(** * The release offer (src/src/update/release_offer.cpp)

    One update is offered from four texts: the installed build record, GitHub's
    answer, the manifest and the envelope of its signatures.  The function
    composes their readers, the verifier and the eligibility policy; the
    theorem says what an offer guarantees end to end. *)
From S2P Require Import Prelude Json JsonFields UpdatePolicy SignatureEnvelope BuildInfo GithubRelease ConfigMigration ReleaseManifest SignatureVerifier.
From Stdlib Require Import Ascii.
Local Open Scope Z_scope.

Inductive ReleaseAcquisitionMode := ModePublishedStable | ModePreparedDraft.

#[export] Instance ReleaseAcquisitionMode_eq_dec : EqDecision ReleaseAcquisitionMode.
Proof. solve_decision. Defined.

#[export] Instance ReleaseDecision_eq_dec : EqDecision ReleaseDecision.
Proof. solve_decision. Defined.

(** The capacities of the caller's arrays; a null array has capacity 0. *)
Record ReleaseOfferStorage := mkOfferStorage {
  installed_token_capacity : Z;
  github_token_capacity : Z;
  github_asset_capacity : Z;
  manifest_token_capacity : Z;
  manifest_file_capacity : Z;
  manifest_directory_capacity : Z;
  manifest_deletion_capacity : Z;
  manifest_replacement_capacity : Z;
}.

Inductive OfferConfigurationStatus := Compatible | ResetConfirmationRequired.

Record ReleaseOffer := mkOffer {
  installed : InstalledBuildInfo;
  github : GitHubLatestRelease;
  manifest : ReleaseManifest;
  required_assets : RequiredGitHubReleaseAssets;
  release_decision : ReleaseDecision;
  configuration_status : OfferConfigurationStatus;
  reset_areas : list ConfigArea;
}.

Inductive ReleaseOfferStatus :=
| Ok | InvalidArgument | InstalledMetadataInvalid | GitHubResponseInvalid | MetadataAssetsInvalid
| MetadataSizeMismatch | ManifestInvalid | ManifestUntrusted | ReleaseAssetsInvalid
| ZipMetadataMismatch | ReleaseRejected | ReleaseEpochRegressed.

Record ReleaseOfferResult := mkResult {
  status : ReleaseOfferStatus;
  build_info_status : BuildInfoStatus;
  github_status : GitHubReleaseParseStatus;
  assets_status : RequiredGitHubAssetsStatus;
  manifest_status : ManifestParseStatus;
  offer_trust_status : ManifestTrustStatus;
  offer_decision : ReleaseDecision;
}.

Definition MakeResult (st : ReleaseOfferStatus) : ReleaseOfferResult :=
  mkResult st BuildInfo.InvalidArgument GithubRelease.InvalidArgument AssetsInvalidArgument
    ReleaseManifest.InvalidArgument TrustInvalidArgument InvalidCandidateMetadata.

Definition StorageIsValid (storage : ReleaseOfferStorage) : bool :=
  negb (installed_token_capacity storage =? 0) && negb (github_token_capacity storage =? 0) &&
  negb (github_asset_capacity storage =? 0) && negb (manifest_token_capacity storage =? 0) &&
  negb (manifest_file_capacity storage =? 0) && negb (manifest_directory_capacity storage =? 0) &&
  negb (manifest_deletion_capacity storage =? 0) && negb (manifest_replacement_capacity storage =? 0).

Definition manifest_storage (storage : ReleaseOfferStorage) : ManifestParseStorage :=
  ReleaseManifest.mkStorage (manifest_token_capacity storage) (manifest_file_capacity storage)
    (manifest_directory_capacity storage) (manifest_deletion_capacity storage)
    (manifest_replacement_capacity storage).

(** ** Results under construction *)
Definition with_status (st : ReleaseOfferStatus) (r : ReleaseOfferResult) : ReleaseOfferResult :=
  mkResult st (build_info_status r) (github_status r) (assets_status r) (manifest_status r) (offer_trust_status r)
    (offer_decision r).
Definition with_build_info (b : BuildInfoStatus) (r : ReleaseOfferResult) : ReleaseOfferResult :=
  mkResult (status r) b (github_status r) (assets_status r) (manifest_status r) (offer_trust_status r) (offer_decision r).
Definition with_github (g : GitHubReleaseParseStatus) (r : ReleaseOfferResult) : ReleaseOfferResult :=
  mkResult (status r) (build_info_status r) g (assets_status r) (manifest_status r) (offer_trust_status r)
    (offer_decision r).
Definition with_assets (a : RequiredGitHubAssetsStatus) (r : ReleaseOfferResult) : ReleaseOfferResult :=
  mkResult (status r) (build_info_status r) (github_status r) a (manifest_status r) (offer_trust_status r)
    (offer_decision r).
Definition with_manifest (m : ManifestParseStatus) (r : ReleaseOfferResult) : ReleaseOfferResult :=
  mkResult (status r) (build_info_status r) (github_status r) (assets_status r) m (offer_trust_status r)
    (offer_decision r).
Definition with_trust (t : ManifestTrustStatus) (r : ReleaseOfferResult) : ReleaseOfferResult :=
  mkResult (status r) (build_info_status r) (github_status r) (assets_status r) (manifest_status r) t (offer_decision r).
Definition with_decision (d : ReleaseDecision) (r : ReleaseOfferResult) : ReleaseOfferResult :=
  mkResult (status r) (build_info_status r) (github_status r) (assets_status r) (manifest_status r)
    (offer_trust_status r) d.

(** A call whose failure becomes a status of the result. *)
Definition failing_with {S A} (m : parsed S A) (f : S -> ReleaseOfferResult) : parsed ReleaseOfferResult A :=
  match m with Val a => Val a | Stop s => Stop (f s) | Ub => Ub end.
Definition of_sum {S A} (m : S + A) : parsed S A := match m with inl s => Stop s | inr a => Val a end.
(** [release.assets[index]] *)
Definition asset_at {S} (release : GitHubLatestRelease) (index : nat) : parsed S GitHubReleaseAsset :=
  match assets release !! index with Some a => Val a | None => Ub end.

Section offer.
Variable verify_function : bytes -> bytes -> bytes -> bool.

Definition release_kind (mode : ReleaseAcquisitionMode) : GitHubReleaseKind :=
  if bool_decide (mode = ModePreparedDraft) then PreparedDraft else PublishedStable.

Definition installed_view (b : InstalledBuildInfo) : InstalledRelease :=
  {| has_update_metadata := true; installed_sequence := BuildInfo.release_sequence b;
     installed_board := BuildInfo.board b; installed_updater_abi := updater_abi b |}.

Definition candidate_view (mode : ReleaseAcquisitionMode) (g : GitHubLatestRelease) (m : ReleaseManifest)
    : ReleaseCandidate :=
  {| candidate_source := GitHubLatestKdreBmx; candidate_channel := Stable;
     api_reports_draft := if bool_decide (mode = ModePublishedStable) then draft g else false;
     api_reports_prerelease := prerelease g;
     candidate_sequence := ReleaseManifest.release_sequence (release m);
     candidate_board := asset_board (asset m);
     UpdatePolicy.minimum_updater_abi := ReleaseManifest.minimum_updater_abi (release m);
     UpdatePolicy.maximum_updater_abi := ReleaseManifest.maximum_updater_abi (release m) |}.

(** The four texts and the primitive are [None] when their pointer is null. *)
Definition BuildReleaseOfferForMode (installed_build_info github_latest_response manifest_bytes
    signature_envelope : option bytes) (running_board : BoardFamily) (mode : ReleaseAcquisitionMode)
    (trusted_keys : list TrustedReleaseKey) (storage : ReleaseOfferStorage)
    : parsed ReleaseOfferResult (ReleaseOfferResult * ReleaseOffer) :=
  let result := MakeResult InvalidArgument in
  match installed_build_info, github_latest_response, manifest_bytes, signature_envelope with
  | Some installed_build_info, Some github_latest_response, Some manifest_bytes, Some signature_envelope =>
      need (IsKnownBoardFamily running_board && negb (len trusted_keys =? 0) && StorageIsValid storage) result ;!
      get! installed := failing_with (ParseBuildInfo installed_build_info (installed_token_capacity storage))
        (fun s => with_status InstalledMetadataInvalid (with_build_info s result)) in
      let result := with_build_info BuildInfo.Ok result in
      need (bool_decide (BuildInfo.board installed = running_board)) (with_status InstalledMetadataInvalid result) ;!
      get! github := failing_with (ParseGitHubRelease github_latest_response (github_token_capacity storage)
          (github_asset_capacity storage) (release_kind mode))
        (fun s => with_status GitHubResponseInvalid (with_github s result)) in
      let result := with_github GithubRelease.Ok result in
      get! metadata := failing_with (of_sum (FindReleaseMetadataAssetsForKind github (release_kind mode)))
        (fun s => with_status MetadataAssetsInvalid (with_assets s result)) in
      let result := with_assets AssetsOk result in
      get! manifest_asset := asset_at github (metadata_manifest metadata) in
      get! signature_asset := asset_at github (metadata_signature metadata) in
      need (negb (negb (size manifest_asset =? len manifest_bytes) ||
                  negb (size signature_asset =? len signature_envelope)))
        (with_status MetadataSizeMismatch result) ;!
      get! manifest := failing_with (ParseReleaseManifest manifest_bytes running_board (manifest_storage storage))
        (fun s => with_status ManifestInvalid (with_manifest s result)) in
      let result := with_manifest ReleaseManifest.Ok result in
      let trust := VerifyManifestTrust verify_function manifest_bytes manifest signature_envelope trusted_keys in
      let result := with_trust (trust_status trust) result in
      need (bool_decide (trust_status trust = Trusted)) (with_status ManifestUntrusted result) ;!
      get! required := failing_with (of_sum (FindRequiredAssetsForKind github (release_kind mode)
          (tag (release manifest)) (filename (asset manifest))))
        (fun s => with_status ReleaseAssetsInvalid (with_assets s result)) in
      get! board_zip := asset_at github (required_board_zip required) in
      need (negb (negb (Nat.eqb (required_manifest required) (metadata_manifest metadata)) ||
                  negb (Nat.eqb (required_signature required) (metadata_signature metadata)) ||
                  negb (size board_zip =? download_size (asset manifest))))
        (with_status ZipMetadataMismatch result) ;!
      let decision := EvaluateReleaseCandidate (installed_view installed) (candidate_view mode github manifest) in
      let result := with_decision decision result in
      need (bool_decide (decision = UpdateAvailable)) (with_status ReleaseRejected result) ;!
      need (negb (ReleaseManifest.release_epoch (release manifest) <? BuildInfo.release_epoch installed))
        (with_status ReleaseEpochRegressed result) ;!
      Val (with_status Ok result, mkOffer installed github manifest required decision Compatible [])
  | _, _, _, _ => Stop result
  end.

Definition BuildReleaseOffer (installed_build_info github_latest_response manifest_bytes
    signature_envelope : option bytes) (running_board : BoardFamily)
    (trusted_keys : list TrustedReleaseKey) (storage : ReleaseOfferStorage)
    : parsed ReleaseOfferResult (ReleaseOfferResult * ReleaseOffer) :=
  BuildReleaseOfferForMode installed_build_info github_latest_response manifest_bytes signature_envelope
    running_board ModePublishedStable trusted_keys storage.
End offer.

Definition ReleaseOfferStatusString (status : ReleaseOfferStatus) : bytes :=
  match status with
  | Ok => str "ok"
  | InvalidArgument => str "invalid argument"
  | InstalledMetadataInvalid => str "installed BMX metadata invalid or wrong board"
  | GitHubResponseInvalid => str "GitHub latest-release response invalid"
  | MetadataAssetsInvalid => str "release metadata assets invalid"
  | MetadataSizeMismatch => str "release metadata size differs from GitHub"
  | ManifestInvalid => str "release manifest invalid"
  | ManifestUntrusted => str "release manifest signature untrusted"
  | ReleaseAssetsInvalid => str "signed release assets invalid"
  | ZipMetadataMismatch => str "board ZIP metadata mismatch"
  | ReleaseRejected => str "release is not an eligible upgrade"
  | ReleaseEpochRegressed => str "release timestamp regressed"
  end.

(** ** What an offer guarantees *)
(** An asset of the release with that name and size, that can only be fetched
    from the configured repository. *)
Definition bound_asset (kind : GitHubReleaseKind) (r : GitHubLatestRelease) (n : bytes) (bytes_count : Z) (i : nat)
    : Prop :=
  exists a, assets r !! i = Some a /\ name a = n /\ size a = bytes_count /\ asset_ok kind (tag_name r) a.

Definition authentic (verify : bytes -> bytes -> bytes -> bool) (keys : list TrustedReleaseKey)
    (manifest_bytes envelope : bytes) (m : ReleaseManifest) : Prop :=
  exists sigs s, envelope = print_envelope sigs /\ valid_signatures 4 sigs /\ s ∈ sigs /\ declared m s /\
    verifies verify keys manifest_bytes s.

Record offer_ok (verify : bytes -> bytes -> bytes -> bool) (keys : list TrustedReleaseKey) (board : BoardFamily)
    (kind : GitHubReleaseKind) (storage : ReleaseOfferStorage) (info answer manifest_bytes envelope : bytes)
    (o : ReleaseOffer) : Prop := {
  o_info : ParseBuildInfo info (installed_token_capacity storage) = Val (installed o);
  o_answer : ParseGitHubRelease answer (github_token_capacity storage) (github_asset_capacity storage) kind = Val (github o);
  o_installed : build_info_wf (installed o) /\ BuildInfo.board (installed o) = board;
  o_release : release_ok kind (github o);
  o_read : ParseReleaseManifest manifest_bytes board (manifest_storage storage) = Val (manifest o);
  o_manifest : manifest_wf board (manifest_storage storage) (manifest o);
  o_authentic : authentic verify keys manifest_bytes envelope (manifest o);
  o_tag : tag_name (github o) = tag (release (manifest o));
  o_manifest_asset : bound_asset kind (github o) kManifestAssetName (len manifest_bytes)
    (required_manifest (required_assets o));
  o_signature_asset : bound_asset kind (github o) kSignatureAssetName (len envelope)
    (required_signature (required_assets o));
  o_board_zip : bound_asset kind (github o) (filename (asset (manifest o))) (download_size (asset (manifest o)))
    (required_board_zip (required_assets o));
  o_newer : BuildInfo.release_sequence (installed o) < ReleaseManifest.release_sequence (release (manifest o));
  o_abi : ReleaseManifest.minimum_updater_abi (release (manifest o)) <= updater_abi (installed o)
    <= ReleaseManifest.maximum_updater_abi (release (manifest o));
  o_epoch : BuildInfo.release_epoch (installed o) <= ReleaseManifest.release_epoch (release (manifest o));
}.

Definition all_ok : ReleaseOfferResult :=
  mkResult Ok BuildInfo.Ok GithubRelease.Ok AssetsOk ReleaseManifest.Ok Trusted UpdateAvailable.

Definition storage_nonneg (storage : ReleaseOfferStorage) : Prop :=
  0 <= installed_token_capacity storage /\ 0 <= github_token_capacity storage /\
  0 <= manifest_token_capacity storage /\ capacities_nonneg (manifest_storage storage).

(** ** Proofs *)
Lemma returns_failing {S A B} (m : parsed S A) f (k : A -> parsed ReleaseOfferResult B) Q P :
  returns m P -> (forall a, m = Val a -> P a -> returns (k a) Q) -> returns (pbind (failing_with m f) k) Q.
Proof. destruct m; cbn; auto. Qed.

Lemma returns_of_sum {S A B} (m : S + A) f (k : A -> parsed ReleaseOfferResult B) Q :
  (forall a, m = inr a -> returns (k a) Q) -> returns (pbind (failing_with (of_sum m) f) k) Q.
Proof. destruct m; cbn; auto. Qed.

Lemma returns_asset {S B} r n i (k : GitHubReleaseAsset -> parsed S B) Q : is_asset r n i ->
  (forall a, assets r !! i = Some a -> name a = n -> returns (k a) Q) -> returns (pbind (asset_at r i) k) Q.
Proof. intros (a & Ha & Hn) Hk. unfold asset_at. rewrite Ha. by apply Hk. Qed.

Lemma bound kind r n i a : release_ok kind r -> assets r !! i = Some a -> name a = n ->
  bound_asset kind r n (size a) i.
Proof.
  intros Hr Ha Hn. exists a. split; [done|]. split; [done|]. split; [done|].
  pose proof (ok_assets _ _ Hr) as Hall. rewrite Forall_forall in Hall. apply Hall. by eapply list_elem_of_lookup_2.
Qed.

(** A trusted manifest is authentic. *)
Lemma trusted_authentic verify keys manifest_bytes envelope m :
  trust_status (VerifyManifestTrust verify manifest_bytes m envelope keys) = Trusted ->
  authentic verify keys manifest_bytes envelope m.
Proof.
  intros Ht. pose proof (VerifyManifestTrust_means verify manifest_bytes m envelope keys) as H.
  unfold trust_means in H. rewrite Ht in H. destruct H as (sigs & -> & Hv & s & Hs & _ & Hd & Hvs). by exists sigs, s.
Qed.

(** The policy's answer, on the views of the two records. *)
Lemma newer mode b g m board storage : build_info_wf b -> manifest_wf board storage m ->
  EvaluateReleaseCandidate (installed_view b) (candidate_view mode g m) = UpdateAvailable ->
  BuildInfo.release_sequence b < ReleaseManifest.release_sequence (release m) /\
  ReleaseManifest.minimum_updater_abi (release m) <= updater_abi b <= ReleaseManifest.maximum_updater_abi (release m).
Proof.
  intros Hb Hm He. pose proof (wf_release _ _ _ Hm) as Hr.
  pose proof (BuildInfo.wf_sequence _ Hb). pose proof (BuildInfo.wf_abi _ Hb).
  pose proof (ReleaseManifest.wf_sequence _ Hr). pose proof (ReleaseManifest.wf_abi _ Hr).
  apply eligible_evaluate in He; [|unfold installed_wf, candidate_wf; cbn; lia..].
  unfold eligible in He. cbn in He. lia.
Qed.

Section sound.
Variable verify : bytes -> bytes -> bytes -> bool.

Lemma BuildReleaseOfferForMode_ok info answer manifest_bytes envelope board mode keys storage :
  Forall is_byte info -> Forall is_byte answer -> Forall is_byte manifest_bytes -> storage_nonneg storage ->
  returns (BuildReleaseOfferForMode verify (Some info) (Some answer) (Some manifest_bytes) (Some envelope) board mode
      keys storage)
    (fun '(r, o) => r = all_ok /\ offer_ok verify keys board (release_kind mode) storage info answer manifest_bytes envelope o).
Proof.
  intros Hi Ha Hm (H1 & H2 & H3 & Hcap). unfold BuildReleaseOfferForMode. apply returns_need. intros _.
  eapply returns_failing; [by apply ParseBuildInfo_ok|]. intros b Hrb [Hb _].
  apply returns_need. intros Hboard%bool_decide_eq_true.
  eapply returns_failing; [by apply ParseGitHubRelease_ok|]. intros g Hrg Hg.
  apply returns_of_sum. intros md Hmd. apply FindReleaseMetadataAssets_ok in Hmd as [Hmm Hms].
  eapply returns_asset; [done|]. intros am Ham Hamn. eapply returns_asset; [done|]. intros asg Has Hasn.
  apply returns_need. intros Hsizes%negb_true_iff. apply orb_false_iff in Hsizes as [Hsm Hss].
  apply negb_false_iff, Z.eqb_eq in Hsm, Hss.
  eapply returns_failing; [by apply ParseReleaseManifest_ok|]. intros m Hread Hmwf.
  apply returns_need. intros Ht%bool_decide_eq_true. pose proof (trusted_authentic _ _ _ _ _ Ht) as Htrust.
  apply returns_of_sum. intros q Hq. apply FindRequiredAssets_ok in Hq as [_ Htag _ _ _ Hz].
  eapply returns_asset; [exact Hz|]. intros az Haz Hazn.
  apply returns_need. intros Hsame%negb_true_iff. rewrite !orb_false_iff, !negb_false_iff, !Nat.eqb_eq, Z.eqb_eq in Hsame.
  destruct Hsame as [[Hqm Hqs] Hqz].
  apply returns_need. intros Hd%bool_decide_eq_true. apply returns_need. intros He%negb_true_iff%Z.ltb_ge.
  destruct (newer mode b g m board (manifest_storage storage) Hb Hmwf Hd) as [Hnew Habi].
  unfold pbind, returns. rewrite Hd, Ht. split; [done|]. constructor; cbn; try done.
  - rewrite Hqm, <- Hsm. by apply bound.
  - rewrite Hqs, <- Hss. by apply bound.
  - rewrite <- Hqz. by apply bound.
Qed.

(** C7. An update is only ever offered when everything about it has been checked.
    [BuildReleaseOffer], in either mode, never reads outside its arrays, and if it
    answers Ok then: the installed record is the one read from its text, well formed and of the running board;
    the manifest is the one read from the given bytes, is safe to install from, and
    a signature of the canonical envelope, made by a compiled key that the manifest
    declares, verifies over exactly these bytes; the GitHub release carries the
    signed tag, is published (or a draft in that mode) and its three assets have the
    names and sizes of the manifest, the envelope and the signed archive and can
    only come from the configured repository; the release sequence strictly grows,
    the installed updater's ABI is in the window, and the epoch does not regress. *)
Theorem BuildReleaseOfferForMode_sound (info answer manifest_bytes envelope : bytes) (board : BoardFamily)
    (mode : ReleaseAcquisitionMode) (keys : list TrustedReleaseKey) (storage : ReleaseOfferStorage)
    (Hinfo : Forall is_byte info) (Hanswer : Forall is_byte answer) (Hmanifest : Forall is_byte manifest_bytes)
    (Hstorage : storage_nonneg storage) :
  returns (BuildReleaseOfferForMode verify (Some info) (Some answer) (Some manifest_bytes) (Some envelope) board mode
      keys storage)
    (fun '(r, o) => r = all_ok /\ offer_ok verify keys board (release_kind mode) storage info answer manifest_bytes envelope o).
Proof. by apply BuildReleaseOfferForMode_ok. Qed.
End sound.

(** ** An offer *)
Definition sample_envelope : bytes :=
  print_envelope [{| SignatureEnvelope.key_id := str "k1"; der := der_signature [1] [2] |}].
Definition sample_keys : list TrustedReleaseKey := [mkTrustedKey (Some (str "k1")) [1; 2; 3] false].
(** A primitive that accepts one signature for one key. *)
Definition sample_verify (pem data signature : bytes) : bool :=
  bytes_eqb pem [1; 2; 3] && bytes_eqb signature (der_signature [1] [2]).

Definition sample_asset_text (n size : bytes) : bytes :=
  str "{'id':5,'name':'" ++ n ++ str "','size':" ++ size ++
  str ",'browser_download_url':'https://github.com/kdre/bmx/releases/download/v2/" ++ n ++ str "'}".
Definition sample_offer_answer : bytes :=
  (fun c => if c =? 39 then QUOTE else c) <$>
  (str "{'id':5,'tag_name':'v2','draft':false,'prerelease':false,'assets':[" ++
   sample_asset_text kManifestAssetName (str "4472") ++ str "," ++
   sample_asset_text kSignatureAssetName (str "81") ++ str "," ++
   sample_asset_text (str "bmx-2-pi5-pi500-boot.zip") (str "9") ++ str "]}").
Definition sample_offer_storage : ReleaseOfferStorage := mkOfferStorage 64 64 8 1024 16 1 1 1.
Definition sample_offer : parsed ReleaseOfferResult (ReleaseOfferResult * ReleaseOffer) :=
  BuildReleaseOffer sample_verify (Some BuildInfo.sample_file) (Some sample_offer_answer) (Some sample_manifest)
    (Some sample_envelope) Pi5Pi500 sample_keys sample_offer_storage.

Example sample_offer_accepted :
  match sample_offer with
  | Val (r, o) => r = all_ok /\ BuildInfo.release_sequence (installed o) = 7
  | _ => False
  end.
Proof. vm_compute. split; reflexivity. Qed.

Lemma BuildReleaseOfferForMode_sound_witness :
  returns (BuildReleaseOfferForMode sample_verify (Some BuildInfo.sample_file) (Some sample_offer_answer)
      (Some sample_manifest) (Some sample_envelope) Pi5Pi500 ModePublishedStable sample_keys sample_offer_storage)
    (fun '(r, o) => r = all_ok /\ offer_ok sample_verify sample_keys Pi5Pi500 (release_kind ModePublishedStable)
      sample_offer_storage BuildInfo.sample_file sample_offer_answer sample_manifest sample_envelope o).
Proof.
  apply (BuildReleaseOfferForMode_sound sample_verify).
  - apply forallb_is_byte. vm_compute. reflexivity.
  - apply forallb_is_byte. vm_compute. reflexivity.
  - apply forallb_is_byte. vm_compute. reflexivity.
  - repeat split; discriminate.
Defined.
