(* ===== verification/ZipFormat.v ===== *)
(** * ZIP records, names and checksums (src/src/update/zip_reader.cpp, pure part)

    The bmx-zip32-v1 vocabulary: statuses, limits, entries and inventories, the
    little-endian accessors, CRC-32, the validation of names and directory
    metadata, and the normalization of names for browsing.  C strings are their
    contents. *)
From S2P Require Import Prelude FatPathPolicy.
From Stdlib Require Import Ascii.
Local Open Scope Z_scope.

Definition kZipMaximumEntries : Z := 32768.
Definition kZipMaximumPathBytes : Z := 240.
Definition kZipInputBufferBytes : Z := 32768.
Definition kZipInflateDictionaryBytes : Z := 32768.

Record ZipLimits := mkLimits {
  maximum_archive_bytes : Z;
  maximum_entries : Z;
  maximum_path_bytes : Z;
  maximum_file_bytes : Z;
  maximum_installed_bytes : Z;
  maximum_compression_ratio : Z;
}.

Definition default_limits : ZipLimits :=
  mkLimits (512 * 1024 * 1024) kZipMaximumEntries kZipMaximumPathBytes (128 * 1024 * 1024) (512 * 1024 * 1024) 200.

Inductive ZipCompression := Store | Deflate.

#[export] Instance ZipCompression_eq_dec : EqDecision ZipCompression.
Proof. solve_decision. Defined.

Definition compression_method (c : ZipCompression) : Z := match c with Store => 0 | Deflate => 8 end.

Record ZipEntry := mkEntry {
  path : bytes;
  is_directory : bool;
  compression : ZipCompression;
  flags : Z;
  crc32 : Z;
  compressed_size : Z;
  size : Z;
  local_header_offset : Z;
  data_offset : Z;
  external_attributes : Z;
  creator_system : Z;
}.

Record ZipInventory := mkInventory {
  entries : list ZipEntry;
  file_count : Z;
  directory_count : Z;
  archive_size : Z;
  installed_size : Z;
  central_directory_offset : Z;
  central_directory_size : Z;
}.

(** A null pointer is [None]. *)
Record ZipExpectedFile := mkExpected {
  expected_path : option bytes;
  expected_size : Z;
  expected_compression : ZipCompression;
  expected_sha256 : option bytes;
}.

Record ZipExpectedInventory := mkExpectedInventory {
  expected_files : list ZipExpectedFile;
  expected_directories : list (option bytes);
}.

Inductive ZipStatus :=
| Ok | InvalidArgument | NotOpen | SourceIo | ArchiveSizeInvalid | EndRecordInvalid | ArchiveCommentForbidden
| MultiDiskForbidden | Zip64Forbidden | EntryCountInvalid | StorageTooSmall | CentralDirectoryInvalid
| UnsupportedVersion | UnsupportedFlags | UnsupportedCompression | ExtraFieldForbidden | MemberCommentForbidden
| SpecialFileForbidden | DirectoryMetadataInvalid | PathInvalid | PathTooLong | PathEncodingInvalid
| NonAsciiPathUnsupported | DuplicatePath | FatCaseCollision | FileUsedAsDirectory | MemberSizeInvalid
| CompressionRatioInvalid | OffsetInvalid | LocalHeaderMismatch | InstalledSizeInvalid | ExpectedInventoryInvalid
| InventoryMismatch | EntryNotFound | HashSinkRequired | HashSinkError | HashMismatch | SinkError
| WorkspaceRequired | CrcMismatch | UncompressedSizeMismatch | DeflateInvalid | Cancelled.

#[export] Instance ZipStatus_eq_dec : EqDecision ZipStatus.
Proof. solve_decision. Defined.

Definition kEndSignature : Z := 0x06054b50.
Definition kCentralSignature : Z := 0x02014b50.
Definition kLocalSignature : Z := 0x04034b50.
Definition kDescriptorSignature : Z := 0x08074b50.
Definition kUtf8Flag : Z := Z.shiftl 1 11.
Definition kLenientFlagMask : Z := Z.lor (Z.lor (Z.shiftl 1 1) (Z.shiftl 1 2)) (Z.shiftl 1 3).
Definition kEndRecordSize : Z := 22.
Definition kCentralHeaderSize : Z := 46.
Definition kLocalHeaderSize : Z := 30.

(** [ReadU16(bytes + i)], [ReadU32(bytes + i)] *)
Definition ReadU16 (l : bytes) (i : Z) : Z := Z.lor (byte_at l i) (u16 (Z.shiftl (byte_at l (i + 1)) 8)).
Definition ReadU32 (l : bytes) (i : Z) : Z :=
  Z.lor (Z.lor (Z.lor (byte_at l i) (u32 (Z.shiftl (byte_at l (i + 1)) 8)))
    (u32 (Z.shiftl (byte_at l (i + 2)) 16))) (u32 (Z.shiftl (byte_at l (i + 3)) 24)).

Definition CheckedAdd (left right : Z) : option Z := if UINT64_MAX - right <? left then None else Some (left + right).
Definition RangeWithin (offset length boundary : Z) : bool :=
  match CheckedAdd offset length with Some e => e <=? boundary | None => false end.

Fixpoint FatEqual (left right : bytes) : bool :=
  match left, right with
  | [], [] => true
  | a :: left', b :: right' => (AsciiLower a =? AsciiLower b) && FatEqual left' right'
  | _, _ => false
  end.

Fixpoint FatPrefixDirectory (parent child : bytes) : bool :=
  match parent, child with
  | [], c :: _ => c =? SLASH
  | [], [] => false
  | a :: parent', b :: child' => (AsciiLower a =? AsciiLower b) && FatPrefixDirectory parent' child'
  | _ :: _, [] => false
  end.

(** ** Names *)
(** The length of the sequence that a byte of at least 0x80 starts, and its bits. *)
Definition utf8_lead (first : Z) : option (nat * Z) :=
  if in_range 0xc2 0xdf first then Some (1%nat, Z.land first 0x1f)
  else if in_range 0xe0 0xef first then Some (2%nat, Z.land first 0x0f)
  else if in_range 0xf0 0xf4 first then Some (3%nat, Z.land first 0x07)
  else None.

(** [code_point], [count] continuation bytes of a sequence of [total] being expected. *)
Definition utf8_bad (total : nat) (code_point : Z) : bool :=
  ((total =? 1)%nat && (code_point <? 0x80)) || ((total =? 2)%nat && (code_point <? 0x800)) ||
  ((total =? 3)%nat && (code_point <? 0x10000)) || in_range 0xd800 0xdfff code_point || (0x10ffff <? code_point).

Fixpoint utf8_loop (l : bytes) (total count : nat) (code_point : Z) : bool :=
  match l with
  | [] => (count =? 0)%nat
  | c :: l' =>
      match count with
      | O =>
          if c <? 0x80 then utf8_loop l' 0 0 0
          else match utf8_lead c with Some (n, bits) => utf8_loop l' n n bits | None => false end
      | S count' =>
          if negb (Z.land c 0xc0 =? 0x80) then false
          else
            let code_point := Z.lor (Z.shiftl code_point 6) (Z.land c 0x3f) in
            match count' with
            | O => if utf8_bad total code_point then false else utf8_loop l' 0 0 0
            | _ => utf8_loop l' total count' code_point
            end
      end
  end.
Definition IsValidUtf8 (l : bytes) : bool := utf8_loop l 0 0 0.

(** The NUL-terminated copy, or the status. *)
Definition ValidateAndCopyPath (raw : bytes) (flags : Z) (is_directory : bool) (maximum_path_bytes : Z)
    : ZipStatus + bytes :=
  if len raw =? 0 then inl PathInvalid
  else if bool_decide (NUL ∈ raw) then inl PathInvalid
  else if existsb (fun c => 0x80 <=? c) raw then
    if (Z.land flags kUtf8Flag =? 0) || negb (IsValidUtf8 raw) then inl PathEncodingInvalid
    else inl NonAsciiPathUnsupported
  else
    let trailing_slash := last_byte raw =? SLASH in
    if negb (Bool.eqb trailing_slash is_directory) then inl DirectoryMetadataInvalid
    else
      let normalized := if trailing_slash then take (length raw - 1) raw else raw in
      match ValidateFatRelativePathBytes (Some normalized) maximum_path_bytes with
      | FatPathPolicy.PathTooLong => inl PathTooLong
      | FatPathPolicy.Ok => inr normalized
      | _ => inl PathInvalid
      end.

(** The status of the failure, if any. *)
Definition IsDirectoryMetadata (creator_system external_attributes : Z) (name_is_directory : bool) : option ZipStatus :=
  let unix_mode := u16 (Z.land (Z.shiftr external_attributes 16) 0xffff) in
  let unix_type := u16 (Z.land unix_mode 0xf000) in
  if (creator_system =? 3) && (unix_type =? 0xa000) then Some SpecialFileForbidden
  else if (creator_system =? 3) && negb (unix_type =? 0) && negb (unix_type =? 0x8000) && negb (unix_type =? 0x4000)
  then Some SpecialFileForbidden
  else
    let by_unix_mode := (creator_system =? 3) && (unix_type =? 0x4000) in
    let by_dos_attribute := negb (Z.land external_attributes 0x10 =? 0) in
    if negb (Bool.eqb (by_unix_mode || by_dos_attribute) name_is_directory) then Some DirectoryMetadataInvalid else None.

(** A sanitized copy of an offending name, for diagnostics. *)
Definition NoteFailurePath (raw : bytes) : bytes :=
  (fun c => if (0x20 <=? c) && (c <? 0x7f) then c else ch "?"%char) <$> take 255 raw.

Definition is_separator (c : Z) : bool := (c =? SLASH) || (c =? BACKSLASH).

(** [while (r < rawsz && test(raw[r])) r++], and the same from the end. *)
Fixpoint drop_while (test : Z -> bool) (l : bytes) : bytes :=
  match l with c :: l' => if test c then drop_while test l' else l | [] => [] end.
Definition drop_while_end (test : Z -> bool) (l : bytes) : bytes := rev (drop_while test (rev l)).
Fixpoint take_until (test : Z -> bool) (l : bytes) : bytes :=
  match l with c :: l' => if test c then [] else c :: take_until test l' | [] => [] end.

(** The loop over the components; the output has [dstsz] bytes. *)
Fixpoint normalize_loop (fuel : nat) (dstsz : Z) (out rest : bytes) : option bytes :=
  match rest with
  | [] => Some out
  | _ =>
      match fuel with
      | O => None
      | S fuel' =>
          let component := take_until is_separator rest in
          let trimmed := drop_while_end (fun c => (c =? SP) || (c =? DOT)) (drop_while (fun c => c =? SP) component) in
          if (length trimmed =? 0)%nat then None
          else if negb (len out =? 0) && (dstsz <=? len out + 1) then None
          else
            let out := if len out =? 0 then out else out ++ [SLASH] in
            if dstsz <=? len out + len trimmed then None
            else normalize_loop fuel' dstsz (out ++ trimmed)
                   (drop_while is_separator (drop (length component) rest))
      end
  end.

(** The normalized name, and whether it is that of a directory. *)
Definition NormalizeLenientPath (dstsz : Z) (raw : bytes) : option (bytes * bool) :=
  if (dstsz =? 0) || (len raw =? 0) then None
  else
    let trailing_slash := is_separator (last_byte raw) in
    match normalize_loop (length raw) dstsz [] (drop_while is_separator raw) with
    | None => None
    | Some out =>
        if len out =? 0 then None
        else if trailing_slash then if dstsz <=? len out + 1 then None else Some (out ++ [SLASH], true)
        else Some (out, false)
    end.

(** ** CRC-32 *)
Definition crc_bit (value : Z) : Z :=
  if negb (Z.land value 1 =? 0) then Z.lxor (Z.shiftr value 1) 0xedb88320 else Z.shiftr value 1.
Definition Crc32TableEntry (index : Z) : Z := Nat.iter 8 crc_bit index.
Definition Crc32Table : list Z := Crc32TableEntry <$> (Z.of_nat <$> seq 0 256).

Definition UpdateCrc32 (crc : Z) (data : bytes) : Z :=
  fold_left (fun value c => Z.lxor (byte_at Crc32Table (Z.land (Z.lxor value c) 0xff)) (Z.shiftr value 8)) data crc.

(** [difference = difference | (left[i] ^ right[i])] *)
Definition DigestEqual (left right : bytes) : bool :=
  fold_left (fun d i => u8 (Z.lor d (Z.lxor (byte_at left (Z.of_nat i)) (byte_at right (Z.of_nat i))))) (seq 0 32) 0 =? 0.

Definition ZipStatusString (status : ZipStatus) : bytes :=
  match status with
  | Ok => str "ok"
  | InvalidArgument => str "invalid argument"
  | NotOpen => str "reader is not open"
  | SourceIo => str "ZIP source I/O failed"
  | ArchiveSizeInvalid => str "archive size is invalid"
  | EndRecordInvalid => str "ZIP32 end record is invalid"
  | ArchiveCommentForbidden => str "archive comments are forbidden"
  | MultiDiskForbidden => str "multi-disk ZIP is forbidden"
  | Zip64Forbidden => str "Zip64 is forbidden"
  | EntryCountInvalid => str "entry count is invalid"
  | StorageTooSmall => str "entry storage is too small"
  | CentralDirectoryInvalid => str "central directory is invalid"
  | UnsupportedVersion => str "ZIP version is unsupported"
  | UnsupportedFlags => str "ZIP flags are unsupported"
  | UnsupportedCompression => str "compression method is unsupported"
  | ExtraFieldForbidden => str "ZIP extra fields are forbidden"
  | MemberCommentForbidden => str "member comments are forbidden"
  | SpecialFileForbidden => str "special files are forbidden"
  | DirectoryMetadataInvalid => str "directory metadata is invalid"
  | PathInvalid => str "ZIP path is unsafe"
  | PathTooLong => str "ZIP path is too long"
  | PathEncodingInvalid => str "ZIP path encoding is invalid"
  | NonAsciiPathUnsupported => str "non-ASCII ZIP paths are unsupported"
  | DuplicatePath => str "duplicate ZIP path"
  | FatCaseCollision => str "FAT case-fold path collision"
  | FileUsedAsDirectory => str "file is used as a directory"
  | MemberSizeInvalid => str "member size is invalid"
  | CompressionRatioInvalid => str "compression ratio exceeds limit"
  | OffsetInvalid => str "ZIP offsets are invalid"
  | LocalHeaderMismatch => str "local and central headers differ"
  | InstalledSizeInvalid => str "installed size exceeds limit"
  | ExpectedInventoryInvalid => str "expected inventory is invalid"
  | InventoryMismatch => str "manifest inventory differs from ZIP"
  | EntryNotFound => str "ZIP entry was not found"
  | HashSinkRequired => str "SHA-256 sink is required"
  | HashSinkError => str "SHA-256 sink failed"
  | HashMismatch => str "SHA-256 mismatch"
  | SinkError => str "extraction sink failed"
  | WorkspaceRequired => str "ZIP workspace is required"
  | CrcMismatch => str "CRC-32 mismatch"
  | UncompressedSizeMismatch => str "uncompressed size mismatch"
  | DeflateInvalid => str "raw Deflate stream is invalid"
  | Cancelled => str "extraction cancelled"
  end.
