(* ===== verification/ZipReader.v ===== *)
(** * The ZIP reader (src/src/update/zip_reader.cpp)

    [Open] validates the structure of an archive, [StreamFile] inflates one member
    into a hash sink and an extraction sink.  The source and the sinks are
    interfaces over a world [W] that every operation threads; inflate is miniz,
    third-party code: [tinfl_init] and [tinfl_decompress] are parameters.  A
    result is a value, an early return with a status, or [Ub] for an exhausted
    fuel. *)
From S2P Require Import Prelude FatPathPolicy JsonFields Sha256 ZipFormat.
From Stdlib Require Import Ascii.
Local Open Scope Z_scope.

(** ** Interfaces *)
Class SeekableZipSource (W : Type) := {
  SourceSize : W -> option Z * W;
  SourceReadAt : Z -> Z -> W -> option bytes * W;
}.

Class ZipHashSink (W : Type) := {
  BeginFile : bytes -> Z -> W -> bool * W;
  UpdateFile : bytes -> W -> bool * W;
  FinishFile : W -> option bytes * W;
  AbortFile : W -> W;
}.

Class ZipExtractSink (W : Type) := {
  BeginEntry : ZipEntry -> W -> bool * W;
  WriteEntry : bytes -> W -> bool * W;
  CommitEntry : ZipEntry -> W -> bool * W;
  AbortEntry : ZipEntry -> W -> W;
}.

(** ** The monad: a failure is a status, with the name noted for diagnostics *)
Record ZipFailure := mkFailure { failure_status : ZipStatus; noted : option bytes }.

(** A step of a program over a world: a value, a status, or [Ub]. *)
Definition prog (S W A : Type) : Type := W -> parsed S A * W.
Definition zret {S W A} (a : A) : prog S W A := fun w => (Val a, w).
Definition zbind {S W A B} (m : prog S W A) (k : A -> prog S W B) : prog S W B :=
  fun w => match m w with
           | (Val a, w) => k a w
           | (Stop s, w) => (Stop s, w)
           | (Ub, w) => (Ub, w)
           end.
Definition zub {S W A} : prog S W A := fun w => (Ub, w).

Definition zip (W A : Type) : Type := prog ZipFailure W A.
Definition zstop {W A} (s : ZipStatus) : zip W A := fun w => (Stop (mkFailure s None), w).
Definition znote {W A} (s : ZipStatus) (name : bytes) : zip W A :=
  fun w => (Stop (mkFailure s (Some (NoteFailurePath name))), w).
Definition zneed {W} (b : bool) (s : ZipStatus) : zip W unit := if b then zret tt else zstop s.
Definition zsome {W A} (o : option A) (s : ZipStatus) : zip W A :=
  match o with Some a => zret a | None => zstop s end.
(** A call that answers with an optional value, or with a flag. *)
Definition zcall {W A} (call : W -> option A * W) (s : ZipStatus) : zip W A :=
  fun w => match call w with (Some a, w) => (Val a, w) | (None, w) => (Stop (mkFailure s None), w) end.
Definition ztest {W} (call : W -> bool * W) (s : ZipStatus) : zip W unit :=
  fun w => let '(ok, w) := call w in (if ok then Val tt else Stop (mkFailure s None), w).

Declare Scope zip_scope.
Delimit Scope zip_scope with zip.
Notation "'read!' x ':=' m 'in' k" := (zbind m (fun x => k))
  (at level 200, x pattern, m at level 100, k at level 200, right associativity) : zip_scope.
Notation "m ;? k" := (zbind m (fun _ => k)) (at level 100, k at level 200, right associativity) : zip_scope.
Local Open Scope zip_scope.

(** ** The reader *)
Record ZipReader := mkReader {
  open_ : bool;
  inventory_ : ZipInventory;
  limits_ : ZipLimits;
  workspace_ : bool;
  lenient_extra_fields_ : bool;
  lenient_paths_ : bool;
  lenient_archive_ : bool;
  lenient_ratio_ : bool;
  first_failure_path_ : bytes;
  validated_inventory_binding_ : bytes;
  validated_contents_ : bool;
}.

Definition empty_inventory : ZipInventory := mkInventory [] 0 0 0 0 0 0.
Definition new_reader : ZipReader :=
  mkReader false empty_inventory default_limits false false false false false [] (replicate 32 0) false.

Definition with_workspace (b : bool) (r : ZipReader) : ZipReader :=
  mkReader (open_ r) (inventory_ r) (limits_ r) b (lenient_extra_fields_ r) (lenient_paths_ r) (lenient_archive_ r)
    (lenient_ratio_ r) (first_failure_path_ r) (validated_inventory_binding_ r) (validated_contents_ r).
Definition with_lenient (extra paths archive ratio : bool) (r : ZipReader) : ZipReader :=
  mkReader (open_ r) (inventory_ r) (limits_ r) (workspace_ r) extra paths archive ratio
    (first_failure_path_ r) (validated_inventory_binding_ r) (validated_contents_ r).
Definition with_open (b : bool) (i : ZipInventory) (l : ZipLimits) (r : ZipReader) : ZipReader :=
  mkReader b i l (workspace_ r) (lenient_extra_fields_ r) (lenient_paths_ r) (lenient_archive_ r)
    (lenient_ratio_ r) (first_failure_path_ r) (validated_inventory_binding_ r) (validated_contents_ r).
Definition with_failure_path (p : bytes) (r : ZipReader) : ZipReader :=
  mkReader (open_ r) (inventory_ r) (limits_ r) (workspace_ r) (lenient_extra_fields_ r) (lenient_paths_ r)
    (lenient_archive_ r) (lenient_ratio_ r) p (validated_inventory_binding_ r) (validated_contents_ r).
Definition with_validated (binding : bytes) (b : bool) (r : ZipReader) : ZipReader :=
  mkReader (open_ r) (inventory_ r) (limits_ r) (workspace_ r) (lenient_extra_fields_ r) (lenient_paths_ r)
    (lenient_archive_ r) (lenient_ratio_ r) (first_failure_path_ r) binding b.

Definition SetWorkspace (workspace : bool) (r : ZipReader) : ZipReader := with_workspace workspace r.
Definition SetLenientExtraFields (b : bool) (r : ZipReader) : ZipReader :=
  with_lenient b (lenient_paths_ r) (lenient_archive_ r) (lenient_ratio_ r) r.
Definition SetLenientPaths (b : bool) (r : ZipReader) : ZipReader :=
  with_lenient (lenient_extra_fields_ r) b (lenient_archive_ r) (lenient_ratio_ r) r.
Definition SetLenientArchive (b : bool) (r : ZipReader) : ZipReader :=
  with_lenient (lenient_extra_fields_ r) (lenient_paths_ r) b (lenient_ratio_ r) r.
Definition SetLenientRatio (b : bool) (r : ZipReader) : ZipReader :=
  with_lenient (lenient_extra_fields_ r) (lenient_paths_ r) (lenient_archive_ r) b r.
Definition FirstFailurePath (r : ZipReader) : bytes := first_failure_path_ r.
Definition ClearValidatedContents (r : ZipReader) : ZipReader := with_validated (replicate 32 0) false r.

(** ** Searching a signature *)
(** The index of the first, and of the last, occurrence in a buffer. *)
Fixpoint has_signature (signature buffer : bytes) : bool :=
  match buffer with
  | [] => false
  | _ :: rest => starts_with signature buffer || has_signature signature rest
  end.
Fixpoint last_signature (signature buffer : bytes) (index : Z) (found : option Z) : option Z :=
  match buffer with
  | [] => found
  | _ :: rest => last_signature signature rest (index + 1) (if starts_with signature buffer then Some index else found)
  end.

(** The last three bytes, kept for the next turn. *)
Definition kept (buffer : bytes) : bytes := drop (length buffer - 3) buffer.

Section reader.
Context {W : Type} `{SeekableZipSource W}.

Definition read_at (offset amount : Z) : zip W bytes := zcall (SourceReadAt offset amount) SourceIo.

Fixpoint contains_loop (fuel : nat) (signature : bytes) (offset finish : Z) (prefix : bytes) : zip W bool :=
  if offset <? finish then
    match fuel with
    | O => zub
    | S fuel' =>
        let remaining := finish - offset in
        let amount := if remaining <? 4096 then remaining else 4096 in
        read! data := read_at offset amount in
        let buffer := prefix ++ data in
        if has_signature signature buffer then zret true
        else contains_loop fuel' signature (offset + amount) finish (kept buffer)
    end
  else zret false.

Definition ContainsSignature (first finish : Z) (signature : bytes) : zip W bool :=
  zneed (first <=? finish) SourceIo ;?
  contains_loop (Z.to_nat ((finish - first) / 4096 + 1)) signature first finish [].

Fixpoint find_last_loop (fuel : nat) (signature : bytes) (offset finish : Z) (prefix : bytes) (found : option Z)
    : zip W (option Z) :=
  if offset <? finish then
    match fuel with
    | O => zub
    | S fuel' =>
        let remaining := finish - offset in
        let amount := if remaining <? 4096 then remaining else 4096 in
        read! data := read_at offset amount in
        let buffer := prefix ++ data in
        let found := last_signature signature buffer (offset - len prefix) found in
        find_last_loop fuel' signature (offset + amount) finish (kept buffer) found
    end
  else zret found.

Definition FindLastSignature (first finish : Z) (signature : bytes) : zip W (option Z) :=
  zneed (first <=? finish) SourceIo ;?
  find_last_loop (Z.to_nat ((finish - first) / 4096 + 1)) signature first finish [] None.

(** ** Open *)
(** [open_progress]: a null callback is [None]. *)
Definition progress_call : Type := option (Z -> Z -> W -> bool * W).
Definition report (progress : progress_call) (produced total : Z) : zip W unit :=
  match progress with None => zret tt | Some call => ztest (call produced total) Cancelled end.
(** Every 256th entry is reported. *)
Definition report_entry (progress : progress_call) (index produced total : Z) : zip W unit :=
  if Z.land index 255 =? 0 then report progress produced total else zret tt.

Definition limits_valid (limits : ZipLimits) : bool :=
  negb ((maximum_entries limits =? 0) || (kZipMaximumEntries <? maximum_entries limits) ||
        (maximum_path_bytes limits =? 0) || (kZipMaximumPathBytes <? maximum_path_bytes limits) ||
        (maximum_archive_bytes limits <? kEndRecordSize) || (maximum_file_bytes limits =? 0) ||
        (maximum_installed_bytes limits =? 0) || (maximum_compression_ratio limits =? 0)).

(** The fields of the end record that the rest of [Open] uses. *)
Record EndRecord := mkEnd { end_offset : Z; entry_count : Z; central_size : Z; central_offset : Z }.

Definition end_signature : bytes := [0x50; 0x4b; 5; 6].
Definition zip64_end_signature : bytes := [0x50; 0x4b; 6; 6].
Definition zip64_locator_signature : bytes := [0x50; 0x4b; 6; 7].

Definition tail_begin (archive_size : Z) : Z :=
  archive_size - (if archive_size <? 65557 then archive_size else 65557).

Definition read_end_record (r : ZipReader) (limits : ZipLimits) (entry_capacity archive_size : Z) : zip W EndRecord :=
  read! found := FindLastSignature (tail_begin archive_size) archive_size end_signature in
  read! end_offset := zsome found EndRecordInvalid in
  zneed (RangeWithin end_offset kEndRecordSize archive_size) EndRecordInvalid ;?
  read! record := read_at end_offset kEndRecordSize in
  zneed (ReadU32 record 0 =? kEndSignature) EndRecordInvalid ;?
  let disk_number := ReadU16 record 4 in
  let central_disk := ReadU16 record 6 in
  let entries_on_disk := ReadU16 record 8 in
  let entry_count := ReadU16 record 10 in
  let central_size := ReadU32 record 12 in
  let central_offset := ReadU32 record 16 in
  let comment_length := ReadU16 record 20 in
  read! e := zsome (CheckedAdd end_offset kEndRecordSize) EndRecordInvalid in
  read! e := zsome (CheckedAdd e comment_length) EndRecordInvalid in
  zneed (e =? archive_size) EndRecordInvalid ;?
  zneed (negb (negb (comment_length =? 0) && negb (lenient_archive_ r))) ArchiveCommentForbidden ;?
  zneed ((disk_number =? 0) && (central_disk =? 0) && (entries_on_disk =? entry_count)) MultiDiskForbidden ;?
  zneed (negb ((entry_count =? 0) || (entry_count =? 65535) || (maximum_entries limits <? entry_count)))
    EntryCountInvalid ;?
  zneed (negb ((central_size =? UINT32_MAX) || (central_offset =? UINT32_MAX))) Zip64Forbidden ;?
  zneed (entry_count <=? entry_capacity) StorageTooSmall ;?
  read! central_end := zsome (CheckedAdd central_offset central_size) CentralDirectoryInvalid in
  zneed (central_end =? end_offset) CentralDirectoryInvalid ;?
  read! found := ContainsSignature (tail_begin archive_size) end_offset zip64_end_signature in
  zneed (negb found) Zip64Forbidden ;?
  read! found := ContainsSignature (tail_begin archive_size) end_offset zip64_locator_signature in
  zneed (negb found) Zip64Forbidden ;?
  zret (mkEnd end_offset entry_count central_size central_offset).

(** The name of a central header, the way it is validated: its text and whether it
    ends a directory. *)
Definition checked_name (r : ZipReader) (raw_name : bytes) : zip W (bytes * bool) :=
  if lenient_paths_ r && (len raw_name <=? kZipMaximumPathBytes) then
    match NormalizeLenientPath (kZipMaximumPathBytes + 1) raw_name with
    | Some (name, is_dir) => zret (cstr name, is_dir)
    | None => znote PathInvalid (take 240 raw_name)
    end
  else zret (raw_name, last_byte raw_name =? SLASH).

(** The entry is not among the earlier ones. *)
Fixpoint check_new_path (p : bytes) (earlier : list ZipEntry) : zip W unit :=
  match earlier with
  | [] => zret tt
  | e :: earlier' =>
      if bytes_eqb p (path e) then znote DuplicatePath p
      else if FatEqual p (path e) then znote FatCaseCollision p
      else check_new_path p earlier'
  end.

Definition ratio_exceeded (limits : ZipLimits) (compressed_size size : Z) : bool :=
  let denominator := if compressed_size =? 0 then 1 else compressed_size in
  (maximum_compression_ratio limits <? size / denominator) ||
  ((size / denominator =? maximum_compression_ratio limits) && negb (size mod denominator =? 0)).

Definition check_member (r : ZipReader) (limits : ZipLimits) (e : ZipEntry) : zip W unit :=
  if is_directory e then
    zneed (bool_decide (compression e = Store) && (compressed_size e =? 0) && (size e =? 0) && (crc32 e =? 0))
      DirectoryMetadataInvalid
  else
    zneed (negb ((maximum_file_bytes limits <? size e) || (negb (size e =? 0) && (compressed_size e =? 0))))
      MemberSizeInvalid ;?
    zneed (negb (negb (lenient_ratio_ r) && ratio_exceeded limits (compressed_size e) (size e))) CompressionRatioInvalid.

Definition method_of (method : Z) : option ZipCompression :=
  if method =? 0 then Some Store else if method =? 8 then Some Deflate else None.

(** One central header: the entry and the offset of the next header. *)
Definition central_entry (r : ZipReader) (limits : ZipLimits) (cursor central_end : Z) (earlier : list ZipEntry)
    : zip W (ZipEntry * Z) :=
  zneed (RangeWithin cursor kCentralHeaderSize central_end) CentralDirectoryInvalid ;?
  read! header := read_at cursor kCentralHeaderSize in
  zneed (ReadU32 header 0 =? kCentralSignature) CentralDirectoryInvalid ;?
  let version_made := ReadU16 header 4 in
  let flags := ReadU16 header 8 in
  let compressed_size := ReadU32 header 20 in
  let size := ReadU32 header 24 in
  let name_length := ReadU16 header 28 in
  let extra_length := ReadU16 header 30 in
  let member_comment_length := ReadU16 header 32 in
  let external_attributes := ReadU32 header 38 in
  let local_offset := ReadU32 header 42 in
  let creator := u8 (Z.shiftr version_made 8) in
  zneed (ReadU16 header 6 <=? 20) UnsupportedVersion ;?
  let allowed := if lenient_paths_ r then Z.lor kUtf8Flag kLenientFlagMask else kUtf8Flag in
  zneed (Z.land flags (u16 (Z.lnot allowed)) =? 0) UnsupportedFlags ;?
  read! method := zsome (method_of (ReadU16 header 10)) UnsupportedCompression in
  zneed (ReadU16 header 34 =? 0) MultiDiskForbidden ;?
  zneed (negb ((compressed_size =? UINT32_MAX) || (size =? UINT32_MAX) || (local_offset =? UINT32_MAX))) Zip64Forbidden ;?
  zneed (negb (negb (extra_length =? 0) && negb (lenient_extra_fields_ r))) ExtraFieldForbidden ;?
  zneed (member_comment_length =? 0) MemberCommentForbidden ;?
  zneed (negb (name_length =? 0)) PathInvalid ;?
  read! record_size := zsome (CheckedAdd kCentralHeaderSize name_length) CentralDirectoryInvalid in
  read! record_size := zsome (CheckedAdd record_size extra_length) CentralDirectoryInvalid in
  read! record_size := zsome (CheckedAdd record_size member_comment_length) CentralDirectoryInvalid in
  zneed (RangeWithin cursor record_size central_end) CentralDirectoryInvalid ;?
  zneed (negb ((maximum_path_bytes limits + 1 <? name_length) || (kZipMaximumPathBytes + 1 <? name_length))) PathTooLong ;?
  read! raw_name := read_at (cursor + kCentralHeaderSize) name_length in
  match IsDirectoryMetadata creator external_attributes (last_byte raw_name =? SLASH) with
  | Some status => zstop status
  | None =>
      read! name := checked_name r raw_name in
      match ValidateAndCopyPath name.1 flags name.2 (maximum_path_bytes limits) with
      | inl status => znote status (take 240 raw_name)
      | inr p =>
          check_new_path p earlier ;?
          let e := mkEntry p name.2 method flags (ReadU32 header 16) compressed_size size local_offset 0
                     external_attributes creator in
          check_member r limits e ;?
          zret (e, u64 (cursor + record_size))
      end
  end.

Fixpoint central_loop (r : ZipReader) (limits : ZipLimits) (progress : progress_call) (count : nat)
    (entry_count index cursor central_end : Z) (earlier : list ZipEntry) : zip W (list ZipEntry * Z) :=
  match count with
  | O => zret (earlier, cursor)
  | S count' =>
      read! x := central_entry r limits cursor central_end earlier in
      report_entry progress index index entry_count ;?
      central_loop r limits progress count' entry_count (index + 1) x.2 central_end (earlier ++ [x.1])
  end.

(** Some file is a proper prefix directory of another entry. *)
Definition file_used_as_directory (l : list ZipEntry) : bool :=
  existsb (fun i =>
    match l !! i with
    | Some e => negb (is_directory e) &&
        existsb (fun j => match l !! j with
                          | Some c => negb (i =? j)%nat && FatPrefixDirectory (path e) (path c)
                          | None => false
                          end) (seq 0 (length l))
    | None => false
    end) (seq 0 (length l)).

(** The name of a local header, the way it is compared. *)
Definition compared_name (r : ZipReader) (local_name : bytes) : zip W bytes :=
  if lenient_paths_ r && (len local_name <=? kZipMaximumPathBytes) then
    match NormalizeLenientPath (kZipMaximumPathBytes + 1) local_name with
    | Some (name, _) => zret (cstr name)
    | None => zstop LocalHeaderMismatch
    end
  else zret local_name.

(** The data descriptor behind a member's data, if there is one: its end. *)
Definition skip_descriptor (e : ZipEntry) (offset central_offset : Z) : zip W Z :=
  zneed (RangeWithin offset 4 central_offset) SourceIo ;?
  read! sig := read_at offset 4 in
  if ReadU32 sig 0 =? kLocalSignature then zret offset
  else
    read! x :=
      (if RangeWithin offset 16 central_offset then
         read! dd := read_at offset 16 in
         zret (if ReadU32 dd 0 =? kDescriptorSignature then (16, drop 4 dd) else (12, dd))
       else
         zneed (RangeWithin offset 12 central_offset) OffsetInvalid ;?
         read! dd := zcall (SourceReadAt offset 12) OffsetInvalid in
         zret (12, dd)) in
    zneed ((ReadU32 x.2 0 =? crc32 e) && (ReadU32 x.2 4 =? u32 (compressed_size e)) && (ReadU32 x.2 8 =? u32 (size e)))
      OffsetInvalid ;?
    zsome (CheckedAdd offset x.1) OffsetInvalid.

Definition set_data_offset (offset : Z) (e : ZipEntry) : ZipEntry :=
  mkEntry (path e) (is_directory e) (compression e) (flags e) (crc32 e) (compressed_size e) (size e)
    (local_header_offset e) offset (external_attributes e) (creator_system e).

(** One local header: the entry with its data offset, and the offset behind it. *)
Definition local_entry (r : ZipReader) (expected_local_offset central_offset : Z) (e : ZipEntry)
    : zip W (ZipEntry * Z) :=
  zneed ((local_header_offset e =? expected_local_offset) &&
         RangeWithin (local_header_offset e) kLocalHeaderSize central_offset) OffsetInvalid ;?
  read! header := read_at (local_header_offset e) kLocalHeaderSize in
  zneed (ReadU32 header 0 =? kLocalSignature) LocalHeaderMismatch ;?
  let local_flags := ReadU16 header 6 in
  let local_name_length := ReadU16 header 26 in
  let local_extra_length := ReadU16 header 28 in
  zneed (ReadU16 header 4 <=? 20) UnsupportedVersion ;?
  let sizes_postponed := lenient_paths_ r && negb (Z.land local_flags (Z.shiftl 1 3) =? 0) in
  zneed ((local_flags =? flags e) && (ReadU16 header 8 =? compression_method (compression e)) &&
         (sizes_postponed || ((ReadU32 header 14 =? crc32 e) && (ReadU32 header 18 =? compressed_size e) &&
                              (ReadU32 header 22 =? size e)))) LocalHeaderMismatch ;?
  zneed (negb (negb (local_extra_length =? 0) && negb (lenient_extra_fields_ r))) ExtraFieldForbidden ;?
  zneed (local_name_length <=? kZipMaximumPathBytes + 1) LocalHeaderMismatch ;?
  read! local_name := read_at (local_header_offset e + kLocalHeaderSize) local_name_length in
  read! name := compared_name r local_name in
  zneed (len name =? len (path e) + (if is_directory e then 1 else 0)) LocalHeaderMismatch ;?
  read! offset := zsome (CheckedAdd (local_header_offset e) kLocalHeaderSize) OffsetInvalid in
  read! offset := zsome (CheckedAdd offset local_name_length) OffsetInvalid in
  read! offset := zsome (CheckedAdd offset local_extra_length) OffsetInvalid in
  zneed (RangeWithin offset (compressed_size e) central_offset) OffsetInvalid ;?
  zneed (negb (negb (bytes_eqb (take (length (path e)) name) (path e)) ||
               (is_directory e && ((len name =? 0) || negb (last_byte name =? SLASH))))) LocalHeaderMismatch ;?
  read! finish := zsome (CheckedAdd offset (compressed_size e)) OffsetInvalid in
  read! finish :=
    (if negb (is_directory e) && lenient_paths_ r && negb (Z.land (flags e) (Z.shiftl 1 3) =? 0)
     then skip_descriptor e finish central_offset else zret finish) in
  zret (set_data_offset offset e, finish).

Fixpoint local_loop (r : ZipReader) (limits : ZipLimits) (progress : progress_call) (entry_count index
    expected_local_offset central_offset installed_size : Z) (l : list ZipEntry) : zip W (list ZipEntry * Z * Z) :=
  match l with
  | [] => zret ([], expected_local_offset, installed_size)
  | e :: l' =>
      report_entry progress index (entry_count + index) (entry_count * 2) ;?
      read! x := local_entry r expected_local_offset central_offset e in
      read! installed_size :=
        (if is_directory e then zret installed_size
         else
           read! total := zsome (CheckedAdd installed_size (size e)) InstalledSizeInvalid in
           zneed (total <=? maximum_installed_bytes limits) InstalledSizeInvalid ;?
           zret total) in
      read! y := local_loop r limits progress entry_count (index + 1) x.2 central_offset installed_size l' in
      zret (x.1 :: y.1.1, y.1.2, y.2)
  end.

Definition open_archive (r : ZipReader) (entry_capacity : Z) (limits : ZipLimits) (progress : progress_call)
    : zip W ZipInventory :=
  zneed (limits_valid limits) InvalidArgument ;?
  read! archive_size := zcall SourceSize SourceIo in
  zneed (negb ((archive_size <? kEndRecordSize) || (maximum_archive_bytes limits <? archive_size))) ArchiveSizeInvalid ;?
  read! rec := read_end_record r limits entry_capacity archive_size in
  let central_end := central_offset rec + central_size rec in
  read! x := central_loop r limits progress (Z.to_nat (entry_count rec)) (entry_count rec) 0 (central_offset rec)
               central_end [] in
  zneed (x.2 =? central_end) CentralDirectoryInvalid ;?
  zneed (negb (file_used_as_directory x.1)) FileUsedAsDirectory ;?
  read! y := local_loop r limits progress (entry_count rec) 0 0 (central_offset rec) 0 x.1 in
  zneed (y.1.2 =? central_offset rec) OffsetInvalid ;?
  let files := len (filter (fun e => is_directory e = false) x.1) in
  zret (mkInventory y.1.1 files (entry_count rec - files) archive_size y.2 (central_offset rec) (central_size rec)).

(** The status, the reader afterwards and the world. *)
Definition Open (entry_capacity : Z) (limits : ZipLimits) (progress : progress_call) (r : ZipReader) (w : W)
    : option (ZipStatus * ZipReader * W) :=
  let r := with_open false empty_inventory (limits_ r) (ClearValidatedContents r) in
  match open_archive r entry_capacity limits progress w with
  | (Val inventory, w) => Some (Ok, with_open true inventory limits r, w)
  | (Stop f, w) =>
      Some (failure_status f, match noted f with Some p => with_failure_path p r | None => r end, w)
  | (Ub, w) => None
  end.

(** ** The expected inventory *)
Definition FindExpectedFile (expected : ZipExpectedInventory) (p : bytes) : option ZipExpectedFile :=
  find (fun f => bool_decide (expected_path f = Some p)) (expected_files expected).

(** [hash.Update] of the little-endian value; of a size and the bytes. *)
Definition HashU64 (hash : Sha256) (value : Z) : bool * Sha256 :=
  Update hash ((fun i => u8 (Z.shiftr value (8 * Z.of_nat i))) <$> seq 0 8).
Definition HashSizedBytes (hash : Sha256) (data : bytes) : bool * Sha256 :=
  match HashU64 hash (len data) with (true, hash) => Update hash data | (false, hash) => (false, hash) end.
Definition hash_step (x : option Sha256) (call : Sha256 -> bool * Sha256) : option Sha256 :=
  match x with
  | Some hash => match call hash with (true, hash) => Some hash | (false, _) => None end
  | None => None
  end.

Definition binding_entry (expected : ZipExpectedInventory) (hash : option Sha256) (e : ZipEntry) : option Sha256 :=
  let hash := hash_step hash (fun h => Update h [if is_directory e then 0x44 else 0x46]) in
  let hash := hash_step hash (fun h => HashSizedBytes h (path e)) in
  if is_directory e then hash
  else
    match FindExpectedFile expected (path e) with
    | None => None
    | Some wanted =>
        let hash := hash_step hash (fun h => HashU64 h (expected_size wanted)) in
        let hash := hash_step hash (fun h => Update h [compression_method (expected_compression wanted)]) in
        match expected_sha256 wanted with
        | None => hash_step hash (fun h => Update h [0])
        | Some d => hash_step (hash_step hash (fun h => Update h [1])) (fun h => Update h d)
        end
    end.

Definition binding_domain : bytes := str "bmx-zip-validated-inventory-v1".

Definition ComputeExpectedInventoryBinding (r : ZipReader) (expected : ZipExpectedInventory) : option bytes :=
  if negb (open_ r) then None
  else
    let hash := hash_step (Some Reset) (fun h => HashSizedBytes h binding_domain) in
    let hash := hash_step hash (fun h => HashU64 h (len (expected_files expected))) in
    let hash := hash_step hash (fun h => HashU64 h (len (expected_directories expected))) in
    match fold_left (binding_entry expected) (entries (inventory_ r)) hash with
    | Some h => (Final h).1
    | None => None
    end.

Definition ValidatedContentsMatch (r : ZipReader) (expected : ZipExpectedInventory) : bool :=
  if negb (validated_contents_ r) then false
  else match ComputeExpectedInventoryBinding r expected with
       | Some current => ConstantTimeDigestEqual current (validated_inventory_binding_ r)
       | None => false
       end.

Definition FindFileEntry (r : ZipReader) (p : bytes) : option ZipEntry :=
  find (fun e => negb (is_directory e) && bytes_eqb (path e) p) (entries (inventory_ r)).

(** The loop over the expected files; [requires_hash] accumulates. *)
Fixpoint verify_files (r : ZipReader) (progress : progress_call) (total index : Z) (earlier rest : list ZipExpectedFile)
    (requires_hash : bool) : zip W bool :=
  match rest with
  | [] => zret requires_hash
  | wanted :: rest' =>
      match expected_path wanted with
      | None | Some [] => zstop ExpectedInventoryInvalid
      | Some p =>
          zneed (negb (existsb (fun f => bool_decide (expected_path f = Some p)) earlier)) ExpectedInventoryInvalid ;?
          read! actual := zsome (FindFileEntry r p) InventoryMismatch in
          zneed ((size actual =? expected_size wanted) && bool_decide (compression actual = expected_compression wanted))
            InventoryMismatch ;?
          let requires_hash := requires_hash || bool_decide (is_Some (expected_sha256 wanted)) in
          report progress (index + 1) total ;?
          verify_files r progress total (index + 1) (earlier ++ [wanted]) rest' requires_hash
      end
  end.

Fixpoint verify_directories (r : ZipReader) (earlier rest : list (option bytes)) : zip W unit :=
  match rest with
  | [] => zret tt
  | wanted :: rest' =>
      match wanted with
      | None | Some [] => zstop ExpectedInventoryInvalid
      | Some p =>
          zneed (negb (bool_decide (wanted ∈ earlier))) ExpectedInventoryInvalid ;?
          zneed (existsb (fun e => is_directory e && bytes_eqb (path e) p) (entries (inventory_ r))) InventoryMismatch ;?
          verify_directories r (earlier ++ [wanted]) rest'
      end
  end.

(** Whether a hash sink is required. *)
Definition VerifyExpectedInventory (r : ZipReader) (expected : ZipExpectedInventory) (progress : progress_call)
    : zip W bool :=
  zneed (open_ r) NotOpen ;?
  zneed ((len (expected_files expected) =? file_count (inventory_ r)) &&
         (len (expected_directories expected) =? directory_count (inventory_ r))) InventoryMismatch ;?
  read! requires_hash := verify_files r progress (len (expected_files expected)) 0 [] (expected_files expected) false in
  verify_directories r [] (expected_directories expected) ;?
  zret requires_hash.
End reader.

(** ** Streaming one member *)
Section stream.
Context {W : Type} `{SeekableZipSource W} `{ZipHashSink W} `{ZipExtractSink W}.

(** [tinfl_decompress(state, input, dictionary, offset in it, room for output, more
    input follows)]: status, state, bytes consumed, bytes produced, dictionary. *)
Record tinfl_result (T : Type) := mkTinfl {
  tinfl_status : Z;
  tinfl_state : T;
  consumed : Z;
  output_size : Z;
  tinfl_dictionary : bytes;
}.
Arguments mkTinfl {T}.
Arguments tinfl_status {T}.
Arguments tinfl_state {T}.
Arguments consumed {T}.
Arguments output_size {T}.
Arguments tinfl_dictionary {T}.

Context {T : Type} (tinfl_init : T).
Context (tinfl_decompress : T -> bytes -> bytes -> Z -> Z -> bool -> tinfl_result T).

Definition TINFL_STATUS_DONE : Z := 0.
Definition TINFL_STATUS_NEEDS_MORE_INPUT : Z := 1.

(** The bytes that a turn hands to the sinks. *)
Definition emit (hash_started extraction_started : bool) (data : bytes) : zip W unit :=
  (if hash_started then ztest (UpdateFile data) HashSinkError else zret tt) ;?
  (if extraction_started then ztest (WriteEntry data) SinkError else zret tt).

Definition room_for (total produced amount : Z) : zip W unit :=
  zneed (negb ((total <? produced) || (total - produced <? amount))) UncompressedSizeMismatch.

Section member.
Variables (hash_started extraction_started : bool) (progress : @progress_call W) (total : Z).

(** The bytes produced, and their checksum. *)
Fixpoint store_loop (fuel : nat) (offset remaining produced crc : Z) : zip W (Z * Z) :=
  if remaining =? 0 then zret (produced, crc)
  else
    match fuel with
    | O => zub
    | S fuel' =>
        let amount := if remaining <? kZipInputBufferBytes then remaining else kZipInputBufferBytes in
        read! data := read_at offset amount in
        room_for total produced amount ;?
        let crc := UpdateCrc32 crc data in
        emit hash_started extraction_started data ;?
        let produced := produced + amount in
        report progress produced total ;?
        store_loop fuel' (offset + amount) (remaining - amount) produced crc
    end.

Record InflateState := mkInflate {
  decompressor : T;
  dictionary : bytes;
  dictionary_offset : Z;
  remaining : Z;
  source_offset : Z;
  (** [input + input_offset .. input + input_size] *)
  unread : bytes;
  produced : Z;
  crc : Z;
}.

Definition refill (s : InflateState) : zip W InflateState :=
  if (len (unread s) =? 0) && negb (remaining s =? 0) then
    let input_size := if remaining s <? kZipInputBufferBytes then remaining s else kZipInputBufferBytes in
    read! data := read_at (source_offset s) input_size in
    zret (mkInflate (decompressor s) (dictionary s) (dictionary_offset s) (remaining s - input_size)
            (source_offset s + input_size) data (produced s) (crc s))
  else zret s.

(** What a call of [tinfl_decompress] leaves; the sinks get its output. *)
Definition take_output (s : InflateState) (o : tinfl_result T) : zip W InflateState :=
  let rest := drop (Z.to_nat (consumed o)) (unread s) in
  if output_size o =? 0 then
    zret (mkInflate (tinfl_state o) (tinfl_dictionary o) (dictionary_offset s) (remaining s) (source_offset s) rest
            (produced s) (crc s))
  else
    let output := sub (tinfl_dictionary o) (dictionary_offset s) (output_size o) in
    emit hash_started extraction_started output ;?
    let produced := produced s + output_size o in
    report progress produced total ;?
    zret (mkInflate (tinfl_state o) (tinfl_dictionary o)
            (Z.land (dictionary_offset s + output_size o) (kZipInflateDictionaryBytes - 1))
            (remaining s) (source_offset s) rest produced (UpdateCrc32 (crc s) output)).

Fixpoint inflate_loop (fuel : nat) (s : InflateState) : zip W (Z * Z) :=
  match fuel with
  | O => zub
  | S fuel' =>
      read! s := refill s in
      let o := tinfl_decompress (decompressor s) (unread s) (dictionary s) (dictionary_offset s)
                 (kZipInflateDictionaryBytes - dictionary_offset s) (negb (remaining s =? 0)) in
      room_for total (produced s) (output_size o) ;?
      read! s := take_output s o in
      if tinfl_status o <? TINFL_STATUS_DONE then zstop DeflateInvalid
      else if tinfl_status o =? TINFL_STATUS_DONE then
        if negb (remaining s =? 0) || negb (len (unread s) =? 0) then zstop DeflateInvalid
        else zret (produced s, crc s)
      else if (consumed o =? 0) && (output_size o =? 0) then
        if (len (unread s) =? 0) && negb (remaining s =? 0) then inflate_loop fuel' s else zstop DeflateInvalid
      else if (tinfl_status o =? TINFL_STATUS_NEEDS_MORE_INPUT) && (len (unread s) =? 0) && (remaining s =? 0)
      then zstop DeflateInvalid
      else inflate_loop fuel' s
  end.
End member.

Definition stream_payload (hash_started extraction_started : bool) (progress : @progress_call W) (e : ZipEntry)
    : zip W (Z * Z) :=
  match compression e with
  | Store =>
      store_loop hash_started extraction_started progress (size e)
        (Z.to_nat (compressed_size e / kZipInputBufferBytes + 1)) (data_offset e) (compressed_size e) 0 UINT32_MAX
  | Deflate =>
      inflate_loop hash_started extraction_started progress (size e) (S (Z.to_nat (compressed_size e + size e)))
        (mkInflate tinfl_init (replicate (Z.to_nat kZipInflateDictionaryBytes) 0) 0 (compressed_size e) (data_offset e)
           [] 0 UINT32_MAX)
  end.

(** The checks behind the loop. *)
Definition check_payload (e : ZipEntry) (produced crc : Z) : zip W unit :=
  zneed (produced =? size e) UncompressedSizeMismatch ;?
  zneed (Z.lxor crc UINT32_MAX =? crc32 e) CrcMismatch.

(** [AbortFile] and [AbortEntry] where the sinks have been started. *)
Definition abort_sinks (hash_started extraction_started : bool) (e : ZipEntry) (w : W) : W :=
  let w := if hash_started then AbortFile w else w in
  if extraction_started then AbortEntry e w else w.

(** The end of a member whose payload is right. *)
Definition finish_member (hash_sink extract_sink : bool) (e : ZipEntry) (wanted : ZipExpectedFile) (w : W)
    : ZipStatus * W :=
  let '(result, hash_started, w) :=
    if hash_sink then
      match FinishFile w with
      | (None, w) => (HashSinkError, true, w)
      | (Some digest, w) =>
          match expected_sha256 wanted with
          | Some d => if DigestEqual digest d then (Ok, false, w) else (HashMismatch, false, w)
          | None => (Ok, false, w)
          end
      end
    else (Ok, false, w) in
  let '(result, extraction_started, w) :=
    if bool_decide (result = Ok) && extract_sink then
      let '(ok, w) := CommitEntry e w in if ok then (result, false, w) else (SinkError, true, w)
    else (result, extract_sink, w) in
  (result, abort_sinks hash_started extraction_started e w).

(** The payload between the beginning and the end of the member; [None] is an
    exhausted fuel. *)
Definition stream_started (hash_sink extract_sink : bool) (progress : @progress_call W) (e : ZipEntry)
    (wanted : ZipExpectedFile) (w : W) : option ZipStatus * W :=
  match (read! x := stream_payload hash_sink extract_sink progress e in check_payload e x.1 x.2) w with
  | (Val _, w) => let '(s, w) := finish_member hash_sink extract_sink e wanted w in (Some s, w)
  | (Stop f, w) => (Some (failure_status f), abort_sinks hash_sink extract_sink e w)
  | (Ub, w) => (None, w)
  end.

Definition StreamFile (r : ZipReader) (e : ZipEntry) (wanted : option ZipExpectedFile) (hash_sink extract_sink : bool)
    (progress : @progress_call W) (w : W) : option ZipStatus * W :=
  match wanted with
  | None => (Some InvalidArgument, w)
  | Some wanted =>
      if negb (open_ r) || is_directory e then (Some InvalidArgument, w)
      else if negb (workspace_ r) then (Some WorkspaceRequired, w)
      else
        match SourceSize w with
        | (None, w) => (Some SourceIo, w)
        | (Some current_size, w) =>
            if negb (current_size =? archive_size (inventory_ r)) then (Some OffsetInvalid, w)
            else if negb hash_sink && bool_decide (is_Some (expected_sha256 wanted)) then (Some HashSinkRequired, w)
            else
              let '(ok, w) := if hash_sink then BeginFile (path e) (size e) w else (true, w) in
              if negb ok then (Some HashSinkError, w)
              else
                let '(ok, w) := if extract_sink then BeginEntry e w else (true, w) in
                if negb ok then (Some SinkError, if hash_sink then AbortFile w else w)
                else stream_started hash_sink extract_sink progress e wanted w
        end
  end.

(** ** The operations: the status, the reader and the world; [None] is an exhausted
    fuel *)
Definition outcome : Type := option (ZipStatus * ZipReader * W).

(** The inventory check first; a failure clears what has been validated. *)
Definition verified (r : ZipReader) (expected : ZipExpectedInventory) (progress : @progress_call W) (w : W)
    (k : bool -> W -> outcome) : outcome :=
  match VerifyExpectedInventory r expected progress w with
  | (Val requires_hash, w) => k requires_hash w
  | (Stop f, w) => Some (failure_status f, ClearValidatedContents r, w)
  | (Ub, _) => None
  end.

(** A member; a failure clears what has been validated. *)
Definition streamed (r : ZipReader) (e : ZipEntry) (wanted : option ZipExpectedFile) (hash_sink extract_sink : bool)
    (progress : @progress_call W) (w : W) (k : W -> outcome) : outcome :=
  match StreamFile r e wanted hash_sink extract_sink progress w with
  | (Some Ok, w) => k w
  | (Some status, w) => Some (status, ClearValidatedContents r, w)
  | (None, _) => None
  end.

(** [StreamFile] for every file of a list of entries. *)
Fixpoint stream_files (r : ZipReader) (expected : ZipExpectedInventory) (hash_sink extract_sink : bool)
    (l : list ZipEntry) (w : W) (k : W -> outcome) : outcome :=
  match l with
  | [] => k w
  | e :: l' =>
      if is_directory e then stream_files r expected hash_sink extract_sink l' w k
      else streamed r e (FindExpectedFile expected (path e)) hash_sink extract_sink None w
             (fun w => stream_files r expected hash_sink extract_sink l' w k)
  end.

Definition ValidateContents (expected : ZipExpectedInventory) (hash_sink : bool) (r : ZipReader) (w : W) : outcome :=
  let r := ClearValidatedContents r in
  verified r expected None w (fun requires_hash w =>
    if requires_hash && negb hash_sink then Some (HashSinkRequired, r, w)
    else
      match ComputeExpectedInventoryBinding r expected with
      | None => Some (ExpectedInventoryInvalid, r, w)
      | Some binding_before =>
          stream_files r expected hash_sink false (entries (inventory_ r)) w (fun w =>
            match ComputeExpectedInventoryBinding r expected with
            | Some binding_after =>
                if ConstantTimeDigestEqual binding_before binding_after
                then Some (Ok, with_validated binding_after true r, w)
                else Some (ExpectedInventoryInvalid, r, w)
            | None => Some (ExpectedInventoryInvalid, r, w)
            end)
      end).

Definition BindAuthenticatedInventory (expected : ZipExpectedInventory) (r : ZipReader) (w : W) : outcome :=
  verified r expected None w (fun _ w =>
    match ComputeExpectedInventoryBinding r expected with
    | None => Some (ExpectedInventoryInvalid, ClearValidatedContents r, w)
    | Some binding => Some (Ok, with_validated binding true r, w)
    end).

(** [path == 0] and [sink == 0] are not represented. *)
Definition ExtractOne (p : bytes) (expected : ZipExpectedInventory) (hash_sink : bool) (r : ZipReader) (w : W)
    : outcome :=
  verified r expected None w (fun _ w =>
    let reuse_validated_contents := ValidatedContentsMatch r expected in
    let r := if reuse_validated_contents then r else ClearValidatedContents r in
    match FindFileEntry r p with
    | None => Some (EntryNotFound, ClearValidatedContents r, w)
    | Some entry =>
        match FindExpectedFile expected p with
        | None => Some (InventoryMismatch, ClearValidatedContents r, w)
        | Some wanted =>
            if bool_decide (is_Some (expected_sha256 wanted)) && negb hash_sink
            then Some (HashSinkRequired, ClearValidatedContents r, w)
            else
              let write w :=
                streamed r entry (Some wanted) hash_sink true None w (fun w => Some (Ok, r, w)) in
              if reuse_validated_contents then write w
              else streamed r entry (Some wanted) hash_sink false None w write
        end
    end).

Definition ExtractOneSinglePass (p : bytes) (expected : ZipExpectedInventory)
    (verify_progress stream_progress : @progress_call W) (r : ZipReader) (w : W) : outcome :=
  verified r expected verify_progress w (fun _ w =>
    match FindFileEntry r p with
    | None => Some (EntryNotFound, ClearValidatedContents r, w)
    | Some entry =>
        match FindExpectedFile expected p with
        | None => Some (InventoryMismatch, ClearValidatedContents r, w)
        | Some wanted => streamed r entry (Some wanted) false true stream_progress w (fun w => Some (Ok, r, w))
        end
    end).

(** Every directory is begun and committed. *)
Fixpoint extract_directories (r : ZipReader) (l : list ZipEntry) (w : W) (k : W -> outcome) : outcome :=
  match l with
  | [] => k w
  | e :: l' =>
      if negb (is_directory e) then extract_directories r l' w k
      else
        match BeginEntry e w with
        | (false, w) => Some (SinkError, ClearValidatedContents r, w)
        | (true, w) =>
            match CommitEntry e w with
            | (false, w) => Some (SinkError, ClearValidatedContents r, AbortEntry e w)
            | (true, w) => extract_directories r l' w k
            end
        end
  end.

Definition ExtractAll (expected : ZipExpectedInventory) (hash_sink : bool) (r : ZipReader) (w : W) : outcome :=
  match ValidateContents expected hash_sink r w with
  | Some (Ok, r, w) =>
      extract_directories r (entries (inventory_ r)) w (fun w =>
        stream_files r expected hash_sink true (entries (inventory_ r)) w (fun w => Some (Ok, r, w)))
  | x => x
  end.
End stream.
