(* ===== verification/ZipOpen.v ===== *)
(** * What an accepted archive looks like

    The theorem on [Open] without the leniency of browsing: the archive is, byte
    for byte, the sequence of its local records, its central directory and its end
    record, and the entries are safe to extract on FAT. *)
From S2P Require Import Prelude FatPathPolicy JsonFields Sha256 ZipFormat ZipReader.
From Stdlib Require Import Ascii.
Local Open Scope Z_scope.

(** ** The printed form *)
Definition le16 (v : Z) : bytes := [u8 v; u8 (Z.shiftr v 8)].
Definition le32 (v : Z) : bytes := [u8 v; u8 (Z.shiftr v 8); u8 (Z.shiftr v 16); u8 (Z.shiftr v 24)].

(** The fields that the reader does not keep, and the data. *)
Record CentralStamp := mkStamp {
  made_version : Z;
  central_needed : Z;
  central_time : Z;
  internal_attributes : Z;
}.
Record Member := mkMember {
  local_needed : Z;
  local_time : Z;
  member_data : bytes;
}.

Definition stored_name (e : ZipEntry) : bytes := path e ++ (if is_directory e then [SLASH] else []).

Definition local_header (e : ZipEntry) (m : Member) : bytes :=
  le32 kLocalSignature ++ le16 (local_needed m) ++ le16 (flags e) ++ le16 (compression_method (compression e)) ++
  le32 (local_time m) ++ le32 (crc32 e) ++ le32 (compressed_size e) ++ le32 (size e) ++
  le16 (len (stored_name e)) ++ le16 0.
Definition local_record (e : ZipEntry) (m : Member) : bytes := local_header e m ++ stored_name e ++ member_data m.

Definition central_header (e : ZipEntry) (s : CentralStamp) : bytes :=
  le32 kCentralSignature ++ [made_version s; creator_system e] ++ le16 (central_needed s) ++ le16 (flags e) ++
  le16 (compression_method (compression e)) ++ le32 (central_time s) ++ le32 (crc32 e) ++ le32 (compressed_size e) ++
  le32 (size e) ++ le16 (len (stored_name e)) ++ le16 0 ++ le16 0 ++ le16 0 ++ le16 (internal_attributes s) ++
  le32 (external_attributes e) ++ le32 (local_header_offset e).
Definition central_record (e : ZipEntry) (s : CentralStamp) : bytes := central_header e s ++ stored_name e.

Definition end_record (count central_size central_offset : Z) : bytes :=
  le32 kEndSignature ++ le16 0 ++ le16 0 ++ le16 count ++ le16 count ++ le32 central_size ++ le32 central_offset ++ le16 0.

Definition local_records (l : list ZipEntry) (ms : list Member) : bytes := concat (zip_with local_record l ms).
Definition central_records (l : list ZipEntry) (ss : list CentralStamp) : bytes := concat (zip_with central_record l ss).

Definition archive_of (i : ZipInventory) (ms : list Member) (ss : list CentralStamp) : bytes :=
  local_records (entries i) ms ++ central_records (entries i) ss ++
  end_record (len (entries i)) (central_directory_size i) (central_directory_offset i).

(** A name as FAT sees it, and a directory it lies in. *)
Definition fat_name (p : bytes) : bytes := AsciiLower <$> p.
Definition in_directory (parent child : bytes) : Prop := exists r, fat_name child = fat_name parent ++ SLASH :: r.

Record entry_ok (limits : ZipLimits) (e : ZipEntry) : Prop := {
  ok_path : path e <> [] /\ len (path e) <= maximum_path_bytes limits /\
    Forall release_component (split_on SLASH (path e));
  ok_sizes : 0 <= compressed_size e /\ 0 <= size e;
  ok_file : is_directory e = false -> size e <= maximum_file_bytes limits /\
    size e <= maximum_compression_ratio limits * Z.max 1 (compressed_size e);
  ok_directory : is_directory e = true -> compression e = Store /\ compressed_size e = 0 /\ size e = 0 /\ crc32 e = 0;
}.

Definition total_file_size (l : list ZipEntry) : Z :=
  foldr Z.add 0 ((fun e => if is_directory e then 0 else size e) <$> l).

Record inventory_ok (limits : ZipLimits) (archive : bytes) (i : ZipInventory) : Prop := {
  ok_layout : exists ms ss, length ss = length (entries i) /\ archive = archive_of i ms ss /\
    Forall2 (fun e m => member_data m = sub archive (data_offset e) (compressed_size e) /\
                        len (member_data m) = compressed_size e) (entries i) ms;
  ok_entries : Forall (entry_ok limits) (entries i);
  ok_names : NoDup ((fun e => fat_name (path e)) <$> entries i);
  ok_tree : forall e c, e ∈ entries i -> c ∈ entries i -> is_directory e = false -> ~ in_directory (path e) (path c);
  ok_total : installed_size i = total_file_size (entries i) /\ installed_size i <= maximum_installed_bytes limits;
  ok_counts : file_count i = len (filter (fun e => is_directory e = false) (entries i)) /\
    file_count i + directory_count i = len (entries i);
  ok_size : archive_size i = len archive;
}.

(** ** Bytes and little-endian fields *)
Lemma sub_all (l : bytes) n : n = len l -> sub l 0 n = l.
Proof. intros ->. unfold sub, len. rewrite Nat2Z.id. cbn. by rewrite take_ge. Qed.

Lemma sub_cat (l : bytes) i a b : 0 <= i -> 0 <= a -> 0 <= b -> sub l i (a + b) = sub l i a ++ sub l (i + a) b.
Proof.
  intros. unfold sub. rewrite (Z2Nat.inj_add i a), (Z2Nat.inj_add a b) by lia.
  rewrite <- drop_drop, <- (take_drop (Z.to_nat a) (take (Z.to_nat a + Z.to_nat b) _)).
  rewrite take_take, skipn_firstn_comm. f_equal; f_equal; lia.
Qed.

(** A range cut into fields. *)
Fixpoint cut (l : bytes) (i : Z) (sizes : list Z) : bytes :=
  match sizes with
  | [] => []
  | [a] => sub l i a
  | a :: sizes' => sub l i a ++ cut l (i + a) sizes'
  end.

Lemma sub_fields (l : bytes) sizes n : forall i, 0 <= i -> Forall (Z.le 0) sizes -> n = foldr Z.add 0 sizes ->
  sub l i n = cut l i sizes.
Proof.
  revert n. induction sizes as [|a sizes IH]; intros n i Hi Hs ->; [done|]. apply Forall_cons in Hs as [Ha Hs].
  destruct sizes as [|b sizes]; [cbn; by rewrite Z.add_0_r|].
  change (foldr Z.add 0 (a :: b :: sizes)) with (a + foldr Z.add 0 (b :: sizes)).
  assert (0 <= foldr Z.add 0 (b :: sizes)) by (clear IH; revert Hs; generalize (b :: sizes); induction 1; cbn in *; lia).
  rewrite sub_cat by lia. change (cut l i (a :: b :: sizes)) with (sub l i a ++ cut l (i + a) (b :: sizes)).
  f_equal. apply IH; [lia | done | done].
Qed.

Lemma sub_snoc (l : bytes) i n : 0 <= i -> 0 <= n -> i + n < len l -> sub l i (n + 1) = sub l i n ++ [byte_at l (i + n)].
Proof.
  intros. rewrite sub_cat by lia. f_equal. unfold sub, byte_at. change (Z.to_nat 1) with 1%nat.
  destruct (drop (Z.to_nat (i + n)) l) as [|c r] eqn:E.
  - apply (f_equal length) in E. rewrite length_drop in E. unfold len in *. cbn in E. lia.
  - cbn. f_equal. rewrite <- (take_drop (Z.to_nat (i + n)) l), E, app_nth2; rewrite length_take; unfold len in *; [|lia].
    by rewrite Nat.min_l, Nat.sub_diag by lia.
Qed.

Lemma byte_at_byte l i : Forall is_byte l -> is_byte (byte_at l i).
Proof. apply Forall_nth_byte. Qed.

Lemma lor_shift a b n : 0 <= n -> 0 <= a < 2 ^ n -> Z.lor a (Z.shiftl b n) = a + b * 2 ^ n.
Proof. intros. rewrite Z.lor_comm, Z.shiftl_mul_pow2, lor_add_disjoint by lia. lia. Qed.

Lemma ReadU16_value l i : Forall is_byte l -> ReadU16 l i = byte_at l i + byte_at l (i + 1) * 2 ^ 8.
Proof.
  intros Hl. pose proof (byte_at_byte l i Hl) as Ha. pose proof (byte_at_byte l (i + 1) Hl) as Hb. unfold is_byte in *.
  unfold ReadU16, u16. rewrite Z.mod_small by (rewrite Z.shiftl_mul_pow2 by lia; lia).
  by rewrite lor_shift by lia.
Qed.

Lemma ReadU32_value l i : Forall is_byte l ->
  ReadU32 l i = byte_at l i + byte_at l (i + 1) * 2 ^ 8 + byte_at l (i + 2) * 2 ^ 16 + byte_at l (i + 3) * 2 ^ 24.
Proof.
  intros Hl. pose proof (byte_at_byte l i Hl) as Ha. pose proof (byte_at_byte l (i + 1) Hl) as Hb.
  pose proof (byte_at_byte l (i + 2) Hl) as Hc. pose proof (byte_at_byte l (i + 3) Hl) as Hd. unfold is_byte in *.
  unfold ReadU32, u32. rewrite !Z.mod_small by (rewrite Z.shiftl_mul_pow2 by lia; lia).
  by rewrite (lor_shift _ _ 8), (lor_shift _ _ 16), (lor_shift _ _ 24) by lia.
Qed.

Lemma ReadU16_range l i : Forall is_byte l -> 0 <= ReadU16 l i < 2 ^ 16.
Proof.
  intros Hl. rewrite ReadU16_value by done. pose proof (byte_at_byte l i Hl). pose proof (byte_at_byte l (i + 1) Hl).
  unfold is_byte in *. lia.
Qed.

Lemma ReadU32_range l i : Forall is_byte l -> 0 <= ReadU32 l i < 2 ^ 32.
Proof.
  intros Hl. rewrite ReadU32_value by done. pose proof (byte_at_byte l i Hl). pose proof (byte_at_byte l (i + 1) Hl).
  pose proof (byte_at_byte l (i + 2) Hl). pose proof (byte_at_byte l (i + 3) Hl). unfold is_byte in *. lia.
Qed.

Lemma sub2 l i : 0 <= i -> i + 2 <= len l -> sub l i 2 = [byte_at l i; byte_at l (i + 1)].
Proof. intros. change 2 with (0 + 1 + 1) at 1. rewrite !sub_snoc, Z.add_0_r by lia. done. Qed.

Lemma sub4 l i : 0 <= i -> i + 4 <= len l ->
  sub l i 4 = [byte_at l i; byte_at l (i + 1); byte_at l (i + 2); byte_at l (i + 3)].
Proof. intros. change 4 with (2 + 2) at 1. rewrite sub_cat, !sub2, <- Z.add_assoc by lia. done. Qed.

Lemma read16 l i : Forall is_byte l -> 0 <= i -> i + 2 <= len l -> sub l i 2 = le16 (ReadU16 l i).
Proof.
  intros Hl Hi Hn. rewrite ReadU16_value, sub2 by done. pose proof (byte_at_byte l i Hl).
  pose proof (byte_at_byte l (i + 1) Hl). unfold is_byte in *. unfold le16, u8. rewrite Z.shiftr_div_pow2 by lia.
  repeat f_equal; divmod_lia.
Qed.

Lemma read32 l i : Forall is_byte l -> 0 <= i -> i + 4 <= len l -> sub l i 4 = le32 (ReadU32 l i).
Proof.
  intros Hl Hi Hn. rewrite ReadU32_value, sub4 by done. pose proof (byte_at_byte l i Hl).
  pose proof (byte_at_byte l (i + 1) Hl). pose proof (byte_at_byte l (i + 2) Hl). pose proof (byte_at_byte l (i + 3) Hl).
  unfold is_byte in *. unfold le32, u8. rewrite !Z.shiftr_div_pow2 by lia. repeat f_equal; divmod_lia.
Qed.

(** ** The monad *)
Section yields.
Context {W : Type}.

(** What holds of the value, whatever the world; an exhausted fuel never happens. *)
Definition yields {A} (m : zip W A) (Q : A -> Prop) : Prop := forall w, returns (m w).1 Q.

Lemma yields_ret {A} (a : A) (Q : A -> Prop) : Q a -> yields (zret a) Q.
Proof. by intros Ha w. Qed.

Lemma yields_bind {A B} (m : zip W A) (k : A -> zip W B) Q R :
  yields m Q -> (forall a, Q a -> yields (k a) R) -> yields (zbind m k) R.
Proof.
  intros Hm Hk w. specialize (Hm w). unfold zbind. destruct (m w) as [[a|s|] w']; cbn in *; [|done..]. by apply Hk.
Qed.

Lemma yields_mono {A} (m : zip W A) (Q R : A -> Prop) : yields m Q -> (forall a, Q a -> R a) -> yields m R.
Proof. intros Hm HQ w. eapply returns_mono; [apply Hm | apply HQ]. Qed.

Lemma yields_stop {A} s (Q : A -> Prop) : yields (zstop s) Q.
Proof. by intros w. Qed.

Lemma yields_note {A} s p (Q : A -> Prop) : yields (znote s p) Q.
Proof. by intros w. Qed.

Lemma yields_need {B} (b : bool) s (k : unit -> zip W B) Q :
  (b = true -> yields (k tt) Q) -> yields (zbind (zneed b s) k) Q.
Proof. destruct b; [intros Hk w; by apply Hk | by intros _ w]. Qed.

Lemma yields_some {A B} (o : option A) s (k : A -> zip W B) Q :
  (forall a, o = Some a -> yields (k a) Q) -> yields (zbind (zsome o s) k) Q.
Proof. destruct o; [intros Hk w; by apply Hk | by intros _ w]. Qed.

Lemma yields_any {A B} (m : zip W A) (k : A -> zip W B) Q :
  yields m (fun _ => True) -> (forall a, yields (k a) Q) -> yields (zbind m k) Q.
Proof. intros Hm Hk. eapply yields_bind; [done|]. intros a _. apply Hk. Qed.

Lemma yields_test (call : W -> bool * W) s : yields (ztest call s) (fun _ => True).
Proof. intros w. unfold ztest. by destruct (call w) as [[] w']. Qed.

Lemma yields_report (progress : progress_call) p t : yields (report progress p t) (fun _ => True).
Proof. destruct progress; [apply yields_test | by intros w]. Qed.

Lemma yields_report_entry (progress : progress_call) i p t : yields (report_entry progress i p t) (fun _ => True).
Proof. unfold report_entry. destruct (_ =? _); [apply yields_report | by intros w]. Qed.
End yields.

(** ** The source *)
(** The documented contract of a source over an archive: a read fills the whole
    range, and the archive does not change. *)
Class ImmutableSource (W : Type) `{SeekableZipSource W} (archive : bytes) := {
  size_law w : match (SourceSize w).1 with Some n => n = len archive | None => True end;
  read_law offset amount w : match (SourceReadAt offset amount w).1 with
    | Some d => offset + amount <= len archive /\ d = sub archive offset amount /\ len d = amount
    | None => True
    end;
}.

Section open.
Context {W : Type} `{SeekableZipSource W} (archive : bytes) `{!ImmutableSource W archive}.
Hypothesis archive_bytes : Forall is_byte archive.

Lemma sub_bytes i n : Forall is_byte (sub archive i n).
Proof. unfold sub. apply Forall_take, Forall_drop, archive_bytes. Qed.

Lemma yields_size {B} s (k : Z -> zip W B) Q : yields (k (len archive)) Q -> yields (zbind (zcall SourceSize s) k) Q.
Proof.
  intros Hk w. unfold zbind, zcall. pose proof (size_law w) as Hs. destruct (SourceSize w) as [[n|] w']; [|done].
  cbn in Hs. subst n. apply Hk.
Qed.

Lemma yields_call {B} s offset amount (k : bytes -> zip W B) Q :
  (offset + amount <= len archive -> yields (k (sub archive offset amount)) Q) ->
  yields (zbind (zcall (SourceReadAt offset amount) s) k) Q.
Proof.
  intros Hk w. unfold zbind, zcall. pose proof (read_law offset amount w) as Hr.
  destruct (SourceReadAt offset amount w) as [[d|] w']; [|done]. cbn in Hr. destruct Hr as (Hr & -> & _). by apply Hk.
Qed.

Lemma yields_read {B} offset amount (k : bytes -> zip W B) Q :
  (offset + amount <= len archive -> yields (k (sub archive offset amount)) Q) -> yields (zbind (read_at offset amount) k) Q.
Proof. apply yields_call. Qed.

Lemma kept_len buffer : len (kept buffer) <= len buffer.
Proof. unfold kept, len. rewrite length_drop. lia. Qed.

Lemma turns_left (first finish : Z) (fuel : nat) : (finish - first) / 4096 < Z.of_nat (S fuel) ->
  finish - first < 4096 \/ (finish - (first + 4096)) / 4096 < Z.of_nat fuel.
Proof. intros Hf. destruct (Z.ltb_spec (finish - first) 4096); [by left|]. right. divmod_lia. Qed.

Lemma contains_loop_total fuel : forall signature offset finish prefix,
  (finish - offset) / 4096 < Z.of_nat fuel -> 0 <= finish - offset \/ fuel <> O ->
  yields (contains_loop fuel signature offset finish prefix) (fun _ => True).
Proof.
  induction fuel as [|fuel IH]; intros signature offset finish prefix Hf H0; cbn [contains_loop];
    (destruct (Z.ltb_spec offset finish) as [Hlt|Hge]; [|by apply yields_ret]).
  { exfalso. divmod_lia. }
  apply yields_read. intros _. destruct (has_signature _ _); [by apply yields_ret|].
  destruct (Z.ltb_spec (finish - offset) 4096) as [Hs|Hs].
  - replace (offset + (finish - offset)) with finish by lia. destruct fuel; cbn [contains_loop];
      rewrite Z.ltb_irrefl; by apply yields_ret.
  - apply IH; divmod_lia.
Qed.

Lemma last_signature_range signature buffer : forall index found i,
  last_signature signature buffer index found = Some i -> found = Some i \/ index <= i.
Proof.
  induction buffer as [|c buffer IH]; intros index found i Hl; cbn [last_signature] in Hl; [by left|].
  apply IH in Hl as [Hl|Hl]; [|right; lia]. destruct (starts_with _ _); [|by left]. injection Hl as <-. right. lia.
Qed.

Lemma find_last_loop_range fuel : forall signature offset finish prefix found,
  (finish - offset) / 4096 < Z.of_nat fuel -> 0 <= finish - offset \/ fuel <> O ->
  len prefix <= offset -> (forall i, found = Some i -> 0 <= i) ->
  yields (find_last_loop fuel signature offset finish prefix found) (fun r => forall i, r = Some i -> 0 <= i).
Proof.
  induction fuel as [|fuel IH]; intros signature offset finish prefix found Hf H0 Hp Hfound; cbn [find_last_loop];
    (destruct (Z.ltb_spec offset finish) as [Hlt|Hge]; [|by apply yields_ret]).
  { exfalso. divmod_lia. }
  apply yields_read. intros Hr.
  assert (Hnext : forall i, last_signature signature (prefix ++ sub archive offset
    (if finish - offset <? 4096 then finish - offset else 4096)) (offset - len prefix) found = Some i -> 0 <= i).
  { intros i Hi. apply last_signature_range in Hi as [Hi|Hi]; [by apply Hfound | lia]. }
  assert (Hk : forall amount, 0 <= amount -> offset + amount <= len archive ->
    len (kept (prefix ++ sub archive offset amount)) <= offset + amount).
  { intros amount Ha Hb. etrans; [apply kept_len|]. len_facts. rewrite len_app, sub_length by lia. lia. }
  destruct (Z.ltb_spec (finish - offset) 4096) as [Hs|Hs].
  - replace (offset + (finish - offset)) with finish in * by lia. destruct fuel; cbn [find_last_loop];
      rewrite Z.ltb_irrefl; by apply yields_ret.
  - apply IH; [divmod_lia | divmod_lia | apply Hk; lia | done].
Qed.

Lemma FindLastSignature_yields first finish signature : 0 <= first ->
  yields (FindLastSignature first finish signature) (fun r => forall i, r = Some i -> 0 <= i).
Proof.
  intros H0. apply yields_need. intros Hle%Z.leb_le. change (@nil Z) with (@nil Z).
  apply find_last_loop_range; [|left; lia | done | done].
  assert (0 <= (finish - first) / 4096) by (apply Z.div_pos; lia). lia.
Qed.

Lemma ContainsSignature_yields first finish signature :
  yields (ContainsSignature first finish signature) (fun _ => True).
Proof.
  apply yields_need. intros Hle%Z.leb_le. apply contains_loop_total; [|left; lia].
  assert (0 <= (finish - first) / 4096) by (apply Z.div_pos; lia). lia.
Qed.

Lemma CheckedAdd_spec a b c : CheckedAdd a b = Some c -> c = a + b /\ c <= UINT64_MAX.
Proof. unfold CheckedAdd. destruct (Z.ltb_spec (UINT64_MAX - b) a); [done|]. intros [= <-]. lia. Qed.

Lemma RangeWithin_spec a b c : RangeWithin a b c = true -> a + b <= c /\ a + b <= UINT64_MAX.
Proof.
  unfold RangeWithin. destruct (CheckedAdd a b) as [e|] eqn:E; [|done]. apply CheckedAdd_spec in E as [-> He].
  intros Hle%Z.leb_le. lia.
Qed.

(** The end record of an archive without a comment. *)
Record end_ok (rec : EndRecord) : Prop := {
  end_position : 0 <= end_offset rec /\ end_offset rec + kEndRecordSize = len archive;
  end_fields : sub archive (end_offset rec) kEndRecordSize =
    end_record (entry_count rec) (central_size rec) (central_offset rec);
  end_central : 0 <= central_offset rec /\ 0 <= central_size rec /\ central_offset rec + central_size rec = end_offset rec;
  end_count : 0 < entry_count rec;
}.

Lemma end_shape l : Forall is_byte l -> len l = 22 -> ReadU32 l 0 = kEndSignature ->
  ReadU16 l 4 = 0 -> ReadU16 l 6 = 0 -> ReadU16 l 8 = ReadU16 l 10 -> ReadU16 l 20 = 0 ->
  l = end_record (ReadU16 l 10) (ReadU32 l 12) (ReadU32 l 16).
Proof.
  intros Hb Hl H0 H4 H6 H8 H20. rewrite <- (sub_all l 22) at 1 by done.
  rewrite (sub_fields l [4; 2; 2; 2; 2; 4; 4; 2]) by (done || lia || (repeat constructor; lia)). lazy [cut Z.add Pos.add Pos.succ Pos.add_carry].
  rewrite !read16, !read32, H0, H4, H6, H8, H20 by (done || lia). done.
Qed.

Lemma read_end_record_yields r limits capacity : lenient_archive_ r = false ->
  yields (read_end_record r limits capacity (len archive)) end_ok.
Proof.
  intros Hstrict. unfold read_end_record. len_facts.
  eapply yields_bind; [apply FindLastSignature_yields; unfold tail_begin; destruct (Z.ltb_spec (len archive) 65557); lia|].
  intros found Hfound. apply yields_some. intros e ->. specialize (Hfound e eq_refl).
  apply yields_need. intros Hr. apply RangeWithin_spec in Hr as [Hr _]. apply yields_read. intros _.
  set (l := sub archive e kEndRecordSize). assert (Hb : Forall is_byte l) by apply sub_bytes.
  assert (Hl : len l = 22) by (apply sub_length; unfold kEndRecordSize in *; lia).
  apply yields_need. intros Hsig%Z.eqb_eq. apply yields_some. intros e1 [-> _]%CheckedAdd_spec.
  apply yields_some. intros e2 [-> _]%CheckedAdd_spec. apply yields_need. intros Hend%Z.eqb_eq.
  apply yields_need. rewrite Hstrict, andb_true_r, negb_involutive. intros Hc%Z.eqb_eq.
  apply yields_need. rewrite !andb_true_iff, !Z.eqb_eq. intros [[Hd1 Hd2] Hn].
  apply yields_need. rewrite negb_true_iff, !orb_false_iff, Z.eqb_neq. intros [[Hn0 _] _].
  apply yields_need. intros _. apply yields_need. intros _. apply yields_some. intros ce [-> _]%CheckedAdd_spec.
  apply yields_need. intros Hce%Z.eqb_eq. eapply yields_any; [apply ContainsSignature_yields|]. intros f1.
  apply yields_need. intros _. eapply yields_any; [apply ContainsSignature_yields|]. intros f2.
  apply yields_need. intros _. pose proof (ReadU16_range l 10 Hb). pose proof (ReadU32_range l 12 Hb).
  pose proof (ReadU32_range l 16 Hb). apply yields_ret. constructor; cbn; [lia | | lia | lia]. by apply end_shape.
Qed.

(** ** Names *)
Lemma FatEqual_spec p : forall q, FatEqual p q = true <-> fat_name p = fat_name q.
Proof.
  unfold fat_name. induction p as [|a p IH]; intros [|b q]; cbn [FatEqual fmap list_fmap]; try done.
  rewrite andb_true_iff, Z.eqb_eq, IH. split; [by intros [-> ->] | by intros [= -> ->]].
Qed.

Lemma AsciiLower_slash c : AsciiLower c = SLASH <-> c = SLASH.
Proof. unfold AsciiLower, is_upper, in_range, SLASH. destruct (Z.leb_spec 65 c), (Z.leb_spec c 90); cbn; lia. Qed.

Lemma FatPrefixDirectory_spec p : forall c, FatPrefixDirectory p c = true <-> in_directory p c.
Proof.
  unfold in_directory, fat_name. induction p as [|a p IH]; intros [|b c]; cbn [FatPrefixDirectory fmap list_fmap app].
  - split; [done | by intros [? [=]]].
  - rewrite Z.eqb_eq, <- AsciiLower_slash. split; [intros ->; by eexists | by intros [r [= -> _]]].
  - split; [done | by intros [? [=]]].
  - rewrite andb_true_iff, Z.eqb_eq, IH. split.
    + intros [-> [r ->]]. by exists r.
    + intros [r [= -> Hr]]. split; [done | by exists r].
Qed.

Lemma last_byte_snoc p c : last_byte (p ++ [c]) = c.
Proof. unfold last_byte. rewrite length_app, app_nth2 by (cbn; lia). cbn. by replace (_ - _ - _)%nat with O by lia. Qed.

Lemma without_last l : l <> [] -> l = take (length l - 1) l ++ [last_byte l].
Proof.
  intros Hl. destruct (exists_last Hl) as (p & c & ->). rewrite last_byte_snoc, length_app. cbn [length].
  by rewrite take_app_le, take_ge by lia.
Qed.

Lemma ValidateAndCopyPath_spec raw flags is_dir maximum p : 0 < maximum ->
  ValidateAndCopyPath raw flags is_dir maximum = inr p ->
  raw = p ++ (if is_dir then [SLASH] else []) /\ p <> [] /\ len p <= maximum /\
  Forall release_component (split_on SLASH p).
Proof.
  intros Hm. unfold ValidateAndCopyPath. destruct (Z.eqb_spec (len raw) 0) as [|Hl]; [done|].
  destruct (bool_decide _); [done|]. destruct (existsb _ _); [by destruct (_ || _)|].
  destruct (negb (Bool.eqb _ _)) eqn:Eb; [done|]. apply negb_false_iff, eqb_prop in Eb.
  destruct (ValidateFatRelativePathBytes _ _) eqn:Ev; try done. intros [= <-].
  apply (release_validate _ _ Hm) in Ev. rewrite <- Eb. split; [|done].
  destruct (Z.eqb_spec (last_byte raw) SLASH) as [<-|]; [|by rewrite app_nil_r].
  apply without_last. by intros ->.
Qed.

Lemma ratio_bound limits c s : 0 <= c -> 0 <= s -> ratio_exceeded limits c s = false ->
  s <= maximum_compression_ratio limits * Z.max 1 c.
Proof.
  intros Hc Hs. unfold ratio_exceeded. set (d := if c =? 0 then 1 else c).
  assert (Hd : Z.max 1 c = d) by (unfold d; destruct (Z.eqb_spec c 0); lia). rewrite Hd.
  assert (0 < d) by lia. rewrite orb_false_iff, Z.ltb_ge, andb_false_iff, Z.eqb_neq, negb_false_iff, Z.eqb_eq.
  pose proof (Z.div_mod s d ltac:(lia)). pose proof (Z.mod_pos_bound s d ltac:(lia)). nia.
Qed.

(** ** The central directory *)
Definition limits_wf (limits : ZipLimits) : Prop :=
  0 <= maximum_path_bytes limits /\ 0 <= maximum_entries limits /\ 0 <= maximum_file_bytes limits /\
  0 <= maximum_installed_bytes limits /\ 0 <= maximum_compression_ratio limits.

Definition strict (r : ZipReader) : Prop :=
  lenient_extra_fields_ r = false /\ lenient_paths_ r = false /\ lenient_archive_ r = false /\ lenient_ratio_ r = false.

Definition new_name (p : bytes) (earlier : list ZipEntry) : Prop :=
  fat_name p ∉ (fun e => fat_name (path e)) <$> earlier.

Lemma check_new_path_yields p earlier : yields (W := W) (check_new_path p earlier) (fun _ => new_name p earlier).
Proof.
  unfold new_name. induction earlier as [|e earlier IH]; cbn [check_new_path]; [apply yields_ret, not_elem_of_nil|].
  destruct (bytes_eqb _ _); [apply yields_note|]. destruct (FatEqual _ _) eqn:Ef; [apply yields_note|].
  eapply yields_mono; [exact IH|]. intros u Hn. cbn. apply not_elem_of_cons. split; [|done].
  intros E. apply FatEqual_spec in E. congruence.
Qed.

Lemma check_member_yields r limits e : strict r -> 0 <= compressed_size e -> 0 <= size e ->
  yields (W := W) (check_member r limits e) (fun _ =>
    (is_directory e = false -> size e <= maximum_file_bytes limits /\
       size e <= maximum_compression_ratio limits * Z.max 1 (compressed_size e)) /\
    (is_directory e = true -> compression e = Store /\ compressed_size e = 0 /\ size e = 0 /\ crc32 e = 0)).
Proof.
  intros (_ & _ & _ & Hr) Hc Hs. unfold check_member. destruct (is_directory e).
  - intros w. destruct (_ && _) eqn:E; [|done]. cbn. rewrite !andb_true_iff, bool_decide_eq_true, !Z.eqb_eq in E.
    split; [done|]. intros _. tauto.
  - apply yields_need. rewrite negb_true_iff, orb_false_iff, Z.ltb_ge. intros [Hf _].
    intros w. rewrite Hr. cbn [negb andb]. destruct (ratio_exceeded _ _ _) eqn:E; [done|]. cbn.
    split; [|done]. intros _. split; [done|]. by apply ratio_bound.
Qed.

Record central_ok (limits : ZipLimits) (cursor central_end : Z) (earlier : list ZipEntry) (x : ZipEntry * Z) : Prop := {
  c_next : x.2 = cursor + kCentralHeaderSize + len (stored_name x.1) /\ x.2 <= central_end;
  c_record : exists s, sub archive cursor (x.2 - cursor) = central_record x.1 s;
  c_entry : entry_ok limits x.1;
  c_new : new_name (path x.1) earlier;
}.

Lemma central_shape l e : Forall is_byte l -> len l = 46 -> ReadU32 l 0 = kCentralSignature ->
  creator_system e = u8 (Z.shiftr (ReadU16 l 4) 8) -> flags e = ReadU16 l 8 ->
  compression_method (compression e) = ReadU16 l 10 -> crc32 e = ReadU32 l 16 -> compressed_size e = ReadU32 l 20 ->
  size e = ReadU32 l 24 -> len (stored_name e) = ReadU16 l 28 -> ReadU16 l 30 = 0 -> ReadU16 l 32 = 0 ->
  ReadU16 l 34 = 0 -> external_attributes e = ReadU32 l 38 -> local_header_offset e = ReadU32 l 42 ->
  l = central_header e (mkStamp (u8 (ReadU16 l 4)) (ReadU16 l 6) (ReadU32 l 12) (ReadU16 l 36)).
Proof.
  intros Hb Hl H0 H4 H8 H10 H16 H20 H24 H28 H30 H32 H34 H38 H42. rewrite <- (sub_all l 46) at 1 by done.
  rewrite (sub_fields l [4; 2; 2; 2; 2; 4; 4; 4; 4; 2; 2; 2; 2; 2; 4; 4]) by (done || lia || (repeat constructor; lia)).
  lazy [cut Z.add Pos.add Pos.succ Pos.add_carry].
  rewrite !read16, !read32 by (done || lia). unfold central_header. cbn [made_version central_needed central_time internal_attributes].
  rewrite H0, H4, H8, H10, H16, H20, H24, H28, H30, H32, H34, H38, H42. done.
Qed.

Lemma method_of_spec m c : method_of m = Some c -> compression_method c = m.
Proof.
  unfold method_of. destruct (Z.eqb_spec m 0) as [->|]; [by intros [= <-]|].
  destruct (Z.eqb_spec m 8) as [->|]; [by intros [= <-] | done].
Qed.

Lemma record_at i n k : 0 <= i -> 0 <= n -> 0 <= k ->
  sub archive i (n + k) = sub archive i n ++ sub archive (i + n) k.
Proof. intros. by apply sub_cat. Qed.

Lemma central_entry_yields r limits cursor central_end earlier : strict r -> 0 < maximum_path_bytes limits ->
  0 <= cursor -> central_end <= len archive -> len archive <= UINT64_MAX ->
  yields (central_entry r limits cursor central_end earlier) (central_ok limits cursor central_end earlier).
Proof.
  intros Hr Hp Hc Hend Hmax. destruct Hr as (Hextra & Hpaths & Harch & Hratio). unfold central_entry.
  apply yields_need. intros [Hin _]%RangeWithin_spec. unfold kCentralHeaderSize in *. apply yields_read. intros _.
  set (l := sub archive cursor 46). assert (Hb : Forall is_byte l) by apply sub_bytes.
  assert (Hl : len l = 46) by (apply sub_length; lia).
  pose proof (ReadU32_range l 20 Hb) as Hr20. pose proof (ReadU32_range l 24 Hb) as Hr24.
  pose proof (ReadU16_range l 28 Hb) as Hr28.
  apply yields_need. intros Hsig%Z.eqb_eq. apply yields_need. intros _. apply yields_need. intros _.
  apply yields_some. intros method Hm%method_of_spec. apply yields_need. intros Hdisk%Z.eqb_eq.
  apply yields_need. intros _. apply yields_need. rewrite Hextra, andb_true_r, negb_involutive. intros Hx%Z.eqb_eq.
  apply yields_need. intros Hcomment%Z.eqb_eq. apply yields_need. intros _.
  apply yields_some. intros s1 [-> _]%CheckedAdd_spec. apply yields_some. intros s2 [-> _]%CheckedAdd_spec.
  apply yields_some. intros s3 [-> _]%CheckedAdd_spec. apply yields_need. intros [Hrec _]%RangeWithin_spec.
  rewrite Hx, Hcomment, !Z.add_0_r in Hrec |- *.
  apply yields_need. intros _. apply yields_read. intros _. set (raw := sub archive (cursor + 46) (ReadU16 l 28)).
  assert (Hraw : len raw = ReadU16 l 28) by (apply sub_length; lia).
  destruct (IsDirectoryMetadata _ _ _); [apply yields_stop|].
  unfold checked_name. rewrite Hpaths. cbn [andb]. apply yields_bind with (Q := eq (raw, last_byte raw =? SLASH));
    [by apply yields_ret|]. intros ? <-. cbn [fst snd]. destruct (ValidateAndCopyPath _ _ _ _) as [st|p] eqn:Ev; [apply yields_note|].
  apply ValidateAndCopyPath_spec in Ev as (Ename & Hpne & Hplen & Hpc); [|done].
  eapply yields_bind; [apply check_new_path_yields|]. intros u Hnew. cbv beta in Hnew. clear u.
  set (e := mkEntry p _ _ _ _ _ _ _ _ _ _).
  eapply yields_bind; [apply (check_member_yields r limits e); [done | cbn; lia | cbn; lia]|].
  intros u [Hfile Hdir]. clear u. rewrite u64_small by (unfold UINT64_MAX in *; lia).
  assert (Hstored : stored_name e = raw) by (symmetry; exact Ename).
  apply yields_ret. constructor; cbn [fst snd].
  - rewrite Hstored, Hraw. unfold kCentralHeaderSize. lia.
  - exists (mkStamp (u8 (ReadU16 l 4)) (ReadU16 l 6) (ReadU32 l 12) (ReadU16 l 36)).
    replace (cursor + (46 + ReadU16 l 28) - cursor) with (46 + ReadU16 l 28) by lia.
    rewrite record_at by lia. unfold central_record. rewrite Hstored. f_equal.
    apply central_shape; try done; try (by rewrite Hstored). 
  - constructor; [done | cbn; lia | done | done].
  - done.
Qed.

(** What the loop over the central directory has read. *)
Record directory_read (limits : ZipLimits) (start cursor central_end : Z) (l : list ZipEntry) : Prop := {
  d_range : start <= cursor <= central_end;
  d_records : exists ss, length ss = length l /\ sub archive start (cursor - start) = central_records l ss;
  d_entries : Forall (entry_ok limits) l;
  d_names : NoDup ((fun e => fat_name (path e)) <$> l);
}.

Lemma central_records_snoc l ss e s : length ss = length l ->
  central_records (l ++ [e]) (ss ++ [s]) = central_records l ss ++ central_record e s.
Proof.
  intros Hl. unfold central_records. rewrite zip_with_app by done. rewrite concat_app. cbn [zip_with concat].
  by rewrite app_nil_r.
Qed.

Lemma NoDup_snoc {A} (l : list A) x : NoDup l -> x ∉ l -> NoDup (l ++ [x]).
Proof.
  intros Hl Hx. apply NoDup_app. split; [done|]. split; [|apply NoDup_singleton].
  intros y Hy ->%list_elem_of_singleton. done.
Qed.

Lemma directory_read_next limits start cursor central_end l x : 0 <= start ->
  directory_read limits start cursor central_end l -> central_ok limits cursor central_end l x ->
  directory_read limits start x.2 central_end (l ++ [x.1]).
Proof.
  intros H0 [Hr (ss & Hss & Hs) He Hn] [(Hx1 & Hx2) (s & Hxs) Hxe Hxn]. unfold kCentralHeaderSize in *.
  pose proof (len_nonneg (stored_name x.1)). constructor.
  - lia.
  - exists (ss ++ [s]). split; [rewrite !length_app; cbn; lia|]. rewrite central_records_snoc by done.
    replace (x.2 - start) with ((cursor - start) + (x.2 - cursor)) by lia. rewrite record_at, Hs by lia. f_equal.
    by replace (start + (cursor - start)) with cursor by lia.
  - apply Forall_app. by split; [|constructor].
  - rewrite fmap_app. by apply NoDup_snoc.
Qed.

Lemma central_loop_yields r limits progress count : forall entry_count index cursor start central_end l,
  strict r -> 0 < maximum_path_bytes limits -> 0 <= start -> central_end <= len archive -> len archive <= UINT64_MAX ->
  directory_read limits start cursor central_end l ->
  yields (central_loop r limits progress count entry_count index cursor central_end l)
    (fun x => directory_read limits start x.2 central_end x.1 /\ length x.1 = (length l + count)%nat).
Proof.
  induction count as [|count IH]; intros entry_count index cursor start central_end l Hr Hp H0 Hend Hmax Hd;
    cbn [central_loop].
  { apply yields_ret. cbn. split; [done | lia]. }
  eapply yields_bind; [apply (central_entry_yields r limits); try done; destruct Hd; lia|].
  intros x Hx. eapply yields_any; [apply yields_report_entry|]. intros _.
  eapply yields_mono; [apply (IH _ _ _ start); try done; by eapply directory_read_next|].
  intros y [Hy Hlen]. split; [done|]. rewrite Hlen, length_app. cbn. lia.
Qed.

Lemma file_used_as_directory_spec (l : list ZipEntry) : file_used_as_directory l = false ->
  forall e c, e ∈ l -> c ∈ l -> is_directory e = false -> ~ in_directory (path e) (path c).
Proof.
  intros Hf e c [i Hi]%list_elem_of_lookup [j Hj]%list_elem_of_lookup He Hin.
  assert (Hij : i <> j).
  { intros <-. rewrite Hi in Hj. injection Hj as <-. destruct Hin as [r Hr]. apply (f_equal length) in Hr.
    rewrite length_app in Hr. cbn in Hr. lia. }
  apply existsb_Forall_bool in Hf. rewrite Forall_forall in Hf.
  specialize (Hf i ltac:(apply elem_of_seq; apply lookup_lt_Some in Hi; lia)). cbv beta in Hf.
  rewrite Hi, He in Hf. cbn [negb andb] in Hf. apply existsb_Forall_bool in Hf. rewrite Forall_forall in Hf.
  specialize (Hf j ltac:(apply elem_of_seq; apply lookup_lt_Some in Hj; lia)). cbv beta in Hf.
  rewrite Hj, (proj2 (Nat.eqb_neq i j) Hij), (proj2 (FatPrefixDirectory_spec _ _) Hin) in Hf. done.
Qed.

(** ** The local records *)
Lemma local_shape l e : Forall is_byte l -> len l = 30 -> ReadU32 l 0 = kLocalSignature ->
  ReadU16 l 6 = flags e -> ReadU16 l 8 = compression_method (compression e) -> ReadU32 l 14 = crc32 e ->
  ReadU32 l 18 = compressed_size e -> ReadU32 l 22 = size e -> ReadU16 l 26 = len (stored_name e) ->
  ReadU16 l 28 = 0 -> forall d, l = local_header e (mkMember (ReadU16 l 4) (ReadU32 l 10) d).
Proof.
  intros Hb Hl H0 H6 H8 H14 H18 H22 H26 H28 d. rewrite <- (sub_all l 30) at 1 by done.
  rewrite (sub_fields l [4; 2; 2; 2; 4; 4; 4; 4; 2; 2]) by (done || lia || (repeat constructor; lia)).
  lazy [cut Z.add Pos.add Pos.succ Pos.add_carry].
  rewrite !read16, !read32 by (done || lia). unfold local_header. cbn [local_needed local_time].
  by rewrite H0, H6, H8, H14, H18, H22, H26, H28.
Qed.

(** The entry with its data offset, and the offset behind its data. *)
Record local_ok (offset central_offset : Z) (e : ZipEntry) (x : ZipEntry * Z) : Prop := {
  l_entry : exists d, x.1 = set_data_offset d e;
  l_range : offset <= x.2 <= central_offset;
  l_record : exists m, sub archive offset (x.2 - offset) = local_record x.1 m /\
    member_data m = sub archive (data_offset x.1) (compressed_size x.1) /\ len (member_data m) = compressed_size x.1;
}.

Lemma stored_name_shape e name : len name = len (path e) + (if is_directory e then 1 else 0) ->
  take (length (path e)) name = path e ->
  is_directory e && ((len name =? 0) || negb (last_byte name =? SLASH)) = false -> name = stored_name e.
Proof.
  intros Hl Ht Hd. unfold stored_name. destruct (is_directory e); cbn [andb] in Hd.
  - apply orb_false_iff in Hd as [_ Hd%negb_false_iff%Z.eqb_eq].
    rewrite (without_last name), Hd at 1 by (intros ->; len_facts; change (len (@nil Z)) with 0 in Hl; lia).
    f_equal. unfold len in Hl. by replace (length name - 1)%nat with (length (path e)) by lia.
  - rewrite app_nil_r, <- Ht, take_ge by (unfold len in *; lia). done.
Qed.

Lemma local_entry_yields r offset central_offset e : strict r -> 0 <= offset -> 0 <= compressed_size e ->
  central_offset <= len archive ->
  yields (local_entry r offset central_offset e) (local_ok offset central_offset e).
Proof.
  intros (Hextra & Hpaths & Harch & Hratio) H0 Hcs Hend. unfold local_entry. apply yields_need.
  rewrite andb_true_iff, Z.eqb_eq. intros [-> [Hin _]%RangeWithin_spec]. unfold kLocalHeaderSize in *.
  apply yields_read. intros _. set (l := sub archive offset 30). assert (Hb : Forall is_byte l) by apply sub_bytes.
  assert (Hl : len l = 30) by (apply sub_length; lia). pose proof (ReadU16_range l 26 Hb) as Hr26.
  apply yields_need. intros Hsig%Z.eqb_eq. apply yields_need. intros _. apply yields_need.
  rewrite Hpaths. cbn [andb orb]. rewrite !andb_true_iff, !Z.eqb_eq. intros [[Hfl Hme] [[Hcrc Hcsz] Hsz]].
  apply yields_need. rewrite Hextra, andb_true_r, negb_involutive. intros Hx%Z.eqb_eq.
  apply yields_need. intros _. apply yields_read. intros Hnr. set (name := sub archive (offset + 30) (ReadU16 l 26)).
  assert (Hname : len name = ReadU16 l 26) by (apply sub_length; lia).
  unfold compared_name. rewrite Hpaths. cbn [andb]. apply yields_bind with (Q := eq name); [by apply yields_ret|].
  intros ? <-. apply yields_need. intros Hnl%Z.eqb_eq.
  apply yields_some. intros s1 [-> _]%CheckedAdd_spec. apply yields_some. intros s2 [-> _]%CheckedAdd_spec.
  apply yields_some. intros s3 [-> _]%CheckedAdd_spec. rewrite Hx, Z.add_0_r.
  apply yields_need. intros [Hdata _]%RangeWithin_spec. apply yields_need.
  rewrite negb_true_iff, orb_false_iff, negb_false_iff. intros [Ht%bytes_eqb_eq Hsl].
  apply yields_some. intros fin [-> _]%CheckedAdd_spec. rewrite andb_false_r. cbn [andb].
  set (finish := offset + 30 + ReadU16 l 26 + compressed_size e).
  apply yields_bind with (Q := eq finish); [by apply yields_ret|]. intros ? <-. apply yields_ret.
  pose proof (stored_name_shape e name Hnl Ht Hsl) as Hstored.
  set (d := offset + 30 + ReadU16 l 26). constructor; cbn [fst snd].
  - by exists d.
  - lia.
  - exists (mkMember (ReadU16 l 4) (ReadU32 l 10) (sub archive d (compressed_size e))).
    cbn [fst snd member_data data_offset compressed_size set_data_offset].
    split; [|split; [done | apply sub_length; lia]].
    replace (finish - offset) with (30 + (ReadU16 l 26 + compressed_size e)) by lia. rewrite !record_at by lia.
    unfold local_record. apply (f_equal2 app); [|by apply (f_equal2 app)].
    apply (local_shape l (set_data_offset d e)); try done. cbn. rewrite <- Hname, Hstored. done.
Qed.

Definition relocated (e e' : ZipEntry) : Prop := exists d, e' = set_data_offset d e.
Definition has_data (e : ZipEntry) (m : Member) : Prop :=
  member_data m = sub archive (data_offset e) (compressed_size e) /\ len (member_data m) = compressed_size e.

Record locals_read (limits : ZipLimits) (start central_offset installed : Z) (l : list ZipEntry)
    (x : list ZipEntry * Z * Z) : Prop := {
  r_entries : Forall2 relocated l x.1.1;
  r_range : start <= x.1.2 <= central_offset;
  r_records : exists ms, Forall2 has_data x.1.1 ms /\ sub archive start (x.1.2 - start) = local_records x.1.1 ms;
  r_total : x.2 = installed + total_file_size x.1.1;
  r_total_bound : installed <= maximum_installed_bytes limits -> x.2 <= maximum_installed_bytes limits;
}.

Lemma local_loop_yields r limits progress entry_count central_offset l : forall index offset installed,
  strict r -> 0 <= offset <= central_offset -> central_offset <= len archive ->
  Forall (fun e => 0 <= compressed_size e) l ->
  yields (local_loop r limits progress entry_count index offset central_offset installed l)
    (locals_read limits offset central_offset installed l).
Proof.
  induction l as [|e l IH]; intros index offset installed Hr H0 Hend Hl; cbn [local_loop].
  { apply yields_ret. constructor; cbn [fst snd]; [constructor | lia | | cbn; lia | done].
    exists []. split; [constructor|]. by rewrite Z.sub_diag. }
  apply Forall_cons in Hl as [He Hl]. eapply yields_any; [apply yields_report_entry|]. intros _.
  eapply yields_bind; [apply (local_entry_yields r offset central_offset e); try done; lia|].
  intros x [(d & Hd) Hx (m & Hm & Hdata)].
  apply yields_bind with (Q := fun t => t = installed + (if is_directory x.1 then 0 else size x.1) /\
      (installed <= maximum_installed_bytes limits -> t <= maximum_installed_bytes limits)).
  { rewrite Hd. cbn [set_data_offset is_directory size]. destruct (is_directory e).
    - apply yields_ret. lia.
    - apply yields_some. intros t [-> _]%CheckedAdd_spec. apply yields_need. intros Ht%Z.leb_le. by apply yields_ret. }
  intros t [-> Ht]. eapply yields_bind; [apply IH; try done; lia|].
  intros y [Hy1 Hy2 (ms & Hms & Hsub) Hy3 Hy4]. apply yields_ret. constructor; cbn [fst snd].
  - constructor; [by exists d | done].
  - lia.
  - exists (m :: ms). split; [by constructor|]. unfold local_records. cbn [zip_with concat].
    replace (y.1.2 - offset) with ((x.2 - offset) + (y.1.2 - x.2)) by lia. rewrite record_at, Hm by lia.
    replace (offset + (x.2 - offset)) with x.2 by lia. by rewrite Hsub.
  - rewrite Hy3. unfold total_file_size. cbn [fmap list_fmap foldr]. lia.
  - auto.
Qed.

Lemma relocated_map {A} (f : ZipEntry -> A) l l' : (forall d e, f (set_data_offset d e) = f e) ->
  Forall2 relocated l l' -> f <$> l' = f <$> l.
Proof. intros Hf. induction 1 as [|e e' l l' [d ->] _ IH]; [done|]. cbn. by rewrite Hf, IH. Qed.

Lemma relocated_entries limits l l' : Forall2 relocated l l' -> Forall (entry_ok limits) l -> Forall (entry_ok limits) l'.
Proof.
  induction 1 as [|e e' l l' [d ->] _ IH]; [done|]. rewrite !Forall_cons. intros [[H1 H2 H3 H4] Hl]. split; [|auto].
  by constructor.
Qed.

Lemma relocated_records l l' ss : Forall2 relocated l l' -> central_records l' ss = central_records l ss.
Proof.
  intros Hl. revert ss. induction Hl as [|e e' l l' [d ->] _ IH]; intros [|s ss]; try done.
  unfold central_records in *. cbn [zip_with concat]. by rewrite IH.
Qed.

Lemma relocated_in l l' e : Forall2 relocated l l' -> e ∈ l' ->
  exists e0, e0 ∈ l /\ path e0 = path e /\ is_directory e0 = is_directory e.
Proof.
  intros Hl [i Hi]%list_elem_of_lookup. apply (Forall2_lookup_r _ _ _ _ _ Hl) in Hi as (e0 & He0 & d & ->).
  exists e0. split; [by eapply list_elem_of_lookup_2 | done].
Qed.

Lemma relocated_files l l' : Forall2 relocated l l' ->
  len (filter (fun e => is_directory e = false) l') = len (filter (fun e => is_directory e = false) l).
Proof.
  induction 1 as [|e e' l l' [d ->] _ IH]; [done|]. rewrite !filter_cons. cbn [set_data_offset is_directory].
  destruct (decide (is_directory e = false)); [rewrite !len_cons, IH; done | done].
Qed.

Lemma open_archive_yields r capacity limits progress : strict r -> limits_wf limits -> len archive <= UINT64_MAX ->
  yields (open_archive r capacity limits progress) (inventory_ok limits archive).
Proof.
  intros Hr (Hl1 & _ & _ & Hl4 & _) Hmax. unfold open_archive. apply yields_need. intros Hvalid.
  assert (Hp : 0 < maximum_path_bytes limits).
  { unfold limits_valid in Hvalid. rewrite negb_true_iff, !orb_false_iff, !Z.eqb_neq in Hvalid. lia. }
  apply yields_size. apply yields_need. intros _.
  eapply yields_bind; [apply read_end_record_yields; apply Hr|]. intros rec [Hpos Hfields Hcentral Hcount].
  unfold kEndRecordSize in *. eapply yields_bind.
  { apply (central_loop_yields r limits progress _ _ _ _ (central_offset rec)); try done; [lia | lia |].
    constructor; [lia | | constructor | constructor]. exists []. split; [done|]. by rewrite Z.sub_diag. }
  intros x [[_ (ss & Hss & Hrecords) Hentries Hnames] Hlen]. apply yields_need. intros Hx%Z.eqb_eq.
  apply yields_need. intros Htree%negb_true_iff. pose proof (file_used_as_directory_spec _ Htree) as Ht.
  eapply yields_bind.
  { apply local_loop_yields; [done | lia | lia |]. eapply Forall_impl; [exact Hentries|]. by intros e [_ [? _] _ _]. }
  intros y [Hrel Hyr (ms & Hms & Hlocal) Htotal Hbound]. apply yields_need. intros Hy%Z.eqb_eq. apply yields_ret.
  assert (Hlen' : len y.1.1 = entry_count rec).
  { unfold len. rewrite <- (Forall2_length _ _ _ Hrel), Hlen. cbn. lia. }
  constructor; cbn [entries file_count directory_count archive_size installed_size].
  - exists ms, ss. split; [rewrite Hss; apply (Forall2_length _ _ _ Hrel)|]. split; [|exact Hms].
    unfold archive_of. cbn [entries central_directory_size central_directory_offset].
    rewrite Hlen', (relocated_records _ _ _ Hrel), <- Hrecords, <- Hlocal, <- Hfields, Hy, Hx, Z.sub_0_r.
    replace (central_offset rec + central_size rec - central_offset rec) with (central_size rec) by lia.
    rewrite <- (sub_all archive (len archive)) at 1 by done. destruct Hcentral as (? & ? & Hend). destruct Hpos as [_ Hpos].
    rewrite <- Hpos, <- Hend, <- Z.add_assoc, !record_at by lia. done.
  - by apply (relocated_entries limits x.1).
  - by rewrite (relocated_map (fun e => fat_name (path e)) x.1) by done.
  - intros e c He Hc Hd. destruct (relocated_in _ _ _ Hrel He) as (e0 & He0 & Hpe & Hde).
    destruct (relocated_in _ _ _ Hrel Hc) as (c0 & Hc0 & Hpc & _). rewrite <- Hpe, <- Hpc. apply Ht; congruence.
  - split; [rewrite Htotal; lia | apply Hbound; lia].
  - rewrite (relocated_files _ _ Hrel), Hlen'. lia.
  - done.
Qed.

End open.

(** ** A refusal is never reported as Ok, and the world keeps what reading keeps *)
Section refusal.
Context {W : Type} `{SeekableZipSource W} (I : W -> Prop).
Hypothesis size_keeps : forall w, I w -> I (SourceSize w).2.
Hypothesis read_keeps : forall offset amount w, I w -> I (SourceReadAt offset amount w).2.

Definition refuses {A} (m : zip W A) : Prop :=
  forall w, I w -> match (m w).1 with Stop f => failure_status f <> Ok | _ => True end /\ I (m w).2.

Lemma refuses_ret {A} (a : A) : refuses (zret a).
Proof. by intros w. Qed.
Lemma refuses_ub {A} : refuses (A := A) zub.
Proof. by intros w. Qed.
Lemma refuses_stop {A} s : s <> Ok -> refuses (A := A) (zstop s).
Proof. by intros Hs w. Qed.
Lemma refuses_note {A} s p : s <> Ok -> refuses (A := A) (znote s p).
Proof. by intros Hs w. Qed.
Lemma refuses_bind {A B} (m : zip W A) (k : A -> zip W B) : refuses m -> (forall a, refuses (k a)) -> refuses (zbind m k).
Proof.
  intros Hm Hk w Hw. specialize (Hm w Hw). unfold zbind. destruct (m w) as [[a|f|] w']; cbn in *; [apply Hk, Hm | done..].
Qed.
Lemma refuses_need b s : s <> Ok -> refuses (zneed b s).
Proof. destruct b; [intros _; apply refuses_ret | apply refuses_stop]. Qed.
Lemma refuses_some {A} (o : option A) s : s <> Ok -> refuses (zsome o s).
Proof. destruct o; [intros _; apply refuses_ret | apply refuses_stop]. Qed.
Lemma refuses_call {A} (call : W -> option A * W) s : s <> Ok -> (forall w, I w -> I (call w).2) -> refuses (zcall call s).
Proof. intros Hs Hc w Hw. specialize (Hc w Hw). unfold zcall. by destruct (call w) as [[a|] w']. Qed.
Lemma refuses_test (call : W -> bool * W) s : s <> Ok -> (forall w, I w -> I (call w).2) -> refuses (ztest call s).
Proof. intros Hs Hc w Hw. specialize (Hc w Hw). unfold ztest. by destruct (call w) as [[] w']. Qed.

Ltac refusal := repeat first
  [ simple apply refuses_bind; [|intros ?] | simple apply refuses_ret | simple apply refuses_ub | simple apply refuses_need; discriminate
  | simple apply refuses_some; discriminate | simple apply refuses_call; [discriminate | intros; cbn; solve [auto]]
  | simple apply refuses_stop; discriminate | simple apply refuses_note; discriminate | assumption | progress (cbv zeta)
  | match goal with |- refuses (match ?x with _ => _ end) => destruct x eqn:? end ].

Variable progress : @progress_call W.
Hypothesis progress_keeps : forall call p t w, progress = Some call -> I w -> I (call p t w).2.

Lemma refuses_report p t : refuses (report progress p t).
Proof.
  unfold report. destruct progress as [call|]; [|apply refuses_ret]. apply refuses_test; [discriminate|]. eauto.
Qed.
Lemma refuses_report_entry i p t : refuses (report_entry progress i p t).
Proof. unfold report_entry. destruct (_ =? _); [apply refuses_report | apply refuses_ret]. Qed.

Lemma refuses_read_end r limits capacity size : refuses (read_end_record r limits capacity size).
Proof.
  assert (Hf : forall fuel sg a b p o, refuses (find_last_loop fuel sg a b p o)).
  { induction fuel; intros; cbn [find_last_loop]; unfold read_at; refusal; auto. }
  assert (Hc : forall fuel sg a b p, refuses (contains_loop fuel sg a b p)).
  { induction fuel; intros; cbn [contains_loop]; unfold read_at; refusal; auto. }
  unfold read_end_record, FindLastSignature, ContainsSignature, read_at. refusal; auto.
Qed.

Lemma refuses_central r limits count : forall n i c e l,
  refuses (central_loop r limits progress count n i c e l).
Proof.
  assert (Hp : forall p l, refuses (check_new_path p l)).
  { induction l; cbn [check_new_path]; refusal. }
  assert (He : forall c e l, refuses (central_entry r limits c e l)).
  { intros. unfold central_entry, checked_name, check_member, read_at. refusal; try apply Hp.
    - apply refuses_stop. unfold IsDirectoryMetadata in *.
      repeat (match goal with H : (if ?b then _ else _) = Some _ |- _ => destruct b end); simplify_eq; done.
    - apply refuses_note. unfold ValidateAndCopyPath in *.
      repeat (match goal with H : (if ?b then _ else _) = inl _ |- _ => destruct b
              | H : match ?b with _ => _ end = inl _ |- _ => destruct b end); simplify_eq; done. }
  induction count; intros; cbn [central_loop]; refusal; [apply He | apply refuses_report_entry | auto].
Qed.

Lemma refuses_local r limits n c l : forall i o t, refuses (local_loop r limits progress n i o c t l).
Proof.
  assert (He : forall o e, refuses (local_entry r o c e)).
  { intros. unfold local_entry, compared_name, skip_descriptor, read_at. refusal. }
  induction l; intros; cbn [local_loop]; refusal; auto using refuses_report_entry.
Qed.

Lemma refuses_open r capacity limits : refuses (open_archive r capacity limits progress).
Proof.
  unfold open_archive. refusal; auto using refuses_read_end, refuses_central, refuses_local.
Qed.

Lemma Open_keeps capacity limits r w : I w ->
  match Open capacity limits progress r w with Some (_, _, w') => I w' | None => True end.
Proof.
  intros Hw. unfold Open. set (r0 := with_open _ _ _ _). pose proof (refuses_open r0 capacity limits w Hw) as Ho.
  destruct (open_archive r0 capacity limits progress w) as [[i|f|] w']; [apply Ho..|done].
Qed.
End refusal.

Lemma Open_strict {W : Type} `{SeekableZipSource W} (archive : bytes) `{!ImmutableSource W archive} capacity limits progress r w :
  Forall is_byte archive -> strict r -> limits_wf limits -> len archive <= UINT64_MAX ->
  match Open capacity limits progress r w with
  | Some (Ok, r', _) => open_ r' = true /\ inventory_ok limits archive (inventory_ r') /\ workspace_ r' = workspace_ r
  | Some (_, r', _) => open_ r' = false
  | None => False
  end.
Proof.
  intros Hbytes Hr Hlimits Hsize. unfold Open. set (r0 := with_open _ _ _ _).
  pose proof (open_archive_yields archive Hbytes r0 capacity limits progress Hr Hlimits Hsize w) as Hy.
  destruct (open_archive r0 capacity limits progress w) as [[i|f|] w'] eqn:E; cbn in Hy; [by split | | done].
  pose proof (refuses_open (fun _ => True) ltac:(done) ltac:(done) progress ltac:(done) r0 capacity limits w I) as Ho.
  rewrite E in Ho. cbn in Ho. destruct (failure_status f), (noted f); naive_solver.
Qed.

Section open_theorem.
Context {W : Type} `{SeekableZipSource W} (archive : bytes) `{!ImmutableSource W archive}.
Hypothesis archive_bytes : Forall is_byte archive.

(** C10. What [Open] accepts, without the leniency of browsing, has no other reading:
    whatever the source's failures, it terminates, and if it answers Ok the archive
    is byte for byte the records of its entries, the central directory with the same
    fields, and one end record, with nothing before, between or behind; all names
    are safe FAT paths, no two of them denote one file, no file is a directory of
    another entry, and sizes, ratios and the total respect the limits.  Otherwise
    the reader stays closed. *)
Theorem Open_strict_sound (capacity : Z) (limits : ZipLimits) (progress : progress_call) (r : ZipReader) (w : W)
    (Hr : strict r) (Hlimits : limits_wf limits) (Hsize : len archive <= UINT64_MAX) :
  match Open capacity limits progress r w with
  | Some (Ok, r', _) => open_ r' = true /\ inventory_ok limits archive (inventory_ r')
  | Some (_, r', _) => open_ r' = false
  | None => False
  end.
Proof.
  pose proof (Open_strict archive capacity limits progress r w archive_bytes Hr Hlimits Hsize) as Ho.
  destruct (Open capacity limits progress r w) as [[[[] r'] w']|]; naive_solver.
Qed.
End open_theorem.

(** ** An archive in memory *)
#[local] Instance fixed_source (a : bytes) : SeekableZipSource unit := {
  SourceSize w := (Some (len a), w);
  SourceReadAt offset amount w :=
    (if (0 <=? offset) && (0 <=? amount) && (offset + amount <=? len a) then Some (sub a offset amount) else None, w);
}.

#[local] Instance fixed_source_immutable (a : bytes) : @ImmutableSource unit (fixed_source a) a.
Proof.
  constructor; [done|]. intros offset amount w. cbn.
  destruct (Z.leb_spec 0 offset), (Z.leb_spec 0 amount), (Z.leb_spec (offset + amount) (len a)); cbn; try done.
  split; [done|]. split; [done|]. by apply sub_length.
Qed.

Definition sample_data : bytes := str "hi".
Definition sample_crc : Z := Z.lxor (UpdateCrc32 UINT32_MAX sample_data) UINT32_MAX.
Definition sample_inventory : ZipInventory :=
  mkInventory [mkEntry (str "d") true Store 0 0 0 0 0 32 0x10 0; mkEntry (str "d/a") false Store 0 sample_crc 2 2 32 65 0 0]
    1 1 186 2 67 97.
Definition sample_archive : bytes :=
  archive_of sample_inventory [mkMember 20 0 []; mkMember 20 0 sample_data] [mkStamp 20 20 0 0; mkStamp 20 20 0 0].

Example sample_archive_opens :
  match @Open unit (fixed_source sample_archive) 4 default_limits None new_reader tt with
  | Some (Ok, r, _) => inventory_ r = sample_inventory
  | _ => False
  end.
Proof. vm_compute. reflexivity. Qed.

(** A trailing byte, or one between the records, is refused. *)
Example trailing_byte_refused :
  match @Open unit (fixed_source (sample_archive ++ [0])) 4 default_limits None new_reader tt with
  | Some (st, _, _) => st = EndRecordInvalid
  | _ => False
  end.
Proof. vm_compute. reflexivity. Qed.

Lemma Open_strict_sound_witness :
  match @Open unit (fixed_source sample_archive) 4 default_limits None new_reader tt with
  | Some (Ok, r', _) => open_ r' = true /\ inventory_ok default_limits sample_archive (inventory_ r')
  | Some (_, r', _) => open_ r' = false
  | None => False
  end.
Proof.
  apply (@Open_strict_sound unit (fixed_source sample_archive) sample_archive (fixed_source_immutable sample_archive)).
  - apply forallb_is_byte. vm_compute. reflexivity.
  - repeat split.
  - repeat split; discriminate.
  - discriminate.
Defined.

(** With the leniency of browsing a NUL hides the rest of a name: "a", NUL, "b" is
    taken for the file "a". *)
Example lenient_name_cut_at_nul :
  match checked_name (W := unit) (SetLenientPaths true new_reader) [97; 0; 98] tt with
  | (Val (name, _), _) => ValidateAndCopyPath name 0 false 240 = inr [97]
  | _ => False
  end /\ ValidateAndCopyPath [97; 0; 98] 0 false 240 = inl PathInvalid.
Proof. vm_compute. split; reflexivity. Qed.
