(* ===== verification/ZipStream.v ===== *)
(** * Streaming a member (zip_reader.cpp)

    A triple for programs over a world, and what [stream_payload] does to sinks that
    obey a contract: it always ends, and on success the bytes handed over have the
    length it reports and the checksum it reports. *)
From S2P Require Import Prelude JsonFields Sha256 ZipFormat ZipReader ZipOpen.
From Stdlib Require Import Ascii.
Local Open Scope Z_scope.

(** ** Triples *)
Section triples.
Context {S W : Type}.

(** From a world of [P] the program ends, with a value in [Q] or a refusal in [R]. *)
Definition triple {A} (P : W -> Prop) (m : prog S W A) (Q : A -> W -> Prop) (R : S -> W -> Prop) : Prop :=
  forall w, P w -> match m w with (Val a, w') => Q a w' | (Stop s, w') => R s w' | (Ub, _) => False end.

Lemma triple_ret {A} P (a : A) (Q : A -> W -> Prop) R : (forall w, P w -> Q a w) -> triple P (zret a) Q R.
Proof. intros HQ w Hw. by apply HQ. Qed.

Lemma triple_bind {A B} P (m : prog S W A) (k : A -> prog S W B) Q R Q' :
  triple P m Q R -> (forall a, triple (Q a) (k a) Q' R) -> triple P (zbind m k) Q' R.
Proof.
  intros Hm Hk w Hw. specialize (Hm w Hw). unfold zbind. destruct (m w) as [[a|s|] w']; [|done..]. by apply Hk.
Qed.

Lemma triple_weaken {A} (P P' : W -> Prop) (m : prog S W A) (Q Q' : A -> W -> Prop) (R R' : S -> W -> Prop) :
  triple P' m Q' R' -> (forall w, P w -> P' w) -> (forall a w, Q' a w -> Q a w) -> (forall s w, R' s w -> R s w) ->
  triple P m Q R.
Proof. intros Hm HP HQ HR w Hw. specialize (Hm w (HP w Hw)). destruct (m w) as [[a|s|] w']; auto. Qed.

Lemma triple_pre {A} (P : W -> Prop) (m : prog S W A) Q R (X : Prop) :
  (forall w, P w -> X) -> (X -> triple P m Q R) -> triple P m Q R.
Proof. intros HX Hm w Hw. by apply Hm; [eapply HX|]. Qed.

Lemma triple_split {A} (X : Prop) (P : W -> Prop) (m : prog S W A) Q R :
  (X -> triple P m Q R) -> triple (fun w => X /\ P w) m Q R.
Proof. intros Hm w [Hx Hw]. by apply Hm. Qed.

Lemma triple_exists {A B} (P : B -> W -> Prop) (m : prog S W A) Q R :
  (forall b, triple (P b) m Q R) -> triple (fun w => exists b, P b w) m Q R.
Proof. intros Hm w [b Hw]. by apply (Hm b). Qed.
End triples.

Section zip_triples.
Context {W : Type}.

Lemma triple_zstop {A} (P : W -> Prop) s (Q : A -> W -> Prop) (R : ZipFailure -> W -> Prop) :
  (forall w, P w -> R (mkFailure s None) w) -> triple P (zstop s) Q R.
Proof. intros HR w Hw. by apply HR. Qed.

Lemma triple_zneed {B} (P : W -> Prop) (b : bool) s (k : unit -> zip W B) Q (R : ZipFailure -> W -> Prop) :
  (forall w, P w -> R (mkFailure s None) w) -> (b = true -> triple P (k tt) Q R) -> triple P (zbind (zneed b s) k) Q R.
Proof. intros HR Hk w Hw. destruct b; [by apply Hk | by apply HR]. Qed.

Lemma triple_zcall {A B} (P : W -> Prop) (call : W -> option A * W) s (k : A -> zip W B) Q (R : ZipFailure -> W -> Prop) (P' : A -> W -> Prop) :
  (forall w, P w -> match call w with (Some a, w') => P' a w' | (None, w') => R (mkFailure s None) w' end) ->
  (forall a, triple (P' a) (k a) Q R) -> triple P (zbind (zcall call s) k) Q R.
Proof.
  intros Hc Hk w Hw. specialize (Hc w Hw). unfold zbind, zcall. destruct (call w) as [[a|] w']; [|done]. by apply Hk.
Qed.

Lemma triple_ztest (P Q : W -> Prop) (R : ZipFailure -> W -> Prop) (call : W -> bool * W) s :
  (forall w, P w -> match call w with (true, w') => Q w' | (false, w') => R (mkFailure s None) w' end) ->
  triple P (ztest call s) (fun _ => Q) R.
Proof. intros Hc w Hw. specialize (Hc w Hw). unfold ztest. by destruct (call w) as [[] w']. Qed.
End zip_triples.

(** ** Inflate *)
(** The documented contract of [tinfl_decompress]: it consumes part of the input,
    fills part of the room, and keeps the size of the dictionary. *)
Class TinflContract {T : Type} (tinfl_decompress : T -> bytes -> bytes -> Z -> Z -> bool -> tinfl_result T) := {
  tinfl_law state input dictionary offset room more :
    let o := tinfl_decompress state input dictionary offset room more in
    0 <= consumed _ o <= len input /\ (0 <= room -> 0 <= output_size _ o <= room) /\
    len (tinfl_dictionary _ o) = len dictionary;
}.

Section payload.
Context {W : Type} `{SeekableZipSource W} `{ZipHashSink W} `{ZipExtractSink W}.
Context {T : Type} (tinfl_init : T).
Context (tinfl_decompress : T -> bytes -> bytes -> Z -> Z -> bool -> tinfl_result T).
Context `{!TinflContract tinfl_decompress}.
Variables (hash_started extraction_started : bool) (progress : @progress_call W).
(** The sinks have got these bytes; something has failed. *)
Variables (started : bytes -> W -> Prop) (failed : ZipFailure -> W -> Prop).
Hypothesis read_keeps : forall d offset amount w, started d w ->
  let '(x, w') := SourceReadAt offset amount w in started d w' /\ forall data, x = Some data -> len data = amount.
Hypothesis emit_adds : forall d data,
  triple (started d) (emit hash_started extraction_started data) (fun _ => started (d ++ data)) failed.
Hypothesis report_keeps : forall d p t, triple (started d) (report progress p t) (fun _ => started d) failed.
Hypothesis may_fail : forall d s, s <> Ok -> forall w, started d w -> failed (mkFailure s None) w.

(** The bytes handed over so far, their number and checksum. *)
Definition payload (x : Z * Z) (w : W) : Prop :=
  exists d, started d w /\ x.1 = len d /\ x.2 = UpdateCrc32 UINT32_MAX d.

Lemma UpdateCrc32_app c a b : UpdateCrc32 c (a ++ b) = UpdateCrc32 (UpdateCrc32 c a) b.
Proof. unfold UpdateCrc32. by rewrite fold_left_app. Qed.

Lemma triple_read {B} d offset amount (k : bytes -> zip W B) Q :
  (forall data, len data = amount -> triple (started d) (k data) Q failed) ->
  triple (started d) (zbind (read_at offset amount) k) Q failed.
Proof.
  intros Hk. eapply (triple_zcall _ _ _ _ _ _ (fun data w => len data = amount /\ started d w)).
  - intros w Hw. pose proof (read_keeps d offset amount w Hw) as Hr. destruct (SourceReadAt offset amount w) as [[x|] w'].
    + destruct Hr as [Hr Hx]. split; [by apply Hx | done].
    + by eapply may_fail, Hr.
  - intros data. apply triple_split. apply Hk.
Qed.

Lemma triple_room {B} d total produced amount (k : unit -> zip W B) Q :
  (produced <= total -> amount <= total - produced -> triple (started d) (k tt) Q failed) ->
  triple (started d) (zbind (room_for total produced amount) k) Q failed.
Proof.
  intros Hk. apply triple_zneed; [by apply may_fail|]. rewrite negb_true_iff, orb_false_iff, !Z.ltb_ge. intros [? ?]. auto.
Qed.

Lemma store_loop_triple total fuel : forall offset remaining d produced crc,
  0 <= remaining -> remaining = 0 \/ remaining / kZipInputBufferBytes < Z.of_nat fuel -> produced = len d ->
  crc = UpdateCrc32 UINT32_MAX d ->
  triple (started d) (store_loop hash_started extraction_started progress total fuel offset remaining produced crc)
    payload failed.
Proof.
  induction fuel as [|fuel IH]; intros offset remaining d produced crc Hr Hf -> ->; cbn [store_loop];
    (destruct (Z.eqb_spec remaining 0); [apply triple_ret; intros w Hw; by exists d|]).
  { exfalso. unfold kZipInputBufferBytes in *. divmod_lia. }
  set (amount := if remaining <? kZipInputBufferBytes then remaining else kZipInputBufferBytes).
  assert (Ha : 0 <= remaining - amount /\
    (remaining - amount = 0 \/ (remaining - amount) / kZipInputBufferBytes < Z.of_nat fuel)).
  { unfold amount, kZipInputBufferBytes in *. destruct (Z.ltb_spec remaining 32768); [lia|]. split; [lia|]. right. divmod_lia. }
  apply triple_read. intros data Hdata. apply triple_room. intros _ _.
  eapply triple_bind; [apply emit_adds|]. intros u1. eapply triple_bind; [apply report_keeps|]. intros u2.
  apply IH; [lia | lia | by rewrite len_app, Hdata | by rewrite UpdateCrc32_app].
Qed.

(** What one turn leaves to do: input not yet read or inflated, room for output. *)
Definition measure (total : Z) (s : InflateState (T := T)) : Z :=
  remaining s + len (unread s) + (total - produced s).

Lemma refill_triple d total s :
  0 <= remaining s ->
  triple (started d) (refill s) (fun s' w => (decompressor s' = decompressor s /\ dictionary s' = dictionary s /\
    dictionary_offset s' = dictionary_offset s /\ produced s' = produced s /\ crc s' = crc s /\
    0 <= remaining s' /\ measure total s' = measure total s /\ (len (unread s') = 0 -> remaining s' = 0)) /\
    started d w) failed.
Proof.
  intros Hr. unfold refill. destruct (_ && _) eqn:E; [|apply triple_ret; intros w Hw; split; [split_and!|]; try done].
  2: { intros Hu. rewrite Hu in E. cbn in E. by apply negb_false_iff, Z.eqb_eq in E. }
  apply andb_true_iff in E as [Eu%Z.eqb_eq En%negb_true_iff%Z.eqb_neq].
  set (n := if remaining s <? kZipInputBufferBytes then remaining s else kZipInputBufferBytes).
  assert (0 < n <= remaining s).
  { unfold n, kZipInputBufferBytes. destruct (Z.ltb_spec (remaining s) 32768); lia. }
  apply triple_read. intros data Hdata. apply triple_ret. intros w Hw. split; [|done]. unfold measure. cbn. split_and!; try done; lia.
Qed.

Record turn_state (d : bytes) (s : InflateState (T := T)) : Prop := {
  t_remaining : 0 <= remaining s;
  t_dictionary : len (dictionary s) = kZipInflateDictionaryBytes;
  t_offset : 0 <= dictionary_offset s < kZipInflateDictionaryBytes;
  t_produced : produced s = len d;
  t_crc : crc s = UpdateCrc32 UINT32_MAX d;
}.

Lemma take_output_triple d total s o : turn_state d s ->
  0 <= consumed _ o <= len (unread s) -> 0 <= output_size _ o <= kZipInflateDictionaryBytes - dictionary_offset s ->
  len (tinfl_dictionary _ o) = len (dictionary s) ->
  triple (started d) (take_output hash_started extraction_started progress total s o)
    (fun s' w => exists d', (turn_state d' s' /\
       measure total s' = measure total s - consumed _ o - output_size _ o /\
       produced s' = produced s + output_size _ o /\ remaining s' = remaining s /\
       len (unread s') = len (unread s) - consumed _ o) /\ started d' w) failed.
Proof.
  intros [Hr Hd Ho Hp Hc] Hcons Hout Hdict. unfold take_output.
  assert (Hun : len (drop (Z.to_nat (consumed _ o)) (unread s)) = len (unread s) - consumed _ o).
  { unfold len in *. rewrite length_drop. lia. }
  destruct (Z.eqb_spec (output_size _ o) 0) as [E|E].
  - apply triple_ret. intros w Hw. exists d. split; [|done]. unfold measure. cbn. rewrite Hun, E.
    split; [constructor; cbn; try done; lia | split_and!; try done; lia].
  - eapply triple_bind; [apply emit_adds|]. intros u1. eapply triple_bind; [apply report_keeps|]. intros u2.
    apply triple_ret. intros w Hw. eexists. split; [|exact Hw]. unfold measure. cbn. rewrite Hun.
    assert (Hs : len (sub (tinfl_dictionary _ o) (dictionary_offset s) (output_size _ o)) = output_size _ o)
      by (apply sub_length; lia).
    split; [|split_and!; try done; lia]. constructor; cbn; [done | lia | | rewrite len_app; lia | by rewrite UpdateCrc32_app, Hc].
    unfold kZipInflateDictionaryBytes. change (32768 - 1) with (Z.ones 15). rewrite Z.land_ones by lia.
    apply Z.mod_pos_bound. lia.
Qed.

Lemma inflate_loop_triple total fuel : forall s d, turn_state d s -> measure total s < Z.of_nat fuel ->
  produced s <= total ->
  triple (started d) (inflate_loop tinfl_decompress hash_started extraction_started progress total fuel s) payload failed.
Proof.
  induction fuel as [|fuel IH]; intros s d Hs Hm Hp.
  { exfalso. destruct Hs. unfold measure in Hm. len_facts. lia. }
  cbn [inflate_loop]. eapply triple_bind; [apply (refill_triple d total), Hs|]. intros s1.
  apply triple_split. intros (E1 & E2 & E3 & E4 & E5 & Hr & Hm1 & Hempty).
  assert (Hs1 : turn_state d s1) by (destruct Hs; constructor; congruence).
  set (o := tinfl_decompress _ _ _ _ _ _).
  pose proof (tinfl_law (decompressor s1) (unread s1) (dictionary s1) (dictionary_offset s1)
    (kZipInflateDictionaryBytes - dictionary_offset s1) (negb (remaining s1 =? 0))) as Hl. fold o in Hl.
  cbv zeta in Hl. destruct Hl as (Hcons & Hout & Hdict). destruct (t_offset _ _ Hs1) as [Ho1 Ho2].
  specialize (Hout ltac:(lia)).
  apply triple_room. intros Hroom1 Hroom2.
  eapply triple_bind; [by apply (take_output_triple d total s1 o)|]. intros s2. apply triple_exists. intros d2.
  apply triple_split. intros (Hs2 & Hm2 & Hp2 & Hr2 & Hu2).
  destruct (Z.ltb_spec (tinfl_status _ o) TINFL_STATUS_DONE); [by apply triple_zstop, may_fail|].
  destruct (Z.eqb_spec (tinfl_status _ o) TINFL_STATUS_DONE).
  { destruct (_ || _); [by apply triple_zstop, may_fail|]. apply triple_ret. intros w Hw. exists d2.
    by destruct Hs2. }
  destruct ((consumed _ o =? 0) && (output_size _ o =? 0)) eqn:Ez.
  { apply andb_true_iff in Ez as [Ec%Z.eqb_eq Eo%Z.eqb_eq].
    destruct (_ && _) eqn:Ee; [|by apply triple_zstop, may_fail]. exfalso.
    apply andb_true_iff in Ee as [Eu%Z.eqb_eq En%negb_true_iff%Z.eqb_neq]. rewrite Hr2 in En. apply En, Hempty. lia. }
  case_match; [by apply triple_zstop, may_fail|]. apply IH; [done | | lia].
  apply andb_false_iff in Ez. rewrite !Z.eqb_neq in Ez. lia.
Qed.

(** What the loops hand over, for either method. *)
Lemma stream_payload_triple e : 0 <= compressed_size e -> 0 <= size e ->
  triple (started []) (stream_payload tinfl_init tinfl_decompress hash_started extraction_started progress e)
    payload failed.
Proof.
  intros Hc Hs. unfold stream_payload. destruct (compression e).
  - apply store_loop_triple; [done | right; rewrite Z2Nat.id; [lia|] | done..].
    assert (0 <= compressed_size e / kZipInputBufferBytes) by (apply Z.div_pos; [done | reflexivity]). lia.
  - apply inflate_loop_triple; [constructor; cbn; try done; lia | unfold measure; cbn [remaining unread produced] | cbn; lia].
    change (len (@nil Z)) with 0. lia.
Qed.
End payload.

(** ** The expected inventory *)
Section inventory.
Context {W : Type} `{SeekableZipSource W} (P : W -> Prop) (r : ZipReader).

(** An expected file is an entry of the size that is expected. *)
Definition matched (wanted : ZipExpectedFile) : Prop :=
  exists p e, expected_path wanted = Some p /\ FindFileEntry r p = Some e /\ size e = expected_size wanted.
Definition rejected (f : ZipFailure) (w : W) : Prop := failure_status f <> Ok /\ P w.

Lemma verify_files_triple rest : forall total index earlier b,
  triple P (verify_files r None total index earlier rest b) (fun _ w => Forall matched rest /\ P w) rejected.
Proof.
  induction rest as [|wanted rest IH]; intros total index earlier b; cbn [verify_files].
  - apply triple_ret. intros w Hw. split; [constructor | done].
  - destruct (expected_path wanted) as [[|c p]|] eqn:Ep; [by apply triple_zstop| |by apply triple_zstop].
    apply triple_zneed; [done|]. intros _. destruct (FindFileEntry r (c :: p)) as [e|] eqn:Ee; [|intros w Hw; by split].
    change (triple P (zneed ((size e =? expected_size wanted) && bool_decide (compression e = expected_compression wanted))
      InventoryMismatch ;? report None (index + 1) total ;?
      verify_files r None total (index + 1) (earlier ++ [wanted]) rest (b || bool_decide (is_Some (expected_sha256 wanted))))%zip
      (fun _ w => Forall matched (wanted :: rest) /\ P w) rejected).
    apply triple_zneed; [done|]. intros [Hs%Z.eqb_eq _]%andb_true_iff.
    eapply triple_weaken; [apply IH | done | | done]. intros u w [Hf Hw]. split; [|done]. constructor; [|done].
    by exists (c :: p), e.
Qed.

Lemma verify_directories_triple rest : forall earlier,
  triple P (verify_directories r earlier rest) (fun _ => P) rejected.
Proof.
  induction rest as [|[[|c p]|] rest IH]; intros earlier; cbn [verify_directories]; [by apply triple_ret | by apply triple_zstop| |by apply triple_zstop].
  do 2 (apply triple_zneed; [done|]; intros _). apply IH.
Qed.

Lemma VerifyExpectedInventory_triple expected :
  triple P (VerifyExpectedInventory r expected None) (fun _ w => Forall matched (expected_files expected) /\ P w) rejected.
Proof.
  unfold VerifyExpectedInventory. do 2 (apply triple_zneed; [done|]; intros _).
  eapply triple_bind; [apply verify_files_triple|]. intros b. apply triple_split. intros Hm.
  eapply triple_bind; [apply verify_directories_triple|]. intros u. by apply triple_ret.
Qed.
End inventory.
