(* ===== verification/SimpleUpdateInstaller.v ===== *)
(** * The update installer (src/src/update/simple_update_installer.cpp)

    The installer compares the volume with the signed manifest, then replaces the
    changed files one by one from the archive, removes what the manifest deletes,
    and writes the build identity last.  The volume is the interface of
    UpdateFileSystem.v, the archive that of ZipReader.v; a progress object is an
    interface too (a null pointer is the one that always agrees). *)
From S2P Require Import Prelude FatPathPolicy JsonFields Sha256 UpdateFileSystem ZipFormat ZipReader ReleaseManifest.
From Stdlib Require Import Ascii.
Local Open Scope Z_scope.
Local Open Scope zip_scope.

Definition kSimpleUpdateMinimumVolumeBytes : Z := 512 * 1024 * 1024.
Definition kSimpleUpdateSafetyReserveBytes : Z := 16 * 1024 * 1024.
Definition kSimpleUpdateTemporaryPath : bytes := str "BMX-UPD.TMP".

Inductive SimpleUpdatePhase := PhaseHash | PhaseInstall.

Class SimpleUpdateProgress (P : Type) := { Report : SimpleUpdatePhase -> Z -> Z -> P -> bool * P }.

Inductive SimpleUpdateStatus :=
| Ok | InvalidArgument | ReservedPathCollision | ZipInvalid | FileSystemError | VolumeTooSmall
| InsufficientSpace | Canceled | ExtractFailed | PublishFailed.

#[export] Instance SimpleUpdateStatus_eq_dec : EqDecision SimpleUpdateStatus.
Proof. solve_decision. Defined.

(** The capacities of the caller's arrays and the size of the buffer; a null pointer
    is a capacity of 0. *)
Record SimpleUpdateWorkspace := mkWorkspace {
  zip_entry_capacity : Z;
  expected_file_capacity : Z;
  expected_directory_capacity : Z;
  file_action_capacity : Z;
  io_buffer_size : Z;
}.

Record SimpleUpdateResult := mkUpdateResult {
  status : SimpleUpdateStatus;
  zip_status : ZipStatus;
  changed_file_count : Z;
  unchanged_file_count : Z;
  preserved_file_count : Z;
  deleted_file_count : Z;
  changed_bytes : Z;
  required_free_bytes : Z;
  available_free_bytes : Z;
}.

Inductive FileAction := InstallFile | KeepUnchanged | PreserveExisting.

#[export] Instance FileAction_eq_dec : EqDecision FileAction.
Proof. solve_decision. Defined.

(** ** Paths and arithmetic *)
Definition AddWithoutOverflow (left right : Z) : option Z :=
  if UINT64_MAX - left <? right then None else Some (left + right).

Fixpoint FatPathEqual (left right : bytes) : bool :=
  match left, right with
  | a :: left', b :: right' => if AsciiLower a =? AsciiLower b then FatPathEqual left' right' else false
  | [], [] => true
  | _, _ => false
  end.

Definition IsReservedPath (path : bytes) : bool :=
  FatPathEqual path kSimpleUpdateTemporaryPath || FatPathEqual path (str "BMX-UPD.ZIP") ||
  FatPathEqual path (str "BMX-UPD.ZIP.part").

Definition HasManagedReplacement (manifest : ReleaseManifest) (path : bytes) : bool :=
  existsb (fun file => FatPathEqual (file_path file) path &&
                       (bool_decide (file_policy file = Kernel) || bool_decide (file_policy file = ManagedReplace)))
    (asset_files (asset manifest)).

Definition IsBuildIdentity (file : ManifestFile) : bool :=
  bool_decide (file_policy file = Metadata) && FatPathEqual (file_path file) (str "BMX-BUILD.json").

Definition InstallPass (file : ManifestFile) : Z :=
  if IsBuildIdentity file then 3
  else match file_policy file with Kernel => 1 | ConfigTemplate => 2 | _ => 0 end.

Definition WorkspaceValid (workspace : SimpleUpdateWorkspace) (manifest : ReleaseManifest) : bool :=
  negb (zip_entry_capacity workspace =? 0) &&
  (len (asset_files (asset manifest)) <=? expected_file_capacity workspace) &&
  (len (directories (asset manifest)) <=? expected_directory_capacity workspace) &&
  (len (asset_files (asset manifest)) <=? file_action_capacity workspace) &&
  negb (io_buffer_size workspace =? 0).

Definition Result (st : SimpleUpdateStatus) : SimpleUpdateResult := mkUpdateResult st ZipFormat.Ok 0 0 0 0 0 0 0.

Definition zip_compression (c : ManifestCompression) : ZipCompression :=
  match c with ReleaseManifest.Store => ZipFormat.Store | ReleaseManifest.Deflate => ZipFormat.Deflate end.

Definition BuildExpectedInventory (manifest : ReleaseManifest) : ZipExpectedInventory :=
  mkExpectedInventory
    ((fun f => mkExpected (Some (file_path f)) (file_size f) (zip_compression (file_compression f))
                 (Some (file_sha256 f))) <$> asset_files (asset manifest))
    (Some <$> directories (asset manifest)).

(** ** The sinks *)
Record SingleFileExtractSink := mkSink {
  expected_path_ : bytes;
  file_ : option nat;
  stage_base_ : Z;
  stage_total_ : Z;
  written_ : Z;
  active_ : bool;
}.
Definition new_sink (path : bytes) (stage_base stage_total : Z) : SingleFileExtractSink :=
  mkSink path None stage_base stage_total 0 false.

Record SimpleZipHashSink := mkHashSink {
  hash_ : Sha256;
  expected_size_ : Z;
  received_size_ : Z;
  hash_active_ : bool;
}.
Definition new_hash_sink : SimpleZipHashSink := mkHashSink Reset 0 0 false.

(** What an installation works on: the volume, the archive, the sinks, the progress. *)
Record World (F S P : Type) := mkWorld {
  disk : F;
  source : S;
  sink : SingleFileExtractSink;
  hash_sink : SimpleZipHashSink;
  progress : P;
}.
Arguments mkWorld {F S P}.
Arguments disk {F S P}.
Arguments source {F S P}.
Arguments sink {F S P}.
Arguments hash_sink {F S P}.
Arguments progress {F S P}.

Section world.
Context {F S P : Type} `{UpdateFileSystem F} `{SeekableZipSource S} `{SimpleUpdateProgress P}.
Notation World := (World F S P).

Definition with_disk (s : F) (w : World) : World := mkWorld s (source w) (sink w) (hash_sink w) (progress w).
Definition with_sink (k : SingleFileExtractSink) (w : World) : World :=
  mkWorld (disk w) (source w) k (hash_sink w) (progress w).
Definition with_hash (h : SimpleZipHashSink) (w : World) : World :=
  mkWorld (disk w) (source w) (sink w) h (progress w).

(** A call of the file system, of the progress object. *)
Definition on_disk {A} (call : F -> A * F) (w : World) : A * World :=
  let '(a, s) := call (disk w) in (a, with_disk s w).
Definition report_to (phase : SimpleUpdatePhase) (completed total : Z) (w : World) : bool * World :=
  let '(ok, p) := Report phase completed total (progress w) in
  (ok, mkWorld (disk w) (source w) (sink w) (hash_sink w) p).

#[export] Instance world_source : SeekableZipSource World := {
  SourceSize w := let '(n, s) := SourceSize (source w) in (n, mkWorld (disk w) s (sink w) (hash_sink w) (progress w));
  SourceReadAt offset amount w :=
    let '(d, s) := SourceReadAt offset amount (source w) in
    (d, mkWorld (disk w) s (sink w) (hash_sink w) (progress w));
}.

(** *** SimpleZipHashSink *)
#[export] Instance world_hash_sink : ZipHashSink World := {
  BeginFile _ size w :=
    if hash_active_ (hash_sink w) then (false, w)
    else (true, with_hash (mkHashSink Reset size 0 true) w);
  UpdateFile data w :=
    let h := hash_sink w in
    if negb (hash_active_ h) || (expected_size_ h - received_size_ h <? len data) then (false, w)
    else
      let '(ok, sha) := Update (hash_ h) data in
      if ok then (true, with_hash (mkHashSink sha (expected_size_ h) (received_size_ h + len data) true) w)
      else (false, with_hash (mkHashSink sha (expected_size_ h) (received_size_ h) true) w);
  FinishFile w :=
    let h := hash_sink w in
    if negb (hash_active_ h) || negb (received_size_ h =? expected_size_ h)
    then (None, with_hash (mkHashSink (hash_ h) (expected_size_ h) (received_size_ h) false) w)
    else
      let '(digest, sha) := Final (hash_ h) in
      (digest, with_hash (mkHashSink sha (expected_size_ h) (received_size_ h) false) w);
  AbortFile w :=
    let h := hash_sink w in with_hash (mkHashSink (hash_ h) (expected_size_ h) (received_size_ h) false) w;
}.

(** *** SingleFileExtractSink *)
Definition set_file (h : option nat) (active : bool) (k : SingleFileExtractSink) : SingleFileExtractSink :=
  mkSink (expected_path_ k) h (stage_base_ k) (stage_total_ k) (written_ k) active.
Definition set_written (n : Z) (k : SingleFileExtractSink) : SingleFileExtractSink :=
  mkSink (expected_path_ k) (file_ k) (stage_base_ k) (stage_total_ k) n (active_ k).

Definition BeginExtract (entry : ZipEntry) (w : World) : bool * World :=
  let k := sink w in
  if active_ k || is_directory entry || negb (bytes_eqb (path entry) (expected_path_ k)) then (false, w)
  else
    let '(removed, w) := on_disk (RemoveFile kSimpleUpdateTemporaryPath) w in
    if negb removed then (false, w)
    else
      let '(created, h, s) := CreateFileFresh kSimpleUpdateTemporaryPath (disk w) in
      let w := with_sink (set_file h false k) (with_disk s w) in
      match created, h with
      | true, Some _ => (true, with_sink (set_written 0 (set_file h true k)) w)
      | _, _ => (false, w)
      end.

Definition WriteExtract (data : bytes) (w : World) : bool * World :=
  let k := sink w in
  match active_ k, file_ k with
  | true, Some h =>
      let '(ok, w) := on_disk (WriteFile h data) w in
      if negb ok then (false, w)
      else
        let written := written_ k + len data in
        report_to PhaseInstall (stage_base_ k + written) (stage_total_ k) (with_sink (set_written written k) w)
  | _, _ => (false, w)
  end.

Definition CommitExtract (entry : ZipEntry) (w : World) : bool * World :=
  let k := sink w in
  match active_ k, file_ k with
  | true, Some h =>
      if negb (bytes_eqb (path entry) (expected_path_ k)) then (false, w)
      else
        let '(synced, w) := on_disk (SyncFile h) w in
        let '(closed, w) := on_disk (CloseWrite h) w in
        let w := with_sink (set_file None false k) w in
        let '(stored, w) :=
          if synced && closed then
            let '(renamed, w) := on_disk (Rename kSimpleUpdateTemporaryPath (expected_path_ k) true) w in
            if renamed then on_disk (SyncContainingDirectory (expected_path_ k)) w else (false, w)
          else (false, w) in
        if negb stored then
          let '(_, w) := on_disk (RemoveFile kSimpleUpdateTemporaryPath) w in (false, w)
        else report_to PhaseInstall (stage_base_ k + written_ k) (stage_total_ k) w
  | _, _ => (false, w)
  end.

Definition AbortExtract (_ : ZipEntry) (w : World) : World :=
  let k := sink w in
  let w := match file_ k with Some h => snd (on_disk (CloseWrite h) w) | None => w end in
  let w := with_sink (set_file None false k) w in
  snd (on_disk (RemoveFile kSimpleUpdateTemporaryPath) w).

#[export] Instance world_extract_sink : ZipExtractSink World := {
  BeginEntry := BeginExtract;
  WriteEntry := WriteExtract;
  CommitEntry := CommitExtract;
  AbortEntry := AbortExtract;
}.

(** ** Operations on the volume *)
(** Whether it succeeded, and whether a file has been removed. *)
Definition RemoveSignedFile (path : bytes) (w : World) : bool * bool * World :=
  match on_disk (Stat path) w with
  | (None, w) => (false, false, w)
  | (Some stat, w) =>
      match node_type stat with
      | Missing => (true, false, w)
      | RegularFile =>
          let '(removed, w) := on_disk (RemoveFile path) w in
          if negb removed then (false, false, w)
          else let '(synced, w) := on_disk (SyncContainingDirectory path) w in (synced, synced, w)
      | _ => (false, false, w)
      end
  end.

(** The last constructor is an exhausted fuel. *)
Inductive HashTargetStatus := HashTargetOk (digest : bytes) | HashTargetCanceled | HashTargetFailed | HashTargetUb.

Inductive HashLoopStatus := LoopDone (hash : Sha256) | LoopCanceled | LoopFailed | LoopUb.

(** The loop over the file; a turn reads at least one byte. *)
Fixpoint hash_target_loop (fuel : nat) (file : nat) (expected_size buffer_size progress_base progress_total offset : Z)
    (hash : Sha256) (w : World) : HashLoopStatus * World :=
  if offset <? expected_size then
    match fuel with
    | O => (LoopUb, w)
    | Datatypes.S fuel' =>
        let amount := if expected_size - offset <? buffer_size then expected_size - offset else buffer_size in
        match on_disk (ReadAt file offset amount) w with
        | (None, w) => (LoopFailed, w)
        | (Some data, w) =>
            match Update hash data with
            | (false, _) => (LoopFailed, w)
            | (true, hash) =>
                let offset := offset + amount in
                let '(ok, w) := report_to PhaseHash (progress_base + offset) progress_total w in
                if negb ok then (LoopCanceled, w)
                else hash_target_loop fuel' file expected_size buffer_size progress_base progress_total offset hash w
            end
        end
    end
  else (LoopDone hash, w).

Definition HashTarget (path : bytes) (expected_size buffer_size progress_base progress_total : Z) (w : World)
    : HashTargetStatus * World :=
  let '(opened, file, s) := OpenRead path (disk w) in
  let w := with_disk s w in
  match opened, file with
  | true, Some file =>
      match on_disk (GetSize file) w with
      | (Some actual_size, w) =>
          if negb (actual_size =? expected_size) then (HashTargetFailed, snd (on_disk (CloseRead file) w))
          else
            match hash_target_loop (Z.to_nat expected_size) file expected_size buffer_size progress_base progress_total
                    0 Reset w with
            | (LoopCanceled, w) => (HashTargetCanceled, snd (on_disk (CloseRead file) w))
            | (LoopFailed, w) => (HashTargetFailed, snd (on_disk (CloseRead file) w))
            | (LoopUb, w) => (HashTargetUb, w)
            | (LoopDone hash, w) =>
                let '(closed, w) := on_disk (CloseRead file) w in
                if negb closed then (HashTargetFailed, w)
                else match (Final hash).1 with
                     | Some digest => (HashTargetOk digest, w)
                     | None => (HashTargetFailed, w)
                     end
            end
      | (None, w) => (HashTargetFailed, snd (on_disk (CloseRead file) w))
      end
  | _, _ => (HashTargetFailed, w)
  end.

(** ** Install *)
Context {T : Type} (tinfl_init : T).
Context (tinfl_decompress : T -> bytes -> bytes -> Z -> Z -> bool -> tinfl_result T).

(** What the steps of an installation share. *)
Record Run := mkRun { result : SimpleUpdateResult; reader : ZipReader; world : World }.
Definition inst (A : Type) : Type := prog SimpleUpdateStatus Run A.

Definition with_result (f : SimpleUpdateResult -> SimpleUpdateResult) (x : Run) : Run :=
  mkRun (f (result x)) (reader x) (world x).
Definition with_world (w : World) (x : Run) : Run := mkRun (result x) (reader x) w.

Definition istop {A} (st : SimpleUpdateStatus) : inst A := fun x => (Stop st, x).
Definition ineed (b : bool) (st : SimpleUpdateStatus) : inst unit := if b then zret tt else istop st.
Definition isome {A} (o : option A) (st : SimpleUpdateStatus) : inst A :=
  match o with Some a => zret a | None => istop st end.
Definition update (f : SimpleUpdateResult -> SimpleUpdateResult) : inst unit := fun x => (Val tt, with_result f x).
(** A call on the world that answers with a flag, or with an optional value. *)
Definition itest (call : World -> bool * World) (st : SimpleUpdateStatus) : inst unit :=
  fun x => let '(ok, w) := call (world x) in (if ok then Val tt else Stop st, with_world w x).
Definition icall {A} (call : World -> option A * World) (st : SimpleUpdateStatus) : inst A :=
  fun x => let '(a, w) := call (world x) in
           (match a with Some a => Val a | None => Stop st end, with_world w x).
(** A call of the reader: its status is stored, and anything but Ok ends with [st]. *)
Definition izip (call : ZipReader -> World -> option (ZipStatus * ZipReader * World)) (st : SimpleUpdateStatus)
    (cleanup : World -> World) : inst unit :=
  fun x =>
    match call (reader x) (world x) with
    | None => (Ub, x)
    | Some (zs, r, w) =>
        let f u := mkUpdateResult (status u) zs (changed_file_count u) (unchanged_file_count u)
                     (preserved_file_count u) (deleted_file_count u) (changed_bytes u) (required_free_bytes u)
                     (available_free_bytes u) in
        if bool_decide (zs = ZipFormat.Ok) then (Val tt, mkRun (f (result x)) r w)
        else (Stop st, mkRun (f (result x)) r (cleanup w))
    end.

Definition count_preserved (u : SimpleUpdateResult) : SimpleUpdateResult :=
  mkUpdateResult (status u) (zip_status u) (changed_file_count u) (unchanged_file_count u)
    (preserved_file_count u + 1) (deleted_file_count u) (changed_bytes u) (required_free_bytes u) (available_free_bytes u).
Definition count_unchanged (u : SimpleUpdateResult) : SimpleUpdateResult :=
  mkUpdateResult (status u) (zip_status u) (changed_file_count u) (unchanged_file_count u + 1)
    (preserved_file_count u) (deleted_file_count u) (changed_bytes u) (required_free_bytes u) (available_free_bytes u).
Definition count_changed (u : SimpleUpdateResult) : SimpleUpdateResult :=
  mkUpdateResult (status u) (zip_status u) (changed_file_count u + 1) (unchanged_file_count u)
    (preserved_file_count u) (deleted_file_count u) (changed_bytes u) (required_free_bytes u) (available_free_bytes u).
Definition set_changed (total : Z) (u : SimpleUpdateResult) : SimpleUpdateResult :=
  mkUpdateResult (status u) (zip_status u) (changed_file_count u) (unchanged_file_count u)
    (preserved_file_count u) (deleted_file_count u) total (required_free_bytes u) (available_free_bytes u).
Definition count_deleted (u : SimpleUpdateResult) : SimpleUpdateResult :=
  mkUpdateResult (status u) (zip_status u) (changed_file_count u) (unchanged_file_count u)
    (preserved_file_count u) (deleted_file_count u + 1) (changed_bytes u) (required_free_bytes u) (available_free_bytes u).
Definition set_space (required available : Z) (u : SimpleUpdateResult) : SimpleUpdateResult :=
  mkUpdateResult (status u) (zip_status u) (changed_file_count u) (unchanged_file_count u)
    (preserved_file_count u) (deleted_file_count u) (changed_bytes u) required available.
Definition get_changed_bytes : inst Z := fun x => (Val (changed_bytes (result x)), x).

(** *** Before the volume is touched *)
(** The loop over the files: the total to hash, and how many build identities there are. *)
Fixpoint check_files (files : list ManifestFile) (hash_total identities : Z) : inst (Z * Z) :=
  match files with
  | [] => zret (hash_total, identities)
  | file :: files' =>
      ineed (negb (IsReservedPath (file_path file))) ReservedPathCollision ;?
      read! total := isome (AddWithoutOverflow hash_total (file_size file)) InvalidArgument in
      check_files files' total (identities + (if IsBuildIdentity file then 1 else 0))
  end.

Fixpoint check_deletions (manifest : ReleaseManifest) (deletions : list bytes) : inst unit :=
  match deletions with
  | [] => zret tt
  | path :: deletions' =>
      ineed (negb (IsReservedPath path)) ReservedPathCollision ;?
      ineed (negb (existsb (fun file => FatPathEqual path (file_path file)) (asset_files (asset manifest))))
        InvalidArgument ;?
      check_deletions manifest deletions'
  end.

Fixpoint check_replacements (manifest : ReleaseManifest) (replacements : list ManifestReplacement) : inst unit :=
  match replacements with
  | [] => zret tt
  | r :: replacements' =>
      ineed (negb (IsReservedPath (replaced_path r) || FatPathEqual (replaced_path r) (replaced_by r) ||
                   negb (HasManagedReplacement manifest (replaced_by r)))) ReservedPathCollision ;?
      ineed (negb (existsb (fun file => FatPathEqual (replaced_path r) (file_path file)) (asset_files (asset manifest))))
        InvalidArgument ;?
      check_replacements manifest replacements'
  end.

(** The action for one file, given what is on the volume. *)
Definition choose_action (item : ManifestFile) (reset_configuration : bool) (buffer_size hashed hash_total : Z)
    : inst FileAction :=
  read! stat := icall (on_disk (Stat (file_path item))) FileSystemError in
  let type := node_type stat in
  ineed (bool_decide (type = Missing) || bool_decide (type = RegularFile)) FileSystemError ;?
  let preserve := bool_decide (file_policy item = Preserve) ||
                  (bool_decide (file_policy item = ConfigTemplate) && negb reset_configuration) in
  if preserve && bool_decide (type = RegularFile) then update count_preserved ;? zret PreserveExisting
  else if bool_decide (type = RegularFile) && (node_size stat =? file_size item) then
    read! digest := (fun x =>
        match HashTarget (file_path item) (file_size item) buffer_size hashed hash_total (world x) with
        | (HashTargetOk digest, w) => (Val digest, with_world w x)
        | (HashTargetCanceled, w) => (Stop Canceled, with_world w x)
        | (HashTargetFailed, w) => (Stop FileSystemError, with_world w x)
        | (HashTargetUb, w) => (Ub, with_world w x)
        end) in
    if ConstantTimeDigestEqual digest (file_sha256 item) then update count_unchanged ;? zret KeepUnchanged
    else zret InstallFile
  else zret InstallFile.

(** The loop over the files: their actions, and the largest file to install. *)
Fixpoint choose_actions (items : list ManifestFile) (reset_configuration : bool)
    (buffer_size hash_total hashed largest_changed : Z) : inst (list FileAction * Z) :=
  match items with
  | [] => zret ([], largest_changed)
  | item :: items' =>
      read! action := choose_action item reset_configuration buffer_size hashed hash_total in
      read! largest_changed :=
        (if bool_decide (action = InstallFile) then
           update count_changed ;?
           read! changed := get_changed_bytes in
           read! total := isome (AddWithoutOverflow changed (file_size item)) InvalidArgument in
           update (set_changed total) ;?
           zret (if largest_changed <? file_size item then file_size item else largest_changed)
         else zret largest_changed) in
      read! hashed := isome (AddWithoutOverflow hashed (file_size item)) Canceled in
      itest (report_to PhaseHash hashed hash_total) Canceled ;?
      read! rest := choose_actions items' reset_configuration buffer_size hash_total hashed largest_changed in
      zret (action :: rest.1, rest.2)
  end.

(** *** Changing the volume *)
Fixpoint create_directories (paths : list bytes) : inst unit :=
  match paths with
  | [] => zret tt
  | p :: paths' => itest (on_disk (CreateDirectory p)) FileSystemError ;? create_directories paths'
  end.

(** Extracting the files of one pass: the bytes installed so far. *)
Fixpoint install_pass (pass stage_total : Z) (expected : ZipExpectedInventory)
    (items : list (ManifestFile * FileAction)) (installed : Z) : inst Z :=
  match items with
  | [] => zret installed
  | (item, action) :: items' =>
      if negb (InstallPass item =? pass) || negb (bool_decide (action = InstallFile))
      then install_pass pass stage_total expected items' installed
      else
        izip (fun r w => ExtractOne tinfl_init tinfl_decompress (file_path item) expected true r
                           (with_sink (new_sink (file_path item) installed stage_total) w))
          ExtractFailed (fun w => snd (on_disk (RemoveFile kSimpleUpdateTemporaryPath) w)) ;?
        install_pass pass stage_total expected items' (installed + file_size item)
  end.

Fixpoint remove_files (paths : list bytes) : inst unit :=
  match paths with
  | [] => zret tt
  | p :: paths' =>
      (fun x => let '(ok, removed, w) := RemoveSignedFile p (world x) in
                let x := with_world w x in
                (if ok then Val tt else Stop PublishFailed,
                 if removed then with_result count_deleted x else x)) ;?
      remove_files paths'
  end.

Definition install_body (manifest : ReleaseManifest) (reset_configuration archive_bytes_authenticated : bool)
    (workspace : SimpleUpdateWorkspace) : inst unit :=
  let files := asset_files (asset manifest) in
  ineed (archive_bytes_authenticated && negb (len files =? 0) &&
         negb (configuration_reset_required (asset manifest) && negb reset_configuration) &&
         WorkspaceValid workspace manifest) InvalidArgument ;?
  read! totals := check_files files 0 0 in
  let hash_total := totals.1 in
  ineed (totals.2 =? 1) InvalidArgument ;?
  check_deletions manifest (deletions (asset manifest)) ;?
  check_replacements manifest (replacements (asset manifest)) ;?
  let expected := BuildExpectedInventory manifest in
  izip (fun r w => Open (zip_entry_capacity workspace) default_limits None (SetWorkspace true r) w) ZipInvalid id ;?
  izip (BindAuthenticatedInventory expected) ZipInvalid id ;?
  read! volume_size := icall (on_disk GetVolumeSize) FileSystemError in
  ineed (negb (volume_size <? kSimpleUpdateMinimumVolumeBytes)) VolumeTooSmall ;?
  itest (report_to PhaseHash 0 hash_total) Canceled ;?
  read! chosen := choose_actions files reset_configuration (io_buffer_size workspace) hash_total 0 0 in
  read! required := isome (AddWithoutOverflow chosen.2 kSimpleUpdateSafetyReserveBytes) FileSystemError in
  update (set_space required 0) ;?
  read! available := icall (on_disk GetFreeSpace) FileSystemError in
  update (set_space required available) ;?
  ineed (negb (available <? required)) InsufficientSpace ;?
  itest (on_disk (RemoveFile kSimpleUpdateTemporaryPath)) FileSystemError ;?
  create_directories (directories (asset manifest)) ;?
  read! changed := get_changed_bytes in
  let stage_total := if changed =? 0 then 1 else changed in
  itest (report_to PhaseInstall 0 stage_total) PublishFailed ;?
  let items := combine files chosen.1 in
  read! installed := install_pass 0 stage_total expected items 0 in
  read! installed := install_pass 1 stage_total expected items installed in
  read! installed := install_pass 2 stage_total expected items installed in
  remove_files (deletions (asset manifest)) ;?
  remove_files (replaced_path <$> replacements (asset manifest)) ;?
  read! installed := install_pass 3 stage_total expected items installed in
  itest (on_disk (RemoveFile kSimpleUpdateTemporaryPath)) PublishFailed ;?
  itest (report_to PhaseInstall stage_total stage_total) PublishFailed.

(** The result, and the volume, archive and progress afterwards; [None] is an
    exhausted fuel. *)
Definition Install (manifest : ReleaseManifest) (reset_configuration archive_bytes_authenticated : bool)
    (workspace : SimpleUpdateWorkspace) (s : F) (archive : S) (p : P) : option (SimpleUpdateResult * World) :=
  let x := mkRun (Result InvalidArgument) new_reader (mkWorld s archive (new_sink [] 0 0) new_hash_sink p) in
  let set st u := mkUpdateResult st (zip_status u) (changed_file_count u) (unchanged_file_count u)
                    (preserved_file_count u) (deleted_file_count u) (changed_bytes u) (required_free_bytes u)
                    (available_free_bytes u) in
  match install_body manifest reset_configuration archive_bytes_authenticated workspace x with
  | (Val _, x) => Some (set Ok (result x), world x)
  | (Stop st, x) => Some (set st (result x), world x)
  | (Ub, _) => None
  end.
End world.

Definition SimpleUpdateStatusString (status : SimpleUpdateStatus) : bytes :=
  match status with
  | Ok => str "ok"
  | InvalidArgument => str "invalid argument"
  | ReservedPathCollision => str "release uses a reserved updater path"
  | ZipInvalid => str "ZIP inventory is invalid"
  | FileSystemError => str "filesystem error"
  | VolumeTooSmall => str "BMX Boot partition is smaller than 512 MiB"
  | InsufficientSpace => str "not enough free space"
  | Canceled => str "canceled before installation"
  | ExtractFailed => str "verified file extraction failed"
  | PublishFailed => str "file replacement or final sync failed"
  end.
