(* ===== verification/InstallExtract.v ===== *)
(** * Extracting one file onto the volume (simple_update_installer.cpp, zip_reader.cpp)

    What the two sinks of the installer do to the volume while [StreamFile] feeds
    them: until the commit only the temporary file changes, the commit publishes
    content of the signed size and hash, and a failure leaves the old file, the new
    one, or none.  For every volume that obeys [FileSystemLaws], at every moment. *)
From stdpp Require Import gmap.
From S2P Require Import Prelude FatPathPolicy JsonFields Sha256 UpdateFileSystem VolumeMoments ZipFormat ZipReader ZipOpen ZipStream ReleaseManifest SimpleUpdateInstaller.
From Stdlib Require Import Ascii.
Import Traced.
Local Open Scope Z_scope.

Lemma DigestEqual_same l r : DigestEqual l r = ConstantTimeDigestEqual l r.
Proof.
  assert (Hf : forall ns z,
    fold_left (fun d i => u8 (Z.lor d (Z.lxor (byte_at l (Z.of_nat i)) (byte_at r (Z.of_nat i))))) ns z =
    fold_left (fun d i => u8 (Z.lor d (Z.lxor (nth i l 0) (nth i r 0)))) ns z).
  { induction ns as [|i ns IH]; intros z; [done|]. cbn [fold_left]. rewrite IH. unfold byte_at. by rewrite Nat2Z.id. }
  unfold DigestEqual, ConstantTimeDigestEqual. by rewrite Hf.
Qed.

Lemma DigestEqual_spec m d : digest_ok d -> DigestEqual (sha256_spec m) d = true -> sha256_spec m = d.
Proof. intros [Hl Hb]. rewrite DigestEqual_same. by apply digests_equal. Qed.

Lemma NoDup_fmap_elem {A B} (f : A -> B) (l : list A) x y : NoDup (f <$> l) -> x ∈ l -> y ∈ l -> f x = f y -> x = y.
Proof.
  induction l as [|z l IH]; cbn; intros Hn Hx Hy E; [by apply elem_of_nil in Hx|].
  apply NoDup_cons in Hn as [Hz Hn]. apply elem_of_cons in Hx as [->|Hx]; apply elem_of_cons in Hy as [->|Hy]; auto.
  - destruct Hz. apply list_elem_of_fmap. by exists y.
  - destruct Hz. apply list_elem_of_fmap. by exists x.
Qed.

Notation kT := (key kSimpleUpdateTemporaryPath).

(** Two volumes that differ in the temporary file only. *)
Definition off (t t' : tree) : Prop := forall k, k <> kT -> t' !! k = t !! k.

Lemma off_refl t : off t t.
Proof. done. Qed.
Lemma off_delete t t' : off t t' -> off t (delete kT t').
Proof. intros Ho k Hk. rewrite lookup_delete_ne by done. by apply Ho. Qed.
Lemma off_insert t t' n : off t t' -> off t (<[kT := n]> t').
Proof. intros Ho k Hk. rewrite lookup_insert_ne by done. by apply Ho. Qed.
#[export] Hint Resolve off_refl off_delete off_insert : core.

Section extract.
Context {F S P : Type} `{FileSystemLaws F} `{SeekableZipSource S} `{SimpleUpdateProgress P}.
Notation V := (Recorded (F := F)).
Notation World := (SimpleUpdateInstaller.World V S P).
Implicit Types (w : World) (t : tree) (d : bytes).
Notation now w := (nodes (volume (disk w))).

(** The moments: what they are does not depend on the temporary file. *)
Variable M : tree -> Prop.
Hypothesis M_off : forall t t', M t -> off t t' -> M t'.

(** The volume is [t], the temporary file aside. *)
Definition quiet t w : Prop := always M (disk w) /\ off t (now w).
Definition held w : Prop := always M (disk w).
Definition refused (f : ZipFailure) w : Prop := failure_status f <> ZipFormat.Ok /\ held w.

Lemma quiet_held t w : quiet t w -> held w.
Proof. by intros [Hw _]. Qed.

(** The two worlds have the same volume and the same open files. *)
Definition same_disk w w' : Prop := disk w' = disk w /\ sink w' = sink w.

Lemma report_same phase n m w : same_disk w (report_to phase n m w).2 /\ hash_sink (report_to phase n m w).2 = hash_sink w.
Proof. unfold report_to. by destruct (Report phase n m (progress w)). Qed.

Lemma held_delete w : held w -> M (delete kT (now w)).
Proof. intros [_ Hw]. eapply M_off; [exact Hw | auto]. Qed.

(** Removing the temporary file. *)
Lemma remove_temporary w : held w ->
  let '(b, w') := on_disk (RemoveFile kSimpleUpdateTemporaryPath) w in
  held w' /\ (forall t, off t (now w) -> off t (now w')) /\ (b = true -> now w' !! kT = None) /\
  sink w' = sink w /\ hash_sink w' = hash_sink w.
Proof.
  intros Hw. unfold on_disk. pose proof (RemoveFile_always M kSimpleUpdateTemporaryPath (disk w) Hw (held_delete w Hw)) as Hr.
  destruct (RemoveFile _ (disk w)) as [b r]. destruct Hr as (Ha & Hm & Hb). cbn. split; [done|]. split; [|done].
  intros t Ht. destruct Hm as [->| ->]; auto.
Qed.

(** *** The extraction sink *)
(** The temporary file is open and holds what has been written. *)
Definition opened t d w : Prop := quiet t w /\ active_ (sink w) = true /\
  exists h, file_ (sink w) = Some h /\ writing (volume (disk w)) h = Some kT /\ now w !! kT = Some (FileNode d).

Lemma opened_quiet t d w : opened t d w -> quiet t w.
Proof. by intros [Hw _]. Qed.

Lemma BeginExtract_spec e t w : quiet t w ->
  let '(b, w') := BeginExtract e w in
  quiet t w' /\ hash_sink w' = hash_sink w /\ (b = true -> opened t [] w' /\ path e = expected_path_ (sink w')).
Proof.
  intros [Hw Ht]. unfold BeginExtract. destruct (_ || _) eqn:E; [done|].
  rewrite !orb_false_iff, negb_false_iff in E. destruct E as [_ Ep%bytes_eqb_eq].
  pose proof (remove_temporary w Hw) as Hr. destruct (on_disk _ w) as [removed w1]. destruct Hr as (G1 & G2 & G3 & G4 & G5).
  destruct removed; [|split; [by split; auto | by split]]. cbn [negb].
  pose proof (CreateFileFresh_always M kSimpleUpdateTemporaryPath (disk w1) G1
    (fun _ => M_off _ _ (proj2 G1) (off_insert _ _ _ (off_refl _)))) as Hc.
  destruct (CreateFileFresh _ (disk w1)) as [[created h] r2]. destruct Hc as (Hc1 & Hc2 & Hc3).
  assert (Hoff : off t (nodes (volume r2))) by (destruct Hc2 as [->|[_ ->]]; auto).
  destruct created, h as [h|]; (split; [by split|]); (split; [done|]); try done.
  intros _. destruct (Hc3 h eq_refl eq_refl) as (Hwr & _ & Hn). split; [|cbn; congruence].
  split; [by split|]. split; [done|]. exists h. split; [done|]. split; [done|]. cbn. rewrite Hn. apply lookup_insert_eq.
Qed.

Lemma WriteExtract_spec data t d w : opened t d w ->
  let '(b, w') := WriteExtract data w in
  quiet t w' /\ hash_sink w' = hash_sink w /\ expected_path_ (sink w') = expected_path_ (sink w) /\
  (b = true -> opened t (d ++ data) w').
Proof.
  intros (Hq & Hact & h & Hh & Hwr & Hn). pose proof Hq as [Hw Ht]. unfold WriteExtract, on_disk. rewrite Hact, Hh.
  pose proof (WriteFile_always M h data kT d (disk w) Hw Hwr Hn
    (fun c' => M_off _ _ (proj2 Hw) (off_insert _ _ _ (off_refl _)))) as Hf.
  destruct (WriteFile h data (disk w)) as [b r]. destruct Hf as (Hf1 & Hf2 & c' & Hf3 & Hf4).
  assert (Hq' : always M r /\ off t (nodes (volume r))) by (split; [done | rewrite Hf3; auto]).
  destruct b; [|done]. cbn [negb]. specialize (Hf4 eq_refl). subst c'.
  set (w2 := with_sink _ _). pose proof (report_same PhaseInstall (stage_base_ (sink w) + (written_ (sink w) + len data))
    (stage_total_ (sink w)) w2) as [[Hd Hs] Hhs].
  change (sink (with_disk r w)) with (sink w). destruct (report_to _ _ _ w2) as [ok w3]. cbn in Hd, Hs, Hhs.
  unfold opened, quiet. rewrite Hd, Hs, Hhs. split; [done|]. split; [done|]. split; [done|]. intros _.
  split; [done|]. split; [done|]. exists h. split; [done|]. split; [cbn; congruence|]. cbn. rewrite Hf3. apply lookup_insert_eq.
Qed.

Lemma Rename_publishes p t d (r : V) : always M r -> nodes (volume r) !! kT = Some (FileNode d) ->
  off t (nodes (volume r)) -> key p <> kT -> M (<[key p := FileNode d]> t) -> M (delete (key p) t) ->
  let '(b, r') := Rename kSimpleUpdateTemporaryPath p true r in
  always M r' /\ (b = true -> off (<[key p := FileNode d]> t) (nodes (volume r'))).
Proof.
  intros Ha Hn Ht Hk HM HM'.
  assert (Hmoved : off (<[key p := FileNode d]> t) (<[key p := FileNode d]> (delete kT (nodes (volume r))))).
  { intros k Hkk. destruct (decide (k = key p)) as [->|?]; [by rewrite !lookup_insert_eq|].
    rewrite !lookup_insert_ne, lookup_delete_ne by done. by apply Ht. }
  assert (Hgone : off (delete (key p) t) (delete (key p) (nodes (volume r)))).
  { intros k Hkk. destruct (decide (k = key p)) as [->|?]; [by rewrite !lookup_delete_eq|].
    rewrite !lookup_delete_ne by done. by apply Ht. }
  pose proof (Rename_always M kSimpleUpdateTemporaryPath p true r Ha) as Hr. rewrite Hn in Hr.
  specialize (Hr ltac:(done)). destruct (Rename _ p true r) as [b r'].
  destruct Hr as (Ha3 & _ & Hx).
  - intros n [= <-] _. by apply (M_off _ _ HM).
  - intros _. by apply (M_off _ _ HM').
  - split; [done|]. intros Hb. destruct (Hx Hb) as (n & [= <-] & _ & ->). done.
Qed.

(** The commit publishes the file, or fails with the old file, the new one or none. *)
Lemma CommitExtract_spec e t d w : opened t d w -> key (path e) <> kT ->
  M (<[key (path e) := FileNode d]> t) -> M (delete (key (path e)) t) ->
  let '(b, w') := CommitExtract e w in
  held w' /\ (b = true -> off (<[key (path e) := FileNode d]> t) (now w')).
Proof.
  intros (Hq & Hact & h & Hh & Hwr & Hn) Hk HM HM'. destruct Hq as [Hw Ht]. unfold CommitExtract, on_disk. rewrite Hact, Hh.
  destruct (bytes_eqb _ _) eqn:Ep; [|done]. apply bytes_eqb_eq in Ep. cbn [negb].
  pose proof (SyncFile_always M h (disk w) Hw) as Hs. destruct (SyncFile h (disk w)) as [synced r1].
  destruct Hs as [Ha1 (Hn1 & _)]. cbn [disk with_disk].
  pose proof (CloseWrite_always M h r1 Ha1) as Hc. destruct (CloseWrite h r1) as [closed r2]. destruct Hc as [Ha2 Hn2].
  cbn [disk with_disk with_sink sink]. set (stored := if synced && closed then _ else _).
  assert (Hst : held stored.2 /\ (stored.1 = true -> off (<[key (path e) := FileNode d]> t) (now stored.2))).
  { unfold stored. destruct (synced && closed); [|done]. cbn [disk with_disk with_sink sink set_file expected_path_]. rewrite <- Ep.
    assert (Hn3 : nodes (volume r2) = now w) by congruence. rewrite <- Hn3 in Hn, Ht.
    pose proof (Rename_publishes (path e) t d r2 Ha2 Hn Ht Hk HM HM') as Hr.
    destruct (Rename kSimpleUpdateTemporaryPath (path e) true r2) as [renamed r3]. destruct Hr as [Ha3 Hx]. destruct renamed; [|done].
    pose proof (SyncContainingDirectory_always M (path e) r3 Ha3) as Hsy.
    cbn [disk with_disk]. destruct (SyncContainingDirectory (path e) r3) as [ok r4]. destruct Hsy as [Ha4 (Hn4 & _)].
    split; [done|]. intros _. cbn. rewrite Hn4. by apply Hx. }
  destruct stored as [ok w3]. destruct Hst as [Hst1 Hst2]. destruct ok; cbn [negb].
  - pose proof (report_same PhaseInstall (stage_base_ (sink w) + written_ (sink w)) (stage_total_ (sink w)) w3) as [[Hd _] _].
    destruct (report_to _ _ _ w3) as [ok w4]. cbn in Hd. unfold held. rewrite Hd. split; [done|]. intros _. by apply Hst2.
  - pose proof (remove_temporary w3 Hst1) as Hr. unfold on_disk in Hr. destruct (RemoveFile _ (disk w3)) as [b r4]. by split; [apply Hr|].
Qed.

Lemma AbortExtract_held e w : held w -> held (AbortExtract e w).
Proof.
  intros Hw. unfold AbortExtract. set (w1 := match file_ (sink w) with Some _ => _ | None => _ end).
  assert (Hw1 : held w1).
  { unfold w1. destruct (file_ (sink w)) as [h|]; [|done]. unfold on_disk.
    pose proof (CloseWrite_always M h (disk w) Hw) as Hc. destruct (CloseWrite h (disk w)) as [b r]. apply Hc. }
  match goal with |- context [on_disk _ ?w2] => pose proof (remove_temporary w2 Hw1) as Hr; destruct (on_disk _ w2) as [b w3] end.
  apply Hr.
Qed.

(** *** The hash sink *)
Definition hashed n d w : Prop := hash_active_ (hash_sink w) = true /\ sha_of (hash_ (hash_sink w)) d /\
  expected_size_ (hash_sink w) = n /\ received_size_ (hash_sink w) = len d.

Lemma UpdateFile_spec data n d w : hashed n d w ->
  let '(b, w') := UpdateFile data w in same_disk w w' /\ (b = true -> hashed n (d ++ data) w').
Proof.
  intros (Ha & Hs & He & Hr). cbn. destruct (_ || _); [done|].
  destruct (Update (hash_ (hash_sink w)) data) as [[] sha] eqn:Eu; (split; [done|]); [|done]. intros _.
  split; [done|]. split; [by apply (Update_sha _ _ _ _ Hs)|]. cbn. rewrite len_app. by rewrite He, Hr.
Qed.

Lemma FinishFile_spec n d w : hashed n d w ->
  let '(digest, w') := FinishFile w in same_disk w w' /\ (forall x, digest = Some x -> x = sha256_spec d).
Proof.
  intros (Ha & Hs & He & Hr). cbn. destruct (_ || _); [done|].
  destruct (Final (hash_ (hash_sink w))) as [digest sha] eqn:Ef. split; [done|]. intros x ->.
  apply (Final_sha _ _ _ Hs). by rewrite Ef.
Qed.

(** *** Streaming a member *)
(** The sinks have got [d]; [xs]: the extraction sink is in use. *)
Definition started t n (xs : bool) d w : Prop := hashed n d w /\ if xs then opened t d w else quiet t w.

Lemma started_quiet t n xs d w : started t n xs d w -> quiet t w.
Proof. intros [_ Hw]. destruct xs; [by apply (opened_quiet t d) | done]. Qed.

Lemma same_disk_started t d xs w w' : same_disk w w' ->
  (if xs : bool then opened t d w else quiet t w) -> if xs then opened t d w' else quiet t w'.
Proof. intros [Hd Hs]. unfold opened, quiet. by rewrite Hd, Hs. Qed.

Lemma read_started t n xs d offset amount w (archive : bytes) `{!ImmutableSource S archive} : started t n xs d w ->
  let '(x, w') := SourceReadAt offset amount w in started t n xs d w' /\ forall data, x = Some data -> len data = amount.
Proof.
  intros Hw. cbn. pose proof (read_law offset amount (source w)) as Hr.
  destruct (SourceReadAt offset amount (source w)) as [x s]. cbn in Hr. split; [exact Hw|]. intros data ->. apply Hr.
Qed.

Lemma emit_started t n xs d data :
  triple (started t n xs d) (emit true xs data) (fun _ => started t n xs (d ++ data)) refused.
Proof.
  unfold emit. apply (triple_bind _ _ _ (fun _ w => hashed n (d ++ data) w /\ if xs then opened t d w else quiet t w)).
  - apply triple_ztest. intros w Hw. pose proof (UpdateFile_spec data n d w (proj1 Hw)) as Hu. pose proof (started_quiet _ _ _ _ _ Hw) as Hq.
    destruct (UpdateFile data w) as [[] w']; destruct Hu as [Hd Hu].
    + split; [by apply Hu | by apply (same_disk_started _ _ _ w), Hw].
    + split; [done|]. unfold held. rewrite (proj1 Hd). apply Hq.
  - intros _. destruct xs; [|by apply triple_ret]. apply triple_ztest. intros w [Hh Ho].
    pose proof (WriteExtract_spec data t d w Ho) as Hx. cbn [WriteEntry world_extract_sink].
    destruct (WriteExtract data w) as [[] w']; destruct Hx as (Hq & Hs & _ & Hx).
    + split; [unfold hashed in *; by rewrite Hs | by apply Hx].
    + split; [done|]. by apply (quiet_held t).
Qed.

(** *** A whole member *)
Section member.
Context (archive : bytes) `{!ImmutableSource S archive}.
Context {T : Type} (tinfl_init : T) (tinfl_decompress : T -> bytes -> bytes -> Z -> Z -> bool -> tinfl_result T).
Context `{!TinflContract tinfl_decompress}.
Variables (t : tree) (e : ZipEntry) (wanted : ZipExpectedFile) (digest : bytes).
Hypothesis Hsizes : 0 <= compressed_size e /\ 0 <= size e.
Hypothesis Hwanted : expected_sha256 wanted = Some digest.
Hypothesis Hdigest : digest_ok digest.
Hypothesis Hkey : key (path e) <> kT.

(** Content of the size and hash that the member must have. *)
Definition as_wanted (c : bytes) : Prop := len c = size e /\ sha256_spec c = digest.
Hypothesis M_published : forall c, as_wanted c -> M (<[key (path e) := FileNode c]> t).
Hypothesis M_gone : M (delete (key (path e)) t).

(** What a member that has gone well leaves. *)
Definition streamed_ok (xs : bool) w : Prop :=
  if xs then held w /\ exists c, as_wanted c /\ off (<[key (path e) := FileNode c]> t) (now w) else quiet t w.

Lemma abort_sinks_held hs xs w : held w -> held (abort_sinks hs xs e w).
Proof.
  intros Hw. unfold abort_sinks. set (w1 := if hs : bool then AbortFile w else w).
  assert (held w1) by (unfold w1; by destruct hs). destruct xs; [by apply AbortExtract_held | done].
Qed.

Lemma finish_member_spec xs d w : started t (size e) xs d w -> len d = size e ->
  let '(s, w') := finish_member true xs e wanted w in if decide (s = ZipFormat.Ok) then streamed_ok xs w' else held w'.
Proof.
  intros Hw Hd. pose proof (started_quiet _ _ _ _ _ Hw) as Hq. unfold finish_member.
  pose proof (FinishFile_spec _ _ _ (proj1 Hw)) as Hf. destruct (FinishFile w) as [x w1]. destruct Hf as [Hs Hx].
  assert (Hq1 : quiet t w1) by (unfold quiet; by rewrite (proj1 Hs)).
  assert (Hw1 := same_disk_started t d xs w w1 Hs (proj2 Hw)).
  destruct x as [x|]; [|cbn; by apply abort_sinks_held, (quiet_held t)]. rewrite Hwanted, (Hx x eq_refl).
  destruct (DigestEqual (sha256_spec d) digest) eqn:Ed; [|cbn; by apply abort_sinks_held, (quiet_held t)].
  apply DigestEqual_spec in Ed; [|done]. cbn [bool_decide andb]. rewrite bool_decide_true by done. cbn [andb].
  destruct xs; [|cbn; done]. cbn [CommitEntry world_extract_sink].
  pose proof (CommitExtract_spec e t d w1 Hw1 Hkey (M_published d (conj Hd Ed)) M_gone) as Hc.
  destruct (CommitExtract e w1) as [[] w2]; destruct Hc as [Hh Ho]; cbn.
  - split; [done|]. exists d. split; [done|]. by apply Ho.
  - by apply (AbortExtract_held e).
Qed.

Lemma stream_started_spec xs w : started t (size e) xs [] w ->
  match stream_started tinfl_init tinfl_decompress true xs None e wanted w with
  | (Some s, w') => if decide (s = ZipFormat.Ok) then streamed_ok xs w' else held w'
  | (None, _) => False
  end.
Proof.
  intros Hw. unfold stream_started.
  assert (Hp : triple (started t (size e) xs [])
    (zbind (stream_payload tinfl_init tinfl_decompress true xs None e) (fun x => check_payload e x.1 x.2))
    (fun _ w => exists d, started t (size e) xs d w /\ len d = size e)
    refused).
  { eapply triple_bind.
    - eapply (stream_payload_triple tinfl_init tinfl_decompress true xs None (started t (size e) xs)
        refused).
      + intros. by apply (read_started t (size e) xs d _ _ _ archive).
      + intros. apply emit_started.
      + intros. by apply triple_ret.
      + intros d s Hs w' Hw'. split; [done|]. by apply (quiet_held t), (started_quiet t (size e) xs d).
      + apply Hsizes.
      + apply Hsizes.
    - intros [n c] w' (d & Hw' & Hn & Hc). cbn in Hn, Hc. subst n.
      assert (Hheld : held w') by (by apply (quiet_held t), (started_quiet t (size e) xs d)).
      unfold check_payload, zneed. cbn [fst snd]. destruct (Z.eqb_spec (len d) (size e)) as [Hl|]; [|by split]. cbn.
      unfold zbind. destruct (_ =? crc32 e); cbn; [by exists d | by split]. }
  specialize (Hp w Hw). destruct (zbind _ _ w) as [[u|f|] w']; [| |done].
  - destruct Hp as (d & Hs & Hl). pose proof (finish_member_spec xs d w' Hs Hl) as Hf.
    by destruct (finish_member true xs e wanted w') as [s w2].
  - destruct Hp as [Hf Hh]. rewrite decide_False by done. by apply abort_sinks_held.
Qed.

(** A file from the archive into the sinks. *)
Lemma StreamFile_spec r xs w : quiet t w -> open_ r = true ->
  match StreamFile tinfl_init tinfl_decompress r e (Some wanted) true xs None w with
  | (Some s, w') => if decide (s = ZipFormat.Ok) then streamed_ok xs w' else held w'
  | (None, _) => False
  end.
Proof.
  intros Hq Hopen. assert (Hh : held w) by (by apply (quiet_held t)). unfold StreamFile.
  destruct (_ || _); [done|]. destruct (negb (workspace_ r)); [done|]. cbn [SourceSize world_source].
  destruct (SourceSize (source w)) as [[n|] s]; [|done]. destruct (negb _); [done|]. cbn [negb andb].
  cbn [BeginFile world_hash_sink]. set (w1 := mkWorld _ _ _ _ _). assert (Hq1 : quiet t w1) by done. change (hash_sink w1) with (hash_sink w).
  destruct (hash_active_ (hash_sink w)); [done|]. cbn [negb]. set (w2 := with_hash _ w1).
  assert (Hq2 : quiet t w2) by done. assert (Hhash : hashed (size e) [] w2) by (split_and!; [done | apply sha_of_Reset | done..]).
  destruct xs.
  - cbn [BeginEntry world_extract_sink]. pose proof (BeginExtract_spec e t w2 Hq2) as Hb.
    destruct (BeginExtract e w2) as [ok w3]. destruct Hb as (Hq3 & Hhs & Hb). destruct ok; cbn [negb].
    + apply stream_started_spec. split; [unfold hashed; by rewrite Hhs | by apply Hb].
    + cbn. by apply (quiet_held t).
  - cbn [negb]. by apply stream_started_spec.
Qed.
End member.

(** *** A file of the manifest *)
Section manifest.
Context (archive : bytes) `{!ImmutableSource S archive}.
Context {T : Type} (tinfl_init : T) (tinfl_decompress : T -> bytes -> bytes -> Z -> Z -> bool -> tinfl_result T).
Context `{!TinflContract tinfl_decompress}.
Variable manifest : ReleaseManifest.
Notation files := (asset_files (asset manifest)).
Notation expected := (BuildExpectedInventory manifest).
Hypothesis Hpaths : NoDup (file_path <$> files).

(** Content as the manifest signs it. *)
Definition signed_content (f : ManifestFile) (c : bytes) : Prop := len c = file_size f /\ sha256_spec c = file_sha256 f.

(** A reader that has opened an archive. *)
Definition reader_ok (r : ZipReader) : Prop :=
  open_ r = true /\ Forall (fun e => 0 <= compressed_size e /\ 0 <= size e) (entries (inventory_ r)).

Lemma FindFileEntry_spec r p e : FindFileEntry r p = Some e -> e ∈ entries (inventory_ r) /\ path e = p.
Proof.
  unfold FindFileEntry. intros Hf. split.
  - apply find_some in Hf as [Hi _]. by apply list_elem_of_In.
  - apply find_some in Hf as [_ Hp]. apply andb_true_iff in Hp as [_ Hp]. by apply bytes_eqb_eq in Hp.
Qed.

Lemma FindExpectedFile_spec f wanted : f ∈ files -> FindExpectedFile expected (file_path f) = Some wanted ->
  wanted ∈ expected_files expected /\ expected_path wanted = Some (file_path f) /\
  expected_size wanted = file_size f /\ expected_sha256 wanted = Some (file_sha256 f).
Proof.
  intros Hf Hw. apply find_some in Hw as [Hi%list_elem_of_In Hp%bool_decide_eq_true]. split; [done|].
  unfold BuildExpectedInventory in Hi. cbn in Hi. apply list_elem_of_fmap in Hi as (g & -> & Hg). cbn in *. injection Hp as Hp.
  assert (g = f) as -> by (by apply (NoDup_fmap_elem file_path files)). done.
Qed.

Lemma ExtractOne_spec f t r w : f ∈ files -> digest_ok (file_sha256 f) -> key (file_path f) <> kT ->
  (forall c, signed_content f c -> M (<[key (file_path f) := FileNode c]> t)) -> M (delete (key (file_path f)) t) ->
  reader_ok r -> quiet t w ->
  match ExtractOne tinfl_init tinfl_decompress (file_path f) expected true r w with
  | Some (s, r', w') =>
      if decide (s = ZipFormat.Ok) then reader_ok r' /\ held w' /\
        exists c, signed_content f c /\ off (<[key (file_path f) := FileNode c]> t) (now w')
      else held w'
  | None => False
  end.
Proof.
  intros Hf Hd Hk HM HM' Hr Hq. assert (Hh : held w) by (by apply (quiet_held t)). unfold ExtractOne, verified.
  pose proof (VerifyExpectedInventory_triple (fun w' => w' = w) r expected w eq_refl) as Hv.
  destruct (VerifyExpectedInventory r expected None w) as [[b|fl|] w1]; [|destruct Hv as [Hs ->]; by rewrite decide_False|done].
  destruct Hv as [Hm ->]. set (reuse := ValidatedContentsMatch r expected).
  set (r1 := if reuse then r else ClearValidatedContents r).
  assert (Hr1 : reader_ok r1) by (unfold r1; by destruct reuse).
  destruct (FindFileEntry r1 (file_path f)) as [e|] eqn:Ee; [|done].
  destruct (FindExpectedFile expected (file_path f)) as [wanted|] eqn:Ew; [|done].
  apply FindExpectedFile_spec in Ew as (Hw & Hwp & Hws & Hwh); [|done].
  assert (Hsize : size e = file_size f).
  { rewrite Forall_forall in Hm. destruct (Hm wanted Hw) as (p & e' & Hp & He' & Hs). rewrite Hwp in Hp. injection Hp as <-.
    assert (FindFileEntry r (file_path f) = Some e) by (revert Ee; unfold r1; by destruct reuse). congruence. }
  apply FindFileEntry_spec in Ee as [Hin Hpe].
  pose proof (proj1 (Forall_forall _ _) (proj2 Hr1) e Hin) as Hsz. rewrite andb_false_r.
  assert (Hsig : forall c, as_wanted e (file_sha256 f) c -> signed_content f c) by (intros c [Hc1 Hc2]; split; congruence).
  rewrite <- Hpe in *.
  assert (Hstream : forall xs w', quiet t w' ->
    match StreamFile tinfl_init tinfl_decompress r1 e (Some wanted) true xs None w' with
    | (Some s, w2) => if decide (s = ZipFormat.Ok) then streamed_ok t e (file_sha256 f) xs w2 else held w2
    | (None, _) => False
    end).
  { intros xs w' Hq'. eapply StreamFile_spec; eauto. apply Hr1. }
  assert (Hwrite : forall w', quiet t w' ->
    match streamed tinfl_init tinfl_decompress r1 e (Some wanted) true true None w' (fun w => Some (ZipFormat.Ok, r1, w)) with
    | Some (s, r', w2) =>
        if decide (s = ZipFormat.Ok) then reader_ok r' /\ held w2 /\
          exists c, signed_content f c /\ off (<[key (path e) := FileNode c]> t) (now w2)
        else held w2
    | None => False
    end).
  { intros w' Hq'. specialize (Hstream true w' Hq'). unfold streamed. destruct (StreamFile _ _ _ _ _ _ _ _ w') as [[[]|] w2]; try done.
    destruct Hstream as [Hh2 (c & Hc & Ho)]. cbn. split; [done|]. split; [done|]. exists c. split; [by apply Hsig | done]. }
  destruct reuse; [by apply Hwrite|]. specialize (Hstream false w Hq). unfold streamed at 1.
  destruct (StreamFile _ _ _ _ _ _ _ _ w) as [[[]|] w2]; try done. by apply Hwrite.
Qed.
End manifest.
End extract.
