(* ===== verification/InstallSafety.v ===== *)
(** * What an installation guarantees (simple_update_installer.cpp)

    For every volume that obeys [FileSystemLaws], where every operation may fail and
    a failed one may still have happened: what holds of the volume at every moment
    between two operations, which refusals leave it untouched, and what is on it
    when [Install] answers Ok. *)
From stdpp Require Import gmap.
From S2P Require Import Prelude FatPathPolicy JsonFields Sha256 UpdateFileSystem VolumeMoments ZipFormat ZipReader ZipOpen ZipStream ReleaseManifest SimpleUpdateInstaller InstallExtract UpdatePolicy.
From Stdlib Require Import Ascii.
Import Traced.
Local Open Scope Z_scope.

Lemma FatPathEqual_key l : forall r, FatPathEqual l r = true <-> key l = key r.
Proof.
  unfold key. induction l as [|c l IH]; intros [|d r]; cbn [FatPathEqual fmap list_fmap]; try done.
  destruct (Z.eqb_spec (AsciiLower c) (AsciiLower d)) as [E|E].
  - rewrite IH, E. split; [by intros -> | by intros [= ->]].
  - split; [done | by intros [= ? _]].
Qed.

(** ** The plan of an installation *)
Section plan.
Variables (base : tree) (manifest : ReleaseManifest) (reset : bool).
Notation files := (asset_files (asset manifest)).
Notation dirs := (directories (asset manifest)).
Notation removals := (deletions (asset manifest) ++ (replaced_path <$> replacements (asset manifest))).

(** A step installs a file or removes a path; steps of lower rank come first. *)
Inductive step := StepFile (f : ManifestFile) | StepRemove (p : bytes).
Definition steps : list step := (StepFile <$> files) ++ (StepRemove <$> removals).
Definition target (s : step) : bytes := match s with StepFile f => file_path f | StepRemove p => p end.
Definition rank (s : step) : Z :=
  match s with StepFile f => if InstallPass f =? 3 then 4 else InstallPass f | StepRemove _ => 3 end.

Definition kept (p : bytes) (t : tree) : Prop := t !! key p = base !! key p.
Definition signed (f : ManifestFile) (t : tree) : Prop :=
  exists c, t !! key (file_path f) = Some (FileNode c) /\ signed_content f c.
(** The user's own file, which stays. *)
Definition preserved (f : ManifestFile) : Prop :=
  (file_policy f = Preserve \/ (file_policy f = ConfigTemplate /\ reset = false)) /\
  exists c, base !! key (file_path f) = Some (FileNode c).
Definition listed_directory (p : bytes) : Prop := key p ∈ key <$> dirs.

Definition complete (s : step) (t : tree) : Prop :=
  match s with
  | StepFile f => signed f t \/ (preserved f /\ kept (file_path f) t)
  | StepRemove p => t !! key p = None
  end.
Definition untouched (s : step) (t : tree) : Prop :=
  kept (target s) t \/ match s with StepFile _ => False | StepRemove p => listed_directory p end.

(** What holds at every moment: nothing outside the plan has changed; a file is the
    old one, the signed one or missing, at most one is missing; the user's files
    stay; what is removed is removed whole; and a step begins only when all steps of
    lower rank are complete, so a new build identity proves the rest. *)
Record Safe (t : tree) : Prop := {
  safe_others : forall k, k <> kT -> k ∉ key <$> (target <$> steps) -> k ∉ key <$> dirs -> t !! k = base !! k;
  safe_files : forall f, f ∈ files -> kept (file_path f) t \/ signed f t \/ t !! key (file_path f) = None;
  safe_missing : exists p, forall f, f ∈ files -> file_path f <> p -> kept (file_path f) t \/ signed f t;
  safe_preserved : forall f, f ∈ files -> preserved f -> kept (file_path f) t;
  safe_removals : forall p, p ∈ removals -> ~ listed_directory p -> kept p t \/ t !! key p = None;
  safe_directories : forall d, d ∈ dirs -> key d <> kT -> kept d t \/ (base !! key d = None /\ t !! key d = Some DirectoryNode);
  safe_order : forall a b, a ∈ steps -> b ∈ steps -> rank a < rank b -> untouched b t \/ complete a t;
}.

(** When [Install] answers Ok. *)
Record Installed (t : tree) : Prop := {
  all_complete : forall s, s ∈ steps -> complete s t;
  all_directories : forall d, d ∈ dirs -> key d <> kT -> t !! key d = Some DirectoryNode;
  no_temporary : t !! kT = None;
}.

(** *** The steps do not get in each other's way *)
Record plan_ok : Prop := {
  plan_keys : forall a b, a ∈ steps -> b ∈ steps -> key (target a) = key (target b) ->
    a = b \/ exists p q, a = StepRemove p /\ b = StepRemove q;
  plan_temporary : forall s, s ∈ steps -> key (target s) <> kT;
  plan_directories : forall f, f ∈ files -> ~ listed_directory (file_path f);
}.
Hypothesis Hplan : plan_ok.

Lemma step_file f : f ∈ files -> StepFile f ∈ steps.
Proof. intros Hf. apply elem_of_app. left. by apply list_elem_of_fmap_2. Qed.
Lemma step_remove q : q ∈ removals -> StepRemove q ∈ steps.
Proof. intros Hq. apply elem_of_app. right. by apply list_elem_of_fmap_2. Qed.

Lemma complete_same a t t' : t' !! key (target a) = t !! key (target a) -> complete a t -> complete a t'.
Proof. destruct a; cbn [target complete]; unfold signed, kept; by intros ->. Qed.

Lemma Safe_off t t' : Safe t -> off t t' -> Safe t'.
Proof.
  intros [H1 H2 [p H3] H4 H5 H6 H7] Ho.
  assert (Hk : forall s, s ∈ steps -> t' !! key (target s) = t !! key (target s)) by (intros s Hs; by apply Ho, plan_temporary).
  assert (HkF : forall f, f ∈ files -> t' !! key (file_path f) = t !! key (file_path f)) by (intros f Hf; by apply (Hk (StepFile f)), step_file).
  assert (HkR : forall q, q ∈ removals -> t' !! key q = t !! key q) by (intros q Hq; by apply (Hk (StepRemove q)), step_remove).
  constructor; unfold kept, signed.
  - intros k Hkt Hks Hkd. rewrite Ho by done. by apply H1.
  - intros f Hf. rewrite HkF by done. by apply H2.
  - exists p. intros f Hf Hp. rewrite HkF by done. by apply H3.
  - intros f Hf Hpr. rewrite HkF by done. by apply H4.
  - intros q Hq Hl. rewrite HkR by done. by apply H5.
  - intros d Hd Hkd. rewrite Ho by done. by apply H6.
  - intros a b Ha Hb Hr. destruct (H7 a b Ha Hb Hr) as [[Hu|Hu]|Hc].
    + left. left. unfold kept. by rewrite Hk.
    + left. by right.
    + right. apply (complete_same a t); [by apply Hk | done].
Qed.

Lemma kept_base p : kept p base.
Proof. done. Qed.

Lemma Safe_base : Safe base.
Proof.
  constructor; try done; intros; try (left; done). exists []. intros. by left. left. by left.
Qed.

(** *** One step *)
Lemma rank_of_key a b : a ∈ steps -> b ∈ steps -> key (target a) = key (target b) -> rank a = rank b.
Proof. intros Ha Hb E. by destruct (plan_keys Hplan a b Ha Hb E) as [->|(p & q & -> & ->)]. Qed.

Lemma file_of_key f s : f ∈ files -> s ∈ steps -> key (file_path f) = key (target s) -> s = StepFile f.
Proof. intros Hf Hs E. by destruct (plan_keys Hplan _ _ (step_file f Hf) Hs E) as [<-|(p & q & ? & _)]. Qed.

Definition same_but (s : step) (t t' : tree) : Prop := forall k, k <> key (target s) -> t' !! k = t !! k.
(** The step may be taken. *)
Definition free (s : step) : Prop :=
  match s with StepFile f => ~ preserved f | StepRemove p => ~ listed_directory p end.

Lemma same_but_rank s t t' a : same_but s t t' -> s ∈ steps -> a ∈ steps -> rank a <> rank s ->
  t' !! key (target a) = t !! key (target a).
Proof. intros Hb Hs Ha Hr. apply Hb. intros E. by apply Hr, rank_of_key. Qed.

Lemma untouched_same a t t' : t' !! key (target a) = t !! key (target a) -> untouched a t -> untouched a t'.
Proof. unfold untouched, kept. by intros ->. Qed.

(** The files are old or signed, and the steps before rank [n] are complete. *)
Record ready (n : Z) (t : tree) : Prop := {
  ready_safe : Safe t;
  ready_files : forall f, f ∈ files -> kept (file_path f) t \/ signed f t;
  ready_below : forall s, s ∈ steps -> rank s < n -> complete s t;
  ready_above : forall s, s ∈ steps -> n < rank s -> untouched s t;
  ready_directories : forall d, d ∈ dirs -> key d <> kT -> t !! key d = Some DirectoryNode;
}.

Lemma order_kept n s t t' : ready n t -> s ∈ steps -> rank s = n -> same_but s t t' ->
  forall a b, a ∈ steps -> b ∈ steps -> rank a < rank b -> untouched b t' \/ complete a t'.
Proof.
  intros Hready Hs Hn Hb a b Ha Hb' Hr. destruct (decide (rank b = rank s)) as [Eb|Nb].
  - right. apply (complete_same a t); [|apply (ready_below n t Hready); [done | lia]]. apply (same_but_rank s); [done..|lia].
  - destruct (decide (rank a = rank s)) as [Ea|Na].
    + left. apply (untouched_same b t); [by apply (same_but_rank s)|]. apply (ready_above n t Hready); [done | lia].
    + destruct (safe_order t (ready_safe n t Hready) a b Ha Hb' Hr) as [Hu|Hc].
      * left. apply (untouched_same b t); [by apply (same_but_rank s) | done].
      * right. apply (complete_same a t); [by apply (same_but_rank s) | done].
Qed.

(** What a step that may be taken leaves is safe, whether it is gone or complete. *)
Lemma Safe_step n s t t' : ready n t -> s ∈ steps -> rank s = n -> free s -> same_but s t t' ->
  t' !! key (target s) = None \/ complete s t' -> Safe t'.
Proof.
  intros Hready Hs Hn Hfree Hb Hnew. pose proof (ready_safe n t Hready) as Hsafe.
  assert (Hfile : forall f, f ∈ files -> (s = StepFile f /\ ~ preserved f) \/ t' !! key (file_path f) = t !! key (file_path f)).
  { intros f Hf. destruct (decide (key (file_path f) = key (target s))) as [E|N]; [left|right; by apply Hb].
    pose proof (file_of_key f s Hf Hs E) as ->. by split. }
  constructor.
  - intros k Hkt Hks Hkd. rewrite Hb; [by apply (safe_others t Hsafe)|]. intros ->. apply Hks. by apply list_elem_of_fmap_2, list_elem_of_fmap_2.
  - intros f Hf. destruct (Hfile f Hf) as [[-> Hp]|E].
    + right. destruct Hnew as [Hnew|[Hnew|[Hnew _]]]; [by right | by left | done].
    + unfold kept, signed. rewrite E. by apply (safe_files t Hsafe).
  - exists (target s). intros f Hf Hne. destruct (Hfile f Hf) as [[-> Hp]|E]; [done|].
    unfold kept, signed. rewrite E. by apply (ready_files n t Hready).
  - intros f Hf Hp. destruct (Hfile f Hf) as [[-> Hp']|E]; [done|]. unfold kept. rewrite E. by apply (safe_preserved t Hsafe).
  - intros q Hq Hl. destruct (decide (key q = key (target s))) as [E|N].
    + right. destruct (plan_keys Hplan _ _ (step_remove q Hq) Hs E) as [<-|(p1 & q1 & _ & ->)]; cbn [target complete] in *;
        [|rewrite E]; by destruct Hnew.
    + unfold kept. rewrite Hb by done. by apply (safe_removals t Hsafe).
  - intros d Hd Hk. destruct (decide (key d = key (target s))) as [E|N].
    + exfalso. destruct s as [f|p]; cbn [target free] in *.
      * apply (plan_directories Hplan f); [|unfold listed_directory; rewrite <- E; by apply list_elem_of_fmap_2].
        apply elem_of_app in Hs as [Hs|Hs]; apply list_elem_of_fmap in Hs as (? & Ef & ?); congruence.
      * apply Hfree. unfold listed_directory. rewrite <- E. by apply list_elem_of_fmap_2.
    + unfold kept. rewrite Hb by done. by apply (safe_directories t Hsafe).
  - by apply (order_kept n s t).
Qed.

Lemma complete_stays n s t t' a : ready n t -> s ∈ steps -> rank s = n -> same_but s t t' -> complete s t' ->
  a ∈ steps -> complete a t -> complete a t'.
Proof.
  intros Hready Hs Hn Hb Hc Ha Hca. destruct (decide (key (target a) = key (target s))) as [E|N].
  - destruct (plan_keys Hplan _ _ Ha Hs E) as [->|(p & q & -> & ->)]; [done|]. cbn [target complete] in *. by rewrite E.
  - apply (complete_same a t); [by apply Hb | done].
Qed.

Lemma ready_step n s t t' : ready n t -> s ∈ steps -> rank s = n -> free s -> same_but s t t' -> complete s t' ->
  ready n t'.
Proof.
  intros Hready Hs Hn Hfree Hb Hc. constructor.
  - apply (Safe_step n s t); [done..|by right].
  - intros f Hf. destruct (decide (key (file_path f) = key (target s))) as [E|N].
    + pose proof (file_of_key f s Hf Hs E) as ->. destruct Hc as [Hc|[Hc _]]; [by right | done].
    + unfold kept, signed. rewrite Hb by done. by apply (ready_files n t Hready).
  - intros a Ha Hr. apply (complete_same a t); [|by apply (ready_below n t Hready)]. apply (same_but_rank s); [done..|lia].
  - intros a Ha Hr. apply (untouched_same a t); [|by apply (ready_above n t Hready)]. apply (same_but_rank s); [done..|lia].
  - intros d Hd Hk. destruct (decide (key d = key (target s))) as [E|N]; [|rewrite Hb by done; by apply (ready_directories n t Hready)].
    exfalso. assert (Hl : listed_directory (target s)) by (unfold listed_directory; rewrite <- E; by apply list_elem_of_fmap_2).
    destruct s as [f|p]; [|done]. apply (plan_directories Hplan f); [|done].
    apply elem_of_app in Hs as [Hs|Hs]; apply list_elem_of_fmap in Hs as (? & Ef & ?); congruence.
Qed.

Lemma ready_next n n' t : ready n t -> n <= n' -> (forall s, s ∈ steps -> n <= rank s < n' -> complete s t) -> ready n' t.
Proof.
  intros [H1 H2 H3 H4 H5] Hn Hc. constructor; [done | done | | | done].
  - intros s Hs Hr. destruct (Z.lt_ge_cases (rank s) n); [by apply H3 | apply Hc; [done | lia]].
  - intros s Hs Hr. apply H4; [done | lia].
Qed.

(** *** Laying out the directories *)
Record laying (ds : list bytes) (t : tree) : Prop := {
  laying_safe : Safe t;
  laying_steps : forall s, s ∈ steps -> untouched s t;
  laying_done : forall d, d ∈ ds -> key d <> kT -> t !! key d = Some DirectoryNode;
}.

Lemma laying_base : laying [] base.
Proof. constructor; [apply Safe_base | by left | intros d Hd; by apply elem_of_nil in Hd]. Qed.

Lemma laying_directory ds d t : d ∈ dirs -> key d <> kT -> laying ds t -> t !! key d = None ->
  laying ds (<[key d := DirectoryNode]> t).
Proof.
  intros Hd Hk [Hs Hu Hl] Hn.
  assert (Hlisted : forall p, key p = key d -> listed_directory p)
    by (intros p E; unfold listed_directory; rewrite E; by apply list_elem_of_fmap_2).
  assert (Hfile : forall f, f ∈ files -> <[key d := DirectoryNode]> t !! key (file_path f) = t !! key (file_path f)).
  { intros f Hf. apply lookup_insert_ne. intros E. by apply (plan_directories Hplan f Hf), Hlisted. }
  assert (Hu' : forall s, s ∈ steps -> untouched s (<[key d := DirectoryNode]> t)).
  { intros s Hin. destruct (Hu s Hin) as [Hc|Hc]; [|by right]. destruct (decide (key (target s) = key d)) as [E|N].
    - right. destruct s as [f|p]; [|by apply Hlisted]. apply (plan_directories Hplan f); [|by apply Hlisted].
      apply elem_of_app in Hin as [Hin|Hin]; apply list_elem_of_fmap in Hin as (? & Ef & ?); congruence.
    - left. unfold kept. by rewrite lookup_insert_ne. }
  constructor; [constructor | done |].
  - intros k Hkt Hks Hkd. rewrite lookup_insert_ne; [by apply (safe_others t Hs)|]. intros <-. apply Hkd. by apply list_elem_of_fmap_2.
  - intros f Hf. unfold kept, signed. rewrite Hfile by done. by apply (safe_files t Hs).
  - destruct (safe_missing t Hs) as [p Hp]. exists p. intros f Hf Hne. unfold kept, signed. rewrite Hfile by done. by apply Hp.
  - intros f Hf Hpr. unfold kept. rewrite Hfile by done. by apply (safe_preserved t Hs).
  - intros q Hq Hnl. unfold kept. rewrite lookup_insert_ne; [by apply (safe_removals t Hs)|]. intros E. by apply Hnl, Hlisted.
  - intros d' Hd' Hk'. destruct (decide (key d' = key d)) as [E|N].
    + right. rewrite E, lookup_insert_eq. split; [|done]. rewrite <- E.
      destruct (safe_directories t Hs d' Hd' Hk') as [Hc|[Hc _]]; [|done]. unfold kept in Hc. rewrite E in *. congruence.
    + unfold kept. rewrite lookup_insert_ne by done. by apply (safe_directories t Hs).
  - intros a b Ha Hb _. left. by apply Hu'.
  - intros d' Hd' Hk'. destruct (decide (key d' = key d)) as [E|N]; [by rewrite E, lookup_insert_eq|].
    rewrite lookup_insert_ne by done. by apply Hl.
Qed.

Lemma laying_ready t : laying dirs t -> ready 0 t.
Proof.
  intros [Hs Hu Hl]. constructor; [done | | | by auto | done].
  - intros f Hf. destruct (Hu _ (step_file f Hf)) as [Hc|[]]. by left.
  - intros s Hin Hr. exfalso. destruct s as [f|p]; cbn in Hr; [|lia].
    unfold InstallPass in Hr. repeat case_match; lia.
Qed.

Lemma ready_installed t t' : ready 5 t -> off t t' -> t' !! kT = None -> Installed t'.
Proof.
  intros Hr Ho Hn. constructor; [| |done].
  - intros s Hs. apply (complete_same s t); [by apply Ho, plan_temporary|]. apply (ready_below 5 t Hr); [done|].
    destruct s as [f|p]; cbn; [|lia]. unfold InstallPass. repeat case_match; lia.
  - intros d Hd Hk. rewrite Ho by done. by apply (ready_directories 5 t Hr).
Qed.
End plan.

(** ** The steps of [Install] *)
Section run.
Context {F S P : Type} `{FileSystemLaws F} `{SeekableZipSource S} `{SimpleUpdateProgress P}.
Context (archive : bytes) `{!ImmutableSource S archive}.
Context {T : Type} (tinfl_init : T) (tinfl_decompress : T -> bytes -> bytes -> Z -> Z -> bool -> tinfl_result T).
Context `{!TinflContract tinfl_decompress}.
Notation V := (Recorded (F := F)).
Notation World := (SimpleUpdateInstaller.World V S P).
Notation Run := (SimpleUpdateInstaller.Run (F := V) (S := S) (P := P)).
Notation now w := (nodes (volume (disk w))).
Variables (base : tree) (manifest : ReleaseManifest) (reset : bool).
Notation files := (asset_files (asset manifest)).
Notation dirs := (directories (asset manifest)).
Notation removals := (deletions (asset manifest) ++ (replaced_path <$> replacements (asset manifest))).
Notation Safe := (Safe base manifest reset).
Notation ready := (ready base manifest reset).

(** Nothing has changed so far; what has changed is safe. *)
Definition idle (w : World) : Prop := always (fun t => t = base) (disk w).
Definition safe_so_far (w : World) : Prop := always Safe (disk w).

Lemma idle_safe w : idle w -> safe_so_far w.
Proof.
  intros [Hh Hn]. split; [|rewrite Hn; apply Safe_base].
  eapply Forall_impl; [exact Hh|]. intros t ->. apply Safe_base.
Qed.

(** The refusals that leave the volume untouched, and the others. *)
Definition untouched_status (st : SimpleUpdateStatus) : bool :=
  match st with Ok | FileSystemError | ExtractFailed | PublishFailed => false | _ => true end.
Definition refusal (st : SimpleUpdateStatus) (x : Run) : Prop :=
  st <> Ok /\ if untouched_status st then idle (world x) else safe_so_far (world x).

Lemma idle_refusal st x : st <> Ok -> idle (world x) -> refusal st x.
Proof. intros Hst Hx. split; [done|]. destruct (untouched_status st); [done | by apply idle_safe]. Qed.
Lemma safe_refusal st x : st <> Ok -> untouched_status st = false -> safe_so_far (world x) -> refusal st x.
Proof. intros Hst Hu Hx. split; [done|]. by rewrite Hu. Qed.

Section steps.
Context {A B : Type}.
Implicit Types (Q : B -> Run -> Prop) (R : SimpleUpdateStatus -> Run -> Prop).

Lemma triple_ineed (X : Run -> Prop) b st (k : unit -> inst B) Q R :
  (forall x, X x -> R st x) -> (b = true -> triple X (k tt) Q R) -> triple X (zbind (ineed b st) k) Q R.
Proof. intros HR Hk x Hx. destruct b; [by apply Hk | by apply HR]. Qed.

Lemma triple_isome (X : Run -> Prop) (o : option A) st (k : A -> inst B) Q R :
  (forall x, X x -> R st x) -> (forall a, o = Some a -> triple X (k a) Q R) -> triple X (zbind (isome o st) k) Q R.
Proof. intros HR Hk x Hx. destruct o as [a|]; [by apply (Hk a) | by apply HR]. Qed.

Lemma triple_update (X : Run -> Prop) f (k : unit -> inst B) Q R :
  (forall x, X x -> X (with_result f x)) -> triple X (k tt) Q R -> triple X (zbind (update f) k) Q R.
Proof. intros HX Hk x Hx. by apply Hk, HX. Qed.

Lemma triple_itest (X Y : Run -> Prop) (call : World -> bool * World) st (k : unit -> inst B) Q R :
  (forall x, X x -> let '(b, w) := call (world x) in if b then Y (with_world w x) else R st (with_world w x)) ->
  triple Y (k tt) Q R -> triple X (zbind (itest call st) k) Q R.
Proof.
  intros Hc Hk x Hx. specialize (Hc x Hx). unfold zbind, itest. destruct (call (world x)) as [[] w]; [by apply Hk | done].
Qed.

Lemma triple_icall (X : Run -> Prop) (Y : A -> Run -> Prop) (call : World -> option A * World) st (k : A -> inst B) Q R :
  (forall x, X x -> let '(a, w) := call (world x) in
     match a with Some a => Y a (with_world w x) | None => R st (with_world w x) end) ->
  (forall a, triple (Y a) (k a) Q R) -> triple X (zbind (icall call st) k) Q R.
Proof.
  intros Hc Hk x Hx. specialize (Hc x Hx). unfold zbind, icall. destruct (call (world x)) as [[a|] w]; [by apply Hk | done].
Qed.
End steps.

(** *** The checks *)
Lemma check_files_triple (X : Run -> Prop) l : (forall x st, X x -> st <> Ok -> refusal st x) -> forall h i,
  triple X (check_files l h i) (fun _ x => Forall (fun f => IsReservedPath (file_path f) = false) l /\ X x) refusal.
Proof.
  intros HX. induction l as [|f l IH]; intros h i; cbn [check_files]; [by apply triple_ret|].
  apply triple_ineed; [intros x Hx; by apply HX|]. intros Hr%negb_true_iff. apply triple_isome; [intros x Hx; by apply HX|]. intros n _.
  eapply triple_weaken; [apply IH | done | | done]. intros a x [Hl Hx]. split; [by constructor | done].
Qed.

Lemma no_file_equal p (l : list ManifestFile) : existsb (fun f => FatPathEqual p (file_path f)) l = false ->
  forall f, f ∈ l -> key p <> key (file_path f).
Proof.
  intros Hl f Hf E. apply FatPathEqual_key in E. enough (existsb (fun f => FatPathEqual p (file_path f)) l = true) by congruence.
  apply existsb_exists. exists f. split; [by apply list_elem_of_In | done].
Qed.

(** A path that is removed is neither reserved nor a file. *)
Definition removable (p : bytes) : Prop := IsReservedPath p = false /\ forall f, f ∈ files -> key p <> key (file_path f).

Lemma check_deletions_triple (X : Run -> Prop) l : (forall x st, X x -> st <> Ok -> refusal st x) ->
  triple X (check_deletions manifest l) (fun _ x => Forall removable l /\ X x) refusal.
Proof.
  intros HX. induction l as [|p l IH]; cbn [check_deletions]; [by apply triple_ret|].
  apply triple_ineed; [intros x Hx; by apply HX|]. intros Hr%negb_true_iff.
  apply triple_ineed; [intros x Hx; by apply HX|]. intros He%negb_true_iff.
  eapply triple_weaken; [apply IH | done | | done]. intros a x [Hl Hx]. split; [|done]. constructor; [|done].
  split; [done|]. by apply no_file_equal.
Qed.

Lemma check_replacements_triple (X : Run -> Prop) l : (forall x st, X x -> st <> Ok -> refusal st x) ->
  triple X (check_replacements manifest l) (fun _ x => Forall removable (replaced_path <$> l) /\ X x) refusal.
Proof.
  intros HX. induction l as [|p l IH]; cbn [check_replacements fmap list_fmap]; [by apply triple_ret|].
  apply triple_ineed; [intros x Hx; by apply HX|]. intros [[Hr _]%orb_false_iff _]%negb_true_iff%orb_false_iff.
  apply triple_ineed; [intros x Hx; by apply HX|]. intros He%negb_true_iff.
  eapply triple_weaken; [apply IH | done | | done]. intros a x [Hl Hx]. split; [|done]. constructor; [|done].
  split; [done|]. by apply no_file_equal.
Qed.

(** The plan of a manifest that has passed the checks. *)
Lemma not_reserved p : IsReservedPath p = false -> key p <> kT.
Proof.
  unfold IsReservedPath. rewrite !orb_false_iff. intros [[Hp _] _] E. apply FatPathEqual_key in E. congruence.
Qed.

Lemma plan_of_manifest version rversion board storage : asset_wf version rversion board storage (asset manifest) ->
  Forall (fun f => IsReservedPath (file_path f) = false) files -> Forall removable removals -> plan_ok manifest.
Proof.
  intros Hwf Hf Hr. rewrite Forall_forall in Hf. rewrite Forall_forall in Hr.
  assert (Hsteps : forall s, s ∈ steps manifest -> (exists f, s = StepFile f /\ f ∈ files) \/ (exists p, s = StepRemove p /\ p ∈ removals)).
  { intros s Hs. apply elem_of_app in Hs as [Hs|Hs]; apply list_elem_of_fmap in Hs as (y & -> & Hy); [left | right]; by exists y. }
  constructor.
  - intros a b Ha Hb E. apply Hsteps in Ha as [(f & -> & Ha)|(p & -> & Ha)]; apply Hsteps in Hb as [(g & -> & Hb)|(q & -> & Hb)];
      cbn [target] in E.
    + left. f_equal. apply (NoDup_fmap_elem (fun f => key (file_path f)) files); [|done..].
      pose proof (wf_names_files _ _ _ _ _ Hwf) as Hn. unfold no_clash_within in Hn. by rewrite <- list_fmap_compose in Hn.
    + by destruct (proj2 (Hr q Hb) f Ha).
    + by destruct (proj2 (Hr p Ha) g Hb).
    + right. by exists p, q.
  - intros s Hs. apply Hsteps in Hs as [(f & -> & Hs)|(p & -> & Hs)]; apply not_reserved; [by apply Hf | by apply Hr].
  - intros f Hin Hl. unfold listed_directory in Hl. apply list_elem_of_fmap in Hl as (d & E & Hd).
    apply (proj2 (wf_names_directories _ _ _ _ _ Hwf) (file_path f) d); [by apply list_elem_of_fmap_2 | done | done].
Qed.

(** *** Opening the archive *)
Lemma Open_triple capacity (x : Run) : Forall is_byte archive -> len archive <= UINT64_MAX -> reader x = new_reader ->
  idle (world x) ->
  match izip (fun r w => Open capacity default_limits None (SetWorkspace true r) w) ZipInvalid id x with
  | (Val _, x') => reader_ok (reader x') /\ idle (world x')
  | (Stop st, x') => refusal st x'
  | (Ub, _) => False
  end.
Proof.
  intros Hb Hl Hr Hx. unfold izip. rewrite Hr.
  assert (Hsource : ImmutableSource World archive).
  { constructor; intros; cbn.
    - pose proof (size_law (source w)) as Hs. by destruct (SourceSize (source w)).
    - pose proof (read_law offset amount (source w)) as Hs. by destruct (SourceReadAt offset amount (source w)). }
  pose proof (Open_strict archive capacity default_limits None (SetWorkspace true new_reader) (world x) Hb
    ltac:(by repeat split) ltac:(repeat split; discriminate) Hl) as Ho.
  assert (Hkeep : match Open capacity default_limits None (SetWorkspace true new_reader) (world x) with
                  | Some (_, _, w') => idle w' | None => True end).
  { apply (Open_keeps idle); [| |done|done]; intros; cbn.
    - by destruct (SourceSize (source w)).
    - by destruct (SourceReadAt offset amount (source w)). }
  destruct (Open capacity default_limits None (SetWorkspace true new_reader) (world x)) as [[[zs r'] w']|]; [|done].
  case_bool_decide as Ez; [|by apply idle_refusal]. subst zs. split; [|done]. destruct Ho as (Ho & Hi & _). split; [done|].
  eapply Forall_impl; [apply (ok_entries _ _ _ Hi)|]. intros e He. apply (ok_sizes _ _ He).
Qed.

Lemma Bind_triple (x : Run) : reader_ok (reader x) -> idle (world x) ->
  match izip (BindAuthenticatedInventory (BuildExpectedInventory manifest)) ZipInvalid id x with
  | (Val _, x') => reader_ok (reader x') /\ idle (world x')
  | (Stop st, x') => refusal st x'
  | (Ub, _) => False
  end.
Proof.
  intros Hr Hx. unfold izip, BindAuthenticatedInventory, verified.
  pose proof (VerifyExpectedInventory_triple (fun w => w = world x) (reader x) (BuildExpectedInventory manifest) (world x) eq_refl) as Hv.
  destruct (VerifyExpectedInventory _ _ None (world x)) as [[b|fl|] w1]; [|destruct Hv as [Hs ->]|done].
  - destruct Hv as [_ ->]. destruct (ComputeExpectedInventoryBinding _ _) as [binding|]; cbn; [done|].
    by apply idle_refusal.
  - rewrite bool_decide_false by done. by apply idle_refusal.
Qed.

(** *** What is on the volume *)
Lemma hash_target_loop_spec c buffer_size pbase ptotal file path fuel : 1 <= buffer_size ->
  base !! key path = Some (FileNode c) -> forall offset sha (w : World), idle w ->
  reading (volume (disk w)) file = Some (key path) -> 0 <= offset <= len c -> len c - offset <= Z.of_nat fuel ->
  sha_of sha (take (Z.to_nat offset) c) ->
  match hash_target_loop fuel file (len c) buffer_size pbase ptotal offset sha w with
  | (LoopDone sha', w') => idle w' /\ sha_of sha' c
  | (LoopUb, _) => False
  | (_, w') => idle w'
  end.
Proof.
  intros Hbuf Hc. induction fuel as [|fuel IH]; intros offset sha w Hw Hrd Ho Hf Hs; cbn [hash_target_loop];
    (destruct (Z.ltb_spec offset (len c)) as [Hlt|Hge]; [|split; [done|]; rewrite take_ge in Hs by (unfold len in *; lia); exact Hs]); [lia|].
  set (amount := if _ <? buffer_size then _ else _).
  assert (Ha : 0 < amount <= len c - offset) by (unfold amount; destruct (Z.ltb_spec (len c - offset) buffer_size); lia).
  unfold on_disk at 1. pose proof (ReadAt_always (fun t => t = base) file offset amount (disk w) Hw) as Hr.
  destruct (ReadAt file offset amount (disk w)) as [[d|] r]; destruct Hr as ((Hi & Hn & _) & Hrd' & Hd); [|done].
  assert (d = sub c offset amount) as ->.
  { apply (Hd (key path)); [done | done | rewrite (proj2 Hw); done | lia..]. }
  destruct (Update sha (sub c offset amount)) as [[] sha1] eqn:Eu; [|done].
  apply (Update_sha _ _ _ _ Hs) in Eu. unfold sub in Eu. rewrite take_take_drop in Eu.
  replace (Z.to_nat offset + Z.to_nat amount)%nat with (Z.to_nat (offset + amount)) in Eu by lia.
  pose proof (report_same PhaseHash (pbase + (offset + amount)) ptotal (with_disk r w)) as [[Hdk _] _].
  destruct (report_to _ _ _ _) as [ok w2]. cbn in Hdk. assert (Hw2 : idle w2) by (unfold idle; by rewrite Hdk).
  destruct ok; cbn [negb]; [|done]. apply IH; [done | | lia | lia | done]. rewrite Hdk. congruence.
Qed.

Lemma HashTarget_spec c buffer_size pbase ptotal path (w : World) : 1 <= buffer_size ->
  base !! key path = Some (FileNode c) -> idle w ->
  match HashTarget path (len c) buffer_size pbase ptotal w with
  | (HashTargetOk d, w') => idle w' /\ d = sha256_spec c
  | (HashTargetUb, _) => False
  | (_, w') => idle w'
  end.
Proof.
  intros Hbuf Hc Hw. unfold HashTarget. pose proof (OpenRead_always (fun t => t = base) path (disk w) Hw) as Ho.
  destruct (OpenRead path (disk w)) as [[opened file] r1]. destruct Ho as ((Hi1 & _ & _) & Hrd).
  destruct opened; [|done]. destruct file as [file|]; [|done]. specialize (Hrd file eq_refl eq_refl).
  set (w1 := with_disk r1 w). assert (Hw1 : idle w1) by done.
  assert (Hclose : forall w2 : World, idle w2 -> idle (on_disk (CloseRead file) w2).2).
  { intros w2 Hw2. unfold on_disk. pose proof (CloseRead_always (fun t => t = base) file (disk w2) Hw2) as Hcl.
    destruct (CloseRead file (disk w2)) as [b r]. apply Hcl. }
  unfold on_disk at 1. pose proof (GetSize_always (fun t => t = base) file r1 Hi1) as Hg. change (disk w1) with r1.
  destruct (GetSize file r1) as [[n|] r2]; destruct Hg as ((Hi2 & _ & _) & Hrd2 & _); [|by apply Hclose].
  destruct (negb _); [by apply Hclose|]. set (w2 := with_disk r2 w1).
  pose proof (hash_target_loop_spec c buffer_size pbase ptotal file path (Z.to_nat (len c)) Hbuf Hc 0 Reset w2 Hi2) as Hl.
  specialize (Hl ltac:(cbn; congruence) ltac:(len_facts; lia) ltac:(len_facts; lia) sha_of_Reset).
  destruct (hash_target_loop _ _ _ _ _ _ _ _ w2) as [[sha| | |] w3]; [|by apply Hclose..|done].
  destruct Hl as [Hw3 Hs]. pose proof (Hclose w3 Hw3) as Hw4. destruct (on_disk _ w3) as [closed w4].
  destruct closed; cbn [negb]; [|done]. destruct (Final sha).1 as [d|] eqn:Ed; [|done]. split; [done|]. by apply (Final_sha sha c).
Qed.

(** The action chosen fits what is on the volume. *)
Definition action_ok (f : ManifestFile) (a : FileAction) : Prop :=
  match a with
  | InstallFile => ~ preserved base reset f
  | KeepUnchanged => signed f base
  | PreserveExisting => preserved base reset f
  end.
Definition calm (x : Run) : Prop := reader_ok (reader x) /\ idle (world x).

Lemma calm_refusal st x : calm x -> st <> Ok -> refusal st x.
Proof. intros [_ Hx] Hst. by apply idle_refusal. Qed.

Lemma type_regular (n : option node) : type_of n = RegularFile -> exists c, n = Some (FileNode c).
Proof. destruct n as [[c| |]|]; [by exists c | done..]. Qed.

Lemma choose_action_triple f buffer_size h ht : 1 <= buffer_size -> digest_ok (file_sha256 f) ->
  triple calm (choose_action f reset buffer_size h ht) (fun a x => action_ok f a /\ calm x) refusal.
Proof.
  intros Hbuf Hd. unfold choose_action.
  apply (triple_icall _ (fun st x => calm x /\ node_type st = type_of (base !! key (file_path f)) /\
    forall c, base !! key (file_path f) = Some (FileNode c) -> node_size st = len c)).
  { intros x [Hr Hx]. unfold on_disk. pose proof (Stat_always (fun t => t = base) (file_path f) (disk (world x)) Hx) as Hs.
    destruct (Stat (file_path f) (disk (world x))) as [[st|] r]; destruct Hs as (Ha & _ & Hst); [|apply idle_refusal; [done | exact Ha]].
    destruct (Hst st eq_refl) as [Ht Hsz]. rewrite (proj2 Hx) in Ht, Hsz. split; [by split | done]. }
  intros st. apply triple_ineed; [intros x [Hx _]; by apply calm_refusal|]. intros _.
  intros x (Hx & Ht & Hsz). revert x Hx.
  change (triple calm
    (if (bool_decide (file_policy f = Preserve) || (bool_decide (file_policy f = ConfigTemplate) && negb reset)) &&
        bool_decide (node_type st = RegularFile) then (update count_preserved ;? zret PreserveExisting)%zip
     else if bool_decide (node_type st = RegularFile) && (node_size st =? file_size f) then
       (read! digest := (fun x =>
          match HashTarget (file_path f) (file_size f) buffer_size h ht (world x) with
          | (HashTargetOk digest, w) => (Val digest, with_world w x)
          | (HashTargetCanceled, w) => (Stop Canceled, with_world w x)
          | (HashTargetFailed, w) => (Stop FileSystemError, with_world w x)
          | (HashTargetUb, w) => (Ub, with_world w x)
          end) in
        if ConstantTimeDigestEqual digest (file_sha256 f) then update count_unchanged ;? zret KeepUnchanged
        else zret InstallFile)%zip
     else zret InstallFile) (fun a x => action_ok f a /\ calm x) refusal).
  assert (Hpolicy : bool_decide (file_policy f = Preserve) || (bool_decide (file_policy f = ConfigTemplate) && negb reset) = true <->
    file_policy f = Preserve \/ (file_policy f = ConfigTemplate /\ reset = false)).
  { rewrite orb_true_iff, andb_true_iff, !bool_decide_eq_true, negb_true_iff. done. }
  assert (Hnot : bool_decide (file_policy f = Preserve) || (bool_decide (file_policy f = ConfigTemplate) && negb reset) &&
    true = false \/ node_type st <> RegularFile -> ~ preserved base reset f).
  { intros Hn [Hp [c Hc]]. destruct Hn as [Hn|Hn]; [rewrite andb_true_r in Hn; apply Hpolicy in Hp; congruence|].
    apply Hn. by rewrite Ht, Hc. }
  destruct (bool_decide (node_type st = RegularFile)) eqn:Er; [apply bool_decide_eq_true in Er|apply bool_decide_eq_false in Er].
  2: { rewrite andb_false_r. apply triple_ret. intros x Hx. split; [|done]. apply Hnot. by right. }
  pose proof Ht as Ht'. rewrite Er in Ht'. symmetry in Ht'. apply type_regular in Ht' as [c Hc]. rewrite andb_true_r.
  destruct (_ || _) eqn:Ep.
  { apply triple_update; [done|]. apply triple_ret. intros x Hx. split; [|done]. split; [by apply Hpolicy | by exists c]. }
  assert (Hfree : ~ preserved base reset f) by (apply Hnot; left; by rewrite andb_true_r).
  destruct (Z.eqb_spec (node_size st) (file_size f)) as [E|]; cbn [andb]; [|by apply triple_ret]. rewrite (Hsz c Hc) in E.
  eapply (triple_bind _ _ _ (fun d x => d = sha256_spec c /\ calm x)).
  { intros x [Hr Hx]. rewrite <- E. pose proof (HashTarget_spec c buffer_size h ht (file_path f) (world x) Hbuf Hc Hx) as Hh.
    destruct (HashTarget _ _ _ _ _ _) as [[d| | |] w]; [|by apply idle_refusal..|done]. by destruct Hh. }
  intros d. apply triple_split. intros ->. destruct (ConstantTimeDigestEqual _ _) eqn:Eq; [|by apply triple_ret].
  apply digests_equal in Eq; [|apply Hd..]. apply triple_update; [done|]. apply triple_ret. intros x Hx. split; [|done].
  by exists c.
Qed.

Lemma choose_actions_triple l buffer_size ht : 1 <= buffer_size -> Forall (fun f => digest_ok (file_sha256 f)) l -> forall h largest,
  triple calm (choose_actions l reset buffer_size ht h largest) (fun r x => Forall2 action_ok l r.1 /\ calm x) refusal.
Proof.
  intros Hbuf Hl. induction Hl as [|f l Hd Hl IH]; intros h largest; cbn [choose_actions]; [apply triple_ret; by intros x Hx|].
  eapply triple_bind; [by apply choose_action_triple|]. intros a. apply triple_split. intros Ha.
  eapply (triple_bind _ _ _ (fun _ => calm)).
  { case_bool_decide; [|by apply triple_ret]. apply triple_update; [done|].
    intros x Hx. unfold zbind at 1. cbn [get_changed_bytes]. revert x Hx.
    intros x Hx. cbn. unfold isome. destruct (AddWithoutOverflow _ _); cbn; [done | by apply calm_refusal]. }
  intros largest'. apply triple_isome; [intros x Hx; by apply calm_refusal|]. intros hashed _.
  apply (triple_itest _ calm).
  { intros x Hx. pose proof (report_same PhaseHash hashed ht (world x)) as [[Hdk _] _].
    destruct (report_to PhaseHash hashed ht (world x)) as [[] w]; cbn in Hdk.
    - split; [apply Hx|]. unfold idle. cbn. rewrite Hdk. apply Hx.
    - apply idle_refusal; [done|]. unfold idle. cbn. rewrite Hdk. apply Hx. }
  eapply triple_bind; [apply IH|]. intros r. apply triple_split. intros Hr. apply triple_ret. intros x Hx. split; [by constructor | done].
Qed.

(** *** Changing the volume *)
Section changing.
Hypothesis Hplan : plan_ok manifest.
Notation M_off := (Safe_off base manifest reset Hplan).

(** The volume is [t], the temporary file aside. *)
Definition at_tree (t : tree) (x : Run) : Prop := reader_ok (reader x) /\ quiet Safe t (world x).

Lemma at_tree_refusal t st x : at_tree t x -> st <> Ok -> untouched_status st = false -> refusal st x.
Proof. intros [_ Hx] Hst Hu. apply safe_refusal; [done..|]. by apply (quiet_held Safe t). Qed.

Lemma remove_temporary_step (X : tree -> Prop) st {B} (k : unit -> inst B) Q : st <> Ok -> untouched_status st = false ->
  triple (fun x => (exists t, X t /\ at_tree t x) /\ now (world x) !! kT = None) (k tt) Q refusal ->
  triple (fun x => exists t, X t /\ at_tree t x) (zbind (itest (on_disk (RemoveFile kSimpleUpdateTemporaryPath)) st) k) Q refusal.
Proof.
  intros Hst Hu Hk. eapply triple_itest; [|exact Hk]. intros x (t & HX & Hr & Hw).
  pose proof (remove_temporary Safe M_off (world x) (proj1 Hw)) as Hrm.
  destruct (on_disk _ (world x)) as [b w]. destruct Hrm as (Hh & Ho & Hn & _). destruct b.
  - split; [|by apply Hn]. exists t. split; [done|]. split; [done|]. split; [done|]. by apply Ho, Hw.
  - by apply safe_refusal.
Qed.

Lemma report_step (X : Run -> Prop) phase n m st {B} (k : unit -> inst B) Q : st <> Ok -> untouched_status st = false ->
  (forall x w, X x -> disk w = disk (world x) -> X (with_world w x)) -> (forall x, X x -> safe_so_far (world x)) ->
  triple X (k tt) Q refusal -> triple X (zbind (itest (report_to phase n m) st) k) Q refusal.
Proof.
  intros Hst Hu HX Hs Hk. eapply triple_itest; [|exact Hk]. intros x Hx.
  pose proof (report_same phase n m (world x)) as [[Hd _] _]. destruct (report_to phase n m (world x)) as [b w]. cbn in Hd.
  destruct b; [by apply HX|]. apply safe_refusal; [done..|]. unfold safe_so_far. cbn. rewrite Hd. by apply Hs.
Qed.

Lemma create_directories_triple ds : forall seen, (forall d, d ∈ ds -> d ∈ dirs) ->
  triple (fun x => exists t, laying base manifest reset seen t /\ at_tree t x) (create_directories ds)
    (fun _ x => exists t, laying base manifest reset (seen ++ ds) t /\ at_tree t x) refusal.
Proof.
  induction ds as [|d ds IH]; intros seen Hds; cbn [create_directories]; [rewrite app_nil_r; by apply triple_ret|].
  assert (Hd : d ∈ dirs) by (apply Hds; by left).
  eapply triple_itest; [|rewrite cons_middle, app_assoc; apply IH; intros d' Hd'; apply Hds; by right].
  intros x (t & Hl & Hr & Hw & Ho). unfold on_disk.
  assert (Hnew : key d <> kT -> now (world x) !! key d = None -> laying base manifest reset seen (<[key d := DirectoryNode]> t)).
  { intros Hk Hn. apply laying_directory; [done..|]. by rewrite <- Ho. }
  assert (Hins : off t (<[key d := DirectoryNode]> (now (world x))) \/
    off (<[key d := DirectoryNode]> t) (<[key d := DirectoryNode]> (now (world x)))).
  { right. intros k Hk. destruct (decide (k = key d)) as [->|]; [by rewrite !lookup_insert_eq|].
    rewrite !lookup_insert_ne by done. by apply Ho. }
  pose proof (CreateDirectory_always Safe d (disk (world x)) Hw) as Hc.
  assert (HM : now (world x) !! key d = None -> Safe (<[key d := DirectoryNode]> (now (world x)))).
  { intros Hn. destruct (decide (key d = kT)) as [E|N].
    - rewrite E. eapply M_off; [apply Hw | by apply off_insert].
    - eapply M_off; [apply (laying_safe _ _ _ _ _ (Hnew N Hn))|]. intros k Hk.
      destruct (decide (k = key d)) as [->|]; [by rewrite !lookup_insert_eq|]. rewrite !lookup_insert_ne by done. by apply Ho. }
  specialize (Hc HM). destruct (CreateDirectory d (disk (world x))) as [b r]. destruct Hc as (Ha & Hm & Hb).
  destruct b; [|by apply safe_refusal]. specialize (Hb eq_refl).
  assert (Hstep : exists t', laying base manifest reset seen t' /\ off t' (nodes (volume r)) /\ (key d <> kT -> t' !! key d = Some DirectoryNode)).
  { destruct Hm as [E|[Hn E]].
    - exists t. split; [done|]. split; [by rewrite E|]. intros Hk. rewrite <- Ho by done. by rewrite <- E.
    - destruct (decide (key d = kT)) as [Ek|Nk].
      + exists t. split; [done|]. split; [|done]. rewrite E, Ek. by apply off_insert.
      + exists (<[key d := DirectoryNode]> t). split; [by apply Hnew|]. split; [|intros _; apply lookup_insert_eq].
        rewrite E. intros k Hk. destruct (decide (k = key d)) as [->|]; [by rewrite !lookup_insert_eq|].
        rewrite !lookup_insert_ne by done. by apply Ho. }
  destruct Hstep as (t' & [Hs Hu Hdone] & Ho' & Hk'). exists t'. split; [|split; [done|split; [done|exact Ho']]].
  constructor; [done | done|]. intros d' Hd' Hkd. apply elem_of_app in Hd' as [Hd'| ->%list_elem_of_singleton]; [by apply Hdone | by apply Hk'].
Qed.

(** *** Installing the files of a pass *)
Definition done_in (t t' : tree) : Prop := forall s, s ∈ steps manifest -> complete base reset s t -> complete base reset s t'.

Lemma install_pass_triple pass n total l : (forall f, InstallPass f = pass -> rank (StepFile f) = n) ->
  (forall f a, (f, a) ∈ l -> f ∈ files /\ digest_ok (file_sha256 f) /\ action_ok f a) ->
  NoDup (file_path <$> files) -> forall installed t0,
  triple (fun x => exists t, (ready n t /\ done_in t0 t) /\ at_tree t x)
    (install_pass tinfl_init tinfl_decompress pass total (BuildExpectedInventory manifest) l installed)
    (fun _ x => exists t, ((ready n t /\ done_in t0 t) /\ forall f a, (f, a) ∈ l -> InstallPass f = pass -> complete base reset (StepFile f) t) /\ at_tree t x)
    refusal.
Proof.
  intros Hrank Hl Hpaths. induction l as [|[f a] l IH]; intros installed t0; cbn [install_pass].
  { apply triple_ret. intros x (t & Ht & Hx). exists t. split; [|done]. split; [done|]. intros f a Hf. by apply elem_of_nil in Hf. }
  destruct (Hl f a) as (Hf & Hd & Ha); [by left|].
  assert (Hl' : forall f a, (f, a) ∈ l -> f ∈ files /\ digest_ok (file_sha256 f) /\ action_ok f a) by (intros; apply Hl; by right).
  specialize (IH Hl').
  assert (Hlater : forall installed t1,
    (InstallPass f = pass -> complete base reset (StepFile f) t1) ->
    triple (fun x => exists t, ((ready n t /\ done_in t0 t) /\ done_in t1 t) /\ at_tree t x)
      (install_pass tinfl_init tinfl_decompress pass total (BuildExpectedInventory manifest) l installed)
      (fun _ x => exists t, ((ready n t /\ done_in t0 t) /\ forall g b, (g, b) ∈ (f, a) :: l -> InstallPass g = pass -> complete base reset (StepFile g) t) /\ at_tree t x)
      refusal).
  { intros ins t1 Hc1 x (t2 & ((Hr2 & Hd2) & Hd12) & Hx).
    pose proof (IH ins t2 x (ex_intro _ t2 (conj (conj Hr2 (fun s _ Hs => Hs)) Hx))) as Hi.
    destruct (install_pass _ _ _ _ _ l ins x) as [[v|st|] x']; [|done..].
    destruct Hi as (t & ((Hr & Hdn) & Hc) & Hx'). exists t. split; [|exact Hx']. split; [split; [done|]|].
    - intros s Hs Hcs. by apply Hdn, Hd2.
    - intros g b Hg Hp. apply elem_of_cons in Hg as [[= -> ->]|Hg]; [|by apply (Hc g b)].
      apply Hdn; [by apply step_file|]. apply Hd12; [by apply step_file | by apply Hc1]. }
  destruct (negb _ || negb _) eqn:E.
  - (* nothing to do for this file *)
    intros x (t & (Hr & Hdn) & Hx). apply (Hlater installed t); [|exists t; split; [split; [done | by intros s]|done]].
    intros Hp. rewrite (proj2 (Z.eqb_eq _ _) Hp) in E. cbn in E. apply negb_true_iff, bool_decide_eq_false in E.
    destruct a; [done| |].
    + left. destruct (ready_files _ _ _ _ _ Hr f Hf) as [Hk|Hs]; [|done]. destruct Ha as (c & Hc & Hsc). exists c.
      split; [|done]. by rewrite Hk.
    + right. split; [done|]. apply (safe_preserved _ _ _ _ (ready_safe _ _ _ _ _ Hr)); done.
  - apply orb_false_iff in E as [Ep%negb_false_iff%Z.eqb_eq Ea%negb_false_iff%bool_decide_eq_true]. subst a.
    assert (Hrk : rank (StepFile f) = n) by (by apply Hrank). pose proof (step_file manifest f Hf) as Hstep.
    intros x (t & (Hr & Hdn) & Hrd & Hq). unfold zbind, izip.
    set (w := with_sink _ _). assert (Hqw : quiet Safe t w) by exact Hq.
    assert (Hsb : forall v, same_but (StepFile f) t (<[key (file_path f) := v]> t)) by (intros v k Hk; by rewrite lookup_insert_ne).
    assert (Hdone : forall c, signed_content f c -> complete base reset (StepFile f) (<[key (file_path f) := FileNode c]> t)).
    { intros c Hc. left. exists c. by rewrite lookup_insert_eq. }
    pose proof (ExtractOne_spec Safe M_off archive tinfl_init tinfl_decompress manifest Hpaths f t (reader x) w Hf Hd
      (plan_temporary _ Hplan (StepFile f) Hstep)) as Hx.
    assert (HM : forall c, signed_content f c -> Safe (<[key (file_path f) := FileNode c]> t)).
    { intros c Hc. apply (Safe_step _ _ _ Hplan n (StepFile f) t); [done..|]. right. by apply Hdone. }
    assert (HM' : Safe (delete (key (file_path f)) t)).
    { apply (Safe_step _ _ _ Hplan n (StepFile f) t); [done..| |]; [intros k Hk; by rewrite lookup_delete_ne | left; apply lookup_delete_eq]. }
    specialize (Hx HM HM' Hrd Hqw). destruct (ExtractOne _ _ _ _ _ _ w) as [[[zs r'] w']|]; [|done].
    case_bool_decide as Ez.
    + rewrite decide_True in Hx by done. destruct Hx as (Hrd' & Hh & c & Hc & Ho). set (t1 := <[key (file_path f) := FileNode c]> t) in *.
      apply (Hlater (installed + file_size f) t1); [intros _; by apply Hdone|]. exists t1.
      split; [split; [split|]|].
      * by apply (ready_step _ _ _ Hplan n (StepFile f) t); try apply Hsb; try apply Hdone.
      * intros s Hs Hcs. apply (complete_stays _ _ _ Hplan n (StepFile f) t); try done; [apply Hsb | by apply Hdone | by apply Hdn].
      * by intros s.
      * split; [done|]. by split.
    + rewrite decide_False in Hx by done. pose proof (remove_temporary Safe M_off w' Hx) as Hrm.
      destruct (on_disk _ w') as [b w2]. apply safe_refusal; [done..|]. apply Hrm.
Qed.

(** *** Removing *)
Lemma RemoveSignedFile_spec p t (w : World) : p ∈ removals -> ready 3 t -> quiet Safe t w ->
  let '(ok, _, w') := RemoveSignedFile p w in
  safe_so_far w' /\ (ok = true -> exists t', ready 3 t' /\ done_in t t' /\ t' !! key p = None /\ quiet Safe t' w').
Proof.
  intros Hp Hr Hq. pose proof (step_remove manifest p Hp) as Hs. pose proof (plan_temporary _ Hplan _ Hs) as Hk. cbn [target] in Hk.
  unfold RemoveSignedFile, on_disk at 1. pose proof (Stat_always Safe p (disk w) (proj1 Hq)) as Hst.
  destruct (Stat p (disk w)) as [[st|] r1]; destruct Hst as (Ha1 & (Hn1 & _) & Ht1); [|done].
  destruct (Ht1 st eq_refl) as [Hty _]. assert (Hnow : now w !! key p = t !! key p) by (by apply Hq). rewrite Hnow in Hty.
  assert (Hq1 : quiet Safe t (with_disk r1 w)) by (split; [done|]; cbn; rewrite Hn1; apply Hq).
  destruct (node_type st) eqn:Et; [| |done..]; symmetry in Hty.
  - split; [done|]. intros _. exists t. split; [done|]. split; [by intros s|]. split; [|done].
    by destruct (t !! key p) as [[]|].
  - apply type_regular in Hty as [c Hc].
    assert (Hfree : free base manifest reset (StepRemove p)).
    { cbn. intros Hl. apply list_elem_of_fmap in Hl as (d & E & Hd). rewrite E in Hc, Hk.
      by rewrite (ready_directories _ _ _ _ _ Hr d Hd Hk) in Hc. }
    set (t' := delete (key p) t).
    assert (Hsb : same_but (StepRemove p) t t') by (intros k Hkk; by apply lookup_delete_ne).
    assert (Hgone : t' !! key p = None) by apply lookup_delete_eq.
    assert (HS : Safe t') by (apply (Safe_step _ _ _ Hplan 3 (StepRemove p) t); try done; by left).
    assert (Hoff : off t' (delete (key p) (nodes (volume r1)))).
    { intros k Hkk. unfold t'. destruct (decide (k = key p)) as [->|]; [by rewrite !lookup_delete_eq|].
      rewrite !lookup_delete_ne by done. by apply Hq1. }
    unfold on_disk at 1. cbn [disk with_disk].
    pose proof (RemoveFile_always Safe p r1 Ha1 (M_off _ _ HS Hoff)) as Hrm.
    destruct (RemoveFile p r1) as [removed r2]. destruct Hrm as (Ha2 & Hm & Hb). destruct removed; [|done]. cbn [negb].
    unfold on_disk at 1. cbn [disk with_disk]. pose proof (SyncContainingDirectory_always Safe p r2 Ha2) as Hsy.
    destruct (SyncContainingDirectory p r2) as [synced r3]. destruct Hsy as [Ha3 (Hn3 & _)]. split; [done|]. intros _.
    exists t'. split; [by apply (ready_step _ _ _ Hplan 3 (StepRemove p) t)|].
    split; [intros s Hsin Hcs; by apply (complete_stays _ _ _ Hplan 3 (StepRemove p) t)|]. split; [done|]. split; [done|].
    cbn. rewrite Hn3. specialize (Hb eq_refl). destruct Hm as [E|E]; [|by rewrite E].
    intros k Hkk. destruct (decide (k = key p)) as [->|N]; [by rewrite Hb, Hgone|]. rewrite E. unfold t'. rewrite lookup_delete_ne by done.
    by apply Hq1.
Qed.

Lemma remove_files_triple l : (forall p, p ∈ l -> p ∈ removals) -> forall t0,
  triple (fun x => exists t, (ready 3 t /\ done_in t0 t) /\ at_tree t x) (remove_files l)
    (fun _ x => exists t, ((ready 3 t /\ done_in t0 t) /\ forall p, p ∈ l -> t !! key p = None) /\ at_tree t x) refusal.
Proof.
  intros Hl. induction l as [|p l IH]; intros t0; cbn [remove_files].
  { apply triple_ret. intros x (t & Ht & Hx). exists t. split; [|done]. split; [done|]. intros p Hp. by apply elem_of_nil in Hp. }
  assert (Hp : p ∈ removals) by (apply Hl; by left). intros x (t & (Hr & Hdn) & Hrd & Hq). unfold zbind.
  pose proof (RemoveSignedFile_spec p t (world x) Hp Hr Hq) as Hs. destruct (RemoveSignedFile p (world x)) as [[ok removed] w].
  destruct Hs as [Hh Hs]. destruct ok; [|by destruct removed; apply safe_refusal].
  destruct (Hs eq_refl) as (t1 & Hr1 & Hd1 & Hn1 & Hq1).
  set (x1 := if removed then _ else _). assert (Hx1 : at_tree t1 x1) by (unfold x1; by destruct removed).
  assert (Hl' : forall q, q ∈ l -> q ∈ removals) by (intros; apply Hl; by right).
  pose proof (IH Hl' t1 x1 (ex_intro _ t1 (conj (conj Hr1 (fun s _ Hs => Hs)) Hx1))) as Hi.
  destruct (remove_files l x1) as [[v|st|] x']; [|done..].
  destruct Hi as (t2 & ((Hr2 & Hd2) & Hc) & Hx'). exists t2. split; [|exact Hx']. split; [split; [done|]|].
  - intros s Hsin Hcs. by apply Hd2, Hd1, Hdn.
  - intros q Hq'. apply elem_of_cons in Hq' as [->|Hq']; [|by apply Hc].
    apply (Hd2 (StepRemove p)); [by apply step_remove | done].
Qed.

(** *** From the directories to the build identity *)
Lemma rank_of_pass f n : InstallPass f = n -> n < 3 -> rank (StepFile f) = n.
Proof. cbn. intros -> ?. by rewrite (proj2 (Z.eqb_neq _ _)) by lia. Qed.

Lemma InstallPass_range f : 0 <= InstallPass f <= 3.
Proof. unfold InstallPass. repeat case_match; lia. Qed.

(** What the end of pass [n] makes ready. *)
Lemma pass_ready n t (l : list (ManifestFile * FileAction)) : 0 <= n < 3 -> ready n t -> (forall f, f ∈ files -> exists a, (f, a) ∈ l) ->
  (forall f (a : FileAction), (f, a) ∈ l -> InstallPass f = n -> complete base reset (StepFile f) t) -> ready (n + 1) t.
Proof.
  intros Hn Hr Hl Hc. apply (ready_next _ _ _ n); [done | lia|]. intros s Hs Hrk.
  apply elem_of_app in Hs as [Hs|Hs]; apply list_elem_of_fmap in Hs as (y & -> & Hy).
  - destruct (Hl y Hy) as [a Ha]. apply (Hc y a Ha). cbn in Hrk. pose proof (InstallPass_range y).
    destruct (Z.eqb_spec (InstallPass y) 3); lia.
  - cbn in Hrk. lia.
Qed.
End changing.

(** *** Everything *)
Lemma calm_query {A B} (call : V -> option A * V) st (k : A -> inst B) Q : st <> Ok ->
  (forall r, always (fun t => t = base) r -> always (fun t => t = base) (call r).2) ->
  (forall a, triple calm (k a) Q refusal) -> triple calm (zbind (icall (on_disk call) st) k) Q refusal.
Proof.
  intros Hst Hc Hk. apply (triple_icall _ (fun _ => calm)); [|exact Hk]. intros x [Hr Hx]. unfold on_disk.
  specialize (Hc _ Hx). destruct (call (disk (world x))) as [[a|] r]; [by split | by apply idle_refusal].
Qed.

Lemma calm_report {B} phase n m st (k : unit -> inst B) Q : st <> Ok -> triple calm (k tt) Q refusal ->
  triple calm (zbind (itest (report_to phase n m) st) k) Q refusal.
Proof.
  intros Hst Hk. apply (triple_itest _ calm); [|exact Hk]. intros x [Hr Hx].
  pose proof (report_same phase n m (world x)) as [[Hd _] _]. destruct (report_to phase n m (world x)) as [[] w]; cbn in Hd.
  - split; [done|]. unfold idle. cbn. by rewrite Hd.
  - apply idle_refusal; [done|]. unfold idle. cbn. by rewrite Hd.
Qed.

(** The part of [Install] that changes the volume. *)
Lemma change_triple (Hplan : plan_ok manifest) total expected actions {B} (k : Z -> inst B) Q :
  expected = BuildExpectedInventory manifest -> NoDup (file_path <$> files) ->
  Forall (fun f => digest_ok (file_sha256 f)) files -> Forall2 action_ok files actions ->
  (forall n, triple (fun x => exists t, ready 5 t /\ at_tree t x) (k n) Q refusal) ->
  triple (fun x => exists t, laying base manifest reset dirs t /\ at_tree t x)
    (let items := combine files actions in
     read! installed := install_pass tinfl_init tinfl_decompress 0 total expected items 0 in
     read! installed := install_pass tinfl_init tinfl_decompress 1 total expected items installed in
     read! installed := install_pass tinfl_init tinfl_decompress 2 total expected items installed in
     remove_files (deletions (asset manifest)) ;?
     remove_files (replaced_path <$> replacements (asset manifest)) ;?
     read! installed := install_pass tinfl_init tinfl_decompress 3 total expected items installed in
     k installed)%zip Q refusal.
Proof.
  intros -> Hpaths Hdig Hact Hk. cbv zeta. set (items := combine files actions).
  assert (Hitems : forall f a, (f, a) ∈ items -> f ∈ files /\ digest_ok (file_sha256 f) /\ action_ok f a).
  { intros f a Hin. rewrite Forall_forall in Hdig. subst items. clear Hpaths Hk.
    induction Hact as [|g b l l' Hgb Hact IH]; cbn in Hin; [by apply elem_of_nil in Hin|].
    apply elem_of_cons in Hin as [[= -> ->]|Hin]; [split; [by left|]; split; [apply Hdig; by left | done]|].
    destruct IH as (H3 & H4 & H5); [intros h Hh; apply Hdig; by right | done|]. split; [by right | done]. }
  assert (Hall : forall f, f ∈ files -> exists a, (f, a) ∈ items).
  { intros f Hin. subst items. clear Hpaths Hk Hitems Hdig.
    induction Hact as [|g b l l' Hgb Hact IH]; [by apply elem_of_nil in Hin|]. apply elem_of_cons in Hin as [->|Hin].
    - exists b. by left.
    - destruct (IH Hin) as [a Ha]. exists a. by right. }
  assert (Hpass : forall n installed, 0 <= n < 3 ->
    triple (fun x => exists t, ready n t /\ at_tree t x)
      (install_pass tinfl_init tinfl_decompress n total (BuildExpectedInventory manifest) items installed)
      (fun _ x => exists t, ready (n + 1) t /\ at_tree t x) refusal).
  { intros n installed Hn x (t & Hr & Hx).
    pose proof (install_pass_triple Hplan n n total items (fun f Hf => rank_of_pass f n Hf ltac:(lia)) Hitems Hpaths installed t x
      (ex_intro _ t (conj (conj Hr (fun s _ Hs => Hs)) Hx))) as Hi.
    destruct (install_pass _ _ _ _ _ _ _ x) as [[v|st|] x']; [|done..]. destruct Hi as (t' & ((Hr' & _) & Hc) & Hx').
    exists t'. split; [|done]. by apply (pass_ready n t' items). }
  eapply triple_bind; [|intros i0]; [eapply triple_weaken; [apply (Hpass 0); lia| |done|done]|].
  { intros x (t & Ht & Hx). exists t. split; [by apply laying_ready | done]. }
  eapply triple_bind; [apply (Hpass 1); lia|]. intros i1.
  eapply triple_bind; [apply (Hpass 2); lia|]. intros i2.
  assert (Hd : forall p, p ∈ deletions (asset manifest) -> p ∈ removals) by (intros; apply elem_of_app; by left).
  assert (He : forall p, p ∈ replaced_path <$> replacements (asset manifest) -> p ∈ removals) by (intros; apply elem_of_app; by right).
  intros x (t & Hr & Hx).
  pose proof (remove_files_triple Hplan _ Hd t x (ex_intro _ t (conj (conj Hr (fun s _ Hs => Hs)) Hx))) as Hi.
  unfold zbind at 1. destruct (remove_files (deletions (asset manifest)) x) as [[[]|st|] x1]; [|done..].
  destruct Hi as (t1 & ((Hr1 & _) & Hg1) & Hx1).
  pose proof (remove_files_triple Hplan _ He t1 x1 (ex_intro _ t1 (conj (conj Hr1 (fun s _ Hs => Hs)) Hx1))) as Hi.
  unfold zbind at 1. destruct (remove_files _ x1) as [[[]|st|] x2]; [|done..]. destruct Hi as (t2 & ((Hr2 & Hd2) & Hg2) & Hx2).
  assert (Hr4 : ready 4 t2).
  { apply (ready_next _ _ _ 3); [done | lia|]. intros s Hs Hrk. pose proof Hs as Hs0.
    apply elem_of_app in Hs as [Hs|Hs]; apply list_elem_of_fmap in Hs as (y & -> & Hy).
    - exfalso. cbn in Hrk. pose proof (InstallPass_range y). destruct (Z.eqb_spec (InstallPass y) 3); lia.
    - apply elem_of_app in Hy as [Hy|Hy]; [by apply Hd2, Hg1 | by apply Hg2]. }
  pose proof (install_pass_triple Hplan 3 4 total items (fun f Hf => ltac:(cbn; by rewrite Hf)) Hitems Hpaths i2 t2 x2
    (ex_intro _ t2 (conj (conj Hr4 (fun s _ Hs => Hs)) Hx2))) as Hi.
  unfold zbind at 1. destruct (install_pass _ _ _ _ _ _ _ x2) as [[i3|st|] x3]; [|done..].
  destruct Hi as (t3 & ((Hr3 & _) & Hc) & Hx3). apply Hk. exists t3. split; [|done].
  apply (ready_next _ _ _ 4); [done | lia|]. intros s Hs Hrk.
  apply elem_of_app in Hs as [Hs|Hs]; apply list_elem_of_fmap in Hs as (y & -> & Hy); [|cbn in Hrk; lia].
  destruct (Hall y Hy) as [a Ha]. apply (Hc y a Ha). cbn in Hrk. pose proof (InstallPass_range y).
  destruct (Z.eqb_spec (InstallPass y) 3); lia.
Qed.

Lemma install_body_triple board storage authenticated workspace :
  manifest_wf board storage manifest -> 0 <= io_buffer_size workspace -> Forall is_byte archive -> len archive <= UINT64_MAX ->
  triple (fun x => reader x = new_reader /\ idle (world x))
    (install_body tinfl_init tinfl_decompress manifest reset authenticated workspace)
    (fun _ x => Installed base manifest reset (now (world x)) /\ safe_so_far (world x)) refusal.
Proof.
  intros Hwf Hbuf Hbytes Hsize. pose proof (wf_asset _ _ _ Hwf) as Ha. unfold install_body.
  set (fresh := fun x : Run => reader x = new_reader /\ idle (world x)).
  assert (Hfresh : forall x st, fresh x -> st <> Ok -> refusal st x) by (intros x st [_ Hx] Hst; by apply idle_refusal).
  apply triple_ineed; [intros x Hx; by apply Hfresh|]. intros [_ Hws]%andb_true_iff.
  assert (Hbuf1 : 1 <= io_buffer_size workspace).
  { unfold WorkspaceValid in Hws. rewrite !andb_true_iff in Hws. destruct Hws as [_ Hb%negb_true_iff%Z.eqb_neq]. lia. }
  eapply triple_bind; [by apply check_files_triple|]. intros totals. apply triple_split. intros Hreserved.
  apply triple_ineed; [intros x Hx; by apply Hfresh|]. intros _.
  eapply triple_bind; [by apply check_deletions_triple|]. intros u1. apply triple_split. intros Hdel.
  eapply triple_bind; [by apply check_replacements_triple|]. intros u2. apply triple_split. intros Hrep.
  assert (Hplan : plan_ok manifest) by (eapply plan_of_manifest; [exact Ha | done | by apply Forall_app]).
  pose proof (wf_inventory _ _ _ _ _ Ha) as Hinv.
  assert (Hdig : Forall (fun f => digest_ok (file_sha256 f)) files).
  { eapply Forall_impl; [apply (wf_files _ _ Hinv)|]. intros f Hf. apply (ok_digest _ Hf). }
  assert (Hpaths : NoDup (file_path <$> files)) by (apply ascending_NoDup, (wf_files_ascending _ _ Hinv)).
  eapply (triple_bind _ _ _ (fun _ => calm)); [intros x [Hr Hx]; by apply Open_triple|]. intros u3.
  eapply (triple_bind _ _ _ (fun _ => calm)); [intros x [Hr Hx]; by apply Bind_triple|]. intros u4.
  apply calm_query; [done | intros r Hr; pose proof (GetVolumeSize_always _ r Hr) as Hg; by destruct (GetVolumeSize r); apply Hg|].
  intros volume_size. apply triple_ineed; [intros x Hx; by apply calm_refusal|]. intros _. apply calm_report; [done|].
  eapply triple_bind; [by apply choose_actions_triple|]. intros chosen. apply triple_split. intros Hchosen.
  apply triple_isome; [intros x Hx; by apply calm_refusal|]. intros required _. apply triple_update; [done|].
  apply calm_query; [done | intros r Hr; pose proof (GetFreeSpace_always _ r Hr) as Hg; by destruct (GetFreeSpace r); apply Hg|].
  intros available. apply triple_update; [done|]. apply triple_ineed; [intros x Hx; by apply calm_refusal|]. intros _.
  apply (triple_weaken _ (fun x => exists t, laying base manifest reset [] t /\ at_tree t x)) with (Q' := fun _ x => Installed base manifest reset (now (world x)) /\ safe_so_far (world x)) (R' := refusal); [|intros x [Hr Hx]; exists base; split; [exact (laying_base base manifest reset)|]; split; [exact Hr|];
    split; [by apply idle_safe | rewrite (proj2 Hx); apply off_refl] | done | done].
  apply (remove_temporary_step Hplan); [done..|].
  apply (triple_weaken _ (fun x => exists t, laying base manifest reset [] t /\ at_tree t x)) with (Q' := fun _ x => Installed base manifest reset (now (world x)) /\ safe_so_far (world x)) (R' := refusal); [|intros x [Hx _]; exact Hx | done | done].
  eapply triple_bind; [by apply (create_directories_triple Hplan)|]. intros u5.
  assert (Hsafe : forall (X : tree -> Prop) x, (exists t, X t /\ at_tree t x) -> safe_so_far (world x))
    by (intros X x (t & _ & _ & Hq); by apply (quiet_held Safe t)).
  eapply (triple_bind _ get_changed_bytes _ (fun _ x => exists t, laying base manifest reset dirs t /\ at_tree t x)); [by intros x Hx|]. intros changed.
  apply report_step; [done..| |by apply Hsafe|].
  { intros x w (t & Ht & Hr & Hq) Hd. exists t. split; [done|]. split; [done|]. unfold quiet. cbn. by rewrite Hd. }
  apply (change_triple Hplan); [done..|]. intros i. apply (remove_temporary_step Hplan); [done..|].
  intros x [(t & Ht & Hr & Hq) Hn]. unfold itest.
  pose proof (report_same PhaseInstall (if changed =? 0 then 1 else changed) (if changed =? 0 then 1 else changed) (world x)) as [[Hd _] _].
  destruct (report_to _ _ _ (world x)) as [[] w]; cbn in Hd.
  - cbn. unfold safe_so_far. rewrite Hd. split; [|by apply (quiet_held Safe t)].
    apply (ready_installed _ _ _ Hplan t); [done | apply Hq | done].
  - apply safe_refusal; [done..|]. unfold safe_so_far. cbn. rewrite Hd. by apply (quiet_held Safe t).
Qed.

Lemma Install_lemma board storage authenticated workspace (s : F) (a : S) (p : P) :
  manifest_wf board storage manifest -> 0 <= io_buffer_size workspace -> Forall is_byte archive -> len archive <= UINT64_MAX ->
  nodes s = base ->
  match Install tinfl_init tinfl_decompress manifest reset authenticated workspace (mkRecorded s []) a p with
  | Some (u, w) => safe_so_far w /\ (untouched_status (status u) = true -> idle w) /\
      (status u = Ok -> Installed base manifest reset (now w))
  | None => False
  end.
Proof.
  intros Hwf Hbuf Hbytes Hsize Hbase. unfold Install.
  set (x := mkRun (Result InvalidArgument) new_reader (mkWorld (mkRecorded s []) a (new_sink [] 0 0) new_hash_sink p)).
  assert (Hx : reader x = new_reader /\ idle (world x)) by (split; [done|]; split; [constructor | exact Hbase]).
  pose proof (install_body_triple board storage authenticated workspace Hwf Hbuf Hbytes Hsize x Hx) as Hi.
  destruct (install_body _ _ _ _ _ _ x) as [[u|st|] x']; [| |done].
  - destruct Hi as [Hi Hs]. by split.
  - destruct Hi as [Hst Hi]. cbn. destruct (untouched_status st) eqn:E.
    + split; [by apply idle_safe | done].
    + split; [done|]. by split.
Qed.
End run.

(** ** The theorems *)
Section theorems.
Context {F S P : Type} `{FileSystemLaws F} `{SeekableZipSource S} `{SimpleUpdateProgress P}.
Context (archive : bytes) `{!ImmutableSource S archive} (archive_bytes : Forall is_byte archive).
Context (archive_fits : len archive <= UINT64_MAX).
Context {T : Type} (tinfl_init : T) (tinfl_decompress : T -> bytes -> bytes -> Z -> Z -> bool -> tinfl_result T).
Context `{!TinflContract tinfl_decompress}.
Variables (board : BoardFamily) (storage : ManifestParseStorage) (manifest : ReleaseManifest).
Hypothesis manifest_ok : manifest_wf board storage manifest.
Variables (reset authenticated : bool) (workspace : SimpleUpdateWorkspace) (s : F) (a : S) (p : P).
Hypothesis buffer_size : 0 <= io_buffer_size workspace.


(** C2. An installation that is refused for its arguments, the paths of the release,
    the archive, the size of the volume, the free space or by a cancellation has not
    changed the volume, not even for a moment. *)
Theorem Install_refusal_untouched :
  match Install tinfl_init tinfl_decompress manifest reset authenticated workspace (mkRecorded s []) a p with
  | Some (u, w) => status u ∈ [InvalidArgument; ReservedPathCollision; ZipInvalid; VolumeTooSmall; InsufficientSpace; Canceled] ->
      Forall (fun t => t = nodes s) (history (disk w)) /\ nodes (volume (disk w)) = nodes s
  | None => False
  end.
Proof.
  pose proof (Install_lemma archive tinfl_init tinfl_decompress (nodes s) manifest reset board storage authenticated workspace
    s a p manifest_ok buffer_size archive_bytes archive_fits eq_refl) as Hi.
  destruct (Install _ _ _ _ _ _ _ _ _) as [[u w]|]; [|done]. intros Hu. apply Hi. repeat (apply elem_of_cons in Hu as [->|Hu]; [done|]). by apply elem_of_nil in Hu.
Qed.

End theorems.

(** ** A volume, an archive and a release *)
#[local] Existing Instance Memory.memory_file_system.
#[local] Existing Instance Memory.memory_laws.
#[local] Instance agreeable : SimpleUpdateProgress unit := { Report _ _ _ p := (true, p) }.
(** An inflate that accepts nothing: the members below are stored. *)
Definition no_inflate (state : unit) (input dictionary : bytes) (_ _ : Z) (_ : bool) : tinfl_result unit :=
  mkTinfl unit (-1) state 0 0 dictionary.
#[local] Instance no_inflate_contract : TinflContract no_inflate.
Proof. constructor. intros. cbn. len_facts. split_and!; try lia; done. Qed.

Definition file_of (path : string) (content : bytes) (policy : ManifestFilePolicy) : ManifestFile :=
  mkManifestFile (str path) (len content) (sha256_spec content) policy ReleaseManifest.Store.
Definition stored_entry (path : string) (content : bytes) (header data : Z) : ZipEntry :=
  mkEntry (str path) false ZipFormat.Store 0 (Z.lxor (UpdateCrc32 UINT32_MAX content) UINT32_MAX) (len content) (len content)
    header data 0 0.

Definition kernel_content : bytes := str "new".
Definition identity_content : bytes := str "2".
Definition small_release : ReleaseManifest :=
  mkReleaseManifest 3 (mkReleaseHead [] [] [] 1 1 1 3 []) (mkReleaseConfiguration [] [] [])
    (mkManifestAsset Pi5Pi500 [] 1 [] 1 1
      [file_of "BMX-BUILD.json" identity_content Metadata; file_of "kernel8.img.c64" kernel_content Kernel]
      [] [str "old.txt"] [] false).
Definition small_inventory : ZipInventory :=
  mkInventory [stored_entry "BMX-BUILD.json" identity_content 0 44; stored_entry "kernel8.img.c64" kernel_content 45 90]
    2 0 236 4 93 121.
Definition small_archive : bytes :=
  archive_of small_inventory [mkMember 20 0 identity_content; mkMember 20 0 kernel_content] [mkStamp 20 20 0 0; mkStamp 20 20 0 0].
Definition small_volume (script : list Memory.outcome) : Memory.Volume :=
  Memory.new_volume (<[key (str "old.txt") := FileNode [1]]> (<[key (str "KERNEL8.IMG.C64") := FileNode [2]]> ∅))
    kSimpleUpdateMinimumVolumeBytes script.
Definition small_install (script : list Memory.outcome) :=
  Install (H0 := fixed_source small_archive) tt no_inflate small_release false true (mkWorkspace 8 8 8 8 512)
    (mkRecorded (small_volume script) []) tt tt.
Definition left_behind (script : list Memory.outcome) : option (SimpleUpdateStatus * list (option node)) :=
  (fun x => (status x.1, (fun p => nodes (volume (disk x.2)) !! key (str p)) <$>
     ["kernel8.img.c64"; "BMX-BUILD.json"; "old.txt"; "BMX-UPD.TMP"]%string)) <$> small_install script.


Example small_install_succeeds :
  left_behind [] = Some (Ok, [Some (FileNode kernel_content); Some (FileNode identity_content); None; None]).
Proof. vm_compute. reflexivity. Qed.

(** A rename that fails after it has removed its target: the kernel is missing, the
    old build identity stays. *)
Example small_install_interrupted :
  left_behind (replicate 10 Memory.Done ++ [Memory.Lost false]) = Some (ExtractFailed, [None; None; Some (FileNode [1]); None]).
Proof. vm_compute. reflexivity. Qed.

Lemma small_archive_bytes : Forall is_byte small_archive.
Proof. apply forallb_is_byte. vm_compute. reflexivity. Qed.

Lemma small_buffer : 0 <= io_buffer_size (mkWorkspace 8 16 8 16 512).
Proof. discriminate. Qed.
Lemma small_archive_fits : len small_archive <= UINT64_MAX.
Proof. vm_compute. discriminate. Qed.

(** The sample manifest is well formed. *)
Lemma sample_manifest_wf :
  exists m, ParseReleaseManifest sample_manifest Pi5Pi500 sample_storage = Val m /\ manifest_wf Pi5Pi500 sample_storage m.
Proof.
  pose proof sample_manifest_accepted as Ha.
  pose proof (ParseReleaseManifest_ok sample_manifest Pi5Pi500 sample_storage) as Hp.
  destruct (ParseReleaseManifest sample_manifest Pi5Pi500 sample_storage) as [m| |]; [|done..]. exists m. split; [done|].
  apply Hp; [apply forallb_is_byte; vm_compute; reflexivity | discriminate | repeat split; discriminate].
Qed.


Lemma Install_refusal_untouched_witness :
  exists m, manifest_wf Pi5Pi500 sample_storage m /\
  match Install (H0 := fixed_source small_archive) tt no_inflate m false true (mkWorkspace 8 16 8 16 512)
          (mkRecorded (small_volume []) []) tt tt with
  | Some (u, w) => status u ∈ [InvalidArgument; ReservedPathCollision; ZipInvalid; VolumeTooSmall; InsufficientSpace; Canceled] ->
      Forall (fun t => t = nodes (small_volume [])) (history (disk w)) /\ nodes (volume (disk w)) = nodes (small_volume [])
  | None => False
  end.
Proof.
  destruct sample_manifest_wf as (m & _ & Hm). exists m. split; [exact Hm|].
  exact (Install_refusal_untouched (H1 := fixed_source small_archive) (ImmutableSource0 := fixed_source_immutable small_archive) small_archive small_archive_bytes small_archive_fits
           tt no_inflate Pi5Pi500 sample_storage m Hm false true (mkWorkspace 8 16 8 16 512) (small_volume []) tt tt small_buffer).
Defined.

