(* ===== verification/TextureLayout.v ===== *)
(** * The layout of RGBA8 textures (src/src/v3dcrt/rgba8_texture_layout.cpp)

    The texture unit of the V3D reads images in micro-tiles of 4 by 4 texels,
    grouped, for larger images, in blocks of 8 by 8, columns of four blocks, and an
    exclusive-or of the block row against bank conflicts.  The model has the choice
    of the layout, the byte offset of a texel, the table of the offsets and the
    upload in physical order.  Unsigned sums, differences and products are taken
    modulo 2^32 once per expression.  [SampleRgba8Texture] is floating point and is
    not modelled. *)
From S2P Require Import Prelude JsonFields.
Local Open Scope Z_scope.

Definition kTextureAddressAlignment : Z := 64.
Definition kMaxImageDimension : Z := Z.shiftl 1 14 - 1.
Definition kRgba8BytesPerPixel : Z := 4.
Definition kUtileWidth : Z := 4.
Definition kUtileHeight : Z := 4.
Definition kUifBlockWidth : Z := kUtileWidth * 2.
Definition kUifBlockHeight : Z := kUtileHeight * 2.
Definition kUifBlocksPerColumn : Z := 4.
Definition kUifBlockBytes : Z := 256.
Definition kUifBlockRowBytes : Z := kUifBlocksPerColumn * kUifBlockBytes.
Definition kUifPageBytes : Z := 4096.
Definition kUifBanks : Z := 8.
Definition kUifPageCacheBytes : Z := kUifPageBytes * kUifBanks.

Inductive Rgba8TextureTiling :=
| kRgba8TextureLinearTile | kRgba8TextureUbLinear1 | kRgba8TextureUbLinear2
| kRgba8TextureUifNoXor | kRgba8TextureUifXor.

#[export] Instance Rgba8TextureTiling_eq_dec : EqDecision Rgba8TextureTiling.
Proof. solve_decision. Defined.

Record Rgba8TextureLayout := mkLayout {
  width : Z;
  height : Z;
  padded_width : Z;
  padded_height : Z;
  padded_row_bytes : Z;
  size_bytes : Z;
  array_stride_64_bytes : Z;
  level_0_ub_pad : Z;
  tiling : Rgba8TextureTiling;
}.

#[export] Instance Rgba8TextureLayout_eq_dec : EqDecision Rgba8TextureLayout.
Proof. solve_decision. Defined.

(** ** The choice of a layout *)
Definition AlignUp (value alignment : Z) : option Z :=
  if (alignment =? 0) || (u32 (UINT32_MAX - (alignment - 1)) <? value) then None
  else Some (Z.land (u32 (value + alignment - 1)) (u32 (Z.lnot (alignment - 1)))).

Definition kPageRows : Z := kUifPageBytes / kUifBlockRowBytes.
Definition kPageRowsTimesThreeHalves : Z := Z.shiftr (kPageRows * 3) 1.
Definition kPageCacheRows : Z := kUifPageCacheBytes / kUifBlockRowBytes.
Definition kPageCacheMinusThreeHalves : Z := kPageCacheRows - kPageRowsTimesThreeHalves.

Definition ComputeUifBlockPadding (padded_height : Z) : Z :=
  let height_blocks := padded_height / kUifBlockHeight in
  let cache_offset := height_blocks mod kPageCacheRows in
  if cache_offset =? 0 then 0
  else if cache_offset <? kPageRowsTimesThreeHalves then
    if height_blocks <? kPageCacheRows then 0 else kPageRowsTimesThreeHalves - cache_offset
  else if kPageCacheMinusThreeHalves <? cache_offset then kPageCacheRows - cache_offset else 0.

(** The tiling, the padded width and height and the padding in blocks. *)
Definition pad_image (width height : Z) : option (Rgba8TextureTiling * Z * Z * Z) :=
  if (width <=? kUtileWidth) || (height <=? kUtileHeight) then
    padded_width ← AlignUp width kUtileWidth;
    padded_height ← AlignUp height kUtileHeight;
    Some (kRgba8TextureLinearTile, padded_width, padded_height, 0)
  else if width <=? kUifBlockWidth then
    padded_width ← AlignUp width kUifBlockWidth;
    padded_height ← AlignUp height kUifBlockHeight;
    Some (kRgba8TextureUbLinear1, padded_width, padded_height, 0)
  else if width <=? 2 * kUifBlockWidth then
    padded_width ← AlignUp width (2 * kUifBlockWidth);
    padded_height ← AlignUp height kUifBlockHeight;
    Some (kRgba8TextureUbLinear2, padded_width, padded_height, 0)
  else
    padded_width ← AlignUp width (kUifBlocksPerColumn * kUifBlockWidth);
    aligned_height ← AlignUp height kUifBlockHeight;
    let pad := ComputeUifBlockPadding aligned_height in
    if (UINT32_MAX - aligned_height) / kUifBlockHeight <? pad then None
    else
      let padded_height := u32 (aligned_height + pad * kUifBlockHeight) in
      let padded_block_rows := padded_height / kUifBlockHeight in
      Some (if padded_block_rows mod (kUifPageCacheBytes / kUifBlockRowBytes) =? 0
            then kRgba8TextureUifXor else kRgba8TextureUifNoXor, padded_width, padded_height, pad).

Definition ComputeRgba8TextureLayout (width height max_array_stride : Z) : option Rgba8TextureLayout :=
  if (width =? 0) || (kMaxImageDimension <? width) || (height =? 0) || (kMaxImageDimension <? height) ||
     (max_array_stride =? 0)
  then None
  else
    '(tiling, padded_width, padded_height, pad) ← pad_image width height;
    let row_bytes := padded_width * kRgba8BytesPerPixel in
    let size_bytes := u64 (row_bytes * padded_height) in
    if (UINT32_MAX <? row_bytes) || (UINT32_MAX <? size_bytes) || (size_bytes =? 0) ||
       negb (Z.land size_bytes (kTextureAddressAlignment - 1) =? 0)
    then None
    else
      let array_stride := size_bytes / kTextureAddressAlignment in
      if (array_stride =? 0) || (max_array_stride <? array_stride) then None
      else Some (mkLayout width height padded_width padded_height (u32 row_bytes) (u32 size_bytes)
                   (u32 array_stride) pad tiling).

Definition Rgba8TextureLayoutMatchesComputed (layout : Rgba8TextureLayout) (max_array_stride : Z) : bool :=
  match ComputeRgba8TextureLayout (width layout) (height layout) max_array_stride with
  | None => false
  | Some expected =>
      (padded_width layout =? padded_width expected) &&
      (padded_height layout =? padded_height expected) &&
      (padded_row_bytes layout =? padded_row_bytes expected) &&
      (size_bytes layout =? size_bytes expected) &&
      (array_stride_64_bytes layout =? array_stride_64_bytes expected) &&
      (level_0_ub_pad layout =? level_0_ub_pad expected) &&
      bool_decide (tiling layout = tiling expected)
  end.

(** ** The offset of a texel *)
Definition UtilePixelOffset (x y : Z) : Z := u32 ((y * kUtileWidth + x) * kRgba8BytesPerPixel).

(** The offset within a block of 8 by 8. *)
Definition block_part (x y : Z) : Z :=
  (if negb (Z.land x kUtileWidth =? 0) then 64 else 0) + (if negb (Z.land y kUtileHeight =? 0) then 128 else 0) +
  UtilePixelOffset (Z.land x (kUtileWidth - 1)) (Z.land y (kUtileHeight - 1)).

Definition Rgba8TexturePixelOffset (layout : Rgba8TextureLayout) (x y : Z) : option Z :=
  if (width layout <=? x) || (height layout <=? y) || (padded_width layout <? width layout) ||
     (padded_height layout <? height layout) || (size_bytes layout =? 0)
  then None
  else
    result ← match tiling layout with
      | kRgba8TextureLinearTile =>
          let utile_index_x := x / kUtileWidth in
          let utile_index_y := y / kUtileHeight in
          if negb (utile_index_x =? 0) && negb (utile_index_y =? 0) then None
          else Some (u32 (64 * (utile_index_x + utile_index_y) +
                          UtilePixelOffset (Z.land x (kUtileWidth - 1)) (Z.land y (kUtileHeight - 1))))
      | kRgba8TextureUbLinear1 | kRgba8TextureUbLinear2 =>
          let columns := if bool_decide (tiling layout = kRgba8TextureUbLinear1) then 1 else 2 in
          Some (u32 (kUifBlockBytes * ((y / kUifBlockHeight) * columns + x / kUifBlockWidth) + block_part x y))
      | kRgba8TextureUifNoXor | kRgba8TextureUifXor =>
          let block_x := x / kUifBlockWidth in
          let block_y := y / kUifBlockHeight in
          let block_y :=
            if bool_decide (tiling layout = kRgba8TextureUifXor) &&
               negb (Z.land (block_x / kUifBlocksPerColumn) 1 =? 0)
            then Z.lxor block_y 0x10 else block_y in
          let block_rows := padded_height layout / kUifBlockHeight in
          let block_id := u32 ((block_x / kUifBlocksPerColumn) * ((block_rows - 1) * kUifBlocksPerColumn) +
                               block_x + block_y * kUifBlocksPerColumn) in
          Some (u32 (block_id * kUifBlockBytes + block_part x y))
      end;
    if u32 (size_bytes layout - kRgba8BytesPerPixel) <? result then None else Some result.

(** The loops over [y] and [x]; a table entry is written for each texel. *)
Definition BuildRgba8TexturePixelOffsetTable (layout : Rgba8TextureLayout) (max_array_stride : Z)
    (validate_layout : bool) (offset_count : Z) : option (list Z) :=
  let pixel_count := width layout * height layout in
  if (pixel_count =? 0) || (UINT32_MAX <? pixel_count) || (offset_count <? pixel_count) ||
     (validate_layout && negb (Rgba8TextureLayoutMatchesComputed layout max_array_stride))
  then None
  else mapM (fun '(y, x) => Rgba8TexturePixelOffset layout x y)
         (list_prod (seqZ 0 (height layout)) (seqZ 0 (width layout))).

Definition kMemoryFormatLinearTile : Z := 1.
Definition kMemoryFormatUbLinear1 : Z := 2.
Definition kMemoryFormatUbLinear2 : Z := 3.
Definition kMemoryFormatUifNoXor : Z := 4.
Definition kMemoryFormatUifXor : Z := 5.

(** The memory format and [height_in_ub_or_stride]. *)
Definition GetRgba8RenderTargetStoreConfig (layout : Rgba8TextureLayout) (max_array_stride : Z) : option (Z * Z) :=
  if negb (Rgba8TextureLayoutMatchesComputed layout max_array_stride) then None
  else Some match tiling layout with
    | kRgba8TextureLinearTile => (kMemoryFormatLinearTile, 0)
    | kRgba8TextureUbLinear1 => (kMemoryFormatUbLinear1, 0)
    | kRgba8TextureUbLinear2 => (kMemoryFormatUbLinear2, 0)
    | kRgba8TextureUifNoXor => (kMemoryFormatUifNoXor, padded_height layout / kUifBlockHeight)
    | kRgba8TextureUifXor => (kMemoryFormatUifXor, padded_height layout / kUifBlockHeight)
    end.

Definition Rgba8TextureTilingName (tiling : Rgba8TextureTiling) : bytes :=
  match tiling with
  | kRgba8TextureLinearTile => str "lineartile"
  | kRgba8TextureUbLinear1 => str "ublinear-1"
  | kRgba8TextureUbLinear2 => str "ublinear-2"
  | kRgba8TextureUifNoXor => str "uif"
  | kRgba8TextureUifXor => str "uif-xor"
  end.

(** ** The upload

    The destination is the list of its bytes; [Val] and [Stop] are the answers
    true and false, with what the destination then holds, and [Ub] is an access
    outside the destination or the array of values. *)
Definition upload A : Type := parsed bytes A.

(** A 32-bit word in memory; the processors are little-endian. *)
Definition le32 (w : Z) : bytes :=
  [Z.land w 255; Z.land (Z.shiftr w 8) 255; Z.land (Z.shiftr w 16) 255; Z.land (Z.shiftr w 24) 255].

(** [memcpy] of [count] words of [values], from [from]. *)
Definition memcpy_words (destination : bytes) (offset : Z) (values : list Z) (from count : Z) : upload bytes :=
  if (len destination <? offset + 4 * count) || (len values <? from + count) then Ub
  else Val (take (Z.to_nat offset) destination ++ concat (le32 <$> sub values from count) ++
            drop (Z.to_nat (offset + 4 * count)) destination).

Definition WriteUtileValues (destination : bytes) (offset : Z) (values : list Z) (from stride_words : Z)
    : upload bytes :=
  for_each kUtileHeight destination (fun y destination =>
    memcpy_words destination (offset + y * kUtileWidth * kRgba8BytesPerPixel) values (from + y * stride_words)
      kUtileWidth).

Definition ValidRegionExtent (origin logical_extent region_extent : Z) : Z :=
  if logical_extent <=? origin then 0
  else let remaining := logical_extent - origin in if remaining <? region_extent then remaining else region_extent.

Section upload.
(** The callback: origin, width, height, array of values and stride to the array it
    leaves; [None] is its answer false. *)
Variable source : Z -> Z -> Z -> Z -> list Z -> Z -> option (list Z).
Variable layout : Rgba8TextureLayout.

(** A square of the image, [extent] wide and high, or as much of it as there is. *)
Definition read_region (origin_x origin_y extent : Z) (destination : bytes) : upload (list Z) :=
  let values := replicate (Z.to_nat (extent * extent)) 0 in
  let w := ValidRegionExtent origin_x (width layout) extent in
  let h := ValidRegionExtent origin_y (height layout) extent in
  if negb (w =? 0) && negb (h =? 0)
  then some (source origin_x origin_y w h values extent) destination
  else Val values.

(** A turn of the loop over utiles. *)
Definition upload_utile (origin_x origin_y : Z) (state : Z * bytes) : upload (Z * bytes) :=
  let '(output, destination) := state in
  get! values := read_region origin_x origin_y kUtileWidth destination in
  get! destination := WriteUtileValues destination output values 0 kUtileWidth in
  Val (output + 64, destination).

(** A turn of a loop over blocks: four utiles. *)
Definition upload_block (origin_x origin_y : Z) (state : Z * bytes) : upload (Z * bytes) :=
  let '(output, destination) := state in
  get! values := read_region origin_x origin_y kUifBlockWidth destination in
  get! destination := WriteUtileValues destination output values 0 kUifBlockWidth in
  get! destination := WriteUtileValues destination (output + 64) values kUtileWidth kUifBlockWidth in
  get! destination := WriteUtileValues destination (output + 128) values (kUtileHeight * kUifBlockWidth)
                        kUifBlockWidth in
  get! destination := WriteUtileValues destination (output + 192) values
                        (kUtileHeight * kUifBlockWidth + kUtileWidth) kUifBlockWidth in
  Val (output + kUifBlockBytes, destination).

Definition upload_loops (destination : bytes) : upload (Z * bytes) :=
  match tiling layout with
  | kRgba8TextureLinearTile =>
      for_each (padded_height layout / kUtileHeight) (0, destination) (fun utile_y state =>
        for_each (padded_width layout / kUtileWidth) state (fun utile_x state =>
          upload_utile (u32 (utile_x * kUtileWidth)) (u32 (utile_y * kUtileHeight)) state))
  | kRgba8TextureUbLinear1 | kRgba8TextureUbLinear2 =>
      let columns := if bool_decide (tiling layout = kRgba8TextureUbLinear1) then 1 else 2 in
      for_each (padded_height layout / kUifBlockHeight) (0, destination) (fun block_y state =>
        for_each columns state (fun block_x state =>
          upload_block (u32 (block_x * kUifBlockWidth)) (u32 (block_y * kUifBlockHeight)) state))
  | kRgba8TextureUifNoXor | kRgba8TextureUifXor =>
      for_each (padded_width layout / (kUifBlocksPerColumn * kUifBlockWidth)) (0, destination) (fun group state =>
        for_each (padded_height layout / kUifBlockHeight) state (fun physical_y state =>
          let logical_y :=
            if bool_decide (tiling layout = kRgba8TextureUifXor) && negb (Z.land group 1 =? 0)
            then Z.lxor physical_y 0x10 else physical_y in
          for_each kUifBlocksPerColumn state (fun column state =>
            upload_block (u32 ((group * kUifBlocksPerColumn + column) * kUifBlockWidth))
              (u32 (logical_y * kUifBlockHeight)) state)))
  end.

Definition UploadRgba8TexturePhysical (destination : bytes) : upload bytes :=
  need (negb ((len destination <? size_bytes layout) || (size_bytes layout =? 0))) destination ;!
  get! state := upload_loops destination in
  let '(output, destination) := state in
  need (output =? size_bytes layout) destination ;!
  Val destination.
End upload.

(** ** Arithmetic *)
Lemma land_align v k : 0 <= k <= 32 -> 0 <= v < 2 ^ 32 -> Z.land v (u32 (Z.lnot (2 ^ k - 1))) = v / 2 ^ k * 2 ^ k.
Proof.
  intros Hk Hv. rewrite <- Z.shiftr_div_pow2, <- Z.shiftl_mul_pow2 by lia. apply Z.bits_inj'. intros i Hi.
  unfold u32. rewrite <- Z.land_ones, !Z.land_spec, Z.lnot_spec by lia.
  replace (2 ^ k - 1) with (Z.ones k) by (rewrite Z.ones_equiv; lia).
  rewrite Z.shiftl_spec by lia. destruct (Z.ltb_spec i k).
  - rewrite Z.ones_spec_low, (Z.testbit_neg_r _ (i - k)) by lia. by rewrite !andb_false_r.
  - rewrite (Z.ones_spec_high k), Z.shiftr_spec, Z.sub_add by lia. destruct (Z.ltb_spec i 32).
    + rewrite Z.ones_spec_low by lia. by rewrite !andb_true_r.
    + rewrite (Z.bits_above_log2 v i); [done | lia|]. destruct (Z.eq_dec v 0) as [->|]; [cbn; lia|].
      apply Z.log2_lt_pow2; [lia|]. eapply Z.lt_le_trans; [apply Hv|]. apply Z.pow_le_mono_r; lia.
Qed.

(** Rounding up to a power of two. *)
Definition align_up (v a : Z) : Z := (v + a - 1) / a * a.

Lemma AlignUp_spec v k : 0 <= k <= 31 -> 0 <= v < 2 ^ 31 -> AlignUp v (2 ^ k) = Some (align_up v (2 ^ k)).
Proof.
  intros Hk Hv. unfold AlignUp, UINT32_MAX. assert (Hp : 1 <= 2 ^ k <= 2 ^ 31).
  { split; [change 1 with (2 ^ 0)|]; apply Z.pow_le_mono_r; lia. }
  assert (E0 : 2 ^ k =? 0 = false) by (apply Z.eqb_neq; lia). rewrite E0. cbn [orb].
  assert (E1 : u32 (2 ^ 32 - 1 - (2 ^ k - 1)) <? v = false).
  { apply Z.ltb_ge. unfold u32. rewrite Z.mod_small by lia. lia. }
  rewrite E1. f_equal. unfold u32 at 1. rewrite Z.mod_small by lia. by rewrite land_align by lia.
Qed.

Lemma align_up_spec v a : 0 < a -> align_up v a mod a = 0 /\ v <= align_up v a < v + a.
Proof.
  intros Ha. unfold align_up. split; [by apply Z.mod_mul; lia|].
  pose proof (Z.div_mod (v + a - 1) a ltac:(lia)). pose proof (Z.mod_pos_bound (v + a - 1) a ltac:(lia)). lia.
Qed.

(** ** What a computed layout is *)
Definition tiled (t : Rgba8TextureTiling) (pw ph : Z) : Prop :=
  match t with
  | kRgba8TextureLinearTile => pw mod 4 = 0 /\ ph mod 4 = 0 /\ (pw = 4 \/ ph = 4)
  | kRgba8TextureUbLinear1 => pw = 8 /\ ph mod 8 = 0
  | kRgba8TextureUbLinear2 => pw = 16 /\ ph mod 8 = 0
  | kRgba8TextureUifNoXor => pw mod 32 = 0 /\ ph mod 8 = 0
  | kRgba8TextureUifXor => pw mod 32 = 0 /\ ph mod 256 = 0
  end.

Record laid_out (l : Rgba8TextureLayout) : Prop := {
  lo_tiled : tiled (tiling l) (padded_width l) (padded_height l);
  lo_width : 1 <= width l <= padded_width l /\ padded_width l <= 16384;
  lo_height : 1 <= height l <= padded_height l /\ padded_height l <= 16640;
  lo_row : padded_row_bytes l = 4 * padded_width l;
  lo_size : size_bytes l = 4 * padded_width l * padded_height l;
  lo_stride : size_bytes l = 64 * array_stride_64_bytes l;
}.

(** The padding keeps the block rows of neighbouring columns away from the same
    page of the cache: unless the image is lower than the cache, its height ends
    on a multiple of 32 rows or at least six rows from one. *)
Lemma ComputeUifBlockPadding_spec ph : 0 <= ph -> let rows := ph / 8 in let pad := ComputeUifBlockPadding ph in
  0 <= pad < 6 /\ (rows + pad < 32 \/ (rows + pad) mod 32 = 0 \/ 6 <= (rows + pad) mod 32 <= 26).
Proof.
  intros Hp. unfold ComputeUifBlockPadding.
  change kPageCacheRows with 32. change kPageRowsTimesThreeHalves with 6. change kPageCacheMinusThreeHalves with 26.
  change kUifBlockHeight with 8. cbv zeta. set (rows := ph / 8). assert (0 <= rows) by (apply Z.div_pos; lia).
  repeat case_match; zbool; divmod_lia.
Qed.

Ltac fits := repeat split; first [lia | divmod_lia | left; divmod_lia | right; divmod_lia].

Lemma pad_image_spec w h : 1 <= w <= 16383 -> 1 <= h <= 16383 -> exists t pw ph pad,
  pad_image w h = Some (t, pw, ph, pad) /\ tiled t pw ph /\ w <= pw <= 16384 /\ h <= ph <= 16640.
Proof.
  intros Hw Hh. unfold pad_image.
  assert (Hal : forall v k, 1 <= v <= 16383 -> 0 <= k <= 8 -> AlignUp v (2 ^ k) = Some (align_up v (2 ^ k))).
  { intros v k Hv Hk. apply AlignUp_spec; lia. }
  change kUtileWidth with (2 ^ 2). change kUtileHeight with (2 ^ 2). change kUifBlockWidth with (2 ^ 3).
  change kUifBlockHeight with (2 ^ 3). change (2 * 2 ^ 3) with (2 ^ 4). change (kUifBlocksPerColumn * 2 ^ 3) with (2 ^ 5).
  rewrite !Hal by lia. cbn [mbind option_bind]. change (kUifPageCacheBytes / kUifBlockRowBytes) with 32.
  pose proof (fun a => align_up_spec w a) as Aw. pose proof (fun a => align_up_spec h a) as Ah.
  destruct (Z.leb_spec w (2 ^ 2)); [|destruct (Z.leb_spec h (2 ^ 2))]; cbn [orb].
  - specialize (Aw 4 ltac:(lia)). specialize (Ah 4 ltac:(lia)).
    do 4 eexists. split; [done|]. cbn [tiled]. change (2 ^ 2) with 4 in *. fits.
  - specialize (Aw 4 ltac:(lia)). specialize (Ah 4 ltac:(lia)).
    do 4 eexists. split; [done|]. cbn [tiled]. change (2 ^ 2) with 4 in *. fits.
  - change (2 ^ 2) with 4 in *. change (2 ^ 3) with 8 in *. change (2 ^ 4) with 16 in *. change (2 ^ 5) with 32 in *.
    specialize (Ah 8 ltac:(lia)). destruct (Z.leb_spec w 8); [|destruct (Z.leb_spec w 16)].
    + specialize (Aw 8 ltac:(lia)). do 4 eexists. split; [done|]. cbn [tiled]. fits.
    + specialize (Aw 16 ltac:(lia)). do 4 eexists. split; [done|]. cbn [tiled]. fits.
    + specialize (Aw 32 ltac:(lia)). set (ph := align_up h 8) in *.
      pose proof (ComputeUifBlockPadding_spec ph ltac:(lia)) as [Hpad _]. cbv zeta in Hpad.
      set (pad := ComputeUifBlockPadding ph) in *. rewrite (proj2 (Z.ltb_ge _ pad)) by (unfold UINT32_MAX; divmod_lia).
      unfold u32. rewrite (Z.mod_small (ph + pad * 8) (2 ^ 32)) by lia. do 4 eexists. split; [done|].
      destruct (Z.eqb_spec ((ph + pad * 8) / 8 mod 32) 0); cbn [tiled]; fits.
Qed.

(** A layout is found for every image the texture unit can address, if its stride fits. *)
Lemma ComputeRgba8TextureLayout_spec w h m : 0 <= w -> 0 <= h -> 0 <= m ->
  match ComputeRgba8TextureLayout w h m with
  | Some l => laid_out l /\ width l = w /\ height l = h /\ array_stride_64_bytes l <= m
  | None => ~ (1 <= w <= 16383 /\ 1 <= h <= 16383) \/
      exists t pw ph pad, pad_image w h = Some (t, pw, ph, pad) /\ m < pw * ph / 16
  end.
Proof.
  intros Hw Hh Hm. unfold ComputeRgba8TextureLayout. change kMaxImageDimension with 16383.
  change kRgba8BytesPerPixel with 4. change kTextureAddressAlignment with 64. unfold UINT32_MAX.
  destruct (Z.eqb_spec w 0); [left; lia|]. destruct (Z.ltb_spec 16383 w); [left; lia|].
  destruct (Z.eqb_spec h 0); [left; lia|]. destruct (Z.ltb_spec 16383 h); [left; lia|]. cbn [orb].
  destruct (pad_image_spec w h ltac:(lia) ltac:(lia)) as (t & pw & ph & pad & -> & Ht & Hpw & Hph).
  destruct (Z.eqb_spec m 0) as [->|].
  { right. exists t, pw, ph, pad. split; [done|]. assert (4 <= pw /\ 4 <= ph) by (destruct t; cbn in Ht; divmod_lia). assert (16 <= pw * ph) by nia. divmod_lia. }
  cbn [mbind option_bind]. assert (Hsz : 0 < pw * 4 * ph <= 2 ^ 32 - 1) by nia. unfold u64, u32.
  rewrite !(Z.mod_small (pw * 4 * ph) (2 ^ 64)) by lia. rewrite (proj2 (Z.ltb_ge _ (pw * 4))), (proj2 (Z.ltb_ge _ (pw * 4 * ph))) by lia.
  rewrite (proj2 (Z.eqb_neq (pw * 4 * ph) 0)) by lia. cbn [orb].
  assert (H64 : (pw * 4 * ph) mod 64 = 0).
  { replace (pw * 4 * ph) with (4 * (pw * ph)) by lia. replace 64 with (4 * 16) by lia. rewrite Z.mul_mod_distr_l by lia.
    assert (Hm16 : forall a b, a mod 4 = 0 -> b mod 4 = 0 -> (a * b) mod 16 = 0).
    { intros a b Ha Hb. apply Z.div_exact in Ha, Hb; [|lia..]. rewrite Ha, Hb.
      replace (4 * (a / 4) * (4 * (b / 4))) with (a / 4 * (b / 4) * 16) by lia. by apply Z.mod_mul. }
    rewrite Hm16; [done|..]; destruct t; cbn in Ht; divmod_lia. }
  change (64 - 1) with (Z.ones 6). rewrite Z.land_ones by lia. change (2 ^ 6) with 64. rewrite H64. cbn [Z.eqb negb].
  assert (Hst : pw * 4 * ph = 64 * (pw * 4 * ph / 64)) by divmod_lia. set (st := pw * 4 * ph / 64) in *.
  rewrite (proj2 (Z.eqb_neq st 0)) by lia. cbn [orb]. destruct (Z.ltb_spec m st).
  - right. exists t, pw, ph, pad. split; [done|]. replace (pw * ph / 16) with st; [done|]. divmod_lia.
  - rewrite !Z.mod_small by lia. split; [constructor; cbn; lia || done | done].
Qed.

(** ** Where a texel is *)
(** The row of blocks that is stored at, or read from, row [v] of group [g]. *)
Definition swap_row (l : Rgba8TextureLayout) (g v : Z) : Z :=
  if bool_decide (tiling l = kRgba8TextureUifXor) && Z.odd g then Z.lxor v 16 else v.

(** The coordinates that a word of the texture holds: the inverse of the offset. *)
Definition logical (l : Rgba8TextureLayout) (w : Z) : Z * Z :=
  let c := w mod 4 in let r := w / 4 mod 4 in let q := w / 16 mod 4 in let b := w / 64 in
  match tiling l with
  | kRgba8TextureLinearTile =>
      let t := w / 16 in let columns := padded_width l / 4 in (4 * (t mod columns) + c, 4 * (t / columns) + r)
  | kRgba8TextureUbLinear1 | kRgba8TextureUbLinear2 =>
      let columns := padded_width l / 8 in
      (8 * (b mod columns) + 4 * (q mod 2) + c, 8 * (b / columns) + 4 * (q / 2) + r)
  | kRgba8TextureUifNoXor | kRgba8TextureUifXor =>
      let rows := padded_height l / 8 in let g := b / 4 / rows in let py := b / 4 mod rows in
      (8 * (4 * g + b mod 4) + 4 * (q mod 2) + c, 8 * swap_row l g py + 4 * (q / 2) + r)
  end.

Lemma land_low_two x : Z.land x (4 - 1) = x mod 4.
Proof. change (4 - 1) with (Z.ones 2). rewrite Z.land_ones by lia. done. Qed.

Lemma land_4 x : Z.land x 4 = 4 * (x / 4 mod 2).
Proof.
  change 4 with (Z.land (Z.ones 3) 4) at 1. rewrite Z.land_assoc, Z.land_ones by lia. change (2 ^ 3) with 8.
  replace (x / 4 mod 2) with (x mod 8 / 4) by divmod_lia.
  assert (Hr : 0 <= x mod 8 < 8) by (by apply Z.mod_pos_bound). set (m := x mod 8) in *.
  assert (Hm : m = 0 \/ m = 1 \/ m = 2 \/ m = 3 \/ m = 4 \/ m = 5 \/ m = 6 \/ m = 7) by lia.
  by destruct Hm as [-> | [-> | [-> | [-> | [-> | [-> | [-> | ->]]]]]]].
Qed.

Lemma land_1_odd x : negb (Z.land x 1 =? 0) = Z.odd x.
Proof.
  change 1 with (Z.ones 1). rewrite Z.land_ones by lia. change (2 ^ 1) with 2.
  rewrite Zmod_odd. by destruct (Z.odd x).
Qed.

(** The word of a texel within its block. *)
Definition block_word (x y : Z) : Z := 32 * (y / 4 mod 2) + 16 * (x / 4 mod 2) + 4 * (y mod 4) + x mod 4.

Lemma UtilePixelOffset_spec x y : UtilePixelOffset (Z.land x (kUtileWidth - 1)) (Z.land y (kUtileHeight - 1)) =
  4 * (4 * (y mod 4) + x mod 4).
Proof.
  unfold UtilePixelOffset. change kUtileWidth with 4. change kUtileHeight with 4. change kRgba8BytesPerPixel with 4.
  rewrite !land_low_two. unfold u32. rewrite Z.mod_small by divmod_lia. lia.
Qed.

Lemma block_part_spec x y : block_part x y = 4 * block_word x y.
Proof.
  unfold block_part, block_word. rewrite UtilePixelOffset_spec. change kUtileWidth with 4. change kUtileHeight with 4.
  rewrite !land_4. pose proof (Z.mod_pos_bound (x / 4) 2 ltac:(lia)). pose proof (Z.mod_pos_bound (y / 4) 2 ltac:(lia)).
  destruct (Z.eqb_spec (4 * (x / 4 mod 2)) 0), (Z.eqb_spec (4 * (y / 4 mod 2)) 0); cbn [negb]; lia.
Qed.

Lemma block_word_parts b x y : let w := 64 * b + block_word x y in
  w / 64 = b /\ 8 * (x / 8) + 4 * (w / 16 mod 4 mod 2) + w mod 4 = x /\
  8 * (y / 8) + 4 * (w / 16 mod 4 / 2) + w / 4 mod 4 = y.
Proof. cbv zeta. unfold block_word. divmod_lia. Qed.

(** The exclusive-or swaps the halves of each 32 rows. *)
Lemma lxor_16 v : 0 <= v -> Z.lxor v 16 / 32 = v / 32 /\ 0 <= Z.lxor v 16 /\ Z.lxor (Z.lxor v 16) 16 = v.
Proof.
  intros Hv. split; [|split].
  - change 32 with (2 ^ 5). rewrite <- !Z.shiftr_div_pow2, Z.shiftr_lxor by lia. change (Z.shiftr 16 5) with 0.
    by rewrite Z.lxor_0_r.
  - apply Z.lxor_nonneg. split; lia.
  - rewrite Z.lxor_assoc, Z.lxor_nilpotent. apply Z.lxor_0_r.
Qed.

Lemma swap_row_spec l g v : laid_out l -> tiling l = kRgba8TextureUifNoXor \/ tiling l = kRgba8TextureUifXor ->
  0 <= v < padded_height l / 8 ->
  0 <= swap_row l g v < padded_height l / 8 /\ swap_row l g (swap_row l g v) = v.
Proof.
  intros Hl Ht Hv. unfold swap_row. pose proof (lo_tiled l Hl) as Htl.
  destruct (lxor_16 v ltac:(lia)) as (H32 & H0 & Hinv). destruct Ht as [Ht | Ht]; rewrite Ht in *; cbn in Htl.
  - done.
  - rewrite bool_decide_eq_true_2 by done. destruct (Z.odd g); cbn [andb]; [|done]. rewrite Hinv. split; [|done].
    revert H32. set (v' := Z.lxor v 16) in *. clearbody v'. intros. divmod_lia.
Qed.

(** The word at which a texel is: [Rgba8TexturePixelOffset] without its checks. *)
Definition word_at (l : Rgba8TextureLayout) (x y : Z) : Z :=
  match tiling l with
  | kRgba8TextureLinearTile => 16 * (x / 4 + y / 4) + 4 * (y mod 4) + x mod 4
  | kRgba8TextureUbLinear1 | kRgba8TextureUbLinear2 =>
      64 * (y / 8 * (padded_width l / 8) + x / 8) + block_word x y
  | kRgba8TextureUifNoXor | kRgba8TextureUifXor =>
      let g := x / 8 / 4 in
      64 * (4 * (g * (padded_height l / 8) + swap_row l g (y / 8)) + x / 8 mod 4) + block_word x y
  end.

Lemma uif_tiled t pw ph : tiled t pw ph -> t = kRgba8TextureUifNoXor \/ t = kRgba8TextureUifXor ->
  tiled kRgba8TextureUifNoXor pw ph.
Proof. intros H [-> | ->]; cbn in *; [done | divmod_lia]. Qed.

Section offset.
Variables (l : Rgba8TextureLayout) (x y : Z).
Hypotheses (Hl : laid_out l) (Hx : 0 <= x < width l) (Hy : 0 <= y < height l).

Lemma block_word_range : 0 <= block_word x y < 64.
Proof. unfold block_word. divmod_lia. Qed.

(** The groups of four columns and their rows of blocks fill the texture. *)
Lemma group_range v : tiled kRgba8TextureUifNoXor (padded_width l) (padded_height l) -> 0 <= v < padded_height l / 8 ->
  let n := 64 * (4 * (x / 8 / 4 * (padded_height l / 8) + v) + x / 8 mod 4) in 0 <= n /\ 4 * (n + 64) <= size_bytes l.
Proof.
  intros [Hw8 Hh8] Hv. pose proof (lo_width l Hl). rewrite (lo_size l Hl).
  assert (Hg : x / 8 / 4 < padded_width l / 32) by divmod_lia. set (g := x / 8 / 4) in *.
  assert (0 <= g) by (unfold g; divmod_lia).
  assert (Hw : padded_width l = 32 * (padded_width l / 32)) by divmod_lia. set (m := padded_width l / 32) in *.
  assert (Hh : padded_height l = 8 * (padded_height l / 8)) by divmod_lia. set (rows := padded_height l / 8) in *.
  rewrite Hw, Hh. pose proof (Z.mod_pos_bound (x / 8) 4 ltac:(lia)). cbv zeta. split; [nia|].
  assert (g * rows + v + 1 <= m * rows) by nia. lia.
Qed.

Lemma word_at_range : 0 <= word_at l x y /\ 4 * word_at l x y + 4 <= size_bytes l.
Proof.
  pose proof block_word_range as Hb. pose proof (lo_tiled l Hl) as Ht. pose proof (lo_width l Hl). pose proof (lo_height l Hl).
  unfold word_at.
  destruct (tiling l) eqn:Et; pose proof (uif_tiled _ _ _ Ht) as Hu; cbn in Ht.
  1-3: rewrite (lo_size l Hl).
  - destruct Ht as (H4w & H4h & [E|E]); rewrite E in *.
    + assert (x / 4 = 0) by divmod_lia. divmod_lia.
    + assert (y / 4 = 0) by divmod_lia. divmod_lia.
  - destruct Ht as [E H8]. rewrite E in *. change (8 / 8) with 1. divmod_lia.
  - destruct Ht as [E H8]. rewrite E in *. change (16 / 8) with 2. divmod_lia.
  - destruct (swap_row_spec l (x / 8 / 4) (y / 8) Hl (or_introl Et)) as [Hs _]; [divmod_lia|].
    pose proof (group_range _ (Hu (or_introl eq_refl)) Hs). cbv zeta in *. lia.
  - destruct (swap_row_spec l (x / 8 / 4) (y / 8) Hl (or_intror Et)) as [Hs _]; [divmod_lia|].
    pose proof (group_range _ (Hu (or_intror eq_refl)) Hs). cbv zeta in *. lia.
Qed.

Lemma utile_word_parts t : let w := 16 * t + 4 * (y mod 4) + x mod 4 in
  w / 16 = t /\ w / 4 mod 4 = y mod 4 /\ w mod 4 = x mod 4.
Proof. cbv zeta. divmod_lia. Qed.

(** Four words of a block, and the block. *)
Lemma logical_block b bx by_ : x / 8 = bx -> y / 8 = by_ -> let w := 64 * b + block_word x y in
  (8 * bx + 4 * (w / 16 mod 4 mod 2) + w mod 4, 8 * by_ + 4 * (w / 16 mod 4 / 2) + w / 4 mod 4) = (x, y).
Proof. intros <- <-. cbv zeta. destruct (block_word_parts b x y) as (_ & Hx0 & Hy0). by rewrite Hx0, Hy0. Qed.

Lemma logical_uif : (tiling l = kRgba8TextureUifNoXor \/ tiling l = kRgba8TextureUifXor) ->
  let rows := padded_height l / 8 in
  let b := 4 * (x / 8 / 4 * rows + swap_row l (x / 8 / 4) (y / 8)) + x / 8 mod 4 in
  b / 4 / rows = x / 8 / 4 /\ b mod 4 = x / 8 mod 4 /\ swap_row l (x / 8 / 4) (b / 4 mod rows) = y / 8.
Proof.
  intros Ht. cbv zeta. pose proof (lo_height l Hl).
  destruct (swap_row_spec l (x / 8 / 4) (y / 8) Hl Ht) as [Hs Hinv];
    [pose proof (uif_tiled _ _ _ (lo_tiled l Hl) Ht) as [_ ?]; divmod_lia|].
  set (s := swap_row l (x / 8 / 4) (y / 8)) in *. set (rows := padded_height l / 8) in *.
  pose proof (Z.mod_pos_bound (x / 8) 4 ltac:(lia)).
  assert (E4 : (4 * (x / 8 / 4 * rows + s) + x / 8 mod 4) / 4 = x / 8 / 4 * rows + s)
    by (symmetry; apply Z.div_unique with (x / 8 mod 4); lia).
  assert (Em : (4 * (x / 8 / 4 * rows + s) + x / 8 mod 4) mod 4 = x / 8 mod 4)
    by (symmetry; apply Z.mod_unique with (x / 8 / 4 * rows + s); lia).
  rewrite E4, Em. split; [|split; [done|]].
  - symmetry. apply Z.div_unique with s; lia.
  - replace ((x / 8 / 4 * rows + s) mod rows) with s; [done|]. apply Z.mod_unique with (x / 8 / 4); lia.
Qed.

Lemma logical_word_at : logical l (word_at l x y) = (x, y).
Proof.
  pose proof (lo_tiled l Hl) as Ht. pose proof (lo_width l Hl). pose proof (lo_height l Hl).
  pose proof logical_uif as Hu. unfold logical, word_at.
  destruct (tiling l) eqn:Et; cbn in Ht.
  - destruct (utile_word_parts (x / 4 + y / 4)) as (-> & -> & ->). destruct Ht as (H4w & H4h & [E|E]).
    + assert (x / 4 = 0) by divmod_lia. rewrite E. change (4 / 4) with 1. rewrite Z.mod_1_r, Z.div_1_r. f_equal; divmod_lia.
    + assert (Hy4 : y / 4 = 0) by divmod_lia. rewrite Hy4.
      assert (Hr : 0 <= x / 4 + 0 < padded_width l / 4) by divmod_lia.
      rewrite (Z.mod_small _ _ Hr), (Z.div_small _ _ Hr). f_equal; divmod_lia.
  - destruct Ht as [E H8]. rewrite E. change (8 / 8) with 1. rewrite Z.mod_1_r, Z.div_1_r.
    rewrite (proj1 (block_word_parts _ x y)). apply logical_block; divmod_lia.
  - destruct Ht as [E H8]. rewrite E. change (16 / 8) with 2.
    rewrite (proj1 (block_word_parts _ x y)). apply logical_block; divmod_lia.
  - destruct (Hu (or_introl eq_refl)) as (E1 & E2 & E3). rewrite (proj1 (block_word_parts _ x y)), E1, E2, E3.
    apply logical_block; divmod_lia.
  - destruct (Hu (or_intror eq_refl)) as (E1 & E2 & E3). rewrite (proj1 (block_word_parts _ x y)), E1, E2, E3.
    apply logical_block; divmod_lia.
Qed.

Lemma PixelOffset_word_at : Rgba8TexturePixelOffset l x y = Some (4 * word_at l x y).
Proof.
  destruct word_at_range as [Hw0 Hws]. pose proof (lo_tiled l Hl) as Ht. pose proof (lo_width l Hl). pose proof (lo_height l Hl).
  assert (Hsz : size_bytes l < 2 ^ 32) by (rewrite (lo_size l Hl); nia).
  unfold Rgba8TexturePixelOffset. change kRgba8BytesPerPixel with 4.
  rewrite (proj2 (Z.leb_gt (width l) x)), (proj2 (Z.leb_gt (height l) y)), (proj2 (Z.ltb_ge (padded_width l) _)),
    (proj2 (Z.ltb_ge (padded_height l) _)), (proj2 (Z.eqb_neq (size_bytes l) 0)) by lia. cbn [orb].
  remember (word_at l x y) as wa eqn:Hwa.
  assert (Hend : forall r, u32 r = u32 (4 * wa) ->
    (if u32 (size_bytes l - 4) <? u32 r then None else Some (u32 r)) = Some (4 * wa)).
  { intros r ->. unfold u32. rewrite !Z.mod_small by lia. by rewrite (proj2 (Z.ltb_ge _ _)) by lia. }
  assert (Huif : forall s, u32 (u32 (x / 8 / 4 * ((padded_height l / 8 - 1) * 4) + x / 8 + s * 4) * 256 + block_part x y) =
    u32 (4 * (64 * (4 * (x / 8 / 4 * (padded_height l / 8) + s) + x / 8 mod 4) + block_word x y))).
  { intros s. rewrite block_part_spec. unfold u32.
    rewrite <- Zplus_mod_idemp_l, Zmult_mod_idemp_l, Zplus_mod_idemp_l. f_equal.
    pose proof (Z.div_mod (x / 8) 4 ltac:(lia)). lia. }
  change kUifBlockWidth with 8. change kUifBlockHeight with 8. change kUifBlocksPerColumn with 4. change kUifBlockBytes with 256.
  unfold word_at in Hwa. destruct (tiling l) eqn:Et; cbn in Ht; cbn [mbind option_bind].
  - rewrite UtilePixelOffset_spec. change kUtileWidth with 4. change kUtileHeight with 4.
    assert (Hz : negb (x / 4 =? 0) && negb (y / 4 =? 0) = false).
    { destruct Ht as (_ & _ & [E|E]); [assert (x / 4 = 0) as -> by divmod_lia | assert (y / 4 = 0) as -> by divmod_lia];
        [done | by rewrite andb_false_r]. }
    rewrite Hz. apply Hend. f_equal. lia.
  - apply Hend. rewrite block_part_spec. destruct Ht as [E _]. rewrite E in Hwa. change (8 / 8) with 1 in Hwa. cbn [bool_decide].
    f_equal. case_bool_decide; [lia | done].
  - apply Hend. rewrite block_part_spec. destruct Ht as [E _]. rewrite E in Hwa. change (16 / 8) with 2 in Hwa.
    f_equal. case_bool_decide; [done | lia].
  - apply Hend. rewrite Hwa. unfold swap_row. rewrite Et, land_1_odd. case_bool_decide; [done|]. apply Huif.
  - apply Hend. rewrite Hwa. unfold swap_row. rewrite Et, land_1_odd. apply Huif.
Qed.
End offset.

(** ** The upload *)
(** What the callback promises: for a region within the image it writes the
    region's texels into the array, row after row, and nothing else. *)
Class RegionSource (source : Z -> Z -> Z -> Z -> list Z -> Z -> option (list Z)) (image : Z -> Z -> Z) (W H : Z) := {
  source_law : forall ox oy w h values stride, 0 <= ox -> 0 < w <= stride -> ox + w <= W -> 0 <= oy -> 0 < h -> oy + h <= H ->
    h * stride <= len values ->
    exists values', source ox oy w h values stride = Some values' /\ len values' = len values /\
      forall i, 0 <= i < len values -> nth (Z.to_nat i) values' 0 =
        if (i mod stride <? w) && (i / stride <? h) then image (ox + i mod stride) (oy + i / stride)
        else nth (Z.to_nat i) values 0;
}.

(** ** The memory after [n] bytes of the picture have been written *)
Definition painted (picture destination : bytes) (n : Z) : bytes :=
  take (Z.to_nat n) picture ++ drop (Z.to_nat n) destination.

Lemma len_painted picture destination n : 0 <= n <= len picture -> n <= len destination ->
  len (painted picture destination n) = len destination.
Proof. unfold painted, len. intros. rewrite length_app, length_take, length_drop. lia. Qed.

Lemma painted_write picture destination n k : 0 <= n -> 0 <= k -> n + k <= len picture -> n + k <= len destination ->
  take (Z.to_nat n) (painted picture destination n) ++ sub picture n k ++
  drop (Z.to_nat (n + k)) (painted picture destination n) = painted picture destination (n + k).
Proof.
  intros Hn Hk Hp Hd. unfold painted, sub, len in *. set (a := Z.to_nat n). set (b := Z.to_nat k).
  replace (Z.to_nat (n + k)) with (a + b)%nat by lia. assert (Ha : length (take a picture) = a) by (rewrite length_take; lia).
  rewrite take_app_le, take_take, Nat.min_id by lia. rewrite drop_app_ge, Ha, drop_drop by lia.
  rewrite app_assoc. f_equal; [by rewrite take_take_drop | f_equal; lia].
Qed.

(** ** The picture: the texels in the order of their words, and zeroes *)
Section picture.
Variables (image : Z -> Z -> Z) (l : Rgba8TextureLayout).

Definition texel (x y : Z) : Z := if (x <? width l) && (y <? height l) then image x y else 0.
Definition word_of (w : Z) : Z := let '(x, y) := logical l w in texel x y.
Definition picture : bytes := concat (le32 <$> (word_of <$> seqZ 0 (size_bytes l / 4))).

Lemma concat_le32 (ws : list Z) : length (concat (le32 <$> ws)) = (4 * length ws)%nat.
Proof. induction ws as [|w ws IH]; [done|]. cbn [fmap list_fmap concat]. rewrite length_app, IH. cbn. lia. Qed.

Lemma sub_concat_le32 (ws : list Z) : forall n k, 0 <= n -> 0 <= k ->
  sub (concat (le32 <$> ws)) (4 * n) (4 * k) = concat (le32 <$> sub ws n k).
Proof.
  intros n k Hn Hk. unfold sub. rewrite <- (Z2Nat.id n Hn), <- (Z2Nat.id k Hk). rewrite !Nat2Z.id.
  generalize (Z.to_nat n) (Z.to_nat k). clear. intros n k. replace (Z.to_nat (4 * Z.of_nat n)) with (4 * n)%nat by lia.
  replace (Z.to_nat (4 * Z.of_nat k)) with (4 * k)%nat by lia. revert n k. 
  induction ws as [|w ws IH]; intros n k; [by destruct n, k|]. cbn [fmap list_fmap concat].
  destruct n as [|n].
  - rewrite !drop_0. destruct k as [|k]; [done|]. cbn [take fmap list_fmap concat].
    replace (4 * S k)%nat with (length (le32 w) + 4 * k)%nat by (cbn; lia). rewrite take_app_add. f_equal.
    apply (IH 0%nat k).
  - cbn [drop]. replace (4 * S n)%nat with (length (le32 w) + 4 * n)%nat by (cbn; lia). rewrite drop_app_add. apply IH.
Qed.

Lemma len_picture : size_bytes l mod 4 = 0 -> 0 <= size_bytes l -> len picture = size_bytes l.
Proof.
  intros H4 H0. unfold picture, len. rewrite concat_le32, length_fmap, length_seqZ. divmod_lia.
Qed.

Lemma sub_picture n k : 0 <= n -> 0 <= k -> n + k <= size_bytes l / 4 ->
  sub picture (4 * n) (4 * k) = concat (le32 <$> (word_of <$> seqZ n k)).
Proof.
  intros Hn Hk Hs. unfold picture. rewrite sub_concat_le32 by lia. do 2 f_equal. unfold sub.
  rewrite <- fmap_drop, <- fmap_take. f_equal.
  replace (size_bytes l / 4) with (n + (k + (size_bytes l / 4 - n - k))) by lia. rewrite !seqZ_app by lia.
  rewrite drop_app_length', take_app_length' by (rewrite length_seqZ; lia). done.
Qed.
End picture.

(** ** Writing the picture *)
Section writing.
Variables (source : Z -> Z -> Z -> Z -> list Z -> Z -> option (list Z)) (image : Z -> Z -> Z) (l : Rgba8TextureLayout).
Context {source_ok : RegionSource source image (width l) (height l)} (Hl : laid_out l).
Variable destination : bytes.
Hypothesis room : size_bytes l <= len destination.

(** The memory when the first [w] words are done. *)
Definition at_word (w : Z) : bytes := painted (picture image l) destination (4 * w).

Lemma words_total : size_bytes l = 4 * (size_bytes l / 4) /\ 0 <= size_bytes l.
Proof. rewrite (lo_size l Hl). pose proof (lo_width l Hl). pose proof (lo_height l Hl). split; [divmod_lia | nia]. Qed.

Lemma memcpy_words_at w count values from : 0 <= w -> 0 <= count -> 0 <= from -> from + count <= len values ->
  w + count <= size_bytes l / 4 -> (forall c, 0 <= c < count -> nth (Z.to_nat (from + c)) values 0 = word_of image l (w + c)) ->
  memcpy_words (at_word w) (4 * w) values from count = Val (at_word (w + count)).
Proof.
  intros Hw Hc Hf Hv Hs Heq. destruct words_total as [Ht H0]. unfold memcpy_words, at_word.
  assert (Hp : len (picture image l) = size_bytes l) by (apply len_picture; [rewrite Ht; divmod_lia | done]).
  rewrite len_painted by lia. rewrite (proj2 (Z.ltb_ge _ _)), (proj2 (Z.ltb_ge _ _)) by lia. cbn [orb]. f_equal.
  replace (sub values from count) with (word_of image l <$> seqZ w count).
  - rewrite <- (sub_picture image l w count) by lia. replace (4 * (w + count)) with (4 * w + 4 * count) by lia.
    apply painted_write; lia.
  - apply (nth_ext _ _ 0 0).
    { rewrite length_fmap, length_seqZ. unfold sub, len in *. rewrite length_take, length_drop. lia. }
    intros i Hi. rewrite length_fmap, length_seqZ in Hi. unfold sub.
    rewrite (nth_lookup_Some (word_of image l <$> seqZ w count) i 0 (word_of image l (w + Z.of_nat i)))
      by (rewrite list_lookup_fmap, lookup_seqZ_lt by lia; done).
    rewrite <- Heq by lia. rewrite !nth_lookup, lookup_take_lt, lookup_drop by lia. do 2 f_equal. lia.
Qed.

(** Sixteen words, row after row, from a square of values. *)
Lemma WriteUtileValues_at w values from stride : 0 <= w -> w + 16 <= size_bytes l / 4 -> 0 <= from -> 4 <= stride ->
  from + 3 * stride + 4 <= len values ->
  (forall r c, 0 <= r < 4 -> 0 <= c < 4 ->
     nth (Z.to_nat (from + r * stride + c)) values 0 = word_of image l (w + 4 * r + c)) ->
  WriteUtileValues (at_word w) (4 * w) values from stride = Val (at_word (w + 16)).
Proof.
  intros Hw Hs Hf Hst Hv Heq. unfold WriteUtileValues. change kUtileHeight with 4.
  replace (at_word w) with ((fun r => at_word (w + 4 * r)) 0) by (cbv beta; f_equal; lia).
  rewrite (for_each_val _ (fun r => at_word (w + 4 * r))); [done | lia|]. intros r Hr.
  change kUtileWidth with 4. change kRgba8BytesPerPixel with 4.
  replace (4 * w + r * 4 * 4) with (4 * (w + 4 * r)) by lia. rewrite (memcpy_words_at (w + 4 * r) 4).
  - do 2 f_equal. lia.
  - lia.
  - lia.
  - nia.
  - nia.
  - lia.
  - intros c Hc. by apply Heq.
Qed.

Lemma ValidRegionExtent_spec origin logical extent : 0 <= origin -> 0 < extent ->
  let w := ValidRegionExtent origin logical extent in 0 <= w <= extent /\
  (w <> 0 -> origin + w <= logical) /\ forall i, 0 <= i < extent -> (i <? w) = (origin + i <? logical).
Proof.
  intros Ho He. unfold ValidRegionExtent. cbv zeta. destruct (Z.leb_spec logical origin); [|destruct (Z.ltb_spec (logical - origin) extent)].
  - split; [lia|]. split; [done|]. intros i Hi. destruct (Z.ltb_spec i 0), (Z.ltb_spec (origin + i) logical); lia || done.
  - split; [lia|]. split; [lia|]. intros i Hi. destruct (Z.ltb_spec i (logical - origin)), (Z.ltb_spec (origin + i) logical); lia || done.
  - split; [lia|]. split; [lia|]. intros i Hi. destruct (Z.ltb_spec i extent), (Z.ltb_spec (origin + i) logical); lia || done.
Qed.

(** The square of values is that of the image, with zeroes outside it. *)
Lemma read_region_at ox oy extent d : 0 <= ox -> 0 <= oy -> 0 < extent -> exists values,
  read_region source l ox oy extent d = Val values /\ len values = extent * extent /\
  forall r c, 0 <= r < extent -> 0 <= c < extent ->
    nth (Z.to_nat (r * extent + c)) values 0 = texel image l (ox + c) (oy + r).
Proof.
  intros Hox Hoy He. unfold read_region, texel.
  destruct (ValidRegionExtent_spec ox (width l) extent Hox He) as (Hw & Hwi & Hwb).
  destruct (ValidRegionExtent_spec oy (height l) extent Hoy He) as (Hh & Hhi & Hhb). cbv zeta in *.
  set (w := ValidRegionExtent ox _ _) in *. set (h := ValidRegionExtent oy _ _) in *.
  assert (Hlen : len (replicate (Z.to_nat (extent * extent)) 0) = extent * extent)
    by (unfold len; rewrite length_replicate; nia).
  assert (Hzero : forall i, nth i (replicate (Z.to_nat (extent * extent)) 0) 0 = 0)
    by (intros i; destruct (nth_in_or_default i (replicate (Z.to_nat (extent * extent)) 0) 0) as [Hin|]; [|done];
        apply list_elem_of_In, elem_of_replicate in Hin; tauto).
  destruct (negb (w =? 0) && negb (h =? 0)) eqn:Ez.
  - apply andb_true_iff in Ez as [?%negb_true_iff%Z.eqb_neq ?%negb_true_iff%Z.eqb_neq].
    destruct (source_law ox oy w h (replicate (Z.to_nat (extent * extent)) 0) extent) as (v & -> & Hl1 & Hn); try lia; [nia|].
    exists v. split; [done|]. split; [lia|]. intros r c Hr Hc. rewrite Hn by nia.
    assert (Em : (r * extent + c) mod extent = c) by (symmetry; apply Z.mod_unique with r; lia).
    assert (Ed : (r * extent + c) / extent = r) by (symmetry; apply Z.div_unique with c; lia).
    rewrite Em, Ed, Hwb, Hhb, Hzero by done. done.
  - exists (replicate (Z.to_nat (extent * extent)) 0). split; [done|]. split; [done|]. intros r c Hr Hc. rewrite Hzero.
    rewrite <- Hwb, <- Hhb by done. apply andb_false_iff in Ez.
    destruct Ez as [Ez|Ez]; apply negb_false_iff, Z.eqb_eq in Ez; rewrite Ez.
    + by rewrite (proj2 (Z.ltb_ge c 0)) by lia.
    + by rewrite (proj2 (Z.ltb_ge r 0)), andb_false_r by lia.
Qed.

Lemma upload_utile_at ox oy w : 0 <= ox -> 0 <= oy -> 0 <= w -> w + 16 <= size_bytes l / 4 ->
  (forall r c, 0 <= r < 4 -> 0 <= c < 4 -> logical l (w + 4 * r + c) = (ox + c, oy + r)) ->
  upload_utile source l ox oy (4 * w, at_word w) = Val (4 * (w + 16), at_word (w + 16)).
Proof.
  intros Hox Hoy Hw Hs Hlog. unfold upload_utile. change kUtileWidth with 4.
  destruct (read_region_at ox oy 4 (at_word w) Hox Hoy ltac:(lia)) as (values & -> & Hlen & Hn). cbn [pbind].
  rewrite WriteUtileValues_at; [cbn [pbind]; do 2 f_equal; lia | lia..|].
  intros r c Hr Hc. replace (0 + r * 4 + c) with (r * 4 + c) by lia. rewrite Hn by done. unfold word_of. by rewrite Hlog.
Qed.

Lemma upload_block_at ox oy w : 0 <= ox -> 0 <= oy -> 0 <= w -> w + 64 <= size_bytes l / 4 ->
  (forall a b r c, 0 <= a < 2 -> 0 <= b < 2 -> 0 <= r < 4 -> 0 <= c < 4 ->
     logical l (w + 16 * (2 * b + a) + 4 * r + c) = (ox + 4 * a + c, oy + 4 * b + r)) ->
  upload_block source l ox oy (4 * w, at_word w) = Val (4 * (w + 64), at_word (w + 64)).
Proof.
  intros Hox Hoy Hw Hs Hlog. unfold upload_block. change kUifBlockWidth with 8. change kUtileHeight with 4. change kUtileWidth with 4.
  destruct (read_region_at ox oy 8 (at_word w) Hox Hoy ltac:(lia)) as (values & -> & Hlen & Hn). cbn [pbind].
  assert (Hq : forall a b from, 0 <= a < 2 -> 0 <= b < 2 -> from = 4 * b * 8 + 4 * a ->
    WriteUtileValues (at_word (w + 16 * (2 * b + a))) (4 * (w + 16 * (2 * b + a))) values from 8 =
    Val (at_word (w + 16 * (2 * b + a) + 16))).
  { intros a b from Ha Hb ->. apply WriteUtileValues_at; [lia..|]. intros r c Hr Hc.
    replace (4 * b * 8 + 4 * a + r * 8 + c) with ((4 * b + r) * 8 + (4 * a + c)) by lia. rewrite Hn by lia.
    unfold word_of. rewrite Hlog by done. f_equal; lia. }
  pose proof (Hq 0 0 0 ltac:(lia) ltac:(lia) eq_refl) as H00. pose proof (Hq 1 0 4 ltac:(lia) ltac:(lia) eq_refl) as H10.
  pose proof (Hq 0 1 (4 * 8) ltac:(lia) ltac:(lia) eq_refl) as H01. pose proof (Hq 1 1 (4 * 8 + 4) ltac:(lia) ltac:(lia) eq_refl) as H11.
  clear Hq Hn. replace (w + 16 * (2 * 0 + 0)) with w in * by lia. rewrite H00. cbn [pbind].
  replace (4 * w + 64) with (4 * (w + 16)) by lia. replace (w + 16 * (2 * 0 + 1)) with (w + 16) in * by lia. rewrite H10. cbn [pbind].
  replace (4 * w + 128) with (4 * (w + 32)) by lia. replace (w + 16 * (2 * 1 + 0)) with (w + 32) in * by lia.
  replace (w + 16 + 16) with (w + 32) by lia. rewrite H01. cbn [pbind].
  replace (4 * w + 192) with (4 * (w + 48)) by lia. replace (w + 16 * (2 * 1 + 1)) with (w + 48) in * by lia.
  replace (w + 32 + 16) with (w + 48) by lia. rewrite H11. cbn [pbind]. do 2 f_equal; [change kUifBlockBytes with 256; lia|].
  f_equal. lia.
Qed.
End writing.

Section upload_proof.
Variables (source : Z -> Z -> Z -> Z -> list Z -> Z -> option (list Z)) (image : Z -> Z -> Z) (l : Rgba8TextureLayout).
Context {source_ok : RegionSource source image (width l) (height l)} (Hl : laid_out l).
Variable destination : bytes.
Hypothesis room : size_bytes l <= len destination.

(** The state of the loops when [w] words are done. *)
Definition done_words (w : Z) : Z * bytes := (4 * w, at_word image l destination w).

Lemma start_words : (0, destination) = done_words 0.
Proof. unfold done_words, at_word, painted. cbn. by rewrite drop_0. Qed.

Lemma u32_coordinate v : 0 <= v <= 16640 -> u32 v = v.
Proof. intros. unfold u32. apply Z.mod_small. lia. Qed.

Lemma nested_index i j n m : 0 <= i < n -> 0 <= j < m -> 0 <= i * m + j /\ i * m + j + 1 <= n * m.
Proof. intros. nia. Qed.

Lemma index_div i j m : 0 <= j < m -> (i * m + j) / m = i /\ (i * m + j) mod m = j.
Proof. intros. split; symmetry; [apply Z.div_unique with j | apply Z.mod_unique with i]; lia. Qed.

Lemma word_digits b a b' r c : 0 <= a < 2 -> 0 <= b' < 2 -> 0 <= r < 4 -> 0 <= c < 4 ->
  let w := 64 * b + 16 * (2 * b' + a) + 4 * r + c in
  w / 64 = b /\ w / 16 mod 4 mod 2 = a /\ w / 16 mod 4 / 2 = b' /\ w / 4 mod 4 = r /\ w mod 4 = c.
Proof. intros. cbv zeta. divmod_lia. Qed.

Lemma utile_digits t r c : 0 <= r < 4 -> 0 <= c < 4 ->
  let w := 16 * t + 4 * r + c in w / 16 = t /\ w / 4 mod 4 = r /\ w mod 4 = c.
Proof. intros. cbv zeta. divmod_lia. Qed.

(** Two states after the same number of words. *)
Ltac fin := apply (f_equal Val), (f_equal done_words); lia.
Ltac fin2 := apply (f_equal Val); apply f_equal2; [lia | f_equal; lia].

Lemma upload_linear_tiles : tiling l = kRgba8TextureLinearTile ->
  upload_loops source l destination = Val (done_words (size_bytes l / 4)).
Proof.
  intros Ht. unfold upload_loops. rewrite Ht, start_words. change kUtileHeight with 4. change kUtileWidth with 4.
  pose proof (lo_tiled l Hl) as Htl. rewrite Ht in Htl. cbn in Htl. destruct Htl as (Hw4 & Hh4 & _).
  pose proof (lo_width l Hl). pose proof (lo_height l Hl). pose proof (lo_size l Hl) as Hsz.
  assert (Hpw : padded_width l = 4 * (padded_width l / 4)) by divmod_lia. assert (Hph : padded_height l = 4 * (padded_height l / 4)) by divmod_lia.
  set (m := padded_width l / 4) in *. set (n := padded_height l / 4) in *.
  assert (Htot : size_bytes l / 4 = 16 * (n * m)) by (rewrite Hsz, Hpw, Hph; divmod_lia).
  rewrite (for_each_val _ (fun i => done_words (16 * (i * m)))); [by rewrite Htot | lia|]. intros i Hi.
  replace (16 * (i * m)) with (16 * (i * m + 0)) by lia.
  rewrite (for_each_val _ (fun j => done_words (16 * (i * m + j)))); [fin | lia|]. intros j Hj.
  destruct (nested_index i j n m Hi Hj). rewrite !u32_coordinate by lia.
  unfold done_words. rewrite (upload_utile_at source image l Hl); [fin2 | done | lia..|].
  intros r c Hr Hc. unfold logical. rewrite Ht. fold m. destruct (utile_digits (i * m + j) r c Hr Hc) as (-> & -> & ->).
  destruct (index_div i j m Hj) as [-> ->]. f_equal; lia.
Qed.

Lemma upload_linear_blocks : tiling l = kRgba8TextureUbLinear1 \/ tiling l = kRgba8TextureUbLinear2 ->
  upload_loops source l destination = Val (done_words (size_bytes l / 4)).
Proof.
  intros Ht. set (m := padded_width l / 8).
  assert (Hm : padded_width l = 8 * m /\ padded_height l mod 8 = 0 /\
    m = if bool_decide (tiling l = kRgba8TextureUbLinear1) then 1 else 2).
  { pose proof (lo_tiled l Hl) as Htl. unfold m. destruct Ht as [Ht|Ht]; rewrite Ht in *; destruct Htl as [-> ?]; done. }
  destruct Hm as (Hpw & Hh8 & Hcol). pose proof (lo_width l Hl). pose proof (lo_height l Hl). pose proof (lo_size l Hl) as Hsz.
  assert (Hloop : upload_loops source l destination =
    for_each (padded_height l / kUifBlockHeight) (0, destination) (fun block_y state =>
      for_each m state (fun block_x state =>
        upload_block source l (u32 (block_x * kUifBlockWidth)) (u32 (block_y * kUifBlockHeight)) state))).
  { unfold upload_loops. rewrite Hcol. by destruct Ht as [-> | ->]. }
  rewrite Hloop, start_words. change kUifBlockHeight with 8. change kUifBlockWidth with 8.
  assert (Hph : padded_height l = 8 * (padded_height l / 8)) by divmod_lia. set (n := padded_height l / 8) in *.
  assert (Htot : size_bytes l / 4 = 64 * (n * m)) by (rewrite Hsz, Hpw, Hph; divmod_lia). clear Hloop Hcol.
  rewrite (for_each_val _ (fun i => done_words (64 * (i * m)))); [by rewrite Htot | lia|]. intros i Hi.
  replace (64 * (i * m)) with (64 * (i * m + 0)) by lia.
  rewrite (for_each_val _ (fun j => done_words (64 * (i * m + j)))); [fin | lia|]. intros j Hj.
  destruct (nested_index i j n m Hi Hj). rewrite !u32_coordinate by lia.
  unfold done_words. rewrite (upload_block_at source image l Hl); [fin2 | done | lia..|].
  intros a b r c Ha Hb Hr Hc. unfold logical. fold m.
  destruct (word_digits (i * m + j) a b r c Ha Hb Hr Hc) as (-> & -> & -> & -> & ->).
  destruct (index_div i j m Hj) as [-> ->]. destruct Ht as [-> | ->]; f_equal; lia.
Qed.

Lemma upload_columns : tiling l = kRgba8TextureUifNoXor \/ tiling l = kRgba8TextureUifXor ->
  upload_loops source l destination = Val (done_words (size_bytes l / 4)).
Proof.
  intros Ht. pose proof (uif_tiled _ _ _ (lo_tiled l Hl) Ht) as [Hw Hh].
  pose proof (lo_width l Hl). pose proof (lo_height l Hl). pose proof (lo_size l Hl) as Hsz.
  assert (Hloop : upload_loops source l destination =
    for_each (padded_width l / 32) (0, destination) (fun group state =>
      for_each (padded_height l / 8) state (fun physical_y state =>
        for_each 4 state (fun column state =>
          upload_block source l (u32 ((group * 4 + column) * 8)) (u32 (swap_row l group physical_y * 8)) state)))).
  { unfold upload_loops, swap_row. destruct Ht as [-> | ->]; [done|].
    apply for_each_ext. intros g st. apply for_each_ext. intros py st'. by rewrite land_1_odd. }
  rewrite Hloop, start_words. clear Hloop.
  assert (Hpw : padded_width l = 32 * (padded_width l / 32)) by divmod_lia. set (m := padded_width l / 32) in *.
  assert (Hph : padded_height l = 8 * (padded_height l / 8)) by divmod_lia. set (n := padded_height l / 8) in *.
  assert (Htot : size_bytes l / 4 = 64 * (4 * (m * n))) by (rewrite Hsz, Hpw, Hph; divmod_lia).
  rewrite (for_each_val _ (fun g => done_words (64 * (4 * (g * n))))); [by rewrite Htot | lia|]. intros g Hg.
  replace (64 * (4 * (g * n))) with (64 * (4 * (g * n + 0))) by lia.
  rewrite (for_each_val _ (fun i => done_words (64 * (4 * (g * n + i))))); [fin | lia|]. intros i Hi.
  replace (64 * (4 * (g * n + i))) with (64 * ((g * n + i) * 4 + 0)) by lia.
  rewrite (for_each_val _ (fun j => done_words (64 * ((g * n + i) * 4 + j)))); [fin | lia|]. intros j Hj.
  destruct (nested_index g i m n Hg Hi). destruct (swap_row_spec l g i Hl Ht Hi) as [Hs _]. fold n in Hs.
  rewrite !u32_coordinate by lia.
  unfold done_words. rewrite (upload_block_at source image l Hl); [fin2 | done | lia..|].
  intros a b r c Ha Hb Hr Hc. unfold logical. fold n.
  destruct (word_digits ((g * n + i) * 4 + j) a b r c Ha Hb Hr Hc) as (-> & -> & -> & -> & ->).
  destruct (index_div (g * n + i) j 4 Hj) as [-> ->]. destruct (index_div g i n Hi) as [-> ->].
  destruct Ht as [-> | ->]; f_equal; lia.
Qed.

Lemma upload_val : UploadRgba8TexturePhysical source l destination = Val (picture image l ++ drop (Z.to_nat (size_bytes l)) destination).
Proof.
  assert (Hloops : upload_loops source l destination = Val (done_words (size_bytes l / 4))).
  { destruct (tiling l) eqn:Ht; [by apply upload_linear_tiles | apply upload_linear_blocks | apply upload_linear_blocks
      | apply upload_columns | apply upload_columns]; auto. }
  destruct (words_total l Hl) as [Hw H0]. pose proof (lo_width l Hl). pose proof (lo_height l Hl). pose proof (lo_size l Hl).
  unfold UploadRgba8TexturePhysical. rewrite (proj2 (Z.ltb_ge _ _)), (proj2 (Z.eqb_neq _ 0)) by nia. cbn [orb negb need pbind].
  rewrite Hloops. cbn [pbind done_words]. unfold done_words. rewrite <- Hw, Z.eqb_refl. cbn [need pbind].
  unfold at_word, painted. rewrite <- Hw. rewrite take_ge; [done|].
  pose proof (len_picture image l ltac:(rewrite Hw; divmod_lia) H0) as Hlen. unfold len in Hlen. lia.
Qed.
End upload_proof.

(** ** Every word is the place of the texel it holds *)
Lemma block_word_of bx by_ a b r c : 0 <= a < 2 -> 0 <= b < 2 -> 0 <= r < 4 -> 0 <= c < 4 ->
  let x := 8 * bx + 4 * a + c in let y := 8 * by_ + 4 * b + r in
  x / 8 = bx /\ y / 8 = by_ /\ block_word x y = 16 * (2 * b + a) + 4 * r + c.
Proof. intros. cbv zeta. unfold block_word. divmod_lia. Qed.

Lemma word_split w : let q := w / 16 mod 4 in
  w = 64 * (w / 64) + 16 * (2 * (q / 2) + q mod 2) + 4 * (w / 4 mod 4) + w mod 4.
Proof. cbv zeta. divmod_lia. Qed.

Lemma word_at_logical_uif l w : laid_out l -> 0 <= w < size_bytes l / 4 ->
  tiling l = kRgba8TextureUifNoXor \/ tiling l = kRgba8TextureUifXor ->
  let rows := padded_height l / 8 in let g := w / 64 / 4 / rows in
  let x := 8 * (4 * g + w / 64 mod 4) + 4 * (w / 16 mod 4 mod 2) + w mod 4 in
  let y := 8 * swap_row l g (w / 64 / 4 mod rows) + 4 * (w / 16 mod 4 / 2) + w / 4 mod 4 in
  0 <= x /\ 0 <= y /\ 64 * (4 * (x / 8 / 4 * rows + swap_row l (x / 8 / 4) (y / 8)) + x / 8 mod 4) + block_word x y = w.
Proof.
  intros Hl Hw Ht rows g. cbv zeta. pose proof (uif_tiled _ _ _ (lo_tiled l Hl) Ht) as [_ Hh8]. pose proof (lo_height l Hl).
  assert (Hrows : 0 < rows) by (unfold rows; divmod_lia).
  assert (Hi : 0 <= w / 64 / 4 mod rows < rows) by (by apply Z.mod_pos_bound).
  destruct (swap_row_spec l g _ Hl Ht Hi) as [Hs Hinv]. set (s := swap_row l g _) in *.
  assert (Hg : 0 <= g) by (unfold g; repeat apply Z.div_pos; lia). pose proof (Z.mod_pos_bound (w / 64) 4 ltac:(lia)).
  pose proof (word_split w) as Hsplit. cbv zeta in Hsplit.
  destruct (block_word_of (4 * g + w / 64 mod 4) s (w / 16 mod 4 mod 2) (w / 16 mod 4 / 2) (w / 4 mod 4) (w mod 4))
    as (-> & -> & ->); try (clear; divmod_lia).
  assert (E1 : (4 * g + w / 64 mod 4) / 4 = g) by (symmetry; apply Z.div_unique with (w / 64 mod 4); lia).
  assert (E2 : (4 * g + w / 64 mod 4) mod 4 = w / 64 mod 4) by (symmetry; apply Z.mod_unique with g; lia).
  rewrite E1, E2, Hinv. pose proof (Z.div_mod (w / 64 / 4) rows ltac:(lia)) as E3. fold g in E3.
  pose proof (Z.div_mod (w / 64) 4 ltac:(lia)). pose proof (Z.mod_pos_bound w 4 ltac:(lia)).
  pose proof (Z.mod_pos_bound (w / 4) 4 ltac:(lia)). pose proof (Z.mod_pos_bound (w / 16 mod 4) 2 ltac:(lia)).
  pose proof (Z.mod_pos_bound (w / 16) 4 ltac:(lia)). pose proof (Z.div_pos (w / 16 mod 4) 2 ltac:(lia) ltac:(lia)).
  split; [lia|]. split; [lia|]. lia.
Qed.

Lemma word_at_logical l w : laid_out l -> 0 <= w < size_bytes l / 4 ->
  let '(x, y) := logical l w in 0 <= x /\ 0 <= y /\ word_at l x y = w.
Proof.
  intros Hl Hw. pose proof (lo_tiled l Hl) as Ht. pose proof (lo_width l Hl). pose proof (lo_height l Hl).
  pose proof (lo_size l Hl) as Hsz. unfold logical, word_at.
  pose proof (Z.mod_pos_bound w 4 ltac:(lia)). pose proof (Z.mod_pos_bound (w / 4) 4 ltac:(lia)).
  assert (0 <= w / 16 mod 4 mod 2 < 2) by (apply Z.mod_pos_bound; lia).
  assert (0 <= w / 16 mod 4 / 2 < 2) by divmod_lia. assert (0 <= w / 64) by divmod_lia.
  pose proof (word_split w) as Hsplit. cbv zeta in Hsplit. destruct (tiling l) eqn:Et; cbn in Ht.
  - destruct Ht as (H4w & H4h & HE). set (m := padded_width l / 4). assert (Hm : 0 < m) by (unfold m; divmod_lia).
    assert (Hsum : w / 16 mod m + w / 16 / m = w / 16).
    { destruct HE as [E|E].
      - assert (Em : m = 1) by (unfold m; rewrite E; done). rewrite Em, Z.mod_1_r, Z.div_1_r. done.
      - assert (w / 16 < m) by (unfold m; rewrite E in Hsz; divmod_lia).
        assert (Hr : 0 <= w / 16 < m) by divmod_lia. rewrite (Z.mod_small _ _ Hr), (Z.div_small _ _ Hr). lia. }
    pose proof (Z.mod_pos_bound (w / 16) m Hm). assert (0 <= w / 16 / m) by (apply Z.div_pos; divmod_lia).
    revert Hsum. generalize dependent (w / 16 mod m). generalize dependent (w / 16 / m). intros i Hi j Hj Hsum.
    split; [lia|]. split; [lia|].
    assert (Ex : (4 * j + w mod 4) / 4 = j) by divmod_lia. assert (Ey : (4 * i + w / 4 mod 4) / 4 = i) by divmod_lia.
    assert (Fx : (4 * j + w mod 4) mod 4 = w mod 4) by divmod_lia.
    assert (Fy : (4 * i + w / 4 mod 4) mod 4 = w / 4 mod 4) by divmod_lia.
    rewrite Ex, Ey, Fx, Fy. clear - Hsum. divmod_lia.
  - destruct Ht as [E _]. rewrite E. change (8 / 8) with 1. rewrite Z.mod_1_r, Z.div_1_r.
    destruct (block_word_of 0 (w / 64) (w / 16 mod 4 mod 2) (w / 16 mod 4 / 2) (w / 4 mod 4) (w mod 4)) as (-> & -> & ->); lia.
  - destruct Ht as [E _]. rewrite E. change (16 / 8) with 2. pose proof (Z.mod_pos_bound (w / 64) 2 ltac:(lia)).
    pose proof (Z.div_pos (w / 64) 2 ltac:(lia) ltac:(lia)).
    destruct (block_word_of (w / 64 mod 2) (w / 64 / 2) (w / 16 mod 4 mod 2) (w / 16 mod 4 / 2) (w / 4 mod 4) (w mod 4))
      as (-> & -> & ->); try lia. pose proof (Z.div_mod (w / 64) 2 ltac:(lia)). lia.
  - by apply word_at_logical_uif; [| |left].
  - by apply word_at_logical_uif; [| |right].
Qed.

(** ** The properties *)
Definition inside (l : Rgba8TextureLayout) (x y : Z) : Prop := 0 <= x < width l /\ 0 <= y < height l.

Lemma layout_laid_out w h m l : 0 <= w -> 0 <= h -> 0 <= m -> ComputeRgba8TextureLayout w h m = Some l -> laid_out l.
Proof. intros Hw Hh Hm Hl. pose proof (ComputeRgba8TextureLayout_spec w h m Hw Hh Hm) as H. rewrite Hl in H. apply H. Qed.

Lemma offset_inside l x y : laid_out l -> inside l x y ->
  exists w, Rgba8TexturePixelOffset l x y = Some (4 * w) /\ 0 <= w < size_bytes l / 4 /\ logical l w = (x, y).
Proof.
  intros Hl [Hx Hy]. exists (word_at l x y). destruct (word_at_range l x y Hl Hx Hy). destruct (words_total l Hl).
  rewrite PixelOffset_word_at by done. split; [done|]. split; [lia|]. by apply logical_word_at.
Qed.

Lemma le32_word_of image l w : 0 <= w < size_bytes l / 4 -> sub (picture image l) (4 * w) 4 = le32 (word_of image l w).
Proof.
  intros Hw. change 4 with (4 * 1) at 2. rewrite sub_picture by lia. rewrite seqZ_cons, seqZ_nil by lia.
  cbn [fmap list_fmap concat]. by rewrite app_nil_r.
Qed.

(** The table holds the offsets of the texels, row after row. *)
Lemma BuildRgba8TexturePixelOffsetTable_spec w h m l validate offset_count : 0 <= w -> 0 <= h -> 0 <= m ->
  ComputeRgba8TextureLayout w h m = Some l -> w * h <= offset_count ->
  BuildRgba8TexturePixelOffsetTable l m validate offset_count =
    Some ((fun '(y, x) => 4 * word_at l x y) <$> list_prod (seqZ 0 h) (seqZ 0 w)).
Proof.
  intros Hw Hh Hm Hlayout Hcount. pose proof (ComputeRgba8TextureLayout_spec w h m Hw Hh Hm) as Hs. rewrite Hlayout in Hs.
  destruct Hs as (Hl & Ew & Eh & _). pose proof (lo_width l Hl). pose proof (lo_height l Hl).
  assert (Hmatch : Rgba8TextureLayoutMatchesComputed l m = true).
  { unfold Rgba8TextureLayoutMatchesComputed. rewrite Ew, Eh, Hlayout, !Z.eqb_refl. by rewrite bool_decide_eq_true_2. }
  unfold BuildRgba8TexturePixelOffsetTable. rewrite Hmatch, andb_false_r, Ew, Eh. unfold UINT32_MAX.
  rewrite (proj2 (Z.eqb_neq (w * h) 0)), (proj2 (Z.ltb_ge _ (w * h))), (proj2 (Z.ltb_ge _ (w * h))) by nia. cbn [orb].
  apply mapM_Some_2, Forall2_fmap_r, Forall_Forall2_diag, Forall_forall. intros [y x] Hin.
  apply list_elem_of_In, in_prod_iff in Hin as [Hy Hx]. apply list_elem_of_In, elem_of_seqZ in Hy, Hx.
  apply PixelOffset_word_at; [done | lia..].
Qed.

(** C36. In a layout that is computed for an image, every texel has a place of its
    own: an offset that is aligned to a word and within the texture, and that no
    other texel of the image has. *)
Theorem Rgba8TexturePixelOffset_places (w h m : Z) (l : Rgba8TextureLayout) (Hw : 0 <= w) (Hh : 0 <= h) (Hm : 0 <= m)
    (Hlayout : ComputeRgba8TextureLayout w h m = Some l) :
  (forall x y, inside l x y -> exists o, Rgba8TexturePixelOffset l x y = Some o /\ o mod 4 = 0 /\
     0 <= o /\ o + 4 <= size_bytes l) /\
  (forall x y x' y', inside l x y -> inside l x' y' ->
     Rgba8TexturePixelOffset l x y = Rgba8TexturePixelOffset l x' y' -> x = x' /\ y = y').
Proof.
  assert (Hl : laid_out l) by (by apply (layout_laid_out w h m)). destruct (words_total l Hl) as [Hwords _]. split.
  - intros x y Hin. destruct (offset_inside l x y Hl Hin) as (o & -> & Ho & _). exists (4 * o).
    split; [done|]. split; [divmod_lia | lia].
  - intros x y x' y' Hin Hin' He. destruct (offset_inside l x y Hl Hin) as (o & Ho & _ & Hlog).
    destruct (offset_inside l x' y' Hl Hin') as (o' & Ho' & _ & Hlog'). rewrite Ho, Ho' in He.
    assert (Hoo : o = o') by (injection He; lia). rewrite Hoo, Hlog' in Hlog. by injection Hlog.
Qed.

(** The upload in physical order and the offset of a texel agree: from a source
    that answers with the image, the upload into a buffer that is large enough never
    writes outside it and answers true; then the word at the offset of each texel is
    that texel, every other word of the texture is zero, and what lies behind the
    texture is as it was. *)
Theorem UploadRgba8TexturePhysical_places (source : Z -> Z -> Z -> Z -> list Z -> Z -> option (list Z))
    (image : Z -> Z -> Z) (w h m : Z) (l : Rgba8TextureLayout) (destination : bytes)
    (Hw : 0 <= w) (Hh : 0 <= h) (Hm : 0 <= m) (Hlayout : ComputeRgba8TextureLayout w h m = Some l)
    (Hsource : RegionSource source image w h) (Hroom : size_bytes l <= len destination) :
  exists texture, UploadRgba8TexturePhysical source l destination =
      Val (texture ++ drop (Z.to_nat (size_bytes l)) destination) /\ len texture = size_bytes l /\
    (forall x y o, inside l x y -> Rgba8TexturePixelOffset l x y = Some o -> sub texture o 4 = le32 (image x y)) /\
    (forall o, o mod 4 = 0 -> 0 <= o < size_bytes l ->
       (forall x y, inside l x y -> Rgba8TexturePixelOffset l x y <> Some o) -> sub texture o 4 = le32 0).
Proof.
  pose proof (ComputeRgba8TextureLayout_spec w h m Hw Hh Hm) as Hs. rewrite Hlayout in Hs.
  destruct Hs as (Hl & <- & <- & _). destruct (words_total l Hl) as [Hwords H0].
  exists (picture image l). split; [by apply upload_val|].
  split; [apply len_picture; [rewrite Hwords; divmod_lia | done]|]. split.
  - intros x y o Hin Ho. destruct (offset_inside l x y Hl Hin) as (w & Ho' & Hr & Hlog).
    rewrite Ho' in Ho. injection Ho as <-. rewrite le32_word_of by done. unfold word_of. rewrite Hlog. unfold texel.
    destruct Hin. by rewrite (proj2 (Z.ltb_lt x _)), (proj2 (Z.ltb_lt y _)) by lia.
  - intros o Ho4 Hr Hno. replace o with (4 * (o / 4)) by divmod_lia. rewrite le32_word_of by divmod_lia.
    pose proof (word_at_logical l (o / 4) Hl ltac:(divmod_lia)) as Hp. unfold word_of.
    destruct (logical l (o / 4)) as [x y]. destruct Hp as (Hx & Hy & Hword). unfold texel.
    destruct (Z.ltb_spec x (width l)); [|done]. destruct (Z.ltb_spec y (height l)); [|done]. exfalso.
    apply (Hno x y); [by repeat split|]. rewrite PixelOffset_word_at by (done || lia). f_equal. divmod_lia.
Qed.

(** ** A texture *)
(** The simplest source: it computes each value. *)
Definition fill_region (image : Z -> Z -> Z) (ox oy w h : Z) (values : list Z) (stride : Z) : option (list Z) :=
  Some (imap (fun i v => let i := Z.of_nat i in
    if (i mod stride <? w) && (i / stride <? h) then image (ox + i mod stride) (oy + i / stride) else v) values).

#[export] Instance fill_region_source image W H : RegionSource (fill_region image) image W H.
Proof.
  constructor. intros ox oy w h values stride Hox Hw Hox' Hoy Hh Hoy' Hlen. eexists. split; [done|].
  split; [unfold len; by rewrite length_imap|]. intros i Hi. unfold len in Hi.
  destruct (values !! Z.to_nat i) as [v|] eqn:Ev; [|apply lookup_ge_None in Ev; lia].
  rewrite !nth_lookup, list_lookup_imap, Ev. cbn. by rewrite Z2Nat.id by lia.
Qed.

Definition sample_image (x y : Z) : Z := 1000 * y + x.
Definition sample_layout : Rgba8TextureLayout :=
  default (mkLayout 0 0 0 0 0 0 0 0 kRgba8TextureLinearTile) (ComputeRgba8TextureLayout 10 5 100).

Example layouts :
  (fun '(w, h) => (fun l => (tiling l, padded_width l, padded_height l)) <$> ComputeRgba8TextureLayout w h (2 ^ 26)) <$>
    [(4, 9); (8, 5); (16, 9); (320, 200); (384, 247); (0, 5)] =
  [Some (kRgba8TextureLinearTile, 4, 12); Some (kRgba8TextureUbLinear1, 8, 8); Some (kRgba8TextureUbLinear2, 16, 16);
   Some (kRgba8TextureUifNoXor, 320, 200); Some (kRgba8TextureUifXor, 384, 256); None].
Proof. vm_compute. reflexivity. Qed.

Lemma Rgba8TexturePixelOffset_places_witness :
  (forall x y, inside sample_layout x y -> exists o, Rgba8TexturePixelOffset sample_layout x y = Some o /\ o mod 4 = 0 /\
     0 <= o /\ o + 4 <= size_bytes sample_layout) /\
  (forall x y x' y', inside sample_layout x y -> inside sample_layout x' y' ->
     Rgba8TexturePixelOffset sample_layout x y = Rgba8TexturePixelOffset sample_layout x' y' -> x = x' /\ y = y').
Proof. apply (Rgba8TexturePixelOffset_places 10 5 100 sample_layout); [lia.. | vm_compute; reflexivity]. Defined.

Lemma UploadRgba8TexturePhysical_places_witness :
  exists texture, UploadRgba8TexturePhysical (fill_region sample_image) sample_layout (replicate 600 7) =
      Val (texture ++ drop (Z.to_nat (size_bytes sample_layout)) (replicate 600 7)) /\
    len texture = size_bytes sample_layout /\
    (forall x y o, inside sample_layout x y -> Rgba8TexturePixelOffset sample_layout x y = Some o ->
       sub texture o 4 = le32 (sample_image x y)) /\
    (forall o, o mod 4 = 0 -> 0 <= o < size_bytes sample_layout ->
       (forall x y, inside sample_layout x y -> Rgba8TexturePixelOffset sample_layout x y <> Some o) ->
       sub texture o 4 = le32 0).
Proof.
  apply (UploadRgba8TexturePhysical_places (fill_region sample_image) sample_image 10 5 100 sample_layout (replicate 600 7));
    [lia.. | vm_compute; reflexivity | apply fill_region_source | vm_compute; discriminate].
Defined.
