(* ===== verification/KeyboardState.v ===== *)
(** * The state of several USB keyboards (src/src/usb_keyboard_state.cpp)

    Up to four keyboards send reports of the keys they hold.  The class keeps, for
    each key usage and each modifier, the set of keyboards that hold it, as a bit
    mask, and says whether a report changed what the program sees. *)
From S2P Require Import Prelude.
Local Open Scope Z_scope.

Definition MaxDevices : Z := 4.
Definition ReportKeyCount : Z := 6.
Definition UsageCount : Z := 256.
Definition ModifierCount : Z := 8.

Record USBKeyboardState := mkKeyboards { mKeyOwners : list Z; mModifierOwners : list Z }.

Definition initial_state : USBKeyboardState :=
  mkKeyboards (replicate (Z.to_nat UsageCount) 0) (replicate (Z.to_nat ModifierCount) 0).

Definition IsErrorReport (raw_keys : list Z) : bool := existsb (fun k => (1 <=? k) && (k <=? 3)) raw_keys.
Definition ContainsUsage (raw_keys : list Z) (usage : Z) : bool := existsb (fun k => k =? usage) raw_keys.

(** A turn of either loop: the new owners of one key or modifier. *)
Definition new_owners (device_mask previous_owners : Z) (held : bool) : Z :=
  let kept := u8 (Z.land previous_owners (u8 (Z.lnot device_mask))) in
  if held then u8 (Z.lor kept device_mask) else kept.

(** The loop over the entries from [index] on, with [aggregate_changed]. *)
Fixpoint owners_loop (device_mask : Z) (held : Z -> bool) (index : Z) (owners : list Z) (aggregate_changed : bool)
    : list Z * bool :=
  match owners with
  | [] => ([], aggregate_changed)
  | previous :: owners' =>
      let new := new_owners device_mask previous (held index) in
      let changed := negb (Bool.eqb (previous =? 0) (new =? 0)) in
      let '(rest, result) := owners_loop device_mask held (index + 1) owners' (aggregate_changed || changed) in
      (new :: rest, result)
  end.

(** [None] is a null pointer.  The first loop starts with usage 1. *)
Definition ApplyReport (device_index modifiers : Z) (raw_keys : option (list Z)) (s : USBKeyboardState)
    : bool * USBKeyboardState :=
  match raw_keys with
  | None => (false, s)
  | Some raw_keys =>
      if (MaxDevices <=? device_index) || IsErrorReport raw_keys then (false, s)
      else
        let device_mask := u8 (Z.shiftl 1 device_index) in
        let '(keys, changed) :=
          owners_loop device_mask (ContainsUsage raw_keys) 1 (drop 1 (mKeyOwners s)) false in
        let '(mods, changed) :=
          owners_loop device_mask (fun m => negb (Z.land modifiers (Z.shiftl 1 m) =? 0)) 0 (mModifierOwners s) changed in
        (changed, mkKeyboards (take 1 (mKeyOwners s) ++ keys) mods)
  end.

Definition RemoveDevice (device_index : Z) (s : USBKeyboardState) : bool * USBKeyboardState :=
  ApplyReport device_index 0 (Some (replicate (Z.to_nat ReportKeyCount) 0)) s.

Fixpoint modifiers_loop (modifier : Z) (owners : list Z) (modifiers : Z) : Z :=
  match owners with
  | [] => modifiers
  | o :: owners' =>
      modifiers_loop (modifier + 1) owners'
        (if negb (o =? 0) then u8 (Z.lor modifiers (Z.shiftl 1 modifier)) else modifiers)
  end.
Definition Modifiers (s : USBKeyboardState) : Z := modifiers_loop 0 (mModifierOwners s) 0.

Definition IsPressed (usage : Z) (s : USBKeyboardState) : bool :=
  (usage <? UsageCount) && negb (nth (Z.to_nat usage) (mKeyOwners s) 0 =? 0).

(** ** The specification: what each keyboard holds *)
(** The keys and modifiers of the last report of each keyboard that was not an error. *)
Definition reports := Z -> list Z * Z.
Definition no_reports : reports := fun _ => ([], 0).
Definition devices : list Z := [0; 1; 2; 3].

Definition key_held (r : reports) (usage : Z) : bool := existsb (fun d => ContainsUsage (r d).1 usage) devices.
Definition modifier_held (r : reports) (m : Z) : bool := existsb (fun d => Z.testbit (r d).2 m) devices.

Inductive keyboard_op :=
| Report (device_index modifiers : Z) (raw_keys : list Z)
| Remove (device_index : Z).

Definition op_report (op : keyboard_op) : Z * Z * list Z :=
  match op with
  | Report d m keys => (d, m, keys)
  | Remove d => (d, 0, [])
  end.

Definition spec_step (r : reports) (op : keyboard_op) : reports :=
  let '(d, m, keys) := op_report op in
  if (MaxDevices <=? d) || IsErrorReport keys then r else fun d' => if d' =? d then (keys, m) else r d'.

(** Whether what is held, by any keyboard, differs. *)
Definition usages : list Z := seqZ 1 255.
Definition modifier_bits : list Z := seqZ 0 8.
Definition seen_differently (r r' : reports) : bool :=
  existsb (fun u => negb (Bool.eqb (key_held r u) (key_held r' u))) usages ||
  existsb (fun m => negb (Bool.eqb (modifier_held r m) (modifier_held r' m))) modifier_bits.

Definition step (s : USBKeyboardState) (op : keyboard_op) : bool * USBKeyboardState :=
  match op with
  | Report d m keys => ApplyReport d m (Some keys) s
  | Remove d => RemoveDevice d s
  end.

(** The arguments of C++: an unsigned index and bytes. *)
Definition op_typed (op : keyboard_op) : Prop :=
  let '(d, m, keys) := op_report op in 0 <= d /\ is_byte m /\ Forall is_byte keys.

Fixpoint run (s : USBKeyboardState) (ops : list keyboard_op) : list bool * USBKeyboardState :=
  match ops with
  | [] => ([], s)
  | op :: ops' => let '(b, s') := step s op in let '(bs, s'') := run s' ops' in (b :: bs, s'')
  end.

Fixpoint spec_run (r : reports) (ops : list keyboard_op) : list bool * reports :=
  match ops with
  | [] => ([], r)
  | op :: ops' =>
      let r' := spec_step r op in let '(bs, r'') := spec_run r' ops' in (seen_differently r r' :: bs, r'')
  end.

(** ** Refinement *)
(** The owners of a key or modifier: bit [d] tells whether device [d] holds it. *)
Definition mask (f : Z -> bool) : Z := Z.b2z (f 0) + 2 * Z.b2z (f 1) + 4 * Z.b2z (f 2) + 8 * Z.b2z (f 3).

Lemma mask_zero f : (mask f =? 0) = negb (existsb f devices).
Proof. unfold mask, devices. cbn [existsb]. by destruct (f 0), (f 1), (f 2), (f 3). Qed.

Lemma new_owners_mask d f held : 0 <= d < MaxDevices ->
  new_owners (u8 (Z.shiftl 1 d)) (mask f) held = mask (fun d' => if d' =? d then held else f d').
Proof.
  intros Hd. unfold MaxDevices in Hd. assert (Hc : d = 0 \/ d = 1 \/ d = 2 \/ d = 3) by lia. unfold mask.
  destruct (f 0), (f 1), (f 2), (f 3), held; by destruct Hc as [-> | [-> | [-> | ->]]].
Qed.

Lemma owners_loop_spec dm held f n : 0 <= n -> forall i c, owners_loop dm held i (f <$> seqZ i n) c =
  ((fun u => new_owners dm (f u) (held u)) <$> seqZ i n,
   c || existsb (fun u => negb (Bool.eqb (f u =? 0) (new_owners dm (f u) (held u) =? 0))) (seqZ i n)).
Proof.
  intros Hn. rewrite <- (Z2Nat.id n Hn). induction (Z.to_nat n) as [|k IH]; intros i c; [by rewrite orb_false_r|].
  rewrite seqZ_cons by lia. replace (Z.pred (Z.of_nat (S k))) with (Z.of_nat k) by lia.
  cbn [fmap list_fmap owners_loop existsb]. replace (Z.succ i) with (i + 1) by lia. rewrite IH. by rewrite orb_assoc.
Qed.

Lemma existsb_ext_in {A} (f g : A -> bool) l : (forall x, x ∈ l -> f x = g x) -> existsb f l = existsb g l.
Proof. induction l as [|x l IH]; intros H; [done|]. cbn. rewrite H, IH; [done | set_solver..]. Qed.

(** The state holds exactly what the last reports say. *)
Definition holds (s : USBKeyboardState) (r : reports) : Prop :=
  mKeyOwners s = 0 :: ((fun u => mask (fun d => ContainsUsage (r d).1 u)) <$> usages) /\
  mModifierOwners s = (fun m => mask (fun d => Z.testbit (r d).2 m)) <$> modifier_bits.

Lemma holds_initial : holds initial_state no_reports.
Proof. split; reflexivity. Qed.

Lemma modifier_bit modifiers m : is_byte modifiers -> 0 <= m < 8 ->
  negb (Z.land modifiers (Z.shiftl 1 m) =? 0) = Z.testbit modifiers m.
Proof.
  intros _ Hm. rewrite Z.shiftl_1_l. destruct (Z.testbit modifiers m) eqn:E.
  - apply negb_true_iff, Z.eqb_neq. intros H0. assert (Hb : Z.testbit (Z.land modifiers (2 ^ m)) m = true).
    { by rewrite Z.land_spec, E, Z.pow2_bits_true by lia. }
    by rewrite H0, Z.bits_0 in Hb.
  - apply negb_false_iff, Z.eqb_eq, Z.bits_inj'. intros i Hi. rewrite Z.land_spec, Z.bits_0, Z.pow2_bits_eqb by lia.
    destruct (Z.eqb_spec m i) as [->|]; [by rewrite E | by rewrite andb_false_r].
Qed.

(** What a report changes: the aggregate of the keys and modifiers. *)
Lemma ApplyReport_holds s r d m keys : holds s r -> 0 <= d -> is_byte m ->
  let r' := spec_step r (Report d m keys) in
  let '(changed, s') := ApplyReport d m (Some keys) s in changed = seen_differently r r' /\ holds s' r'.
Proof.
  intros [Hk Hm] Hd Hmod. unfold spec_step, ApplyReport. cbn [op_report].
  assert (Hsame : seen_differently r r = false).
  { unfold seen_differently. apply orb_false_iff. split; apply existsb_Forall_bool, Forall_forall; intros u _; by rewrite eqb_reflx. }
  destruct ((MaxDevices <=? d) || IsErrorReport keys) eqn:Eg; [by rewrite Hsame|].
  apply orb_false_iff in Eg as [Ed _]. apply Z.leb_gt in Ed. cbv zeta. rewrite Hk, Hm. cbn [drop take].
  rewrite drop_0, take_0. unfold usages, modifier_bits.
  rewrite (owners_loop_spec _ _ _ 255) by lia. rewrite (owners_loop_spec _ _ _ 8) by lia.
  fold usages modifier_bits. cbn [orb].
  set (r' := fun d' : Z => if d' =? d then (keys, m) else r d').
  assert (Ek : forall u, new_owners (u8 (Z.shiftl 1 d)) (mask (fun d => ContainsUsage (r d).1 u)) (ContainsUsage keys u) =
    mask (fun d => ContainsUsage (r' d).1 u)).
  { intros u. rewrite new_owners_mask by done. unfold mask, r'. by repeat case_match. }
  assert (Em : forall i, i ∈ modifier_bits -> new_owners (u8 (Z.shiftl 1 d)) (mask (fun d => Z.testbit (r d).2 i))
    (negb (Z.land m (Z.shiftl 1 i) =? 0)) = mask (fun d => Z.testbit (r' d).2 i)).
  { intros i Hi. apply elem_of_seqZ in Hi. rewrite modifier_bit, new_owners_mask by (done || lia). unfold mask, r'. by repeat case_match. }
  split.
  - unfold seen_differently. f_equal; apply existsb_ext_in.
    + intros u _. rewrite Ek, !mask_zero. unfold key_held. by destruct (existsb _ devices), (existsb _ devices).
    + intros i Hi. rewrite Em, !mask_zero by done. unfold modifier_held. by destruct (existsb _ devices), (existsb _ devices).
  - split; cbn [mKeyOwners mModifierOwners app].
    + f_equal. apply list_fmap_ext. intros i u _. apply Ek.
    + apply list_fmap_ext. intros i u Hu. apply Em. by apply list_elem_of_lookup_2 in Hu.
Qed.

Lemma step_holds s r op : op_typed op -> holds s r -> let r' := spec_step r op in
  let '(changed, s') := step s op in changed = seen_differently r r' /\ holds s' r'.
Proof.
  intros Ht Hs. destruct op as [d m keys|d]; cbn [op_typed op_report step] in *; destruct Ht as (Hd & Hm & _).
  - by apply ApplyReport_holds.
  - pose proof (ApplyReport_holds s r d 0 (replicate 6 0) Hs Hd Hm) as Ha. unfold RemoveDevice.
    change (Z.to_nat ReportKeyCount) with 6%nat. destruct (ApplyReport _ _ _ s) as [changed s'].
    (* Usage 0 is no key: the report of six zeroes holds nothing. *)
    unfold spec_step in *. cbn [op_report] in *. change (IsErrorReport (replicate 6 0)) with false in Ha.
    change (IsErrorReport []) with false. destruct ((MaxDevices <=? d) || false); [done|].
    destruct Ha as [-> [Hk Hmods]].
    set (r1 := fun d' : Z => if d' =? d then (replicate 6 0, 0) else r d') in *.
    set (r2 := fun d' : Z => if d' =? d then ([], 0) else r d').
    assert (Hz : forall u d', u ∈ usages -> ContainsUsage (r1 d').1 u = ContainsUsage (r2 d').1 u).
    { intros u d' Hu. apply elem_of_seqZ in Hu. unfold r1, r2. destruct (d' =? d); [|done].
      unfold ContainsUsage. cbn [fst replicate existsb]. by rewrite (proj2 (Z.eqb_neq 0 u)) by lia. }
    assert (Hz2 : forall d', (r1 d').2 = (r2 d').2) by (intros d'; unfold r1, r2; by destruct (d' =? d)).
    assert (Hmask : forall u, u ∈ usages -> mask (fun d => ContainsUsage (r1 d).1 u) = mask (fun d => ContainsUsage (r2 d).1 u))
      by (intros u Hu; unfold mask; by rewrite !(Hz u _ Hu)).
    assert (Hmask2 : forall i, mask (fun d => Z.testbit (r1 d).2 i) = mask (fun d => Z.testbit (r2 d).2 i))
      by (intros i; unfold mask; by rewrite !Hz2).
    split; [|split].
    + unfold seen_differently. f_equal; apply existsb_ext_in.
      * intros u Hu. unfold key_held. cbn [existsb devices]. by rewrite !(Hz u _ Hu).
      * intros i _. unfold modifier_held. cbn [existsb devices]. by rewrite !Hz2.
    + rewrite Hk. f_equal. apply list_fmap_ext. intros i u Hu%list_elem_of_lookup_2. by apply Hmask.
    + rewrite Hmods. apply list_fmap_ext. intros i u _. apply (Hmask2 u).
Qed.

Lemma run_refines ops : forall s r, Forall op_typed ops -> holds s r ->
  (run s ops).1 = (spec_run r ops).1 /\ holds (run s ops).2 (spec_run r ops).2.
Proof.
  induction ops as [|op ops IH]; intros s r Ht Hs; [done|]. apply Forall_cons in Ht as [Ht Hts].
  cbn [run spec_run]. pose proof (step_holds s r op Ht Hs) as Hstep. cbv zeta in Hstep.
  destruct (step s op) as [b s']. destruct Hstep as [-> Hs']. specialize (IH s' _ Hts Hs').
  destruct (run s' ops), (spec_run _ ops). cbn in *. destruct IH as [-> ?]. done.
Qed.

Lemma IsPressed_holds s r u : holds s r -> 1 <= u < 256 -> IsPressed u s = key_held r u.
Proof.
  intros [Hk _] Hu. unfold IsPressed, UsageCount. rewrite (proj2 (Z.ltb_lt u 256)) by lia. cbn [andb]. rewrite Hk.
  replace (Z.to_nat u) with (S (Z.to_nat (u - 1))) by lia. cbn [nth]. rewrite nth_lookup, list_lookup_fmap.
  unfold usages. rewrite lookup_seqZ_lt by lia. cbn. replace (1 + Z.of_nat (Z.to_nat (u - 1))) with u by lia.
  by rewrite mask_zero, negb_involutive.
Qed.

Lemma Modifiers_holds s r m : holds s r -> 0 <= m < 8 -> Z.testbit (Modifiers s) m = modifier_held r m.
Proof.
  intros [_ Hm] Hr. unfold Modifiers. rewrite Hm.
  assert (Hall : forall f : Z -> bool, let bit i := if f i then 1 else 0 in
    forall i, 0 <= i < 8 -> Z.testbit (modifiers_loop 0 (bit <$> modifier_bits) 0) i = f i).
  { intros f bit i Hi. unfold bit. change modifier_bits with [0; 1; 2; 3; 4; 5; 6; 7]. cbn [fmap list_fmap].
    assert (Hc : i = 0 \/ i = 1 \/ i = 2 \/ i = 3 \/ i = 4 \/ i = 5 \/ i = 6 \/ i = 7) by lia.
    destruct (f 0) eqn:E0, (f 1) eqn:E1, (f 2) eqn:E2, (f 3) eqn:E3, (f 4) eqn:E4, (f 5) eqn:E5, (f 6) eqn:E6, (f 7) eqn:E7;
      (destruct Hc as [-> | [-> | [-> | [-> | [-> | [-> | [-> | ->]]]]]]];
       rewrite ?E0, ?E1, ?E2, ?E3, ?E4, ?E5, ?E6, ?E7; reflexivity). }
  rewrite <- (Hall (modifier_held r) m Hr). f_equal.
  assert (Hloop : forall l i acc, modifiers_loop i ((fun m => mask (fun d => Z.testbit (r d).2 m)) <$> l) acc =
    modifiers_loop i ((fun m => if modifier_held r m then 1 else 0) <$> l) acc).
  { induction l as [|x l IH]; intros i acc; [done|]. cbn [fmap list_fmap modifiers_loop]. rewrite mask_zero, negb_involutive.
    fold (modifier_held r x). rewrite IH. by destruct (modifier_held r x). }
  apply Hloop.
Qed.

(** C38. Several keyboards are one: after any sequence of reports and removals, a key
    counts as pressed, and a modifier as held, exactly when some keyboard's last
    report that was not an error holds it; and each call answers true exactly when it
    changes what is pressed or held.  So a key held on two keyboards stays pressed
    until both release it, and a keyboard that is removed releases all it held. *)
Theorem USBKeyboardState_refines (ops : list keyboard_op) (Htyped : Forall op_typed ops) :
  let '(answers, s) := run initial_state ops in let '(changes, r) := spec_run no_reports ops in
  answers = changes /\
  (forall u, 1 <= u < 256 -> IsPressed u s = key_held r u) /\
  (forall m, 0 <= m < 8 -> Z.testbit (Modifiers s) m = modifier_held r m).
Proof.
  pose proof (run_refines ops initial_state no_reports Htyped holds_initial) as [Ha Hs].
  destruct (run initial_state ops) as [answers s], (spec_run no_reports ops) as [changes r]. cbn in *.
  split; [done|]. split; intros i Hi; [by apply IsPressed_holds | by apply Modifiers_holds].
Qed.

(** Two keyboards hold the key 4; the second also shift; the first releases it, and
    the second is removed; an error report is ignored. *)
Definition sample_ops : list keyboard_op :=
  [Report 0 0 [4; 0; 0; 0; 0; 0]; Report 1 2 [4; 5; 0; 0; 0; 0]; Report 0 0 [0; 0; 0; 0; 0; 0];
   Report 1 0 [1; 1; 1; 1; 1; 1]; Remove 1; Report 7 0 [9; 0; 0; 0; 0; 0]].

Example sample_answers : (run initial_state sample_ops).1 = [true; true; false; false; true; false].
Proof. vm_compute. reflexivity. Qed.

Lemma USBKeyboardState_refines_witness :
  let '(answers, s) := run initial_state sample_ops in let '(changes, r) := spec_run no_reports sample_ops in
  answers = changes /\
  (forall u, 1 <= u < 256 -> IsPressed u s = key_held r u) /\
  (forall m, 0 <= m < 8 -> Z.testbit (Modifiers s) m = modifier_held r m).
Proof.
  apply (USBKeyboardState_refines sample_ops).
  repeat constructor; unfold op_typed, is_byte; cbn; lia.
Defined.
