(* ===== verification/V3dMmu.v ===== *)
(** * The page table of the V3D 4.2 (src/src/pi4v3d/pi4_v3d_mmu.cpp)

    The driver maps physically contiguous DMA memory at 4 KiB granularity and takes
    mappings away again.  The page table is the list of its entries; [Stop] is the
    answer false, which changes nothing, and [Ub] an access outside the table. *)
From S2P Require Import Prelude JsonFields.
Local Open Scope Z_scope.

Definition kMmuPageShift : Z := 12.
Definition kMmuPageSize : Z := Z.shiftl 1 kMmuPageShift.
Definition kMmuPteValid : Z := Z.shiftl 1 28.
Definition kMmuPteWriteable : Z := Z.shiftl 1 29.

Record MmuMapping := mkMapping {
  v3d_address : Z;
  first_page : Z;
  page_count : Z;
  first_pte : Z;
  last_pte : Z;
}.
Definition no_mapping : MmuMapping := mkMapping 0 0 0 0 0.

Definition IsPageAligned (value : Z) : bool := Z.land value (kMmuPageSize - 1) =? 0.

(** [page_table[index] = value] and [page_table[index]] *)
Definition set_entry (index value : Z) (page_table : list Z) : parsed unit (list Z) :=
  if (0 <=? index) && (index <? len page_table) then Val (<[Z.to_nat index := value]> page_table) else Ub.
Definition get_entry (index : Z) (page_table : list Z) : parsed unit Z :=
  if index <? 0 then Ub
  else match page_table !! Z.to_nat index with Some v => Val v | None => Ub end.

Definition InsertContiguousPtes (page_table : list Z) (table_entries v3d_address dma_address size : Z)
    : parsed unit (list Z * MmuMapping) :=
  need (negb ((size =? 0) || (v3d_address =? 0) || negb (IsPageAligned v3d_address) ||
              negb (IsPageAligned dma_address) || (UINT32_MAX - (kMmuPageSize - 1) <? size))) tt ;!
  let page_count := Z.shiftr (u32 (size + kMmuPageSize - 1)) kMmuPageShift in
  let first_page := Z.shiftr v3d_address kMmuPageShift in
  let first_dma_page := Z.shiftr dma_address kMmuPageShift in
  let end_v3d := u64 (v3d_address + Z.shiftl page_count kMmuPageShift) in
  need (negb ((page_count =? 0) || (table_entries <=? first_page) ||
              (table_entries - first_page <? page_count) || (Z.shiftl 1 32 <? end_v3d) ||
              (Z.shiftl 1 24 <=? first_dma_page) ||
              (Z.shiftl 1 24 - first_dma_page <=? page_count - 1))) tt ;!
  get! page_table := for_each page_count page_table (fun i page_table =>
    set_entry (u32 (first_page + i))
      (Z.lor (Z.lor kMmuPteValid kMmuPteWriteable) (u32 (first_dma_page + i))) page_table) in
  get! first_pte := get_entry first_page page_table in
  get! last_pte := get_entry (u32 (first_page + page_count - 1)) page_table in
  Val (page_table, mkMapping v3d_address first_page page_count first_pte last_pte).

Definition ClearMmuMapping (page_table : list Z) (table_entries : Z) (mapping : MmuMapping)
    : parsed unit (list Z * MmuMapping) :=
  if page_count mapping =? 0 then Val (page_table, no_mapping)
  else
    need (negb ((table_entries <=? first_page mapping) ||
                (table_entries - first_page mapping <? page_count mapping))) tt ;!
    get! page_table := for_each (page_count mapping) page_table (fun i page_table =>
      set_entry (u32 (first_page mapping + i)) 0 page_table) in
    Val (page_table, no_mapping).

(** ** The texture formatting unit and the checksum *)
Record TfuCopyRegisters := mkTfu { icfg : Z; iia : Z; iis : Z; ica : Z; iua : Z; ioa : Z; ios : Z }.

Definition kTfuInputFormatRaster : Z := 0.
Definition kTfuInputFormatShift : Z := 18.
Definition kTfuTextureTypeR32F : Z := 29.
Definition kTfuTextureTypeShift : Z := 9.
Definition kTfuInterruptOnCompletion : Z := Z.shiftl 1 0.
Definition kTfuOutputFormatLineartile : Z := 3.
Definition kTfuOutputFormatShift : Z := 3.
Definition kTfuMaxEncodedDimension : Z := 0x3fff.

Definition BuildTfuR32Copy (source_v3d_address target_v3d_address width height : Z) : option TfuCopyRegisters :=
  if (source_v3d_address =? 0) || (target_v3d_address =? 0) || negb (Z.land source_v3d_address 63 =? 0) ||
     negb (Z.land target_v3d_address 63 =? 0) || (width =? 0) || (height =? 0) ||
     (kTfuMaxEncodedDimension <? width) || (kTfuMaxEncodedDimension <? height)
  then None
  else Some (mkTfu
    (Z.lor (Z.lor (Z.shiftl kTfuInputFormatRaster kTfuInputFormatShift)
                  (Z.shiftl kTfuTextureTypeR32F kTfuTextureTypeShift)) kTfuInterruptOnCompletion)
    source_v3d_address width 0 0
    (Z.lor target_v3d_address (Z.shiftl kTfuOutputFormatLineartile kTfuOutputFormatShift))
    (Z.lor (u32 (Z.shiftl height 16)) width)).

(** A null pointer with a size that is not 0 gives 0. *)
Definition Fnv1a32 (data : option bytes) (size : Z) : Z :=
  match data with
  | None => if negb (size =? 0) then 0 else 2166136261
  | Some bytes => fold_left (fun hash b => u32 (Z.lxor hash b * 16777619)) (take (Z.to_nat size) bytes) 2166136261
  end.

(** ** The specification: the address that the table gives *)
Definition translate (page_table : list Z) (address : Z) : option Z :=
  match page_table !! Z.to_nat (address / 4096) with
  | Some pte => if Z.testbit pte 28 then Some (pte mod 2 ^ 24 * 4096 + address mod 4096) else None
  | None => None
  end.

(** ** Proofs *)
(** The table with [n] entries from [first] on replaced. *)
Definition replaced (f : Z -> Z) (first n : Z) (page_table : list Z) : list Z :=
  take (Z.to_nat first) page_table ++ (f <$> seqZ 0 n) ++ drop (Z.to_nat (first + n)) page_table.

Lemma lookup_replaced f first n t k : 0 <= first -> 0 <= n -> first + n <= len t -> 0 <= k ->
  replaced f first n t !! Z.to_nat k = if in_range first (first + n - 1) k then Some (f (k - first)) else t !! Z.to_nat k.
Proof.
  intros Hf Hn Hl Hk. unfold replaced, len in *. assert (Ht : length (take (Z.to_nat first) t) = Z.to_nat first)
    by (rewrite length_take; lia). assert (Hs : length (f <$> seqZ 0 n) = Z.to_nat n) by (by rewrite length_fmap, length_seqZ).
  destruct (in_range first (first + n - 1) k) eqn:Er.
  - apply in_range_spec in Er. rewrite lookup_app_r, lookup_app_l by lia. rewrite Ht, list_lookup_fmap, lookup_seqZ_lt by lia.
    cbn. do 2 f_equal. lia.
  - apply in_range_false in Er. destruct (Z.ltb_spec k first).
    + rewrite lookup_app_l, lookup_take_lt by lia. done.
    + rewrite lookup_app_r, lookup_app_r by lia. rewrite Ht, Hs, lookup_drop. f_equal. lia.
Qed.

Lemma len_replaced f first n t : 0 <= first -> 0 <= n -> first + n <= len t -> len (replaced f first n t) = len t.
Proof.
  intros. unfold replaced, len in *. rewrite !length_app, length_take, length_fmap, length_seqZ, length_drop. lia.
Qed.

Lemma replaced_snoc f first n t : 0 <= first -> 0 <= n -> first + n < len t ->
  <[Z.to_nat (first + n) := f n]> (replaced f first n t) = replaced f first (n + 1) t.
Proof.
  intros Hf Hn Hl. apply list_eq. intros i. rewrite <- (Nat2Z.id i). set (k := Z.of_nat i).
  assert (0 <= k) by lia. rewrite (lookup_replaced f first (n + 1)) by lia.
  destruct (Z.eq_dec k (first + n)) as [E|E].
  - rewrite E. rewrite list_lookup_insert_eq by (pose proof (len_replaced f first n t); unfold len in *; lia).
    rewrite (proj2 (in_range_spec _ _ _)) by lia. do 2 f_equal. lia.
  - rewrite list_lookup_insert_ne by lia. rewrite lookup_replaced by lia.
    assert (Er : in_range first (first + n - 1) k = in_range first (first + (n + 1) - 1) k).
    { apply eq_true_iff_eq. rewrite !in_range_spec. lia. }
    by rewrite Er.
Qed.

Lemma write_loop value f first n t : 0 <= first -> 0 <= n -> first + n <= len t -> len t <= 2 ^ 32 ->
  (forall i, 0 <= i < n -> value i = f i) ->
  for_each n t (fun i t => set_entry (u32 (first + i)) (value i) t) = Val (replaced f first n t).
Proof.
  intros Hf Hn Hl Hlen Hvf. assert (E0 : t = replaced f first 0 t).
  { unfold replaced. cbn [fmap list_fmap app]. rewrite Z.add_0_r, seqZ_nil by lia. cbn. by rewrite take_drop. }
  rewrite E0 at 1. rewrite (for_each_val _ (fun j => replaced f first j t)); [done | lia|]. intros j Hj.
  unfold set_entry, u32. rewrite Z.mod_small by lia. rewrite len_replaced by lia.
  rewrite (proj2 (Z.leb_le 0 _)), (proj2 (Z.ltb_lt _ (len t))) by lia. cbn [andb].
  by rewrite Hvf, replaced_snoc by lia.
Qed.

Lemma aligned_spec v : IsPageAligned v = true <-> v mod 4096 = 0.
Proof.
  unfold IsPageAligned. change (kMmuPageSize - 1) with (Z.ones 12). rewrite Z.land_ones by lia. apply Z.eqb_eq.
Qed.

(** The entry of a page: its number and the two flags. *)
Definition pte_of (page : Z) : Z := 2 ^ 28 + 2 ^ 29 + page.

Lemma pte_spec page : 0 <= page < 2 ^ 24 -> Z.lor (Z.lor kMmuPteValid kMmuPteWriteable) (u32 page) = pte_of page /\
  Z.testbit (pte_of page) 28 = true /\ pte_of page mod 2 ^ 24 = page.
Proof.
  intros Hp. unfold u32, pte_of. rewrite Z.mod_small by lia. change (Z.lor kMmuPteValid kMmuPteWriteable) with (Z.shiftl 3 28).
  assert (Hlor : Z.lor (Z.shiftl 3 28) page = 2 ^ 28 + 2 ^ 29 + page).
  { rewrite Z.shiftl_mul_pow2 by lia. change (2 ^ 28 + 2 ^ 29) with (3 * 2 ^ 28).
    rewrite <- Z.lxor_lor, <- Z.add_nocarry_lxor; [done|..]; apply Z.bits_inj'; intros i Hi; rewrite Z.land_spec, Z.bits_0;
      (destruct (Z.ltb_spec i 28); [rewrite Z.mul_pow2_bits_low by lia; done|]);
      (rewrite (Z.bits_above_log2 page i); [by rewrite andb_false_r | lia|]);
      (destruct (Z.eq_dec page 0) as [->|]; [cbn; lia|]); apply Z.log2_lt_pow2; [lia| |lia|];
      (eapply Z.lt_le_trans; [apply Hp|]; apply Z.pow_le_mono_r; lia). }
  split; [done|]. split.
  - apply Z.testbit_true; [lia|]. replace (2 ^ 28 + 2 ^ 29 + page) with (page + 3 * 2 ^ 28) by lia.
    rewrite Z.div_add by lia. rewrite Z.div_small by lia. done.
  - replace (2 ^ 28 + 2 ^ 29 + page) with (page + 48 * 2 ^ 24) by lia. rewrite Z.mod_add by lia. by apply Z.mod_small.
Qed.

(** When a range is mapped, and its first page, pages and first DMA page. *)
Definition insertable (table_entries v3d dma size : Z) : Prop :=
  1 <= size <= 2 ^ 32 - 4096 /\ v3d <> 0 /\ v3d mod 4096 = 0 /\ dma mod 4096 = 0 /\
  let pages := (size + 4095) / 4096 in v3d / 4096 + pages <= table_entries /\ v3d + 4096 * pages <= 2 ^ 32 /\
  dma / 4096 + pages <= 2 ^ 24.

Lemma get_entry_val k t v : 0 <= k -> t !! Z.to_nat k = Some v -> get_entry k t = Val v.
Proof. intros Hk Hv. unfold get_entry. rewrite (proj2 (Z.ltb_ge k 0)) by lia. by rewrite Hv. Qed.

Section mapping.
Variables (t : list Z) (v3d dma size : Z).
Hypotheses (Ht : len t <= 2 ^ 32) (Hv : 0 <= v3d < 2 ^ 32) (Hd : 0 <= dma < 2 ^ 64) (Hs : 0 <= size < 2 ^ 32).
Notation pages := ((size + 4095) / 4096).
Notation first := (v3d / 4096).
Notation mapped := (replaced (fun i => pte_of (dma / 4096 + i)) first pages t).

(** The answer is true exactly for these ranges, and then the entries are in place. *)
Lemma InsertContiguousPtes_spec :
  (insertable (len t) v3d dma size /\ InsertContiguousPtes t (len t) v3d dma size =
     Val (mapped, mkMapping v3d first pages (pte_of (dma / 4096)) (pte_of (dma / 4096 + pages - 1)))) \/
  (~ insertable (len t) v3d dma size /\ InsertContiguousPtes t (len t) v3d dma size = Stop tt).
Proof.
  unfold InsertContiguousPtes, insertable, UINT32_MAX. pose proof (len_nonneg t).
  destruct (negb _) eqn:E1; [|right; split; [|done]].
  2: { apply negb_false_iff in E1. rewrite !orb_true_iff, !negb_true_iff, <- !not_true_iff_false, !aligned_spec,
         !Z.eqb_eq, Z.ltb_lt in E1. change kMmuPageSize with 4096 in E1. lia. }
  rewrite negb_true_iff, !orb_false_iff, !negb_false_iff, !Z.eqb_neq, Z.ltb_ge, !aligned_spec in E1.
  change kMmuPageSize with 4096 in *. destruct E1 as ((((Hs0 & Hv0) & Hva) & Hda) & Hsz). cbn [need pbind].
  change kMmuPageShift with 12. rewrite !Z.shiftr_div_pow2, !Z.shiftl_mul_pow2 by lia. change (2 ^ 12) with 4096.
  replace (u32 (size + 4096 - 1)) with (size + 4095) by (unfold u32; rewrite Z.mod_small by lia; lia).
  assert (Hp : 1 <= pages < 2 ^ 20) by divmod_lia. unfold u64. rewrite (Z.mod_small (v3d + pages * 4096)) by lia.
  rewrite !Z.mul_1_l. set (n := pages) in *. set (f0 := first) in *. set (d0 := dma / 4096).
  assert (0 <= f0 < 2 ^ 20) by (unfold f0; divmod_lia). assert (0 <= d0) by (unfold d0; divmod_lia).
  destruct (negb _) eqn:E2.
  2: { right. split; [|done]. apply negb_false_iff in E2.
       rewrite !orb_true_iff, Z.eqb_eq, !Z.leb_le, !Z.ltb_lt in E2. lia. }
  left. rewrite negb_true_iff, !orb_false_iff, !Z.leb_gt, !Z.ltb_ge, Z.eqb_neq in E2. split; [lia|]. cbn [need pbind].
  rewrite (write_loop _ (fun i => pte_of (d0 + i))) by (lia || intros; apply pte_spec; lia). cbn [pbind].
  rewrite (get_entry_val f0 _ (pte_of d0)).
  2: lia.
  2: { rewrite lookup_replaced, (proj2 (in_range_spec _ _ _)) by lia. do 2 f_equal. lia. }
  cbn [pbind]. unfold u32. rewrite (Z.mod_small (f0 + n - 1)) by lia.
  rewrite (get_entry_val (f0 + n - 1) _ (pte_of (d0 + n - 1))); [done | lia|].
  rewrite lookup_replaced, (proj2 (in_range_spec _ _ _)) by lia. do 2 f_equal. lia.
Qed.

Lemma InsertContiguousPtes_val t' m : InsertContiguousPtes t (len t) v3d dma size = Val (t', m) ->
  insertable (len t) v3d dma size /\ t' = mapped /\ v3d_address m = v3d /\ first_page m = first /\ page_count m = pages.
Proof. destruct InsertContiguousPtes_spec as [[Hi ->]|[_ ->]]; [|done]. by intros [= <- <-]. Qed.

Lemma insertable_pages : insertable (len t) v3d dma size -> 0 <= first /\ 1 <= pages /\ first + pages <= len t /\
  0 <= dma / 4096 /\ dma / 4096 + pages <= 2 ^ 24 /\ v3d = 4096 * first /\ dma = 4096 * (dma / 4096) /\ size <= 4096 * pages.
Proof. unfold insertable. cbv zeta. intros (Hs1 & _ & Hv4 & Hd4 & Hi). clear Ht. divmod_lia. Qed.

(** Every address of the range is translated to its place in the DMA memory. *)
Lemma translate_mapped : insertable (len t) v3d dma size -> forall a, v3d <= a < v3d + 4096 * pages ->
  translate mapped a = Some (dma + (a - v3d)).
Proof.
  intros Hi a Ha. destruct (insertable_pages Hi) as (Hf & Hp & Hfit & Hd0 & Hdp & Ev & Ed & _). unfold translate.
  assert (Hk : first <= a / 4096 < first + pages) by (split; [apply Z.div_le_mono; lia | apply Z.div_lt_upper_bound; lia]).
  rewrite lookup_replaced, (proj2 (in_range_spec _ _ _)) by lia.
  destruct (pte_spec (dma / 4096 + (a / 4096 - first)) ltac:(lia)) as (_ & -> & ->). f_equal.
  pose proof (Z.div_mod a 4096 ltac:(lia)). lia.
Qed.

Lemma translate_elsewhere f n a : 0 <= n -> first + n <= len t -> 0 <= a -> a / 4096 < first \/ first + n <= a / 4096 ->
  translate (replaced f first n t) a = translate t a.
Proof.
  intros Hn Hl Ha Hout. unfold translate. assert (0 <= first) by (apply Z.div_pos; lia).
  assert (0 <= a / 4096) by (apply Z.div_pos; lia). rewrite lookup_replaced by lia.
  destruct (in_range _ _ _) eqn:Er; [apply in_range_spec in Er; lia | done].
Qed.
End mapping.

Lemma ClearMmuMapping_val t m : 0 <= first_page m -> 0 <= page_count m -> first_page m + page_count m <= len t -> len t <= 2 ^ 32 ->
  ClearMmuMapping t (len t) m = Val (if page_count m =? 0 then t else replaced (fun _ => 0) (first_page m) (page_count m) t, no_mapping).
Proof.
  intros Hf Hp Hl Ht. unfold ClearMmuMapping. destruct (Z.eqb_spec (page_count m) 0) as [|Hp0]; [done|].
  rewrite (proj2 (Z.leb_gt _ _)), (proj2 (Z.ltb_ge _ _)) by lia. cbn [orb negb need pbind].
  by rewrite (write_loop _ (fun _ => 0)) by (lia || done).
Qed.

Lemma replaced_twice f g first n t : 0 <= first -> 0 <= n -> first + n <= len t ->
  replaced g first n (replaced f first n t) = replaced g first n t.
Proof.
  intros Hf Hn Hl. apply list_eq. intros i. rewrite <- (Nat2Z.id i).
  rewrite !(lookup_replaced g), lookup_replaced by (rewrite ?len_replaced; lia). by destruct (in_range _ _ _).
Qed.

Lemma replaced_same f first n t : 0 <= first -> 0 <= n -> first + n <= len t ->
  (forall k, first <= k < first + n -> t !! Z.to_nat k = Some (f (k - first))) -> replaced f first n t = t.
Proof.
  intros Hf Hn Hl Hk. apply list_eq. intros i. rewrite <- (Nat2Z.id i), lookup_replaced by lia.
  destruct (in_range _ _ _) eqn:Er; [|done]. apply in_range_spec in Er. symmetry. apply Hk. lia.
Qed.

(** C37. A mapping is what the GPU sees of the memory: inserting answers true exactly
    for an aligned, non-empty range that fits the table, the 32-bit address space and
    the 24 bits of a page number, never writes outside the table, and then translates
    every address of the range to its place in the DMA memory and every other address
    as before.  Clearing the mapping takes these translations away and no other, and
    restores the table when the range was empty. *)
Theorem InsertContiguousPtes_translates (t : list Z) (v3d dma size : Z)
    (Ht : len t <= 2 ^ 32) (Hv : 0 <= v3d < 2 ^ 32) (Hd : 0 <= dma < 2 ^ 64) (Hs : 0 <= size < 2 ^ 32) :
  let last := v3d + 4096 * ((size + 4095) / 4096) in
  match InsertContiguousPtes t (len t) v3d dma size with
  | Ub => False
  | Stop _ => ~ insertable (len t) v3d dma size
  | Val (t', m) => insertable (len t) v3d dma size /\ len t' = len t /\
      (forall a, v3d <= a < last -> translate t' a = Some (dma + (a - v3d))) /\
      (forall a, 0 <= a -> a < v3d \/ last <= a -> translate t' a = translate t a) /\
      exists t'', ClearMmuMapping t' (len t) m = Val (t'', no_mapping) /\ len t'' = len t /\
        (forall a, v3d <= a < last -> translate t'' a = None) /\
        (forall a, 0 <= a -> a < v3d \/ last <= a -> translate t'' a = translate t a) /\
        ((forall k, v3d <= 4096 * k < last -> t !! Z.to_nat k = Some 0) -> t'' = t)
  end.
Proof.
  cbv zeta. destruct (InsertContiguousPtes_spec t v3d dma size Ht Hv Hd Hs) as [[Hi ->]|[Hi ->]]; [|done].
  destruct (insertable_pages t v3d dma size) as (Hf & Hp & Hfit & _ & _ & Ev & _ & _); [done..|].
  set (f := v3d / 4096) in *. set (n := (size + 4095) / 4096) in *.
  assert (Hout : forall a, 0 <= a -> a < v3d \/ v3d + 4096 * n <= a -> a / 4096 < f \/ f + n <= a / 4096).
  { intros a Ha [H|H]; [left; apply Z.div_lt_upper_bound; lia | right; apply Z.div_le_lower_bound; lia]. }
  split; [done|]. split; [apply len_replaced; lia|].
  split; [intros a Ha; by apply (translate_mapped t v3d dma size)|].
  split; [intros a Ha Hx; apply (translate_elsewhere t v3d); try lia; by apply Hout|].
  pose proof (ClearMmuMapping_val (replaced (fun i => pte_of (dma / 4096 + i)) f n t)
    (mkMapping v3d f n (pte_of (dma / 4096)) (pte_of (dma / 4096 + n - 1)))) as Hc.
  cbn [first_page page_count] in Hc. rewrite len_replaced in Hc by lia. rewrite Hc by lia. clear Hc.
  rewrite (proj2 (Z.eqb_neq n 0)) by lia. rewrite replaced_twice by lia. eexists. split; [done|].
  split; [apply len_replaced; lia|]. split.
  - intros a Ha. unfold translate. assert (Hk : f <= a / 4096 < f + n).
    { split; [apply Z.div_le_lower_bound; lia | apply Z.div_lt_upper_bound; lia]. }
    rewrite lookup_replaced, (proj2 (in_range_spec _ _ _)) by lia. done.
  - split; [intros a Ha Hx; apply (translate_elsewhere t v3d); try lia; by apply Hout|].
    intros Hfree. apply replaced_same; try lia. intros k Hk. apply Hfree. lia.
Qed.

(** A table of eight pages; two pages of DMA memory at the third. *)
Definition sample_table : list Z := replicate 8 0.

Example sample_mapping :
  match InsertContiguousPtes sample_table 8 0x2000 0x3f000 0x1001 with
  | Val (t, m) => page_count m = 2 /\ translate t 0x2345 = Some 0x3f345 /\ translate t 0x3fff = Some 0x40fff /\
      translate t 0x4000 = None
  | _ => False
  end.
Proof. vm_compute. repeat split. Qed.

Lemma InsertContiguousPtes_translates_witness :
  let last := 0x2000 + 4096 * ((0x1001 + 4095) / 4096) in
  match InsertContiguousPtes sample_table (len sample_table) 0x2000 0x3f000 0x1001 with
  | Ub => False
  | Stop _ => ~ insertable (len sample_table) 0x2000 0x3f000 0x1001
  | Val (t', m) => insertable (len sample_table) 0x2000 0x3f000 0x1001 /\ len t' = len sample_table /\
      (forall a, 0x2000 <= a < last -> translate t' a = Some (0x3f000 + (a - 0x2000))) /\
      (forall a, 0 <= a -> a < 0x2000 \/ last <= a -> translate t' a = translate sample_table a) /\
      exists t'', ClearMmuMapping t' (len sample_table) m = Val (t'', no_mapping) /\ len t'' = len sample_table /\
        (forall a, 0x2000 <= a < last -> translate t'' a = None) /\
        (forall a, 0 <= a -> a < 0x2000 \/ last <= a -> translate t'' a = translate sample_table a) /\
        ((forall k, 0x2000 <= 4096 * k < last -> sample_table !! Z.to_nat k = Some 0) -> t'' = sample_table)
  end.
Proof. apply (InsertContiguousPtes_translates sample_table 0x2000 0x3f000 0x1001); vm_compute; repeat split; discriminate. Defined.
