(* ===== verification/HttpsStream.v ===== *)
(** * One HTTPS request of the updater (src/src/update/https_stream.cpp)

    A request goes to an authorized address, follows at most three redirects to
    authorized addresses, and hands the body of a 200 answer to a sink.  TLS
    (Mbed TLS over Circle) is behind the interface [HttpsEnvironment], together with
    the checkpoints of the foreground progress, through which the user cancels.

    The loop over the body of an answer has no bound of its own in the source: it
    takes [fuel], and [None] is the result when that runs out; with enough fuel for
    the body limit it never does. *)
From S2P Require Import Prelude UrlPolicy HttpResponse.
From Stdlib Require Import Ascii.
Local Open Scope Z_scope.

Definition kMaximumHttpsRedirects : Z := 3.
Definition kHttpsRequestBufferBytes : Z := 4096.
Definition kHttpsReceiveBufferBytes : Z := 16384.

Inductive HttpsRequestKind := GitHubApi | ReleaseMetadata | ReleaseZip | GitHubDeviceFlow.

Inductive UpdateForegroundPhase := PhaseDiscovery | PhaseManifest | PhaseZip | PhaseHash | PhaseStage | PhaseReboot.

(** Null pointers are [None]; [body] is empty when there is none. *)
Record HttpsRequestOptions := mkOptions {
  method : bytes;
  accept : option bytes;
  content_type : option bytes;
  body : bytes;
  bearer_token : option bytes;
}.
Definition default_options : HttpsRequestOptions := mkOptions (str "GET") None None [] None.

Inductive HttpsGetStatus :=
| Ok | InvalidArgument | UrlRejected | ConnectFailed | RequestTooLarge | SendFailed | ReceiveFailed
| HeaderInvalid | RedirectRejected | TooManyRedirects | UnexpectedStatus | BodyInvalid | Canceled.

#[export] Instance HttpsGetStatus_eq_dec : EqDecision HttpsGetStatus.
Proof. solve_decision. Defined.

Record HttpsGetResult := mkResult {
  status : HttpsGetStatus;
  url_status : UrlPolicyStatus;
  header_status : HttpParseStatus;
  body_status : HttpBodyStatus;
  http_status : Z;
  redirects : Z;
  body_bytes : Z;
  final_host : bytes;
}.

Definition set_status (s : HttpsGetStatus) (r : HttpsGetResult) : HttpsGetResult :=
  mkResult s (url_status r) (header_status r) (body_status r) (http_status r) (redirects r) (body_bytes r) (final_host r).
Definition set_url_status (s : UrlPolicyStatus) (r : HttpsGetResult) : HttpsGetResult :=
  mkResult (status r) s (header_status r) (body_status r) (http_status r) (redirects r) (body_bytes r) (final_host r).
Definition set_header_status (s : HttpParseStatus) (r : HttpsGetResult) : HttpsGetResult :=
  mkResult (status r) (url_status r) s (body_status r) (http_status r) (redirects r) (body_bytes r) (final_host r).
Definition set_body_status (s : HttpBodyStatus) (r : HttpsGetResult) : HttpsGetResult :=
  mkResult (status r) (url_status r) (header_status r) s (http_status r) (redirects r) (body_bytes r) (final_host r).
Definition set_http_status (n : Z) (r : HttpsGetResult) : HttpsGetResult :=
  mkResult (status r) (url_status r) (header_status r) (body_status r) n (redirects r) (body_bytes r) (final_host r).
Definition set_redirects (n : Z) (r : HttpsGetResult) : HttpsGetResult :=
  mkResult (status r) (url_status r) (header_status r) (body_status r) (http_status r) n (body_bytes r) (final_host r).
Definition set_body_bytes (n : Z) (r : HttpsGetResult) : HttpsGetResult :=
  mkResult (status r) (url_status r) (header_status r) (body_status r) (http_status r) (redirects r) n (final_host r).
Definition set_final_host (h : bytes) (r : HttpsGetResult) : HttpsGetResult :=
  mkResult (status r) (url_status r) (header_status r) (body_status r) (http_status r) (redirects r) (body_bytes r) h.

Definition initial_result : HttpsGetResult :=
  mkResult InvalidArgument UrlInvalidArgument PS_InvalidArgument BS_InvalidArgument 0 0 0 [].

(** [SecureByteStream], [SecureStreamFactory] and [UpdateForegroundProgress].
    Streams are names.  [Send] returns its result; [Receive] returns the bytes of a
    positive result, of which there may be more than the capacity, and none
    otherwise; what is received is bytes.  A null progress object is one whose checkpoints always answer true. *)
Class HttpsEnvironment (E : Type) := {
  Checkpoint : UpdateForegroundPhase -> Z -> Z -> E -> bool * E;
  cancel_requested : E -> bool;
  ConnectVerified : bytes -> Z -> E -> option Z * E;
  Send : Z -> bytes -> E -> Z * E;
  Receive : Z -> Z -> E -> bytes * E;
  Close : Z -> E -> E;
  Destroy : Z -> E -> E;
  Receive_bytes : forall s n e, Forall is_byte (Receive s n e).1;
}.

(** ** Helpers *)
Definition IsRedirectStatus (status : Z) : bool :=
  (status =? 301) || (status =? 302) || (status =? 303) || (status =? 307) || (status =? 308).

Definition ForegroundPhase (kind : HttpsRequestKind) : UpdateForegroundPhase :=
  match kind with
  | GitHubApi => PhaseDiscovery
  | ReleaseMetadata => PhaseManifest
  | ReleaseZip => PhaseZip
  | GitHubDeviceFlow => PhaseDiscovery
  end.

Definition AcceptHeader (kind : HttpsRequestKind) : bytes :=
  match kind with
  | GitHubApi => str "application/vnd.github+json"
  | GitHubDeviceFlow => str "application/json"
  | _ => str "application/octet-stream"
  end.

Definition SafeHeaderValue (value : option bytes) (maximum : Z) : bool :=
  match value with
  | None => true
  | Some value =>
      forallb (in_range 0x21 0x7e) (take (Z.to_nat (maximum + 1)) value) &&
      negb (len value =? 0) && (len value <=? maximum)
  end.

Definition InitialPurposeAllowed (purpose : UpdateUrlPurpose) : bool :=
  match purpose with
  | Discovery | ReleaseAsset | PreparedDraftDiscovery | AuthenticatedReleaseAsset | GitHubDeviceAuthorization => true
  | Redirect => false
  end.

Definition kApiHost : bytes := str "api.github.com".
Definition CRLF : bytes := [CR; LF].

(** The header lines that depend on the options. *)
Definition authorization_line (token : bytes) : bytes := str "Authorization: Bearer " ++ token ++ CRLF.
Definition content_lines (type : bytes) (size : Z) : bytes :=
  str "Content-Type: " ++ type ++ CRLF ++ str "Content-Length: " ++ decimal_text size ++ CRLF.

(** The request head that [snprintf] prints. *)
Definition request_head (method path host accept authorization content_headers : bytes) : bytes :=
  method ++ str " " ++ path ++ str " HTTP/1.1" ++ CRLF ++
  str "Host: " ++ host ++ CRLF ++
  str "User-Agent: BMX-Updater/1" ++ CRLF ++
  str "Accept: " ++ accept ++ CRLF ++
  str "Accept-Encoding: identity" ++ CRLF ++
  (if bytes_eqb host kApiHost then str "X-GitHub-Api-Version: 2022-11-28" ++ CRLF else []) ++
  authorization ++ content_headers ++
  str "Connection: close" ++ CRLF ++ CRLF.

Definition is_post (options : HttpsRequestOptions) : bool := bytes_eqb (method options) (str "POST").
Definition is_get (options : HttpsRequestOptions) : bool := bytes_eqb (method options) (str "GET").

(** What is sent for a parsed address, or [None] if it does not fit its buffers. *)
Definition build_request (kind : HttpsRequestKind) (options : HttpsRequestOptions) (redirect : Z)
    (parsed : ParsedUpdateUrl) : option bytes :=
  let authorization :=
    match bearer_token options with
    | Some token =>
        if (redirect =? 0) && bytes_eqb (url_host parsed) kApiHost then authorization_line token else []
    | None => []
    end in
  if 560 <=? len authorization then None
  else
    let content_headers :=
      if is_post options then content_lines (default [] (content_type options)) (len (body options)) else [] in
    if 256 <=? len content_headers then None
    else
      let head := request_head (method options) (path_and_query parsed) (url_host parsed)
                    (default (AcceptHeader kind) (accept options)) authorization content_headers in
      if (kHttpsRequestBufferBytes <=? len head) ||
         (kHttpsRequestBufferBytes - len head <? len (body options))
      then None
      else Some (head ++ body options).

Section https.
Context {E : Type} `{HttpsEnvironment E} {K : Type} `{BodySink K}.

Definition NetworkCheckpoint (kind : HttpsRequestKind) (completed total : Z) (e : E) : bool * E :=
  Checkpoint (ForegroundPhase kind) completed total e.

Definition close_stream (stream : Z) (e : E) : E := Destroy stream (Close stream e).

(** ** [SendAll] *)
Inductive send_outcome := AllSent | SendError | SendCanceled.

(** [rest] is what has not been sent; every turn sends a byte or more. *)
Fixpoint send_loop (turns : nat) (stream : Z) (kind : HttpsRequestKind) (size : Z) (rest : bytes) (e : E)
    : option (send_outcome * E) :=
  match rest with
  | [] => Some (AllSent, e)
  | _ =>
      match turns with
      | O => None
      | S turns' =>
          let '(go, e) := NetworkCheckpoint kind (size - len rest) size e in
          if negb go then Some (SendCanceled, e)
          else
            let '(result, e) := Send stream rest e in
            if (result <=? 0) || (len rest <? result) then Some (SendError, e)
            else
              let rest' := drop (Z.to_nat result) rest in
              let '(go, e) := NetworkCheckpoint kind (size - len rest') size e in
              if negb go then Some (SendCanceled, e)
              else send_loop turns' stream kind size rest' e
      end
  end.
Definition SendAll (stream : Z) (data : bytes) (kind : HttpsRequestKind) (e : E) : option (send_outcome * E) :=
  send_loop (length data) stream kind (len data) data e.

(** ** The response head *)
(** [HeadFailed status header_status]; [HeadParsed head header_bytes headers]. *)
Inductive head_outcome :=
| HeadFailed (status : HttpsGetStatus) (header_status : HttpParseStatus)
| HeadParsed (head : HttpResponseHead) (header_bytes : Z) (headers : bytes).

Fixpoint head_loop (turns : nat) (stream : Z) (kind : HttpsRequestKind) (header_status : HttpParseStatus)
    (headers : bytes) (e : E) : option (head_outcome * E) :=
  match turns with
  | O => None
  | S turns' =>
      let '(go, e) := NetworkCheckpoint kind 0 0 e in
      if negb go then Some (HeadFailed Canceled header_status, e)
      else if len headers =? kMaximumHttpHeaderBytes then Some (HeadFailed HeaderInvalid PS_HeaderTooLarge, e)
      else
        let '(received, e) := Receive stream (kMaximumHttpHeaderBytes - len headers) e in
        if (len received =? 0) || (kMaximumHttpHeaderBytes - len headers <? len received)
        then Some (HeadFailed ReceiveFailed header_status, e)
        else
          let headers := headers ++ received in
          let '(go, e) := NetworkCheckpoint kind 0 0 e in
          if negb go then Some (HeadFailed Canceled header_status, e)
          else
            match Head.ParseHttpResponseHead headers with
            | inr (head, header_bytes) => Some (HeadParsed head header_bytes headers, e)
            | inl PS_NeedMoreData => head_loop turns' stream kind PS_NeedMoreData headers e
            | inl failure => Some (HeadFailed HeaderInvalid failure, e)
            end
  end.
Definition head_turns : nat := S (Z.to_nat kMaximumHttpHeaderBytes).

(** ** The body *)
Notation decoder := (Body.HttpBodyDecoder (K:=K)).

Definition feed_succeeded (status : HttpBodyStatus) : bool :=
  bool_decide (status = BS_Ok) || bool_decide (status = BS_Complete).

(** The loop; the first result is whether it was cancelled. *)
Fixpoint body_loop (fuel : nat) (stream : Z) (kind : HttpsRequestKind) (progress_total : Z) (bs : HttpBodyStatus)
    (d : decoder) (e : E) : option (bool * HttpBodyStatus * decoder * E) :=
  if Body.complete d then Some (false, bs, d, e)
  else
    match fuel with
    | O => None
    | S fuel' =>
        let '(go, e) := NetworkCheckpoint kind (Body.decoded_bytes_ d) progress_total e in
        if negb go then Some (true, bs, d, e)
        else
          let '(received, e) := Receive stream kHttpsReceiveBufferBytes e in
          if (len received =? 0) || (kHttpsReceiveBufferBytes <? len received)
          then let '(bs, d) := Body.Finish d in Some (false, bs, d, e)
          else
            match Body.Feed d received with
            | None => None
            | Some (bs, _, d) =>
                let '(go, e) := NetworkCheckpoint kind (Body.decoded_bytes_ d) progress_total e in
                if negb go then Some (true, bs, d, e)
                else if negb (feed_succeeded bs) then Some (false, bs, d, e)
                else body_loop fuel' stream kind progress_total bs d e
            end
    end.

(** Receiving the answer of status 200, from the first bytes of the body on. *)
Definition receive_body (fuel : nat) (stream : Z) (kind : HttpsRequestKind) (maximum_body_bytes : Z)
    (head : HttpResponseHead) (first : bytes) (r : HttpsGetResult) (k : K) (e : E)
    : option (HttpsGetResult * K * E) :=
  match Body.Feed (Body.new_decoder head maximum_body_bytes k) first with
  | None => None
  | Some (bs, _, d) =>
      let r := set_body_status bs r in
      let progress_total := if has_content_length head then content_length head else 0 in
      let '(go, e) := NetworkCheckpoint kind (Body.decoded_bytes_ d) progress_total e in
      if negb go then Some (set_status Canceled r, Body.sink_ d, close_stream stream e)
      else
        match bs with
        | BS_UnexpectedData | BS_InvalidArgument | BS_TooLarge | BS_SinkRejected | BS_InvalidChunk =>
            Some (set_status BodyInvalid r, Body.sink_ d, close_stream stream e)
        | _ =>
            match body_loop fuel stream kind progress_total bs d e with
            | None => None
            | Some (canceled, bs, d, e) =>
                let e := close_stream stream e in
                let r := set_body_bytes (Body.decoded_bytes_ d) (set_body_status bs r) in
                if (canceled : bool) then Some (set_status Canceled r, Body.sink_ d, e)
                else if negb (Body.complete d) || negb (feed_succeeded bs)
                then Some (set_status BodyInvalid r, Body.sink_ d, e)
                else Some (set_status Ok (set_body_status BS_Complete r), Body.sink_ d, e)
            end
        end
  end.

(** ** One turn of the loop over redirects: the result, or the next address *)
Definition exchange (fuel : nat) (kind : HttpsRequestKind) (options : HttpsRequestOptions) (maximum_body_bytes : Z)
    (redirect : Z) (parsed : ParsedUpdateUrl) (stream : Z) (r : HttpsGetResult) (k : K) (e : E)
    : option ((HttpsGetResult * K * E) + (bytes * HttpsGetResult * E)) :=
  match build_request kind options redirect parsed with
  | None => Some (inl (set_status RequestTooLarge r, k, close_stream stream e))
  | Some request =>
      match SendAll stream request kind e with
      | None => None
      | Some (SendError, e) => Some (inl (set_status SendFailed r, k, close_stream stream e))
      | Some (SendCanceled, e) => Some (inl (set_status Canceled r, k, close_stream stream e))
      | Some (AllSent, e) =>
          match head_loop head_turns stream kind (header_status r) [] e with
          | None => None
          | Some (HeadFailed st hs, e) =>
              Some (inl (set_status st (set_header_status hs r), k, close_stream stream e))
          | Some (HeadParsed head header_bytes headers, e) =>
              let r := set_http_status (status_code head) (set_header_status PS_Ok r) in
              if IsRedirectStatus (status_code head) then
                let e := close_stream stream e in
                let location := cstr (location head) in
                if negb (is_get options) then Some (inl (set_status RedirectRejected r, k, e))
                else if redirect =? kMaximumHttpsRedirects then Some (inl (set_status TooManyRedirects r, k, e))
                else
                  let '(us, _) := ParseAndAuthorizeUpdateUrl (Some location) Redirect no_url in
                  let r := set_url_status us r in
                  match us with
                  | UrlOk =>
                      if kMaximumUpdateUrlBytes <=? len location
                      then Some (inl (set_status RedirectRejected r, k, e))
                      else Some (inr (location, set_redirects (redirect + 1) r, e))
                  | _ => Some (inl (set_status RedirectRejected r, k, e))
                  end
              else if negb (status_code head =? 200)
              then Some (inl (set_status UnexpectedStatus r, k, close_stream stream e))
              else
                inl <$> receive_body fuel stream kind maximum_body_bytes head
                          (drop (Z.to_nat header_bytes) headers) r k e
          end
      end
  end.

(** From the address to the connection. *)
Fixpoint redirect_loop (turns : nat) (fuel : nat) (initial_purpose : UpdateUrlPurpose) (kind : HttpsRequestKind)
    (options : HttpsRequestOptions) (maximum_body_bytes : Z) (redirect : Z) (current_url : bytes)
    (r : HttpsGetResult) (k : K) (e : E) : option (HttpsGetResult * K * E) :=
  match turns with
  | O => Some (set_status TooManyRedirects r, k, e)
  | S turns' =>
      let purpose := if redirect =? 0 then initial_purpose else Redirect in
      let '(us, parsed) := ParseAndAuthorizeUpdateUrl (Some current_url) purpose no_url in
      let r := set_url_status us r in
      match us with
      | UrlOk =>
          let r := set_final_host (take (Z.to_nat (kMaximumUpdateHostBytes - 1)) (url_host parsed)) r in
          let '(go, e) := NetworkCheckpoint kind 0 0 e in
          if negb go then Some (set_status Canceled r, k, e)
          else
            match ConnectVerified (url_host parsed) (port parsed) e with
            | (None, e) => Some (set_status (if cancel_requested e then Canceled else ConnectFailed) r, k, e)
            | (Some stream, e) =>
                let '(go, e) := NetworkCheckpoint kind 0 0 e in
                if negb go then Some (set_status Canceled r, k, close_stream stream e)
                else
                  match exchange fuel kind options maximum_body_bytes redirect parsed stream r k e with
                  | None => None
                  | Some (inl result) => Some result
                  | Some (inr (next_url, r, e)) =>
                      redirect_loop turns' fuel initial_purpose kind options maximum_body_bytes (redirect + 1)
                        next_url r k e
                  end
            end
      | _ => Some (set_status (if redirect =? 0 then UrlRejected else RedirectRejected) r, k, e)
      end
  end.

Definition HttpsRequest (fuel : nat) (url : bytes) (initial_purpose : UpdateUrlPurpose) (kind : HttpsRequestKind)
    (options : HttpsRequestOptions) (maximum_body_bytes : Z) (k : K) (e : E) : option (HttpsGetResult * K * E) :=
  if (maximum_body_bytes =? 0) || negb (InitialPurposeAllowed initial_purpose) ||
     (negb (is_get options) && negb (is_post options)) ||
     negb (SafeHeaderValue (accept options) 128) || negb (SafeHeaderValue (content_type options) 128) ||
     negb (SafeHeaderValue (bearer_token options) 512) ||
     (is_get options && negb (len (body options) =? 0)) ||
     (is_post options && ((len (body options) =? 0) || bool_decide (content_type options = None)))
  then Some (initial_result, k, e)
  else
    let '(go, e) := NetworkCheckpoint kind 0 0 e in
    if negb go then Some (set_status Canceled initial_result, k, e)
    else if kMaximumUpdateUrlBytes <=? len url
    then Some (set_url_status TooLong (set_status UrlRejected initial_result), k, e)
    else redirect_loop (S (Z.to_nat kMaximumHttpsRedirects)) fuel initial_purpose kind options maximum_body_bytes 0 url
           initial_result k e.

Definition HttpsGet (fuel : nat) (url : bytes) (initial_purpose : UpdateUrlPurpose) (kind : HttpsRequestKind)
    (maximum_body_bytes : Z) (k : K) (e : E) : option (HttpsGetResult * K * E) :=
  HttpsRequest fuel url initial_purpose kind default_options maximum_body_bytes k e.
End https.

Definition HttpsGetStatusString (status : HttpsGetStatus) : bytes :=
  match status with
  | Ok => str "ok"
  | InvalidArgument => str "invalid argument"
  | UrlRejected => str "update URL rejected"
  | ConnectFailed => str "verified TLS connection failed"
  | RequestTooLarge => str "HTTP request too large"
  | SendFailed => str "HTTPS send failed"
  | ReceiveFailed => str "HTTPS receive failed"
  | HeaderInvalid => str "HTTP response header invalid"
  | RedirectRejected => str "HTTPS redirect rejected"
  | TooManyRedirects => str "too many HTTPS redirects"
  | UnexpectedStatus => str "unexpected HTTP status"
  | BodyInvalid => str "HTTP response body invalid"
  | Canceled => str "HTTPS request canceled"
  end.
