(* ===== verification/HttpsSessions.v ===== *)
(** * The sessions of an HTTPS request (over HttpsStream.v)

    The specification of [HttpsRequest]: the log of what any environment was asked to
    do is a chain of sessions [run], and an [Ok] means that the sink was given exactly
    the payload of a well-formed answer.  Both are proved with termination: the body
    takes at most 25 bytes of wire for a byte of payload, which bounds the turns. *)
From S2P Require Import Prelude UrlPolicy HttpResponse HttpsStream.
Local Open Scope Z_scope.

(** * Specification *)
(** What an environment was asked to do, in order; of the checkpoints only the
    cancelling ones.  [Sent] has the data offered and the result. *)
Inductive event :=
| Refused (host : bytes) (port : Z)
| Connected (host : bytes) (port : Z) (stream : Z)
| Sent (stream : Z) (data : bytes) (result : Z)
| Received (stream : Z) (data : bytes)
| Closed (stream : Z)
| Destroyed (stream : Z)
| Cancelled.

(** Any environment, with the log of its use. *)
#[export, refine] Instance Logged (E : Type) `{HttpsEnvironment E} : HttpsEnvironment (E * list event) := {
  Checkpoint p c t x :=
    let '(go, e) := Checkpoint p c t x.1 in (go, (e, if (go : bool) then x.2 else x.2 ++ [Cancelled]));
  cancel_requested x := cancel_requested x.1;
  ConnectVerified h p x :=
    let '(o, e) := ConnectVerified h p x.1 in
    (o, (e, x.2 ++ [match o with Some s => Connected h p s | None => Refused h p end]));
  Send s d x := let '(n, e) := Send s d x.1 in (n, (e, x.2 ++ [Sent s d n]));
  Receive s n x := let '(d, e) := Receive s n x.1 in (d, (e, x.2 ++ [Received s d]));
  Close s x := (Close s x.1, x.2 ++ [Closed s]);
  Destroy s x := (Destroy s x.1, x.2 ++ [Destroyed s]);
}.
Proof. intros s n [e l]. cbn [fst]. pose proof (Receive_bytes s n e). by destruct (Receive s n e). Defined.

(** Sending: each offer is what the earlier ones left. *)
Inductive sends (s : Z) : bytes -> list event -> send_outcome -> Prop :=
| sends_all : sends s [] [] AllSent
| sends_canceled rest : sends s rest [Cancelled] SendCanceled
| sends_error rest n : rest <> [] -> ~ 0 < n <= len rest -> sends s rest [Sent s rest n] SendError
| sends_some rest n evs o : 0 < n <= len rest -> sends s (drop (Z.to_nat n) rest) evs o ->
    sends s rest (Sent s rest n :: evs) o.

(** Receiving the segments [segs], then perhaps a cancellation. *)
Definition receives (s : Z) (segs : list bytes) (canceled : bool) : list event :=
  map (Received s) segs ++ (if canceled then [Cancelled] else []).

(** The segments are a response of status 200 whose body carries [payload]. *)
Definition delivered (segs : list bytes) (payload : bytes) : Prop :=
  Forall (Forall is_byte) segs /\ exists head n, Head.ParseHttpResponseHead (concat segs) = inr (head, n) /\ status_code head = 200 /\
    Body.framed head (drop (Z.to_nat n) (concat segs)) payload.

(** The segments are the head of a redirection to [url]. *)
Definition redirects_to (segs : list bytes) (url : bytes) : Prop :=
  exists head n, Head.ParseHttpResponseHead (concat segs) = inr (head, n) /\
    IsRedirectStatus (status_code head) = true /\ url = cstr (location head).

(** The exchange on stream [s] of a session that ends the request. *)
Inductive talk (s : Z) (request : option bytes) (st : HttpsGetStatus) (payload : bytes) : list event -> Prop :=
| talk_too_large : request = None -> st = RequestTooLarge -> talk s request st payload []
| talk_unsent q evs o : request = Some q -> sends s q evs o ->
    (o = SendError /\ st = SendFailed \/ o = SendCanceled /\ st = Canceled) -> talk s request st payload evs
| talk_answered q evs segs c : request = Some q -> sends s q evs AllSent ->
    (c = true -> st = Canceled) -> (st = Ok -> delivered segs payload) ->
    talk s request st payload (evs ++ receives s segs c).

(** The bearer token is for the first session and GitHub's API only. *)
Definition without_token (o : HttpsRequestOptions) : HttpsRequestOptions :=
  mkOptions (method o) (accept o) (content_type o) (body o) None.
Definition scoped (redirect : Z) (host : bytes) (o : HttpsRequestOptions) : HttpsRequestOptions :=
  if (redirect =? 0) && bytes_eqb host kApiHost then o else without_token o.

Section run.
Variables (initial_purpose : UpdateUrlPurpose) (kind : HttpsRequestKind) (options : HttpsRequestOptions).

(** What session [redirect] sends to [host]. *)
Definition session_request (redirect : Z) (host path : bytes) : option bytes :=
  build_request kind (scoped redirect host options) 0 {| url_host := host; path_and_query := path; port := 443 |}.

Definition session_purpose (redirect : Z) : UpdateUrlPurpose := if redirect =? 0 then initial_purpose else Redirect.

(** The sessions from session [redirect] to [url] on, with the final status, the
    number of redirects followed and the payload handed to the sink. *)
Inductive run (redirect : Z) (url : bytes) (st : HttpsGetStatus) (n : Z) (payload : bytes) : list event -> Prop :=
| run_rejected : st = (if redirect =? 0 then UrlRejected else RedirectRejected) -> n = redirect -> payload = [] ->
    (forall host path, ~ accepted_url (session_purpose redirect) url host path) ->
    run redirect url st n payload []
| run_canceled host path : accepted_url (session_purpose redirect) url host path ->
    st = Canceled -> n = redirect -> payload = [] -> run redirect url st n payload [Cancelled]
| run_refused host path : accepted_url (session_purpose redirect) url host path ->
    st = Canceled \/ st = ConnectFailed -> n = redirect -> payload = [] -> run redirect url st n payload [Refused host 443]
| run_connected host path s : accepted_url (session_purpose redirect) url host path ->
    st = Canceled -> n = redirect -> payload = [] ->
    run redirect url st n payload [Connected host 443 s; Cancelled; Closed s; Destroyed s]
| run_final host path s evs : accepted_url (session_purpose redirect) url host path -> n = redirect ->
    talk s (session_request redirect host path) st payload evs ->
    run redirect url st n payload (Connected host 443 s :: evs ++ [Closed s; Destroyed s])
| run_redirect host path s q evs segs next more : accepted_url (session_purpose redirect) url host path ->
    session_request redirect host path = Some q -> sends s q evs AllSent -> redirects_to segs next ->
    is_get options = true -> redirect < kMaximumHttpsRedirects ->
    run (redirect + 1) next st n payload more ->
    run redirect url st n payload
      (Connected host 443 s :: (evs ++ receives s segs false) ++ [Closed s; Destroyed s] ++ more).
End run.

(** * Proofs *)
(** ** The request *)
Lemma build_request_scoped kind options redirect parsed :
  build_request kind options redirect parsed =
  build_request kind (scoped redirect (url_host parsed) options) 0 parsed.
Proof.
  unfold scoped, build_request, is_post, is_get.
  destruct (redirect =? 0), (bytes_eqb (url_host parsed) kApiHost); cbn;
    destruct (bearer_token options); reflexivity.
Qed.

(** ** How much a body can take *)
(** At most 25 bytes of wire are taken for each byte of payload, and 22 more. *)
Definition weight (c : Body.ctl) : Z :=
  match c.1.1 with
  | Body.kChunkSize => 4 + Z.max 0 (Body.chunk_line_capacity - len c.2)
  | Body.kChunkSizeLf => 3
  | Body.kChunkDataCr => 24
  | Body.kChunkDataLf => 23
  | Body.kFinalCr => 2
  | Body.kFinalLf => 1
  | _ => 0
  end.

Lemma weight_nonneg c : 0 <= weight c.
Proof. unfold weight. destruct c.1.1; lia. Qed.

Lemma advance_weight c b c' out : Body.advance c b = Some (c', out) ->
  weight c' + 1 <= weight c + 25 * len out.
Proof.
  destruct c as [[st r] l]. unfold Body.advance, weight. intros Ha. cbn [fst snd] in *.
  destruct st; guards Ha; try discriminate Ha; injection Ha as <- <-; zbool; cbn [fst snd]; len_facts;
    rewrite ?len_snoc in *; change (len (@nil Z)) with 0 in *; change (len [b]) with 1;
    unfold Body.chunk_line_capacity in *; repeat case_match; try discriminate; lia.
Qed.

Lemma runs_weight c w c' out : Body.runs c w = Some (c', out) -> weight c' + len w <= weight c + 25 * len out.
Proof.
  revert c out. induction w as [|b w IH]; intros c out; cbn [Body.runs].
  { intros [= -> <-]. change (len (@nil Z)) with 0. lia. }
  destruct (Body.advance c b) as [[c1 o1]|] eqn:Ea; [|done].
  destruct (Body.runs c1 w) as [[c2 o2]|] eqn:Er; [|done]. intros [= -> <-].
  apply advance_weight in Ea. apply IH in Er. rewrite len_cons, len_app. lia.
Qed.

Section proofs.
Context {E : Type} `{HttpsEnvironment E} {K : Type} `{BodySink K}.
Implicit Types (x : E * list event) (d : Body.HttpBodyDecoder (K:=K)).

(** A computation that ends, appending events of which [P] holds. *)
Definition ends {A} (m : option (A * (E * list event))) (l : list event) (P : A -> list event -> Prop) : Prop :=
  exists a e evs, m = Some (a, (e, l ++ evs)) /\ P a evs.

Lemma ends_intro {A} (a : A) e l evs (P : A -> list event -> Prop) :
  P a evs -> ends (Some (a, (e, l ++ evs))) l P.
Proof. intros HP. by exists a, e, evs. Qed.

Lemma ends_now {A} (a : A) e l (P : A -> list event -> Prop) : P a [] -> ends (Some (a, (e, l))) l P.
Proof. intros HP. rewrite <- (app_nil_r l) at 1. by apply ends_intro. Qed.

Lemma ends_prefix {A} (m : option (A * (E * list event))) l evs0 (P : A -> list event -> Prop) :
  ends m (l ++ evs0) (fun a evs => P a (evs0 ++ evs)) -> ends m l P.
Proof. intros (a & e & evs & -> & HP). rewrite <- app_assoc. by apply ends_intro. Qed.

Lemma ends_weaken {A} (m : option (A * (E * list event))) l (P Q : A -> list event -> Prop) :
  ends m l P -> (forall a evs, P a evs -> Q a evs) -> ends m l Q.
Proof. intros (a & e & evs & -> & HP) HPQ. apply ends_intro. auto. Qed.

Lemma checkpoint_cases kind c t e l :
  exists e', NetworkCheckpoint kind c t (e, l) = (true, (e', l)) \/
             NetworkCheckpoint kind c t (e, l) = (false, (e', l ++ [Cancelled])).
Proof.
  unfold NetworkCheckpoint. cbn [Checkpoint Logged fst snd].
  destruct (Checkpoint (ForegroundPhase kind) c t e) as [[|] e']; exists e'; auto.
Qed.

Lemma Receive_logged s n e l : exists data e',
  Receive s n (e, l) = (data, (e', l ++ [Received s data])) /\ Forall is_byte data.
Proof.
  cbn [Receive Logged fst snd]. pose proof (Receive_bytes s n e). destruct (Receive s n e) as [data e'].
  by exists data, e'.
Qed.

Lemma Send_logged s data e l : exists n e', Send s data (e, l) = (n, (e', l ++ [Sent s data n])).
Proof. cbn [Send Logged fst snd]. destruct (Send s data e) as [n e']. by exists n, e'. Qed.

Lemma close_logged s e l : exists e', close_stream s (e, l) = (e', l ++ [Closed s; Destroyed s]).
Proof. unfold close_stream. cbn [Close Destroy Logged fst snd]. rewrite <- app_assoc. by eexists. Qed.

(** ** Sending *)
Lemma send_loop_ok turns s kind size rest e l : (length rest <= turns)%nat ->
  ends (send_loop turns s kind size rest (e, l)) l (fun o evs => sends s rest evs o).
Proof.
  revert rest e l. induction turns as [|turns IH]; intros rest e l Hn; destruct rest as [|b rest]; cbn [length] in Hn;
    try lia; cbn [send_loop]; try (apply ends_now; constructor).
  set (data := b :: rest) in *.
  destruct (checkpoint_cases kind (size - len data) size e l) as [e1 [-> | ->]]; cbn [negb].
  2:{ apply ends_intro. constructor. }
  destruct (Send_logged s data e1 l) as (n & e2 & ->).
  destruct ((n <=? 0) || (len data <? n)) eqn:En.
  { apply ends_intro. constructor; [done|]. intros Hr. apply orb_true_iff in En as [En|En]; zbool; lia. }
  zbool. destruct (checkpoint_cases kind (size - len (drop (Z.to_nat n) data)) size e2 (l ++ [Sent s data n]))
    as [e3 [-> | ->]]; cbn [negb].
  - apply (ends_prefix _ _ [Sent s data n]). eapply ends_weaken; [apply IH|].
    + rewrite length_drop. unfold data. cbn [length]. lia.
    + intros o evs Hs. apply sends_some; [lia | done].
  - rewrite <- app_assoc. apply (ends_intro _ _ _ [Sent s data n; Cancelled]).
    apply sends_some; [lia | constructor].
Qed.

(** ** The head *)
Definition head_ok (s : Z) (headers : bytes) (o : head_outcome) (evs : list event) : Prop :=
  exists segs c, evs = receives s segs c /\ Forall (Forall is_byte) segs /\
    match o with
    | HeadFailed st _ => st <> Ok /\ (c = true -> st = Canceled)
    | HeadParsed head n headers' => c = false /\ headers' = headers ++ concat segs /\
        Head.ParseHttpResponseHead headers' = inr (head, n)
    end.

Lemma head_ok_cons s headers data o evs : Forall is_byte data -> head_ok s (headers ++ data) o evs ->
  head_ok s headers o (Received s data :: evs).
Proof.
  intros Hd (segs & c & -> & Hb & Ho). exists (data :: segs), c. split; [done|]. split; [by constructor|].
  destruct o; [done|]. cbn [concat]. by rewrite app_assoc.
Qed.

Lemma head_loop_ok turns s kind hs headers e l :
  len headers <= kMaximumHttpHeaderBytes -> kMaximumHttpHeaderBytes - len headers < Z.of_nat turns ->
  ends (head_loop turns s kind hs headers (e, l)) l (head_ok s headers).
Proof.
  revert hs headers e l. induction turns as [|turns IH]; intros hs headers e l Hl Hn; cbn [head_loop]; [lia|].
  assert (Hstop : forall st hs' (c : bool), st <> Ok -> (c = true -> st = Canceled) ->
    head_ok s headers (HeadFailed st hs') (if c then [Cancelled] else [])).
  { intros st hs' c ? ?. exists [], c. split; [done|]. by split; [constructor|]. }
  assert (Hstop2 : forall data st hs' (c : bool), Forall is_byte data -> st <> Ok -> (c = true -> st = Canceled) ->
    head_ok s headers (HeadFailed st hs') (Received s data :: if c then [Cancelled] else [])).
  { intros data st hs' c ? ? ?. exists [data], c. split; [done|]. split; [by repeat constructor | done]. }
  destruct (checkpoint_cases kind 0 0 e l) as [e1 [-> | ->]]; cbn [negb].
  2:{ apply ends_intro. by apply (Hstop Canceled _ true). }
  destruct (Z.eqb_spec (len headers) kMaximumHttpHeaderBytes) as [E1|E1].
  { apply ends_now. by apply (Hstop HeaderInvalid _ false). }
  destruct (Receive_logged s (kMaximumHttpHeaderBytes - len headers) e1 l) as (data & e2 & -> & Hdata).
  destruct ((len data =? 0) || _) eqn:E2.
  { apply ends_intro. by apply (Hstop2 data ReceiveFailed _ false). }
  zbool. destruct (checkpoint_cases kind 0 0 e2 (l ++ [Received s data])) as [e3 [-> | ->]]; cbn [negb].
  2:{ rewrite <- app_assoc. apply ends_intro. by apply (Hstop2 data Canceled _ true). }
  destruct (Head.ParseHttpResponseHead (headers ++ data)) as [f|[head n]] eqn:Ep.
  - assert (Hfail : ends (Some (HeadFailed HeaderInvalid f, (e3, l ++ [Received s data]))) l (head_ok s headers)).
    { apply ends_intro. by apply (Hstop2 data HeaderInvalid _ false). }
    destruct f; try exact Hfail. apply (ends_prefix _ _ [Received s data]).
    eapply ends_weaken; [apply IH; rewrite len_app; len_facts; lia|].
    intros o evs. by apply head_ok_cons.
  - apply ends_intro. exists [data], false. cbn [concat]. rewrite app_nil_r.
    split; [done|]. split; [by repeat constructor | done].
Qed.

(** ** The body *)
#[local] Existing Instance Body.State_eq_dec.

(** The decoder [d'] has taken more payload than [d], within the limit. *)
Definition more d d' : Prop := exists out, Body.grows false d d' out.

Lemma more_refl d : Body.wf d -> more d d.
Proof. intros Hw. exists []. by apply Body.grows_refl. Qed.

Lemma more_trans d d1 d2 : more d d1 -> more d1 d2 -> more d d2.
Proof. intros [o1 G1] [o2 G2]. exists (o1 ++ o2). by eapply Body.grows_trans. Qed.

Lemma Finish_spec d : let '(_, d') := Body.Finish d in
  Body.sink_ d' = Body.sink_ d /\ Body.decoded_bytes_ d' = Body.decoded_bytes_ d /\
  Body.maximum_body_bytes_ d' = Body.maximum_body_bytes_ d /\
  (Body.complete d' = true -> Body.complete d = true).
Proof. unfold Body.Finish, Body.Fail, Body.complete. by destruct (Body.state_ d) eqn:Es; cbn; rewrite ?Es. Qed.

Definition room d : Z := weight (Body.ctl_of d) + 25 * (Body.maximum_body_bytes_ d - Body.decoded_bytes_ d).

Definition body_ok (s : Z) d (o : bool * HttpBodyStatus * Body.HttpBodyDecoder) (evs : list event) : Prop :=
  let '(canceled, bs, d') := o in
  exists segs, evs = receives s segs canceled /\ Forall (Forall is_byte) segs /\ more d d' /\
    (canceled = false -> Body.complete d' = true -> feed_succeeded bs = true -> Body.steps d d' (concat segs)).

Lemma steps_room d d' w : Body.steps d d' w -> room d' + len w <= room d.
Proof.
  intros (out & R & (_ & G2 & G3 & _) & _). apply runs_weight in R. unfold room. rewrite G3, G2. lia.
Qed.

Lemma body_loop_ok fuel s kind total bs d e l : Body.wf d -> Body.state_ d <> Body.kFailed ->
  room d < Z.of_nat fuel ->
  ends (body_loop fuel s kind total bs d (e, l)) l (body_ok s d).
Proof.
  revert bs d e l. induction fuel as [|fuel IH]; intros bs d e l Hw Hf Hn; cbn [body_loop].
  { destruct Hw as (Hw & _). pose proof (weight_nonneg (Body.ctl_of d)). unfold room in Hn. lia. }
  pose proof (more_refl d Hw) as Hm. unfold Body.complete at 1.
  case_bool_decide as Hc.
  { apply ends_now. exists []. split; [done|]. split; [constructor|]. split; [done|].
    intros _ _ _. by apply Body.steps_refl. }
  destruct (checkpoint_cases kind (Body.decoded_bytes_ d) total e l) as [e1 [-> | ->]]; cbn [negb].
  2:{ apply ends_intro. exists []. split; [done|]. by split; [constructor|split]. }
  destruct (Receive_logged s kHttpsReceiveBufferBytes e1 l) as (data & e2 & -> & Hdata).
  destruct ((len data =? 0) || _) eqn:E2.
  { pose proof (Finish_spec d) as HF. destruct (Body.Finish d) as [bs' d']. destruct HF as (F1 & F2 & F3 & F4).
    apply ends_intro. exists [data]. split; [done|]. split; [by repeat constructor|]. split.
    - destruct Hm as [out G]. exists out. unfold Body.grows in *. by rewrite F1, F2, F3.
    - intros _ Hc'. apply F4 in Hc'. unfold Body.complete in Hc'. by apply bool_decide_eq_true in Hc'. }
  zbool. destruct (Body.Feed_ok d data Hw Hc Hf) as (st & u & d1 & -> & Hok).
  assert (Hm1 : more d d1).
  { destruct Hok as [(_ & _ & (o & _ & G & _) & _)|[(w & _ & (o & _ & G & _) & _)|(_ & _ & _ & o & G)]]; exists o; by eapply Body.grows_any. }
  assert (Hstop : forall c : bool, (c = false -> Body.complete d1 = true -> feed_succeeded st = true ->
      Body.steps d d1 (concat [data])) -> body_ok s d (c, st, d1) (Received s data :: if c then [Cancelled] else [])).
  { intros c Hc1. exists [data]. split; [by destruct c|]. by split; [repeat constructor|split]. }
  destruct (checkpoint_cases kind (Body.decoded_bytes_ d1) total e2 (l ++ [Received s data])) as [e3 [-> | ->]];
    cbn [negb].
  2:{ rewrite <- app_assoc. apply ends_intro. by apply (Hstop true). }
  destruct (feed_succeeded st) eqn:Es; cbn [negb].
  2:{ apply ends_intro. by apply (Hstop false). }
  assert (Hs1 : Body.steps d d1 data /\ Body.state_ d1 <> Body.kFailed).
  { destruct Hok as [(-> & -> & S & _ & Hf1)|[(w & -> & S & Hc1 & ->)|(_ & [->|[->| ->]] & _)]]; try done.
    unfold Body.complete_status in Es. destruct (Z.eqb_spec (len u) 0) as [E0|]; [|done].
    destruct u as [|x u]; [|rewrite len_cons in E0; len_facts; lia]. rewrite app_nil_r, Hc1. done. }
  destruct Hs1 as [S1 Hf1]. pose proof (steps_room _ _ _ S1). len_facts.
  apply (ends_prefix _ _ [Received s data]). eapply ends_weaken.
  - apply IH; [by destruct S1 as (? & _ & _ & ?) | done | lia].
  - intros [[c bs'] d'] evs (segs & -> & Hb & M & Hs). exists (data :: segs). split; [done|]. split; [by constructor|].
    split; [by eapply more_trans|]. intros A1 A2 A3. cbn [concat]. eapply Body.steps_trans; [exact S1|]. auto.
Qed.

(** The sink has taken the payload, within the limit, and perhaps refused a write. *)
Definition took (limit : Z) (k k' : K) (payload : bytes) : Prop :=
  sink_bytes k' = sink_bytes k ++ payload /\ len payload <= limit /\ Body.reached false k k'.

Lemma took_nothing limit k : 0 <= limit -> took limit k k [].
Proof. intros Hl. unfold took. rewrite app_nil_r. split; [done|]. split; [done | constructor]. Qed.

(** The first bytes of the body. *)
Lemma first_feed head limit (k : K) first : (has_content_length head = true -> 0 <= content_length head) ->
  0 <= limit <= UINT64_MAX -> let d0 := Body.new_decoder head limit k in
  exists bs n d, Body.Feed d0 first = Some (bs, n, d) /\
    (exists payload, took limit k (Body.sink_ d) payload /\ Body.decoded_bytes_ d = len payload) /\
    match bs with
    | BS_UnexpectedData | BS_InvalidArgument | BS_TooLarge | BS_SinkRejected | BS_InvalidChunk => True
    | _ => Body.wf d0 /\ Body.state_ d0 <> Body.kFailed /\ Body.steps d0 d first /\ Body.state_ d <> Body.kFailed
    end.
Proof.
  intros Hcl Hlim d0.
  assert (Hnone : exists payload, took limit k (Body.sink_ d0) payload /\ Body.decoded_bytes_ d0 = len payload).
  { exists []. split; [|done]. by apply took_nothing; lia. }
  destruct (decide (Body.state_ d0 = Body.kFailed)) as [Ef|Ef].
  { exists BS_InvalidArgument, 0, d0. unfold Body.Feed. by rewrite Ef. }
  assert (Hw : Body.wf d0) by (by apply Body.new_decoder_wf).
  destruct (decide (Body.state_ d0 = Body.kComplete)) as [Ec|Ec].
  { exists (if len first =? 0 then BS_Complete else BS_UnexpectedData), 0, d0. unfold Body.Feed. rewrite Ec.
    split; [done|]. split; [done|]. destruct (Z.eqb_spec (len first) 0) as [E0|]; [|done].
    destruct first as [|b first]; [|rewrite len_cons in E0; len_facts; lia].
    split; [done|]. split; [done|]. split; [by apply Body.steps_refl | done]. }
  destruct (Body.Feed_ok d0 first Hw Ec Ef) as (bs & u & d & -> & Hok).
  exists bs, (len first - len u), d. split; [done|].
  assert (Hg : forall ok out, Body.grows ok d0 d out ->
    exists payload, took limit k (Body.sink_ d) payload /\ Body.decoded_bytes_ d = len payload).
  { intros ok out (G1 & G2 & G3 & G4 & G5). exists out. change (Body.decoded_bytes_ d0) with 0 in G2.
    change (Body.maximum_body_bytes_ d0) with limit in G4. apply Body.reached_any in G5.
    split; [|lia]. split; [done|]. split; [lia | done]. }
  destruct Hok as [(-> & -> & S & _ & Hf1)|[(w & -> & S & Hc1 & ->)|(_ & Hf & _ & o & G)]].
  - split; [|done]. destruct S as (o & _ & G & _). by apply (Hg true o).
  - split; [destruct S as (o & _ & G & _); by apply (Hg true o)|].
    unfold Body.complete_status. destruct (Z.eqb_spec (len u) 0) as [E0|]; [|done].
    destruct u as [|b u]; [|rewrite len_cons in E0; len_facts; lia]. by rewrite app_nil_r, Hc1.
  - split; [by apply (Hg false o)|]. by destruct Hf as [->|[->| ->]].
Qed.

Lemma new_decoder_room head limit (k : K) : 0 <= limit -> room (Body.new_decoder head limit k) <= 25 * limit + 22.
Proof.
  intros Hl. unfold room, weight, Body.ctl_of, Body.new_decoder, Body.chunk_line_capacity. cbn [fst snd Body.state_ Body.chunk_line_ Body.maximum_body_bytes_ Body.decoded_bytes_].
  change (len (@nil Z)) with 0. destruct (Bool.eqb _ _); [lia|].
  destruct (negb (chunked head) && (limit <? _)); [lia|].
  destruct (negb (chunked head) && (_ =? 0)); [lia|]. destruct (chunked head); lia.
Qed.

Definition body_fuel (limit : Z) : nat := Z.to_nat (25 * limit + 23).

Definition answer_ok (s : Z) (limit : Z) (head : HttpResponseHead) (first : bytes) (r : HttpsGetResult) (k : K)
    (o : HttpsGetResult * K) (evs : list event) : Prop :=
  exists segs c payload, evs = receives s segs c ++ [Closed s; Destroyed s] /\ Forall (Forall is_byte) segs /\
    redirects o.1 = redirects r /\ (c = true -> status o.1 = Canceled) /\ took limit k o.2 payload /\
    (status o.1 = Ok -> Body.framed head (first ++ concat segs) payload /\ body_bytes o.1 = len payload /\ Body.reached true k o.2).

Lemma receive_body_ok fuel s kind limit head first r k e l :
  (has_content_length head = true -> 0 <= content_length head) -> 0 <= limit <= UINT64_MAX ->
  (body_fuel limit <= fuel)%nat ->
  ends (receive_body fuel s kind limit head first r k (e, l)) l (answer_ok s limit head first r k).
Proof.
  intros Hcl Hlim Hfuel. unfold receive_body.
  destruct (first_feed head limit k first Hcl Hlim) as (bs & n & d & -> & (p & Hp & Hd) & Hbs).
  set (total := if has_content_length head then _ else _).
  assert (Hstop : forall st r' (c : bool), st <> Ok -> (c = true -> st = Canceled) -> redirects r' = redirects r ->
    answer_ok s limit head first r k (set_status st r', Body.sink_ d)
      ((if c then [Cancelled] else []) ++ [Closed s; Destroyed s])).
  { intros st r' c Hst Hc Hr. exists [], c, p. split; [done|]. by split; [constructor|]. }
  destruct (checkpoint_cases kind (Body.decoded_bytes_ d) total e l) as [e1 [-> | ->]]; cbn [negb].
  2:{ destruct (close_logged s e1 (l ++ [Cancelled])) as [e2 ->]. rewrite <- app_assoc.
      apply ends_intro. by apply (Hstop Canceled _ true). }
  destruct (close_logged s e1 l) as [e2 Hclose].
  assert (Hbad : ends (Some (set_status BodyInvalid (set_body_status bs r), Body.sink_ d, close_stream s (e1, l))) l
    (answer_ok s limit head first r k)).
  { rewrite Hclose. apply ends_intro. by apply (Hstop BodyInvalid _ false). }
  assert (Hgo : Body.wf (Body.new_decoder head limit k) -> Body.state_ (Body.new_decoder head limit k) <> Body.kFailed ->
    Body.steps (Body.new_decoder head limit k) d first -> Body.state_ d <> Body.kFailed ->
    ends (match body_loop fuel s kind total bs d (e1, l) with
          | None => None
          | Some (canceled, bs, d, e) =>
              let e := close_stream s e in
              let r := set_body_bytes (Body.decoded_bytes_ d) (set_body_status bs (set_body_status bs r)) in
              if (canceled : bool) then Some (set_status Canceled r, Body.sink_ d, e)
              else if negb (Body.complete d) || negb (feed_succeeded bs)
              then Some (set_status BodyInvalid r, Body.sink_ d, e)
              else Some (set_status Ok (set_body_status BS_Complete r), Body.sink_ d, e)
          end) l (answer_ok s limit head first r k)).
  { intros Hw0 Hf0 S0 Hf. clear Hbad Hclose e2.
    pose proof S0 as (o0 & R0 & (G1 & G2 & G3 & G4 & G5) & Hw).
    change (Body.decoded_bytes_ (Body.new_decoder head limit k)) with 0 in G2.
    change (Body.maximum_body_bytes_ (Body.new_decoder head limit k)) with limit in G3, G4.
    change (Body.sink_ (Body.new_decoder head limit k)) with k in G1.
    pose proof (steps_room _ _ _ S0) as Hr0. pose proof (new_decoder_room head limit k ltac:(lia)) as Hr1.
    destruct (body_loop_ok fuel s kind total bs d e1 l Hw Hf) as ([[c bs'] d'] & e2 & evs & -> & Hb).
    { len_facts. unfold body_fuel in Hfuel. lia. }
    destruct Hb as (segs & -> & Hbytes & (out & M1 & M2 & M3 & M4 & M5) & Hs).
    destruct (close_logged s e2 (l ++ receives s segs c)) as [e3 ->]. cbn zeta. rewrite <- app_assoc.
    assert (Htook : took limit k (Body.sink_ d') (o0 ++ out)).
    { split; [by rewrite M1, G1, app_assoc|]. split; [rewrite len_app; lia|].
      apply Body.reached_any in G5. by eapply Body.reached_trans. }
    destruct c.
    { apply ends_intro. exists segs, true, (o0 ++ out). by split_and!; try apply Htook. }
    destruct (Body.complete d') eqn:Ec; cbn [negb orb].
    2:{ apply ends_intro. exists segs, false, (o0 ++ out). by split_and!; try apply Htook. }
    destruct (feed_succeeded bs') eqn:Es; cbn [negb].
    2:{ apply ends_intro. exists segs, false, (o0 ++ out). by split_and!; try apply Htook. }
    apply ends_intro. exists segs, false, (o0 ++ out). split; [done|]. split; [done|]. split; [done|]. split; [done|].
    split; [exact Htook|]. intros _.
    destruct (Body.steps_trans _ _ _ _ _ S0 (Hs eq_refl eq_refl eq_refl)) as (o & R & (T1 & _ & _ & _ & T5) & _).
    change (Body.sink_ (Body.new_decoder head limit k)) with k in T1, T5. split; [|split; [|exact T5]].
    - destruct Htook as [T2 _]. rewrite T2 in T1. apply app_inv_head in T1. rewrite T1.
      eapply Body.new_decoder_framed; [exact Hf0 | exact R |].
      unfold Body.complete in Ec. by apply bool_decide_eq_true in Ec.
    - change (Body.decoded_bytes_ d' = len (o0 ++ out)). rewrite len_app. lia. }
  destruct bs; try exact Hbad; destruct Hbs as (B1 & B2 & B3 & B4); by apply Hgo.
Qed.

(** ** One session *)
Lemma head_content_length input head n : Head.ParseHttpResponseHead input = inr (head, n) ->
  has_content_length head = true -> 0 <= content_length head.
Proof.
  intros Hp. destruct (Head.ParseHttpResponseHead_framing _ _ _ Hp)
    as (st & fields & _ & _ & _ & _ & _ & _ & Hl & _). intros Hh.
  destruct (Head.named (str "content-length") fields) as [|f []], (Head.named (str "transfer-encoding") fields) as [|g []];
    try done; destruct Hl as [Hl Hl']; try congruence.
  destruct Hl' as (_ & Hd & _ & -> & _). by apply decimal_ge.
Qed.

(** A head found in the first segments is found in all of them. *)
Lemma head_in_all headers head n more_bytes : Head.ParseHttpResponseHead headers = inr (head, n) ->
  Head.ParseHttpResponseHead (headers ++ more_bytes) = inr (head, n) /\
  drop (Z.to_nat n) (headers ++ more_bytes) = drop (Z.to_nat n) headers ++ more_bytes.
Proof.
  intros Hp. destruct (Head.ParseHttpResponseHead_incremental _ _ _ Hp) as [Hi _].
  destruct (Head.ParseHttpResponseHead_framing _ _ _ Hp) as (st & fields & Ht & Hn & _).
  split.
  - rewrite <- (take_drop (Z.to_nat n) headers), <- app_assoc. apply Hi.
  - apply drop_app_le. apply (f_equal length) in Ht. rewrite length_take in Ht.
    unfold len in Hn. lia.
Qed.

(** What a session that ends the request leaves. *)
Definition session_ends (s limit : Z) (request : option bytes) (r : HttpsGetResult) (k : K) (o : HttpsGetResult * K)
    (evs : list event) : Prop :=
  exists evs' payload, evs = evs' ++ [Closed s; Destroyed s] /\ redirects o.1 = redirects r /\
    took limit k o.2 payload /\ talk s request (status o.1) payload evs' /\
    (status o.1 = Ok -> body_bytes o.1 = len payload /\ Body.reached true k o.2).

(** What a session that is redirected leaves. *)
Definition session_moves (s redirect : Z) (options : HttpsRequestOptions) (request : option bytes)
    (o : bytes * HttpsGetResult) (evs : list event) : Prop :=
  exists q evs' segs, evs = (evs' ++ receives s segs false) ++ [Closed s; Destroyed s] /\
    request = Some q /\ sends s q evs' AllSent /\ redirects_to segs o.1 /\ is_get options = true /\
    redirect < kMaximumHttpsRedirects /\ redirects o.2 = redirect + 1 /\ NUL ∉ o.1.

(** Ending a session without an answer. *)
Lemma session_fails s limit request r k st r' evs : 0 <= limit -> redirects r' = redirects r -> st <> Ok ->
  talk s request st [] evs ->
  session_ends s limit request r k (set_status st r', k) (evs ++ [Closed s; Destroyed s]).
Proof. intros Hl Hr Hst Ht. exists evs, []. split; [done|]. split; [done|]. by split; [by apply took_nothing|]. Qed.

Lemma answer_talk s q evs0 hsegs limit head n headers r k o evs :
  sends s q evs0 AllSent -> Forall (Forall is_byte) hsegs -> headers = concat hsegs -> Head.ParseHttpResponseHead headers = inr (head, n) ->
  status_code head = 200 -> answer_ok s limit head (drop (Z.to_nat n) headers) r k o evs ->
  session_ends s limit (Some q) r k o (evs0 ++ receives s hsegs false ++ evs).
Proof.
  intros Hs Hb -> Hp Hc (segs & c & payload & -> & Hb2 & Hr & Hcan & Ht & Hok).
  exists (evs0 ++ receives s (hsegs ++ segs) c), payload. split.
  { unfold receives. rewrite map_app, app_nil_r, <- !app_assoc. done. }
  split; [done|]. split; [done|]. split; [|tauto].
  apply (talk_answered _ _ _ _ q); try done. intros Est. destruct (Hok Est) as [Hf _].
  destruct (head_in_all _ _ _ (concat segs) Hp) as [Hp' Hd].
  split; [by apply Forall_app|]. exists head, n. rewrite concat_app. rewrite Hd. done.
Qed.

Definition exchange_ends (m : option ((HttpsGetResult * K * (E * list event)) + (bytes * HttpsGetResult * (E * list event))))
    (l : list event) (P : HttpsGetResult * K -> list event -> Prop) (Q : bytes * HttpsGetResult -> list event -> Prop) : Prop :=
  exists e evs, (exists o, m = Some (inl (o, (e, l ++ evs))) /\ P o evs) \/
                (exists o, m = Some (inr (o, (e, l ++ evs))) /\ Q o evs).

Lemma exchange_closed (o : HttpsGetResult * K) s e l evs P Q : P o (evs ++ [Closed s; Destroyed s]) ->
  exchange_ends (Some (inl (o, close_stream s (e, l ++ evs)))) l P Q.
Proof.
  intros HP. destruct (close_logged s e (l ++ evs)) as [e' ->]. rewrite <- app_assoc.
  exists e', (evs ++ [Closed s; Destroyed s]). left. by exists o.
Qed.

Lemma exchange_ok fuel kind options limit redirect host path s r k e l :
  0 <= limit <= UINT64_MAX -> (body_fuel limit <= fuel)%nat -> redirect <= kMaximumHttpsRedirects ->
  let request := session_request kind options redirect host path in
  exchange_ends
    (exchange fuel kind options limit redirect {| url_host := host; path_and_query := path; port := 443 |} s r k (e, l)) l
    (session_ends s limit request r k) (session_moves s redirect options request).
Proof.
  intros Hlim Hfuel Hred request. unfold exchange. rewrite build_request_scoped. cbn [url_host].
  change (build_request kind (scoped redirect host options) 0 _) with request.
  assert (Hnil : forall st r', redirects r' = redirects r -> st <> Ok -> talk s request st [] [] ->
    exchange_ends (Some (inl (set_status st r', k, close_stream s (e, l)))) l
      (session_ends s limit request r k) (session_moves s redirect options request)).
  { intros st r' Hr Hst Ht. rewrite <- (app_nil_r l) at 1. apply exchange_closed.
    apply (session_fails _ _ _ _ _ _ _ []); [lia | done..]. }
  destruct request as [q|]; [|by apply Hnil; [..|apply talk_too_large]]. clear Hnil.
  destruct (send_loop_ok (length q) s kind (len q) q e l ltac:(lia)) as (o & e1 & evs0 & Hs0 & Hs).
  unfold SendAll. rewrite Hs0.
  destruct o.
  2:{ apply exchange_closed. apply session_fails; try done; [lia|]. eapply talk_unsent; [done | exact Hs | by left]. }
  2:{ apply exchange_closed. apply session_fails; try done; [lia|]. eapply talk_unsent; [done | exact Hs | by right]. }
  destruct (head_loop_ok head_turns s kind (header_status r) [] e1 (l ++ evs0)) as (o & e2 & evs1 & -> & Ho).
  { done. }
  { unfold head_turns. change (len (@nil Z)) with 0. unfold kMaximumHttpHeaderBytes. lia. }
  destruct Ho as (hsegs & c & -> & Hhb & Ho).
  assert (Hclosed : forall st r', redirects r' = redirects r -> st <> Ok -> (c = true -> st = Canceled) ->
    exchange_ends (Some (inl (set_status st r', k, close_stream s (e2, (l ++ evs0) ++ receives s hsegs c)))) l
      (session_ends s limit (Some q) r k) (session_moves s redirect options (Some q))).
  { intros st r' Hr Hst Hc. rewrite <- app_assoc. apply exchange_closed.
    apply session_fails; try done; [lia|]. by eapply talk_answered. }
  destruct o as [st hs|head n headers]; [destruct Ho; by apply Hclosed|].
  destruct Ho as (-> & Hh & Hp). cbn [app] in Hh. cbn zeta.
  destruct (IsRedirectStatus (status_code head)) eqn:Er.
  - destruct (is_get options) eqn:Eg; cbn [negb]; [|by apply Hclosed].
    destruct (Z.eqb_spec redirect kMaximumHttpsRedirects) as [E3|E3]; [by apply Hclosed|].
    destruct (ParseAndAuthorizeUpdateUrl (Some (cstr (location head))) Redirect no_url) as [us pu].
    destruct us; try (by apply Hclosed).
    destruct (kMaximumUpdateUrlBytes <=? len (cstr (location head))) eqn:El; [by apply Hclosed|].
    destruct (close_logged s e2 ((l ++ evs0) ++ receives s hsegs false)) as [e3 ->].
    rewrite <- !app_assoc. exists e3, (evs0 ++ receives s hsegs false ++ [Closed s; Destroyed s]). right.
    eexists (_, _). split; [done|]. exists q, evs0, hsegs. cbn [fst snd redirects set_redirects].
    rewrite <- !app_assoc. repeat split; try done; [|lia|apply cstr_no_nul].
    exists head, n. by rewrite <- Hh.
  - destruct (Z.eqb_spec (status_code head) 200) as [E4|E4]; cbn [negb]; [|by apply Hclosed].
    pose proof (head_content_length _ _ _ Hp) as Hcl. clear Hclosed.
    set (r' := set_http_status _ _).
    destruct (receive_body_ok fuel s kind limit head (drop (Z.to_nat n) headers) r' k e2
      ((l ++ evs0) ++ receives s hsegs false) Hcl Hlim Hfuel) as (o & e3 & evs & -> & Ho).
    cbn [fmap option_fmap option_map]. rewrite <- !app_assoc. eexists _, _. left. exists o. split; [done|].
    by eapply (answer_talk _ _ _ _ _ _ _ _ r').
Qed.

(** ** The loop over redirects *)
Lemma authorize_cases purpose url : NUL ∉ url ->
  (exists host path, accepted_url purpose url host path /\ ParseAndAuthorizeUpdateUrl (Some url) purpose no_url =
     (UrlOk, {| url_host := host; path_and_query := path; port := 443 |})) \/
  (exists us parsed, ParseAndAuthorizeUpdateUrl (Some url) purpose no_url = (us, parsed) /\ us <> UrlOk /\
     forall host path, ~ accepted_url purpose url host path).
Proof.
  intros Hnul. pose proof (fun q => authorized_url_iff purpose url no_url q Hnul) as Hiff.
  destruct (ParseAndAuthorizeUpdateUrl (Some url) purpose no_url) as [us parsed] eqn:Ep.
  assert (Hd : us = UrlOk \/ us <> UrlOk) by (destruct us; auto; by right). destruct Hd as [->|Hus].
  - left. destruct (proj1 (Hiff parsed) eq_refl) as (host & path & Ha & ->). by exists host, path.
  - right. exists us, parsed. split; [done|]. split; [done|]. intros host path Ha.
    assert (Hx : (us, parsed) = (UrlOk, {| url_host := host; path_and_query := path; port := 443 |})).
    { apply Hiff. by exists host, path. }
    congruence.
Qed.

Definition run_ends (initial_purpose : UpdateUrlPurpose) (kind : HttpsRequestKind) (options : HttpsRequestOptions)
    (limit redirect : Z) (url : bytes) (k : K) (o : HttpsGetResult * K) (evs : list event) : Prop :=
  exists payload, took limit k o.2 payload /\ (status o.1 = Ok -> body_bytes o.1 = len payload /\ Body.reached true k o.2) /\
    run initial_purpose kind options redirect url (status o.1) (redirects o.1) payload evs.

Lemma redirect_loop_ok turns fuel purpose kind options limit redirect url r k e l :
  0 <= limit <= UINT64_MAX -> (body_fuel limit <= fuel)%nat -> NUL ∉ url ->
  redirect <= kMaximumHttpsRedirects -> Z.of_nat turns = kMaximumHttpsRedirects + 1 - redirect ->
  redirects r = redirect ->
  ends (redirect_loop turns fuel purpose kind options limit redirect url r k (e, l)) l
    (run_ends purpose kind options limit redirect url k).
Proof.
  intros Hlim Hfuel. revert redirect url r e l.
  induction turns as [|turns IH]; intros redirect url r e l Hnul Hred Hturns Hr; [lia|]. cbn [redirect_loop].
  fold (session_purpose purpose redirect).
  pose proof (took_nothing limit k ltac:(lia)) as Hk.
  destruct (authorize_cases (session_purpose purpose redirect) url Hnul)
    as [(host & path & Ha & ->)|(us & parsed & -> & Hus & Hno)].
  2:{ assert (Hend : ends (Some (set_status (if redirect =? 0 then UrlRejected else RedirectRejected)
                             (set_url_status us r), k, (e, l))) l (run_ends purpose kind options limit redirect url k)).
      { apply (ends_now (_, _)). exists []. split; [done|]. split; [by destruct (redirect =? 0)|]. by apply run_rejected. }
      destruct us; try exact Hend; congruence. }
  set (r1 := set_final_host _ _). assert (Hr1 : redirects r1 = redirect) by done. cbn [url_host port].
  destruct (checkpoint_cases kind 0 0 e l) as [e1 [-> | ->]]; cbn [negb].
  2:{ apply (ends_intro (_, _)). exists []. split; [done|]. split; [done|]. by eapply run_canceled. }
  destruct (ConnectVerified host 443 (e1, l)) as [o [e2 l2]] eqn:Ec.
  cbn [ConnectVerified Logged fst snd] in Ec. destruct (ConnectVerified host 443 e1) as [o' e2'].
  injection Ec as -> -> <-. destruct o as [s|].
  2:{ apply (ends_intro (_, _)). exists []. split; [done|].
      split; [|eapply run_refused; try done]; cbn [status set_status fst]; destruct (cancel_requested _); auto; done. }
  destruct (checkpoint_cases kind 0 0 e2 (l ++ [Connected host 443 s])) as [e3 [-> | ->]]; cbn [negb].
  2:{ destruct (close_logged s e3 ((l ++ [Connected host 443 s]) ++ [Cancelled])) as [e4 ->].
      rewrite <- !app_assoc. apply (ends_intro (_, _)). exists []. split; [done|]. split; [done|].
      by eapply run_connected. }
  destruct (exchange_ok fuel kind options limit redirect host path s r1 k e3 (l ++ [Connected host 443 s]) Hlim Hfuel Hred)
    as (e4 & evs & [([r' k'] & -> & Hend)|([next r'] & -> & Hmove)]).
  - rewrite <- app_assoc. apply (ends_intro (_, _)).
    destruct Hend as (evs' & payload & -> & Hr' & Ht & Htalk & Hb). exists payload. split; [done|]. split; [done|].
    eapply run_final; [exact Ha | congruence | exact Htalk].
  - destruct Hmove as (q & evs' & segs & -> & Hq & Hs & Hto & Hg & Hlt & Hr' & Hn). cbn [fst snd] in *.
    rewrite <- !app_assoc. apply (ends_prefix _ _ (Connected host 443 s :: (evs' ++ receives s segs false) ++ [Closed s; Destroyed s])).
    cbn [app]. rewrite <- !app_assoc. eapply ends_weaken; [apply IH; [done | lia | lia | congruence]|].
    intros o evs (payload & Ht & Hb & Hrun). exists payload. split; [done|]. split; [done|].
    cbn [app]. rewrite <- !app_assoc. rewrite (app_assoc evs').
    by eapply run_redirect.
Qed.

Definition request_ends (initial_purpose : UpdateUrlPurpose) (kind : HttpsRequestKind) (options : HttpsRequestOptions)
    (limit : Z) (url : bytes) (k : K) (o : HttpsGetResult * K) (evs : list event) : Prop :=
  run_ends initial_purpose kind options limit 0 url k o evs \/
  evs = [] /\ o.2 = k /\ (status o.1 = InvalidArgument \/ status o.1 = UrlRejected) \/
  evs = [Cancelled] /\ o.2 = k /\ status o.1 = Canceled.

Lemma HttpsRequest_ends fuel url purpose kind options limit k e l :
  NUL ∉ url -> 0 <= limit <= UINT64_MAX -> (body_fuel limit <= fuel)%nat ->
  ends (HttpsRequest fuel url purpose kind options limit k (e, l)) l (request_ends purpose kind options limit url k).
Proof.
  intros Hnul Hlim Hfuel. unfold HttpsRequest.
  match goal with |- context [if ?b then Some (initial_result, _, _) else _] => destruct b end.
  { apply (ends_now (_, _)). right; left. auto. }
  destruct (checkpoint_cases kind 0 0 e l) as [e1 [-> | ->]]; cbn [negb].
  2:{ apply (ends_intro (_, _)). by right; right. }
  destruct (kMaximumUpdateUrlBytes <=? len url).
  { apply (ends_now (_, _)). right; left. auto. }
  eapply ends_weaken; [by apply redirect_loop_ok|]. intros o evs Ho. by left.
Qed.

Lemma request_ends_Ok purpose kind options limit url k o evs :
  request_ends purpose kind options limit url k o evs -> status o.1 = Ok ->
  exists payload, sink_bytes o.2 = sink_bytes k ++ payload /\ len payload <= limit /\ body_bytes o.1 = len payload /\
    Body.reached true k o.2 /\ run purpose kind options 0 url (status o.1) (redirects o.1) payload evs.
Proof.
  intros [(payload & (Ht & Hl & _) & Hb & Hr)|[(_ & _ & [Hs|Hs])|(_ & _ & Hs)]] Hok; try congruence.
  exists payload. destruct (Hb Hok). done.
Qed.

(** The sink only ever sees writes. *)
Lemma request_ends_reached purpose kind options limit url k o evs :
  request_ends purpose kind options limit url k o evs -> Body.reached false k o.2.
Proof. intros [(payload & (_ & _ & Hr) & _)|[(_ & -> & _)|(_ & -> & _)]]; [exact Hr | constructor..]. Qed.

(** What an answer of status [Ok] rests on. *)
Lemma run_Ok purpose kind options redirect url st n payload log :
  run purpose kind options redirect url st n payload log -> st = Ok ->
  exists before url' host path s q evs segs, log = before ++ Connected host 443 s :: (evs ++ receives s segs false) ++ [Closed s; Destroyed s] /\
    accepted_url (session_purpose purpose n) url' host path /\
    session_request kind options n host path = Some q /\ sends s q evs AllSent /\ delivered segs payload.
Proof.
  intros Hrun. induction Hrun as [redirect url st n p Hst Hn Hp Hno | redirect url st n p host path Ha Hst
    | redirect url st n p host path Ha Hst | redirect url st n p host path s Ha Hst
    | redirect url st n p host path s evs Ha Hn Ht
    | redirect url st n p host path s q evs segs next rest Ha Hq Hs Hto Hg Hlt Hrun IH]; intros Hok; subst st.
  - by destruct (redirect =? 0).
  - done.
  - by destruct Hst.
  - done.
  - subst n. destruct Ht as [_ Hst | q evs o _ _ [[_ Hst]|[_ Hst]] | q evs segs c Hq Hs Hc Hd]; try done.
    destruct c; [by specialize (Hc eq_refl)|]. exists [], url, host, path, s, q, evs, segs. cbn [app]. auto 6.
  - destruct (IH eq_refl) as (before & url' & host' & path' & s' & q' & evs' & segs' & -> & Hrest).
    exists (Connected host 443 s :: (evs ++ receives s segs false) ++ [Closed s; Destroyed s] ++ before),
      url', host', path', s', q', evs', segs'. split; [|exact Hrest].
    rewrite <- !app_comm_cons, <- !app_assoc. done.
Qed.
End proofs.

(** * Theorems *)
Section theorems.
Context {E : Type} `{HttpsEnvironment E} {K : Type} `{BodySink K}.

(** C14. A request always returns, for every environment, and its use of the
    network is a chain of at most four sessions: each connects, on port 443, to the
    host of an authorized address (of the caller's purpose first, of a redirection
    after), offers exactly the bytes of its request in order, reads an answer only
    after the whole request, stops at the first cancellation, and is closed and
    destroyed exactly once before anything else happens.  The bearer token is in
    the first request at most, and there only for api.github.com; the sink is
    given the body of the last answer only, within the limit. *)
Theorem HttpsRequest_sessions fuel url purpose kind options limit (k : K) (e : E)
    (Hurl : NUL ∉ url) (Hlimit : 0 <= limit <= UINT64_MAX) (Hfuel : (body_fuel limit <= fuel)%nat) :
  exists r k' e' log, HttpsRequest fuel url purpose kind options limit k (e, []) = Some (r, k', (e', log)) /\
    request_ends purpose kind options limit url k (r, k') log.
Proof.
  destruct (HttpsRequest_ends fuel url purpose kind options limit k e [] Hurl Hlimit Hfuel)
    as ([r k'] & e' & log & Hr & Hend). by exists r, k', e', log.
Qed.

(** C15. An [Ok] is earned: the last session went to an authorized host, sent its
    whole request, and received a well-formed response of status 200 whose body, in
    the framing that its head announces, carries exactly the payload that the sink
    was given, of the size reported and within the limit; and the sink refused no
    write. *)
Theorem HttpsRequest_Ok_delivers fuel url purpose kind options limit (k : K) (e : E) r k' e' log
    (Hurl : NUL ∉ url) (Hlimit : 0 <= limit <= UINT64_MAX) (Hfuel : (body_fuel limit <= fuel)%nat)
    (Hrun : HttpsRequest fuel url purpose kind options limit k (e, []) = Some (r, k', (e', log)))
    (Hok : status r = Ok) :
  exists payload before url' host path s q evs segs,
    log = before ++ Connected host 443 s :: (evs ++ receives s segs false) ++ [Closed s; Destroyed s] /\
    accepted_url (session_purpose purpose (redirects r)) url' host path /\
    session_request kind options (redirects r) host path = Some q /\ sends s q evs AllSent /\
    delivered segs payload /\ sink_bytes k' = sink_bytes k ++ payload /\ len payload <= limit /\
    body_bytes r = len payload /\ Body.reached true k k'.
Proof.
  destruct (HttpsRequest_ends fuel url purpose kind options limit k e [] Hurl Hlimit Hfuel)
    as (o & e2 & log2 & Heq & Hend).
  rewrite Hrun in Heq. injection Heq as <- <- <-.
  destruct (request_ends_Ok _ _ _ _ _ _ _ _ Hend Hok) as (payload & Ht & Hl & Hb & Hr & Hrun').
  destruct (run_Ok _ _ _ _ _ _ _ _ _ Hrun' Hok) as (before & url' & host & path & s & q & evs & segs & Hlog & Hrest).
  exists payload, before, url', host, path, s, q, evs, segs. destruct Hrest as (A1 & A2 & A3 & A4). tauto.
Qed.
End theorems.

(** ** A scripted server *)
(** Every stream is accepted and every byte sent; each call of [Receive] takes the
    next bytes of the script. *)
#[export, refine] Instance Scripted : HttpsEnvironment (list bytes) := {
  Checkpoint _ _ _ e := (true, e);
  cancel_requested _ := false;
  ConnectVerified _ _ e := (Some (Z.of_nat (length e)), e);
  Send _ d e := (len d, e);
  Receive _ _ e := match e with [] => ([], []) | d :: e' => (u8 <$> d, e') end;
  Close _ e := e;
  Destroy _ e := e;
}.
Proof.
  intros _ _ [|d e]; [constructor|]. cbn [fst]. apply Forall_fmap, Forall_true. intros b. apply u8_range.
Defined.

Definition sample_url : bytes := str "https://github.com/kdre/bmx/releases/download/v1/bmx-pi5.zip".
Definition sample_target : bytes := str "https://objects.githubusercontent.com/x?sig=1".
Definition sample_script : list bytes :=
  [ str "HTTP/1.1 302 Found" ++ CRLF ++ str "Content-Length: 0" ++ CRLF ++ str "Location: " ++ sample_target ++ CRLF ++ CRLF;
    str "HTTP/1.1 200 OK" ++ CRLF ++ str "Content-Len"; str "gth: 5" ++ CRLF ++ CRLF ++ str "ab"; str "cde" ].
Definition sample_run : option (HttpsGetResult * BoundedMemoryBodySink * (list bytes * list event)) :=
  HttpsGet (body_fuel 100) sample_url ReleaseAsset ReleaseZip 100 (mkMemSink [] 100 false) (sample_script, []).

(** The redirection is followed and the body stored. *)
Example sample_run_result :
  (fun x => (status x.1.1, redirects x.1.1, final_host x.1.1, mem_buffer x.1.2, length x.2.2)) <$> sample_run =
  Some (Ok, 1, str "objects.githubusercontent.com", str "abcde", 12%nat).
Proof. vm_compute. reflexivity. Qed.

Definition sample_final : HttpsGetResult * BoundedMemoryBodySink * (list bytes * list event) :=
  default (initial_result, mkMemSink [] 0 false, ([], [])) sample_run.

Lemma HttpsRequest_sessions_witness :
  exists r k' e' log,
    HttpsRequest (body_fuel 100) sample_url ReleaseAsset ReleaseZip default_options 100 (mkMemSink [] 100 false) (sample_script, []) =
      Some (r, k', (e', log)) /\
    request_ends ReleaseAsset ReleaseZip default_options 100 sample_url (mkMemSink [] 100 false) (r, k') log.
Proof.
  apply (HttpsRequest_sessions (body_fuel 100) sample_url ReleaseAsset ReleaseZip default_options 100 (mkMemSink [] 100 false)
    sample_script); [apply index_of_None; reflexivity | unfold UINT64_MAX; lia | lia].
Defined.

Lemma HttpsRequest_Ok_delivers_witness :
  exists payload before url' host path s q evs segs,
    sample_final.2.2 = before ++ Connected host 443 s :: (evs ++ receives s segs false) ++ [Closed s; Destroyed s] /\
    accepted_url (session_purpose ReleaseAsset (redirects sample_final.1.1)) url' host path /\
    session_request ReleaseZip default_options (redirects sample_final.1.1) host path = Some q /\ sends s q evs AllSent /\
    delivered segs payload /\ sink_bytes sample_final.1.2 = sink_bytes (mkMemSink [] 100 false) ++ payload /\ len payload <= 100 /\
    body_bytes sample_final.1.1 = len payload /\ Body.reached true (mkMemSink [] 100 false) sample_final.1.2.
Proof.
  apply (HttpsRequest_Ok_delivers (body_fuel 100) sample_url ReleaseAsset ReleaseZip default_options 100
    (mkMemSink [] 100 false) sample_script sample_final.1.1 sample_final.1.2 sample_final.2.1 sample_final.2.2);
    [apply index_of_None; reflexivity | unfold UINT64_MAX; lia | lia | vm_compute; reflexivity | vm_compute; reflexivity].
Defined.
