(* ===== verification/GithubClients.v ===== *)
(** * The clients of GitHub's API (src/src/update/github_release_client.cpp, github_draft_client.cpp)

    [CheckLatestRelease] and [CheckPreparedDraftRelease] download the three texts of a
    release (GitHub's answer, the manifest and the signature envelope) and build an
    offer from them; the two functions of the device flow obtain the bearer token for
    a draft.  The functions run in a monad over the environment of HttpsStream.v, with
    an early return; [None] is a body loop out of fuel.  Null pointers are [None] or
    capacity 0; the views into the caller's buffers are the bytes they show. *)
From S2P Require Import Prelude Json JsonFields UpdatePolicy UrlPolicy HttpResponse Sha256 SignatureEnvelope BuildInfo GithubRelease ReleaseManifest SignatureVerifier ReleaseOffer DraftTicket HttpsStream.
From Stdlib Require Import Ascii.
Local Open Scope Z_scope.

Definition kMaximumGitHubDeviceCodeBytes : Z := 128.
Definition kMaximumGitHubUserCodeBytes : Z := 16.
Definition kMaximumGitHubAccessTokenBytes : Z := 512.
Definition kMaximumGitHubDeviceResponseBytes : Z := 4096.

(** ** The monad *)
Definition client (E S A : Type) : Type := E -> option (parsed S A * E).

Definition cret {E S A} (a : A) : client E S A := fun e => Some (Val a, e).
Definition creturn {E S A} (s : S) : client E S A := fun e => Some (Stop s, e).
Definition cbind {E S A B} (m : client E S A) (k : A -> client E S B) : client E S B :=
  fun e =>
    match m e with
    | None => None
    | Some (Val a, e) => k a e
    | Some (Stop s, e) => Some (Stop s, e)
    | Some (Ub, e) => Some (Ub, e)
    end.
Definition lift {E S A} (m : parsed S A) : client E S A := fun e => Some (m, e).
Definition cneed {E S} (b : bool) (s : S) : client E S unit := lift (need b s).

Notation "'do!' x ':=' m 'in' k" := (cbind m (fun x => k))
  (at level 200, x name, m at level 100, k at level 200, right associativity).
Notation "m ;; k" := (cbind m (fun _ => k)) (at level 100, k at level 200, right associativity).

(** A call on values whose failure becomes a result of the function. *)
Definition ctry {E S S' A} (m : parsed S A) (f : S -> S') : client E S' A :=
  lift match m with Val a => Val a | Stop s => Stop (f s) | Ub => Ub end.

(** ** Data *)
Record ReleaseClientBuffers := mkBuffers {
  github_capacity : Z;
  manifest_capacity : Z;
  signature_capacity : Z;
}.

Record ValidatedReleaseDownload := mkDownload {
  installed_build_info : option bytes;
  acquisition_mode : ReleaseAcquisitionMode;
  offer : option ReleaseOffer;
  github_response : option bytes;
  manifest_bytes : option bytes;
  signature_bytes : option bytes;
}.
(** [ValidatedReleaseDownload()]; the offer is not set. *)
Definition empty_download : ValidatedReleaseDownload := mkDownload None ModePublishedStable None None None None.

Inductive ReleaseClientStatus :=
| ClientOk | ClientInvalidArgument | InvocationDenied | DiscoveryDownloadFailed | DiscoveryInvalid
| ClientAssetsInvalid | MetadataSizeInvalid | ManifestDownloadFailed | SignatureDownloadFailed | OfferInvalid
| ClientCanceled.

#[export] Instance ReleaseClientStatus_eq_dec : EqDecision ReleaseClientStatus.
Proof. solve_decision. Defined.

#[export] Instance UpdateStartDecision_eq_dec : EqDecision UpdateStartDecision.
Proof. solve_decision. Defined.

#[export] Instance ReleaseOfferStatus_eq_dec : EqDecision ReleaseOfferStatus.
Proof. solve_decision. Defined.

Record ReleaseClientResult := mkClientResult {
  client_status : ReleaseClientStatus;
  start_decision : UpdateStartDecision;
  https_result : HttpsGetResult;
  client_github_status : GitHubReleaseParseStatus;
  client_assets_status : RequiredGitHubAssetsStatus;
  offer_result : ReleaseOfferResult;
}.

(** Zeroed memory, with the given status. *)
Definition zero_https (st : HttpsGetStatus) : HttpsGetResult :=
  HttpsStream.mkResult st UrlOk PS_Ok BS_Ok 0 0 0 [].
Definition zero_offer (st : ReleaseOfferStatus) : ReleaseOfferResult :=
  ReleaseOffer.mkResult st BuildInfo.Ok GithubRelease.Ok AssetsOk ReleaseManifest.Ok Trusted UpdateAvailable.

Definition InitialResult : ReleaseClientResult :=
  mkClientResult ClientInvalidArgument NotExplicitUserAction (zero_https HttpsStream.InvalidArgument)
    GithubRelease.InvalidArgument AssetsInvalidArgument (zero_offer ReleaseOffer.InvalidArgument).
Definition ClientResult : ReleaseClientResult := InitialResult.

Definition set_status (s : ReleaseClientStatus) (r : ReleaseClientResult) : ReleaseClientResult :=
  mkClientResult s (start_decision r) (https_result r) (client_github_status r) (client_assets_status r) (offer_result r).
Definition set_start (d : UpdateStartDecision) (r : ReleaseClientResult) : ReleaseClientResult :=
  mkClientResult (client_status r) d (https_result r) (client_github_status r) (client_assets_status r) (offer_result r).
Definition set_https (h : HttpsGetResult) (r : ReleaseClientResult) : ReleaseClientResult :=
  mkClientResult (client_status r) (start_decision r) h (client_github_status r) (client_assets_status r) (offer_result r).
Definition set_github (g : GitHubReleaseParseStatus) (r : ReleaseClientResult) : ReleaseClientResult :=
  mkClientResult (client_status r) (start_decision r) (https_result r) g (client_assets_status r) (offer_result r).
Definition set_assets (a : RequiredGitHubAssetsStatus) (r : ReleaseClientResult) : ReleaseClientResult :=
  mkClientResult (client_status r) (start_decision r) (https_result r) (client_github_status r) a (offer_result r).
Definition set_offer (o : ReleaseOfferResult) (r : ReleaseClientResult) : ReleaseClientResult :=
  mkClientResult (client_status r) (start_decision r) (https_result r) (client_github_status r) (client_assets_status r) o.

Definition with_response (b : bytes) (d : ValidatedReleaseDownload) : ValidatedReleaseDownload :=
  mkDownload (installed_build_info d) (acquisition_mode d) (offer d) (Some b) (manifest_bytes d) (signature_bytes d).
Definition with_manifest (b : bytes) (d : ValidatedReleaseDownload) : ValidatedReleaseDownload :=
  mkDownload (installed_build_info d) (acquisition_mode d) (offer d) (github_response d) (Some b) (signature_bytes d).
Definition with_signature (b : bytes) (d : ValidatedReleaseDownload) : ValidatedReleaseDownload :=
  mkDownload (installed_build_info d) (acquisition_mode d) (offer d) (github_response d) (manifest_bytes d) (Some b).
Definition with_offer (o : ReleaseOffer) (d : ValidatedReleaseDownload) : ValidatedReleaseDownload :=
  mkDownload (installed_build_info d) (acquisition_mode d) (Some o) (github_response d) (manifest_bytes d) (signature_bytes d).

Definition BuffersAreValid (buffers : ReleaseClientBuffers) : bool :=
  (kMaximumGitHubReleaseResponseBytes <=? github_capacity buffers) &&
  (kMaximumReleaseManifestBytes <=? manifest_capacity buffers) &&
  (kMaximumSignatureEnvelopeBytes <=? signature_capacity buffers).

(** [SIZE_MAX] is that of the 64-bit target. *)
Definition AssetFits (asset : GitHubReleaseAsset) (capacity protocol_maximum : Z) : bool :=
  negb (size asset =? 0) && (size asset <=? capacity) && (size asset <=? protocol_maximum) &&
  (size asset <=? UINT64_MAX).

Definition kGitHubLatestReleaseUrl : bytes := str "https://api.github.com/repos/kdre/bmx/releases/latest".

(** The failure of a download. *)
Definition download_status (h : HttpsGetResult) (failed : ReleaseClientStatus) : ReleaseClientStatus :=
  if bool_decide (HttpsStream.status h = HttpsStream.Canceled) then ClientCanceled else failed.

(** ** Requests *)
Section clients.
Context {E : Type} `{HttpsEnvironment E}.
Variable verify_function : bytes -> bytes -> bytes -> bool.
Variable fuel : nat.

(** [HttpsRequest] into a memory sink: its result and the bytes stored. *)
Definition fetch {S} (url : bytes) (purpose : UpdateUrlPurpose) (kind : HttpsRequestKind) (options : HttpsRequestOptions)
    (maximum_body_bytes capacity : Z) : client E S (HttpsGetResult * bytes) := fun e =>
  match HttpsRequest fuel url purpose kind options maximum_body_bytes (mkMemSink [] capacity false) e with
  | None => None
  | Some (h, sink, e) => Some (Val (h, mem_buffer sink), e)
  end.

Definition form_options (body : bytes) : HttpsRequestOptions :=
  mkOptions (str "POST") (Some (str "application/json")) (Some (str "application/x-www-form-urlencoded")) body None.
Definition PostForm {S} (url body : bytes) (maximum_response_bytes capacity : Z) : client E S (HttpsGetResult * bytes) :=
  fetch url GitHubDeviceAuthorization GitHubDeviceFlow (form_options body) maximum_response_bytes capacity.

Definition bearer_options (accept access_token : bytes) : HttpsRequestOptions :=
  mkOptions (str "GET") (Some accept) None [] (Some access_token).
Definition AuthenticatedGet {S} (url : bytes) (purpose : UpdateUrlPurpose) (kind : HttpsRequestKind)
    (access_token : bytes) (maximum_body_bytes capacity : Z) : client E S (HttpsGetResult * bytes) :=
  let accept := match kind with GitHubApi => str "application/vnd.github+json" | _ => str "application/octet-stream" end in
  fetch url purpose kind (bearer_options accept access_token) maximum_body_bytes capacity.

(** The rest of a function after a download, with the bytes if it succeeded. *)
Definition downloaded (failed : ReleaseClientStatus) (d : ValidatedReleaseDownload) (result : ReleaseClientResult)
    (get : client E (ReleaseClientResult * ValidatedReleaseDownload) (HttpsGetResult * bytes))
    : client E (ReleaseClientResult * ValidatedReleaseDownload) (ReleaseClientResult * bytes) :=
  do! x := get in
  let '(h, body) := x in
  let result := set_https h result in
  cneed (bool_decide (HttpsStream.status h = HttpsStream.Ok)) (set_status (download_status h failed) result, d) ;;
  cret (result, body).

(** ** [CheckLatestRelease]; [download] is what the caller's record held. *)
Definition CheckLatestRelease (start_context : UpdateStartContext) (installed : option bytes) (running_board : BoardFamily)
    (trusted_keys : list TrustedReleaseKey) (buffers : ReleaseClientBuffers) (storage : ReleaseOfferStorage)
    (download : ValidatedReleaseDownload)
    : client E (ReleaseClientResult * ValidatedReleaseDownload) (ReleaseClientResult * ValidatedReleaseDownload) :=
  let result := InitialResult in
  cneed (negb (len (default [] installed) =? 0) && IsKnownBoardFamily running_board && negb (len trusted_keys =? 0) &&
         BuffersAreValid buffers) (result, download) ;;
  let d := mkDownload installed ModePublishedStable None None None None in
  let decision := EvaluateUpdateStart start_context in
  let result := set_start decision result in
  cneed (bool_decide (decision = Allowed)) (set_status InvocationDenied result, d) ;;
  do! x := downloaded DiscoveryDownloadFailed d result
    (fetch kGitHubLatestReleaseUrl Discovery GitHubApi default_options kMaximumGitHubReleaseResponseBytes
       (github_capacity buffers)) in
  let '(result, response) := x in
  let d := with_response response d in
  do! preliminary := ctry
    (ParseGitHubLatestRelease response (github_token_capacity storage) (github_asset_capacity storage))
    (fun s => (set_status DiscoveryInvalid (set_github s result), d)) in
  let result := set_github GithubRelease.Ok result in
  do! metadata := ctry (of_sum (FindReleaseMetadataAssets preliminary))
    (fun s => (set_status ClientAssetsInvalid (set_assets s result), d)) in
  let result := set_assets AssetsOk result in
  do! manifest := lift (asset_at preliminary (metadata_manifest metadata)) in
  do! signature := lift (asset_at preliminary (metadata_signature metadata)) in
  cneed (AssetFits manifest (manifest_capacity buffers) kMaximumReleaseManifestBytes &&
         AssetFits signature (signature_capacity buffers) kMaximumSignatureEnvelopeBytes)
    (set_status MetadataSizeInvalid result, d) ;;
  do! x := downloaded ManifestDownloadFailed d result
    (fetch (browser_download_url manifest) ReleaseAsset ReleaseMetadata default_options (size manifest)
       (manifest_capacity buffers)) in
  let '(result, manifest_text) := x in
  let d := with_manifest manifest_text d in
  do! x := downloaded SignatureDownloadFailed d result
    (fetch (browser_download_url signature) ReleaseAsset ReleaseMetadata default_options (size signature)
       (signature_capacity buffers)) in
  let '(result, signature_text) := x in
  let d := with_signature signature_text d in
  do! y := ctry
    (BuildReleaseOffer verify_function installed (Some response) (Some manifest_text) (Some signature_text) running_board
       trusted_keys storage)
    (fun s => (set_status OfferInvalid (set_offer s result), d)) in
  let result := set_offer y.1 result in
  let d := with_offer y.2 d in
  cneed (bool_decide (ReleaseOffer.status y.1 = ReleaseOffer.Ok)) (set_status OfferInvalid result, d) ;;
  cret (set_status ClientOk result, d).

(** ** The draft client *)
Definition form_byte (c : Z) : bool :=
  in_range 48 57 c || in_range 65 90 c || in_range 97 122 c || (c =? ch "."%char) || (c =? ch "_"%char) || (c =? ch "-"%char).

Definition SafeFormValue (value : bytes) (maximum : Z) : bool :=
  forallb form_byte (take (Z.to_nat (maximum + 1)) value) && negb (len value =? 0) && (len value <=? maximum).

Definition release_url (draft_id : Z) : bytes :=
  str "https://api.github.com" ++ kGitHubReleaseApiPathPrefix ++ decimal_text draft_id.

Definition CheckPreparedDraftRelease (start_context : UpdateStartContext) (ticket : DraftTestTicket) (access_token : bytes)
    (installed : option bytes) (running_board : BoardFamily) (trusted_keys : list TrustedReleaseKey)
    (buffers : ReleaseClientBuffers) (storage : ReleaseOfferStorage) (download : ValidatedReleaseDownload)
    : client E (ReleaseClientResult * ValidatedReleaseDownload) (ReleaseClientResult * ValidatedReleaseDownload) :=
  let result := ClientResult in
  cneed (negb (len (default [] installed) =? 0) && IsKnownBoardFamily running_board && negb (len trusted_keys =? 0) &&
         BuffersAreValid buffers && SafeFormValue access_token kMaximumGitHubAccessTokenBytes &&
         bytes_eqb (repository ticket) kRepository && negb (draft_id ticket =? 0)) (result, download) ;;
  let d := mkDownload installed ModePreparedDraft None None None None in
  let decision := EvaluateUpdateStart start_context in
  let result := set_start decision result in
  cneed (bool_decide (decision = Allowed)) (set_status InvocationDenied result, d) ;;
  cneed (len (release_url (draft_id ticket)) <? 256) (result, d) ;;
  do! x := downloaded DiscoveryDownloadFailed d result
    (AuthenticatedGet (release_url (draft_id ticket)) PreparedDraftDiscovery GitHubApi access_token
       kMaximumGitHubReleaseResponseBytes (github_capacity buffers)) in
  let '(result, response) := x in
  let d := with_response response d in
  do! preliminary := ctry
    (ParseGitHubRelease response (github_token_capacity storage) (github_asset_capacity storage) PreparedDraft)
    (fun s => (set_status DiscoveryInvalid (set_github s result), d)) in
  let result := set_github GithubRelease.Ok result in
  cneed ((release_id preliminary =? draft_id ticket) && bytes_eqb (tag_name preliminary) (ticket_tag ticket))
    (set_status DiscoveryInvalid result, d) ;;
  do! metadata := ctry (of_sum (FindReleaseMetadataAssetsForKind preliminary PreparedDraft))
    (fun s => (set_status ClientAssetsInvalid (set_assets s result), d)) in
  let result := set_assets AssetsOk result in
  do! manifest := lift (asset_at preliminary (metadata_manifest metadata)) in
  do! signature := lift (asset_at preliminary (metadata_signature metadata)) in
  cneed (AssetFits manifest (manifest_capacity buffers) kMaximumReleaseManifestBytes &&
         AssetFits signature (signature_capacity buffers) kMaximumSignatureEnvelopeBytes)
    (set_status MetadataSizeInvalid result, d) ;;
  let options := bearer_options (str "application/octet-stream") access_token in
  do! x := downloaded ManifestDownloadFailed d result
    (fetch (api_download_url manifest) AuthenticatedReleaseAsset ReleaseMetadata options (size manifest)
       (manifest_capacity buffers)) in
  let '(result, manifest_text) := x in
  let d := with_manifest manifest_text d in
  cneed (match Sha256Digest manifest_text with
         | Some manifest_digest => ConstantTimeDigestEqual manifest_digest (manifest_sha256 ticket)
         | None => false
         end) (set_status OfferInvalid result, d) ;;
  do! x := downloaded SignatureDownloadFailed d result
    (fetch (api_download_url signature) AuthenticatedReleaseAsset ReleaseMetadata options (size signature)
       (signature_capacity buffers)) in
  let '(result, signature_text) := x in
  let d := with_signature signature_text d in
  do! y := ctry
    (BuildReleaseOfferForMode verify_function installed (Some response) (Some manifest_text) (Some signature_text)
       running_board ModePreparedDraft trusted_keys storage)
    (fun s => (set_status OfferInvalid (set_offer s result), d)) in
  let result := set_offer y.1 result in
  let d := with_offer y.2 d in
  cneed (bool_decide (ReleaseOffer.status y.1 = ReleaseOffer.Ok) &&
         (ReleaseManifest.release_sequence (release (ReleaseOffer.manifest y.2)) =? ticket_sequence ticket))
    (set_status OfferInvalid result, d) ;;
  cret (set_status ClientOk result, d).

(** ** The device flow *)
Record GitHubDeviceGrant := mkAuthorization {
  device_code : bytes;
  user_code : bytes;
  expires_in_seconds : Z;
  polling_interval_seconds : Z;
}.
Definition no_authorization : GitHubDeviceGrant := mkAuthorization [] [] 0 0.

Inductive GitHubDeviceFlowStatus :=
| FlowOk | FlowInvalidArgument | DownloadFailed | ResponseInvalid | AuthorizationPending | SlowDown
| AuthorizationDenied | CodeExpired | TokenRejected | FlowCanceled.

#[export] Instance GitHubDeviceFlowStatus_eq_dec : EqDecision GitHubDeviceFlowStatus.
Proof. solve_decision. Defined.

Record GitHubDeviceFlowResult := mkFlow {
  flow_status : GitHubDeviceFlowStatus;
  flow_https : HttpsGetResult;
  flow_json : JsonParseResult;
}.

Definition DeviceResult (st : GitHubDeviceFlowStatus) : GitHubDeviceFlowResult :=
  mkFlow st (zero_https HttpsStream.InvalidArgument) (Json.mkResult JSON_ERROR_ARGUMENT 0 0).
Definition flow_with (st : GitHubDeviceFlowStatus) (r : GitHubDeviceFlowResult) : GitHubDeviceFlowResult :=
  mkFlow st (flow_https r) (flow_json r).

(** [ParseRoot]: [*result], and the tokens if it is an object. *)
Definition ParseRoot {S} (encoded : bytes) (token_capacity : Z) (result : JsonParseResult)
    : parsed S (JsonParseResult * option (list JsonToken)) :=
  if (len encoded =? 0) || (token_capacity =? 0) then Val (result, None)
  else
    match ParseJson (Some encoded) true token_capacity 8 with
    | Done r s =>
        match result_error r, tokens s with
        | JSON_OK, root :: _ =>
            Val (r, if bool_decide (type root = JSON_TOKEN_OBJECT) then Some (tokens s) else None)
        | _, _ => Val (r, None)
        end
    | _ => Ub
    end.

(** The two readers of required members, failing with [s]. *)
Definition CopyRequiredString {S} (json : bytes) (ts : list JsonToken) (name : bytes) (output_size : Z) (s : S) : parsed S bytes :=
  let m := member json ts 0 name in
  need (0 <=? m) s ;!
  get! t := token_at ts m in
  some (copy_string json t output_size) s.

Definition ReadRequiredUint {S} (json : bytes) (ts : list JsonToken) (name : bytes) (minimum maximum : Z) (s : S) : parsed S Z :=
  let m := member json ts 0 name in
  need (0 <=? m) s ;!
  get! t := token_at ts m in
  get! value := some (get_uint64 json t) s in
  need (negb ((value <? minimum) || (maximum <? value))) s ;! Val value.

Definition kDeviceCodeUrl : bytes := str "https://github.com/login/device/code".
Definition kAccessTokenUrl : bytes := str "https://github.com/login/oauth/access_token".
Definition kVerificationUri : bytes := str "https://github.com/login/device".

Definition flow_download_status (h : HttpsGetResult) : GitHubDeviceFlowStatus :=
  if bool_decide (HttpsStream.status h = HttpsStream.Canceled) then FlowCanceled else DownloadFailed.

(** The rest of a function of the flow after its request, with the root object. *)
Definition answered {A} (url body : bytes) (response_capacity token_capacity : Z) (out : A)
    : client E (GitHubDeviceFlowResult * A) (GitHubDeviceFlowResult * bytes * list JsonToken) :=
  let result := DeviceResult FlowInvalidArgument in
  do! x := PostForm url body kMaximumGitHubDeviceResponseBytes response_capacity in
  let '(h, response) := x in
  let result := mkFlow (flow_status result) h (flow_json result) in
  cneed (bool_decide (HttpsStream.status h = HttpsStream.Ok)) (flow_with (flow_download_status h) result, out) ;;
  do! y := lift (ParseRoot response token_capacity (flow_json result)) in
  let result := mkFlow (flow_status result) h y.1 in
  match y.2 with
  | None => creturn (flow_with ResponseInvalid result, out)
  | Some tokens => cret (result, response, tokens)
  end.

(** What the failing reads of an answer have in common: the output is zeroed. *)
Definition device_members (json : bytes) (ts : list JsonToken) : parsed unit GitHubDeviceGrant :=
  get! device := CopyRequiredString json ts (str "device_code") (kMaximumGitHubDeviceCodeBytes + 1) tt in
  get! user := CopyRequiredString json ts (str "user_code") (kMaximumGitHubUserCodeBytes + 1) tt in
  get! uri := CopyRequiredString json ts (str "verification_uri") 96 tt in
  need (bytes_eqb uri kVerificationUri) tt ;!
  get! expires := ReadRequiredUint json ts (str "expires_in") 1 3600 tt in
  get! interval := ReadRequiredUint json ts (str "interval") 1 60 tt in
  need (SafeFormValue device kMaximumGitHubDeviceCodeBytes && SafeFormValue user kMaximumGitHubUserCodeBytes) tt ;!
  Val (mkAuthorization device user (u32 expires) (u32 interval)).

Definition RequestGitHubDeviceCode (client_id : bytes) (response_capacity token_capacity : Z)
    (authorization : GitHubDeviceGrant)
    : client E (GitHubDeviceFlowResult * GitHubDeviceGrant) (GitHubDeviceFlowResult * GitHubDeviceGrant) :=
  let result := DeviceResult FlowInvalidArgument in
  cneed (SafeFormValue client_id kMaximumGitHubAppClientIdBytes &&
         (kMaximumGitHubDeviceResponseBytes <=? response_capacity) && negb (token_capacity =? 0))
    (result, authorization) ;;
  let body := str "client_id=" ++ client_id in
  cneed (len body <? 96) (result, no_authorization) ;;
  do! x := answered kDeviceCodeUrl body response_capacity token_capacity no_authorization in
  let '(result, json, ts) := x in
  do! out := ctry (device_members json ts) (fun _ => (flow_with ResponseInvalid result, no_authorization)) in
  cret (flow_with FlowOk result, out).

Definition exchange_body (client_id device_code : bytes) : bytes :=
  str "client_id=" ++ client_id ++ str "&device_code=" ++ device_code ++
  str "&grant_type=urn%3Aietf%3Aparams%3Aoauth%3Agrant-type%3Adevice_code".

(** The status of an [error] member. *)
Definition error_status (value : option bytes) : GitHubDeviceFlowStatus :=
  match value with
  | None => ResponseInvalid
  | Some value =>
      if bytes_eqb value (str "authorization_pending") then AuthorizationPending
      else if bytes_eqb value (str "slow_down") then SlowDown
      else if bytes_eqb value (str "access_denied") then AuthorizationDenied
      else if bytes_eqb value (str "expired_token") then CodeExpired
      else TokenRejected
  end.

Definition token_members (json : bytes) (ts : list JsonToken) (access_token_capacity : Z) : parsed unit bytes :=
  get! access := CopyRequiredString json ts (str "access_token") access_token_capacity tt in
  get! token_type := CopyRequiredString json ts (str "token_type") 16 tt in
  need (bytes_eqb token_type (str "bearer")) tt ;!
  get! expires := ReadRequiredUint json ts (str "expires_in") 1 28800 tt in
  need (SafeFormValue access kMaximumGitHubAccessTokenBytes) tt ;!
  Val access.

(** The token is the C string in the caller's buffer. *)
Definition ExchangeGitHubDeviceCode (client_id device_code : bytes) (response_capacity token_capacity : Z)
    (access_token : bytes) (access_token_capacity : Z)
    : client E (GitHubDeviceFlowResult * bytes) (GitHubDeviceFlowResult * bytes) :=
  let result := DeviceResult FlowInvalidArgument in
  cneed (SafeFormValue client_id kMaximumGitHubAppClientIdBytes && SafeFormValue device_code kMaximumGitHubDeviceCodeBytes &&
         (kMaximumGitHubDeviceResponseBytes <=? response_capacity) && negb (token_capacity =? 0) &&
         (kMaximumGitHubAccessTokenBytes + 1 <=? access_token_capacity)) (result, access_token) ;;
  let body := exchange_body client_id device_code in
  cneed (len body <? 384) (result, []) ;;
  do! x := answered kAccessTokenUrl body response_capacity token_capacity [] in
  let '(result, json, ts) := x in
  let error := member json ts 0 (str "error") in
  if 0 <=? error then
    do! t := lift (token_at ts error) in
    creturn (flow_with (error_status (copy_string json t 64)) result, [])
  else
    do! out := ctry (token_members json ts access_token_capacity) (fun _ => (flow_with TokenRejected result, [])) in
    cret (flow_with FlowOk result, out).
End clients.

Definition ReleaseClientStatusString (status : ReleaseClientStatus) : bytes :=
  match status with
  | ClientOk => str "ok"
  | ClientInvalidArgument => str "invalid argument"
  | InvocationDenied => str "update invocation denied"
  | DiscoveryDownloadFailed => str "GitHub latest-release download failed"
  | DiscoveryInvalid => str "GitHub latest-release response invalid"
  | ClientAssetsInvalid => str "GitHub release metadata assets invalid"
  | MetadataSizeInvalid => str "GitHub release metadata size invalid"
  | ManifestDownloadFailed => str "release manifest download failed"
  | SignatureDownloadFailed => str "release signature download failed"
  | OfferInvalid => str "release offer authentication or policy failed"
  | ClientCanceled => str "update check canceled"
  end.

Definition GitHubDeviceFlowStatusString (status : GitHubDeviceFlowStatus) : bytes :=
  match status with
  | FlowOk => str "ok"
  | FlowInvalidArgument => str "invalid argument"
  | DownloadFailed => str "GitHub Device Flow request failed"
  | ResponseInvalid => str "GitHub Device Flow response invalid"
  | AuthorizationPending => str "GitHub authorization still pending"
  | SlowDown => str "GitHub authorization polling too fast"
  | AuthorizationDenied => str "GitHub authorization denied"
  | CodeExpired => str "GitHub device code expired"
  | TokenRejected => str "GitHub access token rejected"
  | FlowCanceled => str "GitHub Device Flow canceled"
  end.
