(* ===== verification/ClientSafety.v ===== *)
(** * What the clients of GitHub guarantee (over GithubClients.v)

    Triples over the log of the environment: [client_runs m e l QV QS] says that [m]
    ends, from the log [l], with a value of which [QV] holds or an early return of
    which [QS] holds, and never reads outside an array. *)
From S2P Require Import Prelude Json JsonFields UpdatePolicy UrlPolicy HttpResponse Sha256 SignatureEnvelope BuildInfo GithubRelease ReleaseManifest SignatureVerifier ReleaseOffer DraftTicket UpdateFileSystem VolumeMoments HttpsStream HttpsSessions GithubClients.
Local Open Scope Z_scope.

(** A download that succeeded: its sessions are [log] and its payload [body]. *)
Definition fetched (purpose : UpdateUrlPurpose) (kind : HttpsRequestKind) (options : HttpsRequestOptions)
    (limit : Z) (url body : bytes) (log : list event) : Prop :=
  (exists redirects, run purpose kind options 0 url HttpsStream.Ok redirects body log) /\
  len body <= limit /\ Forall is_byte body.

Lemma framed_bytes head w p : Body.framed head w p -> Forall is_byte w -> Forall is_byte p.
Proof.
  unfold Body.framed. destruct (chunked head); [|by intros [-> _]].
  induction 1 as [|l data w p _ _ _ IH]; [by constructor|]. rewrite !Forall_app, !Forall_cons, Forall_app, !Forall_cons.
  intros (_ & _ & _ & Hd & _ & _ & Hw). auto.
Qed.

Lemma delivered_bytes segs p : delivered segs p -> Forall is_byte p.
Proof.
  intros (Hs & head & n & _ & _ & Hf). eapply framed_bytes; [exact Hf|]. by apply Forall_drop, Forall_concat.
Qed.

Section safety.
Context {E : Type} `{HttpsEnvironment E}.
Variable verify : bytes -> bytes -> bytes -> bool.
Variable fuel : nat.

Definition client_runs {S A} (m : client (E * list event) S A) (e : E) (l : list event)
    (QV : A -> list event -> Prop) (QS : S -> list event -> Prop) : Prop :=
  exists o e' l', m (e, l) = Some (o, (e', l')) /\ match o with Val a => QV a l' | Stop s => QS s l' | Ub => False end.

Lemma runs_bind {S A B} (m : client (E * list event) S A) (k : A -> client (E * list event) S B) e l QV QS P :
  client_runs m e l P QS -> (forall a e' l', P a l' -> client_runs (k a) e' l' QV QS) ->
  client_runs (cbind m k) e l QV QS.
Proof.
  intros (o & e' & l' & Hm & Ho) Hk. unfold client_runs, cbind. rewrite Hm. destruct o as [a|s|]; [|by exists (Stop s), e', l'|done].
  by apply Hk.
Qed.

Lemma runs_need {S B} (b : bool) (s : S) (k : unit -> client (E * list event) S B) e l QV QS :
  (b = false -> QS s l) -> (b = true -> client_runs (k tt) e l QV QS) ->
  client_runs (cbind (cneed b s) k) e l QV QS.
Proof.
  intros Hf Ht. unfold client_runs, cbind, cneed, lift. destruct b; cbn; [by apply Ht|]. exists (Stop s), e, l. auto.
Qed.

Lemma runs_try {S S' A B} (m : parsed S A) (f : S -> S') (k : A -> client (E * list event) S' B) e l QV QS P :
  returns m P -> (forall s, QS (f s) l) -> (forall a, m = Val a -> P a -> client_runs (k a) e l QV QS) ->
  client_runs (cbind (ctry m f) k) e l QV QS.
Proof.
  intros Hm Hs Hv. unfold client_runs, cbind, ctry, lift. destruct m as [a|s|]; cbn; [by apply Hv| |done].
  by exists (Stop (f s)), e, l.
Qed.

Lemma runs_asset {S B} r n i (k : GitHubReleaseAsset -> client (E * list event) S B) e l QV QS : is_asset r n i ->
  (forall a, assets r !! i = Some a -> name a = n -> client_runs (k a) e l QV QS) ->
  client_runs (cbind (lift (asset_at r i)) k) e l QV QS.
Proof.
  intros (a & Ha & Hn) Hk. unfold client_runs, cbind, lift, asset_at. rewrite Ha. by apply Hk.
Qed.

Lemma runs_ret {S A} (a : A) e l (QV : A -> list event -> Prop) (QS : S -> list event -> Prop) : QV a l ->
  client_runs (cret a) e l QV QS.
Proof. intros Hq. by exists (Val a), e, l. Qed.

(** ** Downloads *)
Lemma runs_fetch {S} url purpose kind options limit capacity e l (QS : S -> list event -> Prop) :
  NUL ∉ url -> 0 <= limit <= UINT64_MAX -> (body_fuel limit <= fuel)%nat ->
  client_runs (fetch fuel url purpose kind options limit capacity) e l
    (fun '(h, body) l' => exists evs, l' = l ++ evs /\
       (HttpsStream.status h = HttpsStream.Ok -> fetched purpose kind options limit url body evs)) QS.
Proof.
  intros Hu Hl Hf.
  destruct (HttpsRequest_ends fuel url purpose kind options limit (mkMemSink [] capacity false) e l Hu Hl Hf)
    as ([h k] & e' & evs & Hr & Hend).
  unfold client_runs, fetch. rewrite Hr. exists (Val (h, mem_buffer k)), e', (l ++ evs). split; [done|].
  exists evs. split; [done|]. intros Hok.
  destruct (request_ends_Ok _ _ _ _ _ _ _ _ Hend Hok) as (payload & Ht & Hlen & _ & _ & Hrun). cbn [fst snd] in *.
  cbn in Ht. rewrite Ht. rewrite Hok in Hrun. split; [by eexists|]. split; [done|].
  destruct (run_Ok _ _ _ _ _ _ _ _ _ Hrun eq_refl) as (? & ? & ? & ? & ? & ? & ? & ? & _ & _ & _ & _ & Hd).
  by eapply delivered_bytes.
Qed.

Definition failed_client (s : ReleaseClientResult * ValidatedReleaseDownload) : Prop := client_status s.1 <> ClientOk.

Lemma runs_downloaded url purpose kind options limit capacity failed d result e l
    (QS : ReleaseClientResult * ValidatedReleaseDownload -> list event -> Prop) :
  NUL ∉ url -> 0 <= limit <= UINT64_MAX -> (body_fuel limit <= fuel)%nat -> failed <> ClientOk ->
  (forall s l', failed_client s -> start_decision s.1 = start_decision result -> QS s l') ->
  client_runs (downloaded failed d result (fetch fuel url purpose kind options limit capacity)) e l
    (fun '(r, body) l' => exists evs h, l' = l ++ evs /\ r = set_https h result /\
       fetched purpose kind options limit url body evs) QS.
Proof.
  intros Hu Hl Hf Hne Hqs. unfold downloaded. eapply runs_bind; [by apply runs_fetch|].
  intros [h body] e' l' (evs & -> & Hok). apply runs_need.
  - intros _. apply Hqs; [|done]. unfold failed_client. cbn. unfold download_status. by destruct (bool_decide _).
  - intros Hs%bool_decide_eq_true. apply runs_ret. exists evs, h. auto.
Qed.

(** ** The client of published releases *)
Lemma AssetFits_size a capacity maximum : AssetFits a capacity maximum = true -> size a <= maximum.
Proof. unfold AssetFits. rewrite !andb_true_iff, !Z.leb_le. lia. Qed.

Lemma body_fuel_mono a b : a <= b -> (body_fuel a <= body_fuel b)%nat.
Proof. unfold body_fuel. lia. Qed.

(** The largest of the bodies. *)
Definition client_fuel : nat := body_fuel kMaximumGitHubReleaseResponseBytes.

Lemma client_fuel_enough limit n : limit <= kMaximumGitHubReleaseResponseBytes -> (client_fuel <= n)%nat ->
  (body_fuel limit <= n)%nat.
Proof. intros Hl. pose proof (body_fuel_mono _ _ Hl). unfold client_fuel. lia. Qed.

Lemma decimal_text_no_nul v : NUL ∉ decimal_text v.
Proof.
  unfold decimal_text. generalize 21%nat. intros n Hin. apply list_elem_of_In, in_rev, list_elem_of_In in Hin. revert v Hin.
  induction n as [|n IH]; intros v; cbn [reversed_digits]; [by intros ?%not_elem_of_nil|].
  rewrite elem_of_cons. intros [Hz|Hin].
  - unfold NUL in Hz. pose proof (Z.mod_pos_bound v 10). lia.
  - destruct (v / 10 =? 0); [by apply not_elem_of_nil in Hin | by apply IH in Hin].
Qed.

(** The address of an asset in a release that was read. *)
Lemma asset_address kind r i a : release_ok kind r -> assets r !! i = Some a ->
  0 <= size a <= UINT64_MAX /\ NUL ∉ GitHubAssetDownloadUrl a kind.
Proof.
  intros Hr Ha. pose proof (ok_assets _ _ Hr) as Hall. rewrite Forall_forall in Hall.
  destruct (Hall a (list_elem_of_lookup_2 _ _ _ Ha)) as (_ & Hs & Hn & Hk). split; [done|].
  destruct kind; cbn; [done|]. destruct Hk as [_ ->]. unfold api_url.
  rewrite !not_elem_of_app. split; [by apply index_of_None|]. split; [by apply index_of_None|].
  apply decimal_text_no_nul.
Qed.

(** What an answer [ClientOk] rests on. *)
Definition latest_offer (installed : option bytes) (board : BoardFamily) (keys : list TrustedReleaseKey)
    (storage : ReleaseOfferStorage) (x : ReleaseClientResult * ValidatedReleaseDownload) (log : list event) : Prop :=
  exists info response manifest_text signature_text o log1 log2 log3 manifest_asset signature_asset,
    client_status x.1 = ClientOk /\ installed = Some info /\
    x.2 = mkDownload (Some info) ModePublishedStable (Some o) (Some response) (Some manifest_text) (Some signature_text) /\
    offer_ok verify keys board PublishedStable storage info response manifest_text signature_text o /\
    manifest_asset ∈ assets (github o) /\ signature_asset ∈ assets (github o) /\
    log = log1 ++ log2 ++ log3 /\
    fetched Discovery GitHubApi default_options kMaximumGitHubReleaseResponseBytes kGitHubLatestReleaseUrl response log1 /\
    fetched ReleaseAsset ReleaseMetadata default_options (size manifest_asset) (browser_download_url manifest_asset)
      manifest_text log2 /\
    fetched ReleaseAsset ReleaseMetadata default_options (size signature_asset) (browser_download_url signature_asset)
      signature_text log3.

(** An early return; no network unless the user asked and the network is ready. *)
Definition no_offer (context : UpdateStartContext) (before : list event) (s : ReleaseClientResult * ValidatedReleaseDownload)
    (log : list event) : Prop :=
  client_status s.1 <> ClientOk /\ (EvaluateUpdateStart context <> Allowed -> log = before).

Lemma no_offer_failed context before s log : EvaluateUpdateStart context = Allowed -> failed_client s ->
  no_offer context before s log.
Proof. by split. Qed.

Lemma CheckLatestRelease_runs context installed board keys buffers storage download e l :
  (client_fuel <= fuel)%nat -> (forall info, installed = Some info -> Forall is_byte info) -> storage_nonneg storage ->
  client_runs (CheckLatestRelease verify fuel context installed board keys buffers storage download) e l
    (fun x l' => exists log, l' = l ++ log /\ latest_offer installed board keys storage x log) (no_offer context l).
Proof.
  intros Hfuel Hinfo Hstore. unfold CheckLatestRelease.
  apply runs_need; [by intros _; split|]. rewrite !andb_true_iff. intros [[[Hi _] _] _].
  destruct installed as [info|]; [|done]. specialize (Hinfo info eq_refl). clear Hi.
  apply runs_need; [by intros _; split|]. intros Hstart%bool_decide_eq_true.
  assert (Hqs : forall s l', failed_client s -> no_offer context l s l') by (intros; by apply no_offer_failed).
  eapply runs_bind; [apply runs_downloaded; [by apply index_of_None | done | by apply client_fuel_enough | done | auto]|].
  intros [r1 response] e1 l1 (log1 & h1 & -> & -> & Hf1). pose proof Hf1 as (_ & _ & Hb1).
  eapply runs_try; [apply ParseGitHubRelease_ok; [done | by destruct Hstore as (_ & ? & _)] | intros s; by apply Hqs |].
  intros prelim Hprelim Hrel. eapply runs_try; [| intros s; by apply Hqs |].
  { instantiate (1 := fun md => FindReleaseMetadataAssets prelim = inr md). by destruct (FindReleaseMetadataAssets prelim). }
  intros md _ Hmd. destruct (FindReleaseMetadataAssets_ok _ _ _ Hmd) as [Hmm Hms].
  eapply runs_asset; [exact Hmm|]. intros am Ham _. eapply runs_asset; [exact Hms|]. intros asg Has _.
  apply runs_need; [intros _; by apply Hqs|]. rewrite andb_true_iff. intros [Hfm%AssetFits_size Hfs%AssetFits_size].
  destruct (asset_address _ _ _ _ Hrel Ham) as [Hzm Hnm]. destruct (asset_address _ _ _ _ Hrel Has) as [Hzs Hns].
  eapply runs_bind; [apply runs_downloaded; [exact Hnm | done | | done | auto]|].
  { apply client_fuel_enough; [|done]. etransitivity; [exact Hfm | done]. }
  intros [r2 mtext] e2 l2 (log2 & h2 & -> & -> & Hf2). pose proof Hf2 as (_ & _ & Hb2).
  eapply runs_bind; [apply runs_downloaded; [exact Hns | done | | done | auto]|].
  { apply client_fuel_enough; [|done]. etransitivity; [exact Hfs | done]. }
  intros [r3 stext] e3 l3 (log3 & h3 & -> & -> & Hf3).
  eapply runs_try; [by apply (BuildReleaseOfferForMode_ok verify info response mtext stext) | intros s; by apply Hqs |].
  intros [ro o] _ [-> Ho]. apply runs_need; [by intros ?|]. intros _. apply runs_ret.
  exists (log1 ++ log2 ++ log3). split; [by rewrite <- !app_assoc|]. exists info, response, mtext, stext, o, log1, log2, log3, am, asg. cbn [fst snd].
  pose proof (o_answer _ _ _ _ _ _ _ _ _ _ Ho) as Hans. change (release_kind ModePublishedStable) with PublishedStable in *.
  unfold ParseGitHubLatestRelease in Hprelim. rewrite Hprelim in Hans. injection Hans as ->.
  split; [done|]. split; [done|]. split; [done|]. split; [done|].
  split; [by eapply list_elem_of_lookup_2|]. by split; [eapply list_elem_of_lookup_2|].
Qed.

(** ** The client of prepared drafts *)
Lemma Sha256Digest_is m : len m <= UINT64_MAX / 8 -> Sha256Digest m = Some (sha256_spec m).
Proof.
  intros Hl. destruct (feed_absorbed [m] Reset [] absorbed_Reset) as (s & Hs & Ha & Hf & Ht); [done|done|..].
  { cbn [concat]. rewrite app_nil_r. change (len (@nil Z)) with 0.
    change (UINT64_MAX / 8) with 2305843009213693951 in Hl. unfold UINT64_MAX. lia. }
  cbn [feed concat] in *. unfold Sha256Digest. destruct (Update Reset m) as [ok s']. destruct ok; [|done].
  injection Hs as ->. cbn [app] in *. rewrite app_nil_r in *. by apply Final_absorbed.
Qed.

(** What an answer [ClientOk] for a draft rests on; every request carries the token. *)
Definition draft_offer (ticket : DraftTestTicket) (access_token : bytes) (installed : option bytes) (board : BoardFamily)
    (keys : list TrustedReleaseKey) (storage : ReleaseOfferStorage) (x : ReleaseClientResult * ValidatedReleaseDownload)
    (log : list event) : Prop :=
  exists info response manifest_text signature_text o log1 log2 log3 manifest_asset signature_asset,
    client_status x.1 = ClientOk /\ installed = Some info /\
    x.2 = mkDownload (Some info) ModePreparedDraft (Some o) (Some response) (Some manifest_text) (Some signature_text) /\
    offer_ok verify keys board PreparedDraft storage info response manifest_text signature_text o /\
    release_id (github o) = draft_id ticket /\ tag_name (github o) = ticket_tag ticket /\
    sha256_spec manifest_text = manifest_sha256 ticket /\
    ReleaseManifest.release_sequence (release (ReleaseOffer.manifest o)) = ticket_sequence ticket /\
    manifest_asset ∈ assets (github o) /\ signature_asset ∈ assets (github o) /\
    log = log1 ++ log2 ++ log3 /\
    fetched PreparedDraftDiscovery GitHubApi (bearer_options (str "application/vnd.github+json") access_token)
      kMaximumGitHubReleaseResponseBytes (release_url (draft_id ticket)) response log1 /\
    fetched AuthenticatedReleaseAsset ReleaseMetadata (bearer_options (str "application/octet-stream") access_token)
      (size manifest_asset) (api_download_url manifest_asset) manifest_text log2 /\
    fetched AuthenticatedReleaseAsset ReleaseMetadata (bearer_options (str "application/octet-stream") access_token)
      (size signature_asset) (api_download_url signature_asset) signature_text log3.

Lemma CheckPreparedDraftRelease_runs context ticket access_token installed board keys buffers storage download e l :
  (client_fuel <= fuel)%nat -> (forall info, installed = Some info -> Forall is_byte info) -> storage_nonneg storage ->
  digest_ok (manifest_sha256 ticket) ->
  client_runs (CheckPreparedDraftRelease verify fuel context ticket access_token installed board keys buffers storage download)
    e l (fun x l' => exists log, l' = l ++ log /\ draft_offer ticket access_token installed board keys storage x log)
    (no_offer context l).
Proof.
  intros Hfuel Hinfo Hstore Hdigest. unfold CheckPreparedDraftRelease.
  apply runs_need; [by intros _; split|]. rewrite !andb_true_iff. intros [[[[[[Hi _] _] _] _] _] _].
  destruct installed as [info|]; [|done]. specialize (Hinfo info eq_refl). clear Hi.
  apply runs_need; [by intros _; split|]. intros Hstart%bool_decide_eq_true.
  assert (Hqs : forall s l', failed_client s -> no_offer context l s l') by (intros; by apply no_offer_failed).
  apply runs_need; [intros _; by apply Hqs|]. intros _. unfold AuthenticatedGet.
  assert (Hurl : NUL ∉ release_url (draft_id ticket)).
  { unfold release_url. rewrite !not_elem_of_app. split; [by apply index_of_None|]. split; [by apply index_of_None|].
    apply decimal_text_no_nul. }
  eapply runs_bind; [apply runs_downloaded; [exact Hurl | done | by apply client_fuel_enough | done | auto]|].
  intros [r1 response] e1 l1 (log1 & h1 & -> & -> & Hf1). pose proof Hf1 as (_ & _ & Hb1).
  eapply runs_try; [apply ParseGitHubRelease_ok; [done | by destruct Hstore as (_ & ? & _)] | intros s; by apply Hqs |].
  intros prelim Hprelim Hrel. apply runs_need; [intros _; by apply Hqs|].
  rewrite andb_true_iff, Z.eqb_eq, bytes_eqb_eq. intros [Hid Htag].
  eapply runs_try; [| intros s; by apply Hqs |].
  { instantiate (1 := fun md => FindReleaseMetadataAssetsForKind prelim PreparedDraft = inr md).
    by destruct (FindReleaseMetadataAssetsForKind prelim PreparedDraft). }
  intros md _ Hmd. destruct (FindReleaseMetadataAssets_ok _ _ _ Hmd) as [Hmm Hms].
  eapply runs_asset; [exact Hmm|]. intros am Ham _. eapply runs_asset; [exact Hms|]. intros asg Has _.
  apply runs_need; [intros _; by apply Hqs|]. rewrite andb_true_iff. intros [Hfm%AssetFits_size Hfs%AssetFits_size].
  destruct (asset_address _ _ _ _ Hrel Ham) as [Hzm Hnm]. destruct (asset_address _ _ _ _ Hrel Has) as [Hzs Hns].
  eapply runs_bind; [apply runs_downloaded; [exact Hnm | done | | done | auto]|].
  { apply client_fuel_enough; [|done]. etransitivity; [exact Hfm | done]. }
  intros [r2 mtext] e2 l2 (log2 & h2 & -> & -> & Hf2). pose proof Hf2 as (_ & Hl2 & Hb2).
  apply runs_need; [intros _; by apply Hqs|]. intros Hsha.
  rewrite Sha256Digest_is in Hsha.
  2:{ etransitivity; [exact Hl2|]. etransitivity; [exact Hfm | done]. }
  apply digests_equal in Hsha; [|apply Hdigest..].
  eapply runs_bind; [apply runs_downloaded; [exact Hns | done | | done | auto]|].
  { apply client_fuel_enough; [|done]. etransitivity; [exact Hfs | done]. }
  intros [r3 stext] e3 l3 (log3 & h3 & -> & -> & Hf3).
  eapply runs_try; [by apply (BuildReleaseOfferForMode_ok verify info response mtext stext) | intros s; by apply Hqs |].
  intros [ro o] _ [-> Ho]. apply runs_need; [intros _; by apply Hqs|].
  rewrite andb_true_iff, Z.eqb_eq. intros [_ Hseq]. apply runs_ret.
  exists (log1 ++ log2 ++ log3). split; [by rewrite <- !app_assoc|]. exists info, response, mtext, stext, o, log1, log2, log3, am, asg. cbn [fst snd] in *.
  pose proof (o_answer _ _ _ _ _ _ _ _ _ _ Ho) as Hans. change (release_kind ModePreparedDraft) with PreparedDraft in *.
  rewrite Hprelim in Hans. injection Hans as ->.
  do 8 (split; [done|]). split; [by eapply list_elem_of_lookup_2|]. by split; [eapply list_elem_of_lookup_2|].
Qed.

(** C12. Looking for a release always ends, whatever the network answers, and never
    reads outside its arrays.  It answers Ok only after three downloads, each from an
    authorized address over a verified stream that it closed: GitHub's answer about
    the latest release, and the manifest and the signature from the addresses of
    assets of that release; and the offer is then sound for exactly these three
    texts.  Any other result is no offer; and unless the user has asked for it with
    the network enabled and ready, nothing at all is sent. *)
Theorem CheckLatestRelease_sound context installed board keys buffers storage download e
    (Hfuel : (client_fuel <= fuel)%nat) (Hinstalled : forall info, installed = Some info -> Forall is_byte info)
    (Hstorage : storage_nonneg storage) :
  exists o e' log,
    CheckLatestRelease verify fuel context installed board keys buffers storage download (e, []) = Some (o, (e', log)) /\
    match o with
    | Val x => latest_offer installed board keys storage x log
    | Stop s => no_offer context [] s log
    | Ub => False
    end.
Proof.
  destruct (CheckLatestRelease_runs context installed board keys buffers storage download e [] Hfuel Hinstalled Hstorage)
    as (o & e' & l' & Hrun & Ho). exists o, e', l'. split; [done|]. destruct o; [|done..]. by destruct Ho as (log & -> & Ho).
Qed.

(** C13. The same for a prepared draft, of which the ticket fixes the identity: an
    offer is for the draft, the tag, the sequence and the SHA-256 of the manifest
    that the ticket names, and its three requests are those that carry the token. *)
Theorem CheckPreparedDraftRelease_sound context ticket access_token installed board keys buffers storage download e
    (Hfuel : (client_fuel <= fuel)%nat) (Hinstalled : forall info, installed = Some info -> Forall is_byte info)
    (Hstorage : storage_nonneg storage) (Hdigest : digest_ok (manifest_sha256 ticket)) :
  exists o e' log,
    CheckPreparedDraftRelease verify fuel context ticket access_token installed board keys buffers storage download (e, []) =
      Some (o, (e', log)) /\
    match o with
    | Val x => draft_offer ticket access_token installed board keys storage x log
    | Stop s => no_offer context [] s log
    | Ub => False
    end.
Proof.
  destruct (CheckPreparedDraftRelease_runs context ticket access_token installed board keys buffers storage download e []
    Hfuel Hinstalled Hstorage Hdigest) as (o & e' & l' & Hrun & Ho).
  exists o, e', l'. split; [done|]. destruct o; [|done..]. by destruct Ho as (log & -> & Ho).
Qed.
End safety.

(** ** A server of one release *)
Definition http_ok (body : bytes) : bytes :=
  str "HTTP/1.1 200 OK" ++ CRLF ++ str "Content-Length: " ++ decimal_text (len body) ++ CRLF ++ CRLF ++ body.
Definition sample_server : list bytes := http_ok <$> [sample_offer_answer; sample_manifest; sample_envelope].
Definition sample_context : UpdateStartContext :=
  {| invocation := ConfirmedUpdateMenuAction; network_feature_enabled := true; network_ready := true |}.
Definition sample_buffers : ReleaseClientBuffers :=
  mkBuffers kMaximumGitHubReleaseResponseBytes kMaximumReleaseManifestBytes kMaximumSignatureEnvelopeBytes.

Lemma CheckLatestRelease_sound_witness :
  exists o e' log,
    CheckLatestRelease sample_verify client_fuel sample_context (Some BuildInfo.sample_file) Pi5Pi500 sample_keys
      sample_buffers sample_offer_storage empty_download (sample_server, []) = Some (o, (e', log)) /\
    match o with
    | Val x => latest_offer sample_verify (Some BuildInfo.sample_file) Pi5Pi500 sample_keys sample_offer_storage x log
    | Stop s => no_offer sample_context [] s log
    | Ub => False
    end.
Proof.
  apply (CheckLatestRelease_sound sample_verify client_fuel); [lia | | repeat split; discriminate].
  intros info [= <-]. apply forallb_is_byte. vm_compute. reflexivity.
Defined.

(** ** The same release as a draft *)
Definition sample_draft_answer : bytes :=
  (fun c => if c =? 39 then QUOTE else c) <$>
  (str "{'id':5,'tag_name':'v2','draft':true,'prerelease':false,'assets':[" ++
   sample_asset_text kManifestAssetName (str "4472") ++ str "," ++
   sample_asset_text kSignatureAssetName (str "81") ++ str "," ++
   sample_asset_text (str "bmx-2-pi5-pi500-boot.zip") (str "9") ++ str "]}").
Definition sample_draft_ticket : DraftTestTicket :=
  mkTicket kRepository (str "p1") (str "v2") (str "Iv1.a") (str "k1") 5 8 1000 2000 (sha256_spec sample_manifest).
Lemma CheckPreparedDraftRelease_sound_witness :
  exists o e' log,
    CheckPreparedDraftRelease sample_verify client_fuel sample_context sample_draft_ticket (str "token")
      (Some BuildInfo.sample_file) Pi5Pi500 sample_keys sample_buffers sample_offer_storage empty_download
      (sample_server, []) = Some (o, (e', log)) /\
    match o with
    | Val x => draft_offer sample_verify sample_draft_ticket (str "token") (Some BuildInfo.sample_file) Pi5Pi500 sample_keys
        sample_offer_storage x log
    | Stop s => no_offer sample_context [] s log
    | Ub => False
    end.
Proof.
  apply (CheckPreparedDraftRelease_sound sample_verify client_fuel); [lia | | repeat split; discriminate |].
  - intros info [= <-]. apply forallb_is_byte. vm_compute. reflexivity.
  - exact (sha256_spec_digest sample_manifest).
Defined.
