(* ===== verification/DeviceFlow.v ===== *)
(** * What the device flow guarantees (over GithubClients.v)

    Both functions end and never read outside an array, and a token is one that an
    authorized address has sent in answer to the exchange. *)
From S2P Require Import Prelude Json JsonFields UpdatePolicy UrlPolicy HttpResponse BuildInfo DraftTicket HttpsStream HttpsSessions GithubClients ClientSafety.
Local Open Scope Z_scope.

Lemma ParseRoot_returns {S} encoded capacity r : Forall is_byte encoded -> 0 <= capacity ->
  returns (S := S) (ParseRoot encoded capacity r) (fun _ => True).
Proof.
  intros Hb Hc. unfold ParseRoot. destruct (_ || _); [done|].
  destruct (ParseJson_facts encoded capacity 8 Hb Hc) as (res & s & -> & _).
  destruct (result_error res); try done. by destruct (tokens s).
Qed.

Section fields.
Context {S : Type} (json : bytes) (ts : list JsonToken).

Lemma CopyRequiredString_returns name size (s : S) : returns (CopyRequiredString json ts name size s) (fun _ => True).
Proof.
  unfold CopyRequiredString. apply returns_need. intros Hm%Z.leb_le. apply returns_token; [by apply member_token|].
  intros t _. by destruct (copy_string json t size).
Qed.

Lemma ReadRequiredUint_returns name lo hi (s : S) : returns (ReadRequiredUint json ts name lo hi s) (fun _ => True).
Proof.
  unfold ReadRequiredUint. apply returns_need. intros Hm%Z.leb_le. apply returns_token; [by apply member_token|].
  intros t _. apply returns_some. intros v _. by apply returns_need.
Qed.
End fields.

Ltac read_field :=
  first [apply returns_need; intros ? | eapply returns_then; [first [apply CopyRequiredString_returns | apply ReadRequiredUint_returns]|intros ? _]].

Lemma device_members_returns json ts : returns (device_members json ts) (fun _ => True).
Proof. unfold device_members. by repeat read_field. Qed.

Lemma token_members_returns json ts capacity :
  returns (token_members json ts capacity) (fun token => SafeFormValue token kMaximumGitHubAccessTokenBytes = true).
Proof. unfold token_members. by repeat read_field. Qed.

Section flow.
Context {E : Type} `{HttpsEnvironment E}.
Variable fuel : nat.
Hypothesis enough : (client_fuel <= fuel)%nat.

(** The answer to a form, from a verified address. *)
Definition posted (url body response : bytes) (log : list event) : Prop :=
  fetched GitHubDeviceAuthorization GitHubDeviceFlow (form_options body) kMaximumGitHubDeviceResponseBytes url response log.

Lemma runs_answered {A} url body response_capacity token_capacity (out : A) e l
    (QS : GitHubDeviceFlowResult * A -> list event -> Prop) : NUL ∉ url -> 0 <= token_capacity ->
  (forall s l', flow_status s.1 <> FlowOk -> s.2 = out -> QS s l') ->
  client_runs (answered fuel url body response_capacity token_capacity out) e l
    (fun '(_, response, _) l' => exists log, l' = l ++ log /\ posted url body response log) QS.
Proof.
  intros Hu Hc Hqs. unfold answered, PostForm. eapply runs_bind.
  { apply runs_fetch; [exact Hu | done | by apply client_fuel_enough]. }
  intros [h response] e1 l1 (log & -> & Hok). cbn beta iota zeta. apply runs_need.
  { intros _. apply Hqs; [|done]. cbn. unfold flow_download_status. by destruct (bool_decide _). }
  intros Hs%bool_decide_eq_true. specialize (Hok Hs).
  assert (Hb : Forall is_byte response) by (by destruct Hok as (_ & _ & ?)).
  pose proof (ParseRoot_returns (S := GitHubDeviceFlowResult * A) response token_capacity (flow_json (DeviceResult FlowInvalidArgument)) Hb Hc) as Hp.
  unfold client_runs, cbind, lift. cbn [flow_json flow_status] in *.
  destruct (ParseRoot _ _ _) as [[jr [ts|]]|s|] eqn:Ep; cbn in Hp |- *.
  - eexists (Val _), e1, (l ++ log). split; [done|]. by exists log.
  - eexists (Stop _), e1, (l ++ log). split; [done|]. by apply Hqs.
  - exfalso. revert Ep. unfold ParseRoot. repeat case_match; done.
  - done.
Qed.

Lemma RequestGitHubDeviceCode_runs client_id response_capacity token_capacity authorization e l : 0 <= token_capacity ->
  client_runs (RequestGitHubDeviceCode fuel client_id response_capacity token_capacity authorization) e l
    (fun x _ => flow_status x.1 = FlowOk) (fun x _ => flow_status x.1 <> FlowOk).
Proof.
  intros Hc. unfold RequestGitHubDeviceCode. apply runs_need; [done|]. intros _. apply runs_need; [done|]. intros _.
  eapply runs_bind; [by apply runs_answered; [by apply index_of_None | | ]|].
  intros [[r json] ts] e1 l1 _. eapply runs_try; [apply device_members_returns | done|]. intros out _ _. by apply runs_ret.
Qed.

(** A token is one from GitHub's answer to the exchange; otherwise there is none. *)
Lemma ExchangeGitHubDeviceCode_runs client_id device_code response_capacity token_capacity token capacity e l : 0 <= token_capacity ->
  client_runs (ExchangeGitHubDeviceCode fuel client_id device_code response_capacity token_capacity token capacity) e l
    (fun x l' => flow_status x.1 = FlowOk /\ SafeFormValue x.2 kMaximumGitHubAccessTokenBytes = true /\
       exists response log, l' = l ++ log /\ posted kAccessTokenUrl (exchange_body client_id device_code) response log)
    (fun x _ => flow_status x.1 <> FlowOk /\ (x.2 = [] \/ x.2 = token)).
Proof.
  intros Hc. unfold ExchangeGitHubDeviceCode. apply runs_need; [by split; [|right]|]. intros _.
  apply runs_need; [by split; [|left]|]. intros _.
  eapply runs_bind; [apply runs_answered; [by apply index_of_None | done | by split; [|left]]|].
  intros [[r json] ts] e1 l1 (log & -> & Hlog). destruct (Z.leb_spec 0 (member json ts 0 (str "error"))) as [Hm|_].
  - assert (Ht : exists t, token_at ts (member json ts 0 (str "error")) = Val t :> parsed (GitHubDeviceFlowResult * bytes) _).
    { pose proof (member_token json ts 0 (str "error") ltac:(lia) Hm) as Hr. unfold token_at.
      rewrite (proj2 (Z.ltb_ge _ 0)) by lia. destruct (ts !! _) as [t|] eqn:Et; [by exists t|].
      apply lookup_ge_None in Et. unfold len in Hr. lia. }
    destruct Ht as [t Ht]. unfold client_runs, cbind, lift, creturn. rewrite Ht. eexists (Stop _), e1, _. split; [done|].
    split; [|by left]. cbn. unfold error_status. repeat case_match; done.
  - eapply runs_try; [apply token_members_returns | by split; [|left]|]. intros out _ Hout. apply runs_ret.
    split; [done|]. split; [exact Hout|]. by exists json, log.
Qed.
End flow.
