(* ===== verification/FatFsStorage.v ===== *)
(** * Downloads and archives on FatFs (src/src/update/fatfs_update_storage.cpp)

    [FatFsDownloadSink] stores a download under a temporary name, hashes it while it
    arrives and renames it only if size and SHA-256 are the expected ones;
    [FatFsZipSource] reads an archive at any offset, and seeks only if the file is not
    there already.  FatFs is behind the interface [FatFs]; a file object is a name. *)
From S2P Require Import Prelude FatPathPolicy HttpResponse Sha256.
From Stdlib Require Import Ascii.
Local Open Scope Z_scope.

Definition kFatFsUpdatePathBytes : Z := 512.
(** [static_cast<UINT>(-1)] *)
Definition kMaximumFatFsIoBytes : Z := 4294967295.

(** The results the code tells apart. *)
Inductive FRESULT := FR_OK | FR_NO_FILE | FR_NO_PATH | FR_EXIST | FR_ERROR (code : Z).
#[export] Instance FRESULT_eq_dec : EqDecision FRESULT.
Proof. solve_decision. Defined.

Inductive open_mode := ReadExisting | WriteNew.

Record FILINFO := mkInfo { is_dir : bool; fsize : Z }.

(** The functions of [ff.h].  [f_read] returns the bytes read and [f_write] their
    number ([*br], [*bw]). *)
Class FatFs (F : Type) := {
  f_stat : bytes -> F -> FRESULT * FILINFO * F;
  f_mkdir : bytes -> F -> FRESULT * F;
  f_unlink : bytes -> F -> FRESULT * F;
  f_rename : bytes -> bytes -> F -> FRESULT * F;
  f_open : bytes -> open_mode -> F -> FRESULT * Z * F;
  f_close : Z -> F -> FRESULT * F;
  f_sync : Z -> F -> FRESULT * F;
  f_write : Z -> bytes -> F -> FRESULT * Z * F;
  f_read : Z -> Z -> F -> FRESULT * bytes * F;
  f_lseek : Z -> Z -> F -> FRESULT * F;
  f_tell : Z -> F -> Z;
  f_size : Z -> F -> Z;
}.

Inductive FatFsStorageStatus :=
| Ok | BackendUnavailable | InvalidArgument | InvalidPath | PathTooLong | NotOpen | Busy | NotFound | AlreadyExists
| NotDirectory | IsDirectory | OpenFailed | ReadFailed | WriteFailed | SeekFailed | SyncFailed | CloseFailed
| StatFailed | MkdirFailed | RemoveFailed | RenameFailed | SizeMismatch | LimitExceeded | HashFailed | HashMismatch.
#[export] Instance FatFsStorageStatus_eq_dec : EqDecision FatFsStorageStatus.
Proof. solve_decision. Defined.

Record FatFsPathInfo := mkPathInfo { exists_ : bool; is_directory : bool; info_size : Z }.
Definition no_path : FatFsPathInfo := mkPathInfo false false 0.

(** ** Paths *)
Definition COLON : Z := 58.

Definition MapPathStatus (status : FatPathValidationStatus) : FatFsStorageStatus :=
  match status with
  | FatPathPolicy.Ok => Ok
  | FatPathPolicy.InvalidArgument => InvalidArgument
  | FatPathPolicy.PathTooLong => PathTooLong
  | FatPathPolicy.InvalidPath => InvalidPath
  end.

Definition EndsWith (text suffix : bytes) : bool :=
  (len suffix <=? len text) && bytes_eqb (drop (length text - length suffix) text) suffix.

(** The loop over both prefixes, up to the first colon of either. *)
Fixpoint SameVolume (left right : bytes) : bool :=
  match left, right with
  | l :: left', r :: right' =>
      if (l =? COLON) || (r =? COLON) then (l =? COLON) && (r =? COLON)
      else if AsciiLower l =? AsciiLower r then SameVolume left' right' else false
  | _, _ => false
  end.

Definition volume_byte (c : Z) : bool := in_range 65 90 c || in_range 97 122 c || in_range 48 57 c || (c =? 95).

(** The volume prefix up to the colon; the rest; or a byte that is not allowed. *)
Fixpoint volume_loop (path : bytes) : option (bytes * bytes) :=
  match path with
  | [] => Some ([], [])
  | c :: path' =>
      if c =? COLON then Some ([], path)
      else if volume_byte c then
        match volume_loop path' with Some (v, rest) => Some (c :: v, rest) | None => None end
      else None
  end.

(** [path] is a C string. *)
Definition ValidateFatFsAbsolutePath (path : bytes) : FatFsStorageStatus :=
  if len path =? 0 then InvalidArgument
  else if kFatFsUpdatePathBytes <=? len path then PathTooLong
  else
    match volume_loop path with
    | None => InvalidPath
    | Some (volume, rest) =>
        if (len volume =? 0) || (15 <? len volume) || (len path <=? len volume + 1) ||
           negb (byte_at rest 0 =? COLON) || negb (byte_at rest 1 =? SLASH)
        then InvalidPath
        else if len volume + 2 =? len path then Ok
        else MapPathStatus (ValidateFatRelativePathBytes (Some (drop 2 rest)) (kFatFsUpdatePathBytes - 1))
    end.

Section storage.
Context {F : Type} `{FatFs F}.

Definition IsMissing (result : FRESULT) : bool :=
  bool_decide (result = FR_NO_FILE) || bool_decide (result = FR_NO_PATH).

Definition CloseFile (file : Z) (s : F) : FatFsStorageStatus * F :=
  let '(r, s) := f_close file s in (if bool_decide (r = FR_OK) then Ok else CloseFailed, s).

Definition StatValidated (path : bytes) (s : F) : FatFsStorageStatus * FatFsPathInfo * F :=
  let '(result, info, s) := f_stat path s in
  if IsMissing result then (Ok, no_path, s)
  else if negb (bool_decide (result = FR_OK)) then (StatFailed, no_path, s)
  else (Ok, mkPathInfo true (is_dir info) (if is_dir info then 0 else fsize info), s).

Definition FatFsStatPath (path : bytes) (s : F) : FatFsStorageStatus * FatFsPathInfo * F :=
  match ValidateFatFsAbsolutePath path with
  | Ok => StatValidated path s
  | status => (status, no_path, s)
  end.

Definition FatFsRemoveFileIfPresent (path : bytes) (s : F) : FatFsStorageStatus * F :=
  let '(status, info, s) := FatFsStatPath path s in
  if negb (bool_decide (status = Ok)) || negb (exists_ info) then (status, s)
  else if is_directory info then (IsDirectory, s)
  else let '(r, s) := f_unlink path s in (if bool_decide (r = FR_OK) then Ok else RemoveFailed, s).

Definition EnsureOneDirectory (path : bytes) (s : F) : FatFsStorageStatus * F :=
  let '(result, s) := f_mkdir path s in
  if negb (bool_decide (result = FR_OK)) && negb (bool_decide (result = FR_EXIST)) then (MkdirFailed, s)
  else
    let '(status, info, s) := StatValidated path s in
    if negb (bool_decide (status = Ok)) then (status, s)
    else if negb (exists_ info) then (MkdirFailed, s)
    else if negb (is_directory info) then (NotDirectory, s)
    else (Ok, s).

(** The loop of the cursor: [before] is what it has passed. *)
Fixpoint parents_loop (before rest : bytes) (s : F) : FatFsStorageStatus * F :=
  match rest with
  | [] => (Ok, s)
  | c :: rest' =>
      if negb (c =? SLASH) then parents_loop (before ++ [c]) rest' s
      else
        let '(status, s) := EnsureOneDirectory before s in
        if bool_decide (status = Ok) then parents_loop (before ++ [c]) rest' s else (status, s)
  end.

Definition EnsureParentDirectories (path : bytes) (s : F) : FatFsStorageStatus * F :=
  if kFatFsUpdatePathBytes <=? len path then (PathTooLong, s)
  else
    match index_of COLON path with
    | None => (InvalidPath, s)
    | Some i =>
        if negb (byte_at path (Z.of_nat i + 1) =? SLASH) then (InvalidPath, s)
        else parents_loop (take (i + 2) path) (drop (i + 2) path) s
    end.

(** [f_write] takes at most [UINT_MAX] bytes. *)
Fixpoint write_loop (turns : nat) (file : Z) (data : bytes) (s : F) : FatFsStorageStatus * F :=
  match data, turns with
  | [], _ | _, O => (Ok, s)
  | _, S turns' =>
      let limited := Z.min (len data) kMaximumFatFsIoBytes in
      let '(result, written, s) := f_write file (take (Z.to_nat limited) data) s in
      if negb (bool_decide (result = FR_OK)) || negb (written =? limited) then (WriteFailed, s)
      else write_loop turns' file (drop (Z.to_nat limited) data) s
  end.
Definition WriteAll (file : Z) (data : bytes) (s : F) : FatFsStorageStatus * F := write_loop (length data) file data s.

(** [ReadExact]: the bytes, or [None] for [ReadFailed]. *)
Fixpoint read_loop (turns : nat) (file : Z) (size : Z) (out : bytes) (s : F) : option bytes * F :=
  match turns with
  | O => (Some out, s)
  | S turns' =>
      if size <=? 0 then (Some out, s)
      else
        let limited := Z.min size kMaximumFatFsIoBytes in
        let '(result, data, s) := f_read file limited s in
        if negb (bool_decide (result = FR_OK)) || negb (len data =? limited) then (None, s)
        else read_loop turns' file (size - limited) (out ++ data) s
  end.
Definition ReadExact (file : Z) (size : Z) (s : F) : option bytes * F :=
  read_loop (Z.to_nat (size / kMaximumFatFsIoBytes + 1)) file size [] s.

(** ** [FatFsDownloadSink] *)
Record FatFsDownloadSink := mkDownloadSink {
  open_ : bool;
  file_ : Z;
  expected_size_ : Z;
  bytes_written_ : Z;
  expected_sha256_ : bytes;
  streaming_sha256_ : Sha256;
  part_path_ : bytes;
  final_path_ : bytes;
}.

(** The constructor. *)
Definition new_sink : FatFsDownloadSink := mkDownloadSink false 0 0 0 (replicate 32 0) Reset [] [].

Definition sink_closed (k : FatFsDownloadSink) : FatFsDownloadSink :=
  mkDownloadSink false (file_ k) (expected_size_ k) (bytes_written_ k) (expected_sha256_ k) (streaming_sha256_ k)
    (part_path_ k) (final_path_ k).
Definition sink_paths (part final : bytes) (k : FatFsDownloadSink) : FatFsDownloadSink :=
  mkDownloadSink (open_ k) (file_ k) (expected_size_ k) (bytes_written_ k) (expected_sha256_ k) (streaming_sha256_ k) part final.
Definition sink_hash (sha : Sha256) (written : Z) (k : FatFsDownloadSink) : FatFsDownloadSink :=
  mkDownloadSink (open_ k) (file_ k) (expected_size_ k) written (expected_sha256_ k) sha (part_path_ k) (final_path_ k).

(** The calls of [Start] on the volume, once the paths are stored. *)
Definition start_file (k : FatFsDownloadSink) (expected_size : Z) (expected_sha256 : bytes) (s : F)
    : FatFsStorageStatus * FatFsDownloadSink * F :=
  let '(status, final_info, s) := FatFsStatPath (final_path_ k) s in
  if negb (bool_decide (status = Ok)) then (status, k, s)
  else if exists_ final_info then (AlreadyExists, k, s)
  else
    let '(status, s) := FatFsRemoveFileIfPresent (part_path_ k) s in
    if negb (bool_decide (status = Ok)) then (status, k, s)
    else
      let '(status, s) := EnsureParentDirectories (part_path_ k) s in
      if negb (bool_decide (status = Ok)) then (status, k, s)
      else
        let '(result, file, s) := f_open (part_path_ k) WriteNew s in
        if negb (bool_decide (result = FR_OK)) then (OpenFailed, k, s)
        else (Ok, mkDownloadSink true file expected_size 0 expected_sha256 Reset (part_path_ k) (final_path_ k), s).

Definition Start (part_path final_path : bytes) (expected_size : Z) (expected_sha256 : bytes)
    (k : FatFsDownloadSink) (s : F) : FatFsStorageStatus * FatFsDownloadSink * F :=
  if open_ k then (Busy, k, s)
  else
    match ValidateFatFsAbsolutePath part_path, ValidateFatFsAbsolutePath final_path with
    | Ok, Ok =>
        if negb (EndsWith part_path (str ".part")) || bytes_eqb part_path final_path ||
           negb (SameVolume part_path final_path) || (kFatFsUpdatePathBytes <=? len part_path)
        then (InvalidPath, k, s)
        else if kFatFsUpdatePathBytes <=? len final_path then (InvalidPath, sink_paths part_path (final_path_ k) k, s)
        else start_file (sink_paths part_path final_path k) expected_size expected_sha256 s
    | Ok, status => (status, k, s)
    | status, _ => (status, k, s)
    end.

Definition Write (data : bytes) (k : FatFsDownloadSink) (s : F) : bool * FatFsDownloadSink * F :=
  if negb (open_ k) || (u64 (expected_size_ k - bytes_written_ k) <? len data) then (false, k, s)
  else
    let '(status, s) := WriteAll (file_ k) data s in
    if negb (bool_decide (status = Ok)) then (false, k, s)
    else
      let '(hashed, sha) := Update (streaming_sha256_ k) data in
      if negb hashed then (false, sink_hash sha (bytes_written_ k) k, s)
      else (true, sink_hash sha (u64 (bytes_written_ k + len data)) k, s).

(** Publishing the closed file. *)
Definition publish (k : FatFsDownloadSink) (s : F) : FatFsStorageStatus * F :=
  let '(status, final_info, s) := FatFsStatPath (final_path_ k) s in
  if negb (bool_decide (status = Ok)) then (status, s)
  else if exists_ final_info then (AlreadyExists, s)
  else
    let '(r, s) := f_rename (part_path_ k) (final_path_ k) s in
    (if bool_decide (r = FR_OK) then Ok else RenameFailed, s).

Definition FinishStreamingVerified (k : FatFsDownloadSink) (s : F) : FatFsStorageStatus * FatFsDownloadSink * F :=
  if negb (open_ k) then (NotOpen, k, s)
  else if negb (bytes_written_ k =? expected_size_ k) then
    let '(_, s) := f_close (file_ k) s in (SizeMismatch, sink_closed k, s)
  else
    let '(digest, sha) := Final (streaming_sha256_ k) in
    let k := sink_hash sha (bytes_written_ k) k in
    match digest with
    | None => let '(_, s) := f_close (file_ k) s in (HashFailed, sink_closed k, s)
    | Some streaming_digest =>
        let '(synced, s) := f_sync (file_ k) s in
        let '(close_status, s) := CloseFile (file_ k) s in
        let k := sink_closed k in
        let status := if bool_decide (synced = FR_OK) then close_status else SyncFailed in
        if negb (bool_decide (status = Ok)) then (status, k, s)
        else if negb (ConstantTimeDigestEqual streaming_digest (expected_sha256_ k)) then (HashMismatch, k, s)
        else let '(status, s) := publish k s in (status, k, s)
    end.

Definition Abort (remove_part : bool) (k : FatFsDownloadSink) (s : F) : FatFsDownloadSink * F :=
  let '(k, s) := if open_ k then let '(_, s) := f_close (file_ k) s in (sink_closed k, s) else (k, s) in
  if remove_part && negb (len (part_path_ k) =? 0)
  then let '(_, s) := FatFsRemoveFileIfPresent (part_path_ k) s in (k, s)
  else (k, s).

(** ** [FatFsZipSource] *)
Record FatFsZipSource := mkZipSource {
  zip_open_ : bool;
  zip_file_ : Z;
  size_ : Z;
  position_ : Z;
  positioned_ : bool;
}.
Definition new_source : FatFsZipSource := mkZipSource false 0 0 0 false.

Definition with_position (position : Z) (positioned : bool) (z : FatFsZipSource) : FatFsZipSource :=
  mkZipSource (zip_open_ z) (zip_file_ z) (size_ z) position positioned.

Definition Open (path : bytes) (z : FatFsZipSource) (s : F) : FatFsStorageStatus * FatFsZipSource * F :=
  if zip_open_ z then (Busy, z, s)
  else
    match ValidateFatFsAbsolutePath path with
    | Ok =>
        let '(status, info, s) := FatFsStatPath path s in
        if negb (bool_decide (status = Ok)) then (status, z, s)
        else if negb (exists_ info) then (NotFound, z, s)
        else if is_directory info then (IsDirectory, z, s)
        else
          let '(result, file, s) := f_open path ReadExisting s in
          if negb (bool_decide (result = FR_OK)) then (OpenFailed, z, s)
          else
            let z := mkZipSource false file (info_size info) (position_ z) (positioned_ z) in
            if negb (f_size file s =? size_ z) then let '(_, s) := f_close file s in (SizeMismatch, z, s)
            else (Ok, mkZipSource true file (size_ z) 0 true, s)
    | status => (status, z, s)
    end.

Definition Close (z : FatFsZipSource) (s : F) : FatFsStorageStatus * FatFsZipSource * F :=
  if negb (zip_open_ z) then (Ok, z, s)
  else
    let '(status, s) := CloseFile (zip_file_ z) s in
    (status, mkZipSource false (zip_file_ z) (size_ z) (position_ z) false, s).

Definition GetSize (z : FatFsZipSource) (s : F) : option Z :=
  if negb (zip_open_ z) || negb (f_size (zip_file_ z) s =? size_ z) then None else Some (size_ z).

(** The read at the place where the file is. *)
Definition read_here (offset size : Z) (z : FatFsZipSource) (s : F) : option bytes * FatFsZipSource * F :=
  match ReadExact (zip_file_ z) size s with
  | (None, s) => (None, with_position (position_ z) false z, s)
  | (Some data, s) => (Some data, with_position (u64 (offset + size)) (positioned_ z) z, s)
  end.

(** [FSIZE_t] is 32 bits wide unless exFAT is enabled; an offset that does not fit is
    refused. *)
Definition ReadAt (fsize_bits offset size : Z) (z : FatFsZipSource) (s : F) : option bytes * FatFsZipSource * F :=
  if negb (zip_open_ z) || (size_ z <? offset) || (size_ z - offset <? size) then (None, z, s)
  else if negb (offset mod 2 ^ fsize_bits =? offset) then (None, z, s)
  else if negb (positioned_ z) || negb (offset =? position_ z) then
    let '(r, s) := f_lseek (zip_file_ z) offset s in
    if negb (bool_decide (r = FR_OK)) || negb (f_tell (zip_file_ z) s =? offset)
    then (None, with_position (position_ z) false z, s)
    else read_here offset size (with_position offset true z) s
  else read_here offset size z s.
End storage.
