(* ===== verification/FatFsSafety.v ===== *)
(** * What the download sink and the archive source guarantee (over FatFsStorage.v)

    The source: for a file that does not change, [ReadAt] returns exactly the bytes at
    the offset, whatever was read before, although it seeks only when the file is not
    there already; so it is a source as the ZIP reader needs it ([ImmutableSource]).
    The sink: a file appears under the final name only if it was written in full, with
    the expected size and SHA-256. *)
From S2P Require Import Prelude FatPathPolicy HttpResponse Sha256 UpdateFileSystem VolumeMoments ZipFormat ZipReader ZipOpen FatFsStorage.
Local Open Scope Z_scope.

(** ** Reading *)
(** The documented behaviour of FatFs on files that are open for reading: [opened] is
    the content and the position of a file object. *)
Class FatFsReading (F : Type) `{FatFs F} := {
  opened : F -> Z -> option (bytes * Z);
  f_open_law path s : let '(r, file, s') := f_open path ReadExisting s in
    r = FR_OK -> exists c, opened s' file = Some (c, 0);
  f_read_law file n s c p : opened s file = Some (c, p) -> 0 <= n ->
    let '(r, d, s') := f_read file n s in
    (exists p', opened s' file = Some (c, p')) /\
    (r = FR_OK -> d = sub c p n /\ opened s' file = Some (c, p + len d));
  f_lseek_law file offset s c p : opened s file = Some (c, p) ->
    let '(_, s') := f_lseek file offset s in exists p', opened s' file = Some (c, p');
  f_tell_law file s c p : opened s file = Some (c, p) -> f_tell file s = p;
  f_size_law file s c p : opened s file = Some (c, p) -> f_size file s = len c;
}.

Section reading.
Context {F : Type} `{FatFsReading F}.
Variable fsize_bits : Z.

(** A source that is open on the content [c]: when it thinks that it knows where the
    file is, it does. *)
Definition source_ok (c : bytes) (z : FatFsZipSource) (s : F) : Prop :=
  zip_open_ z = true /\ size_ z = len c /\ len c <= UINT64_MAX /\
  exists p, opened s (zip_file_ z) = Some (c, p) /\ (positioned_ z = true -> position_ z = p).

Lemma read_loop_ok turns file c : forall size out s p,
  opened s file = Some (c, p) -> 0 <= p -> 0 <= size <= Z.of_nat turns * kMaximumFatFsIoBytes ->
  let '(r, s') := read_loop turns file size out s in
  (exists p', opened s' file = Some (c, p')) /\
  forall d, r = Some d -> d = out ++ sub c p size /\ opened s' file = Some (c, p + size).
Proof.
  assert (Hzero : forall out s p, opened s file = Some (c, p) -> (exists p', opened s file = Some (c, p')) /\
    forall d, Some out = Some d -> d = out ++ sub c p 0 /\ opened s file = Some (c, p + 0)).
  { intros out s p Ho. split; [by exists p|]. intros d [= <-]. unfold sub. cbn. by rewrite app_nil_r, Z.add_0_r. }
  induction turns as [|turns IH]; intros size out s p Ho Hp Hs; cbn [read_loop].
  { replace size with 0 by lia. by apply Hzero. }
  destruct (Z.leb_spec size 0) as [E|E].
  { replace size with 0 by lia. by apply Hzero. }
  set (n := Z.min size kMaximumFatFsIoBytes).
  assert (Hn : 0 < n <= size) by (unfold n, kMaximumFatFsIoBytes; lia).
  pose proof (f_read_law file n s c p Ho ltac:(lia)) as Hr. destruct (f_read file n s) as [[r data] s1].
  destruct Hr as [Hany Hok]. case_bool_decide as Er; cbn [negb orb]; [|done].
  destruct (Z.eqb_spec (len data) n) as [El|El]; cbn [negb]; [|done].
  destruct (Hok Er) as [Hd Ho1]. rewrite El in Ho1.
  specialize (IH (size - n) (out ++ data) s1 (p + n) Ho1 ltac:(lia)).
  destruct (read_loop turns file (size - n) (out ++ data) s1) as [r' s']. destruct IH as [IH1 IH2].
  { unfold n, kMaximumFatFsIoBytes in *. lia. }
  split; [done|]. intros d Hd'. destruct (IH2 d Hd') as [-> Ho'].
  replace (p + n + (size - n)) with (p + size) in Ho' by lia. split; [|done].
  rewrite <- app_assoc. f_equal. replace size with (n + (size - n)) at 2 by lia.
  rewrite sub_cat by lia. by rewrite Hd.
Qed.

Lemma ReadExact_ok file size s c p : opened s file = Some (c, p) -> 0 <= p -> 0 <= size ->
  let '(r, s') := ReadExact file size s in
  (exists p', opened s' file = Some (c, p')) /\
  forall d, r = Some d -> d = sub c p size /\ opened s' file = Some (c, p + size).
Proof.
  intros Ho Hp Hs. apply (read_loop_ok _ file c size [] s p Ho Hp).
  pose proof (Z.div_pos size kMaximumFatFsIoBytes Hs ltac:(done)).
  pose proof (Z.mod_pos_bound size kMaximumFatFsIoBytes ltac:(done)).
  pose proof (Z.div_mod size kMaximumFatFsIoBytes ltac:(done)). lia.
Qed.

(** The answer of a read, from a source in order. *)
Definition read_ok (c : bytes) (offset size : Z) (x : option bytes * FatFsZipSource * F) : Prop :=
  let '(d, z, s) := x in source_ok c z s /\
  forall data, d = Some data -> offset + size <= len c /\ data = sub c offset size.

Lemma read_here_ok c offset size z s : zip_open_ z = true -> size_ z = len c -> len c <= UINT64_MAX ->
  opened s (zip_file_ z) = Some (c, offset) -> 0 <= offset -> 0 <= size -> offset + size <= len c ->
  read_ok c offset size (read_here offset size z s).
Proof.
  intros Hz Hsz Hc Ho Hp Hs Hle. unfold read_here.
  pose proof (ReadExact_ok (zip_file_ z) size s c offset Ho Hp Hs) as Hr.
  destruct (ReadExact (zip_file_ z) size s) as [[d|] s']; destruct Hr as [Hany Hok]; cbn.
  - destruct (Hok d eq_refl) as [-> Ho']. split.
    + split; [done|]. split; [done|]. split; [done|]. exists (offset + size). split; [done|]. cbn. intros _.
      unfold UINT64_MAX in Hc. apply u64_small. lia.
    + intros data [= <-]. by split.
  - split; [|done]. destruct Hany as [p' Ho']. split; [done|]. split; [done|]. split; [done|]. by exists p'.
Qed.

Lemma ReadAt_ok c offset size z s : source_ok c z s -> 0 <= offset -> 0 <= size ->
  read_ok c offset size (ReadAt fsize_bits offset size z s).
Proof.
  intros Hok Hp Hs. pose proof Hok as (Hz & Hsz & Hc & p & Ho & Hpos). unfold ReadAt. rewrite Hz. cbn [negb orb].
  rewrite Hsz. destruct (Z.ltb_spec (len c) offset) as [E|E]; [by split|]. cbn [orb].
  destruct (Z.ltb_spec (len c - offset) size) as [E1|E1]; [by split|].
  destruct (offset mod 2 ^ fsize_bits =? offset); [|by split]. cbn [negb].
  destruct (negb (positioned_ z) || negb (offset =? position_ z)) eqn:Eseek.
  - pose proof (f_lseek_law (zip_file_ z) offset s c p Ho) as Hl.
    destruct (f_lseek (zip_file_ z) offset s) as [r s1]. destruct Hl as [p1 Ho1].
    destruct (negb (bool_decide (r = FR_OK)) || negb (f_tell (zip_file_ z) s1 =? offset)) eqn:Et.
    + split; [|done]. split; [done|]. split; [done|]. split; [done|]. by exists p1.
    + apply orb_false_iff in Et as [_ Et]. zbool. rewrite (f_tell_law _ _ _ _ Ho1) in Et. subst p1.
      apply read_here_ok; try done; lia.
  - apply orb_false_iff in Eseek as [Epos Eo]. zbool. rewrite Hpos in Eo by done. subst p.
    apply read_here_ok; try done; lia.
Qed.

Lemma Open_ok path z s : zip_open_ z = false ->
  let '(status, z', s') := Open path z s in
  status = FatFsStorage.Ok -> (forall c p, opened s' (zip_file_ z') = Some (c, p) -> len c <= UINT64_MAX) ->
  exists c, source_ok c z' s'.
Proof.
  intros Hz. unfold Open. rewrite Hz. destruct (ValidateFatFsAbsolutePath path); try done.
  destruct (FatFsStatPath path s) as [[st info] s1]. case_bool_decide as Est; cbn [negb]; [|by intros ->].
  destruct (negb (exists_ info)); [done|]. destruct (is_directory info); [done|].
  pose proof (f_open_law path s1) as Ho. destruct (f_open path ReadExisting s1) as [[r file] s2].
  case_bool_decide as Er; cbn [negb]; [|done]. destruct (Ho Er) as [c Hc].
  cbn [size_]. destruct (f_size file s2 =? info_size info) eqn:Ef; cbn [negb].
  - intros _ Hmax. exists c. zbool. rewrite (f_size_law _ _ _ _ Hc) in Ef.
    split; [done|]. split; [done|]. split; [by eapply Hmax|]. by exists 0.
  - by destruct (f_close file s2).
Qed.

(** *** The interface of the ZIP reader *)
Definition OpenSource (c : bytes) : Type := { x : FatFsZipSource * F | source_ok c x.1 x.2 }.

Lemma read_ok_source c offset size x : read_ok c offset size x -> source_ok c x.1.2 x.2.
Proof. destruct x as [[d z] s]. by intros [Hx _]. Qed.

#[export, refine] Instance fatfs_source (c : bytes) : SeekableZipSource (OpenSource c) := {
  SourceSize w := (GetSize (`w).1 (`w).2, w);
  SourceReadAt offset amount w :=
    match decide (0 <= offset /\ 0 <= amount) with
    | left Hrange =>
        let x := ReadAt fsize_bits offset amount (`w).1 (`w).2 in (x.1.1, exist _ (x.1.2, x.2) _)
    | right _ => (None, w)
    end;
}.
Proof.
  destruct w as [[z s] Hw]. destruct Hrange as [Hp Hs]. exact (read_ok_source _ _ _ _ (ReadAt_ok c offset amount z s Hw Hp Hs)).
Defined.

Lemma len_sub (l : bytes) i n : 0 <= i -> 0 <= n -> i + n <= len l -> len (sub l i n) = n.
Proof. intros Hi Hn Hl. unfold sub, len in *. rewrite length_take, length_drop. lia. Qed.

#[export] Instance fatfs_immutable (c : bytes) : ImmutableSource (OpenSource c) c.
Proof.
  constructor.
  - intros [[z s] Hw]. pose proof Hw as (Hz & Hsz & _ & p & Ho & _). cbn. unfold GetSize.
    cbn in Hz, Hsz, Ho. cbn. rewrite Hz, Hsz. destruct (f_size (zip_file_ z) s =? len c); done.
  - intros offset amount [[z s] Hw]. cbn. destruct (decide _) as [[Hp Hs]|]; [|done]. cbn.
    pose proof (ReadAt_ok c offset amount z s Hw Hp Hs) as Hr.
    destruct (ReadAt fsize_bits offset amount z s) as [[[d|] z'] s']; [|done]. cbn.
    destruct Hr as [_ Hd]. destruct (Hd d eq_refl) as [Hle ->]. split; [done|]. split; [done|]. by apply len_sub.
Qed.

(** *** Any sequence of reads *)
Fixpoint read_all (reads : list (Z * Z)) (z : FatFsZipSource) (s : F) : list (option bytes) :=
  match reads with
  | [] => []
  | (offset, size) :: reads' =>
      let '(d, z, s) := ReadAt fsize_bits offset size z s in d :: read_all reads' z s
  end.

(** C22. The archive source returns the right bytes although it avoids seeking: after
    any [Open], whatever was read before and whichever reads and seeks failed, a read
    that succeeds is within the file and returns exactly the bytes at its offset. *)
Theorem FatFsZipSource_reads path s z' s' c reads
    (Hopen : Open path new_source s = (FatFsStorage.Ok, z', s'))
    (Hfile : forall c' p, opened s' (zip_file_ z') = Some (c', p) -> c' = c) (Hlen : len c <= UINT64_MAX)
    (Hreads : Forall (fun r => 0 <= r.1 /\ 0 <= r.2) reads) :
  Forall2 (fun r d => forall data, d = Some data -> r.1 + r.2 <= len c /\ data = sub c r.1 r.2)
    reads (read_all reads z' s').
Proof.
  pose proof (Open_ok path new_source s eq_refl) as Ho. rewrite Hopen in Ho. destruct Ho as [c' Hok]; [done| |].
  { intros c' p Hc. by rewrite (Hfile _ _ Hc). }
  pose proof Hok as (_ & _ & _ & p & Hop & _). rewrite (Hfile _ _ Hop) in Hok. clear Hfile Hopen Hop.
  revert z' s' Hok. induction Hreads as [|[offset size] reads [Hp Hs] _ IH]; intros z' s' Hok; cbn [read_all]; [constructor|].
  pose proof (ReadAt_ok c offset size z' s' Hok Hp Hs) as Hr.
  destruct (ReadAt fsize_bits offset size z' s') as [[d z2] s2]. destruct Hr as [Hok2 Hd].
  constructor; [exact Hd | by apply IH].
Qed.
End reading.

(** ** Writing *)
(** The documented behaviour of FatFs on files that are written: [receiving] is the
    path and the content of a file object open for writing, [stored] what a path
    leads to.  Of calls that fail nothing is said. *)
Class FatFsWriting (F : Type) `{FatFs F} := {
  receiving : F -> Z -> option (bytes * bytes);
  stored : F -> bytes -> option bytes;
  open_new_law path s : let '(r, file, s') := f_open path WriteNew s in
    r = FR_OK -> receiving s' file = Some (path, []);
  f_write_law file d s path c : receiving s file = Some (path, c) ->
    let '(r, n, s') := f_write file d s in r = FR_OK -> n = len d -> receiving s' file = Some (path, c ++ d);
  f_sync_law file s x : receiving s file = Some x ->
    let '(r, s') := f_sync file s in r = FR_OK -> receiving s' file = Some x;
  f_close_law file s path c : receiving s file = Some (path, c) ->
    let '(r, s') := f_close file s in r = FR_OK -> stored s' path = Some c;
  f_stat_law path s p : let '(_, _, s') := f_stat path s in stored s' p = stored s p;
  f_rename_law p q s c : stored s p = Some c ->
    let '(r, s') := f_rename p q s in r = FR_OK -> stored s' q = Some c;
}.

(** Any volume, with the log of its renamings: the names, and the volume before. *)
Definition Renamed (F : Type) : Type := F * list (bytes * bytes * F).

Definition quietly {F A} (m : F -> A * F) (x : Renamed F) : A * Renamed F := let '(a, s) := m x.1 in (a, (s, x.2)).

#[export] Instance renamed {F} `{FatFs F} : FatFs (Renamed F) := {
  f_stat p := quietly (f_stat p);
  f_mkdir p := quietly (f_mkdir p);
  f_unlink p := quietly (f_unlink p);
  f_rename p q x := let '(r, s) := f_rename p q x.1 in (r, (s, x.2 ++ [(p, q, x.1)]));
  f_open p m := quietly (f_open p m);
  f_close file := quietly (f_close file);
  f_sync file := quietly (f_sync file);
  f_write file d := quietly (f_write file d);
  f_read file n := quietly (f_read file n);
  f_lseek file o := quietly (f_lseek file o);
  f_tell file x := f_tell file x.1;
  f_size file x := f_size file x.1;
}.

Section quiet.
Context {F : Type} `{FatFs F}.

(** No file has been renamed. *)
Definition quiet {A} (m : Renamed F -> A * Renamed F) : Prop := forall x, (m x).2.2 = x.2.

Lemma quiet_call {A} (m : F -> A * F) : quiet (quietly m).
Proof. intros x. unfold quietly. by destruct (m x.1). Qed.

Lemma quiet_ret {A} (a : A) : quiet (fun x => (a, x)).
Proof. done. Qed.

Lemma quiet_bind {A B} (m : Renamed F -> A * Renamed F) (k : A -> Renamed F -> B * Renamed F) :
  quiet m -> (forall a, quiet (k a)) -> quiet (fun x => let '(a, x) := m x in k a x).
Proof. intros Hm Hk x. specialize (Hm x). destruct (m x) as [a y]. cbn in Hm. by rewrite Hk. Qed.

Lemma quiet_bind2 {A B C} (m : Renamed F -> (A * B) * Renamed F) (k : A -> B -> Renamed F -> C * Renamed F) :
  quiet m -> (forall a b, quiet (k a b)) -> quiet (fun x => let '(a, b, x) := m x in k a b x).
Proof. intros Hm Hk x. specialize (Hm x). destruct (m x) as [[a b] y]. cbn in Hm. by rewrite Hk. Qed.
End quiet.

Create HintDb quiet.
#[export] Hint Resolve quiet_ret : quiet.
Ltac quiet :=
  repeat first
    [ solve [auto with quiet] | solve [refine (quiet_call _)] | apply quiet_bind2; [|intros ? ?] | apply quiet_bind; [|intros ?]
    | match goal with |- quiet (fun x => if ?b then _ else _) => destruct b end ].

Section writing.
Context {F : Type} `{FatFsWriting F}.

Lemma stat_quiet path : quiet (FatFsStatPath path).
Proof. unfold FatFsStatPath, StatValidated. destruct (ValidateFatFsAbsolutePath path); quiet. Qed.
#[local] Hint Resolve stat_quiet : quiet.

Lemma remove_quiet path : quiet (FatFsRemoveFileIfPresent path).
Proof. unfold FatFsRemoveFileIfPresent. quiet. Qed.
#[local] Hint Resolve remove_quiet : quiet.

Lemma parents_quiet path : quiet (EnsureParentDirectories path).
Proof.
  assert (Hone : forall p, quiet (EnsureOneDirectory p)) by (intros p; unfold EnsureOneDirectory, StatValidated; quiet).
  assert (Hloop : forall rest before, quiet (parents_loop before rest)).
  { induction rest as [|c rest IH]; intros before; cbn [parents_loop]; quiet. }
  unfold EnsureParentDirectories. destruct (_ <=? _); [quiet|].
  destruct (index_of COLON path); quiet.
Qed.
#[local] Hint Resolve parents_quiet : quiet.

Lemma start_quiet part final size sha k (s : Renamed F) : (Start part final size sha k s).2.2 = s.2.
Proof.
  revert s. change (quiet (Start part final size sha k)). unfold Start, start_file.
  destruct (open_ k); [quiet|].
  destruct (ValidateFatFsAbsolutePath part), (ValidateFatFsAbsolutePath final); quiet.
Qed.

Lemma write_all_quiet file data : quiet (WriteAll file data).
Proof.
  unfold WriteAll. generalize (length data). intros n. revert data.
  induction n as [|n IH]; intros [|b data]; cbn [write_loop]; quiet.
Qed.
#[local] Hint Resolve write_all_quiet : quiet.

Lemma write_quiet data k (s : Renamed F) : (Write data k s).2.2 = s.2.
Proof.
  revert s. change (quiet (Write data k)). unfold Write. destruct (_ || _); [quiet|].
  destruct (Update _ _) as [[|] sha]; quiet.
Qed.

Lemma abort_quiet b k (s : Renamed F) : (Abort b k s).2.2 = s.2.
Proof.
  revert s. change (quiet (Abort b k)). unfold Abort. apply quiet_bind; [destruct (open_ k); quiet|].
  intros k'. destruct (_ && _); quiet.
Qed.

#[export, refine] Instance renamed_writing : FatFsWriting (Renamed F) := {
  receiving x := receiving x.1;
  stored x := stored x.1;
}.
Proof.
  - intros path [s l]. cbn. unfold quietly. cbn. pose proof (open_new_law path s) as Hl. by destruct (f_open path WriteNew s) as [[r file] s'].
  - intros file d [s l] path c Hr. cbn in *. unfold quietly. cbn. pose proof (f_write_law file d s path c Hr) as Hl.
    by destruct (f_write file d s) as [[r n] s'].
  - intros file [s l] x Hr. cbn in *. unfold quietly. cbn. pose proof (f_sync_law file s x Hr) as Hl. by destruct (f_sync file s).
  - intros file [s l] path c Hr. cbn in *. unfold quietly. cbn. pose proof (f_close_law file s path c Hr) as Hl. by destruct (f_close file s).
  - intros path [s l] p. cbn. unfold quietly. cbn. pose proof (f_stat_law path s p) as Hl. by destruct (f_stat path s) as [[r i] s'].
  - intros p q [s l] c Hc. cbn in *. unfold quietly. cbn. pose proof (f_rename_law p q s c Hc) as Hl. by destruct (f_rename p q s).
Defined.
End writing.

Section sink.
Context {F : Type} `{FatFsWriting F}.

Lemma WriteAll_ok file data s path c : receiving s file = Some (path, c) ->
  let '(status, s') := WriteAll file data s in
  status = FatFsStorage.Ok -> receiving s' file = Some (path, c ++ data).
Proof.
  unfold WriteAll. assert (Hn : (length data <= length data)%nat) by done. revert Hn. generalize (length data) at 2 3.
  intros n. revert data c s. induction n as [|n IH]; intros [|b data] c s Hn Hr; cbn [write_loop];
    rewrite ?app_nil_r; try done; [cbn in Hn; lia|].
  set (d := b :: data) in *. set (limited := Z.min (len d) kMaximumFatFsIoBytes).
  assert (Hl : 0 < limited <= len d).
  { unfold limited, d, kMaximumFatFsIoBytes. rewrite len_cons. len_facts. lia. }
  pose proof (f_write_law file (take (Z.to_nat limited) d) s path c Hr) as Hw.
  destruct (f_write file (take (Z.to_nat limited) d) s) as [[r w] s1].
  case_bool_decide as Er; cbn [negb orb]; [|done]. destruct (Z.eqb_spec w limited) as [Ew|]; cbn [negb]; [|done].
  specialize (IH (drop (Z.to_nat limited) d) (c ++ take (Z.to_nat limited) d) s1).
  rewrite <- app_assoc, take_drop in IH. apply IH.
  - rewrite length_drop. change (length d) with (S (length data)) in *. cbn in Hn. lia.
  - apply Hw; [done|]. rewrite Ew. unfold len in *. rewrite length_take. lia.
Qed.

(** A sink that [Start] has opened. *)
Definition started (part final : bytes) (size : Z) (sha : bytes) (k : FatFsDownloadSink) : Prop :=
  open_ k = true /\ expected_size_ k = size /\ expected_sha256_ k = sha /\ part_path_ k = part /\ final_path_ k = final.

(** It has stored and hashed [content]. *)
Definition filled (k : FatFsDownloadSink) (s : F) (content : bytes) : Prop :=
  absorbed (streaming_sha256_ k) content /\ finalized_ (streaming_sha256_ k) = false /\
  total_bytes_ (streaming_sha256_ k) = len content /\ bytes_written_ k = len content /\
  len content <= expected_size_ k /\ receiving s (file_ k) = Some (part_path_ k, content).

Lemma Start_ok part final size sha k s k' s' : 0 <= size ->
  Start part final size sha k s = (FatFsStorage.Ok, k', s') -> started part final size sha k' /\ filled k' s' [].
Proof.
  intros Hsize. unfold Start, start_file. destruct (open_ k); [done|].
  destruct (ValidateFatFsAbsolutePath part); try done. destruct (ValidateFatFsAbsolutePath final); try done.
  destruct (_ || _); [done|]. destruct (_ <=? _); [done|]. cbn [final_path_ part_path_ sink_paths].
  destruct (FatFsStatPath final s) as [[st info] s1]. case_bool_decide; cbn [negb]; [|by intros [= ->]].
  destruct (exists_ info); [done|]. destruct (FatFsRemoveFileIfPresent part s1) as [st2 s2].
  case_bool_decide; cbn [negb]; [|by intros [= ->]]. destruct (EnsureParentDirectories part s2) as [st3 s3].
  case_bool_decide; cbn [negb]; [|by intros [= ->]]. pose proof (open_new_law part s3) as Ho.
  destruct (f_open part WriteNew s3) as [[r file] s4]. case_bool_decide as Er; cbn [negb]; [|done].
  intros [= <- <-]. split; [done|]. split; [apply absorbed_Reset|].
  split_and!; try done. by apply Ho.
Qed.

Lemma Write_started part final size sha data k s : started part final size sha k ->
  started part final size sha (Write data k s).1.2.
Proof.
  intros Hs. unfold Write. destruct (_ || _); [done|]. destruct (WriteAll (file_ k) data s) as [st s1].
  destruct (negb _); [done|]. destruct (Update (streaming_sha256_ k) data) as [h sha']. by destruct h.
Qed.

Lemma Write_filled data k s content k' s' : expected_size_ k <= UINT64_MAX -> filled k s content ->
  Write data k s = (true, k', s') -> filled k' s' (content ++ data).
Proof.
  intros Hmax (Ha & Hf & Ht & Hw & Hle & Hr). unfold Write. rewrite Hw. unfold UINT64_MAX in Hmax. len_facts.
  rewrite u64_small by lia. destruct (negb _); [done|]. cbn [orb].
  destruct (Z.ltb_spec (expected_size_ k - len content) (len data)) as [|Hd]; [done|].
  pose proof (WriteAll_ok (file_ k) data s _ _ Hr) as Hall. destruct (WriteAll (file_ k) data s) as [st s1].
  case_bool_decide as Est; cbn [negb]; [|done]. specialize (Hall Est).
  destruct (Update_absorbed _ _ data Ha Hf Ht) as (sha & -> & Ha' & Hf' & Ht'); [unfold UINT64_MAX; lia|].
  intros [= <- <-]. split; [done|]. split; [done|]. split; [done|]. cbn. rewrite len_app.
  rewrite u64_small by lia. split; [done|]. split; [lia | done].
Qed.
End sink.

(** A file has got its final name: it holds the content, of this size and digest. *)
Definition published {F} `{FatFsWriting F} (part final : bytes) (size : Z) (sha content : bytes) (entry : bytes * bytes * F) : Prop :=
  entry.1 = (part, final) /\ stored entry.2 part = Some content /\ len content = size /\ sha256_spec content = sha.

Section finish.
Context {F : Type} `{FatFsWriting F}.

Lemma publish_ok k (s : Renamed F) content : stored s (part_path_ k) = Some content ->
  let '(status, s') := publish k s in
  (s'.2 = s.2 /\ status <> FatFsStorage.Ok) \/
  (exists s0, s'.2 = s.2 ++ [(part_path_ k, final_path_ k, s0)] /\ stored s0 (part_path_ k) = Some content /\
     (status = FatFsStorage.Ok /\ stored s' (final_path_ k) = Some content \/ status = RenameFailed)).
Proof.
  intros Hc. unfold publish. pose proof (stat_quiet (final_path_ k) s) as Hq.
  assert (Hs : stored (FatFsStatPath (final_path_ k) s).2 (part_path_ k) = Some content).
  { rewrite <- Hc. unfold FatFsStatPath, StatValidated. destruct (ValidateFatFsAbsolutePath (final_path_ k)); try done.
    pose proof (f_stat_law (final_path_ k) s (part_path_ k)) as Hl.
    destruct (f_stat (final_path_ k) s) as [[r i] s1]. destruct (IsMissing r); [done|]. by case_bool_decide. }
  destruct (FatFsStatPath (final_path_ k) s) as [[st info] s1]. cbn [fst snd] in Hq, Hs.
  case_bool_decide; cbn [negb]; [|by left]. destruct (exists_ info); [by left|].
  pose proof (f_rename_law (part_path_ k) (final_path_ k) s1 content Hs) as Hr.
  cbn [f_rename renamed] in Hr |- *. destruct (f_rename (part_path_ k) (final_path_ k) s1.1) as [r s2].
  right. exists s1.1. cbn [snd]. rewrite Hq. split; [done|]. split; [done|]. case_bool_decide; [left; by split; [|apply Hr] | by right].
Qed.

Lemma Finish_published part final size sha k (s : Renamed F) content :
  started part final size sha k -> filled k s content -> size <= UINT64_MAX / 8 ->
  length sha = 32%nat -> Forall is_byte sha ->
  let '(status, k', s') := FinishStreamingVerified k s in
  (s'.2 = s.2 /\ status <> FatFsStorage.Ok) \/
  (exists entry, s'.2 = s.2 ++ [entry] /\ published part final size sha content entry /\
     (status = FatFsStorage.Ok /\ stored s' final = Some content \/ status = RenameFailed)).
Proof.
  intros (Ho & Hes & Hsha & Hp & Hf) (Ha & Hfin & Ht & Hw & Hle & Hr) Hsize Hl Hb.
  unfold FinishStreamingVerified. rewrite Ho, Hw. cbn [negb].
  destruct (Z.eqb_spec (len content) (expected_size_ k)) as [Esz|]; cbn [negb].
  2:{ pose proof (quiet_call (f_close (file_ k)) s) as Hq. cbn [f_close renamed]. destruct (quietly _ _). by left. }
  pose proof (Final_absorbed _ _ Ha Hfin Ht ltac:(lia)) as Hd.
  destruct (Final (streaming_sha256_ k)) as [digest sha']. cbn [fst] in Hd. subst digest.
  cbn [file_ sink_hash expected_sha256_ sink_closed].
  pose proof (f_sync_law (file_ k) s _ Hr) as Hsy. pose proof (quiet_call (f_sync (file_ k)) s) as Hq1.
  change (quietly (f_sync (file_ k)) s) with (f_sync (file_ k) s) in Hq1. destruct (f_sync (file_ k) s) as [synced s1].
  unfold CloseFile. pose proof (f_close_law (file_ k) s1 (part_path_ k) content) as Hcl.
  pose proof (quiet_call (f_close (file_ k)) s1) as Hq2. change (quietly (f_close (file_ k)) s1) with (f_close (file_ k) s1) in Hq2.
  destruct (f_close (file_ k) s1) as [closed s2]. cbn [snd] in *.
  set (k1 := sink_closed _). set (status := if bool_decide (synced = FR_OK) then _ else _).
  assert (Hquiet : forall st, st <> FatFsStorage.Ok -> (s2.2 = s.2 /\ st <> FatFsStorage.Ok) \/
    (exists entry, s2.2 = s.2 ++ [entry] /\ published part final size sha content entry /\
     (st = FatFsStorage.Ok /\ stored s2 final = Some content \/ st = RenameFailed))).
  { intros st Hst. left. by rewrite Hq2, Hq1. }
  case_bool_decide as Est; cbn [negb]; [|by apply Hquiet]. unfold status in Est.
  destruct (bool_decide (synced = FR_OK)) eqn:E1; [|discriminate Est]. apply bool_decide_eq_true in E1.
  destruct (bool_decide (closed = FR_OK)) eqn:E2; [|discriminate Est]. apply bool_decide_eq_true in E2.
  destruct (ConstantTimeDigestEqual (sha256_spec content) (expected_sha256_ k)) eqn:Ed; cbn [negb]; [|by apply Hquiet].
  rewrite Hsha in Ed. apply digests_equal in Ed; [|done..].
  pose proof (publish_ok k1 s2 content (Hcl (Hsy E1) E2)) as Hpub. cbn [k1 sink_closed part_path_ final_path_ sink_hash] in Hpub.
  destruct (publish k1 s2) as [st s3]. rewrite Hq2, Hq1, Hp, Hf in Hpub.
  destruct Hpub as [Hpub|(s0 & Hlog & Hs0 & Hpub)]; [by left|]. right. exists (part, final, s0).
  split; [done|]. split; [|done]. split; [done|]. split; [done|]. split; [lia | done].
Qed.
End finish.

(** *** A whole download *)
(** What the updater does with the sink: it stops at the first write that is refused. *)
Fixpoint write_chunks {F} `{FatFs F} (chunks : list bytes) (k : FatFsDownloadSink) (s : F) : bool * FatFsDownloadSink * F :=
  match chunks with
  | [] => (true, k, s)
  | d :: chunks' => let '(ok, k, s) := Write d k s in if (ok : bool) then write_chunks chunks' k s else (false, k, s)
  end.

Definition store_download {F} `{FatFs F} (part final : bytes) (size : Z) (sha : bytes) (chunks : list bytes) (s : F)
    : FatFsStorageStatus * F :=
  let '(status, k, s) := Start part final size sha new_sink s in
  if negb (bool_decide (status = FatFsStorage.Ok)) then (status, s)
  else
    let '(stored_all, k, s) := write_chunks chunks k s in
    if (stored_all : bool) then let '(status, _, s) := FinishStreamingVerified k s in (status, s)
    else let '(_, s) := Abort true k s in (WriteFailed, s).

Section download.
Context {F : Type} `{FatFsWriting F}.

Lemma write_chunks_ok part final size sha chunks : forall k (s : Renamed F) content,
  started part final size sha k -> filled k s content -> size <= UINT64_MAX ->
  let '(ok, k', s') := write_chunks chunks k s in
  s'.2 = s.2 /\ started part final size sha k' /\ (ok = true -> filled k' s' (content ++ concat chunks)).
Proof.
  induction chunks as [|d chunks IH]; intros k s content Hk Hf Hs; cbn [write_chunks concat].
  { rewrite app_nil_r. by split_and!. }
  pose proof (write_quiet d k s) as Hq. pose proof (Write_started _ _ _ _ d k s Hk) as Hk1.
  destruct (Write d k s) as [[ok k1] s1] eqn:Ew. cbn [fst snd] in *. destruct ok; [|by split_and!].
  apply Write_filled with (content := content) in Ew; [| destruct Hk as (_ & -> & _); done | done].
  specialize (IH k1 s1 _ Hk1 Ew Hs). destruct (write_chunks chunks k1 s1) as [[ok k2] s2].
  rewrite <- Hq, app_assoc. exact IH.
Qed.

(** C20. A download gets its final name only if it is the promised one: whatever the
    calls of the volume answer, and however the data is split, there is no renaming
    at all, or exactly one, of the temporary file to the final name, at a moment when
    it holds exactly the data written, all of it, of the expected size and SHA-256;
    the status is Ok only after a renaming that succeeded. *)
Theorem FatFsDownloadSink_publishes part final size sha chunks (s : Renamed F)
    (Hsize : 0 <= size <= UINT64_MAX / 8) (Hsha : length sha = 32%nat) (Hbytes : Forall is_byte sha) :
  let '(status, s') := store_download part final size sha chunks s in
  (s'.2 = s.2 /\ status <> FatFsStorage.Ok) \/
  (exists entry, s'.2 = s.2 ++ [entry] /\ published part final size sha (concat chunks) entry /\
     (status = FatFsStorage.Ok /\ stored s' final = Some (concat chunks) \/ status = RenameFailed)).
Proof.
  assert (Hmax : size <= UINT64_MAX). { change (UINT64_MAX / 8) with 2305843009213693951 in Hsize. unfold UINT64_MAX. lia. }
  unfold store_download. pose proof (start_quiet part final size sha new_sink s) as Hq.
  destruct (Start part final size sha new_sink s) as [[st k] s1] eqn:Es. cbn [snd] in Hq.
  case_bool_decide as Est; cbn [negb]; [subst st | by left]. apply Start_ok in Es as [Hk Hf]; [|lia].
  pose proof (write_chunks_ok _ _ _ _ chunks k s1 [] Hk Hf Hmax) as Hw.
  destruct (write_chunks chunks k s1) as [[ok k1] s2]. destruct Hw as (Hq2 & Hk1 & Hf1). destruct ok.
  - pose proof (Finish_published _ _ _ _ _ _ _ Hk1 (Hf1 eq_refl) (proj2 Hsize) Hsha Hbytes) as Hfin.
    destruct (FinishStreamingVerified k1 s2) as [[st k2] s3]. rewrite Hq2, Hq in Hfin. exact Hfin.
  - pose proof (abort_quiet true k1 s2) as Hq3. destruct (Abort true k1 s2) as [k2 s3].
    left. cbn [snd] in *. by rewrite Hq3, Hq2, Hq.
Qed.
End download.

(** ** A volume of one file, for the examples *)
(** File object 1 is open on the content when there is a position.  Every third call
    of [f_lseek] fails. *)
Record OneFile := mkOneFile { one_content : bytes; one_position : option Z; one_seeks : Z }.

#[export, refine] Instance one_file : FatFs OneFile := {
  f_stat _ s := (FR_OK, mkInfo false (len (one_content s)), s);
  f_mkdir _ s := (FR_EXIST, s);
  f_unlink _ s := (FR_OK, s);
  f_rename _ _ s := (FR_OK, s);
  f_open _ _ s := (FR_OK, 1, mkOneFile (one_content s) (Some 0) (one_seeks s));
  f_close _ s := (FR_OK, s);
  f_sync _ s := (FR_OK, s);
  f_write _ d s := (FR_OK, len d, s);
  f_read _ n s :=
    match one_position s with
    | Some p => let d := sub (one_content s) p n in
        (FR_OK, d, mkOneFile (one_content s) (Some (p + len d)) (one_seeks s))
    | None => (FR_ERROR 9, [], s)
    end;
  f_lseek _ offset s :=
    if one_seeks s mod 3 =? 2 then (FR_ERROR 1, mkOneFile (one_content s) (one_position s) (one_seeks s + 1))
    else (FR_OK, mkOneFile (one_content s) ((fun _ => offset) <$> one_position s) (one_seeks s + 1));
  f_tell _ s := default 0 (one_position s);
  f_size _ s := len (one_content s);
}.
Proof. Defined.

#[export, refine] Instance one_file_reading : FatFsReading OneFile := {
  opened s _ := (fun p => (one_content s, p)) <$> one_position s;
}.
Proof.
  - intros path s. cbn. by eexists.
  - intros file n s c p. cbn. destruct (one_position s); cbn; [|done]. intros [= <- <-] _. split; [by eexists | done].
  - intros file offset s c p. cbn. destruct (one_position s) eqn:Ep; cbn; [|done]. intros [= <- <-].
    destruct (_ =? _); cbn; rewrite ?Ep; by eexists.
  - intros file s c p. cbn. destruct (one_position s); cbn; [|done]. by intros [= _ <-].
  - intros file s c p. cbn. destruct (one_position s); cbn; [|done]. by intros [= <- _].
Defined.

Definition sample_reads : list (Z * Z) := [(0, 2); (2, 2); (1, 3); (1, 1); (5, 1); (4, 1); (4, 1)].
Definition sample_opened : FatFsStorageStatus * FatFsZipSource * OneFile :=
  Open (str "SYS:/BMX-UPD.ZIP") new_source (mkOneFile [10; 11; 12; 13; 14] None 0).

Example sample_reads_result : read_all 64 sample_reads sample_opened.1.2 sample_opened.2 =
  [Some [10; 11]; Some [12; 13]; Some [11; 12; 13]; Some [11]; None; None; Some [14]].
Proof. vm_compute. reflexivity. Qed.

Lemma FatFsZipSource_reads_witness :
  Forall2 (fun r d => forall data, d = Some data -> r.1 + r.2 <= 5 /\ data = sub [10; 11; 12; 13; 14] r.1 r.2)
    sample_reads (read_all 64 sample_reads sample_opened.1.2 sample_opened.2).
Proof.
  apply (FatFsZipSource_reads 64 (str "SYS:/BMX-UPD.ZIP") (mkOneFile [10; 11; 12; 13; 14] None 0)
    sample_opened.1.2 sample_opened.2 [10; 11; 12; 13; 14] sample_reads).
  - vm_compute. reflexivity.
  - intros c p. cbn. by intros [= <- _].
  - discriminate.
  - repeat constructor; discriminate.
Defined.

(** ** A volume that is written, for the examples *)
(** The files, the last written first, and the file that is open: its path and content. *)
Record Disk := mkDisk { disk_files : list (bytes * bytes); disk_open : option (bytes * bytes) }.

Definition disk_find (p : bytes) (s : Disk) : option bytes := snd <$> find (fun x => bytes_eqb x.1 p) (disk_files s).

#[export] Instance disk_fatfs : FatFs Disk := {
  f_stat p s := match disk_find p s with Some c => (FR_OK, mkInfo false (len c), s) | None => (FR_NO_FILE, mkInfo false 0, s) end;
  f_mkdir _ s := (FR_EXIST, s);
  f_unlink p s := (FR_OK, mkDisk (filter (fun x => x.1 <> p) (disk_files s)) (disk_open s));
  f_rename p q s :=
    match disk_find p s with
    | Some c => (FR_OK, mkDisk ((q, c) :: filter (fun x => x.1 <> p) (disk_files s)) (disk_open s))
    | None => (FR_NO_FILE, s)
    end;
  f_open p _ s := (FR_OK, 1, mkDisk (disk_files s) (Some (p, [])));
  f_close _ s :=
    match disk_open s with
    | Some (p, c) => (FR_OK, mkDisk ((p, c) :: disk_files s) None)
    | None => (FR_ERROR 9, s)
    end;
  f_sync _ s := (FR_OK, s);
  f_write _ d s := (FR_OK, len d, mkDisk (disk_files s) ((fun x => (x.1, x.2 ++ d)) <$> disk_open s));
  f_read _ _ s := (FR_ERROR 7, [], s);
  f_lseek _ _ s := (FR_ERROR 7, s);
  f_tell _ _ := 0;
  f_size _ s := 0;
}.

#[export, refine] Instance disk_writing : FatFsWriting Disk := { receiving s _ := disk_open s; stored s p := disk_find p s }.
Proof.
  - done.
  - intros file d s path c. cbn. by intros ->.
  - intros file s x. by cbn.
  - intros file s path c. cbn. intros ->. intros _. unfold disk_find. cbn. by rewrite (proj2 (bytes_eqb_eq path path)).
  - intros path s p. cbn. by destruct (disk_find path s).
  - intros p q s c. cbn. intros ->. intros _. unfold disk_find. cbn. by rewrite (proj2 (bytes_eqb_eq q q)).
Defined.

Definition sample_download : FatFsStorageStatus * Renamed Disk :=
  store_download (str "SYS:/A.ZIP.part") (str "SYS:/A.ZIP") 3 (sha256_spec (str "abc")) [str "ab"; []; str "c"] (mkDisk [] None, []).

Example sample_download_published :
  sample_download.1 = FatFsStorage.Ok /\ sample_download.2.1 = mkDisk [(str "SYS:/A.ZIP", str "abc")] None.
Proof. vm_compute. split; reflexivity. Qed.

Lemma FatFsDownloadSink_publishes_witness :
  let '(status, s') := sample_download in
  (s'.2 = [] /\ status <> FatFsStorage.Ok) \/
  (exists entry, s'.2 = [] ++ [entry] /\
     published (str "SYS:/A.ZIP.part") (str "SYS:/A.ZIP") 3 (sha256_spec (str "abc")) (concat [str "ab"; []; str "c"]) entry /\
     (status = FatFsStorage.Ok /\ stored s' (str "SYS:/A.ZIP") = Some (concat [str "ab"; []; str "c"]) \/ status = RenameFailed)).
Proof.
  apply (FatFsDownloadSink_publishes (str "SYS:/A.ZIP.part") (str "SYS:/A.ZIP") 3 (sha256_spec (str "abc"))
    [str "ab"; []; str "c"] (mkDisk [] None, [])).
  - split; [done|]. apply Z.leb_le. reflexivity.
  - apply (sha256_spec_digest (str "abc")).
  - apply (sha256_spec_digest (str "abc")).
Defined.
