(* ===== verification/ConfigSnapshot.v ===== *)
(** * The configuration files of the card (src/src/update/fatfs_config_snapshot.cpp)

    [Load] copies every configuration file of the volume into memory, at most 16 for
    an area and within the bounds of ConfigMigration.v, so that what is assessed
    cannot change meanwhile.  FatFs is the interface of FatFsStorage.v; directories
    and the heap are behind [ConfigVolume].

    The loop over the root directory has no bound of its own in the source: it takes
    [fuel], and [None] is the result when that runs out; a directory that ends never
    needs more than its entries. *)
From S2P Require Import Prelude UpdatePolicy FatPathPolicy BuildInfo ConfigMigration FatFsStorage FatFsSafety.
From Stdlib Require Import Ascii.
Local Open Scope Z_scope.

Definition kMaximumOwnedFiles : Z := 24.

Inductive FatFsConfigSnapshotStatus :=
| SnapshotOk | SnapshotInvalidArgument | TooManyFiles | PathInvalid | FileTooLarge | AreaTooLarge | AllocationFailed
| DirectoryReadFailed | SnapshotStatFailed | SnapshotOpenFailed | SnapshotReadFailed | SnapshotCloseFailed.
#[export] Instance FatFsConfigSnapshotStatus_eq_dec : EqDecision FatFsConfigSnapshotStatus.
Proof. solve_decision. Defined.

(** Directory objects are names; an entry is its name and whether it is a directory,
    and the empty name is the end.  [Allocate] is [new] of that many bytes. *)
Class ConfigVolume (F : Type) := {
  f_opendir : bytes -> F -> FRESULT * Z * F;
  f_readdir : Z -> F -> FRESULT * (bytes * bool) * F;
  f_closedir : Z -> F -> FRESULT * F;
  Allocate : Z -> F -> bool * F;
}.

(** ** Names *)
Definition isalnum (c : Z) : bool := is_lower c || is_upper c || is_digit c.

Definition ValidVolume (volume : bytes) : bool :=
  if (len volume <? 2) || (12 <? len volume) || negb (byte_at volume (len volume - 1) =? COLON) then false
  else forallb (fun c => isalnum c || (c =? ch "_"%char) || (c =? ch "-"%char)) (take (length volume - 1) volume).

Definition ValidSimpleName (name : bytes) : bool :=
  if (len name =? 0) || (kMaximumConfigPathBytes <? len name) then false
  else if forallb (fun c => negb ((c <? 0x20) || (0x7e <? c) || (c =? SLASH) || (c =? BACKSLASH) || (c =? COLON))) name
  then negb (bytes_eqb name (str ".")) && negb (bytes_eqb name (str ".."))
  else false.

(** The loop over the components; [component] is what is read of the current one. *)
Fixpoint path_components (component rest : bytes) : bool :=
  let bad := (len component =? 0) || bytes_eqb component (str ".") || bytes_eqb component (str "..") in
  match rest with
  | [] => negb bad
  | c :: rest' =>
      if c =? SLASH then if bad then false else path_components [] rest'
      else if (c <? 0x20) || (0x7e <? c) || (c =? BACKSLASH) || (c =? COLON) then false
      else path_components (component ++ [c]) rest'
  end.

Definition ValidRelativePath (path : bytes) : bool :=
  if (len path =? 0) || (kMaximumConfigPathBytes <? len path) || (byte_at path 0 =? SLASH) ||
     (byte_at path (len path - 1) =? SLASH)
  then false else path_components [] path.

Definition IsSettingsName (name : bytes) : bool :=
  let prefix := str "settings" in
  let suffix := str ".txt" in
  if negb (ValidSimpleName name) then false
  else if (len name <? len prefix + len suffix) || negb (starts_with prefix name) ||
          negb (bytes_eqb (sub name (len name - len suffix) (len suffix)) suffix)
  then false
  else forallb (fun c => is_lower c || is_upper c || is_digit c || (c =? ch "-"%char) || (c =? ch "_"%char))
         (sub name (len prefix) (len name - len suffix - len prefix)).

Definition AreaIndex (a : ConfigArea) : nat := Z.to_nat (area_id a - 1).

(** ** The object *)
(** A view of a file is its path and bytes, which do not change once they are owned. *)
Record FatFsConfigSnapshot := mkSnapshot {
  owned_ : list ConfigFileView;
  views_ : list (list ConfigFileView);
  snapshot_ : list ConfigAreaSnapshot;
}.

(** [Reset], which is also what the constructor leaves. *)
Definition Reset : FatFsConfigSnapshot := mkSnapshot [] (replicate 6 []) [].

Section volume.
Context {F : Type} `{FatFs F} `{ConfigVolume F}.

(** [size] bytes in requests of at most 16384; [None] if one fails. *)
Fixpoint chunk_loop (turns : nat) (file size : Z) (out : bytes) (s : F) : option bytes * F :=
  match turns with
  | O => (Some out, s)
  | S turns' =>
      if size <=? len out then (Some out, s)
      else
        let request := Z.min (size - len out) 16384 in
        let '(result, data, s) := f_read file request s in
        if negb (bool_decide (result = FR_OK)) || negb (len data =? request) then (None, s)
        else chunk_loop turns' file size (out ++ data) s
  end.
Definition read_chunks (file size : Z) (s : F) : option bytes * F :=
  chunk_loop (Z.to_nat (size / 16384 + 1)) file size [] s.

(** From the allocation on. *)
Definition read_file (relative_path absolute : bytes) (size : Z) (c : FatFsConfigSnapshot) (s : F)
    : FatFsConfigSnapshotStatus * option nat * FatFsConfigSnapshot * F :=
  let '(allocated, s) := Allocate (if size =? 0 then 1 else size) s in
  if negb allocated then (AllocationFailed, None, c, s)
  else
    let '(result, file, s) := f_open absolute ReadExisting s in
    if negb (bool_decide (result = FR_OK)) then (SnapshotOpenFailed, None, c, s)
    else
      let '(content, s) := read_chunks file size s in
      match content with
      | None => let '(_, s) := f_close file s in (SnapshotReadFailed, None, c, s)
      | Some content =>
          if negb (f_size file s =? size) then let '(_, s) := f_close file s in (SnapshotReadFailed, None, c, s)
          else
            let '(closed, s) := f_close file s in
            if negb (bool_decide (closed = FR_OK)) then (SnapshotCloseFailed, None, c, s)
            else
              let '(result, after, s) := f_stat absolute s in
              if negb (bool_decide (result = FR_OK)) || is_dir after || negb (fsize after =? size)
              then (SnapshotReadFailed, None, c, s)
              else
                (SnapshotOk, Some (length (owned_ c)),
                 mkSnapshot (owned_ c ++ [mkFile relative_path content]) (views_ c) (snapshot_ c), s)
      end.

(** The index of the file, or [None] if it is not there ([*present]). *)
Definition ReadOptional (volume relative_path : bytes) (c : FatFsConfigSnapshot) (s : F)
    : FatFsConfigSnapshotStatus * option nat * FatFsConfigSnapshot * F :=
  if negb (ValidVolume volume) || negb (ValidRelativePath relative_path) then (SnapshotInvalidArgument, None, c, s)
  else
    let absolute := volume ++ str "/" ++ relative_path in
    if kMaximumConfigPathBytes + 32 <=? len absolute then (PathInvalid, None, c, s)
    else
      let '(stat, info, s) := f_stat absolute s in
      if IsMissing stat then (SnapshotOk, None, c, s)
      else if negb (bool_decide (stat = FR_OK)) then (SnapshotStatFailed, None, c, s)
      else if is_dir info then (PathInvalid, None, c, s)
      else if kMaximumConfigFileBytes <? fsize info then (FileTooLarge, None, c, s)
      else if kMaximumOwnedFiles <=? len (owned_ c) then (TooManyFiles, None, c, s)
      else read_file relative_path absolute (fsize info) c s.

(** The sum over the views of the area, or [None] if it is too large. *)
Fixpoint aggregate_loop (aggregate : Z) (views : list ConfigFileView) : option Z :=
  match views with
  | [] => Some aggregate
  | v :: views' =>
      if kMaximumConfigAreaBytes - len (content v) <? aggregate then None
      else aggregate_loop (aggregate + len (content v)) views'
  end.

Definition AddView (a : ConfigArea) (owned_index : nat) (c : FatFsConfigSnapshot)
    : FatFsConfigSnapshotStatus * FatFsConfigSnapshot :=
  match owned_ c !! owned_index with
  | None => (SnapshotInvalidArgument, c)
  | Some file =>
      if negb (IsKnownConfigArea a) then (SnapshotInvalidArgument, c)
      else
        let views := default [] (views_ c !! AreaIndex a) in
        if kMaximumConfigFilesPerArea <=? len views then (TooManyFiles, c)
        else
          match aggregate_loop (len (content file)) views with
          | None => (AreaTooLarge, c)
          | Some _ =>
              (SnapshotOk, mkSnapshot (owned_ c) (<[AreaIndex a := views ++ [file]]> (views_ c)) (snapshot_ c))
          end
  end.

(** [ReadOptional], then [AddView] to every one of [as_] if the file is there. *)
Fixpoint add_views (as_ : list ConfigArea) (i : nat) (c : FatFsConfigSnapshot)
    : FatFsConfigSnapshotStatus * FatFsConfigSnapshot :=
  match as_ with
  | [] => (SnapshotOk, c)
  | a :: as' =>
      let '(status, c) := AddView a i c in
      if bool_decide (status = SnapshotOk) then add_views as' i c else (status, c)
  end.

Definition load_file (volume : bytes) (as_ : list ConfigArea) (required : bool) (path : bytes)
    (c : FatFsConfigSnapshot) (s : F) : FatFsConfigSnapshotStatus * FatFsConfigSnapshot * F :=
  let '(status, owned, c, s) := ReadOptional volume path c s in
  if negb (bool_decide (status = SnapshotOk)) then (status, c, s)
  else
    match owned with
    | None => (if (required : bool) then SnapshotStatFailed else SnapshotOk, c, s)
    | Some i => let '(status, c) := add_views as_ i c in (status, c, s)
    end.

(** The files of a list of areas and paths, up to the first failure. *)
Fixpoint load_files (volume : bytes) (required : bool) (l : list (list ConfigArea * bytes)) (c : FatFsConfigSnapshot) (s : F)
    : FatFsConfigSnapshotStatus * FatFsConfigSnapshot * F :=
  match l with
  | [] => (SnapshotOk, c, s)
  | (as_, path) :: l' =>
      let '(status, c, s) := load_file volume as_ required path c s in
      if bool_decide (status = SnapshotOk) then load_files volume required l' c s else (status, c, s)
  end.

Definition fixed_files : list (list ConfigArea * bytes) :=
  [([Machines], str "machines.ini"); ([Machines], str "machines.defaults.ini"); ([Machines], str "machines.local.ini");
   ([ConfigManagedBlock], str "config.txt"); ([UpdateState], str "BMX-BUILD.json")].
Definition cmdline_file : list ConfigArea * bytes := ([CmdlineManagedKeys; Network], str "cmdline.txt").

(** The names of the settings files in the directory, as they come. *)
Fixpoint directory_loop (fuel : nat) (directory : Z) (settings : list bytes) (s : F)
    : option (FatFsConfigSnapshotStatus * list bytes * F) :=
  match fuel with
  | O => None
  | S fuel' =>
      let '(read, (fname, is_directory), s) := f_readdir directory s in
      if negb (bool_decide (read = FR_OK)) then
        let '(_, s) := f_closedir directory s in Some (DirectoryReadFailed, settings, s)
      else if len fname =? 0 then Some (SnapshotOk, settings, s)
      else if is_directory || negb (IsSettingsName fname) then directory_loop fuel' directory settings s
      else if kMaximumConfigFilesPerArea <=? len settings then
        let '(_, s) := f_closedir directory s in Some (TooManyFiles, settings, s)
      else directory_loop fuel' directory (settings ++ [fname]) s
  end.

(** Insertion sort by [strcmp]; the sorted part is held backwards. *)
Fixpoint insert_name (value : bytes) (sorted_back : list bytes) : list bytes :=
  match sorted_back with
  | [] => [value]
  | last :: rest =>
      match strcmp last value with
      | Gt => last :: insert_name value rest
      | _ => value :: sorted_back
      end
  end.
Definition sort_names (l : list bytes) : list bytes := rev (fold_left (fun sorted v => insert_name v sorted) l []).

(** The settings files, from the opened directory on. *)
Definition load_settings (fuel : nat) (volume : bytes) (directory : Z) (c : FatFsConfigSnapshot) (s : F)
    : option (FatFsConfigSnapshotStatus * FatFsConfigSnapshot * F) :=
  match directory_loop fuel directory [] s with
  | None => None
  | Some (status, settings, s) =>
      if negb (bool_decide (status = SnapshotOk)) then Some (status, c, s)
      else
        let '(closed, s) := f_closedir directory s in
        if negb (bool_decide (closed = FR_OK)) then Some (DirectoryReadFailed, c, s)
        else Some (load_files volume true ((fun name => ([Settings], name)) <$> sort_names settings) c s)
  end.

Definition load_body (fuel : nat) (volume : bytes) (s : F) : option (FatFsConfigSnapshotStatus * FatFsConfigSnapshot * F) :=
  let '(status, c, s) := load_files volume false (fixed_files ++ [cmdline_file]) Reset s in
  if negb (bool_decide (status = SnapshotOk)) then Some (status, c, s)
  else
    let root := volume ++ str "/" in
    if 16 <=? len root then Some (PathInvalid, c, s)
    else
      let '(opened, directory, s) := f_opendir root s in
      if negb (bool_decide (opened = FR_OK)) then Some (DirectoryReadFailed, c, s)
      else load_settings fuel volume directory c s.

(** [Load]: every failure resets the object. *)
Definition Load (fuel : nat) (volume : bytes) (s : F) : option (FatFsConfigSnapshotStatus * FatFsConfigSnapshot * F) :=
  if negb (ValidVolume volume) then Some (SnapshotInvalidArgument, Reset, s)
  else
    match load_body fuel volume s with
    | None => None
    | Some (SnapshotOk, c, s) =>
        Some (SnapshotOk, mkSnapshot (owned_ c) (views_ c) (zip_with mkArea all_areas (views_ c)), s)
    | Some (status, _, s) => Some (status, Reset, s)
    end.
End volume.

Definition FatFsConfigSnapshotStatusString (status : FatFsConfigSnapshotStatus) : bytes :=
  match status with
  | SnapshotOk => str "ok"
  | SnapshotInvalidArgument => str "invalid argument"
  | TooManyFiles => str "too many config files"
  | PathInvalid => str "invalid config path"
  | FileTooLarge => str "config file too large"
  | AreaTooLarge => str "config area too large"
  | AllocationFailed => str "not enough memory"
  | DirectoryReadFailed => str "directory read failed"
  | SnapshotStatFailed => str "config stat failed"
  | SnapshotOpenFailed => str "config open failed"
  | SnapshotReadFailed => str "config read failed"
  | SnapshotCloseFailed => str "config close failed"
  end.

(** * What a snapshot holds *)
(** ** Names *)
Lemma component_loop_plain rest : forall current,
  forallb (fun c => negb ((c <? 0x20) || (0x7e <? c) || (c =? SLASH) || (c =? BACKSLASH) || (c =? COLON))) rest = true ->
  component_loop current rest =
  negb ((len (current ++ rest) =? 0) || bytes_eqb (current ++ rest) (str ".") || bytes_eqb (current ++ rest) (str "..")).
Proof.
  induction rest as [|c rest IH]; intros current Hall; cbn [component_loop]; [by rewrite app_nil_r|].
  cbn [forallb] in Hall. apply andb_true_iff in Hall as [Hc Hall]. apply negb_true_iff in Hc.
  apply orb_false_iff in Hc as [Hc _]. apply orb_false_iff in Hc as [Hc Hb]. apply orb_false_iff in Hc as [Hp Hs].
  change (ch "/"%char) with SLASH. rewrite Hs, Hp, Hb. cbn [orb]. rewrite IH by done. by rewrite <- app_assoc.
Qed.

Lemma settings_belong name : IsSettingsName name = true -> PathBelongsToArea Settings name = true.
Proof.
  unfold IsSettingsName, ValidSimpleName. destruct (Z.eqb_spec (len name) 0) as [|Hz]; [done|].
  destruct (Z.ltb_spec kMaximumConfigPathBytes (len name)) as [|Hl]; [done|]. cbn [orb].
  destruct (forallb _ name) eqn:Hall; [|done]. destruct (bytes_eqb name (str ".")) eqn:E1; [done|].
  destruct (bytes_eqb name (str "..")) eqn:E2; [done|]. cbn [negb andb]. intros Hs.
  unfold PathBelongsToArea, IsSafeRelativePath, BoundedStringLength. rewrite Z.min_l by lia.
  rewrite (proj2 (Z.eqb_neq _ 0)) by done. rewrite (proj2 (Z.ltb_ge _ _)) by lia. cbn [orb].
  assert (Hno : forall i, 0 <= i < len name -> byte_at name i =? ch "/"%char = false).
  { intros i Hi. rewrite forallb_forall in Hall. specialize (Hall (byte_at name i)).
    apply Z.eqb_neq. intros He. rewrite He in Hall.
    assert (Hin : In (ch "/"%char) name); [|by specialize (Hall Hin)].
    rewrite <- He. unfold byte_at, len in *. apply nth_In. lia. }
  len_facts. rewrite !Hno by lia. cbn [orb]. rewrite component_loop_plain by done. cbn [app].
  rewrite (proj2 (Z.eqb_neq _ 0)) by done. rewrite E1, E2. cbn [negb orb]. exact Hs.
Qed.

Lemma insert_name_perm v l : insert_name v l ≡ₚ v :: l.
Proof.
  induction l as [|w l IH]; cbn [insert_name]; [done|]. destruct (strcmp w v); try done.
  rewrite IH. apply Permutation_swap.
Qed.

Lemma sort_names_perm l : sort_names l ≡ₚ l.
Proof.
  unfold sort_names. rewrite <- Permutation_rev.
  assert (Hg : forall acc, fold_left (fun sorted v => insert_name v sorted) l acc ≡ₚ acc ++ l).
  { induction l as [|v l IH]; intros acc; cbn [fold_left]; [by rewrite app_nil_r|].
    rewrite IH, insert_name_perm. cbn. apply Permutation_middle. }
  apply Hg.
Qed.

(** ** Directories that end *)
(** [unread] is what a directory object has not delivered yet, at most [entries]
    entries with names. *)
Class FiniteDirectories (F : Type) `{ConfigVolume F} (entries : nat) := {
  unread : F -> Z -> option (list (bytes * bool));
  finite_opendir path s : let '(r, d, s') := f_opendir path s in
    r = FR_OK -> exists l, unread s' d = Some l /\ (length l <= entries)%nat /\ Forall (fun e => e.1 <> []) l;
  finite_readdir d s l : unread s d = Some l ->
    let '(r, e, s') := f_readdir d s in
    r = FR_OK -> match l with [] => e.1 = [] | e' :: l' => e = e' /\ unread s' d = Some l' end;
}.

Section directory.
Context {F : Type} `{FatFs F} `{FiniteDirectories F entries}.

Definition is_settings (e : bytes * bool) : bool := negb e.2 && IsSettingsName e.1.

Lemma directory_loop_ok directory l : Forall (fun e => e.1 <> []) l -> forall fuel settings s,
  unread s directory = Some l -> (length l < fuel)%nat ->
  exists status settings' s', directory_loop fuel directory settings s = Some (status, settings', s') /\
    (status = SnapshotOk -> settings' = settings ++ (fst <$> List.filter is_settings l)).
Proof.
  induction l as [|e l IH]; intros Hne [|fuel] settings s Hun Hf; try (cbn in Hf; lia); cbn [directory_loop].
  - pose proof (finite_readdir directory s [] Hun) as Hr. destruct (f_readdir directory s) as [[r [n b]] s1].
    case_bool_decide as Er; cbn [negb].
    + specialize (Hr Er). cbn in Hr. subst n. cbn [len length]. eexists _, _, _. split; [done|]. intros _.
      cbn. by rewrite app_nil_r.
    + destruct (f_closedir directory s1). by eexists _, _, _.
  - apply Forall_cons in Hne as [Hn Hne].
    pose proof (finite_readdir directory s _ Hun) as Hr. destruct (f_readdir directory s) as [[r [n b]] s1].
    case_bool_decide as Er; cbn [negb].
    2:{ destruct (f_closedir directory s1). by eexists _, _, _. }
    destruct (Hr Er) as [<- Hun1]. cbn [fst] in Hn. cbn in Hf.
    destruct (Z.eqb_spec (len n) 0) as [E0|_].
    { destruct n; [done|]. rewrite len_cons in E0. len_facts. lia. }
    cbn [List.filter]. unfold is_settings at 1. cbn [fst snd]. destruct b; cbn [negb orb andb].
    { apply IH; [done | done | lia]. }
    destruct (IsSettingsName n); cbn [negb]; [|apply IH; [done | done | lia]].
    destruct (_ <=? _); [destruct (f_closedir directory s1); by eexists _, _, _|].
    destruct (IH Hne fuel (settings ++ [n]) s1 Hun1 ltac:(lia)) as (st & out & s2 & -> & Hout).
    eexists _, _, _. split; [done|]. intros Hst. rewrite (Hout Hst), <- app_assoc. done.
Qed.

(** [Load] always returns. *)
Lemma Load_returns fuel volume s : (entries < fuel)%nat ->
  exists status c s', Load fuel volume s = Some (status, c, s') /\ (status <> SnapshotOk -> c = Reset).
Proof.
  intros Hfuel. unfold Load. destruct (negb (ValidVolume volume)); [by eexists _, _, _|].
  assert (Hb : exists x, load_body fuel volume s = Some x).
  { unfold load_body. destruct (load_files _ _ _ _ _) as [[st c] s1]. case_bool_decide; cbn [negb]; [|by eexists].
    destruct (_ <=? _); [by eexists|]. pose proof (finite_opendir (volume ++ str "/") s1) as Hd.
    destruct (f_opendir (volume ++ str "/") s1) as [[r d] s2]. case_bool_decide as Er; cbn [negb]; [|by eexists].
    destruct (Hd Er) as (l & Hun & Hl & Hn). unfold load_settings.
    destruct (directory_loop_ok d l Hn fuel [] s2 Hun ltac:(lia)) as (st2 & names & s3 & -> & _).
    destruct (negb _); [by eexists|]. destruct (f_closedir d s3) as [rc s4]. destruct (negb _); by eexists. }
  destruct Hb as [[[st c] s'] ->]. destruct st; by eexists _, _, _.
Qed.
End directory.

(** ** A volume that does not change *)
(** [tree] is what a path leads to: nothing, a directory or a file with its content;
    [listing] the entries of a directory.  [opened] is as in FatFsSafety.v. *)
Class StaticVolume (F : Type) `{FatFsReading F} `{FiniteDirectories F entries} (tree : bytes -> option (option bytes))
    (listing : bytes -> list (bytes * bool)) := {
  static_stat path s : let '(r, i, s') := f_stat path s in
    (IsMissing r = true -> tree path = None) /\
    (r = FR_OK -> if is_dir i then tree path = Some None else exists c, tree path = Some (Some c) /\ fsize i = len c);
  static_open path s : let '(r, file, s') := f_open path ReadExisting s in
    r = FR_OK -> exists c, tree path = Some (Some c) /\ opened s' file = Some (c, 0);
  static_opendir path s : let '(r, d, s') := f_opendir path s in r = FR_OK -> unread s' d = Some (listing path);
}.

Section load.
Context {F : Type} `{Hvolume : StaticVolume F entries tree listing}.
Variable volume : bytes.

Definition absolute (path : bytes) : bytes := volume ++ str "/" ++ path.
(** The file of that name on the volume. *)
Definition present (path : bytes) : list ConfigFileView :=
  match tree (absolute path) with Some (Some c) => [mkFile path c] | _ => [] end.

Definition settings_names : list bytes :=
  sort_names (fst <$> List.filter is_settings (listing (volume ++ str "/"))).

(** The names of the files of an area. *)
Definition area_names (a : ConfigArea) : list bytes :=
  match a with
  | Machines => [str "machines.ini"; str "machines.defaults.ini"; str "machines.local.ini"]
  | ConfigManagedBlock => [str "config.txt"]
  | CmdlineManagedKeys | Network => [str "cmdline.txt"]
  | Settings => settings_names
  | UpdateState => [str "BMX-BUILD.json"]
  | ConfigAreaUnknown => []
  end.

(** The snapshot of the volume: of every area, the files there are. *)
Definition volume_snapshot : list ConfigAreaSnapshot :=
  (fun a => mkArea a (concat (present <$> area_names a))) <$> all_areas.

(** *** Reading one file *)
Lemma chunk_loop_ok turns file c : forall out s, opened s file = Some (c, len out) ->
  len out <= len c <= len out + 16384 * Z.of_nat turns ->
  forall d s', chunk_loop turns file (len c) out s = (Some d, s') -> d = out ++ drop (length out) c.
Proof.
  induction turns as [|turns IH]; intros out s Ho Hl d s'; cbn [chunk_loop].
  { intros [= <- _]. rewrite drop_ge by (unfold len in Hl; lia). by rewrite app_nil_r. }
  destruct (Z.leb_spec (len c) (len out)).
  { intros [= <- _]. rewrite drop_ge by (unfold len in *; lia). by rewrite app_nil_r. }
  set (n := Z.min (len c - len out) 16384). pose proof (f_read_law file n s c (len out) Ho ltac:(lia)) as Hr.
  destruct (f_read file n s) as [[r data] s1]. destruct Hr as [_ Hr]. case_bool_decide as Er; cbn [negb orb]; [|done].
  destruct (Z.eqb_spec (len data) n) as [En|]; cbn [negb]; [|done]. destruct (Hr Er) as [Hd Ho1]. intros Hrun.
  eapply IH in Hrun; [|rewrite len_app; exact Ho1|rewrite len_app; lia]. rewrite Hrun, <- app_assoc. f_equal.
  assert (Hdata : data = take (length data) (drop (length out) c)).
  { rewrite Hd at 1. unfold sub, len in *. f_equal; [lia|]. f_equal. lia. }
  rewrite length_app, <- drop_drop. rewrite Hdata at 1. apply take_drop.
Qed.

Lemma read_chunks_ok file c s d s' : opened s file = Some (c, 0) -> read_chunks file (len c) s = (Some d, s') -> d = c.
Proof.
  intros Ho Hr. eapply (chunk_loop_ok _ _ _ []) in Hr; [exact Hr | done |]. len_facts.
  pose proof (Z.mod_pos_bound (len c) 16384 ltac:(done)). pose proof (Z.div_mod (len c) 16384 ltac:(done)).
  pose proof (Z.div_pos (len c) 16384 ltac:(lia) ltac:(done)). change (len (@nil Z)) with 0. lia.
Qed.

Definition small (f : ConfigFileView) : Prop := len (content f) <= kMaximumConfigFileBytes.

Lemma ReadOptional_ok path c s owned c' s' : ReadOptional volume path c s = (SnapshotOk, owned, c', s') ->
  match owned with
  | None => present path = [] /\ c' = c
  | Some i => exists f, present path = [f] /\ small f /\ owned_ c' !! i = Some f /\ views_ c' = views_ c
  end.
Proof.
  unfold ReadOptional, read_file. destruct (_ || _); [done|]. fold (absolute path). destruct (_ <=? _); [done|].
  pose proof (static_stat (absolute path) s) as Hst. destruct (f_stat (absolute path) s) as [[r info] s1].
  destruct Hst as [Hmiss Hfound]. unfold present. destruct (IsMissing r).
  { intros [= <- <- _]. by rewrite Hmiss. }
  case_bool_decide as Er; cbn [negb]; [|done]. specialize (Hfound Er). destruct (is_dir info); [done|].
  destruct Hfound as (content0 & Ht & Hsize). rewrite Ht, Hsize.
  destruct (Z.ltb_spec kMaximumConfigFileBytes (len content0)) as [|Hsmall]; [done|]. destruct (_ <=? _); [done|].
  destruct (Allocate _ s1) as [[|] s2]; cbn [negb]; [|done].
  pose proof (static_open (absolute path) s2) as Hop. destruct (f_open (absolute path) ReadExisting s2) as [[ro file] s3].
  case_bool_decide as Eo; cbn [negb]; [|done]. destruct (Hop Eo) as (c1 & Ht1 & Ho).
  rewrite Ht in Ht1. injection Ht1 as <-. destruct (read_chunks file (len content0) s3) as [[data|] s4] eqn:Ed.
  2:{ by destruct (f_close file s4). }
  eapply read_chunks_ok in Ed; [|exact Ho]. subst data.
  destruct (negb (f_size file s4 =? len content0)); [by destruct (f_close file s4)|].
  destruct (f_close file s4) as [rc s5]. destruct (negb _); [done|]. destruct (f_stat (absolute path) s5) as [[ra after] s6].
  destruct (_ || _ || _); [done|]. intros [= <- <- _]. eexists. split; [done|]. split; [exact Hsmall|].
  cbn [owned_ views_]. split; [|done]. by apply list_lookup_middle.
Qed.

(** *** The views *)
Definition bounded (fs : list ConfigFileView) : Prop :=
  len fs <= kMaximumConfigFilesPerArea /\ Forall small fs /\ len (concat (content <$> fs)) <= kMaximumConfigAreaBytes.

Definition good_views (vs : list (list ConfigFileView)) : Prop := length vs = 6%nat /\ Forall bounded vs.

Lemma aggregate_loop_ok views : forall n m, aggregate_loop n views = Some m ->
  m = n + len (concat (content <$> views)) /\ (views <> [] -> m <= kMaximumConfigAreaBytes).
Proof.
  induction views as [|v views IH]; intros n m; cbn [aggregate_loop].
  { intros [= ->]. cbn. change (len (@nil Z)) with 0. split; [lia | done]. }
  destruct (Z.ltb_spec (kMaximumConfigAreaBytes - len (content v)) n) as [|Hle]; [done|]. intros Hm.
  destruct (IH _ _ Hm) as [-> Hb]. cbn [fmap list_fmap concat]. rewrite len_app. split; [lia|]. intros _.
  destruct views as [|w views]; [cbn; change (len (@nil Z)) with 0; lia | by apply Hb].
Qed.

Definition put (vs : list (list ConfigFileView)) (x : list ConfigFileView) (a : ConfigArea) : list (list ConfigFileView) :=
  <[AreaIndex a := default [] (vs !! AreaIndex a) ++ x]> vs.

Lemma put_nothing vs a : length vs = 6%nat -> a ∈ all_areas -> put vs [] a = vs.
Proof.
  intros Hl Ha. unfold put. rewrite app_nil_r. apply list_insert_id.
  destruct (lookup_lt_is_Some_2 vs (AreaIndex a)) as [x Hx]; [|by rewrite Hx].
  rewrite Hl. unfold all_areas in Ha. set_unfold. destruct_or! Ha; subst a; by apply Nat.ltb_lt.
Qed.

Lemma AddView_ok a i c c' f : good_views (views_ c) -> owned_ c !! i = Some f -> small f ->
  AddView a i c = (SnapshotOk, c') -> owned_ c' = owned_ c /\ views_ c' = put (views_ c) [f] a /\ good_views (views_ c').
Proof.
  intros [Hl Hb] Hi Hf. unfold AddView. rewrite Hi. destruct (negb _); [done|].
  destruct (Z.leb_spec kMaximumConfigFilesPerArea (len (default [] (views_ c !! AreaIndex a)))) as [|Hc]; [done|].
  destruct (aggregate_loop _ _) as [n|] eqn:Ea; [|done]. intros [= <-]. split; [done|]. split; [done|].
  cbn [views_]. split; [by rewrite length_insert|]. apply Forall_insert; [done|].
  apply aggregate_loop_ok in Ea as [-> Hn]. set (views := default [] (views_ c !! AreaIndex a)) in *.
  assert (Hviews : bounded views).
  { unfold views. destruct (views_ c !! AreaIndex a) as [v|] eqn:Ev; [by eapply Forall_lookup_1|]. cbn. by repeat split. }
  destruct Hviews as (_ & Hs & _). split; [rewrite len_app; change (len [f]) with 1; lia|].
  split; [apply Forall_app; by split; [|constructor]|].
  rewrite fmap_app, concat_app, len_app. cbn [fmap list_fmap concat]. rewrite app_nil_r.
  destruct views as [|v views]; [|specialize (Hn ltac:(done)); lia].
  cbn. change (len (@nil Z)) with 0. unfold small, kMaximumConfigFileBytes, kMaximumConfigAreaBytes in *. lia.
Qed.

Lemma add_views_ok as_ : forall i c c' f, good_views (views_ c) -> owned_ c !! i = Some f -> small f ->
  add_views as_ i c = (SnapshotOk, c') -> views_ c' = fold_left (fun vs a => put vs [f] a) as_ (views_ c) /\ good_views (views_ c').
Proof.
  induction as_ as [|a as_ IH]; intros i c c' f Hg Hi Hf; cbn [add_views fold_left]; [by intros [= <-]|].
  destruct (AddView a i c) as [st c1] eqn:Ea. case_bool_decide as Est; [subst st | by intros [= -> _]].
  destruct (AddView_ok _ _ _ _ _ Hg Hi Hf Ea) as (Ho & Hv & Hg1). rewrite <- Hv. intros Hrun.
  eapply IH; [done | by rewrite Ho | done | done].
Qed.

Lemma load_file_ok as_ required path c s c' s' : good_views (views_ c) -> Forall (fun a => a ∈ all_areas) as_ ->
  load_file volume as_ required path c s = (SnapshotOk, c', s') ->
  views_ c' = fold_left (fun vs a => put vs (present path) a) as_ (views_ c) /\ good_views (views_ c').
Proof.
  intros Hg Has. unfold load_file. destruct (ReadOptional volume path c s) as [[[st owned] c1] s1] eqn:Er.
  case_bool_decide as Est; cbn [negb]; [subst st | by intros [= -> _ _]].
  apply ReadOptional_ok in Er. destruct owned as [i|].
  - destruct Er as (f & Hp & Hf & Hi & Hv). destruct (add_views as_ i c1) as [st2 c2] eqn:Ea.
    intros [= -> -> _]. rewrite Hp. rewrite <- Hv in *. by eapply add_views_ok.
  - destruct Er as [Hp ->]. intros Hrun. assert (c' = c) as -> by (destruct required; congruence). split; [|done].
    rewrite Hp. clear Hrun. destruct Hg as [Hl _]. generalize dependent (views_ c). intros vs Hl.
    induction Has as [|a as_ Ha Has IH]; cbn [fold_left]; [done|]. by rewrite put_nothing.
Qed.

Lemma load_files_ok required l : forall c s c' s', good_views (views_ c) ->
  Forall (fun x => Forall (fun a => a ∈ all_areas) x.1) l ->
  load_files volume required l c s = (SnapshotOk, c', s') ->
  views_ c' = fold_left (fun vs x => fold_left (fun vs a => put vs (present x.2) a) x.1 vs) l (views_ c) /\
  good_views (views_ c').
Proof.
  induction l as [|[as_ path] l IH]; intros c s c' s' Hg Hl; cbn [load_files fold_left]; [by intros [= <- _]|].
  apply Forall_cons in Hl as [Ha Hl]. cbn [fst] in Ha. destruct (load_file volume as_ required path c s) as [[st c1] s1] eqn:E1.
  case_bool_decide as Est; [subst st | by intros [= -> _ _]].
  destruct (load_file_ok _ _ _ _ _ _ _ Hg Ha E1) as [Hv Hg1]. cbn [fst snd]. rewrite <- Hv. by apply IH.
Qed.

(** *** The whole volume *)
Lemma put_settings names : forall m b c n s u,
  fold_left (fun vs x => fold_left (fun vs a => put vs (present x.2) a) x.1 vs)
    ((fun name => ([Settings], name)) <$> names) [m; b; c; n; s; u] = [m; b; c; n; s ++ concat (present <$> names); u].
Proof.
  induction names as [|name names IH]; intros m b c n s u; cbn; [by rewrite app_nil_r|].
  change (put [m; b; c; n; s; u] (present name) Settings) with [m; b; c; n; s ++ present name; u].
  rewrite IH. by rewrite <- app_assoc.
Qed.

Lemma put_fixed :
  fold_left (fun vs x => fold_left (fun vs a => put vs (present x.2) a) x.1 vs) (fixed_files ++ [cmdline_file]) (views_ Reset) =
  [(present (str "machines.ini") ++ present (str "machines.defaults.ini")) ++ present (str "machines.local.ini");
   present (str "config.txt"); present (str "cmdline.txt"); present (str "cmdline.txt"); []; present (str "BMX-BUILD.json")].
Proof. reflexivity. Qed.

Lemma load_body_ok fuel s : (entries < fuel)%nat ->
  exists status c s', load_body fuel volume s = Some (status, c, s') /\
    (status = SnapshotOk -> views_ c = files <$> volume_snapshot /\ good_views (views_ c)).
Proof.
  intros Hfuel. unfold load_body.
  assert (Hg0 : good_views (views_ Reset)).
  { split; [done|]. cbn. repeat constructor; done. }
  destruct (load_files volume false (fixed_files ++ [cmdline_file]) Reset s) as [[st c] s1] eqn:E1.
  case_bool_decide as Est; cbn [negb]; [subst st | by eexists _, _, _].
  apply load_files_ok in E1 as [Hv Hg]; [|done|].
  2:{ cbn. repeat (apply Forall_cons; split; [repeat (apply Forall_cons; split; [unfold all_areas; set_solver|]); by apply Forall_nil|]). by apply Forall_nil. }
  destruct (_ <=? _); [by eexists _, _, _|].
  pose proof (static_opendir (volume ++ str "/") s1) as Hd. pose proof (finite_opendir (volume ++ str "/") s1) as Hfin. destruct (f_opendir (volume ++ str "/") s1) as [[r d] s2].
  case_bool_decide as Er; cbn [negb]; [|by eexists _, _, _].
  unfold load_settings.
  destruct (Hfin Er) as (l & Hun & Hl & Hne). specialize (Hd Er). rewrite Hun in Hd. injection Hd as ->.
  destruct (directory_loop_ok d _ Hne fuel [] s2 Hun ltac:(lia)) as (st & names & s3 & -> & Hn).
  case_bool_decide as Est; cbn [negb]; [subst st | by eexists _, _, _].
  rewrite (Hn eq_refl). cbn [app]. fold settings_names. destruct (f_closedir d s3) as [rc s4].
  destruct (negb _); [by eexists _, _, _|].
  destruct (load_files volume true _ c s4) as [[st c2] s5] eqn:E2. eexists _, _, _. split; [done|]. intros ->.
  apply load_files_ok in E2 as [Hv2 Hg2]; [|done|].
  2:{ apply Forall_fmap, Forall_forall. intros n _. cbn. apply Forall_cons. split; [unfold all_areas; set_solver|]. by apply Forall_nil. }
  split; [|done]. rewrite Hv2, Hv, put_fixed, put_settings. cbn [volume_snapshot all_areas area_names fmap list_fmap files app concat].
  by rewrite !app_nil_r, <- app_assoc.
Qed.

(** *** The whole snapshot *)
Lemma present_path p f : f ∈ present p -> path f = p.
Proof. unfold present. destruct (tree (absolute p)) as [[c|]|]; set_solver. Qed.

Lemma presents_path names f : f ∈ concat (present <$> names) -> path f ∈ names.
Proof.
  induction names as [|p names IH]; cbn [fmap list_fmap concat]; [by intros Hf%elem_of_nil|].
  intros [Hf%present_path|Hf]%elem_of_app; apply elem_of_cons; auto.
Qed.

Lemma presents_distinct names : NoDup names -> NoDup (path <$> concat (present <$> names)).
Proof.
  induction 1 as [|p names Hp Hnd IH]; cbn [fmap list_fmap concat]; [constructor|].
  rewrite fmap_app. apply NoDup_app. split; [|split; [|exact IH]].
  - unfold present. destruct (tree (absolute p)) as [[c|]|]; repeat constructor; set_solver.
  - intros q (f & -> & Hf%present_path)%list_elem_of_fmap (g & Hg & Hin%presents_path)%list_elem_of_fmap. congruence.
Qed.

Lemma area_names_belong a : Forall (fun p => PathBelongsToArea a p = true) (area_names a).
Proof.
  assert (Hs : Forall (fun p => PathBelongsToArea Settings p = true) settings_names).
  { unfold settings_names. rewrite sort_names_perm. apply Forall_fmap, Forall_forall.
    intros e [_ He]%list_elem_of_In%filter_In. apply andb_true_iff in He as [_ He]. by apply settings_belong. }
  destruct a; try exact Hs; repeat constructor.
Qed.

Hypothesis distinct_entries : NoDup (fst <$> listing (volume ++ str "/")).

Lemma area_names_distinct a : NoDup (area_names a).
Proof.
  assert (Hs : NoDup settings_names).
  { unfold settings_names. rewrite sort_names_perm. revert distinct_entries.
    generalize (listing (volume ++ str "/")). intros l. induction l as [|e l IH]; [constructor|].
    cbn [fmap list_fmap]. rewrite NoDup_cons. cbn [List.filter]. intros [Hn Hl]. destruct (is_settings e); [|by apply IH].
    cbn [fmap list_fmap]. apply NoDup_cons. split; [|by apply IH].
    intros (e' & He & [Hin _]%list_elem_of_In%filter_In)%list_elem_of_fmap. apply list_elem_of_In in Hin. apply Hn. rewrite He. by apply list_elem_of_fmap_2. }
  destruct a; try exact Hs; apply (bool_decide_unpack _); reflexivity.
Qed.

Lemma volume_snapshot_full : Forall bounded (files <$> volume_snapshot) -> ValidateFullSnapshot volume_snapshot = true.
Proof.
  intros Hb. assert (Hshape : forall a, a ∈ all_areas -> ValidateAreaSnapshotShape (mkArea a (concat (present <$> area_names a))) = true).
  { intros a Ha. apply ValidateAreaSnapshotShape_spec.
    assert (Hba : bounded (concat (present <$> area_names a))).
    { rewrite Forall_forall in Hb. apply Hb. unfold volume_snapshot. rewrite <- list_fmap_compose.
      by apply (list_elem_of_fmap_2 (files ∘ (fun a => mkArea a (concat (present <$> area_names a))))). }
    destruct Hba as (B1 & B2 & B3). constructor; cbn [area files]; [by apply known_area_iff | exact B1 | | exact B2 | exact B3 |].
    - apply Forall_forall. intros f Hf%presents_path. pose proof (area_names_belong a) as Hn. rewrite Forall_forall in Hn. by apply Hn.
    - apply presents_distinct, area_names_distinct. }
  unfold all_areas in Hshape. unfold ValidateFullSnapshot, volume_snapshot, all_areas. cbn [fmap list_fmap full_loop area].
  by rewrite !Hshape by set_solver.
Qed.

(** C21. Nothing of the configuration is overlooked: [Load] always returns, and Ok
    means that the snapshot has, for every area, exactly the files that the volume
    has for it, each with its whole content, within the limits, so that the
    assessment accepts it; with any other answer nothing is kept. *)
Theorem Load_complete fuel s (Hfuel : (entries < fuel)%nat) :
  exists status c s', Load fuel volume s = Some (status, c, s') /\
    (status = SnapshotOk -> snapshot_ c = volume_snapshot /\ ValidateFullSnapshot (snapshot_ c) = true) /\
    (status <> SnapshotOk -> c = Reset).
Proof.
  unfold Load. destruct (negb (ValidVolume volume)); [by eexists _, _, _|].
  destruct (load_body_ok fuel s Hfuel) as (st & c & s' & -> & Hok). destruct st; try (by eexists _, _, _).
  destruct (Hok eq_refl) as [Hv [_ Hb]]. eexists _, _, _. split; [done|]. split; [|done]. intros _.
  cbn [snapshot_]. rewrite Hv in *. split; [done|]. by apply volume_snapshot_full.
Qed.
End load.

(** ** A small card *)
Definition card_files : list (bytes * bytes) :=
  [(str "SYS:/cmdline.txt", str "bmx_network=1"); (str "SYS:/settings.txt", str "a=1"); (str "SYS:/settings-2.txt", str "b=2")].
Definition card_entries : list (bytes * bool) :=
  [(str "settings.txt", false); (str "C64", true); (str "settings-2.txt", false); (str "cmdline.txt", false)].

Definition card_file (p : bytes) : option bytes := snd <$> find (fun x => bytes_eqb x.1 p) card_files.
#[local] Arguments card_file : simpl never.
Definition card_tree (p : bytes) : option (option bytes) := Some <$> card_file p.
Definition card_listing (p : bytes) : list (bytes * bool) := if bytes_eqb p (str "SYS:/") then card_entries else [].

(** The file object that is open, and the directory object. *)
Record Card := mkCard { card_open : option (bytes * Z); card_left : option (list (bytes * bool)) }.

#[export] Instance card_fatfs : FatFs Card := {
  f_stat p s := match card_file p with Some c => (FR_OK, mkInfo false (len c), s) | None => (FR_NO_FILE, mkInfo false 0, s) end;
  f_mkdir _ s := (FR_EXIST, s);
  f_unlink _ s := (FR_ERROR 10, s);
  f_rename _ _ s := (FR_ERROR 10, s);
  f_open p _ s := match card_file p with Some c => (FR_OK, 1, mkCard (Some (c, 0)) (card_left s)) | None => (FR_NO_FILE, 0, s) end;
  f_close _ s := (FR_OK, s);
  f_sync _ s := (FR_OK, s);
  f_write _ _ s := (FR_ERROR 10, 0, s);
  f_read _ n s :=
    match card_open s with
    | Some (c, p) => let d := sub c p n in (FR_OK, d, mkCard (Some (c, p + len d)) (card_left s))
    | None => (FR_ERROR 9, [], s)
    end;
  f_lseek _ offset s := (FR_OK, mkCard ((fun x => (x.1, offset)) <$> card_open s) (card_left s));
  f_tell _ s := default 0 (snd <$> card_open s);
  f_size _ s := default 0 ((fun x => len x.1) <$> card_open s);
}.

#[export, refine] Instance card_reading : FatFsReading Card := { opened s _ := card_open s }.
Proof.
  - intros path s. cbn. destruct (card_file path) as [c|]; cbn; [|by intros [=]]. intros _. by eexists.
  - intros file n s c p. cbn. destruct (card_open s) as [[c0 p0]|]; [|done]. intros [= <- <-] _. split; [by eexists | done].
  - intros file offset s c p. cbn. intros Ho. rewrite Ho. by eexists.
  - intros file s c p. cbn. intros Ho. by rewrite Ho.
  - intros file s c p. cbn. intros Ho. by rewrite Ho.
Defined.

#[export] Instance card_volume : ConfigVolume Card := {
  f_opendir p s := (FR_OK, 1, mkCard (card_open s) (Some (card_listing p)));
  f_readdir _ s :=
    match card_left s with
    | Some (e :: l) => (FR_OK, e, mkCard (card_open s) (Some l))
    | _ => (FR_OK, ([], false), s)
    end;
  f_closedir _ s := (FR_OK, s);
  Allocate _ s := (true, s);
}.

#[export, refine] Instance card_directories : FiniteDirectories Card 4 := { unread s _ := card_left s }.
Proof.
  - intros path s. cbn. intros _. eexists. split; [done|]. unfold card_listing.
    destruct (bytes_eqb path (str "SYS:/")); (split; [cbn; lia|]); [|constructor].
    repeat (apply Forall_cons; split; [discriminate|]). by apply Forall_nil.
  - intros d s l. cbn. intros ->. by destruct l as [|e l]; intros _.
Defined.

#[export, refine] Instance card_static : StaticVolume Card card_tree card_listing := {}.
Proof.
  - intros path s. cbn. unfold card_tree. destruct (card_file path) as [c|]; cbn; [|done]. split; [done|]. intros _. by eexists.
  - intros path s. cbn. unfold card_tree. destruct (card_file path) as [c|]; cbn; [|done]. intros _. by eexists.
  - intros path s. done.
Defined.

Example card_snapshot :
  snapshot_ <$> (snd <$> (fst <$> Load 9 (str "SYS:") (mkCard None None))) =
  Some (zip_with mkArea all_areas
    [[]; []; [mkFile (str "cmdline.txt") (str "bmx_network=1")]; [mkFile (str "cmdline.txt") (str "bmx_network=1")];
     [mkFile (str "settings-2.txt") (str "b=2"); mkFile (str "settings.txt") (str "a=1")]; []]).
Proof. vm_compute. reflexivity. Qed.

Lemma Load_complete_witness :
  exists status c s', Load 9 (str "SYS:") (mkCard None None) = Some (status, c, s') /\
    (status = SnapshotOk -> snapshot_ c = volume_snapshot (tree := card_tree) (listing := card_listing) (str "SYS:") /\
       ValidateFullSnapshot (snapshot_ c) = true) /\
    (status <> SnapshotOk -> c = Reset).
Proof.
  apply (Load_complete (tree := card_tree) (listing := card_listing) (str "SYS:")).
  - apply (bool_decide_unpack _). vm_compute. reflexivity.
  - lia.
Defined.
