(* ===== verification/UpdateService.v ===== *)
(** * The update service (src/src/update/update_service.cpp)

    The operations behind the Update menu: a check makes an offer, the draft
    operations make one of a prepared draft, an installation redeems the offer.  The
    pieces are those of the other files: the clients (GithubClients.v), the snapshot
    and the assessment of the configuration (ConfigSnapshot.v, ConfigMigration.v), the
    download sink and the archive source (FatFsStorage.v) and the installer
    (SimpleUpdateInstaller.v).

    The world has four parts: the network with the foreground progress ([net]), the
    card as FatFs ([card]), the same card through the file system adapter ([disk]) and
    the rest of the system ([sys]).  That the adapter leaves the updater's own two
    archive files alone is what the installer checks ([IsReservedPath]).  The functions
    run in a monad with an early reply; [None] is undefined behaviour or a loop out of
    fuel; UpdateSafety.v shows that only the installer could fail to return.

    Messages are texts cut to the caller's buffer; a null buffer is size 0.  The texts
    of an offer are values, which the state keeps as long as the offer is valid; only
    the array of the installed record is read into while an offer is pending, and its
    view follows ([refreshed]).  The other arrays have only capacities. *)
From S2P Require Import Prelude JsonFields UpdatePolicy UrlPolicy HttpResponse Sha256 SignatureEnvelope BuildInfo GithubRelease ConfigMigration ReleaseManifest SignatureVerifier DraftTicket ReleaseOffer HttpsStream GithubClients UpdateFileSystem ZipFormat ZipReader SimpleUpdateInstaller FatFsStorage ConfigSnapshot.
From Stdlib Require Import Ascii.
Local Open Scope Z_scope.

Definition kUpdateServiceRebootReady : Z := 100.
Definition kInstalledBuildPath : bytes := str "SYS:/BMX-BUILD.json".
Definition kDraftTestTicketPath : bytes := str "SYS:/BMX-DRAFT-TEST.json".
Definition kDraftTestSignaturePath : bytes := str "SYS:/BMX-DRAFT-TEST.sig".
Definition kArchivePartPath : bytes := str "SYS:/BMX-UPD.ZIP.part".
Definition kArchivePath : bytes := str "SYS:/BMX-UPD.ZIP".

#[export] Instance DraftTestTicket_eq_dec : EqDecision DraftTestTicket.
Proof. solve_decision. Defined.
#[export] Instance OfferConfigurationStatus_eq_dec : EqDecision OfferConfigurationStatus.
Proof. solve_decision. Defined.

(** ** What the service keeps: [ServiceState] *)
(** Not here: [config_snapshot], which only [AssessCurrentConfiguration] uses, and what
    [download.offer] holds after a failed rebuild, which nothing reads. *)
Record ServiceState := mkService {
  allocated : bool;
  offer_valid : bool;
  installed_bytes : bytes;
  download : ValidatedReleaseDownload;
  config_plan : ConfigMigrationPlan;
  config_consent_sha256 : bytes;
  config_consent_valid : bool;
  draft_ticket : option DraftTestTicket;
  device_authorization : GitHubDeviceGrant;
  device_authorization_pending : bool;
  device_authorization_deadline_epoch : Z;
  device_authorization_next_poll_epoch : Z;
  access_token : bytes;
}.

(** [g_state] at start-up. *)
Definition initial_service : ServiceState :=
  mkService false false [] empty_download (mkPlan [] PlanCompatible 0 0 0 0) (replicate 32 0) false None
    no_authorization false 0 0 [].

Definition with_allocated (b : bool) (g : ServiceState) : ServiceState :=
  mkService b (offer_valid g) (installed_bytes g) (download g) (config_plan g) (config_consent_sha256 g)
    (config_consent_valid g) (draft_ticket g) (device_authorization g) (device_authorization_pending g)
    (device_authorization_deadline_epoch g) (device_authorization_next_poll_epoch g) (access_token g).
Definition with_valid (offer consent : bool) (g : ServiceState) : ServiceState :=
  mkService (allocated g) offer (installed_bytes g) (download g) (config_plan g) (config_consent_sha256 g)
    consent (draft_ticket g) (device_authorization g) (device_authorization_pending g)
    (device_authorization_deadline_epoch g) (device_authorization_next_poll_epoch g) (access_token g).
(** The view of the offer is on the same array: it shows what has been stored there. *)
Definition overwrite (stored old : bytes) : bytes := take (length old) (stored ++ drop (length stored) old).
Definition refreshed (stored : bytes) (d : ValidatedReleaseDownload) : ValidatedReleaseDownload :=
  mkDownload (overwrite stored <$> installed_build_info d) (acquisition_mode d) (offer d) (github_response d)
    (GithubClients.manifest_bytes d) (signature_bytes d).
Definition with_installed (stored content : bytes) (g : ServiceState) : ServiceState :=
  mkService (allocated g) (offer_valid g) content (refreshed stored (download g)) (config_plan g) (config_consent_sha256 g)
    (config_consent_valid g) (draft_ticket g) (device_authorization g) (device_authorization_pending g)
    (device_authorization_deadline_epoch g) (device_authorization_next_poll_epoch g) (access_token g).
Definition with_download (d : ValidatedReleaseDownload) (g : ServiceState) : ServiceState :=
  mkService (allocated g) (offer_valid g) (installed_bytes g) d (config_plan g) (config_consent_sha256 g)
    (config_consent_valid g) (draft_ticket g) (device_authorization g) (device_authorization_pending g)
    (device_authorization_deadline_epoch g) (device_authorization_next_poll_epoch g) (access_token g).
Definition with_config (p : ConfigMigrationPlan) (sha : bytes) (consent : bool) (g : ServiceState) : ServiceState :=
  mkService (allocated g) (offer_valid g) (installed_bytes g) (download g) p sha
    consent (draft_ticket g) (device_authorization g) (device_authorization_pending g)
    (device_authorization_deadline_epoch g) (device_authorization_next_poll_epoch g) (access_token g).
Definition with_ticket (t : option DraftTestTicket) (g : ServiceState) : ServiceState :=
  mkService (allocated g) (offer_valid g) (installed_bytes g) (download g) (config_plan g) (config_consent_sha256 g)
    (config_consent_valid g) t (device_authorization g) (device_authorization_pending g)
    (device_authorization_deadline_epoch g) (device_authorization_next_poll_epoch g) (access_token g).
Definition with_device (a : GitHubDeviceGrant) (pending : bool) (deadline next_poll : Z) (g : ServiceState) : ServiceState :=
  mkService (allocated g) (offer_valid g) (installed_bytes g) (download g) (config_plan g) (config_consent_sha256 g)
    (config_consent_valid g) (draft_ticket g) a pending deadline next_poll (access_token g).
Definition with_token (t : bytes) (g : ServiceState) : ServiceState :=
  mkService (allocated g) (offer_valid g) (installed_bytes g) (download g) (config_plan g) (config_consent_sha256 g)
    (config_consent_valid g) (draft_ticket g) (device_authorization g) (device_authorization_pending g)
    (device_authorization_deadline_epoch g) (device_authorization_next_poll_epoch g) t.

Definition ClearDraftAuthorization (g : ServiceState) : ServiceState :=
  with_device no_authorization false 0 0 (with_token [] g).

(** ** The rest of the system *)
(** [network_feature] is [ReadNetworkFeatureState]: enabled and ready.
    [network_running]: there is a network subsystem and it runs.  [progress_available]:
    there is a progress object.  [new_object] is one allocation; false is no memory.
    [clock_at_least] returns the error of
    [EnsureCertificateClockAtLeast].  [secure_factory] is [CircleSecureStreamFactory]
    with its earliest time; [mandatory_checkpoint] is a checkpoint that cannot cancel. *)
Class UpdateSystem (E S : Type) := {
  network_feature : S -> option (bool * bool) * S;
  network_running : S -> bool * S;
  progress_available : S -> bool;
  allocate_state : S -> bool * S;
  new_object : S -> bool * S;
  universal_epoch : S -> Z * S;
  compiled_updater_abi : Z;
  clock_at_least : Z -> S -> option bytes * S;
  prepare_shutdown : S -> bool * S;
  reboot : S -> S;
  secure_factory : Z -> E -> E;
  mandatory_checkpoint : UpdateForegroundPhase -> Z -> Z -> E -> E;
}.

(** The macros of the build. *)
Record BuildFlags := mkFlags {
  enable_target_ui : bool;
  enable_owner_draft_ui : bool;
  channel_is_test : bool;
  RunningBoard : BoardFamily;
}.

Inductive LocalReadStatus := LocalOk | LocalMissing | LocalInvalidSize | LocalIoError.
#[export] Instance LocalReadStatus_eq_dec : EqDecision LocalReadStatus.
Proof. solve_decision. Defined.

Inductive UpdateServiceOperation := OpCheck | OpDraftBegin | OpDraftComplete | OpCancel | OpInstall.

Record World (E F D S : Type) := mkWorld { net : E; card : F; disk : D; sys : S }.
Arguments mkWorld {E F D S}.
Arguments net {E F D S}.
Arguments card {E F D S}.
Arguments disk {E F D S}.
Arguments sys {E F D S}.

(** ** The monad *)
(** A reply is the result and the message. *)
Definition reply : Type := Z * bytes.
Definition service (W A : Type) : Type := ServiceState * W -> option ((reply + A) * (ServiceState * W)).

Section monad.
Context {W : Type}.
Definition sret {A} (a : A) : service W A := fun x => Some (inr a, x).
Definition sreply {A} (code : Z) (message : bytes) : service W A := fun x => Some (inl (code, message), x).
Definition sundefined {A} : service W A := fun _ => None.
Definition sbind {A B} (m : service W A) (k : A -> service W B) : service W B := fun x =>
  match m x with
  | None => None
  | Some (inl r, x) => Some (inl r, x)
  | Some (inr a, x) => k a x
  end.
Definition sstate : service W ServiceState := fun x => Some (inr x.1, x).
Definition smodify (f : ServiceState -> ServiceState) : service W unit := fun x => Some (inr tt, (f x.1, x.2)).
(** The rest of the function runs if the condition holds; otherwise it replies, after [f]. *)
Definition sneed (b : bool) (f : ServiceState -> ServiceState) (code : Z) (message : bytes) : service W unit := fun x =>
  if b then Some (inr tt, x) else Some (inl (code, message), (f x.1, x.2)).
End monad.

Notation "'do*' x ':=' m 'in' k" := (sbind m (fun x => k))
  (at level 200, x name, m at level 100, k at level 200, right associativity).
Notation "m ;* k" := (sbind m (fun _ => k)) (at level 100, k at level 200, right associativity).

Definition keep (g : ServiceState) : ServiceState := g.

(** [Message] and the formats. *)
Definition in_buffer (size : Z) (message : bytes) : bytes := take (Z.to_nat (size - 1)) message.
Definition mib (n : Z) : bytes := decimal_text (u32 (u64 (n + (1024 * 1024 - 1)) / (1024 * 1024))).

Section service.
Context {E F D S : Type} `{HttpsEnvironment E, FatFs F, ConfigVolume F, UpdateFileSystem D, UpdateSystem E S}.
Variable flags : BuildFlags.
Variable verify_function : bytes -> bytes -> bytes -> bool.
Context {T : Type} (tinfl_init : T) (tinfl_decompress : T -> bytes -> bytes -> Z -> Z -> bool -> tinfl_result T).
(** Turns of a body loop and of the directory loop; the width of [FSIZE_t]. *)
Variables (fuel directory_fuel : nat) (fsize_bits : Z).

Notation W := (World E F D S).
Notation svc := (service W).

Definition on_net {A} (f : E -> A * E) : svc A := fun '(g, w) =>
  let '(a, e) := f (net w) in Some (inr a, (g, mkWorld e (card w) (disk w) (sys w))).
Definition on_card {A} (f : F -> A * F) : svc A := fun '(g, w) =>
  let '(a, c) := f (card w) in Some (inr a, (g, mkWorld (net w) c (disk w) (sys w))).
Definition on_disk {A} (f : D -> A * D) : svc A := fun '(g, w) =>
  let '(a, d) := f (disk w) in Some (inr a, (g, mkWorld (net w) (card w) d (sys w))).
Definition on_sys {A} (f : S -> A * S) : svc A := fun '(g, w) =>
  let '(a, s) := f (sys w) in Some (inr a, (g, mkWorld (net w) (card w) (disk w) s)).

(** A client of GithubClients.v: its answer, early or not. *)
Definition on_client {A} (c : client E A A) : svc A := fun '(g, w) =>
  match c (net w) with
  | Some (Val a, e) | Some (Stop a, e) => Some (inr a, (g, mkWorld e (card w) (disk w) (sys w)))
  | _ => None
  end.

(** ** Local files *)
(** Whether [size] bytes were read, and what was stored in any case. *)
Fixpoint local_loop (turns : nat) (file size : Z) (out : bytes) (c : F) : bool * bytes * F :=
  match turns with
  | O => (true, out, c)
  | Datatypes.S turns' =>
      if size <=? len out then (true, out, c)
      else
        let request := Z.min (size - len out) 16384 in
        let '(status, data, c) := f_read file request c in
        if negb (bool_decide (status = FR_OK)) || negb (len data =? request) then (false, out ++ data, c)
        else local_loop turns' file size (out ++ data) c
  end.

(** The status and what was stored in the array. *)
Definition ReadBoundedLocalFile (path : bytes) (capacity : Z) (c : F) : (LocalReadStatus * bytes) * F :=
  let '(status, info, c) := f_stat path c in
  if IsMissing status then (LocalMissing, [], c)
  else if negb (bool_decide (status = FR_OK)) then (LocalIoError, [], c)
  else if (fsize info =? 0) || (capacity <? fsize info) then (LocalInvalidSize, [], c)
  else
    let '(status, file, c) := f_open path ReadExisting c in
    if negb (bool_decide (status = FR_OK)) then (LocalIoError, [], c)
    else
      let '(complete, stored, c) := local_loop (Z.to_nat (fsize info / 16384 + 1)) file (fsize info) [] c in
      let '(closed, c) := f_close file c in
      (if (complete : bool) && bool_decide (closed = FR_OK) then LocalOk else LocalIoError, stored, c).

Definition ReadInstalledBuild : svc LocalReadStatus :=
  do* x := on_card (ReadBoundedLocalFile kInstalledBuildPath kMaximumBuildInfoBytes) in
  smodify (with_installed x.2 (if bool_decide (x.1 = LocalOk) then x.2 else [])) ;*
  sret x.1.

Definition AllocateState : svc bool :=
  do* g := sstate in
  if allocated g then sret true
  else
    do* ok := on_sys allocate_state in
    smodify (with_allocated ok) ;*
    sret ok.

(** The verified ticket, if the status is Ok. *)
Definition LoadDraftTestTicket : svc (option DraftTestTicket) :=
  if channel_is_test flags then sret None
  else
    do* workspace := on_sys new_object in
    if negb workspace then sret None else
    do* ticket := on_card (ReadBoundedLocalFile kDraftTestTicketPath kMaximumDraftTestTicketBytes) in
    do* signature := on_card (ReadBoundedLocalFile kDraftTestSignaturePath kMaximumSignatureEnvelopeBytes) in
    if negb (bool_decide (ticket.1 = LocalOk)) || negb (bool_decide (signature.1 = LocalOk)) then sret None
    else
      do* epoch := on_sys universal_epoch in
      match VerifyDraftTestTicket verify_function (Some ticket.2) (Some signature.2) 256 ReleaseTrustStore epoch with
      | Val t => sret (Some t)
      | Stop _ => sret None
      | Ub => sundefined
      end.

Definition removed (r : FRESULT) : bool := bool_decide (r = FR_OK) || IsMissing r.
Definition RemoveDraftTestTicket (c : F) : bool * F :=
  let '(ticket, c) := f_unlink kDraftTestTicketPath c in
  let '(signature, c) := f_unlink kDraftTestSignaturePath c in
  (removed ticket && removed signature, c).

Definition OfferStorage : ReleaseOfferStorage := mkOfferStorage 2048 16384 kMaximumGitHubReleaseAssets 32768
  kMaximumManifestFiles kMaximumManifestDirectories 256 256.
Definition ClientBuffers : ReleaseClientBuffers :=
  mkBuffers kMaximumGitHubReleaseResponseBytes kMaximumReleaseManifestBytes kMaximumSignatureEnvelopeBytes.

Definition ReportClientFailure (result : ReleaseClientResult) (size : Z) : reply :=
  let decision := offer_decision (offer_result result) in
  let rejected := bool_decide (client_status result = OfferInvalid) &&
                  bool_decide (ReleaseOffer.status (offer_result result) = ReleaseRejected) in
  if rejected && bool_decide (decision = AlreadyCurrent) then (0, in_buffer size (str "BMX is already up to date."))
  else if rejected && bool_decide (decision = DowngradeDenied) then
    (0, in_buffer size (str "The authenticated release is older than this installation; no downgrade was performed."))
  else
    let detail :=
      match client_status result with
      | DiscoveryDownloadFailed | ManifestDownloadFailed | SignatureDownloadFailed =>
          HttpsGetStatusString (HttpsStream.status (https_result result))
      | OfferInvalid => ReleaseOfferStatusString (ReleaseOffer.status (offer_result result))
      | status => ReleaseClientStatusString status
      end in
    (-1, in_buffer size (str "Update check failed: " ++ detail)).

(** ** The configuration *)
Definition classification_id (c : ConfigClassification) : Z :=
  match c with
  | ConfigMigration.Compatible => 0 | LosslessMigration => 1 | ResetRequired => 2 | UnknownOrCorrupt => 3 | NewerThanTarget => 4
  end.

(** A 32-bit integer in the memory of the little-endian target. *)
Definition little_endian32 (n : Z) : bytes := [u8 n; u8 (Z.shiftr n 8); u8 (Z.shiftr n 16); u8 (Z.shiftr n 24)].

Definition area_pieces (a : ConfigAreaAssessment) : list bytes :=
  [[u8 (area_id (assessed_area a))]; [classification_id (classification a)]; little_endian32 (source_version a);
   little_endian32 (assessed_target a); source_content_sha256 a].

Definition kConsentDomain : bytes := str "BMX-SIMPLE-CONFIG-CONSENT-V1" ++ [NUL].
Definition consent_pieces (plan : ConfigMigrationPlan) : list bytes :=
  kConsentDomain :: concat (area_pieces <$> areas plan).

Definition HashConfigConsent (plan : ConfigMigrationPlan) : option bytes :=
  match update_all Sha256.Reset (consent_pieces plan) with
  | Some hash => (Sha256.Final hash).1
  | None => None
  end.

Inductive CurrentConfigStatus := ConfigOk | ConfigReadFailed | InvalidManifestPolicy | AssessmentFailed | DigestFailed.

Definition CurrentConfigStatusString (status : CurrentConfigStatus) : bytes :=
  match status with
  | ConfigOk => str "ok"
  | ConfigReadFailed => str "configuration read failed"
  | InvalidManifestPolicy => str "signed configuration policy invalid"
  | AssessmentFailed => str "configuration assessment failed"
  | DigestFailed => str "configuration consent digest failed"
  end.

Definition requirements_of (m : ReleaseManifest) : list ConfigSchemaRequirement :=
  (fun x => mkRequirement (cs_area x) (cs_target_version x) (cs_accepted_versions x)) <$> manifest_schemas (configuration m).
Definition migrations_of (m : ReleaseManifest) : list DeclaredConfigMigration :=
  (fun x => mkMigration (mm_id x) (mm_area x) (mm_from_version x) (mm_to_version x) (mm_lossy x)) <$>
    manifest_migrations (configuration m).

Definition reclassify (c : ConfigClassification) (a : ConfigAreaAssessment) : ConfigAreaAssessment :=
  mkAssessment (assessed_area a) (detection a) (source_version a) (assessed_target a) c (source_content_sha256 a).

Definition compatible (a : ConfigAreaAssessment) : bool := bool_decide (classification a = ConfigMigration.Compatible).
Definition to_reset (a : ConfigAreaAssessment) : bool := bool_decide (classification a = ResetRequired).

(** The first compatible area of the managed block becomes a reset. *)
Fixpoint reset_managed_block (l : list ConfigAreaAssessment) : list ConfigAreaAssessment :=
  match l with
  | [] => []
  | a :: l' =>
      if bool_decide (assessed_area a = ConfigManagedBlock) && compatible a then reclassify ResetRequired a :: l'
      else a :: reset_managed_block l'
  end.

(** The plan without transformations: what is not compatible is reset. *)
Definition simple_plan (m : ReleaseManifest) (assessed : list ConfigAreaAssessment) : ConfigMigrationPlan :=
  let l := (fun a => if compatible a then a else reclassify ResetRequired a) <$> assessed in
  let l := if configuration_reset_required (asset m) then reset_managed_block l else l in
  let count f := len (filter (fun a => is_true (f a)) l) in
  mkPlan l (if count to_reset =? 0 then PlanCompatible else PlanResetConfirmationRequired)
    (count compatible) 0 (count to_reset) 0.

Definition reset_areas_of (plan : ConfigMigrationPlan) : list ConfigArea :=
  assessed_area <$> filter (fun a => is_true (to_reset a)) (areas plan).

(** The offer with the areas to reset. *)
Definition configured (o : ReleaseOffer) (plan : ConfigMigrationPlan) : ReleaseOffer :=
  let resets := reset_areas_of plan in
  mkOffer (installed o) (github o) (manifest o) (required_assets o) (release_decision o)
    (if len resets =? 0 then ReleaseOffer.Compatible else ResetConfirmationRequired) resets.

Definition current_offer : svc ReleaseOffer :=
  do* g := sstate in
  match offer (download g) with Some o => sret o | None => sundefined end.

Definition load_configuration : svc (FatFsConfigSnapshotStatus * FatFsConfigSnapshot) := fun '(g, w) =>
  match ConfigSnapshot.Load directory_fuel (str "SYS:") (card w) with
  | None => None
  | Some (status, snapshot, c) => Some (inr (status, snapshot), (g, mkWorld (net w) c (disk w) (sys w)))
  end.

(** The status and the detail. *)
Definition AssessCurrentConfiguration : svc (CurrentConfigStatus * bytes) :=
  do* load := load_configuration in
  if negb (bool_decide (load.1 = SnapshotOk)) then sret (ConfigReadFailed, FatFsConfigSnapshotStatusString load.1)
  else
    do* o := current_offer in
    let m := manifest o in
    if negb (len (manifest_schemas (configuration m)) =? kConfigMigrationAreaCount) ||
       (kMaximumDeclaredConfigMigrations <? len (manifest_migrations (configuration m)))
    then sret (InvalidManifestPolicy, [])
    else
      match AssessConfigSnapshot (snapshot_ load.2) (requirements_of m) (migrations_of m) with
      | Ub => sundefined
      | Stop status => sret (AssessmentFailed, ConfigAssessmentStatusString (Some status))
      | Val plan =>
          if negb (len (areas plan) =? kConfigMigrationAreaCount) then sret (AssessmentFailed, ConfigAssessmentStatusString None)
          else
            let plan := simple_plan m (areas plan) in
            match HashConfigConsent plan with
            | None => sret (DigestFailed, [])
            | Some digest =>
                smodify (with_config plan digest true) ;*
                smodify (fun g => with_download (GithubClients.with_offer (configured o plan) (download g)) g) ;*
                sret (ConfigOk, [])
            end
      end.

(** ** Readiness *)
Inductive SimpleReadinessStatus := ReadinessOk | ReadinessFileSystemError | ReadinessVolumeTooSmall | ArithmeticOverflow | ReadinessInsufficientSpace.
Record SimpleReadiness := mkReadiness { readiness : SimpleReadinessStatus; required : Z; available : Z }.

Definition largest_file (m : ReleaseManifest) : Z :=
  fold_left (fun largest f => if largest <? file_size f then file_size f else largest) (asset_files (asset m)) 0.

Definition ProbeSimpleReadiness (m : ReleaseManifest) (d : D) : SimpleReadiness * D :=
  let '(volume, d) := GetVolumeSize d in
  match volume with
  | None => (mkReadiness ReadinessFileSystemError 0 0, d)
  | Some volume =>
      let '(free, d) := GetFreeSpace d in
      match free with
      | None => (mkReadiness ReadinessFileSystemError 0 0, d)
      | Some available =>
          if volume <? kSimpleUpdateMinimumVolumeBytes then (mkReadiness ReadinessVolumeTooSmall 0 available, d)
          else
            let largest := largest_file m in
            let download_size := download_size (asset m) in
            if (UINT64_MAX - kSimpleUpdateSafetyReserveBytes <? download_size) ||
               (u64 (UINT64_MAX - download_size - kSimpleUpdateSafetyReserveBytes) <? largest)
            then (mkReadiness ArithmeticOverflow 0 available, d)
            else
              let required := download_size + largest + kSimpleUpdateSafetyReserveBytes in
              (mkReadiness (if required <=? available then ReadinessOk else ReadinessInsufficientSpace) required available, d)
      end
  end.

Definition FormatReadiness (r : SimpleReadiness) : bytes :=
  match readiness r with
  | ReadinessVolumeTooSmall =>
      str "Online installation requires a 512 MiB BMX Boot partition. Use the normal GitHub ZIP for a manual update or recreate the card."
  | ReadinessInsufficientSpace =>
      str "Online installation needs " ++ mib (required r) ++ str " MiB free on BMX Boot; " ++
      decimal_text (u32 (available r / (1024 * 1024))) ++ str " MiB is available."
  | _ => str "The BMX Boot partition could not be checked safely."
  end.

Definition FormatSimpleConfigResetWarning (o : ReleaseOffer) (plan : ConfigMigrationPlan) : bytes :=
  str "BMX " ++ ReleaseManifest.version (release (manifest o)) ++ str " requires a configuration reset. " ++
  decimal_text (u32 (reset_count plan)) ++
  str " incompatible configuration area(s) will be replaced with the release defaults. Files on BMX USER are not changed. Installed: " ++
  BuildInfo.version (installed o) ++ str ".".

(** The offer is valid from here on; the result is that of the menu operation. *)
Definition AcceptOffer (size : Z) (draft : bool) : svc reply :=
  let clear := if draft then ClearDraftAuthorization else keep in
  do* config := AssessCurrentConfiguration in
  sneed (match config.1 with ConfigOk => true | _ => false end) clear (-1)
    (in_buffer size (str "Update blocked by local configuration: " ++
       (if len config.2 =? 0 then CurrentConfigStatusString config.1 else config.2))) ;*
  do* file_system := on_sys new_object in
  sneed file_system clear (-1) (in_buffer size (str "Not enough memory for the installation check.")) ;*
  do* o := current_offer in
  do* r := on_disk (ProbeSimpleReadiness (manifest o)) in
  sneed (match readiness r with ReadinessOk => true | _ => false end) clear 0 (in_buffer size (FormatReadiness r)) ;*
  smodify (fun g => with_valid true (config_consent_valid g) g) ;*
  do* o := current_offer in
  do* g := sstate in
  if bool_decide (configuration_status o = ResetConfirmationRequired) then
    if reset_count (config_plan g) =? 0 then
      smodify (fun g => clear (with_valid false (config_consent_valid g) g)) ;*
      sret (-1, in_buffer size (str "The required configuration reset warning could not be displayed safely."))
    else sret (2, in_buffer size (FormatSimpleConfigResetWarning o (config_plan g)))
  else
    sret (1, in_buffer size
      ((if (draft : bool) then str "Prepared draft BMX " else str "BMX ") ++ ReleaseManifest.version (release (manifest o)) ++
       str " is available. Installed: " ++ BuildInfo.version (installed o) ++ str ". Download size: " ++
       mib (download_size (asset (manifest o))) ++ str " MiB.")).

(** ** The archive *)
(** [ForegroundSimpleProgress]: hashing may be cancelled, installing may not. *)
#[local] Instance ForegroundSimpleProgress : SimpleUpdateProgress E := {
  Report phase completed total e :=
    match phase with
    | SimpleUpdateInstaller.PhaseHash => Checkpoint HttpsStream.PhaseHash completed total e
    | PhaseInstall => (true, mandatory_checkpoint PhaseStage completed total e)
    end;
}.

(** The download sink as [HttpBodySink]; the bytes it has accepted are kept beside it,
    for the laws of that interface. *)
Definition archive_sink : Type := FatFsDownloadSink * F * bytes.
#[local, refine] Instance archive_body_sink : BodySink archive_sink := {
  sink_write k d := let '(ok, sink, c) := FatFsStorage.Write d k.1.1 k.1.2 in (ok, (sink, c, if (ok : bool) then k.2 ++ d else k.2));
  sink_bytes k := k.2;
}.
Proof.
  - intros [[k c] b] d k'. cbn [fst snd]. destruct (FatFsStorage.Write d k c) as [[[|] k1] c1]; by intros [= <-].
  - intros [[k c] b] d k'. cbn [fst snd]. destruct (FatFsStorage.Write d k c) as [[[|] k1] c1]; by intros [= <-].
Defined.

(** The archive source as [SeekableZipSource]. *)
#[local] Instance archive_source : SeekableZipSource (FatFsZipSource * F) := {
  SourceSize x := (FatFsStorage.GetSize x.1 x.2, x);
  SourceReadAt offset amount x :=
    let '(d, z, c) := FatFsStorage.ReadAt fsize_bits offset amount x.1 x.2 in (d, (z, c));
}.

Record ArchiveDownloadResult := mkArchive {
  download_ok : bool;
  canceled : bool;
  https_status : HttpsGetStatus;
  storage_status : FatFsStorageStatus;
}.

Definition remove_archives : svc unit :=
  do* _ := on_card (FatFsRemoveFileIfPresent kArchivePartPath) in
  do* _ := on_card (FatFsRemoveFileIfPresent kArchivePath) in
  sret tt.

Definition abort_download (sink : FatFsDownloadSink) : svc unit :=
  do* _ := on_card (FatFsStorage.Abort true sink) in
  remove_archives.

(** The request for the archive of the offer. *)
Definition archive_request (g : ServiceState) (o : ReleaseOffer) (k : archive_sink) (e : E)
    : option (HttpsGetResult * archive_sink * E) :=
  match assets (github o) !! required_board_zip (required_assets o) with
  | None => None
  | Some board_zip =>
      let e := secure_factory (BuildInfo.release_epoch (installed o)) e in
      let size := download_size (asset (manifest o)) in
      match acquisition_mode (download g) with
      | ModePreparedDraft =>
          HttpsRequest fuel (GitHubAssetDownloadUrl board_zip PreparedDraft) AuthenticatedReleaseAsset ReleaseZip
            (mkOptions (str "GET") (Some (str "application/octet-stream")) None [] (Some (access_token g))) size k e
      | ModePublishedStable => HttpsGet fuel (GitHubAssetDownloadUrl board_zip PublishedStable) ReleaseAsset ReleaseZip size k e
      end
  end.

(** The request into the sink: its status, and the sink after it. *)
Definition request_archive (o : ReleaseOffer) (sink : FatFsDownloadSink) : svc (HttpsGetStatus * FatFsDownloadSink) := fun '(g, w) =>
  match archive_request g o (sink, card w, []) (net w) with
  | None => None
  | Some (r, k, e) => Some (inr (HttpsStream.status r, k.1.1), (g, mkWorld e k.1.2 (disk w) (sys w)))
  end.

Definition DownloadArchive : svc ArchiveDownloadResult :=
  remove_archives ;*
  do* g := sstate in
  do* o := current_offer in
  do* start := on_card (FatFsStorage.Start kArchivePartPath kArchivePath (download_size (asset (manifest o)))
                  (asset_sha256 (asset (manifest o))) FatFsStorage.new_sink) in
  if negb (bool_decide (start.1 = FatFsStorage.Ok)) then
    sret (mkArchive false false HttpsStream.InvalidArgument start.1)
  else
    do* request := request_archive o start.2 in
    if negb (bool_decide (request.1 = HttpsStream.Ok)) then
      abort_download request.2 ;*
      sret (mkArchive false (bool_decide (request.1 = HttpsStream.Canceled)) request.1 FatFsStorage.Ok)
    else
      do* finish := on_card (FinishStreamingVerified request.2) in
      if bool_decide (finish.1 = FatFsStorage.Ok) then sret (mkArchive true false request.1 finish.1)
      else
        abort_download finish.2 ;*
        sret (mkArchive false false request.1 finish.1).

(** ** The operations of the menu *)
Definition RevalidatePendingOffer (g : ServiceState) : parsed ReleaseOfferResult (ReleaseOfferResult * ReleaseOffer) :=
  let d := download g in
  BuildReleaseOfferForMode verify_function (installed_build_info d) (github_response d) (GithubClients.manifest_bytes d)
    (signature_bytes d) (RunningBoard flags) (acquisition_mode d) ReleaseTrustStore OfferStorage.

(** It answers false even if the system is about to reboot. *)
Definition PrepareAndReboot : svc unit :=
  do* _ := on_net (fun e => (tt, mandatory_checkpoint PhaseReboot 1 1 e)) in
  do* ready := on_sys prepare_shutdown in
  if ready then on_sys (fun s => (tt, reboot s)) else sret tt.

(** Network enabled, ready and running, with a progress object. *)
Definition network_feature_ready : svc (option (bool * bool)) := on_sys network_feature.
Definition feature_ready (x : option (bool * bool)) : bool := match x with Some (enabled, ready) => enabled && ready | None => false end.
Definition ProgressAvailable : svc bool := on_sys (fun s => (progress_available s, s)).

(** The version for the menu, if it fits. *)
Definition ReadInstalledVersionForMenu (version_size : Z) : svc (option bytes) :=
  if version_size =? 0 then sret None
  else
    do* ok := AllocateState in
    if negb ok then sret None
    else
      do* local := ReadInstalledBuild in
      if negb (bool_decide (local = LocalOk)) then sret None
      else
        do* g := sstate in
        match ParseBuildInfo (installed_bytes g) 2048 with
        | Ub => sundefined
        | Stop _ => sret None
        | Val info =>
            if version_size <? len (BuildInfo.version info) + 1 then sret None else sret (Some (BuildInfo.version info))
        end.

Definition PreparedDraftTestAvailableForMenu : svc bool :=
  if negb (enable_owner_draft_ui flags) then sret false
  else
    do* t := LoadDraftTestTicket in
    sret (match t with Some _ => true | None => false end).

Definition clear_offer (g : ServiceState) : ServiceState := ClearDraftAuthorization (with_valid false false g).

(** The installed record, if it parses, belongs to this board and has this updater's ABI ([abi]). *)
Definition parse_installed (abi : bool) : svc (option InstalledBuildInfo) :=
  do* g := sstate in
  match ParseBuildInfo (installed_bytes g) 2048 with
  | Ub => sundefined
  | Stop _ => sret None
  | Val info =>
      let ok := bool_decide (BuildInfo.board info = RunningBoard flags) &&
                (negb abi || (negb (compiled_updater_abi =? 0) && (compiled_updater_abi =? updater_abi info))) in
      sret (if ok then Some info else None)
  end.

(** What all operations need, with the effect and the message of its absence. *)
Definition network_ready_now (f : ServiceState -> ServiceState) (message : bytes) : svc (bool * bool) :=
  do* feature := network_feature_ready in
  sneed (feature_ready feature) f (-1) message ;*
  do* running := on_sys network_running in
  do* progress := ProgressAvailable in
  sneed (running && progress) f (-1) message ;*
  sret (default (false, false) feature).

Definition CheckForUpdateFromMenu (size : Z) : svc reply :=
  let say text := in_buffer size (str text) in
  sneed (negb (size =? 0)) keep (-1) [] ;*
  smodify clear_offer ;*
  sneed (enable_target_ui flags) keep (-1)
    (say "Online update is not enabled for this build. Use the normal GitHub release ZIP for a manual update.") ;*
  do* feature := network_feature_ready in
  sneed (feature_ready feature) keep (-1) (say "Network is disabled or not ready. No update check was made.") ;*
  do* running := on_sys network_running in
  do* progress := ProgressAvailable in
  sneed (running && progress) keep (-1)
    (say "Network or foreground update progress is unavailable. No update check was made.") ;*
  do* allocated := AllocateState in
  sneed allocated keep (-1) (say "Not enough memory to check for an update.") ;*
  do* local := ReadInstalledBuild in
  sneed (negb (bool_decide (local = LocalMissing))) keep 0
    (say "This is a legacy BMX installation. Install the first updater-capable ZIP manually from github.com/kdre/bmx/releases.") ;*
  sneed (bool_decide (local = LocalOk)) keep (-1) (say "BMX-BUILD.json is invalid or unreadable; online update is blocked.") ;*
  do* info := parse_installed false in
  match info with
  | None => sreply (-1) (say "Installed update metadata is invalid or belongs to another board.")
  | Some info =>
      sneed (negb (compiled_updater_abi =? 0) && (compiled_updater_abi =? updater_abi info)) keep (-1)
        (say "The running updater ABI does not match BMX-BUILD.json. Install the GitHub release ZIP manually.") ;*
      do* error := on_sys (clock_at_least (BuildInfo.release_epoch info)) in
      sneed (bool_decide (error = None)) keep (-1) (in_buffer size (str "Update check blocked: " ++ default [] error)) ;*
      do* _ := on_net (fun e => (tt, secure_factory (BuildInfo.release_epoch info) e)) in
      do* g := sstate in
      let start := Build_UpdateStartContext ConfirmedUpdateMenuAction (default (false, false) feature).1
                     (default (false, false) feature).2 in
      do* answer := on_client (CheckLatestRelease verify_function fuel start (Some (installed_bytes g)) (RunningBoard flags)
                      ReleaseTrustStore ClientBuffers OfferStorage (download g)) in
      smodify (with_download answer.2) ;*
      if bool_decide (client_status answer.1 = ClientOk) then AcceptOffer size false
      else sret (ReportClientFailure answer.1 size)
  end.

Definition BeginPreparedDraftTestFromMenu (size : Z) : svc reply :=
  let say text := in_buffer size (str text) in
  sneed (negb (size =? 0)) keep (-1) [] ;*
  smodify clear_offer ;*
  sneed (enable_owner_draft_ui flags) keep (-1) (say "Prepared-draft testing is not enabled for this build.") ;*
  sneed (negb (channel_is_test flags)) keep (-1)
    (say "Prepared production drafts cannot be tested by a non-production update-channel build.") ;*
  do* feature := network_feature_ready in
  sneed (feature_ready feature) keep (-1) (say "Network is disabled or not ready. No GitHub authorization was started.") ;*
  let unavailable := say "The prepared-draft test could not initialize its local update state." in
  do* running := on_sys network_running in
  do* progress := ProgressAvailable in
  sneed (running && progress) keep (-1) unavailable ;*
  do* allocated := AllocateState in
  sneed allocated keep (-1) unavailable ;*
  do* local := ReadInstalledBuild in
  sneed (bool_decide (local = LocalOk)) keep (-1) unavailable ;*
  do* info := parse_installed true in
  match info with
  | None => sreply (-1) (say "Installed BMX update metadata is invalid; draft testing is blocked.")
  | Some info =>
      do* ticket := LoadDraftTestTicket in
      match ticket with
      | None => sreply (-1) (say "The local prepared-draft ticket is missing, expired or invalid.")
      | Some ticket =>
          smodify (with_ticket (Some ticket)) ;*
          let minimum_epoch := Z.max (BuildInfo.release_epoch info) (issued_epoch ticket) in
          let blocked := say "Prepared-draft test blocked by its signed time limit." in
          do* error := on_sys (clock_at_least minimum_epoch) in
          sneed (bool_decide (error = None)) keep (-1) blocked ;*
          do* ticket := LoadDraftTestTicket in
          match ticket with
          | None => sreply (-1) blocked
          | Some ticket =>
              smodify (with_ticket (Some ticket)) ;*
              do* _ := on_net (fun e => (tt, secure_factory minimum_epoch e)) in
              do* g := sstate in
              do* device := on_client (RequestGitHubDeviceCode fuel (github_app_client_id ticket)
                              kMaximumGitHubReleaseResponseBytes 16384 (device_authorization g)) in
              sneed (bool_decide (flow_status device.1 = FlowOk)) ClearDraftAuthorization (-1)
                (in_buffer size (str "GitHub device authorization could not start: " ++ GitHubDeviceFlowStatusString (flow_status device.1))) ;*
              do* now := on_sys universal_epoch in
              smodify (with_device device.2 true (u64 (now + expires_in_seconds device.2))
                         (u64 (now + polling_interval_seconds device.2))) ;*
              sret (1, in_buffer size (str "Open github.com/login/device and enter code " ++ user_code device.2 ++
                str ". Authorize read-only access to kdre/bmx, then select Continue. Draft: " ++ ticket_tag ticket ++ str "."))
          end
      end
  end.

(** The wait after an answer that is not final: five seconds more if GitHub asks for it. *)
Definition slowed (st : GitHubDeviceFlowStatus) (a : GitHubDeviceGrant) : GitHubDeviceGrant :=
  if bool_decide (st = SlowDown) && (polling_interval_seconds a <=? 55)
  then mkAuthorization (device_code a) (user_code a) (expires_in_seconds a) (polling_interval_seconds a + 5)
  else a.

(** From the token on. *)
Definition complete_draft (feature : bool * bool) (ticket : DraftTestTicket) (size : Z) : svc reply :=
  smodify (fun g => with_device no_authorization false 0 0 g) ;*
  do* local := ReadInstalledBuild in
  sneed (bool_decide (local = LocalOk)) ClearDraftAuthorization (-1)
    (in_buffer size (str "Installed update metadata became unavailable.")) ;*
  do* g := sstate in
  let start := Build_UpdateStartContext ConfirmedUpdateMenuAction feature.1 feature.2 in
  do* answer := on_client (CheckPreparedDraftRelease verify_function fuel start ticket (access_token g)
                  (Some (installed_bytes g)) (RunningBoard flags) ReleaseTrustStore ClientBuffers OfferStorage (download g)) in
  smodify (with_download answer.2) ;*
  if bool_decide (client_status answer.1 = ClientOk) then AcceptOffer size true
  else
    smodify ClearDraftAuthorization ;*
    sret (ReportClientFailure answer.1 size).

Definition CompletePreparedDraftTestFromMenu (size : Z) : svc reply :=
  let say text := in_buffer size (str text) in
  sneed (negb (size =? 0)) keep (-1) [] ;*
  do* g := sstate in
  sneed (device_authorization_pending g) keep (-1) (say "No prepared-draft GitHub authorization is pending.") ;*
  do* feature := network_ready_now ClearDraftAuthorization (say "Network became unavailable; draft authorization was discarded.") in
  do* now := on_sys universal_epoch in
  sneed (negb (now =? 0) && (now <=? device_authorization_deadline_epoch g)) ClearDraftAuthorization (-1)
    (say "The GitHub device code expired. Start the draft test again.") ;*
  sneed (device_authorization_next_poll_epoch g <=? now) keep 3
    (in_buffer size (str "GitHub authorization is waiting. Complete authorization at github.com/login/device with code " ++
       user_code (device_authorization g) ++ str ", then select Continue again.")) ;*
  do* ticket := LoadDraftTestTicket in
  sneed (bool_decide (ticket <> None) && bool_decide (ticket = draft_ticket g)) ClearDraftAuthorization (-1)
    (say "The prepared-draft ticket changed during authorization.") ;*
  match ticket with
  | None => sundefined
  | Some ticket =>
      do* _ := on_net (fun e => (tt, secure_factory (issued_epoch ticket) e)) in
      do* token := on_client (ExchangeGitHubDeviceCode fuel (github_app_client_id ticket) (device_code (device_authorization g))
                     kMaximumGitHubReleaseResponseBytes 16384 (access_token g) (kMaximumGitHubAccessTokenBytes + 1)) in
      smodify (with_token token.2) ;*
      let st := flow_status token.1 in
      if bool_decide (st = AuthorizationPending) || bool_decide (st = SlowDown) then
        let a := slowed st (device_authorization g) in
        smodify (with_device a true (device_authorization_deadline_epoch g) (u64 (now + polling_interval_seconds a))) ;*
        sret (3, in_buffer size (str "GitHub authorization is not complete. Enter " ++ user_code a ++
          str " at github.com/login/device, authorize, then select Continue again."))
      else
        sneed (bool_decide (st = FlowOk)) ClearDraftAuthorization (-1)
          (in_buffer size (str "GitHub draft authorization failed: " ++ GitHubDeviceFlowStatusString st)) ;*
        complete_draft feature ticket size
  end.

Definition CancelPendingUpdateFromMenu : svc unit := smodify clear_offer.

(** *** The installation *)
Definition Workspace : SimpleUpdateWorkspace :=
  mkWorkspace kZipMaximumEntries kMaximumManifestFiles kMaximumManifestDirectories kMaximumManifestFiles kZipInputBufferBytes.

(** [installer.Install] on the opened archive. *)
Definition install_from (m : ReleaseManifest) (reset : bool) (d : D) (source : FatFsZipSource * F) (e : E)
    : option (SimpleUpdateResult * SimpleUpdateInstaller.World D (FatFsZipSource * F) E) :=
  Install tinfl_init tinfl_decompress m reset true Workspace d source e.

(** The result, and the archive source after it. *)
Definition run_installer (m : ReleaseManifest) (reset : bool) (source : FatFsZipSource) : svc (SimpleUpdateStatus * FatFsZipSource) :=
  fun '(g, w) =>
  match install_from m reset (disk w) (source, card w) (net w) with
  | None => None
  | Some (r, u) =>
      Some (inr (SimpleUpdateInstaller.status r, (SimpleUpdateInstaller.source u).1),
            (g, mkWorld (progress u) (SimpleUpdateInstaller.source u).2 (SimpleUpdateInstaller.disk u) (sys w)))
  end.

(** From the verified archive on. *)
Definition install_archive (reset : bool) (size : Z) (defer_reboot : bool) : svc reply :=
  let say text := in_buffer size (str text) in
  do* opened := on_card (FatFsStorage.Open kArchivePath new_source) in
  if negb (bool_decide (opened.1 = FatFsStorage.Ok)) then
    do* _ := on_card (FatFsRemoveFileIfPresent kArchivePath) in
    sret (-1, say "The verified update ZIP could not be opened. No release file was changed.")
  else
    do* o := current_offer in
    do* result := run_installer (manifest o) reset opened.2 in
    do* closed := on_card (FatFsStorage.Close result.2) in
    do* archive_removed := on_card (FatFsRemoveFileIfPresent kArchivePath) in
    do* _ := on_card (FatFsRemoveFileIfPresent kArchivePartPath) in
    sneed (negb (bool_decide (result.1 = SimpleUpdateInstaller.Canceled))) keep 0
      (say "Update canceled before installation. No release file was changed.") ;*
    sneed (bool_decide (result.1 = SimpleUpdateInstaller.Ok) && bool_decide (closed.1 = FatFsStorage.Ok) &&
           bool_decide (archive_removed = FatFsStorage.Ok)) keep (-1)
      (in_buffer size (str "Update stopped: " ++ SimpleUpdateStatusString result.1 ++ str "." ++ [LF; LF] ++
         str "No automatic rollback is available. Retry Update, or shut down BMX and install the GitHub ZIP manually.")) ;*
    do* g := sstate in
    do* ticket_removed := (if bool_decide (acquisition_mode (download g) = ModePreparedDraft)
                           then on_card RemoveDraftTestTicket else sret true) in
    sneed ticket_removed keep 0
      (say "Update files are installed, but the one-use draft ticket could not be removed. Reboot manually and remove the ticket before another draft test.") ;*
    if (defer_reboot : bool) then
      sret (kUpdateServiceRebootReady, say "Update installed successfully. Preparing reboot.")
    else
      PrepareAndReboot ;*
      sret (0, say "Update installed successfully. Automatic reboot preparation failed; use System > Reboot. Do not remove power before the reboot completes.").

Definition lose_offer : ServiceState -> ServiceState := with_valid false false.

(** The checks of the pending offer; the result is whether the configuration is reset. *)
Definition recheck_offer (consent : bool) (size : Z) : svc bool :=
  let say text := in_buffer size (str text) in
  do* g := sstate in
  let unauthentic := say "The pending release could not be authenticated again; no ZIP was downloaded." in
  do* _ := match RevalidatePendingOffer g with
           | Ub => sundefined
           | Stop _ => sneed false lose_offer (-1) unauthentic
           | Val x =>
               sneed (bool_decide (ReleaseOffer.status x.1 = ReleaseOffer.Ok)) lose_offer (-1) unauthentic ;*
               smodify (fun g => with_download (GithubClients.with_offer x.2 (download g)) g)
           end in
  do* config := AssessCurrentConfiguration in
  do* g' := sstate in
  sneed (match config.1 with ConfigOk => true | _ => false end &&
         ConstantTimeDigestEqual (config_consent_sha256 g) (config_consent_sha256 g') &&
         (reset_count (config_plan g) =? reset_count (config_plan g'))) lose_offer (-1)
    (say "Configuration changed after confirmation. No ZIP was downloaded; run Update again.") ;*
  let reset_required := negb (reset_count (config_plan g') =? 0) in
  sneed (negb reset_required || consent) keep (-1)
    (say "Configuration reset consent was not supplied; no installation was started.") ;*
  do* o := current_offer in
  sneed (compiled_updater_abi =? updater_abi (installed o)) lose_offer (-1)
    (say "The running updater ABI changed unexpectedly; no ZIP was downloaded.") ;*
  do* r := on_disk (ProbeSimpleReadiness (manifest o)) in
  sneed (match readiness r with ReadinessOk => true | _ => false end) lose_offer (-1) (in_buffer size (FormatReadiness r)) ;*
  sret reset_required.

Definition install_body (consent : bool) (size : Z) (defer_reboot : bool) : svc reply :=
  let say text := in_buffer size (str text) in
  do* g := sstate in
  sneed (offer_valid g && config_consent_valid g) keep (-1)
    (say "No authenticated update offer is pending. Run Update again.") ;*
  do* _ := network_ready_now keep (say "Network became unavailable; no installation was started.") in
  sneed (negb (bool_decide (acquisition_mode (download g) = ModePreparedDraft) && (len (access_token g) =? 0))) keep (-1)
    (say "The temporary GitHub draft authorization is unavailable.") ;*
  do* reset_required := recheck_offer consent size in
  smodify lose_offer ;*
  do* archive := DownloadArchive in
  if negb (download_ok archive) then
    if canceled archive then sret (0, say "Update download canceled. No release file was changed.")
    else
      sret (-1, in_buffer size (str "Update download failed: " ++
        (if bool_decide (https_status archive = HttpsStream.Ok) then str "download storage verification failed"
         else HttpsGetStatusString (https_status archive))))
  else install_archive reset_required size defer_reboot.

(** A reply, early or not. *)
Definition run (m : svc reply) : ServiceState * W -> option (reply * (ServiceState * W)) := fun x =>
  match m x with
  | None => None
  | Some (inl r, x) | Some (inr r, x) => Some (r, x)
  end.

(** The destructor of [draft_cleanup] clears the authorization on every path. *)
Definition InstallCheckedUpdateFromMenu (consent : bool) (size : Z) (defer_reboot : bool) : svc reply :=
  if size =? 0 then sret (-1, [])
  else fun x =>
    match run (install_body consent size defer_reboot) x with
    | None => None
    | Some (r, (g, w)) => Some (inr r, (ClearDraftAuthorization g, w))
    end.

(** ** The job of the network service *)
Definition ExecuteNetworkServiceOperation (operation : UpdateServiceOperation) (consent : bool) (size : Z) : svc reply :=
  match operation with
  | OpCheck => CheckForUpdateFromMenu size
  | OpDraftBegin => BeginPreparedDraftTestFromMenu size
  | OpDraftComplete => CompletePreparedDraftTestFromMenu size
  | OpCancel => CancelPendingUpdateFromMenu ;* sret (0, [])
  | OpInstall => InstallCheckedUpdateFromMenu consent size true
  end.

(** [CompleteDeferredUpdateReboot], on the caller's core. *)
Definition CompleteDeferredUpdateReboot (size : Z) : svc reply :=
  do* progress := ProgressAvailable in
  do* _ := (if progress then PrepareAndReboot else sret tt) in
  sret (0, in_buffer size (str "Update installed successfully. Automatic reboot preparation failed; use System > Reboot. Do not remove power before the reboot completes.")).
End service.
