(* ===== verification/UpdateSafety.v ===== *)
(** * What the update service guarantees (over UpdateService.v)

    Triples over the service's monad ([holds]) give, for every operation of the menu,
    how it ends; the state [service_ok] is in order after any sequence of operations;
    and the volume that is updated changes only by redeeming an offer.  The network is
    any environment, with the log of its use; the card is any volume that follows the
    documented behaviour of FatFs ([FatFsWriting], [FatFsReading], [FatFsStored],
    [FatFsBytes], [FiniteDirectories]); the rest of the system is arbitrary. *)
From S2P Require Import Prelude UpdateFileSystem VolumeMoments Json JsonFields UpdatePolicy UrlPolicy HttpResponse Sha256 SignatureEnvelope BuildInfo GithubRelease ConfigMigration ReleaseManifest SignatureVerifier DraftTicket ReleaseOffer HttpsStream HttpsSessions GithubClients ClientSafety DeviceFlow ZipFormat ZipReader SimpleUpdateInstaller FatFsStorage FatFsSafety ConfigSnapshot InstallSafety UpdateService.
Local Open Scope Z_scope.

(** ** Triples *)
Section triples.
Context {W : Type}.

(** From [x], [m] ends with a value of which [Q] holds or a reply of which [R] holds;
    [stuck] is what follows if it does not. *)
Definition holds {A} (stuck : Prop) (m : service W A) (x : ServiceState * W) (Q : A -> ServiceState * W -> Prop)
    (R : reply -> ServiceState * W -> Prop) : Prop :=
  match m x with None => stuck | Some (inl r, y) => R r y | Some (inr a, y) => Q a y end.

Lemma holds_ret {A} stuck (a : A) x (Q : A -> ServiceState * W -> Prop) R : Q a x -> holds stuck (sret a) x Q R.
Proof. done. Qed.

Lemma holds_reply {A} stuck code message x (Q : A -> ServiceState * W -> Prop) (R : reply -> ServiceState * W -> Prop) :
  R (code, message) x -> holds stuck (sreply code message) x Q R.
Proof. done. Qed.

Lemma holds_bind {A B} stuck (m : service W A) (k : A -> service W B) x P Q R :
  holds stuck m x P R -> (forall a y, P a y -> holds stuck (k a) y Q R) -> holds stuck (sbind m k) x Q R.
Proof. intros Hm Hk. unfold holds, sbind in *. destruct (m x) as [[[r|a] y]|]; [done | by apply Hk | done]. Qed.

Lemma holds_weaken {A} (stuck stuck' : Prop) (m : service W A) x (P P' : A -> ServiceState * W -> Prop) (R R' : reply -> ServiceState * W -> Prop) :
  holds stuck m x P R -> (stuck -> stuck') -> (forall a y, P a y -> P' a y) -> (forall r y, R r y -> R' r y) ->
  holds stuck' m x P' R'.
Proof. unfold holds. intros Hm ? ? ?. destruct (m x) as [[[r|a] y]|]; auto. Qed.

Lemma holds_need {B} stuck b f code message (k : unit -> service W B) g w Q (R : reply -> ServiceState * W -> Prop) :
  (b = false -> R (code, message) (f g, w)) -> (b = true -> holds stuck (k tt) (g, w) Q R) ->
  holds stuck (sbind (sneed b f code message) k) (g, w) Q R.
Proof. intros Hf Ht. unfold holds, sbind, sneed. destruct b; cbn [fst snd]; [by apply Ht | by apply Hf]. Qed.

Lemma holds_modify {B} stuck f (k : unit -> service W B) g w Q R :
  holds stuck (k tt) (f g, w) Q R -> holds stuck (sbind (smodify f) k) (g, w) Q R.
Proof. done. Qed.

Lemma holds_state {B} stuck (k : ServiceState -> service W B) g w Q R :
  holds stuck (k g) (g, w) Q R -> holds stuck (sbind sstate k) (g, w) Q R.
Proof. done. Qed.
End triples.

Section calls.
Context {E F D S : Type}.
Notation W := (World E F D S).
Context {A B : Type} (stuck : Prop) (k : A -> service W B) (g : ServiceState) (w : W)
  (Q : B -> ServiceState * W -> Prop) (R : reply -> ServiceState * W -> Prop).

Lemma holds_net (f : E -> A * E) :
  (forall a e, f (net w) = (a, e) -> holds stuck (k a) (g, mkWorld e (card w) (disk w) (sys w)) Q R) ->
  holds stuck (sbind (on_net f) k) (g, w) Q R.
Proof. intros Hk. unfold holds, sbind, on_net. destruct (f (net w)) as [a e] eqn:Ef. by apply (Hk a e). Qed.

Lemma holds_card (f : F -> A * F) :
  (forall a c, f (card w) = (a, c) -> holds stuck (k a) (g, mkWorld (net w) c (disk w) (sys w)) Q R) ->
  holds stuck (sbind (on_card f) k) (g, w) Q R.
Proof. intros Hk. unfold holds, sbind, on_card. destruct (f (card w)) as [a c] eqn:Ef. by apply (Hk a c). Qed.

Lemma holds_disk (f : D -> A * D) :
  (forall a d, f (disk w) = (a, d) -> holds stuck (k a) (g, mkWorld (net w) (card w) d (sys w)) Q R) ->
  holds stuck (sbind (on_disk f) k) (g, w) Q R.
Proof. intros Hk. unfold holds, sbind, on_disk. destruct (f (disk w)) as [a d] eqn:Ef. by apply (Hk a d). Qed.

Lemma holds_sys (f : S -> A * S) :
  (forall a s, f (sys w) = (a, s) -> holds stuck (k a) (g, mkWorld (net w) (card w) (disk w) s) Q R) ->
  holds stuck (sbind (on_sys f) k) (g, w) Q R.
Proof. intros Hk. unfold holds, sbind, on_sys. destruct (f (sys w)) as [a s] eqn:Ef. by apply (Hk a s). Qed.
End calls.

(** A client over a log, early or not. *)
Lemma holds_client {E F D S A B} `{HttpsEnvironment E} stuck (c : client (E * list event) A A)
    (k : A -> service (World (E * list event) F D S) B) g (w : World (E * list event) F D S) QV QS Q R :
  client_runs c (net w).1 (net w).2 QV QS ->
  (forall a e l, QV a l \/ QS a l -> holds stuck (k a) (g, mkWorld (e, l) (card w) (disk w) (sys w)) Q R) ->
  holds stuck (sbind (on_client c) k) (g, w) Q R.
Proof.
  intros (o & e & l & Hc & Ho) Hk. unfold holds, sbind, on_client. rewrite <- surjective_pairing in Hc. rewrite Hc.
  destruct o as [a|a|]; [apply (Hk a e l); by left | apply (Hk a e l); by right | done].
Qed.

(** ** The state *)
Section state.
Context {F : Type} `{FatFs F, ConfigVolume F}.
Variable verify : bytes -> bytes -> bytes -> bool.
Variable flags : BuildFlags.
Variable directory_fuel : nat.

(** The offer is the one built from the texts of the download, for the record [info]. *)
Definition authenticated (d : ValidatedReleaseDownload) (info : bytes) (o : ReleaseOffer) : Prop :=
  exists response manifest_text signature_text,
    github_response d = Some response /\ GithubClients.manifest_bytes d = Some manifest_text /\
    signature_bytes d = Some signature_text /\ Forall is_byte response /\ Forall is_byte manifest_text /\
    offer_ok verify ReleaseTrustStore (RunningBoard flags) (release_kind (acquisition_mode d)) OfferStorage
      info response manifest_text signature_text o.

(** The plan for the configuration files that the card [c] has. *)
Definition plan_of_card (c : F) (m : ReleaseManifest) (plan : ConfigMigrationPlan) : Prop :=
  exists snapshot c' p, ConfigSnapshot.Load directory_fuel (str "SYS:") c = Some (SnapshotOk, snapshot, c') /\
    AssessConfigSnapshot (snapshot_ snapshot) (requirements_of m) (migrations_of m) = Val p /\
    len (areas p) = kConfigMigrationAreaCount /\ plan = simple_plan m (areas p).

Definition consent_digest (plan : ConfigMigrationPlan) : bytes := sha256_spec (concat (consent_pieces plan)).

(** An offer that the user may accept. *)
Definition pending_offer (g : ServiceState) : Prop :=
  config_consent_valid g = true /\
  (exists view, installed_build_info (download g) = Some view /\ Forall is_byte view) /\
  exists info o c, offer (download g) = Some (configured o (config_plan g)) /\ authenticated (download g) info o /\
    plan_of_card c (manifest o) (config_plan g) /\ config_consent_sha256 g = consent_digest (config_plan g).

Record service_ok (g : ServiceState) : Prop := {
  ok_offer : offer_valid g = true -> pending_offer g;
  ok_token : access_token g <> [] -> offer_valid g = true /\ acquisition_mode (download g) = ModePreparedDraft;
  ok_device : device_authorization_pending g = true -> offer_valid g = false /\ access_token g = [];
}.

(** No offer and no secret. *)
Record cleared (g : ServiceState) : Prop := {
  no_valid : offer_valid g = false;
  no_token : access_token g = [];
  no_device : device_authorization_pending g = false;
}.

Lemma cleared_ok g : cleared g -> service_ok g.
Proof. intros [H1 H2 H3]. constructor; rewrite ?H1, ?H2, ?H3; done. Qed.

Lemma initial_cleared : cleared initial_service.
Proof. done. Qed.

Lemma clear_offer_cleared g : cleared (clear_offer g).
Proof. done. Qed.
End state.

(** ** What the calls do to the world *)
(** What is read from a file is bytes. *)
Class FatFsBytes (F : Type) `{FatFs F} := f_read_bytes : forall file n s, Forall is_byte (f_read file n s).1.2.

(** A file that is opened shows what the path leads to. *)
Class FatFsStored (F : Type) `{FatFs F, !FatFsWriting F, !FatFsReading F} := stored_open : forall path s,
  let '(r, file, s') := f_open path ReadExisting s in
  r = FR_OK -> exists c, stored s path = Some c /\ opened s' file = Some (c, 0).

Lemma overwrite_bytes stored old : Forall is_byte stored -> Forall is_byte old -> Forall is_byte (overwrite stored old).
Proof. intros Hs Ho. unfold overwrite. apply Forall_take, Forall_app. split; [done | by apply Forall_drop]. Qed.

Section local.
Context {F : Type} `{FatFs F, !FatFsBytes F}.

Lemma local_loop_bytes turns file size : forall out c, Forall is_byte out -> Forall is_byte (local_loop turns file size out c).1.2.
Proof.
  induction turns as [|turns IH]; intros out c Ho; cbn [local_loop]; [done|]. destruct (size <=? len out); [done|].
  pose proof (f_read_bytes file (Z.min (size - len out) 16384) c) as Hb.
  destruct (f_read file (Z.min (size - len out) 16384) c) as [[r data] c1]. cbn [fst snd] in Hb.
  destruct (_ || _); [|apply IH]; by apply Forall_app.
Qed.

Lemma ReadBoundedLocalFile_bytes path capacity c : Forall is_byte (ReadBoundedLocalFile path capacity c).1.2.
Proof.
  unfold ReadBoundedLocalFile. destruct (f_stat path c) as [[r i] c1]. destruct (IsMissing r); [constructor|].
  destruct (negb _); [constructor|]. destruct (_ || _); [constructor|].
  destruct (f_open path ReadExisting c1) as [[r2 file] c2]. destruct (negb _); [constructor|].
  pose proof (local_loop_bytes (Z.to_nat (fsize i / 16384 + 1)) file (fsize i) [] c2 (Forall_nil_2 _)) as Hb.
  destruct (local_loop _ _ _ _ _) as [[b stored] c3]. by destruct (f_close file c3).
Qed.
End local.

Section service.
Context {E0 F D S : Type} `{HttpsEnvironment E0, FatFs F, !FatFsBytes F, ConfigVolume F, UpdateFileSystem D}.
Notation E := (E0 * list event)%type.
Context `{UpdateSystem E S}.
Context {entries : nat} `{!FiniteDirectories F entries}.
Variable verify : bytes -> bytes -> bytes -> bool.
Variable flags : BuildFlags.
Variables (fuel directory_fuel : nat).
Hypothesis enough_directory : (entries < directory_fuel)%nat.
Notation W := (World E F D S).
Implicit Types (g : ServiceState) (w : W).

Notation service_ok := (service_ok verify flags directory_fuel).
Notation authenticated := (authenticated verify flags).
Notation plan_of_card := (plan_of_card directory_fuel).

(** Only the card and the system have changed. *)
Definition same_rest (w w' : W) : Prop := net w' = net w /\ disk w' = disk w.

Lemma ReadInstalledBuild_holds g w : holds False ReadInstalledBuild (g, w)
  (fun st y => exists stored, y.1 = with_installed stored (if bool_decide (st = LocalOk) then stored else []) g /\
     Forall is_byte stored /\ same_rest w y.2) (fun _ _ => False).
Proof.
  unfold ReadInstalledBuild. apply holds_card. intros [st stored] c Hr. apply holds_modify, holds_ret. cbn [fst snd].
  exists stored. split; [done|]. split; [|done].
  pose proof (ReadBoundedLocalFile_bytes kInstalledBuildPath kMaximumBuildInfoBytes (card w)) as Hb. by rewrite Hr in Hb.
Qed.

Lemma AllocateState_holds g w : holds False AllocateState (g, w)
  (fun b y => y.1 = with_allocated b g /\ same_rest w y.2) (fun _ _ => False).
Proof.
  unfold AllocateState. apply holds_state. destruct (allocated g) eqn:Ea.
  - apply holds_ret. split; [|done]. destruct g; cbn in *. by subst.
  - apply holds_sys. intros b s _. apply holds_modify, holds_ret. done.
Qed.

Lemma LoadDraftTestTicket_holds g w : holds False (LoadDraftTestTicket flags verify) (g, w)
  (fun t y => y.1 = g /\ same_rest w y.2 /\ forall t', t = Some t' -> ticket_wf t') (fun _ _ => False).
Proof.
  unfold LoadDraftTestTicket. destruct (channel_is_test flags); [done|].
  apply holds_sys. intros [|] s _; cbn [negb]; [|done].
  apply holds_card. intros [st text] c Ht. apply holds_card. intros [st2 sig] c2 _.
  destruct (_ || _); [done|]. apply holds_sys. intros epoch s2 _. cbn [fst snd].
  pose proof (ReadBoundedLocalFile_bytes kDraftTestTicketPath kMaximumDraftTestTicketBytes (card w)) as Hb.
  cbn [card] in Ht. rewrite Ht in Hb. cbn [fst snd] in Hb.
  pose proof (VerifyDraftTestTicket_ok verify (Some text) (Some sig) 256 ReleaseTrustStore epoch Hb ltac:(done)) as Hv.
  destruct (VerifyDraftTestTicket _ _ _ _ _ _) as [t|st3|]; [|done..]. cbn in Hv. apply holds_ret.
  split; [done|]. split; [done|]. intros t' [= <-]. destruct Hv as (? & ? & ? & ? & ? & Hv). apply Hv.
Qed.

Lemma network_ready_now_holds f message g w : holds False (network_ready_now f message) (g, w)
  (fun _ y => y.1 = g /\ same_rest w y.2) (fun r y => r = (-1, message) /\ y.1 = f g /\ same_rest w y.2).
Proof.
  unfold network_ready_now, network_feature_ready, ProgressAvailable.
  apply holds_sys. intros feature s _. apply holds_need; [done|]. intros _.
  apply holds_sys. intros running s2 _. apply holds_sys. intros progress s3 _. apply holds_need; [done|]. intros _. by apply holds_ret.
Qed.

Lemma parse_installed_holds abi g w : Forall is_byte (installed_bytes g) ->
  holds False (parse_installed flags abi) (g, w) (fun _ y => y = (g, w)) (fun _ _ => False).
Proof.
  intros Hb. unfold parse_installed. apply holds_state.
  pose proof (ParseBuildInfo_ok (installed_bytes g) 2048 Hb ltac:(done)) as Hp.
  destruct (ParseBuildInfo (installed_bytes g) 2048); [by apply holds_ret..|done].
Qed.

(** *** The configuration *)
Lemma HashConfigConsent_is plan : len (areas plan) = kConfigMigrationAreaCount ->
  Forall (fun a => length (source_content_sha256 a) = 32%nat) (areas plan) ->
  HashConfigConsent plan = Some (consent_digest plan).
Proof.
  intros Hl Hs. unfold HashConfigConsent. rewrite update_all_feed.
  assert (Hlen : forall l, Forall (fun a => length (source_content_sha256 a) = 32%nat) l ->
    len (concat (concat (area_pieces <$> l))) = 42 * len l).
  { induction 1 as [|a l Ha _ IH]; [done|]. cbn [fmap list_fmap concat]. rewrite concat_app, len_app, len_cons, IH.
    assert (H42 : len (concat (area_pieces a)) = 42); [|lia].
    unfold area_pieces, little_endian32. cbn [concat app]. rewrite app_nil_r. unfold len. cbn [length]. rewrite Ha. lia. }
  assert (Ht : len (concat (consent_pieces plan)) = 281).
  { unfold consent_pieces. cbn [concat]. rewrite len_app, Hlen, Hl by done. reflexivity. }
  destruct (feed_absorbed (consent_pieces plan) Sha256.Reset [] absorbed_Reset) as (h & -> & Ha & Hf & Htot); [done|done|..].
  { rewrite Ht. done. }
  cbn [app] in *. apply Final_absorbed; [done..|]. by rewrite Ht.
Qed.

Lemma reset_managed_block_areas (P : ConfigAreaAssessment -> Prop) l : (forall a, P a -> P (reclassify ResetRequired a)) ->
  Forall P l -> Forall P (reset_managed_block l) /\ length (reset_managed_block l) = length l.
Proof.
  intros HP. induction 1 as [|a l Ha Hl [IH1 IH2]]; cbn [reset_managed_block]; [done|].
  destruct (_ && _); cbn [length]; split; try (constructor; auto); lia.
Qed.

Lemma simple_plan_areas (P : ConfigAreaAssessment -> Prop) m l : (forall a, P a -> P (reclassify ResetRequired a)) ->
  Forall P l -> Forall P (areas (simple_plan m l)) /\ len (areas (simple_plan m l)) = len l.
Proof.
  intros HP Hl. unfold simple_plan. cbn [areas].
  assert (Hp1 : Forall P ((fun a => if compatible a then a else reclassify ResetRequired a) <$> l)).
  { apply Forall_fmap. eapply Forall_impl; [exact Hl|]. intros a Ha. cbn. destruct (compatible a); auto. }
  destruct (configuration_reset_required (asset m)).
  - destruct (reset_managed_block_areas P _ HP Hp1) as [Hp2 Hp3]. split; [done|]. unfold len. by rewrite Hp3, length_fmap.
  - split; [done|]. unfold len. by rewrite length_fmap.
Qed.

Lemma plan_digest m snapshot p : AssessConfigSnapshot snapshot (requirements_of m) (migrations_of m) = Val p ->
  len (areas p) = kConfigMigrationAreaCount ->
  HashConfigConsent (simple_plan m (areas p)) = Some (consent_digest (simple_plan m (areas p))).
Proof.
  intros Hp Hl. assert (Ha : Forall (fun a => length (source_content_sha256 a) = 32%nat) (areas p)).
  { assert (Hf : ValidateFullSnapshot snapshot = true /\
      ValidateConfigMigrationDeclarations (requirements_of m) (migrations_of m) = RegistryValid).
    { unfold AssessConfigSnapshot in Hp. destruct (ValidateFullSnapshot snapshot); [|done]. cbn [negb] in Hp. by destruct (ValidateConfigMigrationDeclarations _ _). }
    destruct (AssessConfigSnapshot_facts _ _ _ (proj1 Hf) (proj2 Hf)) as (p' & Hp' & _ & Hall & _).
    rewrite Hp in Hp'. injection Hp' as <-. eapply Forall_impl; [exact Hall|].
    intros a (s & r & _ & _ & _ & _ & _ & _ & -> & _). apply sha256_spec_digest. }
  destruct (simple_plan_areas (fun a => length (source_content_sha256 a) = 32%nat) m (areas p)) as [Hp1 Hp2]; [done|done|].
  apply HashConfigConsent_is; [by rewrite Hp2 | done].
Qed.

Lemma holds_offer {B} stuck o (k : ReleaseOffer -> service W B) g w Q R : offer (download g) = Some o ->
  holds stuck (k o) (g, w) Q R -> holds stuck (sbind current_offer k) (g, w) Q R.
Proof. intros Ho Hk. unfold holds, sbind, current_offer, sbind, sstate. cbn [fst]. by rewrite Ho. Qed.

(** The state after a plan has been made. *)
Definition planned (o : ReleaseOffer) (plan : ConfigMigrationPlan) g : ServiceState :=
  with_download (GithubClients.with_offer (configured o plan) (download g)) (with_config plan (consent_digest plan) true g).

Lemma AssessCurrentConfiguration_holds o g w : offer (download g) = Some o ->
  holds False (AssessCurrentConfiguration directory_fuel) (g, w)
    (fun x y => same_rest w y.2 /\ match x.1 with
       | ConfigOk => exists plan, plan_of_card (card w) (manifest o) plan /\ y.1 = planned o plan g
       | _ => y.1 = g
       end) (fun _ _ => False).
Proof.
  intros Ho. unfold AssessCurrentConfiguration. eapply holds_bind with (P := fun x y => y.1 = g /\ same_rest w y.2 /\
    exists c', ConfigSnapshot.Load directory_fuel (str "SYS:") (card w) = Some (x, c')).
  { unfold holds, load_configuration.
    destruct (Load_returns directory_fuel (str "SYS:") (card w) enough_directory) as (st & snapshot & c & Hl & _).
    rewrite Hl. cbn. split; [done|]. split; [done|]. by exists c. }
  intros [st snapshot] [g' w'] (Hg & Hw & c' & Hl). cbn [fst snd] in *. subst g'.
  case_bool_decide as Est; cbn [negb]; [subst st | by apply holds_ret].
  apply (holds_offer _ o); [done|]. destruct (_ || _); [by apply holds_ret|].
  destruct (AssessConfigSnapshot _ _ _) as [p|st|] eqn:Ep; [| by apply holds_ret |].
  - destruct (Z.eqb_spec (len (areas p)) kConfigMigrationAreaCount) as [El|]; cbn [negb]; [|by apply holds_ret].
    rewrite (plan_digest _ _ _ Ep El). apply holds_modify, holds_modify, holds_ret. split; [done|].
    cbn [fst]. eexists. split; [by exists snapshot, c', p|]. done.
  - revert Ep. unfold AssessConfigSnapshot. repeat case_match; done.
Qed.

(** ** How an operation ends *)
(** Of the volume that is updated, only the sizes may have been asked for. *)
Definition probed (d d' : D) : Prop := d' = d \/ exists m, d' = (ProbeSimpleReadiness m d).2.

(** No installation: the state is in order, and the reply does not ask for a reboot. *)
Definition quiet_end (d : D) (r : reply) (y : ServiceState * W) : Prop :=
  service_ok y.1 /\ r.1 <> kUpdateServiceRebootReady /\ probed d (disk y.2).

Lemma quiet_cleared d code message g w : cleared g -> code <> kUpdateServiceRebootReady -> probed d (disk w) ->
  quiet_end d (code, message) (g, w).
Proof. intros Hg Hc Hd. split; [by apply cleared_ok | done]. Qed.

Lemma probed_same w w' : same_rest w w' -> probed (disk w) (disk w').
Proof. intros [_ ->]. by left. Qed.

(** What a client has left when it has found an offer. *)
Record found (draft : bool) (o : ReleaseOffer) g : Prop := {
  f_valid : offer_valid g = false;
  f_device : device_authorization_pending g = false;
  f_secret : if draft then acquisition_mode (download g) = ModePreparedDraft else access_token g = [];
  f_offer : offer (download g) = Some o;
  f_texts : exists info, installed_build_info (download g) = Some info /\ Forall is_byte info /\
    authenticated (download g) info o;
}.

Lemma found_clear draft o g : found draft o g ->
  cleared ((if draft then ClearDraftAuthorization else keep) g).
Proof. intros [Hv Hd Hs _ _]. by destruct draft. Qed.

Lemma found_planned draft o plan c g : found draft o g -> plan_of_card c (manifest o) plan ->
  service_ok (with_valid true (config_consent_valid (planned o plan g)) (planned o plan g)) /\
  cleared ((if draft then ClearDraftAuthorization else keep) (planned o plan g)).
Proof.
  intros [Hv Hd Hs Ho (info & Hi & Hb & Ha)] Hp. split; [|by destruct draft].
  constructor; cbn; try (by rewrite Hd).
  - intros _. split; [done|]. split; [by exists info|]. exists info, o, c. by split_and!.
  - destruct draft; [done|]. by rewrite Hs.
Qed.

Lemma AcceptOffer_holds size draft o g w : found draft o g ->
  holds False (AcceptOffer directory_fuel size draft) (g, w) (quiet_end (disk w)) (quiet_end (disk w)).
Proof.
  intros Hf. unfold AcceptOffer.
  eapply holds_bind; [eapply holds_weaken; [apply (AssessCurrentConfiguration_holds o g w (f_offer _ _ _ Hf)) | done | done | done]|].
  intros [st detail] [g1 w1] [Hw Hst]. cbn [fst snd] in *. apply holds_need.
  { intros Hne. apply quiet_cleared; [|done|by apply probed_same]. destruct st; try done; subst g1; by apply (found_clear draft o). }
  intros Heq. destruct st; try done. destruct Hst as (plan & Hplan & ->).
  destruct (found_planned draft o plan _ g Hf Hplan) as [Hok Hclear].
  apply holds_sys. intros fs s _. apply holds_need; [intros _; apply quiet_cleared; [done|done|by apply probed_same]|]. intros _.
  apply (holds_offer _ (configured o plan)); [done|].
  apply holds_disk. intros r d Hr.
  assert (Hd : probed (disk w) d).
  { right. exists (manifest (configured o plan)). destruct Hw as [_ Hw]. cbn [disk] in Hr. by rewrite <- Hw, Hr. }
  apply holds_need; [intros _; by apply quiet_cleared|]. intros _. apply holds_modify.
  apply (holds_offer _ (configured o plan)); [done|]. apply holds_state.
  case_bool_decide.
  - destruct (_ =? 0); [apply holds_modify, holds_ret | apply holds_ret; by split].
    apply quiet_cleared; [|done|done]. destruct Hf as [_ Hdev Hs _ _]. by destruct draft.
  - apply holds_ret. by split.
Qed.

(** ** The check *)
Hypothesis enough_client : (client_fuel <= fuel)%nat.

Lemma storage_enough : storage_nonneg OfferStorage.
Proof. by repeat split. Qed.

Lemma fetched_bytes purpose kind options limit url body log :
  fetched purpose kind options limit url body log -> Forall is_byte body.
Proof. by intros (_ & _ & ?). Qed.

Lemma found_latest installed x log g : cleared g -> Forall is_byte installed ->
  latest_offer verify (Some installed) (RunningBoard flags) ReleaseTrustStore OfferStorage x log ->
  client_status x.1 = ClientOk /\ exists o, found false o (with_download x.2 g).
Proof.
  intros [Hv Ht Hd] Hb (info & response & mtext & stext & o & l1 & l2 & l3 & am & asg & Hok & [= <-] & Hx & Ho & _ & _ & _ & Hr & Hm & _).
  split; [done|]. exists o. apply fetched_bytes in Hr, Hm. constructor; cbn; rewrite ?Hx; try done.
  exists installed. split; [done|]. split; [done|]. exists response, mtext, stext. by split_and!.
Qed.

Lemma found_draft ticket installed x log g : offer_valid g = false -> device_authorization_pending g = false ->
  Forall is_byte installed ->
  draft_offer verify ticket (access_token g) (Some installed) (RunningBoard flags) ReleaseTrustStore OfferStorage x log ->
  client_status x.1 = ClientOk /\ exists o, found true o (with_download x.2 g).
Proof.
  intros Hv Hd Hb (info & response & mtext & stext & o & l1 & l2 & l3 & am & asg & Hok & [= <-] & Hx & Ho & _ & _ & _ & _ & _ & _ & _ & Hr & Hm & _).
  split; [done|]. exists o. apply fetched_bytes in Hr, Hm. constructor; cbn; rewrite ?Hx; try done.
  exists installed. split; [done|]. split; [done|]. exists response, mtext, stext. by split_and!.
Qed.

Lemma ReportClientFailure_quiet r size : (ReportClientFailure r size).1 <> kUpdateServiceRebootReady.
Proof. unfold ReportClientFailure. by repeat case_match. Qed.

Ltac same := first [done | by apply probed_same | by left].
Ltac still_cleared := first [done | match goal with Hc : cleared ?g |- cleared (_ ?g) => by destruct Hc end].
Ltac refuse := intros _; apply quiet_cleared; [still_cleared | done | same].

Lemma CheckForUpdateFromMenu_holds size g w : service_ok g ->
  holds False (CheckForUpdateFromMenu flags verify fuel directory_fuel size) (g, w) (quiet_end (disk w)) (quiet_end (disk w)).
Proof.
  intros Hg. unfold CheckForUpdateFromMenu, network_feature_ready, ProgressAvailable.
  apply holds_need; [intros _; split; [done|]; split; [done|]; by left|]. intros _. apply holds_modify.
  pose proof (clear_offer_cleared g) as Hc. generalize dependent (clear_offer g). clear g Hg. intros g Hc.
  apply holds_need; [refuse|]. intros _. apply holds_sys. intros feature s1 _. apply holds_need; [refuse|]. intros _.
  apply holds_sys. intros running s2 _. apply holds_sys. intros progress s3 _. apply holds_need; [refuse|]. intros _.
  eapply holds_bind; [eapply holds_weaken; [apply AllocateState_holds | done | intros ?? HP; exact HP | done]|].
  intros allocated [g1 w1] [Hg1 Hw1]. cbn [fst snd] in *. subst g1. assert (Hc1 : cleared (with_allocated allocated g)) by (by destruct Hc).
  apply holds_need; [refuse|]. intros _.
  eapply holds_bind; [eapply holds_weaken; [apply ReadInstalledBuild_holds | done | intros ?? HP; exact HP | done]|].
  intros st [g2 w2] (stored & Hg2 & Hb & Hw2). cbn [fst snd] in *.
  assert (Hc2 : cleared g2) by (subst g2; by destruct Hc1).
  assert (Hw : disk w2 = disk w) by (destruct Hw1 as [_ E1], Hw2 as [_ E2]; by rewrite E2, E1).
  assert (Hd : probed (disk w) (disk w2)) by (by left). 
  apply holds_need; [refuse|]. intros _. apply holds_need; [refuse|]. intros Hst%bool_decide_eq_true.
  assert (Hb2 : Forall is_byte (installed_bytes g2)) by (subst g2; cbn; by rewrite bool_decide_eq_true_2).
  eapply holds_bind; [eapply holds_weaken; [by apply parse_installed_holds | done | intros ?? HP; exact HP | done]|].
  intros [info|] y ->; [|by apply holds_reply, quiet_cleared].
  apply holds_need; [refuse|]. intros _. apply holds_sys. intros error s4 _. apply holds_need; [refuse|]. intros _.
  apply holds_net. intros [] e _. apply holds_state.
  eapply holds_client.
  { apply CheckLatestRelease_runs; [done | | apply storage_enough]. by intros ? [= <-]. }
  intros [r d] e' l Hx. apply holds_modify. cbn [fst snd].
  destruct Hx as [(log & _ & Hx)|[Hx _]].
  - destruct (found_latest _ _ _ _ Hc2 Hb2 Hx) as [Hok (o & Hf)]. cbn in Hok. rewrite bool_decide_eq_true_2 by done.
    rewrite <- Hw. cbn [net card disk sys]. exact (AcceptOffer_holds size false o _ (mkWorld _ _ _ _) Hf).
  - cbn in Hx. rewrite bool_decide_eq_false_2 by done. apply holds_ret. split; [|split].
    + apply cleared_ok. by destruct Hc2.
    + apply ReportClientFailure_quiet.
    + done.
Qed.

(** ** Prepared drafts *)
Lemma BeginPreparedDraftTestFromMenu_holds size g w : service_ok g ->
  holds False (BeginPreparedDraftTestFromMenu flags verify fuel size) (g, w) (quiet_end (disk w)) (quiet_end (disk w)).
Proof.
  intros Hg. unfold BeginPreparedDraftTestFromMenu, network_feature_ready, ProgressAvailable.
  apply holds_need; [intros _; split; [done|]; split; [done|]; by left|]. intros _. apply holds_modify.
  pose proof (clear_offer_cleared g) as Hc. generalize dependent (clear_offer g). clear g Hg. intros g Hc.
  apply holds_need; [refuse|]. intros _. apply holds_need; [refuse|]. intros _.
  apply holds_sys. intros feature s1 _. apply holds_need; [refuse|]. intros _.
  apply holds_sys. intros running s2 _. apply holds_sys. intros progress s3 _. apply holds_need; [refuse|]. intros _.
  eapply holds_bind; [eapply holds_weaken; [apply AllocateState_holds | done | intros ?? HP; exact HP | done]|].
  intros allocated [g1 w1] [Hg1 Hw1]. cbn [fst snd] in *. subst g1. assert (Hc1 : cleared (with_allocated allocated g)) by (by destruct Hc).
  apply holds_need; [refuse|]. intros _.
  eapply holds_bind; [eapply holds_weaken; [apply ReadInstalledBuild_holds | done | intros ?? HP; exact HP | done]|].
  intros st [g2 w2] (stored & Hg2 & Hb & Hw2). cbn [fst snd] in *.
  assert (Hc2 : cleared g2) by (subst g2; by destruct Hc1).
  assert (Hd : probed (disk w) (disk w2)) by (left; destruct Hw1 as [_ E1], Hw2 as [_ E2]; by rewrite E2, E1).
  apply holds_need; [refuse|]. intros Hst%bool_decide_eq_true.
  assert (Hb2 : Forall is_byte (installed_bytes g2)) by (subst g2; cbn; by rewrite bool_decide_eq_true_2).
  clear Hg2 Hw2 Hw1.
  eapply holds_bind; [eapply holds_weaken; [by apply parse_installed_holds | done | intros ?? HP; exact HP | done]|].
  intros [info|] y ->; [|by apply holds_reply, quiet_cleared].
  eapply holds_bind; [eapply holds_weaken; [apply LoadDraftTestTicket_holds | done | intros ?? HP; exact HP | done]|].
  intros [t1|] [g3 w3] (Hg3 & [_ Hw3] & _); cbn [fst snd] in Hg3, Hw3; subst g3; rewrite <- Hw3 in Hd;
    [|by apply holds_reply, quiet_cleared].
  apply holds_modify. assert (Hc3 : cleared (with_ticket (Some t1) g2)) by (by destruct Hc2).
  apply holds_sys. intros error s4 _. apply holds_need; [refuse|]. intros _.
  eapply holds_bind; [eapply holds_weaken; [apply LoadDraftTestTicket_holds | done | intros ?? HP; exact HP | done]|].
  intros [t2|] [g4 w4] (Hg4 & [_ Hw4] & _); cbn [fst snd disk] in Hg4, Hw4; subst g4; rewrite <- Hw4 in Hd;
    [|by apply holds_reply, quiet_cleared].
  apply holds_modify. assert (Hc4 : cleared (with_ticket (Some t2) (with_ticket (Some t1) g2))) by (by destruct Hc2).
  generalize dependent (with_ticket (Some t2) (with_ticket (Some t1) g2)). intros g4 Hc4.
  apply holds_net. intros [] e _. apply holds_state.
  eapply holds_client; [by apply RequestGitHubDeviceCode_runs|]. intros device e' l _.
  apply holds_need; [refuse|]. intros _. apply holds_sys. intros now s5 _. apply holds_modify, holds_ret.
  split; [|split; [done|exact Hd]]. destruct Hc4 as [Hv Ht _]. constructor; cbn; rewrite ?Hv, ?Ht; done.
Qed.

Lemma complete_draft_holds feature ticket size g w : offer_valid g = false -> ticket_wf ticket ->
  holds False (complete_draft flags verify fuel directory_fuel feature ticket size) (g, w) (quiet_end (disk w)) (quiet_end (disk w)).
Proof.
  intros Hv Ht. unfold complete_draft. apply holds_modify.
  set (g0 := with_device no_authorization false 0 0 g).
  eapply holds_bind; [eapply holds_weaken; [apply ReadInstalledBuild_holds | done | intros ?? HP; exact HP | done]|].
  intros st [g1 w1] (stored & Hg1 & Hb & [_ Hw1]). cbn [fst snd] in *.
  assert (Hv1 : offer_valid g1 = false) by (by subst g1). assert (Hd1 : device_authorization_pending g1 = false) by (by subst g1).
  assert (Hd : probed (disk w) (disk w1)) by (by left).
  assert (Hc : forall g', offer_valid g' = false -> cleared (ClearDraftAuthorization g')) by done.
  apply holds_need; [intros _; apply quiet_cleared; [by apply Hc | done | done]|]. intros Hst%bool_decide_eq_true.
  assert (Hb1 : Forall is_byte (installed_bytes g1)) by (subst g1; cbn; by rewrite bool_decide_eq_true_2).
  apply holds_state. eapply holds_client.
  { apply CheckPreparedDraftRelease_runs; [done | | apply storage_enough | by apply tw_digest]. by intros ? [= <-]. }
  intros [r d] e' l Hx. apply holds_modify. cbn [fst snd].
  destruct Hx as [(log & _ & Hx)|[Hx _]].
  - destruct (found_draft _ _ _ _ _ Hv1 Hd1 Hb1 Hx) as [Hok (o & Hf)]. cbn in Hok. rewrite bool_decide_eq_true_2 by done.
    rewrite <- Hw1. cbn [net card disk sys]. exact (AcceptOffer_holds size true o _ (mkWorld _ _ _ _) Hf).
  - cbn in Hx. rewrite bool_decide_eq_false_2 by done. apply holds_modify, holds_ret. split; [|split].
    + by apply cleared_ok, Hc.
    + apply ReportClientFailure_quiet.
    + done.
Qed.

Lemma CompletePreparedDraftTestFromMenu_holds size g w : service_ok g ->
  holds False (CompletePreparedDraftTestFromMenu flags verify fuel directory_fuel size) (g, w) (quiet_end (disk w)) (quiet_end (disk w)).
Proof.
  intros Hg. unfold CompletePreparedDraftTestFromMenu.
  assert (Hkeep : forall code message w', code <> kUpdateServiceRebootReady -> probed (disk w) (disk w') ->
    quiet_end (disk w) (code, message) (keep g, w')) by (by split).
  apply holds_need; [intros _; apply Hkeep; same|]. intros _. apply holds_state.
  apply holds_need; [intros _; apply Hkeep; same|]. intros Hpending. destruct (ok_device _ _ _ _ Hg Hpending) as [Hv Htok].
  assert (Hc : forall g', offer_valid g' = false -> cleared (ClearDraftAuthorization g')) by done.
  eapply holds_bind; [eapply holds_weaken; [apply network_ready_now_holds | done | intros ?? HP; exact HP |]|].
  { intros r [g1 w1] (-> & Hg1 & Hw1). cbn [fst snd] in *. subst g1. apply quiet_cleared; [by apply Hc | done | same]. }
  intros feature [g1 w1] [Hg1 Hw1]. cbn [fst snd] in *. subst g1.
  assert (Hd : disk w1 = disk w) by apply Hw1. assert (Hd1 : probed (disk w) (disk w1)) by (by left).
  apply holds_sys. intros now s _.
  apply holds_need; [intros _; apply quiet_cleared; [by apply Hc | done | done]|]. intros _.
  apply holds_need; [intros _; by apply Hkeep|]. intros _.
  eapply holds_bind; [eapply holds_weaken; [apply LoadDraftTestTicket_holds | done | intros ?? HP; exact HP | done]|].
  intros ticket [g2 w2] (Hg2 & [_ Hw2] & Hticket). cbn [fst snd disk] in Hg2, Hw2. subst g2. rewrite <- Hw2 in Hd, Hd1.
  apply holds_need; [intros _; apply quiet_cleared; [by apply Hc | done | done]|]. intros [Hsome _]%andb_true_iff.
  destruct ticket as [ticket|]; [|by apply bool_decide_eq_true in Hsome]. specialize (Hticket _ eq_refl).
  apply holds_net. intros [] e _. eapply holds_client; [by apply ExchangeGitHubDeviceCode_runs|].
  intros [r token] e' l Hx. cbn [fst snd] in *. apply holds_modify.
  set (g3 := with_token token g). assert (Hv3 : offer_valid g3 = false) by done. cbn zeta.
  destruct (bool_decide (flow_status r = AuthorizationPending) || bool_decide (flow_status r = SlowDown)) eqn:Est.
  - apply holds_modify, holds_ret. split; [|by split].
    assert (Hno : token = []).
    { destruct Hx as [(Hok & _)|[_ [Hx|Hx]]]; [by rewrite Hok in Est | exact Hx | by rewrite Hx, Htok]. }
    constructor; cbn; rewrite ?Hv, ?Hno; done.
  - apply holds_need; [intros _; apply quiet_cleared; [by apply Hc | done | done]|]. intros _.
    rewrite <- Hd. exact (complete_draft_holds feature ticket size g3 (mkWorld _ _ _ _) Hv3 Hticket).
Qed.

(** ** The other operations of the menu *)
Lemma ok_allocated b g : service_ok g -> service_ok (with_allocated b g).
Proof. intros [Ho Ht Hd]. by constructor. Qed.

Lemma ok_installed stored content g : Forall is_byte stored -> service_ok g -> service_ok (with_installed stored content g).
Proof.
  intros Hb [Ho Ht Hd]. constructor; [|exact Ht|exact Hd]. intros Hv. destruct (Ho Hv) as (Hc & (view & Hi & Hview) & Hrest).
  split; [exact Hc|]. split; [|exact Hrest]. exists (overwrite stored view). cbn. rewrite Hi. split; [done|]. by apply overwrite_bytes.
Qed.

(** Only the state has to be in order, and the volume is not touched. *)
Definition untouched {A} (d : D) (_ : A) (y : ServiceState * W) : Prop := service_ok y.1 /\ disk y.2 = d.

Lemma ReadInstalledVersionForMenu_holds size g w : service_ok g ->
  holds False (ReadInstalledVersionForMenu size) (g, w) (untouched (disk w)) (fun _ _ => False).
Proof.
  intros Hg. unfold ReadInstalledVersionForMenu. destruct (size =? 0); [by apply holds_ret|].
  eapply holds_bind; [apply AllocateState_holds|]. intros allocated [g1 w1] [Hg1 [_ Hw1]]. cbn [fst snd] in *.
  assert (Hok1 : service_ok g1) by (subst g1; by apply ok_allocated).
  destruct allocated; cbn [negb]; [|by apply holds_ret].
  eapply holds_bind; [apply ReadInstalledBuild_holds|].
  intros st [g2 w2] (stored & Hg2 & Hb & [_ Hw2]). cbn [fst snd] in *.
  assert (Hok2 : service_ok g2) by (subst g2; by apply ok_installed).
  assert (Hend : forall (v : option bytes), untouched (disk w) v (g2, w2)) by (intros v; split; [done|cbn; by rewrite Hw2]).
  case_bool_decide as Est; cbn [negb]; [|by apply holds_ret]. apply holds_state.
  assert (Hb2 : Forall is_byte (installed_bytes g2)) by (by subst g2).
  pose proof (ParseBuildInfo_ok (installed_bytes g2) 2048 Hb2 ltac:(done)) as Hp.
  destruct (ParseBuildInfo (installed_bytes g2) 2048) as [info|st2|]; [destruct (_ <? _) | |done]; by apply holds_ret.
Qed.

Lemma PreparedDraftTestAvailableForMenu_holds g w : service_ok g ->
  holds False (PreparedDraftTestAvailableForMenu flags verify) (g, w) (untouched (disk w)) (fun _ _ => False).
Proof.
  intros Hg. unfold PreparedDraftTestAvailableForMenu. destruct (negb _); [by apply holds_ret|].
  eapply holds_bind; [apply LoadDraftTestTicket_holds|]. intros t [g1 w1] (Hg1 & [_ Hw1] & _). cbn [fst snd] in *. subst g1.
  by apply holds_ret.
Qed.

Lemma PrepareAndReboot_holds g w : holds False PrepareAndReboot (g, w)
  (fun _ y => y.1 = g /\ disk y.2 = disk w) (fun _ _ => False).
Proof.
  unfold PrepareAndReboot. apply holds_net. intros [] e _. apply holds_sys. intros [|] s _; done.
Qed.

Lemma CompleteDeferredUpdateReboot_holds size g w : service_ok g ->
  holds False (CompleteDeferredUpdateReboot size) (g, w) (untouched (disk w)) (fun _ _ => False).
Proof.
  intros Hg. unfold CompleteDeferredUpdateReboot, ProgressAvailable. apply holds_sys. intros progress s _.
  eapply holds_bind with (P := fun _ y => y.1 = g /\ disk y.2 = disk w).
  - destruct progress; [exact (PrepareAndReboot_holds g (mkWorld _ _ _ _)) | by apply holds_ret].
  - intros _ [g1 w1] [Hg1 Hw1]. cbn [fst snd] in *. subst g1. by apply holds_ret.
Qed.

Lemma cleared_authorization g : service_ok g -> service_ok (ClearDraftAuthorization g).
Proof. intros [Ho Ht Hd]. by constructor. Qed.

(** ** The archive *)
Context `{!FatFsWriting F, !FatFsReading F, !FatFsStored F}.

Lemma stat_stored path p c : stored (FatFsStatPath path c).2 p = stored c p.
Proof.
  unfold FatFsStatPath, StatValidated. destruct (ValidateFatFsAbsolutePath path); try done.
  pose proof (f_stat_law path c p) as Hl. destruct (f_stat path c) as [[r i] c1]. destruct (IsMissing r); [done|]. by case_bool_decide.
Qed.

Lemma Finish_stores part final size sha k (c : F) content :
  started part final size sha k -> filled k c content -> size <= UINT64_MAX / 8 -> digest_ok sha ->
  let '(status, _, c') := FinishStreamingVerified k c in
  status = FatFsStorage.Ok -> stored c' final = Some content /\ len content = size /\ sha256_spec content = sha.
Proof.
  intros (Ho & Hes & Hsha & Hp & Hf) (Ha & Hfin & Ht & Hw & Hle & Hr) Hsize [Hl Hb].
  unfold FinishStreamingVerified. rewrite Ho, Hw. cbn [negb].
  destruct (Z.eqb_spec (len content) (expected_size_ k)) as [Esz|]; cbn [negb]; [|by destruct (f_close (file_ k) c)].
  pose proof (Final_absorbed _ _ Ha Hfin Ht ltac:(lia)) as Hd.
  destruct (Final (streaming_sha256_ k)) as [digest sha']. cbn [fst] in Hd. subst digest. cbn [file_ sink_hash].
  pose proof (f_sync_law (file_ k) c _ Hr) as Hsy. destruct (f_sync (file_ k) c) as [synced c1].
  unfold CloseFile. pose proof (f_close_law (file_ k) c1 (part_path_ k) content) as Hcl.
  destruct (f_close (file_ k) c1) as [closed c2]. case_bool_decide as Est; [cbn [negb] | by intros].
  destruct (bool_decide (synced = FR_OK)) eqn:E1; [|discriminate Est]. apply bool_decide_eq_true in E1.
  destruct (bool_decide (closed = FR_OK)) eqn:E2; [|discriminate Est]. apply bool_decide_eq_true in E2.
  specialize (Hcl (Hsy E1) E2). cbn [negb expected_sha256_ sink_closed sink_hash].
  destruct (ConstantTimeDigestEqual (sha256_spec content) (expected_sha256_ k)) eqn:Ed; cbn [negb]; [|done].
  rewrite Hsha in Ed. apply digests_equal in Ed; [|done..].
  unfold publish. cbn [part_path_ final_path_ sink_closed sink_hash]. rewrite Hp, Hf in *.
  pose proof (stat_stored final part c2) as Hst. destruct (FatFsStatPath final c2) as [[st info] c3]. cbn [snd] in Hst.
  case_bool_decide; cbn [negb]; [|done]. destruct (exists_ info); [done|]. rewrite Hcl in Hst.
  pose proof (f_rename_law part final c3 content Hst) as Hrn. destruct (f_rename part final c3) as [r c4].
  case_bool_decide as Er; [|done]. intros _. split; [by apply Hrn|]. split; [lia | done].
Qed.

Lemma Open_stored path c content : stored c path = Some content -> len content <= UINT64_MAX ->
  let '(status, z, c') := FatFsStorage.Open path new_source c in status = FatFsStorage.Ok -> source_ok content z c'.
Proof.
  intros Hs Hmax. unfold FatFsStorage.Open. cbn [zip_open_ new_source].
  destruct (ValidateFatFsAbsolutePath path); try done. pose proof (stat_stored path path c) as Hst.
  destruct (FatFsStatPath path c) as [[st info] c1]. cbn [snd] in Hst. case_bool_decide; cbn [negb]; [|by intros ->].
  destruct (negb (exists_ info)); [done|]. destruct (is_directory info); [done|].
  pose proof (stored_open path c1) as Hop. destruct (f_open path ReadExisting c1) as [[r file] c2].
  case_bool_decide as Er; cbn [negb]; [|done]. destruct (Hop Er) as (d & Hd & Ho). rewrite Hst, Hs in Hd. injection Hd as <-.
  cbn [size_]. destruct (Z.eqb_spec (f_size file c2) (info_size info)) as [Ef|]; cbn [negb]; [|by destruct (f_close file c2)].
  intros _. rewrite (f_size_law _ _ _ _ Ho) in Ef. split; [done|]. split; [done|]. split; [done|]. by exists 0.
Qed.

#[local] Existing Instance archive_body_sink.

(** After writes that succeeded, the sink has stored the bytes. *)
Lemma archive_reached part final size sha (k0 k : archive_sink) : size <= UINT64_MAX -> Body.reached true k0 k ->
  started part final size sha k0.1.1 -> filled k0.1.1 k0.1.2 k0.2 ->
  started part final size sha k.1.1 /\ filled k.1.1 k.1.2 k.2.
Proof.
  intros Hs Hr Hst Hf. induction Hr as [|k d st k' Hr [IH1 IH2] Hw Ht]; [done|]. specialize (Ht eq_refl). subst st.
  destruct k as [[z c] b]. cbn [fst snd] in *. cbn in Hw. pose proof (Write_started _ _ _ _ d z c IH1) as Hs'.
  destruct (FatFsStorage.Write d z c) as [[[|] z1] c1] eqn:Ew; [|done]. injection Hw as <-. cbn [fst snd] in *. split; [done|].
  eapply (Write_filled d z c b); [destruct IH1 as (_ & -> & _); done | exact IH2 | exact Ew].
Qed.

(** The content is what authorized addresses have delivered for the archive of the offer. *)
Definition archive_delivered g (o : ReleaseOffer) (content : bytes) : Prop :=
  exists a n evs, assets (github o) !! required_board_zip (required_assets o) = Some a /\
    match acquisition_mode (download g) with
    | ModePreparedDraft =>
        HttpsSessions.run AuthenticatedReleaseAsset ReleaseZip
          (mkOptions (str "GET") (Some (str "application/octet-stream")) None [] (Some (access_token g)))
          0 (GitHubAssetDownloadUrl a PreparedDraft) HttpsStream.Ok n content evs
    | ModePublishedStable =>
        HttpsSessions.run ReleaseAsset ReleaseZip default_options 0 (GitHubAssetDownloadUrl a PublishedStable) HttpsStream.Ok n content evs
    end.

(** It is the signed one. *)
Definition archive_signed (o : ReleaseOffer) (content : bytes) : Prop :=
  len content = download_size (asset (manifest o)) /\ sha256_spec content = asset_sha256 (asset (manifest o)).

Hypothesis enough_archive : (body_fuel kMaximumAssetBytes <= fuel)%nat.

Lemma archive_https purpose options limit url (k : archive_sink) (e : E) :
  NUL ∉ url -> 0 <= limit <= UINT64_MAX -> (body_fuel limit <= fuel)%nat ->
  exists r k' e', HttpsRequest fuel url purpose ReleaseZip options limit k e = Some (r, k', e') /\
    (HttpsStream.status r = HttpsStream.Ok -> exists content n evs, k'.2 = k.2 ++ content /\ Body.reached true k k' /\
       HttpsSessions.run purpose ReleaseZip options 0 url HttpsStream.Ok n content evs).
Proof.
  intros Hu Hl Hf. destruct e as [e l].
  destruct (HttpsRequest_ends fuel url purpose ReleaseZip options limit k e l Hu Hl Hf) as ([r k'] & e' & evs & -> & Hend).
  eexists r, k', (e', l ++ evs). split; [done|]. intros Hok.
  destruct (request_ends_Ok _ _ _ _ _ _ _ _ Hend Hok) as (content & Hc & _ & _ & Hr & Hrun). cbn [fst snd] in *. rewrite Hok in Hrun.
  exists content, (redirects r), evs. by split_and!.
Qed.

Lemma archive_request_runs info o plan g (k : archive_sink) (e : E) : authenticated (download g) info o ->
  exists r k' e', archive_request fuel g (configured o plan) k e = Some (r, k', e') /\
    (HttpsStream.status r = HttpsStream.Ok -> exists content, k'.2 = k.2 ++ content /\ Body.reached true k k' /\
       archive_delivered g o content).
Proof.
  intros (response & mtext & stext & _ & _ & _ & _ & _ & Ho). unfold archive_request, HttpsGet, archive_delivered.
  destruct (o_board_zip _ _ _ _ _ _ _ _ _ _ Ho) as (a & Ha & _). pose proof (o_release _ _ _ _ _ _ _ _ _ _ Ho) as Hrel.
  destruct (asset_address _ _ _ _ Hrel Ha) as [_ Hnul].
  pose proof (wf_download _ _ _ _ _ (wf_asset _ _ _ (o_manifest _ _ _ _ _ _ _ _ _ _ Ho))) as Hsize.
  assert (Hlim : 0 <= download_size (asset (manifest o)) <= UINT64_MAX) by (unfold kMaximumAssetBytes, UINT64_MAX in *; lia).
  assert (Hfuel : (body_fuel (download_size (asset (manifest o))) <= fuel)%nat).
  { etransitivity; [|exact enough_archive]. apply body_fuel_mono. lia. }
  cbn [github configured required_assets installed manifest]. rewrite Ha. generalize (secure_factory (BuildInfo.release_epoch (installed o)) e). intros e0.
  destruct (acquisition_mode (download g)); cbn [release_kind] in Hnul |- *;
    (edestruct archive_https as (r & k' & e' & -> & Hok); [exact Hnul | exact Hlim | exact Hfuel |]);
    eexists r, k', e'; (split; [done|]); intros Hst; destruct (Hok Hst) as (content & n & evs & Hc & Hr & Hrun);
    exists content; (split; [done|]); (split; [done|]); by exists a, n, evs.
Qed.

Definition archive_there g o (c : F) : Prop :=
  exists content, stored c kArchivePath = Some content /\ archive_signed o content /\ archive_delivered g o content.

Lemma DownloadArchive_holds info o plan g w : offer (download g) = Some (configured o plan) -> authenticated (download g) info o ->
  holds False (DownloadArchive fuel) (g, w)
    (fun r y => y.1 = g /\ disk y.2 = disk w /\ (download_ok r = true -> archive_there g o (card y.2))) (fun _ _ => False).
Proof.
  intros Hoffer Ha. pose proof Ha as (response & mtext & stext & _ & _ & _ & _ & _ & Ho).
  pose proof (wf_asset _ _ _ (o_manifest _ _ _ _ _ _ _ _ _ _ Ho)) as Hasset.
  pose proof (wf_download _ _ _ _ _ Hasset) as Hsize. pose proof (wf_digest _ _ _ _ _ Hasset) as Hsha.
  unfold DownloadArchive, remove_archives.
  assert (Habort : forall sink g' w' (res : ArchiveDownloadResult), g' = g -> disk w' = disk w -> download_ok res = false ->
    holds False (abort_download sink ;* sret res) (g', w')
      (fun r y => y.1 = g /\ disk y.2 = disk w /\ (download_ok r = true -> archive_there g o (card y.2))) (fun _ _ => False)).
  { intros sink g' w' res Hg' Hw' Hx. subst g'. unfold abort_download, remove_archives, holds, sbind, on_card, sret.
    destruct (Abort true sink (card w')) as [a1 c1]. cbn. destruct (FatFsRemoveFileIfPresent kArchivePartPath c1) as [a2 c2]. cbn.
    destruct (FatFsRemoveFileIfPresent kArchivePath c2) as [a3 c3]. cbn. rewrite Hx. by split_and!. }
  eapply holds_bind with (P := fun _ y => y.1 = g /\ disk y.2 = disk w).
  { apply holds_card. intros a1 c1 _. apply holds_card. intros a2 c2 _. by apply holds_ret. }
  intros _ [g1 w1] [Hg1 Hw1]. cbn [fst snd] in *. subst g1. apply holds_state. eapply holds_offer; [exact Hoffer|].
  cbn [manifest configured]. apply holds_card. intros [st sink] c Hstart.
  case_bool_decide as Est; cbn [negb]; [cbn in Est; subst st | by apply holds_ret].
  apply Start_ok in Hstart as [Hs1 Hf1]; [|lia].
  destruct (archive_request_runs info o plan g (sink, c, []) (net w1) Ha) as (r & k' & e' & Hreq & Hok).
  eapply holds_bind with (P := fun x y => y = (g, mkWorld e' k'.1.2 (disk w1) (sys w1)) /\ x = (HttpsStream.status r, k'.1.1)).
  { unfold holds, request_archive. cbn [card net disk sys snd]. by rewrite Hreq. }
  intros request y [-> ->]. cbn [fst snd]. case_bool_decide as Er; cbn [negb]; [|by apply Habort].
  destruct (Hok Er) as (content & Hc & Hreach & Hdel). cbn [snd app] in Hc.
  apply (archive_reached kArchivePartPath kArchivePath (download_size (asset (manifest o))) (asset_sha256 (asset (manifest o)))) in Hreach
    as [Hs2 Hf2]; [|unfold kMaximumAssetBytes, UINT64_MAX in *; lia|done|done]. rewrite Hc in Hf2.
  apply holds_card. intros [st k2] c2 Hfin. cbn [card] in Hfin. cbn [fst snd].
  pose proof (Finish_stores _ _ _ _ _ _ _ Hs2 Hf2) as Hstored. rewrite Hfin in Hstored.
  case_bool_decide as Ef; [|by apply Habort]. apply holds_ret. split; [done|]. split; [done|]. intros _.
  destruct Hstored as (H1s & H2s & H3s); [|done|done|]. { change (UINT64_MAX / 8) with 2305843009213693951. unfold kMaximumAssetBytes in *. lia. }
  by exists content.
Qed.

(** ** The installation *)
Context {T : Type} (tinfl_init : T) (tinfl_decompress : T -> bytes -> bytes -> Z -> Z -> bool -> tinfl_result T) (fsize_bits : Z).

(** The installer has run on the volume [d], from an archive that was delivered for
    the offer and is the signed one; [None] is an installer that does not return. *)
Definition installs g (o : ReleaseOffer) (reset : bool) (d : D)
    (out : option (SimpleUpdateResult * SimpleUpdateInstaller.World D (FatFsZipSource * F) E)) : Prop :=
  exists content source c e, archive_signed o content /\ archive_delivered g o content /\ source_ok content source c /\
    install_from tinfl_init tinfl_decompress fsize_bits (manifest o) reset d (source, c) e = out.

(** The reply and the volume after it. *)
Definition installed_end g (o : ReleaseOffer) (reset : bool) (d : D) (r : reply) (d' : D) : Prop :=
  exists res u, installs g o reset d (Some (res, u)) /\ d' = SimpleUpdateInstaller.disk u /\
    (r.1 = kUpdateServiceRebootReady -> SimpleUpdateInstaller.status res = SimpleUpdateInstaller.Ok).

Lemma install_archive_holds o plan reset size defer g w : offer (download g) = Some (configured o plan) -> archive_there g o (card w) ->
  download_size (asset (manifest o)) <= UINT64_MAX ->
  let final := fun r y => y.1 = g /\ (r.1 <> kUpdateServiceRebootReady /\ disk y.2 = disk w \/ installed_end g o reset (disk w) r (disk y.2)) in
  holds (installs g o reset (disk w) None)
    (install_archive tinfl_init tinfl_decompress fsize_bits reset size defer) (g, w) final final.
Proof.
  intros Hoffer (content & Hst & Hsigned & Hdel) Hmax final. unfold install_archive.
  apply holds_card. intros [st source] c Hopen.
  pose proof (Open_stored kArchivePath (card w) content Hst ltac:(destruct Hsigned as [-> _]; done)) as Hsource.
  rewrite Hopen in Hsource. cbn [fst snd] in *. case_bool_decide as Est; cbn [negb]; [specialize (Hsource Est)|].
  2:{ apply holds_card. intros a c2 _. apply holds_ret. split; [done|]. by left. }
  eapply holds_offer; [exact Hoffer|]. cbn [manifest configured].
  eapply holds_bind with (P := fun x y => y.1 = g /\ exists res u, installs g o reset (disk w) (Some (res, u)) /\
    disk y.2 = SimpleUpdateInstaller.disk u /\ x.1 = SimpleUpdateInstaller.status res).
  { unfold holds, run_installer. cbn [net card disk sys].
    destruct (install_from tinfl_init tinfl_decompress fsize_bits (manifest o) reset (disk w) (source, c) (net w)) as [[res u]|] eqn:Ei.
    - split; [done|]. exists res, u. split; [|done]. by exists content, source, c, (net w).
    - by exists content, source, c, (net w). }
  intros [st2 source2] [g1 w1] [Hg1 (res & u & Hi & Hd & Hs)]. cbn [fst snd] in *. subst g1.
  assert (Hend : forall r w', disk w' = disk w1 -> (r.1 = kUpdateServiceRebootReady -> st2 = SimpleUpdateInstaller.Ok) -> final r (g, w')).
  { intros r w' Hw' Hr. split; [done|]. right. exists res, u. split; [done|]. split; [cbn; congruence|]. intros H100. rewrite <- Hs. auto. }
  apply holds_card. intros closed c2 _. apply holds_card. intros ar c3 _. apply holds_card. intros x4 c4 _.
  apply holds_need; [intros _; by apply Hend|]. intros _.
  apply holds_need; [intros _; by apply Hend|]. rewrite !andb_true_iff, bool_decide_eq_true. intros [[Hok _] _].
  apply holds_state.
  eapply holds_bind with (P := fun _ y => y.1 = g /\ disk y.2 = disk w1).
  { case_bool_decide; [|by apply holds_ret]. unfold holds, on_card. by destruct (RemoveDraftTestTicket _). }
  intros removed [g5 w5] [Hg5 Hw5]. cbn [fst snd] in *. subst g5.
  apply holds_need; [intros _; by apply Hend|]. intros _. destruct defer; [by apply holds_ret, Hend|].
  eapply holds_bind; [eapply holds_weaken; [apply PrepareAndReboot_holds | done | intros ?? HP; exact HP | done]|].
  intros _ [g6 w6] [Hg6 Hw6]. cbn [fst snd] in *. subst g6. apply holds_ret, Hend; [congruence|done].
Qed.

(** The offer is redeemed: what is confirmed again, on the spot, before the download. *)
Record redeemed (consent : bool) g (d : D) (o : ReleaseOffer) (plan : ConfigMigrationPlan) : Prop := {
  rd_valid : offer_valid g = true;
  rd_secret : acquisition_mode (download g) = ModePreparedDraft -> access_token g <> [];
  rd_offer : exists info, installed_build_info (download g) = Some info /\ authenticated (download g) info o;
  rd_plan : exists c, plan_of_card c (manifest o) plan;
  rd_confirmed : consent_digest plan = config_consent_sha256 g /\ reset_count plan = reset_count (config_plan g);
  rd_consent : reset_count plan <> 0 -> consent = true;
  rd_abi : compiled_updater_abi = updater_abi (installed o);
  rd_ready : readiness (ProbeSimpleReadiness (manifest o) d).1 = ReadinessOk;
}.

(** The state of a redeemed offer. *)
Definition redeeming (o : ReleaseOffer) (plan : ConfigMigrationPlan) g : ServiceState :=
  planned o plan (with_download (GithubClients.with_offer o (download g)) g).

Lemma RevalidatePendingOffer_returns view g : pending_offer verify flags directory_fuel g -> installed_build_info (download g) = Some view ->
  returns (RevalidatePendingOffer flags verify g) (fun x => authenticated (download g) view x.2).
Proof.
  intros (_ & (view' & Hi & Hb) & info & o & c & _ & (response & mtext & stext & Hr & Hm & Hs & Hbr & Hbm & _) & _) Hi'.
  rewrite Hi in Hi'. injection Hi' as ->. unfold RevalidatePendingOffer. rewrite Hi, Hr, Hm, Hs.
  eapply returns_mono; [by apply (BuildReleaseOfferForMode_ok verify view response mtext stext); [..|apply storage_enough]|].
  intros [r o'] [_ Ho]. by exists response, mtext, stext.
Qed.

(** A refusal, before the secrets are cleared. *)
Definition refused_end (d : D) (r : reply) (y : ServiceState * W) : Prop :=
  service_ok (ClearDraftAuthorization y.1) /\ r.1 <> kUpdateServiceRebootReady /\ probed d (disk y.2).

Lemma lose_offer_ok g : service_ok (ClearDraftAuthorization (lose_offer g)).
Proof. by apply cleared_ok. Qed.

Lemma recheck_offer_holds consent size g w : pending_offer verify flags directory_fuel g -> offer_valid g = true ->
  (acquisition_mode (download g) = ModePreparedDraft -> access_token g <> []) ->
  holds False (recheck_offer flags verify directory_fuel consent size) (g, w)
    (fun reset y => exists o plan, redeemed consent g (disk w) o plan /\ y.1 = redeeming o plan g /\
       reset = negb (reset_count plan =? 0) /\ disk y.2 = (ProbeSimpleReadiness (manifest o) (disk w)).2)
    (refused_end (disk w)).
Proof.
  intros Hp Hv Hsec. pose proof Hp as (Hcv & (view & Hi & Hb) & info0 & o0 & c0 & _ & _ & _ & Hcd).
  assert (Hlose : forall code message g' w', code <> kUpdateServiceRebootReady -> probed (disk w) (disk w') ->
    refused_end (disk w) (code, message) (lose_offer g', w')) by (intros; split; [apply lose_offer_ok | done]).
  unfold recheck_offer. apply holds_state.
  eapply holds_bind with (P := fun _ y => exists o, authenticated (download g) view o /\
    y = (with_download (GithubClients.with_offer o (download g)) g, w)).
  { pose proof (RevalidatePendingOffer_returns view g Hp Hi) as Hr.
    destruct (RevalidatePendingOffer flags verify g) as [[r o]|st|]; [| |done].
    - apply holds_need; [intros _; apply Hlose; [done|by left]|]. intros _. exists o. split; [exact Hr | done].
    - unfold holds, sneed. cbn [fst snd]. apply Hlose; [done|by left]. }
  intros _ y (o & Ha & ->). set (g1 := with_download _ g).
  eapply holds_bind; [eapply holds_weaken; [by apply (AssessCurrentConfiguration_holds o) | done | intros ?? HP; exact HP | done]|].
  intros [st detail] [g2 w2] [[_ Hw] Hst]. cbn [fst snd] in *. assert (Hd : probed (disk w) (disk w2)) by (by left).
  apply holds_state. apply holds_need; [intros _; by apply Hlose|]. rewrite !andb_true_iff. intros [[Hok Heq] Hcount].
  destruct st; try done. destruct Hst as (plan & Hplan & ->). cbn [config_consent_sha256 planned with_config with_download] in Heq.
  rewrite Hcd in Heq. apply digests_equal in Heq; [|apply sha256_spec_digest..]. apply Z.eqb_eq in Hcount. cbn in Hcount.
  assert (Hok2 : service_ok (ClearDraftAuthorization (planned o plan g1))).
  { constructor; cbn; [|done|done]. intros _. split; [done|]. split; [by exists view|]. exists view, o, (card w). by split_and!. }
  apply holds_need; [intros _; split; [exact Hok2|done]|]. intros Hconsent.
  apply (holds_offer _ (configured o plan)); [done|].
  apply holds_need; [intros _; by apply Hlose|]. intros Habi%Z.eqb_eq. cbn in Habi.
  apply holds_disk. intros r d Hr. cbn [disk manifest configured] in Hr.
  assert (Hd' : probed (disk w) d) by (right; exists (manifest o); by rewrite <- Hw, Hr).
  apply holds_need; [intros _; by apply Hlose|]. intros Hready. apply holds_ret. exists o, plan.
  split; [|split; [done|]; split; [done|]; cbn; by rewrite <- Hw, Hr].
  constructor; try done.
  - by exists view.
  - by exists (card w).
  - split; [symmetry; rewrite Hcd; exact Heq | by symmetry].
  - intros Hne. cbn in Hconsent. rewrite (proj2 (Z.eqb_neq _ 0)) in Hconsent by done. by destruct consent.
  - rewrite <- Hw, Hr. cbn. by destruct (readiness r).
Qed.

Lemma install_body_holds consent size defer g w : service_ok g ->
  let final := fun r y => refused_end (disk w) r y \/
    exists o plan, redeemed consent g (disk w) o plan /\ y.1 = lose_offer (redeeming o plan g) /\
      installed_end g o (negb (reset_count plan =? 0)) (ProbeSimpleReadiness (manifest o) (disk w)).2 r (disk y.2) in
  holds (exists o plan, redeemed consent g (disk w) o plan /\
      installs g o (negb (reset_count plan =? 0)) (ProbeSimpleReadiness (manifest o) (disk w)).2 None)
    (install_body flags verify tinfl_init tinfl_decompress fuel directory_fuel fsize_bits consent size defer) (g, w) final final.
Proof.
  intros Hg final. unfold install_body.
  assert (Hkeep : forall code message w', code <> kUpdateServiceRebootReady -> probed (disk w) (disk w') -> final (code, message) (g, w')).
  { intros. left. split; [by apply cleared_authorization | done]. }
  apply holds_state. apply holds_need; [intros _; apply Hkeep; same|]. intros [Hv _]%andb_true_iff. pose proof (ok_offer _ _ _ _ Hg Hv) as Hp.
  eapply holds_bind; [eapply holds_weaken; [apply network_ready_now_holds | done | intros ?? HP; exact HP |]|].
  { intros r [g1 w1] (-> & Hg1 & Hw1). cbn [fst snd] in *. subst g1. apply Hkeep; same. }
  intros feature [g1 w1] [Hg1 Hw1]. cbn [fst snd] in *. subst g1. pose proof (proj2 Hw1) as Hd. apply probed_same in Hw1.
  apply holds_need; [intros _; by apply Hkeep|]. intros Hsecret.
  assert (Hsec : acquisition_mode (download g) = ModePreparedDraft -> access_token g <> []).
  { intros Hm Ht. rewrite Hm, Ht in Hsecret. done. }
  eapply holds_bind; [eapply holds_weaken; [by apply (recheck_offer_holds consent size g w1) | done | intros ?? HP; exact HP |]|].
  { intros r y Hr. left. by rewrite <- Hd. }
  intros reset [g2 w2] (o & plan & Hred & Hg2 & -> & Hw2). cbn [fst snd] in *. rewrite Hd in Hred, Hw2. subst g2. apply holds_modify.
  destruct (rd_offer _ _ _ _ _ Hred) as (info & Hi & Ha). pose proof Ha as (response & mtext & stext & _ & _ & _ & _ & _ & Ho).
  pose proof (wf_download _ _ _ _ _ (wf_asset _ _ _ (o_manifest _ _ _ _ _ _ _ _ _ _ Ho))) as Hsize.
  set (g3 := lose_offer (redeeming o plan g)).
  eapply holds_bind; [eapply holds_weaken; [by apply (DownloadArchive_holds info o plan g3) | done | intros ?? HP; exact HP | done]|].
  intros archive [g4 w4] (Hg4 & Hw4 & Harchive). cbn [fst snd] in *. subst g4.
  assert (Hrefuse : forall code message, code <> kUpdateServiceRebootReady -> final (code, message) (g3, w4)).
  { intros code message Hc. left. split; [by apply cleared_ok|]. split; [done|]. right. exists (manifest o). cbn. by rewrite Hw4, Hw2. }
  destruct (download_ok archive); cbn [negb].
  - eapply holds_weaken; [apply (install_archive_holds o plan); [done | by apply Harchive | unfold kMaximumAssetBytes, UINT64_MAX in *; lia] | | |].
    + intros Hi2. exists o, plan. split; [done|]. rewrite Hw4, Hw2 in Hi2. exact Hi2.
    + intros r [g5 w5] [Hg5 Hend]. cbn [fst snd] in *. subst g5. rewrite Hw4, Hw2 in Hend. destruct Hend as [[Hc Hd5]|Hend].
      * destruct r as [code message]. left. split; [by apply cleared_ok|]. split; [done|]. right. by exists (manifest o).
      * right. exists o, plan. by split_and!.
    + intros r [g5 w5] [Hg5 Hend]. cbn [fst snd] in *. subst g5. rewrite Hw4, Hw2 in Hend. destruct Hend as [[Hc Hd5]|Hend].
      * destruct r as [code message]. left. split; [by apply cleared_ok|]. split; [done|]. right. by exists (manifest o).
      * right. exists o, plan. by split_and!.
  - destruct (canceled archive); apply holds_ret; by apply Hrefuse.
Qed.

Lemma InstallCheckedUpdateFromMenu_holds consent size defer g w : service_ok g ->
  let final := fun r y => service_ok y.1 /\ (size <> 0 -> access_token y.1 = []) /\
    (r.1 <> kUpdateServiceRebootReady /\ probed (disk w) (disk y.2) \/
     exists o plan, redeemed consent g (disk w) o plan /\ offer_valid y.1 = false /\
      installed_end g o (negb (reset_count plan =? 0)) (ProbeSimpleReadiness (manifest o) (disk w)).2 r (disk y.2)) in
  holds (exists o plan, redeemed consent g (disk w) o plan /\
      installs g o (negb (reset_count plan =? 0)) (ProbeSimpleReadiness (manifest o) (disk w)).2 None)
    (InstallCheckedUpdateFromMenu flags verify tinfl_init tinfl_decompress fuel directory_fuel fsize_bits consent size defer) (g, w)
    final (fun _ _ => False).
Proof.
  intros Hg final. unfold InstallCheckedUpdateFromMenu. destruct (Z.eqb_spec size 0) as [Hz|Hz].
  { apply holds_ret. split; [done|]. split; [done|]. left. split; [done|]. by left. }
  pose proof (install_body_holds consent size defer g w Hg) as Hb. cbn zeta in Hb. unfold holds in Hb |- *. unfold UpdateService.run.
  assert (Hfinal : forall r y, refused_end (disk w) r y \/
      (exists o plan, redeemed consent g (disk w) o plan /\ y.1 = lose_offer (redeeming o plan g) /\
       installed_end g o (negb (reset_count plan =? 0)) (ProbeSimpleReadiness (manifest o) (disk w)).2 r (disk y.2)) ->
    final r (ClearDraftAuthorization y.1, y.2)).
  { intros r y [(Hok & Hr & Hd)|(o & plan & Hred & Hy & Hend)]; cbn [fst snd].
    - split; [done|]. split; [done|]. by left.
    - split; [rewrite Hy; by apply cleared_ok|]. split; [done|]. right. exists o, plan. split; [done|]. split; [by rewrite Hy | done]. }
  destruct (install_body _ _ _ _ _ _ _ _ _ _ _) as [[[r|r] [g' w']]|]; [apply (Hfinal r (g', w')), Hb | apply (Hfinal r (g', w')), Hb | exact Hb].
Qed.

(** ** Everything that can be called *)
Definition execute : UpdateServiceOperation -> bool -> Z -> service W reply :=
  ExecuteNetworkServiceOperation flags verify tinfl_init tinfl_decompress fuel directory_fuel fsize_bits.

Lemma execute_quiet operation consent size g w : operation <> OpInstall -> service_ok g ->
  holds False (execute operation consent size) (g, w) (quiet_end (disk w)) (quiet_end (disk w)).
Proof.
  intros Hop Hg. destruct operation; try done; unfold execute; cbn [ExecuteNetworkServiceOperation].
  - by apply CheckForUpdateFromMenu_holds.
  - by apply BeginPreparedDraftTestFromMenu_holds.
  - by apply CompletePreparedDraftTestFromMenu_holds.
  - apply holds_modify, holds_ret, quiet_cleared; [apply clear_offer_cleared | done | by left].
Qed.

Lemma execute_ok operation consent size g w r y : service_ok g -> execute operation consent size (g, w) = Some (r, y) -> service_ok y.1.
Proof.
  intros Hg Hrun. assert (Hop : operation = OpInstall \/ operation <> OpInstall) by (destruct operation; first [by left | by right]).
  destruct Hop as [->|Hne].
  - pose proof (InstallCheckedUpdateFromMenu_holds consent size true g w Hg) as Hh. unfold holds in Hh.
    unfold execute in Hrun. cbn [ExecuteNetworkServiceOperation] in Hrun. rewrite Hrun in Hh. destruct r; [done | apply Hh].
  - pose proof (execute_quiet operation consent size g w Hne Hg) as Hh. unfold holds in Hh. rewrite Hrun in Hh. destruct r; apply Hh.
Qed.

(** The states after any sequence of calls; between two of them the world may become
    any other. *)
Inductive reachable : ServiceState -> Prop :=
| reachable_start : reachable initial_service
| reachable_execute g operation consent size w r y : reachable g -> execute operation consent size (g, w) = Some (r, y) -> reachable y.1
| reachable_version g size w r y : reachable g -> ReadInstalledVersionForMenu (E := E) (D := D) size (g, w) = Some (r, y) -> reachable y.1
| reachable_available g w r y : reachable g ->
    PreparedDraftTestAvailableForMenu (E := E) (D := D) flags verify (g, w) = Some (r, y) -> reachable y.1
| reachable_deferred g size w r y : reachable g -> CompleteDeferredUpdateReboot (F := F) (D := D) size (g, w) = Some (r, y) -> reachable y.1.

Lemma reachable_ok g : reachable g -> service_ok g.
Proof.
  induction 1 as [|g operation consent size w r y _ IH Hrun | g size w r y _ IH Hrun | g w r y _ IH Hrun | g size w r y _ IH Hrun].
  - apply cleared_ok, initial_cleared.
  - by eapply execute_ok.
  - pose proof (ReadInstalledVersionForMenu_holds size g w IH) as Hh. unfold holds in Hh. rewrite Hrun in Hh. destruct r; [done | apply Hh].
  - pose proof (PreparedDraftTestAvailableForMenu_holds g w IH) as Hh. unfold holds in Hh. rewrite Hrun in Hh. destruct r; [done | apply Hh].
  - pose proof (CompleteDeferredUpdateReboot_holds size g w IH) as Hh. unfold holds in Hh. rewrite Hrun in Hh. destruct r; [done | apply Hh].
Qed.

(** C5. The state of the update service is in order after any sequence of calls of the
    menu, whatever the network, the card and the clock answer, and whatever becomes of
    them in between:
    an offer that the user may accept was authenticated against the compiled keys,
    from the texts that are still kept, and its configuration plan is that of files
    read from the card, with its consent digest; a GitHub token exists only together
    with the valid offer of a prepared draft; and a device authorization is pending
    only when there is neither an offer nor a token. *)
Theorem UpdateService_state_ok g (Hg : reachable g) : service_ok g.
Proof. by apply reachable_ok. Qed.


End service.

(** ** A system, for the examples *)
(** The files of a card, the last written first; file object 1 is the one that is
    written, with its path, and 2 the one that is read, with the position.  Content
    that is not bytes cannot be read. *)
Record Drive := mkDrive { drive_files : list (bytes * bytes); drive_writing : option (bytes * bytes); drive_reading : option (bytes * Z) }.

Definition drive_find (p : bytes) (s : Drive) : option bytes := snd <$> find (fun x => bytes_eqb x.1 p) (drive_files s).

#[export] Instance drive_fatfs : FatFs Drive := {
  f_stat p s := match drive_find p s with Some c => (FR_OK, mkInfo false (len c), s) | None => (FR_NO_FILE, mkInfo false 0, s) end;
  f_mkdir _ s := (FR_EXIST, s);
  f_unlink p s := (FR_OK, mkDrive (filter (fun x => x.1 <> p) (drive_files s)) (drive_writing s) (drive_reading s));
  f_rename p q s :=
    match drive_find p s with
    | Some c => (FR_OK, mkDrive ((q, c) :: filter (fun x => x.1 <> p) (drive_files s)) (drive_writing s) (drive_reading s))
    | None => (FR_NO_FILE, s)
    end;
  f_open p mode s :=
    match mode with
    | WriteNew => (FR_OK, 1, mkDrive (drive_files s) (Some (p, [])) (drive_reading s))
    | ReadExisting =>
        match drive_find p s with
        | Some c => (FR_OK, 2, mkDrive (drive_files s) (drive_writing s) (Some (c, 0)))
        | None => (FR_NO_FILE, 0, s)
        end
    end;
  f_close file s :=
    match drive_writing s with
    | Some x => if file =? 1 then (FR_OK, mkDrive (x :: drive_files s) None (drive_reading s)) else (FR_OK, s)
    | None => (FR_OK, s)
    end;
  f_sync _ s := (FR_OK, s);
  f_write _ d s := (FR_OK, len d, mkDrive (drive_files s) ((fun x => (x.1, x.2 ++ d)) <$> drive_writing s) (drive_reading s));
  f_read _ n s :=
    match drive_reading s with
    | Some (c, p) =>
        let d := sub c p n in
        if forallb (in_range 0 255) d then (FR_OK, d, mkDrive (drive_files s) (drive_writing s) (Some (c, p + len d))) else (FR_ERROR 1, [], s)
    | None => (FR_ERROR 9, [], s)
    end;
  f_lseek _ offset s := (FR_OK, mkDrive (drive_files s) (drive_writing s) ((fun x => (x.1, offset)) <$> drive_reading s));
  f_tell _ s := default 0 (snd <$> drive_reading s);
  f_size _ s := default 0 ((fun x => len x.1) <$> drive_reading s);
}.

#[export] Instance drive_bytes : FatFsBytes Drive.
Proof.
  intros file n s. cbn. destruct (drive_reading s) as [[c p]|]; [|constructor].
  destruct (forallb _ _) eqn:Hb; [|constructor]. cbn. rewrite forallb_forall in Hb. apply Forall_forall. intros b Hin.
  specialize (Hb b (proj1 (list_elem_of_In _ _) Hin)). apply in_range_spec in Hb. unfold is_byte. lia.
Qed.

#[export, refine] Instance drive_storing : FatFsWriting Drive := {
  receiving s file := if file =? 1 then drive_writing s else None;
  stored s p := drive_find p s;
}.
Proof.
  - intros path s. done.
  - intros file d s path c. cbn. destruct (file =? 1); [|done]. by intros ->.
  - intros file s x. by cbn.
  - intros file s path c. cbn. destruct (file =? 1); [|done]. intros ->. intros _. unfold drive_find. cbn. by rewrite (proj2 (bytes_eqb_eq path path)).
  - intros path s p. cbn. by destruct (drive_find path s).
  - intros p q s c. cbn. intros ->. intros _. unfold drive_find. cbn. by rewrite (proj2 (bytes_eqb_eq q q)).
Defined.

#[export, refine] Instance drive_opening : FatFsReading Drive := { opened s file := if file =? 2 then drive_reading s else None }.
Proof.
  - intros path s. cbn. destruct (drive_find path s) as [c|]; cbn; [|by intros [=]]. intros _. by eexists.
  - intros file n s c p. cbn. destruct (file =? 2); [|done]. destruct (drive_reading s) as [[c0 p0]|] eqn:Er; [|done]. intros [= <- <-] _.
    destruct (forallb _ _); cbn; (split; [by eexists | done]).
  - intros file offset s c p. cbn. destruct (file =? 2); [|done]. intros ->. by eexists.
  - intros file s c p. cbn. destruct (file =? 2); [|done]. by intros ->.
  - intros file s c p. cbn. destruct (file =? 2); [|done]. by intros ->.
Defined.

#[export] Instance drive_stored : FatFsStored Drive.
Proof.
  intros path s. cbn. destruct (drive_find path s) as [c|]; cbn; [|by intros [=]]. intros _. exists c. done.
Qed.

#[export] Instance drive_volume : ConfigVolume Drive := {
  f_opendir _ s := (FR_OK, 1, s);
  f_readdir _ s := (FR_OK, ([], false), s);
  f_closedir _ s := (FR_OK, s);
  Allocate _ s := (true, s);
}.

#[export, refine] Instance drive_directories : FiniteDirectories Drive 0 := { unread _ _ := Some [] }.
Proof.
  - intros path s. cbn. intros _. exists []. split; [done|]. split; [done|constructor].
  - intros d s l. cbn. by intros [= <-].
Defined.

(** Everything is enabled; the clock is at 1500. *)
#[export] Instance agreeable_system : UpdateSystem (list bytes * list event) unit := {
  network_feature s := (Some (true, true), s);
  network_running s := (true, s);
  progress_available _ := true;
  allocate_state s := (true, s);
  new_object s := (true, s);
  universal_epoch s := (1500, s);
  compiled_updater_abi := 2;
  clock_at_least _ s := (None, s);
  prepare_shutdown s := (true, s);
  reboot s := s;
  secure_factory _ e := e;
  mandatory_checkpoint _ _ _ e := e;
}.

#[local] Existing Instance Memory.memory_file_system.
Definition sample_flags : BuildFlags := mkFlags true true false Pi5Pi500.
Definition sample_world (files : list (bytes * bytes)) (script : list bytes)
    : World (list bytes * list event) Drive Memory.Volume unit :=
  mkWorld (script, []) (mkDrive files None None) (small_volume []) tt.

(** An end-to-end run with small fuel: the record of the installation is read, GitHub is
    asked, and an answer that is not one is refused. *)
Definition sample_execute (fuel : nat) :=
  ExecuteNetworkServiceOperation (D := Memory.Volume) (F := Drive) (E := list bytes * list event) (S := unit) sample_flags sample_verify tt no_inflate fuel 1 64.
Example sample_check_refused :
  (fun x => (x.1, offer_valid x.2.1, length (net x.2.2).2)) <$>
    sample_execute 4000 OpCheck false 100 (initial_service, sample_world [(kInstalledBuildPath, BuildInfo.sample_file)] [http_ok (str "[]")]) =
  Some (inr (-1, str "Update check failed: GitHub latest-release response invalid"), false, 5%nat).
Proof. vm_compute. reflexivity. Qed.

(** The other examples have the fuel that the theorems ask for, and no record on the card. *)
Definition enough_fuel : nat := body_fuel kMaximumAssetBytes.
Definition sample_state : ServiceState := with_installed [] [] (with_allocated true (clear_offer initial_service)).

Notation sample_reachable := (reachable (F := Drive) (D := Memory.Volume) (S := unit) sample_verify sample_flags enough_fuel 1 tt no_inflate 64).

Lemma sample_state_reachable : sample_reachable sample_state.
Proof.
  apply (reachable_execute sample_verify sample_flags enough_fuel 1 tt no_inflate 64 initial_service OpCheck false 200
    (sample_world [] []) (inl (0, str "This is a legacy BMX installation. Install the first updater-capable ZIP manually from github.com/kdre/bmx/releases."))
    (sample_state, sample_world [] [])).
  - apply reachable_start.
  - reflexivity.
Qed.

Lemma one_turn : (0 < 1)%nat.
Proof. lia. Qed.
Lemma client_fuel_small : (client_fuel <= enough_fuel)%nat.
Proof. by apply body_fuel_mono. Qed.

Lemma UpdateService_state_ok_witness : service_ok sample_verify sample_flags 1 sample_state.
Proof.
  apply (UpdateService_state_ok (E0 := list bytes) (F := Drive) (D := Memory.Volume) (S := unit) sample_verify sample_flags enough_fuel 1 one_turn
    client_fuel_small (body_fuel_mono _ _ (Z.le_refl _)) tt no_inflate 64 sample_state sample_state_reachable).
Defined.


